(* ===== verification/_CoqProject ===== *)
-Q . S2P
Prelude.v
Wp.v
PyDict.v
Types.v
Errors.v
Text.v
NextId.v
LruCache.v
ReqCache.v
MpCache.v
Indices.v
LocalKey.v
Auth.v
Priv.v
Column.v
TableIndex.v
Vacm.v
PduApi.v
Proxy.v
Instrum.v
Scalars.v
RowStatus.v
Rows.v
Mib.v
MibNext.v
RowPhases.v
RowsSpec.v
Cmdrsp.v
V3Msg.v
SecModel.v
Usm.v
UsmSpec.v
UsmClocks.v
MpV3.v
MpV3Spec.v
MpV3Engines.v
MpV3Exchange.v
Transport.v
Community.v
CommunitySpec.v
MpV1.v
MpV1Spec.v
Dispatcher.v
DispatcherSpec.v
Engine.v
EngineSpec.v
Carrier.v
CarrierSpec.v
Stream.v
StreamSpec.v
StreamQueue.v
Target.v
TargetSpec.v
Cmdgen.v
CmdgenSpec.v
CmdgenRuns.v
Config.v
ConfigSpec.v
Ntforg.v
NtforgSpec.v
View.v
ViewSpec.v
OidKey.v
Corpus.v
CorpusSpec.v
Ntfrcv.v
DisplayHint.v
DisplayHintSpec.v
KeyChange.v
KeyChangeSpec.v
DhExchange.v
DhExchangeSpec.v
Lcd.v
LcdSpec.v
ObjectId.v
ObjectIdSpec.v
BindingSpec.v
Cells.v
Loader.v
LoaderSpec.v
