(* ===== verification/Prelude.v ===== *)
(** * A verification development for the pysnmp engine

    pysnmp is an SNMP engine: it sends and answers requests in SNMPv1, v2c and v3
    over asynchronous transports, secures them, and reads and writes a tree of
    managed objects under access control.  This library models the engine from the
    stream of octets up to the applications and proves what makes the parts, and
    their composition, correct.  The Python sources are under src/pysnmp; paths
    below are relative to it.

    ** How the parts interact

    - A transport turns octets into messages ([Stream]) and hands them to the
      transport dispatcher ([Carrier]), which routes them to the engine ([Engine])
      and ticks the timers everything that expires is driven by.
    - The engine's message and PDU dispatcher ([Dispatcher]) picks a message
      processing model by the version of the message: [MpV1] for SNMPv1 and v2c,
      [MpV3] for SNMPv3.  Each keeps what is in flight in a cache ([MpCache]).
    - A message processing model picks a security model through the interface
      [Mp.security_model] of SecModel.v: [Community] for communities, [Usm] for
      users.  The user-based model stands on [Auth], [Priv] and [LocalKey].
    - The dispatcher hands a request to an application, the command responder
      ([Cmdrsp]), which asks the access control model ([Vacm]) and runs the
      operation on the MIB ([Instrum], [Scalars], [Rows]) and answers.
    - Applications that send: the command generator ([Cmdgen]) and the notification
      originator ([Ntforg]) look their targets up ([Target]), send through the
      dispatcher, and match, retry and report; the receiver of notifications is
      [Ntfrcv].  Requests to and from v1 peers are translated ([Proxy]).
    - The MIB tables themselves are columns ([Column]) over ordered dictionaries
      ([Indices]), with rows named by their indices ([TableIndex]); a SET creates,
      writes and destroys rows in phases ([Rows], [RowPhases]), steered by the status
      column ([RowStatus]), and GETNEXT walks the tree ([Mib], [MibNext]), in which the
      controller registers the tables and their rows side by side ([Mib.indexMib]).
      Values are shown and read by their display hints ([DisplayHint]).
    - Above the tree, names are resolved by a view of the loaded modules ([View]), which
      asks a corpus of modules ([Corpus], keyed by [OidKey]) for what is not loaded.
      Applications name variables by objects that the view resolves ([ObjectId]) and
      tables by their cells ([Cells]).  The modules themselves are found, run and recorded
      by the builder ([Loader]).
    - The configuration the engine reads is written by [Config]; the high-level API
      writes it for each call and counts who uses what ([Lcd]).  A user's key is changed
      by a Diffie-Hellman agreement ([KeyChange]) that the manager drives ([DhExchange]).

    ** Conventions

    - A call that may raise returns a [result]; [exn] (Errors.v) is the class of
      the exception with what the code reads of it, and an [except] clause is a
      predicate on [exn].  A call with effects is [M exn S A]: state in, outcome
      and state out, where the state survives an exception as it does in Python.
      [zoom] runs a call on a part of the state.
    - Python's dictionaries are insertion-ordered association lists ([PyDict]);
      where no order can be observed, stdpp's [gmap].  Integers are [Z], with the
      range of a field or the wrap of a counter written out (Types.v); octets are
      lists of [Z]; a pyasn1 value is its tag and payload.
    - [Wp] is the calculus for reasoning about effects: [wp m Q s] with rules for
      each construct, and [wp_steps].
    - Objects that Python shares are shared: the PDU a v1 model changes in place
      is part of the state of the call ([MpV1]); the request object of a walk is
      carried by every round ([Cmdgen]).

    ** The files

    Foundations: Prelude.v (results, state, lists, the order of OIDs), Wp.v,
    PyDict.v, Types.v (proto/rfc1155.py, rfc1157.py, rfc1902.py, rfc1905.py,
    rfc3411.py), Errors.v (proto/error.py, proto/errind.py, smi/error.py), Text.v
    (numbers and words in text).

    Stores: NextId.v (nextid.py), LruCache.v (cache.py), ReqCache.v
    (proto/cache.py, proto/secmod/cache.py), MpCache.v
    (proto/mpmod/cache.py), Indices.v (smi/indices.py).

    Cryptography: LocalKey.v (proto/secmod/rfc3414/localkey.py), Auth.v
    (rfc3414/auth, rfc7860/auth), Priv.v (rfc3414/priv, rfc3826/priv, eso/priv).

    The MIB: Column.v, TableIndex.v, Scalars.v, Rows.v, RowPhases.v and RowsSpec.v,
    Mib.v and MibNext.v (smi/mibs/SNMPv2-SMI.py, smi/instrum.py), RowStatus.v, DisplayHint.v and
    DisplayHintSpec.v (smi/mibs/SNMPv2-TC.py), Instrum.v (smi/instrum.py), View.v and
    ViewSpec.v (smi/view.py), Cells.v (smi/view.py and the rows of SNMPv2-SMI.py),
    ObjectId.v, ObjectIdSpec.v and BindingSpec.v (smi/rfc1902.py, hlapi/varbinds.py),
    OidKey.v, Corpus.v and CorpusSpec.v (smi/corpus.py), Loader.v and LoaderSpec.v
    (smi/builder.py).

    Security: Vacm.v (proto/acmod/rfc3415.py), Usm.v, UsmSpec.v and UsmClocks.v
    (proto/secmod/rfc3414/service.py), Community.v and CommunitySpec.v
    (proto/secmod/rfc2576.py), SecModel.v (the interface, proto/secmod/base.py).

    Messages: PduApi.v (proto/api), Proxy.v (proto/proxy/rfc2576.py), V3Msg.v,
    MpV3.v with MpV3Spec.v, MpV3Engines.v and MpV3Exchange.v
    (proto/mpmod/rfc3412.py), MpV1.v and MpV1Spec.v (proto/mpmod/rfc2576.py),
    Dispatcher.v and DispatcherSpec.v (proto/rfc3412.py, proto/api/verdec.py),
    Engine.v and EngineSpec.v (entity/engine.py).

    Transports: Transport.v (addresses), Carrier.v and CarrierSpec.v
    (carrier/base.py), Stream.v, StreamSpec.v and StreamQueue.v
    (carrier/asyncio/stream/base.py).

    Applications: Cmdrsp.v (entity/rfc3413/cmdrsp.py), Target.v and TargetSpec.v
    (entity/rfc3413/config.py), Cmdgen.v, CmdgenSpec.v and CmdgenRuns.v
    (entity/rfc3413/cmdgen.py), Ntforg.v and NtforgSpec.v
    (entity/rfc3413/ntforg.py), Ntfrcv.v (entity/rfc3413/ntfrcv.py), Config.v and
    ConfigSpec.v (entity/config.py), Lcd.v and LcdSpec.v (hlapi/lcd.py, hlapi/auth.py),
    KeyChange.v and KeyChangeSpec.v (proto/secmod/rfc2786), DhExchange.v and
    DhExchangeSpec.v (hlapi/asyncio/dh.py).

    ** What the theorems show

    - End to end: a request sent by an application of one engine is answered by the
      application registered at the other and the answer reaches the callback
      (EngineSpec.v); the same for each message format, for any security models
      that carry the two messages (MpV3Exchange.v, MpV1Spec.v).
    - Security: what is accepted carries a valid MAC of its user, within the time
      window of the engine (UsmSpec.v); the services decrypt and verify what they
      made and nothing else (Auth.v, Priv.v); the access control caches are
      transparent and the decision is the longest match (Vacm.v); where the code
      falls short of its documents (replay at a non-authoritative engine, a
      spoofed report, a missing view) a theorem exhibits it.
    - Accounting: no callback without its request and none twice, nothing
      pending after a send that was refused (DispatcherSpec.v), a tick calls back what is
      due (EngineSpec.v); jobs are the pending requests (CmdgenSpec.v);
      what is in flight is indexed consistently and expires (MpCache.v); queued
      messages are written in order or reported (StreamQueue.v); an inform completes
      once (NtforgSpec.v); an address has its parameters (LcdSpec.v).
    - Keys: both sides of a key change hold the same key, and a key change that failed
      before its SET changed nothing (KeyChangeSpec.v, DhExchangeSpec.v).
    - Names: a label leads to its node and back (ViewSpec.v), a module, a symbol and
      index values to an instance and back (ObjectIdSpec.v), a row and a column to a cell
      and back (Cells.v); the bindings of a response keep their names, and a notification
      has all of its bindings (BindingSpec.v); the nodes of several corpora come in the
      order of their names, each module from the newest (CorpusSpec.v); GETNEXT answers with the successor (MibNext.v).
    - Modules: the newest copy is loaded, loading ends, what is recorded of the modules is
      consistent, and what was loaded can be unloaded (LoaderSpec.v).
    - Transactions: each MIB operation ends; over scalars a refused SET writes
      nothing, a permitted and accepted one everything (Scalars.v); a row is created and
      destroyed whole (RowsSpec.v).
    - Round trips: framing, keys, ciphers, MACs, indices, PDU translations, USM and
      community messages, sort keys, dotted names, octets and numbers as text, key change
      values and instances, names and cells.
    - Termination and bounds: walks, retries, bulk answers, identifiers, timers.

    ** Bounds and fuel

    [Instrum.rounds] is seven, more than any path of the three state machines
    ([fsm_terminates]).  The loops over the instances of a column and over the
    octets of a stream run on the number of instances and of octets they can
    consume ([Column.for_each_spec], [StreamSpec.frames]); bisection on the length
    of the list; the GETNEXT loop for v1 managers on the number of names.  Walks
    are counted in rounds by the theorem about them ([walk_visits_everything]).  The
    search over the rows of a corpus runs on the number of rows.  The loops of a display
    hint answer [None] when their fuel is out, since some of them do not end
    ([rendering_ends] says when they do); the search for a fitting key pair has the bounds
    of the code; [Loader.loadModules] is nested as deep as files and modules of the corpus
    remain ([loading_ends]); [Config.delV3User] and what calls it take the depth of
    cloned users.

    ** Parameters

    Code that is not in the repository is an argument: hash functions and block
    ciphers (hashlib, pycryptodomex) with the sizes they document, the BER codec
    (pyasn1) with the law that it decodes what it encoded, the clocks and random
    sources, the order in which Python goes through a set.  Callbacks and
    applications are arbitrary calls on the state.  Each hypothesis about them is
    discharged for a concrete instance by the witness of the theorem.

    ** Not modelled

    The event loop and the sockets below it (carrier/asyncio/dispatch.py but its
    ticking task, carrier/asyncio/dgram, carrier/sockmsg.py, sockfix.py): what
    asyncio calls is modelled as operations.  BER and DER (pyasn1).  The code of MIB
    modules (smi/mibs), the compiler that writes it and what makes the same of a corpus
    (smi/compiler.py, smi/synthesis.py): to the loader a module is the calls it makes on
    the builder, and [View.builder] and the tree are what is read of its objects.  The
    coroutines of the high-level API (hlapi/asyncio but dh.py), which wrap the command
    generator and the notification originator.  The registration of
    transports in entity/config.py, an interface of Config.v and Lcd.v.  Observers and
    debug output, which do not change what the engine does. *)
From stdpp Require Export base tactics list numbers gmap strings fin_maps sorting.
From Stdlib Require Export ZArith Lia.

(** ** Notations *)
Declare Scope snmp_scope.
Delimit Scope snmp_scope with snmp.
#[global] Open Scope Z_scope.

Abbreviation octets := (list Z).
Abbreviation oid := (list Z).

(** ** Results: a Python call returns a value or raises *)
Inductive result (E A : Type) : Type :=
  | Ok (a : A)
  | Err (e : E).
Arguments Ok {E A} a.
Arguments Err {E A} e.

#[global] Instance result_ret {E} : MRet (result E) := fun A a => Ok a.
#[global] Instance result_bind {E} : MBind (result E) := fun A B k m =>
  match m with Ok a => k a | Err e => Err e end.
#[global] Instance result_fmap {E} : FMap (result E) := fun A B f m =>
  match m with Ok a => Ok (f a) | Err e => Err e end.

Definition is_Ok {E A} (r : result E A) : Prop := ∃ a, r = Ok a.

Definition from_option_exc {E A} (e : E) (o : option A) : result E A :=
  match o with Some a => Ok a | None => Err e end.

(** ** The state-and-exception monad: an exception keeps the state reached *)
Definition M (E S A : Type) : Type := S → result E A * S.

#[global] Instance M_ret {E S} : MRet (M E S) := fun A a s => (Ok a, s).
#[global] Instance M_bind {E S} : MBind (M E S) := fun A B k m s =>
  match m s with
  | (Ok a, s') => k a s'
  | (Err e, s') => (Err e, s')
  end.

Definition raise {E S A} (e : E) : M E S A := fun s => (Err e, s).
Definition gets {E S A} (f : S → A) : M E S A := fun s => (Ok (f s), s).
Definition modify {E S} (f : S → S) : M E S unit := fun s => (Ok tt, f s).
Definition liftR {E S A} (r : result E A) : M E S A := fun s => (r, s).

(** [try m except h]: [h] answers [None] for an exception it does not name. *)
Definition try_except {E S A} (m : M E S A) (h : E → option (M E S A)) : M E S A :=
  fun s => match m s with
           | (Ok a, s') => (Ok a, s')
           | (Err e, s') =>
               match h e with Some k => k s' | None => (Err e, s') end
           end.

(** Run a computation on a component of a larger state. *)
Definition zoom {E S T A} (get : T → S) (put : S → T → T) (m : M E S A) : M E T A :=
  fun t => let '(r, s') := m (get t) in (r, put s' t).

Fixpoint mapM_ {E S A} (f : A → M E S unit) (l : list A) : M E S unit :=
  match l with
  | [] => mret tt
  | x :: l' => f x ≫= fun _ => mapM_ f l'
  end.

(** A loop that updates a value and may raise. *)
Fixpoint foldM {E A D} (f : A → D → result E D) (l : list A) (d : D) : result E D :=
  match l with
  | [] => Ok d
  | x :: l' => f x d ≫= fun d' => foldM f l' d'
  end.

(** ** Octet strings *)
Definition is_octet (b : Z) : Prop := 0 ≤ b < 256.
Definition is_octets (l : octets) : Prop := Forall is_octet l.

(** [bytes.find]: the first position of [sub] in [l]. *)
Fixpoint bytes_find (sub l : octets) : option nat :=
  if decide (sub `prefix_of` l) then Some 0%nat
  else match l with
       | [] => None
       | _ :: l' => S <$> bytes_find sub l'
       end.

(** The [n] low octets of [v], the most significant first. *)
Fixpoint be_octets (n : nat) (v : Z) : octets :=
  match n with
  | O => []
  | S n' => Z.land (Z.shiftr v (8 * Z.of_nat n')) 255 :: be_octets n' v
  end.

(** [int.from_bytes(o, "big")] *)
Definition from_be (o : octets) : Z := foldl (λ n b, n * 256 + b) 0 o.

(** [n.bit_length()] of a number that is not negative *)
Definition bit_length (n : Z) : Z := if n =? 0 then 0 else Z.log2 n + 1.
(** The octets such a number takes: one for zero *)
Definition octets_needed (n : Z) : Z := Z.max 1 ((bit_length n + 7) / 8).

(** [map(lambda x, y: x ^ y, a, b)]: stops at the shorter argument. *)
Definition xor_octets (a b : octets) : octets := zip_with Z.lxor a b.

(** Lexicographic comparison of tuples of integers. *)
Fixpoint tuple_compare (a b : list Z) : comparison :=
  match a, b with
  | [], [] => Eq
  | [], _ :: _ => Lt
  | _ :: _, [] => Gt
  | x :: a', y :: b' =>
      match Z.compare x y with Eq => tuple_compare a' b' | c => c end
  end.
Definition tuple_leb (a b : list Z) : bool :=
  match tuple_compare a b with Gt => false | _ => true end.
Definition tuple_ltb (a b : list Z) : bool :=
  match tuple_compare a b with Lt => true | _ => false end.

(** ** [sorted(l, key=key)]: the stable sort *)
Section stable_sort.
Context {A K : Type} (leb : K → K → bool) (key : A → K).

Fixpoint insert_by (x : A) (l : list A) : list A :=
  match l with
  | [] => [x]
  | y :: l' => if leb (key x) (key y) then x :: y :: l' else y :: insert_by x l'
  end.

Definition sorted_by (l : list A) : list A := foldr insert_by [] l.
End stable_sort.

(** ** A total preorder given by a boolean comparison *)
Class TotalLeb {K : Type} (leb : K → K → bool) : Prop := {
  leb_refl : ∀ x, leb x x = true;
  leb_trans : ∀ x y z, leb x y = true → leb y z = true → leb x z = true;
  leb_total : ∀ x y, leb x y = false → leb y x = true;
}.

(** ** Automation *)
Create HintDb snmp.
Create Rewrite HintDb snmp.

(** Unfold the monads and reduce. *)
Ltac munfold :=
  unfold mbind, mret, fmap, M_bind, M_ret, result_bind, result_ret, result_fmap,
    raise, gets, modify, liftR, try_except, zoom in *;
  cbn beta match fix zeta delta [fst snd] in *.

(** Split a hypothesis or goal on the next [match] or [if] scrutinee. *)
Ltac case_step :=
  match goal with
  | H : context [match ?x with _ => _ end] |- _ =>
      lazymatch x with context [match _ with _ => _ end] => fail | _ => destruct x eqn:? end
  | |- context [match ?x with _ => _ end] =>
      lazymatch x with context [match _ with _ => _ end] => fail | _ => destruct x eqn:? end
  end.

Ltac bool_to_prop :=
  repeat match goal with
  | H : (_ && _)%bool = true |- _ => apply andb_true_iff in H as [? ?]
  | H : (_ || _)%bool = false |- _ => apply orb_false_iff in H as [? ?]
  | H : negb _ = true |- _ => apply negb_true_iff in H
  | H : negb _ = false |- _ => apply negb_false_iff in H
  | H : bool_decide _ = true |- _ => apply bool_decide_eq_true in H
  | H : bool_decide _ = false |- _ => apply bool_decide_eq_false in H
  | H : (_ =? _) = true |- _ => apply Z.eqb_eq in H
  | H : (_ =? _) = false |- _ => apply Z.eqb_neq in H
  | H : (_ <? _) = true |- _ => apply Z.ltb_lt in H
  | H : (_ <? _) = false |- _ => apply Z.ltb_ge in H
  | H : (_ <=? _) = true |- _ => apply Z.leb_le in H
  | H : (_ <=? _) = false |- _ => apply Z.leb_gt in H
  end.

(** ** Lemmas: tuple order *)
Lemma tuple_compare_eq a b : tuple_compare a b = Eq ↔ a = b.
Proof.
  split; [|intros ->; induction b; cbn; [done|by rewrite Z.compare_refl]].
  revert b; induction a as [|x a IH]; intros [|y b]; cbn; try done.
  destruct (Z.compare_spec x y) as [->| |]; try done. intros H. by rewrite (IH b H).
Qed.

Lemma tuple_compare_antisym a b : tuple_compare b a = CompOpp (tuple_compare a b).
Proof.
  revert b; induction a as [|x a IH]; intros [|y b]; cbn; try done.
  rewrite (Z.compare_antisym x y). destruct (x ?= y); cbn; auto.
Qed.

Lemma tuple_compare_lt_trans a b c :
  tuple_compare a b = Lt → tuple_compare b c = Lt → tuple_compare a c = Lt.
Proof.
  revert b c; induction a as [|x a IH]; intros [|y b] [|z c]; cbn; try done.
  destruct (Z.compare_spec x y), (Z.compare_spec y z), (Z.compare_spec x z);
    subst; try done; try lia; eauto.
Qed.

#[global] Instance tuple_leb_total : TotalLeb tuple_leb.
Proof.
  assert (Hrefl : ∀ x, tuple_compare x x = Eq) by (intros; by apply tuple_compare_eq).
  split; unfold tuple_leb.
  - intros x. by rewrite Hrefl.
  - intros x y z.
    destruct (tuple_compare x y) eqn:Hxy; try done;
    destruct (tuple_compare y z) eqn:Hyz; try done; intros _ _;
    rewrite ?tuple_compare_eq in *; subst; rewrite ?Hrefl, ?Hxy, ?Hyz; try done.
    by rewrite (tuple_compare_lt_trans _ _ _ Hxy Hyz).
  - intros x y. rewrite (tuple_compare_antisym x y). by destruct (tuple_compare x y).
Qed.

#[global] Instance Zleb_total : TotalLeb Z.leb.
Proof. split; intros; bool_to_prop; rewrite ?Z.leb_le in *; lia. Qed.

Lemma tuple_ltb_leb a b : tuple_ltb a b = negb (tuple_leb b a).
Proof.
  unfold tuple_ltb, tuple_leb. rewrite (tuple_compare_antisym a b).
  by destruct (tuple_compare a b).
Qed.

Lemma tuple_ltb_irrefl a : tuple_ltb a a = false.
Proof. by rewrite tuple_ltb_leb, leb_refl. Qed.

Lemma tuple_leb_antisym a b : tuple_leb a b = true → tuple_leb b a = true → a = b.
Proof.
  unfold tuple_leb. rewrite (tuple_compare_antisym a b).
  destruct (tuple_compare a b) eqn:E; cbn; try done. by apply tuple_compare_eq in E.
Qed.

(** ** Lemmas: the stable sort *)
Section stable_sort_lemmas.
Context {A K : Type} (leb : K → K → bool) (key : A → K).
Let le (x y : A) : Prop := leb (key x) (key y) = true.

Lemma insert_by_perm x l : insert_by leb key x l ≡ₚ x :: l.
Proof.
  induction l as [|y l IH]; cbn; [done|]. case_match; [done|].
  rewrite IH. constructor.
Qed.

Lemma sorted_by_perm l : sorted_by leb key l ≡ₚ l.
Proof.
  induction l as [|x l IH]; cbn; [done|]. by rewrite insert_by_perm, IH.
Qed.

Lemma sorted_by_length l : length (sorted_by leb key l) = length l.
Proof. by rewrite sorted_by_perm. Qed.

Context `{!TotalLeb leb}.

Lemma insert_by_sorted x l :
  StronglySorted le l → StronglySorted le (insert_by leb key x l).
Proof.
  induction l as [|y l IH]; cbn; intros Hs; [repeat constructor|].
  inversion Hs as [|? ? Hl Hall]; subst. destruct (leb (key x) (key y)) eqn:E.
  - constructor; [done|]. constructor; [done|].
    eapply Forall_impl; [exact Hall|]. unfold le. intros; by eapply leb_trans.
  - constructor; [auto|]. rewrite insert_by_perm. constructor; [|done].
    by apply leb_total.
Qed.

Lemma sorted_by_sorted l : StronglySorted le (sorted_by leb key l).
Proof. induction l; cbn; [constructor|by apply insert_by_sorted]. Qed.

(** A prefix of the sorted list holds the least keys. *)
Lemma sorted_by_take_least n l x y :
  x ∈ take n (sorted_by leb key l) → y ∈ drop n (sorted_by leb key l) → le x y.
Proof.
  intros Hx Hy. pose proof (sorted_by_sorted l) as Hs.
  rewrite <- (take_drop n (sorted_by leb key l)) in Hs.
  revert Hx Hs. generalize (take n (sorted_by leb key l)). intros p.
  induction p as [|z p IH]; [by intros ?%elem_of_nil|].
  intros Hx Hs. inversion Hs as [|? ? Hs' Hall]; subst.
  apply elem_of_cons in Hx as [->|Hx]; [|auto].
  rewrite Forall_forall in Hall. apply Hall, elem_of_app. by right.
Qed.

End stable_sort_lemmas.

Lemma sorted_by_fmap {A B K} (leb : K → K → bool) (key : B → K) (f : A → B) l :
  sorted_by leb key (f <$> l) = f <$> sorted_by leb (λ x, key (f x)) l.
Proof.
  assert (Hi : ∀ x l, insert_by leb key (f x) (f <$> l) =
    f <$> insert_by leb (λ x, key (f x)) x l).
  { intros x l'. induction l' as [|y l' IH]; cbn; [done|]. case_match; [done|].
    cbn. f_equal. exact IH. }
  induction l as [|x l IH]; [done|]. unfold sorted_by in *. cbn. by rewrite IH, Hi.
Qed.

Lemma StronglySorted_lookup {A} (R : A → A → Prop) l i j x y :
  StronglySorted R l → (i < j)%nat → l !! i = Some x → l !! j = Some y → R x y.
Proof.
  intros Hs. revert i j; induction Hs as [|z l _ IH Hall]; intros i j Hij Hi Hj; [done|].
  destruct j as [|j]; [lia|]. destruct i as [|i]; cbn in *.
  - injection Hi as <-. rewrite Forall_forall in Hall. by eapply Hall, list_elem_of_lookup_2.
  - eapply IH; [|done|done]. lia.
Qed.

Lemma filter_ext_in {A} (P Q : A → Prop) `{∀ x, Decision (P x), ∀ x, Decision (Q x)} (l : list A) :
  (∀ x, x ∈ l → P x ↔ Q x) → filter P l = filter Q l.
Proof.
  induction l as [|x l IH]; intros Hl; [done|]. rewrite !filter_cons.
  rewrite IH by set_solver. specialize (Hl x ltac:(set_solver)).
  do 2 case_decide; tauto || done.
Qed.

Lemma filter_none {A} (P : A → Prop) `{∀ x, Decision (P x)} (l : list A) :
  (∀ x, x ∈ l → ¬ P x) → filter P l = [].
Proof.
  induction l as [|x l IH]; intros Hl; [done|].
  rewrite filter_cons, decide_False by set_solver. apply IH. set_solver.
Qed.

Lemma filter_all {A} (P : A → Prop) `{∀ x, Decision (P x)} (l : list A) :
  (∀ x, x ∈ l → P x) → filter P l = l.
Proof.
  induction l as [|x l IH]; intros Hl; [done|].
  rewrite filter_cons, decide_True by set_solver. f_equal. apply IH. set_solver.
Qed.

Lemma tuple_ltb_leb_trans a b c :
  tuple_ltb a b = true → tuple_leb b c = true → tuple_ltb a c = true.
Proof.
  rewrite !tuple_ltb_leb, !negb_true_iff. intros H1 H2.
  destruct (tuple_leb c a) eqn:E; [|done]. by rewrite (leb_trans _ _ _ H2 E) in H1.
Qed.

Lemma tuple_leb_ltb_trans a b c :
  tuple_leb a b = true → tuple_ltb b c = true → tuple_ltb a c = true.
Proof.
  rewrite !tuple_ltb_leb, !negb_true_iff. intros H1 H2.
  destruct (tuple_leb c a) eqn:E; [|done]. by rewrite (leb_trans _ _ _ E H1) in H2.
Qed.

Lemma tuple_ltb_weaken a b : tuple_ltb a b = true → tuple_leb a b = true.
Proof. rewrite tuple_ltb_leb, negb_true_iff. apply leb_total. Qed.

Lemma tuple_ltb_ge a b : tuple_ltb a b = false → tuple_leb b a = true.
Proof. by rewrite tuple_ltb_leb, negb_false_iff. Qed.

(** Two names that differ before either ends keep their order when they are extended. *)
Lemma tuple_ltb_ext (a b r : list Z) : tuple_ltb a b = true → ¬ a `prefix_of` b →
  tuple_ltb (a ++ r) b = true.
Proof.
  unfold tuple_ltb. revert b. induction a as [|x a IH]; intros [|y b]; cbn; try done.
  - intros _ H. destruct H. apply prefix_nil.
  - destruct (Z.compare_spec x y) as [->| |]; try done. intros H Hp. apply IH; [done|].
    intros Hp'. apply Hp. by apply prefix_cons.
Qed.

(** ** Lemmas: loops over a component of the state *)
Section component.
Context {E S D A : Type} (get : S → D) (put : D → S → S).

Record lens_laws : Prop := {
  get_put : ∀ d s, get (put d s) = d;
  put_put : ∀ d d' s, put d (put d' s) = put d s;
  put_get : ∀ s, put (get s) s = s;
}.

(** A stateful step that does what the pure [step] says, on the component. *)
Definition steps_as (body : M E S unit) (step : D → result E D) : Prop :=
  ∀ s, match step (get s) with
       | Ok d => body s = (Ok tt, put d s)
       | Err e => ∃ d, body s = (Err e, put d s)
       end.

Lemma mapM_foldM (body : A → M E S unit) (step : A → D → result E D) l :
  lens_laws → (∀ a, steps_as (body a) (step a)) → steps_as (mapM_ body l) (foldM step l).
Proof.
  intros Hl Hb. induction l as [|a l IH]; intros s; cbn [mapM_ foldM].
  { munfold. by rewrite (put_get Hl). }
  specialize (Hb a s). munfold. destruct (step a (get s)) as [d|e].
  - rewrite Hb. specialize (IH (put d s)). rewrite (get_put Hl) in IH.
    destruct (foldM step l d) as [d'|e].
    + by rewrite IH, (put_put Hl).
    + destruct IH as [d' IH]. exists d'. by rewrite IH, (put_put Hl).
  - destruct Hb as [d Hb]. exists d. by rewrite Hb.
Qed.
End component.

(** ** Lemmas: octet strings *)
Lemma bytes_find_Some sub l n :
  bytes_find sub l = Some n →
  (n + length sub ≤ length l)%nat ∧ take (length sub) (drop n l) = sub.
Proof.
  revert n; induction l as [|x l IH]; intros n; cbn; case_decide as Hp.
  - intros [= <-]. apply prefix_nil_inv in Hp as ->. done.
  - done.
  - intros [= <-]. destruct Hp as [k Hk]. rewrite drop_0, Hk, take_app_length.
    split; [|done]. apply (f_equal length) in Hk. rewrite length_app in Hk. cbn in *. lia.
  - destruct (bytes_find sub l) as [m|]; cbn; [|done]. intros [= <-].
    destruct (IH m eq_refl) as [H1 H2]. split; [cbn; lia|]. exact H2.
Qed.

Lemma bytes_find_split sub l n :
  bytes_find sub l = Some n → l = take n l ++ sub ++ drop (n + length sub) l.
Proof.
  intros H. apply bytes_find_Some in H as [_ H].
  rewrite <- H at 1. rewrite <- drop_drop.
  by rewrite take_drop, take_drop.
Qed.

Lemma length_xor_octets a b : length (xor_octets a b) = (length a `min` length b)%nat.
Proof. apply length_zip_with. Qed.

Lemma length_be_octets n v : length (be_octets n v) = n.
Proof. induction n; cbn; auto. Qed.

Lemma land_255 v : Z.land v 255 = v mod 256.
Proof. change 255 with (Z.ones 8). by rewrite Z.land_ones by lia. Qed.

Lemma be_octets_is_octets n v : is_octets (be_octets n v).
Proof.
  induction n as [|n IH]; cbn; constructor; [|done].
  rewrite land_255. apply Z.mod_pos_bound. lia.
Qed.

(** The octets of a machine word determine it. *)
Lemma be_octets_inj n v w :
  be_octets n v = be_octets n w → v mod 256 ^ Z.of_nat n = w mod 256 ^ Z.of_nat n.
Proof.
  induction n as [|n IH]; [intros _; by rewrite !Z.mod_1_r|].
  cbn [be_octets]. intros [= Hh Ht]. specialize (IH Ht).
  rewrite !land_255, !Z.shiftr_div_pow2 in Hh by lia.
  replace (2 ^ (8 * Z.of_nat n)) with (256 ^ Z.of_nat n) in Hh
    by (rewrite Z.pow_mul_r by lia; done).
  rewrite Nat2Z.inj_succ, Z.pow_succ_r by lia.
  set (p := 256 ^ Z.of_nat n) in *. assert (0 < p) by (apply Z.pow_pos_nonneg; lia).
  rewrite (Z.mul_comm 256 p), !Z.rem_mul_r by lia. by rewrite IH, Hh.
Qed.

Lemma from_be_octets k v acc :
  foldl (λ n x : Z, n * 256 + x) acc (be_octets k v) = acc * 256 ^ Z.of_nat k + v mod 256 ^ Z.of_nat k.
Proof.
  revert acc. induction k as [|k IH]; intros acc; cbn [be_octets foldl].
  { rewrite Z.mod_1_r. cbn. lia. }
  rewrite IH, land_255, Z.shiftr_div_pow2 by lia.
  replace (2 ^ (8 * Z.of_nat k)) with (256 ^ Z.of_nat k) by (rewrite Z.pow_mul_r by lia; done).
  rewrite Nat2Z.inj_succ, Z.pow_succ_r by lia.
  assert (0 < 256 ^ Z.of_nat k) by (apply Z.pow_pos_nonneg; lia).
  rewrite (Z.mul_comm 256 (256 ^ Z.of_nat k)), (Z.rem_mul_r v) by lia. lia.
Qed.

Lemma octets_needed_mono a b : 0 ≤ a ≤ b → octets_needed a ≤ octets_needed b.
Proof.
  intros Hab. unfold octets_needed. apply Z.max_le_compat_l, Z.div_le_mono; [lia|]. unfold bit_length.
  pose proof (Z.log2_nonneg b). pose proof (Z.log2_le_mono a b).
  destruct (a =? 0) eqn:?, (b =? 0) eqn:?; bool_to_prop; lia.
Qed.
Lemma octets_needed_enough a : 0 ≤ a → a < 256 ^ octets_needed a.
Proof.
  intros Ha. unfold octets_needed. change 256 with (2 ^ 8). rewrite <- Z.pow_mul_r by lia.
  unfold bit_length. destruct (a =? 0) eqn:Hz; bool_to_prop; [subst; done|].
  pose proof (Z.log2_nonneg a). apply Z.lt_le_trans with (2 ^ (Z.log2 a + 1)).
  - apply Z.log2_lt_pow2; lia.
  - apply Z.pow_le_mono_r; [lia|]. pose proof (Z.div_mod (Z.log2 a + 1 + 7) 8 ltac:(lia)).
    pose proof (Z.mod_pos_bound (Z.log2 a + 1 + 7) 8 ltac:(lia)). lia.
Qed.
Lemma octets_needed_pos a : 1 ≤ octets_needed a.
Proof. unfold octets_needed. lia. Qed.
(** A number is what its octets say, if there are enough of them. *)
Lemma from_be_exact k v : 0 ≤ v < 256 ^ Z.of_nat k → from_be (be_octets k v) = v.
Proof. intros Hv. unfold from_be. rewrite from_be_octets, Z.mod_small by done. lia. Qed.
Lemma from_be_zeros k o : from_be (replicate k 0 ++ o) = from_be o.
Proof. unfold from_be. induction k as [|k IH]; [done|]. exact IH. Qed.

#[export] Hint Rewrite @length_xor_octets @length_be_octets : snmp.
#[export] Hint Resolve be_octets_is_octets sorted_by_sorted : snmp.
