(* ===== verification/Wp.v ===== *)
(** * Reasoning about stateful calls

    [wp m Q s]: the call [m] made in state [s] ends, with a value or an
    exception, in an outcome that satisfies [Q].  The rules compute it through
    the constructs of the monad; [wp_steps] applies them. *)
From S2P Require Export Prelude.

Section wp.
Context {E S : Type}.

Definition wp {A} (m : M E S A) (Q : result E A → S → Prop) (s : S) : Prop := Q (m s).1 (m s).2.

Implicit Types s : S.

Lemma wp_elim {A} (m : M E S A) Q s r s' : m s = (r, s') → wp m Q s → Q r s'.
Proof. unfold wp. by intros ->. Qed.
Lemma wp_intro {A} (m : M E S A) Q s r s' : m s = (r, s') → Q r s' → wp m Q s.
Proof. unfold wp. by intros ->. Qed.

Lemma wp_mono {A} (m : M E S A) (Q Q' : result E A → S → Prop) s :
  wp m Q s → (∀ r s', Q r s' → Q' r s') → wp m Q' s.
Proof. unfold wp. auto. Qed.

Lemma wp_eq {A} (m m' : M E S A) Q s s' : m s = m' s' → wp m' Q s' → wp m Q s.
Proof. unfold wp. by intros ->. Qed.
Lemma wp_inv {A} (m : M E S A) (r : result E A) (P : S → Prop) s :
  wp m (λ r' s', r' = r ∧ P s') s → ∃ s', m s = (r, s') ∧ P s'.
Proof. unfold wp. destruct (m s) as [r' s']. cbn. intros [-> ?]. by exists s'. Qed.

Lemma wp_ret {A} (a : A) Q s : Q (Ok a) s → wp (mret a) Q s.
Proof. done. Qed.
Lemma wp_raise {A} e (Q : result E A → S → Prop) s : Q (Err e) s → wp (raise e) Q s.
Proof. done. Qed.
Lemma wp_gets {A} (f : S → A) Q s : Q (Ok (f s)) s → wp (gets f) Q s.
Proof. done. Qed.
Lemma wp_modify f Q s : Q (Ok tt) (f s) → wp (modify f) Q s.
Proof. done. Qed.
Lemma wp_liftR {A} (r : result E A) Q s : Q r s → wp (liftR r) Q s.
Proof. done. Qed.

Lemma wp_bind {A B} (m : M E S A) (k : A → M E S B) Q s :
  wp m (λ r s1, match r with Ok a => wp (k a) Q s1 | Err e => Q (Err e) s1 end) s →
  wp (m ≫= k) Q s.
Proof.
  unfold wp, mbind, M_bind. by destruct (m s) as [[a|e] s1].
Qed.

Lemma wp_try {A} (m : M E S A) h Q s :
  wp m (λ r s1, match r with
                | Ok a => Q (Ok a) s1
                | Err e => match h e with Some k => wp k Q s1 | None => Q (Err e) s1 end
                end) s →
  wp (try_except m h) Q s.
Proof.
  unfold wp, try_except. destruct (m s) as [[a|e] s1]; [done|]. cbn. by destruct (h e).
Qed.
End wp.

Lemma wp_zoom {E S T A} (get : T → S) (put : S → T → T) (m : M E S A) Q t :
  wp m (λ r s, Q r (put s t)) (get t) → wp (zoom get put m) Q t.
Proof. unfold wp, zoom. by destruct (m (get t)). Qed.

Create HintDb wp.
#[export] Hint Resolve wp_ret wp_raise wp_gets wp_modify wp_liftR : wp.

(** One rule for the head of the call. *)
Ltac wp_step :=
  lazymatch goal with
  | |- wp (_ ≫= _) _ _ => apply wp_bind
  | |- wp (mret _) _ _ => apply wp_ret
  | |- wp (raise _) _ _ => apply wp_raise
  | |- wp (gets _) _ _ => apply wp_gets
  | |- wp (modify _) _ _ => apply wp_modify
  | |- wp (liftR _) _ _ => apply wp_liftR
  | |- wp (try_except _ _) _ _ => apply wp_try
  | |- wp (zoom _ _ _) _ _ => apply wp_zoom
  end; cbn beta iota.
Ltac wp_steps := repeat wp_step.

(** The claim about the outcome of the call [H] as a [wp]. *)
Ltac wp_of H :=
  match type of H with
  | _ = (?r, ?s) => pattern r, s; apply (wp_elim _ _ _ _ _ H); clear H; cbn beta
  end.
