(* ===== verification/PyDict.v ===== *)
(** * Python dictionaries

    A [dict] keeps its insertion order: it is an association list without
    duplicate keys.  Assigning to a present key keeps the key's position,
    assigning to a new key appends, [del] removes.  Where iteration order
    cannot be observed the components use stdpp's [gmap] instead. *)
From S2P Require Export Prelude.

Abbreviation dict K V := (list (K * V)).

Section dict.
Context {K V : Type} `{EqDecision K}.
Implicit Types (d : dict K V) (k : K) (v : V).

(** [d.get(k)] *)
Fixpoint dget d k : option V :=
  match d with
  | [] => None
  | (k', v) :: d' => if decide (k = k') then Some v else dget d' k
  end.

(** [d[k] = v] *)
Fixpoint dset d k v : dict K V :=
  match d with
  | [] => [(k, v)]
  | (k', v') :: d' => if decide (k = k') then (k', v) :: d' else (k', v') :: dset d' k v
  end.

(** [del d[k]], for a key that is present; the identity otherwise *)
Fixpoint ddel d k : dict K V :=
  match d with
  | [] => []
  | (k', v') :: d' => if decide (k = k') then d' else (k', v') :: ddel d' k
  end.

Definition dkeys d : list K := d.*1.
Definition din d k : bool := match dget d k with Some _ => true | None => false end.
Definition dict_ok d : Prop := NoDup (dkeys d).

(** Two dictionaries with the same lookups, whatever their order. *)
Definition dict_equiv d1 d2 : Prop := ∀ k, dget d1 k = dget d2 k.

Lemma dget_dset d k k' v :
  dget (dset d k v) k' = if decide (k' = k) then Some v else dget d k'.
Proof.
  induction d as [|[k0 v0] d IH]; cbn; [done|].
  repeat (case_decide; subst; cbn); done.
Qed.

Lemma dget_dset_eq d k v : dget (dset d k v) k = Some v.
Proof. by rewrite dget_dset, decide_True. Qed.

Lemma dget_dset_ne d k k' v : k' ≠ k → dget (dset d k v) k' = dget d k'.
Proof. intros. by rewrite dget_dset, decide_False. Qed.

Lemma dset_dset d k v v' : dset (dset d k v) k v' = dset d k v'.
Proof.
  induction d as [|[k0 v0] d IH]; cbn; [by rewrite decide_True|].
  case_decide; subst; cbn; [by rewrite decide_True|]. rewrite decide_False by done. by f_equal.
Qed.

Lemma dget_None d k : dget d k = None ↔ k ∉ dkeys d.
Proof.
  induction d as [|[k0 v0] d IH]; cbn; [set_solver|].
  case_decide; subst; set_solver.
Qed.

Lemma dget_Some_keys d k v : dget d k = Some v → k ∈ dkeys d.
Proof.
  intros H. destruct (decide (k ∈ dkeys d)) as [|Hn]; [done|].
  apply dget_None in Hn. congruence.
Qed.

Lemma dget_keys d k : k ∈ dkeys d → ∃ v, dget d k = Some v.
Proof.
  intros Hin. destruct (dget d k) as [v|] eqn:E; [eauto|].
  by apply dget_None in E.
Qed.

Lemma dget_elem_of d k v : dget d k = Some v → (k, v) ∈ d.
Proof.
  induction d as [|[k0 v0] d IH]; cbn; [done|].
  case_decide; [intros [= ->]; subst; left|intros; right; auto].
Qed.

Lemma elem_of_dget d k v : dict_ok d → (k, v) ∈ d → dget d k = Some v.
Proof.
  unfold dict_ok. induction d as [|[k0 v0] d IH]; cbn; [set_solver|].
  intros [Hn Hd]%NoDup_cons [[= -> ->]|Hin]%elem_of_cons; [by rewrite decide_True|].
  rewrite decide_False; [auto|]. intros ->. apply Hn.
  apply list_elem_of_fmap. by exists (k0, v).
Qed.

Lemma dkeys_dset d k v :
  dkeys (dset d k v) = if decide (k ∈ dkeys d) then dkeys d else dkeys d ++ [k].
Proof.
  induction d as [|[k0 v0] d IH]; cbn; [done|].
  destruct (decide (k = k0)) as [->|Hne]; cbn.
  - rewrite decide_True; [done|left].
  - unfold dkeys in *. rewrite IH. repeat case_decide; set_solver.
Qed.

Lemma dset_ok d k v : dict_ok d → dict_ok (dset d k v).
Proof.
  unfold dict_ok. rewrite dkeys_dset. case_decide; [done|]. intros.
  apply NoDup_app; set_solver by eauto using NoDup_singleton.
Qed.

Lemma dkeys_ddel_subseteq d k k' : k' ∈ dkeys (ddel d k) → k' ∈ dkeys d.
Proof.
  induction d as [|[k0 v0] d IH]; cbn; [done|]. case_decide; cbn; set_solver.
Qed.

Lemma ddel_ok d k : dict_ok d → dict_ok (ddel d k).
Proof.
  unfold dict_ok. induction d as [|[k0 v0] d IH]; cbn; [done|].
  intros [Hn Hd]%NoDup_cons. case_decide; [done|]. cbn. apply NoDup_cons. split; [|auto].
  intros Hin. apply Hn. by eapply dkeys_ddel_subseteq.
Qed.

Lemma dget_ddel d k k' :
  dict_ok d → dget (ddel d k) k' = if decide (k' = k) then None else dget d k'.
Proof.
  unfold dict_ok. induction d as [|[k0 v0] d IH]; cbn; [by case_decide|].
  intros [Hn Hd]%NoDup_cons. specialize (IH Hd).
  repeat (case_decide; subst; cbn; try done; try rewrite IH).
  by apply dget_None.
Qed.

Lemma dget_ddel_eq d k : dict_ok d → dget (ddel d k) k = None.
Proof. intros. by rewrite dget_ddel, decide_True. Qed.

Lemma dget_ddel_ne d k k' : dict_ok d → k' ≠ k → dget (ddel d k) k' = dget d k'.
Proof. intros. by rewrite dget_ddel, decide_False. Qed.

Lemma ddel_absent d k : dget d k = None → ddel d k = d.
Proof.
  induction d as [|[k0 v0] d IH]; cbn; [done|]. case_decide; [done|].
  intros. by rewrite IH.
Qed.

Lemma ddel_dset d k v : ddel (dset d k v) k = ddel d k.
Proof.
  induction d as [|[k0 v0] d IH]; cbn; [by rewrite decide_True|].
  case_decide as Hk; cbn; [by rewrite !decide_True|]. by rewrite decide_False, IH.
Qed.
Lemma ddel_dset_fresh d k v : dget d k = None → ddel (dset d k v) k = d.
Proof. intros. by rewrite ddel_dset, ddel_absent. Qed.

Lemma elem_of_ddel d k p : p ∈ ddel d k → p ∈ d.
Proof.
  induction d as [|[k0 v0] d IH]; cbn; [done|]. case_decide; set_solver.
Qed.

Lemma length_dset d k v :
  length (dset d k v) = (length d + if din d k then 0 else 1)%nat.
Proof.
  unfold din. induction d as [|[k0 v0] d IH]; cbn; [done|].
  case_decide; cbn; [lia|]. rewrite IH. lia.
Qed.

Lemma length_ddel d k :
  length (ddel d k) = (length d - if din d k then 1 else 0)%nat.
Proof.
  unfold din. induction d as [|[k0 v0] d IH]; cbn; [done|].
  case_decide; cbn; [lia|]. rewrite IH. destruct (dget d k) eqn:E; [|lia].
  apply dget_elem_of, elem_of_list_split_length in E as (?&?&->&?) || idtac.
  destruct d; cbn in *; [done|lia].
Qed.

Lemma din_true d k : din d k = true ↔ k ∈ dkeys d.
Proof.
  unfold din. split.
  - destruct (dget d k) eqn:E; [|done]. intros _. by eapply dget_Some_keys.
  - intros [v ->]%dget_keys. done.
Qed.

Lemma din_false d k : din d k = false ↔ dget d k = None.
Proof. unfold din. by destruct (dget d k). Qed.

#[export] Instance dict_equiv_equivalence : Equivalence dict_equiv.
Proof.
  split; unfold dict_equiv; [done|intros ?? H k; by rewrite H|].
  intros ??? H1 H2 k. by rewrite H1.
Qed.

#[export] Instance dget_proper : Proper (dict_equiv ==> eq ==> eq) dget.
Proof. intros d1 d2 H k ? <-. apply H. Qed.

#[export] Instance dset_proper : Proper (dict_equiv ==> eq ==> eq ==> dict_equiv) dset.
Proof. intros d1 d2 H k ? <- v ? <- k'. by rewrite !dget_dset, (H k'). Qed.

#[export] Instance din_proper : Proper (dict_equiv ==> eq ==> eq) din.
Proof. intros d1 d2 H k ? <-. unfold din. by rewrite (H k). Qed.
End dict.

#[export] Hint Resolve dset_ok ddel_ok : snmp.
