(* ===== verification/Types.v ===== *)
(** * Values and PDUs (src/pysnmp/proto/rfc1155.py, rfc1157.py, rfc1902.py,
      rfc1905.py, rfc3411.py)

    A value is its tag and its payload: pyasn1 objects compare and dispatch on
    [tagSet], and two classes with one tag set are one constructor here (v1
    Integer and v2c Integer32, v1 Counter and v2c Counter32, v1 Gauge, v2c
    Gauge32 and Unsigned32).  The PDU classes of v1 and v2c that share a tag
    set are one tag as well. *)
From S2P Require Export PyDict.

(** ** Values *)
Inductive value : Type :=
  | VInteger (z : Z)
  | VOctetString (s : octets)
  | VNull
  | VOid (o : oid)
  | VIpAddress (s : octets)
  | VCounter32 (z : Z)
  | VGauge32 (z : Z)
  | VTimeTicks (z : Z)
  | VOpaque (s : octets)
  | VCounter64 (z : Z)
  | VNoSuchObject
  | VNoSuchInstance
  | VEndOfMibView.

#[global] Instance value_eq_dec : EqDecision value.
Proof. solve_decision. Defined.

Inductive value_tag : Type :=
  | TInteger | TOctetString | TNull | TObjectIdentifier | TIpAddress | TCounter32
  | TGauge32 | TTimeTicks | TOpaque | TCounter64 | TNoSuchObject | TNoSuchInstance
  | TEndOfMibView.

#[global] Instance value_tag_eq_dec : EqDecision value_tag.
Proof. solve_decision. Defined.

Definition tagSet (v : value) : value_tag :=
  match v with
  | VInteger _ => TInteger | VOctetString _ => TOctetString | VNull => TNull
  | VOid _ => TObjectIdentifier | VIpAddress _ => TIpAddress
  | VCounter32 _ => TCounter32 | VGauge32 _ => TGauge32 | VTimeTicks _ => TTimeTicks
  | VOpaque _ => TOpaque | VCounter64 _ => TCounter64
  | VNoSuchObject => TNoSuchObject | VNoSuchInstance => TNoSuchInstance
  | VEndOfMibView => TEndOfMibView
  end.

(** The constraint ([subtypeSpec]) of each class of rfc1902.py. *)
Definition in_range (lo hi z : Z) : bool := (lo <=? z) && (z <=? hi).

Definition Integer32_ok (z : Z) : bool := in_range (-2147483648) 2147483647 z.
Definition OctetString_ok (s : octets) : bool := in_range 0 65535 (Z.of_nat (length s)).
Definition IpAddress_ok (s : octets) : bool := in_range 4 4 (Z.of_nat (length s)).
Definition Counter32_ok (z : Z) : bool := in_range 0 4294967295 z.
Definition Gauge32_ok (z : Z) : bool := in_range 0 4294967295 z.
Definition TimeTicks_ok (z : Z) : bool := in_range 0 4294967295 z.
Definition Counter64_ok (z : Z) : bool := in_range 0 18446744073709551615 z.

(** A value the v2c class of its tag accepts. *)
Definition v2_value_ok (v : value) : bool :=
  match v with
  | VInteger z => Integer32_ok z
  | VOctetString s => OctetString_ok s
  | VIpAddress s => IpAddress_ok s
  | VCounter32 z => Counter32_ok z
  | VGauge32 z => Gauge32_ok z
  | VTimeTicks z => TimeTicks_ok z
  | VCounter64 z => Counter64_ok z
  | _ => true
  end.

(** [_WrappingInteger.__add__]: Counter32, Counter64 and TimeTicks wrap. *)
Definition wrapModulus (t : value_tag) : option Z :=
  match t with
  | TCounter32 | TTimeTicks => Some 4294967296
  | TCounter64 => Some 18446744073709551616
  | _ => None
  end.

Definition wrapping_add (v : value) (n : Z) : option value :=
  m ← wrapModulus (tagSet v);
  match v with
  | VCounter32 z => Some (VCounter32 ((z + n) mod m))
  | VTimeTicks z => Some (VTimeTicks ((z + n) mod m))
  | VCounter64 z => Some (VCounter64 ((z + n) mod m))
  | _ => None
  end.

(** ** PDUs *)
Inductive pdu_tag : Type :=
  | GetRequestPDU | GetNextRequestPDU | ResponsePDU | SetRequestPDU | TrapPDU
  | GetBulkRequestPDU | InformRequestPDU | SNMPv2TrapPDU | ReportPDU.

#[global] Instance pdu_tag_eq_dec : EqDecision pdu_tag.
Proof. solve_decision. Defined.

#[global] Instance pdu_tag_countable : Countable pdu_tag.
Proof.
  refine (inj_countable'
    (λ t, match t with GetRequestPDU => 0 | GetNextRequestPDU => 1 | ResponsePDU => 2
          | SetRequestPDU => 3 | TrapPDU => 4 | GetBulkRequestPDU => 5
          | InformRequestPDU => 6 | SNMPv2TrapPDU => 7 | ReportPDU => 8 end)
    (λ z, match z with 0 => GetRequestPDU | 1 => GetNextRequestPDU | 2 => ResponsePDU
          | 3 => SetRequestPDU | 4 => TrapPDU | 5 => GetBulkRequestPDU
          | 6 => InformRequestPDU | 7 => SNMPv2TrapPDU | _ => ReportPDU end) _).
  by intros [].
Defined.

Abbreviation var_bind := (oid * value)%type.

(** Every PDU but the v1 trap.  A GETBULK carries non-repeaters and
    max-repetitions in the positions of error status and error index. *)
Record pdu : Type := mk_pdu {
  pduType : pdu_tag;
  requestID : Z;
  errorStatus : Z;
  errorIndex : Z;
  varBinds : list var_bind;
}.

(** The v1 trap, shaped unlike every other PDU. *)
Record trap_pdu : Type := mk_trap {
  enterprise : oid;
  agentAddr : octets;
  genericTrap : Z;
  specificTrap : Z;
  timeStamp : Z;
  trapVarBinds : list var_bind;
}.

Inductive v1_pdu : Type :=
  | V1Pdu (p : pdu)
  | V1Trap (t : trap_pdu).

Definition v1_tagSet (p : v1_pdu) : pdu_tag :=
  match p with V1Pdu p => pduType p | V1Trap _ => TrapPDU end.

#[global] Instance pdu_eq_dec : EqDecision pdu.
Proof. solve_decision. Defined.
#[global] Instance trap_pdu_eq_dec : EqDecision trap_pdu.
Proof. solve_decision. Defined.
#[global] Instance v1_pdu_eq_dec : EqDecision v1_pdu.
Proof. solve_decision. Defined.

(** ** rfc3411.py: which PDUs read, which write, and which are confirmed *)
Definition readClassPDUs (t : pdu_tag) : bool :=
  match t with GetRequestPDU | GetNextRequestPDU | GetBulkRequestPDU => true | _ => false end.
Definition writeClassPDUs (t : pdu_tag) : bool :=
  match t with SetRequestPDU => true | _ => false end.
Definition responseClassPDUs (t : pdu_tag) : bool :=
  match t with ResponsePDU | ReportPDU => true | _ => false end.
Definition notificationClassPDUs (t : pdu_tag) : bool :=
  match t with TrapPDU | SNMPv2TrapPDU | InformRequestPDU => true | _ => false end.
Definition internalClassPDUs (t : pdu_tag) : bool :=
  match t with ReportPDU => true | _ => false end.
Definition confirmedClassPDUs (t : pdu_tag) : bool :=
  match t with
  | GetRequestPDU | GetNextRequestPDU | SetRequestPDU | GetBulkRequestPDU
  | InformRequestPDU => true
  | _ => false
  end.
Definition unconfirmedClassPDUs (t : pdu_tag) : bool :=
  match t with ResponsePDU | TrapPDU | ReportPDU | SNMPv2TrapPDU => true | _ => false end.

(** A scoped PDU of SNMPv3: the context it applies to, and the PDU. *)
Record scoped_pdu : Type := mk_scoped {
  contextEngineId : octets;
  contextName : octets;
  scopedData : pdu;
}.

(** ** Lemmas *)

(** Every PDU type is confirmed or unconfirmed, and not both. *)
Lemma confirmed_xor_unconfirmed t :
  confirmedClassPDUs t = negb (unconfirmedClassPDUs t).
Proof. by destruct t. Qed.

Lemma response_unconfirmed t : responseClassPDUs t = true → confirmedClassPDUs t = false.
Proof. by destruct t. Qed.

Lemma in_range_iff lo hi z : in_range lo hi z = true ↔ lo ≤ z ≤ hi.
Proof. unfold in_range. rewrite andb_true_iff, !Z.leb_le. done. Qed.

(** Adding to a wrapping integer stays in its range. *)
Lemma wrapping_add_ok v n w : wrapping_add v n = Some w →
  tagSet w = tagSet v ∧ v2_value_ok w = true.
Proof.
  destruct v; cbn; try done; intros [= <-]; cbn; split; try done;
    unfold Counter32_ok, TimeTicks_ok, Counter64_ok; rewrite in_range_iff;
    match goal with |- context [?a mod ?b] => pose proof (Z.mod_pos_bound a b) end; lia.
Qed.
