(* ===== verification/Errors.v ===== *)
(** * Errors (src/pysnmp/proto/error.py, errind.py, src/pysnmp/error.py)

    Error indications are the values of errind.py.  A Python exception is a
    constructor of [exn]; the subclass tests of [except] clauses are the
    predicates at the end. *)
From S2P Require Export Types.

(** ** errind.py *)
Inductive errind : Type :=
  | serializationError | deserializationError | parseError
  | unsupportedMsgProcessingModel | unknownPDUHandler | unsupportedPDUtype
  | requestTimedOut | transportFailure (descr : string) | emptyResponse | nonReportable
  | dataMismatch | engineIDMismatch | unknownEngineID | tooBig | loopTerminated
  | invalidMsg | unknownCommunityName | noEncryption | encryptionError
  | decryptionError | noAuthentication | authenticationError | authenticationFailure
  | unsupportedAuthProtocol | unsupportedPrivProtocol | unknownSecurityName
  | unsupportedSecurityModel | unsupportedSecurityLevel | notInTimeWindow
  | unknownUserName | wrongDigest | reportPduReceived (descr : oid)
  | noSuchView | noAccessEntry | noGroupName | noSuchContext | notInView
  | accessAllowed | otherError | oidNotIncreasing.

#[global] Instance errind_eq_dec : EqDecision errind.
Proof. solve_decision. Defined.

(** ** error.StatusInformation: the details a status carries *)
Record status : Type := mk_status {
  st_errorIndication : option errind;
  st_oid : option oid;
  st_val : option value;
  st_securityStateReference : option Z;
  st_securityLevel : option Z;
  st_contextEngineId : option octets;
  st_contextName : option octets;
  st_msgUserName : option octets;
  st_maxSizeResponseScopedPDU : option Z;
  st_scopedPDU : option scoped_pdu;
  st_sendPduHandle : option Z;
  st_idx : option nat;
  st_pdu : option pdu;
  st_securityEngineID : option octets;
  st_PDU : option scoped_pdu;
}.

(** [StatusInformation(errorIndication=e)] *)
Definition status_of (e : errind) : status :=
  mk_status (Some e) None None None None None None None None None None None None None None.
Definition status_msgUserName (u : octets) (s : status) : status :=
  mk_status (st_errorIndication s) (st_oid s) (st_val s) (st_securityStateReference s)
    (st_securityLevel s) (st_contextEngineId s) (st_contextName s) (Some u)
    (st_maxSizeResponseScopedPDU s) (st_scopedPDU s) (st_sendPduHandle s) (st_idx s)
    (st_pdu s) (st_securityEngineID s) (st_PDU s).
(** [StatusInformation(idx=i, pdu=p)] *)
Definition status_idx (i : nat) (p : pdu) : status :=
  mk_status None None None None None None None None None None None (Some i) (Some p)
    None None.

(** ** smi/error.py: the errors of MIB operations, and the details they carry.
    [d_idx] is the [idx] keyword: absent, [None] or a position; [d_report] is
    the pair of keywords [oid] and [val]; [d_syntax] is the keyword [syntax]. *)
Inductive mib_error : Type :=
  | TooBigError | NoSuchNameError | BadValueError | ReadOnlyError | GenError
  | NoAccessError | WrongTypeError | WrongLengthError | WrongEncodingError
  | WrongValueError | NoCreationError | InconsistentValueError
  | ResourceUnavailableError | CommitFailedError | UndoFailedError
  | AuthorizationError | NotWritableError | InconsistentNameError
  | NoSuchObjectError | NoSuchInstanceError | EndOfMibViewError
  | RowCreationWanted | RowDestructionWanted.

#[global] Instance mib_error_eq_dec : EqDecision mib_error.
Proof. solve_decision. Defined.

Record details : Type := mk_details {
  d_idx : option (option nat);
  d_report : option (oid * value);
  d_syntax : option value;
}.

(** [idx=i, name=...] *)
Definition at_idx (i : nat) : details := mk_details (Some (Some i)) None None.

(** ** Exceptions *)
Inductive exn : Type :=
  | ProtocolError (msg : string)
  | StatusInformation (st : status)
  | PySnmpError (msg : string)
  | PyAsn1Error (msg : string)
  | MibError (k : mib_error) (d : details)
  | SmiError (msg : string)
  | MibLoadError (msg : string)
  | MibNotFoundError (msg : string)
  | KeyError
  | IndexError
  | TypeError
  | ValueError
  | AttributeError
  | ZeroDivisionError
  | DatabaseError (msg : string)
  | OtherError (name : string).

Abbreviation StatusInfo e := (StatusInformation (status_of e)).
(** [NoSuchInstanceError(idx=None, name=...)], as the traversal raises it *)
Abbreviation no_such_instance := (MibError NoSuchInstanceError (mk_details (Some None) None None)).

(** [except error.StatusInformation] *)
Definition is_StatusInformation (e : exn) : bool :=
  match e with StatusInformation _ => true | _ => false end.
(** [except error.ProtocolError]: SnmpV3Error and StatusInformation derive from it *)
Definition is_ProtocolError (e : exn) : bool :=
  match e with ProtocolError _ | StatusInformation _ => true | _ => false end.
(** [except PySnmpError]: also the SMI errors *)
Definition is_PySnmpError (e : exn) : bool :=
  match e with
  | ProtocolError _ | StatusInformation _ | PySnmpError _ | MibError _ _
  | SmiError _ | MibLoadError _ | MibNotFoundError _ => true
  | _ => false
  end.
(** [except PyAsn1Error]: ProtocolError and SmiError derive from it too *)
Definition is_PyAsn1Error (e : exn) : bool :=
  match e with
  | ProtocolError _ | StatusInformation _ | PyAsn1Error _ | MibError _ _
  | SmiError _ | MibLoadError _ | MibNotFoundError _ => true
  | _ => false
  end.

(** [except SmiError] *)
Definition is_SmiError (e : exn) : bool :=
  match e with MibError _ _ | SmiError _ | MibLoadError _ | MibNotFoundError _ => true | _ => false end.
(** [except (NoSuchInstanceError, NoSuchObjectError)] *)
Definition is_missing (e : exn) : bool :=
  match e with MibError NoSuchInstanceError _ | MibError NoSuchObjectError _ => true | _ => false end.

Lemma ProtocolError_PyAsn1Error e : is_ProtocolError e = true → is_PyAsn1Error e = true.
Proof. by destruct e. Qed.
