(* ===== verification/Text.v ===== *)
(** * Text, as Python reads and writes numbers in it

    Text is a list of code points.  [int], [str], [format], [split] and [join], on ASCII
    text, with the round trips that the components use. *)
From S2P Require Export Errors.
#[local] Open Scope Z_scope.

Module Text.
Abbreviation text := (list Z).

(** The code points of a literal *)
Definition codes (s : string) : text :=
  (λ c, Z.of_nat (Ascii.nat_of_ascii c)) <$> String.list_ascii_of_string s.

(** ** Numbers *)

(** The value of a digit in a base of at most sixteen *)
Definition digit (base c : Z) : option Z :=
  let d := if (48 <=? c) && (c <=? 57) then c - 48
           else if (97 <=? c) && (c <=? 122) then c - 87
           else if (65 <=? c) && (c <=? 90) then c - 55 else base in
  if d <? base then Some d else None.
Definition digit_char (d : Z) : Z := if d <? 10 then 48 + d else 87 + d.

Definition is_space (c : Z) : bool := ((9 <=? c) && (c <=? 13)) || ((28 <=? c) && (c <=? 32)).
Fixpoint lstrip (l : text) : text :=
  match l with c :: l' => if is_space c then lstrip l' else l | [] => [] end.
Definition strip (l : text) : text := reverse (lstrip (reverse (lstrip l))).

(** The digits of a number, with single underscores between them *)
Fixpoint number (base acc : Z) (after_digit : bool) (l : text) : option Z :=
  match l with
  | [] => if after_digit then Some acc else None
  | c :: l =>
      if c =? 95 then (if after_digit then number base acc false l else None)
      else match digit base c with Some d => number base (acc * base + d) true l | None => None end
  end.
(** The letters that may stand after a first zero *)
Definition is_prefix (base c : Z) : bool :=
  ((base =? 16) && ((c =? 120) || (c =? 88))) || ((base =? 8) && ((c =? 111) || (c =? 79))) ||
  ((base =? 2) && ((c =? 98) || (c =? 66))).
Definition unprefixed (base : Z) (l : text) : text :=
  match l with
  | z :: c :: l' =>
      if (z =? 48) && is_prefix base c
      then match l' with 95 :: l' => l' | _ => l' end
      else l
  | _ => l
  end.
(** [int(l, base)]; [None] is [ValueError]. *)
Definition int_of (base : Z) (l : text) : option Z :=
  match strip l with
  | 45 :: l => Z.opp <$> number base 0 false (unprefixed base l)
  | 43 :: l => number base 0 false (unprefixed base l)
  | l => number base 0 false (unprefixed base l)
  end.

(** [format(n, base)] *)
Fixpoint numeral_loop (fuel : nat) (base n : Z) (l : text) : text :=
  match fuel with
  | O => l
  | S fuel =>
      let l := digit_char (n mod base) :: l in
      if n <? base then l else numeral_loop fuel base (n / base) l
  end.
Definition natural (base n : Z) : text := numeral_loop (S (Z.to_nat (Z.log2 n))) base n [].
Definition numeral (base n : Z) : text := if n <? 0 then 45 :: natural base (- n) else natural base n.
(** [format(n, "0<width>")]: zeros after the sign *)
Definition zero_padded (width : nat) (base n : Z) : text :=
  if n <? 0 then 45 :: replicate (width - 1 - length (natural base (- n))) 48 ++ natural base (- n)
  else replicate (width - length (natural base n)) 48 ++ natural base n.

(** ** Lists of words *)

(** [sep.join(words)], of one separating character *)
Fixpoint join (sep : Z) (words : list text) : text :=
  match words with
  | [] => []
  | [w] => w
  | w :: words => w ++ sep :: join sep words
  end.
(** [l.split(sep)] *)
Fixpoint split_loop (sep : Z) (word : text) (l : text) : list text :=
  match l with
  | [] => [reverse word]
  | c :: l => if c =? sep then reverse word :: split_loop sep [] l else split_loop sep (c :: word) l
  end.
Definition split (sep : Z) (l : text) : list text := split_loop sep [] l.

(** ** Lemmas *)

Lemma codes_inj s s' : codes s = codes s' → s = s'.
Proof.
  unfold codes. intros Heq.
  assert (Hl : String.list_ascii_of_string s = String.list_ascii_of_string s').
  { revert Heq. generalize (String.list_ascii_of_string s), (String.list_ascii_of_string s').
    intros l; induction l as [|c l IH]; intros [|c' l'] Heq; cbn in Heq; [done|done|done|].
    injection Heq as Hc Hl. apply Nat2Z.inj in Hc. rewrite (IH l' Hl). f_equal.
    rewrite <- (Ascii.ascii_nat_embedding c), <- (Ascii.ascii_nat_embedding c'), Hc. done. }
  rewrite <- (String.string_of_list_ascii_of_string s), <- (String.string_of_list_ascii_of_string s').
  by rewrite Hl.
Qed.

Definition is_digit (base c : Z) : Prop := ∃ d, 0 ≤ d < base ∧ c = digit_char d.

Lemma digit_digit_char base d : 2 ≤ base ≤ 16 → 0 ≤ d < base → digit base (digit_char d) = Some d.
Proof.
  intros Hb Hd. unfold digit, digit_char.
  destruct (d <? 10) eqn:Hl; bool_to_prop.
  - rewrite (proj2 (Z.leb_le 48 (48 + d))), (proj2 (Z.leb_le (48 + d) 57)) by lia. cbn.
    replace (48 + d - 48) with d by lia. by rewrite (proj2 (Z.ltb_lt d base)) by lia.
  - rewrite (proj2 (Z.leb_gt (87 + d) 57)) by lia. rewrite andb_false_r.
    rewrite (proj2 (Z.leb_le 97 (87 + d))), (proj2 (Z.leb_le (87 + d) 122)) by lia. cbn.
    replace (87 + d - 87) with d by lia. by rewrite (proj2 (Z.ltb_lt d base)) by lia.
Qed.
Lemma digit_bounds base c : 2 ≤ base ≤ 16 → is_digit base c → 48 ≤ c ≤ 57 ∨ 97 ≤ c ≤ 102.
Proof.
  intros Hb (d & Hd & ->). unfold digit_char. destruct (d <? 10) eqn:Hl; bool_to_prop; lia.
Qed.

(** What reading the digits of a number adds *)
Lemma numeral_loop_spec base fuel n l : 2 ≤ base ≤ 16 → 0 ≤ n < 2 ^ Z.of_nat fuel → (fuel ≠ 0)%nat →
  ∃ ds, numeral_loop fuel base n l = ds ++ l ∧ ds ≠ [] ∧ Forall (is_digit base) ds ∧
    ∀ a b, number base a b (ds ++ l) = number base (a * base ^ Z.of_nat (length ds) + n) true l.
Proof.
  intros Hb. revert n l; induction fuel as [|fuel IH]; intros n l Hn Hf; [done|]. cbn [numeral_loop].
  assert (Hm : 0 ≤ n mod base < base) by (apply Z.mod_pos_bound; lia).
  assert (Hdig : is_digit base (digit_char (n mod base))) by (by exists (n mod base)).
  assert (Hread : ∀ a b l, number base a b (digit_char (n mod base) :: l) = number base (a * base + n mod base) true l).
  { intros a b l'. cbn [number]. rewrite (digit_digit_char base (n mod base)) by lia.
    apply (digit_bounds base) in Hdig; [|lia]. rewrite (proj2 (Z.eqb_neq _ 95)) by lia. done. }
  destruct (n <? base) eqn:Hs; bool_to_prop.
  - exists [digit_char (n mod base)]. split; [done|]. split; [done|]. split; [by constructor|].
    intros a b. cbn [app]. rewrite Hread. cbn [length]. rewrite Z.pow_1_r, Z.mod_small by lia. done.
  - assert (Hq : 0 ≤ n / base < 2 ^ Z.of_nat fuel).
    { split; [apply Z.div_pos; lia|]. apply Z.div_lt_upper_bound; [lia|].
      rewrite Nat2Z.inj_succ, Z.pow_succ_r in Hn by lia. nia. }
    destruct fuel as [|fuel]; [cbn in Hn; lia|].
    destruct (IH (n / base) (digit_char (n mod base) :: l) Hq ltac:(done)) as (ds & -> & Hne & Hall & Hval).
    exists (ds ++ [digit_char (n mod base)]). rewrite <- (assoc_L (++)). split; [done|].
    split; [by destruct ds|]. split; [apply Forall_app; auto|].
    intros a b. cbn [app]. rewrite Hval, Hread, length_app, Nat2Z.inj_add. f_equal.
    rewrite Z.pow_add_r by lia. cbn [length]. rewrite Z.pow_1_r.
    pose proof (Z.div_mod n base ltac:(lia)). nia.
Qed.
Lemma natural_spec base n : 2 ≤ base ≤ 16 → 0 ≤ n →
  natural base n ≠ [] ∧ Forall (is_digit base) (natural base n) ∧
  ∀ a b l, number base a b (natural base n ++ l) =
    number base (a * base ^ Z.of_nat (length (natural base n)) + n) true l.
Proof.
  intros Hb Hn. unfold natural.
  assert (Hf : 0 ≤ n < 2 ^ Z.of_nat (S (Z.to_nat (Z.log2 n)))).
  { split; [done|]. pose proof (Z.log2_nonneg n). rewrite Nat2Z.inj_succ, Z2Nat.id by done.
    destruct (decide (n = 0)) as [->|]; [done|]. apply Z.log2_spec. lia. }
  assert (Happ : ∀ fuel n acc l, numeral_loop fuel base n (acc ++ l) = numeral_loop fuel base n acc ++ l).
  { intros fuel. induction fuel as [|fuel IH]; intros m acc l; cbn [numeral_loop]; [done|].
    case_match; [done|]. apply (IH _ (_ :: acc)). }
  destruct (numeral_loop_spec base _ n [] Hb Hf ltac:(done)) as (ds & Heq & Hne & Hall & _).
  rewrite app_nil_r in Heq. rewrite Heq. split; [done|]. split; [done|].
  intros a b l. destruct (numeral_loop_spec base _ n l Hb Hf ltac:(done)) as (ds' & Heq' & _ & _ & Hval).
  pose proof (Happ (S (Z.to_nat (Z.log2 n))) n [] l) as Hx. cbn [app] in Hx. rewrite Heq, Heq' in Hx.
  apply app_inv_tail in Hx as ->. apply Hval.
Qed.

Lemma lstrip_id l : Forall (λ c, is_space c = false) l → lstrip l = l.
Proof. intros []; cbn; [done|]. by rewrite H. Qed.
Lemma strip_id l : Forall (λ c, is_space c = false) l → strip l = l.
Proof.
  intros Hl. unfold strip. rewrite (lstrip_id l) by done. rewrite lstrip_id by (by apply Forall_reverse).
  apply reverse_involutive.
Qed.
Lemma is_digit_no_space base c : 2 ≤ base ≤ 16 → is_digit base c → is_space c = false.
Proof.
  intros Hb Hc%digit_bounds; [|done]. unfold is_space.
  destruct (9 <=? c) eqn:?, (c <=? 13) eqn:?, (28 <=? c) eqn:?, (c <=? 32) eqn:?; bool_to_prop; cbn; done || lia.
Qed.
Lemma unprefixed_digits base l : 2 ≤ base ≤ 16 → Forall (is_digit base) l → unprefixed base l = l.
Proof.
  intros Hb Hl. destruct Hl as [|z l Hz [|c l' Hc Hl']]; [done|done|]. cbn [unprefixed].
  rewrite (proj2 (andb_false_iff _ _)); [done|]. right. destruct Hc as (d & Hd & ->).
  unfold is_prefix, digit_char. destruct (d <? 10) eqn:?; bool_to_prop;
    destruct (base =? 16) eqn:?, (base =? 8) eqn:?, (base =? 2) eqn:?; bool_to_prop; subst; try lia; cbn [andb orb];
    rewrite ?orb_false_r; apply ?orb_false_iff; rewrite ?Z.eqb_neq; try done; lia.
Qed.
Lemma int_of_natural base n : 2 ≤ base ≤ 16 → 0 ≤ n → int_of base (natural base n) = Some n.
Proof.
  intros Hb Hn. destruct (natural_spec base n Hb Hn) as (Hne & Hall & Hval). unfold int_of.
  rewrite strip_id by (eapply Forall_impl; [done|]; intros c; by apply is_digit_no_space).
  assert (Hint : number base 0 false (unprefixed base (natural base n)) = Some n).
  { rewrite unprefixed_digits by done. specialize (Hval 0 false []). rewrite app_nil_r in Hval. by rewrite Hval. }
  destruct (natural base n) as [|c l] eqn:Hl; [done|]. apply Forall_cons_1, proj1, digit_bounds in Hall as Hc; [|done].
  destruct c as [|p|p]; [lia| |lia].
  repeat (destruct p as [p|p|]; try exact Hint; try lia).
Qed.
(** [int(str(n))], in a base *)
Lemma int_of_numeral base n : 2 ≤ base ≤ 16 → int_of base (numeral base n) = Some n.
Proof.
  intros Hb. unfold numeral. destruct (n <? 0) eqn:Hs; bool_to_prop; [|by apply int_of_natural].
  destruct (natural_spec base (- n) Hb ltac:(lia)) as (Hne & Hall & Hval). unfold int_of.
  rewrite strip_id.
  - rewrite unprefixed_digits by done. specialize (Hval 0 false []). rewrite app_nil_r in Hval. rewrite Hval. cbn. f_equal. lia.
  - constructor; [done|]. eapply Forall_impl; [done|]; intros c; by apply is_digit_no_space.
Qed.

Lemma split_loop_app sep word w l : sep ∉ w →
  split_loop sep word (w ++ sep :: l) = (reverse word ++ w) :: split_loop sep [] l.
Proof.
  revert word; induction w as [|c w IH]; intros word Hw; cbn [app split_loop].
  - by rewrite Z.eqb_refl, app_nil_r.
  - apply not_elem_of_cons in Hw as [Hc Hw]. rewrite (proj2 (Z.eqb_neq c sep)) by done.
    rewrite IH by done. by rewrite reverse_cons, <- (assoc_L (++)).
Qed.
Lemma split_loop_last sep word w : sep ∉ w → split_loop sep word w = [reverse word ++ w].
Proof.
  revert word; induction w as [|c w IH]; intros word Hw; cbn [split_loop]; [by rewrite app_nil_r|].
  apply not_elem_of_cons in Hw as [Hc Hw]. rewrite (proj2 (Z.eqb_neq c sep)) by done.
  rewrite IH by done. by rewrite reverse_cons, <- (assoc_L (++)).
Qed.
Lemma split_join sep words : words ≠ [] → Forall (λ w, sep ∉ w) words → split sep (join sep words) = words.
Proof.
  intros Hne Hall. induction Hall as [|w words Hw Hall IH]; [done|]. unfold split in *. cbn [join].
  destruct words as [|w' words]; [by rewrite split_loop_last|].
  rewrite split_loop_app by done. cbn [reverse]. by rewrite IH.
Qed.
Lemma numeral_no base sep n : 2 ≤ base ≤ 16 → 32 ≤ sep < 48 → sep ≠ 45 → sep ∉ numeral base n.
Proof.
  intros Hb Hs Hm. unfold numeral.
  assert (Hnat : ∀ m, 0 ≤ m → sep ∉ natural base m).
  { intros m Hp Hin. destruct (natural_spec base m Hb Hp) as (_ & Hall & _).
    rewrite Forall_forall in Hall. apply Hall, digit_bounds in Hin; lia. }
  destruct (n <? 0) eqn:?; bool_to_prop; [|by apply Hnat].
  apply not_elem_of_cons. split; [done|]. apply Hnat. lia.
Qed.

(** *** Dotted numbers *)
Definition dot : Z := 46.
(** [".".join(str(x) for x in l)] *)
Definition dotted (l : list Z) : text := join dot (numeral 10 <$> l).
(** [tuple(int(x) for x in l.split("."))] *)
Definition of_dotted (l : text) : result exn (list Z) :=
  from_option_exc ValueError (mapM (int_of 10) (split dot l)).

Lemma of_dotted_dotted l : l ≠ [] → of_dotted (dotted l) = Ok l.
Proof.
  intros Hne. unfold of_dotted, dotted. rewrite split_join.
  - assert (Hm : mapM (int_of 10) (numeral 10 <$> l) = Some l); [|by rewrite Hm].
    clear Hne. induction l as [|z l IH]; [done|]. rewrite fmap_cons. cbn [mapM].
    rewrite (int_of_numeral 10 z) by lia. cbn. by rewrite IH.
  - by destruct l.
  - apply Forall_fmap, Forall_true. intros z. apply numeral_no; unfold dot; lia.
Qed.
End Text.
