(* ===== verification/NextId.v ===== *)
(** * Identifier generators (src/pysnmp/nextid.py)

    [Integer] hands out identifiers from a bank of consecutive values.  The
    bank is a list, [__call__] pops its head and refills the tail when the head
    is a multiple of the threshold.  [secrets.randbelow] is the argument [e] of
    [init]. *)
From S2P Require Export Errors.

Module NextId.

Record Integer : Type := mk_Integer {
  maximum : Z;
  increment : Z;
  threshold : Z;
  bank : list Z;
}.

(** [list(range(a, a + n))] *)
Definition range (a n : Z) : list Z := seqZ a n.

(** [Integer.__init__]; [e] is what [secrets.randbelow] draws, and
    [randbelow] refuses a bound that is not positive. *)
Definition init (maximum increment e : Z) : result exn Integer :=
  let increment := Z.min maximum increment in
  if maximum - increment <=? 0 then Err ValueError
  else Ok (mk_Integer maximum increment (increment / 2) (range e increment)).

Definition set_bank (st : Integer) (b : list Z) : Integer :=
  mk_Integer (maximum st) (increment st) (threshold st) b.

(** [Integer.__call__] *)
Definition call : M exn Integer Z := fun st =>
  match bank st with
  | [] => (Err IndexError, st)
  | v :: rest =>
      let st' := set_bank st rest in
      if threshold st =? 0 then (Err ZeroDivisionError, st')
      else if negb (v mod threshold st =? 0) then (Ok v, st')
      else match last rest with
           | None => (Err IndexError, st')
           | Some z =>
               let e := z + 1 in
               let e := if e >? maximum st then 0 else e in
               (Ok v, set_bank st' (rest ++ range e (threshold st)))
           end
  end.

(** [n] calls in a row. *)
Fixpoint calls (n : nat) : M exn Integer (list Z) :=
  match n with
  | O => mret []
  | S n' => v ← call; vs ← calls n'; mret (v :: vs)
  end.

(** The successor of an identifier: the next integer, or 0 past the maximum. *)
Definition follows (max v w : Z) : Prop := w = v + 1 ∨ (w = 0 ∧ max < v + 1).

Fixpoint chain (max : Z) (l : list Z) : Prop :=
  match l with
  | v :: ((w :: _) as l') => follows max v w ∧ chain max l'
  | _ => True
  end.

(** What holds of every reachable generator: consecutive values in the bank,
    within bounds, and enough of them left to reach the next refill. *)
Record wf (st : Integer) : Prop := {
  wf_threshold : 0 < threshold st;
  wf_maximum : threshold st <= maximum st;
  wf_bounds : Forall (λ v, 0 <= v < maximum st + threshold st) (bank st);
  wf_chain : chain (maximum st) (bank st);
  wf_supply : ∃ v rest, bank st = v :: rest ∧
    threshold st + (- v) mod threshold st <= Z.of_nat (length rest);
}.

(** ** Helper lemmas *)
Lemma range_cons a n : 0 < n → range a n = a :: range (a + 1) (n - 1).
Proof.
  intros. unfold range. rewrite seqZ_cons by lia. f_equal; f_equal; lia.
Qed.

Lemma range_chain max a n : chain max (range a n).
Proof.
  destruct (Z.le_gt_cases n 0); [unfold range; by rewrite seqZ_nil by lia|].
  revert a. pattern n. apply Zlt_lower_bound_ind with (z := 1); [|lia].
  intros m IH Hm a. rewrite range_cons by lia.
  destruct (Z.eq_dec m 1) as [->|]; [done|].
  specialize (IH (m - 1) ltac:(lia) (a + 1)). rewrite range_cons in * by lia.
  split; [by left|done].
Qed.

Lemma range_length a n : 0 <= n → Z.of_nat (length (range a n)) = n.
Proof. intros. unfold range. rewrite length_seqZ. lia. Qed.

Lemma range_bounds a n lo hi :
  lo <= a → a + n <= hi → Forall (λ v, lo <= v < hi) (range a n).
Proof.
  intros. apply Forall_forall. intros v Hv. apply elem_of_seqZ in Hv. lia.
Qed.

Lemma chain_app max l1 l2 z :
  chain max l1 → chain max l2 → last l1 = Some z →
  match l2 with [] => True | w :: _ => follows max z w end → chain max (l1 ++ l2).
Proof.
  induction l1 as [|v l1 IH]; [done|]. intros H1 H2 Hl Hf.
  destruct l1 as [|w l1]; cbn in *.
  - simplify_eq. destruct l2; [done|]. done.
  - destruct H1 as [Hvw H1]. split; [done|]. apply IH; auto.
Qed.

Lemma neg_mod_step v t : 0 < t → v mod t ≠ 0 → (- (v + 1)) mod t = (- v) mod t - 1.
Proof.
  intros Ht Hv. rewrite (Z.mod_opp_l_nz v t) by lia.
  symmetry. apply Z.mod_unique with (q := - (v / t) - 1).
  - pose proof (Z.mod_pos_bound v t Ht). lia.
  - pose proof (Z.div_mod v t ltac:(lia)). lia.
Qed.

Lemma chain_tail max v l : chain max (v :: l) → chain max l.
Proof. destruct l; cbn; tauto. Qed.

Lemma last_Some_cons {A} (x : A) l : ∃ z, last (x :: l) = Some z.
Proof. destruct (last (x :: l)) eqn:E; [eauto|]. by apply last_None in E. Qed.

Lemma last_Forall {A} (P : A → Prop) l z : Forall P l → last l = Some z → P z.
Proof.
  intros Hf Hl. apply last_Some in Hl as [l' ->]. apply Forall_app in Hf as [_ Hf].
  by apply Forall_inv in Hf.
Qed.

(** The supply after popping a head that is not a refill point. *)
Lemma supply_pop st v rest :
  wf st → bank st = v :: rest → v mod threshold st ≠ 0 →
  ∃ w rest', rest = w :: rest' ∧
    threshold st + (- w) mod threshold st <= Z.of_nat (length rest').
Proof.
  intros Hwf Hb Hv. pose proof (wf_threshold _ Hwf) as Ht.
  pose proof (wf_chain _ Hwf) as Hc. rewrite Hb in Hc.
  destruct (wf_supply _ Hwf) as (v' & rest1 & Hb' & Hlen). simplify_eq.
  rewrite Hb in Hb'; simplify_eq.
  pose proof (neg_mod_step v' _ Ht Hv) as Hstep.
  pose proof (Z.mod_pos_bound (- (v' + 1)) _ Ht) as Hpos.
  destruct rest1 as [|w rest']; cbn [length] in *; [lia|].
  exists w, rest'. split; [done|]. rewrite Nat2Z.inj_succ in Hlen.
  destruct Hc as [[->|[-> _]] _]; [lia|]. rewrite Z.mod_0_l by lia. lia.
Qed.

(** One call from a well-formed generator succeeds, keeps it well formed, hands
    out the head of the bank and leaves its successor at the head. *)
Lemma call_spec st v rest :
  wf st → bank st = v :: rest →
  ∃ st', call st = (Ok v, st') ∧ wf st' ∧
    maximum st' = maximum st ∧ threshold st' = threshold st ∧
    0 <= v < maximum st + threshold st ∧
    ∃ w rest', bank st' = w :: rest' ∧ follows (maximum st) v w.
Proof.
  intros Hwf Hb. pose proof (wf_threshold _ Hwf) as Ht.
  pose proof (wf_maximum _ Hwf) as Hm.
  pose proof (wf_bounds _ Hwf) as Hbd. pose proof (wf_chain _ Hwf) as Hc.
  rewrite Hb in Hbd, Hc. apply Forall_cons in Hbd as [Hv Hbd].
  unfold call. rewrite Hb.
  destruct (Z.eqb_spec (threshold st) 0) as [|_]; [lia|].
  destruct (Z.eqb_spec (v mod threshold st) 0) as [Hz|Hnz]; cbn [negb].
  - (* refill *)
    destruct (wf_supply _ Hwf) as (v' & rest1 & Hb' & Hlen).
    rewrite Hb in Hb'; simplify_eq.
    pose proof (Z.mod_pos_bound (- v') _ Ht).
    destruct rest1 as [|w rest']; [cbn in *; lia|].
    destruct (last_Some_cons w rest') as [z Hz']. rewrite Hz'.
    set (e := if z + 1 >? maximum st then 0 else z + 1).
    pose proof (last_Forall _ _ _ Hbd Hz') as Hzb. cbn in Hzb.
    assert (0 <= e <= maximum st /\ follows (maximum st) z e) as [He Hf].
    { unfold e, follows. destruct (Z.gtb_spec (z + 1) (maximum st)); lia. }
    eexists. split; [reflexivity|]. repeat apply conj; try done; try apply Hv.
    + constructor; cbn; try done.
      * rewrite Forall_cons in Hbd. change (w :: rest' ++ ?r) with ((w :: rest') ++ r).
        apply Forall_app. split; [by apply Forall_cons|]. apply range_bounds; lia.
      * apply (chain_app _ (w :: rest') _ z); [exact (chain_tail _ _ _ Hc)|apply range_chain|done|].
        rewrite range_cons by lia. done.
      * eexists _, _; split; [reflexivity|]. rewrite length_app, Nat2Z.inj_add.
        rewrite range_length by lia. cbn [length] in Hlen.
        pose proof (Z.mod_pos_bound (- w) _ Ht). lia.
    + exists w. eexists; split; [reflexivity|]. apply Hc.
  - destruct (supply_pop _ _ _ Hwf Hb Hnz) as (w & rest' & -> & Hsup).
    eexists. split; [reflexivity|]. repeat apply conj; try done; try apply Hv.
    + constructor; cbn; try done; [exact (chain_tail _ _ _ Hc)|eauto].
    + exists w, rest'. split; [done|]. apply Hc.
Qed.

Lemma nextid_init_wf max inc e st :
  2 <= inc → 0 <= e < max - Z.min max inc → init max inc e = Ok st → wf st.
Proof.
  unfold init. intros Hinc He. destruct (Z.leb_spec (max - Z.min max inc) 0); [done|].
  intros [= <-]. assert (Z.min max inc = inc) as Hmin by lia. rewrite Hmin in *.
  assert (0 < inc / 2) by (apply Z.div_str_pos; lia).
  assert (2 * (inc / 2) <= inc) by (apply Z.mul_div_le; lia).
  constructor; cbn; try lia.
  - apply range_bounds; lia.
  - apply range_chain.
  - exists e, (range (e + 1) (inc - 1)). split; [apply range_cons; lia|].
    rewrite range_length by lia. pose proof (Z.mod_pos_bound (- e) (inc / 2)). lia.
Qed.

(** The identifiers handed out form a chain that starts at the bank's head. *)
Lemma calls_spec n st :
  wf st → ∃ vs st', calls n st = (Ok vs, st') ∧ wf st' ∧ length vs = n ∧
    maximum st' = maximum st ∧
    chain (maximum st) vs ∧ Forall (λ v, 0 <= v < maximum st + threshold st) vs ∧
    (match vs with [] => True | v :: _ => head (bank st) = Some v end).
Proof.
  revert st; induction n as [|n IH]; intros st Hwf; [by eexists [], st|].
  destruct (wf_supply _ Hwf) as (v & rest & Hb & _).
  destruct (call_spec _ _ _ Hwf Hb) as (st1 & Hc & Hwf1 & Hm1 & Ht1 & Hv & w & rest' & Hb1 & Hf).
  destruct (IH st1 Hwf1) as (vs & st2 & Hcs & Hwf2 & Hlen & Hm2 & Hch & Hall & Hhd).
  exists (v :: vs), st2. cbn [calls]. munfold. rewrite Hc, Hcs.
  rewrite Hm1, Ht1, Hb1, Hb in *. split_and!; try done; cbn; try lia; try congruence.
  - destruct vs as [|w' vs]; [done|]. cbn in *. simplify_eq. done.
  - constructor; [lia|done].
Qed.

(** Along a chain, a value comes back only after the counter has wrapped. *)
Lemma chain_lookup max l i v : chain max l → Forall (λ v, 0 <= v) l →
  head l = Some v → ∀ w, l !! i = Some w →
  w = v + Z.of_nat i ∨ w <= Z.of_nat i - (max - v + 1).
Proof.
  revert i v; induction l as [|x l IH]; intros i v Hc Hp Hh w Hw; [done|].
  cbn in Hh; simplify_eq. destruct i as [|i]; cbn in Hw; [simplify_eq; lia|].
  destruct l as [|y l]; [done|]. destruct Hc as [Hxy Hc].
  apply Forall_cons in Hp as [Hx Hp]. pose proof (Forall_inv Hp) as Hy. cbn in Hy.
  specialize (IH i y Hc Hp eq_refl w Hw). unfold follows in Hxy.
  rewrite Nat2Z.inj_succ. lia.
Qed.

Lemma chain_drop max l i : chain max l → chain max (drop i l).
Proof.
  revert i; induction l as [|x l IH]; intros [|i] Hc; try done.
  apply IH. by eapply chain_tail.
Qed.

Lemma chain_NoDup max l : chain max l → Forall (λ v, 0 <= v) l →
  Z.of_nat (length l) <= max + 1 → NoDup l.
Proof.
  intros Hc Hp Hlen. apply NoDup_alt. intros i j x Hi Hj.
  destruct (decide (i ≤ j)%nat) as [Hle|Hle].
  - pose proof (chain_lookup max (drop i l) (j - i) x) as H.
    rewrite head_lookup, !lookup_drop, Nat.add_0_r in H.
    pose proof (lookup_lt_Some _ _ _ Hj).
    specialize (H (chain_drop _ _ _ Hc) (Forall_drop _ _ _ Hp) Hi x).
    replace (i + (j - i))%nat with j in H by lia. specialize (H Hj). lia.
  - pose proof (chain_lookup max (drop j l) (i - j) x) as H.
    rewrite head_lookup, !lookup_drop, Nat.add_0_r in H.
    pose proof (lookup_lt_Some _ _ _ Hi).
    specialize (H (chain_drop _ _ _ Hc) (Forall_drop _ _ _ Hp) Hj x).
    replace (j + (i - j))%nat with i in H by lia. specialize (H Hi). lia.
Qed.

(** ** Properties *)

(** A generator made by [init] never runs out: any number of calls in a row
    succeeds, so the refill in [__call__] always comes before the bank is empty
    and neither [pop(0)] nor [bank[-1]] can raise; every identifier handed out
    is non-negative and below [maximum + increment / 2]. *)
Theorem ids_never_exhausted max inc e st n :
  2 <= inc → inc < max → 0 <= e < max - inc → init max inc e = Ok st →
  ∃ ids st', calls n st = (Ok ids, st') ∧ length ids = n ∧
    Forall (λ v, 0 <= v < max + inc / 2) ids.
Proof.
  intros Hinc Hmax He Hst.
  assert (Hwf : wf st) by (eapply nextid_init_wf; [| |exact Hst]; lia).
  destruct (calls_spec n st Hwf) as (vs & st' & Hc & _ & Hlen & _ & _ & Hall & _).
  exists vs, st'. split_and!; try done. revert Hst. unfold init. case_match; [done|].
  intros [= <-]. cbn in Hall. by rewrite (Z.min_r max inc) in Hall by lia.
Qed.

Lemma ids_never_exhausted_witness :
  ∃ ids st', calls 9 (mk_Integer 10 4 2 [4; 5; 6; 7]) = (Ok ids, st') ∧ length ids = 9%nat ∧
    Forall (λ v, 0 <= v < 10 + 4 / 2) ids.
Proof. apply (ids_never_exhausted 10 4 4 _ 9); [lia|lia|lia|reflexivity]. Defined.

(** Identifiers are fresh: the identifiers of any [maximum + 1] calls in a
    row are pairwise distinct, so an identifier is handed out again only after
    the whole space has been used. *)
Theorem ids_distinct max inc e st n ids st' :
  2 <= inc → inc < max → 0 <= e < max - inc → init max inc e = Ok st →
  Z.of_nat n <= max + 1 → calls n st = (Ok ids, st') → NoDup ids.
Proof.
  intros Hinc Hmax He Hst Hn Hcalls.
  assert (Hwf : wf st) by (eapply nextid_init_wf; [| |exact Hst]; lia).
  destruct (calls_spec n st Hwf) as (vs & st2 & Hc & _ & Hlen & _ & Hch & Hall & _).
  rewrite Hcalls in Hc; simplify_eq.
  assert (maximum st = max) as Hm.
  { revert Hst. unfold init. case_match; [done|]. by intros [= <-]. }
  rewrite Hm in *. eapply chain_NoDup; [exact Hch| |lia].
  eapply Forall_impl; [exact Hall|]. cbn. lia.
Qed.

Lemma ids_distinct_witness : NoDup [4; 5; 6; 7; 8; 9; 10; 11; 0; 1; 2].
Proof.
  eapply (ids_distinct 10 4 4 (mk_Integer 10 4 2 [4; 5; 6; 7]) 11);
    [lia|lia|lia|reflexivity|lia|reflexivity].
Defined.

(** The documented wrap "at [maximum]" is not exact: the refill tests only
    the first value of the new run, so a generator can hand out an identifier
    above its maximum. *)
Theorem ids_can_exceed_maximum :
  ∃ max inc e st ids st', 2 <= inc ∧ inc < max ∧ 0 <= e < max - inc ∧
    init max inc e = Ok st ∧ calls 8 st = (Ok ids, st') ∧ Exists (λ v, max < v) ids.
Proof.
  exists 10, 4, 4. eexists _, _, _. split_and!; try lia; try reflexivity.
  apply Exists_exists. exists 11. split; [set_solver|lia].
Qed.

End NextId.
