(* ===== verification/LruCache.v ===== *)
(** * The bounded cache (src/pysnmp/cache.py)

    [Cache] keeps two dictionaries over the same keys, the values and how often
    each was read, and a size counter of its own.  When it is full,
    [__setitem__] drops the tenth of the entries that were read least. *)
From S2P Require Export Errors.

Module LruCache.

Section defs.
Context {K V : Type} `{EqDecision K}.

Record Cache : Type := mk_Cache {
  maxSize : Z;
  size : Z;
  chopSize : Z;
  cache : dict K V;
  usage : dict K Z;
}.

(** [Cache.__init__] *)
Definition init (maxSize : Z) : Cache :=
  let chop := maxSize / 10 in
  mk_Cache maxSize 0 (if chop =? 0 then 1 else chop) [] [].

(** [__contains__] *)
Definition contains (st : Cache) (k : K) : bool := din (cache st) k.

(** [__len__] *)
Definition len (st : Cache) : Z := size st.

(** [__getitem__]: the read is counted before the value is returned. *)
Definition getitem (k : K) : M exn Cache V := fun st =>
  match dget (usage st) k with
  | None => (Err KeyError, st)
  | Some n =>
      let st' := mk_Cache (maxSize st) (size st) (chopSize st) (cache st)
                   (dset (usage st) k (n + 1)) in
      match dget (cache st) k with
      | None => (Err KeyError, st')
      | Some v => (Ok v, st')
      end
  end.

(** [del self.__cache[k]; del self.__usage[k]] *)
Definition drop_entry (k : K) : M exn Cache unit := fun st =>
  if din (cache st) k then
    let st' := mk_Cache (maxSize st) (size st) (chopSize st) (ddel (cache st) k)
                 (usage st) in
    if din (usage st) k then
      (Ok tt, mk_Cache (maxSize st) (size st) (chopSize st) (cache st')
                (ddel (usage st) k))
    else (Err KeyError, st')
  else (Err KeyError, st).

Definition add_size (n : Z) (st : Cache) : Cache :=
  mk_Cache (maxSize st) (size st + n) (chopSize st) (cache st) (usage st).

(** [sorted(self.__usage, key=lambda x: self.__usage[x])] *)
Definition usageKeys (st : Cache) : list K :=
  sorted_by Z.leb (λ k, default 0 (dget (usage st) k)) (dkeys (usage st)).

(** The eviction in [__setitem__]. *)
Definition evict : M exn Cache unit := fun st =>
  (if size st >=? maxSize st then
     mapM_ drop_entry (take (Z.to_nat (chopSize st)) (usageKeys st));;
     modify (add_size (- chopSize st))
   else mret tt) st.

(** What follows it. *)
Definition store (k : K) (v : V) (st : Cache) : Cache :=
  let st1 := if din (cache st) k then st
             else mk_Cache (maxSize st) (size st + 1) (chopSize st) (cache st)
                    (dset (usage st) k 0) in
  mk_Cache (maxSize st1) (size st1) (chopSize st1) (dset (cache st1) k v) (usage st1).

(** [__setitem__] *)
Definition setitem (k : K) (v : V) : M exn Cache unit := evict;; modify (store k v).

(** [__delitem__] *)
Definition delitem (k : K) : M exn Cache unit :=
  drop_entry k;; modify (add_size (-1)).

(** An operation of a client, and a run of them; the client carries on after
    a [KeyError]. *)
Inductive op : Type := Get (k : K) | Set_ (k : K) (v : V) | Del (k : K).

Definition do_op (o : op) (st : Cache) : Cache :=
  match o with
  | Get k => (getitem k st).2
  | Set_ k v => (setitem k v st).2
  | Del k => (delitem k st).2
  end.

(** ** The invariant *)
Record wf (st : Cache) : Prop := {
  wf_cache : dict_ok (cache st);
  wf_usage : dict_ok (usage st);
  wf_keys : dkeys (usage st) ≡ₚ dkeys (cache st);
  wf_size : size st = Z.of_nat (length (cache st));
  wf_bound : size st <= maxSize st;
  wf_chop : 0 < chopSize st <= maxSize st;
}.

#[local] Ltac proj := unfold add_size; cbn [maxSize size chopSize cache usage].

(** ** Helper lemmas *)
Lemma wf_din st k : wf st → din (usage st) k = din (cache st) k.
Proof.
  intros Hwf. destruct (din (cache st) k) eqn:E.
  - apply din_true. rewrite (wf_keys _ Hwf). by apply din_true.
  - apply din_false, dget_None. rewrite (wf_keys _ Hwf). by apply dget_None, din_false.
Qed.

Lemma lru_init_wf n : 0 < n → wf (init n).
Proof.
  intros Hn. unfold init. pose proof (Z.div_pos n 10 ltac:(lia) ltac:(lia)).
  pose proof (Z.mul_div_le n 10 ltac:(lia)).
  split; cbn; try by constructor. all: repeat case_match; bool_to_prop; lia.
Qed.

(** What the eviction loop keeps, size apart. *)
Record consistent (st : Cache) : Prop := {
  co_cache : dict_ok (cache st);
  co_usage : dict_ok (usage st);
  co_keys : dkeys (usage st) ≡ₚ dkeys (cache st);
}.

Lemma ddel_keys_perm {A B} (d1 : dict K A) (d2 : dict K B) k :
  dict_ok d1 → dict_ok d2 → dkeys d1 ≡ₚ dkeys d2 →
  dkeys (ddel d1 k) ≡ₚ dkeys (ddel d2 k).
Proof.
  intros H1 H2 H. apply NoDup_Permutation; [by apply ddel_ok|by apply ddel_ok|].
  intros x.
  assert (∀ {C} (d : dict K C), dict_ok d → x ∈ dkeys (ddel d k) ↔ x ≠ k ∧ x ∈ dkeys d)
    as Hx.
  { intros C d Hd. rewrite <- !din_true. unfold din. rewrite dget_ddel by done.
    case_decide; naive_solver. }
  rewrite !Hx by done. by rewrite H.
Qed.

Lemma drop_entry_ok st k : consistent st → din (cache st) k = true →
  ∃ st', drop_entry k st = (Ok tt, st') ∧ consistent st' ∧
    maxSize st' = maxSize st ∧ chopSize st' = chopSize st ∧ size st' = size st ∧
    cache st' = ddel (cache st) k ∧ usage st' = ddel (usage st) k.
Proof.
  intros [H1 H2 H3] Hk. unfold drop_entry. rewrite Hk.
  assert (din (usage st) k = true) as ->.
  { apply din_true. rewrite H3. by apply din_true. }
  eexists; split; [reflexivity|]. split_and!; try done.
  split; cbn; [by apply ddel_ok|by apply ddel_ok|by apply ddel_keys_perm].
Qed.

Lemma drop_entries_ok ks st : consistent st → NoDup ks →
  (∀ k, k ∈ ks → din (cache st) k = true) →
  ∃ st', mapM_ drop_entry ks st = (Ok tt, st') ∧ consistent st' ∧
    maxSize st' = maxSize st ∧ chopSize st' = chopSize st ∧ size st' = size st ∧
    length (cache st') = (length (cache st) - length ks)%nat ∧
    (length ks ≤ length (cache st))%nat ∧
    (∀ k, dget (cache st') k = if decide (k ∈ ks) then None else dget (cache st) k) ∧
    (∀ k, dget (usage st') k = if decide (k ∈ ks) then None else dget (usage st) k).
Proof.
  revert st; induction ks as [|k ks IH]; intros st Hc Hnd Hin.
  { exists st. split_and!; try done; cbn; lia. }
  apply NoDup_cons in Hnd as [Hk Hnd].
  destruct (drop_entry_ok st k Hc (Hin k (list_elem_of_here _ _)))
    as (st1 & Hd & Hc1 & Hm1 & Hch1 & Hs1 & Hca1 & Hus1).
  assert (Hlen1 : length (cache st1) = (length (cache st) - 1)%nat).
  { rewrite Hca1, length_ddel, (Hin k); [done|left]. }
  assert (0 < length (cache st))%nat.
  { specialize (Hin k (list_elem_of_here _ _)). unfold din in Hin.
    destruct (cache st); cbn in *; [done|lia]. }
  destruct (IH st1 Hc1 Hnd) as (st2 & Hd2 & Hc2 & Hm2 & Hch2 & Hs2 & Hl2 & Hle2 & Hg2 & Hu2).
  { intros k' Hk'. unfold din. rewrite Hca1, dget_ddel_ne; [|apply Hc|set_solver].
    apply Hin. by right. }
  exists st2. cbn [mapM_ length]. munfold. rewrite Hd. split_and!; try done; try congruence; try lia.
  - intros k'. rewrite Hg2, Hca1, dget_ddel by apply Hc.
    repeat case_decide; set_solver.
  - intros k'. rewrite Hu2, Hus1, dget_ddel by apply Hc.
    repeat case_decide; set_solver.
Qed.

Lemma usageKeys_perm st : usageKeys st ≡ₚ dkeys (usage st).
Proof. apply sorted_by_perm. Qed.

Lemma wf_consistent st : wf st → consistent st.
Proof. intros []; split; done. Qed.

(** The keys [evict] drops. *)
Definition victims (st : Cache) : list K :=
  if size st >=? maxSize st then take (Z.to_nat (chopSize st)) (usageKeys st) else [].

Lemma length_usage st : wf st → length (usage st) = length (cache st).
Proof.
  intros Hwf. pose proof (Permutation_length (wf_keys _ Hwf)) as H.
  unfold dkeys in H. by rewrite !length_fmap in H.
Qed.

Lemma victims_spec st : wf st →
  NoDup (victims st) ∧ (∀ k, k ∈ victims st → din (cache st) k = true) ∧
  Z.of_nat (length (victims st)) = if size st >=? maxSize st then chopSize st else 0.
Proof.
  intros Hwf. unfold victims. destruct (Z.geb_spec (size st) (maxSize st)) as [Hs|Hs];
    [|split_and!; [constructor|set_solver|done]].
  pose proof (wf_chop _ Hwf). pose proof (wf_size _ Hwf). split_and!.
  - eapply sublist_NoDup; [|apply sublist_take]. rewrite usageKeys_perm. apply Hwf.
  - intros k Hk. rewrite <- (wf_din _ _ Hwf). apply din_true.
    rewrite <- usageKeys_perm. by eapply subseteq_take.
  - rewrite length_take, usageKeys_perm. unfold dkeys.
    rewrite length_fmap, length_usage by done. lia.
Qed.

Lemma evict_ok st : wf st →
  ∃ st', evict st = (Ok tt, st') ∧ wf st' ∧ size st' < maxSize st' ∧
    maxSize st' = maxSize st ∧ chopSize st' = chopSize st ∧
    (∀ k, dget (cache st') k = if decide (k ∈ victims st) then None else dget (cache st) k) ∧
    (∀ k, dget (usage st') k = if decide (k ∈ victims st) then None else dget (usage st) k).
Proof.
  intros Hwf. destruct (victims_spec _ Hwf) as (Hnd & Hin & Hlen).
  pose proof (wf_chop _ Hwf). pose proof (wf_size _ Hwf). pose proof (wf_bound _ Hwf).
  unfold evict. unfold victims in *.
  destruct (Z.geb_spec (size st) (maxSize st)) as [Hs|Hs].
  - destruct (drop_entries_ok _ _ (wf_consistent _ Hwf) Hnd Hin)
      as (st1 & Hd & [] & Hm1 & Hch1 & Hs1 & Hl1 & Hle1 & Hg1 & Hu1).
    munfold. rewrite Hd. eexists; split; [reflexivity|].
    split_and!; proj; try done; try lia. split; proj; try done; try lia.
  - exists st. munfold. split_and!; try done.
    all: intros k; rewrite decide_False; [done|set_solver].
Qed.

Lemma store_wf st k v : wf st → size st < maxSize st → wf (store k v st).
Proof.
  intros Hwf Hlt. unfold store. destruct Hwf as [H1 H2 H3 H4 H5 H6].
  destruct (din (cache st) k) eqn:E; split; proj; try by auto with snmp.
  - rewrite dkeys_dset, decide_True; [done|]. by apply din_true.
  - rewrite length_dset, E. lia.
  - assert (k ∉ dkeys (cache st)) by (by apply dget_None, din_false).
    rewrite !dkeys_dset, !decide_False; [by rewrite H3|done|by rewrite H3].
  - rewrite length_dset, E. lia.
  - lia.
Qed.

Lemma setitem_ok st k v : wf st →
  ∃ st', setitem k v st = (Ok tt, st') ∧ wf st' ∧
    maxSize st' = maxSize st ∧
    dget (cache st') k = Some v ∧
    (∀ k', k' ≠ k → dget (cache st') k' =
       if decide (k' ∈ victims st) then None else dget (cache st) k').
Proof.
  intros Hwf. destruct (evict_ok _ Hwf) as (st1 & He & Hwf1 & Hlt & Hm & Hch & Hg & Hu).
  exists (store k v st1). unfold setitem. munfold. rewrite He. split_and!; try done.
  - by apply store_wf.
  - unfold store. by destruct (din (cache st1) k).
  - unfold store. destruct (din (cache st1) k); cbn; by rewrite dget_dset_eq.
  - intros k' Hk'. rewrite <- Hg. unfold store.
    destruct (din (cache st1) k); cbn; by rewrite dget_dset_ne.
Qed.

(** A read of a key that is held returns its value and only counts the read. *)
Lemma getitem_ok st k v : wf st → dget (cache st) k = Some v →
  ∃ st', getitem k st = (Ok v, st') ∧ wf st' ∧ cache st' = cache st.
Proof.
  intros Hwf Hv. unfold getitem.
  assert (Hin : din (usage st) k = true).
  { rewrite wf_din by done. unfold din. by rewrite Hv. }
  unfold din in Hin. destruct (dget (usage st) k) as [n|] eqn:E; [|done]. rewrite Hv.
  eexists. split; [reflexivity|]. split; [|done].
  destruct Hwf. split; proj; try by auto with snmp.
  rewrite dkeys_dset, decide_True; [done|]. by eapply dget_Some_keys.
Qed.

Lemma getitem_miss st k : wf st → dget (cache st) k = None → getitem k st = (Err KeyError, st).
Proof.
  intros Hwf Hv. unfold getitem.
  assert (Hin : din (usage st) k = false).
  { rewrite wf_din by done. unfold din. by rewrite Hv. }
  unfold din in Hin. by destruct (dget (usage st) k).
Qed.

Lemma lru_do_op_wf o st : wf st → wf (do_op o st).
Proof.
  intros Hwf. destruct o as [k|k v|k]; cbn.
  - unfold getitem. destruct (dget (usage st) k) as [n|] eqn:E; [|done].
    assert (wf (mk_Cache (maxSize st) (size st) (chopSize st) (cache st)
                  (dset (usage st) k (n + 1)))) as Hwf'.
    { destruct Hwf. split; proj; try by auto with snmp.
      rewrite dkeys_dset, decide_True; [done|]. by eapply dget_Some_keys. }
    by destruct (dget (cache st) k).
  - destruct (setitem_ok st k v Hwf) as (st' & -> & H & _). done.
  - unfold delitem. munfold. destruct (din (cache st) k) eqn:E.
    + destruct (drop_entry_ok st k (wf_consistent _ Hwf) E)
        as (st' & Hd & [] & Hm & Hch & Hs & Hc & Hu). rewrite Hd. cbn.
      destruct Hwf. split; proj; try done; try lia.
      rewrite Hc, length_ddel, E, Hs.
      assert (0 < length (cache st))%nat; [|lia].
      unfold din in E. destruct (cache st); cbn in *; [done|lia].
    + unfold drop_entry. by rewrite E.
Qed.

Lemma do_op_maxSize o st : wf st → maxSize (do_op o st) = maxSize st.
Proof.
  intros Hwf. destruct o as [k|k v|k]; cbn.
  - unfold getitem. repeat case_match; done.
  - by destruct (setitem_ok st k v Hwf) as (st' & -> & _ & ? & _).
  - unfold delitem, drop_entry. munfold. repeat case_match; simplify_eq/=; done.
Qed.

Lemma lru_run_wf ops st : wf st →
  wf (foldl (flip do_op) st ops) ∧ maxSize (foldl (flip do_op) st ops) = maxSize st.
Proof.
  revert st; induction ops as [|o ops IH]; intros st Hwf; cbn; [done|].
  destruct (IH (do_op o st) (lru_do_op_wf o st Hwf)) as [H1 H2].
  split; [done|]. by rewrite H2, do_op_maxSize.
Qed.

(** How often a key was read, as the eviction counts it. *)
Definition reads (st : Cache) (k : K) : Z := default 0 (dget (usage st) k).

Lemma victims_least st k k' : wf st →
  k ∈ victims st → k' ∉ victims st → din (cache st) k' = true →
  reads st k <= reads st k'.
Proof.
  intros Hwf Hk Hk' Hin. unfold victims in *. case_match; [|set_solver].
  apply Z.leb_le.
  apply (sorted_by_take_least Z.leb (reads st) (Z.to_nat (chopSize st))
           (dkeys (usage st))); [exact Hk|].
  assert (k' ∈ usageKeys st) as Hu.
  { rewrite usageKeys_perm. apply din_true. by rewrite wf_din. }
  rewrite <- (take_drop (Z.to_nat (chopSize st)) (usageKeys st)) in Hu.
  apply elem_of_app in Hu as [Hu|Hu]; [done|exact Hu].
Qed.

(** A cache made by [init] and used by a client. *)
Definition reachable (n : Z) (ops : list op) : Cache := foldl (flip do_op) (init n) ops.

Lemma lru_reachable_wf n ops : 0 < n → wf (reachable n ops) ∧ maxSize (reachable n ops) = n.
Proof. intros Hn. apply (lru_run_wf ops (init n)), lru_init_wf, Hn. Qed.

(** ** Properties *)

(** Whatever a client does with a cache of a positive size, [len] is the
    number of entries held and never exceeds the size asked for. *)
Theorem cache_never_overflows n ops : 0 < n →
  len (reachable n ops) = Z.of_nat (length (cache (reachable n ops))) ∧
  len (reachable n ops) <= n.
Proof.
  intros Hn. destruct (lru_reachable_wf n ops Hn) as [Hwf Hm].
  split; [apply Hwf|]. rewrite <- Hm at 2. apply Hwf.
Qed.

(** Storing never raises and stores: afterwards the key reads as the value,
    every other entry is untouched or was evicted, and an entry is evicted only
    when the cache was full and only if it was read no more often than any entry
    that stays. *)
Theorem setitem_evicts_least_used n ops k v : 0 < n →
  let st := reachable n ops in
  ∃ st', setitem k v st = (Ok tt, st') ∧ dget (cache st') k = Some v ∧
    ∀ k', k' ≠ k →
      dget (cache st') k' = dget (cache st) k' ∨
      (dget (cache st') k' = None ∧ n <= len st ∧
       ∀ k'', k'' ≠ k → dget (cache st') k'' ≠ None → reads st k' <= reads st k'').
Proof.
  intros Hn st. destruct (lru_reachable_wf n ops Hn) as [Hwf Hm].
  destruct (setitem_ok st k v Hwf) as (st' & Hs & Hwf' & _ & Hk & Ho).
  exists st'. split_and!; [done|done|]. intros k' Hk'. rewrite (Ho k' Hk').
  case_decide as Hv; [right|by left]. split_and!; [done| |].
  - unfold victims in Hv. destruct (Z.geb_spec (size st) (maxSize st)); [|set_solver].
    unfold len. rewrite <- Hm. done.
  - intros k'' Hk'' Hne. rewrite (Ho k'' Hk'') in Hne. case_decide; [done|].
    apply victims_least; try done. unfold din. by destruct (dget (cache st) k'').
Qed.
End defs.
Arguments Cache : clear implicits.
Arguments op : clear implicits.

Lemma cache_never_overflows_witness :
  let st := reachable (K:=Z) (V:=Z) 2 [Set_ 1 10; Set_ 2 20; Set_ 3 30; Get 3; Set_ 4 40] in
  len st = Z.of_nat (length (cache st)) ∧ len st <= 2.
Proof. apply (cache_never_overflows (K:=Z) (V:=Z) 2 _). lia. Defined.

Lemma setitem_evicts_least_used_witness :
  ∃ st', setitem 4 40 (reachable (K:=Z) (V:=Z) 2 [Set_ 1 10; Set_ 2 20; Get 1]) = (Ok tt, st')
    ∧ dget (cache st') 4 = Some 40.
Proof.
  destruct (setitem_evicts_least_used (K:=Z) (V:=Z) 2 [Set_ 1 10; Set_ 2 20; Get 1] 4 40)
    as (st' & H1 & H2 & _); [lia|]. exists st'. split; [exact H1|exact H2].
Defined.

(** Evicting keeps the entry that was read. *)
Example evict_example :
  (cache (setitem 4 40 (reachable (K:=Z) (V:=Z) 2 [Set_ 1 10; Set_ 2 20; Get 1])).2)
  = [(1, 10); (4, 40)].
Proof. reflexivity. Qed.
End LruCache.
