(* ===== verification/ReqCache.v ===== *)
(** * The caches of outstanding requests

    [Dsp]: the dispatcher's record of requests sent and not yet answered
    (src/pysnmp/proto/cache.py).  [Sec]: what a security model keeps between a
    request and its response (src/pysnmp/proto/secmod/cache.py).  [Mp]: what a
    message processing model keeps, indexed by message ID, state reference and
    PDU handle, with an expiry queue driven by timer ticks
    (src/pysnmp/proto/mpmod/cache.py). *)
From S2P Require Export NextId.

(** ** proto/cache.py *)
Module Dsp.
Section defs.
(** The keyword arguments of a request: names and values. *)
Context {A : Type}.
Abbreviation kwargs := (gmap string A).
Abbreviation repo := (dict Z (gmap string A)).

(** [Cache.add] *)
Definition add (index : Z) (kw : kwargs) : M exn repo Z :=
  modify (λ r, dset r index kw);; mret index.

(** [Cache.pop] *)
Definition pop (index : Z) : M exn repo (option kwargs) := fun r =>
  match dget r index with
  | Some cachedParams => (Ok (Some cachedParams), ddel r index)
  | None => (Ok None, r)
  end.

(** [Cache.update]: the new arguments win. *)
Definition update (index : Z) (kw : kwargs) : M exn repo unit := fun r =>
  match dget r index with
  | None => (Err (ProtocolError "Cache miss on update"), r)
  | Some old => (Ok tt, dset r index (kw ∪ old))
  end.

(** [Cache.expire]: the callback sees the cache and may change it, [S] is the
    rest of the state it works on. *)
Fixpoint expire_loop {S} (cbFun : Z → kwargs → M exn (repo * S) bool)
    (items : list (Z * kwargs)) : M exn (repo * S) unit :=
  match items with
  | [] => mret tt
  | (index, cachedParams) :: items' =>
      b ← cbFun index cachedParams;
      (if (b : bool) then
         modify (λ '(r, s), (if din r index then ddel r index else r, s))
       else mret tt);;
      expire_loop cbFun items'
  end.

Definition expire {S} (cbFun : option (Z → kwargs → M exn (repo * S) bool)) :
    M exn (repo * S) unit := fun rs =>
  match cbFun with
  | None => (Ok tt, rs)
  | Some cb => expire_loop cb rs.1 rs
  end.

(** A callback that decides by [p] and changes nothing else in the cache. *)
Definition pure_callback {S} (p : Z → kwargs → bool) (f : Z → kwargs → S → S) :
    Z → kwargs → M exn (repo * S) bool :=
  λ i kw '(r, s), (Ok (p i kw), (r, f i kw s)).

Lemma ddel_cons_ne (r : repo) i j kw : i ≠ j → ddel ((j, kw) :: r) i = (j, kw) :: ddel r i.
Proof. intros. cbn. by rewrite decide_False. Qed.

Lemma pure_callback_eq {S} p (f : Z → kwargs → S → S) i kw r s :
  pure_callback p f i kw (r, s) = (Ok (p i kw), (r, f i kw s)).
Proof. done. Qed.

Lemma expire_loop_pure {S} p (f : Z → kwargs → S → S) (pre items : repo) s :
  dict_ok (pre ++ items) →
  ∃ s', expire_loop (pure_callback p f) items (pre ++ items, s) =
    (Ok tt, (pre ++ filter (λ x, p x.1 x.2 = false) items, s')).
Proof.
  revert pre s; induction items as [|[i kw] items IH]; intros pre s Hok; cbn [expire_loop].
  { eexists. reflexivity. }
  munfold. rewrite pure_callback_eq. cbn beta match. destruct (p i kw) eqn:Hp.
  - assert (Hdel : ddel (pre ++ (i, kw) :: items) i = pre ++ items).
    { clear IH. induction pre as [|[j kw'] pre IHp]; cbn; [by rewrite decide_True|].
      unfold dict_ok, dkeys in Hok. cbn in Hok. apply NoDup_cons in Hok as [Hn Hok].
      rewrite decide_False; [by rewrite IHp|]. intros ->. apply Hn.
      rewrite fmap_app. set_solver. }
    assert (din (pre ++ (i, kw) :: items) i = true) as ->.
    { apply din_true. unfold dkeys. rewrite fmap_app. set_solver. }
    rewrite Hdel. destruct (IH pre (f i kw s)) as [s' Hs'].
    { rewrite <- Hdel. by apply ddel_ok. }
    rewrite Hs'. eexists. rewrite filter_cons_False; [reflexivity|cbn; congruence].
  - destruct (IH (pre ++ [(i, kw)]) (f i kw s)) as [s' Hs'].
    { by rewrite <- app_assoc. }
    rewrite <- !app_assoc in Hs'. cbn in Hs'. rewrite Hs'. eexists.
    rewrite filter_cons_True by done. done.
Qed.
End defs.
End Dsp.

(** ** proto/secmod/cache.py *)
Module Sec.
Section defs.
Context {D : Type}.

(** [__stateReference] belongs to the class: the instances share it. *)
Record Cache : Type := mk_Cache {
  stateReference : NextId.Integer;
  cacheEntries : gmap Z D;
}.

Definition push (securityData : D) : M exn Cache Z := fun st =>
  let '(r, g) := NextId.call (stateReference st) in
  match r with
  | Ok ref => (Ok ref, mk_Cache g (<[ref := securityData]> (cacheEntries st)))
  | Err e => (Err e, mk_Cache g (cacheEntries st))
  end.

Definition pop (ref : Z) : M exn Cache D := fun st =>
  match cacheEntries st !! ref with
  | None => (Err (ProtocolError "Cache miss for stateReference"), st)
  | Some securityData =>
      (Ok securityData, mk_Cache (stateReference st) (delete ref (cacheEntries st)))
  end.
End defs.
Arguments Cache : clear implicits.
End Sec.
