(* ===== verification/MpCache.v ===== *)
(** * The message processing cache (src/pysnmp/proto/mpmod/cache.py)

    Entries of the server side are held by state reference, entries of the
    client side by message ID and by the dispatcher's PDU handle.  Every entry
    is also in the expiry queue, under the tick it expires at; the clock is the
    number of [expireCaches] calls.  [MpCacheWp] has the rules for the operations the two
    message processing models use. *)
From S2P Require Export NextId Wp.

Module MpCache.
Section defs.
(** [I]: what is kept for a request being served.  [C]: what is kept for a
    request that was sent; both models always pass [sendPduHandle]. *)
Context {I C : Type} (sendPduHandle : C → Z).

(** [{"stateReference": {ref: 1, ...}, "msgId": {id: 1, ...}}] *)
Record bucket : Type := mk_bucket {
  b_stateReference : option (dict Z Z);
  b_msgId : option (dict Z Z);
}.

Record Cache : Type := mk_Cache {
  stateReferenceGen : NextId.Integer;
  msgIDGen : NextId.Integer;
  msgIdIndex : gmap Z (C * Z);
  stateReferenceIndex : gmap Z (I * Z);
  sendPduHandleIdx : gmap Z Z;
  expirationQueue : gmap Z bucket;
  expirationTimer : Z;
}.

(** [Cache.__init__]; the two generators belong to the class. *)
Definition init (sg mg : NextId.Integer) : Cache := mk_Cache sg mg ∅ ∅ ∅ ∅ 0.

Definition set_state (f : gmap Z (I * Z) → gmap Z (I * Z)) (st : Cache) : Cache :=
  mk_Cache (stateReferenceGen st) (msgIDGen st) (msgIdIndex st)
    (f (stateReferenceIndex st)) (sendPduHandleIdx st) (expirationQueue st)
    (expirationTimer st).
Definition set_msg (f : gmap Z (C * Z) → gmap Z (C * Z)) (st : Cache) : Cache :=
  mk_Cache (stateReferenceGen st) (msgIDGen st) (f (msgIdIndex st))
    (stateReferenceIndex st) (sendPduHandleIdx st) (expirationQueue st)
    (expirationTimer st).
Definition set_handle (f : gmap Z Z → gmap Z Z) (st : Cache) : Cache :=
  mk_Cache (stateReferenceGen st) (msgIDGen st) (msgIdIndex st)
    (stateReferenceIndex st) (f (sendPduHandleIdx st)) (expirationQueue st)
    (expirationTimer st).
Definition set_queue (f : gmap Z bucket → gmap Z bucket) (st : Cache) : Cache :=
  mk_Cache (stateReferenceGen st) (msgIDGen st) (msgIdIndex st)
    (stateReferenceIndex st) (sendPduHandleIdx st) (f (expirationQueue st))
    (expirationTimer st).
Definition tick (st : Cache) : Cache :=
  mk_Cache (stateReferenceGen st) (msgIDGen st) (msgIdIndex st)
    (stateReferenceIndex st) (sendPduHandleIdx st) (expirationQueue st)
    (expirationTimer st + 1).

(** [newStateReference], [newMsgID] *)
Definition newStateReference : M exn Cache Z :=
  zoom stateReferenceGen
    (λ g st, mk_Cache g (msgIDGen st) (msgIdIndex st) (stateReferenceIndex st)
               (sendPduHandleIdx st) (expirationQueue st) (expirationTimer st))
    NextId.call.
Definition newMsgID : M exn Cache Z :=
  zoom msgIDGen
    (λ g st, mk_Cache (stateReferenceGen st) g (msgIdIndex st) (stateReferenceIndex st)
               (sendPduHandleIdx st) (expirationQueue st) (expirationTimer st))
    NextId.call.

(** The queue assignments of the two push operations. *)
Definition schedule_state (expireAt ref : Z) (q : gmap Z bucket) : gmap Z bucket :=
  let b := default (mk_bucket None None) (q !! expireAt) in
  <[expireAt := mk_bucket (Some (dset (default [] (b_stateReference b)) ref 1))
                  (b_msgId b)]> q.
Definition schedule_msg (expireAt msgId : Z) (q : gmap Z bucket) : gmap Z bucket :=
  let b := default (mk_bucket None None) (q !! expireAt) in
  <[expireAt := mk_bucket (b_stateReference b)
                  (Some (dset (default [] (b_msgId b)) msgId 1))]> q.

(** [del self.__expirationQueue[expireAt]["stateReference"][ref]] *)
Definition unschedule_state (expireAt ref : Z) : M exn Cache unit := fun st =>
  match expirationQueue st !! expireAt with
  | Some (mk_bucket (Some d) m) =>
      if din d ref
      then (Ok tt, set_queue <[expireAt := mk_bucket (Some (ddel d ref)) m]> st)
      else (Err KeyError, st)
  | _ => (Err KeyError, st)
  end.
Definition unschedule_msg (expireAt msgId : Z) : M exn Cache unit := fun st =>
  match expirationQueue st !! expireAt with
  | Some (mk_bucket s (Some d)) =>
      if din d msgId
      then (Ok tt, set_queue <[expireAt := mk_bucket s (Some (ddel d msgId))]> st)
      else (Err KeyError, st)
  | _ => (Err KeyError, st)
  end.

(** [del self.__stateReferenceIndex[ref]] and the like *)
Definition del_state (ref : Z) : M exn Cache unit := fun st =>
  match stateReferenceIndex st !! ref with
  | Some _ => (Ok tt, set_state (delete ref) st)
  | None => (Err KeyError, st)
  end.
Definition del_msg (msgId : Z) : M exn Cache unit := fun st =>
  match msgIdIndex st !! msgId with
  | Some _ => (Ok tt, set_msg (delete msgId) st)
  | None => (Err KeyError, st)
  end.
Definition del_handle (h : Z) : M exn Cache unit := fun st =>
  match sendPduHandleIdx st !! h with
  | Some _ => (Ok tt, set_handle (delete h) st)
  | None => (Err KeyError, st)
  end.

(** [pushByStateRef] *)
Definition pushByStateRef (ref : Z) (msgInfo : I) : M exn Cache unit := fun st =>
  match stateReferenceIndex st !! ref with
  | Some _ => (Err (ProtocolError "Cache dup for stateReference"), st)
  | None =>
      let expireAt := expirationTimer st + 600 in
      (Ok tt, set_queue (schedule_state expireAt ref)
                (set_state <[ref := (msgInfo, expireAt)]> st))
  end.

(** [popByStateRef] *)
Definition popByStateRef (ref : Z) : M exn Cache I := fun st =>
  match stateReferenceIndex st !! ref with
  | None => (Err (ProtocolError "Cache miss for stateReference"), st)
  | Some (cacheEntry, expireAt) =>
      (del_state ref;; unschedule_state expireAt ref;; mret cacheEntry) st
  end.

(** [pushByMsgId] *)
Definition pushByMsgId (msgId : Z) (msgInfo : C) : M exn Cache unit := fun st =>
  match msgIdIndex st !! msgId with
  | Some _ => (Err (ProtocolError "Cache dup for msgId"), st)
  | None =>
      let expireAt := expirationTimer st + 600 in
      (Ok tt, set_queue (schedule_msg expireAt msgId)
                (set_handle <[sendPduHandle msgInfo := msgId]>
                   (set_msg <[msgId := (msgInfo, expireAt)]> st)))
  end.

(** [popByMsgId] *)
Definition popByMsgId (msgId : Z) : M exn Cache C := fun st =>
  match msgIdIndex st !! msgId with
  | None => (Err (ProtocolError "Cache miss for msgId"), st)
  | Some (msgInfo, expireAt) =>
      (del_handle (sendPduHandle msgInfo);; del_msg msgId;;
       unschedule_msg expireAt msgId;; mret msgInfo) st
  end.

(** [popBySendPduHandle]: what was held is dropped, not returned. *)
Definition popBySendPduHandle (h : Z) : M exn Cache unit := fun st =>
  match sendPduHandleIdx st !! h with
  | None => (Ok tt, st)
  | Some msgId => (popByMsgId msgId;; mret tt) st
  end.

(** [AbstractMessageProcessingModel.releaseStateInformation] (mpmod/base.py) *)
Definition releaseStateInformation (h : Z) : M exn Cache unit :=
  try_except (popBySendPduHandle h)
    (λ e, if is_ProtocolError e then Some (mret tt) else None).

(** [expireCaches] *)
Definition expireCaches : M exn Cache unit := fun st =>
  (match expirationQueue st !! expirationTimer st with
   | Some cacheInfo =>
       (match b_stateReference cacheInfo with
        | Some d => mapM_ del_state (dkeys d) | None => mret tt end);;
       (match b_msgId cacheInfo with
        | Some d => mapM_ del_msg (dkeys d) | None => mret tt end);;
       modify (set_queue (delete (expirationTimer st)))
   | None => mret tt
   end;;
   modify tick) st.

Fixpoint ticks (n : nat) : M exn Cache unit :=
  match n with O => mret tt | S n' => expireCaches;; ticks n' end.

(** ** The invariant: the indices and the queue agree *)
Definition queued_state (st : Cache) (t : Z) : dict Z Z :=
  default [] (b ← expirationQueue st !! t; b_stateReference b).
Definition queued_msg (st : Cache) (t : Z) : dict Z Z :=
  default [] (b ← expirationQueue st !! t; b_msgId b).

Record wf (st : Cache) : Prop := {
  wf_state : ∀ r t, (∃ i, stateReferenceIndex st !! r = Some (i, t)) ↔
                    din (queued_state st t) r = true;
  wf_msg : ∀ m t, (∃ i, msgIdIndex st !! m = Some (i, t)) ↔
                  din (queued_msg st t) m = true;
  wf_state_ok : ∀ t, dict_ok (queued_state st t);
  wf_msg_ok : ∀ t, dict_ok (queued_msg st t);
  wf_state_time : ∀ r i t, stateReferenceIndex st !! r = Some (i, t) →
    expirationTimer st <= t <= expirationTimer st + 600;
  wf_msg_time : ∀ m i t, msgIdIndex st !! m = Some (i, t) →
    expirationTimer st <= t <= expirationTimer st + 600;
  wf_handle : ∀ m i t, msgIdIndex st !! m = Some (i, t) →
    sendPduHandleIdx st !! sendPduHandle i = Some m;
}.

(** A handle held for a request that is still there must not be reused; the
    dispatcher draws a fresh one for each request. *)
Definition fresh_handle (st : Cache) (h : Z) : Prop :=
  ∀ m i t, msgIdIndex st !! m = Some (i, t) → sendPduHandle i ≠ h.

(** Every use the engine makes of a cache. *)
Inductive step : Cache → Cache → Prop :=
  | step_pushByStateRef st r i : step st (pushByStateRef r i st).2
  | step_popByStateRef st r : step st (popByStateRef r st).2
  | step_pushByMsgId st m i :
      fresh_handle st (sendPduHandle i) → step st (pushByMsgId m i st).2
  | step_popByMsgId st m : step st (popByMsgId m st).2
  | step_release st h : step st (releaseStateInformation h st).2
  | step_newStateReference st : step st (newStateReference st).2
  | step_newMsgID st : step st (newMsgID st).2
  | step_expireCaches st : step st (expireCaches st).2.

Definition reachable (st : Cache) : Prop := ∃ sg mg, rtc step (init sg mg) st.

(** ** Helper lemmas *)
#[local] Ltac proj := unfold set_state, set_msg, set_handle, set_queue, tick;
  cbn [msgIdIndex stateReferenceIndex sendPduHandleIdx expirationQueue
       expirationTimer stateReferenceGen msgIDGen].

Lemma init_wf sg mg : wf (init sg mg).
Proof.
  split; unfold queued_state, queued_msg, init; proj.
  1,2: intros r t; rewrite !lookup_empty; cbn; split; [by intros [? ?]|done].
  1,2: intros t; rewrite lookup_empty; constructor.
  all: intros *; by rewrite lookup_empty.
Qed.

Lemma queued_schedule_state q t r t' :
  default [] (b ← schedule_state t r q !! t'; b_stateReference b) =
  if decide (t' = t) then dset (default [] (b ← q !! t; b_stateReference b)) r 1
  else default [] (b ← q !! t'; b_stateReference b).
Proof.
  unfold schedule_state. rewrite lookup_insert. repeat case_decide; try congruence; cbn.
  by destruct (q !! t) as [[[] ?]|].
Qed.
Lemma queued_schedule_state_msg q t r t' :
  default [] (b ← schedule_state t r q !! t'; b_msgId b) =
  default [] (b ← q !! t'; b_msgId b).
Proof.
  unfold schedule_state. rewrite lookup_insert. case_decide; [|done]; subst; cbn.
  by destruct (q !! t') as [[? []]|].
Qed.
Lemma queued_schedule_msg q t m t' :
  default [] (b ← schedule_msg t m q !! t'; b_msgId b) =
  if decide (t' = t) then dset (default [] (b ← q !! t; b_msgId b)) m 1
  else default [] (b ← q !! t'; b_msgId b).
Proof.
  unfold schedule_msg. rewrite lookup_insert. repeat case_decide; try congruence; cbn.
  by destruct (q !! t) as [[? []]|].
Qed.
Lemma queued_schedule_msg_state q t m t' :
  default [] (b ← schedule_msg t m q !! t'; b_stateReference b) =
  default [] (b ← q !! t'; b_stateReference b).
Proof.
  unfold schedule_msg. rewrite lookup_insert. case_decide; [|done]; subst; cbn.
  by destruct (q !! t') as [[[] ?]|].
Qed.

Lemma unschedule_state_ok st t r : din (queued_state st t) r = true →
  ∃ q, unschedule_state t r st = (Ok tt, set_queue (λ _, q) st) ∧
    (∀ t', default [] (b ← q !! t'; b_stateReference b) =
       if decide (t' = t) then ddel (queued_state st t) r else queued_state st t') ∧
    (∀ t', default [] (b ← q !! t'; b_msgId b) = queued_msg st t').
Proof.
  unfold queued_state, queued_msg, unschedule_state. intros Hd.
  destruct (expirationQueue st !! t) as [[[d|] m]|] eqn:E; cbn in Hd; try done.
  rewrite Hd. eexists; split; [reflexivity|]. split; intros t'; cbn beta;
    rewrite lookup_insert; repeat case_decide; try congruence; subst; rewrite ?E; done.
Qed.

Lemma unschedule_msg_ok st t m : din (queued_msg st t) m = true →
  ∃ q, unschedule_msg t m st = (Ok tt, set_queue (λ _, q) st) ∧
    (∀ t', default [] (b ← q !! t'; b_msgId b) =
       if decide (t' = t) then ddel (queued_msg st t) m else queued_msg st t') ∧
    (∀ t', default [] (b ← q !! t'; b_stateReference b) = queued_state st t').
Proof.
  unfold queued_state, queued_msg, unschedule_msg. intros Hd.
  destruct (expirationQueue st !! t) as [[r [d|]]|] eqn:E; cbn in Hd; try done.
  rewrite Hd. eexists; split; [reflexivity|]. split; intros t'; cbn beta;
    rewrite lookup_insert; repeat case_decide; try congruence; subst; rewrite ?E; done.
Qed.

Lemma del_state_ok st r x : stateReferenceIndex st !! r = Some x →
  del_state r st = (Ok tt, set_state (delete r) st).
Proof. unfold del_state. by intros ->. Qed.
Lemma del_msg_ok st m x : msgIdIndex st !! m = Some x →
  del_msg m st = (Ok tt, set_msg (delete m) st).
Proof. unfold del_msg. by intros ->. Qed.
Lemma del_handle_ok st h x : sendPduHandleIdx st !! h = Some x →
  del_handle h st = (Ok tt, set_handle (delete h) st).
Proof. unfold del_handle. by intros ->. Qed.

(** [push] and [pop] on the server side. *)
Lemma pushByStateRef_ok st r i : wf st → stateReferenceIndex st !! r = None →
  ∃ st', pushByStateRef r i st = (Ok tt, st') ∧ wf st' ∧
    stateReferenceIndex st' = <[r := (i, expirationTimer st + 600)]> (stateReferenceIndex st) ∧
    msgIdIndex st' = msgIdIndex st ∧ sendPduHandleIdx st' = sendPduHandleIdx st ∧
    expirationTimer st' = expirationTimer st.
Proof.
  intros Hwf Hr. unfold pushByStateRef. rewrite Hr.
  eexists; split; [reflexivity|]. proj. split_and!; try done.
  destruct Hwf as [H1 H2 H3 H4 H5 H6 H7].
  split; unfold queued_state, queued_msg; proj; try done.
  - intros r' t. rewrite queued_schedule_state. fold (queued_state st t).
    rewrite lookup_insert. case_decide as Hrr; subst.
    + case_decide as Ht; subst.
      * unfold din. rewrite dget_dset_eq. split; [done|intros _; eauto].
      * rewrite <- H1. split; intros [i' Hi']; congruence.
    + rewrite H1. case_decide as Ht; [subst|done].
      unfold din. by rewrite dget_dset_ne by congruence.
  - intros m t. rewrite queued_schedule_state_msg. apply H2.
  - intros t. rewrite queued_schedule_state. case_decide; [apply dset_ok|]; apply H3.
  - intros t. rewrite queued_schedule_state_msg. apply H4.
  - intros r' i' t. rewrite lookup_insert. case_decide; [intros [= <- <-]; lia|apply H5].
Qed.

Lemma popByStateRef_ok st r i t : wf st → stateReferenceIndex st !! r = Some (i, t) →
  ∃ st', popByStateRef r st = (Ok i, st') ∧ wf st' ∧
    stateReferenceIndex st' = delete r (stateReferenceIndex st) ∧
    msgIdIndex st' = msgIdIndex st ∧ sendPduHandleIdx st' = sendPduHandleIdx st ∧
    expirationTimer st' = expirationTimer st.
Proof.
  intros Hwf Hr. destruct Hwf as [H1 H2 H3 H4 H5 H6 H7].
  destruct (unschedule_state_ok (set_state (delete r) st) t r) as (q & Hq & Hq1 & Hq2).
  { apply H1. eauto. }
  unfold popByStateRef. rewrite Hr. munfold. rewrite (del_state_ok _ _ _ Hr), Hq.
  eexists; split; [reflexivity|]. proj. split_and!; try done.
  split; unfold queued_state, queued_msg; proj; try done.
  - intros r' t'. rewrite Hq1. unfold queued_state; proj; fold (queued_state st t).
    rewrite lookup_delete. case_decide as Hrr; subst.
    + split; [by intros [? ?]|]. case_decide; subst.
      * unfold din. by rewrite dget_ddel_eq.
      * fold (queued_state st t'). rewrite <- H1. intros [? ?]. congruence.
    + case_decide; subst; [|apply H1].
      unfold din. rewrite dget_ddel_ne by (congruence || done). apply H1.
  - intros m t'. rewrite Hq2. apply H2.
  - intros t'. rewrite Hq1. case_decide; [apply ddel_ok|]; apply H3.
  - intros t'. rewrite Hq2. apply H4.
  - intros r' i' t'. rewrite lookup_delete. case_decide; [done|apply H5].
Qed.

(** [push] and [pop] on the client side. *)
Lemma pushByMsgId_ok st m i : wf st → msgIdIndex st !! m = None →
  fresh_handle st (sendPduHandle i) →
  ∃ st', pushByMsgId m i st = (Ok tt, st') ∧ wf st' ∧
    msgIdIndex st' = <[m := (i, expirationTimer st + 600)]> (msgIdIndex st) ∧
    sendPduHandleIdx st' = <[sendPduHandle i := m]> (sendPduHandleIdx st) ∧
    stateReferenceIndex st' = stateReferenceIndex st ∧
    expirationTimer st' = expirationTimer st.
Proof.
  intros Hwf Hm Hfr. unfold pushByMsgId. rewrite Hm.
  eexists; split; [reflexivity|]. proj. split_and!; try done.
  destruct Hwf as [H1 H2 H3 H4 H5 H6 H7].
  split; unfold queued_state, queued_msg; proj; try done.
  - intros r t. rewrite queued_schedule_msg_state. apply H1.
  - intros m' t. rewrite queued_schedule_msg. fold (queued_msg st t).
    rewrite lookup_insert. case_decide as Hmm; subst.
    + case_decide as Ht; subst.
      * unfold din. rewrite dget_dset_eq. split; [done|intros _; eauto].
      * rewrite <- H2. split; intros [i' Hi']; congruence.
    + rewrite H2. case_decide as Ht; [subst|done].
      unfold din. by rewrite dget_dset_ne by congruence.
  - intros t. rewrite queued_schedule_msg_state. apply H3.
  - intros t. rewrite queued_schedule_msg. case_decide; [apply dset_ok|]; apply H4.
  - intros m' i' t. rewrite lookup_insert. case_decide; [intros [= <- <-]; lia|apply H6].
  - intros m' i' t. rewrite lookup_insert. case_decide; subst.
    + intros [= <- <-]. by rewrite lookup_insert_eq.
    + intros Hi. rewrite lookup_insert_ne; [by eapply H7|]. intros Heq.
      by apply (Hfr _ _ _ Hi).
Qed.

Lemma popByMsgId_ok st m i t : wf st → msgIdIndex st !! m = Some (i, t) →
  ∃ st', popByMsgId m st = (Ok i, st') ∧ wf st' ∧
    msgIdIndex st' = delete m (msgIdIndex st) ∧
    sendPduHandleIdx st' = delete (sendPduHandle i) (sendPduHandleIdx st) ∧
    stateReferenceIndex st' = stateReferenceIndex st ∧
    expirationTimer st' = expirationTimer st.
Proof.
  intros Hwf Hm. destruct Hwf as [H1 H2 H3 H4 H5 H6 H7].
  destruct (unschedule_msg_ok (set_msg (delete m) (set_handle (delete (sendPduHandle i)) st))
              t m) as (q & Hq & Hq1 & Hq2).
  { apply H2. eauto. }
  unfold popByMsgId. rewrite Hm. munfold.
  rewrite (del_handle_ok _ _ _ (H7 _ _ _ Hm)), (del_msg_ok _ _ (i, t)), Hq by done. eexists; split; [reflexivity|]. proj. split_and!; try done.
  split; unfold queued_state, queued_msg; proj; try done.
  - intros r t'. rewrite Hq2. apply H1.
  - intros m' t'. rewrite Hq1. unfold queued_msg; proj; fold (queued_msg st t).
    rewrite lookup_delete. case_decide as Hmm; subst.
    + split; [by intros [? ?]|]. case_decide; subst.
      * unfold din. by rewrite dget_ddel_eq.
      * fold (queued_msg st t'). rewrite <- H2. intros [? ?]. congruence.
    + case_decide; subst; [|apply H2].
      unfold din. rewrite dget_ddel_ne by (congruence || done). apply H2.
  - intros t'. rewrite Hq2. apply H3.
  - intros t'. rewrite Hq1. case_decide; [apply ddel_ok|]; apply H4.
  - intros m' i' t'. rewrite lookup_delete. case_decide; [done|apply H6].
  - intros m' i' t'. rewrite lookup_delete. case_decide as Hmm; [done|]. intros Hi.
    rewrite lookup_delete_ne; [by eapply H7|]. intros Heq.
    apply H7 in Hi, Hm. rewrite Heq in Hm. congruence.
Qed.

(** Expiry: the entries due at this tick go, and no others. *)
Lemma del_states_ok ks st : NoDup ks →
  (∀ r, r ∈ ks → is_Some (stateReferenceIndex st !! r)) →
  ∃ x, mapM_ del_state ks st = (Ok tt, set_state (λ _, x) st) ∧
    ∀ r, x !! r = if decide (r ∈ ks) then None else stateReferenceIndex st !! r.
Proof.
  revert st; induction ks as [|k ks IH]; intros st Hnd Hin.
  { exists (stateReferenceIndex st). by destruct st. }
  apply NoDup_cons in Hnd as [Hk Hnd].
  destruct (Hin k (list_elem_of_here _ _)) as [y Hy].
  destruct (IH (set_state (delete k) st) Hnd) as (x & Hx & Hl).
  { intros r Hr. proj. rewrite lookup_delete_ne by set_solver. apply Hin. by right. }
  exists x. cbn [mapM_]. munfold. rewrite (del_state_ok _ _ _ Hy), Hx. split; [done|].
  intros r. rewrite Hl. proj. rewrite lookup_delete. repeat case_decide; set_solver.
Qed.

Lemma del_msgs_ok ks st : NoDup ks →
  (∀ m, m ∈ ks → is_Some (msgIdIndex st !! m)) →
  ∃ x, mapM_ del_msg ks st = (Ok tt, set_msg (λ _, x) st) ∧
    ∀ m, x !! m = if decide (m ∈ ks) then None else msgIdIndex st !! m.
Proof.
  revert st; induction ks as [|k ks IH]; intros st Hnd Hin.
  { exists (msgIdIndex st). by destruct st. }
  apply NoDup_cons in Hnd as [Hk Hnd].
  destruct (Hin k (list_elem_of_here _ _)) as [y Hy].
  destruct (IH (set_msg (delete k) st) Hnd) as (x & Hx & Hl).
  { intros r Hr. proj. rewrite lookup_delete_ne by set_solver. apply Hin. by right. }
  exists x. cbn [mapM_]. munfold. rewrite (del_msg_ok _ _ _ Hy), Hx. split; [done|].
  intros r. rewrite Hl. proj. rewrite lookup_delete. repeat case_decide; set_solver.
Qed.

Definition due {X} (now : Z) (o : option (X * Z)) : option (X * Z) :=
  match o with Some (i, t) => if t =? now then None else Some (i, t) | None => None end.

(** What one tick leaves in the two indices, as a specification. *)
Definition expired (st st' : Cache) : Prop :=
  (∀ r, stateReferenceIndex st' !! r = due (expirationTimer st) (stateReferenceIndex st !! r)) ∧
  (∀ m, msgIdIndex st' !! m = due (expirationTimer st) (msgIdIndex st !! m)) ∧
  sendPduHandleIdx st' = sendPduHandleIdx st ∧
  expirationQueue st' = delete (expirationTimer st) (expirationQueue st) ∧
  expirationTimer st' = expirationTimer st + 1.

Lemma queued_keys_state st t : wf st →
  ∀ r, r ∈ dkeys (queued_state st t) ↔ ∃ i, stateReferenceIndex st !! r = Some (i, t).
Proof. intros Hwf r. by rewrite (wf_state _ Hwf), din_true. Qed.
Lemma queued_keys_msg st t : wf st →
  ∀ m, m ∈ dkeys (queued_msg st t) ↔ ∃ i, msgIdIndex st !! m = Some (i, t).
Proof. intros Hwf r. by rewrite (wf_msg _ Hwf), din_true. Qed.

Lemma due_lookup {X} now (o : option (X * Z)) (P : Prop) `{!Decision P} :
  (P ↔ ∃ i, o = Some (i, now)) → (if decide P then None else o) = due now o.
Proof.
  intros HP. destruct o as [[i t]|]; cbn; [|by case_decide].
  destruct (Z.eqb_spec t now) as [->|Hne].
  - rewrite decide_True; [done|]. apply HP. eauto.
  - rewrite decide_False; [done|]. intros [? ?]%HP. congruence.
Qed.

Lemma expireCaches_step st : wf st →
  ∃ st', expireCaches st = (Ok tt, st') ∧ expired st st'.
Proof.
  intros Hwf. set (now := expirationTimer st).
  pose proof (queued_keys_state st now Hwf) as Hks.
  pose proof (queued_keys_msg st now Hwf) as Hkm.
  assert (Hss : expireCaches st =
    ((match expirationQueue st !! now with
      | Some _ => mapM_ del_state (dkeys (queued_state st now));;
                  mapM_ del_msg (dkeys (queued_msg st now));;
                  modify (set_queue (delete now))
      | None => mret tt
      end;; modify tick) : M exn Cache unit) st).
  { unfold expireCaches, queued_state, queued_msg. fold now.
    destruct (expirationQueue st !! now) as [[[d|] [d'|]]|]; done. }
  rewrite Hss. destruct (expirationQueue st !! now) as [b|] eqn:Hq.
  - destruct (del_states_ok (dkeys (queued_state st now)) st) as (x & Hx & Hlx).
    { apply (wf_state_ok _ Hwf). } { intros r [i ->]%Hks. eauto. }
    destruct (del_msgs_ok (dkeys (queued_msg st now)) (set_state (λ _, x) st))
      as (y & Hy & Hly).
    { apply (wf_msg_ok _ Hwf). } { intros m [i Hi]%Hkm. proj. eauto. }
    munfold. rewrite Hx, Hy. eexists; split; [reflexivity|]. unfold expired; proj.
    split_and!; try done.
    + intros r. rewrite Hlx. apply due_lookup, Hks.
    + intros m. rewrite Hly. apply due_lookup, Hkm.
  - munfold. eexists; split; [reflexivity|]. unfold expired; proj. split_and!; try done.
    + intros r. rewrite <- (due_lookup now _ (r ∈ dkeys (queued_state st now))) by apply Hks.
      rewrite decide_False; [done|]. unfold queued_state. rewrite Hq. set_solver.
    + intros m. rewrite <- (due_lookup now _ (m ∈ dkeys (queued_msg st now))) by apply Hkm.
      rewrite decide_False; [done|]. unfold queued_msg. rewrite Hq. set_solver.
    + rewrite delete_id; done.
Qed.

Lemma due_Some {X} now (o : option (X * Z)) i t :
  due now o = Some (i, t) ↔ o = Some (i, t) ∧ t ≠ now.
Proof.
  destruct o as [[i' t']|]; cbn; [|naive_solver].
  destruct (Z.eqb_spec t' now); naive_solver.
Qed.

Lemma expired_wf st st' : wf st → expired st st' → wf st'.
Proof.
  intros Hwf (Hs & Hm & Hh & Hq & Ht). destruct Hwf as [H1 H2 H3 H4 H5 H6 H7].
  assert (Hqs : ∀ t, queued_state st' t =
    if decide (t = expirationTimer st) then [] else queued_state st t).
  { intros t. unfold queued_state. rewrite Hq, lookup_delete.
    repeat case_decide; congruence || done. }
  assert (Hqm : ∀ t, queued_msg st' t =
    if decide (t = expirationTimer st) then [] else queued_msg st t).
  { intros t. unfold queued_msg. rewrite Hq, lookup_delete.
    repeat case_decide; congruence || done. }
  split.
  - intros r t. rewrite Hs, Hqs. setoid_rewrite due_Some. case_decide; [naive_solver|].
    rewrite <- H1. naive_solver.
  - intros m t. rewrite Hm, Hqm. setoid_rewrite due_Some. case_decide; [naive_solver|].
    rewrite <- H2. naive_solver.
  - intros t. rewrite Hqs. case_decide; [constructor|apply H3].
  - intros t. rewrite Hqm. case_decide; [constructor|apply H4].
  - intros r i t. rewrite Hs, due_Some, Ht. intros [Hi ?]. apply H5 in Hi. lia.
  - intros m i t. rewrite Hm, due_Some, Ht. intros [Hi ?]. apply H6 in Hi. lia.
  - intros m i t. rewrite Hm, due_Some, Hh. intros [Hi ?]. by eapply H7.
Qed.

Lemma expireCaches_ok st : wf st →
  ∃ st', expireCaches st = (Ok tt, st') ∧ wf st' ∧ expired st st'.
Proof.
  intros Hwf. destruct (expireCaches_step st Hwf) as (st' & He & Hx).
  exists st'. split_and!; [done|by eapply expired_wf|done].
Qed.

(** [n] ticks drop exactly the entries due in the next [n] ticks. *)
Definition survives {X} (now : Z) (n : nat) (o : option (X * Z)) : option (X * Z) :=
  match o with
  | Some (i, t) => if t <? now + Z.of_nat n then None else Some (i, t)
  | None => None
  end.

Lemma survives_due {X} now n (o : option (X * Z)) :
  (∀ i t, o = Some (i, t) → now <= t) →
  survives (now + 1) n (due now o) = survives now (S n) o.
Proof.
  intros Ho. destruct o as [[i t]|]; [|done]. specialize (Ho i t eq_refl).
  cbn. rewrite Nat2Z.inj_succ. destruct (Z.eqb_spec t now); cbn;
    repeat match goal with |- context [?a <? ?b] => destruct (Z.ltb_spec a b) end;
    done || lia.
Qed.

Lemma ticks_ok n st : wf st →
  ∃ st', ticks n st = (Ok tt, st') ∧ wf st' ∧
    (∀ r, stateReferenceIndex st' !! r =
       survives (expirationTimer st) n (stateReferenceIndex st !! r)) ∧
    (∀ m, msgIdIndex st' !! m = survives (expirationTimer st) n (msgIdIndex st !! m)) ∧
    sendPduHandleIdx st' = sendPduHandleIdx st.
Proof.
  revert st; induction n as [|n IH]; intros st Hwf.
  { exists st. split_and!; try done.
    - intros r. destruct (stateReferenceIndex st !! r) as [[i t]|] eqn:E; [|done].
      apply (wf_state_time _ Hwf) in E. unfold survives. case_match; [bool_to_prop; lia|done].
    - intros r. destruct (msgIdIndex st !! r) as [[i t]|] eqn:E; [|done].
      apply (wf_msg_time _ Hwf) in E. unfold survives. case_match; [bool_to_prop; lia|done]. }
  destruct (expireCaches_ok st Hwf) as (st1 & He & Hwf1 & Hs1 & Hm1 & Hh1 & Hq1 & Ht1).
  destruct (IH st1 Hwf1) as (st2 & Hts & Hwf2 & Hs2 & Hm2 & Hh2).
  exists st2. cbn [ticks]. munfold. rewrite He, Hts. split_and!; try done; try congruence.
  - intros r. rewrite Hs2, Hs1, Ht1. apply survives_due. intros i t Hi.
    apply (wf_state_time _ Hwf) in Hi. lia.
  - intros m. rewrite Hm2, Hm1, Ht1. apply survives_due. intros i t Hi.
    apply (wf_msg_time _ Hwf) in Hi. lia.
Qed.

Lemma popBySendPduHandle_wf st h : wf st → wf (popBySendPduHandle h st).2.
Proof.
  intros Hwf. unfold popBySendPduHandle. destruct (sendPduHandleIdx st !! h) as [m|]; [|done].
  munfold. destruct (msgIdIndex st !! m) as [[i t]|] eqn:E.
  - destruct (popByMsgId_ok st m i t Hwf E) as (st' & -> & H & _). done.
  - unfold popByMsgId. by rewrite E.
Qed.

(** Giving up a request never fails, held or not. *)
Lemma release_wf st h : wf st → ∃ st', releaseStateInformation h st = (Ok tt, st') ∧ wf st'.
Proof.
  intros Hwf. unfold releaseStateInformation, try_except, popBySendPduHandle.
  destruct (sendPduHandleIdx st !! h) as [m|]; [|by exists st]. munfold.
  destruct (msgIdIndex st !! m) as [[i t]|] eqn:E.
  - destruct (popByMsgId_ok st m i t Hwf E) as (st' & -> & H & _). by exists st'.
  - unfold popByMsgId. rewrite E. by exists st.
Qed.

Lemma gen_wf st g g' : wf st →
  wf (mk_Cache g g' (msgIdIndex st) (stateReferenceIndex st) (sendPduHandleIdx st)
        (expirationQueue st) (expirationTimer st)).
Proof. intros []; split; done. Qed.

Lemma step_wf st st' : step st st' → wf st → wf st'.
Proof.
  destruct 1 as [st r i|st r|st m i Hf|st m|st h|st|st|st]; intros Hwf.
  - destruct (stateReferenceIndex st !! r) as [[i' t]|] eqn:E.
    + unfold pushByStateRef. by rewrite E.
    + by destruct (pushByStateRef_ok st r i Hwf E) as (? & -> & ? & _).
  - destruct (stateReferenceIndex st !! r) as [[i' t]|] eqn:E.
    + by destruct (popByStateRef_ok st r _ _ Hwf E) as (? & -> & ? & _).
    + unfold popByStateRef. by rewrite E.
  - destruct (msgIdIndex st !! m) as [[i' t]|] eqn:E.
    + unfold pushByMsgId. by rewrite E.
    + by destruct (pushByMsgId_ok st m i Hwf E Hf) as (? & -> & ? & _).
  - destruct (msgIdIndex st !! m) as [[i' t]|] eqn:E.
    + by destruct (popByMsgId_ok st m _ _ Hwf E) as (? & -> & ? & _).
    + unfold popByMsgId. by rewrite E.
  - pose proof (popBySendPduHandle_wf st h Hwf) as Hp.
    unfold releaseStateInformation, try_except.
    destruct (popBySendPduHandle h st) as [[?|e] st']; [done|].
    by destruct (is_ProtocolError e).
  - unfold newStateReference. munfold. destruct (NextId.call _). by apply gen_wf.
  - unfold newMsgID. munfold. destruct (NextId.call _). by apply gen_wf.
  - by destruct (expireCaches_ok st Hwf) as (? & -> & ? & _).
Qed.

Lemma reachable_wf st : reachable st → wf st.
Proof.
  intros (sg & mg & Hr). assert (H : wf (init sg mg)) by apply init_wf.
  induction Hr as [|x y z Hxy _ IH]; [done|]. apply IH. by eapply step_wf.
Qed.

(** ** Properties *)

(** The three indices and the expiry queue never get out of step: in every
    state the engine can bring a cache to, taking an entry back gives the entry
    when it is there and a [ProtocolError] when it is not, on both sides, and a
    timer tick succeeds.  In particular none of the [del] statements can raise
    a [KeyError]. *)
Theorem cache_indices_agree st : reachable st →
  (∀ r, (popByStateRef r st).1 =
     match stateReferenceIndex st !! r with
     | Some (i, _) => Ok i
     | None => Err (ProtocolError "Cache miss for stateReference")
     end) ∧
  (∀ m, (popByMsgId m st).1 =
     match msgIdIndex st !! m with
     | Some (i, _) => Ok i
     | None => Err (ProtocolError "Cache miss for msgId")
     end) ∧
  (expireCaches st).1 = Ok tt.
Proof.
  intros Hwf%reachable_wf. split_and!.
  - intros r. destruct (stateReferenceIndex st !! r) as [[i t]|] eqn:E.
    + by destruct (popByStateRef_ok st r i t Hwf E) as (? & -> & _).
    + unfold popByStateRef. by rewrite E.
  - intros m. destruct (msgIdIndex st !! m) as [[i t]|] eqn:E.
    + by destruct (popByMsgId_ok st m i t Hwf E) as (? & -> & _).
    + unfold popByMsgId. by rewrite E.
  - by destruct (expireCaches_ok st Hwf) as (? & -> & _).
Qed.

(** A request that was sent is remembered for 600 timer ticks and not
    longer: up to then a response quoting its message ID finds it, from the
    601st tick on the response is a cache miss. *)
Theorem pending_request_lifetime st m i n : reachable st →
  msgIdIndex st !! m = None → fresh_handle st (sendPduHandle i) →
  ((pushByMsgId m i;; ticks n;; popByMsgId m) st).1 =
    if (n <=? 600)%nat then Ok i else Err (ProtocolError "Cache miss for msgId").
Proof.
  intros Hwf%reachable_wf Hm Hf.
  destruct (pushByMsgId_ok st m i Hwf Hm Hf) as (st1 & Hp & Hwf1 & Hi1 & _ & _ & Ht1).
  destruct (ticks_ok n st1 Hwf1) as (st2 & Hn & Hwf2 & _ & Hi2 & _).
  munfold. rewrite Hp, Hn. specialize (Hi2 m).
  rewrite Hi1, Ht1, lookup_insert_eq in Hi2. unfold survives in Hi2.
  destruct (Nat.leb_spec n 600).
  - destruct (Z.ltb_spec (expirationTimer st + 600) (expirationTimer st + Z.of_nat n)); [lia|].
    by destruct (popByMsgId_ok st2 m _ _ Hwf2 Hi2) as (? & -> & _).
  - destruct (Z.ltb_spec (expirationTimer st + 600) (expirationTimer st + Z.of_nat n)); [|lia].
    unfold popByMsgId. by rewrite Hi2.
Qed.

(** Expiry does not clear the PDU handle index: once a request has expired,
    releasing it by its handle raises a cache miss, where the comment on
    [popBySendPduHandle] promises that a miss is silent; the stale handle stays
    in the index. *)
Theorem expired_handle_is_stale st m i n : reachable st →
  msgIdIndex st !! m = None → fresh_handle st (sendPduHandle i) → (600 < n)%nat →
  ∃ st', (pushByMsgId m i;; ticks n;; popBySendPduHandle (sendPduHandle i)) st =
      (Err (ProtocolError "Cache miss for msgId"), st') ∧
    sendPduHandleIdx st' !! sendPduHandle i = Some m.
Proof.
  intros Hwf%reachable_wf Hm Hf Hlt.
  destruct (pushByMsgId_ok st m i Hwf Hm Hf) as (st1 & Hp & Hwf1 & Hi1 & Hh1 & _ & Ht1).
  destruct (ticks_ok n st1 Hwf1) as (st2 & Hn & Hwf2 & _ & Hi2 & Hh2).
  exists st2. munfold. rewrite Hp, Hn. specialize (Hi2 m).
  rewrite Hi1, Ht1, lookup_insert_eq in Hi2. unfold survives in Hi2.
  destruct (Z.ltb_spec (expirationTimer st + 600) (expirationTimer st + Z.of_nat n)); [|lia].
  assert (Hh : sendPduHandleIdx st2 !! sendPduHandle i = Some m)
    by (by rewrite Hh2, Hh1, lookup_insert_eq).
  split; [|done]. unfold popBySendPduHandle. rewrite Hh. munfold.
  unfold popByMsgId. by rewrite Hi2.
Qed.
End defs.
Arguments Cache : clear implicits.

(** ** Witnesses *)
Definition demo_gen : NextId.Integer := NextId.mk_Integer 16777215 256 128 (NextId.range 0 256).
Definition demo : Cache Z (Z * string) := init demo_gen demo_gen.

Lemma demo_reachable : reachable (I:=Z) (C:=Z * string) fst demo.
Proof. exists demo_gen, demo_gen. apply rtc_refl. Defined.

Lemma demo_fresh : fresh_handle (I:=Z) fst demo 7.
Proof. intros m i t H. exfalso. apply (lookup_empty_Some m (i, t)). exact H. Defined.

Lemma cache_indices_agree_witness :
  (popByMsgId (I:=Z) (C:=Z * string) fst 5 demo).1 = Err (ProtocolError "Cache miss for msgId").
Proof.
  destruct (cache_indices_agree (I:=Z) (C:=Z * string) fst demo demo_reachable) as (_ & H & _).
  exact (H 5).
Defined.

Lemma pending_request_lifetime_witness :
  ((pushByMsgId (I:=Z) fst 5 (7, "x"%string);; ticks 3;; popByMsgId fst 5) demo).1
  = Ok (7, "x"%string).
Proof.
  exact (pending_request_lifetime (I:=Z) fst demo 5 (7, "x"%string) 3
           demo_reachable eq_refl demo_fresh).
Defined.

Lemma expired_handle_is_stale_witness :
  ∃ st', (pushByMsgId (I:=Z) fst 5 (7, "x"%string);; ticks 601;; popBySendPduHandle fst 7) demo
      = (Err (ProtocolError "Cache miss for msgId"), st') ∧
    sendPduHandleIdx st' !! 7 = Some 5.
Proof.
  apply (expired_handle_is_stale (I:=Z) fst demo 5 (7, "x"%string) 601
           demo_reachable eq_refl demo_fresh). lia.
Defined.
End MpCache.

(** * Rules for the operations the message processing models use

    A fresh identifier leaves the entries alone, an entry pushed is there, an entry popped
    is gone. *)
Import MpCache.
#[local] Open Scope Z_scope.

Module MpCacheWp.
Section rules.
Context {I C : Type} (sendPduHandle : C → Z).
Implicit Types c : Cache I C.

(** The entries of two states are the same. *)
Record same_entries c c' : Prop := {
  se_msg : msgIdIndex c' = msgIdIndex c;
  se_state : stateReferenceIndex c' = stateReferenceIndex c;
  se_handle : sendPduHandleIdx c' = sendPduHandleIdx c;
  se_timer : expirationTimer c' = expirationTimer c;
  se_wf : wf sendPduHandle c → wf sendPduHandle c';
}.

(** The one generator does not see the other. *)
Lemma newMsgID_frame c g :
  (newStateReference (mk_Cache (stateReferenceGen c) g (msgIdIndex c) (stateReferenceIndex c)
    (sendPduHandleIdx c) (expirationQueue c) (expirationTimer c))).1 = (newStateReference c).1.
Proof. unfold newStateReference, zoom. cbn. by destruct (NextId.call _). Qed.

Lemma wp_newMsgID_ok c id (Q : result exn Z → Cache I C → Prop) : (newMsgID c).1 = Ok id →
  (∀ c', same_entries c c' → (newStateReference c').1 = (newStateReference c).1 → Q (Ok id) c') →
  wp newMsgID Q c.
Proof.
  intros Hid HQ. apply wp_zoom. unfold newMsgID, zoom in Hid. unfold wp.
  destruct (NextId.call (msgIDGen c)) as [r g]. cbn in *. subst r.
  apply HQ; [|apply newMsgID_frame]. split; try done. apply gen_wf.
Qed.

Lemma wp_newStateReference_ok c ref (Q : result exn Z → Cache I C → Prop) :
  (newStateReference c).1 = Ok ref → (∀ c', same_entries c c' → Q (Ok ref) c') →
  wp newStateReference Q c.
Proof.
  intros Hid HQ. apply wp_zoom. unfold newStateReference, zoom in Hid. unfold wp.
  destruct (NextId.call (stateReferenceGen c)) as [r g]. cbn in *. subst r.
  apply HQ. split; try done. apply gen_wf.
Qed.

Lemma wp_pushByMsgId_ok c m i (Q : result exn unit → Cache I C → Prop) :
  wf sendPduHandle c → msgIdIndex c !! m = None → fresh_handle sendPduHandle c (sendPduHandle i) →
  (∀ c', wf sendPduHandle c' → msgIdIndex c' = <[m := (i, expirationTimer c + 600)]> (msgIdIndex c) →
     stateReferenceIndex c' = stateReferenceIndex c → Q (Ok tt) c') →
  wp (pushByMsgId sendPduHandle m i) Q c.
Proof.
  intros Hwf Hm Hf HQ. destruct (pushByMsgId_ok sendPduHandle c m i Hwf Hm Hf)
    as (c' & Hr & Hwf' & Hi & _ & Hs & _). eapply wp_intro; [exact Hr|]. by apply HQ.
Qed.

Lemma wp_pushByStateRef_ok c r i (Q : result exn unit → Cache I C → Prop) :
  wf sendPduHandle c → stateReferenceIndex c !! r = None →
  (∀ c', wf sendPduHandle c' → msgIdIndex c' = msgIdIndex c →
     stateReferenceIndex c' = <[r := (i, expirationTimer c + 600)]> (stateReferenceIndex c) →
     Q (Ok tt) c') →
  wp (pushByStateRef r i) Q c.
Proof.
  intros Hwf Hr HQ. destruct (pushByStateRef_ok sendPduHandle c r i Hwf Hr)
    as (c' & He & Hwf' & Hs & Hm & _). eapply wp_intro; [exact He|]. by apply HQ.
Qed.

Lemma wp_popByMsgId_ok c m i t (Q : result exn C → Cache I C → Prop) :
  wf sendPduHandle c → msgIdIndex c !! m = Some (i, t) →
  (∀ c', wf sendPduHandle c' → msgIdIndex c' = delete m (msgIdIndex c) →
     stateReferenceIndex c' = stateReferenceIndex c → Q (Ok i) c') →
  wp (popByMsgId sendPduHandle m) Q c.
Proof.
  intros Hwf Hm HQ. destruct (popByMsgId_ok sendPduHandle c m i t Hwf Hm)
    as (c' & Hr & Hwf' & Hi & _ & Hs & _). eapply wp_intro; [exact Hr|]. by apply HQ.
Qed.

Lemma wp_popByStateRef_ok c r i t (Q : result exn I → Cache I C → Prop) :
  wf sendPduHandle c → stateReferenceIndex c !! r = Some (i, t) →
  (∀ c', wf sendPduHandle c' → msgIdIndex c' = msgIdIndex c →
     stateReferenceIndex c' = delete r (stateReferenceIndex c) → Q (Ok i) c') →
  wp (popByStateRef r) Q c.
Proof.
  intros Hwf Hr HQ. destruct (popByStateRef_ok sendPduHandle c r i t Hwf Hr)
    as (c' & He & Hwf' & Hs & Hm & _). eapply wp_intro; [exact He|]. by apply HQ.
Qed.
End rules.
End MpCacheWp.
