(* ===== verification/Indices.v ===== *)
(** * Ordered dictionaries (src/pysnmp/smi/indices.py)

    [OrderedDict] tracks key order beside the mapping, sorts lazily and finds
    the successor of a key by bisection; [OidOrderedDict] sorts by OID
    component and caches the tuple each key sorts by.  The model covers keys
    that are tuples of sub-identifiers, as the MIB tree uses them; keys that
    are dotted strings are left out. *)
From S2P Require Export Errors.

Module Indices.

(** ** [bisect.bisect] (the standard library's bisect_right) *)
Section bisect.
Context (ltb : oid → oid → bool).

(** [while lo < hi: mid = (lo + hi) // 2 ...]; [fuel] bounds the halvings. *)
Fixpoint bisect_loop (fuel : nat) (a : list oid) (x : oid) (lo hi : nat) : nat :=
  match fuel with
  | O => lo
  | S fuel' =>
      if (lo <? hi)%nat then
        let mid := ((lo + hi) / 2)%nat in
        if ltb x (nth mid a []) then bisect_loop fuel' a x lo mid
        else bisect_loop fuel' a x (S mid) hi
      else lo
  end.
Definition bisect (a : list oid) (x : oid) : nat :=
  bisect_loop (length a) a x 0 (length a).
End bisect.

Section defs.
Context {V : Type}.

Record OidOrderedDict : Type := mk_Dict {
  base : dict oid V;                (* the dict the class derives from *)
  keys_ : list oid;                 (* __keys *)
  dirty : bool;                     (* __dirty *)
  keysLens : list Z;                (* __keysLens *)
  keysCache : gmap oid oid;         (* __keysCache *)
}.

(** [OidOrderedDict.__init__] with no arguments *)
Definition init : OidOrderedDict := mk_Dict [] [] true [] ∅.

(** [sortingKey]: the cached tuple, or the key itself *)
Definition sortingKey (st : OidOrderedDict) (key : oid) : oid :=
  default key (keysCache st !! key).

(** [OrderedDict.__setitem__] then [OidOrderedDict.__setitem__] *)
Definition base_setitem (k : oid) (v : V) (st : OidOrderedDict) : OidOrderedDict :=
  if din (base st) k
  then mk_Dict (dset (base st) k v) (keys_ st) (dirty st) (keysLens st) (keysCache st)
  else mk_Dict (dset (base st) k v) (keys_ st ++ [k]) true (keysLens st) (keysCache st).
Definition setitem (k : oid) (v : V) (st : OidOrderedDict) : OidOrderedDict :=
  let st := base_setitem k v st in
  match keysCache st !! k with
  | Some _ => st
  | None => mk_Dict (base st) (keys_ st) (dirty st) (keysLens st) (<[k := k]> (keysCache st))
  end.

(** [list.remove] *)
Fixpoint remove_first (k : oid) (l : list oid) : list oid :=
  match l with
  | [] => []
  | x :: l' => if decide (x = k) then l' else x :: remove_first k l'
  end.

(** [__delitem__]: the base class raises before the key cache is touched. *)
Definition delitem (k : oid) : M exn OidOrderedDict unit := fun st =>
  if din (base st) k
  then (Ok tt, mk_Dict (ddel (base st) k) (remove_first k (keys_ st)) true (keysLens st)
                 (delete k (keysCache st)))
  else (Err KeyError, st).

(** [clear]: not overridden, so the key cache keeps its entries *)
Definition clear (st : OidOrderedDict) : OidOrderedDict :=
  mk_Dict [] [] true (keysLens st) (keysCache st).

(** [sorted({len(k) for k in keys}, reverse=True)] *)
Definition lens_desc (ks : list oid) : list Z :=
  reverse (sorted_by Z.leb (λ n, n) (remove_dups ((λ k, Z.of_nat (length k)) <$> ks))).

(** [__order] *)
Definition order (st : OidOrderedDict) : OidOrderedDict :=
  let ks := sorted_by tuple_leb (sortingKey st) (keys_ st) in
  mk_Dict (base st) ks false (lens_desc ks) (keysCache st).

Definition ordered (st : OidOrderedDict) : OidOrderedDict :=
  if dirty st then order st else st.

(** [keys], [values], [items], [getKeysLens] *)
Definition keys : M exn OidOrderedDict (list oid) := fun st =>
  let st := ordered st in (Ok (keys_ st), st).
Definition items : M exn OidOrderedDict (list (oid * option V)) := fun st =>
  let st := ordered st in (Ok ((λ k, (k, dget (base st) k)) <$> keys_ st), st).
Definition values : M exn OidOrderedDict (list (option V)) := fun st =>
  let st := ordered st in (Ok (dget (base st) <$> keys_ st), st).
Definition getKeysLens : M exn OidOrderedDict (list Z) := fun st =>
  let st := ordered st in (Ok (keysLens st), st).

(** [nextKey]: [bisect(keys, sortingKey(key), key=sortingKey)] *)
Definition nextKey (key : oid) : M exn OidOrderedDict oid := fun st =>
  let st := ordered st in
  let ks := keys_ st in
  let nextIdx := bisect tuple_ltb (sortingKey st <$> ks) (sortingKey st key) in
  match ks !! nextIdx with
  | Some k => (Ok k, st)
  | None => (Err KeyError, st)
  end.

(** A walk: GETNEXT from [key] until the last key is passed. *)
Fixpoint walk (fuel : nat) (key : oid) (st : OidOrderedDict) : list oid :=
  match fuel with
  | O => []
  | S fuel' =>
      match nextKey key st with
      | (Ok k, st') => k :: walk fuel' k st'
      | (Err _, _) => []
      end
  end.

(** What a client does. *)
Inductive op : Type :=
  | SetItem (k : oid) (v : V) | DelItem (k : oid) | Clear | Order.
Definition do_op (st : OidOrderedDict) (o : op) : OidOrderedDict :=
  match o with
  | SetItem k v => setitem k v st
  | DelItem k => (delitem k st).2
  | Clear => clear st
  | Order => ordered st
  end.
Definition run (ops : list op) : OidOrderedDict := foldl do_op init ops.

(** ** The invariant *)
Record wf (st : OidOrderedDict) : Prop := {
  wf_base : dict_ok (base st);
  wf_keys : keys_ st ≡ₚ dkeys (base st);
  wf_cache : ∀ k o, keysCache st !! k = Some o → o = k;
  wf_sorted : dirty st = false →
    StronglySorted (λ a b, tuple_leb a b = true) (keys_ st) ∧
    keysLens st = lens_desc (keys_ st);
}.

(** ** Helper lemmas *)
Lemma sortingKey_id st k : wf st → sortingKey st k = k.
Proof.
  intros Hwf. unfold sortingKey. destruct (keysCache st !! k) eqn:E; [|done].
  by apply (wf_cache _ Hwf) in E.
Qed.

Lemma remove_first_perm k l : k ∈ l → l ≡ₚ k :: remove_first k l.
Proof.
  induction l as [|x l IH]; [set_solver|]. cbn. case_decide; subst; [done|].
  intros Hin. rewrite (IH ltac:(set_solver)) at 1. constructor.
Qed.

Lemma dkeys_ddel_perm (d : dict oid V) k : k ∈ dkeys d → dkeys d ≡ₚ k :: dkeys (ddel d k).
Proof.
  unfold dkeys. induction d as [|[k' v'] d IH]; cbn; [set_solver|].
  case_decide; subst; [done|]. intros Hin. cbn.
  rewrite (IH ltac:(set_solver)) at 1. constructor.
Qed.

Lemma oid_init_wf : wf init.
Proof. split; cbn; try done. constructor. Qed.

Lemma setitem_base k v st : base (setitem k v st) = dset (base st) k v.
Proof.
  unfold setitem, base_setitem. destruct (din (base st) k); cbn [keysCache base]; by destruct (keysCache st !! k).
Qed.
Lemma delitem_base k st : base (delitem k st).2 = ddel (base st) k.
Proof.
  unfold delitem. destruct (din (base st) k) eqn:E; [done|]. cbn. by rewrite ddel_absent by by apply din_false.
Qed.

Lemma setitem_wf k v st : wf st → wf (setitem k v st).
Proof.
  intros [H1 H2 H3 H4].
  assert (Hb : wf (base_setitem k v st)).
  { unfold base_setitem. destruct (din (base st) k) eqn:E;
      split; cbn [base keys_ dirty keysLens keysCache]; try done; try by auto with snmp.
    - rewrite dkeys_dset, decide_True; [done|]. by apply din_true.
    - rewrite dkeys_dset, decide_False; [by rewrite H2|]. by apply dget_None, din_false. }
  unfold setitem. set (st' := base_setitem k v st) in *.
  destruct (keysCache st' !! k); [done|]. destruct Hb.
  split; cbn [base keys_ dirty keysLens keysCache]; try done.
  intros k' o. rewrite lookup_insert. case_decide; naive_solver.
Qed.

Lemma delitem_wf k st : wf st → wf (delitem k st).2.
Proof.
  intros [H1 H2 H3 H4]. unfold delitem. destruct (din (base st) k) eqn:E; [|done].
  assert (k ∈ dkeys (base st)) as Hk by (by apply din_true).
  split; cbn [base keys_ dirty keysLens keysCache snd]; try done; try by auto with snmp.
  - apply (Permutation_cons_inv (a := k)).
    rewrite <- remove_first_perm by (by rewrite H2). rewrite H2. by apply dkeys_ddel_perm.
  - intros k' o. rewrite lookup_delete. case_decide; naive_solver.
Qed.

Lemma order_wf st : wf st → wf (order st).
Proof.
  intros Hwf. destruct (Hwf) as [H1 H2 H3 H4].
  split; unfold order; cbn [base keys_ dirty keysLens keysCache]; try done.
  - by rewrite sorted_by_perm.
  - intros _. split; [|done].
    pose proof (sorted_by_sorted tuple_leb (sortingKey st) (keys_ st)) as Hs.
    revert Hs.
    generalize (sorted_by tuple_leb (sortingKey st) (keys_ st)). intros l.
    induction 1 as [|x l _ IH Hall]; constructor; [done|].
    eapply Forall_impl; [exact Hall|]. cbn. intros y. by rewrite !sortingKey_id.
Qed.

Lemma ordered_wf st : wf st → wf (ordered st) ∧ dirty (ordered st) = false ∧
  base (ordered st) = base st.
Proof.
  intros Hwf. unfold ordered. destruct (dirty st) eqn:E; [|done].
  split_and!; [by apply order_wf|done|done].
Qed.

Lemma oid_do_op_wf st o : wf st → wf (do_op st o).
Proof.
  intros Hwf. destruct o as [k v|k| |]; cbn.
  - by apply setitem_wf.
  - by apply delitem_wf.
  - split; cbn; try done; [constructor|apply Hwf].
  - by apply ordered_wf.
Qed.

Lemma oid_run_wf ops : wf (run ops).
Proof.
  unfold run. cut (∀ st, wf st → wf (foldl do_op st ops)); [intros H; apply H, oid_init_wf|].
  induction ops as [|o ops IH]; intros st Hwf; cbn; [done|]. by apply IH, oid_do_op_wf.
Qed.
End defs.

(** Bisection on a sorted list finds the boundary between the elements at most
    [x] and the elements above it. *)
Lemma bisect_loop_spec a x fuel lo hi :
  StronglySorted (λ a b, tuple_leb a b = true) a →
  (lo ≤ hi ≤ length a)%nat → (hi - lo ≤ fuel)%nat →
  (∀ i y, (i < lo)%nat → a !! i = Some y → tuple_leb y x = true) →
  (∀ i y, (hi ≤ i)%nat → a !! i = Some y → tuple_ltb x y = true) →
  let n := bisect_loop tuple_ltb fuel a x lo hi in
  (∀ i y, (i < n)%nat → a !! i = Some y → tuple_leb y x = true) ∧
  (∀ i y, (n ≤ i)%nat → a !! i = Some y → tuple_ltb x y = true).
Proof.
  intros Hs. revert lo hi; induction fuel as [|fuel IH]; intros lo hi Hr Hf Hlo Hhi;
    cbn [bisect_loop]; cbv zeta.
  { assert (lo = hi) as -> by lia. done. }
  destruct (Nat.ltb_spec lo hi) as [Hlt|Hge]; [|assert (lo = hi) as -> by lia; done].
  set (mid := ((lo + hi) / 2)%nat).
  assert (lo ≤ mid < hi)%nat as Hmid.
  { unfold mid. split; [apply Nat.div_le_lower_bound; lia|apply Nat.Div0.div_lt_upper_bound; lia]. }
  destruct (lookup_lt_is_Some_2 a mid ltac:(lia)) as [z Hz].
  rewrite (nth_lookup_Some _ _ [] _ Hz).
  pose proof (λ i j y w, StronglySorted_lookup _ a i j y w Hs) as Hord.
  destruct (tuple_ltb x z) eqn:Hxz.
  - apply IH; try lia; [done|]. intros i y Hi Hy.
    destruct (decide (i = mid)) as [->|]; [congruence|].
    eapply tuple_ltb_leb_trans; [exact Hxz|]. eapply (Hord mid i); [lia|done|done].
  - apply IH; try lia; [|done]. intros i y Hi Hy. apply tuple_ltb_ge in Hxz.
    destruct (decide (i = mid)) as [->|]; [congruence|].
    eapply leb_trans; [|exact Hxz]. eapply (Hord i mid); [lia|done|done].
Qed.

Section successor.
Context {V : Type}.
Implicit Types st : @OidOrderedDict V.

Lemma bisect_spec (a : list oid) x :
  StronglySorted (λ a b, tuple_leb a b = true) a →
  (∀ i y, (i < bisect tuple_ltb a x)%nat → a !! i = Some y → tuple_leb y x = true) ∧
  (∀ i y, (bisect tuple_ltb a x ≤ i)%nat → a !! i = Some y → tuple_ltb x y = true).
Proof.
  intros Hs. apply bisect_loop_spec; try done; try lia.
  intros i y Hi Hy. apply lookup_lt_Some in Hy. lia.
Qed.

Lemma map_sortingKey st (l : list oid) : wf st → sortingKey st <$> l = l.
Proof. intros Hwf. induction l as [|k l IH]; [done|]. cbn. by rewrite IH, sortingKey_id. Qed.

(** [k] is the first key after [q]. *)
Definition successor (d : dict oid V) (q k : oid) : Prop :=
  k ∈ dkeys d ∧ tuple_ltb q k = true ∧
  ∀ k', k' ∈ dkeys d → tuple_ltb q k' = true → tuple_leb k k' = true.

Lemma nextKey_spec st q : wf st →
  (nextKey q st).2 = ordered st ∧
  match (nextKey q st).1 with
  | Ok k => successor (base st) q k
  | Err e => e = KeyError ∧ ∀ k, k ∈ dkeys (base st) → tuple_leb k q = true
  end.
Proof.
  intros Hwf. destruct (ordered_wf st Hwf) as (Hwf' & Hd & Hb).
  unfold nextKey. rewrite map_sortingKey, sortingKey_id by done.
  destruct (wf_sorted _ Hwf' Hd) as [Hs _]. rewrite <- Hb.
  destruct (bisect_spec _ q Hs) as [Hlo Hhi].
  set (n := bisect tuple_ltb (keys_ (ordered st)) q) in *.
  assert (Hin : ∀ k, k ∈ dkeys (base (ordered st)) → k ∈ keys_ (ordered st)).
  { intros k. by rewrite (wf_keys _ Hwf'). }
  destruct (keys_ (ordered st) !! n) as [k|] eqn:E; cbn [fst snd]; (split; [done|]).
  - split_and!; [rewrite <- (wf_keys _ Hwf'); by eapply list_elem_of_lookup_2|by eapply (Hhi n)|].
    intros k' Hk' Hlt. apply Hin, list_elem_of_lookup_1 in Hk' as [i Hi].
    destruct (Nat.lt_trichotomy n i) as [Hni|[<-|Hni]].
    + exact (StronglySorted_lookup _ _ n i k k' Hs Hni E Hi).
    + rewrite E in Hi. injection Hi as <-. apply leb_refl.
    + rewrite tuple_ltb_leb, (Hlo i k') in Hlt by done. done.
  - split; [done|]. intros k Hk. apply Hin, list_elem_of_lookup_1 in Hk as [i Hi].
    apply (Hlo i k); [|done]. apply lookup_ge_None in E. apply lookup_lt_Some in Hi. lia.
Qed.

Lemma ordered_idem st : ordered (ordered st) = ordered st.
Proof. unfold ordered. destruct (dirty st) eqn:E; cbn; [done|by rewrite E]. Qed.

(** The keys above [q], as a decidable list. *)
Definition above (q : oid) (l : list oid) : list oid := filter (λ k, tuple_ltb q k = true) l.

Lemma above_sorted q l :
  StronglySorted (λ a b, tuple_leb a b = true) l →
  StronglySorted (λ a b, tuple_leb a b = true) (above q l).
Proof.
  induction 1 as [|x l _ IH Hall]; [constructor|].
  unfold above in *. rewrite filter_cons. case_decide; [|done]. constructor; [done|].
  rewrite Forall_forall in *. intros y [_ Hy]%list_elem_of_filter. auto.
Qed.

(** Stepping to the successor drops exactly one key from those above. *)
Lemma above_step st q k : wf st → dirty st = false → successor (base st) q k →
  above q (keys_ st) = k :: above k (keys_ st).
Proof.
  intros Hwf Hd (Hk & Hlt & Hleast). rewrite <- (wf_keys _ Hwf) in Hk.
  assert (Hl : ∀ k', k' ∈ keys_ st → tuple_ltb q k' = true → tuple_leb k k' = true).
  { intros k' Hk'. apply Hleast. by rewrite <- (wf_keys _ Hwf). }
  assert (Hnd : NoDup (keys_ st)) by (rewrite (wf_keys _ Hwf); apply (wf_base _ Hwf)).
  destruct (wf_sorted _ Hwf Hd) as [Hs _]. clear Hleast Hwf Hd.
  revert Hk Hl Hnd. induction Hs as [|x l _ IH Hall]; intros Hk Hl Hnd; [set_solver|].
  apply NoDup_cons in Hnd as [Hx Hnd]. rewrite Forall_forall in Hall.
  unfold above in *. rewrite !filter_cons.
  apply elem_of_cons in Hk as [->|Hk].
  - rewrite decide_True, decide_False by (rewrite ?tuple_ltb_irrefl; done). f_equal.
    apply filter_ext_in. intros y Hy.
    split; intros H; [|by eapply tuple_ltb_leb_trans; [exact Hlt|apply tuple_ltb_weaken]].
    rewrite tuple_ltb_leb, negb_true_iff. destruct (tuple_leb y x) eqn:E; [|done].
    destruct Hx. by rewrite (tuple_leb_antisym x y (Hall y Hy) E).
  - assert (Hxk : x ≠ k) by congruence.
    assert (Hqx : tuple_ltb q x ≠ true).
    { intros H. apply Hxk. apply tuple_leb_antisym; [by apply Hall|]. apply Hl; set_solver. }
    assert (Hkx : tuple_ltb k x ≠ true).
    { intros H. apply Hqx. by eapply tuple_ltb_leb_trans; [exact Hlt|apply tuple_ltb_weaken]. }
    rewrite !decide_False by done. apply IH; set_solver.
Qed.

Lemma walk_spec fuel q st : wf st → dirty st = false →
  (length (keys_ st) ≤ fuel)%nat → walk fuel q st = above q (keys_ st).
Proof.
  intros Hwf Hd Hf.
  assert (Hf' : (length (above q (keys_ st)) ≤ fuel)%nat).
  { etrans; [apply length_filter|done]. }
  clear Hf. revert q Hf'. induction fuel as [|fuel IH]; intros q Hf'; cbn.
  { by destruct (above q (keys_ st)); [|cbn in Hf'; lia]. }
  assert (Ho : ordered st = st) by (unfold ordered; by rewrite Hd).
  destruct (nextKey_spec st q Hwf) as [Hst Hr].
  destruct (nextKey q st) as [[k|e] st']; cbn [fst snd] in *; rewrite Ho in Hst; subst st'.
  - rewrite (above_step st q k) in * by done. f_equal. apply IH. cbn in Hf'. lia.
  - destruct Hr as [_ Hr]. symmetry. apply filter_none.
    intros k Hk. rewrite (wf_keys _ Hwf) in Hk. rewrite tuple_ltb_leb, (Hr k Hk). done.
Qed.

Lemma walk_ordered fuel q st : walk fuel q st = walk fuel q (ordered st).
Proof. destruct fuel; cbn; [done|]. unfold nextKey. by rewrite ordered_idem. Qed.

Lemma above_strict q st : wf st → dirty st = false →
  StronglySorted (λ a b, tuple_ltb a b = true) (above q (keys_ st)).
Proof.
  intros Hwf Hd. destruct (wf_sorted _ Hwf Hd) as [Hs _].
  assert (Hnd : NoDup (above q (keys_ st))).
  { apply NoDup_filter. rewrite (wf_keys _ Hwf). apply (wf_base _ Hwf). }
  apply (above_sorted q) in Hs. revert Hnd.
  induction Hs as [|x l _ IH Hall]; intros Hnd; constructor.
  - apply IH. by apply NoDup_cons in Hnd as [_ ?].
  - apply NoDup_cons in Hnd as [Hx _]. rewrite Forall_forall in *. intros y Hy.
    rewrite tuple_ltb_leb, negb_true_iff. destruct (tuple_leb y x) eqn:E; [|done].
    destruct Hx. by rewrite (tuple_leb_antisym x y (Hall y Hy) E).
Qed.

(** ** Properties *)

(** [nextKey] answers GETNEXT: after any sequence of insertions, deletions, clears
    and sorts, the bisection over the lazily sorted key list returns exactly the
    least key above the query (whether or not the query is a key), and raises
    [KeyError] only when no key is above it. *)
Theorem nextKey_is_successor (ops : list (@op V)) q :
  match (nextKey q (run ops)).1 with
  | Ok k => successor (base (run ops)) q k
  | Err e => e = KeyError ∧ ∀ k, k ∈ dkeys (base (run ops)) → tuple_leb k q = true
  end.
Proof. apply nextKey_spec, oid_run_wf. Qed.

(** A walk terminates and is complete: repeating [nextKey] from any starting OID
    visits, in strictly increasing OID order, every key above the start and
    nothing else, and one step per key is enough. *)
Theorem walk_enumerates (ops : list (@op V)) q fuel :
  (length (base (run ops)) ≤ fuel)%nat →
  StronglySorted (λ a b, tuple_ltb a b = true) (walk fuel q (run ops)) ∧
  ∀ k, k ∈ walk fuel q (run ops) ↔ k ∈ dkeys (base (run ops)) ∧ tuple_ltb q k = true.
Proof.
  intros Hf. pose proof (oid_run_wf ops) as Hwf.
  destruct (ordered_wf _ Hwf) as (Hwf' & Hd & Hb).
  assert (Hp : keys_ (ordered (run ops)) ≡ₚ dkeys (base (run ops))).
  { rewrite <- Hb. apply Hwf'. }
  assert (Hl : length (keys_ (ordered (run ops))) = length (base (run ops))).
  { rewrite Hp. unfold dkeys. apply length_fmap. }
  rewrite walk_ordered, walk_spec by (done || lia).
  split; [by apply above_strict|]. intros k. unfold above.
  rewrite list_elem_of_filter, Hp. tauto.
Qed.
End successor.

(** The columns of a table under 1.3.6.1: OID order, not text order. *)
Definition demo_ops : list (@op Z) :=
  [SetItem [1;3;6;1;10] 10; SetItem [1;3;6;1;9] 9; Order; SetItem [1;3;6;1;9;1] 91;
   SetItem [1;3;6] 6; DelItem [1;3;6]].

Lemma walk_enumerates_witness :
  walk 3 [1;3;6;1] (run demo_ops) = [[1;3;6;1;9]; [1;3;6;1;9;1]; [1;3;6;1;10]] ∧
  ∀ k, k ∈ walk 3 [1;3;6;1] (run demo_ops) ↔
       k ∈ dkeys (base (run demo_ops)) ∧ tuple_ltb [1;3;6;1] k = true.
Proof.
  split; [vm_compute; reflexivity|].
  apply (walk_enumerates demo_ops [1;3;6;1] 3). vm_compute. lia.
Defined.
End Indices.
