(* ===== verification/LocalKey.v ===== *)
(** * Passphrases and localized keys (src/pysnmp/proto/secmod/rfc3414/localkey.py)

    [hashlib] is an argument: a hash is a function from octets to octets with
    the digest size and the block size it documents, and the octets fed to
    [update] are what [digest] is applied to. *)
From S2P Require Export Errors.

Module LocalKey.

(** ** hashlib *)
Record hash_algo : Type := mk_hash {
  digest : octets → octets;
  digest_size : nat;
  block_size : nat;
}.

(** What hashlib documents of an algorithm. *)
Class HashLaws (h : hash_algo) : Prop := {
  digest_length : ∀ m, length (digest h m) = digest_size h;
  digest_octets : ∀ m, is_octets (digest h m);
  digest_size_16 : (16 <= digest_size h)%nat;
  digest_size_block : (digest_size h <= block_size h)%nat;
}.

(** The algorithms the security models use. *)
Record hashlib : Type := mk_hashlib {
  md5 : hash_algo; sha1 : hash_algo; sha224 : hash_algo;
  sha256 : hash_algo; sha384 : hash_algo; sha512 : hash_algo;
}.

Class HashlibLaws (H : hashlib) : Prop := {
  md5_laws :: HashLaws (md5 H); sha1_laws :: HashLaws (sha1 H);
  sha224_laws :: HashLaws (sha224 H); sha256_laws :: HashLaws (sha256 H);
  sha384_laws :: HashLaws (sha384 H); sha512_laws :: HashLaws (sha512 H);
  hashlib_digest_sizes :
    digest_size <$> [md5 H; sha1 H; sha224 H; sha256 H; sha384 H; sha512 H]
    = [16; 20; 28; 32; 48; 64]%nat;
  hashlib_block_sizes :
    block_size <$> [md5 H; sha1 H; sha224 H; sha256 H; sha384 H; sha512 H]
    = [64; 64; 64; 64; 128; 128]%nat;
}.

(** ** The password to key hash *)

(** [l[a:b]] *)
Definition slice (l : octets) (a b : nat) : octets := take (b - a) (drop a l).

(** [passphrase * (64 // len(passphrase) + 1)] *)
Definition ringBuffer (p : octets) : octets := concat (replicate (64 / length p + 1) p).

(** The [while count < 16384] loop; [hasher] is what was fed to it. *)
Fixpoint ring_loop (count : nat) (ring : octets) (mark : nat) (hasher : octets) : octets :=
  match count with
  | O => hasher
  | S count' =>
      let e := (mark + 64)%nat in
      let ringBufferLen := length ring in
      if (e <? ringBufferLen)%nat
      then ring_loop count' ring e (hasher ++ slice ring mark e)
      else ring_loop count' ring (e - ringBufferLen)
             (hasher ++ slice ring mark ringBufferLen ++ slice ring 0 (e - ringBufferLen))
  end.

Definition rounds : nat := Z.to_nat 16384.

(** [hashPassphrase]: the division by the length comes first. *)
Definition hashPassphrase (passphrase : octets) (h : hash_algo) : result exn octets :=
  if (length passphrase =? 0)%nat then Err ZeroDivisionError
  else Ok (digest h (ring_loop rounds (ringBuffer passphrase) 0 [])).

Definition localizeKey (passKey snmpEngineId : octets) (h : hash_algo) : octets :=
  digest h (passKey ++ snmpEngineId ++ passKey).

Definition passwordToKey (passphrase snmpEngineId : octets) (h : hash_algo) :
    result exn octets :=
  k ← hashPassphrase passphrase h; mret (localizeKey k snmpEngineId h).

Section algorithms.
Context (H : hashlib).

Definition hashPassphraseMD5 (p : octets) : result exn octets := hashPassphrase p (md5 H).
Definition hashPassphraseSHA (p : octets) : result exn octets := hashPassphrase p (sha1 H).
Definition passwordToKeyMD5 (p e : octets) : result exn octets :=
  k ← hashPassphraseMD5 p; mret (localizeKey k e (md5 H)).
Definition passwordToKeySHA (p e : octets) : result exn octets :=
  k ← hashPassphraseSHA p; mret (localizeKey k e (sha1 H)).
Definition localizeKeyMD5 (k e : octets) : octets := localizeKey k e (md5 H).
Definition localizeKeySHA (k e : octets) : octets := localizeKey k e (sha1 H).
End algorithms.

(** ** RFC 3414, A.2: the passphrase repeated to one megabyte *)
Definition cycled (p : octets) (n : nat) : octets :=
  (λ i, nth (i mod length p) p 0) <$> seq 0 n.

Definition megabyte : nat := Z.to_nat 1048576.

(** ** Helper lemmas *)
Lemma lookup_cycled p n i : (i < n)%nat →
  cycled p n !! i = Some (nth (i mod length p) p 0).
Proof. intros Hi. unfold cycled. by rewrite list_lookup_fmap, lookup_seq_lt. Qed.

Lemma length_cycled p n : length (cycled p n) = n.
Proof. unfold cycled. by rewrite length_fmap, length_seq. Qed.

Lemma fmap_seq_shift {A} (f : nat → A) a n :
  f <$> seq a n = (λ i, f (a + i)%nat) <$> seq 0 n.
Proof.
  rewrite <- (Nat.add_0_r a) at 1. by rewrite <- fmap_add_seq, <- list_fmap_compose.
Qed.

(** A cyclic run of [p] that starts at position [a]. *)
Definition run_at (p : octets) (a : nat) (l : octets) : Prop :=
  l = (λ i, nth ((a + i) mod length p) p 0) <$> seq 0 (length l).

Lemma run_at_app p a l l' :
  run_at p a l → run_at p (a + length l) l' → run_at p a (l ++ l').
Proof.
  unfold run_at. intros Hl Hl'. rewrite length_app, seq_app, fmap_app. cbn. f_equal; [done|].
  rewrite Hl' at 1. rewrite (fmap_seq_shift _ (length l)).
  apply list_fmap_ext. intros i x _. cbn beta. by rewrite Nat.add_assoc.
Qed.

Lemma run_at_mod p a b l : (0 < length p)%nat →
  (a mod length p = b mod length p)%nat → run_at p a l → run_at p b l.
Proof.
  unfold run_at. intros Hp Hab ->. rewrite length_fmap, length_seq.
  apply list_fmap_ext. intros i x _. cbn beta.
  by rewrite <- (Nat.Div0.add_mod_idemp_l a), Hab, Nat.Div0.add_mod_idemp_l.
Qed.

Lemma run_at_slice p a b c l :
  run_at p a l → run_at p (a + b) (slice l b c).
Proof.
  unfold run_at, slice. intros Hl. rewrite Hl at 1.
  rewrite <- fmap_drop, <- fmap_take, drop_seq, take_seq, length_take, length_drop.
  rewrite Nat.add_0_l, Nat.min_comm, fmap_seq_shift.
  apply list_fmap_ext. intros i x _. cbn beta. by rewrite Nat.add_assoc.
Qed.

Lemma run_at_self p : run_at p 0 p.
Proof.
  unfold run_at. apply list_eq. intros i. rewrite list_lookup_fmap.
  destruct (decide (i < length p)%nat) as [Hi|Hi].
  - rewrite lookup_seq_lt by done. cbn. rewrite Nat.mod_small by done.
    destruct (lookup_lt_is_Some_2 p i Hi) as [x Hx]. rewrite Hx. symmetry. f_equal.
    by apply nth_lookup_Some.
  - rewrite (lookup_ge_None_2 p), lookup_seq_ge by lia. done.
Qed.

Lemma run_at_ring p n : (0 < length p)%nat →
  run_at p 0 (concat (replicate n p)) ∧ length (concat (replicate n p)) = (n * length p)%nat.
Proof.
  intros Hp. induction n as [|n [IH1 IH2]]; [done|]. cbn [replicate concat].
  split; [|rewrite length_app, IH2; lia].
  apply run_at_app; [apply run_at_self|]. eapply run_at_mod; [done| |exact IH1].
  cbn. by rewrite Nat.Div0.mod_same, Nat.Div0.mod_0_l.
Qed.

Lemma length_slice l a b : length (slice l a b) = ((b - a) `min` (length l - a))%nat.
Proof. unfold slice. by rewrite length_take, length_drop. Qed.

(** The loop feeds 64 octets a round, and the rounds join into one cyclic run. *)
Lemma ring_loop_spec p ring n mark hasher :
  (0 < length p)%nat → run_at p 0 ring → (64 < length ring)%nat →
  (length ring mod length p = 0)%nat → (mark < length ring)%nat →
  run_at p 0 hasher → (mark mod length p = length hasher mod length p)%nat →
  run_at p 0 (ring_loop n ring mark hasher) ∧
  length (ring_loop n ring mark hasher) = (length hasher + 64 * n)%nat.
Proof.
  intros Hp Hring Hlen Hmod. revert mark hasher.
  induction n as [|n IH]; intros mark hasher Hmark Hrun Heq; [cbn; auto with lia|].
  cbn [ring_loop]; cbv zeta. set (L := length ring) in *.
  assert (Hs : run_at p (length hasher) (slice ring mark (mark + 64))).
  { eapply run_at_mod; [done|exact Heq|]. by apply (run_at_slice p 0). }
  destruct (Nat.ltb_spec (mark + 64) L) as [He|He].
  - destruct (IH (mark + 64)%nat (hasher ++ slice ring mark (mark + 64))) as [H1 H2].
    + done.
    + by apply run_at_app.
    + rewrite length_app, length_slice. fold L.
      replace ((mark + 64 - mark) `min` (L - mark))%nat with 64%nat by lia.
      by rewrite <- Nat.Div0.add_mod_idemp_l, Heq, Nat.Div0.add_mod_idemp_l.
    + split; [done|]. rewrite H2, length_app, length_slice. fold L. lia.
  - assert (Hs1 : run_at p (length hasher) (slice ring mark L)).
    { eapply run_at_mod; [done|exact Heq|]. by apply (run_at_slice p 0). }
    assert (Hl1 : length (slice ring mark L) = (L - mark)%nat) by (rewrite length_slice; lia).
    assert (Hl2 : length (slice ring 0 (mark + 64 - L)) = (mark + 64 - L)%nat)
      by (rewrite length_slice; lia).
    assert (Hz : ((length hasher + (L - mark)) mod length p = 0)%nat).
    { rewrite <- Nat.Div0.add_mod_idemp_l, <- Heq, Nat.Div0.add_mod_idemp_l.
      replace (mark + (L - mark))%nat with L by lia. done. }
    destruct (IH (mark + 64 - L)%nat
      (hasher ++ slice ring mark L ++ slice ring 0 (mark + 64 - L))) as [H1 H2].
    + lia.
    + apply run_at_app; [done|]. apply run_at_app; [done|].
      eapply (run_at_mod p 0); [done| |by apply (run_at_slice p 0 0)].
      by rewrite Nat.add_0_l, Hl1, Hz, Nat.Div0.mod_0_l.
    + rewrite !length_app, Hl1, Hl2, Nat.add_assoc.
      by rewrite <- Nat.Div0.add_mod_idemp_l, Hz.
    + split; [done|]. rewrite H2, !length_app, Hl1, Hl2. lia.
Qed.

Lemma ring_loop_cycled p : (0 < length p)%nat →
  ring_loop rounds (ringBuffer p) 0 [] = cycled p megabyte.
Proof.
  intros Hp. unfold ringBuffer.
  destruct (run_at_ring p (64 / length p + 1) Hp) as [Hr Hl].
  assert (64 < length (concat (replicate (64 / length p + 1) p)))%nat as Hgt.
  { rewrite Hl, Nat.mul_comm, Nat.add_1_r. apply Nat.mul_succ_div_gt. lia. }
  destruct (ring_loop_spec p (concat (replicate (64 / length p + 1) p)) rounds 0 [])
    as [H1 H2]; try (done || lia).
  - rewrite Hl. apply Nat.Div0.mod_mul.
  - unfold run_at in H1. rewrite H1. unfold cycled. do 2 f_equal. rewrite H2.
    unfold rounds, megabyte. cbn [length]. lia.
Qed.

Lemma hashPassphrase_eq p h :
  hashPassphrase p h =
  if (length p =? 0)%nat then Err ZeroDivisionError else Ok (digest h (cycled p megabyte)).
Proof.
  unfold hashPassphrase. destruct (Nat.eqb_spec (length p) 0); [done|].
  by rewrite ring_loop_cycled by lia.
Qed.

Lemma hashPassphrase_Ok p h : (0 < length p)%nat →
  hashPassphrase p h = Ok (digest h (cycled p megabyte)).
Proof. intros. rewrite hashPassphrase_eq. by destruct (Nat.eqb_spec (length p) 0); [lia|]. Qed.

(** A concrete hash for the witnesses: a polynomial over the message. *)
Definition toy_hash (n b : nat) : hash_algo :=
  mk_hash (λ m, be_octets n (foldl (λ a x, a * 257 + x + 1) 7 m)) n b.

#[export] Instance toy_hash_laws n b : TCEq (16 <=? n)%nat true → TCEq (n <=? b)%nat true →
  HashLaws (toy_hash n b).
Proof.
  rewrite !TCEq_eq. intros Hn%Nat.leb_le Hb%Nat.leb_le.
  split; intros; cbn; [apply length_be_octets|apply be_octets_is_octets|lia|lia].
Qed.

Definition toy_hashlib : hashlib :=
  mk_hashlib (toy_hash 16 64) (toy_hash 20 64) (toy_hash 28 64) (toy_hash 32 64)
    (toy_hash 48 128) (toy_hash 64 128).

#[export] Instance toy_hashlib_laws : HashlibLaws toy_hashlib.
Proof. split; try (apply toy_hash_laws; by constructor); reflexivity. Qed.

(** ** Properties *)

(** C22. The password to key algorithm of RFC 3414, A.2: for a passphrase of any
    positive length, what the ring buffer loop feeds the hash is exactly one
    megabyte in which octet [i] is the passphrase's octet [i mod len], and the
    localized key is the hash of that digest, the engine ID and the digest again.
    The empty passphrase has no key: it raises [ZeroDivisionError]. *)
Theorem passwordToKey_is_rfc3414 p e h :
  let ku := digest h (cycled p megabyte) in
  passwordToKey p e h =
    (if decide (p = []) then Err ZeroDivisionError else Ok (digest h (ku ++ e ++ ku))) ∧
  Z.of_nat (length (cycled p megabyte)) = 1048576 ∧
  (p ≠ [] → ∀ i, (i < megabyte)%nat → cycled p megabyte !! i = p !! (i mod length p)%nat).
Proof.
  intros ku. split_and!.
  - case_decide as Hp; [by subst|]. unfold passwordToKey. rewrite hashPassphrase_Ok; [done|].
    destruct p; [done|cbn; lia].
  - rewrite length_cycled. unfold megabyte. lia.
  - intros Hp i Hi. rewrite lookup_cycled by done.
    pose proof (Nat.mod_upper_bound i (length p) ltac:(by destruct p)).
    destruct (lookup_lt_is_Some_2 p (i mod length p)) as [x Hx]; [done|].
    rewrite Hx. f_equal. by apply nth_lookup_Some.
Qed.

Lemma passwordToKey_is_rfc3414_witness :
  let h := toy_hash 16 64 in
  let ku := digest h (cycled [109; 97; 112; 108; 101] megabyte) in
  passwordToKey [109; 97; 112; 108; 101] [128; 0] h = Ok (digest h (ku ++ [128; 0] ++ ku)) ∧
  cycled [109; 97; 112; 108; 101] megabyte !! 7%nat = Some 112.
Proof.
  destruct (passwordToKey_is_rfc3414 [109; 97; 112; 108; 101] [128; 0] (toy_hash 16 64)) as (H & _ & Hi).
  split; [exact H|]. apply (Hi ltac:(discriminate) 7%nat). apply Nat.ltb_lt. vm_compute. reflexivity.
Defined.

End LocalKey.
