(* ===== verification/Auth.v ===== *)
(** * Authentication services (src/pysnmp/proto/secmod/rfc3414/auth,
      src/pysnmp/proto/secmod/rfc7860/auth)

    One module per service class.  A service finds the run of zeros the
    serialiser left for the digest, writes the truncated MAC over it, and on
    the way in puts the zeros back before it recomputes. *)
From S2P Require Export LocalKey.
Export LocalKey.

(** What the user security model calls (auth/base.py). *)
Record auth_service : Type := mk_auth {
  a_hashPassphrase : octets → result exn (option octets);
  a_localizeKey : octets → octets → result exn (option octets);
  a_digestLength : result exn nat;
  a_authenticateOutgoingMsg : octets → octets → result exn octets;
  a_authenticateIncomingMsg : octets → octets → octets → result exn octets;
}.

Definition zeros (n : nat) : octets := replicate n 0.

(** [[0x36] * 64], [[0x5C] * 64] *)
Definition ipad : octets := replicate 64 54.
Definition opad : octets := replicate 64 92.

(** ** auth/base.py: every operation of the abstract service raises *)
Definition AbstractAuthenticationService : auth_service :=
  let e := ProtocolError "noAuthentication" in
  mk_auth (λ _, Err e) (λ _ _, Err e) (Err e) (λ _ _, Err e) (λ _ _ _, Err e).

(** ** auth/noauth.py *)
Module NoAuth.
Definition serviceID : oid := [1;3;6;1;6;3;10;1;1;1].
Definition hashPassphrase (authKey : octets) : result exn (option octets) := Ok None.
Definition localizeKey (authKey snmpEngineID : octets) : result exn (option octets) := Ok None.
Definition authenticateOutgoingMsg (authKey wholeMsg : octets) : result exn octets :=
  Err (StatusInfo noAuthentication).
Definition authenticateIncomingMsg (authKey authParameters wholeMsg : octets) :
    result exn octets :=
  Err (StatusInfo noAuthentication).
(** [digestLength] is the base class's. *)
Definition service : auth_service :=
  mk_auth hashPassphrase localizeKey (a_digestLength AbstractAuthenticationService)
    authenticateOutgoingMsg authenticateIncomingMsg.
End NoAuth.

(** ** auth/hmacmd5.py *)
Module HmacMd5.
Section defs.
Context (H : hashlib).

Definition serviceID : oid := [1;3;6;1;6;3;10;1;1;2].
Definition hashPassphrase (authKey : octets) : result exn (option octets) :=
  Some <$> hashPassphraseMD5 H authKey.
Definition localizeKey (authKey snmpEngineID : octets) : result exn (option octets) :=
  Ok (Some (localizeKeyMD5 H authKey snmpEngineID)).
Definition digestLength : nat := 12.

(** 6.3.1.2 to 6.3.1.4, and 6.3.2.4 to 6.3.2.5c *)
Definition mac (authKey msg : octets) : octets :=
  let extendedAuthKey := authKey ++ zeros 48 in
  let k1 := xor_octets extendedAuthKey ipad in
  let k2 := xor_octets extendedAuthKey opad in
  let d1 := digest (md5 H) (k1 ++ msg) in
  let d2 := digest (md5 H) (k2 ++ d1) in
  take 12 d2.

Definition authenticateOutgoingMsg (authKey wholeMsg : octets) : result exn octets :=
  match bytes_find (zeros 12) wholeMsg with
  | None => Err (ProtocolError "Cant locate digest placeholder")
  | Some idx =>
      let wholeHead := take idx wholeMsg in
      let wholeTail := drop (idx + 12) wholeMsg in
      Ok (wholeHead ++ mac authKey wholeMsg ++ wholeTail)
  end.

Definition authenticateIncomingMsg (authKey authParameters wholeMsg : octets) :
    result exn octets :=
  if negb (length authParameters =? 12)%nat then Err (StatusInfo authenticationError)
  else match bytes_find authParameters wholeMsg with
       | None => Err (ProtocolError "Cant locate digest in wholeMsg")
       | Some idx =>
           let wholeHead := take idx wholeMsg in
           let wholeTail := drop (idx + 12) wholeMsg in
           let authenticatedWholeMsg := wholeHead ++ zeros 12 ++ wholeTail in
           if decide (mac authKey authenticatedWholeMsg = authParameters)
           then Ok authenticatedWholeMsg
           else Err (StatusInfo authenticationFailure)
       end.

Definition service : auth_service :=
  mk_auth hashPassphrase localizeKey (Ok digestLength) authenticateOutgoingMsg
    authenticateIncomingMsg.
End defs.
End HmacMd5.

(** ** auth/hmacsha.py *)
Module HmacSha.
Section defs.
Context (H : hashlib).

Definition serviceID : oid := [1;3;6;1;6;3;10;1;1;3].
Definition hashPassphrase (authKey : octets) : result exn (option octets) :=
  Some <$> hashPassphraseSHA H authKey.
Definition localizeKey (authKey snmpEngineID : octets) : result exn (option octets) :=
  Ok (Some (localizeKeySHA H authKey snmpEngineID)).
Definition digestLength : nat := 12.

(** 7.3.1.2 to 7.3.1.4, and 7.3.2.4 to 7.3.2.5c *)
Definition mac (authKey msg : octets) : octets :=
  let extendedAuthKey := authKey ++ zeros 44 in
  let k1 := xor_octets extendedAuthKey ipad in
  let k2 := xor_octets extendedAuthKey opad in
  let d1 := digest (sha1 H) (k1 ++ msg) in
  let d2 := digest (sha1 H) (k2 ++ d1) in
  take 12 d2.

Definition authenticateOutgoingMsg (authKey wholeMsg : octets) : result exn octets :=
  match bytes_find (zeros 12) wholeMsg with
  | None => Err (ProtocolError "Cant locate digest placeholder")
  | Some idx =>
      let wholeHead := take idx wholeMsg in
      let wholeTail := drop (idx + 12) wholeMsg in
      Ok (wholeHead ++ mac authKey wholeMsg ++ wholeTail)
  end.

Definition authenticateIncomingMsg (authKey authParameters wholeMsg : octets) :
    result exn octets :=
  if negb (length authParameters =? 12)%nat then Err (StatusInfo authenticationError)
  else match bytes_find authParameters wholeMsg with
       | None => Err (ProtocolError "Cant locate digest in wholeMsg")
       | Some idx =>
           let wholeHead := take idx wholeMsg in
           let wholeTail := drop (idx + 12) wholeMsg in
           let authenticatedWholeMsg := wholeHead ++ zeros 12 ++ wholeTail in
           if decide (mac authKey authenticatedWholeMsg = authParameters)
           then Ok authenticatedWholeMsg
           else Err (StatusInfo authenticationFailure)
       end.

Definition service : auth_service :=
  mk_auth hashPassphrase localizeKey (Ok digestLength) authenticateOutgoingMsg
    authenticateIncomingMsg.
End defs.
End HmacSha.

(** ** rfc7860/auth/hmacsha2.py *)
Module HmacSha2.
Section defs.
Context (H : hashlib).

Definition sha224ServiceID : oid := [1;3;6;1;6;3;10;1;1;4].
Definition sha256ServiceID : oid := [1;3;6;1;6;3;10;1;1;5].
Definition sha384ServiceID : oid := [1;3;6;1;6;3;10;1;1;6].
Definition sha512ServiceID : oid := [1;3;6;1;6;3;10;1;1;7].

Definition keyLengths : dict oid nat :=
  [(sha224ServiceID, 28); (sha256ServiceID, 32); (sha384ServiceID, 48);
   (sha512ServiceID, 64)]%nat.
Definition digestLengths : dict oid nat :=
  [(sha224ServiceID, 16); (sha256ServiceID, 24); (sha384ServiceID, 32);
   (sha512ServiceID, 48)]%nat.
Definition hashAlgorithms : dict oid hash_algo :=
  [(sha224ServiceID, sha224 H); (sha256ServiceID, sha256 H); (sha384ServiceID, sha384 H);
   (sha512ServiceID, sha512 H)].

Record HmacSha2 : Type := mk_HmacSha2 {
  hashAlgo : hash_algo;
  digestLength : nat;
  placeHolder : octets;
}.

(** [__init__]; [digestLengths] has the keys of [hashAlgorithms]. *)
Definition init (id : oid) : result exn HmacSha2 :=
  match dget hashAlgorithms id with
  | None => Err (ProtocolError "No SHA-2 authentication algorithm available")
  | Some h =>
      match dget digestLengths id with
      | None => Err KeyError
      | Some n => Ok (mk_HmacSha2 h n (zeros n))
      end
  end.

Definition hashPassphrase (self : HmacSha2) (authKey : octets) : result exn (option octets) :=
  Some <$> LocalKey.hashPassphrase authKey (hashAlgo self).
Definition localizeKey (self : HmacSha2) (authKey snmpEngineID : octets) :
    result exn (option octets) :=
  Ok (Some (LocalKey.localizeKey authKey snmpEngineID (hashAlgo self))).

(** [hmac.new(key, msg, algo).digest()] of the standard library: RFC 2104 *)
Definition hmac_digest (h : hash_algo) (key msg : octets) : octets :=
  let key := if (block_size h <? length key)%nat then digest h key else key in
  let key := key ++ zeros (block_size h - length key) in
  let inner := digest h (xor_octets key (replicate (block_size h) 54) ++ msg) in
  digest h (xor_octets key (replicate (block_size h) 92) ++ inner).

Definition mac (self : HmacSha2) (authKey msg : octets) : octets :=
  take (digestLength self) (hmac_digest (hashAlgo self) authKey msg).

Definition authenticateOutgoingMsg (self : HmacSha2) (authKey wholeMsg : octets) :
    result exn octets :=
  match bytes_find (placeHolder self) wholeMsg with
  | None => Err (ProtocolError "Can't locate digest placeholder")
  | Some location =>
      let wholeHead := take location wholeMsg in
      let wholeTail := drop (location + digestLength self) wholeMsg in
      Ok (wholeHead ++ mac self authKey wholeMsg ++ wholeTail)
  end.

Definition authenticateIncomingMsg (self : HmacSha2)
    (authKey authParameters wholeMsg : octets) : result exn octets :=
  if negb (length authParameters =? digestLength self)%nat
  then Err (StatusInfo authenticationError)
  else match bytes_find authParameters wholeMsg with
       | None => Err (ProtocolError "Can't locate digest in wholeMsg")
       | Some location =>
           let wholeHead := take location wholeMsg in
           let wholeTail := drop (location + digestLength self) wholeMsg in
           let authenticatedWholeMsg := wholeHead ++ placeHolder self ++ wholeTail in
           if decide (mac self authKey authenticatedWholeMsg = authParameters)
           then Ok authenticatedWholeMsg
           else Err (StatusInfo authenticationFailure)
       end.

Definition service (self : HmacSha2) : auth_service :=
  mk_auth (hashPassphrase self) (localizeKey self) (Ok (digestLength self))
    (authenticateOutgoingMsg self) (authenticateIncomingMsg self).

(** The four instances the user security model makes at import. *)
Definition sha2_224 : HmacSha2 := mk_HmacSha2 (sha224 H) 16 (zeros 16).
Definition sha2_256 : HmacSha2 := mk_HmacSha2 (sha256 H) 24 (zeros 24).
Definition sha2_384 : HmacSha2 := mk_HmacSha2 (sha384 H) 32 (zeros 32).
Definition sha2_512 : HmacSha2 := mk_HmacSha2 (sha512 H) 48 (zeros 48).
End defs.
End HmacSha2.

(** ** [authServices] (secmod/rfc3414/service.py) *)
Module Auth.
Section services.
Context (H : hashlib).

Definition authServices : dict oid auth_service :=
  [(HmacMd5.serviceID, HmacMd5.service H);
   (HmacSha.serviceID, HmacSha.service H);
   (HmacSha2.sha224ServiceID, HmacSha2.service (HmacSha2.sha2_224 H));
   (HmacSha2.sha256ServiceID, HmacSha2.service (HmacSha2.sha2_256 H));
   (HmacSha2.sha384ServiceID, HmacSha2.service (HmacSha2.sha2_384 H));
   (HmacSha2.sha512ServiceID, HmacSha2.service (HmacSha2.sha2_512 H));
   (NoAuth.serviceID, NoAuth.service)].
End services.

(** ** What a service promises

    [n] octets of zeros are replaced by [mac], which is taken over the message
    with the zeros in place. *)
Class AuthContract (s : auth_service) (n : nat) (mac : octets → octets → octets) : Prop := {
  ac_digestLength : a_digestLength s = Ok n;
  ac_mac_length : ∀ k m, length (mac k m) = n;
  ac_out : ∀ k m i, bytes_find (zeros n) m = Some i →
    a_authenticateOutgoingMsg s k m = Ok (take i m ++ mac k m ++ drop (i + n) m);
  ac_out_None : ∀ k m, bytes_find (zeros n) m = None →
    ∃ msg, a_authenticateOutgoingMsg s k m = Err (ProtocolError msg);
  ac_in_len : ∀ k p m, length p ≠ n →
    a_authenticateIncomingMsg s k p m = Err (StatusInfo authenticationError);
  ac_in_None : ∀ k p m, length p = n → bytes_find p m = None →
    ∃ msg, a_authenticateIncomingMsg s k p m = Err (ProtocolError msg);
  ac_in : ∀ k p m i, length p = n → bytes_find p m = Some i →
    let m' := take i m ++ zeros n ++ drop (i + n) m in
    a_authenticateIncomingMsg s k p m =
      if decide (mac k m' = p) then Ok m' else Err (StatusInfo authenticationFailure);
}.

Section contracts.
Context (H : hashlib) `{!HashlibLaws H}.

(** The octets each service puts in a message, and what they are. *)
Definition macs : dict oid (nat * (octets → octets → octets)) :=
  [(HmacMd5.serviceID, (12%nat, HmacMd5.mac H));
   (HmacSha.serviceID, (12%nat, HmacSha.mac H));
   (HmacSha2.sha224ServiceID, (16%nat, HmacSha2.mac (HmacSha2.sha2_224 H)));
   (HmacSha2.sha256ServiceID, (24%nat, HmacSha2.mac (HmacSha2.sha2_256 H)));
   (HmacSha2.sha384ServiceID, (32%nat, HmacSha2.mac (HmacSha2.sha2_384 H)));
   (HmacSha2.sha512ServiceID, (48%nat, HmacSha2.mac (HmacSha2.sha2_512 H)))].

Lemma digest_sizes :
  digest_size (md5 H) = 16%nat ∧ digest_size (sha1 H) = 20%nat ∧
  digest_size (sha224 H) = 28%nat ∧ digest_size (sha256 H) = 32%nat ∧
  digest_size (sha384 H) = 48%nat ∧ digest_size (sha512 H) = 64%nat.
Proof. pose proof (hashlib_digest_sizes (H := H)) as E. cbn in E. by injection E. Qed.

Lemma length_zeros n : length (zeros n) = n.
Proof. apply length_replicate. Qed.

Ltac contract :=
  unfold HmacMd5.service, HmacSha.service, HmacSha2.service;
  split; cbn [a_digestLength a_authenticateOutgoingMsg a_authenticateIncomingMsg];
  [ done | |
    intros k m i Hi; unfold_service; by rewrite Hi |
    intros k m Hi; unfold_service; rewrite Hi; eauto |
    intros k p m Hl%Nat.eqb_neq; unfold_service; by rewrite Hl |
    intros k p m Hl%Nat.eqb_eq Hi; unfold_service; rewrite Hl, Hi; eauto |
    intros k p m i Hl%Nat.eqb_eq Hi; unfold_service; by rewrite Hl, Hi ]
with unfold_service :=
  unfold HmacMd5.authenticateOutgoingMsg, HmacMd5.authenticateIncomingMsg,
    HmacSha.authenticateOutgoingMsg, HmacSha.authenticateIncomingMsg,
    HmacSha2.authenticateOutgoingMsg, HmacSha2.authenticateIncomingMsg;
  cbn [HmacSha2.placeHolder HmacSha2.digestLength negb].

#[local] Instance md5_contract : AuthContract (HmacMd5.service H) 12 (HmacMd5.mac H).
Proof.
  contract. intros k m. unfold HmacMd5.mac. rewrite length_take, digest_length.
  destruct digest_sizes as (-> & _). done.
Qed.

#[local] Instance sha_contract : AuthContract (HmacSha.service H) 12 (HmacSha.mac H).
Proof.
  contract. intros k m. unfold HmacSha.mac. rewrite length_take, digest_length.
  destruct digest_sizes as (_ & -> & _). done.
Qed.

Lemma sha2_contract h n `{!HashLaws h} : (n <= digest_size h)%nat →
  AuthContract (HmacSha2.service (HmacSha2.mk_HmacSha2 h n (zeros n))) n
    (HmacSha2.mac (HmacSha2.mk_HmacSha2 h n (zeros n))).
Proof.
  intros Hn. contract. intros k m. unfold HmacSha2.mac, HmacSha2.hmac_digest.
  cbn [HmacSha2.digestLength HmacSha2.hashAlgo]. rewrite length_take, digest_length. lia.
Qed.

(** Every service that has a MAC keeps the contract. *)
Lemma services_contract id s n mac :
  dget (authServices H) id = Some s → dget macs id = Some (n, mac) → AuthContract s n mac.
Proof.
  destruct digest_sizes as (H1 & H2 & H3 & H4 & H5 & H6).
  unfold authServices, macs. cbn [dget].
  repeat (case_decide; [intros; simplify_eq;
    first [apply md5_contract | apply sha_contract | apply sha2_contract; [apply _|lia]]|]).
  done.
Qed.

Lemma zeros_find_length n m i : bytes_find (zeros n) m = Some i → (i + n <= length m)%nat.
Proof. intros [H1 _]%bytes_find_Some. by rewrite length_zeros in H1. Qed.

(** What a message looks like after signing. *)
Lemma signed_parts s n mac k m i : AuthContract s n mac → bytes_find (zeros n) m = Some i →
  ∃ out, a_authenticateOutgoingMsg s k m = Ok out ∧
    out = take i m ++ mac k m ++ drop (i + n) m ∧ length out = length m ∧
    take i out = take i m ∧ drop (i + n) out = drop (i + n) m.
Proof.
  intros Hs Hi. eexists. split; [by apply (ac_out (mac := mac))|].
  pose proof (zeros_find_length _ _ _ Hi) as Hle. pose proof (ac_mac_length (s := s) k m) as Hm.
  assert (Ht : length (take i m) = i) by (rewrite length_take; lia).
  split_and!; [done| | |].
  - rewrite !length_app, length_drop. lia.
  - by rewrite take_app_length'.
  - rewrite app_assoc, drop_app_length'; [done|]. rewrite length_app. lia.
Qed.

(** Acceptance by a service with the contract. *)
Lemma contract_accepts s n mac key params msg m' : AuthContract s n mac →
  a_authenticateIncomingMsg s key params msg = Ok m' →
  params = mac key m' ∧ length m' = length msg ∧
  ∃ head tail, msg = head ++ params ++ tail ∧ m' = head ++ zeros n ++ tail.
Proof.
  intros Hc Hok.
  destruct (decide (length params = n)) as [Hl|Hl];
    [|by rewrite (ac_in_len (mac := mac)) in Hok].
  destruct (bytes_find params msg) as [i|] eqn:Hi.
  2: { destruct (ac_in_None (mac := mac) key _ _ Hl Hi) as [e He]. by rewrite He in Hok. }
  rewrite (ac_in (mac := mac) _ _ _ i) in Hok by done. case_decide as Hm; [|done].
  injection Hok as Hok. rewrite Hok in Hm. split; [done|].
  pose proof (bytes_find_split _ _ _ Hi) as Hsp. rewrite Hl in Hsp. split.
  - apply bytes_find_Some in Hi as [Hi _].
    rewrite <- Hok, !length_app, length_zeros, length_take, length_drop. lia.
  - by exists (take i msg), (drop (i + n) msg).
Qed.

(** Every service but the one without authentication has a MAC. *)
Lemma service_mac id s : dget (authServices H) id = Some s → id ≠ NoAuth.serviceID →
  ∃ n mac, dget macs id = Some (n, mac) ∧ AuthContract s n mac.
Proof.
  intros Hs Hid.
  assert (Hm : is_Some (dget macs id)).
  { revert Hs. unfold authServices, macs. cbn [dget]. repeat (case_decide; [by eauto|]). done. }
  destruct Hm as [[n mac] Hm]. exists n, mac. split; [done|]. by eapply services_contract.
Qed.

Lemma mac_service id n mac : dget macs id = Some (n, mac) →
  ∃ s, dget (authServices H) id = Some s ∧ AuthContract s n mac.
Proof.
  intros Hm. assert (Hs : is_Some (dget (authServices H) id)).
  { revert Hm. unfold authServices, macs. cbn [dget]. repeat (case_decide; [by eauto|]). done. }
  destruct Hs as [s Hs]. exists s. split; [done|]. by eapply services_contract.
Qed.

(** ** Properties *)

(** Authentication round trip: for every service the user security model has,
    if the zeros of the digest field are the first such run in the message and the
    MAC does not occur before the field, then the receiver accepts the signed
    message with the same key and gets back exactly the octets that were signed;
    signing never changes the length of a message. *)
Theorem auth_roundtrip id s n mac key msg i :
  dget (authServices H) id = Some s → dget macs id = Some (n, mac) →
  bytes_find (zeros n) msg = Some i →
  ∃ out, a_authenticateOutgoingMsg s key msg = Ok out ∧ length out = length msg ∧
    (bytes_find (mac key msg) out = Some i →
     a_authenticateIncomingMsg s key (mac key msg) out = Ok msg).
Proof.
  intros Hs Hn Hi. pose proof (services_contract _ _ _ _ Hs Hn) as Hc.
  destruct (signed_parts s n mac key msg i Hc Hi) as (out & Ho & Hout & Hlen & Ht & Hd).
  exists out. split_and!; [done|done|]. intros Hf.
  rewrite (ac_in (mac := mac) _ _ _ i) by (done || apply (ac_mac_length (s := s))).
  cbv zeta. rewrite Ht, Hd. pose proof (bytes_find_split _ _ _ Hi) as Heq.
  rewrite length_zeros in Heq. rewrite <- Heq. by rewrite decide_True.
Qed.

(** A message is accepted only on a valid MAC: if a service accepts a message
    under some authentication parameters, those occur in it, what is returned is the
    message with zeros in their place, and they are the MAC of exactly that. *)
Theorem auth_accepts_only_valid_mac id s n mac key params msg m' :
  dget (authServices H) id = Some s → dget macs id = Some (n, mac) →
  a_authenticateIncomingMsg s key params msg = Ok m' →
  params = mac key m' ∧ length m' = length msg ∧
  ∃ head tail, msg = head ++ params ++ tail ∧ m' = head ++ zeros n ++ tail.
Proof.
  intros Hs Hn. apply contract_accepts. by eapply services_contract.
Qed.

(** The digest is written over the first run of zeros of the message, not over
    the digest field: when the octets before the field (an engine ID or a user name)
    hold such a run, the message leaves with the field still zero and the MAC written
    into the earlier octets. *)
Theorem digest_misses_its_field id s n mac key head tail i :
  dget (authServices H) id = Some s → dget macs id = Some (n, mac) →
  bytes_find (zeros n) (head ++ zeros n ++ tail) = Some i → (i + n <= length head)%nat →
  ∃ head', length head' = length head ∧
    a_authenticateOutgoingMsg s key (head ++ zeros n ++ tail) = Ok (head' ++ zeros n ++ tail) ∧
    take n (drop i head') = mac key (head ++ zeros n ++ tail).
Proof.
  intros Hs Hn Hi Hle. pose proof (services_contract _ _ _ _ Hs Hn) as Hc.
  destruct (signed_parts s n mac key _ i Hc Hi) as (out & Ho & Hout & _).
  pose proof (ac_mac_length (s := s) key (head ++ zeros n ++ tail)) as Hm.
  set (msg := head ++ zeros n ++ tail) in *.
  exists (take i head ++ mac key msg ++ drop (i + n) head).
  assert (Ht : take i msg = take i head) by (apply take_app_le; lia).
  assert (Hd : drop (i + n) msg = drop (i + n) head ++ zeros n ++ tail)
    by (apply drop_app_le; lia).
  split_and!.
  - rewrite !length_app, length_take, length_drop. lia.
  - by rewrite Ho, Hout, Ht, Hd, <- !app_assoc.
  - rewrite drop_app_length' by (rewrite length_take; lia). by apply take_app_length'.
Qed.

(** HMAC-MD5-96 and HMAC-SHA-96 compute HMAC as RFC 2104 defines it, truncated to
    twelve octets, for every key from the digest size to the block size: padding
    the key by a fixed number of zeros and cutting at 64 octets gives the same
    blocks. *)
Theorem hmac96_is_rfc2104 key msg :
  (length key <= 64)%nat →
  ((16 <= length key)%nat →
    HmacMd5.mac H key msg = take 12 (HmacSha2.hmac_digest (md5 H) key msg)) ∧
  ((20 <= length key)%nat →
    HmacSha.mac H key msg = take 12 (HmacSha2.hmac_digest (sha1 H) key msg)).
Proof.
  intros Hlen. pose proof (hashlib_block_sizes (H := H)) as Eb. cbn in Eb.
  injection Eb as Hb1 Hb2 _ _ _ _.
  assert (Hpad : ∀ pad c, (64 <= length key + pad)%nat →
    xor_octets (key ++ zeros pad) (replicate 64 c) =
    xor_octets (key ++ zeros (64 - length key)) (replicate 64 c)).
  { intros pad c Hp. unfold xor_octets.
    rewrite <- (zip_with_take_l' _ 64 (key ++ zeros pad)) by (rewrite length_replicate; lia).
    rewrite take_app, (take_ge key) by lia. do 2 f_equal. unfold zeros.
    by rewrite take_replicate, Nat.min_l by lia. }
  split; intros Hk; unfold HmacMd5.mac, HmacSha.mac, HmacSha2.hmac_digest, ipad, opad;
    rewrite ?Hb1, ?Hb2, (proj2 (Nat.ltb_ge _ _)) by done.
  - rewrite (Hpad 48%nat 54), (Hpad 48%nat 92) by lia. done.
  - rewrite (Hpad 44%nat 54), (Hpad 44%nat 92) by lia. done.
Qed.
End contracts.

(** ** Witnesses: a message with its digest field at offset 2 *)
Definition demo_key : octets := seqZ 1 20.
Definition demo_msg : octets := [48; 3] ++ zeros 12 ++ [4; 5].
(** The same, after an engine ID that holds a run of zeros. *)
Definition demo_head : octets := [128; 1] ++ zeros 12 ++ [7].

Lemma auth_roundtrip_witness :
  ∃ out, HmacMd5.authenticateOutgoingMsg toy_hashlib demo_key demo_msg = Ok out ∧
    length out = 16%nat ∧
    HmacMd5.authenticateIncomingMsg toy_hashlib demo_key
      (HmacMd5.mac toy_hashlib demo_key demo_msg) out = Ok demo_msg.
Proof.
  destruct (auth_roundtrip toy_hashlib HmacMd5.serviceID (HmacMd5.service toy_hashlib) 12
    (HmacMd5.mac toy_hashlib) demo_key demo_msg 2) as (out & Ho & Hl & Hr);
    [reflexivity..|].
  exists out. split; [exact Ho|]. split; [exact Hl|]. apply Hr.
  vm_compute in Ho. injection Ho as <-. vm_compute. reflexivity.
Defined.

Lemma auth_accepts_only_valid_mac_witness :
  HmacMd5.mac toy_hashlib demo_key demo_msg =
    HmacMd5.mac toy_hashlib demo_key demo_msg ∧ length demo_msg = 16%nat.
Proof.
  destruct (auth_accepts_only_valid_mac toy_hashlib HmacMd5.serviceID
    (HmacMd5.service toy_hashlib) 12 (HmacMd5.mac toy_hashlib) demo_key
    (HmacMd5.mac toy_hashlib demo_key demo_msg)
    ([48; 3] ++ HmacMd5.mac toy_hashlib demo_key demo_msg ++ [4; 5]) demo_msg)
    as (H1 & H2 & _); [reflexivity|reflexivity|vm_compute; reflexivity|].
  split; [exact H1|exact H2].
Defined.

Lemma digest_misses_its_field_witness :
  ∃ head', length head' = length demo_head ∧
    HmacMd5.authenticateOutgoingMsg toy_hashlib demo_key
      (demo_head ++ zeros 12 ++ [4; 5]) = Ok (head' ++ zeros 12 ++ [4; 5]).
Proof.
  destruct (digest_misses_its_field toy_hashlib HmacMd5.serviceID
    (HmacMd5.service toy_hashlib) 12 (HmacMd5.mac toy_hashlib) demo_key demo_head [4; 5] 2)
    as (head' & H1 & H2 & _); [reflexivity|reflexivity|reflexivity|vm_compute; lia|].
  exists head'. split; [exact H1|exact H2].
Defined.

Lemma hmac96_is_rfc2104_witness :
  HmacSha.mac toy_hashlib demo_key demo_msg =
  take 12 (HmacSha2.hmac_digest (sha1 toy_hashlib) demo_key demo_msg).
Proof. apply (hmac96_is_rfc2104 toy_hashlib demo_key demo_msg); vm_compute; lia. Defined.
End Auth.
