(* ===== verification/Priv.v ===== *)
(** * Privacy services (src/pysnmp/proto/secmod/rfc3414/priv,
      src/pysnmp/proto/secmod/rfc3826/priv, src/pysnmp/proto/secmod/eso/priv)

    One module per service class.  The ciphers of pycryptodomex are arguments
    (cipherbackend.py answers [None] when the package is missing); the counter
    [_localInt] is the state [encryptData] runs in. *)
From S2P Require Export Auth.

(** A cipher module with its mode fixed: [new(key, mode, iv).encrypt(data)],
    which raises on a key, an IV or a length it does not take. *)
Record cipher : Type := mk_cipher {
  c_encrypt : octets → octets → octets → result exn octets;
  c_decrypt : octets → octets → octets → result exn octets;
}.

(** What its documentation promises: decryption undoes encryption under the same
    key and IV, and neither changes the length. *)
Class CipherLaws (c : cipher) : Prop := {
  cipher_inverse : ∀ key iv pt ct, c_encrypt c key iv pt = Ok ct → c_decrypt c key iv ct = Ok pt;
  cipher_length : ∀ key iv pt ct, c_encrypt c key iv pt = Ok ct → length ct = length pt;
}.

(** [cipherbackend.getCipher] *)
Record cipherbackend : Type := mk_backend {
  getDES : option cipher;
  getDES3 : option cipher;
  getAES : option cipher;
}.

Class BackendLaws (B : cipherbackend) : Prop := {
  des_laws : ∀ c, getDES B = Some c → CipherLaws c;
  des3_laws : ∀ c, getDES3 B = Some c → CipherLaws c;
  aes_laws : ∀ c, getAES B = Some c → CipherLaws c;
}.

(** [snmpEngineBoots, snmpEngineTime, salt] *)
Abbreviation priv_params := (Z * Z * option octets)%type.

(** What the user security model calls (priv/base.py). *)
Record priv_service : Type := mk_priv {
  p_keySize : nat;
  p_hashPassphrase : oid → octets → result exn (option octets);
  p_localizeKey : oid → octets → octets → result exn (option octets);
  p_encryptData : octets → priv_params → octets → M exn Z (octets * octets);
  p_decryptData : octets → priv_params → octets → result exn octets;
}.

Definition AbstractEncryptionService : priv_service :=
  let e := ProtocolError "no encryption" in
  mk_priv 0 (λ _ _, Err e) (λ _ _ _, Err e) (λ _ _ _, raise e) (λ _ _ _, Err e).

(** ** priv/nopriv.py *)
Module NoPriv.
Definition serviceID : oid := [1;3;6;1;6;3;10;1;2;1].
Definition hashPassphrase (authProtocol : oid) (privKey : octets) :
    result exn (option octets) := Ok None.
Definition localizeKey (authProtocol : oid) (privKey snmpEngineID : octets) :
    result exn (option octets) := Ok None.
Definition encryptData (encryptKey : octets) (privParameters : priv_params)
    (dataToEncrypt : octets) : M exn Z (octets * octets) :=
  raise (StatusInfo noEncryption).
Definition decryptData (decryptKey : octets) (privParameters : priv_params)
    (encryptedData : octets) : result exn octets :=
  Err (StatusInfo noEncryption).
Definition service : priv_service :=
  mk_priv 0 hashPassphrase localizeKey encryptData decryptData.
End NoPriv.

(** The hash of the authentication protocol, selected the same way in every class. *)
Definition select_hash (H : hashlib) (authProtocol : oid) : result exn hash_algo :=
  if decide (authProtocol = HmacMd5.serviceID) then Ok (md5 H)
  else if decide (authProtocol = HmacSha.serviceID) then Ok (sha1 H)
  else match dget (HmacSha2.hashAlgorithms H) authProtocol with
       | Some h => Ok h
       | None => Err (ProtocolError "Unknown auth protocol")
       end.

(** [if self._localInt == maximum: self._localInt = 0 else: self._localInt += 1] *)
Definition next_localInt (maximum n : Z) : Z := if n =? maximum then 0 else n + 1.

(** [univ.OctetString((0,) * (8 - len(data) % 8))]: one to eight zeros *)
Definition cbc_padding (data : octets) : octets := zeros (8 - length data mod 8).

(** ** priv/des.py *)
Module Des.
Section defs.
Context (H : hashlib) (B : cipherbackend).

Definition serviceID : oid := [1;3;6;1;6;3;10;1;2;2].
Definition keySize : nat := 16.

Definition hashPassphrase (authProtocol : oid) (privKey : octets) :
    result exn (option octets) :=
  hashAlgo ← select_hash H authProtocol; Some <$> LocalKey.hashPassphrase privKey hashAlgo.

Definition localizeKey (authProtocol : oid) (privKey snmpEngineID : octets) :
    result exn (option octets) :=
  hashAlgo ← select_hash H authProtocol;
  let localPrivKey := LocalKey.localizeKey privKey snmpEngineID hashAlgo in
  mret (Some (take keySize localPrivKey)).

(** [__getEncryptionKey]: the DES key, the salt and the IV; the counter moves on. *)
Definition getEncryptionKey (privKey : octets) (snmpEngineBoots : Z) :
    M exn Z (octets * octets * octets) := fun localInt =>
  let desKey := take 8 privKey in
  let preIV := slice privKey 8 16 in
  let salt := be_octets 4 snmpEngineBoots ++ be_octets 4 localInt in
  (Ok (desKey, salt, xor_octets salt preIV), next_localInt 4294967295 localInt).

(** [__getDecryptionKey] *)
Definition getDecryptionKey (privKey salt : octets) : octets * octets :=
  (take 8 privKey, xor_octets salt (slice privKey 8 16)).

Definition encryptData (encryptKey : octets) (privParameters : priv_params)
    (dataToEncrypt : octets) : M exn Z (octets * octets) :=
  match getDES B with
  | None => raise (StatusInfo encryptionError)
  | Some DES =>
      let '(snmpEngineBoots, snmpEngineTime, _) := privParameters in
      k ← getEncryptionKey encryptKey snmpEngineBoots;
      let '(desKey, salt, iv) := k in
      let plaintext := dataToEncrypt ++ cbc_padding dataToEncrypt in
      ciphertext ← liftR (c_encrypt DES desKey iv plaintext);
      mret (ciphertext, salt)
  end.

Definition decryptData (decryptKey : octets) (privParameters : priv_params)
    (encryptedData : octets) : result exn octets :=
  match getDES B with
  | None => Err (StatusInfo decryptionError)
  | Some DES =>
      let '(snmpEngineBoots, snmpEngineTime, salt) := privParameters in
      match salt with
      | None => Err TypeError
      | Some salt =>
          if negb (length salt =? 8)%nat then Err (StatusInfo decryptionError)
          else
            let '(desKey, iv) := getDecryptionKey decryptKey salt in
            if negb (length encryptedData mod 8 =? 0)%nat
            then Err (StatusInfo decryptionError)
            else c_decrypt DES desKey iv encryptedData
      end
  end.

Definition service : priv_service :=
  mk_priv keySize hashPassphrase localizeKey encryptData decryptData.
End defs.
End Des.

(** [while len(localPrivKey) < self.keySize] of the Reeder draft; a round adds a
    digest, so [keySize] rounds are enough. *)
Fixpoint reeder_loop (fuel : nat) (h : hash_algo) (keySize : nat)
    (snmpEngineID localPrivKey : octets) : result exn octets :=
  if (length localPrivKey <? keySize)%nat then
    match fuel with
    | O => Ok localPrivKey
    | S fuel' =>
        newKey ← LocalKey.hashPassphrase localPrivKey h;
        reeder_loop fuel' h keySize snmpEngineID
          (localPrivKey ++ LocalKey.localizeKey newKey snmpEngineID h)
    end
  else Ok localPrivKey.

(** ** eso/priv/des3.py *)
Module Des3.
Section defs.
Context (H : hashlib) (B : cipherbackend).

Definition serviceID : oid := [1;3;6;1;6;3;10;1;2;3].
Definition keySize : nat := 32.

Definition hashPassphrase (authProtocol : oid) (privKey : octets) :
    result exn (option octets) :=
  hashAlgo ← select_hash H authProtocol; Some <$> LocalKey.hashPassphrase privKey hashAlgo.

Definition localizeKey (authProtocol : oid) (privKey snmpEngineID : octets) :
    result exn (option octets) :=
  hashAlgo ← select_hash H authProtocol;
  let localPrivKey := LocalKey.localizeKey privKey snmpEngineID hashAlgo in
  localPrivKey ← reeder_loop keySize hashAlgo keySize snmpEngineID localPrivKey;
  mret (Some (take keySize localPrivKey)).

(** [__getEncryptionKey] *)
Definition getEncryptionKey (privKey : octets) (snmpEngineBoots : Z) :
    M exn Z (octets * octets * octets) := fun localInt =>
  let des3Key := take 24 privKey in
  let preIV := slice privKey 24 32 in
  let salt := be_octets 4 snmpEngineBoots ++ be_octets 4 localInt in
  (Ok (des3Key, salt, xor_octets salt preIV), next_localInt 4294967295 localInt).

(** [__getDecryptionKey] *)
Definition getDecryptionKey (privKey salt : octets) : octets * octets :=
  (take 24 privKey, xor_octets salt (slice privKey 24 32)).

Definition encryptData (encryptKey : octets) (privParameters : priv_params)
    (dataToEncrypt : octets) : M exn Z (octets * octets) :=
  match getDES3 B with
  | None => raise (StatusInfo encryptionError)
  | Some DES3 =>
      let '(snmpEngineBoots, snmpEngineTime, _) := privParameters in
      k ← getEncryptionKey encryptKey snmpEngineBoots;
      let '(des3Key, salt, iv) := k in
      let plaintext := dataToEncrypt ++ cbc_padding dataToEncrypt in
      ciphertext ← liftR (c_encrypt DES3 des3Key iv plaintext);
      mret (ciphertext, salt)
  end.

Definition decryptData (decryptKey : octets) (privParameters : priv_params)
    (encryptedData : octets) : result exn octets :=
  match getDES3 B with
  | None => Err (StatusInfo decryptionError)
  | Some DES3 =>
      let '(snmpEngineBoots, snmpEngineTime, salt) := privParameters in
      match salt with
      | None => Err TypeError
      | Some salt =>
          if negb (length salt =? 8)%nat then Err (StatusInfo decryptionError)
          else
            let '(des3Key, iv) := getDecryptionKey decryptKey salt in
            if negb (length encryptedData mod 8 =? 0)%nat
            then Err (StatusInfo decryptionError)
            else c_decrypt DES3 des3Key iv encryptedData
      end
  end.

Definition service : priv_service :=
  mk_priv keySize hashPassphrase localizeKey encryptData decryptData.
End defs.
End Des3.

(** ** rfc3826/priv/aes.py, and its subclasses in eso/priv

    [keySize] is a class attribute; [localizeKey] is what the subclasses
    override. *)
Module Aes.
Section defs.
Context (H : hashlib) (B : cipherbackend) (keySize : nat).

Definition serviceID : oid := [1;3;6;1;6;3;10;1;2;4].

Definition hashPassphrase (authProtocol : oid) (privKey : octets) :
    result exn (option octets) :=
  hashAlgo ← select_hash H authProtocol; Some <$> LocalKey.hashPassphrase privKey hashAlgo.

Definition localizeKey (authProtocol : oid) (privKey snmpEngineID : octets) :
    result exn (option octets) :=
  hashAlgo ← select_hash H authProtocol;
  let localPrivKey := LocalKey.localizeKey privKey snmpEngineID hashAlgo in
  mret (Some (take keySize localPrivKey)).

(** [__getDecryptionKey] *)
Definition getDecryptionKey (privKey : octets) (snmpEngineBoots snmpEngineTime : Z)
    (salt : octets) : octets * octets :=
  let iv := be_octets 4 snmpEngineBoots ++ be_octets 4 snmpEngineTime ++ salt in
  (take keySize privKey, iv).

(** [__getEncryptionKey]: the salt is the 64-bit counter *)
Definition getEncryptionKey (privKey : octets) (snmpEngineBoots snmpEngineTime : Z) :
    M exn Z (octets * octets * octets) := fun localInt =>
  let salt := be_octets 8 localInt in
  let '(aesKey, iv) := getDecryptionKey privKey snmpEngineBoots snmpEngineTime salt in
  (Ok (aesKey, iv, salt), next_localInt 18446744073709551615 localInt).

Definition encryptData (encryptKey : octets) (privParameters : priv_params)
    (dataToEncrypt : octets) : M exn Z (octets * octets) :=
  match getAES B with
  | None => raise (StatusInfo encryptionError)
  | Some AES =>
      let '(snmpEngineBoots, snmpEngineTime, _) := privParameters in
      k ← getEncryptionKey encryptKey snmpEngineBoots snmpEngineTime;
      let '(aesKey, iv, salt) := k in
      ciphertext ← liftR (c_encrypt AES aesKey iv dataToEncrypt);
      mret (ciphertext, salt)
  end.

Definition decryptData (decryptKey : octets) (privParameters : priv_params)
    (encryptedData : octets) : result exn octets :=
  match getAES B with
  | None => Err (StatusInfo decryptionError)
  | Some AES =>
      let '(snmpEngineBoots, snmpEngineTime, salt) := privParameters in
      match salt with
      | None => Err TypeError
      | Some salt =>
          if negb (length salt =? 8)%nat then Err (StatusInfo decryptionError)
          else
            let '(aesKey, iv) := getDecryptionKey decryptKey snmpEngineBoots
                                   snmpEngineTime salt in
            c_decrypt AES aesKey iv encryptedData
      end
  end.

(** [AbstractAesBlumenthal.localizeKey]: the hash of the whole key so far is
    appended [ceil(keySize / len) - 1] times. *)
Fixpoint blumenthal_loop (count : nat) (h : hash_algo) (localPrivKey : octets) : octets :=
  match count with
  | O => localPrivKey
  | S count' => blumenthal_loop count' h (localPrivKey ++ digest h localPrivKey)
  end.

Definition ceil_div (a b : nat) : nat := ((a + (b - 1)) / b)%nat.

Definition localizeKeyBlumenthal (authProtocol : oid) (privKey snmpEngineID : octets) :
    result exn (option octets) :=
  hashAlgo ← select_hash H authProtocol;
  let localPrivKey := LocalKey.localizeKey privKey snmpEngineID hashAlgo in
  if (length localPrivKey =? 0)%nat then Err ZeroDivisionError
  else
    let localPrivKey :=
      blumenthal_loop (ceil_div keySize (length localPrivKey) - 1) hashAlgo localPrivKey in
    mret (Some (take keySize localPrivKey)).

(** [AbstractAesReeder.localizeKey] *)
Definition localizeKeyReeder (authProtocol : oid) (privKey snmpEngineID : octets) :
    result exn (option octets) :=
  hashAlgo ← select_hash H authProtocol;
  let localPrivKey := LocalKey.localizeKey privKey snmpEngineID hashAlgo in
  localPrivKey ← reeder_loop keySize hashAlgo keySize snmpEngineID localPrivKey;
  mret (Some (take keySize localPrivKey)).

Definition service : priv_service :=
  mk_priv keySize hashPassphrase localizeKey encryptData decryptData.
Definition AbstractAesBlumenthal : priv_service :=
  mk_priv keySize hashPassphrase localizeKeyBlumenthal encryptData decryptData.
Definition AbstractAesReeder : priv_service :=
  mk_priv keySize hashPassphrase localizeKeyReeder encryptData decryptData.
End defs.

(** eso/priv/aes192.py, eso/priv/aes256.py *)
Definition AesBlumenthal192_serviceID : oid := [1;3;6;1;4;1;9;12;6;1;1].
Definition Aes192_serviceID : oid := [1;3;6;1;4;1;9;12;6;1;101].
Definition AesBlumenthal256_serviceID : oid := [1;3;6;1;4;1;9;12;6;1;2].
Definition Aes256_serviceID : oid := [1;3;6;1;4;1;9;12;6;1;102].
End Aes.

(** ** [privServices], with the update at the end of secmod/rfc3414/service.py *)
Module Priv.
Section services.
Context (H : hashlib) (B : cipherbackend).

Definition privServices : dict oid priv_service :=
  [(Des.serviceID, Des.service H B);
   (NoPriv.serviceID, NoPriv.service);
   (Des3.serviceID, Des3.service H B);
   (Aes.serviceID, Aes.service H B 16);
   (Aes.AesBlumenthal192_serviceID, Aes.AbstractAesBlumenthal H B 24);
   (Aes.AesBlumenthal256_serviceID, Aes.AbstractAesBlumenthal H B 32);
   (Aes.Aes192_serviceID, Aes.AbstractAesReeder H B 24);
   (Aes.Aes256_serviceID, Aes.AbstractAesReeder H B 32)].
End services.

(** ** What a service promises

    The salt ends with the [w] octets of the counter, which then moves on; the
    receiver that knows the salt, the boots and the time decrypts to the data,
    with the padding of CBC mode where the service has it. *)
Class PrivContract (s : priv_service) (w : nat) (pads : bool) : Prop :=
  priv_contract : ∀ key boots time x data st ct salt st',
    p_encryptData s key (boots, time, x) data st = (Ok (ct, salt), st') →
    st' = next_localInt (256 ^ Z.of_nat w - 1) st ∧
    drop (8 - w) salt = be_octets w st ∧ length salt = 8%nat ∧
    p_decryptData s key (boots, time, Some salt) ct =
      Ok (data ++ if pads then cbc_padding data else []).

(** Width of the counter, and whether the mode pads. *)
Definition modes : dict oid (nat * bool) :=
  [(Des.serviceID, (4%nat, true)); (Des3.serviceID, (4%nat, true));
   (Aes.serviceID, (8%nat, false));
   (Aes.AesBlumenthal192_serviceID, (8%nat, false));
   (Aes.AesBlumenthal256_serviceID, (8%nat, false));
   (Aes.Aes192_serviceID, (8%nat, false)); (Aes.Aes256_serviceID, (8%nat, false))].

Lemma padded_length data : (length (data ++ cbc_padding data) mod 8 = 0)%nat.
Proof.
  unfold cbc_padding, zeros. rewrite length_app, length_replicate.
  pose proof (Nat.div_mod_eq (length data) 8) as Hd.
  pose proof (Nat.mod_upper_bound (length data) 8 ltac:(lia)) as Hm.
  replace (length data + (8 - length data mod 8))%nat
    with ((length data / 8 + 1) * 8)%nat by lia.
  apply Nat.Div0.mod_mul.
Qed.

Section contracts.
Context (H : hashlib) `{!HashlibLaws H} (B : cipherbackend) `{!BackendLaws B}.
#[local] Opaque be_octets.

Lemma des_contract : PrivContract (Des.service H B) 4 true.
Proof.
  intros key boots time x data st ct salt st'. cbn [p_encryptData p_decryptData Des.service].
  unfold Des.encryptData, Des.decryptData, Des.getEncryptionKey.
  destruct (getDES B) as [c|] eqn:Hc; munfold; [|done].
  destruct (c_encrypt c _ _ _) as [ct'|] eqn:He; [|done]. intros [= <- <- <-].
  pose proof (des_laws c Hc) as Hl.
  split_and!; [done|done|done|].
  unfold Des.getDecryptionKey. rewrite length_app, !length_be_octets. cbn [Nat.add Nat.eqb negb].
  rewrite (cipher_length _ _ _ _ He), padded_length. cbn [Nat.eqb negb].
  by rewrite (cipher_inverse _ _ _ _ He).
Qed.

Lemma des3_contract : PrivContract (Des3.service H B) 4 true.
Proof.
  intros key boots time x data st ct salt st'. cbn [p_encryptData p_decryptData Des3.service].
  unfold Des3.encryptData, Des3.decryptData, Des3.getEncryptionKey.
  destruct (getDES3 B) as [c|] eqn:Hc; munfold; [|done].
  destruct (c_encrypt c _ _ _) as [ct'|] eqn:He; [|done]. intros [= <- <- <-].
  pose proof (des3_laws c Hc) as Hl.
  split_and!; [done|done|done|].
  unfold Des3.getDecryptionKey. rewrite length_app, !length_be_octets. cbn [Nat.add Nat.eqb negb].
  rewrite (cipher_length _ _ _ _ He), padded_length. cbn [Nat.eqb negb].
  by rewrite (cipher_inverse _ _ _ _ He).
Qed.

Lemma aes_contract n hp lk : PrivContract
  (mk_priv n hp lk (Aes.encryptData B n) (Aes.decryptData B n)) 8 false.
Proof.
  intros key boots time x data st ct salt st'. cbn [p_encryptData p_decryptData].
  unfold Aes.encryptData, Aes.decryptData, Aes.getEncryptionKey, Aes.getDecryptionKey.
  destruct (getAES B) as [c|] eqn:Hc; munfold; [|done].
  destruct (c_encrypt c _ _ _) as [ct'|] eqn:He; [|done]. intros [= <- <- <-].
  pose proof (aes_laws c Hc) as Hl.
  split_and!; [done|by rewrite drop_0|done|].
  rewrite length_be_octets. cbn [Nat.eqb negb].
  rewrite (cipher_inverse _ _ _ _ He). by rewrite app_nil_r.
Qed.

Lemma priv_services_contract id s w pads :
  dget (privServices H B) id = Some s → dget modes id = Some (w, pads) → PrivContract s w pads.
Proof.
  unfold privServices, modes. cbn [dget].
  repeat (case_decide; [intros; simplify_eq;
    first [apply des_contract | apply des3_contract | apply aes_contract]|]).
  done.
Qed.

Lemma select_hash_laws id h : select_hash H id = Ok h → HashLaws h.
Proof.
  unfold select_hash, HmacSha2.hashAlgorithms. cbn [dget].
  repeat case_decide; intros; simplify_eq; apply _.
Qed.

Lemma length_localizeKey h `{!HashLaws h} k e :
  length (LocalKey.localizeKey k e h) = digest_size h.
Proof. apply digest_length. Qed.

(** The Reeder loop ends with enough octets: a round adds a digest, and the key it
    hashes is never empty. *)
Lemma reeder_loop_spec h `{!HashLaws h} n e fuel k :
  (n <= length k + fuel)%nat → (0 < length k)%nat →
  ∃ k', reeder_loop fuel h n e k = Ok k' ∧ (n <= length k')%nat.
Proof.
  revert k; induction fuel as [|fuel IH]; intros k Hn Hk; cbn [reeder_loop];
    destruct (Nat.ltb_spec (length k) n); [lia|by eauto| |by eauto].
  rewrite hashPassphrase_Ok by done. munfold.
  pose proof (digest_size_16 (h := h)).
  apply IH; rewrite length_app, (length_localizeKey h); lia.
Qed.

Lemma blumenthal_loop_length h `{!HashLaws h} n k :
  length (Aes.blumenthal_loop n h k) = (length k + n * digest_size h)%nat.
Proof.
  revert k; induction n as [|n IH]; intros k; cbn [Aes.blumenthal_loop]; [lia|].
  rewrite IH, length_app, digest_length. lia.
Qed.

Lemma ceil_div_spec a b : (0 < b)%nat → (a <= Aes.ceil_div a b * b)%nat.
Proof.
  intros Hb. unfold Aes.ceil_div.
  pose proof (Nat.div_mod_eq (a + (b - 1)) b).
  pose proof (Nat.mod_upper_bound (a + (b - 1)) b ltac:(lia)). nia.
Qed.

Lemma reeder_key_length lk n auth h master e : select_hash H auth = Ok h →
  lk = (hashAlgo ← select_hash H auth;
        localPrivKey ← reeder_loop n hashAlgo n e (LocalKey.localizeKey master e hashAlgo);
        mret (Some (take n localPrivKey))) →
  ∃ k, lk = Ok (Some k) ∧ length k = n.
Proof.
  intros Hh ->. pose proof (select_hash_laws _ _ Hh) as Hl. pose proof (digest_size_16 (h := h)).
  destruct (reeder_loop_spec h n e n (LocalKey.localizeKey master e h)) as (k & Hk & Hn);
    [lia|rewrite (length_localizeKey h); lia|].
  rewrite Hh. munfold. rewrite Hk. eexists. split; [done|]. rewrite length_take. lia.
Qed.

Lemma blumenthal_key_length n auth h master e : select_hash H auth = Ok h →
  ∃ k, Aes.localizeKeyBlumenthal H n auth master e = Ok (Some k) ∧ length k = n.
Proof.
  intros Hh. pose proof (select_hash_laws _ _ Hh) as Hl. pose proof (digest_size_16 (h := h)).
  unfold Aes.localizeKeyBlumenthal. rewrite Hh. munfold.
  rewrite (length_localizeKey h). destruct (Nat.eqb_spec (digest_size h) 0); [lia|].
  eexists. split; [done|]. rewrite length_take, (blumenthal_loop_length h), (length_localizeKey h).
  pose proof (ceil_div_spec n (digest_size h) ltac:(lia)). nia.
Qed.

Lemma short_key_length n auth h master e : (n <= 16)%nat → select_hash H auth = Ok h →
  ∃ k, Aes.localizeKey H n auth master e = Ok (Some k) ∧ length k = n.
Proof.
  intros Hn Hh. pose proof (select_hash_laws _ _ Hh) as Hl. pose proof (digest_size_16 (h := h)).
  unfold Aes.localizeKey. rewrite Hh. munfold. eexists. split; [done|].
  rewrite length_take, (length_localizeKey h). lia.
Qed.

(** ** The counter *)
Lemma next_localInt_mod w n : 0 < w → 0 <= n < w → next_localInt (w - 1) n = (n + 1) mod w.
Proof.
  intros Hw Hn. unfold next_localInt. destruct (Z.eqb_spec n (w - 1)) as [->|].
  - replace (w - 1 + 1) with w by lia. by rewrite Z.mod_same by lia.
  - rewrite Z.mod_small; lia.
Qed.

Lemma mod_close a b w : a mod w = b mod w → Z.abs (a - b) < w → a = b.
Proof.
  intros Hm Hab. pose proof (Z.div_mod a w ltac:(lia)) as Ha.
  pose proof (Z.div_mod b w ltac:(lia)) as Hb. rewrite Hm in Ha.
  set (qa := a / w) in *. set (qb := b / w) in *.
  destruct (Z.lt_trichotomy qa qb) as [Hq|[Hq|Hq]]; [nia|congruence|nia].
Qed.

(** Messages encrypted one after the other, each with the boots and time of its
    engine. *)
Fixpoint encrypt_all (s : priv_service) (key : octets) (msgs : list (priv_params * octets)) :
    M exn Z (list (octets * octets)) :=
  match msgs with
  | [] => mret []
  | (pp, data) :: msgs' =>
      x ← p_encryptData s key pp data;
      xs ← encrypt_all s key msgs';
      mret (x :: xs)
  end.

Lemma encrypt_all_counter s w pads key msgs st outs st' : PrivContract s w pads →
  0 <= st < 256 ^ Z.of_nat w → encrypt_all s key msgs st = (Ok outs, st') →
  ∀ i ct salt, outs !! i = Some (ct, salt) →
    drop (8 - w) salt = be_octets w ((st + Z.of_nat i) mod 256 ^ Z.of_nat w).
Proof.
  intros Hc. assert (0 < 256 ^ Z.of_nat w) as Hw by (apply Z.pow_pos_nonneg; lia).
  revert st outs; induction msgs as [|[[[boots time] x] data] msgs IH];
    intros st outs Hst Hrun i ct salt Hi; cbn [encrypt_all] in Hrun; munfold;
    [by simplify_eq|].
  destruct (p_encryptData s key (boots, time, x) data st) as [[[ct0 salt0]|] st1] eqn:He; [|done].
  destruct (encrypt_all s key msgs st1) as [[xs|] st2] eqn:Hr; [|done]. simplify_eq.
  destruct (Hc _ _ _ _ _ _ _ _ _ He) as (-> & Hs & _ & _).
  destruct i as [|i]; cbn in Hi.
  - simplify_eq. rewrite Hs. f_equal. rewrite Z.mod_small; lia.
  - rewrite next_localInt_mod in Hr by lia.
    rewrite (IH _ _ (Z.mod_pos_bound _ _ Hw) Hr i ct salt Hi).
    f_equal. rewrite Z.add_mod_idemp_l by lia. f_equal. lia.
Qed.

(** Every service but the one without privacy encrypts. *)
Lemma service_mode id s : dget (privServices H B) id = Some s → id ≠ NoPriv.serviceID →
  ∃ w pads, dget modes id = Some (w, pads) ∧ PrivContract s w pads.
Proof.
  intros Hs Hid. assert (Hm : is_Some (dget modes id)).
  { revert Hs. unfold privServices, modes. cbn [dget]. repeat (case_decide; [by eauto|]). done. }
  destruct Hm as [[w pads] Hm]. exists w, pads. split; [done|]. by eapply priv_services_contract.
Qed.

(** ** Properties *)

(** C23. Privacy round trip, for DES, 3DES and the five AES services: whatever a
    service encrypts, the peer that holds the key, the engine boots and the engine
    time decrypts to the same octets from the ciphertext and the salt sent with it;
    the block ciphers leave one to eight zeros of padding behind, the AES services
    nothing. *)
Theorem privacy_roundtrip id s w pads key boots time x data st ct salt st' :
  dget (privServices H B) id = Some s → dget modes id = Some (w, pads) →
  p_encryptData s key (boots, time, x) data st = (Ok (ct, salt), st') →
  length salt = 8%nat ∧
  p_decryptData s key (boots, time, Some salt) ct =
    Ok (data ++ if pads then zeros (8 - length data mod 8) else []).
Proof.
  intros Hs Hm He.
  by destruct (priv_services_contract _ _ _ _ Hs Hm _ _ _ _ _ _ _ _ _ He) as (_ & _ & ? & ?).
Qed.

(** Salts are fresh: the salts of any 2^32 messages in a row (DES and 3DES), or
    2^64 (AES), sent by one service are pairwise distinct, across the wrap of the
    counter and whatever the boots and times. *)
Theorem salts_distinct id s w pads key msgs st outs st' :
  dget (privServices H B) id = Some s → dget modes id = Some (w, pads) →
  0 <= st < 256 ^ Z.of_nat w → encrypt_all s key msgs st = (Ok outs, st') →
  Z.of_nat (length outs) <= 256 ^ Z.of_nat w → NoDup outs.*2.
Proof.
  intros Hs Hm Hst Hrun Hlen. pose proof (priv_services_contract _ _ _ _ Hs Hm) as Hc.
  apply NoDup_alt. intros i j salt Hi Hj.
  apply list_lookup_fmap_Some_1 in Hi as ([ct1 ?] & -> & Hi).
  apply list_lookup_fmap_Some_1 in Hj as ([ct2 ?] & Heq & Hj). cbn in Heq. subst.
  pose proof (encrypt_all_counter _ _ _ _ _ _ _ _ Hc Hst Hrun _ _ _ Hi) as H1.
  rewrite (encrypt_all_counter _ _ _ _ _ _ _ _ Hc Hst Hrun _ _ _ Hj) in H1.
  apply be_octets_inj in H1. rewrite !Z.mod_mod in H1 by lia.
  apply lookup_lt_Some in Hi, Hj. symmetry in H1.
  apply mod_close in H1; lia.
Qed.

(** Localizing a privacy key always ends and gives exactly the key the cipher
    takes: for every service but the one without privacy and every authentication
    protocol with a hash, [localizeKey] returns [keySize] octets, so both ways of
    extending a short key (Blumenthal's count of rounds and Reeder's loop) stop with
    enough of them; an unknown authentication protocol is a [ProtocolError]. *)
Theorem localized_key_size id s m auth master e :
  dget (privServices H B) id = Some s → dget modes id = Some m →
  match select_hash H auth with
  | Ok _ => ∃ k, p_localizeKey s auth master e = Ok (Some k) ∧ length k = p_keySize s
  | Err err => is_ProtocolError err = true ∧ p_localizeKey s auth master e = Err err
  end.
Proof.
  destruct (decide (id = NoPriv.serviceID)) as [->|Hnp]; [intros _ [=]|].
  destruct (select_hash H auth) as [h|err] eqn:Hh; unfold privServices, modes; cbn [dget];
    rewrite (decide_False (P := id = NoPriv.serviceID)) by done.
  - repeat (case_decide; [intros; simplify_eq; cbn [p_localizeKey p_keySize];
      first [eapply reeder_key_length; [exact Hh|done]
            |by eapply blumenthal_key_length
            |by eapply short_key_length]|]).
    done.
  - assert (is_ProtocolError err = true).
    { revert Hh. unfold select_hash. repeat case_match; congruence || intros; by simplify_eq. }
    repeat (case_decide; [intros; simplify_eq; split; [done|];
      unfold Des.service, Des3.service, Aes.service, Aes.AbstractAesBlumenthal,
        Aes.AbstractAesReeder; cbn [p_localizeKey];
      unfold Des.localizeKey, Des3.localizeKey, Aes.localizeKey, Aes.localizeKeyBlumenthal,
        Aes.localizeKeyReeder; by rewrite Hh|]).
    done.
Qed.
End contracts.

(** ** Witnesses: a cipher that masks the data with the key and the IV, and takes
    only data of whole blocks *)
Definition toy_mask (key iv : octets) : Z := foldl Z.lxor 0 (key ++ iv).
Definition toy_crypt (align : nat) (key iv data : octets) : result exn octets :=
  if (length data mod align =? 0)%nat then Ok ((λ x, Z.lxor x (toy_mask key iv)) <$> data)
  else Err ValueError.
Definition toy_cipher (align : nat) : cipher := mk_cipher (toy_crypt align) (toy_crypt align).

Lemma toy_cipher_laws align : CipherLaws (toy_cipher align).
Proof.
  split; cbn; unfold toy_crypt; intros key iv pt ct; case_match eqn:Hl; try done;
    intros [= <-]; rewrite length_fmap; [|done].
  rewrite Hl, <- list_fmap_compose. f_equal. rewrite <- (list_fmap_id pt) at 2.
  apply list_fmap_ext. intros i x _. cbn. by rewrite Z.lxor_assoc, Z.lxor_nilpotent, Z.lxor_0_r.
Qed.

Definition toy_backend : cipherbackend :=
  mk_backend (Some (toy_cipher 8)) (Some (toy_cipher 8)) (Some (toy_cipher 1)).

#[export] Instance toy_backend_laws : BackendLaws toy_backend.
Proof. split; cbn; intros c [= <-]; apply toy_cipher_laws. Qed.

Definition demo_priv_key : octets := seqZ 1 32.

Lemma privacy_roundtrip_witness :
  ∃ ct salt st', Des.encryptData toy_backend demo_priv_key (3, 77, None) [1; 2; 3] 9
      = (Ok (ct, salt), st') ∧
    Des.decryptData toy_backend demo_priv_key (3, 77, Some salt) ct
      = Ok [1; 2; 3; 0; 0; 0; 0; 0].
Proof.
  eexists _, _, _. split; [vm_compute; reflexivity|].
  eapply (privacy_roundtrip toy_hashlib toy_backend Des.serviceID
    (Des.service toy_hashlib toy_backend) 4 true demo_priv_key 3 77 None [1; 2; 3] 9);
    [reflexivity|reflexivity|vm_compute; reflexivity].
Defined.

(** The counter of DES wraps between the second and the third message. *)
Lemma salts_distinct_witness :
  ∃ outs st', encrypt_all (Des.service toy_hashlib toy_backend) demo_priv_key
      [((3, 1, None), [1]); ((3, 2, None), [2]); ((3, 3, None), [3])] 4294967294
      = (Ok outs, st') ∧ NoDup outs.*2.
Proof.
  eexists _, _. split; [vm_compute; reflexivity|].
  eapply (salts_distinct toy_hashlib toy_backend Des.serviceID
    (Des.service toy_hashlib toy_backend) 4 true demo_priv_key
    [((3, 1, None), [1]); ((3, 2, None), [2]); ((3, 3, None), [3])] 4294967294);
    [reflexivity|reflexivity|lia|vm_compute; reflexivity|vm_compute; discriminate].
Defined.

Lemma localized_key_size_witness :
  ∃ k, Aes.localizeKeyReeder toy_hashlib 32 HmacMd5.serviceID [5; 6] [128; 0; 1] = Ok (Some k) ∧
    length k = 32%nat.
Proof.
  exact (localized_key_size toy_hashlib toy_backend Aes.Aes256_serviceID
    (Aes.AbstractAesReeder toy_hashlib toy_backend 32) (8%nat, false) HmacMd5.serviceID
    [5; 6] [128; 0; 1] eq_refl eq_refl).
Defined.
End Priv.
