(* ===== verification/Column.v ===== *)
(** * MIB table columns (src/pysnmp/smi/mibs/SNMPv2-SMI.py)

    A [MibTableColumn] keeps its instances in an ordered dictionary under their
    full names, and counts in [branchVersionId] every change that goes through
    it.  An instance is modelled by its [syntax].  The lazy sort of the
    dictionary is not observable and is not kept by the read operations. *)
From S2P Require Export Indices.

Module Column.
Section defs.
Context {V : Type}.

Record column : Type := mk_column {
  name : oid;
  syntax : V;
  branchVersionId : Z;
  vars : @Indices.OidOrderedDict V;
}.

(** [MibTree.__init__] *)
Definition init (nm : oid) (s : V) : column := mk_column nm s 0 Indices.init.

Definition set_vars (col : column) (v : Indices.OidOrderedDict) : column :=
  mk_column (name col) (syntax col) (branchVersionId col) v.
Definition bump (col : column) : column :=
  mk_column (name col) (syntax col) (branchVersionId col + 1) (vars col).

(** [MibTree.registerSubtrees]: the version moves before anything is tried. *)
Fixpoint register_loop (subTrees : list (oid * V)) : M exn column unit := fun col =>
  match subTrees with
  | [] => (Ok tt, col)
  | (n, s) :: subTrees' =>
      if din (Indices.base (vars col)) n
      then (Err (SmiError "MIB subtree already registered"), col)
      else register_loop subTrees' (set_vars col (Indices.setitem n s (vars col)))
  end.
Definition registerSubtrees (subTrees : list (oid * V)) : M exn column unit :=
  modify bump;; register_loop subTrees.

(** [MibTree.unregisterSubtrees] *)
Fixpoint unregister_loop (names : list oid) : M exn column unit := fun col =>
  match names with
  | [] => (Ok tt, col)
  | n :: names' =>
      if din (Indices.base (vars col)) n
      then unregister_loop names' (set_vars col (Indices.delitem n (vars col)).2)
      else (Err (SmiError "MIB subtree not registered"), col)
  end.
Definition unregisterSubtrees (names : list oid) : M exn column unit :=
  modify bump;; unregister_loop names.

(** A write to an existing instance: its commit stores the value, the cleanup
    that follows passes through [MibTableColumn.writeCleanup]. *)
Definition write (n : oid) (v : V) : M exn column unit := fun col =>
  if din (Indices.base (vars col)) n
  then (Ok tt, bump (set_vars col (Indices.setitem n v (vars col))))
  else (Err no_such_instance, col).

(** [MibTableColumn.getBranch] *)
Definition getBranch (col : column) (n : oid) : result exn (oid * V) :=
  match dget (Indices.base (vars col)) n with
  | Some v => Ok (n, v)
  | None => Err no_such_instance
  end.

(** [MibTree.getNextBranch], through [MibScalar.getNextBranch] *)
Definition getNextBranch (col : column) (n : oid) : result exn (oid * V) :=
  let sorted := Indices.ordered (vars col) in
  let next :=
    match Indices.keys_ sorted with
    | first :: _ => if tuple_ltb n first then Ok first else (Indices.nextKey n (vars col)).1
    | [] => (Indices.nextKey n (vars col)).1
    end in
  match next with
  | Ok k => match dget (Indices.base (vars col)) k with
            | Some v => Ok (k, v) | None => Err no_such_instance end
  | Err _ => Err no_such_instance
  end.

(** [MibTree.getNode]: the column itself, or an instance *)
Definition getNode (col : column) (n : oid) : result exn (oid * V) :=
  if decide (n = name col) then Ok (name col, syntax col) else getBranch col n.

(** [MibTree.getNextNode]: an instance ([MibScalarInstance]) has no next node. *)
Definition getNextNode (col : column) (n : oid) : result exn (oid * V) :=
  match getBranch col n with
  | Err _ => getNextBranch col n
  | Ok (k, _) =>
      match (Indices.nextKey k (vars col)).1 with
      | Ok k' => match dget (Indices.base (vars col)) k' with
                 | Some v => Ok (k', v) | None => Err no_such_instance end
      | Err _ => Err no_such_instance
      end
  end.

(** The loop of the VACM that visits every instance:
    [while True: try: node = col.getNextNode(node.name) except NoSuchInstanceError: break]
    and then [body].  There are at most as many rounds as instances. *)
Fixpoint for_each_node {S} (fuel : nat) (col : column) (n : oid)
    (body : oid → V → M exn S unit) : M exn S unit :=
  match fuel with
  | O => mret tt
  | S fuel' =>
      match getNextNode col n with
      | Err (MibError NoSuchInstanceError _) => mret tt
      | Err e => raise e
      | Ok (k, v) => body k v;; for_each_node fuel' col k body
      end
  end.
Definition for_each {S} (col : column) (body : oid → V → M exn S unit) : M exn S unit :=
  for_each_node (Datatypes.S (length (Indices.base (vars col)))) col (name col) body.

(** ** The instances in order *)
Definition nodes (col : column) : list (oid * V) :=
  omap (λ k, (λ v, (k, v)) <$> dget (Indices.base (vars col)) k)
    (Indices.keys_ (Indices.ordered (vars col))).

(** Every name of an instance extends the name of its column. *)
Record wf (col : column) : Prop := {
  wf_vars : Indices.wf (vars col);
  wf_names : ∀ n, n ∈ dkeys (Indices.base (vars col)) →
    ∃ instId, instId ≠ [] ∧ n = name col ++ instId;
}.

(** ** Helper lemmas *)
(** A loop over the instances keeps what each round keeps. *)
Lemma for_each_inv {S} (P : S → Prop) (col : column) (body : oid → V → M exn S unit) :
  (∀ n v s, P s → P (body n v s).2) → ∀ s, P s → P (for_each col body s).2.
Proof.
  intros Hb. unfold for_each. generalize (Datatypes.S (length (Indices.base (vars col)))) as fuel.
  generalize (name col) as n. intros n fuel. revert n.
  induction fuel as [|fuel IH]; intros n s Hs; cbn [for_each_node]; [done|].
  destruct (getNextNode col n) as [[k v]|e].
  - unfold mbind, M_bind. specialize (Hb k v s Hs). destruct (body k v s) as [[|] s']; [by apply IH|done].
  - by repeat case_match.
Qed.

Lemma successor_din (col : column) n k :
  Indices.successor (Indices.base (vars col)) n k →
  ∃ v, dget (Indices.base (vars col)) k = Some v.
Proof. intros [Hk _]. by apply dget_keys. Qed.

Definition next_ok (col : column) (n : oid) (r : result exn (oid * V)) : Prop :=
  match r with
  | Ok (k, v) => Indices.successor (Indices.base (vars col)) n k ∧
                 dget (Indices.base (vars col)) k = Some v
  | Err e => e = no_such_instance ∧
             ∀ k, k ∈ dkeys (Indices.base (vars col)) → tuple_leb k n = true
  end.

(** Following [nextKey] with a lookup never misses. *)
Lemma next_lookup_ok col n r : Indices.wf (vars col) → r = (Indices.nextKey n (vars col)).1 →
  next_ok col n
    match r with
    | Ok k => match dget (Indices.base (vars col)) k with
              | Some v => Ok (k, v) | None => Err no_such_instance end
    | Err _ => Err no_such_instance
    end.
Proof.
  intros Hwf ->. destruct (Indices.nextKey_spec (vars col) n Hwf) as [_ Hn].
  destruct ((Indices.nextKey n (vars col)).1) as [k|e].
  - destruct (successor_din _ _ _ Hn) as [v Hv]. rewrite Hv. done.
  - cbn. naive_solver.
Qed.

Lemma getNextBranch_ok col n : Indices.wf (vars col) → next_ok col n (getNextBranch col n).
Proof.
  intros Hwf. unfold getNextBranch.
  destruct (Indices.ordered_wf _ Hwf) as (Hwf' & Hd & Hb).
  destruct (Indices.wf_sorted _ Hwf' Hd) as [Hs _].
  pose proof (Indices.wf_keys _ Hwf') as Hp. rewrite Hb in Hp.
  destruct (Indices.keys_ (Indices.ordered (vars col))) as [|first rest] eqn:Hk;
    [by apply next_lookup_ok|].
  destruct (tuple_ltb n first) eqn:Hlt; [|by apply next_lookup_ok].
  assert (Hin : first ∈ dkeys (Indices.base (vars col))) by (rewrite <- Hp; set_solver).
  destruct (dget_keys _ _ Hin) as [v Hv]. rewrite Hv. cbn. split_and!; [|done].
  split_and!; [done|done|]. intros k' Hk' _. rewrite <- Hp in Hk'.
  inversion Hs as [|? ? _ Hall]; subst. apply elem_of_cons in Hk' as [->|Hk'].
  - apply leb_refl.
  - rewrite Forall_forall in Hall. by apply Hall.
Qed.

Lemma getNextNode_ok col n : Indices.wf (vars col) → next_ok col n (getNextNode col n).
Proof.
  intros Hwf. unfold getNextNode, getBranch.
  destruct (dget (Indices.base (vars col)) n) as [v|]; [|by apply getNextBranch_ok].
  by apply next_lookup_ok.
Qed.

(** The nodes with the names of a list of keys. *)
Definition nodes_of (col : column) (ks : list oid) : list (oid * V) :=
  omap (λ k, (λ v, (k, v)) <$> dget (Indices.base (vars col)) k) ks.

Lemma for_each_node_spec {S} fuel col n (body : oid → V → M exn S unit) s :
  Indices.wf (vars col) →
  (length (Indices.above n (Indices.keys_ (Indices.ordered (vars col)))) < fuel)%nat →
  for_each_node fuel col n body s =
  mapM_ (λ kv, body kv.1 kv.2)
    (nodes_of col (Indices.above n (Indices.keys_ (Indices.ordered (vars col))))) s.
Proof.
  intros Hwf. destruct (Indices.ordered_wf _ Hwf) as (Hwf' & Hd & Hb).
  revert n s; induction fuel as [|fuel IH]; intros n s Hf; [lia|]. cbn [for_each_node].
  pose proof (getNextNode_ok col n Hwf) as Hn.
  destruct (getNextNode col n) as [[k v]|e].
  - destruct Hn as [Hsucc Hv]. rewrite <- Hb in Hsucc.
    rewrite (Indices.above_step _ _ _ Hwf' Hd Hsucc) in *.
    unfold nodes_of. cbn [omap list_omap]. rewrite Hv. cbn. munfold.
    destruct (body k v s) as [[[]|] s']; [|done].
    rewrite IH by (cbn in Hf; lia). done.
  - destruct Hn as [-> Hn]. unfold Indices.above.
    rewrite filter_none; [done|]. intros k Hk. rewrite (Indices.wf_keys _ Hwf'), Hb in Hk.
    rewrite tuple_ltb_leb, (Hn k Hk). done.
Qed.

Lemma tuple_ltb_app a b : b ≠ [] → tuple_ltb a (a ++ b) = true.
Proof.
  intros Hb. unfold tuple_ltb. induction a as [|x a IH]; cbn; [by destruct b|].
  by rewrite Z.compare_refl.
Qed.

(** The loop of the VACM is a loop over the sorted instances. *)
Lemma for_each_spec {S} col (body : oid → V → M exn S unit) s : wf col →
  for_each col body s = mapM_ (λ kv, body kv.1 kv.2) (nodes col) s.
Proof.
  intros [Hwf Hn]. destruct (Indices.ordered_wf _ Hwf) as (Hwf' & Hd & Hb).
  assert (Hall : Indices.above (name col) (Indices.keys_ (Indices.ordered (vars col))) =
                 Indices.keys_ (Indices.ordered (vars col))).
  { unfold Indices.above. apply filter_all. intros k Hk.
    rewrite (Indices.wf_keys _ Hwf'), Hb in Hk. destruct (Hn k Hk) as (i & Hi & ->).
    by apply tuple_ltb_app. }
  unfold for_each. rewrite for_each_node_spec; rewrite ?Hall; [done|done|].
  rewrite (Indices.wf_keys _ Hwf'), Hb. unfold dkeys. rewrite length_fmap. lia.
Qed.

Lemma nodes_elem col k v : Indices.wf (vars col) →
  (k, v) ∈ nodes col ↔ dget (Indices.base (vars col)) k = Some v.
Proof.
  intros Hwf. destruct (Indices.ordered_wf _ Hwf) as (Hwf' & Hd & Hb).
  unfold nodes. rewrite list_elem_of_omap. split.
  - intros (k' & _ & He). destruct (dget _ k') eqn:E; cbn in He; by simplify_eq.
  - intros Hv. exists k. rewrite Hv. split; [|done].
    rewrite (Indices.wf_keys _ Hwf'), Hb. by eapply dget_Some_keys.
Qed.

Lemma nodes_keys col : Indices.wf (vars col) → (nodes col).*1 = Indices.keys_ (Indices.ordered (vars col)).
Proof.
  intros Hwf. destruct (Indices.ordered_wf _ Hwf) as (Hwf' & Hd & Hb). unfold nodes.
  assert (Hin : ∀ k, k ∈ Indices.keys_ (Indices.ordered (vars col)) →
    k ∈ dkeys (Indices.base (vars col))).
  { intros k. by rewrite (Indices.wf_keys _ Hwf'), Hb. }
  induction (Indices.keys_ (Indices.ordered (vars col))) as [|k l IH]; [done|].
  cbn [omap list_omap]. assert (Hk : k ∈ k :: l) by set_solver.
  destruct (dget_keys _ _ (Hin k Hk)) as [v ->]. cbn.
  f_equal. apply IH. set_solver.
Qed.

Lemma nodes_NoDup col : Indices.wf (vars col) → NoDup (nodes col).*1.
Proof.
  intros Hwf. rewrite nodes_keys by done.
  destruct (Indices.ordered_wf _ Hwf) as (Hwf' & _ & _).
  rewrite (Indices.wf_keys _ Hwf'). apply (Indices.wf_base _ Hwf').
Qed.

Lemma column_init_wf nm s : wf (init nm s).
Proof. split; [apply Indices.oid_init_wf|]. cbn. set_solver. Qed.

Lemma register_loop_wf subTrees col : wf col →
  (∀ n s, (n, s) ∈ subTrees → ∃ i, i ≠ [] ∧ n = name col ++ i) →
  wf (register_loop subTrees col).2 ∧
  name (register_loop subTrees col).2 = name col ∧
  branchVersionId (register_loop subTrees col).2 = branchVersionId col.
Proof.
  revert col; induction subTrees as [|[n s] l IH]; intros col Hwf Hn; [done|].
  cbn [register_loop]. destruct (din (Indices.base (vars col)) n) eqn:E; [done|].
  destruct (IH (set_vars col (Indices.setitem n s (vars col)))) as (H1 & H2 & H3);
    [|intros n' s' Hin; cbn; eapply Hn; by right|by split_and!].
  destruct Hwf as [Hv Hnames]. split; cbn [vars set_vars name].
  - by apply Indices.setitem_wf.
  - intros n' Hn'. rewrite Indices.setitem_base, dkeys_dset in Hn'. case_decide; [by apply Hnames|].
    apply elem_of_app in Hn' as [Hn'|Hn'%list_elem_of_singleton]; [by apply Hnames|].
    subst. eapply Hn. left.
Qed.

Lemma registerSubtrees_wf subTrees col : wf col →
  (∀ n s, (n, s) ∈ subTrees → ∃ i, i ≠ [] ∧ n = name col ++ i) →
  wf (registerSubtrees subTrees col).2 ∧
  branchVersionId (registerSubtrees subTrees col).2 = branchVersionId col + 1.
Proof.
  intros Hwf Hn. unfold registerSubtrees. munfold.
  destruct (register_loop_wf subTrees (bump col)) as (H1 & _ & H2); [|done|done].
  by destruct Hwf.
Qed.
End defs.
Arguments column : clear implicits.
End Column.
