(* ===== verification/TableIndex.v ===== *)
(** * Table indices (MibTableRow of src/pysnmp/smi/mibs/SNMPv2-SMI.py)

    A row turns the values of its INDEX clause into the sub-identifiers that end
    an instance name, and back; both directions go through a least-used cache.
    Index types with a [cloneFromName] of their own are not modelled. *)
From stdpp Require Import pretty.
From S2P Require Export Errors LruCache.
#[local] Open Scope Z_scope.

Module TableIndex.

(** ** Index values and the syntaxes of an INDEX clause *)
Inductive ival : Type :=
  | IInt (z : Z)
  | IIpAddress (s : octets)
  | IStr (s : octets)
  | IOid (o : oid)
  | IRest (o : oid).   (* a remainder standing in for indices that did not parse *)

#[global] Instance ival_eq_dec : EqDecision ival.
Proof. solve_decision. Defined.

Inductive idx_syntax : Type :=
  | SInteger
  | SIpAddress
  | SOctetString (fixedLength : option nat)
  | SObjectIdentifier.

(** One entry of [indexNames], with the constraint of the column's syntax. *)
Record index : Type := mk_index {
  impliedFlag : bool;
  idx_type : idx_syntax;
  idx_ok : ival → bool;
}.

Definition syntax_of (v : ival) (s : idx_syntax) : bool :=
  match v, s with
  | IInt _, SInteger | IIpAddress _, SIpAddress | IStr _, SOctetString _
  | IOid _, SObjectIdentifier => true
  | _, _ => false
  end.

(** [syntax.clone(value)]: the constraint is checked. *)
Definition clone (i : index) (v : ival) : result exn ival :=
  if syntax_of v (idx_type i) && idx_ok i v then Ok v
  else Err (PyAsn1Error "constraint").

(** [bytes(tuple)] *)
Definition to_bytes (l : oid) : result exn octets :=
  if forallb (λ x, (0 <=? x) && (x <? 256)) l then Ok l else Err ValueError.

(** [".".join([str(x) for x in value])] *)
Definition dotted (l : oid) : string := String.concat "." (pretty <$> l).

(** [IpAddress.prettyIn] on a dotted string: four characters are taken as they
    are, anything else as numbers. *)
Definition ip_of_name (l : oid) : result exn octets :=
  let s := dotted l in
  let value := if (String.length s =? 4)%nat
               then (λ c, Z.of_nat (Ascii.nat_of_ascii c)) <$> String.list_ascii_of_string s
               else l in
  v ← to_bytes value;
  if (length v =? 4)%nat then mret v else Err (ProtocolError "Bad IP address syntax").

(** [setFromName]: the value at the head of the sub-identifiers, and the rest *)
Definition setFromName (i : index) (value : oid) : result exn (ival * oid) :=
  match value with
  | [] => Err (SmiError "Short OID for index")
  | v0 :: rest =>
      match idx_type i with
      | SInteger => v ← clone i (IInt v0); mret (v, rest)
      | SIpAddress =>
          s ← ip_of_name (take 4 value); v ← clone i (IIpAddress s); mret (v, drop 4 value)
      | SOctetString fixedLength =>
          if impliedFlag i then
            s ← to_bytes value; v ← clone i (IStr s); mret (v, [])
          else match fixedLength with
               | Some n =>
                   s ← to_bytes (take n value); v ← clone i (IStr s); mret (v, drop n value)
               | None =>
                   s ← to_bytes (take (Z.to_nat v0) rest);
                   v ← clone i (IStr s); mret (v, drop (Z.to_nat v0) rest)
               end
      | SObjectIdentifier =>
          if impliedFlag i then v ← clone i (IOid value); mret (v, [])
          else v ← clone i (IOid (take (Z.to_nat v0) rest)); mret (v, drop (Z.to_nat v0) rest)
      end
  end.

(** [getAsName] *)
Definition getAsName (i : index) (v : ival) : result exn oid :=
  match v with
  | IInt z => Ok [z]
  | IIpAddress s => Ok s
  | IStr s =>
      match idx_type i with
      | SOctetString (Some _) => Ok s
      | _ => Ok (if impliedFlag i then s else Z.of_nat (length s) :: s)
      end
  | IOid o => Ok (if impliedFlag i then o else Z.of_nat (length o) :: o)
  | IRest _ => Err (SmiError "Unknown value type for index")
  end.

(** ** The two directions, without the caches *)

(** The loop of [getIndicesFromInstId]: [inr] are the indices, [inl] the
    remainder that did not parse. *)
Fixpoint decode (indexNames : list index) (instId : oid) : result exn (oid + list ival) :=
  match indexNames with
  | [] =>
      match instId with
      | [] => Ok (inr [])
      | _ => Err (SmiError "Excessive instance identifier sub-OIDs left")
      end
  | i :: indexNames' =>
      match setFromName i instId with
      | Err e => if is_PyAsn1Error e then Ok (inl instId) else Err e
      | Ok (v, instId') =>
          match decode indexNames' instId' with
          | Ok (inr vs) => Ok (inr (v :: vs))
          | r => r
          end
      end
  end.

(** The loop of [getInstIdFromIndices]: it stops when the indices run out. *)
Fixpoint encode (indexNames : list index) (indices : list ival) : result exn oid :=
  match indexNames, indices with
  | i :: indexNames', v :: indices' =>
      syntax ← clone i v;
      name ← getAsName i syntax;
      rest ← encode indexNames' indices';
      mret (name ++ rest)
  | _, _ => Ok []
  end.

(** ** The row *)
Record MibTableRow : Type := mk_row {
  indexNames : list index;
  idToIdxCache : @LruCache.Cache oid (list ival);
  idxToIdCache : @LruCache.Cache (list ival) oid;
}.

(** [MibTableRow.__init__] and [setIndexNames]; [cache.Cache()] holds 256 entries. *)
Definition init (names : list index) : MibTableRow :=
  mk_row names (LruCache.init 256) (LruCache.init 256).

Definition on_idToIdx {A} (m : M exn (@LruCache.Cache oid (list ival)) A) : M exn MibTableRow A :=
  zoom idToIdxCache (λ c r, mk_row (indexNames r) c (idxToIdCache r)) m.
Definition on_idxToId {A} (m : M exn (@LruCache.Cache (list ival) oid) A) : M exn MibTableRow A :=
  zoom idxToIdCache (λ c r, mk_row (indexNames r) (idToIdxCache r) c) m.

Definition getIndicesFromInstId (instId : oid) : M exn MibTableRow (list ival) := fun self =>
  (if LruCache.contains (idToIdxCache self) instId
   then on_idToIdx (LruCache.getitem instId)
   else
     d ← liftR (decode (indexNames self) instId);
     match d with
     | inl rest => mret [IRest rest]
     | inr indices => on_idToIdx (LruCache.setitem instId indices);; mret indices
     end) self.

Definition getInstIdFromIndices (indices : list ival) : M exn MibTableRow oid := fun self =>
  try_except (on_idxToId (LruCache.getitem indices))
    (λ e, match e with
          | KeyError => Some
              (instId ← liftR (encode (indexNames self) indices);
               on_idxToId (LruCache.setitem indices instId);;
               mret instId)
          | _ => None
          end) self.

(** What a client of a row does. *)
Inductive op : Type := Indices_of (instId : oid) | InstId_of (indices : list ival).
Definition do_op (r : MibTableRow) (o : op) : MibTableRow :=
  match o with
  | Indices_of i => (getIndicesFromInstId i r).2
  | InstId_of v => (getInstIdFromIndices v r).2
  end.
Definition run (names : list index) (ops : list op) : MibTableRow := foldl do_op (init names) ops.

(** ** Helper lemmas: dotted addresses *)
Lemma pretty_N_go_length x s : (String.length s <= String.length (pretty_N_go x s))%nat.
Proof.
  revert s. induction (N.lt_wf_0 x) as [x _ IH]; intros s.
  destruct (decide (x = 0)%N) as [->|]; [by rewrite pretty_N_go_0|].
  rewrite pretty_N_go_step by lia.
  etrans; [|apply IH, N.div_lt; lia]. cbn. lia.
Qed.

Lemma string_app_length s t : String.length (s +:+ t) = (String.length s + String.length t)%nat.
Proof.
  induction s as [|a s IH]; [done|].
  change (S (String.length (s +:+ t)) = S (String.length s + String.length t))%nat. by rewrite IH.
Qed.

Lemma pretty_Z_nonempty (z : Z) : (0 < String.length (pretty z))%nat.
Proof.
  assert (Hpos : ∀ p : positive, (0 < String.length (pretty p))%nat).
  { intros p. unfold pretty, pretty_positive, pretty, pretty_N.
    rewrite decide_False by done. rewrite pretty_N_go_step by lia.
    eapply Nat.lt_le_trans; [|apply pretty_N_go_length]. cbn [String.length]. lia. }
  destruct z as [|p|p].
  - vm_compute. lia.
  - apply Hpos.
  - change (pretty (Z.neg p)) with ("-" +:+ pretty p).
    rewrite string_app_length. specialize (Hpos p). lia.
Qed.

Lemma dotted_four a b c d : String.length (dotted [a; b; c; d]) ≠ 4%nat.
Proof.
  unfold dotted. cbn [fmap list_fmap String.concat].
  rewrite !string_app_length. cbn [String.length].
  pose proof (pretty_Z_nonempty a). pose proof (pretty_Z_nonempty b).
  pose proof (pretty_Z_nonempty c). pose proof (pretty_Z_nonempty d). lia.
Qed.

Lemma to_bytes_octets l : is_octets l → to_bytes l = Ok l.
Proof.
  intros Hl. unfold to_bytes. rewrite (proj2 (forallb_forall _ _)); [done|].
  intros x Hx. apply list_elem_of_In in Hx. unfold is_octets in Hl.
  rewrite Forall_forall in Hl. specialize (Hl x Hx). unfold is_octet in Hl.
  apply andb_true_iff. split; [apply Z.leb_le|apply Z.ltb_lt]; lia.
Qed.

Lemma ip_of_name_four s : length s = 4%nat → is_octets s → ip_of_name s = Ok s.
Proof.
  intros Hl Ho. destruct s as [|a [|b [|c [|d [|]]]]]; try done. unfold ip_of_name.
  rewrite (proj2 (Nat.eqb_neq _ _) (dotted_four a b c d)).
  rewrite to_bytes_octets by done. done.
Qed.

(** ** Index values that have a name *)
Definition valid (last : bool) (i : index) (v : ival) : Prop :=
  clone i v = Ok v ∧
  (impliedFlag i = true → last = true ∧ idx_type i ≠ SInteger ∧ idx_type i ≠ SIpAddress) ∧
  match v with
  | IInt _ => True
  | IIpAddress s => length s = 4%nat ∧ is_octets s
  | IStr s => is_octets s ∧ (impliedFlag i = true → s ≠ []) ∧
      (∀ n, idx_type i = SOctetString (Some n) → length s = n ∧ (0 < n)%nat)
  | IOid o => impliedFlag i = true → o ≠ []
  | IRest _ => False
  end.

Fixpoint valid_indices (names : list index) (vs : list ival) : Prop :=
  match names, vs with
  | [], [] => True
  | i :: names', v :: vs' =>
      valid (match names' with [] => true | _ => false end) i v ∧ valid_indices names' vs'
  | _, _ => False
  end.

Lemma setFromName_getAsName last i v rest : valid last i v →
  (last = true → rest = []) →
  ∃ name, getAsName i v = Ok name ∧ setFromName i (name ++ rest) = Ok (v, rest).
Proof.
  intros (Hc & Himp & Hv) Hrest.
  assert (Hs : syntax_of v (idx_type i) = true).
  { unfold clone in Hc. by destruct (syntax_of v (idx_type i)). }
  destruct v as [z|s|s|o|o]; cbn [getAsName]; [..|done].
  - eexists; split; [done|]. cbn [app setFromName].
    destruct (idx_type i); try done. munfold. by rewrite Hc.
  - destruct Hv as [Hl Ho]. eexists; split; [done|].
    destruct s as [|a s]; [done|]. cbn [app setFromName].
    destruct (idx_type i); try done. change (a :: s ++ rest) with ((a :: s) ++ rest).
    rewrite take_app_length', drop_app_length', ip_of_name_four by done. munfold. by rewrite Hc.
  - destruct Hv as (Ho & Hne & Hfix). destruct (idx_type i) as [| |[n|]|] eqn:Ht; try done.
    + destruct (Hfix n eq_refl) as [Hl Hn]. eexists; split; [done|].
      destruct s as [|a s]; [cbn in Hl; lia|]. cbn [app setFromName]. rewrite Ht.
      change (a :: s ++ rest) with ((a :: s) ++ rest).
      destruct (impliedFlag i) eqn:Hi.
      * destruct (Himp eq_refl) as [Hlast _]. rewrite (Hrest Hlast), app_nil_r.
        rewrite to_bytes_octets by done. munfold. by rewrite Hc.
      * rewrite take_app_length', drop_app_length', to_bytes_octets by done.
        munfold. by rewrite Hc.
    + destruct (impliedFlag i) eqn:Hi.
      * destruct (Himp eq_refl) as [Hlast _]. rewrite (Hrest Hlast).
        eexists; split; [done|]. rewrite app_nil_r. specialize (Hne eq_refl).
        destruct s as [|a s]; [done|]. cbn [setFromName]. rewrite Ht, Hi.
        rewrite to_bytes_octets by done. munfold. by rewrite Hc.
      * eexists; split; [done|]. cbn [app setFromName]. rewrite Ht, Hi, Nat2Z.id.
        rewrite take_app_length, drop_app_length, to_bytes_octets by done.
        munfold. by rewrite Hc.
  - destruct (idx_type i) eqn:Ht; try done. destruct (impliedFlag i) eqn:Hi.
    + destruct (Himp eq_refl) as [Hlast _]. rewrite (Hrest Hlast).
      eexists; split; [done|]. rewrite app_nil_r. specialize (Hv eq_refl).
      destruct o as [|a o]; [done|]. cbn [setFromName]. rewrite Ht, Hi.
      munfold. by rewrite Hc.
    + eexists; split; [done|]. cbn [app setFromName]. rewrite Ht, Hi, Nat2Z.id.
      rewrite take_app_length, drop_app_length. munfold. by rewrite Hc.
Qed.

Lemma decode_encode names vs : valid_indices names vs →
  ∃ instId, encode names vs = Ok instId ∧ decode names instId = Ok (inr vs).
Proof.
  revert vs; induction names as [|i names IH]; intros [|v vs] Hv; cbn in Hv; try done.
  { by exists []. }
  destruct Hv as [Hv Hvs]. destruct (IH vs Hvs) as (rest & He & Hd).
  destruct (setFromName_getAsName _ i v rest Hv) as (nm & Hn & Hset).
  { destruct names as [|j names']; [|done]. intros _. destruct vs; [|done]. cbn in He. by simplify_eq. }
  destruct (Hv) as (Hc & _ & _). exists (nm ++ rest). cbn [encode decode]. munfold.
  rewrite Hc, Hn, He, Hset, Hd. done.
Qed.

(** ** The caches hold what was computed *)
Record cached_ok (r : MibTableRow) : Prop := {
  co_id : LruCache.wf (idToIdxCache r);
  co_idx : LruCache.wf (idxToIdCache r);
  co_id_ok : ∀ i vs, dget (LruCache.cache (idToIdxCache r)) i = Some vs →
    decode (indexNames r) i = Ok (inr vs);
  co_idx_ok : ∀ vs i, dget (LruCache.cache (idxToIdCache r)) vs = Some i →
    encode (indexNames r) vs = Ok i;
}.

Lemma row_init_ok names : cached_ok (init names).
Proof. split; cbn; try done; apply LruCache.lru_init_wf; lia. Qed.

(** What the two operations return without a cache. *)
Definition indices_of (names : list index) (instId : oid) : result exn (list ival) :=
  d ← decode names instId; mret match d with inl rest => [IRest rest] | inr vs => vs end.

Lemma getIndices_spec r instId : cached_ok r →
  ∃ r', getIndicesFromInstId instId r = (indices_of (indexNames r) instId, r') ∧
    cached_ok r' ∧ indexNames r' = indexNames r.
Proof.
  intros Hok. destruct (Hok) as [Hw1 Hw2 H1 H2].
  unfold getIndicesFromInstId, indices_of, LruCache.contains, din.
  destruct (dget (LruCache.cache (idToIdxCache r)) instId) as [vs|] eqn:E.
  - destruct (LruCache.getitem_ok _ _ _ Hw1 E) as (c & Hg & Hwc & Hc).
    unfold on_idToIdx. munfold. rewrite Hg, (H1 _ _ E). eexists; split; [done|]. split; [|done].
    split; cbn; try done. by rewrite Hc.
  - munfold. destruct (decode (indexNames r) instId) as [[rest|vs]|e] eqn:Hd.
    + by exists r.
    + destruct (LruCache.setitem_ok _ instId vs Hw1) as (c & Hs & Hwc & _ & Hget & Hoth).
      unfold on_idToIdx. munfold. rewrite Hs. eexists; split; [done|]. split; [|done].
      split; cbn; try done. intros i vs'. destruct (decide (i = instId)) as [->|Hne].
      * rewrite Hget. by intros [= <-].
      * rewrite Hoth by done. case_decide; [done|]. apply H1.
    + by exists r.
Qed.

Lemma getInstId_spec r vs : cached_ok r →
  ∃ r', getInstIdFromIndices vs r = (encode (indexNames r) vs, r') ∧
    cached_ok r' ∧ indexNames r' = indexNames r.
Proof.
  intros Hok. destruct (Hok) as [Hw1 Hw2 H1 H2].
  unfold getInstIdFromIndices, on_idxToId. munfold.
  destruct (dget (LruCache.cache (idxToIdCache r)) vs) as [i|] eqn:E.
  - destruct (LruCache.getitem_ok _ _ _ Hw2 E) as (c & Hg & Hwc & Hc).
    rewrite Hg, (H2 _ _ E). eexists; split; [done|]. split; [|done].
    split; cbn; try done. by rewrite Hc.
  - rewrite (LruCache.getitem_miss _ _ Hw2 E). cbn [indexNames idxToIdCache].
    destruct (encode (indexNames r) vs) as [i|e] eqn:Hd.
    + destruct (LruCache.setitem_ok _ vs i Hw2) as (c & Hs & Hwc & _ & Hget & Hoth).
      rewrite Hs. eexists; split; [done|]. split; [|done].
      split; cbn; try done. intros vs' i'. destruct (decide (vs' = vs)) as [->|Hne].
      * rewrite Hget. by intros [= <-].
      * rewrite Hoth by done. case_decide; [done|]. apply H2.
    + eexists; split; [done|]. by destruct r.
Qed.

Lemma row_run_ok names ops : cached_ok (run names ops) ∧ indexNames (run names ops) = names.
Proof.
  unfold run. cut (∀ r, cached_ok r → cached_ok (foldl do_op r ops) ∧
    indexNames (foldl do_op r ops) = indexNames r).
  { intros H. apply H, row_init_ok. }
  induction ops as [|o ops IH]; intros r Hr; cbn; [done|].
  assert (cached_ok (do_op r o) ∧ indexNames (do_op r o) = indexNames r) as [Ho Hn].
  { destruct o as [i|vs]; cbn.
    - by destruct (getIndices_spec r i Hr) as (r' & -> & ? & ?).
    - by destruct (getInstId_spec r vs Hr) as (r' & -> & ? & ?). }
  destruct (IH _ Ho) as [? ->]. done.
Qed.

(** ** Properties *)

(** Index round trip: naming a row by its index values and parsing the name
    gives the values back, whatever mix of integers, addresses, strings (of fixed or
    of variable length) and object identifiers the INDEX clause has, with IMPLIED
    allowed on the last. *)
Theorem index_roundtrip names ops vs : valid_indices names vs →
  ∃ instId r, getInstIdFromIndices vs (run names ops) = (Ok instId, r) ∧
    (getIndicesFromInstId instId r).1 = Ok vs.
Proof.
  intros Hv. destruct (decode_encode names vs Hv) as (instId & He & Hd).
  destruct (row_run_ok names ops) as [Hok Hn].
  destruct (getInstId_spec _ vs Hok) as (r & Hg & Hokr & Hnr). rewrite Hn in *.
  exists instId, r. split; [by rewrite Hg, He|].
  destruct (getIndices_spec r instId Hokr) as (r' & -> & _ & _). cbn.
  rewrite Hnr. unfold indices_of. by rewrite Hd.
Qed.

(** The caches cannot be seen: after any history of lookups, hits, misses and
    evictions, both directions answer what a row without caches computes, errors
    included. *)
Theorem index_caches_transparent names ops instId vs :
  (getIndicesFromInstId instId (run names ops)).1 = indices_of names instId ∧
  (getInstIdFromIndices vs (run names ops)).1 = encode names vs.
Proof.
  destruct (row_run_ok names ops) as [Hok Hn]. split.
  - destruct (getIndices_spec _ instId Hok) as (r & -> & _). by rewrite Hn.
  - destruct (getInstId_spec _ vs Hok) as (r & -> & _). by rewrite Hn.
Qed.

(** vacmAccessEntry: a group name, a context prefix, a model and a level *)
Definition any_value (v : ival) : bool := true.
Definition demo_names : list index :=
  [mk_index false (SOctetString None) any_value; mk_index false (SOctetString None) any_value;
   mk_index false SInteger any_value; mk_index true (SOctetString None) any_value].
Definition demo_indices : list ival := [IStr [103; 49]; IStr []; IInt 3; IStr [97]].

Lemma index_roundtrip_witness :
  ∃ r, getInstIdFromIndices demo_indices (run demo_names [])
      = (Ok [2; 103; 49; 0; 3; 97], r) ∧
    (getIndicesFromInstId [2; 103; 49; 0; 3; 97] r).1 = Ok demo_indices.
Proof.
  destruct (index_roundtrip demo_names [] demo_indices) as (i & r & H1 & H2).
  - cbn. unfold valid, is_octets, is_octet. cbn.
    repeat match goal with
      | |- _ ∧ _ => split | |- ∀ _, _ => intros ? | |- Forall _ _ => constructor
      end; done || lia.
  - exists r. assert (i = [2; 103; 49; 0; 3; 97]) as ->.
    { vm_compute in H1. by injection H1. }
    split; [exact H1|exact H2].
Defined.
End TableIndex.
