(* ===== verification/Vacm.v ===== *)
(** * View-based access control (src/pysnmp/proto/acmod)

    [Vacm] is the model of rfc3415.py: four tables of the MIB are read into
    maps that are kept while the version of one column of the table stays the
    same, and a decision walks the maps.  [Void] is the model that allows
    everything.  The MIB is an argument of every call. *)
From S2P Require Export Column TableIndex.

(** ** proto/acmod/void.py *)
Module Void.
Definition isAccessAllowed : result exn (option status) := Ok (Some (status_of accessAllowed)).
End Void.

(** ** proto/acmod/rfc3415.py *)
Module Vacm.
Abbreviation column := Column.column.
Abbreviation ival := TableIndex.ival.

(** The columns and rows of SNMP-VIEW-BASED-ACM-MIB the model imports. *)
Record vacm_mib : Type := mk_mib {
  vacmContextName : column octets;
  vacmSecurityToGroupEntry : list TableIndex.index;
  vacmGroupName : column octets;
  vacmAccessEntry : list TableIndex.index;
  vacmAccessContextPrefix : column octets;
  vacmAccessSecurityModel : column Z;
  vacmAccessSecurityLevel : column Z;
  vacmAccessContextMatch : column Z;
  vacmAccessReadViewName : column octets;
  vacmAccessWriteViewName : column octets;
  vacmAccessNotifyViewName : column octets;
  vacmAccessStatus : column Z;
  vacmViewTreeFamilyViewName : column octets;
  vacmViewTreeFamilySubtree : column oid;
  vacmViewTreeFamilyMask : column octets;
  vacmViewTreeFamilyType : column Z;
}.

(** ** The maps *)
Abbreviation levels := (dict Z octets).
Abbreviation models := (dict Z levels).
Abbreviation contexts := (dict octets models).
Abbreviation matches := (dict Z contexts).
Abbreviation views := (dict string matches).

(** A family of the view tree: the pattern, the positions the mask leaves out,
    and whether the family is included. *)
Abbreviation family := (oid * list nat * bool)%type.

Record Vacm : Type := mk_Vacm {
  contextBranchId : Z;
  groupNameBranchId : Z;
  accessBranchId : Z;
  viewTreeBranchId : Z;
  contextMap : dict octets bool;
  groupNameMap : dict (list ival) octets;
  accessMap : dict ival views;
  viewTreeMap : dict octets (list family);
}.

(** [Vacm.__init__] *)
Definition init : Vacm := mk_Vacm (-1) (-1) (-1) (-1) [] [] [] [].

Definition set_context (f : dict octets bool → dict octets bool) (b : Z) (st : Vacm) : Vacm :=
  mk_Vacm b (groupNameBranchId st) (accessBranchId st) (viewTreeBranchId st)
    (f (contextMap st)) (groupNameMap st) (accessMap st) (viewTreeMap st).
Definition set_group (f : dict (list ival) octets → dict (list ival) octets) (b : Z)
    (st : Vacm) : Vacm :=
  mk_Vacm (contextBranchId st) b (accessBranchId st) (viewTreeBranchId st)
    (contextMap st) (f (groupNameMap st)) (accessMap st) (viewTreeMap st).
Definition set_access (f : dict ival views → dict ival views) (b : Z) (st : Vacm) : Vacm :=
  mk_Vacm (contextBranchId st) (groupNameBranchId st) b (viewTreeBranchId st)
    (contextMap st) (groupNameMap st) (f (accessMap st)) (viewTreeMap st).
Definition set_view (f : dict octets (list family) → dict octets (list family)) (b : Z)
    (st : Vacm) : Vacm :=
  mk_Vacm (contextBranchId st) (groupNameBranchId st) (accessBranchId st) b
    (contextMap st) (groupNameMap st) (accessMap st) (f (viewTreeMap st)).

(** ** [_addAccessEntry] *)

(** [try: x = d[k] except KeyError: x = d[k] = {}], and [f] done to [x]. *)
Definition dupd {K V} `{EqDecision K} (d : dict K (list V)) (k : K) (f : list V → list V) :
    dict K (list V) :=
  dset d k (f (default [] (dget d k))).

Definition add_match (prefixMatch : Z) (contextPrefix : octets) (securityModel securityLevel : Z)
    (viewName : octets) (m : matches) : matches :=
  dupd m prefixMatch (λ names,
    dupd names contextPrefix (λ mods,
      dupd mods securityModel (λ levs,
        dset levs securityLevel viewName))).

(** [not groupName] *)
Definition truthy (v : ival) : bool :=
  match v with
  | TableIndex.IInt z => negb (z =? 0)
  | TableIndex.IIpAddress s | TableIndex.IStr s => negb (length s =? 0)%nat
  | TableIndex.IOid o | TableIndex.IRest o => negb (length o =? 0)%nat
  end.

Definition addAccessEntry (groupName : ival) (contextPrefix : octets)
    (securityModel securityLevel prefixMatch : Z) (readView writeView notifyView : octets)
    (groups : dict ival views) : dict ival views :=
  if negb (truthy groupName) then groups
  else
    dupd groups groupName (λ vs,
      foldl (λ vs '(viewType, viewName),
          dupd vs viewType (add_match prefixMatch contextPrefix securityModel securityLevel
                              viewName))
        vs [("read"%string, readView); ("write"%string, writeView);
            ("notify"%string, notifyView)]).

(** ** [_getFamilyViewName] *)

(** The fuzzy look-up of one view type: the candidates in the order of the
    loops.  A candidate compares by model, context, prefix length and level, and
    then by the view name. *)
Definition candidate (contextName : octets) (securityModel : Z)
    (context : octets) (model level : Z) (viewName : octets) : list Z :=
  [Z.b2z (securityModel =? model); Z.b2z (bool_decide (contextName = context));
   Z.of_nat (length context); level] ++ viewName.

Definition context_fits (mtch : Z) (contextName context : octets) : bool :=
  negb ((mtch =? 1) && negb (bool_decide (contextName = context))) &&
  negb ((mtch =? 2) && negb (bool_decide (take (length context) contextName = context))).

(** [for match, names in matches.items(): for context, models in names.items(): ...] *)
Definition entries (m : matches) : list (Z * octets * Z * Z * octets) :=
  m ≫= λ '(mtch, names),
    names ≫= λ '(context, mods),
      mods ≫= λ '(model, levs),
        (λ '(level, viewName), (mtch, context, model, level, viewName)) <$> levs.

Definition eligible (contextName : octets) (securityModel securityLevel : Z)
    (e : Z * octets * Z * Z * octets) : bool :=
  let '(mtch, context, model, level, _) := e in
  context_fits mtch contextName context &&
  ((model =? securityModel) || (model =? 0)) && negb (securityLevel <? level).

(** [if bestCandidate is None or candidate > bestCandidate] *)
Definition better (contextName : octets) (securityModel : Z)
    (best : option (list Z * octets)) (e : Z * octets * Z * Z * octets) :
    option (list Z * octets) :=
  let '(_, context, model, level, viewName) := e in
  let c := candidate contextName securityModel context model level viewName in
  match best with
  | None => Some (c, viewName)
  | Some (b, _) => if tuple_ltb b c then Some (c, viewName) else best
  end.

Definition fuzzy (m : matches) (contextName : octets) (securityModel securityLevel : Z) :
    option octets :=
  snd <$> foldl (better contextName securityModel) None
    (filter (λ e, eligible contextName securityModel securityLevel e = true) (entries m)).

(** [matches[1][contextName][securityModel][securityLevel]] *)
Definition exact (m : matches) (contextName : octets) (securityModel securityLevel : Z) :
    option octets :=
  names ← dget m 1; mods ← dget names contextName; levs ← dget mods securityModel;
  dget levs securityLevel.

Definition getFamilyViewName (st : Vacm) (groupName contextName : octets)
    (securityModel securityLevel : Z) (viewType : string) : result exn octets :=
  match dget (accessMap st) (TableIndex.IStr groupName) with
  | None => Err (StatusInfo noGroupName)
  | Some vs =>
      match dget vs viewType with
      | None => Err (StatusInfo noAccessEntry)
      | Some m =>
          match exact m contextName securityModel securityLevel with
          | Some v => Ok v
          | None =>
              match fuzzy m contextName securityModel securityLevel with
              | None => Err (StatusInfo notInView)
              | Some v => Ok v
              end
          end
      end
  end.

(** ** Rebuilding the maps

    Each part of [isAccessAllowed] below reads a column with the loop
    [Column.for_each]; an exception in the loop leaves the map half built and
    the version not recorded. *)

(** [node.name[len(col.name):]] *)
Definition instance_id {V} (col : column V) (n : oid) : oid := drop (length (Column.name col)) n.

(** [col.getNode(col.name + instId).syntax] *)
Definition cell {V} (col : column V) (instId : oid) : result exn V :=
  nv ← Column.getNode col (Column.name col ++ instId); mret nv.2.

Definition rebuild_contextMap (mib : vacm_mib) : M exn Vacm unit := fun st =>
  let col := vacmContextName mib in
  (if negb (contextBranchId st =? Column.branchVersionId col) then
     modify (λ st, set_context (λ _, []) (contextBranchId st) st);;
     Column.for_each col (λ _ syntax,
       modify (λ st, set_context (λ d, dset d syntax true) (contextBranchId st) st));;
     modify (λ st, set_context (λ d, d) (Column.branchVersionId col) st)
   else mret tt) st.

Definition rebuild_groupNameMap (mib : vacm_mib) : M exn Vacm unit := fun st =>
  let col := vacmGroupName mib in
  (if negb (groupNameBranchId st =? Column.branchVersionId col) then
     modify (λ st, set_group (λ _, []) (groupNameBranchId st) st);;
     Column.for_each col (λ name syntax,
       indices ← liftR (TableIndex.indices_of (vacmSecurityToGroupEntry mib)
                          (instance_id col name));
       modify (λ st, set_group (λ d, dset d indices syntax) (groupNameBranchId st) st));;
     modify (λ st, set_group (λ d, d) (Column.branchVersionId col) st)
   else mret tt) st.

(** One round of the loop over vacmAccessStatus. *)
Definition add_access_row (mib : vacm_mib) (name : oid) (rowStatus : Z) :
    M exn Vacm unit := fun st =>
  (if negb (rowStatus =? 1) then mret tt
   else
     let instId := instance_id (vacmAccessStatus mib) name in
     indices ← liftR (TableIndex.indices_of (vacmAccessEntry mib) instId);
     match indices with
     | [] => raise IndexError
     | groupName :: _ =>
         context ← liftR (cell (vacmAccessContextPrefix mib) instId);
         model ← liftR (cell (vacmAccessSecurityModel mib) instId);
         level ← liftR (cell (vacmAccessSecurityLevel mib) instId);
         mtch ← liftR (cell (vacmAccessContextMatch mib) instId);
         readView ← liftR (cell (vacmAccessReadViewName mib) instId);
         writeView ← liftR (cell (vacmAccessWriteViewName mib) instId);
         notifyView ← liftR (cell (vacmAccessNotifyViewName mib) instId);
         modify (λ st, set_access
           (addAccessEntry groupName context model level mtch readView writeView notifyView)
           (accessBranchId st) st)
     end) st.

Definition rebuild_accessMap (mib : vacm_mib) : M exn Vacm unit := fun st =>
  let col := vacmAccessStatus mib in
  (if negb (accessBranchId st =? Column.branchVersionId col) then
     modify (λ st, set_access (λ _, []) (accessBranchId st) st);;
     Column.for_each col (add_access_row mib);;
     modify (λ st, set_access (λ d, d) (Column.branchVersionId col) st)
   else mret tt) st.

(** [powerOfTwo = [2**exp for exp in range(7, -1, -1)]] *)
Definition powerOfTwo : list Z := [128; 64; 32; 16; 8; 4; 2; 1].

(** The positions of the subtree the mask leaves out. *)
Definition ignoredSubOids (mask : octets) (subtree : oid) : list nat :=
  let maskLength := ((length mask * 8) `min` length subtree)%nat in
  concat (imap (λ i octet,
    omap id (imap (λ j bit,
        if (Z.land bit octet =? 0) && (i * 8 + j <? maskLength)%nat
        then Some (i * 8 + j)%nat else None) powerOfTwo)) mask).

(** [entry = subtree, ignoredSubOids, mode == 1], the pattern zeroed where ignored *)
Definition family_of (subtree : oid) (mask : octets) (mode : Z) : family :=
  let ignored := ignoredSubOids mask subtree in
  (foldl (λ p i, <[i := 0]> p) subtree ignored, ignored, mode =? 1).

Definition add_family (mib : vacm_mib) (name : oid) (viewName : octets) :
    M exn Vacm unit := fun st =>
  (modify (λ st, set_view
     (λ d, if din d viewName then d else dset d viewName []) (viewTreeBranchId st) st);;
   let instId := instance_id (vacmViewTreeFamilyViewName mib) name in
   subtree ← liftR (cell (vacmViewTreeFamilySubtree mib) instId);
   mask ← liftR (cell (vacmViewTreeFamilyMask mib) instId);
   mode ← liftR (cell (vacmViewTreeFamilyType mib) instId);
   modify (λ st, set_view
     (λ d, dset d viewName (default [] (dget d viewName) ++ [family_of subtree mask mode]))
     (viewTreeBranchId st) st)) st.

(** [entries.sort(key=lambda x: (len(x[0]), x[0]))] *)
Definition family_key (f : family) : list Z := Z.of_nat (length f.1.1) :: f.1.1.
Definition sort_families (l : list family) : list family := sorted_by tuple_leb family_key l.

Definition sort_map (d : dict octets (list family)) : dict octets (list family) :=
  (λ kv, (kv.1, sort_families kv.2)) <$> d.

Definition rebuild_viewTreeMap (mib : vacm_mib) : M exn Vacm unit := fun st =>
  let col := vacmViewTreeFamilyViewName mib in
  (if negb (viewTreeBranchId st =? Column.branchVersionId col) then
     modify (λ st, set_view (λ _, []) (viewTreeBranchId st) st);;
     Column.for_each col (add_family mib);;
     modify (λ st, set_view sort_map (viewTreeBranchId st) st);;
     modify (λ st, set_view (λ d, d) (Column.branchVersionId col) st)
   else mret tt) st.

(** ** The decision *)

(** [subOids[ignoredSubOid] = 0] for every ignored position *)
Fixpoint zero_at (ignored : list nat) (subOids : oid) : result exn oid :=
  match ignored with
  | [] => Ok subOids
  | i :: ignored' =>
      if (i <? length subOids)%nat then zero_at ignored' (<[i := 0]> subOids)
      else Err IndexError
  end.

(** [ObjectIdentifier.isPrefixOf] *)
Definition isPrefixOf (self other : oid) : bool := bool_decide (self `prefix_of` other).

(** The loop of 3.2.5: the last family that covers the name decides. *)
Fixpoint decide_loop (fams : list family) (variableName : oid) (allowed : bool) :
    result exn bool :=
  match fams with
  | [] => Ok allowed
  | (subtree, ignored, included) :: fams' =>
      normalized ← zero_at ignored variableName;
      decide_loop fams' variableName (if isPrefixOf subtree normalized then included else allowed)
  end.

(** [isAccessAllowed]: [None] is falling off the end. *)
Definition isAccessAllowed (mib : vacm_mib) (securityModel : Z) (securityName : octets)
    (securityLevel : Z) (viewType : string) (contextName : octets) (variableName : oid) :
    M exn Vacm (option status) :=
  rebuild_contextMap mib;;
  contextMap ← gets contextMap;
  if negb (din contextMap contextName) then raise (StatusInfo noSuchContext)
  else
    rebuild_groupNameMap mib;;
    groups ← gets groupNameMap;
    match dget groups [TableIndex.IInt securityModel; TableIndex.IStr securityName] with
    | None => raise (StatusInfo noGroupName)
    | Some groupName =>
        rebuild_accessMap mib;;
        st ← gets id;
        viewName ← liftR (getFamilyViewName st groupName contextName securityModel
                            securityLevel viewType);
        rebuild_viewTreeMap mib;;
        viewTreeMap ← gets viewTreeMap;
        match dget viewTreeMap viewName with
        | None => mret (Some (status_of notInView))
        | Some fams =>
            accessAllowed ← liftR (decide_loop fams variableName false);
            if negb accessAllowed then raise (StatusInfo notInView) else mret None
        end
    end.

(** ** Nested dictionaries as lists of entries *)
Section flat.
Context {K X E : Type} `{EqDecision K} (g : K → X → list E).

Definition flat (d : dict K X) : list E := d ≫= λ '(k, x), g k x.

Lemma flat_elem d k x e : dget d k = Some x → e ∈ g k x → e ∈ flat d.
Proof.
  induction d as [|[k' x'] d IH]; cbn; [done|]. intros Hx He. apply elem_of_app.
  case_decide; simplify_eq; [by left|right; by apply IH].
Qed.

Lemma flat_dset_None d k x : dget d k = None → flat (dset d k x) ≡ₚ g k x ++ flat d.
Proof.
  induction d as [|[k' x'] d IH]; cbn; [by rewrite app_nil_r|]. case_decide; [done|].
  intros Hx. cbn. change (g k' x' ++ flat (dset d k x) ≡ₚ g k x ++ g k' x' ++ flat d).
  rewrite (IH Hx). by rewrite !app_assoc, (Permutation_app_comm (g k' x')).
Qed.

Lemma flat_dset_Some d k x0 : dget d k = Some x0 →
  ∃ rest, flat d ≡ₚ g k x0 ++ rest ∧ ∀ x, flat (dset d k x) ≡ₚ g k x ++ rest.
Proof.
  induction d as [|[k' x'] d IH]; cbn; [done|]. case_decide as Hk.
  - intros [= <-]. subst. by exists (flat d).
  - intros Hx. destruct (IH Hx) as (rest & H1 & H2). exists (g k' x' ++ rest). split.
    + change (g k' x' ++ flat d ≡ₚ g k x0 ++ g k' x' ++ rest).
      rewrite H1. by rewrite !app_assoc, (Permutation_app_comm (g k' x')).
    + intros x. change (g k' x' ++ flat (dset d k x) ≡ₚ g k x ++ g k' x' ++ rest).
      rewrite H2. by rewrite !app_assoc, (Permutation_app_comm (g k' x')).
Qed.
End flat.

Lemma flat_dupd {K V E} `{EqDecision K} (g : K → list V → list E) (d : dict K (list V)) k f e :
  g k [] = [] → g k (f (default [] (dget d k))) ≡ₚ e :: g k (default [] (dget d k)) →
  flat g (dupd d k f) ≡ₚ e :: flat g d.
Proof.
  intros Hnil Hf. unfold dupd. destruct (dget d k) as [x|] eqn:Hd; cbn [default id] in *.
  - destruct (flat_dset_Some g d k x Hd) as (rest & H1 & H2). by rewrite H2, Hf, H1.
  - rewrite flat_dset_None by done. by rewrite Hf, Hnil.
Qed.

(** The entries of one level of the nesting. *)
Abbreviation entry := (Z * octets * Z * Z * octets)%type.
Definition lev_entries (mtch : Z) (context : octets) (model : Z) : levels → list entry :=
  flat (λ level viewName, [(mtch, context, model, level, viewName)]).
Definition mod_entries (mtch : Z) (context : octets) : models → list entry :=
  flat (λ model levs, lev_entries mtch context model levs).
Definition ctx_entries (mtch : Z) : contexts → list entry :=
  flat (λ context mods, mod_entries mtch context mods).

Lemma entries_flat m : entries m = flat (λ mtch names, ctx_entries mtch names) m.
Proof.
  assert (Hl : ∀ a b c (levs : levels),
    (λ '(level, viewName), (a, b, c, level, viewName)) <$> levs = lev_entries a b c levs).
  { intros a b c. induction levs as [|[l v] levs IH]; [done|]. cbn. by rewrite IH. }
  assert (Hm : ∀ a b (mods : models),
    (mods ≫= λ '(model, levs),
      (λ '(level, viewName), (a, b, model, level, viewName)) <$> levs) = mod_entries a b mods).
  { intros a b. induction mods as [|[m' l] mods IH]; [done|]. cbn. by rewrite IH, Hl. }
  unfold entries, ctx_entries. induction m as [|[mt names] m IH]; [done|].
  cbn. rewrite IH. f_equal. clear IH. induction names as [|[c mods] names IH]; [done|].
  cbn. by rewrite IH, Hm.
Qed.

Definition entry_key (e : entry) : octets * Z * Z := let '(_, c, m, l, _) := e in (c, m, l).

Lemma add_match_entries mtch c md l v m :
  (∀ v', (mtch, c, md, l, v') ∉ entries m) →
  entries (add_match mtch c md l v m) ≡ₚ (mtch, c, md, l, v) :: entries m.
Proof.
  rewrite !entries_flat. intros Hn. unfold add_match.
  apply flat_dupd; [done|]. unfold ctx_entries at 1 2. apply flat_dupd; [done|].
  unfold mod_entries at 1 2. apply flat_dupd; [done|]. unfold lev_entries.
  rewrite flat_dset_None; [done|].
  destruct (dget _ l) as [v'|] eqn:Hv; [exfalso|done]. apply (Hn v').
  destruct (dget m mtch) as [names|] eqn:H1; cbn [default id] in Hv; [|done].
  destruct (dget names c) as [mods|] eqn:H2; cbn [default id] in Hv; [|done].
  destruct (dget mods md) as [levs|] eqn:H3; cbn [default id] in Hv; [|done].
  eapply flat_elem; [done|]. eapply flat_elem; [done|]. eapply flat_elem; [done|].
  eapply flat_elem; [done|]. set_solver.
Qed.

Lemma exact_entry m c md l v : exact m c md l = Some v → (1, c, md, l, v) ∈ entries m.
Proof.
  unfold exact. rewrite entries_flat. cbn. intros H.
  destruct (dget m 1) as [names|] eqn:H1; cbn in H; [|done].
  destruct (dget names c) as [mods|] eqn:H2; cbn in H; [|done].
  destruct (dget mods md) as [levs|] eqn:H3; cbn in H; [|done].
  eapply flat_elem; [done|]. eapply flat_elem; [done|]. eapply flat_elem; [done|].
  eapply flat_elem; [done|]. set_solver.
Qed.

(** ** The access table as a list of rows *)
Record access_row : Type := mk_access {
  r_group : ival;
  r_context : octets;
  r_model : Z;
  r_level : Z;
  r_match : Z;
  r_read : octets;
  r_write : octets;
  r_notify : octets;
}.

Definition r_view (r : access_row) (viewType : string) : octets :=
  if decide (viewType = "read"%string) then r_read r
  else if decide (viewType = "write"%string) then r_write r else r_notify r.
Definition view_types : list string := ["read"; "write"; "notify"]%string.

Definition add_row (groups : dict ival views) (r : access_row) : dict ival views :=
  addAccessEntry (r_group r) (r_context r) (r_model r) (r_level r) (r_match r)
    (r_read r) (r_write r) (r_notify r) groups.
Definition access_map (rows : list access_row) : dict ival views := foldl add_row [] rows.

Definition row_entry (viewType : string) (r : access_row) : entry :=
  (r_match r, r_context r, r_model r, r_level r, r_view r viewType).
Definition rows_of (g : ival) (rows : list access_row) : list access_row :=
  filter (λ r, r_group r = g) rows.

(** Where a view type of a group leads. *)
Lemma add_row_same groups r vt : truthy (r_group r) = true → vt ∈ view_types →
  ∃ vs, dget (add_row groups r) (r_group r) = Some vs ∧
    dget vs vt = Some (add_match (r_match r) (r_context r) (r_model r) (r_level r) (r_view r vt)
      (default [] (dget (default [] (dget groups (r_group r))) vt))).
Proof.
  intros Ht Hvt. unfold add_row, addAccessEntry. rewrite Ht. cbn [negb].
  unfold dupd at 1. rewrite dget_dset_eq. eexists; split; [done|].
  set (vs := default [] (dget groups (r_group r))). cbn [foldl]. unfold dupd.
  unfold view_types in Hvt. unfold r_view.
  repeat (apply elem_of_cons in Hvt as [->|Hvt]); [..|by apply elem_of_nil in Hvt];
    repeat (first [rewrite dget_dset_ne by done | rewrite dget_dset_eq]); reflexivity.
Qed.

Lemma add_row_other groups r g : r_group r ≠ g →
  dget (add_row groups r) g = dget groups g.
Proof.
  intros Hg. unfold add_row, addAccessEntry. case_match; [done|].
  unfold dupd at 1. by apply dget_dset_ne.
Qed.

(** The map holds exactly the rows of a group. *)
Lemma access_map_spec g rows vt : truthy g = true → vt ∈ view_types →
  NoDup ((λ r, (r_context r, r_model r, r_level r)) <$> rows_of g rows) →
  match dget (access_map rows) g with
  | None => rows_of g rows = []
  | Some vs => ∃ m, dget vs vt = Some m ∧ entries m ≡ₚ row_entry vt <$> rows_of g rows
  end.
Proof.
  intros Ht Hvt. unfold access_map. induction rows as [|r rows IH] using rev_ind; [done|].
  unfold rows_of. rewrite filter_app, foldl_app. cbn [foldl]. fold (rows_of g rows).
  rewrite filter_cons. destruct (decide (r_group r = g)) as [Hg|Hg].
  2: { cbn. rewrite app_nil_r, add_row_other by done. exact IH. }
  cbn [filter list_filter]. rewrite fmap_app. intros Hnd.
  apply NoDup_app in Hnd as (Hnd & Hdisj & _). specialize (IH Hnd).
  subst g. destruct (add_row_same (foldl add_row [] rows) r vt Ht Hvt) as (vs & Hvs & Hm).
  rewrite Hvs. eexists; split; [exact Hm|]. rewrite fmap_app. cbn [fmap list_fmap].
  rewrite Permutation_app_comm. cbn [app].
  assert (Hent : entries (default [] (dget (default []
      (dget (foldl add_row [] rows) (r_group r))) vt)) ≡ₚ
      row_entry vt <$> rows_of (r_group r) rows).
  { destruct (dget (foldl add_row [] rows) (r_group r)) as [vs0|]; cbn [default id].
    - destruct IH as (m & -> & Hp). exact Hp.
    - by rewrite IH. }
  rewrite add_match_entries.
  - unfold row_entry at 1. by constructor.
  - intros v'. rewrite Hent. intros (r' & He & Hin)%list_elem_of_fmap.
    apply (Hdisj (r_context r, r_model r, r_level r)); [|left].
    apply list_elem_of_fmap. exists r'. split; [|done]. unfold row_entry in He. cbn. congruence.
Qed.

(** ** The choice among the candidates *)
Section choice.
Context (contextName : octets) (securityModel securityLevel : Z).

(** RFC 3415, 4: prefer the model, then the exact context, then the longer
    prefix, then the higher level. *)
Definition preference (context : octets) (model level : Z) : list Z :=
  [Z.b2z (securityModel =? model); Z.b2z (bool_decide (contextName = context));
   Z.of_nat (length context); level].

Definition e_candidate (e : entry) : list Z :=
  let '(_, c, m, l, v) := e in candidate contextName securityModel c m l v.

Lemma best_spec (es : list entry) :
  match foldl (better contextName securityModel) None es with
  | None => es = []
  | Some (c, v) => ∃ e, e ∈ es ∧ e_candidate e = c ∧ e.2 = v ∧
      ∀ e', e' ∈ es → tuple_leb (e_candidate e') c = true
  end.
Proof.
  induction es as [|e es IH] using rev_ind; [done|]. rewrite foldl_app. cbn [foldl].
  destruct e as [[[[mt ctx] md] lv] v]. unfold better at 1.
  set (c0 := candidate contextName securityModel ctx md lv v).
  destruct (foldl (better contextName securityModel) None es) as [[c v']|].
  - destruct IH as (e & He & Hc & Hv & Hmax). destruct (tuple_ltb c c0) eqn:Hlt.
    + exists (mt, ctx, md, lv, v). split_and!; [set_solver|done|done|].
      intros e' [He'|He'%list_elem_of_singleton]%elem_of_app; [|subst; apply leb_refl].
      eapply leb_trans; [by apply Hmax|by apply tuple_ltb_weaken].
    + exists e. split_and!; [set_solver|done|done|].
      intros e' [He'|He'%list_elem_of_singleton]%elem_of_app; [by apply Hmax|]. subst e'.
      by apply tuple_ltb_ge in Hlt.
  - subst es. exists (mt, ctx, md, lv, v). split_and!; [set_solver|done|done|].
    intros e' He'%list_elem_of_singleton. subst. apply leb_refl.
Qed.

Lemma tuple_leb_app_inv k k' v v' : length k = length k' →
  tuple_leb (k ++ v) (k' ++ v') = true → tuple_leb k k' = true.
Proof.
  revert k'; induction k as [|x k IH]; intros [|y k']; cbn; try done. intros [= Hl].
  unfold tuple_leb in *. cbn. destruct (x ?= y); [by apply IH|done|done].
Qed.

(** Eligible rows with the same preference have the same index. *)
Lemma preference_inj (e e' : entry) :
  eligible contextName securityModel securityLevel e = true →
  eligible contextName securityModel securityLevel e' = true →
  (e.1.1.1.1 = 1 ∨ e.1.1.1.1 = 2) → (e'.1.1.1.1 = 1 ∨ e'.1.1.1.1 = 2) →
  (let '(_, c, m, l, _) := e in preference c m l) =
  (let '(_, c, m, l, _) := e' in preference c m l) → entry_key e = entry_key e'.
Proof.
  destruct e as [[[[mt c] m] l] v], e' as [[[[mt' c'] m'] l'] v']. cbn.
  assert (Hfit : ∀ mt c, mt = 1 ∨ mt = 2 → context_fits mt contextName c = true →
    take (length c) contextName = c).
  { intros ? ? [-> | ->]; unfold context_fits; cbn; rewrite ?andb_true_r, negb_involutive;
      intros H%bool_decide_eq_true; subst; [by apply take_ge|done]. }
  intros [[H1 H2]%andb_true_iff H3]%andb_true_iff [[H1' H2']%andb_true_iff H3']%andb_true_iff
    Hm Hm'. unfold preference. intros [= Hb _ Hlen Hlev].
  apply Nat2Z.inj in Hlen. rewrite <- (Hfit mt c), <- (Hfit mt' c'), Hlen, Hlev by done.
  f_equal. f_equal. destruct (Z.eqb_spec securityModel m), (Z.eqb_spec securityModel m');
    cbn in Hb; try lia; apply orb_true_iff in H2, H2';
    rewrite !Z.eqb_eq in *; lia.
Qed.
End choice.

(** The rows of a group a request may use. *)
Definition row_eligible (contextName : octets) (securityModel securityLevel : Z)
    (r : access_row) : bool :=
  eligible contextName securityModel securityLevel (row_entry "" r).
Definition row_preference (contextName : octets) (securityModel : Z) (r : access_row) : list Z :=
  preference contextName securityModel (r_context r) (r_model r) (r_level r).

Lemma eligible_row vt contextName sm sl r :
  eligible contextName sm sl (row_entry vt r) = row_eligible contextName sm sl r.
Proof. done. Qed.

(** What the table says of a well-formed group: no two rows share an index, and
    the match is exact or prefix. *)
Record group_ok (g : ival) (rows : list access_row) : Prop := {
  go_truthy : truthy g = true;
  go_index : NoDup ((λ r, (r_context r, r_model r, r_level r)) <$> rows_of g rows);
  go_match : ∀ r, r ∈ rows_of g rows → r_match r = 1 ∨ r_match r = 2;
}.

(** The choice, on the rows. *)
Definition is_best (ctx : octets) (sm sl : Z) (rows : list access_row) (r : access_row) : Prop :=
  r ∈ rows ∧ row_eligible ctx sm sl r = true ∧
  ∀ r', r' ∈ rows → row_eligible ctx sm sl r' = true →
    r' = r ∨ tuple_ltb (row_preference ctx sm r') (row_preference ctx sm r) = true.

Lemma row_key_inj g rows r r' : group_ok g rows → r ∈ rows_of g rows → r' ∈ rows_of g rows →
  (r_context r, r_model r, r_level r) = (r_context r', r_model r', r_level r') → r = r'.
Proof.
  intros Hg Hr Hr' Heq. apply list_elem_of_lookup_1 in Hr as [i Hi], Hr' as [j Hj].
  assert (i = j) as ->; [|congruence].
  eapply (NoDup_lookup _ _ _ _ (go_index _ _ Hg)); rewrite list_lookup_fmap.
  - rewrite Hi. done.
  - rewrite Hj. cbn. by rewrite <- Heq.
Qed.

(** A row no eligible row is preferred to is the best one. *)
Lemma best_of_max g rows ctx sm sl r : group_ok g rows → r ∈ rows_of g rows →
  row_eligible ctx sm sl r = true →
  (∀ r', r' ∈ rows_of g rows → row_eligible ctx sm sl r' = true →
    tuple_leb (row_preference ctx sm r') (row_preference ctx sm r) = true) →
  is_best ctx sm sl (rows_of g rows) r.
Proof.
  intros Hg Hr He Hmax. split_and!; [done|done|]. intros r' Hr' He'.
  destruct (tuple_ltb (row_preference ctx sm r') (row_preference ctx sm r)) eqn:Hlt;
    [by right|left].
  apply tuple_ltb_ge in Hlt. pose proof (tuple_leb_antisym _ _ Hlt (Hmax r' Hr' He')) as Heq.
  eapply row_key_inj; [done|done|done|]. symmetry.
  apply (preference_inj ctx sm sl (row_entry "" r) (row_entry "" r')); try done;
    by eapply go_match.
Qed.

(** A row that matches exactly is preferred to every other. *)
Lemma exact_preferred ctx sm sl r r' :
  r_context r = ctx → r_model r = sm → r_level r = sl →
  row_eligible ctx sm sl r' = true → (r_match r' = 1 ∨ r_match r' = 2) →
  tuple_leb (row_preference ctx sm r') (row_preference ctx sm r) = true.
Proof.
  intros <- <- <- [[Hf Hm]%andb_true_iff Hl]%andb_true_iff Hmt.
  unfold row_preference, preference, tuple_leb. cbn [tuple_compare].
  rewrite Z.eqb_refl, (bool_decide_true (r_context r = r_context r)) by done.
  destruct (r_model r =? r_model r'); [|done]. cbn [Z.b2z Z.compare].
  case_bool_decide as Hc; [|done]. cbn [Z.b2z Z.compare Pos.compare Pos.compare_cont].
  rewrite <- Hc, Z.compare_refl. bool_to_prop.
  destruct (Z.compare_spec (r_level r') (r_level r)); (done || lia).
Qed.

(** ** The maps as functions of the MIB *)
Definition build_contextMap (mib : vacm_mib) : dict octets bool :=
  foldl (λ d kv, dset d kv.2 true) [] (Column.nodes (vacmContextName mib)).

Definition group_step (mib : vacm_mib) (kv : oid * octets) (d : dict (list ival) octets) :
    result exn (dict (list ival) octets) :=
  indices ← TableIndex.indices_of (vacmSecurityToGroupEntry mib)
              (instance_id (vacmGroupName mib) kv.1);
  mret (dset d indices kv.2).
Definition build_groupNameMap (mib : vacm_mib) : result exn (dict (list ival) octets) :=
  foldM (group_step mib) (Column.nodes (vacmGroupName mib)) [].

(** The row of the access table at an instance of vacmAccessStatus. *)
Definition read_row (mib : vacm_mib) (name : oid) : result exn access_row :=
  let instId := instance_id (vacmAccessStatus mib) name in
  indices ← TableIndex.indices_of (vacmAccessEntry mib) instId;
  match indices with
  | [] => Err IndexError
  | groupName :: _ =>
      context ← cell (vacmAccessContextPrefix mib) instId;
      model ← cell (vacmAccessSecurityModel mib) instId;
      level ← cell (vacmAccessSecurityLevel mib) instId;
      mtch ← cell (vacmAccessContextMatch mib) instId;
      readView ← cell (vacmAccessReadViewName mib) instId;
      writeView ← cell (vacmAccessWriteViewName mib) instId;
      notifyView ← cell (vacmAccessNotifyViewName mib) instId;
      mret (mk_access groupName context model level mtch readView writeView notifyView)
  end.

(** The active rows of the access table, in instance order. *)
Definition active (kv : oid * Z) : Prop := kv.2 = 1.
Definition access_rows (mib : vacm_mib) : result exn (list access_row) :=
  foldM (λ kv rows, r ← read_row mib kv.1; mret (rows ++ [r]))
    (filter active (Column.nodes (vacmAccessStatus mib))) [].
Definition access_step (mib : vacm_mib) (kv : oid * Z) (d : dict ival views) :
    result exn (dict ival views) :=
  if negb (kv.2 =? 1) then mret d else r ← read_row mib kv.1; mret (add_row d r).
Definition build_accessMap (mib : vacm_mib) : result exn (dict ival views) :=
  foldM (access_step mib) (Column.nodes (vacmAccessStatus mib)) [].

Definition view_step (mib : vacm_mib) (kv : oid * octets) (d : dict octets (list family)) :
    result exn (dict octets (list family)) :=
  let instId := instance_id (vacmViewTreeFamilyViewName mib) kv.1 in
  subtree ← cell (vacmViewTreeFamilySubtree mib) instId;
  mask ← cell (vacmViewTreeFamilyMask mib) instId;
  mode ← cell (vacmViewTreeFamilyType mib) instId;
  mret (dset d kv.2 (default [] (dget d kv.2) ++ [family_of subtree mask mode])).
Definition build_viewTreeMap (mib : vacm_mib) : result exn (dict octets (list family)) :=
  d ← foldM (view_step mib) (Column.nodes (vacmViewTreeFamilyViewName mib)) [];
  mret (sort_map d).

(** The view of a request, on the maps; [getFamilyViewName] reads only one. *)
Definition with_access (m : dict ival views) : Vacm := mk_Vacm 0 0 0 0 [] [] m [].

(** The decision without caches: what [isAccessAllowed] computes from the MIB. *)
Definition decision (mib : vacm_mib) (securityModel : Z) (securityName : octets)
    (securityLevel : Z) (viewType : string) (contextName : octets) (variableName : oid) :
    result exn (option status) :=
  if negb (din (build_contextMap mib) contextName) then Err (StatusInfo noSuchContext)
  else
    groups ← build_groupNameMap mib;
    match dget groups [TableIndex.IInt securityModel; TableIndex.IStr securityName] with
    | None => Err (StatusInfo noGroupName)
    | Some groupName =>
        access ← build_accessMap mib;
        viewName ← getFamilyViewName (with_access access) groupName contextName securityModel
                     securityLevel viewType;
        tree ← build_viewTreeMap mib;
        match dget tree viewName with
        | None => mret (Some (status_of notInView))
        | Some fams =>
            accessAllowed ← decide_loop fams variableName false;
            if negb accessAllowed then Err (StatusInfo notInView) else mret None
        end
    end.

(** The columns are well formed, and their versions count from 0. *)
Record mib_ok (mib : vacm_mib) : Prop := {
  ok_context : Column.wf (vacmContextName mib) ∧ 0 <= Column.branchVersionId (vacmContextName mib);
  ok_group : Column.wf (vacmGroupName mib) ∧ 0 <= Column.branchVersionId (vacmGroupName mib);
  ok_access : Column.wf (vacmAccessStatus mib) ∧
    0 <= Column.branchVersionId (vacmAccessStatus mib);
  ok_view : Column.wf (vacmViewTreeFamilyViewName mib) ∧
    0 <= Column.branchVersionId (vacmViewTreeFamilyViewName mib);
}.

(** A map is current when its version is, and is never from the future. *)
Definition current {A} (v branchId : Z) (m : A) (built : result exn A) : Prop :=
  branchId <= v ∧ (branchId = v → built = Ok m).
Record coherent (mib : vacm_mib) (st : Vacm) : Prop := {
  co_context : current (Column.branchVersionId (vacmContextName mib)) (contextBranchId st)
    (contextMap st) (Ok (build_contextMap mib));
  co_group : current (Column.branchVersionId (vacmGroupName mib)) (groupNameBranchId st)
    (groupNameMap st) (build_groupNameMap mib);
  co_access : current (Column.branchVersionId (vacmAccessStatus mib)) (accessBranchId st)
    (accessMap st) (build_accessMap mib);
  co_view : current (Column.branchVersionId (vacmViewTreeFamilyViewName mib))
    (viewTreeBranchId st) (viewTreeMap st) (build_viewTreeMap mib);
}.

Lemma init_coherent mib : mib_ok mib → coherent mib init.
Proof. intros [[? ?] [? ?] [? ?] [? ?]]. split; split; cbn; lia. Qed.

(** ** Rebuilding computes the maps *)
Ltac lens := split; [done|done|by intros []].

Lemma context_lens :
  lens_laws contextMap (λ d st, set_context (λ _, d) (contextBranchId st) st).
Proof. lens. Qed.
Lemma group_lens :
  lens_laws groupNameMap (λ d st, set_group (λ _, d) (groupNameBranchId st) st).
Proof. lens. Qed.
Lemma access_lens :
  lens_laws accessMap (λ d st, set_access (λ _, d) (accessBranchId st) st).
Proof. lens. Qed.
Lemma view_lens :
  lens_laws viewTreeMap (λ d st, set_view (λ _, d) (viewTreeBranchId st) st).
Proof. lens. Qed.

Lemma rebuild_context_spec mib st : Column.wf (vacmContextName mib) →
  rebuild_contextMap mib st =
  if contextBranchId st =? Column.branchVersionId (vacmContextName mib) then (Ok tt, st)
  else (Ok tt, set_context (λ _, build_contextMap mib)
                 (Column.branchVersionId (vacmContextName mib)) st).
Proof.
  intros Hwf. unfold rebuild_contextMap. destruct (_ =? _); cbn [negb]; [done|]. munfold.
  rewrite Column.for_each_spec by done.
  pose proof (mapM_foldM (E := exn) contextMap _
    (λ kv, modify (λ st, set_context (λ d, dset d kv.2 true) (contextBranchId st) st))
    (λ (kv : oid * octets) d, Ok (dset d kv.2 true)) (Column.nodes (vacmContextName mib))
    context_lens) as Hm.
  specialize (Hm ltac:(done) (set_context (λ _, []) (contextBranchId st) st)). cbn in Hm.
  assert (Hf : ∀ l (d : dict octets bool), foldM (λ (kv : oid * octets) d, @Ok exn _ (dset d kv.2 true)) l d
    = Ok (foldl (λ d kv, dset d kv.2 true) d l)).
  { induction l as [|kv l IH]; intros d; cbn; [done|]. munfold. apply IH. }
  rewrite Hf in Hm. munfold. rewrite Hm. done.
Qed.

Lemma rebuild_group_spec mib st : Column.wf (vacmGroupName mib) →
  if groupNameBranchId st =? Column.branchVersionId (vacmGroupName mib)
  then rebuild_groupNameMap mib st = (Ok tt, st)
  else match build_groupNameMap mib with
       | Ok m => rebuild_groupNameMap mib st =
           (Ok tt, set_group (λ _, m) (Column.branchVersionId (vacmGroupName mib)) st)
       | Err e => ∃ d, rebuild_groupNameMap mib st =
           (Err e, set_group (λ _, d) (groupNameBranchId st) st)
       end.
Proof.
  intros Hwf. unfold rebuild_groupNameMap. destruct (_ =? _); cbn [negb]; [done|]. munfold.
  rewrite Column.for_each_spec by done.
  match goal with |- context [mapM_ ?b ?l ?s0] =>
    pose proof (mapM_foldM groupNameMap _ b (group_step mib) l group_lens) as Hm end.
  ospecialize (Hm _ (set_group (λ _, []) (groupNameBranchId st) st)).
  { intros kv s. unfold group_step. munfold. destruct (TableIndex.indices_of _ _) as [i|e]; [done|].
    exists (groupNameMap s). by destruct s. }
  cbn in Hm. unfold build_groupNameMap. destruct (foldM (group_step mib) _ _) as [m|e].
  - by rewrite Hm.
  - destruct Hm as [d Hm]. exists d. by rewrite Hm.
Qed.

Lemma add_access_row_spec mib kv :
  steps_as accessMap (λ d st, set_access (λ _, d) (accessBranchId st) st)
    (add_access_row mib kv.1 kv.2) (access_step mib kv).
Proof.
  intros st. unfold add_access_row, access_step, read_row. munfold.
  destruct (negb (kv.2 =? 1)); [by destruct st|].
  assert (Hid : ∀ e, ∃ d, (@Err exn unit e, st) =
    (Err e, set_access (λ _, d) (accessBranchId st) st)).
  { intros e. exists (accessMap st). by destruct st. }
  destruct (TableIndex.indices_of _ _) as [[|g i]|e]; [apply Hid| |apply Hid].
  do 7 (match goal with |- context [cell ?c ?i] => destruct (cell c i); [|apply Hid] end).
  done.
Qed.

Lemma rebuild_access_spec mib st : Column.wf (vacmAccessStatus mib) →
  if accessBranchId st =? Column.branchVersionId (vacmAccessStatus mib)
  then rebuild_accessMap mib st = (Ok tt, st)
  else match build_accessMap mib with
       | Ok m => rebuild_accessMap mib st =
           (Ok tt, set_access (λ _, m) (Column.branchVersionId (vacmAccessStatus mib)) st)
       | Err e => ∃ d, rebuild_accessMap mib st =
           (Err e, set_access (λ _, d) (accessBranchId st) st)
       end.
Proof.
  intros Hwf. unfold rebuild_accessMap. destruct (_ =? _); cbn [negb]; [done|]. munfold.
  rewrite Column.for_each_spec by done.
  pose proof (mapM_foldM accessMap _ _ _ (Column.nodes (vacmAccessStatus mib)) access_lens
    (add_access_row_spec mib) (set_access (λ _, []) (accessBranchId st) st)) as Hm.
  cbn [accessMap set_access] in Hm. unfold build_accessMap.
  destruct (foldM (access_step mib) _ _) as [m|e].
  - by rewrite Hm.
  - destruct Hm as [d Hm]. exists d. by rewrite Hm.
Qed.

Lemma add_family_spec mib kv :
  steps_as viewTreeMap (λ d st, set_view (λ _, d) (viewTreeBranchId st) st)
    (add_family mib kv.1 kv.2) (view_step mib kv).
Proof.
  intros st. unfold add_family, view_step. munfold.
  do 3 (match goal with |- context [cell ?c ?i] => destruct (cell c i); [|by eexists] end).
  unfold set_view. cbn. do 2 f_equal. unfold din.
  destruct (dget (viewTreeMap st) kv.2) as [l|] eqn:E; cbn [default id]; [by rewrite E|].
  by rewrite dget_dset_eq, dset_dset.
Qed.

Lemma rebuild_view_spec mib st : Column.wf (vacmViewTreeFamilyViewName mib) →
  if viewTreeBranchId st =? Column.branchVersionId (vacmViewTreeFamilyViewName mib)
  then rebuild_viewTreeMap mib st = (Ok tt, st)
  else match build_viewTreeMap mib with
       | Ok m => rebuild_viewTreeMap mib st =
           (Ok tt, set_view (λ _, m)
              (Column.branchVersionId (vacmViewTreeFamilyViewName mib)) st)
       | Err e => ∃ d, rebuild_viewTreeMap mib st =
           (Err e, set_view (λ _, d) (viewTreeBranchId st) st)
       end.
Proof.
  intros Hwf. unfold rebuild_viewTreeMap. destruct (_ =? _); cbn [negb]; [done|]. munfold.
  rewrite Column.for_each_spec by done.
  pose proof (mapM_foldM viewTreeMap _ _ _ (Column.nodes (vacmViewTreeFamilyViewName mib))
    view_lens (add_family_spec mib) (set_view (λ _, []) (viewTreeBranchId st) st)) as Hm.
  cbn [viewTreeMap set_view] in Hm. unfold build_viewTreeMap.
  destruct (foldM (view_step mib) _ _) as [m|e]; munfold.
  - by rewrite Hm.
  - destruct Hm as [d Hm]. exists d. by rewrite Hm.
Qed.

(** ** A request, and requests one after the other *)
Record request : Type := mk_request {
  q_securityModel : Z;
  q_securityName : octets;
  q_securityLevel : Z;
  q_viewType : string;
  q_contextName : octets;
  q_variableName : oid;
}.
Definition allowed (mib : vacm_mib) (q : request) : M exn Vacm (option status) :=
  isAccessAllowed mib (q_securityModel q) (q_securityName q) (q_securityLevel q)
    (q_viewType q) (q_contextName q) (q_variableName q).
Definition decides (mib : vacm_mib) (q : request) : result exn (option status) :=
  decision mib (q_securityModel q) (q_securityName q) (q_securityLevel q)
    (q_viewType q) (q_contextName q) (q_variableName q).

(** The MIB changes between requests; the model keeps its maps. *)
Fixpoint serve (h : list (vacm_mib * request)) (st : Vacm) : list (result exn (option status)) :=
  match h with
  | [] => []
  | (mib, q) :: h' => let '(r, st') := allowed mib q st in r :: serve h' st'
  end.

(** Versions never go back, and a table whose key column kept its version reads
    the same. *)
Record versioned (mib mib' : vacm_mib) : Prop := {
  vn_context : Column.branchVersionId (vacmContextName mib)
      <= Column.branchVersionId (vacmContextName mib') ∧
    (Column.branchVersionId (vacmContextName mib) = Column.branchVersionId (vacmContextName mib') →
     build_contextMap mib = build_contextMap mib');
  vn_group : Column.branchVersionId (vacmGroupName mib)
      <= Column.branchVersionId (vacmGroupName mib') ∧
    (Column.branchVersionId (vacmGroupName mib) = Column.branchVersionId (vacmGroupName mib') →
     build_groupNameMap mib = build_groupNameMap mib');
  vn_access : Column.branchVersionId (vacmAccessStatus mib)
      <= Column.branchVersionId (vacmAccessStatus mib') ∧
    (Column.branchVersionId (vacmAccessStatus mib) = Column.branchVersionId (vacmAccessStatus mib') →
     build_accessMap mib = build_accessMap mib');
  vn_view : Column.branchVersionId (vacmViewTreeFamilyViewName mib)
      <= Column.branchVersionId (vacmViewTreeFamilyViewName mib') ∧
    (Column.branchVersionId (vacmViewTreeFamilyViewName mib) =
       Column.branchVersionId (vacmViewTreeFamilyViewName mib') →
     build_viewTreeMap mib = build_viewTreeMap mib');
}.

Fixpoint history_ok (h : list (vacm_mib * request)) : Prop :=
  match h with
  | (mib, _) :: (((mib', _) :: _) as h') => mib_ok mib ∧ versioned mib mib' ∧ history_ok h'
  | [(mib, _)] => mib_ok mib
  | [] => True
  end.

(** ** The maps stay coherent *)
Lemma current_step {A} v v' b (m : A) r r' : v <= v' → (v = v' → r = r') →
  current v b m r → current v' b m r'.
Proof.
  intros Hv Hr [H1 H2]. split; [lia|]. intros ->. assert (v = v') as <- by lia.
  rewrite <- Hr by done. by apply H2.
Qed.

Lemma coherent_step mib mib' st : versioned mib mib' → coherent mib st → coherent mib' st.
Proof.
  intros [[Hv1 Hr1] [Hv2 Hr2] [Hv3 Hr3] [Hv4 Hr4]] [H1 H2 H3 H4]. split.
  - eapply current_step; [exact Hv1| |exact H1]. intros Hv. by rewrite Hr1.
  - by eapply current_step.
  - by eapply current_step.
  - by eapply current_step.
Qed.

Lemma current_fresh {A} v (m : A) r : r = Ok m → current v v m r.
Proof. by split. Qed.

Lemma current_stale {A} v b (m : A) r : b ≠ v → ∀ m' : A, current v b m r → current v b m' r.
Proof. intros Hb m' [H1 _]. split; [done|]. intros. lia. Qed.

Ltac coherent := match goal with H : coherent _ ?st |- _ =>
  destruct H; split; cbn; first [assumption | by apply current_fresh |
    eapply current_stale; [|eassumption]; done] end.

Lemma rebuild_context_ok mib st : mib_ok mib → coherent mib st →
  ∃ st', rebuild_contextMap mib st = (Ok tt, st') ∧ coherent mib st' ∧
    contextMap st' = build_contextMap mib.
Proof.
  intros Hm Hc. rewrite rebuild_context_spec by apply Hm.
  destruct (Z.eqb_spec (contextBranchId st) (Column.branchVersionId (vacmContextName mib)))
    as [He|He]; eexists; (split; [done|]).
  - split; [done|]. destruct (co_context _ _ Hc) as [_ H]. by injection (H He).
  - split; [coherent|done].
Qed.

Lemma rebuild_group_ok mib st : mib_ok mib → coherent mib st →
  ∃ st', coherent mib st' ∧
    match build_groupNameMap mib with
    | Ok m => rebuild_groupNameMap mib st = (Ok tt, st') ∧ groupNameMap st' = m
    | Err e => rebuild_groupNameMap mib st = (Err e, st')
    end.
Proof.
  intros Hm Hc. pose proof (rebuild_group_spec mib st (proj1 (ok_group _ Hm))) as Hs.
  destruct (Z.eqb_spec (groupNameBranchId st) (Column.branchVersionId (vacmGroupName mib)))
    as [He|He].
  - exists st. split; [done|]. destruct (co_group _ _ Hc) as [_ H]. by rewrite (H He).
  - destruct (build_groupNameMap mib) as [m|e] eqn:Hb; [|destruct Hs as [d Hs]];
      eexists; (split; [|done || (split; [exact Hs|done])]); coherent.
Qed.

Lemma rebuild_access_ok mib st : mib_ok mib → coherent mib st →
  ∃ st', coherent mib st' ∧
    match build_accessMap mib with
    | Ok m => rebuild_accessMap mib st = (Ok tt, st') ∧ accessMap st' = m
    | Err e => rebuild_accessMap mib st = (Err e, st')
    end.
Proof.
  intros Hm Hc. pose proof (rebuild_access_spec mib st (proj1 (ok_access _ Hm))) as Hs.
  destruct (Z.eqb_spec (accessBranchId st) (Column.branchVersionId (vacmAccessStatus mib)))
    as [He|He].
  - exists st. split; [done|]. destruct (co_access _ _ Hc) as [_ H]. by rewrite (H He).
  - destruct (build_accessMap mib) as [m|e] eqn:Hb; [|destruct Hs as [d Hs]];
      eexists; (split; [|done || (split; [exact Hs|done])]); coherent.
Qed.

Lemma rebuild_view_ok mib st : mib_ok mib → coherent mib st →
  ∃ st', coherent mib st' ∧
    match build_viewTreeMap mib with
    | Ok m => rebuild_viewTreeMap mib st = (Ok tt, st') ∧ viewTreeMap st' = m
    | Err e => rebuild_viewTreeMap mib st = (Err e, st')
    end.
Proof.
  intros Hm Hc. pose proof (rebuild_view_spec mib st (proj1 (ok_view _ Hm))) as Hs.
  destruct (Z.eqb_spec (viewTreeBranchId st)
    (Column.branchVersionId (vacmViewTreeFamilyViewName mib))) as [He|He].
  - exists st. split; [done|]. destruct (co_view _ _ Hc) as [_ H]. by rewrite (H He).
  - destruct (build_viewTreeMap mib) as [m|e] eqn:Hb; [|destruct Hs as [d Hs]];
      eexists; (split; [|done || (split; [exact Hs|done])]); coherent.
Qed.

Lemma getFamilyViewName_access st m g c sm sl vt : accessMap st = m →
  getFamilyViewName st g c sm sl vt = getFamilyViewName (with_access m) g c sm sl vt.
Proof. intros <-. done. Qed.

Lemma allowed_refines mib q st : mib_ok mib → coherent mib st →
  ∃ st', allowed mib q st = (decides mib q, st') ∧ coherent mib st'.
Proof.
  intros Hm Hc. unfold allowed, isAccessAllowed, decides, decision. munfold.
  destruct (rebuild_context_ok mib st Hm Hc) as (st1 & H1 & Hc1 & Hctx). rewrite H1, Hctx.
  destruct (negb _); [by eexists|].
  destruct (rebuild_group_ok mib st1 Hm Hc1) as (st2 & Hc2 & H2).
  destruct (build_groupNameMap mib) as [groups|e]; [destruct H2 as [H2 Hg]|];
    rewrite H2; [rewrite Hg|by eexists].
  destruct (dget groups _) as [g|]; [|by eexists].
  destruct (rebuild_access_ok mib st2 Hm Hc2) as (st3 & Hc3 & H3).
  destruct (build_accessMap mib) as [acc|e]; [destruct H3 as [H3 Ha]|];
    rewrite H3; [|by eexists].
  cbn [id]. rewrite (getFamilyViewName_access st3 acc) by done.
  destruct (getFamilyViewName _ _ _ _ _ _) as [v|e]; [|by eexists].
  destruct (rebuild_view_ok mib st3 Hm Hc3) as (st4 & Hc4 & H4).
  destruct (build_viewTreeMap mib) as [tree|e]; [destruct H4 as [H4 Hv]|];
    rewrite H4; [rewrite Hv|by eexists].
  destruct (dget tree v) as [fams|]; [|by eexists].
  destruct (decide_loop _ _ _) as [[]|]; by eexists.
Qed.

(** ** Masks *)

(** Bit [i] of a mask, the most significant first; a short mask is extended by
    ones. *)
Definition mask_bit (mask : octets) (i : nat) : bool :=
  match mask !! (i / 8)%nat with
  | Some octet => Z.testbit octet (7 - Z.of_nat (i mod 8))
  | None => true
  end.

(** RFC 3415, 4: a family covers a name that is at least as long as its subtree
    and agrees with it wherever the mask has a one. *)
Definition covers (subtree : oid) (mask : octets) (name : oid) : Prop :=
  (length subtree <= length name)%nat ∧
  ∀ i, (i < length subtree)%nat → mask_bit mask i = true → subtree !! i = name !! i.

Lemma power_bit octet j bit : powerOfTwo !! j = Some bit →
  (Z.land bit octet =? 0) = negb (Z.testbit octet (7 - Z.of_nat j)).
Proof.
  assert (Hp : ∀ n, 0 <= n → (Z.land (2 ^ n) octet =? 0) = negb (Z.testbit octet n)).
  { intros n Hn. destruct (Z.testbit octet n) eqn:E; cbn.
    - apply Z.eqb_neq. intros Hz. apply (f_equal (λ x, Z.testbit x n)) in Hz.
      rewrite Z.land_spec, Z.pow2_bits_true, E, Z.bits_0 in Hz by done. done.
    - apply Z.eqb_eq. apply Z.bits_inj'. intros m Hm. rewrite Z.land_spec, Z.bits_0.
      rewrite Z.pow2_bits_eqb by done. destruct (Z.eqb_spec n m) as [->|]; [by rewrite E|done]. }
  intros Hj.
  assert (bit = 2 ^ (7 - Z.of_nat j) ∧ (j < 8)%nat) as [-> Hlt]; [|apply Hp; lia].
  do 8 (destruct j as [|j]; [injection Hj as <-; split; [reflexivity|lia]|]). done.
Qed.

Lemma elem_of_ignored mask subtree i :
  i ∈ ignoredSubOids mask subtree ↔ (i < length subtree)%nat ∧ mask_bit mask i = false.
Proof.
  unfold ignoredSubOids. set (n := ((length mask * 8) `min` length subtree)%nat).
  rewrite list_elem_of_In, in_concat. setoid_rewrite <- list_elem_of_In. split.
  - intros (l & Hl & Hi). apply elem_of_lookup_imap in Hl as (a & octet & -> & Ha).
    apply list_elem_of_omap in Hi as (o & Ho & [= ->]).
    apply elem_of_lookup_imap in Ho as (j & bit & Ho & Hj).
    assert (j < 8)%nat by (by apply lookup_lt_Some in Hj).
    pose proof (power_bit octet j bit Hj) as Hb. destruct (Z.land bit octet =? 0); [|done].
    destruct (Nat.ltb_spec (a * 8 + j) n); [|done]. injection Ho as ->.
    split; [lia|]. unfold mask_bit.
    rewrite Nat.div_add_l, (Nat.div_small j), Nat.add_0_r, Ha by lia.
    rewrite Nat.add_comm, Nat.Div0.mod_add, Nat.mod_small by lia.
    symmetry in Hb. by apply negb_true_iff in Hb.
  - intros [Hi Hm]. unfold mask_bit in Hm.
    destruct (mask !! (i / 8)%nat) as [octet|] eqn:Ho; [|done].
    pose proof (Nat.mod_upper_bound i 8 ltac:(lia)) as Hj.
    pose proof (Nat.div_mod_eq i 8) as Hd. apply lookup_lt_Some in Ho as Hlt.
    destruct (lookup_lt_is_Some_2 powerOfTwo (i mod 8) Hj) as [bit Hbit].
    eexists. split; [apply elem_of_lookup_imap; by exists (i / 8)%nat, octet|].
    apply list_elem_of_omap. exists (Some i). split; [|done].
    apply elem_of_lookup_imap. exists (i mod 8)%nat, bit. split; [|done].
    rewrite (power_bit octet _ bit Hbit), Hm. cbn [negb andb].
    rewrite (proj2 (Nat.ltb_lt _ _)) by lia. f_equal. lia.
Qed.

Lemma zero_at_spec ignored name : (∀ i, i ∈ ignored → (i < length name)%nat) →
  ∃ z, zero_at ignored name = Ok z ∧ length z = length name ∧
    ∀ i, z !! i = if decide (i ∈ ignored ∧ (i < length name)%nat) then Some 0 else name !! i.
Proof.
  revert name; induction ignored as [|k ignored IH]; intros name Hi.
  { exists name. split_and!; [done|done|]. intros i. rewrite decide_False by set_solver. done. }
  cbn [zero_at]. rewrite (proj2 (Nat.ltb_lt _ _)) by set_solver.
  destruct (IH (<[k:=0]> name)) as (z & Hz & Hl & Hlk).
  { intros i Hin. rewrite length_insert. set_solver. }
  rewrite length_insert in *. exists z. split_and!; [done|done|]. intros i. rewrite Hlk.
  rewrite list_lookup_insert. specialize (Hi k ltac:(set_solver)).
  repeat case_decide; set_solver.
Qed.

Lemma zero_at_error ignored name i : i ∈ ignored → (length name <= i)%nat →
  zero_at ignored name = Err IndexError.
Proof.
  revert name; induction ignored as [|k ignored IH]; intros name Hi Hl; [set_solver|].
  cbn [zero_at]. destruct (Nat.ltb_spec k (length name)); [|done].
  apply IH; [|by rewrite length_insert]. apply elem_of_cons in Hi as [->|]; [lia|done].
Qed.

(** The zeroed pattern of a family is what [zero_at] makes of its subtree. *)
Lemma pattern_zero_at ignored subtree : (∀ i, i ∈ ignored → (i < length subtree)%nat) →
  zero_at ignored subtree = Ok (foldl (λ p i, <[i:=0]> p) subtree ignored).
Proof.
  revert subtree; induction ignored as [|k ignored IH]; intros subtree Hi; cbn [zero_at foldl]; [done|].
  rewrite (proj2 (Nat.ltb_lt _ _)) by set_solver. apply IH.
  intros i Hin. rewrite length_insert. set_solver.
Qed.

Lemma prefix_lookup (a b : oid) :
  a `prefix_of` b ↔ (length a <= length b)%nat ∧ ∀ i, (i < length a)%nat → a !! i = b !! i.
Proof.
  split.
  - intros [k ->]. rewrite length_app. split; [lia|]. intros i Hi. by rewrite lookup_app_l.
  - intros [Hl Hi]. exists (drop (length a) b). rewrite <- (take_drop (length a) b) at 1.
    f_equal. apply list_eq. intros i. destruct (decide (i < length a)%nat) as [H|H].
    + rewrite lookup_take_lt by done. symmetry. by apply Hi.
    + rewrite (lookup_ge_None_2 a), lookup_take_ge by lia. done.
Qed.

(** The test of the loop is the RFC's, on names long enough for the mask. *)
Lemma family_covers subtree mask mode name :
  (∀ i, i ∈ ignoredSubOids mask subtree → (i < length name)%nat) →
  ∃ z, zero_at (ignoredSubOids mask subtree) name = Ok z ∧
    (isPrefixOf (family_of subtree mask mode).1.1 z = true ↔ covers subtree mask name).
Proof.
  intros Hn. set (ig := ignoredSubOids mask subtree) in *.
  assert (Hs : ∀ i, i ∈ ig → (i < length subtree)%nat).
  { intros i Hi. by apply elem_of_ignored in Hi as [? _]. }
  destruct (zero_at_spec ig name Hn) as (z & Hz & Hlz & Hkz). exists z. split; [done|].
  destruct (zero_at_spec ig subtree Hs) as (p & Hp & Hlp & Hkp).
  rewrite pattern_zero_at in Hp by done. injection Hp as Hp.
  unfold isPrefixOf, family_of. fold ig. cbn [fst]. rewrite bool_decide_eq_true, Hp, prefix_lookup.
  rewrite Hlp, Hlz. unfold covers. split; intros [Hl Hi]; (split; [done|]); intros i Hlt.
  - intros Hm. specialize (Hi i Hlt). rewrite Hkp, Hkz in Hi.
    assert (i ∉ ig). { intros [_ Hf]%elem_of_ignored. congruence. }
    rewrite !decide_False in Hi by tauto. done.
  - rewrite Hkp, Hkz. destruct (mask_bit mask i) eqn:Hm.
    + assert (i ∉ ig). { intros [_ Hf]%elem_of_ignored. congruence. }
      rewrite !decide_False by tauto. by apply Hi.
    + assert (i ∈ ig) by (by apply elem_of_ignored).
      rewrite !decide_True; [done|split; [done|]; by apply Hn|done].
Qed.

(** ** The loop over the sorted families *)
Abbreviation raw_family := (oid * octets * Z)%type.
Definition cooked (f : raw_family) : family := let '(s, m, t) := f in family_of s m t.
Definition raw_covers (f : raw_family) (name : oid) : Prop := let '(s, m, _) := f in covers s m name.
Definition raw_ignored (f : raw_family) : list nat := let '(s, m, _) := f in ignoredSubOids m s.

(** One step of the loop, on a family and on the flag. *)
Lemma decide_loop_app l1 l2 name b :
  decide_loop (l1 ++ l2) name b = decide_loop l1 name b ≫= decide_loop l2 name.
Proof.
  revert b; induction l1 as [|[[s ig] inc] l1 IH]; intros b; [done|]. cbn.
  munfold. destruct (zero_at ig name); [|done]. by rewrite IH.
Qed.

Definition decided (name : oid) (fams : list raw_family) (b : bool) : Prop :=
  (b = false ∧ ∀ f, f ∈ fams → ¬ raw_covers f name) ∨
  (∃ f, f ∈ fams ∧ raw_covers f name ∧ b = (f.2 =? 1) ∧
    ∀ f', f' ∈ fams → raw_covers f' name →
      tuple_leb (family_key (cooked f')) (family_key (cooked f)) = true).

Lemma decide_sorted name (fams : list raw_family) :
  (∀ f i, f ∈ fams → i ∈ raw_ignored f → (i < length name)%nat) →
  StronglySorted (λ f f', tuple_leb (family_key (cooked f)) (family_key (cooked f')) = true) fams →
  ∃ b, decide_loop (cooked <$> fams) name false = Ok b ∧ decided name fams b.
Proof.
  intros Hn. induction fams as [|f fams IH] using rev_ind; intros Hs.
  { exists false. split; [done|]. left. split; [done|set_solver]. }
  destruct IH as (b & Hb & Hd).
  { intros f' i Hf'. apply Hn. set_solver. }
  { clear Hn. induction fams as [|f' fams IH]; [constructor|].
    inversion Hs as [|? ? Hs' Hall]; subst. constructor; [by apply IH|].
    by apply Forall_app in Hall as [? _]. }
  assert (Hlast : ∀ f', f' ∈ fams →
    tuple_leb (family_key (cooked f')) (family_key (cooked f)) = true).
  { intros f' Hf'. apply list_elem_of_lookup_1 in Hf' as [i Hi].
    eapply (StronglySorted_lookup _ _ i (length fams) _ _ Hs).
    - by apply lookup_lt_Some in Hi.
    - by rewrite lookup_app_l by (by apply lookup_lt_Some in Hi).
    - by rewrite lookup_app_r, Nat.sub_diag by done. }
  destruct f as [[s m] t].
  destruct (family_covers s m t name) as (z & Hz & Hc).
  { intros i Hi. apply (Hn (s, m, t)); [set_solver|done]. }
  rewrite fmap_app, decide_loop_app, Hb. munfold. cbn [fmap list_fmap cooked decide_loop].
  unfold family_of at 1. munfold. rewrite Hz.
  change (foldl (λ p i, <[i:=0]> p) s (ignoredSubOids m s)) with (family_of s m t).1.1.
  destruct (isPrefixOf (family_of s m t).1.1 z).
  - eexists; split; [done|]. right. exists (s, m, t). split_and!; [set_solver|by apply Hc|done|].
    intros f' [Hf'|Hf'%list_elem_of_singleton]%elem_of_app _; [by apply Hlast|].
    subst. apply leb_refl.
  - assert (Hnc : ¬ covers s m name) by (intros ?%Hc; done).
    exists b. split; [done|]. destruct Hd as [[-> Hno]|(f & Hf & Hcf & -> & Hmax)].
    + left. split; [done|]. intros f' [Hf'|Hf'%list_elem_of_singleton]%elem_of_app; [auto|].
      by subst.
    + right. exists f. split_and!; [set_solver|done|done|].
      intros f' [Hf'|Hf'%list_elem_of_singleton]%elem_of_app Hcf'; [auto|]. by subst.
Qed.

Lemma serve_coherent h st : history_ok h →
  (match h with (mib, _) :: _ => coherent mib st | [] => True end) →
  serve h st = (λ '(mib, q), decides mib q) <$> h.
Proof.
  revert st; induction h as [|[mib q] h IH]; intros st Hh Hc; [done|]. cbn [serve fmap list_fmap].
  assert (Hm : mib_ok mib) by (destruct h as [|[mib' q'] h]; [exact Hh|apply Hh]).
  destruct (allowed_refines mib q st Hm Hc) as (st' & -> & Hc'). f_equal. apply IH.
  - destruct h as [|[mib' q'] h]; [done|apply Hh].
  - destruct h as [|[mib' q'] h]; [done|]. destruct Hh as (_ & Hv & _). by eapply coherent_step.
Qed.

(** ** Properties *)

(** C11. The cached tables cannot be seen: over any sequence of requests and of MIB
    changes in which versions never go back and a table whose key column kept its
    version reads the same, every decision of one long-lived model is the one
    computed from the MIB as it is at that moment, errors included. *)
Theorem vacm_caches_transparent h :
  history_ok h → serve h init = (λ '(mib, q), decides mib q) <$> h.
Proof.
  intros Hh. apply serve_coherent; [done|]. destruct h as [|[mib q] [|[mib' q'] h]]; [done|..];
    apply init_coherent; [done|apply Hh].
Qed.

(** The access table is searched as RFC 3415 says: the view of a request is
    the view of the one eligible row of its group (context equal or prefix, same or
    any model, no higher level) preferred to every other by model, exact context,
    prefix length and level in that order, however the rows are stored; the request
    is refused when the group has no row ([noGroupName]) or none is eligible
    ([notInView]). *)
Theorem family_view_is_best st g ctx sm sl vt rows :
  accessMap st = access_map rows → vt ∈ view_types → group_ok (TableIndex.IStr g) rows →
  match getFamilyViewName st g ctx sm sl vt with
  | Ok v => ∃ r, is_best ctx sm sl (rows_of (TableIndex.IStr g) rows) r ∧ v = r_view r vt
  | Err e =>
      (e = StatusInfo noGroupName ∧ rows_of (TableIndex.IStr g) rows = []) ∨
      (e = StatusInfo notInView ∧
       ∀ r, r ∈ rows_of (TableIndex.IStr g) rows → row_eligible ctx sm sl r = false)
  end.
Proof.
  intros Hst Hvt Hg. unfold getFamilyViewName. rewrite Hst.
  pose proof (access_map_spec _ rows vt (go_truthy _ _ Hg) Hvt (go_index _ _ Hg)) as Hs.
  destruct (dget (access_map rows) (TableIndex.IStr g)) as [vs|]; [|by left].
  destruct Hs as (m & -> & Hp).
  assert (Hrow : ∀ e, e ∈ entries m → ∃ r, r ∈ rows_of (TableIndex.IStr g) rows ∧ e = row_entry vt r).
  { intros e He. rewrite Hp in He. apply list_elem_of_fmap in He as (r & -> & Hr). by exists r. }
  destruct (exact m ctx sm sl) as [v|] eqn:Hex.
  - apply exact_entry, Hrow in Hex as (r & Hr & [= _ Hc Hm Hl ->]).
    exists r. split; [|done]. apply best_of_max; try done.
    + unfold row_eligible, row_entry, eligible. rewrite <- Hc, <- Hm, <- Hl, Z.eqb_refl, Z.ltb_irrefl.
      unfold context_fits. rewrite bool_decide_true, take_ge, bool_decide_true by done.
      by rewrite !andb_false_r.
    + intros r' Hr' He'. apply (exact_preferred _ _ sl); try done. by eapply go_match.
  - unfold fuzzy. pose proof (best_spec ctx sm
      (filter (λ e, eligible ctx sm sl e = true) (entries m))) as Hb.
    destruct (foldl _ _ _) as [[c v]|]; cbn [fmap option_fmap option_map snd].
    + destruct Hb as (e & He & Hc & Hv & Hmax). apply list_elem_of_filter in He as [Hel He].
      destruct (Hrow e He) as (r & Hr & ->). exists r. split; [|done].
      apply best_of_max; [done|done|by rewrite <- (eligible_row vt)|].
      intros r' Hr' He'. subst c.
      eapply (tuple_leb_app_inv _ _ (r_view r' vt) (r_view r vt)); [done|].
      apply (Hmax (row_entry vt r')). apply list_elem_of_filter. split.
      * by rewrite (eligible_row vt).
      * rewrite Hp. apply list_elem_of_fmap. by exists r'.
    + right. split; [done|]. intros r Hr. destruct (row_eligible ctx sm sl r) eqn:E; [|done].
      rewrite <- (eligible_row vt) in E. exfalso.
      assert (Hin : row_entry vt r ∈ filter (λ e, eligible ctx sm sl e = true) (entries m)).
      { apply list_elem_of_filter. split; [done|]. rewrite Hp. apply list_elem_of_fmap. by exists r. }
      rewrite Hb in Hin. by apply elem_of_nil in Hin.
Qed.

Lemma long_name_decided (fams : list raw_family) name :
  (∀ f i, f ∈ fams → i ∈ raw_ignored f → (i < length name)%nat) →
  ∃ b, decide_loop (sort_families (cooked <$> fams)) name false = Ok b ∧ decided name fams b.
Proof.
  intros Hn. unfold sort_families. rewrite sorted_by_fmap.
  set (sorted := sorted_by tuple_leb (λ f, family_key (cooked f)) fams).
  assert (Hp : sorted ≡ₚ fams) by apply sorted_by_perm.
  destruct (decide_sorted name sorted) as (b & Hb & Hd).
  { intros f i Hf. rewrite Hp in Hf. by apply Hn. }
  { apply sorted_by_sorted. apply _. }
  exists b. split; [done|]. destruct Hd as [[-> Hno]|(f & Hf & Hc & -> & Hmax)].
  - left. split; [done|]. intros f Hf. apply Hno. by rewrite Hp.
  - right. exists f. rewrite Hp in Hf. split_and!; [done|done|done|].
    intros f' Hf'. apply Hmax. by rewrite Hp.
Qed.

(** A name shorter than the masked part of any family of the view makes the
    decision raise [IndexError] instead of refusing: the other families are not
    consulted, whatever they say. *)
Theorem short_name_raises (fams : list raw_family) name f i :
  f ∈ fams → i ∈ raw_ignored f → (length name <= i)%nat →
  decide_loop (sort_families (cooked <$> fams)) name false = Err IndexError.
Proof.
  intros Hf Hi Hl.
  assert (Hin : cooked f ∈ sort_families (cooked <$> fams)).
  { unfold sort_families. rewrite sorted_by_perm. apply list_elem_of_fmap. by exists f. }
  assert (Hig : i ∈ (cooked f).1.2) by (by destruct f as [[s m] t]).
  revert Hin. generalize (sort_families (cooked <$> fams)) as l, false. intros l b Hin.
  revert b; induction l as [|[[s ig] inc] l IH]; intros b; [set_solver|]. cbn [decide_loop]. munfold.
  destruct (decide (cooked f = (s, ig, inc))) as [He|Hne].
  - rewrite He in Hig. by rewrite (zero_at_error ig name i).
  - destruct (zero_at ig name) as [z|e] eqn:Hz; [apply IH; set_solver|].
    assert (He : ∀ ig name e, zero_at ig name = Err e → e = IndexError).
    { clear. induction ig as [|k ig IH]; intros name e; cbn [zero_at]; [done|].
      case_match; [apply IH|by intros [= <-]]. }
    by rewrite (He _ _ _ Hz).
Qed.

(** C12. The view tree decides as RFC 3415 says, for every name that is longer than
    each masked position of each family of the view: access is granted exactly as the
    longest family that covers the name says (positions whose mask bit is zero match
    anything, a short mask is extended by ones, ties go to the greatest pattern), and a
    name no family covers is refused.  A name that a masked position of any family
    reaches beyond is not decided: the loop raises [IndexError] for it, whatever the
    other families say. *)
Theorem view_decision_is_longest_match (fams : list raw_family) name :
  match decide_loop (sort_families (cooked <$> fams)) name false with
  | Ok b => (∀ f i, f ∈ fams → i ∈ raw_ignored f → (i < length name)%nat) ∧ decided name fams b
  | Err e => e = IndexError ∧ ∃ f i, f ∈ fams ∧ i ∈ raw_ignored f ∧ (length name <= i)%nat
  end.
Proof.
  destruct (decide (Forall (λ f, Forall (λ i, (i < length name)%nat) (raw_ignored f)) fams)) as [Hn|Hn].
  - assert (Hn' : ∀ f i, f ∈ fams → i ∈ raw_ignored f → (i < length name)%nat).
    { intros f i Hf. rewrite Forall_forall in Hn. specialize (Hn f Hf). rewrite Forall_forall in Hn. apply Hn. }
    destruct (long_name_decided fams name Hn') as (b & -> & Hd). by split.
  - apply not_Forall_Exists, Exists_exists in Hn as (f & Hf & Hn); [|intros ?; apply _].
    apply not_Forall_Exists, Exists_exists in Hn as (i & Hi & Hl); [|intros ?; apply _].
    apply Nat.nlt_ge in Hl. rewrite (short_name_raises fams name f i Hf Hi Hl). split; [done|]. by exists f, i.
Qed.

(** ** A small MIB: user [u] of model 3 is in group [g], which reads view [v]; the
    view includes 1.3.6 but for 1.3.6.9 (any instance of the third column) *)
Definition demo_col {V} (nm : oid) (s : V) (rows : list (oid * V)) : column V :=
  (Column.registerSubtrees ((λ '(i, v), (nm ++ i, v)) <$> rows) (Column.init nm s)).2.
Definition demo_string : TableIndex.index :=
  TableIndex.mk_index false (TableIndex.SOctetString None) (λ _, true).
Definition demo_int : TableIndex.index :=
  TableIndex.mk_index false TableIndex.SInteger (λ _, true).
Definition acm (n : oid) : oid := [1; 3; 6; 1; 6; 3; 16; 1] ++ n.
Definition demo_access (n : Z) (s : octets) (v : octets) : column octets :=
  demo_col (acm [4; 1; n]) s [([1; 103; 0; 3; 1], v)].
Definition demo_access_int (n : Z) (v : Z) : column Z :=
  demo_col (acm [4; 1; n]) 0 [([1; 103; 0; 3; 1], v)].

Definition demo_mib : vacm_mib := mk_mib
  (demo_col (acm [1; 1; 1]) [] [([0], [])])
  [demo_int; demo_string]
  (demo_col (acm [2; 1; 3]) [] [([3; 1; 117], [103])])
  [demo_string; demo_string; demo_int; demo_int]
  (demo_access 1 [] []) (demo_access_int 2 3) (demo_access_int 3 1) (demo_access_int 4 1)
  (demo_access 5 [] [118]) (demo_access 6 [] [119]) (demo_access 7 [] [])
  (demo_access_int 9 1)
  (demo_col (acm [5; 2; 1; 1]) [] [([1; 118; 3; 1; 3; 6], [118]); ([1; 118; 4; 1; 3; 6; 9], [118])])
  (demo_col (acm [5; 2; 1; 2]) []
     [([1; 118; 3; 1; 3; 6], [1; 3; 6]); ([1; 118; 4; 1; 3; 6; 9], [1; 3; 6; 9])])
  (demo_col (acm [5; 2; 1; 3]) [] [([1; 118; 3; 1; 3; 6], []); ([1; 118; 4; 1; 3; 6; 9], [])])
  (demo_col (acm [5; 2; 1; 4]) 0 [([1; 118; 3; 1; 3; 6], 1); ([1; 118; 4; 1; 3; 6; 9], 2)]).

(** The administrator excludes 1.3.6 as well, by writing vacmViewTreeFamilyType. *)
Definition exclude (mib : vacm_mib) : vacm_mib :=
  mk_mib (vacmContextName mib) (vacmSecurityToGroupEntry mib) (vacmGroupName mib)
    (vacmAccessEntry mib) (vacmAccessContextPrefix mib) (vacmAccessSecurityModel mib)
    (vacmAccessSecurityLevel mib) (vacmAccessContextMatch mib) (vacmAccessReadViewName mib)
    (vacmAccessWriteViewName mib) (vacmAccessNotifyViewName mib) (vacmAccessStatus mib)
    (vacmViewTreeFamilyViewName mib) (vacmViewTreeFamilySubtree mib)
    (vacmViewTreeFamilyMask mib)
    (Column.write (acm [5; 2; 1; 4] ++ [1; 118; 3; 1; 3; 6]) 2 (vacmViewTreeFamilyType mib)).2.

Definition demo_request (n : oid) : request := mk_request 3 [117] 1 "read" [] n.

(** The view tree cache can be stale: its version is that of the column
    vacmViewTreeFamilyViewName alone, which a write to the type (or the mask) of an
    existing family does not change, so a subtree that has just been excluded is
    still served by a model that had read the table before. *)
Theorem excluded_subtree_still_served :
  decides demo_mib (demo_request [1; 3; 6; 1]) = Ok None ∧
  decides (exclude demo_mib) (demo_request [1; 3; 6; 1]) = Err (StatusInfo notInView) ∧
  serve [(demo_mib, demo_request [1; 3; 6; 1]); (exclude demo_mib, demo_request [1; 3; 6; 1])] init
    = [Ok None; Ok None].
Proof. split_and!; vm_compute; reflexivity. Qed.

(** A view without any row in the view tree is not refused: [isAccessAllowed]
    returns the refusal instead of raising it, so it ends normally for every name,
    as it does when access is granted. *)
Theorem missing_view_is_not_raised mib q groups g access v tree :
  din (build_contextMap mib) (q_contextName q) = true →
  build_groupNameMap mib = Ok groups →
  dget groups [TableIndex.IInt (q_securityModel q); TableIndex.IStr (q_securityName q)] = Some g →
  build_accessMap mib = Ok access →
  getFamilyViewName (with_access access) g (q_contextName q) (q_securityModel q)
    (q_securityLevel q) (q_viewType q) = Ok v →
  build_viewTreeMap mib = Ok tree → dget tree v = None → mib_ok mib →
  ∃ st', allowed mib q init = (Ok (Some (status_of notInView)), st').
Proof.
  intros Hc Hg Hgn Ha Hv Ht Hn Hm.
  destruct (allowed_refines mib q init Hm (init_coherent mib Hm)) as (st' & -> & _).
  exists st'. f_equal. unfold decides, decision. rewrite Hc, Hg. munfold.
  by rewrite Hgn, Ha, Hv, Ht, Hn.
Qed.

Lemma demo_col_ok {V} nm (s : V) rows : Forall (λ r, r.1 ≠ []) rows →
  Column.wf (demo_col nm s rows) ∧ 0 <= Column.branchVersionId (demo_col nm s rows).
Proof.
  intros Hr. unfold demo_col.
  destruct (Column.registerSubtrees_wf ((λ '(i, v), (nm ++ i, v)) <$> rows) (Column.init nm s))
    as [H1 H2]; [apply Column.column_init_wf| |by rewrite H2].
  intros n v Hin. apply list_elem_of_fmap in Hin as ([i v'] & [= -> ->] & Hin). exists i.
  split; [|done]. rewrite Forall_forall in Hr. apply (Hr _ Hin).
Defined.

Lemma demo_mib_ok : mib_ok demo_mib.
Proof. split; apply demo_col_ok; repeat constructor; discriminate. Qed.

Lemma vacm_caches_transparent_witness :
  serve [(demo_mib, demo_request [1; 3; 6; 1]); (demo_mib, demo_request [1; 3; 6; 9; 1])] init
  = [Ok None; Err (StatusInfo notInView)].
Proof.
  etrans; [apply (vacm_caches_transparent
    [(demo_mib, demo_request [1; 3; 6; 1]); (demo_mib, demo_request [1; 3; 6; 9; 1])])
    |vm_compute; reflexivity].
  cbn. split; [apply demo_mib_ok|]. split; [|apply demo_mib_ok].
  split; (split; [lia|done]).
Defined.

(** Two rows fit a request of context [ab]: the longer prefix wins. *)
Definition demo_rows : list access_row :=
  [mk_access (TableIndex.IStr [103]) [97] 3 1 2 [1] [] [];
   mk_access (TableIndex.IStr [103]) [] 3 1 2 [2] [] [];
   mk_access (TableIndex.IStr [104]) [97; 98] 3 1 1 [3] [] []].

Lemma family_view_is_best_witness :
  ∃ r, is_best [97; 98] 3 2 (rows_of (TableIndex.IStr [103]) demo_rows) r ∧
    [1] = r_view r "read".
Proof.
  apply (family_view_is_best (with_access (access_map demo_rows)) [103] [97; 98] 3 2 "read"
    demo_rows); [reflexivity|unfold view_types; set_solver|].
  split; [reflexivity| |].
  - apply (bool_decide_unpack _). vm_compute. exact I.
  - intros r Hr. right. unfold rows_of in Hr. apply list_elem_of_filter in Hr as [Hg Hr].
    unfold demo_rows in Hr. repeat (apply elem_of_cons in Hr as [->|Hr]); try done.
    by apply elem_of_nil in Hr.
Defined.

(** A mask that leaves out the last sub-identifier of 1.3.7. *)
Definition demo_families : list raw_family := [([1; 3], [], 1); ([1; 3; 7], [192], 2)].

Lemma view_decision_is_longest_match_witness :
  ∃ b, decide_loop (sort_families (cooked <$> demo_families)) [1; 3; 8] false = Ok b ∧
    decided [1; 3; 8] demo_families b.
Proof.
  exists false. split; [vm_compute; reflexivity|].
  exact (proj2 (view_decision_is_longest_match demo_families [1; 3; 8])).
Defined.

Lemma short_name_raises_witness :
  decide_loop (sort_families (cooked <$> demo_families)) [1; 3] false = Err IndexError.
Proof.
  apply (short_name_raises demo_families [1; 3] ([1; 3; 7], [192], 2) 2).
  - unfold demo_families. set_solver.
  - vm_compute. left.
  - cbn. lia.
Defined.

(** The write view [w] of the group has no row in the view tree. *)
Lemma missing_view_is_not_raised_witness :
  ∃ st', allowed demo_mib (mk_request 3 [117] 1 "write" [] [1; 3; 6; 1]) init =
    (Ok (Some (status_of notInView)), st').
Proof.
  eapply (missing_view_is_not_raised demo_mib (mk_request 3 [117] 1 "write" [] [1; 3; 6; 1]));
    [vm_compute; reflexivity..|apply demo_mib_ok].
Defined.
End Vacm.
