(* ===== verification/PduApi.v ===== *)
(** * Building and reading messages and PDUs
      (src/pysnmp/proto/api/v1.py, src/pysnmp/proto/api/v2c.py)

    The getters of the API are the projections of the records of Types.v; the
    operations that stamp a PDU draw its request ID from the one generator the
    two versions share.  A setter that pyasn1 checks against the constraint of
    the field answers [PyAsn1Error]. *)
From S2P Require Export NextId.

Module PduApi.

(** [nextid.Integer(0xFFFFFF)] *)
Definition getNextRequestID (e : Z) : result exn NextId.Integer := NextId.init 16777215 256 e.

Abbreviation Gen := (M exn NextId.Integer).

(** [NamedValues] of the error status, v2c's including v1's *)
Definition noError : Z := 0.
Definition st_tooBig : Z := 1.
Definition noSuchName : Z := 2.
Definition badValue : Z := 3.
Definition readOnly : Z := 4.
Definition genErr : Z := 5.
Definition noAccess : Z := 6.
Definition wrongType : Z := 7.
Definition wrongLength : Z := 8.
Definition wrongEncoding : Z := 9.
Definition wrongValue : Z := 10.
Definition noCreation : Z := 11.
Definition inconsistentValue : Z := 12.
Definition resourceUnavailable : Z := 13.
Definition commitFailed : Z := 14.
Definition undoFailed : Z := 15.
Definition authorizationError : Z := 16.
Definition notWritable : Z := 17.
Definition inconsistentName : Z := 18.

(** ** Setters *)
Definition with_requestID (i : Z) (p : pdu) : pdu :=
  mk_pdu (pduType p) i (errorStatus p) (errorIndex p) (varBinds p).
Definition with_errorStatus (s : Z) (p : pdu) : pdu :=
  mk_pdu (pduType p) (requestID p) s (errorIndex p) (varBinds p).
Definition with_errorIndex (i : Z) (p : pdu) : pdu :=
  mk_pdu (pduType p) (requestID p) (errorStatus p) i (varBinds p).
Definition with_varBinds (l : list var_bind) (p : pdu) : pdu :=
  mk_pdu (pduType p) (requestID p) (errorStatus p) (errorIndex p) l.

(** What the constraint of the field admits: any integer in v1; in v2c the
    request ID is an Integer32, the error index is in 0..[max_bindings], and
    the error status is not constrained. *)
Definition max_bindings : Z := 2147483647.
Definition checked {A} (ok : bool) (a : A) : result exn A :=
  if ok then Ok a else Err (PyAsn1Error "constraint").

Definition setRequestID (v : Z) (p : pdu) : result exn pdu :=
  checked (Integer32_ok v) (with_requestID v p).
Definition setErrorIndex (v : Z) (p : pdu) : result exn pdu :=
  checked (in_range 0 max_bindings v) (with_errorIndex v p).
Definition setErrorStatus (v : Z) (p : pdu) : result exn pdu := Ok (with_errorStatus v p).
Definition setVarBinds (l : list var_bind) (p : pdu) : pdu := with_varBinds l p.

(** [PDUAPI.getErrorIndex] *)
Definition getErrorIndex (p : pdu) (muteErrors : bool) : result exn Z :=
  let n := Z.of_nat (length (varBinds p)) in
  if errorIndex p >? n then
    if muteErrors then Ok n else Err (ProtocolError "Error index out of range")
  else Ok (errorIndex p).

(** ** [PDUAPI] *)

(** [setDefaults]: a fresh request ID, no error, no bindings *)
Definition setDefaults (p : pdu) : Gen pdu :=
  i ← NextId.call; mret (mk_pdu (pduType p) i 0 0 []).

(** A newly made PDU of a class, before its fields are set. *)
Definition new (t : pdu_tag) : pdu := mk_pdu t 0 0 0 [].

(** [getResponse]; the request ID is already of the type of the field. *)
Definition getResponse (reqPDU : pdu) : Gen pdu :=
  rspPDU ← setDefaults (new ResponsePDU);
  mret (with_requestID (requestID reqPDU) rspPDU).

(** v1's [setEndOfMibError] and [setNoSuchInstanceError] *)
Definition v1_setEndOfMibError (p : pdu) (errorIndex : Z) : pdu :=
  with_errorStatus 2 (with_errorIndex errorIndex p).
Definition v1_setNoSuchInstanceError (p : pdu) (errorIndex : Z) : pdu :=
  v1_setEndOfMibError p errorIndex.

(** v1's [getVarBindTable] *)
Definition v1_getVarBindTable (reqPDU rspPDU : pdu) : list (list var_bind) :=
  if errorStatus rspPDU =? 2
  then [(λ vb : var_bind, (vb.1, VNull)) <$> varBinds reqPDU]
  else [varBinds rspPDU].

(** v2c's *)
Definition v2c_getVarBindTable (reqPDU rspPDU : pdu) : list (list var_bind) :=
  [varBinds rspPDU].

(** ** [BulkPDUAPI]: the two repetition counts are where the error fields are *)
Definition getNonRepeaters (p : pdu) : Z := errorStatus p.
Definition getMaxRepetitions (p : pdu) : Z := errorIndex p.
Definition setNonRepeaters (v : Z) (p : pdu) : result exn pdu :=
  checked (in_range 0 max_bindings v) (with_errorStatus v p).
Definition setMaxRepetitions (v : Z) (p : pdu) : result exn pdu :=
  checked (in_range 0 max_bindings v) (with_errorIndex v p).

(** [setDefaults] draws two request IDs: the second one stands. *)
Definition bulk_setDefaults (p : pdu) : Gen pdu :=
  p ← setDefaults p;
  i ← NextId.call;
  mret (mk_pdu (pduType p) i 0 10 []).

(** How many bindings are read once, and how many are repeated *)
Definition split_counts (nonRepeaters : Z) (reqVarBinds : list var_bind) : nat * nat :=
  let len := length reqVarBinds in
  let N := Z.to_nat (Z.min nonRepeaters (Z.of_nat len)) in
  (N, (len - N)%nat).

(** The rows of [range(0, len(rspVarBinds) - N, R)], in order; [fuel] is the
    number of rounds, at most the number of bindings as [R] is positive. *)
Fixpoint bulk_rows (fuel i N R : nat) (rspVarBinds : list var_bind) : list (list var_bind) :=
  match fuel with
  | O => []
  | S fuel' =>
      if (length rspVarBinds - N <=? i)%nat then []
      else
        let varBindRow := take N rspVarBinds ++ take R (drop (N + i) rspVarBinds) in
        let rest := bulk_rows fuel' (i + R) N R rspVarBinds in
        if (length varBindRow =? N + R)%nat then varBindRow :: rest else rest
  end.

Definition bulk_getVarBindTable (reqPDU rspPDU : pdu) : list (list var_bind) :=
  let '(N, R) := split_counts (getNonRepeaters reqPDU) (varBinds reqPDU) in
  let rspVarBinds := varBinds rspPDU in
  if (0 <? R)%nat then bulk_rows (length rspVarBinds) 0 N R rspVarBinds
  else if (0 <? N)%nat then [take N rspVarBinds]
  else [].

(** ** The traps *)

(** The names a v2c trap uses *)
Definition sysUpTime : oid := [1;3;6;1;2;1;1;3;0].
Definition snmpTrapAddress : oid := [1;3;6;1;6;3;18;1;3;0].
Definition snmpTrapCommunity : oid := [1;3;6;1;6;3;18;1;4;0].
Definition snmpTrapOID : oid := [1;3;6;1;6;3;1;1;4;1;0].
Definition snmpTrapEnterprise : oid := [1;3;6;1;6;3;1;1;4;3;0].

(** v2c's [TrapPDUAPI.setDefaults] *)
Definition v2c_trap_setDefaults (p : pdu) : Gen pdu :=
  p ← setDefaults p;
  mret (with_varBinds
    [(sysUpTime, VTimeTicks 0); (snmpTrapOID, VOid [1;3;6;1;6;3;1;1;5;1])] p).

(** v1's: the address of the host is looked up once and kept.  [resolved] is
    what the resolver answers. *)
Definition v1_trap_setDefaults (resolved : option octets) : M exn (option octets) trap_pdu :=
  fun networkAddress =>
    let agentAddress :=
      match networkAddress with
      | Some a => a
      | None => default [0;0;0;0] resolved
      end in
    (Ok (mk_trap [1;3;6;1;4;1;20408] agentAddress 0 0 0 []), Some agentAddress).

(** ** [MessageAPI] *)
Record message : Type := mk_message {
  msgVersion : Z;
  community : octets;
  msgPDU : v1_pdu;
}.

(** [setDefaults] of the two versions: "public" *)
Definition public : octets := [112; 117; 98; 108; 105; 99].

(** [getResponse]: a trap has no request ID to answer, and its first field is
    not an integer. *)
Definition message_getResponse (reqMsg : message) : Gen message :=
  match msgPDU reqMsg with
  | V1Pdu p =>
      rsp ← getResponse p;
      mret (mk_message (msgVersion reqMsg) (community reqMsg) (V1Pdu rsp))
  | V1Trap _ =>
      rsp ← setDefaults (new ResponsePDU);
      raise (PyAsn1Error "tag mismatch")
  end.

(** ** Lemmas *)
Lemma setDefaults_ok p st : NextId.wf st →
  ∃ i st', setDefaults p st = (Ok (mk_pdu (pduType p) i 0 0 []), st') ∧ NextId.wf st'.
Proof.
  intros Hwf. destruct (NextId.wf_supply _ Hwf) as (v & rest & Hb & _).
  destruct (NextId.call_spec st v rest Hwf Hb) as (st' & Hc & Hwf' & _).
  exists v, st'. unfold setDefaults. munfold. by rewrite Hc.
Qed.

Lemma getResponse_ok reqPDU st : NextId.wf st →
  ∃ st', getResponse reqPDU st = (Ok (mk_pdu ResponsePDU (requestID reqPDU) 0 0 []), st')
    ∧ NextId.wf st'.
Proof.
  intros Hwf. destruct (setDefaults_ok (new ResponsePDU) st Hwf) as (i & st' & He & Hwf').
  exists st'. unfold getResponse. munfold. rewrite He. by split.
Qed.

Lemma bulk_rows_end fuel i N R l : (length l - N <= i)%nat → bulk_rows fuel i N R l = [].
Proof. intros H. destruct fuel; [done|]. cbn. by rewrite (proj2 (Nat.leb_le _ _) H). Qed.

Lemma bulk_rows_spec first R reps : (0 < R)%nat → Forall (λ r, length r = R) reps →
  ∀ done_ tail fuel, (length tail < R)%nat → (length (concat reps ++ tail) <= fuel)%nat →
  bulk_rows fuel (length done_) (length first) R (first ++ done_ ++ concat reps ++ tail) =
    (λ r, first ++ r) <$> reps.
Proof.
  intros HR Hreps. induction Hreps as [|r reps Hr Hreps IH]; intros done_ tail fuel Ht Hf.
  - cbn [concat app fmap list_fmap]. destruct fuel; [done|]. cbn [bulk_rows].
    destruct (Nat.leb_spec (length (first ++ done_ ++ tail) - length first) (length done_)); [done|].
    rewrite take_app_length, app_assoc, <- length_app, drop_app_length.
    rewrite (proj2 (Nat.eqb_neq _ _)) by (rewrite length_app, length_take; lia).
    apply bulk_rows_end. rewrite !length_app. lia.
  - cbn [concat] in Hf |- *. rewrite !length_app in Hf.
    destruct fuel; [lia|]. cbn [bulk_rows].
    rewrite (proj2 (Nat.leb_gt _ _)) by (rewrite !length_app; lia).
    rewrite take_app_length, app_assoc, <- length_app, drop_app_length.
    rewrite <- (app_assoc r), <- Hr, take_app_length.
    rewrite (proj2 (Nat.eqb_eq _ _)) by (rewrite length_app; lia). cbn [fmap list_fmap].
    f_equal. rewrite <- (IH (done_ ++ r) tail fuel) by (try done; rewrite ?length_app; lia).
    rewrite length_app, Hr, <- !app_assoc. done.
Qed.

(** A GETBULK response reads back as its rows: the bindings that are read
    once followed by each whole repetition, and what is left of a repetition
    that was cut short is dropped. *)
Theorem bulk_table_is_the_repetitions reqPDU rspPDU first reps tail :
  let '(N, R) := split_counts (getNonRepeaters reqPDU) (varBinds reqPDU) in
  varBinds rspPDU = first ++ concat reps ++ tail →
  length first = N → (0 < R)%nat → Forall (λ r, length r = R) reps → (length tail < R)%nat →
  bulk_getVarBindTable reqPDU rspPDU = (λ r, first ++ r) <$> reps.
Proof.
  unfold bulk_getVarBindTable.
  destruct (split_counts (getNonRepeaters reqPDU) (varBinds reqPDU)) as [N R].
  intros -> <- HR Hreps Ht. rewrite (proj2 (Nat.ltb_lt _ _) HR).
  by apply (bulk_rows_spec first R reps HR Hreps [] tail); rewrite ?length_app; try lia.
Qed.

Definition demo_bulk : pdu :=
  mk_pdu GetBulkRequestPDU 7 1 10 [([1; 1], VNull); ([1; 2], VNull); ([1; 3], VNull)].
Definition demo_rsp : pdu := mk_pdu ResponsePDU 7 0 0
  [([1; 1; 0], VInteger 5); ([1; 2; 1], VInteger 1); ([1; 3; 1], VInteger 2);
   ([1; 2; 2], VInteger 3); ([1; 3; 2], VInteger 4); ([1; 2; 3], VInteger 6)].

Lemma bulk_table_is_the_repetitions_witness :
  bulk_getVarBindTable demo_bulk demo_rsp =
    [[([1; 1; 0], VInteger 5); ([1; 2; 1], VInteger 1); ([1; 3; 1], VInteger 2)];
     [([1; 1; 0], VInteger 5); ([1; 2; 2], VInteger 3); ([1; 3; 2], VInteger 4)]].
Proof.
  apply (bulk_table_is_the_repetitions demo_bulk demo_rsp [([1; 1; 0], VInteger 5)]
    [[([1; 2; 1], VInteger 1); ([1; 3; 1], VInteger 2)];
     [([1; 2; 2], VInteger 3); ([1; 3; 2], VInteger 4)]] [([1; 2; 3], VInteger 6)]);
    [reflexivity|reflexivity|vm_compute; lia|by repeat constructor|vm_compute; lia].
Defined.
End PduApi.
