(* ===== verification/Proxy.v ===== *)
(** * Translating between SNMPv1 and SNMPv2c (src/pysnmp/proto/proxy/rfc2576.py)

    [v1ToV2] draws a request ID for a trap and is a step of the generator;
    [v2ToV1] is a function.  The values of the two versions share constructors
    (Types.v), so [clone] through a value map is a lookup of the tag and a test
    of the constraint of the target class. *)
From S2P Require Export PduApi.
Export PduApi.

Module Proxy.

(** ** The maps *)

(** The tags of [__v1ToV2ValueMap] and of [__v2ToV1ValueMap]: the same nine *)
Definition valueMap (t : value_tag) : bool :=
  match t with
  | TInteger | TOctetString | TNull | TObjectIdentifier | TIpAddress | TCounter32
  | TGauge32 | TTimeTicks | TOpaque => true
  | TCounter64 | TNoSuchObject | TNoSuchInstance | TEndOfMibView => false
  end.

(** What the v1 class of the tag accepts: integers and strings are not
    constrained in v1. *)
Definition v1_value_ok (v : value) : bool :=
  match v with
  | VIpAddress s => IpAddress_ok s
  | VCounter32 z => Counter32_ok z
  | VGauge32 z => Gauge32_ok z
  | VTimeTicks z => TimeTicks_ok z
  | _ => true
  end.

Definition v1ToV2Value (v : value) : result exn value :=
  if valueMap (tagSet v) then checked (v2_value_ok v) v else Err KeyError.
Definition v2ToV1Value (v : value) : result exn value :=
  if valueMap (tagSet v) then checked (v1_value_ok v) v else Err KeyError.

Definition v1ToV2PduMap : dict pdu_tag pdu_tag :=
  [(GetRequestPDU, GetRequestPDU); (GetNextRequestPDU, GetNextRequestPDU);
   (SetRequestPDU, SetRequestPDU); (ResponsePDU, ResponsePDU); (TrapPDU, SNMPv2TrapPDU)].
Definition v2ToV1PduMap : dict pdu_tag pdu_tag :=
  [(GetRequestPDU, GetRequestPDU); (GetNextRequestPDU, GetNextRequestPDU);
   (SetRequestPDU, SetRequestPDU); (ResponsePDU, ResponsePDU);
   (SNMPv2TrapPDU, TrapPDU); (GetBulkRequestPDU, GetNextRequestPDU)].

Definition snmpTraps : oid := [1;3;6;1;6;3;1;1;5].
Definition v1ToV2TrapMap : dict Z oid :=
  (λ i, (i, snmpTraps ++ [i + 1])) <$> [0; 1; 2; 3; 4; 5].
Definition v2ToV1TrapMap : dict oid Z :=
  (λ i, (snmpTraps ++ [i + 1], i)) <$> [0; 1; 2; 3; 4; 5].

Definition v2ToV1ErrorMap : dict Z Z :=
  [(0, 0); (1, 1); (5, 5); (10, 3); (9, 3); (7, 3); (8, 3); (12, 3); (6, 2); (17, 2);
   (11, 2); (18, 2); (13, 5); (14, 5); (15, 5); (16, 2)].

(** A loop over variable bindings that translates the values *)
Fixpoint translate (f : value → result exn value) (l : list var_bind) :
    result exn (list var_bind) :=
  match l with
  | [] => Ok []
  | (o, v) :: l' => v' ← f v; l'' ← translate f l'; mret ((o, v') :: l'')
  end.

(** ** [v1ToV2] *)

(** [ObjectIdentifier + (0, n)]: a sub-identifier is not negative. *)
Definition enterpriseTrapOID (t : trap_pdu) : result exn oid :=
  checked (0 <=? specificTrap t) (enterprise t ++ [0; specificTrap t]).

(** 3.1.1 to 3.1.3 *)
Definition trap_oid (t : trap_pdu) : result exn oid :=
  if genericTrap t =? 6 then enterpriseTrapOID t
  else from_option_exc KeyError (dget v1ToV2TrapMap (genericTrap t)).

(** 3.1.4: the bindings that stand for the fields of the v1 trap *)
Definition trap_head (t : trap_pdu) (param : oid) (trapCommunity : octets) : list var_bind :=
  [(sysUpTime, VTimeTicks (timeStamp t));
   (snmpTrapOID, VOid param);
   (snmpTrapAddress, VIpAddress (agentAddr t));
   (snmpTrapCommunity, VOctetString trapCommunity);
   (snmpTrapEnterprise, VOid (enterprise t))].

(** 4.1.2.2: what a noSuchName response becomes *)
Definition v2_exceptions (orig : pdu) (l : list var_bind) : list var_bind :=
  (λ vb : var_bind,
     (vb.1, if decide (pduType orig = GetNextRequestPDU) then VEndOfMibView
            else VNoSuchObject)) <$> l.

Definition v1ToV2_trap (t : trap_pdu) (trapCommunity : octets) : Gen pdu :=
  param ← liftR (trap_oid t);
  liftR (checked (OctetString_ok trapCommunity) tt);;
  l ← liftR (translate v1ToV2Value (trapVarBinds t));
  v2Pdu ← setDefaults (new SNMPv2TrapPDU);
  mret (setVarBinds (trap_head t param trapCommunity ++ l) v2Pdu).

Definition v1ToV2_pdu (p : pdu) (origV2Pdu : option pdu) : result exn pdu :=
  t ← from_option_exc KeyError (dget v1ToV2PduMap (pduType p));
  l ← translate v1ToV2Value (varBinds p);
  errorIndex ← getErrorIndex p true;
  l ← (if responseClassPDUs (pduType p) && (errorStatus p =? 2)
       then match origV2Pdu with
            | Some orig => Ok (v2_exceptions orig l)
            | None => Err AttributeError
            end
       else Ok l);
  v2Pdu ← setErrorStatus (errorStatus p) (new t);
  v2Pdu ← setErrorIndex errorIndex v2Pdu;
  v2Pdu ← setRequestID (requestID p) v2Pdu;
  mret (setVarBinds l v2Pdu).

Definition v1ToV2 (v1Pdu : v1_pdu) (origV2Pdu : option pdu) (trapCommunity : octets) :
    Gen pdu :=
  match v1Pdu with
  | V1Trap t => v1ToV2_trap t trapCommunity
  | V1Pdu p => liftR (v1ToV2_pdu p origV2Pdu)
  end.

(** ** [v2ToV1] *)
Section v2ToV1.
(** What [v1.IpAddress] makes of a value that is not a string of octets: the
    conversions of pyasn1 *)
Context (other_address : value → result exn octets).

(** [v1.IpAddress(val)] *)
Definition v1_IpAddress (val : value) : result exn octets :=
  match val with
  | VIpAddress s | VOctetString s | VOpaque s =>
      if (length s =? 4)%nat then Ok s else Err (ProtocolError "Bad IP address syntax")
  | _ => other_address val
  end.

(** [val] as a component of type ObjectIdentifier, TimeTicks *)
Definition as_oid (val : value) : result exn oid :=
  match val with VOid o => Ok o | _ => Err (PyAsn1Error "tag mismatch") end.
Definition as_ticks (val : value) : result exn Z :=
  match val with VTimeTicks z => Ok z | _ => Err (PyAsn1Error "tag mismatch") end.

(** [for oid, val in v2VarBinds: if oid == name] *)
Definition first_named (name : oid) (l : list var_bind) : option value := dget l name.

(** 3.2.1 for a trap that is none of the standard ones, and the sub-identifier
    3.2.4 takes.  A string has items and slices too, but a slice of it is no
    enterprise; nothing else has items. *)
Definition enterprise_of (param : value) : result exn (oid * Z) :=
  match param with
  | VOid o =>
      let n := length o in
      if (n <? 2)%nat then Err IndexError
      else
        let ent := if nth (n - 2) o 0 =? 0 then take (n - 2) o else take (n - 1) o in
        Ok (ent, nth (n - 1) o 0)
  | VIpAddress _ => Err (ProtocolError "Bad IP address syntax")
  | VOctetString s | VOpaque s =>
      if (length s <? 2)%nat then Err IndexError else Err (PyAsn1Error "tag mismatch")
  | _ => Err TypeError
  end.

(** [snmpTrapOIDParam in __v2ToV1TrapMap] *)
Definition standard_trap (param : value) : option Z :=
  match param with VOid o => dget v2ToV1TrapMap o | _ => None end.

(** 3.2.6: the bindings that became fields are not repeated. *)
Definition kept_in_trap (vb : var_bind) : bool :=
  negb (din v2ToV1TrapMap vb.1
        || bool_decide (vb.1 ∈ [sysUpTime; snmpTrapAddress; snmpTrapEnterprise])).

Definition v2ToV1_trap (v2VarBinds : list var_bind) : result exn v1_pdu :=
  match v2VarBinds with
  | (_, uptime) :: (name, param) :: rest =>
      if negb (bool_decide (name = snmpTrapOID))
      then Err (ProtocolError "Second OID not snmpTrapOID")
      else
        ent_spec ← match standard_trap param with
                   | Some _ =>
                       match first_named snmpTrapEnterprise v2VarBinds with
                       | Some val => o ← as_oid val; mret (o, 0)
                       | None => Ok (snmpTraps, 0)
                       end
                   | None => enterprise_of param
                   end;
        addr ← match first_named snmpTrapAddress v2VarBinds with
               | Some val => v1_IpAddress val
               | None => Ok [0; 0; 0; 0]
               end;
        ticks ← as_ticks uptime;
        l ← translate v2ToV1Value (filter (λ vb, kept_in_trap vb = true) rest);
        mret (V1Trap (mk_trap ent_spec.1 addr (default 6 (standard_trap param))
                ent_spec.2 ticks l))
  | _ => Err (ProtocolError "SNMP v2c TRAP PDU requires at least two var-binds")
  end.

Definition exceptional (v : value) : bool :=
  match tagSet v with TNoSuchObject | TNoSuchInstance | TEndOfMibView => true | _ => false end.

(** The loop of 4.1.2: from the last binding to the first; [n] is [idx + 1],
    the pair is the error status and index of the v1 PDU. *)
Fixpoint scan (v2Pdu : pdu) (origV1Pdu : option v1_pdu) (n : nat) (st : Z * Z) :
    result exn (Z * Z) :=
  match n with
  | O => Ok st
  | S idx =>
      match varBinds v2Pdu !! idx with
      | None => Err IndexError
      | Some (_, val) =>
          if decide (tagSet val = TCounter64) then
            match origV1Pdu with
            | None => Err AttributeError
            | Some orig =>
                if decide (v1_tagSet orig = GetRequestPDU) then Ok (2, Z.of_nat n)
                else if decide (v1_tagSet orig = GetNextRequestPDU)
                then Err (StatusInformation (status_idx idx v2Pdu))
                else Err (ProtocolError "Counter64 on the way")
            end
          else scan v2Pdu origV1Pdu idx (if exceptional val then (2, Z.of_nat n) else st)
      end
  end.

(** 4.1.2.3.1 *)
Definition v1_error (v2Pdu : pdu) (st : Z * Z) : result exn (Z * Z) :=
  if errorStatus v2Pdu =? 0 then Ok st
  else i ← getErrorIndex v2Pdu true;
       mret (default 5 (dget v2ToV1ErrorMap (errorStatus v2Pdu)), i).

Definition v2ToV1_response (v2Pdu : pdu) (origV1Pdu : option v1_pdu) : result exn v1_pdu :=
  st ← scan v2Pdu origV1Pdu (length (varBinds v2Pdu)) (0, 0);
  st ← v1_error v2Pdu st;
  l ← (if st.1 =? 0 then translate v2ToV1Value (varBinds v2Pdu)
       else match origV1Pdu with
            | None => Err AttributeError
            | Some (V1Trap _) => Err TypeError
            | Some (V1Pdu o) => Ok (varBinds o)
            end);
  mret (V1Pdu (mk_pdu ResponsePDU (requestID v2Pdu) st.1 st.2 l)).

Definition v2ToV1 (v2Pdu : pdu) (origV1Pdu : option v1_pdu) : result exn v1_pdu :=
  match dget v2ToV1PduMap (pduType v2Pdu) with
  | None => Err (ProtocolError "Unsupported PDU type")
  | Some t =>
      if notificationClassPDUs (pduType v2Pdu) then v2ToV1_trap (varBinds v2Pdu)
      else if responseClassPDUs (pduType v2Pdu) then v2ToV1_response v2Pdu origV1Pdu
      else
        l ← translate v2ToV1Value (varBinds v2Pdu);
        mret (V1Pdu (mk_pdu t (requestID v2Pdu) 0 0 l))
  end.
End v2ToV1.

(** ** Values *)
Definition v1_kind (vb : var_bind) : Prop := valueMap (tagSet vb.2) = true.
#[global] Instance v1_kind_dec vb : Decision (v1_kind vb).
Proof. unfold v1_kind. apply _. Defined.

Lemma exceptional_iff v :
  valueMap (tagSet v) = false ↔ tagSet v = TCounter64 ∨ exceptional v = true.
Proof. destruct v; cbn; intuition congruence. Qed.

Lemma translate_spec f ok (Hf : ∀ v, f v = if valueMap (tagSet v) then checked (ok v) v else Err KeyError) l :
  (Forall v1_kind l ∧ Forall (λ vb : var_bind, ok vb.2 = true) l → translate f l = Ok l) ∧
  (∀ l', translate f l = Ok l' → l' = l ∧ Forall v1_kind l).
Proof.
  induction l as [|[o v] l [IH1 IH2]]; cbn [translate].
  { split; [done|]. by intros ? [= <-]. }
  rewrite Hf. split.
  - intros [[Hk Hl]%Forall_cons [Ho Hol]%Forall_cons]. unfold v1_kind in Hk. cbn in Hk, Ho.
    rewrite Hk. unfold checked. rewrite Ho. munfold. by rewrite IH1.
  - intros l'. destruct (valueMap (tagSet v)) eqn:E; [|done]. unfold checked.
    destruct (ok v); [|done]. munfold. destruct (translate f l) eqn:E'; [|done].
    intros [= <-]. destruct (IH2 a) as [-> Hl]; [done|]. split; [done|]. by constructor.
Qed.

Lemma translate_v2ToV1_ok l :
  Forall v1_kind l → Forall (λ vb : var_bind, v1_value_ok vb.2 = true) l →
  translate v2ToV1Value l = Ok l.
Proof. intros. by apply (translate_spec v2ToV1Value v1_value_ok). Qed.
Lemma translate_v2ToV1_inv l l' :
  translate v2ToV1Value l = Ok l' → l' = l ∧ Forall v1_kind l.
Proof. by apply (translate_spec v2ToV1Value v1_value_ok). Qed.
Lemma translate_v1ToV2_ok l :
  Forall v1_kind l → Forall (λ vb : var_bind, v2_value_ok vb.2 = true) l →
  translate v1ToV2Value l = Ok l.
Proof. intros. by apply (translate_spec v1ToV2Value v2_value_ok). Qed.
Lemma translate_v1ToV2_inv l l' :
  translate v1ToV2Value l = Ok l' → l' = l ∧ Forall v1_kind l.
Proof. by apply (translate_spec v1ToV2Value v2_value_ok). Qed.

Lemma v2_ok_v1_ok v : v2_value_ok v = true → v1_value_ok v = true.
Proof. by destruct v. Qed.

(** ** The loop of 4.1.2 *)

(** The binding at [i] has no v1 form. *)
Definition unfit (p : pdu) (i : nat) : Prop :=
  ∃ vb, varBinds p !! i = Some vb ∧ ¬ v1_kind vb.
(** It is a Counter64. *)
Definition counter64_at (p : pdu) (i : nat) : Prop :=
  ∃ vb : var_bind, varBinds p !! i = Some vb ∧ tagSet vb.2 = TCounter64.

Lemma scan_ok p o n st st' : scan p o n st = Ok st' → (n <= length (varBinds p))%nat →
  (st' = st ∧ ∀ i, (i < n)%nat → ¬ unfit p i) ∨
  (∃ i, (i < n)%nat ∧ unfit p i ∧ st' = (2, Z.of_nat i + 1)).
Proof.
  revert st; induction n as [|n IH]; intros st; cbn [scan].
  { intros [= <-] _. left. split; [done|]. lia. }
  destruct (varBinds p !! n) as [[o' v]|] eqn:E; [|done]. intros Hs Hn.
  destruct (decide (tagSet v = TCounter64)) as [Hc|Hc].
  { right. exists n. destruct o as [orig|]; [|done].
    destruct (decide (v1_tagSet orig = GetRequestPDU)); [|by case_decide].
    injection Hs as <-. split_and!; [lia| |f_equal; lia]. exists (o', v). split; [done|].
    unfold v1_kind. cbn. by rewrite Hc. }
  destruct (IH _ Hs ltac:(lia)) as [[-> Hall]|(i & Hi & Hu & ->)].
  - destruct (exceptional v) eqn:Ex.
    + right. exists n. split_and!; [lia| |f_equal; lia]. exists (o', v). split; [done|].
      unfold v1_kind. cbn. rewrite (proj2 (exceptional_iff v)); [done|by right].
    + left. split; [done|]. intros i Hi. destruct (decide (i = n)) as [->|]; [|apply Hall; lia].
      intros (vb & Hvb & Hk). rewrite E in Hvb. simplify_eq. apply Hk. unfold v1_kind. cbn.
      destruct (valueMap (tagSet v)) eqn:Em; [done|].
      apply exceptional_iff in Em as [?|?]; congruence.
  - right. exists i. split_and!; [lia|done|done].
Qed.

Lemma scan_total p orig n st : (n <= length (varBinds p))%nat →
  (∃ st', scan p (Some orig) n st = Ok st') ∨
  (∃ i, (i < n)%nat ∧ counter64_at p i ∧ (∀ j, (i < j < n)%nat → ¬ counter64_at p j) ∧
    v1_tagSet orig ≠ GetRequestPDU ∧
    scan p (Some orig) n st =
      if decide (v1_tagSet orig = GetNextRequestPDU)
      then Err (StatusInformation (status_idx i p))
      else Err (ProtocolError "Counter64 on the way")).
Proof.
  revert st; induction n as [|n IH]; intros st Hn; cbn [scan]; [left; eauto|].
  destruct (lookup_lt_is_Some_2 (varBinds p) n) as [[o' v] E]; [lia|]. rewrite E.
  destruct (decide (tagSet v = TCounter64)) as [Hc|Hc].
  - destruct (decide (v1_tagSet orig = GetRequestPDU)); [left; eauto|].
    right. exists n. split_and!; [lia|by eexists (o', v)|lia|done|by case_decide].
  - destruct (IH (if exceptional v then (2, Z.of_nat (S n)) else st)) as
      [?|(i & Hi & Hci & Hj & Hg & Hs)]; [lia|by left|].
    right. exists i. split_and!; [lia|done| |done|done].
    intros j Hij. destruct (decide (j = n)) as [->|]; [|apply Hj; lia].
    intros (vb & Hvb & Ht). rewrite E in Hvb. by simplify_eq.
Qed.

Lemma error_map_range s : s ≠ 0 → 1 ≤ default 5 (dget v2ToV1ErrorMap s) ≤ 5.
Proof.
  intros Hs. destruct (dget v2ToV1ErrorMap s) as [v|] eqn:E; cbn [default]; [|lia].
  apply dget_elem_of in E.
  assert (Hf : Forall (λ kv : Z * Z, kv.1 = 0 ∨ 1 ≤ kv.2 ≤ 5) v2ToV1ErrorMap).
  { apply (bool_decide_unpack _). by vm_compute. }
  rewrite Forall_forall in Hf. destruct (Hf _ E) as [?|?]; cbn in *; lia.
Qed.

Lemma unfit_none p : (∀ i, (i < length (varBinds p))%nat → ¬ unfit p i) →
  Forall v1_kind (varBinds p).
Proof.
  intros H. apply Forall_lookup. intros i vb Hi.
  destruct (decide (v1_kind vb)) as [|Hk]; [done|].
  exfalso. apply (H i); [by eapply lookup_lt_Some|]. by exists vb.
Qed.

Lemma unfit_some p i : unfit p i → ¬ Forall v1_kind (varBinds p).
Proof. intros (vb & Hi & Hk) Hf. rewrite Forall_lookup in Hf. by apply Hk, (Hf i). Qed.

(** ** A response *)
Section responses.
Context (other_address : value → result exn octets).

(** C24. Whatever a v2c response carries, the v1 response made of it can be
    expressed in v1: its error status is one of the six of RFC 1157, it has no
    Counter64 and no exception value unless the request had, and it reports an
    error exactly when the v2c response did or a binding has no v1 form, in
    which case the index names such a binding and the bindings are the
    request's. *)
Theorem v1_response_expressible p o r :
  pduType p = ResponsePDU → v2ToV1 other_address p (Some (V1Pdu o)) = Ok r →
  ∃ q, r = V1Pdu q ∧ pduType q = ResponsePDU ∧ requestID q = requestID p ∧
    0 ≤ errorStatus q ≤ 5 ∧
    (errorStatus q = 0 ↔ errorStatus p = 0 ∧ Forall v1_kind (varBinds p)) ∧
    (errorStatus q = 0 → errorIndex q = 0 ∧ varBinds q = varBinds p) ∧
    (errorStatus q ≠ 0 → varBinds q = varBinds o) ∧
    (errorStatus q ≠ 0 → errorStatus p = 0 →
       errorStatus q = 2 ∧ ∃ i, unfit p i ∧ errorIndex q = Z.of_nat i + 1).
Proof.
  intros Ht. unfold v2ToV1. rewrite Ht.
  cbn [dget v2ToV1PduMap decide notificationClassPDUs responseClassPDUs].
  change (dget v2ToV1PduMap ResponsePDU) with (Some ResponsePDU). cbn iota.
  unfold v2ToV1_response. munfold.
  destruct (scan _ _ _ _) as [st|] eqn:Es; [|done].
  apply scan_ok in Es; [|done]. unfold v1_error, getErrorIndex. munfold.
  destruct (Z.eqb_spec (errorStatus p) 0) as [H0|H0].
  - destruct Es as [[-> Hall]|(i & Hi & Hu & ->)]; cbn.
    + destruct (translate _ _) as [l|] eqn:El; [|done]. intros [= <-].
      apply translate_v2ToV1_inv in El as [-> Hk]. eexists. split; [reflexivity|].
      cbn. split_and!; try done; lia.
    + intros [= <-]. eexists. split; [reflexivity|]. cbn. split_and!; try done; [|eauto].
      split; [done|]. intros [_ Hk]. by apply unfit_some in Hu.
  - pose proof (error_map_range (errorStatus p) H0) as Hr.
    generalize dependent (default 5 (dget v2ToV1ErrorMap (errorStatus p))). intros s Hr.
    destruct (errorIndex p >? _); cbn [fst snd]; (destruct (Z.eqb_spec s 0); [lia|]);
      intros [= <-]; (eexists; split; [reflexivity|]);
      cbn [errorStatus errorIndex varBinds pduType requestID];
      split_and!; try done; try lia;
      first [split; [intros; exfalso; lia|intros [? _]; lia]|intros; exfalso; lia].
Qed.

(** The two ways a response of well-formed values can go *)
Lemma response_total p o :
  pduType p = ResponsePDU →
  Forall (λ vb : var_bind, v1_value_ok vb.2 = true) (varBinds p) →
  (∃ r, v2ToV1 other_address p (Some (V1Pdu o)) = Ok r) ∨
  (∃ i, counter64_at p i ∧ (∀ j, (i < j)%nat → ¬ counter64_at p j) ∧
    pduType o ≠ GetRequestPDU ∧
    v2ToV1 other_address p (Some (V1Pdu o)) =
      if decide (pduType o = GetNextRequestPDU)
      then Err (StatusInformation (status_idx i p))
      else Err (ProtocolError "Counter64 on the way")).
Proof.
  intros Ht Hok. unfold v2ToV1. rewrite Ht.
  change (dget v2ToV1PduMap ResponsePDU) with (Some ResponsePDU).
  cbn [notificationClassPDUs responseClassPDUs]. unfold v2ToV1_response. munfold.
  destruct (scan_total p (V1Pdu o) (length (varBinds p)) (0, 0) ltac:(done))
    as [[st Hs]|(i & Hi & Hc & Hj & Hg & Hs)]; cbn [v1_tagSet] in *.
  - left. rewrite Hs. apply scan_ok in Hs; [|done].
    assert (Hst : st = (0, 0) → Forall v1_kind (varBinds p)).
    { intros ->. destruct Hs as [[_ Hall]|(i & ? & ? & E)]; [by apply unfit_none|by simplify_eq]. }
    unfold v1_error, getErrorIndex. munfold.
    destruct (Z.eqb_spec (errorStatus p) 0) as [H0|H0].
    + destruct (Z.eqb_spec st.1 0) as [H1|H1]; [|by eauto].
      assert (st = (0, 0)) as ->.
      { destruct Hs as [[-> _]|(i & ? & ? & ->)]; [done|]. cbn in H1. lia. }
      rewrite translate_v2ToV1_ok by auto. by eauto.
    + pose proof (error_map_range (errorStatus p) H0).
      destruct (errorIndex p >? _); cbn [fst snd];
        (destruct (Z.eqb_spec (default 5 (dget v2ToV1ErrorMap (errorStatus p))) 0); [lia|]);
        by eauto.
  - right. exists i. split_and!; [done| |done|rewrite Hs; by case_decide].
    intros j Hij. destruct (decide (j < length (varBinds p))%nat) as [|Hlt]; [by apply Hj|].
    intros (vb & Hvb & _). apply lookup_lt_Some in Hvb. lia.
Qed.
(** A GETNEXT or a SET never gets past a Counter64. *)
Lemma scan_no_counter64 p orig n st st' : v1_tagSet orig ≠ GetRequestPDU →
  scan p (Some orig) n st = Ok st' → ∀ i, (i < n)%nat → ¬ counter64_at p i.
Proof.
  intros Hg. revert st. induction n as [|n IH]; intros st; cbn [scan]; [lia|].
  destruct (varBinds p !! n) as [[o v]|] eqn:E; [|done].
  destruct (decide (tagSet v = TCounter64)) as [Hc|Hc]; [by repeat case_decide|].
  intros Hs i Hi. destruct (decide (i = n)) as [->|]; [|eapply IH; [exact Hs|lia]].
  intros (vb & Hvb & Ht). rewrite E in Hvb. by simplify_eq.
Qed.

Lemma response_no_counter64 p o r : pduType p = ResponsePDU → pduType o ≠ GetRequestPDU →
  v2ToV1 other_address p (Some (V1Pdu o)) = Ok r → ∀ i, ¬ counter64_at p i.
Proof.
  intros Ht Ho. unfold v2ToV1. rewrite Ht.
  change (dget v2ToV1PduMap ResponsePDU) with (Some ResponsePDU).
  cbn [notificationClassPDUs responseClassPDUs]. unfold v2ToV1_response. munfold.
  destruct (scan _ _ _ _) as [st|] eqn:Es; [|done]. intros _ i Hc.
  destruct (decide (i < length (varBinds p))%nat) as [Hi|Hi].
  - by eapply scan_no_counter64 in Es; [..|exact Hi].
  - destruct Hc as (vb & Hvb & _). apply lookup_lt_Some in Hvb. lia.
Qed.

(** Translating a v2c response fails only for a Counter64: a request for
    the next objects is told, by the index of the last Counter64, where to go
    on, a SET is refused, and the answer to a GET always translates.  What
    translates for another request holds no Counter64. *)
Theorem counter64_is_reissued p o :
  pduType p = ResponsePDU →
  Forall (λ vb : var_bind, v1_value_ok vb.2 = true) (varBinds p) →
  (∃ r, v2ToV1 other_address p (Some (V1Pdu o)) = Ok r ∧
    (pduType o ≠ GetRequestPDU → ∀ i, ¬ counter64_at p i)) ∨
  (∃ i, counter64_at p i ∧ (∀ j, (i < j)%nat → ¬ counter64_at p j) ∧
    pduType o ≠ GetRequestPDU ∧
    v2ToV1 other_address p (Some (V1Pdu o)) =
      if decide (pduType o = GetNextRequestPDU)
      then Err (StatusInformation (status_idx i p))
      else Err (ProtocolError "Counter64 on the way")).
Proof.
  intros Ht Hok. destruct (response_total p o Ht Hok) as [[r Hr]|H]; [left|by right].
  exists r. split; [done|]. intros Ho. by eapply response_no_counter64.
Qed.
End responses.

(** ** Round trips *)
Lemma standard_traps g : 0 ≤ g < 6 →
  dget v1ToV2TrapMap g = Some (snmpTraps ++ [g + 1]) ∧
  dget v2ToV1TrapMap (snmpTraps ++ [g + 1]) = Some g.
Proof.
  intros H. assert (g = 0 ∨ g = 1 ∨ g = 2 ∨ g = 3 ∨ g = 4 ∨ g = 5) as Hg by lia.
  by destruct Hg as [->|[->|[->|[->|[->| ->]]]]].
Qed.

Lemma enterprise_trap_not_standard e s : dget v2ToV1TrapMap (e ++ [0; s]) = None.
Proof.
  apply dget_None. intros Hin.
  change (dkeys v2ToV1TrapMap) with ((λ i, snmpTraps ++ [i + 1]) <$> [0; 1; 2; 3; 4; 5]) in Hin.
  apply list_elem_of_fmap in Hin as (i & He & _).
  change (snmpTraps ++ [i + 1]) with ([1;3;6;1;6;3;1;1] ++ [5; i + 1]) in He.
  apply app_inj_2 in He as [_ He]; [by simplify_eq|done].
Qed.

Lemma enterprise_of_trap e s : enterprise_of (VOid (e ++ [0; s])) = Ok (e, s).
Proof.
  cbn [enterprise_of]. rewrite length_app. cbn [length].
  replace (length e + 2 - 2)%nat with (length e) by lia.
  replace (length e + 2 - 1)%nat with (S (length e)) by lia.
  rewrite (proj2 (Nat.ltb_ge _ _)) by lia.
  rewrite !app_nth2 by lia. rewrite Nat.sub_diag.
  replace (S (length e) - length e)%nat with 1%nat by lia. cbn.
  by rewrite take_app_length.
Qed.

(** A v1 trap whose fields are in the ranges v2c has for them. *)
Record trap_ok (t : trap_pdu) : Prop := {
  trap_addr : length (agentAddr t) = 4%nat;
  trap_generic : 0 ≤ genericTrap t ≤ 6;
  trap_specific : genericTrap t = 6 → 0 ≤ specificTrap t;
  trap_ticks : TimeTicks_ok (timeStamp t) = true;
  trap_kinds : Forall v1_kind (trapVarBinds t);
  trap_values : Forall (λ vb : var_bind, v2_value_ok vb.2 = true) (trapVarBinds t);
}.

Lemma trap_oid_spec t : trap_ok t → ∃ param, trap_oid t = Ok param ∧
  standard_trap (VOid param) = (if genericTrap t =? 6 then None else Some (genericTrap t)) ∧
  (genericTrap t = 6 → enterprise_of (VOid param) = Ok (enterprise t, specificTrap t)).
Proof.
  intros Ht. pose proof (trap_generic _ Ht). unfold trap_oid, standard_trap.
  destruct (Z.eqb_spec (genericTrap t) 6) as [E|E].
  - exists (enterprise t ++ [0; specificTrap t]). unfold enterpriseTrapOID, checked.
    rewrite (proj2 (Z.leb_le _ _) (trap_specific _ Ht E)).
    split_and!; [done|apply enterprise_trap_not_standard|intros; apply enterprise_of_trap].
  - destruct (standard_traps (genericTrap t)) as [H1 H2]; [lia|]. rewrite H1.
    exists (snmpTraps ++ [genericTrap t + 1]). by split_and!.
Qed.

(** A v1 trap keeps its enterprise, agent address, trap numbers and time
    stamp through v2c and back.  A standard trap loses its specific number,
    which means nothing there; the bindings gain the community and lose those
    that bear the name of a field. *)
Theorem trap_roundtrip other t trapCommunity orig st :
  trap_ok t → OctetString_ok trapCommunity = true → NextId.wf st →
  ∃ p st', v1ToV2 (V1Trap t) None trapCommunity st = (Ok p, st') ∧
    v2ToV1 other p orig = Ok (V1Trap (mk_trap (enterprise t) (agentAddr t) (genericTrap t)
      (if genericTrap t =? 6 then specificTrap t else 0) (timeStamp t)
      ((snmpTrapCommunity, VOctetString trapCommunity) ::
       filter (λ vb, kept_in_trap vb = true) (trapVarBinds t)))).
Proof.
  intros Ht Hc Hst. destruct (trap_oid_spec _ Ht) as (param & Hp & Hstd & Hent).
  destruct (setDefaults_ok (new SNMPv2TrapPDU) st Hst) as (i & st' & Hd & _).
  cbn [v1ToV2]. unfold v1ToV2_trap. munfold. rewrite Hp. unfold checked. rewrite Hc.
  rewrite translate_v1ToV2_ok by apply Ht. rewrite Hd. eexists _, st'. split; [reflexivity|].
  unfold v2ToV1. cbn [pduType setVarBinds with_varBinds varBinds new notificationClassPDUs].
  change (dget v2ToV1PduMap SNMPv2TrapPDU) with (Some TrapPDU). cbn iota.
  unfold v2ToV1_trap, trap_head, first_named. cbn [app].
  rewrite bool_decide_true by done. cbn [negb].
  rewrite Hstd. set (head := (_, VTimeTicks _) :: _).
  change (dget head snmpTrapAddress) with (Some (VIpAddress (agentAddr t))).
  change (dget head snmpTrapEnterprise) with (Some (VOid (enterprise t))).
  cbn [v1_IpAddress as_ticks as_oid]. rewrite (trap_addr _ Ht). cbn [Nat.eqb].
  rewrite (filter_cons_False _ (snmpTrapAddress, _)) by done.
  rewrite (filter_cons_True _ (snmpTrapCommunity, _)) by done.
  rewrite (filter_cons_False _ (snmpTrapEnterprise, _)) by done.
  rewrite translate_v2ToV1_ok.
  - destruct (Z.eqb_spec (genericTrap t) 6) as [E|E]; munfold; [rewrite (Hent E), E|]; done.
  - constructor; [done|]. apply Forall_forall. intros vb [_ Hin]%list_elem_of_filter.
    by eapply Forall_forall in Hin; [|apply (trap_kinds _ Ht)].
  - constructor; [done|]. apply Forall_forall. intros vb [_ Hin]%list_elem_of_filter.
    apply v2_ok_v1_ok. by eapply Forall_forall in Hin; [|apply (trap_values _ Ht)].
Qed.

(** A v1 PDU as a peer sends it: its fields fit v2c's; a request reports no
    error, and a response that reports one echoes the bindings of its request
    [o]. *)
Record pdu_ok (o p : pdu) : Prop := {
  ok_type : din v1ToV2PduMap (pduType p) = true ∧ pduType p ≠ TrapPDU;
  ok_requestID : Integer32_ok (requestID p) = true;
  ok_index : 0 ≤ errorIndex p ≤ Z.of_nat (length (varBinds p)) ∧
    errorIndex p ≤ max_bindings;
  ok_status : 0 ≤ errorStatus p ≤ 5 ∧ (errorStatus p = 0 → errorIndex p = 0);
  ok_request : pduType p ≠ ResponsePDU → errorStatus p = 0;
  ok_echo : errorStatus p ≠ 0 → varBinds o = varBinds p;
  ok_kinds : Forall v1_kind (varBinds p);
  ok_values : Forall (λ vb : var_bind, v2_value_ok vb.2 = true) (varBinds p);
}.

(** The statuses v2c has none for are lost on the way back. *)
Definition status_back (s : Z) : Z := if in_range 2 4 s then 5 else s.

Lemma pdu_types p o : pdu_ok o p →
  dget v1ToV2PduMap (pduType p) = Some (pduType p) ∧
  dget v2ToV1PduMap (pduType p) = Some (pduType p) ∧
  notificationClassPDUs (pduType p) = false ∧
  (responseClassPDUs (pduType p) = true ↔ pduType p = ResponsePDU).
Proof. intros [[Ht Hn] _ _ _ _ _ _ _]. by destruct (pduType p). Qed.

Lemma v1ToV2_pdu_ok o p orig : pdu_ok o p → (errorStatus p = 2 → is_Some orig) →
  ∃ l, v1ToV2_pdu p orig = Ok (with_varBinds l p) ∧ length l = length (varBinds p) ∧
    (errorStatus p ≠ 2 → l = varBinds p) ∧
    Forall (λ vb : var_bind, tagSet vb.2 ≠ TCounter64) l.
Proof.
  intros Hok Horig. destruct (pdu_types _ _ Hok) as (Hm & _ & _ & Hr).
  destruct (ok_index _ _ Hok) as [[Hi1 Hi2] Hi3]. unfold v1ToV2_pdu.
  rewrite Hm, translate_v1ToV2_ok by apply Hok. unfold getErrorIndex, setErrorIndex, setRequestID.
  munfold. cbn [from_option_exc]. rewrite Z.gtb_ltb, (proj2 (Z.ltb_ge _ _)) by lia.
  unfold checked. rewrite (ok_requestID _ _ Hok).
  rewrite (proj2 (in_range_iff 0 max_bindings (errorIndex p))) by lia.
  destruct (responseClassPDUs (pduType p) && (errorStatus p =? 2)) eqn:E.
  - apply andb_true_iff in E as [_ E%Z.eqb_eq]. destruct (Horig E) as [d ->].
    eexists. split; [reflexivity|]. split_and!; [apply length_fmap|congruence|].
    apply Forall_fmap, Forall_true. intros [? ?]. cbn. by case_decide.
  - exists (varBinds p). split_and!; try done.
    eapply Forall_impl; [apply (ok_kinds _ _ Hok)|]. intros vb Hk E'. unfold v1_kind in Hk.
    by rewrite E' in Hk.
Qed.

Lemma round_values o p : pdu_ok o p → translate v2ToV1Value (varBinds p) = Ok (varBinds p).
Proof.
  intros Hok. apply translate_v2ToV1_ok; [apply Hok|].
  eapply Forall_impl; [apply (ok_values _ _ Hok)|]. intros vb; apply v2_ok_v1_ok.
Qed.

Lemma status_back_map s : 1 ≤ s ≤ 5 → default 5 (dget v2ToV1ErrorMap s) = status_back s.
Proof.
  intros H. assert (s = 1 ∨ s = 2 ∨ s = 3 ∨ s = 4 ∨ s = 5) as Hs by lia.
  by destruct Hs as [->|[->|[->|[->| ->]]]].
Qed.

(** A v1 request, and a v1 response with the request it answers, come back
    from v2c as they were, but for the error statuses noSuchName, badValue and
    readOnly: these come back as genErr. *)
Theorem v1_pdu_roundtrip other o p orig trapCommunity st :
  pdu_ok o p → (errorStatus p = 2 → is_Some orig) →
  ∃ p2, v1ToV2 (V1Pdu p) orig trapCommunity st = (Ok p2, st) ∧
    v2ToV1 other p2 (Some (V1Pdu o)) =
      Ok (V1Pdu (with_errorStatus (status_back (errorStatus p)) p)).
Proof.
  intros Hok Horig. destruct (v1ToV2_pdu_ok o p orig Hok Horig) as (l & Hp & Hlen & Hl & Hc64).
  exists (with_varBinds l p). cbn [v1ToV2]. unfold liftR. rewrite Hp. split; [done|].
  destruct (pdu_types _ _ Hok) as (_ & Hm & Hn & Hr).
  destruct (ok_status _ _ Hok) as [Hs Hs0]. destruct (ok_index _ _ Hok) as [Hi _].
  unfold v2ToV1. cbn [pduType with_varBinds varBinds requestID]. rewrite Hm, Hn.
  destruct (responseClassPDUs (pduType p)) eqn:Er.
  - pose proof (proj1 Hr eq_refl) as Ht. unfold v2ToV1_response, with_errorStatus.
    destruct (scan_total (with_varBinds l p) (V1Pdu o) (length l) (0, 0) ltac:(done))
      as [[st' Hsc]|(i & _ & (vb & Hi' & Hc) & _)];
      [|by eapply Forall_lookup_1 in Hc64; [|exact Hi']].
    munfold. cbn [varBinds with_varBinds requestID]. rewrite Hsc, Ht.
    unfold v1_error, getErrorIndex. cbn [errorStatus errorIndex varBinds with_varBinds].
    destruct (Z.eqb_spec (errorStatus p) 0) as [H0|H0].
    + rewrite H0, (Hl ltac:(lia)) in *.
      apply scan_ok in Hsc; [|done]. destruct Hsc as [[-> _]|(i & _ & Hu & _)].
      * munfold. rewrite (round_values o p Hok), Hs0 by done. done.
      * apply unfit_some in Hu. destruct Hu. apply Hok.
    + rewrite Hlen, Z.gtb_ltb, (proj2 (Z.ltb_ge _ _)) by lia. munfold.
      rewrite status_back_map by lia. unfold status_back at 1.
      rewrite (proj2 (Z.eqb_neq _ 0)) by (destruct (in_range _ _ _); lia).
      by rewrite (ok_echo _ _ Hok H0).
  - assert (H0 : errorStatus p = 0).
    { apply (ok_request _ _ Hok). intros E. apply Hr in E. congruence. }
    rewrite (Hl ltac:(lia)), (round_values o p Hok). munfold. unfold with_errorStatus.
    by rewrite H0, Hs0.
Qed.

(** ** Concrete translations *)

(** A v2c notification that carries a Counter64 raises KeyError. *)
Example trap_counter64_is_KeyError other :
  v2ToV1 other (mk_pdu SNMPv2TrapPDU 1 0 0
    [(sysUpTime, VTimeTicks 5); (snmpTrapOID, VOid (snmpTraps ++ [1]));
     ([1; 3; 6; 1], VCounter64 7)]) None = Err KeyError.
Proof. reflexivity. Qed.

Definition no_address (v : value) : result exn octets := Err TypeError.
Definition demo_get : pdu := mk_pdu GetRequestPDU 9 0 0 [([1; 3; 1], VNull); ([1; 3; 2], VNull)].
Definition demo_next : pdu := mk_pdu GetNextRequestPDU 9 0 0 [([1; 3; 1], VNull); ([1; 3; 2], VNull)].
Definition demo_answer : pdu :=
  mk_pdu ResponsePDU 9 0 0 [([1; 3; 1], VInteger 4); ([1; 3; 2], VCounter64 5)].

Lemma v1_response_expressible_witness :
  ∃ q, V1Pdu (mk_pdu ResponsePDU 9 2 2 (varBinds demo_get)) = V1Pdu q ∧ 0 ≤ errorStatus q ≤ 5.
Proof.
  destruct (v1_response_expressible no_address demo_answer demo_get
    (V1Pdu (mk_pdu ResponsePDU 9 2 2 (varBinds demo_get)))) as (q & Hq & _ & _ & Hs & _);
    [reflexivity|reflexivity|]. exists q. split; [exact Hq|exact Hs].
Defined.

Lemma counter64_is_reissued_witness :
  ∃ i, counter64_at demo_answer i ∧
    v2ToV1 no_address demo_answer (Some (V1Pdu demo_next)) =
      Err (StatusInformation (status_idx i demo_answer)).
Proof.
  destruct (counter64_is_reissued no_address demo_answer demo_next) as [[r [Hr _]]|(i & Hc & _ & _ & Hi)];
    [reflexivity|by repeat constructor| |].
  - exfalso. revert Hr. vm_compute. done.
  - exists i. split; [exact Hc|]. rewrite Hi. reflexivity.
Defined.

Definition demo_trap : trap_pdu :=
  mk_trap [1; 3; 6; 1; 4; 1; 9] [10; 0; 0; 1] 6 17 4321 [([1; 3; 1], VInteger 4)].
Definition demo_generator : NextId.Integer :=
  NextId.mk_Integer 16777215 256 128 (NextId.range 1000 256).
Lemma demo_generator_wf : NextId.wf demo_generator.
Proof.
  apply (NextId.nextid_init_wf 16777215 256 1000); [lia|split; vm_compute; congruence|reflexivity].
Qed.

Lemma trap_roundtrip_witness :
  ∃ p st', v1ToV2 (V1Trap demo_trap) None public demo_generator = (Ok p, st') ∧
    v2ToV1 no_address p None = Ok (V1Trap (mk_trap [1; 3; 6; 1; 4; 1; 9] [10; 0; 0; 1] 6 17 4321
      [(snmpTrapCommunity, VOctetString public); ([1; 3; 1], VInteger 4)])).
Proof.
  apply (trap_roundtrip no_address demo_trap public None demo_generator);
    [|reflexivity|apply demo_generator_wf].
  split; [reflexivity|vm_compute; split; congruence|intros _; vm_compute; congruence|reflexivity
    |by repeat constructor|by repeat constructor].
Defined.

Lemma v1_pdu_roundtrip_witness :
  ∃ p2, v1ToV2 (V1Pdu (mk_pdu ResponsePDU 9 2 1 (varBinds demo_get))) (Some demo_get) []
      demo_generator = (Ok p2, demo_generator) ∧
    v2ToV1 no_address p2 (Some (V1Pdu demo_get)) =
      Ok (V1Pdu (mk_pdu ResponsePDU 9 5 1 (varBinds demo_get))).
Proof.
  apply (v1_pdu_roundtrip no_address demo_get (mk_pdu ResponsePDU 9 2 1 (varBinds demo_get))
    (Some demo_get) [] demo_generator); [|by eexists].
  split; try reflexivity; try (by repeat constructor); cbn; try done.
Defined.
End Proxy.
