(* ===== verification/Instrum.v ===== *)
(** * The state machine of MIB operations (src/pysnmp/smi/instrum.py)

    A GET, a GETNEXT or a SET is a run of [flipFlopFsm]: each state is a pass
    of one method of the MIB tree over all bindings, and the table says which
    state follows a pass that succeeded or failed.  The methods of the tree are
    the argument [handler]; Scalars.v supplies them. *)
From S2P Require Export Errors.

Module Instrum.

Inductive fsm_state : Type :=
  | start | readTest | readGet | readTestNext | readGetNext | writeTest | writeCommit
  | writeCleanup | writeUndo | stop.
Inductive fsm_status : Type := ok | err.

#[global] Instance fsm_state_eq_dec : EqDecision fsm_state.
Proof. solve_decision. Defined.
#[global] Instance fsm_status_eq_dec : EqDecision fsm_status.
Proof. solve_decision. Defined.

(** The state ["*"] is [None]. *)
Abbreviation fsm_table := (dict (option fsm_state * fsm_status) fsm_state).

Definition fsmReadVar : fsm_table :=
  [((Some start, ok), readTest); ((Some readTest, ok), readGet); ((Some readGet, ok), stop);
   ((None, err), stop)].
Definition fsmReadNextVar : fsm_table :=
  [((Some start, ok), readTestNext); ((Some readTestNext, ok), readGetNext);
   ((Some readGetNext, ok), stop); ((None, err), stop)].
Definition fsmWriteVar : fsm_table :=
  [((Some start, ok), writeTest); ((Some writeTest, ok), writeCommit);
   ((Some writeCommit, ok), writeCleanup); ((Some writeCleanup, ok), readTest);
   ((Some readTest, ok), readGet); ((Some readGet, ok), stop);
   ((Some writeTest, err), writeCleanup); ((Some writeCommit, err), writeUndo);
   ((Some writeUndo, ok), readTest);
   ((Some readTest, err), stop); ((Some readGet, err), stop); ((None, err), stop)].

(** [fsmTable[(state, status)]], else [fsmTable[("*", status)]] *)
Definition transition (fsmTable : fsm_table) (st : fsm_state) (status : fsm_status) :
    option fsm_state :=
  match dget fsmTable (Some st, status) with
  | Some s => Some s
  | None => dget fsmTable (None, status)
  end.

Section fsm.
Context {S : Type}.

(** A method of the tree on one binding, at its position in the request *)
Context (handler : fsm_state → nat → var_bind → M exn S (option var_bind)).

(** The [for] loop: the bindings the methods return, and the SMI error that
    broke it off; any other exception leaves the operation. *)
Fixpoint pass (st : fsm_state) (idx : nat) (inputVarBinds : list var_bind) :
    M exn S (list var_bind * option exn) := fun s =>
  match inputVarBinds with
  | [] => (Ok ([], None), s)
  | vb :: rest =>
      match handler st idx vb s with
      | (Err e, s') => if is_SmiError e then (Ok ([], Some e), s') else (Err e, s')
      | (Ok rval, s') =>
          match pass st (Datatypes.S idx) rest s' with
          | (Err e, s'') => (Err e, s'')
          | (Ok (outs, e), s'') => (Ok (option_list rval ++ outs, e), s'')
          end
      end
  end.

(** The [while] loop from [(st, status)], with the first error and the output
    so far; [None] is a loop that [fuel] rounds do not finish. *)
Fixpoint run_fsm (fuel : nat) (fsmTable : fsm_table) (inputVarBinds : list var_bind)
    (st : fsm_state) (status : fsm_status) (origExc : option exn)
    (outputVarBinds : list var_bind) (s : S) : option (result exn (list var_bind) * S) :=
  match fuel with
  | O => None
  | Datatypes.S fuel' =>
      match transition fsmTable st status with
      | None => Some (Err (SmiError "Unresolved FSM state"), s)
      | Some stop =>
          match origExc with
          | Some e => Some (Err e, s)
          | None => Some (Ok outputVarBinds, s)
          end
      | Some st' =>
          match pass st' 0 inputVarBinds s with
          | (Err e, s') => Some (Err e, s')
          | (Ok (outs, e), s') =>
              run_fsm fuel' fsmTable inputVarBinds st' (if e then err else ok)
                (match origExc with Some _ => origExc | None => e end)
                (outputVarBinds ++ outs) s'
          end
      end
  end.

(** Six passes and the final transition are enough for the three tables
    ([fsm_terminates]). *)
Definition rounds : nat := 7.
Definition flipFlopFsm (fsmTable : fsm_table) (inputVarBinds : list var_bind) :
    M exn S (list var_bind) := fun s =>
  match run_fsm rounds fsmTable inputVarBinds start ok None [] s with
  | Some r => r
  | None => (Err (SmiError "Unresolved FSM state"), s)
  end.

Definition readVars : list var_bind → M exn S (list var_bind) := flipFlopFsm fsmReadVar.
Definition readNextVars : list var_bind → M exn S (list var_bind) := flipFlopFsm fsmReadNextVar.
Definition writeVars : list var_bind → M exn S (list var_bind) := flipFlopFsm fsmWriteVar.

(** ** Termination *)

(** How many more rounds a state can take, in any of the three tables *)
Definition rank (st : fsm_state) (status : fsm_status) : nat :=
  match status, st with
  | ok, start => 7
  | ok, writeTest => 6
  | ok, writeCommit => 5
  | ok, writeCleanup | ok, writeUndo => 4
  | ok, readTest | ok, readTestNext => 3
  | ok, readGet | ok, readGetNext => 2
  | err, writeTest => 5
  | err, writeCommit => 5
  | err, _ => 1
  | ok, stop => 1
  end.

Definition tables : list fsm_table := [fsmReadVar; fsmReadNextVar; fsmWriteVar].

Lemma transition_rank t st status st' status' : t ∈ tables →
  transition t st status = Some st' → st' = stop ∨ (rank st' status' < rank st status)%nat.
Proof.
  intros Ht. unfold tables in Ht. rewrite !elem_of_cons in Ht.
  destruct Ht as [->|[->|[->|[]%not_elem_of_nil]]];
    destruct st, status; cbv; intros [= <-]; try (by left); right; destruct status'; lia.
Qed.

Lemma run_fsm_total t fuel vbs st status exc outs s : t ∈ tables →
  (rank st status <= fuel)%nat → is_Some (run_fsm fuel t vbs st status exc outs s).
Proof.
  intros Ht. revert st status exc outs s.
  induction fuel as [|fuel IH]; intros st status exc outs s Hr.
  { destruct st, status; cbn in Hr; lia. }
  cbn [run_fsm]. destruct (transition t st status) as [st'|] eqn:E; [|by eauto].
  pose proof (λ status', transition_rank t st status st' status' Ht E) as Hrank.
  assert (H : st' = stop ∨ ∀ status', (rank st' status' < rank st status)%nat).
  { destruct (decide (st' = stop)); [by left|right]. intros status'.
    by destruct (Hrank status'). }
  destruct (pass st' 0 vbs s) as [[[outs' e]|e] s'];
    [|by destruct st'; eauto; destruct exc; eauto].
  destruct H as [->|H]; [destruct exc; eauto|].
  specialize (IH st' (if e then err else ok) (match exc with Some _ => exc | None => e end)
    (outs ++ outs') s'). destruct st'; try (by destruct exc; eauto); apply IH;
    specialize (H (if e then err else ok)); lia.
Qed.

(** More rounds change nothing. *)
Lemma run_fsm_mono t fuel vbs st status exc outs s r :
  run_fsm fuel t vbs st status exc outs s = Some r →
  ∀ fuel', (fuel <= fuel')%nat → run_fsm fuel' t vbs st status exc outs s = Some r.
Proof.
  revert st status exc outs s. induction fuel as [|fuel IH]; [done|].
  intros st status exc outs s Hr [|fuel'] Hf; [lia|]. cbn [run_fsm] in *.
  destruct (transition t st status) as [[]|]; try done;
    (destruct (pass _ 0 vbs s) as [[[outs' e]|e] s']; [|done]; apply (IH _ _ _ _ _ Hr); lia).
Qed.

(** C18. A MIB operation ends: whatever the methods of the tree do, each of the
    three state machines stops within seven rounds, and [flipFlopFsm] is what
    the loop computes however long it is left to run. *)
Theorem fsm_terminates t vbs s : t ∈ tables →
  ∀ fuel, (rounds <= fuel)%nat →
  run_fsm fuel t vbs start ok None [] s = Some (flipFlopFsm t vbs s).
Proof.
  intros Ht fuel Hf. unfold flipFlopFsm.
  destruct (run_fsm_total t rounds vbs start ok None [] s Ht) as [r Hr]; [done|].
  rewrite Hr. by eapply run_fsm_mono.
Qed.

(** ** One round at a time *)
Lemma run_fsm_step n t vbs st status exc outs s st' :
  transition t st status = Some st' → st' ≠ stop →
  run_fsm (Datatypes.S n) t vbs st status exc outs s =
    match pass st' 0 vbs s with
    | (Err e, s') => Some (Err e, s')
    | (Ok (o, e), s') =>
        run_fsm n t vbs st' (if e then err else ok) (match exc with Some _ => exc | None => e end)
          (outs ++ o) s'
    end.
Proof. intros H Hs. cbn [run_fsm]. rewrite H. by destruct st'. Qed.

Lemma run_fsm_stop n t vbs st status exc outs s :
  transition t st status = Some stop →
  run_fsm (Datatypes.S n) t vbs st status exc outs s =
    Some (match exc with Some e => Err e | None => Ok outs end, s).
Proof. intros H. cbn [run_fsm]. rewrite H. by destruct exc. Qed.

(** ** What the passes change *)
Lemma pass_rel (R : S → S → Prop) `{!PreOrder R} st :
  (∀ idx vb s, R s (handler st idx vb s).2) →
  ∀ vbs idx s, R s (pass st idx vbs s).2.
Proof.
  intros H vbs. induction vbs as [|vb vbs IH]; intros idx s; cbn [pass]; [reflexivity|].
  specialize (H idx vb s). destruct (handler st idx vb s) as [[rval|e] s']; cbn in *.
  - specialize (IH (Datatypes.S idx) s'). destruct (pass _ _ vbs s') as [[[outs e]|e] s''];
      cbn in *; by etrans.
  - by destruct (is_SmiError e).
Qed.

(** A pass that goes through on every binding, one state after another. *)
Lemma pass_step st idx vb vbs s rval s' outs s'' :
  handler st idx vb s = (Ok rval, s') →
  pass st (Datatypes.S idx) vbs s' = (Ok (outs, None), s'') →
  pass st idx (vb :: vbs) s = (Ok (option_list rval ++ outs, None), s'').
Proof. intros H1 H2. cbn [pass]. by rewrite H1, H2. Qed.

(** The states that neither commit nor undo. *)
Definition harmless (st : fsm_state) : bool :=
  match st with writeCommit | writeUndo => false | _ => true end.

(** A SET whose test phase fails goes on to the cleanup and the reads only. *)
Lemma writeVars_test_fails (R : S → S → Prop) `{!PreOrder R} vbs s outs e s1 :
  (∀ st idx vb s, harmless st = true →
     R s (handler st idx vb s).2) →
  pass writeTest 0 vbs s = (Ok (outs, Some e), s1) →
  R s (writeVars vbs s).2 ∧ ∃ e', (writeVars vbs s).1 = Err e'.
Proof.
  intros HR Ht.
  assert (HP : ∀ st, harmless st = true →
    ∀ s, R s (pass st 0 vbs s).2) by (intros; apply pass_rel; auto).
  pose proof (HP writeTest eq_refl s) as H1. rewrite Ht in H1. cbn in H1.
  unfold writeVars, flipFlopFsm, rounds.
  rewrite (run_fsm_step _ _ _ _ _ _ _ _ writeTest) by done. rewrite Ht. cbn iota beta.
  rewrite (run_fsm_step _ _ _ _ _ _ _ _ writeCleanup) by done.
  pose proof (HP writeCleanup eq_refl s1) as H2.
  pose proof (transitivity H1 H2) as H12.
  destruct (pass writeCleanup 0 vbs s1) as [[[o2 e2]|e2] s2]; cbn in H12;
    [|split; [done|eauto]].
  destruct e2 as [e2|]; [rewrite run_fsm_stop by done; cbn; split; [done|eauto]|].
  rewrite (run_fsm_step _ _ _ _ _ _ _ _ readTest) by done.
  pose proof (transitivity H12 (HP readTest eq_refl s2)) as H3.
  destruct (pass readTest 0 vbs s2) as [[[o3 e3]|e3] s3]; cbn in H3; [|split; [done|eauto]].
  destruct e3 as [e3|]; [rewrite run_fsm_stop by done; cbn; split; [done|eauto]|].
  rewrite (run_fsm_step _ _ _ _ _ _ _ _ readGet) by done.
  pose proof (transitivity H3 (HP readGet eq_refl s3)) as H4.
  destruct (pass readGet 0 vbs s3) as [[[o4 e4]|e4] s4]; cbn in H4; [|split; [done|eauto]].
  destruct e4; (rewrite run_fsm_stop by done; cbn; split; [done|eauto]).
Qed.

(** A SET whose tests and commits succeed. *)
Lemma writeVars_commits vbs s s1 s2 s3 s4 o1 o2 o3 o4 outs s5 :
  pass writeTest 0 vbs s = (Ok (o1, None), s1) →
  pass writeCommit 0 vbs s1 = (Ok (o2, None), s2) →
  pass writeCleanup 0 vbs s2 = (Ok (o3, None), s3) →
  pass readTest 0 vbs s3 = (Ok (o4, None), s4) →
  pass readGet 0 vbs s4 = (Ok (outs, None), s5) →
  writeVars vbs s = (Ok (o1 ++ o2 ++ o3 ++ o4 ++ outs), s5).
Proof.
  intros H1 H2 H3 H4 H5.
  unfold writeVars, flipFlopFsm, rounds.
  rewrite (run_fsm_step _ _ _ _ _ _ _ _ writeTest) by done. rewrite H1. cbn iota beta.
  rewrite (run_fsm_step _ _ _ _ _ _ _ _ writeCommit) by done. rewrite H2. cbn iota beta.
  rewrite (run_fsm_step _ _ _ _ _ _ _ _ writeCleanup) by done. rewrite H3. cbn iota beta.
  rewrite (run_fsm_step _ _ _ _ _ _ _ _ readTest) by done. rewrite H4. cbn iota beta.
  rewrite (run_fsm_step _ _ _ _ _ _ _ _ readGet) by done. rewrite H5.
  rewrite run_fsm_stop by done. cbn. by rewrite <- !app_assoc.
Qed.

(** A SET whose commit phase fails unwinds over all its bindings, and reads
    them; what a read raises that is no SMI error replaces the commit's error. *)
Lemma writeVars_unwinds vbs s s1 s2 s3 s4 o1 o2 o3 e e' :
  pass writeTest 0 vbs s = (Ok (o1, None), s1) →
  pass writeCommit 0 vbs s1 = (Ok (o2, Some e), s2) →
  pass writeUndo 0 vbs s2 = (Ok (o3, None), s3) →
  pass readTest 0 vbs s3 = (Err e', s4) →
  writeVars vbs s = (Err e', s4).
Proof.
  intros H1 H2 H3 H4. unfold writeVars, flipFlopFsm, rounds.
  rewrite (run_fsm_step _ _ _ _ _ _ _ _ writeTest) by done. rewrite H1.
  rewrite (run_fsm_step _ _ _ _ _ _ _ _ writeCommit) by done. rewrite H2.
  rewrite (run_fsm_step _ _ _ _ _ _ _ _ writeUndo) by done. rewrite H3.
  rewrite (run_fsm_step _ _ _ _ _ _ _ _ readTest) by done. by rewrite H4.
Qed.

(** A GETNEXT whose two passes succeed. *)
Lemma readNextVars_passes vbs s s1 s2 o1 outs :
  pass readTestNext 0 vbs s = (Ok (o1, None), s1) →
  pass readGetNext 0 vbs s1 = (Ok (outs, None), s2) →
  readNextVars vbs s = (Ok (o1 ++ outs), s2).
Proof.
  intros H1 H2. unfold readNextVars, flipFlopFsm, rounds.
  rewrite (run_fsm_step _ _ _ _ _ _ _ _ readTestNext) by done. rewrite H1. cbn iota beta.
  rewrite (run_fsm_step _ _ _ _ _ _ _ _ readGetNext) by done. rewrite H2. cbn iota beta.
  by rewrite run_fsm_stop.
Qed.

(** A pass that is broken off. *)
Lemma pass_breaks st vbs1 vb vbs2 : ∀ idx s outs s1 e s2,
  pass st idx vbs1 s = (Ok (outs, None), s1) →
  handler st (idx + length vbs1) vb s1 = (Err e, s2) →
  pass st idx (vbs1 ++ vb :: vbs2) s =
    (if is_SmiError e then Ok (outs, Some e) else Err e, s2).
Proof.
  induction vbs1 as [|vb1 vbs1 IH]; intros idx s outs s1 e s2; cbn [pass app length].
  - intros [= <- <-]. rewrite Nat.add_0_r. intros ->. by destruct (is_SmiError e).
  - destruct (handler st idx vb1 s) as [[rval|?] s']; [|by destruct (is_SmiError _)].
    destruct (pass st (Datatypes.S idx) vbs1 s') as [[[o [?|]]|?] s''] eqn:E; try done.
    intros [= <- <-]. rewrite Nat.add_succ_r, <- Nat.add_succ_l. intros Hh.
    rewrite (IH _ _ _ _ _ _ E Hh). by destruct (is_SmiError e).
Qed.
End fsm.

Arguments pass_breaks {S} handler st vbs1 vb vbs2.

Lemma fsm_terminates_witness :
  run_fsm (S := unit) (λ st idx vb s, (Ok (Some vb), s)) 9 fsmReadVar [([1], VNull)] start ok None [] tt
    = Some (flipFlopFsm (λ st idx vb s, (Ok (Some vb), s)) fsmReadVar [([1], VNull)] tt).
Proof. apply fsm_terminates; [left|vm_compute; lia]. Defined.
End Instrum.
