(* ===== verification/Scalars.v ===== *)
(** * Scalars and their instances (src/pysnmp/smi/mibs/SNMPv2-SMI.py)

    The methods of [MibTree], [MibScalar] and [MibScalarInstance] that the
    state machine of Instrum.v runs, over a MIB of scalars.  An object is
    updated in place in the dictionary of its parent.  [E] is the state of the
    engine the access control function works on.  Tables are in Rows.v, and the
    GETNEXT methods in Mib.v. *)
From S2P Require Export Indices Instrum.

Module Scalars.

(** The syntax of an instance: a pyasn1 schema object, or a value *)
Inductive syntax : Type := Schema | Val (v : value).
Definition isValue (s : syntax) : bool := match s with Val _ => true | Schema => false end.

Inductive access : Type :=
  | not_accessible | accessible_for_notify | readonly | readwrite | readcreate.
Definition readable (a : access) : bool :=
  match a with readonly | readwrite | readcreate => true | _ => false end.
Definition writable (a : access) : bool :=
  match a with readwrite | readcreate => true | _ => false end.

(** [MibScalarInstance]: an attribute that holds Python's None is [None]. *)
Record instance : Type := mk_instance {
  i_syntax : option syntax;
  newSyntax : option syntax;
  oldSyntax : option syntax;
  i_version : Z;
}.

(** [MibScalarInstance.__init__] *)
Definition new_instance (s : syntax) : instance := mk_instance (Some s) None None 0.

(** [MibScalar] *)
Record scalar : Type := mk_scalar {
  sc_access : access;
  sc_tag : value_tag;
  sc_version : Z;
  sc_vars : @Indices.OidOrderedDict instance;
}.

(** The root of the tree, [iso] *)
Record mib : Type := mk_mib {
  iso_version : Z;
  iso_vars : @Indices.OidOrderedDict scalar;
}.
Definition iso_name : oid := [1].

(** ** [getBranch] *)
Section branches.
Context {V : Type}.

(** [for keyLen in lens: if name[:keyLen] in vars: return vars[name[:keyLen]]] *)
Fixpoint find_branch (lens : list Z) (d : dict oid V) (name : oid) : option (oid * V) :=
  match lens with
  | [] => None
  | keyLen :: lens' =>
      match dget d (take (Z.to_nat keyLen) name) with
      | Some v => Some (take (Z.to_nat keyLen) name, v)
      | None => find_branch lens' d name
      end
  end.

Definition getBranch (d : @Indices.OidOrderedDict V) (name : oid) : option (oid * V) :=
  find_branch (Indices.keysLens (Indices.ordered d)) (Indices.base d) name.

(** The object under [k] is changed in place. *)
Definition set_child (k : oid) (v : V) (d : @Indices.OidOrderedDict V) :
    @Indices.OidOrderedDict V :=
  Indices.mk_Dict (dset (Indices.base d) k v) (Indices.keys_ d) (Indices.dirty d)
    (Indices.keysLens d) (Indices.keysCache d).

(** [self.getBranch(name, idx).method(...)] *)
Definition in_branch {E A} (missing : exn) (name : oid) (f : oid → M exn (V * E) A) :
    M exn (@Indices.OidOrderedDict V * E) A := fun s =>
  match getBranch s.1 name with
  | None => (Err missing, s)
  | Some (k, v) =>
      let '(r, (v', e')) := f k (v, s.2) in (r, (set_child k v' s.1, e'))
  end.

(** The same, where a missing branch is not an error *)
Definition in_branch_or {E A} (absent : A) (name : oid) (f : oid → M exn (V * E) A) :
    M exn (@Indices.OidOrderedDict V * E) A := fun s =>
  match getBranch s.1 name with
  | None => (Ok absent, s)
  | Some _ => in_branch (SmiError "") name f s
  end.
End branches.

Section methods.
Context {E : Type}.

(** [acFun(name, syntax, idx, viewType, acCtx)]: true refuses *)
Inductive view_type : Type := read_view | write_view.
Context (acFun : option (oid → option value_tag → nat → view_type → M exn E bool)).

(** What the syntax object of an instance makes of a value it is given: its
    own [setValue] where it has one, else [clone] *)
Context (coerce : oid → syntax → value → result exn syntax).

(** What an application's subclass of an instance raises from [writeCommit]
    before it calls the base class, if anything *)
Context (refuses : oid → value → option exn).

(** ** [MibScalarInstance] *)
Definition is_row_management (e : exn) : bool :=
  match e with
  | MibError RowCreationWanted _ | MibError RowDestructionWanted _ => true
  | _ => false
  end.

(** [setValue] *)
Definition setValue (n : oid) (self : instance) (v : value) (idx : nat) : result exn syntax :=
  match i_syntax self with
  | None => Err AttributeError
  | Some s =>
      match coerce n s v with
      | Err e =>
          if is_PyAsn1Error e && negb (is_row_management e)
          then Err (MibError WrongValueError (at_idx idx)) else Err e
      | r => r
      end
  end.

Abbreviation I := (M exn (instance * E)).
Definition put_instance (f : instance → instance) : I unit := fun s => (Ok tt, (f s.1, s.2)).
Definition with_new (n : option syntax) (i : instance) : instance :=
  mk_instance (i_syntax i) n (oldSyntax i) (i_version i).

Definition i_writeTest (n : oid) (idx : nat) (vb : var_bind) : I unit := fun s =>
  let '(name, val) := vb in
  if decide (name = n) then
    match setValue n s.1 val idx with
    | Ok ns => put_instance (with_new (Some ns)) s
    | Err (MibError k d) =>
        match d_syntax d with
        | Some w => (put_instance (with_new (Some (Val w)));; raise (MibError k d)) s
        | None => (Err (MibError WrongValueError (at_idx idx)), s)
        end
    | Err e => (Err e, s)
    end
  else (Err (MibError NoSuchInstanceError (at_idx idx)), s).

Definition commit (i : instance) : instance :=
  mk_instance (newSyntax i) (newSyntax i)
    (match oldSyntax i with None => i_syntax i | o => o end) (i_version i).
Definition i_writeCommit (n : oid) (idx : nat) (vb : var_bind) : I unit := fun s =>
  match refuses n vb.2 with
  | Some e => (Err e, s)
  | None => put_instance commit s
  end.

Definition cleanup (i : instance) : instance :=
  mk_instance (i_syntax i) None None (i_version i + 1).
Definition i_writeCleanup (n : oid) (idx : nat) (vb : var_bind) : I unit := put_instance cleanup.

Definition undo (i : instance) : instance := mk_instance (oldSyntax i) None None (i_version i).
Definition i_writeUndo (n : oid) (idx : nat) (vb : var_bind) : I unit := put_instance undo.

(** [name == self.name and self.syntax.isValue] *)
Definition i_value (n : oid) (self : instance) (name : oid) (idx : nat) : result exn value :=
  if decide (name = n) then
    match i_syntax self with
    | None => Err AttributeError
    | Some (Val v) => Ok v
    | Some Schema => Err (MibError NoSuchInstanceError (at_idx idx))
    end
  else Err (MibError NoSuchInstanceError (at_idx idx)).

Definition i_readTest (n : oid) (idx : nat) (vb : var_bind) : I (option var_bind) := fun s =>
  match i_value n s.1 vb.1 idx with Ok _ => (Ok None, s) | Err e => (Err e, s) end.
Definition i_readGet (n : oid) (idx : nat) (vb : var_bind) : I (option var_bind) := fun s =>
  match i_value n s.1 vb.1 idx with
  | Ok v => (Ok (Some (n, v)), s)
  | Err e => (Err e, s)
  end.

(** ** [MibScalar] *)
Abbreviation Sc := (M exn (scalar * E)).

(** The dictionary of a scalar, with the engine *)
Definition sc_children {A} (m : M exn (@Indices.OidOrderedDict instance * E) A) : Sc A :=
  zoom (λ s : scalar * E, (sc_vars s.1, s.2))
    (λ d s, (mk_scalar (sc_access s.1) (sc_tag s.1) (sc_version s.1) d.1, d.2)) m.

(** [if acFun: if self.maxAccess not in ... or acFun(...): raise refusal] *)
Definition check_access (fits : access → bool) (view : view_type) (refusal : exn)
    (name : oid) (idx : nat) : Sc unit := fun s =>
  match acFun with
  | None => (Ok tt, s)
  | Some f =>
      if negb (fits (sc_access s.1)) then (Err refusal, s)
      else let '(r, e') := f name (Some (sc_tag s.1)) idx view s.2 in
           (match r with
            | Ok true => Err refusal
            | Ok false => Ok tt
            | Err e => Err e
            end, (s.1, e'))
  end.

Definition no_access idx : exn := MibError NoAccessError (at_idx idx).
Definition not_writable idx : exn := MibError NotWritableError (at_idx idx).
Definition missing_instance idx : exn := MibError NoSuchInstanceError (at_idx idx).

Definition s_readTest (n : oid) (idx : nat) (vb : var_bind) : Sc (option var_bind) :=
  if decide (vb.1 = n) then raise (no_access idx)
  else
    check_access readable read_view (no_access idx) vb.1 idx;;
    sc_children (in_branch_or None vb.1 (λ k, i_readTest k idx vb)).

Definition s_readGet (n : oid) (idx : nat) (vb : var_bind) : Sc (option var_bind) :=
  sc_children (in_branch_or (Some (vb.1, VNoSuchInstance)) vb.1 (λ k, i_readGet k idx vb)).

Definition s_writeTest (n : oid) (idx : nat) (vb : var_bind) : Sc unit :=
  if decide (vb.1 = n) then raise (no_access idx)
  else
    check_access writable write_view (not_writable idx) vb.1 idx;;
    sc_children (in_branch (missing_instance idx) vb.1 (λ k, i_writeTest k idx vb)).

Definition s_writeCommit (n : oid) (idx : nat) (vb : var_bind) : Sc unit :=
  sc_children (in_branch (missing_instance idx) vb.1 (λ k, i_writeCommit k idx vb)).
Definition bump_scalar : Sc unit := fun s =>
  (Ok tt, (mk_scalar (sc_access s.1) (sc_tag s.1) (sc_version s.1 + 1) (sc_vars s.1), s.2)).
Definition s_writeCleanup (n : oid) (idx : nat) (vb : var_bind) : Sc unit :=
  bump_scalar;;
  sc_children (in_branch (missing_instance idx) vb.1 (λ k, i_writeCleanup k idx vb)).
Definition s_writeUndo (n : oid) (idx : nat) (vb : var_bind) : Sc unit :=
  sc_children (in_branch (missing_instance idx) vb.1 (λ k, i_writeUndo k idx vb)).

(** ** [MibTree], at the root *)
Abbreviation T := (M exn (mib * E)).

Definition tree_children {A} (m : M exn (@Indices.OidOrderedDict scalar * E) A) : T A :=
  zoom (λ s : mib * E, (iso_vars s.1, s.2)) (λ d s, (mk_mib (iso_version s.1) d.1, d.2)) m.

Definition missing_object idx : exn := MibError NoSuchObjectError (at_idx idx).

(** The root is not accessible: its [maxAccess] refuses before [acFun] is asked. *)
Definition t_readTest (idx : nat) (vb : var_bind) : T (option var_bind) :=
  if decide (vb.1 = iso_name) then
    match acFun with None => mret None | Some _ => raise (no_access idx) end
  else tree_children (in_branch_or None vb.1 (λ k, s_readTest k idx vb)).

Definition t_readGet (idx : nat) (vb : var_bind) : T (option var_bind) :=
  tree_children (in_branch_or (Some (vb.1, VNoSuchObject)) vb.1 (λ k, s_readGet k idx vb)).

Definition t_writeTest (idx : nat) (vb : var_bind) : T unit :=
  if decide (vb.1 = iso_name) then
    match acFun with None => mret tt | Some _ => raise (not_writable idx) end
  else tree_children (in_branch (missing_object idx) vb.1 (λ k, s_writeTest k idx vb)).
Definition t_writeCommit (idx : nat) (vb : var_bind) : T unit :=
  tree_children (in_branch (missing_object idx) vb.1 (λ k, s_writeCommit k idx vb)).
Definition bump_tree : T unit := fun s => (Ok tt, (mk_mib (iso_version s.1 + 1) (iso_vars s.1), s.2)).
Definition t_writeCleanup (idx : nat) (vb : var_bind) : T unit :=
  bump_tree;; tree_children (in_branch (missing_object idx) vb.1 (λ k, s_writeCleanup k idx vb)).
Definition t_writeUndo (idx : nat) (vb : var_bind) : T unit :=
  tree_children (in_branch (missing_object idx) vb.1 (λ k, s_writeUndo k idx vb)).

(** [getattr(mibTree, state)], for the states of a GET and of a SET *)
Definition handler (st : Instrum.fsm_state) (idx : nat) (vb : var_bind) : T (option var_bind) :=
  match st with
  | Instrum.readTest => t_readTest idx vb
  | Instrum.readGet => t_readGet idx vb
  | Instrum.writeTest => t_writeTest idx vb;; mret None
  | Instrum.writeCommit => t_writeCommit idx vb;; mret None
  | Instrum.writeCleanup => t_writeCleanup idx vb;; mret None
  | Instrum.writeUndo => t_writeUndo idx vb;; mret None
  | _ => raise (SmiError "Unsupported state handler")
  end.

Definition readVars : list var_bind → T (list var_bind) := Instrum.readVars handler.
Definition writeVars : list var_bind → T (list var_bind) := Instrum.writeVars handler.

(** ** The flat view: the instance of a name *)
Definition at_name (m : mib) (n : oid) : option instance :=
  match getBranch (iso_vars m) n with
  | Some (_, sc) =>
      match getBranch (sc_vars sc) n with
      | Some (k, i) => if decide (k = n) then Some i else None
      | None => None
      end
  | None => None
  end.
Definition value_at (m : mib) (n : oid) : option (option syntax) := i_syntax <$> at_name m n.
Definition access_at (m : mib) (n : oid) : option access :=
  (λ kv : oid * scalar, sc_access kv.2) <$> getBranch (iso_vars m) n.
End methods.

(** ** Branches under an update in place *)
Section branch_lemmas.
Context {V : Type}.
Implicit Types (d : @Indices.OidOrderedDict V).

Lemma find_branch_dget lens (d : dict oid V) n k v :
  find_branch lens d n = Some (k, v) → dget d k = Some v.
Proof.
  induction lens as [|l lens IH]; [done|]. cbn.
  destruct (dget d (take (Z.to_nat l) n)) eqn:E; [|done]. by intros [= <- <-].
Qed.

Lemma getBranch_set_child d n k v v' : getBranch d n = Some (k, v) →
  ∀ n', getBranch (set_child k v' d) n' =
    (λ kv : oid * V, (kv.1, if decide (kv.1 = k) then v' else kv.2)) <$> getBranch d n'.
Proof.
  intros Hk n'. apply find_branch_dget in Hk. unfold getBranch.
  assert (Hl : Indices.keysLens (Indices.ordered (set_child k v' d)) =
    Indices.keysLens (Indices.ordered d)).
  { unfold Indices.ordered. cbn. by destruct (Indices.dirty d). }
  rewrite Hl. clear Hl. cbn [set_child Indices.base].
  induction (Indices.keysLens (Indices.ordered d)) as [|l lens IH]; [done|]. cbn [find_branch].
  rewrite dget_dset. case_decide as E.
  - rewrite E, Hk. cbn. by rewrite decide_True.
  - destruct (dget _ (take _ n')); [|exact IH]. cbn. by rewrite decide_False.
Qed.

(** Two dictionaries with the same branches, their objects related *)
Definition dict_rel (R : V → V → Prop) d d' : Prop := ∀ n,
  match getBranch d n, getBranch d' n with
  | Some (k, v), Some (k', v') => k' = k ∧ R v v'
  | None, None => True
  | _, _ => False
  end.

#[export] Instance dict_rel_preorder R `{!PreOrder R} : PreOrder (dict_rel R).
Proof.
  split.
  - intros d n. by destruct (getBranch d n) as [[k v]|].
  - intros d1 d2 d3 H1 H2 n. specialize (H1 n). specialize (H2 n).
    destruct (getBranch d1 n) as [[k1 v1]|], (getBranch d2 n) as [[k2 v2]|],
      (getBranch d3 n) as [[k3 v3]|]; try done.
    destruct H1 as [-> H1], H2 as [-> H2]. split; [done|by etrans].
Qed.

Lemma in_branch_rel {E A} (R : V → V → Prop) `{!PreOrder R} missing n
    (f : oid → M exn (V * E) A) s :
  (∀ k v e, R v (f k (v, e)).2.1) → dict_rel R s.1 (in_branch missing n f s).2.1.
Proof.
  intros Hf. unfold in_branch. destruct (getBranch s.1 n) as [[k v]|] eqn:Hb; [|reflexivity].
  specialize (Hf k v s.2). destruct (f k (v, s.2)) as [r [v' e']]. cbn in *.
  intros n'. rewrite (getBranch_set_child _ _ _ _ v' Hb).
  destruct (getBranch s.1 n') as [[k' w]|] eqn:Hb'; cbn; [|done]. split; [done|].
  case_decide; subst; [|reflexivity].
  apply find_branch_dget in Hb, Hb'. rewrite Hb in Hb'. by simplify_eq.
Qed.

Lemma in_branch_or_rel {E A} (R : V → V → Prop) `{!PreOrder R} (absent : A) n
    (f : oid → M exn (V * E) A) s :
  (∀ k v e, R v (f k (v, e)).2.1) → dict_rel R s.1 (in_branch_or absent n f s).2.1.
Proof.
  intros Hf. unfold in_branch_or. destruct (getBranch s.1 n); [|reflexivity].
  by apply in_branch_rel.
Qed.
End branch_lemmas.

(** ** The states that keep every value *)
Definition same_syntax (i i' : instance) : Prop := i_syntax i' = i_syntax i.
#[export] Instance same_syntax_preorder : PreOrder same_syntax.
Proof. split; [done|]. unfold same_syntax. intros ?????. congruence. Qed.

Definition same_scalar (sc sc' : scalar) : Prop :=
  sc_access sc' = sc_access sc ∧ sc_tag sc' = sc_tag sc ∧
  dict_rel same_syntax (sc_vars sc) (sc_vars sc').
#[export] Instance same_scalar_preorder : PreOrder same_scalar.
Proof.
  split; [intros sc; unfold same_scalar; split_and!; reflexivity|].
  intros ??? (H1 & H2 & H3) (H4 & H5 & H6). split_and!; [congruence|congruence|by etrans].
Qed.

Definition same_mib (m m' : mib) : Prop := dict_rel same_scalar (iso_vars m) (iso_vars m').
#[export] Instance same_mib_preorder : PreOrder same_mib.
Proof. split; [intros m; unfold same_mib; reflexivity|]. intros ???. unfold same_mib. by etrans. Qed.

Lemma same_mib_values m m' n : same_mib m m' → value_at m' n = value_at m n.
Proof.
  intros H. specialize (H n). unfold value_at, at_name.
  destruct (getBranch (iso_vars m) n) as [[k sc]|], (getBranch (iso_vars m') n) as [[k' sc']|];
    try done. destruct H as [-> (_ & _ & H)]. specialize (H n).
  destruct (getBranch (sc_vars sc) n) as [[k1 i]|], (getBranch (sc_vars sc') n) as [[k1' i']|];
    try done. destruct H as [-> H]. case_decide; [|done]. cbn. by rewrite H.
Qed.

Section keeping.
Context {E : Type} (acFun : option (oid → option value_tag → nat → view_type → M exn E bool)).
Context (coerce : oid → syntax → value → result exn syntax).
Context (refuses : oid → value → option exn).

Definition keeps_instance {A} (m : M exn (instance * E) A) : Prop :=
  ∀ s, same_syntax s.1 (m s).2.1.
Definition keeps_scalar {A} (m : M exn (scalar * E) A) : Prop := ∀ s, same_scalar s.1 (m s).2.1.
Definition keeps_mib {A} (m : M exn (mib * E) A) : Prop := ∀ s, same_mib s.1 (m s).2.1.

Lemma keeps_bind {A B} (m : M exn (scalar * E) A) (k : A → M exn (scalar * E) B) :
  keeps_scalar m → (∀ a, keeps_scalar (k a)) → keeps_scalar (m ≫= k).
Proof.
  intros Hm Hk s. specialize (Hm s). munfold. destruct (m s) as [[a|e] s']; cbn in *; [|done].
  etrans; [exact Hm|apply Hk].
Qed.

Lemma keeps_check fits view refusal n idx :
  keeps_scalar (check_access acFun fits view refusal n idx).
Proof.
  intros [sc e]. unfold check_access. destruct acFun as [f|]; [|reflexivity].
  destruct (fits _); cbn; [|reflexivity]. destruct (f n _ idx view e). cbn. reflexivity.
Qed.

Lemma keeps_sc_children {A} (m : M exn (@Indices.OidOrderedDict instance * E) A) :
  (∀ s, dict_rel same_syntax s.1 (m s).2.1) → keeps_scalar (sc_children m).
Proof.
  intros Hm [sc e]. unfold sc_children, zoom. cbn. specialize (Hm (sc_vars sc, e)).
  destruct (m (sc_vars sc, e)) as [r [d e']]. by split_and!.
Qed.

Lemma keeps_tree_children {A} (m : M exn (@Indices.OidOrderedDict scalar * E) A) :
  (∀ s, dict_rel same_scalar s.1 (m s).2.1) → keeps_mib (tree_children m).
Proof.
  intros Hm [mb e]. unfold tree_children, zoom. cbn. specialize (Hm (iso_vars mb, e)).
  by destruct (m (iso_vars mb, e)) as [r [d e']].
Qed.

Lemma keeps_i_readTest n idx vb : keeps_instance (i_readTest n idx vb).
Proof. intros [i e]. unfold i_readTest. by destruct (i_value _ _ _ _). Qed.
Lemma keeps_i_readGet n idx vb : keeps_instance (i_readGet n idx vb).
Proof. intros [i e]. unfold i_readGet. by destruct (i_value _ _ _ _). Qed.
Lemma keeps_i_writeTest n idx vb : keeps_instance (i_writeTest coerce n idx vb).
Proof.
  intros [i e]. unfold i_writeTest. destruct vb as [name val]. case_decide; [|done].
  destruct (setValue _ _ _ _ _) as [|[]]; try done. munfold. by destruct (d_syntax d).
Qed.

Lemma handler_keeps st idx vb : Instrum.harmless st = true →
  keeps_mib (handler acFun coerce refuses st idx vb).
Proof.
  assert (Htree : ∀ {A} missing name (f : oid → M exn (scalar * E) A),
    (∀ k, keeps_scalar (f k)) → keeps_mib (tree_children (in_branch missing name f))).
  { intros A missing name f Hf. apply keeps_tree_children. intros s. apply in_branch_rel; [apply _|].
    intros k v e. apply (Hf k (v, e)). }
  assert (Htree' : ∀ {A} (absent : A) name (f : oid → M exn (scalar * E) A),
    (∀ k, keeps_scalar (f k)) → keeps_mib (tree_children (in_branch_or absent name f))).
  { intros A absent name f Hf. apply keeps_tree_children. intros s. apply in_branch_or_rel; [apply _|].
    intros k v e. apply (Hf k (v, e)). }
  assert (Hsc : ∀ {A} missing name (f : oid → M exn (instance * E) A),
    (∀ k, keeps_instance (f k)) → keeps_scalar (sc_children (in_branch missing name f))).
  { intros A missing name f Hf. apply keeps_sc_children. intros s. apply in_branch_rel; [apply _|].
    intros k v e. apply (Hf k (v, e)). }
  assert (Hsc' : ∀ {A} (absent : A) name (f : oid → M exn (instance * E) A),
    (∀ k, keeps_instance (f k)) → keeps_scalar (sc_children (in_branch_or absent name f))).
  { intros A absent name f Hf. apply keeps_sc_children. intros s. apply in_branch_or_rel; [apply _|].
    intros k v e. apply (Hf k (v, e)). }
  assert (Hseq : ∀ (m : M exn (mib * E) unit), keeps_mib m → keeps_mib (m;; mret (None : option var_bind))).
  { intros m Hm s. specialize (Hm s). munfold. by destruct (m s) as [[]?]. }
  assert (Hraise : ∀ A x, keeps_mib (raise x : M exn (mib * E) A)) by (intros ?? s; reflexivity).
  destruct st; cbn [handler]; try done; intros _; try apply Hseq.
  - unfold t_readTest. case_decide; [destruct acFun; intros s; reflexivity|]. apply Htree'. intros k.
    unfold s_readTest. case_decide; [intros s; reflexivity|].
    apply keeps_bind; [apply keeps_check|intros _]. apply Hsc'. intros. apply keeps_i_readTest.
  - apply Htree'. intros k. apply Hsc'. intros. apply keeps_i_readGet.
  - unfold t_writeTest. case_decide; [destruct acFun; intros s; reflexivity|]. apply Htree. intros k.
    unfold s_writeTest. case_decide; [intros s; reflexivity|].
    apply keeps_bind; [apply keeps_check|intros _]. apply Hsc. intros. apply keeps_i_writeTest.
  - intros s. unfold t_writeCleanup. munfold.
    refine (Htree _ _ _ _ _ (mk_mib (iso_version s.1 + 1) (iso_vars s.1), s.2)).
    intros k. apply keeps_bind; [intros s'; by split_and!; try reflexivity|intros _].
    apply Hsc. by intros k' s'.
Qed.

(** C19. A SET that any of its tests refuses leaves every value of the MIB as
    it was, whatever else the request holds and whatever its instances do. *)
Theorem refused_set_writes_nothing vbs m e outs x s1 :
  Instrum.pass (handler acFun coerce refuses) Instrum.writeTest 0 vbs (m, e) =
    (Ok (outs, Some x), s1) →
  (∃ y, (writeVars acFun coerce refuses vbs (m, e)).1 = Err y) ∧
  ∀ n, value_at (writeVars acFun coerce refuses vbs (m, e)).2.1 n = value_at m n.
Proof.
  intros Ht.
  assert (HP : PreOrder (λ s s' : mib * E, same_mib s.1 s'.1)).
  { split; [intros s; reflexivity|]. intros ??? H1 H2. by etrans. }
  destruct (Instrum.writeVars_test_fails (handler acFun coerce refuses)
    (λ s s', same_mib s.1 s'.1) vbs (m, e) outs x s1) as [HR Hx]; [|done|].
  - intros st idx vb s Hst. by apply handler_keeps.
  - split; [done|]. intros n. by apply same_mib_values.
Qed.
End keeping.

(** ** Exact effects *)

(** How the tree finds a name: the scalar, its access, and the key of the
    instance *)
Definition route (m : mib) (n : oid) : option (oid * access * option oid) :=
  (λ ks : oid * scalar, (ks.1, sc_access ks.2, fst <$> getBranch (sc_vars ks.2) n))
    <$> getBranch (iso_vars m) n.

(** A name that leads to an instance an operation may write *)
Definition target (m : mib) (n : oid) : Prop :=
  ∃ k a, route m n = Some (k, a, Some n) ∧ n ≠ k ∧ n ≠ iso_name ∧ writable a = true.

(** [m'] is [m] with [i'] as the instance of [n]. *)
Definition updates (m : mib) (n : oid) (i' : instance) (m' : mib) : Prop :=
  (∀ n', at_name m' n' = if decide (n' = n) then Some i' else at_name m n') ∧
  (∀ n', route m' n' = route m n').

Lemma target_inv m n : target m n → ∃ k sc i,
  getBranch (iso_vars m) n = Some (k, sc) ∧ getBranch (sc_vars sc) n = Some (n, i) ∧
  at_name m n = Some i ∧ n ≠ k ∧ n ≠ iso_name ∧ writable (sc_access sc) = true.
Proof.
  intros (k & a & Hr & Hk & Hn & Ha). unfold route in Hr.
  destruct (getBranch (iso_vars m) n) as [[k0 sc]|] eqn:E1; [|done]. cbn in Hr.
  destruct (getBranch (sc_vars sc) n) as [[n0 i]|] eqn:E2; [|done]. cbn in Hr. simplify_eq.
  exists k, sc, i. split_and!; try done. unfold at_name. rewrite E1, E2. by rewrite decide_True.
Qed.

(** Replacing the instance of [n] *)
Lemma set_instance_updates m n k sc i i' v' ver :
  getBranch (iso_vars m) n = Some (k, sc) → getBranch (sc_vars sc) n = Some (n, i) →
  updates m n i' (mk_mib ver (set_child k
    (mk_scalar (sc_access sc) (sc_tag sc) v' (set_child n i' (sc_vars sc))) (iso_vars m))).
Proof.
  intros H1 H2. unfold updates, at_name, route. cbn [iso_vars].
  split; intros n'; rewrite (getBranch_set_child _ _ _ _ _ H1).
  - destruct (getBranch (iso_vars m) n') as [[k' sc']|] eqn:E1; cbn.
    + case_decide as Hk; cbn [sc_vars].
      * subst. assert (sc' = sc) as ->.
        { apply find_branch_dget in H1, E1. congruence. }
        rewrite (getBranch_set_child _ _ _ _ _ H2).
        destruct (getBranch (sc_vars sc) n') as [[k2 j]|] eqn:E2; cbn.
        -- destruct (decide (n' = n)) as [->|Hn'].
           ++ rewrite E2 in H2. simplify_eq. by rewrite !decide_True.
           ++ destruct (decide (k2 = n')); [|done]. rewrite decide_False by congruence. done.
        -- rewrite decide_False by congruence. done.
      * rewrite decide_False by congruence. done.
    + rewrite decide_False by congruence. done.
  - destruct (getBranch (iso_vars m) n') as [[k' sc']|] eqn:E1; cbn; [|done].
    case_decide as Hk; cbn; [|done]. subst.
    assert (sc' = sc) as ->. { apply find_branch_dget in H1, E1. congruence. }
    rewrite (getBranch_set_child _ _ _ _ _ H2). by destruct (getBranch (sc_vars sc) n') as [[??]|].
Qed.

Section effects.
Context {E : Type} (acFun : option (oid → option value_tag → nat → view_type → M exn E bool)).
Context (coerce : oid → syntax → value → result exn syntax).
Context (refuses : oid → value → option exn).

(** Access control lets everything through. *)
Context (permits : ∀ f, acFun = Some f → ∀ n t idx v e, (f n t idx v e).1 = Ok false).

Abbreviation handle := (handler acFun coerce refuses).

Lemma check_access_ok fits view refusal n idx sc e : fits (sc_access sc) = true →
  ∃ e', check_access acFun fits view refusal n idx (sc, e) = (Ok tt, (sc, e')).
Proof.
  intros Hf. unfold check_access. destruct acFun as [f|] eqn:Ea; [|by exists e].
  cbn [fst snd]. rewrite Hf. cbn [negb].
  pose proof (permits f eq_refl n (Some (sc_tag sc)) idx view e) as Hp.
  destruct (f _ _ _ _ _) as [r e']. cbn in Hp. subst r. by exists e'.
Qed.

(** What a state does to the instance of a target, and what it returns: [g]
    and [out], where [pre] holds. *)
Record effect (st : Instrum.fsm_state) (pre : var_bind → instance → Prop)
    (g : var_bind → instance → instance) (out : var_bind → option var_bind) : Prop := {
  effect_ok : ∀ idx vb m e i, target m vb.1 → at_name m vb.1 = Some i → pre vb i →
    ∃ m' e', handle st idx vb (m, e) = (Ok (out vb), (m', e')) ∧ updates m vb.1 (g vb i) m';
}.

(** Unfold the way from the root to the instance. *)
Ltac descend H1 H2 :=
  unfold tree_children, sc_children, zoom, in_branch_or, in_branch;
  cbn [fst snd iso_vars iso_version sc_vars sc_access sc_tag sc_version];
  repeat first [rewrite H1; cbn [fst snd iso_vars iso_version sc_vars sc_access sc_tag sc_version]
               |rewrite H2; cbn [fst snd iso_vars iso_version sc_vars sc_access sc_tag sc_version]].

Lemma commit_effect :
  effect Instrum.writeCommit (λ vb _, refuses vb.1 vb.2 = None) (λ _, commit) (λ _, None).
Proof.
  split. intros idx vb m e i Ht Hi Hp.
  destruct (target_inv _ _ Ht) as (k & sc & i0 & H1 & H2 & Hi0 & _). simplify_eq.
  cbn [handler]. unfold t_writeCommit, s_writeCommit. munfold. descend H1 H2.
  unfold i_writeCommit. rewrite Hp. cbn. eexists _, _. split; [reflexivity|].
  by eapply set_instance_updates.
Qed.

Lemma undo_effect : effect Instrum.writeUndo (λ _ _, True) (λ _, undo) (λ _, None).
Proof.
  split. intros idx vb m e i Ht Hi _.
  destruct (target_inv _ _ Ht) as (k & sc & i0 & H1 & H2 & Hi0 & _). simplify_eq.
  cbn [handler]. unfold t_writeUndo, s_writeUndo. munfold. descend H1 H2. cbn.
  eexists _, _. split; [reflexivity|]. by eapply set_instance_updates.
Qed.

Lemma cleanup_effect : effect Instrum.writeCleanup (λ _ _, True) (λ _, cleanup) (λ _, None).
Proof.
  split. intros idx vb m e i Ht Hi _.
  destruct (target_inv _ _ Ht) as (k & sc & i0 & H1 & H2 & Hi0 & _). simplify_eq.
  cbn [handler]. unfold t_writeCleanup, s_writeCleanup, bump_tree, bump_scalar. munfold.
  descend H1 H2. cbn. eexists _, _. split; [reflexivity|]. by eapply set_instance_updates.
Qed.

Lemma writable_readable a : writable a = true → readable a = true.
Proof. by destruct a. Qed.

Lemma test_effect (w : var_bind → value) :
  effect Instrum.writeTest
    (λ vb i, ∃ s, i_syntax i = Some s ∧ coerce vb.1 s vb.2 = Ok (Val (w vb)))
    (λ vb, with_new (Some (Val (w vb)))) (λ _, None).
Proof.
  split. intros idx vb m e i Ht Hi (s & Hs & Hc).
  destruct (target_inv _ _ Ht) as (k & sc & i0 & H1 & H2 & Hi0 & Hk & Hn & Ha). simplify_eq.
  cbn [handler]. unfold t_writeTest. rewrite decide_False by done. unfold s_writeTest.
  munfold. descend H1 H2. rewrite decide_False by done.
  destruct (check_access_ok writable write_view (not_writable idx) vb.1 idx sc e Ha) as [e' Hca].
  rewrite Hca. descend H1 H2. unfold i_writeTest. destruct vb as [n v]. cbn [fst snd] in *.
  rewrite decide_True by done. unfold setValue. rewrite Hs, Hc. cbn.
  eexists _, _. split; [reflexivity|]. by eapply set_instance_updates.
Qed.

Lemma readTest_effect :
  effect Instrum.readTest (λ _ i, ∃ v, i_syntax i = Some (Val v)) (λ _ i, i) (λ _, None).
Proof.
  split. intros idx vb m e i Ht Hi (v & Hv).
  destruct (target_inv _ _ Ht) as (k & sc & i0 & H1 & H2 & Hi0 & Hk & Hn & Ha). simplify_eq.
  cbn [handler]. unfold t_readTest. rewrite decide_False by done. unfold s_readTest.
  munfold. descend H1 H2. rewrite decide_False by done.
  destruct (check_access_ok readable read_view (no_access idx) vb.1 idx sc e
    (writable_readable _ Ha)) as [e' Hca].
  rewrite Hca. descend H1 H2. unfold i_readTest, i_value. cbn [fst snd].
  rewrite decide_True by done. rewrite Hv. eexists _, _. split; [reflexivity|].
  by eapply set_instance_updates.
Qed.

Lemma readGet_effect (w : var_bind → value) :
  effect Instrum.readGet (λ vb i, i_syntax i = Some (Val (w vb))) (λ _ i, i)
    (λ vb, Some (vb.1, w vb)).
Proof.
  split. intros idx vb m e i Ht Hi Hv.
  destruct (target_inv _ _ Ht) as (k & sc & i0 & H1 & H2 & Hi0 & Hk & Hn & Ha). simplify_eq.
  cbn [handler]. unfold t_readGet, s_readGet. munfold. descend H1 H2.
  unfold i_readGet, i_value. cbn [fst snd]. rewrite decide_True by done. rewrite Hv.
  eexists _, _. split; [reflexivity|]. by eapply set_instance_updates.
Qed.

(** A pass over targets with distinct names *)
Definition updates_all (g : var_bind → instance → instance) (vbs : list var_bind) (m m' : mib) : Prop :=
  (∀ vb, vb ∈ vbs → at_name m' vb.1 = g vb <$> at_name m vb.1) ∧
  (∀ n, n ∉ vbs.*1 → at_name m' n = at_name m n) ∧
  (∀ n, route m' n = route m n).

Definition ready (pre : var_bind → instance → Prop) (m : mib) (vb : var_bind) : Prop :=
  target m vb.1 ∧ ∃ i, at_name m vb.1 = Some i ∧ pre vb i.

Lemma pass_effect st pre g out vbs : effect st pre g out →
  ∀ idx m e, NoDup vbs.*1 → Forall (ready pre m) vbs →
  ∃ m' e', Instrum.pass handle st idx vbs (m, e) = (Ok (omap out vbs, None), (m', e')) ∧
    updates_all g vbs m m'.
Proof.
  intros [Heff]. induction vbs as [|vb vbs IH]; intros idx m e Hnd Hr.
  { exists m, e. split; [done|]. unfold updates_all. split_and!; [intros ? []%not_elem_of_nil|done|done]. }
  apply Forall_cons in Hr as [(Ht & i & Hi & Hp) Hr]. apply NoDup_cons in Hnd as [Hni Hnd].
  destruct (Heff idx vb m e i Ht Hi Hp) as (m1 & e1 & Hh & Hu & Hroute).
  destruct (IH (S idx) m1 e1 Hnd) as (m2 & e2 & Hpass & Ha & Hb & Hc).
  { apply Forall_forall. intros vb' Hin. rewrite Forall_forall in Hr.
    destruct (Hr vb' Hin) as ((k & a & Hk) & i' & Hi' & Hp'). split.
    - exists k, a. by rewrite Hroute.
    - exists i'. rewrite Hu. rewrite decide_False; [done|]. intros Heq. apply Hni.
      rewrite <- Heq. by apply list_elem_of_fmap_2. }
  exists m2, e2. split; [|split_and!].
  - rewrite (Instrum.pass_step _ _ _ _ _ _ _ _ _ _ Hh Hpass). cbn. by destruct (out vb).
  - intros vb' [->|Hin]%elem_of_cons.
    + rewrite Hb by done. rewrite Hu, decide_True by done. by rewrite Hi.
    + rewrite Ha by done. rewrite Hu, decide_False; [done|]. intros Heq. apply Hni.
      rewrite <- Heq. by apply list_elem_of_fmap_2.
  - intros n Hn. cbn in Hn. apply not_elem_of_cons in Hn as [Hn1 Hn2].
    rewrite Hb by done. by rewrite Hu, decide_False.
  - intros n. by rewrite Hc.
Qed.

Lemma target_route m m' n : (∀ n, route m' n = route m n) → target m n → target m' n.
Proof. intros H (k & a & Hk). exists k, a. by rewrite H. Qed.

(** What one pass leaves for the next *)
Lemma ready_next pre pre' g vbs m m' : updates_all g vbs m m' →
  (∀ vb i, pre vb i → pre' vb (g vb i)) →
  Forall (ready pre m) vbs → Forall (ready pre' m') vbs.
Proof.
  intros (Ha & _ & Hc) Hp Hr. rewrite !Forall_forall in *. intros vb Hin.
  destruct (Hr vb Hin) as (Ht & i & Hi & Hpi). split; [by eapply target_route|].
  exists (g vb i). rewrite Ha, Hi by done. split; [done|by apply Hp].
Qed.
End effects.

Section sets.
Context {E : Type} (acFun : option (oid → option value_tag → nat → view_type → M exn E bool)).
Context (coerce : oid → syntax → value → result exn syntax).
Context (refuses : oid → value → option exn).
Context (permits : ∀ f, acFun = Some f → ∀ n t idx v e, (f n t idx v e).1 = Ok false).

Abbreviation handle := (handler acFun coerce refuses).

(** The syntax of the instance accepts the value, as [w]. *)
Definition accepts (w : var_bind → value) (vb : var_bind) (i : instance) : Prop :=
  ∃ s, i_syntax i = Some s ∧ coerce vb.1 s vb.2 = Ok (Val (w vb)).

Lemma omap_none {A B} (l : list A) : omap (λ _, None : option B) l = [].
Proof. by induction l. Qed.
Lemma omap_some {A B} (f : A → B) (l : list A) : omap (λ x, Some (f x)) l = f <$> l.
Proof. induction l as [|x l IH]; [done|]. cbn. by rewrite <- IH. Qed.

(** C20. In a MIB of scalars, for an access function that always permits: a SET of
    distinct names whose values all fit, and whose instances all commit, stores every
    value, answers with the values stored and leaves every other scalar as it was. *)
Theorem accepted_set_writes_all w vbs m e :
  NoDup vbs.*1 →
  Forall (ready (λ vb i, accepts w vb i ∧ refuses vb.1 vb.2 = None) m) vbs →
  ∃ m' e', writeVars acFun coerce refuses vbs (m, e) =
      (Ok ((λ vb, (vb.1, w vb)) <$> vbs), (m', e')) ∧
    (∀ vb, vb ∈ vbs → value_at m' vb.1 = Some (Some (Val (w vb)))) ∧
    (∀ n, n ∉ vbs.*1 → value_at m' n = value_at m n).
Proof.
  intros Hnd Hr.
  destruct (pass_effect acFun coerce refuses _ _ _ _ vbs (test_effect _ _ _ permits w) 0 m e Hnd)
    as (m1 & e1 & H1 & U1).
  { eapply Forall_impl; [exact Hr|]. intros vb (Ht & i & Hi & Ha & _). split; eauto. }
  assert (R1 : Forall (ready (λ vb i, refuses vb.1 vb.2 = None ∧
    newSyntax i = Some (Val (w vb))) m1) vbs).
  { eapply ready_next; [exact U1| |exact Hr]. by intros vb i [_ Hc]. }
  destruct (pass_effect acFun coerce refuses _ _ _ _ vbs (commit_effect _ _ _) 0 m1 e1 Hnd)
    as (m2 & e2 & H2 & U2).
  { eapply Forall_impl; [exact R1|]. intros vb (Ht & i & Hi & Ha & _). split; eauto. }
  assert (R2 : Forall (ready (λ vb i, i_syntax i = Some (Val (w vb))) m2) vbs).
  { eapply ready_next; [exact U2| |exact R1]. by intros vb i [_ Hn]. }
  destruct (pass_effect acFun coerce refuses _ _ _ _ vbs (cleanup_effect _ _ _) 0 m2 e2 Hnd)
    as (m3 & e3 & H3 & U3).
  { eapply Forall_impl; [exact R2|]. intros vb (Ht & i & Hi & Ha). split; eauto. }
  assert (R3 : Forall (ready (λ vb i, i_syntax i = Some (Val (w vb))) m3) vbs).
  { eapply ready_next; [exact U3| |exact R2]. by intros vb i Hi. }
  destruct (pass_effect acFun coerce refuses _ _ _ _ vbs (readTest_effect _ _ _ permits) 0 m3 e3 Hnd)
    as (m4 & e4 & H4 & U4).
  { eapply Forall_impl; [exact R3|]. intros vb (Ht & i & Hi & Ha). split; eauto. }
  assert (R4 : Forall (ready (λ vb i, i_syntax i = Some (Val (w vb))) m4) vbs).
  { eapply ready_next; [exact U4| |exact R3]. by intros vb i Hi. }
  destruct (pass_effect acFun coerce refuses _ _ _ _ vbs (readGet_effect _ _ _ w) 0 m4 e4 Hnd R4)
    as (m5 & e5 & H5 & U5).
  exists m5, e5. split_and!.
  - unfold writeVars. rewrite (Instrum.writeVars_commits _ _ _ _ _ _ _ _ _ _ _ _ _ H1 H2 H3 H4 H5).
    by rewrite !omap_none, omap_some.
  - intros vb Hin. unfold value_at. rewrite (proj1 U5) by done.
    rewrite Forall_forall in R4. destruct (R4 vb Hin) as (_ & i & Hi & Hv). rewrite Hi. cbn.
    by rewrite Hv.
  - intros n Hn. unfold value_at.
    by rewrite (proj1 (proj2 U5)), (proj1 (proj2 U4)), (proj1 (proj2 U3)), (proj1 (proj2 U2)),
      (proj1 (proj2 U1)).
Qed.

Lemma commit_refused idx vb m e i x : target m vb.1 → at_name m vb.1 = Some i →
  refuses vb.1 vb.2 = Some x →
  ∃ m', handle Instrum.writeCommit idx vb (m, e) = (Err x, (m', e)) ∧ updates m vb.1 i m'.
Proof.
  intros Ht Hi Hp. destruct (target_inv _ _ Ht) as (k & sc & i0 & H1 & H2 & Hi0 & _). simplify_eq.
  cbn [handler]. unfold t_writeCommit, s_writeCommit. munfold.
  unfold tree_children, sc_children, zoom, in_branch. cbn [fst snd]. rewrite H1. cbn [fst snd].
  rewrite H2. unfold i_writeCommit. rewrite Hp. cbn. eexists. split; [reflexivity|].
  by eapply set_instance_updates.
Qed.

Lemma readTest_broken idx vb m e i : target m vb.1 → at_name m vb.1 = Some i →
  i_syntax i = None →
  ∃ m' e', handle Instrum.readTest idx vb (m, e) = (Err AttributeError, (m', e')) ∧
    updates m vb.1 i m'.
Proof.
  intros Ht Hi Hv.
  destruct (target_inv _ _ Ht) as (k & sc & i0 & H1 & H2 & Hi0 & Hk & Hn & Ha). simplify_eq.
  cbn [handler]. unfold t_readTest. rewrite decide_False by done. unfold s_readTest.
  munfold. unfold tree_children, sc_children, zoom, in_branch_or, in_branch. cbn [fst snd].
  rewrite H1. cbn [fst snd]. rewrite decide_False by done.
  destruct (check_access_ok acFun permits readable read_view (no_access idx) vb.1 idx sc e
    (writable_readable _ Ha)) as [e' Hca].
  rewrite Hca. cbn [fst snd]. rewrite H2. unfold i_readTest, i_value. cbn [fst snd].
  rewrite decide_True by done. rewrite Hv. eexists _, _. split; [reflexivity|].
  by eapply set_instance_updates.
Qed.

(** The names of a request are split by the binding that refuses. *)
Lemma request_split (vbs1 : list var_bind) x vbs2 : NoDup (vbs1 ++ x :: vbs2).*1 →
  NoDup vbs1.*1 ∧ ∀ vb, vb ∈ x :: vbs2 → vb.1 ∉ vbs1.*1.
Proof.
  rewrite fmap_app. intros (H1 & Hd & _)%NoDup_app. split; [done|].
  intros vb Hin Hin'. eapply Hd; [exact Hin'|]. by apply list_elem_of_fmap_2.
Qed.

(** Tests, commits up to the refusal, and the unwinding *)
Lemma unwinding w vbs1 x vbs2 m e err_ :
  NoDup (vbs1 ++ x :: vbs2).*1 →
  Forall (ready (λ vb i, accepts w vb i ∧ oldSyntax i = None) m) (vbs1 ++ x :: vbs2) →
  Forall (λ vb, refuses vb.1 vb.2 = None) vbs1 →
  refuses x.1 x.2 = Some err_ → is_SmiError err_ = true →
  let vbs := vbs1 ++ x :: vbs2 in
  ∃ m1 e1 m3 e3 m4 e4 o1 o2 o3,
    Instrum.pass handle Instrum.writeTest 0 vbs (m, e) = (Ok (o1, None), (m1, e1)) ∧
    Instrum.pass handle Instrum.writeCommit 0 vbs (m1, e1) = (Ok (o2, Some err_), (m3, e3)) ∧
    Instrum.pass handle Instrum.writeUndo 0 vbs (m3, e3) = (Ok (o3, None), (m4, e4)) ∧
    (∀ vb, vb ∈ vbs1 → value_at m4 vb.1 = value_at m vb.1) ∧
    (∀ vb, vb ∈ x :: vbs2 → ∃ i, at_name m4 vb.1 = Some i ∧ i_syntax i = None) ∧
    (∀ n, n ∉ vbs.*1 → value_at m4 n = value_at m n) ∧
    (∀ n, route m4 n = route m n).
Proof.
  intros Hnd Hr Hc1 Hx Hsmi vbs. destruct (request_split _ _ _ Hnd) as [Hnd1 Hdis].
  assert (Hsub : ∀ vb, vb ∈ vbs1 → vb ∈ vbs) by (intros; apply elem_of_app; by left).
  assert (Hxin : ∀ vb, vb ∈ x :: vbs2 → vb ∈ vbs) by (intros; apply elem_of_app; by right).
  assert (Hxx : x ∈ x :: vbs2) by apply list_elem_of_here.
  (* the tests *)
  destruct (pass_effect acFun coerce refuses _ _ _ _ vbs (test_effect _ _ _ permits w) 0 m e Hnd)
    as (m1 & e1 & H1 & U1).
  { eapply Forall_impl; [exact Hr|]. intros vb (Ht & i & Hi & Ha & _). split; eauto. }
  assert (R1 : Forall (ready (λ vb i, oldSyntax i = None) m1) vbs).
  { eapply ready_next; [exact U1| |exact Hr]. by intros vb i [_ Ho]. }
  rewrite Forall_forall in Hr, R1.
  (* the commits before x *)
  destruct (pass_effect acFun coerce refuses _ _ _ _ vbs1 (commit_effect _ _ _) 0 m1 e1 Hnd1)
    as (m2 & e2 & H2 & U2).
  { apply Forall_forall. intros vb Hin. rewrite Forall_forall in Hc1.
    destruct (R1 vb (Hsub _ Hin)) as (Ht & i & Hi & _). split; eauto. }
  destruct (R1 x (Hxin _ Hxx)) as (Htx & ix & Hix & _).
  destruct (commit_refused (0 + length vbs1) x m2 e2 ix err_) as (m3 & H3 & Hu3 & Hr3).
  { eapply target_route; [apply U2|done]. }
  { rewrite (proj1 (proj2 U2)); [done|by apply Hdis]. }
  { done. }
  assert (Hm3 : ∀ n, at_name m3 n = at_name m2 n).
  { intros n. rewrite Hu3. case_decide; [|done]. subst. rewrite (proj1 (proj2 U2)); [done|by apply Hdis]. }
  pose proof (Instrum.pass_breaks _ _ _ _ vbs2 _ _ _ _ _ _ H2 H3) as H23. rewrite Hsmi in H23.
  assert (Hroute3 : ∀ n, route m3 n = route m n).
  { intros n. by rewrite Hr3, (proj2 (proj2 U2)), (proj2 (proj2 U1)). }
  (* the unwinding *)
  destruct (pass_effect acFun coerce refuses _ _ _ _ vbs (undo_effect _ _ _) 0 m3 e2 Hnd)
    as (m4 & e4 & H4 & U4).
  { apply Forall_forall. intros vb Hin. destruct (R1 vb Hin) as (Ht & i & Hi & _). split.
    - eapply target_route; [|exact Ht]. intros n. by rewrite Hr3, (proj2 (proj2 U2)).
    - rewrite Hm3. destruct (decide (vb ∈ vbs1)) as [Hin1|Hin1].
      + rewrite (proj1 U2), Hi by done. cbn. eauto.
      + rewrite (proj1 (proj2 U2)); [eauto|]. apply Hdis. unfold vbs in Hin. set_solver. }
  assert (Hback : ∀ vb, vb ∈ vbs1 → value_at m4 vb.1 = value_at m vb.1).
  { intros vb Hin. unfold value_at. rewrite (proj1 U4), Hm3, (proj1 U2), (proj1 U1) by auto.
    destruct (Hr vb (Hsub _ Hin)) as (_ & i & -> & _ & Ho). cbn. by rewrite Ho. }
  assert (Hlost : ∀ vb, vb ∈ x :: vbs2 → ∃ i, at_name m4 vb.1 = Some i ∧ i_syntax i = None).
  { intros vb Hin. destruct (Hr vb (Hxin _ Hin)) as (_ & i & Hi & _ & Ho).
    rewrite (proj1 U4), Hm3, (proj1 (proj2 U2)), (proj1 U1), Hi by auto. cbn. eexists.
    split; [reflexivity|]. by cbn. }
  assert (Hroute4 : ∀ n, route m4 n = route m n).
  { intros n. by rewrite (proj2 (proj2 U4)). }
  exists m1, e1, m3, e2, m4, e4. eexists _, _, _. split_and!; [exact H1|exact H23|exact H4|done|done| |done].
  intros n Hn. unfold value_at. rewrite (proj1 (proj2 U4)), Hm3 by done.
  assert (n ∉ vbs1.*1).
  { intros Hin. apply Hn. unfold vbs. rewrite fmap_app. apply elem_of_app. by left. }
  by rewrite (proj1 (proj2 U2)), (proj1 (proj2 U1)).
Qed.

(** When an instance refuses to commit, the unwinding gives the instances
    committed before it their values back, but it takes the value of the one
    that refused, and of every one after it that was not reached, and leaves
    Python's None there; the read that follows then raises AttributeError in
    place of the error of the commit. *)
Theorem failed_commit_destroys_values w vbs1 x vbs2 m e err_ :
  NoDup (vbs1 ++ x :: vbs2).*1 →
  Forall (ready (λ vb i, accepts w vb i ∧ oldSyntax i = None) m) (vbs1 ++ x :: vbs2) →
  Forall (λ vb, refuses vb.1 vb.2 = None) vbs1 →
  Forall (ready (λ _ i, ∃ v, i_syntax i = Some (Val v)) m) vbs1 →
  refuses x.1 x.2 = Some err_ → is_SmiError err_ = true →
  ∃ m' e', writeVars acFun coerce refuses (vbs1 ++ x :: vbs2) (m, e) =
      (Err AttributeError, (m', e')) ∧
    (∀ vb, vb ∈ vbs1 → value_at m' vb.1 = value_at m vb.1) ∧
    (∀ vb, vb ∈ x :: vbs2 → value_at m' vb.1 = Some None) ∧
    (∀ n, n ∉ (vbs1 ++ x :: vbs2).*1 → value_at m' n = value_at m n).
Proof.
  intros Hnd Hr Hc1 Hv1 Hx Hsmi. destruct (request_split _ _ _ Hnd) as [Hnd1 Hdis].
  destruct (unwinding w vbs1 x vbs2 m e err_ Hnd Hr Hc1 Hx Hsmi)
    as (m1 & e1 & m3 & e3 & m4 & e4 & o1 & o2 & o3 & H1 & H23 & H4 & Hback & Hlost & Hothers & Hroute4).
  assert (Hxx : x ∈ x :: vbs2) by apply list_elem_of_here.
  assert (Htx : target m x.1).
  { rewrite Forall_app, Forall_cons in Hr. apply Hr. }
  destruct (pass_effect acFun coerce refuses _ _ _ _ vbs1 (readTest_effect _ _ _ permits) 0 m4 e4 Hnd1)
    as (m5 & e5 & H5 & U5).
  { apply Forall_forall. intros vb Hin. rewrite Forall_forall in Hv1.
    destruct (Hv1 vb Hin) as (Ht & i & Hi & v & Hv). split; [by eapply target_route|].
    specialize (Hback vb Hin). unfold value_at in Hback. rewrite Hi in Hback. cbn in Hback.
    rewrite Hv in Hback. destruct (at_name m4 vb.1) as [j|]; [|done]. cbn in Hback. simplify_eq. eauto. }
  destruct (Hlost x Hxx) as (jx & Hjx & Hjn).
  assert (Hjx5 : at_name m5 x.1 = Some jx).
  { rewrite (proj1 (proj2 U5)); [done|by apply Hdis]. }
  destruct (readTest_broken (0 + length vbs1) x m5 e5 jx) as (m6 & e6 & H6 & Hu6 & _).
  { eapply target_route; [|exact Htx]. intros n. by rewrite (proj2 (proj2 U5)). }
  { done. }
  { done. }
  pose proof (Instrum.pass_breaks _ _ _ _ vbs2 _ _ _ _ _ _ H5 H6) as H56. cbn in H56.
  exists m6, e6.
  assert (Hm6 : ∀ n, value_at m6 n = value_at m4 n).
  { intros n. unfold value_at. rewrite Hu6. case_decide; [subst; by rewrite Hjx|].
    destruct (decide (n ∈ vbs1.*1)) as [(vb & -> & Hin)%list_elem_of_fmap|Hn].
    - rewrite (proj1 U5) by done. by destruct (at_name m4 vb.1).
    - by rewrite (proj1 (proj2 U5)). }
  split_and!.
  - unfold writeVars. by rewrite (Instrum.writeVars_unwinds _ _ _ _ _ _ _ _ _ _ _ _ H1 H23 H4 H56).
  - intros vb Hin. rewrite Hm6. by apply Hback.
  - intros vb Hin. rewrite Hm6. unfold value_at. destruct (Hlost vb Hin) as (i & -> & Hn).
    cbn. by rewrite Hn.
  - intros n Hn. rewrite Hm6. by apply Hothers.
Qed.
End sets.

(** ** A concrete MIB: three writable scalars, the last not populated *)
Definition demo_scalar (n : oid) (s : syntax) : scalar :=
  mk_scalar readwrite TInteger 0 (Indices.setitem (n ++ [0]) (new_instance s) Indices.init).
Definition demo_mib : mib := mk_mib 0
  (Indices.setitem [1;3;1] (demo_scalar [1;3;1] (Val (VInteger 1)))
    (Indices.setitem [1;3;2] (demo_scalar [1;3;2] (Val (VInteger 2)))
      (Indices.setitem [1;3;3] (demo_scalar [1;3;3] (Val (VInteger 3)))
        (Indices.setitem [1;3;4] (demo_scalar [1;3;4] Schema) Indices.init)))).
(** An Integer32 syntax *)
Definition demo_coerce (n : oid) (s : syntax) (v : value) : result exn syntax :=
  match v with
  | VInteger z => if Integer32_ok z then Ok (Val v) else Err (PyAsn1Error "constraint")
  | _ => Err (PyAsn1Error "type")
  end.
Definition demo_refuses (n : oid) (v : value) : option exn :=
  if decide (n = [1;3;2;0]) then Some (MibError CommitFailedError (at_idx 1)) else None.
Definition no_refusal (n : oid) (v : value) : option exn := None.
Definition open_access : option (oid → option value_tag → nat → view_type → M exn unit bool) := None.

(** A GET of an instance that holds no value raises, where RFC 3416 has an
    exception value in the response. *)
Example unpopulated_get_raises :
  (readVars open_access demo_coerce no_refusal [([1;3;1;0], VNull); ([1;3;4;0], VNull)]
    (demo_mib, tt)).1 = Err (MibError NoSuchInstanceError (at_idx 1)).
Proof. vm_compute. reflexivity. Qed.

Lemma refused_set_writes_nothing_witness :
  value_at (writeVars open_access demo_coerce no_refusal
    [([1;3;1;0], VInteger 7); ([1;3;2;0], VNull)] (demo_mib, tt)).2.1 [1;3;1;0]
  = value_at demo_mib [1;3;1;0].
Proof.
  eapply (refused_set_writes_nothing open_access demo_coerce no_refusal
    [([1;3;1;0], VInteger 7); ([1;3;2;0], VNull)] demo_mib tt). vm_compute. reflexivity.
Defined.

Lemma demo_target n : n ∈ [[1;3;1;0]; [1;3;2;0]; [1;3;3;0]] → target demo_mib n.
Proof.
  intros Hn. rewrite !elem_of_cons in Hn; destruct Hn as [->|[->|[->|Hn]]];
    [..|by apply not_elem_of_nil in Hn]; (eexists _, _; split; [vm_compute; reflexivity|by split_and!]).
Qed.

Lemma accepted_set_writes_all_witness :
  ∃ m', writeVars open_access demo_coerce no_refusal
      [([1;3;1;0], VInteger 7); ([1;3;3;0], VInteger 9)] (demo_mib, tt) =
      (Ok [([1;3;1;0], VInteger 7); ([1;3;3;0], VInteger 9)], (m', tt)) ∧
    value_at m' [1;3;2;0] = Some (Some (Val (VInteger 2))).
Proof.
  destruct (accepted_set_writes_all open_access demo_coerce no_refusal ltac:(done) (λ vb, vb.2)
    [([1;3;1;0], VInteger 7); ([1;3;3;0], VInteger 9)] demo_mib tt)
    as (m' & [] & Hw & _ & Ho).
  - apply (bool_decide_unpack _). vm_compute. done.
  - repeat apply Forall_cons_2; try apply Forall_nil_2;
      (split; [apply demo_target; set_solver|eexists; split; [vm_compute; reflexivity|]]);
      (split; [eexists; split; [reflexivity|vm_compute; reflexivity]|reflexivity]).
  - exists m'. split; [exact Hw|]. rewrite Ho; [vm_compute; reflexivity|].
    apply (bool_decide_unpack _). vm_compute. done.
Defined.

Lemma failed_commit_destroys_values_witness :
  ∃ m', (writeVars open_access demo_coerce demo_refuses
      [([1;3;1;0], VInteger 7); ([1;3;2;0], VInteger 8); ([1;3;3;0], VInteger 9)] (demo_mib, tt)) =
      (Err AttributeError, (m', tt)) ∧
    value_at m' [1;3;1;0] = Some (Some (Val (VInteger 1))) ∧
    value_at m' [1;3;3;0] = Some None.
Proof.
  destruct (failed_commit_destroys_values open_access demo_coerce demo_refuses ltac:(done)
    (λ vb, vb.2) [([1;3;1;0], VInteger 7)] ([1;3;2;0], VInteger 8) [([1;3;3;0], VInteger 9)]
    demo_mib tt (MibError CommitFailedError (at_idx 1))) as (m' & [] & Hw & Hb & Hl & _).
  - apply (bool_decide_unpack _). vm_compute. done.
  - repeat apply Forall_cons_2; try apply Forall_nil_2;
      (split; [apply demo_target; set_solver|eexists; split; [vm_compute; reflexivity|]]);
      (split; [eexists; split; [reflexivity|vm_compute; reflexivity]|reflexivity]).
  - by repeat constructor.
  - apply Forall_cons_2; [|apply Forall_nil_2].
    split; [apply demo_target; set_solver|]. eexists; split; [vm_compute; reflexivity|].
    by eexists.
  - reflexivity.
  - reflexivity.
  - exists m'. split; [exact Hw|]. split.
    + etransitivity; [apply (Hb ([1;3;1;0], VInteger 7)); left|vm_compute; reflexivity].
    + apply (Hl ([1;3;3;0], VInteger 9)). right. left.
Defined.
End Scalars.
