(* ===== verification/RowStatus.v ===== *)
(** * Textual conventions with a state of their own
      (RowStatus and TestAndIncr of src/pysnmp/smi/mibs/SNMPv2-TC.py)

    The value of such an object decides what a new value makes of it.  What
    pyasn1's [clone] makes of a value it is given is the argument [clone]. *)
From S2P Require Export Scalars.
#[local] Open Scope Z_scope.

Module RowStatus.
Import Scalars.

(** The known row states *)
Definition stNotExists : Z := 0.
Definition stActive : Z := 1.
Definition stNotInService : Z := 2.
Definition stNotReady : Z := 3.
Definition stCreateAndGo : Z := 4.
Definition stCreateAndWait : Z := 5.
Definition stDestroy : Z := 6.

(** (new state, current state) -> (error, new state) *)
Definition stateMatrix : dict (Z * Z) (option mib_error * Z) :=
  [((stCreateAndGo, stNotExists), (Some RowCreationWanted, stActive));
   ((stCreateAndGo, stNotReady), (Some InconsistentValueError, stNotReady));
   ((stCreateAndGo, stNotInService), (Some InconsistentValueError, stNotInService));
   ((stCreateAndGo, stActive), (Some InconsistentValueError, stActive));
   ((stCreateAndWait, stNotExists), (Some RowCreationWanted, stActive));
   ((stCreateAndWait, stNotReady), (Some InconsistentValueError, stNotReady));
   ((stCreateAndWait, stNotInService), (Some InconsistentValueError, stNotInService));
   ((stCreateAndWait, stActive), (Some InconsistentValueError, stActive));
   ((stActive, stNotExists), (Some InconsistentValueError, stNotExists));
   ((stActive, stNotReady), (Some InconsistentValueError, stNotReady));
   ((stActive, stNotInService), (None, stActive));
   ((stActive, stActive), (None, stActive));
   ((stNotInService, stNotExists), (Some InconsistentValueError, stNotExists));
   ((stNotInService, stNotReady), (Some InconsistentValueError, stNotReady));
   ((stNotInService, stNotInService), (None, stNotInService));
   ((stNotInService, stActive), (None, stActive));
   ((stDestroy, stNotExists), (Some RowDestructionWanted, stNotExists));
   ((stDestroy, stNotReady), (Some RowDestructionWanted, stNotExists));
   ((stDestroy, stNotInService), (Some RowDestructionWanted, stNotExists));
   ((stDestroy, stActive), (Some RowDestructionWanted, stNotExists));
   ((stNotExists, stNotExists), (None, stNotExists))].

Section clone.
(** The integer a value is, for an object of the class; it raises when it is none
    or the constraint refuses it. *)
Context (clone : value → result exn Z).

(** The state a syntax object is in; one without a value does not exist. *)
Definition current (s : syntax) : Z :=
  match s with Val (VInteger z) => z | _ => stNotExists end.

(** [RowStatus.setValue]; a transition the matrix does not have raises
    [MibOperationError] itself, which is an [SmiError]. *)
Definition setValue (self : syntax) (value : value) : result exn syntax :=
  v ← clone value;
  match dget stateMatrix (v, current self) with
  | None => Err (SmiError "MibOperationError")
  | Some (Some e, newState) => Err (MibError e (mk_details None None (Some (VInteger newState))))
  | Some (None, newState) => Ok (Val (VInteger newState))
  end.
End clone.
End RowStatus.

Module TestAndIncr.
Import Scalars.
(** A number, and how one of its class is written *)
Definition number (v : value) : option (Z * (Z → value)) :=
  match v with
  | VInteger z => Some (z, VInteger) | VCounter32 z => Some (z, VCounter32)
  | VGauge32 z => Some (z, VGauge32) | VTimeTicks z => Some (z, VTimeTicks)
  | VCounter64 z => Some (z, VCounter64) | _ => None
  end.
(** [TestAndIncr.setValue]; pyasn1 compares numbers of any class, refuses to
    compare with an object that has no value, and what is not a number differs *)
Definition setValue (clone : value → result exn Z) (self : syntax) (value : value) : result exn syntax :=
  match self with
  | Schema => Err (PyAsn1Error "schema object")
  | Val cur =>
      match number value, number cur with
      | Some (v, mk), Some (c, _) =>
          if v =? c then
            let v := v + 1 in
            z ← clone (mk (if 2147483646 <? v then 0 else v));
            mret (Val (VInteger z))
          else Err (MibError InconsistentValueError (mk_details None None None))
      | _, _ => Err (MibError InconsistentValueError (mk_details None None None))
      end
  end.

(** A write is let through only with the value that is there, and the next value
    is another: of two writers that read the same value one is refused. *)
Theorem one_writer_wins clone (cur v : Z) s : 0 <= cur <= 2147483646 →
  (∀ z, 0 <= z <= 2147483647 → clone (VInteger z) = Ok z) →
  setValue clone (Val (VInteger cur)) (VInteger v) = Ok s →
  v = cur ∧ ∃ next, s = Val (VInteger next) ∧ next ≠ cur ∧ 0 <= next <= 2147483646 ∧
    setValue clone s (VInteger v) = Err (MibError InconsistentValueError (mk_details None None None)).
Proof.
  unfold setValue, number. intros Hc Hclone. destruct (Z.eqb_spec v cur) as [->|]; [|done].
  split; [done|]. destruct (Z.ltb_spec 2147483646 (cur + 1));
    rewrite Hclone in * by lia; munfold; simplify_eq; eexists; (split; [done|]); (split; [lia|]);
    (split; [lia|]); rewrite (proj2 (Z.eqb_neq _ _)); done || lia.
Qed.
Lemma one_writer_wins_witness : 2147483646 = 2147483646 ∧ ∃ next, Val (VInteger 0) = Val (VInteger next) ∧
  next ≠ 2147483646 ∧ 0 <= next <= 2147483646 ∧
  setValue (λ v, match v with VInteger z => Ok z | _ => Err TypeError end) (Val (VInteger 0)) (VInteger 2147483646) =
    Err (MibError InconsistentValueError (mk_details None None None)).
Proof.
  apply (one_writer_wins (λ v, match v with VInteger z => Ok z | _ => Err TypeError end) 2147483646 2147483646);
    [lia|done|reflexivity].
Defined.
End TestAndIncr.
