(* ===== verification/Rows.v ===== *)
(** * Conceptual rows (MibTableColumn and MibTableRow of
      src/pysnmp/smi/mibs/SNMPv2-SMI.py)

    A write to a cell that is not there, or to the status of a row, asks for the
    whole row: the column raises [RowCreationWanted] or [RowDestructionWanted] in
    each phase of the SET, and the row does the phase on its other columns and on
    the rows that augment it.  Rows are named by their OID in one dictionary, as
    [importSymbols] finds them.  A column is a [MibScalar] with the instances it is
    about to create or destroy; its [protoInstance] is [MibScalarInstance]. *)
From S2P Require Export RowStatus TableIndex.
#[local] Open Scope Z_scope.

Module Rows.
Export Scalars.

(** [MibTableColumn] *)
Record column : Type := mk_column {
  c_access : access;
  c_tag : value_tag;
  c_syntax : syntax;
  c_status : bool;              (* the syntax is a RowStatus *)
  optional : bool;
  c_version : Z;
  c_vars : @Indices.OidOrderedDict instance;
  createdInstances : dict oid (option instance);
  destroyedInstances : dict oid instance;
  rowOpWanted : dict oid exn;
}.

(** A column of the INDEX clause: its name, what is read of it, and the value of
    its syntax an index is *)
Record index_column : Type := mk_index_column {
  ix_name : oid;
  ix_index : TableIndex.index;
  ix_value : TableIndex.ival → value;
}.

(** [MibTableRow] *)
Record row : Type := mk_row {
  r_version : Z;
  r_vars : @Indices.OidOrderedDict column;
  indexNames : list index_column;
  augmentingRows : list oid;
}.
Abbreviation rows := (dict oid row).

(** A binding of a phase: a column that the manager did not name has no value. *)
Abbreviation cell_bind := (oid * option value)%type.

Section methods.
Context {E : Type}.
Context (acFun : option (oid → option value_tag → nat → view_type → M exn E bool)).
Context (coerce : oid → syntax → value → result exn syntax).
Context (clone_status : value → result exn Z).
Context (refuses : oid → value → option exn).

(** ** Instances *)
Abbreviation I := (M exn (instance * E)).

(** What the syntax of a cell makes of a value *)
Definition cell_coerce (status : bool) (n : oid) (s : syntax) (v : value) : result exn syntax :=
  if status then RowStatus.setValue clone_status s v else coerce n s v.

(** [MibScalarInstance.setValue]: no value is the default. *)
Definition cell_setValue (status : bool) (n : oid) (self : instance) (v : option value) (idx : nat) :
    result exn syntax :=
  match v with
  | None => from_option_exc AttributeError (i_syntax self)
  | Some v => Scalars.setValue (cell_coerce status) n self v idx
  end.

(** [createTest], on the instance of that name: an error that brings a syntax is
    not one *)
Definition i_createTest (status : bool) (idx : nat) (vb : cell_bind) : I unit := fun s =>
  match cell_setValue status vb.1 s.1 vb.2 idx with
  | Ok ns => put_instance (with_new (Some ns)) s
  | Err (MibError k d) =>
      match d_syntax d with
      | Some w => put_instance (with_new (Some (Val w))) s
      | None => (Err (MibError WrongValueError (at_idx idx)), s)
      end
  | Err e => (Err e, s)
  end.
Definition i_createCommit (n : oid) (idx : nat) (vb : cell_bind) : I unit :=
  match vb.2 with Some v => i_writeCommit refuses n idx (vb.1, v) | None => mret tt end.
Definition bump_instance (i : instance) : instance :=
  mk_instance (i_syntax i) (newSyntax i) (oldSyntax i) (i_version i + 1).
Definition i_createCleanup (n : oid) (idx : nat) (vb : cell_bind) : I unit :=
  put_instance bump_instance;;
  match vb.2 with Some v => i_writeCleanup n idx (vb.1, v) | None => mret tt end.
Definition i_createUndo (n : oid) (idx : nat) (vb : cell_bind) : I unit :=
  match vb.2 with Some v => i_writeUndo n idx (vb.1, v) | None => mret tt end.

(** [destroyTest]: no error of the new value counts *)
Definition i_destroyTest (status : bool) (idx : nat) (vb : cell_bind) : I unit := fun s =>
  match cell_setValue status vb.1 s.1 vb.2 idx with
  | Ok ns => put_instance (with_new (Some ns)) s
  | Err (MibError k d) =>
      match d_syntax d with
      | Some w => put_instance (with_new (Some (Val w))) s
      | None => (Ok tt, s)
      end
  | Err e => (Err e, s)
  end.
Definition i_destroyCommit : I unit := mret tt.
Definition i_destroyCleanup : I unit := put_instance bump_instance.
Definition i_destroyUndo : I unit := mret tt.

(** ** [MibTableColumn] *)
Abbreviation C := (M exn (column * E)).

Definition put_vars v (c : column) : column :=
  mk_column (c_access c) (c_tag c) (c_syntax c) (c_status c) (optional c) (c_version c) v
    (createdInstances c) (destroyedInstances c) (rowOpWanted c).
Definition put_created d (c : column) : column :=
  mk_column (c_access c) (c_tag c) (c_syntax c) (c_status c) (optional c) (c_version c) (c_vars c)
    d (destroyedInstances c) (rowOpWanted c).
Definition put_destroyed d (c : column) : column :=
  mk_column (c_access c) (c_tag c) (c_syntax c) (c_status c) (optional c) (c_version c) (c_vars c)
    (createdInstances c) d (rowOpWanted c).
Definition put_wanted d (c : column) : column :=
  mk_column (c_access c) (c_tag c) (c_syntax c) (c_status c) (optional c) (c_version c) (c_vars c)
    (createdInstances c) (destroyedInstances c) d.
Definition bump_column (c : column) : column :=
  mk_column (c_access c) (c_tag c) (c_syntax c) (c_status c) (optional c) (c_version c + 1) (c_vars c)
    (createdInstances c) (destroyedInstances c) (rowOpWanted c).
Definition col (f : column → column) : C unit := modify (λ s : column * E, (f s.1, s.2)).

(** [self._vars[name]] *)
Definition cell (c : column) (n : oid) : option instance := dget (Indices.base (c_vars c)) n.

(** A method of the instance under [n]; [absent] without one *)
Definition on_cell {A} (n : oid) (absent : exn) (m : I A) : C A := fun s =>
  match cell s.1 n with
  | None => (Err absent, s)
  | Some i => let '(r, (i', e)) := m (i, s.2) in (r, (put_vars (set_child n i' (c_vars s.1)) s.1, e))
  end.
(** A method of an instance that is about to be created *)
Definition on_created {A} (n : oid) (m : I A) : C A := fun s =>
  match dget (createdInstances s.1) n with
  | None => (Err KeyError, s)
  | Some None => (Err AttributeError, s)
  | Some (Some i) =>
      let '(r, (i', e)) := m (i, s.2) in
      (r, (put_created (dset (createdInstances s.1) n (Some i')) s.1, e))
  end.

(** [if acFun: if not fits or acFun(...): raise refusal] *)
Definition column_access (ac : bool) (fits : column → bool) (view : view_type) (refusal : exn)
    (name : oid) (idx : nat) : C unit := fun s =>
  match acFun with
  | Some f =>
      if negb ac then (Ok tt, s)
      else if negb (fits s.1) then (Err refusal, s)
      else let '(r, e) := f name (Some (c_tag s.1)) idx view s.2 in
           (match r with Ok true => Err refusal | Ok false => Ok tt | Err x => Err x end, (s.1, e))
  | None => (Ok tt, s)
  end.
Definition creatable (v : option value) (c : column) : bool :=
  match v with Some _ => match c_access c with readcreate => true | _ => false end | None => true end.

Definition no_creation idx : exn := MibError NoCreationError (at_idx idx).

(** The methods of the column of name [n]; without [ac] there is no access control. *)
Definition c_createTest (n : oid) (ac : bool) (idx : nat) (vb : cell_bind) : C unit :=
  let '(name, val) := vb in
  if decide (name = n) then raise (no_access idx)
  else
    column_access ac (creatable val) write_view (no_creation idx) name idx;;
    c ← gets fst;
    if bool_decide (val = None) && din (createdInstances c) name then mret tt
    else
      col (put_created (dset (createdInstances c) name (Some (new_instance (c_syntax c)))));;
      on_created name (i_createTest (c_status c) idx vb).

Definition c_createCommit (n : oid) (idx : nat) (vb : cell_bind) : C unit :=
  let name := vb.1 in
  c ← gets fst;
  if din (Indices.base (c_vars c)) name then
    if din (createdInstances c) name then on_cell name KeyError (i_createCommit name idx vb) else mret tt
  else
    on_created name (i_createCommit name idx vb);;
    c ← gets fst;
    match dget (createdInstances c) name with
    | Some (Some i) =>
        col (λ c, put_created (dset (createdInstances c) name None)
                    (put_vars (Indices.setitem name i (c_vars c)) c))
    | _ => mret tt
    end.

Definition c_createCleanup (n : oid) (idx : nat) (vb : cell_bind) : C unit :=
  let name := vb.1 in
  col bump_column;;
  c ← gets fst;
  match dget (createdInstances c) name with
  | Some i =>
      match i with
      | Some _ => on_created name (i_createCleanup name idx vb)
      | None => mret tt
      end;;
      col (λ c, put_created (ddel (createdInstances c) name) c)
  | None =>
      if din (Indices.base (c_vars c)) name then on_cell name KeyError (i_createCleanup name idx vb)
      else mret tt
  end.

Definition drop_cell (name : oid) (c : column) : column :=
  put_vars (Indices.delitem name (c_vars c)).2 c.
(** A half-created instance is one whose syntax has no value. *)
Definition c_createUndo (n : oid) (idx : nat) (vb : cell_bind) : C unit :=
  let name := vb.1 in
  c ← gets fst;
  match dget (createdInstances c) name with
  | None => mret tt
  | Some i =>
      col (λ c, put_created (ddel (createdInstances c) name) c);;
      match i with
      | None => col (drop_cell name)
      | Some i =>
          col (λ c, put_vars (Indices.setitem name i (c_vars c)) c);;
          match i_syntax i with
          | Some Schema => col (drop_cell name)
          | _ => on_cell name KeyError (i_createUndo name idx vb)
          end
      end
  end.

Definition c_destroyTest (n : oid) (ac : bool) (idx : nat) (vb : cell_bind) : C unit :=
  let '(name, val) := vb in
  if decide (name = n) then raise (no_access idx)
  else
    c ← gets fst;
    if din (Indices.base (c_vars c)) name then
      column_access ac (creatable val) write_view (no_access idx) name idx;;
      on_cell name KeyError (i_destroyTest (c_status c) idx vb)
    else mret tt.

Definition c_destroyCommit (n : oid) (idx : nat) (vb : cell_bind) : C unit :=
  let name := vb.1 in
  c ← gets fst;
  match cell c name with
  | Some i =>
      on_cell name KeyError i_destroyCommit;;
      col (λ c, drop_cell name (put_destroyed (dset (destroyedInstances c) name i) c))
  | None => mret tt
  end.

Definition c_destroyCleanup (n : oid) (idx : nat) (vb : cell_bind) : C unit :=
  let name := vb.1 in
  col bump_column;;
  col (λ c, put_destroyed (ddel (destroyedInstances c) name) c).

Definition c_destroyUndo (n : oid) (idx : nat) (vb : cell_bind) : C unit :=
  let name := vb.1 in
  c ← gets fst;
  match dget (destroyedInstances c) name with
  | Some i =>
      col (λ c, put_vars (Indices.setitem name i (c_vars c)) c);;
      on_cell name KeyError i_destroyUndo;;
      col (λ c, put_destroyed (ddel (destroyedInstances c) name) c)
  | None => mret tt
  end.

(** [MibScalar.writeTest] and what it inherits, on the branch of a column *)
Definition cs_writeTest (n : oid) (idx : nat) (vb : var_bind) : C unit :=
  if decide (vb.1 = n) then raise (no_access idx)
  else
    column_access true (λ c, writable (c_access c)) write_view (not_writable idx) vb.1 idx;;
    c ← gets fst;
    on_cell vb.1 (missing_instance idx) (i_writeTest (cell_coerce (c_status c)) vb.1 idx vb).

Inductive sub_action : Type := Commit | Cleanup | Undo.
Definition scalar_write (sub : sub_action) (n : oid) (idx : nat) (vb : var_bind) : C unit :=
  match sub with
  | Commit => on_cell vb.1 (missing_instance idx) (i_writeCommit refuses vb.1 idx vb)
  | Cleanup => col bump_column;; on_cell vb.1 (missing_instance idx) (i_writeCleanup vb.1 idx vb)
  | Undo => on_cell vb.1 (missing_instance idx) (i_writeUndo vb.1 idx vb)
  end.
Definition create_sub (sub : sub_action) : oid → nat → cell_bind → C unit :=
  match sub with Commit => c_createCommit | Cleanup => c_createCleanup | Undo => c_createUndo end.
Definition destroy_sub (sub : sub_action) : oid → nat → cell_bind → C unit :=
  match sub with Commit => c_destroyCommit | Cleanup => c_destroyCleanup | Undo => c_destroyUndo end.

Definition no_details : details := mk_details None None None.
Definition creation_wanted : exn := MibError RowCreationWanted no_details.
Definition destruction_wanted : exn := MibError RowDestructionWanted no_details.
Definition want (name : oid) (e : exn) : C unit :=
  col (λ c, put_wanted (dset (rowOpWanted c) name e) c).
(** [if name in self.__rowOpWanted: raise self.__rowOpWanted[name]] *)
Definition raise_wanted (name : oid) : C unit :=
  c ← gets fst; match dget (rowOpWanted c) name with Some e => raise e | None => mret tt end.

Definition value_of (vb : var_bind) : cell_bind := (vb.1, Some vb.2).

Definition c_writeTest (n : oid) (idx : nat) (vb : var_bind) : C unit :=
  let name := vb.1 in
  try_except (cs_writeTest n idx vb)
    (λ e, match e with
          | MibError NoSuchInstanceError _ =>
              Some (want name creation_wanted;; c_createTest n true idx (value_of vb))
          | MibError RowCreationWanted _ =>
              Some (want name e;; c_createTest n true idx (value_of vb))
          | MibError RowDestructionWanted _ =>
              Some (want name destruction_wanted;; c_destroyTest n true idx (value_of vb))
          | _ => None
          end);;
  raise_wanted name.

(** [__delegateWrite] *)
Definition delegateWrite (sub : sub_action) (n : oid) (idx : nat) (vb : var_bind) : C unit :=
  c ← gets fst;
  match dget (rowOpWanted c) vb.1 with
  | None => scalar_write sub n idx vb
  | Some (MibError RowCreationWanted _) => create_sub sub n idx (value_of vb)
  | Some (MibError RowDestructionWanted _) => destroy_sub sub n idx (value_of vb)
  | Some _ => mret tt
  end.

Definition c_writeCommit (n : oid) (idx : nat) (vb : var_bind) : C unit :=
  delegateWrite Commit n idx vb;; raise_wanted vb.1.
(** [del self.__rowOpWanted[name]; raise e] *)
Definition drop_wanted (name : oid) : C unit :=
  c ← gets fst;
  match dget (rowOpWanted c) name with
  | Some e => col (λ c, put_wanted (ddel (rowOpWanted c) name) c);; raise e
  | None => mret tt
  end.
Definition c_writeCleanup (n : oid) (idx : nat) (vb : var_bind) : C unit :=
  col bump_column;; delegateWrite Cleanup n idx vb;; drop_wanted vb.1.
Definition c_writeUndo (n : oid) (idx : nat) (vb : var_bind) : C unit :=
  c ← gets fst;
  (if din (rowOpWanted c) vb.1 then want vb.1 destruction_wanted else mret tt);;
  delegateWrite Undo n idx vb;; drop_wanted vb.1.

(** ** [MibTableRow] *)
Abbreviation R := (M exn (rows * E)).

Definition put_row_vars v (r : row) : row := mk_row (r_version r) v (indexNames r) (augmentingRows r).
Definition bump_row (r : row) : row :=
  mk_row (r_version r + 1) (r_vars r) (indexNames r) (augmentingRows r).
Definition change_row (rn : oid) (f : row → row) : R unit :=
  modify (λ s, (match dget s.1 rn with Some r => dset s.1 rn (f r) | None => s.1 end, s.2)).
(** [importSymbols] of a row *)
Definition the_row (rn : oid) : R row := s ← gets fst; liftR (from_option_exc (SmiError "no such symbol") (dget s rn)).
(** A method of the column under [cn] of a row *)
Definition on_column {A} (rn cn : oid) (m : C A) : R A := fun s =>
  match (r ← dget s.1 rn; dget (Indices.base (r_vars r)) cn) with
  | Some c =>
      let '(x, (c', e)) := m (c, s.2) in
      (x, (match dget s.1 rn with
           | Some r => dset s.1 rn (put_row_vars (set_child cn c' (r_vars r)) r)
           | None => s.1
           end, e))
  | None => (Err KeyError, s)
  end.

(** The index values of an instance: the loop over [indexNames], and what is left *)
Fixpoint index_values (names : list index_column) (instId : oid) :
    result exn (list (oid * TableIndex.ival) * oid) :=
  match names with
  | [] => Ok ([], instId)
  | ix :: names =>
      '(v, instId) ← TableIndex.setFromName (ix_index ix) instId;
      '(l, rest) ← index_values names instId;
      mret ((ix_name ix, v) :: l, rest)
  end.
Definition index_value (r : row) (vals : list (oid * TableIndex.ival)) (cn : oid) : option value :=
  v ← dget vals cn;
  ix ← list_find (λ ix, ix_name ix = cn) (indexNames r);
  Some (ix_value ix.2 v).

(** What a row does on its columns: [action] is "create" or "destroy" and a phase. *)
Inductive action : Type := Create (phase : option sub_action) | Destroy (phase : option sub_action).
Definition do_action (a : action) (n : oid) (ac : bool) (idx : nat) (vb : cell_bind) : C unit :=
  match a with
  | Create None => c_createTest n ac idx vb
  | Create (Some sub) => create_sub sub n idx vb
  | Destroy None => c_destroyTest n ac idx vb
  | Destroy (Some sub) => destroy_sub sub n idx vb
  end.

(** [__manageColumns]: a column of the index gets the index, without access control *)
Definition manageColumns (a : action) (rn excludeName nameSuffix : oid) (idx : nat) : R unit :=
  r ← the_row rn;
  '(vals, _) ← liftR (index_values (indexNames r) nameSuffix);
  mapM_ (λ cn,
      if decide (cn = excludeName) then mret tt
      else match index_value r vals cn with
           | Some v => on_column rn cn (do_action a cn false idx (cn ++ nameSuffix, Some v))
           | None => on_column rn cn (do_action a cn true idx (cn ++ nameSuffix, None))
           end)
    (Indices.keys_ (Indices.ordered (r_vars r))).

(** [name[:-1]] *)
Definition parent (n : oid) : oid := take (length n - 1) n.

(** [receiveManagementEvent]: the part of the row's index that is the base row's *)
Fixpoint new_suffix (names : list index_column) (baseIndices : list (oid * TableIndex.ival)) : result exn oid :=
  match names with
  | [] => Ok []
  | ix :: names =>
      here ← foldM (λ nv acc, if decide (nv.1 = ix_name ix)
                              then (λ o, acc ++ o) <$> TableIndex.getAsName (ix_index ix) nv.2
                              else Ok acc) baseIndices [];
      rest ← new_suffix names baseIndices;
      mret (here ++ rest)
  end.
Definition receiveManagementEvent (a : action) (baseIndices : list (oid * TableIndex.ival)) (idx : nat) (rn : oid) : R unit :=
  r ← the_row rn;
  newSuffix ← liftR (new_suffix (indexNames r) baseIndices);
  match newSuffix with
  | [] => mret tt
  | _ => manageColumns a rn [] newSuffix idx
  end.

(** [announceManagementEvent] *)
Definition announceManagementEvent (a : action) (rn name : oid) (idx : nat) : R unit :=
  r ← the_row rn;
  '(vals, rest) ← liftR (index_values (indexNames r) (drop (length rn + 1) name));
  match rest with
  | _ :: _ => raise (SmiError "Excessive instance identifier sub-OIDs left")
  | [] =>
      match filter (λ nv : oid * TableIndex.ival, parent nv.1 = rn) vals with
      | [] => mret tt
      | baseIndices => mapM_ (receiveManagementEvent a baseIndices idx) (augmentingRows r)
      end
  end.

(** [e.get("syntax", 0) == 1] *)
Definition wants_active (d : details) : bool := bool_decide (d_syntax d = Some (VInteger RowStatus.stActive)).

(** [__delegate]; a phase without a name is the test *)
Definition column_write (phase : option sub_action) : oid → nat → var_bind → C unit :=
  match phase with
  | None => c_writeTest
  | Some Commit => c_writeCommit
  | Some Cleanup => c_writeCleanup
  | Some Undo => c_writeUndo
  end.
Definition delegate (phase : option sub_action) (rn : oid) (idx : nat) (vb : var_bind) : R bool :=
  let name := vb.1 in
  r ← the_row rn;
  let manage a :=
    manageColumns a rn (take (length rn + 1) name) (drop (length rn + 1) name) idx;;
    announceManagementEvent a rn name idx in
  match getBranch (r_vars r) name with
  | None => raise (missing_object idx)
  | Some (cn, _) =>
      try_except (on_column rn cn (column_write phase cn idx vb);; mret false)
        (λ e, match e with
              | MibError RowCreationWanted d => Some (manage (Create phase);; mret (wants_active d))
              | MibError RowDestructionWanted _ => Some (manage (Destroy phase);; mret false)
              | _ => None
              end)
  end.

(** A row that becomes active has a value in every column that must have one. *)
Definition check_column (name rn : oid) (cn : oid) (c : column) : result exn unit :=
  if optional c then Ok tt
  else
    match cell c (cn ++ drop (length rn + 1) name) with
    | None => Err no_such_instance
    | Some i =>
        match i_syntax i with
        | Some (Val _) => Ok tt
        | Some Schema => Err (MibError InconsistentValueError no_details)
        | None => Err AttributeError
        end
    end.
Fixpoint check_columns (name rn : oid) (l : list (oid * option column)) : result exn unit :=
  match l with
  | [] => Ok tt
  | (cn, Some c) :: l => check_column name rn cn c ≫= λ _, check_columns name rn l
  | (_, None) :: _ => Err KeyError
  end.

Definition row_writeTest (rn : oid) (idx : nat) (vb : var_bind) : R unit :=
  delegate None rn idx vb;; mret tt.
Definition row_writeCommit (rn : oid) (idx : nat) (vb : var_bind) : R unit :=
  active ← delegate (Some Commit) rn idx vb;
  if active : bool then
    r ← the_row rn;
    liftR (check_columns vb.1 rn
      ((λ k, (k, dget (Indices.base (r_vars r)) k)) <$> Indices.keys_ (Indices.ordered (r_vars r))))
  else mret tt.
Definition row_writeCleanup (rn : oid) (idx : nat) (vb : var_bind) : R unit :=
  change_row rn bump_row;; delegate (Some Cleanup) rn idx vb;; mret tt.
Definition row_writeUndo (rn : oid) (idx : nat) (vb : var_bind) : R unit :=
  delegate (Some Undo) rn idx vb;; mret tt.
End methods.
End Rows.
