(* ===== verification/Mib.v ===== *)
(** * The tree of managed objects (src/pysnmp/smi/mibs/SNMPv2-SMI.py)

    Scalars, tables and rows side by side under the root [iso], as the controller
    registers them (smi/instrum.py): the row of a table is not below it but next to it,
    under a name that extends that of the table, and a table has no branches.  A row has
    columns.  The methods of the tree that the state machine of Instrum.v runs, the
    GETNEXT methods among them, for every kind of node.  The rows are in one dictionary,
    where their columns and the rows that augment them find them. *)
From S2P Require Export Rows Text.
#[local] Open Scope Z_scope.

Module Mib.
Export Rows.

(** What is registered at the root: a row is where [all_rows] has it. *)
Inductive node : Type := NScalar (s : scalar) | NTable (version : Z) | NRow.
Record tree : Type := mk_tree {
  root_version : Z;
  root_vars : @Indices.OidOrderedDict node;
  all_rows : rows;
}.

(** ** How the controller builds the tree ([__indexMib], the first time) *)

(** A managed object of the loaded modules: what is registered below it is not yet *)
Inductive managed : Type :=
  | MTable (name : oid)
  | MRow (name : oid) (r : row)
  | MColumn (name : oid) (c : column)
  | MInstance (typeName name : oid) (i : instance)
  | MScalar (name : oid) (s : scalar).
Record indexed : Type := mk_indexed {
  ix_tables : dict oid Z;
  ix_rows : dict oid row;
  ix_cols : dict oid column;
  ix_instances : dict oid (oid * instance);
  ix_scalars : dict oid scalar;
}.
Definition sort_managed (x : indexed) (s : managed) : indexed :=
  match s with
  | MTable n => mk_indexed (dset (ix_tables x) n 0) (ix_rows x) (ix_cols x) (ix_instances x) (ix_scalars x)
  | MRow n r => mk_indexed (ix_tables x) (dset (ix_rows x) n r) (ix_cols x) (ix_instances x) (ix_scalars x)
  | MColumn n c => mk_indexed (ix_tables x) (ix_rows x) (dset (ix_cols x) n c) (ix_instances x) (ix_scalars x)
  | MInstance t n i => mk_indexed (ix_tables x) (ix_rows x) (ix_cols x) (dset (ix_instances x) n (t, i)) (ix_scalars x)
  | MScalar n s => mk_indexed (ix_tables x) (ix_rows x) (ix_cols x) (ix_instances x) (dset (ix_scalars x) n s)
  end.
(** [registerSubtrees] *)
Definition register {V} (k : oid) (v : V) (d : @Indices.OidOrderedDict V) : result exn (@Indices.OidOrderedDict V) :=
  if din (Indices.base d) k then Err (SmiError "MIB subtree already registered") else Ok (Indices.setitem k v d).
Definition attach_instance (x : indexed) (n : oid) (ti : oid * instance) : result exn indexed :=
  match dget (ix_scalars x) ti.1 with
  | Some s =>
      d ← register n ti.2 (sc_vars s);
      mret (mk_indexed (ix_tables x) (ix_rows x) (ix_cols x) (ix_instances x)
              (dset (ix_scalars x) ti.1 (mk_scalar (sc_access s) (sc_tag s) (sc_version s + 1) d)))
  | None =>
      match dget (ix_cols x) ti.1 with
      | Some c =>
          d ← register n ti.2 (c_vars c);
          mret (mk_indexed (ix_tables x) (ix_rows x) (dset (ix_cols x) ti.1 (bump_column (put_vars d c)))
                  (ix_instances x) (ix_scalars x))
      | None => Err (SmiError "Orphan MIB scalar instance")
      end
  end.
Definition attach_column (rs : dict oid row) (n : oid) (c : column) : result exn (dict oid row) :=
  let rowName := removelast n in
  match dget rs rowName with
  | Some r => d ← register n c (r_vars r); mret (dset rs rowName (bump_row (put_row_vars d r)))
  | None => Err (SmiError "Orphan MIB table column")
  end.
Fixpoint each {V X} (f : X → oid → V → result exn X) (l : dict oid V) (x : X) : result exn X :=
  match l with [] => Ok x | (k, v) :: l => y ← f x k v; each f l y end.
Definition attach_root {V} (nd : V → node) (m : tree) (n : oid) (v : V) : result exn tree :=
  d ← register n (nd v) (root_vars m); mret (mk_tree (root_version m + 1) d (all_rows m)).
Definition indexMib (mibSymbols : dict string (list managed)) : result exn tree :=
  let modules := sorted_by (λ a b : list Z, tuple_leb b a) (λ ms : string * list managed, Text.codes ms.1) mibSymbols in
  let x := foldl sort_managed (mk_indexed [] [] [] [] []) (modules ≫= snd) in
  x ← each attach_instance (ix_instances x) x;
  rs ← each attach_column (ix_cols x) (ix_rows x);
  m ← each (attach_root (λ _, NRow)) rs (mk_tree 0 Indices.init rs);
  m ← each (attach_root NTable) (ix_tables x) m;
  each (attach_root NScalar) (ix_scalars x) m.

(** ** [getNextBranch] *)
Definition next_branch {V} (d : @Indices.OidOrderedDict V) (name : oid) : option oid :=
  let after := match (Indices.nextKey name d).1 with Ok k => Some k | Err _ => None end in
  match Indices.keys_ (Indices.ordered d) with
  | first :: _ => if tuple_ltb name first then Some first else after
  | [] => after
  end.

(** [except (NoAccessError, NoSuchInstanceError, NoSuchObjectError): pass] *)
Definition is_skipped (e : exn) : bool :=
  match e with
  | MibError NoAccessError _ | MibError NoSuchInstanceError _ | MibError NoSuchObjectError _ => true
  | _ => false
  end.

(** The loop of [readTestNext] and [readGetNext]: down into the branch the name is
    in, else on to the next one, which is tried before and after it is entered.
    [branch] and [next] find a branch, [child k n] is the method of the branch [k]
    with the name [n]. *)
Section next_loop.
Context {S A : Type} (branch next : oid → option oid) (child : oid → oid → M exn S A) (at_end : M exn S A).
Fixpoint next_loop (fuel : nat) (depthFirst : bool) (nextName : oid) : M exn S A :=
  match fuel with
  | O => raise (SmiError "out of rounds")
  | Datatypes.S fuel =>
      if depthFirst then
        match branch nextName with
        | None => next_loop fuel false nextName
        | Some k =>
            try_except (child k nextName)
              (λ e, if is_skipped e then Some (next_loop fuel false nextName) else None)
        end
      else
        match next nextName with
        | None => at_end
        | Some k =>
            try_except (child k k)
              (λ e, if is_skipped e then Some (next_loop fuel true k) else None)
        end
  end.
(** Two rounds for each branch, and two more *)
Definition in_order {V} (d : @Indices.OidOrderedDict V) : oid → M exn S A :=
  next_loop (2 * length (Indices.base d) + 4) true.
End next_loop.

Section methods.
Context {E : Type}.
Context (acFun : option (oid → option value_tag → nat → view_type → M exn E bool)).
Context (coerce : oid → syntax → value → result exn syntax).
Context (clone_status : value → result exn Z).
Context (refuses : oid → value → option exn).

Abbreviation T := (M exn (tree * E)).

(** ** The parts of the tree *)
Definition put_root (d : @Indices.OidOrderedDict node) (m : tree) : tree :=
  mk_tree (root_version m) d (all_rows m).
Definition on_scalar {A} (k : oid) (m : M exn (scalar * E) A) : T A := fun s =>
  match dget (Indices.base (root_vars s.1)) k with
  | Some (NScalar sc) =>
      let '(r, (sc', e)) := m (sc, s.2) in (r, (put_root (set_child k (NScalar sc') (root_vars s.1)) s.1, e))
  | _ => (Err KeyError, s)
  end.
Definition on_rows {A} (m : M exn (rows * E) A) : T A :=
  zoom (λ s : tree * E, (all_rows s.1, s.2))
    (λ d s, (mk_tree (root_version s.1) (root_vars s.1) d.1, d.2)) m.
Definition in_column {A} (rn cn : oid) (m : M exn (column * E) A) : T A := on_rows (on_column rn cn m).

Definition branch_key {V} (d : @Indices.OidOrderedDict V) (name : oid) : option oid :=
  fst <$> getBranch d name.

(** What is under a name: of the root, of a row; nothing is under a table *)
Definition root_branch (m : tree) (name : oid) : option (oid * node) := getBranch (root_vars m) name.
Definition no_branches : @Indices.OidOrderedDict unit := Indices.init.
Definition columns_of (m : tree) (rn : oid) : @Indices.OidOrderedDict column :=
  match dget (all_rows m) rn with Some r => r_vars r | None => Indices.init end.

(** [MibTree] is not accessible: its [maxAccess] refuses before [acFun] is asked. *)
Definition closed (refusal : exn) : T unit := match acFun with None => mret tt | Some _ => raise refusal end.

(** ** Columns: the methods of [MibScalar] over their own [getBranch] *)
Abbreviation C := (M exn (column * E)).
Definition readable_column (idx : nat) (name : oid) : C unit :=
  column_access acFun true (λ c, readable (c_access c)) read_view (no_access idx) name idx.
Definition c_readTest (n : oid) (idx : nat) (vb : var_bind) : C (option var_bind) :=
  if decide (vb.1 = n) then raise (no_access idx)
  else
    readable_column idx vb.1;;
    c ← gets fst;
    match cell c vb.1 with
    | None => mret None
    | Some _ => on_cell vb.1 KeyError (i_readTest vb.1 idx vb)
    end.
Definition c_readGet (n : oid) (idx : nat) (vb : var_bind) : C (option var_bind) :=
  c ← gets fst;
  match cell c vb.1 with
  | None => mret (Some (vb.1, VNoSuchInstance))
  | Some _ => on_cell vb.1 KeyError (i_readGet vb.1 idx vb)
  end.

(** ** GETNEXT; [oName] is the name the walk started from *)
Section next.
Context (idx : nat) (oName : oid).

(** The two methods of an instance; [get] is [readGetNext] *)
Definition i_next (get : bool) (n : oid) (nextName : oid) : M exn (instance * E) (option var_bind) := fun s =>
  if decide (nextName = n) then
    if tuple_ltb oName n then
      match i_syntax s.1 with
      | None => (Err AttributeError, s)
      | Some (Val v) => (Ok (if get then Some (n, v) else None), s)
      | Some Schema => (Err (missing_instance idx), s)
      end
    else (Err (missing_instance idx), s)
  else (Err (missing_instance idx), s).

Definition s_next (get : bool) (k nextName : oid) : M exn (scalar * E) (option var_bind) :=
  check_access acFun readable read_view (no_access idx) nextName idx;;
  s ← gets fst;
  in_order (branch_key (sc_vars s)) (next_branch (sc_vars s))
    (λ i n, sc_children (λ x, match dget (Indices.base x.1) i with
       | Some inst => let '(r, (inst', e)) := i_next get i n (inst, x.2) in (r, (set_child i inst' x.1, e))
       | None => (Err KeyError, x)
       end))
    (raise (missing_instance idx)) (sc_vars s) nextName.

Definition c_next (get : bool) (k nextName : oid) : C (option var_bind) :=
  readable_column idx nextName;;
  c ← gets fst;
  in_order (λ n, if din (Indices.base (c_vars c)) n then Some n else None) (next_branch (c_vars c))
    (λ i n, on_cell i KeyError (i_next get i n)) (raise (missing_instance idx)) (c_vars c) nextName.

Definition row_next (get : bool) (rn nextName : oid) : T (option var_bind) :=
  m ← gets fst;
  in_order (branch_key (columns_of m rn)) (next_branch (columns_of m rn))
    (λ cn n, in_column rn cn (c_next get cn n)) (raise (missing_object idx)) (columns_of m rn) nextName.
Definition table_next (nextName : oid) : T (option var_bind) :=
  in_order (branch_key no_branches) (next_branch no_branches)
    (λ _ _, raise KeyError) (raise (missing_object idx)) no_branches nextName.
Definition node_next (get : bool) (m : tree) (k nextName : oid) : T (option var_bind) :=
  match dget (Indices.base (root_vars m)) k with
  | None => raise KeyError
  | Some (NScalar _) => on_scalar k (s_next get k nextName)
  | Some (NTable _) => table_next nextName
  | Some NRow => row_next get k nextName
  end.
End next.

(** [readTestNext] and [readGetNext] of the root *)
Definition t_next (get : bool) (idx : nat) (vb : var_bind) : T (option var_bind) :=
  m ← gets fst;
  in_order (branch_key (root_vars m)) (next_branch (root_vars m))
    (node_next idx vb.1 get m)
    (mret (if get then Some (vb.1, VEndOfMibView) else None)) (root_vars m) vb.1.

(** ** The other phases, from the root down *)

(** The part of [MibTree] that is the same for the root, a table and a row: a name
    that is the node's own, else the branch it is in, which a table has none of *)
Definition row_read {A} (own : T A) (absent : T A) (rn : oid) (name : oid) (f : oid → C A) : T A :=
  if decide (name = rn) then own
  else
    m ← gets fst;
    match getBranch (columns_of m rn) name with
    | None => absent
    | Some (cn, _) => in_column rn cn (f cn)
    end.
Definition table_branch {A} (own absent : T A) (tn : oid) (name : oid) : T A :=
  if decide (name = tn) then own
  else match getBranch no_branches name with None => absent | Some _ => raise KeyError end.
Definition node_branch {A} (own absent : T A) (name : oid)
    (scalar_m : oid → M exn (scalar * E) A) (row_m : oid → T A) : T A :=
  if decide (name = iso_name) then own
  else
    m ← gets fst;
    match root_branch m name with
    | None => absent
    | Some (k, NScalar _) => on_scalar k (scalar_m k)
    | Some (k, NTable _) => table_branch own absent k name
    | Some (k, NRow) => row_m k
    end.

Definition t_readTest (idx : nat) (vb : var_bind) : T (option var_bind) :=
  let own := closed (no_access idx);; mret None in
  node_branch own (mret None) vb.1 (λ k, s_readTest acFun k idx vb)
    (λ rn, row_read own (mret None) rn vb.1 (λ cn, c_readTest cn idx vb)).

(** [readGet] has no case for its own name. *)
Definition t_readGet (idx : nat) (vb : var_bind) : T (option var_bind) :=
  let absent := mret (Some (vb.1, VNoSuchObject)) in
  m ← gets fst;
  match root_branch m vb.1 with
  | None => absent
  | Some (k, NScalar _) => on_scalar k (s_readGet k idx vb)
  | Some (_, NTable _) =>
      match getBranch no_branches vb.1 with None => absent | Some _ => raise KeyError end
  | Some (rn, NRow) =>
      match getBranch (columns_of m rn) vb.1 with
      | None => absent
      | Some (cn, _) => in_column rn cn (c_readGet cn idx vb)
      end
  end.

Definition bump_root : T unit := modify (λ s : tree * E,
  (mk_tree (root_version s.1 + 1) (root_vars s.1) (all_rows s.1), s.2)).
Definition bump_table (tn : oid) : T unit := modify (λ s : tree * E,
  (match dget (Indices.base (root_vars s.1)) tn with
   | Some (NTable v) => put_root (set_child tn (NTable (v + 1)) (root_vars s.1)) s.1
   | _ => s.1
   end, s.2)).

Definition t_writeTest (idx : nat) (vb : var_bind) : T unit :=
  let own := closed (not_writable idx) in
  node_branch own (raise (missing_object idx)) vb.1
    (λ k, s_writeTest acFun coerce k idx vb)
    (λ rn, on_rows (row_writeTest acFun coerce clone_status refuses rn idx vb)).

(** The phases after the test have no case for a node's own name. *)
Definition below {A} (idx : nat) (name : oid) (scalar_m : oid → M exn (scalar * E) A)
    (table_m : oid → T unit) (row_m : oid → T A) : T A :=
  m ← gets fst;
  match root_branch m name with
  | None => raise (missing_object idx)
  | Some (k, NScalar _) => on_scalar k (scalar_m k)
  | Some (k, NTable _) =>
      table_m k;;
      match getBranch no_branches name with None => raise (missing_object idx) | Some _ => raise KeyError end
  | Some (k, NRow) => row_m k
  end.
Definition t_writeCommit (idx : nat) (vb : var_bind) : T unit :=
  below idx vb.1 (λ k, s_writeCommit refuses k idx vb) (λ _, mret tt)
    (λ rn, on_rows (row_writeCommit acFun coerce clone_status refuses rn idx vb)).
Definition t_writeCleanup (idx : nat) (vb : var_bind) : T unit :=
  bump_root;;
  below idx vb.1 (λ k, s_writeCleanup k idx vb) bump_table
    (λ rn, on_rows (row_writeCleanup acFun coerce clone_status refuses rn idx vb)).
Definition t_writeUndo (idx : nat) (vb : var_bind) : T unit :=
  below idx vb.1 (λ k, s_writeUndo k idx vb) (λ _, mret tt)
    (λ rn, on_rows (row_writeUndo acFun coerce clone_status refuses rn idx vb)).

(** [getattr(mibTree, state)] *)
Definition handler (st : Instrum.fsm_state) (idx : nat) (vb : var_bind) : T (option var_bind) :=
  match st with
  | Instrum.readTest => t_readTest idx vb
  | Instrum.readGet => t_readGet idx vb
  | Instrum.readTestNext => t_next false idx vb
  | Instrum.readGetNext => t_next true idx vb
  | Instrum.writeTest => t_writeTest idx vb;; mret None
  | Instrum.writeCommit => t_writeCommit idx vb;; mret None
  | Instrum.writeCleanup => t_writeCleanup idx vb;; mret None
  | Instrum.writeUndo => t_writeUndo idx vb;; mret None
  | _ => raise (SmiError "Unsupported state handler")
  end.
Definition readVars : list var_bind → T (list var_bind) := Instrum.readVars handler.
Definition readNextVars : list var_bind → T (list var_bind) := Instrum.readNextVars handler.
Definition writeVars : list var_bind → T (list var_bind) := Instrum.writeVars handler.
End methods.
End Mib.

(** ** A small tree, for examples: a table of one index and a scalar *)
Module Demo.
Export Mib.
Definition tn : oid := [1; 4; 1].
Definition rn : oid := tn ++ [1].
Definition dict_of {V} (l : list (oid * V)) : @Indices.OidOrderedDict V :=
  foldl (λ d kv, Indices.setitem kv.1 kv.2 d) Indices.init l.
Definition new_column (a : access) (t : value_tag) (s : syntax) (st : bool) : column :=
  mk_column a t s st false 0 Indices.init [] [] [].
Definition with_cells (l : list (oid * instance)) (c : column) : column :=
  mk_column (c_access c) (c_tag c) (c_syntax c) (c_status c) (optional c) (Z.of_nat (length l))
    (dict_of l) [] [] [].
(** The columns of a row: an index, a text, a number with a default, the status *)
Definition demo_columns : list (oid * column) :=
  [(rn ++ [1], new_column not_accessible TInteger Schema false);
   (rn ++ [2], new_column readcreate TOctetString Schema false);
   (rn ++ [3], new_column readcreate TInteger (Val (VInteger 7)) false);
   (rn ++ [4], new_column readcreate TInteger Schema true)].
Definition demo_indices : list index_column :=
  [mk_index_column (rn ++ [1]) (TableIndex.mk_index false TableIndex.SInteger (λ _, true))
     (λ v, match v with TableIndex.IInt z => VInteger z | _ => VNull end)].
Definition demo_row (cols : list (oid * column)) : row := mk_row (Z.of_nat (length cols)) (dict_of cols) demo_indices [].
Definition tree_of (r : row) : tree :=
  mk_tree 3 (dict_of [(rn, NRow); (tn, NTable 0);
                      ([1; 3], NScalar (mk_scalar readonly TInteger 1
                         (dict_of [([1; 3; 0], new_instance (Val (VInteger 3)))])))])
    [(rn, r)].
Definition demo_tree : tree := tree_of (demo_row demo_columns).
(** The text has a default, the number is optional. *)
Definition ready_columns : list (oid * column) :=
  [(rn ++ [1], new_column not_accessible TInteger Schema false);
   (rn ++ [2], new_column readcreate TOctetString (Val (VOctetString [97])) false);
   (rn ++ [3], mk_column readcreate TInteger Schema false true 0 Indices.init [] [] []);
   (rn ++ [4], new_column readcreate TInteger Schema true)].
Definition ready_tree : tree := tree_of (demo_row ready_columns).
(** The same table with one row, of index 5 *)
Definition filled_columns : list (oid * column) :=
  [(rn ++ [1], with_cells [(rn ++ [1; 5], new_instance (Val (VInteger 5)))]
                 (new_column not_accessible TInteger Schema false));
   (rn ++ [2], with_cells [(rn ++ [2; 5], new_instance (Val (VOctetString [97])))]
                 (new_column readcreate TOctetString Schema false));
   (rn ++ [3], with_cells [(rn ++ [3; 5], new_instance (Val (VInteger 7)))]
                 (new_column readcreate TInteger (Val (VInteger 7)) false));
   (rn ++ [4], with_cells [(rn ++ [4; 5], new_instance (Val (VInteger 1)))]
                 (new_column readcreate TInteger Schema true))].
Definition filled_tree : tree := tree_of (demo_row filled_columns).
(** The symbols of two modules that make this tree *)
Definition demo_symbols : dict string (list managed) :=
  [("DEMO-MIB"%string, MTable tn :: MRow rn (mk_row 0 Indices.init demo_indices []) ::
                MScalar [1; 3] (mk_scalar readonly TInteger 0 Indices.init) ::
                ((λ kc, MColumn kc.1 kc.2) <$>
                   [(rn ++ [1], new_column not_accessible TInteger Schema false);
                    (rn ++ [2], new_column readcreate TOctetString Schema false);
                    (rn ++ [3], new_column readcreate TInteger (Val (VInteger 7)) false);
                    (rn ++ [4], new_column readcreate TInteger Schema true)]));
   ("__DEMO-MIB"%string, [MInstance (rn ++ [1]) (rn ++ [1; 5]) (new_instance (Val (VInteger 5)));
                   MInstance (rn ++ [2]) (rn ++ [2; 5]) (new_instance (Val (VOctetString [97])));
                   MInstance (rn ++ [3]) (rn ++ [3; 5]) (new_instance (Val (VInteger 7)));
                   MInstance (rn ++ [4]) (rn ++ [4; 5]) (new_instance (Val (VInteger 1)));
                   MInstance [1; 3] [1; 3; 0] (new_instance (Val (VInteger 3)))])].
Example filled_tree_is_indexed : indexMib demo_symbols = Ok filled_tree.
Proof. reflexivity. Qed.
Definition clone_status (v : value) : result exn Z :=
  match v with
  | VInteger z => if in_range 0 6 z then Ok z else Err (PyAsn1Error "")
  | _ => Err (PyAsn1Error "")
  end.
Definition coerce (n : oid) (s : syntax) (v : value) : result exn syntax := Ok (Val v).
Definition refuses (n : oid) (v : value) : option exn := None.
Definition set : list var_bind → M exn (tree * unit) (list var_bind) := writeVars None coerce clone_status refuses.
(** The value an instance of the row has *)
Definition shows_value (m : tree) (name : oid) : option value :=
  r ← dget (all_rows m) rn; c ← dget (Indices.base (r_vars r)) (take 5 name);
  i ← dget (Indices.base (c_vars c)) name;
  match i_syntax i with Some (Val v) => Some v | _ => None end.
End Demo.
