(* ===== verification/MibNext.v ===== *)
(** * GETNEXT over the tree of managed objects

    The loops of [readTestNext] and [readGetNext] find the first instance after a
    name, whatever the kinds of the nodes on the way. *)
From S2P Require Export Mib Column.
Import Mib.
#[local] Open Scope Z_scope.

Module MibNext.

(** ** The order of names and their extensions *)
Lemma prefix_leb (k n : oid) : k `prefix_of` n → tuple_leb k n = true.
Proof.
  intros [r ->]. destruct r; [rewrite app_nil_r; apply leb_refl|].
  apply tuple_ltb_weaken. by apply Column.tuple_ltb_app.
Qed.
Lemma tuple_ltb_ext_both (a b r t : oid) : tuple_ltb a b = true → ¬ a `prefix_of` b →
  tuple_ltb (a ++ r) (b ++ t) = true.
Proof.
  intros H Hp. destruct (decide (t = [])) as [->|Ht]; [rewrite app_nil_r; by apply tuple_ltb_ext|].
  eapply tuple_ltb_leb_trans; [by apply tuple_ltb_ext|]. apply prefix_leb. by eexists.
Qed.

(** ** Branches *)
Section branches.
Context {V : Type}.
Implicit Types (d : @Indices.OidOrderedDict V).

Definition sorted_keys d : list oid := Indices.keys_ (Indices.ordered d).
Lemma sorted_keys_perm d : Indices.wf d → sorted_keys d ≡ₚ dkeys (Indices.base d).
Proof.
  intros Hwf. destruct (Indices.ordered_wf d Hwf) as (Hwf' & _ & Hb).
  unfold sorted_keys. rewrite (Indices.wf_keys _ Hwf'). by rewrite Hb.
Qed.
Lemma elem_of_sorted_keys d k : Indices.wf d → k ∈ sorted_keys d ↔ k ∈ dkeys (Indices.base d).
Proof. intros Hwf. by rewrite sorted_keys_perm. Qed.

Lemma next_branch_spec d q : Indices.wf d →
  match next_branch d q with
  | Some k => Indices.successor (Indices.base d) q k
  | None => ∀ k, k ∈ dkeys (Indices.base d) → tuple_leb k q = true
  end.
Proof.
  intros Hwf. unfold next_branch. destruct (Indices.nextKey_spec d q Hwf) as [_ Hn].
  assert (Hafter : match (match (Indices.nextKey q d).1 with Ok k => Some k | Err _ => None end) with
    | Some k => Indices.successor (Indices.base d) q k
    | None => ∀ k, k ∈ dkeys (Indices.base d) → tuple_leb k q = true end).
  { destruct ((Indices.nextKey q d).1); [done|apply Hn]. }
  destruct (Indices.keys_ (Indices.ordered d)) as [|first rest] eqn:Hk; [done|].
  destruct (tuple_ltb q first) eqn:Hlt; [|done]. clear Hafter Hn.
  destruct (Indices.ordered_wf d Hwf) as (Hwf' & Hd & Hb).
  destruct (Indices.wf_sorted _ Hwf' Hd) as [Hs _].
  pose proof (elem_of_sorted_keys d) as Hin. unfold sorted_keys in Hin. rewrite Hk in *.
  split_and!; [by apply Hin; [|left]|done|]. intros k' Hk' _. apply Hin in Hk'; [|done].
  inversion Hs as [|? ? _ Hall]; subst. apply elem_of_cons in Hk' as [->|Hk']; [apply leb_refl|].
  rewrite Forall_forall in Hall. by apply Hall.
Qed.

(** What comes after a name, step by step *)
Lemma next_above d q : Indices.wf d →
  match next_branch d q with
  | Some k => Indices.above q (sorted_keys d) = k :: Indices.above k (sorted_keys d)
  | None => Indices.above q (sorted_keys d) = []
  end.
Proof.
  intros Hwf. pose proof (next_branch_spec d q Hwf) as Hn.
  destruct (Indices.ordered_wf d Hwf) as (Hwf' & Hd & Hb).
  destruct (next_branch d q) as [k|].
  - apply Indices.above_step; [done|done|by rewrite Hb].
  - apply filter_none. intros k Hk. apply elem_of_sorted_keys in Hk; [|done].
    by rewrite tuple_ltb_leb, (Hn k Hk).
Qed.

(** A branch is the longest key the name extends. *)
Lemma getBranch_spec d n : Indices.wf d →
  match getBranch d n with
  | Some (k, v) => dget (Indices.base d) k = Some v ∧ k `prefix_of` n ∧
      ∀ k', k' ∈ dkeys (Indices.base d) → k' `prefix_of` n → (length k' <= length k)%nat
  | None => ∀ k', k' ∈ dkeys (Indices.base d) → ¬ k' `prefix_of` n
  end.
Proof.
  intros Hwf. destruct (Indices.ordered_wf d Hwf) as (Hwf' & Hd & Hb).
  destruct (Indices.wf_sorted _ Hwf' Hd) as [_ Hl]. unfold getBranch. rewrite Hl. unfold Indices.lens_desc.
  set (lens := remove_dups _).
  assert (Hin : ∀ k, k ∈ dkeys (Indices.base d) → Z.of_nat (length k) ∈ sorted_by Z.leb (λ n, n) lens).
  { intros k Hk. rewrite sorted_by_perm. apply elem_of_remove_dups, list_elem_of_fmap.
    exists k. split; [done|]. by apply elem_of_sorted_keys. }
  pose proof (sorted_by_sorted Z.leb (λ n, n) lens) as Hs.
  assert (Hpos : ∀ z, z ∈ sorted_by Z.leb (λ n, n) lens → 0 <= z).
  { intros z Hz. rewrite sorted_by_perm in Hz. apply elem_of_remove_dups, list_elem_of_fmap in Hz as (k & -> & _). lia. }
  generalize dependent (sorted_by Z.leb (λ n, n) lens). clear lens Hl. intros l Hin Hs Hpos.
  assert (Hgen : ∀ l, StronglySorted (λ x y : Z, Z.leb x y = true) l → (∀ z, z ∈ l → 0 <= z) →
    (∀ k, k ∈ dkeys (Indices.base d) → k `prefix_of` n → Z.of_nat (length k) ∈ l) →
    match find_branch (reverse l) (Indices.base d) n with
    | Some (k, v) => dget (Indices.base d) k = Some v ∧ k `prefix_of` n ∧
        ∀ k', k' ∈ dkeys (Indices.base d) → k' `prefix_of` n → (length k' <= length k)%nat
    | None => ∀ k', k' ∈ dkeys (Indices.base d) → ¬ k' `prefix_of` n
    end).
  { clear. intros l. induction l as [|z l IH] using rev_ind; intros Hs Hpos Hin.
    { cbn. intros k' Hk' Hp. specialize (Hin k' Hk' Hp). by apply elem_of_nil in Hin. }
    rewrite reverse_app. cbn [reverse rev_append app find_branch].
    change (reverse [z] ++ reverse l) with (z :: reverse l). cbn [find_branch].
    destruct (dget (Indices.base d) (take (Z.to_nat z) n)) as [v|] eqn:Hg.
    - split; [done|]. split; [apply prefix_take|]. intros k' Hk' Hp.
      assert (Hlast : ∀ y, y ∈ l ++ [z] → y <= z).
      { clear - Hs. intros y Hy. apply elem_of_app in Hy as [Hy| ->%list_elem_of_singleton]; [|lia].
        apply list_elem_of_lookup in Hy as [i Hi]. apply Z.leb_le.
        eapply (StronglySorted_lookup (λ x y : Z, Z.leb x y = true) (l ++ [z]) i (length l)); [done| | |].
        - by apply lookup_lt_Some in Hi.
        - rewrite lookup_app_l; [done|]. by apply lookup_lt_Some in Hi.
        - rewrite lookup_app_r by lia. by rewrite Nat.sub_diag. }
      specialize (Hlast _ (Hin k' Hk' Hp)). rewrite length_take.
      apply prefix_length in Hp. lia.
    - apply IH.
      + clear - Hs. induction l as [|y l IH]; [constructor|]. cbn in Hs.
        inversion Hs as [|? ? Hs' Hall]; subst. constructor; [by apply IH|].
        apply Forall_app in Hall as [? _]. done.
      + intros y Hy. apply Hpos, elem_of_app. by left.
      + intros k Hk Hp. specialize (Hin k Hk Hp). apply elem_of_app in Hin as [?|Hz%list_elem_of_singleton]; [done|].
        exfalso. destruct Hp as [r Hr]. rewrite <- Hz, Nat2Z.id, Hr, take_app_length in Hg.
        by apply dget_None in Hg. }
  apply Hgen; try done. intros k Hk _. by apply Hin.
Qed.
End branches.

(** ** The loop *)

(** The first of a list of bindings after a name *)
Definition first_above (o : oid) (l : list var_bind) : option var_bind :=
  head (filter (λ vb : var_bind, tuple_ltb o vb.1 = true) l).

Lemma first_above_app o l1 l2 :
  first_above o (l1 ++ l2) = match first_above o l1 with Some vb => Some vb | None => first_above o l2 end.
Proof. unfold first_above. rewrite filter_app. by destruct (filter _ l1). Qed.
Lemma first_above_below o l : (∀ vb, vb ∈ l → tuple_leb vb.1 o = true) → first_above o l = None.
Proof.
  intros Hl. unfold first_above. rewrite filter_none; [done|]. intros vb Hvb.
  by rewrite tuple_ltb_leb, (Hl vb Hvb).
Qed.

Section loop.
Context {V S A : Type} (d : @Indices.OidOrderedDict V).
Context (branch : oid → option oid) (child : oid → oid → M exn S A) (at_end : M exn S A).
(** What is under a branch, and what is made of a binding *)
Context (L : oid → list var_bind) (out : var_bind → A) (oName : oid) (s : S).

(** The children keep apart, and each answers with its own first binding. *)
Record children_ok : Prop := {
  ch_wf : Indices.wf d;
  ch_self : ∀ k, k ∈ sorted_keys d → branch k = Some k;
  ch_above : ∀ k vb, k ∈ sorted_keys d → vb ∈ L k → tuple_leb k vb.1 = true;
  (** what the name is a branch of *)
  ch_branch : match branch oName with
              | Some k => k ∈ sorted_keys d ∧ tuple_leb k oName = true ∧
                  (∀ k' vb, k' ∈ sorted_keys d → k' ≠ k → tuple_leb k' oName = true → vb ∈ L k' → tuple_leb vb.1 oName = true)
              | None => ∀ k' vb, k' ∈ sorted_keys d → tuple_leb k' oName = true → vb ∈ L k' → tuple_leb vb.1 oName = true
              end;
  ch_child : ∀ k n, k ∈ sorted_keys d →
    (n = oName ∧ branch oName = Some k) ∨ (n = k ∧ tuple_ltb oName k = true) →
    match first_above oName (L k) with
    | Some vb => child k n s = (Ok (out vb), s)
    | None => ∃ e, is_skipped e = true ∧ child k n s = (Err e, s)
    end;
}.
Context (Hok : children_ok).

Definition under (ks : list oid) : list var_bind := ks ≫= L.

Lemma skipped e (k : M exn S A) (m : M exn S A) : is_skipped e = true → m s = (Err e, s) →
  try_except m (λ e, if is_skipped e then Some k else None) s = k s.
Proof. intros He Hm. unfold try_except. by rewrite Hm, He. Qed.
Lemma served x (k : exn → option (M exn S A)) (m : M exn S A) : m s = (Ok x, s) → try_except m k s = (Ok x, s).
Proof. intros Hm. unfold try_except. by rewrite Hm. Qed.

(** From the branches after a name on *)
Lemma breadth fuel q :
  tuple_leb oName q = true → (2 * length (Indices.above q (sorted_keys d)) < fuel)%nat →
  next_loop branch (next_branch d) child at_end fuel false q s =
    match first_above oName (under (Indices.above q (sorted_keys d))) with
    | Some vb => (Ok (out vb), s)
    | None => at_end s
    end.
Proof.
  destruct Hok as [Hwf Hself Habove _ Hchild].
  revert q. induction fuel as [fuel IH] using lt_wf_ind. intros q Hq Hf.
  pose proof (next_above d q Hwf) as Ha. pose proof (next_branch_spec d q Hwf) as Hn.
  destruct fuel as [|fuel]; [lia|]. cbn [next_loop].
  destruct (next_branch d q) as [k|]; [|by rewrite Ha].
  destruct Hn as (Hk & Hlt & _). apply elem_of_sorted_keys in Hk; [|done].
  rewrite Ha in *. cbn [under mbind list_bind]. cbn [length] in Hf.
  rewrite first_above_app.
  assert (Hok' : tuple_ltb oName k = true) by (by eapply tuple_leb_ltb_trans).
  pose proof (Hchild k k Hk (or_intror (conj eq_refl Hok'))) as Hc.
  destruct (first_above oName (L k)) as [vb|] eqn:Hfirst; [by apply served|].
  destruct Hc as (e & He & Hc). rewrite (skipped e) by done.
  destruct fuel as [|fuel]; [lia|]. cbn [next_loop]. rewrite Hself by done.
  rewrite (skipped e) by done.
  apply IH; [lia|by apply tuple_ltb_weaken|lia].
Qed.

(** Where the loop starts from: the name of the walk, or a name before every branch *)
Lemma above_le (d' : @Indices.OidOrderedDict V) q : Indices.wf d' → (length (Indices.above q (sorted_keys d')) <= length (Indices.base d'))%nat.
Proof.
  intros Hwf. unfold Indices.above. etrans; [apply length_filter|].
  rewrite (Permutation_length (sorted_keys_perm d' Hwf)). unfold dkeys. by rewrite length_fmap.
Qed.

Lemma skip_below q ks :
  (∀ k vb, k ∈ ks → tuple_ltb q k ≠ true → vb ∈ L k → tuple_leb vb.1 oName = true) →
  first_above oName (under ks) = first_above oName (under (Indices.above q ks)).
Proof.
  clear. induction ks as [|k ks IH]; intros Hks; [done|]. unfold Indices.above. rewrite filter_cons.
  cbn [under mbind list_bind]. rewrite first_above_app. fold (under ks).
  rewrite IH by (intros k' vb ? ? ?; eapply (Hks k' vb); [by right|done|done]). case_decide as Hd.
  - cbn [under mbind list_bind]. by rewrite first_above_app.
  - rewrite first_above_below; [done|]. intros vb Hvb. by apply (Hks k vb); [left| |].
Qed.
(** The branch the name is in, and those after the name *)
Lemma split_at_branch k ks : StronglySorted (λ a b, tuple_leb a b = true) ks → NoDup ks → k ∈ ks →
  tuple_leb k oName = true →
  (∀ k' vb, k' ∈ ks → k' ≠ k → tuple_leb k' oName = true → vb ∈ L k' → tuple_leb vb.1 oName = true) →
  first_above oName (under ks) =
    match first_above oName (L k) with
    | Some vb => Some vb
    | None => first_above oName (under (Indices.above oName ks))
    end.
Proof.
  clear. intros Hs. induction Hs as [|k0 ks Hs IH Hall]; intros Hnd Hk Hle Hbelow; [by apply elem_of_nil in Hk|].
  apply NoDup_cons in Hnd as [Hk0 Hnd]. rewrite Forall_forall in Hall.
  cbn [under mbind list_bind]. rewrite first_above_app. fold (under ks). unfold Indices.above. rewrite filter_cons.
  apply elem_of_cons in Hk as [<-|Hk].
  - rewrite decide_False by (rewrite tuple_ltb_leb, Hle; done).
    destruct (first_above oName (L k)) as [vb|]; [done|].
    apply skip_below. intros k' vb Hk' Hn. apply (Hbelow k'); [by right|by intros ->|].
    apply tuple_ltb_ge. by apply not_true_is_false.
  - assert (Hk0le : tuple_leb k0 oName = true) by (eapply leb_trans; [by apply Hall|done]).
    rewrite first_above_below by (intros vb; apply (Hbelow k0); [left|by intros ->|done]).
    rewrite decide_False by (rewrite tuple_ltb_leb, Hk0le; done).
    apply IH; try done. intros k' vb Hk'. apply Hbelow. by right.
Qed.

Lemma loop_spec n :
  n = oName ∨ (tuple_ltb oName n = true ∧ branch n = None ∧ ∀ k, k ∈ sorted_keys d → tuple_ltb n k = true) →
  in_order branch (next_branch d) child at_end d n s =
    match first_above oName (under (sorted_keys d)) with
    | Some vb => (Ok (out vb), s)
    | None => at_end s
    end.
Proof.
  pose proof (breadth) as Hbr. destruct Hok as [Hwf Hself Habove Hbranch Hchild].
  assert (Hlen : ∀ q, (2 * length (Indices.above q (sorted_keys d)) < 2 * length (Indices.base d) + 2)%nat)
    by (intros q; pose proof (above_le d q Hwf); lia).
  unfold in_order. replace (2 * length (Indices.base d) + 4)%nat
    with (Datatypes.S (2 * length (Indices.base d) + 3)) by lia. cbn [next_loop].
  intros [->|(Hlt & Hnone & Hall)].
  - assert (Hrest : next_loop branch (next_branch d) child at_end (2 * length (Indices.base d) + 3) false oName s =
      match first_above oName (under (Indices.above oName (sorted_keys d))) with
      | Some vb => (Ok (out vb), s) | None => at_end s end).
    { apply Hbr; [apply leb_refl|]. specialize (Hlen oName). lia. }
    destruct (branch oName) as [k|] eqn:Hb.
    + destruct Hbranch as (Hk & Hle & Hbelow).
      assert (Hs : StronglySorted (λ a b, tuple_leb a b = true) (sorted_keys d)).
      { destruct (Indices.ordered_wf d Hwf) as (Hwf' & Hd & _). apply (Indices.wf_sorted _ Hwf' Hd). }
      assert (Hnd : NoDup (sorted_keys d)) by (rewrite sorted_keys_perm by done; apply Hwf).
      rewrite (split_at_branch k) by done.
      pose proof (Hchild k oName Hk (or_introl (conj eq_refl eq_refl))) as Hc.
      destruct (first_above oName (L k)) as [vb|]; [by apply served|].
      destruct Hc as (e & He & Hc). by rewrite (skipped e).
    + rewrite Hrest, <- skip_below; [done|]. intros k vb Hk Hn Hvb. apply (Hbranch k); [done| |done].
      apply tuple_ltb_ge. by apply not_true_is_false.
  - rewrite Hnone. rewrite Hbr by (try (by apply tuple_ltb_weaken); specialize (Hlen n); lia).
    rewrite <- skip_below; [done|]. intros k vb Hk Hn _. destruct Hn. by apply Hall.
Qed.
End loop.

(** ** Children that keep apart *)
Definition apart {V} (d : @Indices.OidOrderedDict V) : Prop :=
  ∀ k k', k ∈ dkeys (Indices.base d) → k' ∈ dkeys (Indices.base d) → k `prefix_of` k' → k = k'.
Definition extends_all {V} (p : oid) (d : @Indices.OidOrderedDict V) : Prop :=
  ∀ k, k ∈ dkeys (Indices.base d) → ∃ r, r ≠ [] ∧ k = p ++ r.

(** A key may extend another one that nothing is under, as a row does its table. *)
Definition spread {V} (d : @Indices.OidOrderedDict V) (L : oid → list var_bind) : Prop :=
  ∀ k k', k ∈ dkeys (Indices.base d) → k' ∈ dkeys (Indices.base d) → k `prefix_of` k' → k = k' ∨ L k = [].
Lemma apart_spread {V} (d : @Indices.OidOrderedDict V) L : apart d → spread d L.
Proof. intros Ha k k' Hk Hk' Hp. left. by apply Ha. Qed.

Section apart.
Context {V : Type} (d : @Indices.OidOrderedDict V) (L : oid → list var_bind).
Context (Hwf : Indices.wf d) (Hapart : spread d L).
Context (HL : ∀ k vb, k ∈ dkeys (Indices.base d) → vb ∈ L k → k `prefix_of` vb.1).

Lemma branch_key_self k : k ∈ dkeys (Indices.base d) → branch_key d k = Some k.
Proof using Hwf.
  intros Hk. unfold branch_key. pose proof (getBranch_spec d k Hwf) as Hb.
  destruct (getBranch d k) as [[k' v]|]; [|by destruct (Hb k Hk)]. cbn.
  destruct Hb as (_ & Hp & Hl). specialize (Hl k Hk (PreOrder_Reflexive k)). f_equal.
  destruct Hp as [r ->]. rewrite length_app in Hl. destruct r; [by rewrite app_nil_r|cbn in Hl; lia].
Qed.
Lemma branch_key_Some n k : branch_key d n = Some k → k ∈ dkeys (Indices.base d) ∧ k `prefix_of` n ∧
  ∀ k', k' ∈ dkeys (Indices.base d) → k' `prefix_of` n → k' `prefix_of` k.
Proof using Hwf.
  unfold branch_key. pose proof (getBranch_spec d n Hwf) as Hb.
  destruct (getBranch d n) as [[k0 v]|]; [|done]. cbn. intros [= <-]. destruct Hb as (Hk & Hp & Hlong).
  split; [by eapply dget_Some_keys|]. split; [done|]. intros k' Hk' Hp'. pose proof (Hlong k' Hk' Hp') as Hlen.
  destruct (prefix_weak_total k' k0 n Hp' Hp) as [|Hq]; [done|]. by rewrite (prefix_length_eq k0 k').
Qed.
Lemma branch_key_None n : branch_key d n = None → ∀ k, k ∈ dkeys (Indices.base d) → ¬ k `prefix_of` n.
Proof using Hwf.
  unfold branch_key. pose proof (getBranch_spec d n Hwf) as Hb. by destruct (getBranch d n).
Qed.
Lemma branch_key_own p : extends_all p d → branch_key d p = None.
Proof using Hwf.
  intros Hp. destruct (branch_key d p) as [k|] eqn:E; [|done]. exfalso.
  apply branch_key_Some in E as (Hk & Hpre & _). destruct (Hp k Hk) as (r & Hr & ->).
  apply prefix_length in Hpre. rewrite length_app in Hpre. destruct r; [done|cbn in Hpre; lia].
Qed.

Lemma below_sibling k vb n : k ∈ dkeys (Indices.base d) → tuple_leb k n = true → ¬ k `prefix_of` n →
  vb ∈ L k → tuple_leb vb.1 n = true.
Proof using HL.
  intros Hk Hle Hn Hvb. destruct (HL k vb Hk Hvb) as [r ->]. apply tuple_ltb_weaken, tuple_ltb_ext; [|done].
  rewrite tuple_ltb_leb, negb_true_iff. destruct (tuple_leb n k) eqn:E; [|done].
  destruct Hn. by rewrite (tuple_leb_antisym k n Hle E).
Qed.

Lemma apart_children {S A} (child : oid → oid → M exn S A) (out : var_bind → A) oName s :
  (∀ k n, k ∈ dkeys (Indices.base d) →
    (n = oName ∧ k `prefix_of` oName) ∨ (n = k ∧ tuple_ltb oName k = true) →
    match first_above oName (L k) with
    | Some vb => child k n s = (Ok (out vb), s)
    | None => ∃ e, is_skipped e = true ∧ child k n s = (Err e, s)
    end) →
  children_ok d (branch_key d) child L out oName s.
Proof using Hwf Hapart HL.
  intros Hchild. pose proof (λ k, elem_of_sorted_keys d k Hwf) as Hin.
  split; [done| | | |].
  - intros k Hk. apply branch_key_self. by apply Hin.
  - intros k vb Hk Hvb. apply prefix_leb. apply HL; [by apply Hin|done].
  - destruct (branch_key d oName) as [k|] eqn:E.
    + apply branch_key_Some in E as (Hk & Hp & Hlong). split; [by apply Hin|]. split; [by apply prefix_leb|].
      intros k' vb Hk'%Hin Hne Hle Hvb. apply (below_sibling k'); try done. intros Hp'.
      destruct (Hapart k' k Hk' Hk (Hlong k' Hk' Hp')) as [|Hnil]; [done|]. rewrite Hnil in Hvb. by apply elem_of_nil in Hvb.
    + intros k vb Hk%Hin Hle Hvb. apply (below_sibling k); try done. by apply branch_key_None.
  - intros k n Hk%Hin [[-> Hb]|H]; apply Hchild; try done; [left|by right].
    split; [done|]. by apply branch_key_Some in Hb as (_ & ? & _).
Qed.

(** The loop over children that keep apart, entered by a name of the walk or by the
    name of the node *)
Lemma apart_loop {S A} (child : oid → oid → M exn S A) (at_end : M exn S A) (out : var_bind → A) p oName n s :
  extends_all p d → n = oName ∨ (n = p ∧ tuple_ltb oName p = true) →
  (∀ k n, k ∈ dkeys (Indices.base d) →
    (n = oName ∧ k `prefix_of` oName) ∨ (n = k ∧ tuple_ltb oName k = true) →
    match first_above oName (L k) with
    | Some vb => child k n s = (Ok (out vb), s)
    | None => ∃ e, is_skipped e = true ∧ child k n s = (Err e, s)
    end) →
  in_order (branch_key d) (next_branch d) child at_end d n s =
    match first_above oName (under L (sorted_keys d)) with
    | Some vb => (Ok (out vb), s)
    | None => at_end s
    end.
Proof using Hwf Hapart HL.
  intros Hp Hn Hchild. apply loop_spec; [by apply apart_children|].
  destruct Hn as [->|[-> Hlt]]; [by left|right]. split; [done|]. split; [by apply branch_key_own|].
  intros k Hk. apply elem_of_sorted_keys in Hk; [|done]. destruct (Hp k Hk) as (r & Hr & ->).
  by apply Column.tuple_ltb_app.
Qed.
End apart.

(** ** What is left as it was *)
Lemma dset_id {K V} `{EqDecision K} (d : dict K V) k v : dget d k = Some v → dset d k v = d.
Proof.
  induction d as [|[k' v'] d IH]; cbn; [done|]. case_decide; [by intros [= ->]; subst|].
  intros Hk. by rewrite IH.
Qed.
Lemma set_child_id {V} (d : @Indices.OidOrderedDict V) k v :
  dget (Indices.base d) k = Some v → set_child k v d = d.
Proof. intros H. unfold set_child. rewrite dset_id by done. by destruct d. Qed.

Lemma in_column_id {E A} (m : tree) rn cn r c (f : M exn (column * E) A) (e : E) res :
  dget (all_rows m) rn = Some r → dget (Indices.base (r_vars r)) cn = Some c →
  f (c, e) = (res, (c, e)) → in_column rn cn f (m, e) = (res, (m, e)).
Proof.
  intros Hr Hc Hf. unfold in_column, on_rows, zoom, on_column. cbn [fst snd].
  rewrite Hr. cbn [mbind option_bind]. rewrite Hc, Hf. cbn [fst snd]. rewrite set_child_id by done.
  rewrite dset_id; [by destruct m|]. by destruct r.
Qed.
Lemma on_scalar_id {E A} (m : tree) k sc (f : M exn (scalar * E) A) (e : E) res :
  dget (Indices.base (root_vars m)) k = Some (NScalar sc) →
  f (sc, e) = (res, (sc, e)) → on_scalar k f (m, e) = (res, (m, e)).
Proof.
  intros Hk Hf. unfold on_scalar. cbn [fst snd]. rewrite Hk, Hf. cbn [fst snd].
  rewrite set_child_id by done. by destruct m.
Qed.

(** ** A tree and what it shows *)
Definition leaf (d : @Indices.OidOrderedDict instance) (k : oid) : list var_bind :=
  match (i ← dget (Indices.base d) k; i_syntax i) with Some (Val v) => [(k, v)] | _ => [] end.
Definition leaves (d : @Indices.OidOrderedDict instance) : list var_bind := under (leaf d) (sorted_keys d).

(** No instance lost its syntax to an undo. *)
Definition populated (d : @Indices.OidOrderedDict instance) : Prop :=
  ∀ k i, dget (Indices.base d) k = Some i → i_syntax i ≠ None.

Record scalar_ok (k : oid) (sc : scalar) : Prop := {
  so_wf : Indices.wf (sc_vars sc);
  so_apart : apart (sc_vars sc);
  so_names : extends_all k (sc_vars sc);
  so_populated : populated (sc_vars sc);
}.
Record column_ok (k : oid) (c : column) : Prop := {
  co_wf : Indices.wf (c_vars c);
  co_names : extends_all k (c_vars c);
  co_populated : populated (c_vars c);
}.
Record row_ok (rn : oid) (r : row) : Prop := {
  ro_wf : Indices.wf (r_vars r);
  ro_apart : apart (r_vars r);
  ro_names : extends_all rn (r_vars r);
  ro_columns : ∀ cn c, dget (Indices.base (r_vars r)) cn = Some c → column_ok cn c;
}.
Definition node_ok (rs : rows) (k : oid) (nd : node) : Prop :=
  match nd with
  | NScalar sc => scalar_ok k sc
  | NTable _ => True
  | NRow => ∃ r, dget rs k = Some r ∧ row_ok k r
  end.
(** Only the name of a table is the beginning of another name at the root. *)
Definition tables_above (d : @Indices.OidOrderedDict node) : Prop :=
  ∀ k k' nd, dget (Indices.base d) k = Some nd → k' ∈ dkeys (Indices.base d) → k `prefix_of` k' →
    k = k' ∨ ∃ v, nd = NTable v.
Record tree_ok (m : tree) : Prop := {
  tr_wf : Indices.wf (root_vars m);
  tr_apart : tables_above (root_vars m);
  tr_nodes : ∀ k nd, dget (Indices.base (root_vars m)) k = Some nd → node_ok (all_rows m) k nd;
}.

(** The objects access control is about *)
Definition is_object (m : tree) (k : oid) : Prop :=
  (∃ sc, dget (Indices.base (root_vars m)) k = Some (NScalar sc)) ∨
  (∃ rn r c, dget (all_rows m) rn = Some r ∧ dget (Indices.base (r_vars r)) k = Some c).

Section getnext.
Context {E : Type} (acFun : option (oid → option value_tag → nat → view_type → M exn E bool)).
Context (refused : oid → bool) (m : tree).
(** Access control looks at the object: it answers alike for all its instances. *)
Context (Hac : ∀ f, acFun = Some f → ∀ k n t i (e : E), is_object m k → k `prefix_of` n →
  f n t i read_view e = (Ok (refused k), e)).

Definition shown (a : access) (k : oid) : bool :=
  match acFun with None => true | Some _ => readable a && negb (refused k) end.
Definition scalar_flat (k : oid) (sc : scalar) : list var_bind :=
  if shown (sc_access sc) k then leaves (sc_vars sc) else [].
Definition column_flat (k : oid) (c : column) : list var_bind :=
  if shown (c_access c) k then leaves (c_vars c) else [].
Definition columns_flat (d : @Indices.OidOrderedDict column) (cn : oid) : list var_bind :=
  match dget (Indices.base d) cn with Some c => column_flat cn c | None => [] end.
Definition row_flat (rn : oid) : list var_bind :=
  under (columns_flat (columns_of m rn)) (sorted_keys (columns_of m rn)).
Definition node_flat (k : oid) : list var_bind :=
  match dget (Indices.base (root_vars m)) k with
  | Some (NScalar sc) => scalar_flat k sc
  | Some NRow => row_flat k
  | Some (NTable _) | None => []
  end.
(** Every instance a reader is shown, with its value *)
Definition tree_flat : list var_bind := under node_flat (sorted_keys (root_vars m)).

Context (idx : nat) (oName : oid) (get : bool).
Definition out (vb : var_bind) : option var_bind := if get then Some vb else None.

(** What a method answers for what is under its node *)
Definition answers {S} (r : result exn (option var_bind) * S) (l : list var_bind) (s : S) : Prop :=
  match first_above oName l with
  | Some vb => r = (Ok (out vb), s)
  | None => ∃ e, is_skipped e = true ∧ r = (Err e, s)
  end.
(** How a node is entered *)
Definition entered (k n : oid) : Prop := (n = oName ∧ k `prefix_of` oName) ∨ (n = k ∧ tuple_ltb oName k = true).
Lemma entered_prefix k n : entered k n → k `prefix_of` n.
Proof. by intros [[-> ?]|[-> _]]. Qed.
Lemma entered_start k n : entered k n → n = oName ∨ (n = k ∧ tuple_ltb oName k = true).
Proof. intros [[-> ?]|?]; auto. Qed.

Lemma answers_loop {S} (s : S) (l : list var_bind) e r : is_skipped e = true →
  r = match first_above oName l with Some vb => (Ok (out vb), s) | None => (Err e, s) end → answers r l s.
Proof. intros He ->. unfold answers. destruct (first_above oName l); [done|]. by exists e. Qed.

(** *** Instances *)
Lemma leaf_names d k vb : vb ∈ leaf d k → vb.1 = k.
Proof.
  unfold leaf. destruct (_ ≫= _) as [[|v]|]; try (by intros ?%elem_of_nil).
  by intros ->%list_elem_of_singleton.
Qed.
Lemma leaf_names_prefix d k vb : vb ∈ leaf d k → k `prefix_of` vb.1.
Proof. by intros ->%leaf_names. Qed.
Lemma i_next_ok (d : @Indices.OidOrderedDict instance) k n i (e : E) : populated d →
  dget (Indices.base d) k = Some i → entered k n →
  answers (i_next idx oName get k n (i, e)) (leaf d k) (i, e).
Proof.
  intros Hpop Hk Hn. pose proof (Hpop k i Hk) as Hs. unfold answers. destruct Hn as [[-> Hp]|[-> Hlt]].
  - rewrite first_above_below.
    + unfold i_next. exists (missing_instance idx). case_decide as Hd; [rewrite Hd, tuple_ltb_irrefl|]; by split.
    + intros vb ->%leaf_names. by apply prefix_leb.
  - unfold leaf, i_next. rewrite Hk, decide_True, Hlt by done. cbn [mbind option_bind fst].
    destruct (i_syntax i) as [[|v]|]; [by exists (missing_instance idx)| |done].
    unfold first_above. rewrite filter_cons_True by done. done.
Qed.

(** *** Scalars *)
Lemma not_shown {S} (s : S) r e : is_skipped e = true → r = (Err e, s) → answers r [] s.
Proof. intros He ->. unfold answers, first_above. cbn. by exists e. Qed.

Lemma s_next_ok k n sc (e : E) : scalar_ok k sc → is_object m k → entered k n →
  answers (s_next acFun idx oName get k n (sc, e)) (scalar_flat k sc) (sc, e).
Proof.
  intros [Hwf Hap Hnm Hpop] Hobj Hn. unfold s_next, mbind, M_bind.
  assert (Hacc : check_access acFun readable read_view (no_access idx) n idx (sc, e) =
    (if shown (sc_access sc) k then Ok tt else Err (no_access idx), (sc, e))).
  { unfold check_access, shown. destruct acFun as [f|] eqn:Hf; [|done]. cbn [fst snd].
    destruct (readable (sc_access sc)); [|done].
    rewrite (Hac f eq_refl k) by (done || by apply entered_prefix). by destruct (refused k). }
  rewrite Hacc. unfold scalar_flat. destruct (shown _ _); [|by apply (not_shown _ _ (no_access idx))].
  cbn [gets fst]. eapply answers_loop; [|apply (apart_loop (sc_vars sc) (leaf (sc_vars sc)) Hwf (apart_spread _ _ Hap)
    (λ k vb _, leaf_names_prefix (sc_vars sc) k vb) _ _ out k oName n (sc, e) Hnm (entered_start _ _ Hn))]; [done|].
  intros k' n' Hk' Hn'. apply dget_keys in Hk' as [i Hi].
  pose proof (i_next_ok (sc_vars sc) k' n' i e Hpop Hi Hn') as Ha. unfold answers in Ha.
  unfold sc_children, zoom. cbn [fst snd]. rewrite Hi.
  destruct (first_above oName (leaf _ k')) as [vb|].
  - rewrite Ha. cbn [fst snd]. rewrite set_child_id by done. by destruct sc.
  - destruct Ha as (x & Hx & ->). exists x. cbn [fst snd]. rewrite set_child_id by done. by destruct sc.
Qed.

(** *** Columns *)
Lemma column_children c (e : E) : Indices.wf (c_vars c) → populated (c_vars c) →
  children_ok (c_vars c) (λ n, if din (Indices.base (c_vars c)) n then Some n else None)
    (λ i n, on_cell i KeyError (i_next idx oName get i n)) (leaf (c_vars c)) out oName (c, e).
Proof.
  intros Hwf Hpop. pose proof (λ k, elem_of_sorted_keys (c_vars c) k Hwf) as Hin. split; [done| | | |].
  - intros k Hk%Hin. by rewrite (proj2 (din_true _ _)).
  - intros k vb _ ->%leaf_names. apply leb_refl.
  - destruct (din _ oName) eqn:Ed.
    + split; [by apply Hin, din_true|]. split; [apply leb_refl|]. by intros k' vb _ _ Hle ->%leaf_names.
    + intros k' vb _ Hle ->%leaf_names. done.
  - intros k n Hk%Hin Hn. apply dget_keys in Hk as [i Hi].
    assert (Hent : entered k n).
    { destruct Hn as [[-> Hb]|Hn]; [left|by right]. destruct (din _ oName); [|done]. by injection Hb as ->. }
    pose proof (i_next_ok (c_vars c) k n i e Hpop Hi Hent) as Ha. unfold answers in Ha.
    unfold on_cell, cell. cbn [fst snd]. rewrite Hi.
    destruct (first_above oName (leaf _ k)) as [vb|].
    + rewrite Ha. cbn [fst snd]. rewrite set_child_id by done. by destruct c.
    + destruct Ha as (x & Hx & ->). exists x. cbn [fst snd]. rewrite set_child_id by done. by destruct c.
Qed.

Lemma c_next_ok k n c (e : E) : column_ok k c → is_object m k → entered k n →
  answers (c_next acFun idx oName get k n (c, e)) (column_flat k c) (c, e).
Proof.
  intros [Hwf Hnm Hpop] Hobj Hn. unfold c_next, mbind, M_bind.
  assert (Hacc : readable_column acFun idx n (c, e) =
    (if shown (c_access c) k then Ok tt else Err (no_access idx), (c, e))).
  { unfold readable_column, column_access, shown. destruct acFun as [f|] eqn:Hf; [|done]. cbn [fst snd negb].
    destruct (readable (c_access c)); [|done]. cbn [negb andb].
    rewrite (Hac f eq_refl k) by (done || by apply entered_prefix). by destruct (refused k). }
  rewrite Hacc. unfold column_flat. destruct (shown _ _); [|by apply (not_shown _ _ (no_access idx))].
  cbn [gets fst]. eapply answers_loop; [|apply (loop_spec _ _ _ _ _ _ _ _ (column_children c e Hwf Hpop))]; [done|].
  apply entered_start in Hn as [->|[-> Hlt]]; [by left|right]. split; [done|].
  assert (Hk : ∀ k', k' ∈ dkeys (Indices.base (c_vars c)) → tuple_ltb k k' = true).
  { intros k' Hk'. destruct (Hnm k' Hk') as (r & Hr & ->). by apply Column.tuple_ltb_app. }
  split.
  - destruct (din _ k) eqn:Ed; [|done]. apply din_true, Hk in Ed. by rewrite tuple_ltb_irrefl in Ed.
  - intros k' Hk'. apply Hk. by apply elem_of_sorted_keys in Hk'.
Qed.

(** *** Rows, tables and the root: the tree stays as it is *)
Abbreviation T := (M exn (tree * E)).
Lemma leaves_extend k d vb : Indices.wf d → extends_all k d → vb ∈ leaves d → k `prefix_of` vb.1.
Proof.
  intros Hwf Hnm Hvb. unfold leaves, under in Hvb. apply list_elem_of_bind in Hvb as (k' & Hvb & Hk').
  apply leaf_names in Hvb as ->. apply elem_of_sorted_keys, Hnm in Hk' as (r & _ & ->); [|done]. by eexists.
Qed.
Lemma columns_flat_names rn r : dget (all_rows m) rn = Some r → row_ok rn r →
  ∀ cn vb, cn ∈ dkeys (Indices.base (r_vars r)) → vb ∈ columns_flat (r_vars r) cn → cn `prefix_of` vb.1.
Proof.
  intros Hr Hok cn vb Hcn Hvb. apply dget_keys in Hcn as [c Hc]. destruct (ro_columns _ _ Hok cn c Hc) as [Hwf Hnm _].
  unfold columns_flat in Hvb. rewrite Hc in Hvb. unfold column_flat in Hvb.
  destruct (shown _ _); [by eapply leaves_extend|by apply elem_of_nil in Hvb].
Qed.

Lemma row_next_ok rn r n (e : E) : dget (all_rows m) rn = Some r → row_ok rn r → entered rn n →
  answers (row_next acFun idx oName get rn n (m, e)) (row_flat rn) (m, e).
Proof.
  intros Hr Hok Hn. unfold row_next, mbind, M_bind. cbn [gets fst].
  unfold row_flat. assert (Hcols : columns_of m rn = r_vars r) by (unfold columns_of; by rewrite Hr).
  rewrite Hcols. eapply answers_loop; [|apply (apart_loop (r_vars r) (columns_flat (r_vars r)) (ro_wf _ _ Hok)
    (apart_spread _ _ (ro_apart _ _ Hok)) (columns_flat_names rn r Hr Hok) _ _ out rn oName n (m, e) (ro_names _ _ Hok) (entered_start _ _ Hn))]; [done|].
  intros cn n' Hcn Hn'. apply dget_keys in Hcn as [c Hc].
  pose proof (c_next_ok cn n' c e (ro_columns _ _ Hok cn c Hc) (or_intror (ex_intro _ rn (ex_intro _ r (ex_intro _ c (conj Hr Hc))))) Hn') as Ha.
  unfold columns_flat. rewrite Hc. unfold answers in Ha. destruct (first_above oName _).
  - by apply (in_column_id m rn cn r c).
  - destruct Ha as (x & Hx & Ha). exists x. split; [done|]. by apply (in_column_id m rn cn r c).
Qed.

Lemma under_names {V} (d : @Indices.OidOrderedDict V) L p vb : Indices.wf d → extends_all p d →
  (∀ k vb, k ∈ dkeys (Indices.base d) → vb ∈ L k → k `prefix_of` vb.1) →
  vb ∈ under L (sorted_keys d) → p `prefix_of` vb.1.
Proof.
  intros Hwf Hnm HL Hvb. apply list_elem_of_bind in Hvb as (k & Hvb & Hk).
  apply elem_of_sorted_keys in Hk; [|done]. destruct (Hnm k Hk) as (r & _ & Hkr).
  destruct (HL k vb Hk Hvb) as [t Ht]. exists (r ++ t). by rewrite Ht, Hkr, app_assoc.
Qed.
Lemma row_flat_names rn vb : (∃ r, dget (all_rows m) rn = Some r ∧ row_ok rn r) → vb ∈ row_flat rn → rn `prefix_of` vb.1.
Proof.
  intros (r & Hr & Hok) Hvb. unfold row_flat, columns_of in Hvb. rewrite Hr in Hvb.
  eapply under_names; [apply Hok|apply Hok| |exact Hvb]. by eapply columns_flat_names.
Qed.

Lemma table_next_ok n (e : E) : answers (table_next idx n (m, e)) [] (m, e).
Proof. by apply (not_shown _ _ (missing_object idx)). Qed.

Lemma node_next_ok k nd n (e : E) : dget (Indices.base (root_vars m)) k = Some nd → node_ok (all_rows m) k nd →
  entered k n → answers (node_next acFun idx oName get m k n (m, e)) (node_flat k) (m, e).
Proof.
  intros Hk Hok Hn. unfold node_next, node_flat. rewrite Hk. destruct nd as [sc|v|].
  - pose proof (s_next_ok k n sc e Hok (or_introl (ex_intro _ sc Hk)) Hn) as Ha.
    unfold answers in *. destruct (first_above oName _).
    + by apply (on_scalar_id m k sc).
    + destruct Ha as (x & Hx & Ha). exists x. split; [done|]. by apply (on_scalar_id m k sc).
  - apply table_next_ok.
  - destruct Hok as (r & Hr & Hok). by apply (row_next_ok k r).
Qed.
Lemma node_flat_names k vb : tree_ok m → k ∈ dkeys (Indices.base (root_vars m)) → vb ∈ node_flat k → k `prefix_of` vb.1.
Proof.
  intros Hm Hk Hvb. apply dget_keys in Hk as [nd Hk]. pose proof (tr_nodes _ Hm k nd Hk) as Hok.
  unfold node_flat in Hvb. rewrite Hk in Hvb. destruct nd as [sc|v|].
  - unfold scalar_flat in Hvb. destruct (shown _ _); [|by apply elem_of_nil in Hvb].
    eapply leaves_extend; [apply Hok|apply Hok|done].
  - by apply elem_of_nil in Hvb.
  - by apply row_flat_names.
Qed.
Lemma node_flat_spread : tree_ok m → spread (root_vars m) node_flat.
Proof.
  intros Hm k k' Hk Hk' Hp. apply dget_keys in Hk as [nd Hk].
  destruct (tr_apart _ Hm k k' nd Hk Hk' Hp) as [|[v ->]]; [by left|right]. unfold node_flat. by rewrite Hk.
Qed.

Lemma t_next_ok v (e : E) : tree_ok m →
  t_next acFun get idx (oName, v) (m, e) =
    (Ok (match first_above oName tree_flat with
         | Some vb => out vb
         | None => if get then Some (oName, VEndOfMibView) else None
         end), (m, e)).
Proof.
  intros Hm. unfold t_next, mbind, M_bind. cbn [gets fst].
  assert (Hc : ∀ k n, k ∈ dkeys (Indices.base (root_vars m)) →
    (n = oName ∧ k `prefix_of` oName) ∨ (n = k ∧ tuple_ltb oName k = true) →
    answers (node_next acFun idx oName get m k n (m, e)) (node_flat k) (m, e)).
  { intros k n Hk Hn. apply dget_keys in Hk as [nd Hk].
    apply (node_next_ok k nd n e Hk); [by apply (tr_nodes _ Hm)|done]. }
  rewrite (loop_spec _ _ _ _ _ _ _ _ (apart_children (root_vars m) node_flat (tr_wf _ Hm) (node_flat_spread Hm)
    (λ k vb, node_flat_names k vb Hm) (node_next acFun idx oName get m) out oName (m, e) Hc)) by (by left).
  unfold tree_flat. by destruct (first_above oName _).
Qed.
End getnext.

(** ** The instances a reader is shown are those of the tree, in order *)
Section shows.
Context {E : Type} (acFun : option (oid → option value_tag → nat → view_type → M exn E bool)).
Context (refused : oid → bool) (m : tree).

Definition holds (d : @Indices.OidOrderedDict instance) (vb : var_bind) : Prop :=
  ∃ i, dget (Indices.base d) vb.1 = Some i ∧ i_syntax i = Some (Val vb.2).
(** The instance of that name has the value, and its object is open to the reader. *)
Definition shows (vb : var_bind) : Prop :=
  (∃ k sc, dget (Indices.base (root_vars m)) k = Some (NScalar sc) ∧
     shown acFun refused (sc_access sc) k = true ∧ holds (sc_vars sc) vb) ∨
  (∃ rn r cn c, dget (Indices.base (root_vars m)) rn = Some NRow ∧ dget (all_rows m) rn = Some r ∧
     dget (Indices.base (r_vars r)) cn = Some c ∧
     shown acFun refused (c_access c) cn = true ∧ holds (c_vars c) vb).

Lemma elem_of_leaves d vb : Indices.wf d → vb ∈ leaves d ↔ holds d vb.
Proof.
  intros Hwf. unfold leaves, under. rewrite list_elem_of_bind. split.
  - intros (k & Hvb & _). pose proof (leaf_names _ _ _ Hvb) as Hk. unfold leaf in Hvb.
    destruct (dget (Indices.base d) k) as [i|] eqn:Hi; [|by apply elem_of_nil in Hvb]. cbn in Hvb.
    destruct (i_syntax i) as [[|v]|] eqn:Hs; try (by apply elem_of_nil in Hvb).
    apply list_elem_of_singleton in Hvb as ->. by exists i.
  - intros (i & Hi & Hs). exists vb.1. split.
    + unfold leaf. rewrite Hi. cbn. rewrite Hs. destruct vb. by apply list_elem_of_singleton.
    + apply elem_of_sorted_keys; [done|]. by eapply dget_Some_keys.
Qed.
Lemma elem_of_tree_flat vb : tree_ok m → vb ∈ tree_flat acFun refused m ↔ shows vb.
Proof.
  intros Hm. unfold tree_flat, under at 1. rewrite list_elem_of_bind. split.
  - intros (k & Hvb & Hk). apply elem_of_sorted_keys, dget_keys in Hk as [nd Hk]; [|apply Hm].
    pose proof (tr_nodes _ Hm k nd Hk) as Hok. unfold node_flat in Hvb. rewrite Hk in Hvb.
    destruct nd as [sc|v|]; [left| |right].
    + exists k, sc. unfold scalar_flat in Hvb. destruct (shown _ _ _ k) eqn:Hsh; [|by apply elem_of_nil in Hvb].
      split; [done|]. split; [done|]. apply elem_of_leaves; [apply Hok|done].
    + by apply elem_of_nil in Hvb.
    + destruct Hok as (r & Hr & Hrok). unfold row_flat, columns_of in Hvb. rewrite Hr in Hvb.
      apply list_elem_of_bind in Hvb as (cn & Hvb & Hcn). apply elem_of_sorted_keys, dget_keys in Hcn as [c Hc]; [|apply Hrok].
      unfold columns_flat in Hvb. rewrite Hc in Hvb. unfold column_flat in Hvb.
      destruct (shown _ _ _ cn) eqn:Hsh; [|by apply elem_of_nil in Hvb].
      exists k, r, cn, c. split_and!; try done. apply elem_of_leaves; [|done]. by eapply ro_columns.
  - intros [(k & sc & Hk & Hsh & Hv)|(rn & r & cn & c & Hk & Hr & Hc & Hsh & Hv)].
    + pose proof (tr_nodes _ Hm k _ Hk) as Hok. exists k. split.
      * unfold node_flat. rewrite Hk. unfold scalar_flat. rewrite Hsh. apply elem_of_leaves; [apply Hok|done].
      * apply elem_of_sorted_keys; [apply Hm|]. by eapply dget_Some_keys.
    + destruct (tr_nodes _ Hm rn _ Hk) as (r' & Hr' & Hrok). rewrite Hr in Hr'. injection Hr' as <-.
      exists rn. split; [|apply elem_of_sorted_keys; [apply Hm|]; by eapply dget_Some_keys].
      unfold node_flat. rewrite Hk. unfold row_flat, columns_of. rewrite Hr. apply list_elem_of_bind. exists cn.
      split; [|apply elem_of_sorted_keys; [apply Hrok|]; by eapply dget_Some_keys].
      unfold columns_flat. rewrite Hc. unfold column_flat. rewrite Hsh. apply elem_of_leaves; [|done]. by eapply ro_columns.
Qed.

(** *** Increasing names *)
Definition increasing : list var_bind → Prop := StronglySorted (λ a b : var_bind, tuple_ltb a.1 b.1 = true).

Lemma sorted_keys_strict {V} (d : @Indices.OidOrderedDict V) : Indices.wf d →
  StronglySorted (λ a b, tuple_ltb a b = true) (sorted_keys d).
Proof.
  intros Hwf. destruct (Indices.ordered_wf d Hwf) as (Hwf' & Hd & Hb).
  destruct (Indices.wf_sorted _ Hwf' Hd) as [Hs _].
  assert (Hnd : NoDup (sorted_keys d)) by (rewrite sorted_keys_perm by done; apply Hwf).
  unfold sorted_keys in *. revert Hnd. induction Hs as [|k ks Hs IH Hall]; intros Hnd; [constructor|].
  apply NoDup_cons in Hnd as [Hk Hnd]. constructor; [by apply IH|]. rewrite Forall_forall in *.
  intros k' Hk'. rewrite tuple_ltb_leb, negb_true_iff. destruct (tuple_leb k' k) eqn:Eq; [|done].
  destruct Hk. by rewrite (tuple_leb_antisym k k' (Hall k' Hk') Eq).
Qed.
Lemma increasing_app l1 l2 : increasing l1 → increasing l2 →
  (∀ a b, a ∈ l1 → b ∈ l2 → tuple_ltb a.1 b.1 = true) → increasing (l1 ++ l2).
Proof.
  unfold increasing. induction 1 as [|a l1 H1 IH Hall]; intros H2 Hab; [done|]. cbn. constructor.
  - apply IH; [done|]. intros x y Hx. apply Hab. by right.
  - apply Forall_app. split; [done|]. apply Forall_forall. intros b Hb. apply Hab; [left|done].
Qed.
Lemma under_increasing {V} (d : @Indices.OidOrderedDict V) L : Indices.wf d →
  (∀ k, k ∈ dkeys (Indices.base d) → increasing (L k)) →
  (∀ k k' a b, k ∈ dkeys (Indices.base d) → k' ∈ dkeys (Indices.base d) → tuple_ltb k k' = true →
     a ∈ L k → b ∈ L k' → tuple_ltb a.1 b.1 = true) → increasing (under L (sorted_keys d)).
Proof.
  intros Hwf HL Hab. pose proof (sorted_keys_strict d Hwf) as Hs.
  assert (Hin : ∀ k, k ∈ sorted_keys d → k ∈ dkeys (Indices.base d)) by (intros k; by apply elem_of_sorted_keys).
  induction Hs as [|k ks Hs IH Hall]; [constructor|]. cbn. apply increasing_app.
  - apply HL, Hin. by left.
  - apply IH. intros k' Hk'. apply Hin. by right.
  - intros a b Ha Hb. apply list_elem_of_bind in Hb as (k' & Hb & Hk'). rewrite Forall_forall in Hall.
    apply (Hab k k'); try done; [apply Hin; by left|apply Hin; by right|by apply Hall].
Qed.
Lemma apart_increasing {V} (d : @Indices.OidOrderedDict V) L : Indices.wf d → spread d L →
  (∀ k, k ∈ dkeys (Indices.base d) → increasing (L k)) →
  (∀ k vb, k ∈ dkeys (Indices.base d) → vb ∈ L k → k `prefix_of` vb.1) → increasing (under L (sorted_keys d)).
Proof.
  intros Hwf Hap HL Hp. apply under_increasing; [done|done|]. intros k k' a b Hk Hk' Hlt Ha Hb.
  destruct (Hp k a Hk Ha) as [r Hr], (Hp k' b Hk' Hb) as [t Ht]. rewrite Hr, Ht. apply tuple_ltb_ext_both; [done|].
  intros Hpre. destruct (Hap k k' Hk Hk' Hpre) as [->|Hnil]; [by rewrite tuple_ltb_irrefl in Hlt|].
  rewrite Hnil in Ha. by apply elem_of_nil in Ha.
Qed.
Lemma leaves_increasing d : Indices.wf d → increasing (leaves d).
Proof.
  intros Hwf. apply under_increasing; [done| |].
  - intros k _. unfold leaf. destruct (_ ≫= _) as [[|v]|]; repeat constructor.
  - by intros k k' a b _ _ Hlt ->%leaf_names ->%leaf_names.
Qed.

Lemma tree_flat_increasing : tree_ok m → increasing (tree_flat acFun refused m).
Proof.
  intros Hm. apply apart_increasing; [apply Hm|by apply node_flat_spread| |by intros k vb; apply node_flat_names].
  intros k Hk. apply dget_keys in Hk as [nd Hk]. pose proof (tr_nodes _ Hm k nd Hk) as Hok.
  unfold node_flat. rewrite Hk. destruct nd as [sc|v|]; [|constructor|].
  { unfold scalar_flat. destruct (shown _ _ _ _); [apply leaves_increasing, Hok|constructor]. }
  destruct Hok as (r & Hr & Hrok). unfold row_flat, columns_of. rewrite Hr.
  apply apart_increasing; [apply Hrok|apply apart_spread, Hrok| |by eapply columns_flat_names].
  intros cn Hcn. apply dget_keys in Hcn as [c Hc]. unfold columns_flat. rewrite Hc. unfold column_flat.
  destruct (shown _ _ _ _); [|constructor]. apply leaves_increasing. by eapply ro_columns.
Qed.

Lemma first_above_least o l : increasing l →
  match first_above o l with
  | Some vb => vb ∈ l ∧ tuple_ltb o vb.1 = true ∧
      ∀ vb', vb' ∈ l → tuple_ltb o vb'.1 = true → tuple_leb vb.1 vb'.1 = true
  | None => ∀ vb, vb ∈ l → tuple_leb vb.1 o = true
  end.
Proof.
  unfold first_above. induction 1 as [|a l Hl IH Hall]; [by intros vb ?%elem_of_nil|].
  rewrite filter_cons. destruct (decide (tuple_ltb o a.1 = true)) as [Hlt|Hlt].
  - cbn. split; [left|]. split; [done|]. intros vb' [->|Hvb]%elem_of_cons _; [apply leb_refl|].
    rewrite Forall_forall in Hall. by apply tuple_ltb_weaken, Hall.
  - destruct (head _) as [vb|].
    + destruct IH as (Hin & Hvb & Hleast). split; [by right|]. split; [done|].
      intros vb' [->|Hin']%elem_of_cons Ho; [done|by apply Hleast].
    + intros vb [->|Hin]%elem_of_cons; [|by apply IH]. apply tuple_ltb_ge. by apply not_true_is_false.
Qed.
End shows.

(** ** GETNEXT of several names *)
Section operation.
Context {E : Type} (acFun : option (oid → option value_tag → nat → view_type → M exn E bool)).
Context (refused : oid → bool) (m : tree).
Context (coerce : oid → syntax → value → result exn syntax).
Context (clone_status : value → result exn Z) (refuses : oid → value → option exn).
Context (Hac : ∀ f, acFun = Some f → ∀ k n t i (e : E), is_object m k → k `prefix_of` n →
  f n t i read_view e = (Ok (refused k), e)).

Definition answer (vb : var_bind) : var_bind :=
  match first_above vb.1 (tree_flat acFun refused m) with
  | Some vb' => vb'
  | None => (vb.1, VEndOfMibView)
  end.

Lemma pass_next (get : bool) vbs idx (e : E) : tree_ok m →
  Instrum.pass (handler acFun coerce clone_status refuses)
    (if get then Instrum.readGetNext else Instrum.readTestNext) idx vbs (m, e) =
    (Ok (if get then answer <$> vbs else [], None), (m, e)).
Proof using Hac.
  intros Hm. revert idx. induction vbs as [|vb vbs IH]; intros idx; [by destruct get|].
  pose proof (t_next_ok acFun refused m Hac idx vb.1 get vb.2 e Hm) as Ht.
  rewrite <- surjective_pairing in Ht. cbn [Instrum.pass].
  replace (handler acFun coerce clone_status refuses
    (if get then Instrum.readGetNext else Instrum.readTestNext) idx vb (m, e))
    with (t_next acFun get idx vb (m, e)) by (by destruct get).
  rewrite Ht, IH. unfold answer, out. rewrite fmap_cons.
  destruct get, (first_above vb.1 _); done.
Qed.

(** What the operation promises of each binding: the least of those shown after the
    name, or the name itself when none is left. *)
Definition is_next (vb vb' : var_bind) : Prop :=
  (shows acFun refused m vb' ∧ tuple_ltb vb.1 vb'.1 = true ∧
     ∀ w, shows acFun refused m w → tuple_ltb vb.1 w.1 = true → tuple_leb vb'.1 w.1 = true) ∨
  (vb' = (vb.1, VEndOfMibView) ∧ ∀ w, shows acFun refused m w → tuple_leb w.1 vb.1 = true).
Lemma answer_is_next vb : tree_ok m → is_next vb (answer vb).
Proof using.
  intros Hm. pose proof (first_above_least vb.1 _ (tree_flat_increasing acFun refused m Hm)) as Hl.
  pose proof (λ w, elem_of_tree_flat acFun refused m w Hm) as Hin. unfold answer.
  destruct (first_above _ _) as [vb'|].
  - destruct Hl as (Hvb' & Hlt & Hleast). left. split; [by apply Hin|]. split; [done|].
    intros w Hw. by apply Hleast, Hin.
  - right. split; [done|]. intros w Hw. by apply Hl, Hin.
Qed.
Lemma readNextVars_answers vbs (e : E) : tree_ok m →
  readNextVars acFun coerce clone_status refuses vbs (m, e) = (Ok (answer <$> vbs), (m, e)).
Proof using Hac.
  intros Hm. pose proof (λ get, pass_next get vbs 0 e Hm) as Hp.
  exact (Instrum.readNextVars_passes _ _ _ _ _ _ _ (Hp false) (Hp true)).
Qed.

(** C15. A GETNEXT of any names over a tree as the controller builds it (scalars, tables,
    rows and columns; the tables and the rows side by side at the root, where no other
    name than that of a table is a prefix of one of them) leaves the tree as it is and
    answers each name with the instance that follows it in lexicographic order, of those
    that have a value and whose object the reader may read, or with endOfMibView, for
    access control that answers alike for all instances of an object. *)
Theorem getnext_is_successor vbs (e : E) : tree_ok m →
  ∃ out, readNextVars acFun coerce clone_status refuses vbs (m, e) = (Ok out, (m, e)) ∧
    Forall2 is_next vbs out.
Proof using Hac.
  intros Hm. exists (answer <$> vbs). split; [by apply readNextVars_answers|].
  apply Forall2_fmap_r, Forall_Forall2_diag, Forall_true. intros vb. by apply answer_is_next.
Qed.
End operation.

(** ** Witness: the table of [Demo], its last column refused *)
Lemma dict_of_wf {V} (l : list (oid * V)) : Indices.wf (Demo.dict_of l).
Proof.
  unfold Demo.dict_of. assert (Hg : ∀ d : @Indices.OidOrderedDict V, Indices.wf d →
    Indices.wf (foldl (λ d kv, Indices.setitem kv.1 kv.2 d) d l)).
  { induction l as [|kv l IH]; intros d Hd; [done|]. cbn. by apply IH, Indices.setitem_wf. }
  apply Hg, Indices.oid_init_wf.
Qed.
(** The conditions on names and syntaxes, as decidable statements *)
Lemma apart_Forall {V} (d : @Indices.OidOrderedDict V) :
  Forall (λ k, Forall (λ k', k `prefix_of` k' → k = k') (dkeys (Indices.base d))) (dkeys (Indices.base d)) → apart d.
Proof. intros H k k' Hk Hk'. rewrite Forall_forall in H. specialize (H k Hk). rewrite Forall_forall in H. by apply H. Qed.
Lemma extends_all_Forall {V} p (d : @Indices.OidOrderedDict V) :
  Forall (λ k, p `prefix_of` k ∧ k ≠ p) (dkeys (Indices.base d)) → extends_all p d.
Proof.
  intros H k Hk. rewrite Forall_forall in H. destruct (H k Hk) as [[r ->] Hne].
  exists r. split; [|done]. intros ->. by rewrite app_nil_r in Hne.
Qed.
Lemma populated_Forall d : Forall (λ ki : oid * instance, is_Some (i_syntax ki.2)) (Indices.base d) → populated d.
Proof.
  intros H k i Hi Hs. apply dget_elem_of in Hi. rewrite Forall_forall in H.
  destruct (H _ Hi) as [x Hx]. cbn in Hx. by rewrite Hs in Hx.
Qed.
Ltac evaluated := apply (bool_decide_unpack _); vm_compute; exact I.
Ltac dict_facts :=
  first [apply dict_of_wf | apply apart_Forall; evaluated | apply extends_all_Forall; evaluated
        | apply populated_Forall; repeat constructor; eexists; reflexivity].

Lemma dget_Forall {V} (P : oid → V → Prop) (d : dict oid V) :
  Forall (λ kv, P kv.1 kv.2) d → ∀ k v, dget d k = Some v → P k v.
Proof. intros H k v Hk. apply dget_elem_of in Hk. rewrite Forall_forall in H. exact (H _ Hk). Qed.

Lemma tables_above_Forall (d : @Indices.OidOrderedDict node) :
  Forall (λ kn, Forall (λ k', kn.1 `prefix_of` k' → kn.1 = k' ∨ ∃ v, kn.2 = NTable v) (dkeys (Indices.base d))) (Indices.base d) →
  tables_above d.
Proof.
  intros H k k' nd Hk Hk'. apply dget_elem_of in Hk. rewrite Forall_forall in H. specialize (H _ Hk).
  rewrite Forall_forall in H. by apply H.
Qed.
Lemma filled_tree_ok : tree_ok Demo.filled_tree.
Proof.
  split.
  - dict_facts.
  - apply tables_above_Forall. repeat (apply Forall_cons; split); try apply Forall_nil; cbn;
      repeat (apply Forall_cons; split); try apply Forall_nil; try done; intros Hp;
      first [by left|by right; eexists|by apply (bool_decide_pack _) in Hp].
  - apply dget_Forall. repeat (apply Forall_cons; split); [..|constructor].
    + exists (Demo.demo_row Demo.filled_columns). split; [reflexivity|]. split; [dict_facts..|].
      apply dget_Forall. repeat (apply Forall_cons; split); [..|constructor]; split; dict_facts.
    + done.
    + split; dict_facts.
Qed.

(** A manager that may not read the status column *)
Definition status_refused (k : oid) : bool := bool_decide (take 5 k = Demo.rn ++ [4]).
Definition no_status (n : oid) (t : option value_tag) (i : nat) (v : view_type) : M exn unit bool :=
  mret (status_refused n).
Lemma status_refused_uniform f : Some no_status = Some f → ∀ k n t i (e : unit),
  is_object Demo.filled_tree k → k `prefix_of` n → f n t i read_view e = (Ok (status_refused k), e).
Proof.
  intros [= <-] k n t i e Hk [r ->]. unfold no_status, mret, M_ret. do 2 f_equal. unfold status_refused.
  enough ((length k = 5)%nat ∨ k = [1; 3]) as [Hl| ->].
  - rewrite <- Hl, take_app_length, (firstn_all k). done.
  - apply bool_decide_ext. split; [|done]. by destruct r as [|? [|? [|? r]]].
  - destruct Hk as [[sc Hk]|(rn & rw & c & Hr & Hc)].
    + right. apply dget_elem_of in Hk. do 2 (apply elem_of_cons in Hk as [Hk|Hk]; [done|]).
      by apply list_elem_of_singleton in Hk as [= -> ?].
    + left. apply dget_elem_of, list_elem_of_singleton in Hr as [= -> ->].
      apply dget_Some_keys in Hc. revert k Hc. apply Forall_forall. repeat constructor.
Qed.
Lemma getnext_is_successor_witness : ∃ out,
  readNextVars (Some no_status) Demo.coerce Demo.clone_status Demo.refuses
    [([1], VNull); (Demo.rn ++ [3], VNull); (Demo.rn ++ [3; 5], VNull)] (Demo.filled_tree, tt) =
    (Ok out, (Demo.filled_tree, tt)) ∧
  Forall2 (is_next (Some no_status) status_refused Demo.filled_tree)
    [([1], VNull); (Demo.rn ++ [3], VNull); (Demo.rn ++ [3; 5], VNull)] out.
Proof.
  apply (getnext_is_successor (Some no_status) status_refused Demo.filled_tree Demo.coerce Demo.clone_status
    Demo.refuses status_refused_uniform _ tt filled_tree_ok).
Defined.
Example getnext_passes_over_refused_columns :
  readNextVars (Some no_status) Demo.coerce Demo.clone_status Demo.refuses
    [([1], VNull); (Demo.rn ++ [2], VNull); (Demo.rn ++ [3; 5], VNull)] (Demo.filled_tree, tt) =
  (Ok [([1; 3; 0], VInteger 3); (Demo.rn ++ [2; 5], VOctetString [97]); (Demo.rn ++ [3; 5], VEndOfMibView)],
   (Demo.filled_tree, tt)).
Proof. vm_compute. reflexivity. Qed.

(** Access is checked for the name that is asked, not for the instance that answers:
    a GETNEXT is served an instance that a GET of it is refused. *)
Definition no_text_5 (n : oid) (t : option value_tag) (i : nat) (v : view_type) : M exn unit bool :=
  mret (bool_decide (n = Demo.rn ++ [2; 5])).
Example getnext_serves_a_refused_instance :
  readNextVars (Some no_text_5) Demo.coerce Demo.clone_status Demo.refuses
    [(Demo.rn ++ [2], VNull)] (Demo.filled_tree, tt) =
  (Ok [(Demo.rn ++ [2; 5], VOctetString [97])], (Demo.filled_tree, tt)) ∧
  readVars (Some no_text_5) Demo.coerce Demo.clone_status Demo.refuses
    [(Demo.rn ++ [2; 5], VNull)] (Demo.filled_tree, tt) =
  (Err (MibError NoAccessError (at_idx 0)), (Demo.filled_tree, tt)).
Proof. split; vm_compute; reflexivity. Qed.
End MibNext.
