(* ===== verification/RowPhases.v ===== *)
(** * A row through the phases of a SET of its status

    The status column asks for the creation or the destruction of the row; the row does
    each phase on the other columns.  What test, commit and cleanup make of every column
    is a function of the column, and the tree above the row passes the phases on. *)
From S2P Require Export MibNext.
Import Mib MibNext.
#[local] Open Scope Z_scope.

Module RowPhases.

(** ** Every column of a row, in one go *)
Definition map_vars {V} (f : oid → V → V) (d : @Indices.OidOrderedDict V) : @Indices.OidOrderedDict V :=
  Indices.mk_Dict ((λ kv, (kv.1, f kv.1 kv.2)) <$> Indices.base d) (Indices.keys_ d) (Indices.dirty d)
    (Indices.keysLens d) (Indices.keysCache d).
Definition map_columns (f : oid → column → column) (r : row) : row := put_row_vars (map_vars f (r_vars r)) r.

Lemma map_vars_dget {V} (f : oid → V → V) d k :
  dget (Indices.base (map_vars f d)) k = f k <$> dget (Indices.base d) k.
Proof.
  cbn. induction (Indices.base d) as [|[k' v] l IH]; [done|]. cbn. by case_decide; subst.
Qed.
Lemma map_vars_id {V} (f : oid → V → V) d :
  (∀ k v, (k, v) ∈ Indices.base d → f k v = v) → map_vars f d = d.
Proof.
  intros Hf. destruct d as [b ks di kl kc]. unfold map_vars. f_equal. cbn in *.
  induction b as [|[k v] b IH]; [done|]. cbn. rewrite (Hf k v) by left. f_equal. apply IH.
  intros k' v' ?. apply Hf. by right.
Qed.
Lemma map_vars_dkeys {V} (f : oid → V → V) d : dkeys (Indices.base (map_vars f d)) = dkeys (Indices.base d).
Proof. unfold dkeys. cbn. by rewrite <- list_fmap_compose. Qed.
Lemma map_vars_wf {V} (f : oid → V → V) d : Indices.wf d → Indices.wf (map_vars f d).
Proof. intros []. split; [unfold dict_ok|..]; rewrite ?map_vars_dkeys; done. Qed.
Lemma ordered_map_vars {V} (f : oid → V → V) d : Indices.ordered (map_vars f d) = map_vars f (Indices.ordered d).
Proof. unfold Indices.ordered. cbn. by destruct (Indices.dirty d). Qed.
Lemma getBranch_map_vars {V} (f : oid → V → V) d n :
  getBranch (map_vars f d) n = (λ kv : oid * V, (kv.1, f kv.1 kv.2)) <$> getBranch d n.
Proof.
  unfold getBranch. rewrite ordered_map_vars. cbn [Indices.keysLens map_vars].
  assert (Hb : Indices.base (Indices.ordered d) = Indices.base d) by (unfold Indices.ordered; by destruct (Indices.dirty d)).
  induction (Indices.keysLens _) as [|z l IH]; [done|]. cbn [find_branch].
  rewrite map_vars_dget. by destruct (dget (Indices.base d) _).
Qed.
Lemma map_vars_compose {V} (f g : oid → V → V) d :
  map_vars g (map_vars f d) = map_vars (λ k v, g k (f k v)) d.
Proof. unfold map_vars. cbn. f_equal. by rewrite <- list_fmap_compose. Qed.
Lemma map_columns_compose f g r : map_columns g (map_columns f r) = map_columns (λ k c, g k (f k c)) r.
Proof. unfold map_columns, put_row_vars. cbn. by rewrite map_vars_compose. Qed.
Lemma map_vars_ext {V} (f g : oid → V → V) d :
  (∀ k v, (k, v) ∈ Indices.base d → f k v = g k v) → map_vars f d = map_vars g d.
Proof.
  intros Hfg. unfold map_vars. f_equal. apply list_fmap_ext. intros i [k v] Hi. cbn. f_equal.
  apply Hfg. by eapply list_elem_of_lookup_2.
Qed.
Lemma set_child_map_vars {V} (f : oid → V → V) d k v : dict_ok (Indices.base d) →
  dget (Indices.base d) k = Some v →
  set_child k (f k v) d = map_vars (λ k' v', if decide (k' = k) then f k' v' else v') d.
Proof.
  intros Hok Hk. unfold set_child, map_vars. f_equal. unfold dict_ok, dkeys in Hok.
  induction (Indices.base d) as [|[k' w] l IH]; [done|]. cbn in *. apply NoDup_cons in Hok as [Hn Hok].
  destruct (decide (k = k')) as [->|Hne].
  - injection Hk as ->. rewrite decide_True by done. f_equal. symmetry. rewrite <- (list_fmap_id l) at 2.
    apply list_fmap_ext. intros i [k v'] Hi. cbn. rewrite decide_False; [done|]. intros ->.
    apply Hn, list_elem_of_fmap. exists (k', v'). split; [done|]. by eapply list_elem_of_lookup_2.
  - rewrite decide_False by congruence. f_equal. by apply IH.
Qed.

Section row.
Context {E : Type}.
Context (acFun : option (oid → option value_tag → nat → view_type → M exn E bool)).
Context (coerce : oid → syntax → value → result exn syntax).
Context (clone_status : value → result exn Z).
Context (refuses : oid → value → option exn).
Implicit Types (r : row) (rs : rows) (c : column) (e : E).

Lemma dset_id_column rs rn r k c : dget rs rn = Some r → dget (Indices.base (r_vars r)) k = Some c →
  dset rs rn (put_row_vars (set_child k c (r_vars r)) r) = rs.
Proof. intros Hr Hc. rewrite set_child_id by done. apply dset_id. by rewrite Hr; destruct r. Qed.

(** A loop over the columns whose round on each one does [f] to it *)
Lemma mapM_columns (body : oid → M exn (rows * E) unit) (f : oid → column → column) e rn ks : NoDup ks →
  ∀ rs r, dget rs rn = Some r → dict_ok (Indices.base (r_vars r)) →
  (∀ k, k ∈ ks → ∃ c, dget (Indices.base (r_vars r)) k = Some c ∧
     ∀ rs' r', dget rs' rn = Some r' → indexNames r' = indexNames r → dget (Indices.base (r_vars r')) k = Some c →
     body k (rs', e) = (Ok tt, (dset rs' rn (put_row_vars (set_child k (f k c) (r_vars r')) r'), e))) →
  mapM_ body ks (rs, e) =
    (Ok tt, (dset rs rn (map_columns (λ k c, if decide (k ∈ ks) then f k c else c) r), e)).
Proof.
  induction 1 as [|k ks Hk Hnd IH]; intros rs r Hr Hok Hbody; cbn [mapM_].
  - unfold map_columns. rewrite map_vars_id by done. rewrite dset_id; [done|]. by rewrite Hr; destruct r.
  - destruct (Hbody k) as (c & Hc & Hround); [left|]. unfold mbind, M_bind.
    rewrite (Hround rs r Hr eq_refl Hc), (set_child_map_vars f) by done.
    set (g := λ k' v', if decide (k' = k) then f k' v' else v').
    rewrite (IH _ (map_columns g r)); [| |unfold dict_ok; cbn [r_vars map_columns put_row_vars]; by rewrite map_vars_dkeys|].
    + rewrite dset_dset, map_columns_compose. do 3 f_equal. unfold map_columns. f_equal. apply map_vars_ext.
      intros k' v' _. unfold g. destruct (decide (k' = k)) as [->|Hne].
      * rewrite (decide_False (P := k ∈ ks)) by done. by rewrite decide_True by left.
      * destruct (decide (k' ∈ ks)); [by rewrite decide_True by (by right)|].
        rewrite decide_False; [done|]. by intros [?|?]%elem_of_cons.
    + by rewrite dget_dset_eq.
    + intros k' Hk'. destruct (Hbody k') as (c' & Hc' & Hround'); [by right|]. exists c'. split; [|by apply Hround'].
      cbn [r_vars map_columns put_row_vars]. rewrite map_vars_dget, Hc'. unfold g. cbn.
      rewrite decide_False; [done|]. by intros ->.
Qed.

(** ** What a row does when one of its columns asks for it *)
Abbreviation manageColumns := (manageColumns acFun coerce clone_status refuses).
Abbreviation do_action := (do_action acFun coerce clone_status refuses).

Lemma on_column_ok {A} rs r rn k c (m : M exn (column * E) A) x c' e e' :
  dget rs rn = Some r → dget (Indices.base (r_vars r)) k = Some c → m (c, e) = (x, (c', e')) →
  on_column rn k m (rs, e) = (x, (dset rs rn (put_row_vars (set_child k c' (r_vars r)) r), e')).
Proof. intros Hr Hc Hm. unfold on_column. cbn [fst snd]. rewrite Hr. cbn [mbind option_bind]. by rewrite Hc, Hm. Qed.

(** The binding of a column *)
Definition ac_of (v : option value) : bool := bool_decide (v = None).
Lemma manage_spec a rs r rn ex sfx vals rest idx e (f : oid → column → column) :
  dget rs rn = Some r → Indices.wf (r_vars r) → index_values (indexNames r) sfx = Ok (vals, rest) →
  (∀ k c, dget (Indices.base (r_vars r)) k = Some c →
     let v := index_value r vals k in
     if decide (k = ex) then f k c = c
     else do_action a k (ac_of v) idx (k ++ sfx, v) (c, e) = (Ok tt, (f k c, e))) →
  manageColumns a rn ex sfx idx (rs, e) = (Ok tt, (dset rs rn (map_columns f r), e)).
Proof.
  intros Hr Hwf Hix Hf. unfold Rows.manageColumns, the_row, mbind, M_bind, liftR. cbn [gets fst snd].
  rewrite Hr. cbn [from_option_exc]. rewrite Hix. destruct (Indices.ordered_wf _ Hwf) as (Hwf' & _ & Hb).
  rewrite (mapM_columns _ f e rn (Indices.keys_ (Indices.ordered (r_vars r)))) with (r := r); [|..|done|apply Hwf|].
  - do 3 f_equal. unfold map_columns. f_equal. apply map_vars_ext. intros k c Hk.
    rewrite decide_True; [done|]. rewrite (Indices.wf_keys _ Hwf'), Hb. apply list_elem_of_fmap. by exists (k, c).
  - rewrite (Indices.wf_keys _ Hwf'), Hb. apply Hwf.
  - intros k Hk. rewrite (Indices.wf_keys _ Hwf'), Hb in Hk. apply dget_keys in Hk as [c Hc]. exists c. split; [done|].
    intros rs' r' Hr' Hn Hc'. specialize (Hf k c Hc). cbv zeta in Hf. destruct (decide (k = ex)).
    + rewrite Hf. by rewrite (dset_id_column rs' rn r' k c).
    + unfold ac_of in Hf. destruct (index_value r vals k) as [v|] eqn:Hv.
      * rewrite bool_decide_eq_false_2 in Hf by done. by apply (on_column_ok rs' r' rn k c).
      * rewrite bool_decide_eq_true_2 in Hf by done. by apply (on_column_ok rs' r' rn k c).
Qed.

(** *** A phase that the column under the name passes up to the row *)
Definition wanted_by (a : action) : exn := match a with Create _ => creation_wanted | Destroy _ => destruction_wanted end.
Definition phase_of (a : action) : option sub_action := match a with Create p | Destroy p => p end.
Record sole_row (rs : rows) (rn : oid) (r : row) (cn sfx : oid) (vals : list (oid * TableIndex.ival)) : Prop := {
  sr_row : dget rs rn = Some r;
  sr_wf : Indices.wf (r_vars r);
  sr_index : index_values (indexNames r) sfx = Ok (vals, []);
  sr_alone : augmentingRows r = [];
  sr_column : cn ∈ dkeys (Indices.base (r_vars r));
  sr_length : length cn = (length rn + 1)%nat;
  sr_apart : apart (r_vars r);
}.

Lemma sole_row_map rs rn r cn sfx vals f : sole_row rs rn r cn sfx vals →
  sole_row (dset rs rn (map_columns f r)) rn (map_columns f r) cn sfx vals.
Proof.
  intros [Hr Hwf Hix Halone Hcn Hlen Hap]. split; try done.
  - by rewrite dget_dset_eq.
  - by apply map_vars_wf.
  - cbn [map_columns put_row_vars r_vars]. by rewrite map_vars_dkeys.
  - intros k k'. cbn [map_columns put_row_vars r_vars]. rewrite map_vars_dkeys. apply Hap.
Qed.
Lemma sole_branch rs rn r cn sfx vals c : sole_row rs rn r cn sfx vals →
  dget (Indices.base (r_vars r)) cn = Some c → getBranch (r_vars r) (cn ++ sfx) = Some (cn, c).
Proof.
  intros [Hr Hwf _ _ Hcn _ Hap] Hc. pose proof (getBranch_spec (r_vars r) (cn ++ sfx) Hwf) as Hb.
  assert (Hpre : cn `prefix_of` cn ++ sfx) by by eexists.
  destruct (getBranch _ _) as [[k c']|]; [|by destruct (Hb cn Hcn)].
  destruct Hb as (Hk & Hp & Hlong). assert (Hkin := dget_Some_keys _ _ _ Hk).
  assert (cn `prefix_of` k) as Hck.
  { apply (prefix_weak_total cn k) in Hp as [?|Hp]; [done| |done]. by rewrite (Hap k cn Hkin Hcn Hp). }
  rewrite (Hap cn k Hcn Hkin Hck) in *. by rewrite Hc in Hk; injection Hk as <-.
Qed.
Lemma sole_branch_map rs rn r cn sfx vals f c' : sole_row rs rn r cn sfx vals →
  dget (Indices.base (r_vars (bump_row (map_columns f r)))) cn = Some c' →
  getBranch (r_vars (bump_row (map_columns f r))) (cn ++ sfx) = Some (cn, c').
Proof.
  intros Hs. cbn [bump_row map_columns put_row_vars r_vars]. rewrite map_vars_dget, getBranch_map_vars.
  destruct (dget (Indices.base (r_vars r)) cn) as [c|] eqn:Hc; [|done]. cbn. intros [= <-].
  by rewrite (sole_branch _ _ _ _ _ _ _ Hs Hc).
Qed.
(** A phase after others have changed the columns *)
Lemma map_columns_dget f r k c' : dget (Indices.base (r_vars (map_columns f r))) k = Some c' →
  ∃ c, dget (Indices.base (r_vars r)) k = Some c ∧ c' = f k c.
Proof.
  cbn [map_columns put_row_vars r_vars]. rewrite map_vars_dget.
  destruct (dget _ k) as [c|]; [|done]. cbn. intros [= <-]. by exists c.
Qed.

Lemma delegate_spec a rs rn r cn sfx vals idx v e (f : oid → column → column) :
  sole_row rs rn r cn sfx vals →
  (∀ k c, dget (Indices.base (r_vars r)) k = Some c →
     if decide (k = cn)
     then column_write acFun coerce clone_status refuses (phase_of a) cn idx (cn ++ sfx, v) (c, e) =
            (Err (wanted_by a), (f k c, e))
     else let v := index_value r vals k in
          do_action a k (ac_of v) idx (k ++ sfx, v) (c, e) = (Ok tt, (f k c, e))) →
  delegate acFun coerce clone_status refuses (phase_of a) rn idx (cn ++ sfx, v) (rs, e) =
    (Ok false, (dset rs rn (map_columns f r), e)).
Proof.
  intros [Hr Hwf Hix Halone Hcn Hlen Hap] Hf. pose proof (dget_keys _ _ Hcn) as [c Hc].
  unfold delegate, the_row, mbind, M_bind, liftR. cbn [gets fst snd]. rewrite Hr. cbn [from_option_exc fst].
  assert (Hbr : getBranch (r_vars r) (cn ++ sfx) = Some (cn, c)) by by eapply sole_branch.
  rewrite Hbr. unfold try_except.
  pose proof (Hf cn c Hc) as Hcol. rewrite decide_True in Hcol by done.
  rewrite (on_column_ok rs r rn cn c _ _ _ _ _ Hr Hc Hcol).
  set (r1 := put_row_vars _ r).
  assert (Hman : manageColumns a rn cn sfx idx (dset rs rn r1, e) = (Ok tt, (dset rs rn (map_columns f r), e))).
  { set (g := λ k c, if decide (k = cn) then c else f k c).
    rewrite (manage_spec a _ r1 rn cn sfx vals [] idx e g); [| | |done|].
    - rewrite dset_dset. do 3 f_equal. unfold r1. rewrite (set_child_map_vars f) by (done || apply Hwf).
      unfold map_columns, put_row_vars. cbn. rewrite map_vars_compose. f_equal. apply map_vars_ext. intros k' c' _. unfold g. by case_decide.
    - by rewrite dget_dset_eq.
    - cbn. rewrite (set_child_map_vars f) by (done || apply Hwf). by apply map_vars_wf.
    - intros k c' Hk. unfold g. case_decide; [done|].
      specialize (Hf k c'). rewrite decide_False in Hf by done. apply Hf.
      unfold r1 in Hk. cbn in Hk. by rewrite dget_dset_ne in Hk. }
  assert (Hann : announceManagementEvent acFun coerce clone_status refuses a rn (cn ++ sfx) idx
      (dset rs rn (map_columns f r), e) = (Ok tt, (dset rs rn (map_columns f r), e))).
  { unfold announceManagementEvent, the_row, mbind, M_bind, liftR. cbn [gets fst snd].
    rewrite dget_dset_eq. cbn [from_option_exc fst map_columns put_row_vars indexNames augmentingRows].
    rewrite <- Hlen, drop_app_length, Hix, Halone. by destruct (filter _ vals). }
  rewrite <- Hlen, take_app_length, drop_app_length.
  destruct a as [ph|ph]; cbn [wanted_by creation_wanted destruction_wanted phase_of] in *;
    rewrite Hman; cbn [fst snd]; by rewrite Hann.
Qed.

Lemma row_cleanup_spec a rs rn r cn sfx vals idx v e (f : oid → column → column) :
  phase_of a = Some Cleanup → sole_row rs rn r cn sfx vals →
  (∀ k c, dget (Indices.base (r_vars r)) k = Some c →
     if decide (k = cn)
     then column_write acFun coerce clone_status refuses (Some Cleanup) cn idx (cn ++ sfx, v) (c, e) =
            (Err (wanted_by a), (f k c, e))
     else let v := index_value r vals k in
          do_action a k (ac_of v) idx (k ++ sfx, v) (c, e) = (Ok tt, (f k c, e))) →
  row_writeCleanup acFun coerce clone_status refuses rn idx (cn ++ sfx, v) (rs, e) =
    (Ok tt, (dset rs rn (bump_row (map_columns f r)), e)).
Proof.
  intros Ha [] Hf. unfold row_writeCleanup, change_row, mbind, M_bind, modify. cbn [fst snd]. rewrite sr_row0.
  pose proof (delegate_spec a (dset rs rn (bump_row r)) rn (bump_row r) cn sfx vals idx v e f) as Hd.
  rewrite Ha in Hd. rewrite Hd; [by rewrite dset_dset| |done]. split; try done. by rewrite dget_dset_eq.
Qed.

(** ** One column through the phases *)
(** Access control grants everything. *)
Context (Hac : ∀ f, acFun = Some f → ∀ n t i w e, f n t i w e = (Ok false, e)).
Lemma granted ac fits view refusal name idx c e : fits c = true →
  column_access acFun ac fits view refusal name idx (c, e) = (Ok tt, (c, e)).
Proof using Hac.
  intros Hf. unfold column_access. destruct acFun as [f|] eqn:Hfun; [|done]. destruct ac; [|done].
  cbn [negb fst snd]. by rewrite Hf, (Hac f eq_refl).
Qed.

Definition fresh c name : Prop :=
  cell c name = None ∧ dget (createdInstances c) name = None ∧ dget (destroyedInstances c) name = None ∧
  dget (rowOpWanted c) name = None.

Definition tested name (i : instance) c : column := put_created (dset (createdInstances c) name (Some i)) c.
Definition committed name (i : instance) c : column :=
  put_created (dset (createdInstances c) name None) (put_vars (Indices.setitem name i (c_vars c)) c).
Definition cleaned name c : column := put_created (ddel (createdInstances c) name) (bump_column c).

Abbreviation c_createTest := (c_createTest acFun coerce clone_status).
Abbreviation i_createTest := (i_createTest coerce clone_status).
Lemma create_test_ok k ac idx name v c e i : name ≠ k → (v = None ∨ ac = false ∨ c_access c = readcreate) →
  dget (createdInstances c) name = None →
  i_createTest (c_status c) idx (name, v) (new_instance (c_syntax c), e) = (Ok tt, (i, e)) →
  c_createTest k ac idx (name, v) (c, e) = (Ok tt, (tested name i c, e)).
Proof using Hac.
  intros Hn Hv Hnew Hi. unfold Rows.c_createTest. rewrite decide_False by done. unfold mbind, M_bind.
  assert (Hacc : column_access acFun ac (creatable v) write_view (no_creation idx) name idx (c, e) = (Ok tt, (c, e))).
  { destruct ac; [|by unfold column_access; destruct acFun]. apply granted. unfold creatable.
    destruct v; [|done]. destruct Hv as [?|[?| ->]]; done. }
  rewrite Hacc. cbn [gets fst]. assert (Hd : din (createdInstances c) name = false) by by apply din_false.
  rewrite Hd, andb_false_r. unfold col, modify, on_created. cbn [fst snd put_created createdInstances].
  rewrite dget_dset_eq, Hi. unfold tested. by rewrite dset_dset.
Qed.
Lemma create_commit_ok k idx name v c e i i' : cell c name = None →
  dget (createdInstances c) name = Some (Some i) →
  i_createCommit refuses name idx (name, v) (i, e) = (Ok tt, (i', e)) →
  c_createCommit refuses k idx (name, v) (c, e) = (Ok tt, (committed name i' c, e)).
Proof.
  intros Hn Hi Hc. unfold c_createCommit, mbind, M_bind. cbn [gets fst].
  assert (Hd : din (Indices.base (c_vars c)) name = false) by by apply din_false.
  rewrite Hd. unfold on_created. cbn [fst snd]. rewrite Hi, Hc.
  cbn [fst snd put_created createdInstances]. rewrite dget_dset_eq. unfold col, modify, committed.
  cbn [fst snd createdInstances c_vars put_vars put_created]. by rewrite dset_dset.
Qed.
Lemma create_cleanup_ok k idx name v c e : dget (createdInstances c) name = Some None →
  c_createCleanup k idx (name, v) (c, e) = (Ok tt, (cleaned name c, e)).
Proof.
  intros Hi. unfold c_createCleanup, mbind, M_bind, col, modify. cbn [gets fst snd bump_column createdInstances].
  by rewrite Hi.
Qed.

(** *** The status column, which asks for the row *)
Definition wants name x c : column := put_wanted (dset (rowOpWanted c) name x) c.
Definition waived name c : column := put_wanted (ddel (rowOpWanted c) name) c.
Definition creates (v : value) : Prop :=
  clone_status v = Ok RowStatus.stCreateAndGo ∨ clone_status v = Ok RowStatus.stCreateAndWait.
Definition active : syntax := Val (VInteger RowStatus.stActive).
Definition proposed (n : syntax) c : instance := with_new (Some n) (new_instance (c_syntax c)).

Lemma status_creation idx name v c e : c_status c = true → RowStatus.current (c_syntax c) = RowStatus.stNotExists →
  creates v → i_createTest (c_status c) idx (name, Some v) (new_instance (c_syntax c), e) = (Ok tt, (proposed active c, e)).
Proof.
  intros Hs Hcur Hv. unfold Rows.i_createTest, cell_setValue, Scalars.setValue, cell_coerce, RowStatus.setValue.
  cbn [fst snd new_instance i_syntax]. rewrite Hs, Hcur. by destruct Hv as [-> | ->].
Qed.
Abbreviation column_write := (column_write acFun coerce clone_status refuses).
Lemma status_test idx cn name v c e : name ≠ cn → fresh c name → c_access c = readcreate → c_status c = true →
  RowStatus.current (c_syntax c) = RowStatus.stNotExists → creates v →
  column_write None cn idx (name, v) (c, e) =
    (Err creation_wanted, (tested name (proposed active c) (wants name creation_wanted c), e)).
Proof using Hac.
  intros Hn (Hcell & Hcr & _ & Hw) Hacc Hs Hcur Hv.
  cbn [Rows.column_write]. unfold c_writeTest, mbind, M_bind, try_except.
  assert (Hscalar : cs_writeTest acFun coerce clone_status cn idx (name, v) (c, e) = (Err (missing_instance idx), (c, e))).
  { unfold cs_writeTest, mbind, M_bind. cbn [fst snd]. rewrite decide_False by done.
    rewrite granted by (by rewrite Hacc). cbn [gets fst]. unfold on_cell. cbn [fst snd]. by rewrite Hcell. }
  rewrite Hscalar. cbn [missing_instance]. unfold want, col, modify. cbn [fst snd]. change (value_of (name, v)) with (name, Some v).
  change (put_wanted (dset (rowOpWanted c) name creation_wanted) c) with (wants name creation_wanted c).
  rewrite (create_test_ok cn true idx name (Some v) (wants name creation_wanted c) e (proposed active c)).
  - unfold raise_wanted, mbind, M_bind. cbn [gets fst tested put_created wants put_wanted rowOpWanted].
    by rewrite dget_dset_eq.
  - done.
  - by right; right.
  - done.
  - by apply (status_creation idx name v c e).
Qed.
Lemma status_commit idx cn name v c e i i' : cell c name = None →
  dget (rowOpWanted c) name = Some creation_wanted →
  dget (createdInstances c) name = Some (Some i) →
  i_createCommit refuses name idx (name, Some v) (i, e) = (Ok tt, (i', e)) →
  column_write (Some Commit) cn idx (name, v) (c, e) = (Err creation_wanted, (committed name i' c, e)).
Proof.
  intros Hn Hw Hi Hc. cbn [Rows.column_write]. unfold c_writeCommit, delegateWrite, mbind, M_bind.
  cbn [gets fst snd]. rewrite Hw. cbn [creation_wanted create_sub fst snd]. change (value_of (name, v)) with (name, Some v).
  rewrite (create_commit_ok cn idx name (Some v) c e i i') by done. unfold raise_wanted, mbind, M_bind.
  cbn [gets fst committed put_created put_vars rowOpWanted]. by rewrite Hw.
Qed.
Lemma status_cleanup idx cn name v c e :
  dget (rowOpWanted c) name = Some creation_wanted → dget (createdInstances c) name = Some None →
  column_write (Some Cleanup) cn idx (name, v) (c, e) =
    (Err creation_wanted, (waived name (cleaned name (bump_column c)), e)).
Proof.
  intros Hw Hi. cbn [Rows.column_write]. unfold c_writeCleanup, delegateWrite, mbind, M_bind, col, modify.
  cbn [gets fst snd bump_column rowOpWanted]. rewrite Hw. cbn [creation_wanted create_sub fst snd]. change (value_of (name, v)) with (name, Some v).
  change (mk_column _ _ _ _ _ _ _ _ _ _) with (bump_column c).
  rewrite (create_cleanup_ok cn idx name (Some v) (bump_column c) e) by done. unfold drop_wanted, mbind, M_bind.
  cbn [gets fst cleaned put_created bump_column rowOpWanted]. by rewrite Hw.
Qed.

(** ** The row through the phases of a creation *)
Section creation.
Context (rs : rows) (rn : oid) (r : row) (cn sfx : oid) (vals : list (oid * TableIndex.ival)) (v : value).
Record may_create : Prop := {
  mc_row : sole_row rs rn r cn sfx vals;
  mc_suffix : sfx ≠ [];
  mc_fresh : ∀ k c, dget (Indices.base (r_vars r)) k = Some c → fresh c (k ++ sfx);
  mc_status : ∀ c, dget (Indices.base (r_vars r)) cn = Some c →
    c_access c = readcreate ∧ c_status c = true ∧ RowStatus.current (c_syntax c) = RowStatus.stNotExists;
  mc_creates : creates v;
  (** The columns take what is in the name as their value. *)
  mc_values : ∀ k c w, dget (Indices.base (r_vars r)) k = Some c → index_value r vals k = Some w →
    cell_coerce coerce clone_status (c_status c) (k ++ sfx) (c_syntax c) w = Ok (Val w);
  mc_refuses : ∀ k w, refuses (k ++ sfx) w = None;
}.

(** The syntax a column gets, and the instance that is made of it *)
Definition new_syntax (k : oid) c : syntax :=
  if decide (k = cn) then active
  else match index_value r vals k with Some w => Val w | None => c_syntax c end.
Definition new_cell (k : oid) c : instance :=
  if decide (k = cn) then commit (proposed active c)
  else match index_value r vals k with
       | Some w => commit (proposed (Val w) c)
       | None => proposed (c_syntax c) c
       end.
Lemma new_cell_syntax k c : i_syntax (new_cell k c) = Some (new_syntax k c).
Proof using. unfold new_cell, new_syntax. case_decide; [done|]. by destruct (index_value r vals k). Qed.

Definition in_test k c : column :=
  tested (k ++ sfx) (proposed (new_syntax k c) c) (if decide (k = cn) then wants (k ++ sfx) creation_wanted c else c).
Definition in_commit k c : column := committed (k ++ sfx) (new_cell k c) c.
Definition in_cleanup k c : column :=
  if decide (k = cn) then waived (k ++ sfx) (cleaned (k ++ sfx) (bump_column c)) else cleaned (k ++ sfx) c.

Context (Hok : may_create) (idx : nat) (e : E).

Lemma suffixed k : k ++ sfx ≠ k.
Proof using Hok.
  intros H. apply (mc_suffix Hok). apply (app_inv_head k). by rewrite app_nil_r.
Qed.
Lemma create_commit_value k w i : i_createCommit refuses (k ++ sfx) idx (k ++ sfx, Some w) (i, e) = (Ok tt, (commit i, e)).
Proof using Hok. cbn. unfold i_writeCommit. cbn [fst snd]. by rewrite (mc_refuses Hok). Qed.

Abbreviation delegate := (delegate acFun coerce clone_status refuses).
Lemma creation_test : delegate None rn idx (cn ++ sfx, v) (rs, e) =
  (Ok false, (dset rs rn (map_columns in_test r), e)).
Proof using Hok Hac.
  apply (delegate_spec (Create None) _ _ r cn sfx vals); [apply Hok|]. intros k c Hk.
  pose proof (mc_fresh Hok k c Hk) as Hfr. unfold in_test, new_syntax. case_decide as Hd.
  - subst k. destruct (mc_status Hok c Hk) as (Ha & Hs & Hc). apply status_test; try done; [apply suffixed|apply Hok].
  - cbn [Rows.do_action]. cbv zeta. apply create_test_ok; [apply suffixed| |apply Hfr|].
    + destruct (index_value r vals k); [by right; left|by left].
    + unfold Rows.i_createTest, cell_setValue, Scalars.setValue. cbn [fst snd new_instance i_syntax].
      destruct (index_value r vals k) as [w|] eqn:Hw; [|done]. by rewrite (mc_values Hok k c w Hk Hw).
Qed.
Lemma creation_commit :
  delegate (Some Commit) rn idx (cn ++ sfx, v) (dset rs rn (map_columns in_test r), e) =
  (Ok false, (dset rs rn (map_columns (λ k c, in_commit k (in_test k c)) r), e)).
Proof using Hok.
  rewrite (delegate_spec (Create (Some Commit)) _ _ (map_columns in_test r) cn sfx vals _ _ _ in_commit).
  - by rewrite dset_dset, map_columns_compose.
  - apply sole_row_map, Hok.
  - intros k c' Hk'. apply map_columns_dget in Hk' as (c & Hk & ->). pose proof (mc_fresh Hok k c Hk) as (Hcell & Hcr & _ & _).
    assert (Hcell' : cell (in_test k c) (k ++ sfx) = None) by (unfold in_test; by case_decide).
    assert (Hcr' : dget (createdInstances (in_test k c)) (k ++ sfx) = Some (Some (proposed (new_syntax k c) c))).
    { unfold in_test. case_decide; cbn [tested wants put_wanted put_created createdInstances]; by rewrite dget_dset_eq. }
    assert (Hnc : new_cell k (in_test k c) = new_cell k c) by (unfold in_test, new_cell; by case_decide).
    unfold in_commit. rewrite Hnc. case_decide as Hd.
    + subst k. apply (status_commit idx cn (cn ++ sfx) v _ e (proposed (new_syntax cn c) c)); try done.
      * unfold in_test. rewrite decide_True by done.
        cbn [tested wants put_wanted put_created rowOpWanted]. by rewrite dget_dset_eq.
      * rewrite create_commit_value. unfold new_cell, new_syntax. by rewrite !decide_True.
    + cbv zeta. cbn [Rows.do_action create_sub].
      apply (create_commit_ok k idx (k ++ sfx) _ _ e (proposed (new_syntax k c) c)); try done.
      unfold new_cell, new_syntax. rewrite !decide_False by done.
      change (index_value (map_columns in_test r) vals k) with (index_value r vals k).
      destruct (index_value r vals k); [apply create_commit_value|done].
Qed.
Lemma creation_cleanup :
  row_writeCleanup acFun coerce clone_status refuses rn idx (cn ++ sfx, v)
    (dset rs rn (map_columns (λ k c, in_commit k (in_test k c)) r), e) =
  (Ok tt, (dset rs rn (bump_row (map_columns (λ k c, in_cleanup k (in_commit k (in_test k c))) r)), e)).
Proof using Hok.
  rewrite (row_cleanup_spec (Create (Some Cleanup)) _ _ _ cn sfx vals _ _ _ in_cleanup eq_refl
    (sole_row_map rs rn r cn sfx vals _ (mc_row Hok))).
  - by rewrite dset_dset, map_columns_compose.
  - intros k c' Hk'. apply map_columns_dget in Hk' as (c & Hk & ->).
    assert (Hcr : dget (createdInstances (in_commit k (in_test k c))) (k ++ sfx) = Some None).
    { cbn [in_commit committed put_created put_vars createdInstances]. by rewrite dget_dset_eq. }
    unfold in_cleanup. case_decide as Hd.
    + subst k. apply status_cleanup; [|done]. unfold in_test. rewrite decide_True by done.
      cbn [in_commit committed tested wants put_wanted put_created put_vars rowOpWanted]. by rewrite dget_dset_eq.
    + cbv zeta. cbn [Rows.do_action create_sub]. by apply create_cleanup_ok.
Qed.

(** A column afterwards: one cell more, and nothing left to do *)
Record grown (n : oid) (i : instance) c c' : Prop := {
  gr_vars : c_vars c' = Indices.setitem n i (c_vars c);
  gr_created : createdInstances c' = createdInstances c;
  gr_destroyed : destroyedInstances c' = destroyedInstances c;
  gr_wanted : rowOpWanted c' = rowOpWanted c;
  gr_object : (c_access c', c_tag c', c_syntax c', c_status c', optional c') =
              (c_access c, c_tag c, c_syntax c, c_status c, optional c);
}.
Definition after_creation : row := bump_row (map_columns (λ k c, in_cleanup k (in_commit k (in_test k c))) r).
Lemma creation_grown k c : dget (Indices.base (r_vars r)) k = Some c → ∃ c',
  dget (Indices.base (r_vars after_creation)) k = Some c' ∧ grown (k ++ sfx) (new_cell k c) c c'.
Proof using Hok.
  intros Hk. pose proof (mc_fresh Hok k c Hk) as (_ & Hcr & _ & Hw).
  exists (in_cleanup k (in_commit k (in_test k c))). split.
  { cbn [after_creation bump_row map_columns put_row_vars r_vars]. by rewrite map_vars_dget, Hk. }
  unfold in_cleanup, in_commit, in_test, new_cell. case_decide; split; try done;
    cbn [waived cleaned committed tested wants put_wanted put_created put_vars bump_column createdInstances rowOpWanted];
    rewrite ?dset_dset; by apply ddel_dset_fresh.
Qed.
End creation.

(** ** The row through the phases of its destruction *)
Definition renewed name (ns : option syntax) c : column :=
  match ns with
  | Some ns => match cell c name with
               | Some i => put_vars (set_child name (with_new (Some ns) i) (c_vars c)) c
               | None => c
               end
  | None => c
  end.
Definition taken_out name c : column :=
  match cell c name with
  | Some i => drop_cell name (put_destroyed (dset (destroyedInstances c) name i) c)
  | None => c
  end.
Definition forgotten name c : column := put_destroyed (ddel (destroyedInstances c) name) (bump_column c).

Lemma cell_renewed name ns c i : cell c name = Some i → ∃ i', cell (renewed name ns c) name = Some i'.
Proof.
  intros Hi. unfold renewed. destruct ns as [ns|]; [|by exists i]. rewrite Hi. cbn [cell put_vars c_vars set_child Indices.base].
  exists (with_new (Some ns) i). unfold cell. cbn [put_vars c_vars set_child Indices.base]. by rewrite dget_dset_eq.
Qed.
Lemma destroy_test_ok k ac idx name v c e i ns : name ≠ k → (v = None ∨ ac = false ∨ c_access c = readcreate) →
  cell c name = Some i →
  i_destroyTest coerce clone_status (c_status c) idx (name, v) (i, e) = (Ok tt, (with_new (Some ns) i, e)) →
  c_destroyTest acFun coerce clone_status k ac idx (name, v) (c, e) = (Ok tt, (renewed name (Some ns) c, e)).
Proof using Hac.
  intros Hn Hv Hi Ht. unfold c_destroyTest. rewrite decide_False by done. unfold mbind, M_bind. cbn [gets fst].
  rewrite (proj2 (din_true _ _)) by (by eapply dget_Some_keys).
  assert (Hacc : column_access acFun ac (creatable v) write_view (no_access idx) name idx (c, e) = (Ok tt, (c, e))).
  { destruct ac; [|by unfold column_access; destruct acFun]. apply granted. unfold creatable.
    destruct v; [|done]. destruct Hv as [?|[?| ->]]; done. }
  rewrite Hacc. unfold on_cell. cbn [fst snd]. rewrite Hi, Ht. unfold renewed. by rewrite Hi.
Qed.
Lemma destroy_commit_ok k idx name v c e i : cell c name = Some i →
  c_destroyCommit (E := E) k idx (name, v) (c, e) = (Ok tt, (taken_out name c, e)).
Proof.
  intros Hi. unfold c_destroyCommit, mbind, M_bind. cbn [gets fst]. rewrite Hi. unfold on_cell. cbn [fst snd].
  rewrite Hi. cbn [i_destroyCommit mret M_ret]. rewrite set_child_id by done. unfold taken_out, col, modify.
  cbn [fst snd]. rewrite Hi. do 3 f_equal.
Qed.
Lemma destroy_cleanup_ok k idx name v c e :
  c_destroyCleanup (E := E) k idx (name, v) (c, e) = (Ok tt, (forgotten name c, e)).
Proof. done. Qed.

(** *** The status column, told to destroy *)
Definition gone : syntax := Val (VInteger RowStatus.stNotExists).
Definition exists_as (cur : Z) : Prop :=
  cur = RowStatus.stActive ∨ cur = RowStatus.stNotInService ∨ cur = RowStatus.stNotReady.
Lemma destroys_refusal v cur : clone_status v = Ok RowStatus.stDestroy → exists_as cur →
  RowStatus.setValue clone_status (Val (VInteger cur)) v =
    Err (MibError RowDestructionWanted (mk_details None None (Some (VInteger RowStatus.stNotExists)))).
Proof. intros Hv Hcur. unfold RowStatus.setValue. rewrite Hv. by destruct Hcur as [-> |[-> | ->]]. Qed.

Lemma status_destroy_test idx cn name v c e i cur : name ≠ cn → c_access c = readcreate → c_status c = true →
  cell c name = Some i → i_syntax i = Some (Val (VInteger cur)) → exists_as cur →
  clone_status v = Ok RowStatus.stDestroy →
  column_write None cn idx (name, v) (c, e) =
    (Err destruction_wanted, (renewed name (Some gone) (wants name destruction_wanted c), e)).
Proof using Hac.
  intros Hn Hacc Hs Hi Hcur Hex Hv. pose proof (destroys_refusal v cur Hv Hex) as Href.
  cbn [Rows.column_write]. unfold c_writeTest, mbind, M_bind, try_except.
  set (c1 := renewed name (Some gone) c).
  assert (Hscalar : ∃ d, cs_writeTest acFun coerce clone_status cn idx (name, v) (c, e) =
    (Err (MibError RowDestructionWanted d), (c1, e))).
  { exists (mk_details None None (Some (VInteger RowStatus.stNotExists))).
    unfold cs_writeTest, mbind, M_bind. cbn [fst snd]. rewrite decide_False by done.
    rewrite granted by (by rewrite Hacc). cbn [gets fst]. unfold on_cell. cbn [fst snd]. rewrite Hi.
    unfold i_writeTest. rewrite decide_True by done. unfold Scalars.setValue. cbn [fst].
    rewrite Hcur. unfold cell_coerce. rewrite Hs, Href. cbn. unfold c1, renewed. by rewrite Hi. }
  destruct Hscalar as [d Hscalar]. rewrite Hscalar. unfold want, col, modify. cbn [fst snd].
  change (value_of (name, v)) with (name, Some v).
  assert (Hi1 : cell c1 name = Some (with_new (Some gone) i)).
  { unfold c1, renewed. rewrite Hi. unfold cell. cbn [put_vars c_vars set_child Indices.base]. by rewrite dget_dset_eq. }
  set (c2 := put_wanted _ c1).
  assert (Hi2 : cell c2 name = Some (with_new (Some gone) i)) by exact Hi1.
  assert (Hacc2 : c_access c2 = readcreate ∧ c_status c2 = true).
  { unfold c2, c1, renewed. by rewrite Hi. }
  destruct Hacc2 as [Ha2 Hs2].
  rewrite (destroy_test_ok cn true idx name (Some v) c2 e _ gone Hn (or_intror (or_intror Ha2)) Hi2).
  - assert (Heq : renewed name (Some gone) c2 = renewed name (Some gone) (wants name destruction_wanted c)).
    { unfold renewed at 1. rewrite Hi2. unfold c2, c1, wants, renewed. rewrite Hi.
      change (cell (put_wanted _ c) name) with (cell c name). rewrite Hi. unfold put_wanted, put_vars, set_child. cbn.
      by rewrite dset_dset. }
    rewrite Heq. unfold raise_wanted, mbind, M_bind. cbn [gets fst].
    unfold renewed, wants. change (cell (put_wanted _ c) name) with (cell c name). rewrite Hi.
    cbn [put_vars put_wanted rowOpWanted]. by rewrite dget_dset_eq.
  - unfold i_destroyTest, cell_setValue, Scalars.setValue. cbn [fst snd with_new i_syntax].
    rewrite Hcur. unfold cell_coerce. rewrite Hs2, Href. done.
Qed.
Lemma status_destroy_commit idx cn name v c e i : cell c name = Some i →
  dget (rowOpWanted c) name = Some destruction_wanted →
  column_write (Some Commit) cn idx (name, v) (c, e) = (Err destruction_wanted, (taken_out name c, e)).
Proof.
  intros Hi Hw. cbn [Rows.column_write]. unfold c_writeCommit, delegateWrite, mbind, M_bind.
  cbn [gets fst snd]. rewrite Hw. cbn [destruction_wanted destroy_sub fst snd].
  change (value_of (name, v)) with (name, Some v).
  rewrite (destroy_commit_ok cn idx name (Some v) c e i Hi). unfold raise_wanted, mbind, M_bind.
  unfold taken_out. rewrite Hi. cbn [gets fst drop_cell put_destroyed put_vars rowOpWanted]. by rewrite Hw.
Qed.
Lemma status_destroy_cleanup idx cn name v c e : dget (rowOpWanted c) name = Some destruction_wanted →
  column_write (Some Cleanup) cn idx (name, v) (c, e) =
    (Err destruction_wanted, (waived name (forgotten name (bump_column c)), e)).
Proof.
  intros Hw. cbn [Rows.column_write]. unfold c_writeCleanup, delegateWrite, mbind, M_bind, col, modify.
  cbn [gets fst snd bump_column rowOpWanted]. rewrite Hw. cbn [destruction_wanted destroy_sub].
  unfold c_destroyCleanup, drop_wanted, mbind, M_bind, col, modify. cbn. by rewrite Hw.
Qed.

Section destruction.
Context (rs : rows) (rn : oid) (r : row) (cn sfx : oid) (vals : list (oid * TableIndex.ival)) (v : value).
Record may_destroy : Prop := {
  md_row : sole_row rs rn r cn sfx vals;
  md_suffix : sfx ≠ [];
  md_dicts : ∀ k c, dget (Indices.base (r_vars r)) k = Some c → dict_ok (Indices.base (c_vars c));
  md_cells : ∀ k c, dget (Indices.base (r_vars r)) k = Some c →
    ∃ i s, cell c (k ++ sfx) = Some i ∧ i_syntax i = Some s ∧
      dget (destroyedInstances c) (k ++ sfx) = None ∧ dget (rowOpWanted c) (k ++ sfx) = None ∧
      ∀ w, index_value r vals k = Some w → ∃ ns, cell_coerce coerce clone_status (c_status c) (k ++ sfx) s w = Ok ns;
  md_status : ∀ c, dget (Indices.base (r_vars r)) cn = Some c →
    c_access c = readcreate ∧ c_status c = true ∧
    ∃ i cur, cell c (cn ++ sfx) = Some i ∧ i_syntax i = Some (Val (VInteger cur)) ∧ exists_as cur;
  md_destroys : clone_status v = Ok RowStatus.stDestroy;
}.
Context (Hok : may_destroy) (idx : nat) (e : E).

Definition offered (k : oid) c : option syntax :=
  if decide (k = cn) then Some gone
  else match cell c (k ++ sfx) with
       | Some i =>
           match cell_setValue coerce clone_status (c_status c) (k ++ sfx) i (index_value r vals k) idx with
           | Ok ns => Some ns
           | Err _ => None
           end
       | None => None
       end.
Definition un_test k c : column :=
  renewed (k ++ sfx) (offered k c) (if decide (k = cn) then wants (k ++ sfx) destruction_wanted c else c).
Definition un_commit k c : column := taken_out (k ++ sfx) c.
Definition un_cleanup k c : column :=
  if decide (k = cn) then waived (k ++ sfx) (forgotten (k ++ sfx) (bump_column c)) else forgotten (k ++ sfx) c.

Lemma un_suffixed k : k ++ sfx ≠ k.
Proof using Hok. intros H. apply (md_suffix Hok). apply (app_inv_head k). by rewrite app_nil_r. Qed.
Abbreviation delegate := (delegate acFun coerce clone_status refuses).
Lemma destruction_test : delegate None rn idx (cn ++ sfx, v) (rs, e) =
  (Ok false, (dset rs rn (map_columns un_test r), e)).
Proof using Hok Hac.
  apply (delegate_spec (Destroy None) _ _ r cn sfx vals); [apply Hok|]. intros k c Hk. unfold un_test, offered.
  case_decide as Hd.
  - subst k. destruct (md_status Hok c Hk) as (Ha & Hs & i & cur & Hi & Hcur & Hex).
    apply (status_destroy_test idx cn _ v c e i cur); try done; [apply un_suffixed|apply Hok].
  - cbn [Rows.do_action]. cbv zeta. destruct (md_cells Hok k c Hk) as (i & s & Hi & Hs & _ & _ & Hix). rewrite Hi.
    assert (Hset : ∃ ns, cell_setValue coerce clone_status (c_status c) (k ++ sfx) i (index_value r vals k) idx = Ok ns).
    { unfold cell_setValue, Scalars.setValue. rewrite Hs. destruct (index_value r vals k) as [w|]; [|by eexists].
      destruct (Hix w eq_refl) as [ns Hns]. exists ns. by rewrite Hns. }
    destruct Hset as [ns Hset]. rewrite Hset.
    apply (destroy_test_ok k _ idx _ _ c e i ns); [apply un_suffixed| |done|].
    + destruct (index_value r vals k); [by right; left|by left].
    + unfold i_destroyTest. cbn [fst snd]. by rewrite Hset.
Qed.
Lemma un_test_cell k c : dget (Indices.base (r_vars r)) k = Some c → ∃ i, cell (un_test k c) (k ++ sfx) = Some i.
Proof using Hok.
  intros Hk. destruct (md_cells Hok k c Hk) as (i & s & Hi & _). unfold un_test.
  apply (cell_renewed _ _ _ i). by case_decide.
Qed.
Lemma renewed_wanted name ns c : rowOpWanted (renewed name ns c) = rowOpWanted c.
Proof. unfold renewed. destruct ns; [|done]. by destruct (cell c name). Qed.
Lemma taken_out_wanted name c : rowOpWanted (taken_out name c) = rowOpWanted c.
Proof. unfold taken_out. by destruct (cell c name). Qed.
Lemma un_test_wanted c : dget (rowOpWanted (un_test cn c)) (cn ++ sfx) = Some destruction_wanted.
Proof. unfold un_test. rewrite decide_True, renewed_wanted by done. cbn [wants put_wanted rowOpWanted]. by rewrite dget_dset_eq. Qed.
Lemma destruction_commit :
  delegate (Some Commit) rn idx (cn ++ sfx, v) (dset rs rn (map_columns un_test r), e) =
  (Ok false, (dset rs rn (map_columns (λ k c, un_commit k (un_test k c)) r), e)).
Proof using Hok.
  rewrite (delegate_spec (Destroy (Some Commit)) _ _ (map_columns un_test r) cn sfx vals _ _ _ un_commit).
  - by rewrite dset_dset, map_columns_compose.
  - apply sole_row_map, Hok.
  - intros k c' Hk'. apply map_columns_dget in Hk' as (c & Hk & ->). destruct (un_test_cell k c Hk) as [i Hi].
    case_decide as Hd.
    + subst k. apply (status_destroy_commit idx cn _ v _ e i Hi). apply un_test_wanted.
    + cbv zeta. cbn [Rows.do_action destroy_sub]. by apply (destroy_commit_ok k idx _ _ _ e i).
Qed.
Lemma destruction_cleanup :
  row_writeCleanup acFun coerce clone_status refuses rn idx (cn ++ sfx, v)
    (dset rs rn (map_columns (λ k c, un_commit k (un_test k c)) r), e) =
  (Ok tt, (dset rs rn (bump_row (map_columns (λ k c, un_cleanup k (un_commit k (un_test k c))) r)), e)).
Proof using Hok.
  rewrite (row_cleanup_spec (Destroy (Some Cleanup)) _ _ _ cn sfx vals _ _ _ un_cleanup eq_refl
    (sole_row_map rs rn r cn sfx vals _ (md_row Hok))).
  - by rewrite dset_dset, map_columns_compose.
  - intros k c' Hk'. apply map_columns_dget in Hk' as (c & Hk & ->). unfold un_cleanup. case_decide as Hd; [|done].
    subst k. apply status_destroy_cleanup. unfold un_commit. rewrite taken_out_wanted. apply un_test_wanted.
Qed.

(** A column afterwards: one cell less, and nothing left to do *)
Record shrunk (n : oid) c c' : Prop := {
  sh_vars : Indices.base (c_vars c') = ddel (Indices.base (c_vars c)) n;
  sh_created : createdInstances c' = createdInstances c;
  sh_destroyed : destroyedInstances c' = destroyedInstances c;
  sh_wanted : rowOpWanted c' = rowOpWanted c;
  sh_object : (c_access c', c_tag c', c_syntax c', c_status c', optional c') =
              (c_access c, c_tag c, c_syntax c, c_status c, optional c);
}.
Definition after_destruction : row := bump_row (map_columns (λ k c, un_cleanup k (un_commit k (un_test k c))) r).
Lemma taken_out_shrunk name c ns i : cell c name = Some i → dget (destroyedInstances c) name = None →
  shrunk name c (forgotten name (taken_out name (renewed name ns c))).
Proof.
  intros Hi Hd. destruct (cell_renewed name ns c i Hi) as [i' Hi']. unfold taken_out. rewrite Hi'.
  assert (Hsame : Indices.base (c_vars (renewed name ns c)) = Indices.base (c_vars c) ∨
    ∃ j, Indices.base (c_vars (renewed name ns c)) = dset (Indices.base (c_vars c)) name j).
  { unfold renewed. destruct ns; [|by left]. rewrite Hi. right. by eexists. }
  assert (Hrest : (createdInstances (renewed name ns c), destroyedInstances (renewed name ns c), rowOpWanted (renewed name ns c),
    (c_access (renewed name ns c), c_tag (renewed name ns c), c_syntax (renewed name ns c), c_status (renewed name ns c), optional (renewed name ns c)))
    = (createdInstances c, destroyedInstances c, rowOpWanted c, (c_access c, c_tag c, c_syntax c, c_status c, optional c))).
  { unfold renewed. destruct ns; [|done]. by rewrite Hi. }
  destruct (renewed name ns c) as [a t sy st o ve va cr de wa]. cbn in Hrest, Hsame. injection Hrest as -> -> -> -> -> -> -> ->.
  split; cbn; try done.
  - rewrite Indices.delitem_base. destruct Hsame as [->|[j ->]]; [done|]. by rewrite ddel_dset.
  - by rewrite ddel_dset_fresh.
Qed.
Lemma shrunk_wants name x c c' : dget (rowOpWanted c) name = None → shrunk name (wants name x c) c' →
  shrunk name c (waived name (bump_column c')).
Proof.
  intros Hw [H1 H2 H3 H4 H5]. split; try done. cbn [waived put_wanted bump_column rowOpWanted]. rewrite H4.
  by apply ddel_dset_fresh.
Qed.
Lemma destruction_shrunk k c : dget (Indices.base (r_vars r)) k = Some c → ∃ c',
  dget (Indices.base (r_vars after_destruction)) k = Some c' ∧ shrunk (k ++ sfx) c c'.
Proof using Hok.
  intros Hk. destruct (md_cells Hok k c Hk) as (i & s & Hi & _ & Hd & Hw & _).
  exists (un_cleanup k (un_commit k (un_test k c))). split.
  { cbn [after_destruction bump_row map_columns put_row_vars r_vars]. by rewrite map_vars_dget, Hk. }
  unfold un_cleanup, un_commit, un_test. destruct (decide (k = cn)); [|by apply (taken_out_shrunk _ _ _ i)].
  change (forgotten ?n (bump_column ?c)) with (bump_column (forgotten n c)).
  apply (shrunk_wants _ destruction_wanted); [done|]. by apply (taken_out_shrunk _ (wants (k ++ sfx) destruction_wanted c) _ i).
Qed.
End destruction.

(** ** The SET, from the root of the tree *)
Record placed (m : tree) (name rn : oid) : Prop := {
  pl_row : root_branch m name = Some (rn, NRow);
  pl_names : name ≠ iso_name ∧ name ≠ rn;
}.
Definition with_rows (m : tree) rs : tree := mk_tree (root_version m) (root_vars m) rs.
Definition bumped (m : tree) rs : tree := mk_tree (root_version m + 1) (root_vars m) rs.

Context (m : tree) (name rn : oid) (Hpl : placed m name rn) (idx : nat) (w : value) (e : E).
Lemma test_placed x rs' : row_writeTest acFun coerce clone_status refuses rn idx (name, w) (all_rows m, e) = (x, (rs', e)) →
  t_writeTest acFun coerce clone_status refuses idx (name, w) (m, e) = (x, (with_rows m rs', e)).
Proof using Hpl.
  destruct Hpl as [Hr (Hiso & Hrn)]. intros H. unfold t_writeTest, node_branch, mbind, M_bind.
  cbn [fst snd]. rewrite decide_False by done. cbn [gets fst]. rewrite Hr.
  unfold on_rows, zoom. cbn [fst snd]. by rewrite H.
Qed.
Lemma commit_placed rs x rs' : row_writeCommit acFun coerce clone_status refuses rn idx (name, w) (rs, e) = (x, (rs', e)) →
  t_writeCommit acFun coerce clone_status refuses idx (name, w) (with_rows m rs, e) = (x, (with_rows m rs', e)).
Proof using Hpl.
  destruct Hpl as [Hr _]. intros H. unfold t_writeCommit, below, mbind, M_bind.
  cbn [gets fst snd]. change (root_branch (with_rows m rs) name) with (root_branch m name). rewrite Hr.
  unfold on_rows, zoom. cbn [fst snd with_rows all_rows]. by rewrite H.
Qed.
Lemma cleanup_placed rs x rs' : row_writeCleanup acFun coerce clone_status refuses rn idx (name, w) (rs, e) = (x, (rs', e)) →
  t_writeCleanup acFun coerce clone_status refuses idx (name, w) (with_rows m rs, e) = (x, (bumped m rs', e)).
Proof using Hpl.
  destruct Hpl as [Hr _]. intros H. unfold t_writeCleanup, below, bump_root, mbind, M_bind, modify.
  cbn [gets fst snd]. change (root_branch (mk_tree _ (root_vars (with_rows m rs)) _) name) with (root_branch m name).
  rewrite Hr. unfold on_rows, zoom. cbn [fst snd with_rows all_rows]. by rewrite H.
Qed.

(** *** The two passes that read it back *)
Definition reading (i : option instance) : option value :=
  match i with
  | None => Some VNoSuchInstance
  | Some i => match i_syntax i with Some (Val u) => Some u | _ => None end
  end.
Lemma in_column_read {A} rs r' cn c' (f : M exn (column * E) A) x :
  dget rs rn = Some r' → dget (Indices.base (r_vars r')) cn = Some c' → f (c', e) = (x, (c', e)) →
  in_column rn cn f (bumped m rs, e) = (x, (bumped m rs, e)).
Proof using. intros Hr Hc Hf. by apply (in_column_id (bumped m rs) rn cn r' c'). Qed.
Lemma cell_read cn c' u : reading (cell c' name) = Some u → name ≠ cn → readable (c_access c') = true →
  c_readTest acFun cn idx (name, w) (c', e) = (Ok None, (c', e)) ∧
  c_readGet cn idx (name, w) (c', e) = (Ok (Some (name, u)), (c', e)).
Proof using Hac.
  intros Hu Hn Hacc. unfold c_readTest, c_readGet, readable_column, mbind, M_bind. cbn [fst snd].
  rewrite decide_False, granted by done. cbn [gets fst]. destruct (cell c' name) as [i|] eqn:Hi.
  - cbn in Hu. destruct (i_syntax i) as [[|u']|] eqn:Hs; try done. injection Hu as ->.
    unfold on_cell, i_readTest, i_readGet, i_value. cbn [fst snd]. rewrite Hi, decide_True by done. cbn [fst].
    rewrite Hs, (set_child_id (c_vars c') name i Hi). cbn. by destruct c'.
  - cbn in Hu. by injection Hu as <-.
Qed.
Lemma reads_placed rs r' cn c' u : dget rs rn = Some r' → getBranch (r_vars r') name = Some (cn, c') →
  reading (cell c' name) = Some u → name ≠ cn → readable (c_access c') = true →
  t_readTest acFun idx (name, w) (bumped m rs, e) = (Ok None, (bumped m rs, e)) ∧
  t_readGet idx (name, w) (bumped m rs, e) = (Ok (Some (name, u)), (bumped m rs, e)).
Proof using Hpl Hac.
  intros Hr' Hb Hu Hn Hacc. pose proof (find_branch_dget _ _ _ _ _ Hb) as Hc'.
  destruct (cell_read cn c' u Hu Hn Hacc) as [Htest Hget].
  destruct Hpl as [Hr (Hiso & Hrn)].
  assert (Hroot : root_branch (bumped m rs) name = Some (rn, NRow)) by exact Hr.
  assert (Hcols : columns_of (bumped m rs) rn = r_vars r') by (unfold columns_of; cbn [all_rows bumped]; by rewrite Hr').
  split.
  - unfold t_readTest, node_branch, mbind, M_bind. cbn [fst snd]. rewrite decide_False by done.
    cbn [gets fst]. rewrite Hroot.
    unfold row_read, mbind, M_bind. rewrite decide_False by done. cbn [gets fst]. rewrite Hcols, Hb.
    by apply (in_column_read rs r' cn c').
  - unfold t_readGet, mbind, M_bind. cbn [gets fst]. rewrite Hroot, Hcols, Hb.
    by apply (in_column_read rs r' cn c').
Qed.
End row.
End RowPhases.
