(* ===== verification/RowsSpec.v ===== *)
(** * The creation and destruction of a row

    A SET of the status of a row that is not there makes an instance in every column;
    a SET that destroys it takes every instance away.  The examples show where rows
    do not do what the MIB module promises. *)
From S2P Require Export RowPhases.
Import Mib MibNext RowPhases.
#[local] Open Scope Z_scope.

Module RowsSpec.

(** ** A SET of a status *)
Section set_status.
Context {E : Type}.
Context (acFun : option (oid → option value_tag → nat → view_type → M exn E bool)).
Context (coerce : oid → syntax → value → result exn syntax) (clone_status : value → result exn Z).
Context (refuses : oid → value → option exn).
Context (Hac : ∀ f, acFun = Some f → ∀ n t i w (e : E), f n t i w e = (Ok false, e)).
Abbreviation writeVars := (writeVars acFun coerce clone_status refuses).

(** A SET of one binding whose passes go through *)
Lemma set_passes m name rn w e rs1 rs2 rs3 r' cn c' u :
  placed m name rn →
  row_writeTest acFun coerce clone_status refuses rn 0 (name, w) (all_rows m, e) = (Ok tt, (rs1, e)) →
  row_writeCommit acFun coerce clone_status refuses rn 0 (name, w) (rs1, e) = (Ok tt, (rs2, e)) →
  row_writeCleanup acFun coerce clone_status refuses rn 0 (name, w) (rs2, e) = (Ok tt, (rs3, e)) →
  dget rs3 rn = Some r' → getBranch (r_vars r') name = Some (cn, c') →
  reading (cell c' name) = Some u → name ≠ cn → readable (c_access c') = true →
  writeVars [(name, w)] (m, e) = (Ok [(name, u)], (bumped m rs3, e)).
Proof using Hac.
  intros Hpl H1 H2 H3 Hr Hb Hu Hn Hacc.
  destruct (reads_placed acFun Hac m name rn Hpl 0 w e rs3 r' cn c' u Hr Hb Hu Hn Hacc) as [H4 H5].
  assert (Hone : ∀ st (s s' : tree * E) rv, handler acFun coerce clone_status refuses st 0 (name, w) s = (Ok rv, s') →
    Instrum.pass (handler acFun coerce clone_status refuses) st 0 [(name, w)] s = (Ok (option_list rv, None), s')).
  { intros st s s' rv H. rewrite <- (app_nil_r (option_list rv)). by apply (Instrum.pass_step _ _ _ _ _ _ _ s'). }
  assert (Hunit : ∀ (f : M exn (tree * E) unit) s s', f s = (Ok tt, s') → (f;; mret (None : option var_bind)) s = (Ok None, s')).
  { intros f s s' Hf. unfold mbind, M_bind. by rewrite Hf. }
  apply (Instrum.writeVars_commits _ _ _ (with_rows m rs1, e) (with_rows m rs2, e) (bumped m rs3, e)
    (bumped m rs3, e) [] [] [] []); apply (Hone _ _ _ None) || apply (Hone _ _ _ (Some (name, u))).
  - apply Hunit. by apply (test_placed acFun coerce clone_status refuses m name rn Hpl).
  - apply Hunit. by apply (commit_placed acFun coerce clone_status refuses m name rn Hpl).
  - apply Hunit. by apply (cleanup_placed acFun coerce clone_status refuses m name rn Hpl).
  - exact H4.
  - exact H5.
Qed.




(** C17. A permitted SET that destroys a row which has an instance in every column and
    which no row augments: every column loses its instance, nothing of the operation is
    left, no other row is touched; the instance that was written is answered with
    noSuchInstance. *)
Theorem row_destroyed m rn r cn sfx vals v e :
  placed m (cn ++ sfx) rn →
  may_destroy coerce clone_status (all_rows m) rn r cn sfx vals v →
  ∃ m' r', writeVars [(cn ++ sfx, v)] (m, e) = (Ok [(cn ++ sfx, VNoSuchInstance)], (m', e)) ∧
    dget (all_rows m') rn = Some r' ∧
    (∀ rn', rn' ≠ rn → dget (all_rows m') rn' = dget (all_rows m) rn') ∧
    ∀ k c, dget (Indices.base (r_vars r)) k = Some c → ∃ c',
      dget (Indices.base (r_vars r')) k = Some c' ∧ shrunk (k ++ sfx) c c'.
Proof using Hac.
  intros Hpl Hok. pose proof (md_row _ _ _ _ _ _ _ _ _ Hok) as Hsole.
  set (r' := after_destruction coerce clone_status r cn sfx vals 0).
  destruct (dget_keys _ _ (sr_column _ _ _ _ _ _ Hsole)) as [c Hc].
  pose proof (destruction_shrunk coerce clone_status (all_rows m) rn r cn sfx vals v Hok 0) as Hshr.
  destruct (Hshr cn c Hc) as (c' & Hc' & Hg).
  exists (bumped m (dset (all_rows m) rn r')), r'. split; [|split; [|split]].
  - eapply (set_passes m (cn ++ sfx) rn v e _ _ _ r' cn c' _ Hpl).
    + unfold row_writeTest, mbind, M_bind.
      by rewrite (destruction_test acFun coerce clone_status refuses Hac (all_rows m) rn r cn sfx vals v Hok).
    + unfold row_writeCommit, mbind, M_bind.
      by rewrite (destruction_commit acFun coerce clone_status refuses (all_rows m) rn r cn sfx vals v Hok).
    + by apply (destruction_cleanup acFun coerce clone_status refuses (all_rows m) rn r cn sfx vals v Hok).
    + by rewrite dget_dset_eq.
    + by eapply sole_branch_map.
    + unfold cell. rewrite (sh_vars _ _ _ Hg), dget_ddel_eq; [done|].
      by apply (md_dicts _ _ _ _ _ _ _ _ _ Hok cn c).
    + by apply (un_suffixed coerce clone_status (all_rows m) rn r cn sfx vals v Hok).
    + pose proof (sh_object _ _ _ Hg) as [= -> _ _ _ _].
      by destruct (md_status _ _ _ _ _ _ _ _ _ Hok c Hc) as [-> _].
  - cbn [bumped all_rows]. by rewrite dget_dset_eq.
  - intros rn' Hne. cbn [bumped all_rows]. by rewrite dget_dset_ne.
  - exact Hshr.
Qed.
End set_status.

(** ** Examples: the table of [Demo] *)
Lemma demo_placed cols : placed (Demo.tree_of (Demo.demo_row cols)) ((Demo.rn ++ [4]) ++ [5]) Demo.rn.
Proof. by split. Qed.
Definition demo_vals : list (oid * TableIndex.ival) := [(Demo.rn ++ [1], TableIndex.IInt 5)].
Lemma demo_sole cols : (Demo.rn ++ [4]) ∈ dkeys (Indices.base (Demo.dict_of cols)) → apart (Demo.dict_of cols) →
  sole_row [(Demo.rn, Demo.demo_row cols)] Demo.rn (Demo.demo_row cols) (Demo.rn ++ [4]) [5] demo_vals.
Proof. intros Hin Hap. split; try done. apply dict_of_wf. Qed.

Lemma demo_may_destroy : may_destroy Demo.coerce Demo.clone_status (all_rows Demo.filled_tree) Demo.rn
  (Demo.demo_row Demo.filled_columns) (Demo.rn ++ [4]) [5] demo_vals (VInteger 6).
Proof.
  split; try done.
  - apply demo_sole; [|dict_facts]. by apply list_elem_of_lookup_2 with 3%nat.
  - apply dget_Forall. repeat (apply Forall_cons; split); [..|constructor]; apply dict_of_wf.
  - apply dget_Forall. repeat (apply Forall_cons; split); [..|constructor];
      (eexists _, _; split; [reflexivity|]; split; [reflexivity|]; do 2 (split; [reflexivity|]);
       intros w Hw; vm_compute in Hw; simplify_eq; by eexists).
  - intros c Hc. assert (Hs : Some c = Some (Demo.with_cells [(Demo.rn ++ [4; 5], new_instance (Val (VInteger 1)))]
      (Demo.new_column readcreate TInteger Schema true))) by (rewrite <- Hc; reflexivity).
    injection Hs as ->. split; [done|]. split; [done|]. eexists _, 1. split; [done|]. split; [done|]. by left.
Qed.
Lemma row_destroyed_witness : ∃ m' r',
  writeVars (E := unit) None Demo.coerce Demo.clone_status Demo.refuses [((Demo.rn ++ [4]) ++ [5], VInteger 6)] (Demo.filled_tree, tt) =
    (Ok [((Demo.rn ++ [4]) ++ [5], VNoSuchInstance)], (m', tt)) ∧
  dget (all_rows m') Demo.rn = Some r' ∧
  (∀ rn', rn' ≠ Demo.rn → dget (all_rows m') rn' = dget (all_rows Demo.filled_tree) rn') ∧
  ∀ k c, dget (Indices.base (r_vars (Demo.demo_row Demo.filled_columns))) k = Some c → ∃ c',
    dget (Indices.base (r_vars r')) k = Some c' ∧ shrunk (k ++ [5]) c c'.
Proof.
  exact (row_destroyed (E := unit) None Demo.coerce Demo.clone_status Demo.refuses (λ f H, ltac:(discriminate H))
    Demo.filled_tree Demo.rn (Demo.demo_row Demo.filled_columns) (Demo.rn ++ [4]) [5]
    demo_vals (VInteger 6) tt (demo_placed _) demo_may_destroy).
Defined.

(** ** Where rows differ from what the module says *)
Definition status5 : oid := Demo.rn ++ [4; 5].
Definition outcome (r : result exn (list var_bind) * (tree * unit)) (names : list oid) :
    result exn (list var_bind) * list (option value) := (r.1, Demo.shows_value r.2.1 <$> names).
Definition text5 : oid := Demo.rn ++ [2; 5].
Definition number5 : oid := Demo.rn ++ [3; 5].

(** Destroying a row that is not there makes one, with the status notExists: the
    column takes the missing instance for a request to create, and [createTest] drops
    the error of the status because it brings a syntax. *)
Example destroying_creates : outcome (Demo.set [(status5, VInteger 6)] (Demo.demo_tree, tt)) [status5; number5] =
  (Ok [(status5, VInteger 0)], [Some (VInteger 0); Some (VInteger 7)]).
Proof. vm_compute. reflexivity. Qed.
(** createAndGo makes an active row although a column that is not optional has no value:
    the request the column raises brings no syntax, so the row is not checked. *)
Example active_without_a_value : outcome (Demo.set [(status5, VInteger 4)] (Demo.demo_tree, tt)) [text5; status5] =
  (Ok [(status5, VInteger 1)], [None; Some (VInteger 1)]).
Proof. vm_compute. reflexivity. Qed.
(** createAndWait makes an active row too, and a row cannot be taken out of service. *)
Example waiting_row_is_active :
  (Demo.set [(status5, VInteger 5)] (Demo.demo_tree, tt)).1 = Ok [(status5, VInteger 1)] ∧
  (Demo.set [(status5, VInteger 2)] (Demo.filled_tree, tt)).1 = Ok [(status5, VInteger 1)].
Proof. split; vm_compute; reflexivity. Qed.
(** An undo never undoes a creation: the column turns it into a destruction, which has
    nothing to bring back.  The SET fails and the row stays.  (The error is that of the
    scalar, whose own undo leaves it without a syntax.) *)
Definition refuses_scalar (n : oid) (v : value) : option exn :=
  if decide (n = [1; 3; 0]) then Some (MibError WrongValueError (at_idx 1)) else None.
Definition failing_set : list var_bind → M exn (tree * unit) (list var_bind) :=
  writeVars None Demo.coerce Demo.clone_status refuses_scalar.
Example failed_creation_stays :
  outcome (failing_set [(status5, VInteger 4); ([1; 3; 0], VInteger 9)] (Demo.demo_tree, tt)) [status5; number5] =
  (Err AttributeError, [Some (VInteger 1); Some (VInteger 7)]).
Proof. vm_compute. reflexivity. Qed.
(** The cell of a new row keeps the syntax it had before it was committed; a later SET
    of it that fails brings that back, and the status has no value any more. *)
Example undo_reaches_back_to_the_creation :
  outcome (failing_set [(status5, VInteger 1); ([1; 3; 0], VInteger 9)]
             (Demo.set [(status5, VInteger 4)] (Demo.demo_tree, tt)).2) [status5] =
  (Err (MibError WrongValueError (at_idx 1)), [None]).
Proof. vm_compute. reflexivity. Qed.
End RowsSpec.
