(* ===== verification/Cmdrsp.v ===== *)
(** * The command responder
      (src/pysnmp/entity/rfc3413/cmdrsp.py, src/pysnmp/entity/rfc3413/context.py)

    The responder of a request type runs the MIB operation of that type, maps
    its failure to an error status and hands the response to the dispatcher.
    The MIB instrumentation, the access control model and the dispatcher's
    [returnResponsePdu] are interfaces: they act on the part [A] of the engine's
    state that is not the responder's.  Operations answer before they return;
    an instrumentation that answers with an awaitable is not modelled. *)
From S2P Require Export Proxy Vacm.
Export Proxy.

Module Cmdrsp.
Section responder.
Context {A : Type}.

(** ** State *)

(** What [__pendingReqs] holds for a request. [statusInformation] is the
    dictionary's pair of [oid] and [val]. *)
Record pending : Type := mk_pending {
  messageProcessingModel : Z;
  securityModel : Z;
  securityName : octets;
  securityLevel : Z;
  p_contextEngineId : octets;
  p_contextName : octets;
  pduVersion : Z;
  rspPDU : pdu;
  origPdu : option v1_pdu;
  maxSizeResponseScopedPDU : Z;
  statusInformation : option (oid * value);
}.

Record engine : Type := mk_engine {
  app : A;
  snmpUnknownContexts : Z;
  snmpSilentDrops : Z;
  generator : NextId.Integer;
  pendingReqs : dict Z pending;
}.

Definition set_app (a : A) (s : engine) : engine :=
  mk_engine a (snmpUnknownContexts s) (snmpSilentDrops s) (generator s) (pendingReqs s).
Definition set_generator (g : NextId.Integer) (s : engine) : engine :=
  mk_engine (app s) (snmpUnknownContexts s) (snmpSilentDrops s) g (pendingReqs s).
Definition set_pending (p : dict Z pending) (s : engine) : engine :=
  mk_engine (app s) (snmpUnknownContexts s) (snmpSilentDrops s) (generator s) p.

Abbreviation Eng := (M exn engine).
Definition on_app {B} : M exn A B → Eng B := zoom app set_app.
Definition on_generator {B} : M exn NextId.Integer B → Eng B := zoom generator set_generator.

(** ** The interfaces *)

(** [acFun(name, syntax, idx, viewType, acCtx)]: what it returns is true to refuse *)
Abbreviation ac_fun := (oid → option value_tag → option nat → string → Eng (option Z)).

(** A MIB instrumentation controller; [acFun] runs on the whole engine. *)
Record instrum : Type := mk_instrum {
  readVars : ac_fun → list var_bind → Eng (list var_bind);
  readNextVars : ac_fun → list var_bind → Eng (list var_bind);
  writeVars : ac_fun → list var_bind → Eng (list var_bind);
}.

(** [accessControlModel[acmID].isAccessAllowed]: what it returns is ignored. *)
Context (isAccessAllowed : Z → octets → Z → string → octets → oid → M exn A (option status)).

(** [msgAndPduDsp.returnResponsePdu] *)
Context (returnResponsePdu : pending → v1_pdu → Z → M exn A unit).

Context (other_address : value → result exn octets).

(** ** context.py *)
Abbreviation contexts := (dict octets instrum).

Definition registerContextName (name : octets) (mibInstrum : option instrum) :
    M exn contexts unit := fun c =>
  if din c name then (Err (PySnmpError "Duplicate contextName"), c)
  else match mibInstrum with
       | Some i => (Ok tt, dset c name i)
       | None => match dget c [] with
                 | Some i => (Ok tt, dset c name i)
                 | None => (Err KeyError, c)
                 end
       end.
Definition unregisterContextName (name : octets) : M exn contexts unit := fun c =>
  (Ok tt, if din c name then ddel c name else c).
Definition getMibInstrum (c : contexts) (name : octets) : result exn instrum :=
  from_option_exc (PySnmpError "Missing contextName") (dget c name).

(** ** Access *)

(** [snmpUnknownContexts.name] *)
Definition snmpUnknownContexts_name : oid := [1;3;6;1;6;3;12;1;5;0].

(** [snmpUnknownContexts.syntax += 1], a Counter32 *)
Definition count_unknown_context : Eng value := fun s =>
  let n := (snmpUnknownContexts s + 1) mod 4294967296 in
  (Ok (VCounter32 n),
   mk_engine (app s) n (snmpSilentDrops s) (generator s) (pendingReqs s)).
Definition count_silent_drop : Eng unit := fun s =>
  (Ok tt, mk_engine (app s) (snmpUnknownContexts s) ((snmpSilentDrops s + 1) mod 4294967296)
            (generator s) (pendingReqs s)).

(** The execution context the observer holds for the request *)
Record exec_ctx : Type := mk_ctx {
  x_securityModel : Z;
  x_securityName : octets;
  x_securityLevel : Z;
  x_contextName : octets;
  x_pduType : pdu_tag;
}.

Definition idx_details (idx : option nat) : details := mk_details (Some idx) None None.

(** [__verifyAccess] *)
Definition verifyAccess (ctx : exec_ctx) : ac_fun := fun name syntax idx viewType s =>
  match on_app (isAccessAllowed (x_securityModel ctx) (x_securityName ctx)
                  (x_securityLevel ctx) viewType (x_contextName ctx) name) s with
  | (Ok _, s) =>
      if bool_decide (x_securityModel ctx = 1 ∧ syntax = Some TCounter64 ∧
                      x_pduType ctx = GetNextRequestPDU)
      then (Err (MibError NoAccessError (idx_details idx)), s)
      else (Ok None, s)
  | (Err (StatusInformation st), s) =>
      match st_errorIndication st with
      | None => (Err KeyError, s)
      | Some noSuchView | Some noAccessEntry | Some noGroupName =>
          (Err (MibError AuthorizationError (idx_details idx)), s)
      | Some otherError => (Err (MibError GenError (idx_details idx)), s)
      | Some noSuchContext =>
          (val ← count_unknown_context;
           raise (MibError GenError
             (mk_details (Some idx) (Some (snmpUnknownContexts_name, val)) None))) s
      | Some notInView => (Ok (Some 1), s)
      | Some _ => (Err (ProtocolError "Unknown ACM error"), s)
      end
  | (Err e, s) => (Err e, s)
  end.

(** ** Answering *)

(** [self.__pendingReqs[stateReference]] *)
Definition get_pending (stateReference : Z) : Eng pending := fun s =>
  (from_option_exc KeyError (dget (pendingReqs s) stateReference), s).
Definition put_pending (stateReference : Z) (p : pending) : Eng unit :=
  modify (λ s, set_pending (dset (pendingReqs s) stateReference p) s).

Definition with_PDU (q : pdu) (p : pending) : pending :=
  mk_pending (messageProcessingModel p) (securityModel p) (securityName p) (securityLevel p)
    (p_contextEngineId p) (p_contextName p) (pduVersion p) q (origPdu p)
    (maxSizeResponseScopedPDU p) (statusInformation p).
Definition with_status (i : oid * value) (p : pending) : pending :=
  mk_pending (messageProcessingModel p) (securityModel p) (securityName p) (securityLevel p)
    (p_contextEngineId p) (p_contextName p) (pduVersion p) (rspPDU p) (origPdu p)
    (maxSizeResponseScopedPDU p) (Some i).

(** [sendPdu] *)
Definition sendPdu (stateReference : Z) (q : pdu) : Eng unit :=
  p ← get_pending stateReference;
  q ← liftR (if messageProcessingModel p =? 0 then v2ToV1 other_address q (origPdu p)
             else Ok (V1Pdu q));
  try_except (on_app (returnResponsePdu p q stateReference))
    (λ e, if is_StatusInformation e then Some count_silent_drop else None).

(** [sendVarBinds]: the response PDU is filled in where it is kept. *)
Definition sendVarBinds (stateReference errorStatus errorIndex : Z) (l : list var_bind) : Eng unit :=
  p ← get_pending stateReference;
  let q := with_errorStatus errorStatus (rspPDU p) in
  put_pending stateReference (with_PDU q p);;
  q ← liftR (setErrorIndex errorIndex q);
  let q := setVarBinds l q in
  put_pending stateReference (with_PDU q p);;
  sendPdu stateReference q.

Definition releaseStateInformation (stateReference : Z) : Eng unit :=
  modify (λ s, set_pending
    (if din (pendingReqs s) stateReference then ddel (pendingReqs s) stateReference
     else pendingReqs s) s).

(** ** [_failedMgmtOperation] *)

(** [e["idx"] + 1] *)
Definition idx_plus_1 (d : details) : result exn Z :=
  match d_idx d with
  | None => Err KeyError
  | Some None => Err TypeError
  | Some (Some i) => Ok (Z.of_nat i + 1)
  end.

(** The error status of the clauses that report [e["idx"] + 1] *)
Definition error_status (k : mib_error) : option Z :=
  match k with
  | NoSuchNameError | NoSuchObjectError | NoSuchInstanceError | EndOfMibViewError =>
      Some noSuchName
  | BadValueError => Some badValue
  | ReadOnlyError => Some readOnly
  | NoAccessError => Some noAccess
  | WrongTypeError => Some wrongType
  | WrongLengthError => Some wrongLength
  | WrongEncodingError => Some wrongEncoding
  | WrongValueError => Some wrongValue
  | NoCreationError => Some noCreation
  | InconsistentValueError => Some inconsistentValue
  | ResourceUnavailableError => Some resourceUnavailable
  | CommitFailedError => Some commitFailed
  | UndoFailedError => Some undoFailed
  | AuthorizationError => Some authorizationError
  | NotWritableError => Some notWritable
  | InconsistentNameError => Some inconsistentName
  | GenError | TooBigError | RowCreationWanted | RowDestructionWanted => None
  end.

(** [len(varBinds) and 1] *)
Definition first_if_any (l : list var_bind) : Z := match l with [] => 0 | _ => 1 end.

(** What the chain of clauses makes of a failure: an error status and index
    with bindings, [None] to drop the request, or an exception that no clause
    names. *)
Definition failure (exc : exn) (l : list var_bind) :
    result exn (option (Z * Z * list var_bind * option (oid * value))) :=
  match exc with
  | MibError GenError d =>
      match d_report d with
      | Some r => Ok (Some (noError, 0, l, Some r))
      | None =>
          match d_idx d with
          | None => Ok (Some (genErr, 0, l, None))
          | _ => i ← idx_plus_1 d; mret (Some (genErr, i, l, None))
          end
      end
  | MibError TooBigError _ => Ok (Some (st_tooBig, 0, [], None))
  | MibError k d =>
      match error_status k with
      | Some st => i ← idx_plus_1 d; mret (Some (st, i, l, None))
      | None => Ok (Some (genErr, first_if_any l, l, None))
      end
  | SmiError _ => Ok (Some (genErr, first_if_any l, l, None))
  | _ => if is_PySnmpError exc then Ok None else Err exc
  end.

Definition failedMgmtOperation (exc : exn) (stateReference : Z) (l : list var_bind) : Eng unit :=
  r ← liftR (failure exc l);
  match r with
  | None => releaseStateInformation stateReference
  | Some (errorStatus, errorIndex, l, report) =>
      match report with
      | Some i => p ← get_pending stateReference;
                  put_pending stateReference (with_status i p)
      | None => mret tt
      end;;
      sendVarBinds stateReference errorStatus errorIndex l;;
      releaseStateInformation stateReference
  end.

(** ** The responders *)
Section handlers.
Context (ctxs : contexts) (contextName : octets) (stateReference : Z) (acFun : ac_fun).

(** [GetCommandResponder.handleMgmtOperation] *)
Definition handle_get (PDU : pdu) : Eng unit :=
  ctl ← liftR (getMibInstrum ctxs contextName);
  rspVarBinds ← readVars ctl acFun (varBinds PDU);
  sendVarBinds stateReference 0 0 rspVarBinds;;
  releaseStateInformation stateReference.

(** [varBinds[idx] = (rspVarBinds[idx][0], varBinds[idx][1])] *)
Definition advance (idx : nat) (l rspVarBinds : list var_bind) : result exn (list var_bind) :=
  match rspVarBinds !! idx, l !! idx with
  | Some r, Some b => Ok (<[idx := (r.1, b.2)]> l)
  | _, _ => Err IndexError
  end.

(** The loop of [NextCommandResponder.handleMgmtOperation]; [None] is a loop
    that [fuel] rounds do not finish. *)
Fixpoint next_loop (fuel : nat) (ctl : instrum) (l : list var_bind) (s : engine) :
    option (result exn unit * engine) :=
  match fuel with
  | O => None
  | S fuel' =>
      match readNextVars ctl acFun l s with
      | (Err e, s) => Some (Err e, s)
      | (Ok rspVarBinds, s) =>
          match sendVarBinds stateReference 0 0 rspVarBinds s with
          | (Ok _, s) => Some (releaseStateInformation stateReference s)
          | (Err (StatusInformation st), s) =>
              match st_idx st with
              | None => Some (Err KeyError, s)
              | Some idx =>
                  match advance idx l rspVarBinds with
                  | Err e => Some (Err e, s)
                  | Ok l => next_loop fuel' ctl l s
                  end
              end
          | (Err e, s) => Some (Err e, s)
          end
      end
  end.

(** [NextCommandResponder.handleMgmtOperation] *)
Definition handle_next (fuel : nat) (PDU : pdu) : Eng unit := fun s =>
  match getMibInstrum ctxs contextName with
  | Err e => (Err e, s)
  | Ok ctl => default (Err (PySnmpError ""), s) (next_loop fuel ctl (varBinds PDU) s)
  end.

(** [BulkCommandResponder.handleMgmtOperation] *)
Definition maxVarBinds : nat := 64.

(** The loop over the repetitions: [rspVarBinds] so far, [l] what to ask for *)
Fixpoint bulk_loop (M_ R : nat) (ctl : instrum) (rspVarBinds l : list var_bind) :
    Eng (list var_bind) :=
  match M_ with
  | O => mret rspVarBinds
  | S M' =>
      repetition ← readNextVars ctl acFun l;
      let rspVarBinds := rspVarBinds ++ repetition in
      bulk_loop M' R ctl rspVarBinds (drop (length rspVarBinds - R) rspVarBinds)
  end.

(** [N], [M] and [R] *)
Definition bulk_counts (PDU : pdu) : nat * nat * nat :=
  let '(N, R) := split_counts (Z.max (getNonRepeaters PDU) 0) (varBinds PDU) in
  let M_ := Z.to_nat (Z.max (getMaxRepetitions PDU) 0) in
  (N, if (R =? 0)%nat then M_ else Nat.min M_ (maxVarBinds / R), R).

(** The bindings the two reads of a GETBULK gather *)
Definition bulk_read (ctl : instrum) (PDU : pdu) : Eng (list var_bind) :=
  let '(N, M_, R) := bulk_counts PDU in
  let reqVarBinds := varBinds PDU in
  rspVarBinds ← (if (N =? 0)%nat then mret [] else readNextVars ctl acFun (take N reqVarBinds));
  if (R =? 0)%nat then mret rspVarBinds
  else bulk_loop M_ R ctl rspVarBinds (drop (length reqVarBinds - R) reqVarBinds).

Definition handle_bulk (PDU : pdu) : Eng unit :=
  ctl ← liftR (getMibInstrum ctxs contextName);
  rspVarBinds ← bulk_read ctl PDU;
  match rspVarBinds with
  | [] => raise (SmiError "")
  | _ =>
      sendVarBinds stateReference 0 0 rspVarBinds;;
      releaseStateInformation stateReference
  end.

(** [SetCommandResponder.handleMgmtOperation] *)
Definition handle_set (PDU : pdu) : Eng unit :=
  ctl ← liftR (getMibInstrum ctxs contextName);
  try_except
    (rspVarBinds ← writeVars ctl acFun (varBinds PDU);
     sendVarBinds stateReference 0 0 rspVarBinds;;
     releaseStateInformation stateReference)
    (λ e, match e with
          | MibError NoSuchObjectError d | MibError NoSuchInstanceError d =>
              Some (raise (MibError NotWritableError d))
          | _ => None
          end).
End handlers.

(** ** [processPdu] *)

(** The concrete responder a PDU is dispatched to; [fuel] bounds the loop of
    the GETNEXT responder. *)
Definition handleMgmtOperation (fuel : nat) (ctxs : contexts) (contextName : octets)
    (stateReference : Z) (acFun : ac_fun) (PDU : pdu) : Eng unit :=
  match pduType PDU with
  | GetRequestPDU => handle_get ctxs contextName stateReference acFun PDU
  | GetNextRequestPDU =>
      handle_next ctxs contextName stateReference acFun fuel PDU
  | GetBulkRequestPDU => handle_bulk ctxs contextName stateReference acFun PDU
  | SetRequestPDU => handle_set ctxs contextName stateReference acFun PDU
  | _ => mret tt
  end.

(** The arguments the dispatcher passes on *)
Record request_info : Type := mk_info {
  r_messageProcessingModel : Z;
  r_securityModel : Z;
  r_securityName : octets;
  r_securityLevel : Z;
  r_contextEngineId : octets;
  r_contextName : octets;
  r_pduVersion : Z;
  r_maxSizeResponseScopedPDU : Z;
}.

Definition pending_of (i : request_info) (rsp : pdu) (orig : option v1_pdu) : pending :=
  mk_pending (r_messageProcessingModel i) (r_securityModel i) (r_securityName i)
    (r_securityLevel i) (r_contextEngineId i) (r_contextName i) (r_pduVersion i) rsp orig
    (r_maxSizeResponseScopedPDU i) None.

Definition exec_of (i : request_info) (PDU : v1_pdu) : exec_ctx :=
  mk_ctx (r_securityModel i) (r_securityName i) (r_securityLevel i) (r_contextName i)
    (v1_tagSet PDU).

Definition processPdu (fuel : nat) (ctxs : contexts) (i : request_info) (wirePDU : v1_pdu)
    (stateReference : Z) : Eng unit :=
  PDU ← (if r_messageProcessingModel i =? 0
         then on_generator (v1ToV2 wirePDU None [])
         else match wirePDU with
              | V1Pdu p => mret p
              | V1Trap _ => raise (ProtocolError "Unexpected PDU class")
              end);
  let orig := if r_messageProcessingModel i =? 0 then Some wirePDU else None in
  if negb (readClassPDUs (pduType PDU) || writeClassPDUs (pduType PDU))
  then raise (ProtocolError "Unexpected PDU class")
  else
    rsp ← on_generator (getResponse PDU);
    put_pending stateReference (pending_of i rsp orig);;
    try_except
      (handleMgmtOperation fuel ctxs (r_contextName i) stateReference
         (verifyAccess (exec_of i wirePDU)) PDU)
      (λ exc, Some (failedMgmtOperation exc stateReference (varBinds PDU))).

(** ** GETBULK *)

(** [reps] are answers to one another: each repetition asks for what follows
    the names of the one before it. *)
Fixpoint repetitions (ctl : instrum) (acFun : ac_fun) (l : list var_bind)
    (reps : list (list var_bind)) : Prop :=
  match reps with
  | [] => True
  | r :: reps' =>
      (∃ s s', readNextVars ctl acFun l s = (Ok r, s')) ∧ repetitions ctl acFun r reps'
  end.

(** A controller answers with as many bindings as it is asked for. *)
Definition answers_all (ctl : instrum) : Prop := ∀ acFun l s r s',
  readNextVars ctl acFun l s = (Ok r, s') → length r = length l.

Lemma drop_last_app {B} (a b : list B) R : length b = R → drop (length (a ++ b) - R) (a ++ b) = b.
Proof. intros <-. rewrite length_app, Nat.add_sub. apply drop_app_length. Qed.

Lemma bulk_loop_spec ctl acFun R M_ acc l s r s' : answers_all ctl → length l = R →
  bulk_loop acFun M_ R ctl acc l s = (Ok r, s') →
  ∃ reps, r = acc ++ concat reps ∧ length reps = M_ ∧ Forall (λ x, length x = R) reps ∧
    repetitions ctl acFun l reps.
Proof.
  intros Hc. revert acc l s. induction M_ as [|M' IH]; intros acc l s Hl; cbn [bulk_loop].
  - intros [= <- <-]. exists []. by rewrite app_nil_r.
  - munfold. destruct (readNextVars ctl acFun l s) as [[x|] s1] eqn:E; [|done].
    pose proof (Hc _ _ _ _ _ E) as Hx. rewrite Hl in Hx.
    rewrite drop_last_app by done. intros Hloop.
    destruct (IH _ _ _ Hx Hloop) as (reps & -> & Hlen & Hreps & Hch).
    exists (x :: reps). cbn. rewrite <- app_assoc. split_and!; [done|by f_equal|by constructor|eauto|done].
Qed.

Lemma bulk_counts_bound PDU N M_ R : bulk_counts PDU = (N, M_, R) →
  (N + R = length (varBinds PDU))%nat ∧ (R ≠ 0 → M_ * R <= maxVarBinds)%nat.
Proof.
  unfold bulk_counts, split_counts. intros [= <- <- <-]. split; [lia|].
  set (R := (length _ - _)%nat). intros HR. rewrite (proj2 (Nat.eqb_neq R 0)) by done.
  pose proof (Nat.Div0.mul_div_le maxVarBinds R). nia.
Qed.

(** C21. A GETBULK reads its N non-repeaters once and then as many whole repetitions
    as asked for, the repetitions being of up to 64 bindings in all of them: the answer
    is bounded by N + 64, each repetition asks for what follows the one before, and the
    manager's table of the answer is one row for each repetition.  The docstring of
    [BulkCommandResponder] has 64 for the bindings of the whole response; the
    non-repeaters are not counted. *)
Theorem bulk_is_bounded_repetitions ctl acFun PDU N M_ R s l s' rsp :
  answers_all ctl → bulk_counts PDU = (N, M_, R) → R ≠ 0%nat → 0 ≤ getNonRepeaters PDU →
  bulk_read acFun ctl PDU s = (Ok l, s') → varBinds rsp = l →
  ∃ first reps, l = first ++ concat reps ∧ length first = N ∧ length reps = M_ ∧
    Forall (λ r, length r = R) reps ∧
    repetitions ctl acFun (drop N (varBinds PDU)) reps ∧
    (length l <= N + maxVarBinds)%nat ∧
    bulk_getVarBindTable PDU rsp = (λ r, first ++ r) <$> reps.
Proof.
  intros Hc HC HR HN. unfold bulk_read. rewrite HC.
  destruct (bulk_counts_bound _ _ _ _ HC) as [Hsum HM]. specialize (HM HR).
  rewrite (proj2 (Nat.eqb_neq R 0)) by done. munfold.
  match goal with |- context [let (_, _) := ?x in _] => destruct x as [[first|] s1] eqn:Ef end;
    [|done].
  assert (Hfirst : length first = N).
  { destruct (Nat.eqb_spec N 0) as [->|]; [by simplify_eq|].
    rewrite (Hc _ _ _ _ _ Ef), length_take. lia. }
  intros Hloop Hrsp.
  apply bulk_loop_spec in Hloop as (reps & -> & Hlen & Hreps & Hch);
    [|done|rewrite length_drop; lia].
  replace (length (varBinds PDU) - R)%nat with N in Hch by lia.
  exists first, reps. split_and!; try done.
  - rewrite length_app. enough (length (concat reps) = (M_ * R)%nat) by lia.
    clear -Hlen Hreps. subst M_. induction Hreps as [|r reps Hr Hreps IH]; [done|].
    cbn. rewrite length_app, IH. lia.
  - unfold bulk_getVarBindTable. unfold bulk_counts in HC. rewrite Z.max_l in HC by done.
    destruct (split_counts _ _) as [N' R']. injection HC as -> _ ->.
    rewrite (proj2 (Nat.ltb_lt 0 R)) by lia. rewrite Hrsp.
    pose proof (bulk_rows_spec first R reps ltac:(lia) Hreps [] [] (length (first ++ concat reps)))
      as Hb. rewrite app_nil_r, Hfirst in Hb. apply Hb; cbn; [lia|]. rewrite length_app. lia.
Qed.

(** ** GETNEXT for a v1 manager *)

(** What the MIB holds after a name *)
Context (nxt : oid → var_bind).

(** [b] is what follows [a], and is a Counter64. *)
Definition skips (a b : oid) : Prop := tagSet (nxt a).2 = TCounter64 ∧ b = (nxt a).1.

(** The Counter64 names ahead of a binding *)
Definition ahead (names : list oid) (n : oid) : nat :=
  length (filter (λ m, tuple_ltb n m = true) names).

Fixpoint measure (names : list oid) (l : list var_bind) : nat :=
  match l with [] => 0 | b :: l' => ahead names b.1 + measure names l' end.

Lemma ahead_le names n : (ahead names n <= length names)%nat.
Proof. unfold ahead. apply length_filter. Qed.

Lemma measure_le names l : (measure names l <= length l * length names)%nat.
Proof.
  induction l as [|b l IH]; [done|]. cbn [measure length]. pose proof (ahead_le names b.1). lia.
Qed.

Lemma ahead_lt names n n' : tuple_ltb n n' = true → n' ∈ names →
  (ahead names n' < ahead names n)%nat.
Proof.
  intros Hlt Hin. unfold ahead.
  assert (Hmono : ∀ l, (length (filter (λ m, tuple_ltb n' m = true) l) <=
    length (filter (λ m, tuple_ltb n m = true) l))%nat).
  { induction l as [|m l IH]; [done|]. rewrite !filter_cons.
    destruct (decide (tuple_ltb n' m = true)) as [H1|].
    - rewrite decide_True; [cbn; lia|]. eapply tuple_ltb_leb_trans; [exact Hlt|by apply tuple_ltb_weaken].
    - case_decide; cbn; lia. }
  induction names as [|m l IH]; [by apply not_elem_of_nil in Hin|].
  rewrite !filter_cons. apply elem_of_cons in Hin as [<-|Hin].
  - rewrite decide_False by (by rewrite tuple_ltb_irrefl). rewrite decide_True by done.
    cbn. specialize (Hmono l). lia.
  - specialize (IH Hin). destruct (decide (tuple_ltb n' m = true)) as [H1|].
    + rewrite decide_True; [cbn; lia|]. eapply tuple_ltb_leb_trans; [exact Hlt|by apply tuple_ltb_weaken].
    + case_decide; cbn; lia.
Qed.

Lemma measure_advance names l i b n : l !! i = Some b →
  (ahead names n < ahead names b.1)%nat → ∀ v, (measure names (<[i := (n, v)]> l) < measure names l)%nat.
Proof.
  revert i; induction l as [|b' l IH]; intros [|i] Hl Hlt v; try done.
  - cbn in Hl. simplify_eq. cbn. lia.
  - specialize (IH i Hl Hlt v).
    change (<[S i := (n, v)]> (b' :: l)) with (b' :: <[i := (n, v)]> l). cbn [measure]. lia.
Qed.

(** The MIB as the responder sees it: it answers with what follows each name,
    in a finite tree of Counter64s in increasing order, with values v1 has
    classes for or Counter64s. *)
Record serves (ctl : instrum) (acFun : ac_fun) (names : list oid) : Prop := {
  serves_next : ∀ l s, readNextVars ctl acFun l s = (Ok ((λ b : var_bind, nxt b.1) <$> l), s);
  serves_order : ∀ n, tagSet (nxt n).2 = TCounter64 →
    tuple_ltb n (nxt n).1 = true ∧ (nxt n).1 ∈ names;
  serves_ok : ∀ n, v1_value_ok (nxt n).2 = true;
}.

(** The dispatcher takes the response, or refuses it with a status. *)
Definition accepts : Prop := ∀ p q r a, ∃ a', returnResponsePdu p q r a = (Ok tt, a').

Lemma sendVarBinds_v1 ref l s p o : accepts →
  dget (pendingReqs s) ref = Some p → messageProcessingModel p = 0 →
  origPdu p = Some (V1Pdu o) → pduType (rspPDU p) = ResponsePDU →
  let q := mk_pdu ResponsePDU (requestID (rspPDU p)) 0 0 l in
  match v2ToV1 other_address q (Some (V1Pdu o)) with
  | Ok r => ∃ s', sendVarBinds ref 0 0 l s = (Ok tt, s') ∧
      pendingReqs s' = dset (pendingReqs s) ref (with_PDU q p) ∧
      returnResponsePdu (with_PDU q p) r ref (app s) = (Ok tt, app s')
  | Err e => sendVarBinds ref 0 0 l s = (Err e, set_pending (dset (pendingReqs s) ref
      (with_PDU (mk_pdu ResponsePDU (requestID (rspPDU p)) 0 0 l) p)) s)
  end.
Proof.
  intros Hacc Hp Hm Ho Ht q. unfold sendVarBinds, sendPdu, get_pending, put_pending. munfold.
  rewrite Hp. cbn [from_option_exc]. unfold setErrorIndex, checked.
  change (in_range 0 max_bindings 0) with true. cbn iota beta.
  cbn [pendingReqs set_pending]. rewrite !dget_dset_eq. cbn [from_option_exc].
  cbn [messageProcessingModel origPdu with_PDU]. rewrite Hm, Ho. cbn [Z.eqb].
  unfold setVarBinds, with_varBinds, with_errorIndex, with_errorStatus.
  cbn [pduType requestID errorStatus errorIndex varBinds rspPDU]. rewrite Ht.
  fold q. rewrite dset_dset.
  destruct (v2ToV1 other_address q (Some (V1Pdu o))) as [r|e]; [|done].
  unfold on_app. munfold. cbn [app set_pending].
  destruct (Hacc (with_PDU q p) r ref (app s)) as [a' Ha]. rewrite Ha.
  eexists. split_and!; [reflexivity|done|done].
Qed.

Lemma next_no_counter64 (l : list var_bind) rid o r :
  pduType o = GetNextRequestPDU →
  v2ToV1 other_address (mk_pdu ResponsePDU rid 0 0 ((λ b : var_bind, nxt b.1) <$> l))
    (Some (V1Pdu o)) = Ok r →
  Forall (λ b : var_bind, tagSet (nxt b.1).2 ≠ TCounter64) l.
Proof.
  intros Ho Hr. apply Forall_lookup. intros i b Hi Ht.
  assert (Hg : pduType o ≠ GetRequestPDU) by congruence.
  apply (λ H, response_no_counter64 other_address _ o r H Hg Hr i); [done|].
  exists (nxt b.1). cbn [varBinds]. by rewrite list_lookup_fmap, Hi.
Qed.

Lemma next_loop_answers ctl acFun names ref o : accepts → serves ctl acFun names →
  pduType o = GetNextRequestPDU →
  ∀ fuel l s p, (measure names l < fuel)%nat →
  dget (pendingReqs s) ref = Some p → messageProcessingModel p = 0 →
  origPdu p = Some (V1Pdu o) → pduType (rspPDU p) = ResponsePDU → dict_ok (pendingReqs s) →
  ∃ s' l' r p', next_loop ref acFun fuel ctl l s = Some (Ok tt, s') ∧
    dget (pendingReqs s') ref = None ∧
    Forall2 (λ b b' : var_bind, rtc skips b.1 b'.1 ∧ tagSet (nxt b'.1).2 ≠ TCounter64) l l' ∧
    v2ToV1 other_address (mk_pdu ResponsePDU (requestID (rspPDU p)) 0 0
      ((λ b : var_bind, nxt b.1) <$> l')) (Some (V1Pdu o)) = Ok r ∧
    returnResponsePdu p' r ref (app s) = (Ok tt, app s').
Proof.
  intros Hacc Hserv Ho. induction fuel as [|fuel IH]; intros l s p Hm Hp Hv1 Horig Ht Hd; [lia|].
  cbn [next_loop]. rewrite (serves_next _ _ _ Hserv).
  pose proof (sendVarBinds_v1 ref ((λ b : var_bind, nxt b.1) <$> l) s p o Hacc Hp Hv1 Horig Ht) as Hs.
  cbn zeta in Hs. set (q := mk_pdu ResponsePDU (requestID (rspPDU p)) 0 0 _) in Hs.
  destruct (response_total other_address q o eq_refl) as [[r Hr]|(i & Hc & _ & _ & He)].
  { apply Forall_fmap, Forall_true. intros b. apply (serves_ok _ _ _ Hserv). }
  - rewrite Hr in Hs. destruct Hs as (s' & Hsend & Hpend & Hret). rewrite Hsend.
    exists (set_pending (ddel (pendingReqs s') ref) s'), l, r, (with_PDU q p).
    split_and!; [| | |done|done].
    + unfold releaseStateInformation, modify. rewrite Hpend, (proj2 (din_true _ _)); [done|eapply dget_Some_keys, dget_dset_eq].
    + cbn [pendingReqs set_pending]. rewrite Hpend. apply dget_ddel_eq. by apply dset_ok.
    + apply Forall2_same_length_lookup. split; [done|]. intros i b b' Hb Hb'. simplify_eq.
      split; [done|]. pose proof (next_no_counter64 l _ o r Ho Hr) as Hf.
      rewrite Forall_lookup in Hf. by eapply Hf.
  - rewrite He, decide_True in Hs by done. rewrite Hs.
    cbn [st_idx status_idx].
    destruct Hc as (vb & Hvb & Hct). cbn [q varBinds] in Hvb.
    rewrite list_lookup_fmap in Hvb. destruct (l !! i) as [b|] eqn:Hb; [|done].
    cbn in Hvb. simplify_eq. unfold advance. rewrite list_lookup_fmap, Hb. cbn [fmap option_fmap option_map].
    destruct (serves_order _ _ _ Hserv _ Hct) as [Hlt Hin].
    destruct (IH (<[i := ((nxt b.1).1, b.2)]> l)
      (set_pending (dset (pendingReqs s) ref (with_PDU q p)) s) (with_PDU q p))
      as (s' & l' & r & p' & Hl & Hn & Hf & Hr & Hret).
    + pose proof (measure_advance names l i b (nxt b.1).1 Hb (ahead_lt _ _ _ Hlt Hin) b.2). lia.
    + cbn. by rewrite dget_dset_eq.
    + done.
    + done.
    + done.
    + cbn. by apply dset_ok.
    + exists s', l', r, p'. split_and!; try done.
      apply Forall2_same_length_lookup. apply Forall2_same_length_lookup in Hf as [Hlen Hf].
      rewrite length_insert in Hlen. split; [done|]. intros j c c' Hj Hj'.
      destruct (decide (j = i)) as [->|Hne].
      * rewrite Hb in Hj. simplify_eq. destruct (Hf i ((nxt c.1).1, c.2) c') as [Hrt Hc']; [|done|].
        { rewrite list_lookup_insert_eq; [done|by eapply lookup_lt_Some]. }
        split; [|done]. eapply rtc_l; [|exact Hrt]. by split.
      * apply (Hf j); [by rewrite list_lookup_insert_ne by done|done].
Qed.

(** A v1 manager's GETNEXT is answered: each time the response holds a
    Counter64 the request moves past it, and after at most as many rounds as
    there are Counter64s for each binding every name is answered with the first
    object behind it that is not a Counter64, and the request is released. *)
Theorem next_skips_counter64 ctl acFun names ref o fuel l s p :
  accepts → serves ctl acFun names → pduType o = GetNextRequestPDU →
  (length l * length names < fuel)%nat →
  dget (pendingReqs s) ref = Some p → messageProcessingModel p = 0 →
  origPdu p = Some (V1Pdu o) → pduType (rspPDU p) = ResponsePDU → dict_ok (pendingReqs s) →
  ∃ s' l' r p', next_loop ref acFun fuel ctl l s = Some (Ok tt, s') ∧
    dget (pendingReqs s') ref = None ∧
    Forall2 (λ b b' : var_bind, rtc skips b.1 b'.1 ∧ tagSet (nxt b'.1).2 ≠ TCounter64) l l' ∧
    v2ToV1 other_address (mk_pdu ResponsePDU (requestID (rspPDU p)) 0 0
      ((λ b : var_bind, nxt b.1) <$> l')) (Some (V1Pdu o)) = Ok r ∧
    returnResponsePdu p' r ref (app s) = (Ok tt, app s').
Proof.
  intros Hacc Hserv Ho Hfuel. pose proof (measure_le names l). eapply next_loop_answers; try done. lia.
Qed.

(** ** Requests leave nothing behind *)
Section released.
Context (ref : Z).

Definition others (s s' : engine) : Prop :=
  (∀ r, r ≠ ref → dget (pendingReqs s') r = dget (pendingReqs s) r) ∧
  (dict_ok (pendingReqs s) → dict_ok (pendingReqs s')).

#[export] Instance others_preorder : PreOrder others.
Proof.
  split; [by split|]. intros s1 s2 s3 [H1 H2] [H3 H4]. split; [|auto].
  intros r Hr. by rewrite H3, H1.
Qed.

(** A computation that touches no request but [ref], and one that in addition
    releases [ref] when it ends normally *)
Definition confined {B} (m : Eng B) : Prop := ∀ s, others s (m s).2.
Definition releases (m : Eng unit) : Prop := ∀ s s', dict_ok (pendingReqs s) →
  m s = (Ok tt, s') → dget (pendingReqs s') ref = None.
(** It leaves the requests alone. *)
Definition keeps_pending {B} (m : Eng B) : Prop := ∀ s, pendingReqs (m s).2 = pendingReqs s.

Lemma keeps_confined {B} (m : Eng B) : keeps_pending m → confined m.
Proof. intros H s. split; by rewrite H. Qed.

Lemma confined_bind {B C} (m : Eng B) (k : B → Eng C) :
  confined m → (∀ b, confined (k b)) → confined (m ≫= k).
Proof.
  intros Hm Hk s. specialize (Hm s). munfold. destruct (m s) as [[b|e] s']; cbn in *; [|done].
  etrans; [exact Hm|apply Hk].
Qed.

Lemma confined_try {B} (m : Eng B) h : confined m →
  (∀ e k, h e = Some k → confined k) → confined (try_except m h).
Proof.
  intros Hm Hh s. specialize (Hm s). munfold. destruct (m s) as [[b|e] s']; cbn in *; [done|].
  destruct (h e) eqn:E; [|done]. etrans; [exact Hm|by eapply Hh].
Qed.

Lemma releases_bind {B} (m : Eng B) (k : B → Eng unit) :
  confined m → (∀ b, releases (k b)) → releases (m ≫= k).
Proof.
  intros Hm Hk s s' Hd. specialize (Hm s). munfold. destruct (m s) as [[b|e] s1]; [|done].
  apply Hk. by apply Hm.
Qed.

Lemma releases_try (m : Eng unit) h : releases m → confined m →
  (∀ e k, h e = Some k → releases k) → releases (try_except m h).
Proof.
  intros Hm Hc Hh s s' Hd. specialize (Hm s). specialize (Hc s). munfold.
  destruct (m s) as [[[]|e] s1].
  - intros [= <-]. by apply Hm.
  - destruct (h e) eqn:E; [|done]. eapply Hh; [done|]. by apply Hc.
Qed.

Lemma releases_raise e : releases (raise e).
Proof. done. Qed.
Lemma confined_liftR {B} (r : result exn B) : confined (liftR r).
Proof. intros s. reflexivity. Qed.
Lemma confined_raise {B} e : confined (raise e : Eng B).
Proof. intros s. reflexivity. Qed.
Lemma confined_mret {B} (b : B) : confined (mret b).
Proof. intros s. reflexivity. Qed.
Lemma confined_get : confined (get_pending ref).
Proof. intros s. reflexivity. Qed.
Lemma confined_app {B} (m : M exn A B) : confined (on_app m).
Proof. intros s. unfold on_app, zoom. by destruct (m (app s)). Qed.
Lemma confined_generator {B} (m : M exn NextId.Integer B) : confined (on_generator m).
Proof. intros s. unfold on_generator, zoom. by destruct (m (generator s)). Qed.
Lemma confined_drop : confined count_silent_drop.
Proof. intros s. by split. Qed.

Lemma confined_put p : confined (put_pending ref p).
Proof.
  intros s. split; cbn; [|apply dset_ok]. intros r Hr. by rewrite dget_dset_ne.
Qed.

Lemma release_confined : confined (releaseStateInformation ref).
Proof.
  intros s. unfold releaseStateInformation, modify. cbn. split; cbn; destruct (din _ _); try done.
  - intros r Hr. destruct (decide (dict_ok (pendingReqs s))) as [Hd|Hd]; [by rewrite dget_ddel_ne|].
    clear Hd. induction (pendingReqs s) as [|[k v] d IH]; [done|]. cbn.
    destruct (decide (ref = k)) as [->|]; cbn; [by rewrite decide_False|].
    case_decide; [done|exact IH].
  - apply ddel_ok.
Qed.

Lemma release_releases : releases (releaseStateInformation ref).
Proof.
  intros s s' Hd. unfold releaseStateInformation, modify. intros [= <-]. cbn.
  destruct (din (pendingReqs s) ref) eqn:E; [by apply dget_ddel_eq|by apply din_false].
Qed.

Create HintDb released.
#[local] Hint Resolve confined_liftR confined_raise confined_mret confined_get confined_app
  confined_generator confined_drop confined_put release_confined release_releases releases_raise : released.

Lemma sendVarBinds_confined st i l : confined (sendVarBinds ref st i l).
Proof.
  unfold sendVarBinds, sendPdu. repeat (apply confined_bind; [by auto with released|intros ?]).
  apply confined_try; [by auto with released|]. intros e k He.
  destruct (is_StatusInformation e); [|done]. injection He as <-. by auto with released.
Qed.
#[local] Hint Resolve sendVarBinds_confined : released.

Lemma failed_confined e l : confined (failedMgmtOperation e ref l).
Proof.
  unfold failedMgmtOperation. apply confined_bind; [by auto with released|].
  intros [[[[st i] l'] rep]|]; [|by auto with released].
  apply confined_bind; [destruct rep; [apply confined_bind|]; auto with released|intros _].
  apply confined_bind; auto with released.
Qed.

Lemma failed_releases e l : releases (failedMgmtOperation e ref l).
Proof.
  unfold failedMgmtOperation. apply releases_bind; [by auto with released|].
  intros [[[[st i] l'] rep]|]; [|by auto with released].
  apply releases_bind; [destruct rep; [apply confined_bind|]; auto with released|intros _].
  apply releases_bind; auto with released.
Qed.

(** The MIB instrumentation does not reach into the responder. *)
Definition well_behaved (c : instrum) : Prop := ∀ acFun,
  (∀ n t i v, keeps_pending (acFun n t i v)) →
  ∀ l, keeps_pending (readVars c acFun l) ∧ keeps_pending (readNextVars c acFun l) ∧
    keeps_pending (writeVars c acFun l).

Lemma verifyAccess_keeps ctx n t i v : keeps_pending (verifyAccess ctx n t i v).
Proof.
  intros s. unfold verifyAccess, on_app, zoom.
  destruct (isAccessAllowed _ _ _ _ _ _ (app s)) as [[r|e] a]; [by case_bool_decide|].
  destruct e; try done.
  destruct (st_errorIndication _) as [[]|]; done.
Qed.

Section ops.
Context (ctxs : contexts) (cn : octets) (acFun : ac_fun).
Context (Hctx : ∀ n c, dget ctxs n = Some c → well_behaved c).
Context (HacFun : ∀ n t i v, keeps_pending (acFun n t i v)).

Lemma getMibInstrum_ok c : getMibInstrum ctxs cn = Ok c →
  ∀ l, confined (readVars c acFun l) ∧ confined (readNextVars c acFun l) ∧
    confined (writeVars c acFun l).
Proof.
  unfold getMibInstrum. destruct (dget ctxs cn) as [c'|] eqn:E; [|done]. intros [= ->] l.
  destruct (Hctx _ _ E acFun HacFun l) as (H1 & H2 & H3). by split_and!; apply keeps_confined.
Qed.

(** Look the controller up, then go on with what it is known to keep. *)
Lemma with_controller {P : Eng unit → Prop} (k : instrum → Eng unit) :
  (∀ e, P (raise e)) → (∀ c, getMibInstrum ctxs cn = Ok c → P (k c)) →
  (∀ m m', (∀ s, m s = m' s) → P m → P m') →
  P (liftR (getMibInstrum ctxs cn) ≫= k).
Proof.
  intros He Hk Hext. destruct (getMibInstrum ctxs cn) as [c|e] eqn:E.
  - eapply Hext; [|apply (Hk c eq_refl)]. done.
  - eapply Hext; [|apply (He e)]. done.
Qed.

Definition both (m : Eng unit) : Prop := confined m ∧ releases m.
Lemma both_ext m m' : (∀ s, m s = m' s) → both m → both m'.
Proof.
  intros Hm [H1 H2]. split; intros s; rewrite <- Hm; [apply H1|apply H2].
Qed.
Lemma both_raise e : both (raise e).
Proof. split; auto with released. Qed.
Lemma both_bind {B} (m : Eng B) (k : B → Eng unit) :
  confined m → (∀ b, both (k b)) → both (m ≫= k).
Proof.
  intros Hm Hk. split; [apply confined_bind|apply releases_bind]; try done; intros b; apply Hk.
Qed.
Lemma both_answer st i l : both (sendVarBinds ref st i l;; releaseStateInformation ref).
Proof. apply both_bind; [by auto with released|]. intros _. split; auto with released. Qed.

Lemma get_both PDU : both (handle_get ctxs cn ref acFun PDU).
Proof.
  apply with_controller; [apply both_raise| |apply both_ext]. intros c Hc.
  apply both_bind; [apply (getMibInstrum_ok c Hc)|]. intros l. apply both_answer.
Qed.

Lemma bulk_loop_confined c : (∀ l, confined (readNextVars c acFun l)) →
  ∀ M_ R acc l, confined (bulk_loop acFun M_ R c acc l).
Proof.
  intros Hc M_ R. induction M_ as [|M' IH]; intros acc l; cbn [bulk_loop];
    [by auto with released|]. apply confined_bind; [apply Hc|]. intros x. apply IH.
Qed.

Lemma bulk_both PDU : both (handle_bulk ctxs cn ref acFun PDU).
Proof.
  apply with_controller; [apply both_raise| |apply both_ext]. intros c Hc.
  pose proof (λ l, proj1 (proj2 (getMibInstrum_ok c Hc l))) as Hn.
  apply both_bind.
  - unfold bulk_read. destruct (bulk_counts PDU) as [[N M_] R]. apply confined_bind.
    + destruct (N =? 0)%nat; auto with released.
    + intros l. destruct (R =? 0)%nat; [by auto with released|by apply bulk_loop_confined].
  - intros [|b l]; [apply both_raise|apply both_answer].
Qed.

Lemma set_both PDU : both (handle_set ctxs cn ref acFun PDU).
Proof.
  apply with_controller; [apply both_raise| |apply both_ext]. intros c Hc.
  assert (Hm : both (rsp ← writeVars c acFun (varBinds PDU);
    sendVarBinds ref 0 0 rsp;; releaseStateInformation ref)).
  { apply both_bind; [apply (getMibInstrum_ok c Hc)|]. intros l. apply both_answer. }
  split; [apply confined_try|apply releases_try]; try apply Hm;
    intros e k He; destruct e; try done; destruct k0; simplify_eq; auto with released.
Qed.

Lemma next_loop_both c : (∀ l, confined (readNextVars c acFun l)) →
  ∀ fuel l s r s', next_loop ref acFun fuel c l s = Some (r, s') →
  others s s' ∧ (dict_ok (pendingReqs s) → r = Ok tt → dget (pendingReqs s') ref = None).
Proof.
  intros Hc fuel. induction fuel as [|fuel IH]; intros l s r s'; [done|]. cbn [next_loop].
  pose proof (Hc l s) as H1. destruct (readNextVars c acFun l s) as [[rsp|e] s1]; cbn in H1;
    [|by intros [= <- <-]].
  pose proof (sendVarBinds_confined 0 0 rsp s1) as H2.
  destruct (sendVarBinds ref 0 0 rsp s1) as [[u|e] s2]; cbn in H2; pose proof (transitivity H1 H2) as H12.
  - intros Hr. apply (inj Some) in Hr. split.
    + etrans; [exact H12|]. pose proof (release_confined s2) as H3. by rewrite Hr in H3.
    + intros Hd ->. eapply release_releases; [|exact Hr]. by apply H12.
  - destruct e; try by intros [= <- <-].
    destruct (st_idx st); [|by intros [= <- <-]].
    destruct (advance n l rsp); [|by intros [= <- <-]].
    intros Hl. destruct (IH _ _ _ _ Hl) as [H3 H4]. split; [by etrans|]. intros Hd. apply H4. by apply H12.
Qed.

Lemma next_both fuel PDU : both (handle_next ctxs cn ref acFun fuel PDU).
Proof.
  unfold handle_next. destruct (getMibInstrum ctxs cn) as [c|e] eqn:Hc;
    [|split; [intros s; reflexivity|done]].
  pose proof (next_loop_both c (λ l, proj1 (proj2 (getMibInstrum_ok c Hc l))) fuel (varBinds PDU)) as Hn.
  split; intros s; specialize (Hn s).
  - destruct (next_loop _ _ _ _ _ s) as [[r s']|]; cbn; [by eapply Hn|reflexivity].
  - intros s' Hd. destruct (next_loop _ _ _ _ _ s) as [[r s1]|]; cbn; [|done].
    intros [= -> ->]. by eapply Hn.
Qed.
End ops.
End released.

(** A request that [processPdu] ends with leaves no trace: its entry is
    gone, answered or dropped, and the other requests are as they were. *)
Theorem requests_are_released fuel ctxs i wirePDU ref s s' :
  (∀ n c, dget ctxs n = Some c → well_behaved c) → dict_ok (pendingReqs s) →
  processPdu fuel ctxs i wirePDU ref s = (Ok tt, s') →
  dget (pendingReqs s') ref = None ∧
  ∀ r, r ≠ ref → dget (pendingReqs s') r = dget (pendingReqs s) r.
Proof.
  intros Hctx Hd Hp.
  enough (Hb : both ref (processPdu fuel ctxs i wirePDU ref)).
  { split; [by eapply Hb|]. intros r Hr. pose proof (proj1 Hb s) as Ho. rewrite Hp in Ho.
    by apply Ho. }
  pose proof (λ n t j v, verifyAccess_keeps (exec_of i wirePDU) n t j v) as Hac.
  unfold processPdu. apply both_bind.
  { destruct (_ =? 0); [apply confined_generator|]. destruct wirePDU; intros s0; reflexivity. }
  intros PDU. destruct (readClassPDUs (pduType PDU) || writeClassPDUs (pduType PDU)) eqn:E;
    cbn [negb]; [|apply both_raise].
  apply both_bind; [apply confined_generator|]. intros rsp.
  apply both_bind; [apply confined_put|]. intros _.
  assert (Hh : both ref (handleMgmtOperation fuel ctxs (r_contextName i) ref
    (verifyAccess (exec_of i wirePDU)) PDU)).
  { unfold handleMgmtOperation. destruct (pduType PDU); try done;
      [by apply get_both|by apply next_both|by apply set_both|by apply bulk_both]. }
  split; [apply confined_try|apply releases_try]; try apply Hh; intros e k [= <-];
    [apply failed_confined|apply failed_releases].
Qed.
End responder.
Arguments engine : clear implicits.
Arguments instrum : clear implicits.

(** ** The responder with the View-based Access Control Model *)
Definition vacm_acm (mib : Vacm.vacm_mib) (securityModel : Z) (securityName : octets)
    (securityLevel : Z) (viewType : string) (contextName : octets) (name : oid) :
    M exn Vacm.Vacm (option status) :=
  Vacm.isAccessAllowed mib securityModel securityName securityLevel viewType contextName name.

(** A group whose view has no row in the view tree may read and write
    everything: the model returns its refusal instead of raising it, and the
    responder takes any return for a grant. *)
Theorem missing_view_is_served mib ctx s name syntax idx view groups g access v tree :
  app s = Vacm.init → Vacm.mib_ok mib → x_securityModel ctx ≠ 1 →
  din (Vacm.build_contextMap mib) (x_contextName ctx) = true →
  Vacm.build_groupNameMap mib = Ok groups →
  dget groups [TableIndex.IInt (x_securityModel ctx); TableIndex.IStr (x_securityName ctx)] = Some g →
  Vacm.build_accessMap mib = Ok access →
  Vacm.getFamilyViewName (Vacm.with_access access) g (x_contextName ctx) (x_securityModel ctx)
    (x_securityLevel ctx) view = Ok v →
  Vacm.build_viewTreeMap mib = Ok tree → dget tree v = None →
  ∃ s', verifyAccess (vacm_acm mib) ctx name syntax idx view s = (Ok None, s').
Proof.
  intros Hs Hm H1 Hc Hg Hgn Ha Hv Ht Hn.
  destruct (Vacm.missing_view_is_not_raised mib
    (Vacm.mk_request (x_securityModel ctx) (x_securityName ctx) (x_securityLevel ctx) view
      (x_contextName ctx) name) groups g access v tree) as [st' Hst]; try done.
  unfold verifyAccess, on_app, zoom. rewrite Hs. unfold vacm_acm.
  unfold Vacm.allowed in Hst. cbn in Hst. rewrite Hst. rewrite bool_decide_false by tauto. eauto.
Qed.

(** ** Concrete runs *)
Definition demo_acm (sm : Z) (sn : octets) (sl : Z) (vt : string) (cn : octets) (n : oid) :
    M exn unit (option status) := mret (Some (status_of accessAllowed)).
Definition demo_dispatch (p : pending) (q : v1_pdu) (r : Z) : M exn unit unit := mret tt.

(** A MIB that answers every name with its first child. *)
Definition demo_instrum : instrum unit :=
  let child (l : list var_bind) : list var_bind := (λ b : var_bind, (b.1 ++ [1], VInteger 4)) <$> l in
  mk_instrum (λ _ l s, (Ok l, s)) (λ _ l s, (Ok (child l), s)) (λ _ l s, (Ok l, s)).

Definition demo_info (mpm : Z) : request_info := mk_info mpm 3 [117] 1 [128] [] 1 65507.
Definition demo_engine : engine unit := mk_engine tt 0 0 demo_generator [].

Lemma demo_well_behaved (n : octets) c :
  dget [([], demo_instrum)] n = Some c → well_behaved (A := unit) c.
Proof. cbn. case_decide; [|done]. intros [= <-]. done. Qed.

Lemma requests_are_released_witness :
  ∃ s', processPdu demo_acm demo_dispatch no_address 3 [([], demo_instrum)] (demo_info 1)
      (V1Pdu demo_get) 5 demo_engine = (Ok tt, s') ∧ dget (pendingReqs s') 5 = None.
Proof.
  eexists. split; [vm_compute; reflexivity|].
  refine (proj1 (requests_are_released demo_acm demo_dispatch no_address 3 [([], demo_instrum)]
    (demo_info 1) (V1Pdu demo_get) 5 demo_engine _ _ NoDup_nil_2 _)).
  - intros n c. apply demo_well_behaved.
  - vm_compute. reflexivity.
Defined.

Lemma bulk_is_bounded_repetitions_witness :
  ∃ first reps, length first = 1%nat ∧ length reps = 10%nat ∧
    bulk_getVarBindTable demo_bulk (with_varBinds (first ++ concat reps) demo_rsp)
      = (λ r, first ++ r) <$> reps.
Proof.
  destruct (bulk_is_bounded_repetitions demo_instrum (verifyAccess demo_acm (exec_of (demo_info 1)
      (V1Pdu demo_bulk))) demo_bulk 1 10 2 demo_engine
      (default [] (match (bulk_read (λ _ _ _ _ s, (Ok None, s)) demo_instrum demo_bulk demo_engine).1
                   with Ok l => Some l | Err _ => None end)) demo_engine
      (with_varBinds (default [] (match (bulk_read (λ _ _ _ _ s, (Ok None, s)) demo_instrum demo_bulk
         demo_engine).1 with Ok l => Some l | Err _ => None end)) demo_rsp))
    as (first & reps & Hl & H1 & H2 & _ & _ & _ & Ht).
  - intros acFun l s r s' [= <- <-]. apply length_fmap.
  - reflexivity.
  - done.
  - vm_compute. congruence.
  - vm_compute. reflexivity.
  - reflexivity.
  - exists first, reps. split; [exact H1|]. split; [exact H2|]. rewrite Hl in Ht. exact Ht.
Defined.

Definition demo_nxt (n : oid) : var_bind :=
  if decide (n = [1; 1]) then ([1; 2], VCounter64 5) else ([1; 9], VInteger 3).
Definition counter_instrum : instrum unit :=
  mk_instrum (λ _ l s, (Ok l, s)) (λ _ l s, (Ok ((λ b : var_bind, demo_nxt b.1) <$> l), s))
    (λ _ l s, (Ok l, s)).

Lemma next_skips_counter64_witness :
  ∃ s' l', next_loop demo_dispatch no_address 5 (λ _ _ _ _ s, (Ok None, s)) 2 counter_instrum
      [([1; 1], VNull)] (mk_engine tt 0 0 demo_generator
        [(5, pending_of (demo_info 0) (new ResponsePDU) (Some (V1Pdu demo_next)))])
      = Some (Ok tt, s') ∧
    Forall2 (λ b b' : var_bind, rtc (skips demo_nxt) b.1 b'.1 ∧
      tagSet (demo_nxt b'.1).2 ≠ TCounter64) [([1; 1], VNull)] l'.
Proof.
  destruct (next_skips_counter64 demo_dispatch no_address demo_nxt counter_instrum
    (λ _ _ _ _ s, (Ok None, s)) [[1; 2]] 5 demo_next 2 [([1; 1], VNull)]
    (mk_engine tt 0 0 demo_generator
      [(5, pending_of (demo_info 0) (new ResponsePDU) (Some (V1Pdu demo_next)))])
    (pending_of (demo_info 0) (new ResponsePDU) (Some (V1Pdu demo_next))))
    as (s' & l' & r & p' & Hl & _ & Hf & _).
  - intros p q r []. by exists tt.
  - split; [done| |].
    + intros n. unfold demo_nxt. case_decide; [|done]. subst. intros _. split; [done|left].
    + intros n. unfold demo_nxt. by case_decide.
  - reflexivity.
  - vm_compute. lia.
  - reflexivity.
  - reflexivity.
  - reflexivity.
  - reflexivity.
  - repeat constructor. by intros ?%not_elem_of_nil.
  - exists s', l'. split; [exact Hl|exact Hf].
Defined.

(** The view of the group loses its rows. *)
Definition emptied (mib : Vacm.vacm_mib) : Vacm.vacm_mib :=
  Vacm.mk_mib (Vacm.vacmContextName mib) (Vacm.vacmSecurityToGroupEntry mib)
    (Vacm.vacmGroupName mib) (Vacm.vacmAccessEntry mib) (Vacm.vacmAccessContextPrefix mib)
    (Vacm.vacmAccessSecurityModel mib) (Vacm.vacmAccessSecurityLevel mib)
    (Vacm.vacmAccessContextMatch mib) (Vacm.vacmAccessReadViewName mib)
    (Vacm.vacmAccessWriteViewName mib) (Vacm.vacmAccessNotifyViewName mib)
    (Vacm.vacmAccessStatus mib) (Vacm.demo_col (Vacm.acm [5; 2; 1; 1]) [] [])
    (Vacm.vacmViewTreeFamilySubtree mib) (Vacm.vacmViewTreeFamilyMask mib)
    (Vacm.vacmViewTreeFamilyType mib).

Lemma missing_view_is_served_witness :
  ∃ s', verifyAccess (vacm_acm (emptied Vacm.demo_mib)) (mk_ctx 3 [117] 1 [] GetRequestPDU)
    [1; 3; 6; 1] None (Some 0%nat) "read" (mk_engine Vacm.init 0 0 demo_generator []) = (Ok None, s').
Proof.
  eapply (missing_view_is_served (emptied Vacm.demo_mib) (mk_ctx 3 [117] 1 [] GetRequestPDU));
    [reflexivity|split; apply Vacm.demo_col_ok; repeat constructor; discriminate|done
    |vm_compute; reflexivity..].
Defined.
End Cmdrsp.
