(* ===== verification/V3Msg.v ===== *)
(** * SNMPv3 messages (src/pysnmp/proto/mpmod/rfc3412.py,
      src/pysnmp/proto/secmod/rfc3414/service.py)

    The message format and the header of the user security model.  BER is
    pyasn1's: a codec is an argument of what reads or writes the wire, and
    [CodecLaws] is what its documentation promises.  A message object is
    modelled by its value: the code refills one object for each message it
    sends and never reads what the last one left. *)
From S2P Require Export Errors.
#[local] Open Scope Z_scope.

Module V3.

(** [HeaderData] *)
Record HeaderData : Type := mk_header {
  msgID : Z;
  msgMaxSize : Z;
  msgFlags : octets;
  msgSecurityModel : Z;
}.

(** [ScopedPduData] *)
Inductive ScopedPduData : Type :=
  | plaintext (s : scoped_pdu)
  | encryptedPDU (e : octets).

(** [SNMPv3Message] *)
Record SNMPv3Message : Type := mk_v3 {
  msgVersion : Z;
  msgGlobalData : HeaderData;
  msgSecurityParameters : octets;
  msgData : ScopedPduData;
}.

(** [UsmSecurityParameters] (service.py) *)
Record UsmSecurityParameters : Type := mk_usm {
  msgAuthoritativeEngineId : octets;
  msgAuthoritativeEngineBoots : Z;
  msgAuthoritativeEngineTime : Z;
  msgUserName : octets;
  msgAuthenticationParameters : octets;
  msgPrivacyParameters : octets;
}.

Definition with_params (e : octets) (m : SNMPv3Message) : SNMPv3Message :=
  mk_v3 (msgVersion m) (msgGlobalData m) e (msgData m).
Definition with_data (d : ScopedPduData) (m : SNMPv3Message) : SNMPv3Message :=
  mk_v3 (msgVersion m) (msgGlobalData m) (msgSecurityParameters m) d.
Definition with_flags (f : octets) (m : SNMPv3Message) : SNMPv3Message :=
  let h := msgGlobalData m in
  mk_v3 (msgVersion m) (mk_header (msgID h) (msgMaxSize h) f (msgSecurityModel h))
    (msgSecurityParameters m) (msgData m).
Definition with_digest (d : octets) (p : UsmSecurityParameters) : UsmSecurityParameters :=
  mk_usm (msgAuthoritativeEngineId p) (msgAuthoritativeEngineBoots p)
    (msgAuthoritativeEngineTime p) (msgUserName p) d (msgPrivacyParameters p).

(** pyasn1: [encoder.encode] and [decoder.decode] with the three specifications,
    where [None] is the end-of-octets marker and what follows the value is
    ignored; and [getComponentByPosition] on [ScopedPduData], which for the
    alternative that was not chosen answers whatever pyasn1 does. *)
Record codec : Type := mk_codec {
  encodeScopedPDU : scoped_pdu → result exn octets;
  decodeScopedPDU : octets → result exn (option scoped_pdu);
  encodeUsm : UsmSecurityParameters → result exn octets;
  decodeUsm : octets → result exn (option UsmSecurityParameters);
  encodeMessage : SNMPv3Message → result exn octets;
  decodeMessage : octets → result exn (option SNMPv3Message);
  plaintextOf : ScopedPduData → result exn (option scoped_pdu);
  encryptedOf : ScopedPduData → result exn (option octets);
}.

(** The octets around the digest of a message: whatever digest of [n] octets the
    parameters [p] hold, the message is these with the digest between them. *)
Definition digest_field (c : codec) (m : SNMPv3Message) (p : UsmSecurityParameters) (n : nat)
    (pre post : octets) : Prop :=
  ∀ d, length d = n → ∃ e, encodeUsm c (with_digest d p) = Ok e ∧
    encodeMessage c (with_params e m) = Ok (pre ++ d ++ post).

(** What the codec promises: decoding undoes encoding and stops at the end of
    the value, an alternative that was chosen is returned, and an octet string
    is encoded in place: another digest of the same length changes the octets
    of the digest and nothing else; and what it raises is its own error. *)
Class CodecLaws (c : codec) : Prop := {
  scoped_inverse : ∀ s e rest, encodeScopedPDU c s = Ok e →
    decodeScopedPDU c (e ++ rest) = Ok (Some s);
  usm_inverse : ∀ p e rest, encodeUsm c p = Ok e → decodeUsm c (e ++ rest) = Ok (Some p);
  message_inverse : ∀ m w rest, encodeMessage c m = Ok w →
    decodeMessage c (w ++ rest) = Ok (Some m);
  plaintext_chosen : ∀ s, plaintextOf c (plaintext s) = Ok (Some s);
  encrypted_chosen : ∀ e, encryptedOf c (encryptedPDU e) = Ok (Some e);
  digest_in_place : ∀ p m d0 e w,
    encodeUsm c (with_digest d0 p) = Ok e → encodeMessage c (with_params e m) = Ok w →
    ∃ pre post, digest_field c m p (length d0) pre post;
  codec_errors : ∀ st x d,
    decodeScopedPDU c x ≠ Err (StatusInformation st) ∧ decodeUsm c x ≠ Err (StatusInformation st) ∧
    plaintextOf c d ≠ Err (StatusInformation st) ∧ encryptedOf c d ≠ Err (StatusInformation st);
}.
End V3.

(** ** A codec that has the laws, for the witnesses: every field is written as
    its length and its integers. *)
Module ToyCodec.
Import V3.

Definition ser (l : list Z) : list Z := Z.of_nat (length l) :: l.
Definition de (l : list Z) : list Z * list Z :=
  match l with
  | [] => ([], [])
  | n :: l => (take (Z.to_nat n) l, drop (Z.to_nat n) l)
  end.

Lemma de_ser l rest : de (ser l ++ rest) = (l, rest).
Proof. unfold de, ser. cbn. rewrite Nat2Z.id, take_app_length, drop_app_length. done. Qed.

Definition ser_value (v : value) : list Z :=
  match v with
  | VInteger z => 0 :: ser [z] | VOctetString s => 1 :: ser s | VNull => 2 :: ser []
  | VOid o => 3 :: ser o | VIpAddress s => 4 :: ser s | VCounter32 z => 5 :: ser [z]
  | VGauge32 z => 6 :: ser [z] | VTimeTicks z => 7 :: ser [z] | VOpaque s => 8 :: ser s
  | VCounter64 z => 9 :: ser [z] | VNoSuchObject => 10 :: ser []
  | VNoSuchInstance => 11 :: ser [] | VEndOfMibView => 12 :: ser []
  end.
Definition de_value (l : list Z) : value * list Z :=
  match l with
  | [] => (VNull, [])
  | t :: l =>
      let '(p, l) := de l in
      let z := default 0 (head p) in
      (match t with
       | 0 => VInteger z | 1 => VOctetString p | 3 => VOid p | 4 => VIpAddress p
       | 5 => VCounter32 z | 6 => VGauge32 z | 7 => VTimeTicks z | 8 => VOpaque p
       | 9 => VCounter64 z | 10 => VNoSuchObject | 11 => VNoSuchInstance
       | 12 => VEndOfMibView | _ => VNull
       end, l)
  end.

Lemma de_ser_value v rest : de_value (ser_value v ++ rest) = (v, rest).
Proof. by destruct v; unfold ser_value, de_value; rewrite <- app_comm_cons, de_ser. Qed.

Fixpoint ser_binds (l : list var_bind) : list Z :=
  match l with [] => [0] | (o, v) :: l => 1 :: ser o ++ ser_value v ++ ser_binds l end.
Fixpoint de_binds (fuel : nat) (l : list Z) : list var_bind * list Z :=
  match fuel, l with
  | S fuel, 1 :: l =>
      let '(o, l) := de l in let '(v, l) := de_value l in
      let '(vbs, l) := de_binds fuel l in ((o, v) :: vbs, l)
  | S _, _ :: l => ([], l)
  | _, _ => ([], l)
  end.

Lemma de_ser_binds l fuel rest : (length l < fuel)%nat →
  de_binds fuel (ser_binds l ++ rest) = (l, rest).
Proof.
  revert fuel; induction l as [|[o v] l IH]; intros [|fuel] Hf; cbn in Hf; try lia; [done|].
  cbn [ser_binds]. rewrite <- !app_comm_cons, <- !app_assoc. cbn [de_binds].
  rewrite de_ser, de_ser_value, IH by lia. done.
Qed.

Definition ser_tag (t : pdu_tag) : Z :=
  match t with
  | GetRequestPDU => 0 | GetNextRequestPDU => 1 | ResponsePDU => 2 | SetRequestPDU => 3
  | TrapPDU => 4 | GetBulkRequestPDU => 5 | InformRequestPDU => 6 | SNMPv2TrapPDU => 7
  | ReportPDU => 8
  end.
Definition de_tag (z : Z) : pdu_tag :=
  match z with
  | 0 => GetRequestPDU | 1 => GetNextRequestPDU | 2 => ResponsePDU | 3 => SetRequestPDU
  | 4 => TrapPDU | 5 => GetBulkRequestPDU | 6 => InformRequestPDU | 7 => SNMPv2TrapPDU
  | _ => ReportPDU
  end.
Lemma de_ser_tag t : de_tag (ser_tag t) = t.
Proof. by destruct t. Qed.

Definition ser_scoped (s : scoped_pdu) : list Z :=
  let p := scopedData s in
  ser (contextEngineId s) ++ ser (contextName s) ++
  [ser_tag (pduType p); requestID p; errorStatus p; errorIndex p; Z.of_nat (length (varBinds p))] ++
  ser_binds (varBinds p).
Definition de_scoped (l : list Z) : option scoped_pdu :=
  let '(e, l) := de l in let '(n, l) := de l in
  match l with
  | t :: r :: es :: ei :: k :: l =>
      Some (mk_scoped e n (mk_pdu (de_tag t) r es ei (de_binds (S (Z.to_nat k)) l).1))
  | _ => None
  end.

Lemma de_ser_scoped s rest : de_scoped (ser_scoped s ++ rest) = Some s.
Proof.
  destruct s as [e n [t r es ei l]]. unfold ser_scoped, de_scoped.
  cbn [scopedData contextEngineId contextName pduType requestID errorStatus errorIndex varBinds].
  rewrite <- !app_assoc, (de_ser e), (de_ser n). cbn [app].
  rewrite Nat2Z.id, de_ser_tag, de_ser_binds by lia. done.
Qed.

(** The digest comes last, under its length. *)
Definition ser_usm (p : UsmSecurityParameters) : list Z :=
  ser (msgAuthoritativeEngineId p) ++
  [msgAuthoritativeEngineBoots p; msgAuthoritativeEngineTime p] ++
  ser (msgUserName p) ++ ser (msgPrivacyParameters p) ++ ser (msgAuthenticationParameters p).
Definition de_usm (l : list Z) : option UsmSecurityParameters :=
  let '(e, l) := de l in
  match l with
  | b :: t :: l =>
      let '(u, l) := de l in let '(p, l) := de l in let '(d, _) := de l in
      Some (mk_usm e b t u d p)
  | _ => None
  end.

Lemma de_ser_usm p rest : de_usm (ser_usm p ++ rest) = Some p.
Proof.
  destruct p as [e b t u d p]. unfold ser_usm, de_usm. cbn [msgAuthoritativeEngineId
    msgAuthoritativeEngineBoots msgAuthoritativeEngineTime msgUserName
    msgAuthenticationParameters msgPrivacyParameters].
  rewrite <- !app_assoc, (de_ser e). cbn [app]. by rewrite (de_ser u), (de_ser p), (de_ser d).
Qed.

Definition ser_data (d : ScopedPduData) : list Z :=
  match d with plaintext s => 0 :: ser (ser_scoped s) | encryptedPDU e => 1 :: ser e end.
Definition de_data (l : list Z) : option ScopedPduData :=
  match l with
  | 0 :: l => plaintext <$> de_scoped (de l).1
  | _ :: l => Some (encryptedPDU (de l).1)
  | [] => None
  end.

Definition ser_message (m : SNMPv3Message) : list Z :=
  let h := msgGlobalData m in
  [msgVersion m; V3.msgID h; msgMaxSize h; msgSecurityModel h] ++ ser (msgFlags h) ++
  ser (msgSecurityParameters m) ++ ser_data (msgData m).
Definition de_message (l : list Z) : option SNMPv3Message :=
  match l with
  | v :: i :: s :: sm :: l =>
      let '(f, l) := de l in let '(e, l) := de l in
      mk_v3 v (mk_header i s f sm) e <$> de_data l
  | _ => None
  end.

Lemma de_ser_message m rest : de_message (ser_message m ++ rest) = Some m.
Proof.
  destruct m as [v [i s f sm] e d]. unfold ser_message, de_message.
  cbn [msgVersion msgGlobalData msgSecurityParameters msgData V3.msgID msgMaxSize msgFlags
    msgSecurityModel].
  rewrite <- !app_assoc. cbn [app]. rewrite (de_ser f), (de_ser e).
  destruct d as [sp|x]; unfold ser_data, de_data; rewrite <- app_comm_cons, de_ser; [|done].
  cbn [fst]. rewrite <- (app_nil_r (ser_scoped sp)), de_ser_scoped. done.
Qed.

(** Where the digest is: after everything else in the parameters. *)
Definition toy_pre (m : SNMPv3Message) (p : UsmSecurityParameters) (n : nat) : octets :=
  let h := msgGlobalData m in
  let head := ser (msgAuthoritativeEngineId p) ++
    [msgAuthoritativeEngineBoots p; msgAuthoritativeEngineTime p] ++
    ser (msgUserName p) ++ ser (msgPrivacyParameters p) in
  [msgVersion m; V3.msgID h; msgMaxSize h; msgSecurityModel h] ++ ser (msgFlags h) ++
  [Z.of_nat (length head + 1 + n)] ++ head ++ [Z.of_nat n].

Definition toy : codec :=
  mk_codec (λ s, Ok (ser_scoped s)) (λ l, Ok (de_scoped l))
    (λ p, Ok (ser_usm p)) (λ l, Ok (de_usm l))
    (λ m, Ok (ser_message m)) (λ l, Ok (de_message l))
    (λ d, Ok (match d with plaintext s => Some s | _ => None end))
    (λ d, Ok (match d with encryptedPDU e => Some e | _ => None end)).

Lemma toy_field m p n : digest_field toy m p n (toy_pre m p n) (ser_data (msgData m)).
Proof.
  intros d Hd. eexists. split; [done|]. unfold toy, encodeMessage. f_equal.
  destruct m as [v [i s f sm] e dt], p as [pe b t u d' q].
  unfold ser_message, ser_usm, with_params, with_digest, toy_pre.
  cbn [msgVersion msgGlobalData msgSecurityParameters msgData V3.msgID msgMaxSize msgFlags
    msgSecurityModel msgAuthoritativeEngineId msgAuthoritativeEngineBoots
    msgAuthoritativeEngineTime msgUserName msgAuthenticationParameters msgPrivacyParameters].
  cbv zeta. set (pre := ser pe ++ [b; t] ++ ser u ++ ser q).
  replace (ser pe ++ [b; t] ++ ser u ++ ser q ++ ser d) with (pre ++ ser d)
    by (unfold pre; by rewrite <- !app_assoc).
  rewrite <- !app_assoc. do 2 f_equal. unfold ser at 1. rewrite length_app.
  cbn [length ser app]. rewrite <- Hd, <- Nat.add_assoc, <- !app_assoc. done.
Qed.

#[global] Instance toy_laws : CodecLaws toy.
Proof.
  split; cbn [toy encodeScopedPDU decodeScopedPDU encodeUsm decodeUsm encodeMessage decodeMessage
    plaintextOf encryptedOf]; try done.
  - intros s e rest [= <-]. by rewrite de_ser_scoped.
  - intros p e rest [= <-]. by rewrite de_ser_usm.
  - intros m w rest [= <-]. by rewrite de_ser_message.
  - intros p m d0 e w _ _. eexists _, _. apply toy_field.
Qed.
End ToyCodec.
