(* ===== verification/SecModel.v ===== *)
(** * What the message processing models share
      (src/pysnmp/proto/mpmod/base.py, src/pysnmp/proto/secmod/base.py)

    [security_model] is the interface of src/pysnmp/proto/secmod/base.py, the
    calls a message processing model makes to the security model it picks:
    proofs about message processing hold for every security model, and the
    user-based and the community-based one are values of the record.
    [elements] is what a message processing model returns for an incoming
    message, and the world of the engine is the record [world]. *)
From S2P Require Export Errors MpCache.
#[local] Open Scope Z_scope.

Module Mp.

(** ** The security model's interface.  [S] is the state of the security
    subsystem, [Msg] the message of the SNMP version, [Par] what it gives as
    security parameters, [Sc] the scoped PDU. *)
Record security_model (S Msg Par Sc : Type) : Type := mk_security_model {
  (** [globalData], [maxMessageSize], [securityModel], [securityEngineId],
      [securityName], [securityLevel], [scopedPDU] *)
  sm_generateRequestMsg : Msg → Z → Z → option octets → octets → Z → Sc → M exn S (octets * octets);
  (** as above, and [securityStateReference] *)
  sm_generateResponseMsg :
    Msg → Z → Z → octets → option octets → Z → Sc → Z → M exn S (octets * octets);
  (** [maxMessageSize], [securityParameters], [securityModel], [securityLevel],
      [wholeMsg], [msg]; returns [securityEngineId], [securityName],
      [scopedPDU], [maxSizeResponseScopedPDU], [securityStateReference] *)
  sm_processIncomingMsg :
    Z → Par → Z → Z → octets → Msg → M exn S (octets * octets * Sc * Z * Z);
  sm_releaseStateInformation : Z → M exn S unit;
}.
Arguments mk_security_model {S Msg Par Sc}.
Arguments sm_generateRequestMsg {S Msg Par Sc}.
Arguments sm_generateResponseMsg {S Msg Par Sc}.
Arguments sm_processIncomingMsg {S Msg Par Sc}.
Arguments sm_releaseStateInformation {S Msg Par Sc}.

(** ** What [prepareDataElements] returns; [statusInformation] is always None *)
Record elements (P : Type) : Type := mk_elements {
  e_messageProcessingModel : Z;
  e_securityModel : Z;
  e_securityName : octets;
  e_securityLevel : Z;
  e_contextEngineId : octets;
  e_contextName : octets;
  e_pduVersion : Z;
  e_pdu : P;
  e_pduType : pdu_tag;
  e_sendPduHandle : option Z;
  e_maxSizeResponseScopedPDU : Z;
  e_stateReference : option Z;
}.
Arguments mk_elements {P}.
Arguments e_messageProcessingModel {P}.
Arguments e_securityModel {P}.
Arguments e_securityName {P}.
Arguments e_securityLevel {P}.
Arguments e_contextEngineId {P}.
Arguments e_contextName {P}.
Arguments e_pduVersion {P}.
Arguments e_pdu {P}.
Arguments e_pduType {P}.
Arguments e_sendPduHandle {P}.
Arguments e_maxSizeResponseScopedPDU {P}.
Arguments e_stateReference {P}.

(** ** The state a message processing model works on: its own, the security
    models', the counters of the MIB, and whatever else the engine has. *)
Record world (Mp S X : Type) : Type := mk_world {
  mp : Mp;
  sec : S;
  counters : dict oid value;
  env : X;
}.
Arguments mk_world {Mp S X}.
Arguments mp {Mp S X}.
Arguments sec {Mp S X}.
Arguments counters {Mp S X}.
Arguments env {Mp S X}.

Section world.
Context {Mp S X : Type}.
Abbreviation W := (M exn (world Mp S X)).

Definition put_mp (m : Mp) (w : world Mp S X) : world Mp S X :=
  mk_world m (sec w) (counters w) (env w).
Definition put_sec (s : S) (w : world Mp S X) : world Mp S X :=
  mk_world (mp w) s (counters w) (env w).

Definition on_mp {A} (m : M exn Mp A) : W A := zoom mp put_mp m.
Definition on_sec {A} (m : M exn S A) : W A := zoom sec put_sec m.

(** [counter.syntax += 1] *)
Definition counter (d : dict oid value) (n : oid) : value := default (VCounter32 0) (dget d n).
Definition count (n : oid) : W unit :=
  modify (λ w, mk_world (mp w) (sec w)
    (dset (counters w) n (default (counter (counters w) n) (wrapping_add (counter (counters w) n) 1)))
    (env w)).
End world.
End Mp.
