(* ===== verification/Usm.v ===== *)
(** * The user-based security model
      (src/pysnmp/proto/secmod/rfc3414/service.py)

    [generateRequestMsg], [generateResponseMsg] and [processIncomingMsg], with
    the user table they read, the clock of every peer engine and the timer that
    forgets it.  The codec, the hash functions and the ciphers are arguments, as
    are the clocks at the moment of the call and the engine's [writeVars], which
    creates the row of a cloned user.  [UsmModel] gives the model to message processing. *)
From S2P Require Export Priv Column TableIndex ReqCache V3Msg PduApi Vacm SecModel.
Import V3.
#[local] Open Scope Z_scope.

Module Usm.

(** ** The state *)

(** What is kept between a request and its response: the keywords of [push],
    each of which may be missing. *)
Record secdata : Type := mk_secdata {
  sd_msgUserName : octets;
  sd_usmUserSecurityName : option octets;
  sd_usmUserAuthProtocol : option oid;
  sd_usmUserAuthKeyLocalized : option (option octets);
  sd_usmUserPrivProtocol : option oid;
  sd_usmUserPrivKeyLocalized : option (option octets);
}.

(** The user table (SNMP-USER-BASED-SM-MIB, PYSNMP-USM-MIB) and the scalars. *)
Record LCD : Type := mk_lcd {
  snmpEngineID : octets;
  usmUserEntry : TableIndex.MibTableRow;
  usmUserEngineID : Column.column octets;
  usmUserName : Column.column octets;
  usmUserSecurityName : Column.column octets;
  usmUserCloneFrom : Column.column oid;
  usmUserAuthProtocol : Column.column oid;
  usmUserPrivProtocol : Column.column oid;
  pysnmpUsmKeyAuthLocalized : Column.column octets;
  pysnmpUsmKeyPrivLocalized : Column.column octets;
  pysnmpUsmKeyAuth : Column.column octets;
  pysnmpUsmKeyPriv : Column.column octets;
  counters : dict oid value;
  pysnmpUsmDiscoverable : Z;
  pysnmpUsmDiscovery : Z;
}.

(** [(snmpEngineBoots, snmpEngineTime, latestReceivedEngineTime, latestUpdateTimestamp)] *)
Abbreviation clock_entry := (Z * Z * Z * Z)%type.

(** [SnmpUSMSecurityModel]; [localInts] are the counters of its privacy
    services, [requestIds] the generator behind [setDefaults]. *)
Record Usm : Type := mk_usm_state {
  cache : ReqCache.Sec.Cache secdata;
  timeline : gmap octets clock_entry;
  timelineExpQueue : gmap Z (list octets);
  expirationTimer : Z;
  paramsBranchId : Z;
  securityToUserMap : dict (octets * octets) octets;
  localInts : dict oid Z;
  requestIds : NextId.Integer;
}.

Record state : Type := mk_state { usm : Usm; lcd : LCD }.
Abbreviation U := (M exn state).

Definition set_cache (c : ReqCache.Sec.Cache secdata) (u : Usm) : Usm :=
  mk_usm_state c (timeline u) (timelineExpQueue u) (expirationTimer u) (paramsBranchId u)
    (securityToUserMap u) (localInts u) (requestIds u).
Definition set_timeline (t : gmap octets clock_entry) (q : gmap Z (list octets)) (u : Usm) : Usm :=
  mk_usm_state (cache u) t q (expirationTimer u) (paramsBranchId u)
    (securityToUserMap u) (localInts u) (requestIds u).
Definition set_timer (n : Z) (u : Usm) : Usm :=
  mk_usm_state (cache u) (timeline u) (timelineExpQueue u) n (paramsBranchId u)
    (securityToUserMap u) (localInts u) (requestIds u).
Definition set_users (b : Z) (m : dict (octets * octets) octets) (u : Usm) : Usm :=
  mk_usm_state (cache u) (timeline u) (timelineExpQueue u) (expirationTimer u) b m
    (localInts u) (requestIds u).
Definition set_localInts (d : dict oid Z) (u : Usm) : Usm :=
  mk_usm_state (cache u) (timeline u) (timelineExpQueue u) (expirationTimer u) (paramsBranchId u)
    (securityToUserMap u) d (requestIds u).
Definition set_requestIds (g : NextId.Integer) (u : Usm) : Usm :=
  mk_usm_state (cache u) (timeline u) (timelineExpQueue u) (expirationTimer u) (paramsBranchId u)
    (securityToUserMap u) (localInts u) g.

Definition set_entry (r : TableIndex.MibTableRow) (l : LCD) : LCD :=
  mk_lcd (snmpEngineID l) r (usmUserEngineID l) (usmUserName l) (usmUserSecurityName l)
    (usmUserCloneFrom l) (usmUserAuthProtocol l) (usmUserPrivProtocol l)
    (pysnmpUsmKeyAuthLocalized l) (pysnmpUsmKeyPrivLocalized l) (pysnmpUsmKeyAuth l)
    (pysnmpUsmKeyPriv l) (counters l) (pysnmpUsmDiscoverable l) (pysnmpUsmDiscovery l).
Definition set_counters (d : dict oid value) (l : LCD) : LCD :=
  mk_lcd (snmpEngineID l) (usmUserEntry l) (usmUserEngineID l) (usmUserName l)
    (usmUserSecurityName l) (usmUserCloneFrom l) (usmUserAuthProtocol l) (usmUserPrivProtocol l)
    (pysnmpUsmKeyAuthLocalized l) (pysnmpUsmKeyPrivLocalized l) (pysnmpUsmKeyAuth l)
    (pysnmpUsmKeyPriv l) d (pysnmpUsmDiscoverable l) (pysnmpUsmDiscovery l).
(** The columns [__cloneUserInfo] writes. *)
Definition set_row (n s : Column.column octets) (c a p : Column.column oid)
    (ka kp : Column.column octets) (l : LCD) : LCD :=
  mk_lcd (snmpEngineID l) (usmUserEntry l) (usmUserEngineID l) n s c a p ka kp
    (pysnmpUsmKeyAuth l) (pysnmpUsmKeyPriv l) (counters l) (pysnmpUsmDiscoverable l)
    (pysnmpUsmDiscovery l).

Definition put_usm (f : Usm → Usm) (s : state) : state := mk_state (f (usm s)) (lcd s).
Definition put_lcd (f : LCD → LCD) (s : state) : state := mk_state (usm s) (f (lcd s)).

Definition on_cache {A} (m : M exn (ReqCache.Sec.Cache secdata) A) : U A :=
  zoom (λ s, cache (usm s)) (λ c, put_usm (set_cache c)) m.
Definition on_entry {A} (m : M exn TableIndex.MibTableRow A) : U A :=
  zoom (λ s, usmUserEntry (lcd s)) (λ r, put_lcd (set_entry r)) m.
Definition on_requestIds {A} (m : M exn NextId.Integer A) : U A :=
  zoom (λ s, requestIds (usm s)) (λ g, put_usm (set_requestIds g)) m.
Definition on_localInt {A} (id : oid) (m : M exn Z A) : U A :=
  zoom (λ s, default 0 (dget (localInts (usm s)) id))
    (λ n s, put_usm (set_localInts (dset (localInts (usm s)) id n)) s) m.

(** ** The statistics: [syntax += 1] on a Counter32 *)
Definition stat (n : Z) : oid := [1; 3; 6; 1; 6; 3; 15; 1; 1; n; 0].
Definition usmStatsUnsupportedSecLevels : oid := stat 1.
Definition usmStatsNotInTimeWindows : oid := stat 2.
Definition usmStatsUnknownUserNames : oid := stat 3.
Definition usmStatsUnknownEngineIDs : oid := stat 4.
Definition usmStatsWrongDigests : oid := stat 5.
Definition usmStatsDecryptionErrors : oid := stat 6.
Definition snmpInGenErrs : oid := [1; 3; 6; 1; 2; 1; 11; 5; 0].

Definition counter (d : dict oid value) (n : oid) : value := default (VCounter32 0) (dget d n).
Definition count (n : oid) : U unit :=
  modify (put_lcd (λ l, set_counters
    (dset (counters l) n
       (default (counter (counters l) n) (wrapping_add (counter (counters l) n) 1))) l)).

(** ** The user a message belongs to *)
Record user : Type := mk_user {
  u_name : octets;
  u_securityName : octets;
  u_authProtocol : oid;
  u_authKey : option octets;
  u_privProtocol : oid;
  u_privKey : option octets;
}.

(** The blank user of engine ID discovery. *)
Definition blank_user : user :=
  mk_user [] [] NoAuth.serviceID None NoPriv.serviceID None.

(** 3.1.1a: what was cached, with the defaults for what was not *)
Definition cached_user (d : secdata) : user :=
  mk_user (sd_msgUserName d) (default (sd_msgUserName d) (sd_usmUserSecurityName d))
    (default NoAuth.serviceID (sd_usmUserAuthProtocol d))
    (default None (sd_usmUserAuthKeyLocalized d))
    (default NoPriv.serviceID (sd_usmUserPrivProtocol d))
    (default None (sd_usmUserPrivKeyLocalized d)).

(** 3.2.11: the second [push] *)
Definition secdata_of (name : octets) (u : user) : secdata :=
  mk_secdata name (Some (u_securityName u)) (Some (u_authProtocol u)) (Some (u_authKey u))
    (Some (u_privProtocol u)) (Some (u_privKey u)).

(** [OctetString(hexValue="0000000000")] *)
Definition wildcardSecurityEngineId : octets := [0; 0; 0; 0; 0].

Definition is_NoSuchInstance (e : exn) : bool :=
  match e with MibError NoSuchInstanceError _ => true | _ => false end.
(** [raise NoSuchInstanceError], without details *)
Definition emulated_miss : exn := MibError NoSuchInstanceError (mk_details None None None).

(** One round of the loop of [__sec2usr]: the first security name wins. *)
Definition add_user (l : LCD) (name : oid) (m : dict (octets * octets) octets) :
    result exn (dict (octets * octets) octets) :=
  let instId := drop (length (Column.name (usmUserSecurityName l))) name in
  e ← Vacm.cell (usmUserEngineID l) instId;
  n ← Vacm.cell (usmUserName l) instId;
  s ← Vacm.cell (usmUserSecurityName l) instId;
  mret (if din m (e, s) then m else dset m (e, s) n).

Definition rebuild_users (l : LCD) : M exn Usm unit := fun u =>
  (if negb (paramsBranchId u =? Column.branchVersionId (usmUserEngineID l)) then
     modify (λ u, set_users (paramsBranchId u) [] u);;
     Column.for_each (usmUserEngineID l) (λ name _, λ u,
       match add_user l name (securityToUserMap u) with
       | Ok m => (Ok tt, set_users (paramsBranchId u) m u)
       | Err e => (Err e, u)
       end);;
     modify (λ u, set_users (Column.branchVersionId (usmUserEngineID l)) (securityToUserMap u) u)
   else mret tt) u.

(** [__sec2usr] *)
Definition sec2usr (securityName : octets) (securityEngineID : option octets) : U octets :=
  l ← gets lcd;
  zoom usm (λ u s, put_usm (λ _, u) s) (rebuild_users l);;
  m ← gets (λ s, securityToUserMap (usm s));
  let securityEngineID := default (snmpEngineID l) securityEngineID in
  match dget m (securityEngineID, securityName) with
  | None => raise emulated_miss
  | Some userName => mret userName
  end.

(** [usmUserEntry.getInstIdFromIndices(securityEngineID, userName)] *)
Definition user_row (securityEngineID userName : octets) : U oid :=
  on_entry (TableIndex.getInstIdFromIndices
    [TableIndex.IStr securityEngineID; TableIndex.IStr userName]).

(** [__getUserInfo] *)
Definition read_user (l : LCD) (tblIdx : oid) : result exn user :=
  n ← Vacm.cell (usmUserName l) tblIdx;
  s ← Vacm.cell (usmUserSecurityName l) tblIdx;
  a ← Vacm.cell (usmUserAuthProtocol l) tblIdx;
  p ← Vacm.cell (usmUserPrivProtocol l) tblIdx;
  ka ← Vacm.cell (pysnmpUsmKeyAuthLocalized l) tblIdx;
  kp ← Vacm.cell (pysnmpUsmKeyPrivLocalized l) tblIdx;
  mret (mk_user n s a (Some ka) p (Some kp)).

Definition getUserInfo (securityEngineID userName : octets) : U user :=
  tblIdx ← user_row securityEngineID userName;
  l ← gets lcd;
  liftR (read_user l tblIdx).

(** The node of a cell is there. *)
Definition has_cell {V} (col : Column.column V) (instId : oid) : result exn unit :=
  c ← Vacm.cell col instId; mret tt.

(** [col.getNode(col.name + instId).syntax = v]: the version stays. *)
Definition assign {V} (col : Column.column V) (instId : oid) (v : V) :
    result exn (Column.column V) :=
  c ← has_cell col instId;
  mret (Column.set_vars col (Indices.setitem (Column.name col ++ instId) v (Column.vars col))).

(** The constraint of the two columns of localized keys *)
Definition clone_key (k : octets) : result exn octets :=
  if (8 <=? length k)%nat && (length k <=? 64)%nat then Ok k else Err (PyAsn1Error "size").

(** [(msgAuthoritativeEngineId, securityName, scopedPDU, maxSizeResponseScopedPDU,
    securityStateReference)] *)
Abbreviation accepted := (octets * octets * scoped_pdu * Z * Z)%type.

Section model.
Context (H : hashlib) (B : cipherbackend) (c : codec).
(** [int(time.time())], and the engine's own boots and time *)
Context (now snmpEngineBoots snmpEngineTime : Z).
(** [getTimerResolution()] as a fraction; no transport dispatcher counts as 1 *)
Context (timerResolution : option (Z * Z)).

(** The localized key of a clone; [None] leaves the column as it was created. *)
Definition clone_localized (col : Column.column octets) (tblIdx : oid)
    (key : option octets) : result exn (Column.column octets) :=
  match key with
  | None => Ok col
  | Some k => k ← clone_key k; assign col tblIdx k
  end.

(** [__cloneUserInfo] up to the keys: names, reference and protocols *)
Definition clone_names (tblIdx1 tblIdx2 : oid) (l : LCD) : result exn LCD :=
  n ← Vacm.cell (usmUserName l) tblIdx1;
  cn ← assign (usmUserName l) tblIdx2 n;
  s ← Vacm.cell (usmUserSecurityName l) tblIdx1;
  cs ← assign (usmUserSecurityName l) tblIdx2 s;
  cc ← assign (usmUserCloneFrom l) tblIdx2 tblIdx1;
  a ← Vacm.cell (usmUserAuthProtocol l) tblIdx1;
  ca ← assign (usmUserAuthProtocol l) tblIdx2 a;
  p ← Vacm.cell (usmUserPrivProtocol l) tblIdx1;
  cp ← assign (usmUserPrivProtocol l) tblIdx2 p;
  mret (set_row cn cs cc ca cp (pysnmpUsmKeyAuthLocalized l) (pysnmpUsmKeyPrivLocalized l) l).

Definition set_authKey (col : Column.column octets) (l : LCD) : LCD :=
  set_row (usmUserName l) (usmUserSecurityName l) (usmUserCloneFrom l) (usmUserAuthProtocol l)
    (usmUserPrivProtocol l) col (pysnmpUsmKeyPrivLocalized l) l.
Definition set_privKey (col : Column.column octets) (l : LCD) : LCD :=
  set_row (usmUserName l) (usmUserSecurityName l) (usmUserCloneFrom l) (usmUserAuthProtocol l)
    (usmUserPrivProtocol l) (pysnmpUsmKeyAuthLocalized l) col l.

(** The localized authentication key, then the privacy key *)
Definition clone_authKey (securityEngineID : octets) (tblIdx1 tblIdx2 : oid) (l : LCD) :
    result exn LCD :=
  x ← has_cell (pysnmpUsmKeyAuthLocalized l) tblIdx2;
  a ← Vacm.cell (usmUserAuthProtocol l) tblIdx1;
  match dget (Auth.authServices H) a with
  | None => Err (StatusInfo unsupportedAuthProtocol)
  | Some s =>
      master ← Vacm.cell (pysnmpUsmKeyAuth l) tblIdx1;
      k ← a_localizeKey s master securityEngineID;
      col ← clone_localized (pysnmpUsmKeyAuthLocalized l) tblIdx2 k;
      mret (set_authKey col l)
  end.
Definition clone_privKey (securityEngineID : octets) (tblIdx1 tblIdx2 : oid) (l : LCD) :
    result exn LCD :=
  x ← has_cell (pysnmpUsmKeyPrivLocalized l) tblIdx2;
  a ← Vacm.cell (usmUserAuthProtocol l) tblIdx1;
  p ← Vacm.cell (usmUserPrivProtocol l) tblIdx1;
  match dget (Priv.privServices H B) p with
  | None => Err (StatusInfo unsupportedPrivProtocol)
  | Some s =>
      master ← Vacm.cell (pysnmpUsmKeyPriv l) tblIdx1;
      k ← p_localizeKey s a master securityEngineID;
      col ← clone_localized (pysnmpUsmKeyPrivLocalized l) tblIdx2 k;
      mret (set_privKey col l)
  end.

(** A step that replaces the tables, or raises and leaves them. *)
Definition update_lcd (f : LCD → result exn LCD) : U unit := fun s =>
  match f (lcd s) with
  | Ok l => (Ok tt, mk_state (usm s) l)
  | Err e => (Err e, s)
  end.

(** The cells of the prototype that are looked up before the row is made *)
Definition has_prototype (l : LCD) (tblIdx1 : oid) : result exn unit :=
  has_cell (usmUserName l) tblIdx1;; has_cell (usmUserSecurityName l) tblIdx1;;
  has_cell (usmUserCloneFrom l) tblIdx1;; has_cell (usmUserAuthProtocol l) tblIdx1;;
  has_cell (usmUserPrivProtocol l) tblIdx1;; has_cell (pysnmpUsmKeyAuth l) tblIdx1;;
  has_cell (pysnmpUsmKeyPriv l) tblIdx1.

(** What [__cloneUserInfo] returns: names and protocols of the prototype, the
    keys of the new row *)
Definition read_clone (l : LCD) (tblIdx1 tblIdx2 : oid) : result exn user :=
  n ← Vacm.cell (usmUserName l) tblIdx1;
  s ← Vacm.cell (usmUserSecurityName l) tblIdx1;
  a ← Vacm.cell (usmUserAuthProtocol l) tblIdx1;
  ka ← Vacm.cell (pysnmpUsmKeyAuthLocalized l) tblIdx2;
  p ← Vacm.cell (usmUserPrivProtocol l) tblIdx1;
  kp ← Vacm.cell (pysnmpUsmKeyPrivLocalized l) tblIdx2;
  mret (mk_user n s a (Some ka) p (Some kp)).

Section generate.
(** [writeVars] for the status column: creates the row of an instance ID. *)
Context (createRow : oid → M exn LCD unit).

(** [__cloneUserInfo] *)
Definition cloneUserInfo (securityEngineID userName : octets) : U user :=
  own ← gets (λ s, snmpEngineID (lcd s));
  tblIdx1 ← user_row own userName;
  l ← gets lcd;
  liftR (has_prototype l tblIdx1);;
  tblIdx2 ← user_row securityEngineID userName;
  zoom lcd (λ l s, mk_state (usm s) l) (createRow tblIdx2);;
  update_lcd (clone_names tblIdx1 tblIdx2);;
  update_lcd (clone_authKey securityEngineID tblIdx1 tblIdx2);;
  update_lcd (clone_privKey securityEngineID tblIdx1 tblIdx2);;
  l ← gets lcd;
  liftR (read_clone l tblIdx1 tblIdx2).

(** ** [__generateRequestOrResponseMsg] *)

(** 3.1.1b: the user of a security name at an engine, under the wildcard engine,
    or cloned from the user of this engine *)
Definition known_user (securityEngineID securityName : octets) : U user :=
  n ← sec2usr securityName (Some securityEngineID); getUserInfo securityEngineID n.
Definition clone_user (securityEngineID securityName : octets) : U user :=
  n ← sec2usr securityName None; cloneUserInfo securityEngineID n.
Definition lookup_user (securityEngineID securityName : octets) : U user :=
  try_except
    (try_except (known_user securityEngineID securityName)
       (λ e, if is_NoSuchInstance e
             then Some (known_user wildcardSecurityEngineId securityName) else None))
    (λ e, if is_NoSuchInstance e then
            Some (l ← gets lcd;
                  if pysnmpUsmDiscovery l =? 0 then raise (StatusInfo unknownSecurityName)
                  else try_except (clone_user securityEngineID securityName)
                         (λ e, if is_NoSuchInstance e
                               then Some (raise (StatusInfo unknownSecurityName)) else None))
          else if is_PyAsn1Error e then
            Some (count snmpInGenErrs;; raise (StatusInfo invalidMsg))
          else None).

(** What the security parameters are made of: the user, the authoritative
    engine, the level, and the message with the scoped PDU to go in it *)
Record outgoing : Type := mk_outgoing {
  o_user : user;
  o_securityEngineID : octets;
  o_securityLevel : Z;
  o_scopedPDU : scoped_pdu;
  o_msg : SNMPv3Message;
}.

(** 4: the probe that discovers an engine ID *)
Definition discovery (msg : SNMPv3Message) (scopedPDU : scoped_pdu) : U outgoing :=
  emptyPdu ← on_requestIds (PduApi.setDefaults (scopedData scopedPDU));
  mret (mk_outgoing blank_user [] 1 (mk_scoped [] (contextName scopedPDU) emptyPdu)
          (with_flags [4] msg)).

(** 3.1.1; an empty engine ID counts as none *)
Definition select (msg : SNMPv3Message) (securityEngineID : option octets)
    (securityName : octets) (securityLevel : Z) (scopedPDU : scoped_pdu)
    (securityStateReference : option Z) : U outgoing :=
  match securityStateReference with
  | Some ref =>
      d ← on_cache (ReqCache.Sec.pop ref);
      own ← gets (λ s, snmpEngineID (lcd s));
      mret (mk_outgoing (cached_user d) own securityLevel scopedPDU msg)
  | None =>
      match securityEngineID with
      | None | Some [] => discovery msg scopedPDU
      | Some e =>
          u ← lookup_user e securityName;
          mret (mk_outgoing u e securityLevel scopedPDU msg)
      end
  end.

Definition authenticated (securityLevel : Z) : bool :=
  (securityLevel =? 2) || (securityLevel =? 3).

(** 3.1.2 and 3.1.3 *)
Definition level_supported (securityLevel : Z) (u : user) : bool :=
  negb ((securityLevel =? 3) &&
        (bool_decide (u_authProtocol u = NoAuth.serviceID) ||
         bool_decide (u_privProtocol u = NoPriv.serviceID))) &&
  negb (authenticated securityLevel && bool_decide (u_authProtocol u = NoAuth.serviceID)).

(** 3.1.6: the boots and time of the authoritative engine *)
Definition engine_clock (t : gmap octets clock_entry) (o : outgoing) : Z * Z :=
  if authenticated (o_securityLevel o) then
    if unconfirmedClassPDUs (pduType (scopedData (o_scopedPDU o)))
    then (snmpEngineBoots, snmpEngineTime)
    else match t !! o_securityEngineID o with
         | Some (boots, time, _, _) => (boots, time)
         | None => (0, 0)
         end
  else (0, 0).

(** [_run_or_raise_serialization_error] *)
Definition run_or_raise {A} (r : result exn A) : result exn A :=
  match r with
  | Err e => if is_PyAsn1Error e then Err (StatusInfo serializationError) else Err e
  | Ok _ => r
  end.

(** A key goes to the service only of a user that has one. *)
Definition with_key {A} (key : option octets) (proto none : oid) (f : octets → A) (e : exn → A) : A :=
  match key with
  | Some k => f k
  | None => if decide (proto = none) then f [] else e AttributeError
  end.

(** 3.1.4: the data of the message and the privacy parameters *)
Definition protect (o : outgoing) (boots time : Z) : U (ScopedPduData * octets) :=
  let u := o_user o in
  if o_securityLevel o =? 3 then
    match dget (Priv.privServices H B) (u_privProtocol u) with
    | None => raise (StatusInfo encryptionError)
    | Some s =>
        dataToEncrypt ← liftR (run_or_raise (encodeScopedPDU c (o_scopedPDU o)));
        r ← on_localInt (u_privProtocol u)
              (with_key (u_privKey u) (u_privProtocol u) NoPriv.serviceID
                 (λ k, p_encryptData s k (boots, time, None) dataToEncrypt) raise);
        mret (encryptedPDU r.1, r.2)
    end
  else mret (plaintext (o_scopedPDU o), []).

(** 3.1.8: the message, with its digest when it has one *)
Definition seal (o : outgoing) (msg : SNMPv3Message) (p : UsmSecurityParameters) :
    result exn (octets * octets) :=
  let u := o_user o in
  if authenticated (o_securityLevel o) then
    match dget (Auth.authServices H) (u_authProtocol u) with
    | None => Err (StatusInfo authenticationFailure)
    | Some s =>
        n ← a_digestLength s;
        e ← run_or_raise (encodeUsm c (with_digest (zeros n) p));
        wholeMsg ← run_or_raise (encodeMessage c (with_params e msg));
        w ← with_key (u_authKey u) (u_authProtocol u) NoAuth.serviceID
              (λ k, a_authenticateOutgoingMsg s k wholeMsg) Err;
        mret (e, w)
    end
  else
    e ← run_or_raise (encodeUsm c (with_digest [] p));
    w ← run_or_raise (encodeMessage c (with_params e msg));
    mret (e, w).

(** Up to 3.1.7: the message and the parameters that go into it.  A security
    level other than 1, 2 and 3 does not get here: [_assemble_msg_header] refuses
    it. *)
Definition prepare (globalData : SNMPv3Message) (securityEngineID : option octets)
    (securityName : octets) (securityLevel : Z) (scopedPDU : scoped_pdu)
    (securityStateReference : option Z) : U (outgoing * SNMPv3Message * UsmSecurityParameters) :=
  o ← select globalData securityEngineID securityName securityLevel scopedPDU
        securityStateReference;
  if negb (level_supported (o_securityLevel o) (o_user o))
  then raise (StatusInfo unsupportedSecurityLevel)
  else
    t ← gets (λ s, timeline (usm s));
    let '(boots, time) := engine_clock t o in
    d ← protect o boots time;
    mret (o, with_data d.1 (o_msg o),
          mk_usm (o_securityEngineID o) boots time (u_name (o_user o)) [] d.2).

Definition generateRequestOrResponseMsg (globalData : SNMPv3Message)
    (securityEngineID : option octets) (securityName : octets) (securityLevel : Z)
    (scopedPDU : scoped_pdu) (securityStateReference : option Z) : U (octets * octets) :=
  r ← prepare globalData securityEngineID securityName securityLevel scopedPDU
        securityStateReference;
  liftR (seal r.1.1 r.1.2 r.2).

Definition generateRequestMsg (globalData : SNMPv3Message) (securityEngineID : option octets)
    (securityName : octets) (securityLevel : Z) (scopedPDU : scoped_pdu) : U (octets * octets) :=
  generateRequestOrResponseMsg globalData securityEngineID securityName securityLevel scopedPDU None.
Definition generateResponseMsg (globalData : SNMPv3Message) (securityEngineID : option octets)
    (securityName : octets) (securityLevel : Z) (scopedPDU : scoped_pdu)
    (securityStateReference : Z) : U (octets * octets) :=
  generateRequestOrResponseMsg globalData securityEngineID securityName securityLevel scopedPDU
    (Some securityStateReference).

End generate.

(** ** [processIncomingMsg] *)

(** What the reports of a message share *)
Record incoming : Type := mk_incoming {
  i_params : UsmSecurityParameters;
  i_securityLevel : Z;
  i_reference : Z;
  i_maxSize : Z;
  i_own : octets;
}.

Definition usm_status (i : incoming) (e : errind) (n : oid) (v : value) (level : Z)
    (user : option octets) : status :=
  mk_status (Some e) (Some n) (Some v) (Some (i_reference i)) (Some level) (Some (i_own i))
    (Some []) user (Some (i_maxSize i)) None None None None None None.

(** [usmStats... += 1], then [_raise_usm_error] *)
Definition report {A} (i : incoming) (e : errind) (n : oid) (level : Z) : U A :=
  count n;;
  v ← gets (λ s, counter (counters (lcd s)) n);
  raise (StatusInformation (usm_status i e n v level (Some (msgUserName (i_params i))))).

(** 3.2.3 *)
Definition check_engine (i : incoming) (data : ScopedPduData) : U unit :=
  t ← gets (λ s, timeline (usm s));
  let e := msgAuthoritativeEngineId (i_params i) in
  if negb (bool_decide (e = i_own i)) && negb (bool_decide (is_Some (t !! e))) then
    if (4 <? length e)%nat && (length e <? 33)%nat then mret tt
    else
      count usmStatsUnknownEngineIDs;;
      l ← gets lcd;
      if negb (pysnmpUsmDiscoverable l =? 0) then
        match data with
        | encryptedPDU _ => raise (StatusInfo unknownEngineID)
        | plaintext sp =>
            raise (StatusInformation
              (mk_status (Some unknownEngineID) (Some usmStatsUnknownEngineIDs)
                 (Some (counter (counters l) usmStatsUnknownEngineIDs))
                 (Some (i_reference i)) (Some (i_securityLevel i)) (Some (contextEngineId sp))
                 (Some (contextName sp)) None (Some (i_maxSize i)) (Some sp)
                 None None None None None))
        end
      else raise (StatusInfo unknownEngineID)
  else mret tt.

(** 3.2.4 *)
Definition find_user (i : incoming) : U user :=
  let e := msgAuthoritativeEngineId (i_params i) in
  match msgUserName (i_params i) with
  | [] => mret blank_user
  | n =>
      try_except (getUserInfo e n)
        (λ ex, if is_NoSuchInstance ex then
                 Some (try_except (getUserInfo wildcardSecurityEngineId n)
                         (λ ex, if is_NoSuchInstance ex
                                then Some (report i unknownSecurityName usmStatsUnknownUserNames
                                             (i_securityLevel i))
                                else None))
               else if is_PyAsn1Error ex then
                 Some (count snmpInGenErrs;; raise (StatusInfo invalidMsg))
               else None)
  end.

(** 3.2.5: a level the user is not configured for, at the authoritative engine *)
Definition bad_level (level : Z) (u : user) (p : UsmSecurityParameters) : bool :=
  let noauth := bool_decide (u_authProtocol u = NoAuth.serviceID) in
  let nopriv := bool_decide (u_privProtocol u = NoPriv.serviceID) in
  if level =? 3 then noauth || nopriv
  else if level =? 2 then
    noauth || (negb nopriv && (negb (msgAuthoritativeEngineBoots p =? 0) ||
                               negb (msgAuthoritativeEngineTime p =? 0)))
  else if level =? 1 then negb noauth || negb nopriv
  else false.
Definition check_level (i : incoming) (u : user) : U unit :=
  if bool_decide (msgAuthoritativeEngineId (i_params i) = i_own i) &&
     bad_level (i_securityLevel i) u (i_params i)
  then report i unsupportedSecurityLevel usmStatsUnsupportedSecLevels (i_securityLevel i)
  else mret tt.

(** [int(self.__expirationTimer + 300 / timerResolution)] *)
Definition expireAt (timer : Z) : Z :=
  let '(num, den) := default (1, 1) timerResolution in timer + (300 * den) / num.

(** The clock of a peer is stored, and queued to be forgotten. *)
Definition sync (e : octets) (boots time : Z) : U unit :=
  modify (put_usm (λ u,
    let t := expireAt (expirationTimer u) in
    set_timeline (<[e := (boots, time, time, now)]> (timeline u))
      (<[t := default [] (timelineExpQueue u !! t) ++ [e]]> (timelineExpQueue u)) u)).

(** 3.2.6 *)
Definition authenticate (i : incoming) (u : user) (wholeMsg : octets) : U unit :=
  let p := i_params i in
  if authenticated (i_securityLevel i) then
    match dget (Auth.authServices H) (u_authProtocol u) with
    | None => raise (StatusInfo authenticationFailure)
    | Some s =>
        try_except
          (m ← liftR (with_key (u_authKey u) (u_authProtocol u) NoAuth.serviceID
              (λ k, a_authenticateIncomingMsg s k (msgAuthenticationParameters p) wholeMsg) Err);
           mret tt)
          (λ e, if is_StatusInformation e
                then Some (report i authenticationFailure usmStatsWrongDigests (i_securityLevel i))
                else None);;
        sync (msgAuthoritativeEngineId p) (msgAuthoritativeEngineBoots p)
          (msgAuthoritativeEngineTime p)
    end
  else mret tt.

(** 3.2.7a, at the authoritative engine *)
Definition check_own_time (i : incoming) : U unit :=
  let p := i_params i in
  if (snmpEngineBoots =? 2147483647) ||
     negb (snmpEngineBoots =? msgAuthoritativeEngineBoots p) ||
     (150 <? Z.abs (snmpEngineTime - msgAuthoritativeEngineTime p))
  then report i notInTimeWindow usmStatsNotInTimeWindows 2
  else mret tt.

(** 3.2.7b, elsewhere: against what is known of the authoritative engine *)
Definition check_peer_time (i : incoming) : U unit :=
  let p := i_params i in
  let e := msgAuthoritativeEngineId p in
  let b := msgAuthoritativeEngineBoots p in
  let tm := msgAuthoritativeEngineTime p in
  t ← gets (λ s, timeline (usm s));
  match t !! e with
  | None => raise (ProtocolError "Peer SNMP engine info missing")
  | Some (boots, time, latestReceivedEngineTime, latestUpdateTimestamp) =>
      let idleTime := now - latestUpdateTimestamp in
      (if (boots <? b) || ((b =? boots) && (latestReceivedEngineTime <? tm))
       then sync e b tm else mret tt);;
      if (boots =? 2147483647) || (b <? boots) ||
         ((b =? boots) && (150 <? Z.abs (idleTime + time - tm)))
      then raise (StatusInformation (status_msgUserName (msgUserName p) (status_of notInTimeWindow)))
      else mret tt
  end.

(** 3.2.7 *)
Definition check_time (i : incoming) : U unit :=
  if authenticated (i_securityLevel i) then
    if bool_decide (msgAuthoritativeEngineId (i_params i) = i_own i)
    then check_own_time i else check_peer_time i
  else mret tt.

(** 3.2.8: the scoped PDU *)
Definition decryption_error (i : incoming) : exn :=
  StatusInformation (status_msgUserName (msgUserName (i_params i)) (status_of decryptionError)).

Definition decode_scoped (i : incoming) (decryptedData : octets) : result exn scoped_pdu :=
  match decodeScopedPDU c decryptedData with
  | Ok (Some sp) => Ok sp
  | Ok None => Err (decryption_error i)
  | Err e => if is_PyAsn1Error e then Err (decryption_error i) else Err e
  end.

Definition decrypt (i : incoming) (u : user) (data : ScopedPduData) : U scoped_pdu :=
  let p := i_params i in
  if i_securityLevel i =? 3 then
    match dget (Priv.privServices H B) (u_privProtocol u) with
    | None => raise (decryption_error i)
    | Some s =>
        encryptedPDU ← liftR (encryptedOf c data);
        match encryptedPDU with
        | None => raise (decryption_error i)
        | Some e =>
            decryptedData ← try_except
              (liftR (with_key (u_privKey u) (u_privProtocol u) NoPriv.serviceID
                 (λ k, p_decryptData s k (msgAuthoritativeEngineBoots p,
                    msgAuthoritativeEngineTime p, Some (msgPrivacyParameters p)) e) Err))
              (λ ex, if is_StatusInformation ex
                     then Some (report i decryptionError usmStatsDecryptionErrors
                                  (i_securityLevel i))
                     else None);
            liftR (decode_scoped i decryptedData)
        end
    end
  else
    sp ← liftR (plaintextOf c data);
    match sp with
    | None => raise (decryption_error i)
    | Some sp => mret sp
    end.

(** 3.2.10: a message without user and engine is reported only now. *)
Definition check_discovery (i : incoming) (sp : scoped_pdu) : U unit :=
  match msgUserName (i_params i), msgAuthoritativeEngineId (i_params i) with
  | [], [] =>
      count usmStatsUnknownUserNames;;
      v ← gets (λ s, counter (counters (lcd s)) usmStatsUnknownUserNames);
      raise (StatusInformation
        (mk_status (Some unknownSecurityName) (Some usmStatsUnknownUserNames) (Some v)
           (Some (i_reference i)) (Some (i_securityLevel i)) (Some (i_own i)) (Some [])
           (Some []) (Some (i_maxSize i)) None None None None (Some []) (Some sp)))
  | _, _ => mret tt
  end.

(** 3.2.5 to 3.2.12 *)
Definition verify (i : incoming) (u : user) (wholeMsg : octets) (data : ScopedPduData) : U accepted :=
  check_level i u;;
  authenticate i u wholeMsg;;
  check_time i;;
  sp ← decrypt i u data;
  check_discovery i sp;;
  mret (msgAuthoritativeEngineId (i_params i), u_securityName u, sp, i_maxSize i, i_reference i).

Definition processIncomingMsg (maxMessageSize : Z) (securityParameters : octets)
    (securityLevel : Z) (wholeMsg : octets) (msg : SNMPv3Message) : U accepted :=
  let maxSize := maxMessageSize - Z.of_nat (length securityParameters) - 48 in
  p ← liftR (decodeUsm c securityParameters);
  match p with
  | None => raise (StatusInfo parseError)
  | Some p =>
      ref ← on_cache (ReqCache.Sec.push (mk_secdata (msgUserName p) None None None None None));
      own ← gets (λ s, snmpEngineID (lcd s));
      let i := mk_incoming p securityLevel ref maxSize own in
      check_engine i (msgData msg);;
      u ← find_user i;
      on_cache (ReqCache.Sec.pop ref);;
      ref ← on_cache (ReqCache.Sec.push (secdata_of (msgUserName p) u));
      verify (mk_incoming p securityLevel ref maxSize own) u wholeMsg (msgData msg)
  end.

(** ** The timer *)

(** [__expireTimelineInfo] *)
Definition expireTimelineInfo (u : Usm) : Usm :=
  let u' := match timelineExpQueue u !! expirationTimer u with
            | Some es => set_timeline (foldl (λ t e, delete e t) (timeline u) es)
                           (delete (expirationTimer u) (timelineExpQueue u)) u
            | None => u
            end in
  set_timer (expirationTimer u' + 1) u'.

(** [receiveTimerTick] *)
Definition receiveTimerTick : U unit := modify (put_usm expireTimelineInfo).

(** [AbstractSecurityModel.releaseStateInformation] (secmod/base.py) *)
Definition releaseStateInformation (ref : Z) : U unit :=
  on_cache (ReqCache.Sec.pop ref);; mret tt.

End model.

(** ** Engines for the witnesses: user [u] with keys for MD5 and DES is known under
    the engine ID [demo_authority] *)
Definition demo_authority : octets := [128; 0; 0; 0; 1].
Definition demo_manager : octets := [128; 0; 0; 0; 2].
Definition demo_key16 : octets := seqZ 1 16.

Definition size_index (lo hi : nat) : TableIndex.index :=
  TableIndex.mk_index false (TableIndex.SOctetString None)
    (λ v, match v with TableIndex.IStr s => (lo <=? length s)%nat && (length s <=? hi)%nat
          | _ => false end).

Definition demo_row {V} (n : Z) (d v : V) : Column.column V :=
  Vacm.demo_col [1; 3; 6; 1; 6; 3; 15; 1; 2; 2; 1; n] d [([5; 128; 0; 0; 0; 1; 1; 117], v)].

Definition demo_lcd (own : octets) : LCD :=
  mk_lcd own (TableIndex.init [size_index 5 32; size_index 1 32])
    (demo_row 1 [] demo_authority) (demo_row 2 [] [117]) (demo_row 3 [] [117])
    (demo_row 4 [] [0; 0]) (demo_row 5 NoAuth.serviceID HmacMd5.serviceID)
    (demo_row 8 NoPriv.serviceID Des.serviceID)
    (demo_row 21 [] demo_key16) (demo_row 22 [] demo_key16)
    (demo_row 23 [] demo_key16) (demo_row 24 [] demo_key16) [] 1 1.

Definition demo_ids : NextId.Integer := NextId.mk_Integer 16777215 256 128 (NextId.range 0 256).

Definition demo_engine (own : octets) (t : gmap octets clock_entry) : state :=
  mk_state
    (mk_usm_state (ReqCache.Sec.mk_Cache demo_ids ∅) t ∅ 0 (-1) [] [] demo_ids)
    (demo_lcd own).

Definition demo_pdu : pdu := mk_pdu GetRequestPDU 42 0 0 [([1; 3; 6; 1], VNull)].
Definition demo_scoped : scoped_pdu := mk_scoped demo_authority [] demo_pdu.
Definition demo_header (flags : octets) : SNMPv3Message :=
  mk_v3 3 (mk_header 77 65507 flags 3) [] (encryptedPDU []).

(** The manager knows that the authority has boots 4 and time 1000. *)
Definition demo_sender : state := demo_engine demo_manager {[ demo_authority := (4, 1000, 1000, 500) ]}.

Definition demo_prepared : result exn (outgoing * SNMPv3Message * UsmSecurityParameters) * state :=
  prepare LocalKey.toy_hashlib Priv.toy_backend ToyCodec.toy 1 50 (λ _, raise KeyError) (demo_header [7])
    (Some demo_authority) [117] 3 demo_scoped None demo_sender.
Definition demo_sealed : result exn (octets * octets) :=
  match demo_prepared.1 with
  | Ok (o, m, p) => seal LocalKey.toy_hashlib ToyCodec.toy o m p
  | Err e => Err e
  end.
Definition demo_wire : octets := match demo_sealed with Ok (_, w) => w | Err _ => [] end.
Definition demo_message : SNMPv3Message :=
  match decodeMessage ToyCodec.toy demo_wire with Ok (Some m) => m | _ => demo_header [] end.

Definition demo_process (now boots time : Z) (s : state) : result exn accepted * state :=
  processIncomingMsg LocalKey.toy_hashlib Priv.toy_backend ToyCodec.toy now boots time (Some (1, 2)) 65507
    (msgSecurityParameters demo_message) 3 demo_wire demo_message s.
End Usm.

(** * The user-based model as a security model

    [usm_model] is the user-based model as a value of the interface the message
    processing models call, with the clocks at the moment of the call;
    [demo_models] is the table of an engine that has this model only. *)
Import Mp.

Module UsmModel.

(** [SnmpUSMSecurityModel] under [securityModelID] 3; what a call does not read of
    its arguments does not reach the definitions of [Usm]. *)
Definition usm_model (H : hashlib) (B : cipherbackend) (c : codec)
    (now snmpEngineBoots snmpEngineTime : Z) (timerResolution : option (Z * Z))
    (createRow : oid → M exn Usm.LCD unit) :
    security_model Usm.state SNMPv3Message octets scoped_pdu :=
  mk_security_model
    (λ globalData _ _ e name level scopedPDU,
       Usm.generateRequestMsg H B c snmpEngineBoots snmpEngineTime createRow globalData e name
         level scopedPDU)
    (λ globalData _ _ _ name level scopedPDU ref,
       Usm.generateResponseMsg H B c snmpEngineBoots snmpEngineTime createRow globalData None
         (default [] name) level scopedPDU ref)
    (λ maxMessageSize params _ level wholeMsg msg,
       Usm.processIncomingMsg H B c now snmpEngineBoots snmpEngineTime timerResolution
         maxMessageSize params level wholeMsg msg)
    Usm.releaseStateInformation.

Definition securityModelID : Z := 3.

Definition demo_models (now boots time : Z) (model : Z) :
    option (security_model Usm.state SNMPv3Message octets scoped_pdu) :=
  if model =? securityModelID
  then Some (usm_model LocalKey.toy_hashlib Priv.toy_backend ToyCodec.toy now boots time
               (Some (1, 2)) (λ _, raise KeyError))
  else None.
End UsmModel.
