(* ===== verification/UsmSpec.v ===== *)
(** * What the user-based security model accepts, and what it sends

    [accepts] states without state passing what an incoming message must satisfy;
    [process_spec] shows [processIncomingMsg] implements it.  The properties are
    about authenticity, replay, the round trip between two engines, and reports. *)
From S2P Require Export Usm.
Import V3 Usm.
#[local] Open Scope Z_scope.

Module UsmSpec.
Section model.
Context (H : hashlib) (B : cipherbackend) (c : codec).
Context (now snmpEngineBoots snmpEngineTime : Z) (timerResolution : option (Z * Z)).

(** The operations at the clocks of the call *)
#[local] Abbreviation sync := (Usm.sync now timerResolution).
#[local] Abbreviation authenticate := (Usm.authenticate H now timerResolution).
#[local] Abbreviation check_own_time := (Usm.check_own_time snmpEngineBoots snmpEngineTime).
#[local] Abbreviation check_peer_time := (Usm.check_peer_time now timerResolution).
#[local] Abbreviation check_time := (Usm.check_time now snmpEngineBoots snmpEngineTime timerResolution).
#[local] Abbreviation decode_scoped := (Usm.decode_scoped c).
#[local] Abbreviation decrypt := (Usm.decrypt H B c).
#[local] Abbreviation verify := (Usm.verify H B c now snmpEngineBoots snmpEngineTime timerResolution).
#[local] Abbreviation processIncomingMsg :=
  (Usm.processIncomingMsg H B c now snmpEngineBoots snmpEngineTime timerResolution).
(** ** What a message must satisfy, without the state *)

(** The row of a user, without the cache of the table's index *)
Definition lcd_user (l : LCD) (securityEngineID userName : octets) : result exn user :=
  tblIdx ← TableIndex.encode (TableIndex.indexNames (usmUserEntry l))
             [TableIndex.IStr securityEngineID; TableIndex.IStr userName];
  read_user l tblIdx.

(** Under the engine of the message or else under the wildcard; no name, no user *)
Definition user_of (l : LCD) (p : UsmSecurityParameters) : result exn user :=
  match msgUserName p with
  | [] => Ok blank_user
  | n => match lcd_user l (msgAuthoritativeEngineId p) n with
         | Err e => if is_NoSuchInstance e then lcd_user l wildcardSecurityEngineId n else Err e
         | r => r
         end
  end.

Definition engine_ok (own : octets) (t : gmap octets clock_entry) (e : octets) : Prop :=
  e = own ∨ is_Some (t !! e) ∨ (4 < length e < 33)%nat.

Definition digest_ok (level : Z) (u : user) (p : UsmSecurityParameters) (wholeMsg : octets) : Prop :=
  authenticated level = true → ∃ s m, dget (Auth.authServices H) (u_authProtocol u) = Some s ∧
    with_key (u_authKey u) (u_authProtocol u) NoAuth.serviceID
      (λ k, a_authenticateIncomingMsg s k (msgAuthenticationParameters p) wholeMsg) Err = Ok m.

(** At the authoritative engine the time window; elsewhere only that the boots
    counter of the message has not reached its maximum. *)
Definition time_ok (level : Z) (own : octets) (p : UsmSecurityParameters) : Prop :=
  authenticated level = true →
  (msgAuthoritativeEngineId p = own →
     snmpEngineBoots ≠ 2147483647 ∧ msgAuthoritativeEngineBoots p = snmpEngineBoots ∧
     Z.abs (snmpEngineTime - msgAuthoritativeEngineTime p) <= 150) ∧
  (msgAuthoritativeEngineId p ≠ own → msgAuthoritativeEngineBoots p ≠ 2147483647).

(** What the data of the message decrypts to *)
Definition opened (level : Z) (u : user) (p : UsmSecurityParameters) (data : ScopedPduData)
    (sp : scoped_pdu) : Prop :=
  if level =? 3 then
    ∃ s e d, dget (Priv.privServices H B) (u_privProtocol u) = Some s ∧
      encryptedOf c data = Ok (Some e) ∧
      with_key (u_privKey u) (u_privProtocol u) NoPriv.serviceID
        (λ k, p_decryptData s k (msgAuthoritativeEngineBoots p, msgAuthoritativeEngineTime p,
                                 Some (msgPrivacyParameters p)) e) Err = Ok d ∧
      decodeScopedPDU c d = Ok (Some sp)
  else plaintextOf c data = Ok (Some sp).

Record accepts (s : state) (level : Z) (wholeMsg : octets) (data : ScopedPduData)
    (p : UsmSecurityParameters) (u : user) (sp : scoped_pdu) : Prop := {
  ac_engine : engine_ok (snmpEngineID (lcd s)) (timeline (usm s)) (msgAuthoritativeEngineId p);
  ac_user : user_of (lcd s) p = Ok u;
  ac_level : msgAuthoritativeEngineId p = snmpEngineID (lcd s) → bad_level level u p = false;
  ac_digest : digest_ok level u p wholeMsg;
  ac_time : time_ok level (snmpEngineID (lcd s)) p;
  ac_opened : opened level u p data sp;
  ac_named : msgUserName p = [] → msgAuthoritativeEngineId p ≠ [];
}.

(** ** Well-formed states, and what the message path leaves alone *)
Record ok (s : state) : Prop := {
  ok_rows : TableIndex.cached_ok (usmUserEntry (lcd s));
  ok_ids : NextId.wf (ReqCache.Sec.stateReference (cache (usm s)));
}.

(** The tables without their index cache and the statistics *)
Definition core (l : LCD) : LCD :=
  set_counters [] (set_entry (TableIndex.init (TableIndex.indexNames (usmUserEntry l))) l).

Definition frame (s s' : state) : Prop :=
  ok s' ∧ core (lcd s') = core (lcd s) ∧ cache (usm s') = cache (usm s).

(** [m] ends well, and returns [a] exactly when [Q a]. *)
Definition steps {A} (m : U A) (s : state) (Q : A → Prop) : Prop :=
  ∃ r s', m s = (r, s') ∧ frame s s' ∧ ∀ a, r = Ok a ↔ Q a.

(** ** Helper lemmas *)
Lemma frame_trans s1 s2 s3 : frame s1 s2 → frame s2 s3 → frame s1 s3.
Proof. intros (_ & E1 & K1) (? & E2 & K2). split_and!; [done|congruence..]. Qed.

Lemma steps_ret {A} (a : A) s : ok s → steps (mret a) s (λ b, b = a).
Proof. intros Hs. exists (Ok a), s. split_and!; [done|done|]. naive_solver. Qed.

Lemma steps_raise {A} e s : ok s → steps (A := A) (raise e) s (λ _, False).
Proof. intros Hs. exists (Err e), s. split_and!; [done|done|]. naive_solver. Qed.

Lemma steps_liftR {A} (r : result exn A) s : ok s → steps (liftR r) s (λ a, r = Ok a).
Proof. intros Hs. by exists r, s. Qed.

Lemma steps_bind {A B'} (m : U A) (k : A → U B') s (Q : A → Prop) (R : A → B' → Prop) :
  steps m s Q → (∀ a s', m s = (Ok a, s') → frame s s' → Q a → steps (k a) s' (R a)) →
  steps (m ≫= k) s (λ b, ∃ a, Q a ∧ R a b).
Proof.
  intros (r & s1 & Hm & Hf & HQ) Hk. unfold steps, mbind, M_bind. rewrite Hm.
  destruct r as [a|e].
  - destruct (Hk a s1 Hm Hf (proj1 (HQ a) eq_refl)) as (r & s2 & Hk2 & Hf2 & HR).
    exists r, s2. split_and!; [done|by eapply frame_trans|]. intros b. rewrite HR.
    split; [intros; exists a; split; [by apply HQ|done]|].
    intros (a' & Ha' & Hb). apply HQ in Ha'. by simplify_eq.
  - exists (Err e), s1. split_and!; [done|done|]. intros b. split; [done|].
    intros (a' & Ha' & _). by apply HQ in Ha'.
Qed.

Lemma steps_iff {A} (m : U A) s (Q R : A → Prop) :
  steps m s Q → (∀ a, Q a ↔ R a) → steps m s R.
Proof. intros (r & s' & Hm & Hf & HQ) HR. exists r, s'. split_and!; try done. intros. by rewrite HQ. Qed.

(** A handler that always raises again changes nothing about what is returned. *)
Lemma steps_try {A} (m : U A) (h : exn → option (U A)) s Q :
  steps m s Q →
  (∀ e k s', h e = Some k → ok s' → steps k s' (λ _, False)) →
  steps (try_except m h) s Q.
Proof.
  intros (r & s1 & Hm & Hf & HQ) Hh. unfold steps, try_except. rewrite Hm.
  destruct r as [a|e]; [by exists (Ok a), s1|]. destruct (h e) as [k|] eqn:He.
  - destruct (Hh e k s1 He (proj1 Hf)) as (r & s2 & Hk & Hf2 & HR). exists r, s2.
    split_and!; [done|by eapply frame_trans|]. intros a. rewrite HR, <- HQ. by split.
  - by exists (Err e), s1.
Qed.

Lemma steps_modify f s : frame s (f s) → steps (modify f) s (λ _, True).
Proof. intros Hf. exists (Ok tt), (f s). split_and!; [done|done|]. by intros []. Qed.

Lemma steps_gets {A B'} (f : state → A) (k : A → U B') s Q :
  steps (k (f s)) s Q → steps (gets f ≫= k) s Q.
Proof. done. Qed.

Lemma count_steps n s : ok s → steps (count n) s (λ _, True).
Proof. intros [? ?]. by apply steps_modify. Qed.

(** Whatever follows, a report ends in an exception. *)
Lemma report_steps {A} i e n level s : ok s → steps (A := A) (report i e n level) s (λ _, False).
Proof.
  intros Hs. unfold report. eapply (steps_iff _ _ (λ _, ∃ a : unit, True ∧ False)); [|naive_solver].
  eapply (steps_bind _ _ _ (λ _, True) (λ _ _, False)); [by apply count_steps|].
  intros _ s1 _ [H1 _] _. apply steps_gets. by apply steps_raise.
Qed.

Lemma push_steps d s : ok s → ∃ ref s', on_cache (ReqCache.Sec.push d) s = (Ok ref, s') ∧
  ok s' ∧ lcd s' = lcd s ∧ timeline (usm s') = timeline (usm s) ∧
  ReqCache.Sec.cacheEntries (cache (usm s')) = <[ref := d]> (ReqCache.Sec.cacheEntries (cache (usm s))).
Proof.
  intros [H1 H2]. destruct (NextId.wf_supply _ H2) as (v & rest & Hb & _).
  destruct (NextId.call_spec _ _ _ H2 Hb) as (g & Hc & Hg & _).
  unfold on_cache, zoom, ReqCache.Sec.push. rewrite Hc. eexists _, _. split; [done|].
  split_and!; done.
Qed.

Lemma pop_steps ref d s : ok s → ReqCache.Sec.cacheEntries (cache (usm s)) !! ref = Some d →
  ∃ s', on_cache (ReqCache.Sec.pop ref) s = (Ok d, s') ∧
  ok s' ∧ lcd s' = lcd s ∧ timeline (usm s') = timeline (usm s) ∧
  ReqCache.Sec.cacheEntries (cache (usm s')) = delete ref (ReqCache.Sec.cacheEntries (cache (usm s))).
Proof.
  intros [H1 H2] Hd. unfold on_cache, zoom, ReqCache.Sec.pop. rewrite Hd. eexists. split; [done|].
  split_and!; done.
Qed.

Lemma getUserInfo_spec e n s : ok s → ∃ s', getUserInfo e n s = (lcd_user (lcd s) e n, s') ∧
  frame s s' ∧ usm s' = usm s.
Proof.
  intros [H1 H2].
  destruct (TableIndex.getInstId_spec _ [TableIndex.IStr e; TableIndex.IStr n] H1)
    as (r & Hg & Hr & Hn).
  unfold getUserInfo, user_row, on_entry, lcd_user. munfold. rewrite Hg.
  destruct (TableIndex.encode _ _) as [tblIdx|ex]; eexists; (split; [reflexivity|]);
    (split; [|done]); (split_and!; [by split| |done]); unfold core; cbn; by rewrite Hn.
Qed.

(** The row of a user does not depend on what the frame leaves open. *)
Lemma lcd_user_core l l' e n : core l' = core l → lcd_user l' e n = lcd_user l e n.
Proof. intros Hc. change (lcd_user (core l') e n = lcd_user (core l) e n). by rewrite Hc. Qed.

Lemma user_of_core l l' p : core l' = core l → user_of l' p = user_of l p.
Proof.
  intros Hc. unfold user_of. destruct (msgUserName p); [done|].
  by rewrite !(lcd_user_core l l') by done.
Qed.

Lemma own_core l l' : core l' = core l → snmpEngineID l' = snmpEngineID l.
Proof. intros Hc. by apply (f_equal snmpEngineID) in Hc. Qed.

Lemma find_user_steps i s : ok s →
  steps (find_user i) s (λ u, user_of (lcd s) (i_params i) = Ok u).
Proof.
  intros Hs. unfold find_user, user_of.
  destruct (msgUserName (i_params i)) as [|x n'] eqn:Hn.
  { eapply steps_iff; [by apply steps_ret|]. naive_solver. }
  set (e := msgAuthoritativeEngineId (i_params i)). set (n := x :: n').
  destruct (getUserInfo_spec e n s Hs) as (s1 & Hg & (Hs1 & Hc1 & Hk1) & _).
  unfold try_except at 1. unfold steps. rewrite Hg.
  destruct (lcd_user (lcd s) e n) as [u|ex] eqn:Hl.
  { exists (Ok u), s1. done. }
  destruct (is_NoSuchInstance ex) eqn:Hx.
  - destruct (getUserInfo_spec wildcardSecurityEngineId n s1 Hs1) as (s2 & Hg2 & Hf2 & _).
    rewrite (lcd_user_core _ _ _ _ Hc1) in Hg2.
    assert (Hst : steps (getUserInfo wildcardSecurityEngineId n) s1
      (λ u, lcd_user (lcd s) wildcardSecurityEngineId n = Ok u)) by (by eexists _, _).
    eapply (steps_try _ (λ ex, if is_NoSuchInstance ex
        then Some (report i unknownSecurityName usmStatsUnknownUserNames (i_securityLevel i))
        else None)) in Hst as (r & s3 & Hr & Hf3 & HQ).
    + exists r, s3. split_and!; [exact Hr|by eapply frame_trans|done].
    + intros ex' k s' Hk Hs'. destruct (is_NoSuchInstance ex'); [|done].
      injection Hk as <-. by apply report_steps.
  - destruct (is_PyAsn1Error ex).
    + assert (Hst : steps (A := user) (count snmpInGenErrs;; raise (StatusInfo invalidMsg)) s1 (λ _, False)).
      { eapply (steps_iff _ _ (λ _, ∃ a : unit, True ∧ False)); [|naive_solver].
        eapply (steps_bind _ _ _ (λ _, True) (λ _ _, False)); [by apply count_steps|].
        intros _ s2 _ [? _] _. by apply steps_raise. }
      destruct Hst as (r & s3 & Hr & Hf3 & HQ). exists r, s3.
      split_and!; [exact Hr|by eapply frame_trans|]. intros a. rewrite HQ. done.
    + exists (Err ex), s1. done.
Qed.

Lemma steps_fails {A} (m : U A) s (Q : A → Prop) :
  steps m s (λ _, False) → (∀ a, ¬ Q a) → steps m s Q.
Proof. intros Hm HQ. eapply steps_iff; [exact Hm|]. naive_solver. Qed.

Lemma steps_done s (Q : unit → Prop) : ok s → Q tt → steps (mret tt) s Q.
Proof. intros Hs HQ. eapply steps_iff; [by apply steps_ret|]. intros []. naive_solver. Qed.

Lemma check_engine_steps i data s : ok s →
  steps (check_engine i data) s
    (λ _, engine_ok (i_own i) (timeline (usm s)) (msgAuthoritativeEngineId (i_params i))).
Proof.
  intros Hs. unfold check_engine. apply steps_gets. unfold engine_ok.
  set (e := msgAuthoritativeEngineId (i_params i)).
  case_bool_decide as Hown; [by apply steps_done; [|left]|].
  case_bool_decide as Ht; [by apply steps_done; [|right; left]|]. cbn [negb andb].
  destruct (Nat.ltb_spec 4 (length e)), (Nat.ltb_spec (length e) 33);
    [by apply steps_done; [|right; right]|..]; cbn [andb];
    (apply steps_fails; [|intros ? [?|[?|?]]; [done|done|lia]]);
    (eapply steps_iff; [eapply (steps_bind _ _ _ (λ _, True) (λ _ _, False)); [by apply count_steps|]|naive_solver]);
    intros _ s1 _ [Hs1 _] _; apply steps_gets; (case_match; [|by apply steps_raise]);
    (destruct data; by apply steps_raise).
Qed.

Lemma check_level_steps i u s : ok s →
  steps (check_level i u) s
    (λ _, msgAuthoritativeEngineId (i_params i) = i_own i →
          bad_level (i_securityLevel i) u (i_params i) = false).
Proof.
  intros Hs. unfold check_level. case_bool_decide as He; cbn [andb]; [|by apply steps_done].
  destruct (bad_level _ _ _); [|by apply steps_done].
  apply steps_fails; [by apply report_steps|]. intros _ Hx. by specialize (Hx He).
Qed.

Lemma sync_frame e b tm s : ok s → ∃ s', sync e b tm s = (Ok tt, s') ∧ frame s s' ∧
  timeline (usm s') !! e = Some (b, tm, tm, now).
Proof.
  intros [H1 H2]. unfold Usm.sync, modify. eexists. split; [reflexivity|]. split; [done|].
  cbn. apply lookup_insert_eq.
Qed.

Lemma check_own_time_steps i s : ok s →
  steps (check_own_time i) s
    (λ _, snmpEngineBoots ≠ 2147483647 ∧ msgAuthoritativeEngineBoots (i_params i) = snmpEngineBoots ∧
          Z.abs (snmpEngineTime - msgAuthoritativeEngineTime (i_params i)) <= 150).
Proof.
  intros Hs. unfold Usm.check_own_time.
  match goal with |- context [if ?b then _ else _] => destruct b eqn:Hw end.
  - apply steps_fails; [by apply report_steps|]. intros _ (Hb1%Z.eqb_neq & Hb2 & Hb3).
    rewrite Hb1, Hb2, Z.eqb_refl in Hw. cbn in Hw. apply Z.ltb_lt in Hw. lia.
  - apply steps_done; [done|].
    apply orb_false_iff in Hw as [[Hb1 Hb2]%orb_false_iff Hb3]. bool_to_prop. lia.
Qed.

(** Against an entry made from the message itself *)
Lemma check_peer_time_steps i s : ok s →
  let p := i_params i in
  timeline (usm s) !! msgAuthoritativeEngineId p =
    Some (msgAuthoritativeEngineBoots p, msgAuthoritativeEngineTime p,
          msgAuthoritativeEngineTime p, now) →
  steps (check_peer_time i) s (λ _, msgAuthoritativeEngineBoots (i_params i) ≠ 2147483647).
Proof.
  intros Hs p Ht. unfold Usm.check_peer_time. fold p. apply steps_gets. rewrite Ht.
  rewrite !Z.ltb_irrefl, andb_false_r. cbn [orb].
  replace (now - now + _ - _) with 0 by lia. change (150 <? Z.abs 0) with false.
  rewrite andb_false_r, !orb_false_r.
  set (bok := msgAuthoritativeEngineBoots p ≠ 2147483647).
  eapply (steps_iff _ _ (λ _, ∃ a : unit, True ∧ bok)); [|naive_solver].
  eapply (steps_bind _ _ _ (λ _, True) (λ _ _, bok)); [by apply steps_done|]. intros _ s1 _ [? _] _.
  destruct (Z.eqb_spec (msgAuthoritativeEngineBoots p) 2147483647);
    [apply steps_fails; [by apply steps_raise|intros _ Hx; by apply Hx]|by apply steps_done].
Qed.

(** 3.2.6 and 3.2.7: what 3.2.6 stores is what 3.2.7 compares with. *)
Lemma authenticate_time_steps i u wholeMsg s : ok s →
  steps (authenticate i u wholeMsg;; check_time i) s
    (λ _, digest_ok (i_securityLevel i) u (i_params i) wholeMsg ∧
          time_ok (i_securityLevel i) (i_own i) (i_params i)).
Proof.
  intros Hs. unfold Usm.authenticate, check_time, digest_ok, time_ok.
  destruct (authenticated (i_securityLevel i)) eqn:Hlv.
  2: { eapply (steps_iff _ _ (λ b, ∃ a : unit, True ∧ True)); [|naive_solver].
       eapply (steps_bind _ _ _ (λ _, True) (λ _ _, True)); [by apply steps_done|].
       intros _ s' _ [? _] _. by apply steps_done. }
  destruct (dget (Auth.authServices H) (u_authProtocol u)) as [sv|] eqn:Hsv.
  2: { eapply (steps_iff _ _ (λ b, ∃ a : unit, False ∧ False)); [|naive_solver].
       eapply (steps_bind _ _ _ (λ _, False) (λ _ _, False)); [by apply steps_raise|done]. }
  set (p := i_params i). set (e := msgAuthoritativeEngineId p).
  set (r := with_key _ _ _ _ _).
  set (h := λ ex : exn, if is_StatusInformation ex then _ else _).
  assert (Htry : steps (try_except (m ← liftR r; mret tt) h) s (λ _, ∃ m, r = Ok m)).
  { apply steps_try.
    - eapply (steps_iff _ _ (λ b, ∃ a, r = Ok a ∧ True)); [|naive_solver].
      eapply (steps_bind _ _ _ (λ a, r = Ok a) (λ _ _, True)); [by apply steps_liftR|].
      intros m s1 _ [? _] _. by apply steps_done.
    - intros ex k s' Hk Hs'. unfold h in Hk. destruct (is_StatusInformation ex); [|done].
      injection Hk as <-. by apply report_steps. }
  destruct Htry as (r1 & s1 & Hr1 & (Hs1 & Hc1 & Hk1) & HQ). unfold steps, mbind, M_bind.
  unfold mbind, M_bind in Hr1. rewrite Hr1.
  destruct r1 as [[]|ex].
  2: { exists (Err ex), s1. split_and!; [done|done|]. intros a. split; [done|].
       intros [Hd _]. destruct (Hd eq_refl) as (s0 & m & Hs0 & Hm). simplify_eq.
       by pose proof (proj2 (HQ tt) (ex_intro _ m Hm)). }
  destruct (proj1 (HQ tt) eq_refl) as [m Hm].
  destruct (sync_frame e (msgAuthoritativeEngineBoots p) (msgAuthoritativeEngineTime p) s1 Hs1)
    as (s2 & Hsync & (Hs2 & Hc2 & Hk2) & Ht). rewrite Hsync.
  assert (Hdig : true = true → ∃ s0 m, Some sv = Some s0 ∧
    with_key (u_authKey u) (u_authProtocol u) NoAuth.serviceID
      (λ k, a_authenticateIncomingMsg s0 k (msgAuthenticationParameters p) wholeMsg) Err = Ok m).
  { intros _. by exists sv, m. }
  assert (Hf : frame s s2) by (split_and!; [done|congruence..]).
  set (own_ok := snmpEngineBoots ≠ 2147483647 ∧ _ ∧ _).
  assert (Htime : steps (if bool_decide (e = i_own i) then check_own_time i else check_peer_time i)
    s2 (λ _, (e = i_own i → own_ok) ∧ (e ≠ i_own i → msgAuthoritativeEngineBoots p ≠ 2147483647))).
  { case_bool_decide; (eapply steps_iff;
      [first [by apply check_own_time_steps|by apply check_peer_time_steps]|intros ?; unfold own_ok; tauto]). }
  destruct Htime as (r2 & s3 & Hr2 & Hf3 & HR). exists r2, s3.
  split_and!; [done|by eapply frame_trans|]. intros a. rewrite HR. naive_solver.
Qed.

Lemma steps_assoc {B'} (m1 m2 : U unit) (k : U B') s Q :
  steps ((m1;; m2);; k) s Q → steps (m1;; m2;; k) s Q.
Proof.
  intros (r & s' & Hm & HQ). exists r, s'. split; [|done]. rewrite <- Hm.
  unfold mbind, M_bind. by destruct (m1 s) as [[[]|] ?].
Qed.

Lemma decode_scoped_ok i d sp : decode_scoped i d = Ok sp ↔ decodeScopedPDU c d = Ok (Some sp).
Proof. unfold Usm.decode_scoped. repeat case_match; naive_solver. Qed.

Lemma decrypt_steps i u data s : ok s →
  steps (decrypt i u data) s (λ sp, opened (i_securityLevel i) u (i_params i) data sp).
Proof.
  intros Hs. unfold Usm.decrypt, opened. destruct (i_securityLevel i =? 3).
  2: { eapply (steps_iff _ _ (λ sp, ∃ o, plaintextOf c data = Ok o ∧ o = Some sp)); [|naive_solver].
       eapply (steps_bind _ _ _ (λ o, plaintextOf c data = Ok o)); [by apply steps_liftR|].
       intros [sp|] s1 _ [? _] _; [eapply steps_iff; [by apply steps_ret|naive_solver]|].
       by apply steps_fails; [apply steps_raise|]. }
  destruct (dget (Priv.privServices H B) (u_privProtocol u)) as [sv|].
  2: { apply steps_fails; [by apply steps_raise|]. naive_solver. }
  set (plain := λ e, with_key (u_privKey u) (u_privProtocol u) NoPriv.serviceID
    (λ k, p_decryptData sv k (msgAuthoritativeEngineBoots (i_params i),
       msgAuthoritativeEngineTime (i_params i), Some (msgPrivacyParameters (i_params i))) e) Err).
  eapply (steps_iff _ _ (λ sp, ∃ o, encryptedOf c data = Ok o ∧
    ∃ e, o = Some e ∧ ∃ d, plain e = Ok d ∧ decodeScopedPDU c d = Ok (Some sp))).
  2: { intros sp. split; [|intros (sv' & e & d & [= <-] & He & Hd & Hsp); by eauto 10].
       intros (o & Ho & e & -> & d & Hd & Hsp). by exists sv, e, d. }
  eapply (steps_bind _ _ _ (λ o, encryptedOf c data = Ok o)); [by apply steps_liftR|].
  intros [e|] s1 _ [Hs1 _] _; [|apply steps_fails; [by apply steps_raise|naive_solver]].
  eapply (steps_iff _ _ (λ sp, ∃ d, plain e = Ok d ∧ decodeScopedPDU c d = Ok (Some sp)));
    [|naive_solver].
  eapply (steps_bind _ _ _ (λ d, plain e = Ok d)).
  - apply steps_try; [by apply steps_liftR|]. intros ex k s' Hk Hs'.
    destruct (is_StatusInformation ex); [|done]. injection Hk as <-. by apply report_steps.
  - intros d s2 _ [Hs2 _] _. eapply steps_iff; [by apply steps_liftR|]. intros a.
    apply decode_scoped_ok.
Qed.

Lemma check_discovery_steps i sp s : ok s →
  steps (check_discovery i sp) s
    (λ _, msgUserName (i_params i) = [] → msgAuthoritativeEngineId (i_params i) ≠ []).
Proof.
  intros Hs. unfold check_discovery.
  destruct (msgUserName (i_params i)); [|by apply steps_done].
  destruct (msgAuthoritativeEngineId (i_params i)); [|by apply steps_done].
  apply steps_fails; [|naive_solver].
  eapply (steps_iff _ _ (λ _, ∃ a : unit, True ∧ False)); [|naive_solver].
  eapply (steps_bind _ _ _ (λ _, True) (λ _ _, False)); [by apply count_steps|].
  intros _ s1 _ [? _] _. apply steps_gets. by apply steps_raise.
Qed.

Lemma verify_steps i u wholeMsg data s : ok s →
  let p := i_params i in
  steps (verify i u wholeMsg data) s (λ r,
    (msgAuthoritativeEngineId p = i_own i → bad_level (i_securityLevel i) u p = false) ∧
    digest_ok (i_securityLevel i) u p wholeMsg ∧ time_ok (i_securityLevel i) (i_own i) p ∧
    ∃ sp, opened (i_securityLevel i) u p data sp ∧
      (msgUserName p = [] → msgAuthoritativeEngineId p ≠ []) ∧
      r = (msgAuthoritativeEngineId p, u_securityName u, sp, i_maxSize i, i_reference i)).
Proof.
  intros Hs p. unfold Usm.verify. set (level := i_securityLevel i).
  set (L := msgAuthoritativeEngineId p = i_own i → _).
  set (T := digest_ok level u p wholeMsg ∧ time_ok level (i_own i) p).
  set (N := msgUserName p = [] → msgAuthoritativeEngineId p ≠ []).
  eapply (steps_iff _ _ (λ r, ∃ a : unit, L ∧ ∃ a : unit, T ∧ ∃ sp, opened level u p data sp ∧
    ∃ a : unit, N ∧ r = (msgAuthoritativeEngineId p, u_securityName u, sp, i_maxSize i, i_reference i))).
  2: { intros r. unfold T. split; [naive_solver|].
       intros (? & ? & ? & sp & ? & ? & ?). exists tt. split; [done|]. exists tt. split; [done|].
       exists sp. split; [done|]. by exists tt. }
  eapply steps_bind; [by apply check_level_steps|]. intros _ s1 _ [Hs1 _] _.
  apply steps_assoc.
  eapply steps_bind; [by apply authenticate_time_steps|]. intros _ s2 _ [Hs2 _] _.
  eapply steps_bind; [by apply decrypt_steps|]. intros sp s3 _ [Hs3 _] _.
  eapply steps_bind; [by apply check_discovery_steps|]. intros _ s4 _ [Hs4 _] _.
  by apply steps_ret.
Qed.

(** ** Reports *)

(** A status that asks for a report says what to report, in which context, how
    large it may be, and names the reference the response is made with. *)
Definition carries (ref : Z) (st : status) : Prop :=
  st_securityStateReference st = Some ref ∧ is_Some (st_val st) ∧
  is_Some (st_contextEngineId st) ∧ is_Some (st_contextName st) ∧
  is_Some (st_maxSizeResponseScopedPDU st).
Definition answers {A} (ref : Z) (r : result exn A) : Prop :=
  ∀ st, r = Err (StatusInformation st) → is_Some (st_oid st) → carries ref st.

Lemma answers_plain {A} ref (r : result exn A) :
  (∀ e, r = Err e → is_StatusInformation e = false ∨ (∃ x, e = StatusInfo x) ∨
     ∃ x u, e = StatusInformation (status_msgUserName u (status_of x))) →
  answers ref r.
Proof.
  intros Hr st Hst [n Hn]. by destruct (Hr _ Hst) as [|[(x & [= ->])|(x & u & [= ->])]].
Qed.

Lemma answers_Ok {A} ref (a : A) : answers ref (Ok a).
Proof. intros st Hst. done. Qed.

Lemma answers_bind {A B'} ref (m : U A) (k : A → U B') s :
  answers ref (m s).1 → (∀ a s', answers ref (k a s').1) → answers ref ((m ≫= k) s).1.
Proof.
  intros Hm Hk. unfold mbind, M_bind. destruct (m s) as [[a|e] s']; [apply Hk|].
  intros st Hst. cbn in Hst. simplify_eq. by apply Hm.
Qed.

Lemma answers_try {A} ref (m : U A) h s :
  (∀ e s', m s = (Err e, s') → match h e with Some k => answers ref (k s').1 | None => answers (A := A) ref (Err e) end) →
  answers ref (try_except m h s).1.
Proof.
  intros Hh. unfold try_except. destruct (m s) as [[a|e] s'] eqn:E; [apply answers_Ok|].
  specialize (Hh e s' eq_refl). by destruct (h e).
Qed.

Lemma answers_report {A} i e n level s : answers (A := A) (i_reference i) (report i e n level s).1.
Proof. intros st. unfold report. munfold. intros [= <-] _. unfold carries. cbn. eauto 10. Qed.

Lemma answers_engine i data s : answers (i_reference i) (check_engine i data s).1.
Proof.
  unfold check_engine. munfold. repeat case_match; intros st Hst [n Hn]; cbn in Hst;
    simplify_eq; unfold carries; cbn; eauto 10.
Qed.

Lemma cell_errors {V} (col : Column.column V) i e : Vacm.cell col i = Err e → e = no_such_instance.
Proof.
  unfold Vacm.cell, Column.getNode, Column.getBranch. munfold. repeat case_match; naive_solver.
Qed.

Lemma lcd_user_errors l e n ex : lcd_user l e n = Err ex → is_StatusInformation ex = false.
Proof.
  unfold lcd_user, mbind, result_bind.
  destruct (TableIndex.encode _ _) as [i|ex'] eqn:He.
  - unfold read_user, mbind, result_bind.
    repeat match goal with
    | |- context [match Vacm.cell ?c ?j with _ => _ end] =>
        let E := fresh in destruct (Vacm.cell c j) eqn:E;
        [|apply cell_errors in E as ->; by intros [= <-]]
    end. done.
  - intros [= <-]. revert ex' He. generalize [TableIndex.IStr e; TableIndex.IStr n].
    induction (TableIndex.indexNames (usmUserEntry l)) as [|x names IH]; intros vs ex'; [done|].
    destruct vs as [|v vs]; [done|]. cbn [TableIndex.encode]. unfold mbind, result_bind.
    unfold TableIndex.clone, TableIndex.getAsName. repeat case_match; try (by intros [= <-]);
      intros; simplify_eq; eauto.
Qed.

Lemma answers_find_user i s : ok s → answers (i_reference i) (find_user i s).1.
Proof.
  intros Hs. unfold find_user. destruct (msgUserName (i_params i)) as [|x n]; [apply answers_Ok|].
  set (e := msgAuthoritativeEngineId (i_params i)). apply answers_try.
  intros ex s1 Hg. destruct (getUserInfo_spec e (x :: n) s Hs) as (s1' & Hg' & [Hs1 _] & _).
  rewrite Hg in Hg'. injection Hg' as Hex ->. symmetry in Hex. pose proof (lcd_user_errors _ _ _ _ Hex).
  destruct (is_NoSuchInstance ex).
  - apply answers_try. intros ex2 s2 Hg2.
    destruct (getUserInfo_spec wildcardSecurityEngineId (x :: n) s1' Hs1) as (s2' & Hg2' & _).
    rewrite Hg2 in Hg2'. injection Hg2' as Hex2 _. symmetry in Hex2.
    pose proof (lcd_user_errors _ _ _ _ Hex2).
    destruct (is_NoSuchInstance ex2); [apply answers_report|]. apply answers_plain. naive_solver.
  - destruct (is_PyAsn1Error ex); [|apply answers_plain; naive_solver].
    apply answers_bind; [apply answers_Ok|]. intros _ s2. apply answers_plain.
    intros e2 [= <-]. right; eauto.
Qed.

Lemma answers_authenticate i u wholeMsg s : answers (i_reference i) (authenticate i u wholeMsg s).1.
Proof.
  unfold Usm.authenticate. destruct (authenticated _); [|apply answers_Ok].
  destruct (dget _ _); [|apply answers_plain; intros e [= <-]; right; eauto].
  apply answers_bind; [|intros; apply answers_Ok]. apply answers_try. intros e s' _.
  destruct (is_StatusInformation e) eqn:He; [apply answers_report|].
  apply answers_plain. naive_solver.
Qed.

Lemma answers_time i s : answers (i_reference i) (check_time i s).1.
Proof.
  unfold Usm.check_time. destruct (authenticated _); [|apply answers_Ok]. case_bool_decide.
  - unfold Usm.check_own_time. case_match; [apply answers_report|apply answers_Ok].
  - unfold Usm.check_peer_time. apply answers_bind; [apply answers_Ok|]. intros t s1.
    destruct (t !! _) as [[[[b tm] lr] lu]|]; [|apply answers_plain; intros e [= <-]; by left].
    apply answers_bind; [case_match; apply answers_Ok|]. intros _ s2.
    case_match; [|apply answers_Ok]. apply answers_plain. intros e [= <-]. right; eauto.
Qed.

Lemma answers_decrypt i u data s : CodecLaws c → answers (i_reference i) (decrypt i u data s).1.
Proof.
  intros Hc. unfold Usm.decrypt.
  assert (Hde : ∀ A (s : state), answers (i_reference i) (raise (A := A) (decryption_error i) s).1).
  { intros. apply answers_plain. intros e [= <-]. right. unfold decryption_error. eauto. }
  destruct (_ =? 3).
  - destruct (dget _ _) as [sv|]; [|apply Hde]. apply answers_bind.
    { apply answers_plain. intros e He. left. destruct e; try done. cbn in He.
      by destruct (codec_errors st [] data) as (_ & _ & _ & ?). }
    intros [e|] s1; [|apply Hde]. apply answers_bind.
    + apply answers_try. intros ex s2 _. destruct (is_StatusInformation ex) eqn:Hx;
        [apply answers_report|]. apply answers_plain. naive_solver.
    + intros d s2. apply answers_plain. intros ex Hex. cbn in Hex. unfold Usm.decode_scoped in Hex.
      destruct (decodeScopedPDU c d) as [[]|ex'] eqn:Hd; [done|right; simplify_eq; eauto|].
      destruct (is_PyAsn1Error ex'); simplify_eq; [right; eauto|]. left. destruct ex; try done.
      by destruct (codec_errors st d data) as (? & _).
  - apply answers_bind; [|intros [] ?; [apply answers_Ok|apply Hde]].
    apply answers_plain. intros e He. left. destruct e; try done. cbn in He.
    by destruct (codec_errors st [] data) as (_ & _ & ? & _).
Qed.

Lemma answers_discovery i sp s : answers (i_reference i) (check_discovery i sp s).1.
Proof.
  unfold check_discovery. repeat case_match; try apply answers_Ok. intros st.
  munfold. intros [= <-] _. unfold carries. cbn. eauto 10.
Qed.

Lemma answers_verify i u wholeMsg data s : CodecLaws c →
  answers (i_reference i) (verify i u wholeMsg data s).1.
Proof.
  intros Hc. unfold Usm.verify.
  apply answers_bind.
  { unfold check_level. case_match; [apply answers_report|apply answers_Ok]. }
  intros _ s1. apply answers_bind; [apply answers_authenticate|].
  intros _ s2. apply answers_bind; [apply answers_time|].
  intros _ s3. apply answers_bind; [by apply answers_decrypt|].
  intros sp s4. apply answers_bind; [apply answers_discovery|]. intros _ s5. apply answers_Ok.
Qed.

(** What is held under a reference. *)
Definition held (s : state) (ref : Z) (d : secdata) : Prop :=
  ReqCache.Sec.cacheEntries (cache (usm s)) !! ref = Some d.

(** [processIncomingMsg] returns exactly on the messages of [accepts], and then
    holds the user's data under the reference it returns. *)
Lemma process_spec mx params level wholeMsg msg s : ok s →
  ∃ r s', processIncomingMsg mx params level wholeMsg msg s = (r, s') ∧
    ok s' ∧ core (lcd s') = core (lcd s) ∧
    (∀ e sn sp mx' ref, r = Ok (e, sn, sp, mx', ref) → ∃ u p, user_of (lcd s) p = Ok u ∧
       held s' ref (secdata_of (msgUserName p) u)) ∧
    (CodecLaws c → ∀ st, r = Err (StatusInformation st) → is_Some (st_oid st) →
       ∃ ref d, carries ref st ∧ held s' ref d) ∧
    ∀ e sn sp mx', (∃ ref, r = Ok (e, sn, sp, mx', ref)) ↔
      ∃ p u, decodeUsm c params = Ok (Some p) ∧
        accepts s level wholeMsg (msgData msg) p u sp ∧
        (e, sn, mx') = (msgAuthoritativeEngineId p, u_securityName u,
                        mx - Z.of_nat (length params) - 48).
Proof.
  intros Hs. unfold Usm.processIncomingMsg, mbind, M_bind, liftR.
  destruct (decodeUsm c params) as [[p|]|ex] eqn:Hdec.
  2: { eexists _, s. split_and!; [done..|intros; naive_solver| |intros; naive_solver].
       intros _ st [= <-] [n Hn]. done. }
  2: { eexists _, s. split_and!; [done..|intros; naive_solver| |intros; naive_solver].
       intros Hc st [= ->]. by destruct (codec_errors st params (msgData msg)) as (_ & ? & _). }
  set (mx1 := mx - _ - 48). unfold gets.
  destruct (push_steps (mk_secdata (msgUserName p) None None None None None) s Hs)
    as (ref1 & s1 & Hp1 & Hs1 & Hl1 & Ht1 & Hc1). rewrite Hp1.
  set (own := snmpEngineID (lcd s1)). set (i1 := mk_incoming p level ref1 mx1 own).
  destruct (check_engine_steps i1 (msgData msg) s1 Hs1) as (r2 & s2 & Hr2 & (Hs2 & Hcr2 & Hk2) & HQ2).
  rewrite Hr2.
  assert (Hown : own = snmpEngineID (lcd s)) by (unfold own; by rewrite Hl1).
  destruct r2 as [[]|ex].
  2: { eexists _, s2. split_and!; [done|done|by rewrite Hcr2, Hl1|done| |].
       { intros _ st [= ->] Ho. exists ref1. eexists. split; [|unfold held; rewrite Hk2, Hc1; apply lookup_insert_eq].
         pose proof (answers_engine i1 (msgData msg) s1) as Ha. rewrite Hr2 in Ha. by apply Ha. }
       intros. split; [naive_solver|].
       intros (p' & u & [= <-] & Hacc & _). destruct Hacc as [He _ _ _ _ _ _].
       rewrite <- Hown, <- Ht1 in He. by pose proof (proj2 (HQ2 tt) He). }
  pose proof (proj1 (HQ2 tt) eq_refl) as Heng. cbn in Heng. rewrite Hown, Ht1 in Heng.
  destruct (find_user_steps i1 s2 Hs2) as (r3 & s3 & Hr3 & (Hs3 & Hcr3 & Hk3) & HQ3). rewrite Hr3.
  assert (Huser : user_of (lcd s2) p = user_of (lcd s) p)
    by (apply user_of_core; by rewrite Hcr2, Hl1).
  change (i_params i1) with p in HQ3. rewrite Huser in HQ3.
  destruct r3 as [u|ex].
  2: { eexists _, s3. split_and!; [done|done|by rewrite Hcr3, Hcr2, Hl1|done| |].
       { intros _ st [= ->] Ho. exists ref1. eexists.
         split; [|unfold held; rewrite Hk3, Hk2, Hc1; apply lookup_insert_eq].
         pose proof (answers_find_user i1 s2 Hs2) as Ha. rewrite Hr3 in Ha. by apply Ha. }
       intros. split; [naive_solver|].
       intros (p' & u & [= <-] & Hacc & _). destruct Hacc as [_ Hu _ _ _ _ _].
       by pose proof (proj2 (HQ3 u) Hu). }
  pose proof (proj1 (HQ3 u) eq_refl) as Hu.
  destruct (pop_steps ref1 (mk_secdata (msgUserName p) None None None None None) s3 Hs3)
    as (s4 & Hp4 & Hs4 & Hl4 & _ & Hc4).
  { rewrite Hk3, Hk2, Hc1. apply lookup_insert_eq. }
  rewrite Hp4.
  destruct (push_steps (secdata_of (msgUserName p) u) s4 Hs4)
    as (ref2 & s5 & Hp5 & Hs5 & Hl5 & _ & Hc5). rewrite Hp5.
  set (i2 := mk_incoming p level ref2 mx1 own).
  destruct (verify_steps i2 u wholeMsg (msgData msg) s5 Hs5)
    as (r6 & s6 & Hr6 & (Hs6 & Hcr6 & Hk6) & HQ6).
  cbn [i_params i_securityLevel i_reference i_maxSize i_own i2] in HQ6. rewrite Hown in HQ6.
  exists r6, s6. split_and!; [exact Hr6|done|by rewrite Hcr6, Hl5, Hl4, Hcr3, Hcr2, Hl1|..].
  - intros e sn sp mx' ref Hr. apply HQ6 in Hr as (_ & _ & _ & sp' & _ & _ & Heq). simplify_eq.
    exists u, p. split; [done|]. unfold held. rewrite Hk6, Hc5. apply lookup_insert_eq.
  - intros Hc st Hst Ho. exists ref2. eexists.
    split; [|unfold held; rewrite Hk6, Hc5; apply lookup_insert_eq].
    pose proof (answers_verify i2 u wholeMsg (msgData msg) s5 Hc) as Ha. rewrite Hr6 in Ha. by apply Ha.
  - intros e sn sp mx'. split.
    + intros [ref Hr]. apply HQ6 in Hr as (H1 & H2 & H3 & sp' & H4 & H5 & Heq). simplify_eq.
      exists p, u. split_and!; [done|by constructor|done].
    + intros (p' & u' & [= <-] & [_ Hu' H1 H2 H3 H4 H5] & Heq). rewrite Hu in Hu'. simplify_eq.
      exists ref2. apply HQ6. eauto 10.
Qed.

End model.

(** ** Properties *)
Import Auth Priv.

Section properties.
Context (H : hashlib) (B : cipherbackend) (c : codec).
Context `{!HashlibLaws H} `{!BackendLaws B} `{!CodecLaws c}.

(** C3. What is accepted with authentication is authentic: the user of the message
    (under its engine ID or the wildcard) has an authentication key, the digest in
    the message is the MAC under that key of the message with zeros in the
    digest's place, and at the authoritative engine the message has the engine's
    own boots counter, which is not at its maximum, and a time within 150 seconds
    of the engine's. *)
Theorem usm_accepts_only_authentic now boots time res mx params level wholeMsg msg s r s' :
  ok s → authenticated level = true →
  processIncomingMsg H B c now boots time res mx params level wholeMsg msg s = (Ok r, s') →
  ∃ p u n mac key m head tail,
    decodeUsm c params = Ok (Some p) ∧ user_of (lcd s) p = Ok u ∧ r.1.1.1.2 = u_securityName u ∧
    dget (macs H) (u_authProtocol u) = Some (n, mac) ∧ u_authKey u = Some key ∧
    msgAuthenticationParameters p = mac key m ∧
    wholeMsg = head ++ mac key m ++ tail ∧ m = head ++ zeros n ++ tail ∧
    (msgAuthoritativeEngineId p = snmpEngineID (lcd s) →
      msgAuthoritativeEngineBoots p = boots ∧ boots ≠ 2147483647 ∧
      Z.abs (time - msgAuthoritativeEngineTime p) <= 150).
Proof.
  intros Hs Hlv Hp. destruct r as [[[[e sn] sp] mx'] ref].
  destruct (process_spec H B c now boots time res mx params level wholeMsg msg s Hs)
    as (r' & s1 & Hr & _ & _ & _ & _ & Hiff). rewrite Hp in Hr. simplify_eq.
  destruct (proj1 (Hiff e sn sp mx') (ex_intro _ ref eq_refl)) as (p & u & Hdec & Hacc & Heq).
  destruct Hacc as [_ Hu _ Hdig Htime _ _]. destruct (Hdig Hlv) as (sv & m & Hsv & Hm).
  assert (Hna : u_authProtocol u ≠ NoAuth.serviceID).
  { intros Hna. rewrite Hna in Hsv. cbn in Hsv. injection Hsv as <-.
    unfold with_key in Hm. destruct (u_authKey u); [done|]. by case_decide. }
  destruct (service_mac H _ _ Hsv Hna) as (n & mac & Hmac & Hc).
  unfold with_key in Hm. destruct (u_authKey u) as [k|] eqn:Hk; [|by rewrite decide_False in Hm].
  destruct (contract_accepts _ _ _ _ _ _ _ Hc Hm) as (Hpar & _ & head & tail & Hw & Hz).
  exists p, u, n, mac, k, m, head, tail. injection Heq as -> -> ->. rewrite <- Hpar.
  split_and!; try done. intros Hown. destruct (Htime Hlv) as [Ht _].
  destruct (Ht Hown) as (? & ? & ?). done.
Qed.

(** C25. Elsewhere the time window does not hold back a replay: a message of another
    authoritative engine that was accepted once is accepted again with the same
    result at any later time, in any state with the same user table, whatever the
    state knows of that engine's boots and time. *)
Theorem replayed_message_accepted now boots time res now2 boots2 time2 res2
    mx params level wholeMsg msg s s2 e sn sp mx' ref s' :
  ok s → ok s2 → core (lcd s2) = core (lcd s) →
  processIncomingMsg H B c now boots time res mx params level wholeMsg msg s =
    (Ok (e, sn, sp, mx', ref), s') →
  e ≠ snmpEngineID (lcd s) → (is_Some (timeline (usm s2) !! e) ∨ 4 < length e < 33)%nat →
  ∃ ref2 s2', processIncomingMsg H B c now2 boots2 time2 res2 mx params level wholeMsg msg s2 =
    (Ok (e, sn, sp, mx', ref2), s2').
Proof.
  intros Hs Hs2 Hcore Hp Hown Heng. pose proof (own_core _ _ Hcore) as Hoc.
  assert (Hus : ∀ p, user_of (lcd s2) p = user_of (lcd s) p) by (intros; by apply user_of_core).
  clear Hcore.
  destruct (process_spec H B c now boots time res mx params level wholeMsg msg s Hs)
    as (r & s1 & Hr & _ & _ & _ & _ & Hiff). rewrite Hp in Hr. simplify_eq.
  destruct (proj1 (Hiff e sn sp mx') (ex_intro _ ref eq_refl)) as (p & u & Hdec & Hacc & Heq).
  injection Heq as He Hsn Hmx.
  destruct (process_spec H B c now2 boots2 time2 res2 mx params level wholeMsg msg s2 Hs2)
    as (r2 & s2' & Hr2 & _ & _ & _ & _ & Hiff2).
  destruct (proj2 (Hiff2 e sn sp mx')) as [ref2 ->]; [|by exists ref2, s2'].
  destruct Hacc as [_ Hu Hlv Hdig Htime Hop Hn].
  exists p, u. split_and!; [done| |by rewrite He, Hsn, Hmx].
  constructor; rewrite ?Hoc, ?Hus; try done.
  - right. by rewrite <- He.
  - intros Ha. destruct (Htime Ha) as [_ Hb]. split; [|done]. intros Hx. by rewrite <- He in Hx.
Qed.

(** [seal] on a message whose digest field comes first and is not anticipated. *)
Lemma seal_signed o m p pre post n mac key :
  authenticated (o_securityLevel o) = true →
  dget (macs H) (u_authProtocol (o_user o)) = Some (n, mac) → u_authKey (o_user o) = Some key →
  digest_field c m p n pre post →
  bytes_find (zeros n) (pre ++ zeros n ++ post) = Some (length pre) →
  ∃ e e', seal H c o m p = Ok (e, pre ++ mac key (pre ++ zeros n ++ post) ++ post) ∧
    encodeUsm c (with_digest (mac key (pre ++ zeros n ++ post)) p) = Ok e' ∧
    encodeMessage c (with_params e' m) = Ok (pre ++ mac key (pre ++ zeros n ++ post) ++ post).
Proof.
  intros Hlv Hmac Hk Hfield Hz. destruct (mac_service H _ _ _ Hmac) as (sv & Hsv & Hc).
  destruct (Hfield (zeros n) (length_zeros n)) as (e & He & Hw).
  destruct (Hfield (mac key (pre ++ zeros n ++ post))) as (e' & He' & Hw').
  { apply (ac_mac_length (s := sv)). }
  exists e, e'. split_and!; [|done|done]. unfold seal. rewrite Hlv, Hsv.
  unfold mbind, result_bind, mret, result_ret.
  rewrite (ac_digestLength (s := sv) (n := n) (mac := mac)).
  rewrite He. cbn [run_or_raise]. rewrite Hw. cbn [run_or_raise].
  rewrite Hk. cbn [with_key]. rewrite (ac_out (mac := mac) _ _ _ Hz).
  f_equal. f_equal. rewrite take_app_length. do 2 f_equal.
  rewrite app_assoc, drop_app_length'; [done|]. rewrite length_app, length_zeros. done.
Qed.

(** Data that was protected for a user is opened with the user's keys. *)
Lemma protect_opened boots time o s d s' p :
  o_securityLevel o = 2 ∨ o_securityLevel o = 3 → level_supported (o_securityLevel o) (o_user o) = true →
  protect H B c o boots time s = (Ok d, s') →
  msgAuthoritativeEngineBoots p = boots → msgAuthoritativeEngineTime p = time →
  msgPrivacyParameters p = d.2 →
  opened H B c (o_securityLevel o) (o_user o) p d.1 (o_scopedPDU o).
Proof.
  intros Hlv Hsup Hd Hb Ht Hs. unfold protect, opened in *.
  destruct Hlv as [Hlv|Hlv]; rewrite Hlv in *; cbn [Z.eqb Pos.eqb] in *.
  { munfold. simplify_eq. apply plaintext_chosen. }
  destruct (dget (Priv.privServices H B) (u_privProtocol (o_user o))) as [sv|] eqn:Hsv; [|done].
  assert (Hnp : u_privProtocol (o_user o) ≠ NoPriv.serviceID).
  { intros Hnp. revert Hsup. unfold level_supported. cbn.
    rewrite (bool_decide_true (_ = NoPriv.serviceID)) by done. by rewrite orb_true_r. }
  destruct (service_mode H B _ _ Hsv Hnp) as (w & pads & Hm & Hc).
  unfold on_localInt in Hd. munfold.
  destruct (encodeScopedPDU c (o_scopedPDU o)) as [x|ex] eqn:Hx; cbn [run_or_raise] in Hd;
    [|by destruct (is_PyAsn1Error ex)].
  unfold with_key in *. destruct (u_privKey (o_user o)) as [k|]; [|by rewrite decide_False in Hd].
  destruct (p_encryptData _ _ _ _ _) as [[[ct salt]|] st'] eqn:He; [|done]. simplify_eq.
  destruct (Hc _ _ _ _ _ _ _ _ _ He) as (_ & _ & _ & Hdec).
  exists sv, ct. eexists. split_and!; [done|apply encrypted_chosen| |].
  - cbn [fst snd] in Hs. rewrite Hs. exact Hdec.
  - by apply scoped_inverse.
Qed.

Section roundtrip.
Context (createRow : oid → M exn LCD unit).

(** What is prepared for a known engine. *)
Lemma prepare_spec boots time msg eB name level scoped s o m p s' :
  eB ≠ [] →
  prepare H B c boots time createRow msg (Some eB) name level scoped None s = (Ok (o, m, p), s') →
  o_securityEngineID o = eB ∧ o_securityLevel o = level ∧ o_scopedPDU o = scoped ∧
  level_supported level (o_user o) = true ∧ o_msg o = msg ∧
  msgAuthoritativeEngineId p = eB ∧ msgUserName p = u_name (o_user o) ∧
  ∃ d s1, protect H B c o (msgAuthoritativeEngineBoots p) (msgAuthoritativeEngineTime p) s1 =
      (Ok d, s') ∧ m = with_data d.1 (o_msg o) ∧ msgPrivacyParameters p = d.2.
Proof.
  intros He. unfold prepare, select. destruct eB as [|x eB]; [done|].
  unfold mbind at 1, M_bind at 1. unfold mbind at 1, M_bind at 1.
  destruct (lookup_user _ _ _ _ _ _) as [[u|] s1]; [|done].
  unfold mret at 1, M_ret at 1. cbn [o_securityLevel o_user o_securityEngineID o_msg].
  destruct (level_supported level u) eqn:Hl; [|done]. cbn [negb].
  unfold gets, mbind at 1, M_bind at 1.
  destruct (engine_clock _ _ _ _) as [b t]. unfold mbind, M_bind.
  destruct (protect _ _ _ _ _ _ _) as [[d|] s2] eqn:Hd; [|done].
  unfold mret, M_ret. intros [= <- <- <- <-].
  cbn [o_securityEngineID o_securityLevel o_scopedPDU o_user o_msg msgAuthoritativeEngineId
    msgUserName msgAuthoritativeEngineBoots msgAuthoritativeEngineTime msgPrivacyParameters].
  split_and!; try done. by exists d, s1.
Qed.

(** What one engine seals, the other decodes, with its header, and accepts. *)
Lemma usm_delivers boots time nowB bootsB timeB resB msg eB name level scoped sA o m p sA'
    sB mx n mac key pre post :
  level = 2 ∨ level = 3 → eB ≠ [] →
  prepare H B c boots time createRow msg (Some eB) name level scoped None sA = (Ok (o, m, p), sA') →
  ok sB → snmpEngineID (lcd sB) = eB → u_name (o_user o) ≠ [] →
  lcd_user (lcd sB) eB (u_name (o_user o)) = Ok (o_user o) →
  bad_level level (o_user o) p = false →
  bootsB ≠ 2147483647 → msgAuthoritativeEngineBoots p = bootsB →
  Z.abs (timeB - msgAuthoritativeEngineTime p) <= 150 →
  dget (macs H) (u_authProtocol (o_user o)) = Some (n, mac) → u_authKey (o_user o) = Some key →
  digest_field c m p n pre post →
  bytes_find (zeros n) (pre ++ zeros n ++ post) = Some (length pre) →
  let digest := mac key (pre ++ zeros n ++ post) in
  bytes_find digest (pre ++ digest ++ post) = Some (length pre) →
  let wholeMsg := pre ++ digest ++ post in
  (∃ e, generateRequestMsg H B c boots time createRow msg (Some eB) name level scoped sA =
     (Ok (e, wholeMsg), sA')) ∧
  ∃ msg', decodeMessage c wholeMsg = Ok (Some msg') ∧
  msgGlobalData msg' = msgGlobalData msg ∧ msgVersion msg' = msgVersion msg ∧
  ∃ mx' ref sB', processIncomingMsg H B c nowB bootsB timeB resB mx (msgSecurityParameters msg')
    level wholeMsg msg' sB = (Ok (eB, u_securityName (o_user o), scoped, mx', ref), sB').
Proof.
  intros Hlevel HeB Hprep HokB Hown Hname Huser Hbad Hmax Hboots Htime Hmac Hkey Hfield Hz
    digest Hfirst wholeMsg.
  destruct (prepare_spec _ _ _ _ _ _ _ _ _ _ _ _ HeB Hprep)
    as (He & Hlv & Hsp & Hsup & Homsg & Hpe & Hpn & d & s1 & Hd & Hm & Hpp).
  assert (Hauth : authenticated level = true) by (unfold authenticated; by destruct Hlevel as [->| ->]).
  rewrite <- Hlv in Hauth.
  destruct (seal_signed o m p pre post n mac key Hauth Hmac Hkey Hfield Hz)
    as (e & e' & Hseal & He' & Hw'). fold digest wholeMsg in Hseal, He', Hw'.
  split.
  { exists e. unfold generateRequestMsg, generateRequestOrResponseMsg, mbind, M_bind.
    rewrite Hprep. unfold liftR. cbn [fst snd]. by rewrite Hseal. }
  exists (with_params e' m). split; [rewrite <- (app_nil_r wholeMsg); by apply message_inverse|].
  cbn [with_params msgSecurityParameters].
  split; [by rewrite Hm, Homsg|]. split; [by rewrite Hm, Homsg|].
  destruct (process_spec H B c nowB bootsB timeB resB mx e' level wholeMsg (with_params e' m) sB HokB)
    as (r & sB' & Hr & _ & _ & _ & _ & Hiff).
  destruct (proj2 (Hiff eB (u_securityName (o_user o)) scoped (mx - Z.of_nat (length e') - 48)))
    as [ref ->]; [|by eexists _, ref, sB'].
  exists (with_digest digest p), (o_user o).
  split_and!; [rewrite <- (app_nil_r e'); by apply usm_inverse| |by rewrite <- Hpe].
  destruct (mac_service H _ _ _ Hmac) as (sv & Hsv & Hc).
  assert (Hlen : length digest = n) by (apply (ac_mac_length (s := sv))).
  constructor; cbn [with_digest msgAuthoritativeEngineId msgUserName with_params msgData].
  - left. by rewrite Hpe.
  - unfold user_of. cbn [with_digest msgUserName msgAuthoritativeEngineId]. rewrite Hpn, Hpe.
    destruct (u_name (o_user o)); [done|]. by rewrite Huser.
  - intros _. exact Hbad.
  - intros _. exists sv. eexists. split; [done|]. unfold with_key. rewrite Hkey.
    cbn [with_digest msgAuthenticationParameters].
    rewrite (ac_in (mac := mac) _ _ _ _ Hlen Hfirst). cbv zeta.
    assert (Hback : take (length pre) wholeMsg ++ zeros n ++ drop (length pre + n) wholeMsg =
      pre ++ zeros n ++ post).
    { unfold wholeMsg. rewrite take_app_length. do 2 f_equal.
      rewrite app_assoc, drop_app_length'; [done|]. rewrite length_app. lia. }
    fold wholeMsg. rewrite Hback. by rewrite decide_True.
  - intros _. split; [intros _|]; [split_and!; [done|done|done]|intros Hx; destruct Hx].
    cbn. by rewrite Hpe.
  - rewrite Hm. cbn [with_data msgData]. rewrite <- Hsp, <- Hlv.
    eapply protect_opened; [by rewrite Hlv|by rewrite Hlv|exact Hd|done..].
  - intros Hx. by rewrite Hpn in Hx.
Qed.

(** C4. A request goes through: what one engine prepares for a user at level
    authNoPriv or authPriv is sent, decoded and accepted by the authoritative
    engine, which gets back the user's security name and the scoped PDU, when both
    hold the same keys for the user, the level is the user's, the boots and time
    agree within the window, and the digest goes into its field (the field is the
    first run of zeros, and the MAC does not occur earlier). *)
Theorem usm_roundtrip boots time nowB bootsB timeB resB msg eB name level scoped sA o m p sA'
    sB mx n mac key pre post :
  level = 2 ∨ level = 3 → eB ≠ [] →
  prepare H B c boots time createRow msg (Some eB) name level scoped None sA = (Ok (o, m, p), sA') →
  ok sB → snmpEngineID (lcd sB) = eB → u_name (o_user o) ≠ [] →
  lcd_user (lcd sB) eB (u_name (o_user o)) = Ok (o_user o) →
  bad_level level (o_user o) p = false →
  bootsB ≠ 2147483647 → msgAuthoritativeEngineBoots p = bootsB →
  Z.abs (timeB - msgAuthoritativeEngineTime p) <= 150 →
  dget (macs H) (u_authProtocol (o_user o)) = Some (n, mac) → u_authKey (o_user o) = Some key →
  digest_field c m p n pre post →
  bytes_find (zeros n) (pre ++ zeros n ++ post) = Some (length pre) →
  let digest := mac key (pre ++ zeros n ++ post) in
  bytes_find digest (pre ++ digest ++ post) = Some (length pre) →
  let wholeMsg := pre ++ digest ++ post in
  (∃ e, generateRequestMsg H B c boots time createRow msg (Some eB) name level scoped sA =
     (Ok (e, wholeMsg), sA')) ∧
  ∃ msg', decodeMessage c wholeMsg = Ok (Some msg') ∧
  ∃ mx' ref sB', processIncomingMsg H B c nowB bootsB timeB resB mx (msgSecurityParameters msg')
    level wholeMsg msg' sB = (Ok (eB, u_securityName (o_user o), scoped, mx', ref), sB').
Proof.
  intros Hlevel HeB Hprep HokB Hown Hname Huser Hbad Hmax Hboots Htime Hmac Hkey Hfield Hz
    digest Hfirst wholeMsg.
  destruct (usm_delivers boots time nowB bootsB timeB resB msg eB name level scoped sA o m p sA'
    sB mx n mac key pre post) as (Hgen & msg' & Hdec & _ & _ & Hproc); try done.
  split; [exact Hgen|]. by exists msg'.
Qed.
End roundtrip.

(** C26. A failure that asks for a report can be reported: whatever exception
    [processIncomingMsg] ends with, if it names a counter to report, it carries the
    counter's value, the context, the size limit, and a state reference under which
    the user's data is still held, so the response made with it finds its user. *)
Theorem reports_are_answerable now boots time res mx params level wholeMsg msg s st s' :
  ok s → processIncomingMsg H B c now boots time res mx params level wholeMsg msg s =
    (Err (StatusInformation st), s') → is_Some (st_oid st) →
  ∃ ref d s'', carries ref st ∧ on_cache (ReqCache.Sec.pop ref) s' = (Ok d, s'').
Proof.
  intros Hs Hp Ho.
  destruct (process_spec H B c now boots time res mx params level wholeMsg msg s Hs)
    as (r & s1 & Hr & Hok & _ & _ & Hrep & _). rewrite Hp in Hr. injection Hr as <- <-.
  destruct (Hrep _ st eq_refl Ho) as (ref & d & Hc & Hd).
  destruct (pop_steps ref d s' Hok Hd) as (s2 & Hpop & _). by exists ref, d, s2.
Qed.

(** The discovery probe reveals nothing of the request: without a security engine
    ID what is sent does not depend on the user, the level, the flags, the context
    engine or the bindings and identifiers of the request; only the type of the PDU
    and the context name show. *)
Theorem discovery_reveals_nothing boots time createRow msg flags name name' level level'
    scoped scoped' s :
  pduType (scopedData scoped) = pduType (scopedData scoped') →
  contextName scoped = contextName scoped' →
  generateRequestMsg H B c boots time createRow msg None name level scoped s =
  generateRequestMsg H B c boots time createRow (with_flags flags msg) None name' level' scoped' s.
Proof.
  intros Ht Hn. unfold generateRequestMsg, generateRequestOrResponseMsg, prepare, select, discovery,
    on_requestIds, zoom, mbind, M_bind.
  unfold PduApi.setDefaults. rewrite Ht, Hn. done.
Qed.
End properties.

(** ** Witnesses *)
Lemma demo_ids_wf : NextId.wf demo_ids.
Proof. apply (NextId.nextid_init_wf 16777215 256 0); [lia|lia|reflexivity]. Defined.

Lemma demo_ok own t : ok (demo_engine own t).
Proof. split; [apply TableIndex.row_init_ok|apply demo_ids_wf]. Defined.

Lemma usm_accepts_only_authentic_witness :
  ∃ p u n mac key m head tail,
    decodeUsm ToyCodec.toy (msgSecurityParameters demo_message) = Ok (Some p) ∧
    user_of (demo_lcd demo_authority) p = Ok u ∧ [117] = u_securityName u ∧
    dget (macs LocalKey.toy_hashlib) (u_authProtocol u) = Some (n, mac) ∧ u_authKey u = Some key ∧
    msgAuthenticationParameters p = mac key m ∧
    demo_wire = head ++ mac key m ++ tail ∧ m = head ++ zeros n ++ tail ∧
    (msgAuthoritativeEngineId p = demo_authority →
      msgAuthoritativeEngineBoots p = 4 ∧ 4 ≠ 2147483647 ∧
      Z.abs (1100 - msgAuthoritativeEngineTime p) <= 150).
Proof.
  eapply (usm_accepts_only_authentic LocalKey.toy_hashlib Priv.toy_backend ToyCodec.toy
    600 4 1100 (Some (1, 2)) 65507 _ 3 _ demo_message (demo_engine demo_authority ∅)
    (demo_authority, [117], demo_scoped, 65427, 1)); [apply demo_ok|reflexivity|].
  vm_compute. reflexivity.
Defined.

Lemma replayed_message_accepted_witness :
  ∃ ref s', demo_process 999999 77 5 (demo_engine [128; 0; 0; 0; 3]
      {[ demo_authority := (900, 123456, 123456, 999990) ]}) =
    (Ok (demo_authority, [117], demo_scoped, 65427, ref), s').
Proof.
  unfold demo_process.
  eapply (replayed_message_accepted LocalKey.toy_hashlib Priv.toy_backend ToyCodec.toy
    600 4 1100 (Some (1, 2)) 999999 77 5 (Some (1, 2)) 65507 _ 3 demo_wire demo_message
    (demo_engine [128; 0; 0; 0; 3] ∅)); [apply demo_ok|apply demo_ok|reflexivity| |done| ].
  - vm_compute. reflexivity.
  - right. vm_compute. lia.
Defined.

Definition demo_parts : outgoing * SNMPv3Message * UsmSecurityParameters :=
  match demo_prepared.1 with
  | Ok r => r
  | Err _ => (mk_outgoing blank_user [] 0 demo_scoped (demo_header []), demo_header [],
              mk_usm [] 0 0 [] [] [])
  end.

Lemma usm_roundtrip_witness :
  ∃ msg', decodeMessage ToyCodec.toy demo_wire = Ok (Some msg') ∧
  ∃ mx' ref s', processIncomingMsg LocalKey.toy_hashlib Priv.toy_backend ToyCodec.toy 600 4 1100
    None 65507 (msgSecurityParameters msg') 3 demo_wire msg' (demo_engine demo_authority ∅) =
    (Ok (demo_authority, [117], demo_scoped, mx', ref), s').
Proof.
  assert (Hw : demo_wire =
    let pre := ToyCodec.toy_pre demo_parts.1.2 demo_parts.2 12 in
    let post := ToyCodec.ser_data (msgData demo_parts.1.2) in
    pre ++ HmacMd5.mac LocalKey.toy_hashlib demo_key16 (pre ++ zeros 12 ++ post) ++ post)
    by (vm_compute; reflexivity).
  rewrite Hw. cbv zeta.
  refine (proj2 (usm_roundtrip LocalKey.toy_hashlib Priv.toy_backend ToyCodec.toy
    (λ _, raise KeyError) 1 50 600 4 1100 None (demo_header [7]) demo_authority [117] 3 demo_scoped
    demo_sender demo_parts.1.1 demo_parts.1.2 demo_parts.2 demo_prepared.2
    (demo_engine demo_authority ∅) 65507 12 (HmacMd5.mac LocalKey.toy_hashlib) demo_key16
    (ToyCodec.toy_pre demo_parts.1.2 demo_parts.2 12) (ToyCodec.ser_data (msgData demo_parts.1.2))
    _ _ _ _ _ _ _ _ _ _ _ _ _ _ _ _));
    [by right|done|vm_compute; reflexivity|apply demo_ok|reflexivity|by vm_compute|
     vm_compute; reflexivity|vm_compute; reflexivity|done|vm_compute; reflexivity|by vm_compute|
     vm_compute; reflexivity|vm_compute; reflexivity|apply ToyCodec.toy_field|
     vm_compute; reflexivity|vm_compute; reflexivity].
Defined.

(** A message of a user the engine does not know *)
Definition demo_stranger : octets :=
  ToyCodec.ser_usm (mk_usm demo_authority 4 1000 [118] [] []).
Definition demo_refused : result exn accepted * state :=
  processIncomingMsg LocalKey.toy_hashlib Priv.toy_backend ToyCodec.toy 600 4 1100 None 65507
    demo_stranger 2 [] (demo_header [5]) (demo_engine demo_authority ∅).
Definition demo_status : status :=
  match demo_refused.1 with Err (StatusInformation st) => st | _ => status_of otherError end.

Lemma reports_are_answerable_witness :
  ∃ ref d s'', carries ref demo_status ∧
    on_cache (ReqCache.Sec.pop ref) demo_refused.2 = (Ok d, s'').
Proof.
  eapply (reports_are_answerable LocalKey.toy_hashlib Priv.toy_backend ToyCodec.toy
    600 4 1100 None 65507 demo_stranger 2 [] (demo_header [5]) (demo_engine demo_authority ∅));
    [apply demo_ok|vm_compute; reflexivity|].
  eexists. vm_compute. reflexivity.
Defined.

Lemma discovery_reveals_nothing_witness :
  generateRequestMsg LocalKey.toy_hashlib Priv.toy_backend ToyCodec.toy 1 50 (λ _, raise KeyError)
    (demo_header [7]) None [117] 3 demo_scoped demo_sender =
  generateRequestMsg LocalKey.toy_hashlib Priv.toy_backend ToyCodec.toy 1 50 (λ _, raise KeyError)
    (with_flags [4] (demo_header [7])) None [] 1
    (mk_scoped [9] [] (mk_pdu GetRequestPDU 8 0 0 [])) demo_sender.
Proof. apply discovery_reveals_nothing; reflexivity. Defined.
End UsmSpec.
