(* ===== verification/UsmClocks.v ===== *)
(** * The clocks of peer engines

    What the user-based security model remembers of an engine's boots and time is
    forgotten: every entry of the timeline is queued under a tick of the timer. *)
From S2P Require Export Usm.
Import V3 Usm.
#[local] Open Scope Z_scope.

Module UsmClocks.

(** ** What the message path does to the clocks of the peers *)
Definition preserves {A} (P : state → Prop) (m : U A) : Prop := ∀ s, P s → P (m s).2.

(** A property of the timeline, its queue and its timer alone *)
Definition clockwork (u : Usm) : gmap octets clock_entry * gmap Z (list octets) * Z :=
  (timeline u, timelineExpQueue u, expirationTimer u).
Definition of_clocks (P : state → Prop) : Prop :=
  ∀ s s', clockwork (usm s') = clockwork (usm s) → P s → P s'.

Section preservation.
Context (P : state → Prop) (HP : of_clocks P).

Lemma preserves_quiet {A} (m : U A) :
  (∀ s, clockwork (usm (m s).2) = clockwork (usm s)) → preserves P m.
Proof. intros Hm s Hs. eapply HP; [apply Hm|done]. Qed.

Lemma preserves_bind {A B'} (m : U A) (k : A → U B') :
  preserves P m → (∀ a, preserves P (k a)) → preserves P (m ≫= k).
Proof.
  intros Hm Hk s Hs. unfold mbind, M_bind. specialize (Hm s Hs).
  destruct (m s) as [[a|e] s']; [by apply Hk|done].
Qed.

Lemma preserves_try {A} (m : U A) h :
  preserves P m → (∀ e, match h e with Some k => preserves P k | None => True end) →
  preserves P (try_except m h).
Proof.
  intros Hm Hh s Hs. unfold try_except. specialize (Hm s Hs).
  destruct (m s) as [[a|e] s']; [done|]. specialize (Hh e). destruct (h e); [by apply Hh|done].
Qed.

Lemma preserves_ret {A} (a : A) : preserves P (mret a).
Proof. by apply preserves_quiet. Qed.
Lemma preserves_raise {A} e : preserves P (raise (A := A) e).
Proof. by apply preserves_quiet. Qed.
Lemma preserves_gets {A} (f : state → A) : preserves P (gets f).
Proof. by apply preserves_quiet. Qed.
Lemma preserves_liftR {A} (r : result exn A) : preserves P (liftR r).
Proof. by apply preserves_quiet. Qed.
Lemma preserves_count n : preserves P (count n).
Proof. by apply preserves_quiet. Qed.
Lemma preserves_on_cache {A} (m : M exn _ A) : preserves P (on_cache m).
Proof. apply preserves_quiet. intros s. unfold on_cache, zoom. by destruct (m _). Qed.
Lemma preserves_on_entry {A} (m : M exn _ A) : preserves P (on_entry m).
Proof. apply preserves_quiet. intros s. unfold on_entry, zoom. by destruct (m _). Qed.
Lemma preserves_on_requestIds {A} (m : M exn _ A) : preserves P (on_requestIds m).
Proof. apply preserves_quiet. intros s. unfold on_requestIds, zoom. by destruct (m _). Qed.
Lemma preserves_on_localInt {A} id (m : M exn _ A) : preserves P (on_localInt id m).
Proof. apply preserves_quiet. intros s. unfold on_localInt, zoom. by destruct (m _). Qed.
Lemma preserves_zoom_lcd {A} (m : M exn LCD A) :
  preserves P (zoom lcd (λ l s, mk_state (usm s) l) m).
Proof. apply preserves_quiet. intros s. unfold zoom. by destruct (m _). Qed.
Lemma preserves_update_lcd f : preserves P (update_lcd f).
Proof. apply preserves_quiet. intros s. unfold update_lcd. by destruct (f _). Qed.

Lemma rebuild_users_clocks l u : clockwork (rebuild_users l u).2 = clockwork u.
Proof.
  unfold rebuild_users. destruct (negb _); [|done]. unfold modify, mbind, M_bind. cbv beta iota.
  pose proof (Column.for_each_inv (λ u', clockwork u' = clockwork u) (usmUserEngineID l)
    (λ name _, λ u, match add_user l name (securityToUserMap u) with
       | Ok m => (Ok tt, set_users (paramsBranchId u) m u)
       | Err e => (Err e, u) end)) as Hf.
  specialize (Hf ltac:(intros n v u' Hu; cbv beta; by case_match)
    (set_users (paramsBranchId u) [] u) eq_refl).
  destruct (Column.for_each _ _ _) as [[a|e] u']; exact Hf.
Qed.

Lemma preserves_sec2usr n e : preserves P (sec2usr n e).
Proof.
  unfold sec2usr. apply preserves_bind; [apply preserves_gets|]. intros l.
  apply preserves_bind.
  - apply preserves_quiet. intros s. unfold zoom. pose proof (rebuild_users_clocks l (usm s)) as Hc.
    by destruct (rebuild_users l (usm s)).
  - intros _. apply preserves_bind; [apply preserves_gets|]. intros m. case_match;
      [apply preserves_ret|apply preserves_raise].
Qed.
End preservation.

Create HintDb usm.
#[local] Hint Resolve preserves_ret preserves_raise preserves_gets preserves_liftR preserves_count
  preserves_on_cache preserves_on_entry preserves_on_requestIds preserves_on_localInt
  preserves_zoom_lcd preserves_update_lcd preserves_sec2usr : usm.

(** Follow the structure of a computation. *)
Ltac preserve :=
  repeat first
    [ by eauto with usm
    | apply preserves_bind; [|intros]
    | apply preserves_try; [|intros]
    | progress (case_match; simplify_eq)
    | done ].

Section clocks.
Context (H : hashlib) (B : cipherbackend) (c : codec) (P : state → Prop) (HP : of_clocks P).

Lemma preserves_getUserInfo e n : preserves P (getUserInfo e n).
Proof. unfold getUserInfo, user_row. preserve. Qed.
#[local] Hint Resolve preserves_getUserInfo : usm.

Lemma preserves_report {A} i e n level : preserves P (report (A := A) i e n level).
Proof. unfold report. preserve. Qed.
#[local] Hint Resolve preserves_report : usm.

Lemma preserves_generate boots time createRow msg e name level scoped ref :
  preserves P (generateRequestOrResponseMsg H B c boots time createRow msg e name level scoped ref).
Proof.
  unfold generateRequestOrResponseMsg, prepare, select, discovery, lookup_user, clone_user,
    cloneUserInfo, user_row, known_user, protect. preserve.
Qed.

(** The only thing an incoming message may do to the clocks is [sync]. *)
Lemma preserves_process now boots time res mx params level wholeMsg msg :
  (∀ e b t, preserves P (sync now res e b t)) →
  preserves P (processIncomingMsg H B c now boots time res mx params level wholeMsg msg).
Proof.
  intros Hsync. unfold processIncomingMsg, check_engine, find_user, verify, check_level,
    authenticate, check_time, check_own_time, check_peer_time, decrypt, check_discovery. preserve.
Qed.
End clocks.

(** ** Reachable states of an engine with a fixed timer resolution *)
Section reachable.
Context (H : hashlib) (B : cipherbackend) (c : codec) (res : option (Z * Z)).

Inductive step : state → state → Prop :=
  | step_incoming now boots time mx params level wholeMsg msg s :
      step s (processIncomingMsg H B c now boots time res mx params level wholeMsg msg s).2
  | step_outgoing boots time createRow msg e name level scoped ref s :
      step s (generateRequestOrResponseMsg H B c boots time createRow msg e name level scoped ref s).2
  | step_release ref s : step s (releaseStateInformation ref s).2
  | step_tick s : step s (receiveTimerTick s).2.

(** From an engine that knows no peer *)
Definition reachable (s : state) : Prop :=
  ∃ s0, timeline (usm s0) = ∅ ∧ rtc step s0 s.

(** How many ticks an entry lives *)
Definition lifetime : Z := expireAt res 0.

(** Every entry is queued under a tick that is not past and at most [hi]. *)
Definition queued_until (hi : Z) (s : state) : Prop :=
  ∀ e, is_Some (timeline (usm s) !! e) → ∃ t es,
    timelineExpQueue (usm s) !! t = Some es ∧ e ∈ es ∧ expirationTimer (usm s) ≤ t ≤ hi.
Definition queued (s : state) : Prop := queued_until (expirationTimer (usm s) + lifetime) s.

Lemma queued_of_clocks : of_clocks queued.
Proof.
  intros s s' Hc Hs e He. unfold clockwork in Hc. injection Hc as Ht Hq Hx.
  rewrite Ht in He. rewrite Hq, Hx. by apply Hs.
Qed.

Lemma expireAt_lifetime t : expireAt res t = t + lifetime.
Proof. unfold lifetime, expireAt. destruct (default (1, 1) res). lia. Qed.

Lemma sync_queued now e b tm : 0 ≤ lifetime → preserves queued (sync now res e b tm).
Proof.
  intros Hl s Hs e' He'. unfold sync, modify in *. cbn in *.
  rewrite expireAt_lifetime in *. set (t := expirationTimer (usm s) + lifetime) in *.
  destruct (decide (e' = e)) as [->|Hne].
  - exists t. eexists. rewrite lookup_insert_eq. split; [done|]. split; [set_solver|lia].
  - rewrite lookup_insert_ne in He' by done. destruct (Hs e' He') as (t' & es & Hq & Hin & Hb).
    destruct (decide (t' = t)) as [->|Ht'].
    + exists t. eexists. rewrite lookup_insert_eq. split; [done|]. rewrite Hq.
      split; [set_solver|done].
    + exists t', es. rewrite lookup_insert_ne by done. done.
Qed.

Lemma foldl_delete_lookup {V} (es : list octets) (t : gmap octets V) e :
  is_Some (foldl (λ t e, delete e t) t es !! e) → is_Some (t !! e) ∧ e ∉ es.
Proof.
  revert t; induction es as [|x es IH]; intros t; cbn; [intros; split; [done|set_solver]|].
  intros [Hd Hn]%IH. destruct (decide (e = x)) as [->|Hx].
  - rewrite lookup_delete_eq in Hd. by destruct Hd.
  - rewrite lookup_delete_ne in Hd by done. split; [done|set_solver].
Qed.

(** A tick moves the clock and keeps the deadline. *)
Lemma tick_queued hi s : queued_until hi s →
  queued_until hi (receiveTimerTick s).2 ∧
  expirationTimer (usm (receiveTimerTick s).2) = expirationTimer (usm s) + 1.
Proof.
  intros Hs. unfold receiveTimerTick, modify, put_usm, expireTimelineInfo. cbn [snd usm].
  set (T := expirationTimer (usm s)).
  destruct (timelineExpQueue (usm s) !! T) as [es|] eqn:Hq; cbn; (split; [|done]); intros e He; cbn in *.
  - apply foldl_delete_lookup in He as [He Hes]. destruct (Hs e He) as (t & es' & Ht & Hin & Hb).
    fold T in Hb. assert (t ≠ T) by (intros ->; rewrite Hq in Ht; by simplify_eq).
    exists t, es'. rewrite lookup_delete_ne by done. split_and!; [done|done|fold T; lia|lia].
  - destruct (Hs e He) as (t & es' & Ht & Hin & Hb). fold T in Hb.
    assert (t ≠ T) by (intros ->; by rewrite Hq in Ht).
    exists t, es'. split_and!; [done|done|fold T; lia|lia].
Qed.

Lemma queued_weaken hi hi' s : hi ≤ hi' → queued_until hi s → queued_until hi' s.
Proof. intros Hh Hs e He. destruct (Hs e He) as (t & es & ? & ? & ?). exists t, es. split_and!; auto; lia. Qed.

Lemma step_queued s s' : 0 ≤ lifetime → step s s' → queued s → queued s'.
Proof.
  intros Hl [] Hs.
  - apply preserves_process; [apply queued_of_clocks|intros; by apply sync_queued|done].
  - apply preserves_generate; [apply queued_of_clocks|done].
  - unfold releaseStateInformation. apply (preserves_bind _ _ _ (preserves_on_cache _ queued_of_clocks _)).
    + intros. apply preserves_ret, queued_of_clocks.
    + done.
  - destruct (tick_queued _ _ Hs) as [Hq Ht]. unfold queued. rewrite Ht.
    eapply queued_weaken; [|exact Hq]. lia.
Qed.

Fixpoint ticks (n : nat) (s : state) : state :=
  match n with O => s | S n' => ticks n' (receiveTimerTick s).2 end.

Lemma ticks_queued n hi s : queued_until hi s →
  queued_until hi (ticks n s) ∧ expirationTimer (usm (ticks n s)) = expirationTimer (usm s) + Z.of_nat n.
Proof.
  revert s; induction n as [|n IH]; intros s Hs; cbn [ticks]; [split; [done|lia]|].
  destruct (tick_queued _ _ Hs) as [Hq Ht]. destruct (IH _ Hq) as [Hq' ->]. split; [done|lia].
Qed.

Lemma reachable_queued s : 0 ≤ lifetime → reachable s → queued s.
Proof.
  intros Hl (s0 & H0 & Hr).
  assert (Hq : queued s0) by (intros e [x He]; by rewrite H0, lookup_empty in He).
  clear H0. induction Hr as [|s1 s2 s3 Hst _ IH]; [done|]. by eapply IH, step_queued.
Qed.

(** What is known of a peer's clock is forgotten: in every reachable state, once
    no message has come for the lifetime of an entry (300 seconds in ticks) and one
    tick, the timeline is empty, however many messages the engine has exchanged. *)
Theorem timeline_forgets s :
  0 ≤ lifetime → reachable s → timeline (usm (ticks (S (Z.to_nat lifetime)) s)) = ∅.
Proof.
  intros Hl Hr. pose proof (reachable_queued s Hl Hr) as Hq.
  destruct (ticks_queued (S (Z.to_nat lifetime)) _ _ Hq) as [Hq' Ht].
  apply map_eq. intros e. rewrite lookup_empty. apply eq_None_not_Some. intros He.
  destruct (Hq' e He) as (t & es & _ & _ & Hb). rewrite Ht in Hb. lia.
Qed.
End reachable.

(** ** Witness: a message of an engine that is then not heard of for 600 ticks *)
Definition demo_heard : state := (demo_process 600 4 1100 (demo_engine [128; 0; 0; 0; 3] ∅)).2.

Lemma timeline_forgets_witness :
  timeline (usm (ticks (S (Z.to_nat (lifetime (Some (1, 2))))) demo_heard)) = ∅.
Proof.
  apply (timeline_forgets LocalKey.toy_hashlib Priv.toy_backend ToyCodec.toy (Some (1, 2)) demo_heard);
    [apply Z.leb_le; reflexivity|].
  exists (demo_engine [128; 0; 0; 0; 3] ∅). split; [reflexivity|]. apply rtc_once.
  apply (step_incoming _ _ _ _ 600 4 1100 65507 (msgSecurityParameters demo_message) 3 demo_wire
    demo_message).
Defined.

Example demo_heard_remembers : timeline (usm demo_heard) = {[ demo_authority := (4, 1000, 1000, 600) ]}.
Proof. reflexivity. Qed.
End UsmClocks.
