(* ===== verification/MpV3.v ===== *)
(** * SNMPv3 message processing (src/pysnmp/proto/mpmod/rfc3412.py)

    [SnmpV3MessageProcessingModel]: outgoing requests, responses and reports,
    and the way in.  The security model is any value of the interface
    [Mp.security_model]; the dispatcher's [returnResponsePdu], which
    [prepareDataElements] calls to answer with a report, is an argument. *)
From S2P Require Export SecModel V3Msg.
Import V3 Mp.
#[local] Open Scope Z_scope.

Module MpV3.
Section defs.
(** Transport addresses, the state of the security models, the rest of the engine *)
Context {addr : Type} `{Countable addr} {S X : Type}.

(** What is kept for a request that was sent: the keywords of [pushByMsgId]. *)
Record pending : Type := mk_pending {
  p_sendPduHandle : Z;
  p_msgID : Z;
  p_snmpEngineID : octets;
  p_securityModel : Z;
  p_securityName : octets;
  p_securityLevel : Z;
  p_contextEngineId : octets;
  p_contextName : octets;
  p_transport : oid * addr;
}.

(** What is kept for a request that is served: the keywords of [pushByStateRef]. *)
Record request : Type := mk_request {
  r_msgVersion : Z;
  r_msgID : Z;
  r_contextEngineId : octets;
  r_contextName : octets;
  r_securityModel : Z;
  r_securityName : option octets;
  r_securityLevel : Z;
  r_securityStateReference : Z;
  r_reportableFlag : bool;
  r_msgMaxSize : Z;
  r_maxSizeResponseScopedPDU : Z;
  r_transport : oid * addr;
}.

(** An entry of [__engineIdCache] *)
Record peer : Type := mk_peer {
  securityEngineId : octets;
  peerContextEngineId : octets;
  peerContextName : octets;
}.

Record Mp3 : Type := mk_mp3 {
  cache : MpCache.Cache request pending;
  engineIdCache : gmap (oid * addr) peer;
  engineIdCacheExpQueue : gmap Z (list (oid * addr));
  expirationTimer : Z;
}.

Abbreviation state := (Mp.world Mp3 S X).
Abbreviation W := (M exn state).

Definition set_cache (c : MpCache.Cache request pending) (m : Mp3) : Mp3 :=
  mk_mp3 c (engineIdCache m) (engineIdCacheExpQueue m) (expirationTimer m).
Definition set_engines (t : gmap (oid * addr) peer) (q : gmap Z (list (oid * addr))) (m : Mp3) :
    Mp3 := mk_mp3 (cache m) t q (expirationTimer m).
Definition set_timer (n : Z) (m : Mp3) : Mp3 :=
  mk_mp3 (cache m) (engineIdCache m) (engineIdCacheExpQueue m) n.

Definition on_cache {A} (m : M exn (MpCache.Cache request pending) A) : W A :=
  on_mp (zoom cache set_cache m).

Abbreviation sm := (security_model S SNMPv3Message octets scoped_pdu).
(** [snmpEngine.securityModels]; the codec; [snmpEngineID] and
    [snmpEngineMaxMessageSize] of the SNMP-FRAMEWORK-MIB *)
Context (securityModels : Z → option sm) (c : codec)
        (snmpEngineID : octets) (snmpEngineMaxMessageSize : Z).

Definition messageProcessingModelID : Z := 3.

(** 7.1.7d *)
Definition msgFlags_of (securityLevel : Z) (t : pdu_tag) : result exn Z :=
  f ← (if securityLevel =? 1 then Ok 0
       else if securityLevel =? 2 then Ok 1
       else if securityLevel =? 3 then Ok 3
       else Err (ProtocolError "Unknown securityLevel"));
  mret (if confirmedClassPDUs t then Z.lor f 4 else f).

(** [_assemble_msg_header]; the security model of a request is a fresh value
    and has to satisfy the type, that of a response is taken as it is. *)
Definition assemble_msg_header (msgID securityLevel securityModel : Z) (t : pdu_tag)
    (response : bool) : result exn HeaderData :=
  f ← msgFlags_of securityLevel t;
  if response || ((3 <=? securityModel) && (securityModel <=? 2147483647))
  then mret (mk_header msgID snmpEngineMaxMessageSize [f] securityModel)
  else Err (PyAsn1Error "securityModel").

(** The message the security model completes *)
Definition message_of (h : HeaderData) (scopedPDU : scoped_pdu) : SNMPv3Message :=
  mk_v3 messageProcessingModelID h [] (plaintext scopedPDU).

(** [getPeerEngineInfo] *)
Definition getPeerEngineInfo (k : oid * addr) : W (option peer) :=
  gets (λ w, engineIdCache (mp w) !! k).

(** [x or y] on octet strings *)
Definition or_else (x y : octets) : octets := match x with [] => y | _ => x end.

(** 7.1.4 *)
Definition outgoing_context (p : option peer) (contextEngineId : option octets) : octets :=
  match contextEngineId, p with
  | Some e, _ => e
  | None, None => snmpEngineID
  | None, Some p => or_else (peerContextEngineId p) (securityEngineId p)
  end.
(** 7.1.9a *)
Definition outgoing_engine (t : pdu_tag) (p : option peer) : option octets :=
  if unconfirmedClassPDUs t then Some snmpEngineID else securityEngineId <$> p.

(** [prepareOutgoingMessage] *)
Definition prepareOutgoingMessage (transport : oid * addr) (securityModel : Z)
    (securityName : octets) (securityLevel : Z) (contextEngineId : option octets)
    (contextName : octets) (pdu : pdu) (sendPduHandle : Z) : W ((oid * addr) * octets) :=
  msgID ← on_cache MpCache.newMsgID;
  peer ← getPeerEngineInfo transport;
  let contextEngineId := outgoing_context peer contextEngineId in
  let scopedPDU := mk_scoped contextEngineId contextName pdu in
  h ← liftR (assemble_msg_header msgID securityLevel securityModel (pduType pdu) false);
  match securityModels securityModel with
  | None => raise (StatusInfo unsupportedSecurityModel)
  | Some smHandler =>
      r ← on_sec (sm_generateRequestMsg smHandler (message_of h scopedPDU) snmpEngineMaxMessageSize
            securityModel (outgoing_engine (pduType pdu) peer) securityName securityLevel scopedPDU);
      if snmpEngineMaxMessageSize <? Z.of_nat (length r.2) then raise (StatusInfo tooBig)
      else
        (if confirmedClassPDUs (pduType pdu) then
           on_cache (MpCache.pushByMsgId p_sendPduHandle msgID
             (mk_pending sendPduHandle msgID snmpEngineID securityModel securityName securityLevel
                contextEngineId contextName transport))
         else mret tt);;
        mret (transport, r.2)
  end.

(** ** [prepareResponseMessage] *)

(** 7.1.3a and b: may a report be sent *)
Definition reportable (pdu : option pdu) (reportableFlag : bool) : bool :=
  match pdu with
  | None => reportableFlag
  | Some p => confirmedClassPDUs (pduType p)
  end.

(** 7.1.3c *)
Definition report_pdu (pdu : option pdu) (oid : oid) (val : value) : Types.pdu :=
  mk_pdu ReportPDU (match pdu with Some p => requestID p | None => 0 end) 0 0 [(oid, val)].

(** 7.1.3: the PDU to send, and the security level and the context it is sent in *)
Record answer : Type := mk_answer {
  a_pdu : Types.pdu;
  a_securityLevel : Z;
  a_contextEngineId : octets;
  a_contextName : octets;
}.

Definition answer_of (r : request) (pdu : option pdu) (statusInformation : option status) :
    result exn answer :=
  match st ← statusInformation; n ← st_oid st; Some (st, n) with
  | Some (st, n) =>
      if negb (reportable pdu (r_reportableFlag r)) then Err (StatusInfo loopTerminated)
      else
        v ← from_option_exc KeyError (st_val st);
        mret (mk_answer (report_pdu pdu n v) (default 1 (st_securityLevel st))
                (default snmpEngineID (st_contextEngineId st)) (default [] (st_contextName st)))
  | None =>
      p ← from_option_exc AttributeError pdu;
      mret (mk_answer p (r_securityLevel r) (r_contextEngineId r) (r_contextName r))
  end.

(** [prepareResponseMessage] *)
Definition prepareResponseMessage (pdu : option pdu) (stateReference : option Z)
    (statusInformation : option status) : W ((oid * addr) * octets) :=
  r ← on_cache (match stateReference with
                | Some ref => MpCache.popByStateRef ref
                | None => raise (ProtocolError "Cache miss for stateReference")
                end);
  a ← liftR (answer_of r pdu statusInformation);
  let scopedPDU := mk_scoped (or_else (a_contextEngineId a) snmpEngineID) (a_contextName a) (a_pdu a) in
  h ← liftR (assemble_msg_header (r_msgID r) (a_securityLevel a) (r_securityModel r)
               (pduType (a_pdu a)) true);
  match securityModels (r_securityModel r) with
  | None => raise (StatusInfo unsupportedSecurityModel)
  | Some smHandler =>
      m ← on_sec (sm_generateResponseMsg smHandler (message_of h scopedPDU) snmpEngineMaxMessageSize
            (r_securityModel r) snmpEngineID (r_securityName r) (a_securityLevel a) scopedPDU
            (r_securityStateReference r));
      if Z.min snmpEngineMaxMessageSize (r_msgMaxSize r) <? Z.of_nat (length m.2)
      then raise (StatusInfo tooBig)
      else mret (r_transport r, m.2)
  end.

(** ** [prepareDataElements] *)

(** The header of an incoming message, parsed *)
Record incoming : Type := mk_incoming {
  i_msgVersion : Z;
  i_msgID : Z;
  i_maxMessageSize : Z;
  i_reportableFlag : bool;
  i_securityModel : Z;
  i_securityLevel : Z;
  i_transport : oid * addr;
}.

(** 7.2.5 *)
Definition securityLevel_of (msgFlags : Z) : option Z :=
  match Z.land msgFlags 3 with 0 => Some 1 | 1 => Some 2 | 3 => Some 3 | _ => None end.

Definition snmpUnknownSecurityModels : oid := [1; 3; 6; 1; 6; 3; 11; 2; 1; 1; 0].
Definition snmpInvalidMsgs : oid := [1; 3; 6; 1; 6; 3; 11; 2; 1; 2; 0].

(** 7.2.2 to 7.2.5 *)
Definition parse (transport : oid * addr) (wholeMsg : octets) : W (SNMPv3Message * incoming * sm) :=
  msg ← liftR (decodeMessage c wholeMsg);
  match msg with
  | None => raise (StatusInfo parseError)
  | Some msg =>
      let h := msgGlobalData msg in
      match msgFlags h with
      | [msgFlags] =>
          match securityModels (msgSecurityModel h) with
          | None =>
              count snmpUnknownSecurityModels;;
              raise (StatusInfo unsupportedSecurityModel)
          | Some smHandler =>
              match securityLevel_of msgFlags with
              | None => count snmpInvalidMsgs;; raise (StatusInfo invalidMsg)
              | Some securityLevel =>
                  mret (msg, mk_incoming (msgVersion msg) (msgID h) (msgMaxSize h)
                               (Z.testbit msgFlags 2) (msgSecurityModel h) securityLevel transport,
                        smHandler)
              end
          end
      | _ => raise ValueError
      end
  end.

(** What is kept to answer an incoming message *)
Definition request_of (i : incoming) (contextEngineId contextName : octets)
    (securityName : option octets) (securityStateReference maxSizeResponseScopedPDU : Z) : request :=
  mk_request (i_msgVersion i) (i_msgID i) contextEngineId contextName (i_securityModel i)
    securityName (i_securityLevel i) securityStateReference (i_reportableFlag i)
    (i_maxMessageSize i) maxSizeResponseScopedPDU (i_transport i).

(** [newStateReference], [pushByStateRef] *)
Definition push_request (r : request) : W Z :=
  stateReference ← on_cache MpCache.newStateReference;
  on_cache (MpCache.pushByStateRef stateReference r);;
  mret stateReference.

Section incoming.
(** [returnResponsePdu] of the dispatcher, with model 3 and the message's own
    security model and level: the PDU, the state reference, the status *)
Context (returnResponsePdu : option pdu → Z → status → W unit).

(** 7.2.6a: a failure of the security model is answered, or not, and raised. *)
Definition report_failure (i : incoming) (smError : status) : W unit :=
  match st_errorIndication smError, st_oid smError with
  | Some _, Some _ =>
      securityStateReference ← liftR (from_option_exc KeyError (st_securityStateReference smError));
      contextEngineId ← liftR (from_option_exc KeyError (st_contextEngineId smError));
      contextName ← liftR (from_option_exc KeyError (st_contextName smError));
      let pdu := scopedData <$> st_scopedPDU smError in
      maxSize ← liftR (from_option_exc KeyError (st_maxSizeResponseScopedPDU smError));
      stateReference ← push_request
        (request_of i contextEngineId contextName None securityStateReference maxSize);
      try_except (returnResponsePdu pdu stateReference smError)
        (λ e, if is_StatusInformation e then Some (mret tt) else None)
  | _, _ => mret tt
  end.

(** 7.2.6 *)
Definition authorize (i : incoming) (smHandler : sm) (wholeMsg : octets) (msg : SNMPv3Message) :
    W (octets * octets * scoped_pdu * Z * Z) :=
  try_except
    (on_sec (sm_processIncomingMsg smHandler (i_maxMessageSize i) (msgSecurityParameters msg)
       (i_securityModel i) (i_securityLevel i) wholeMsg msg))
    (λ e, match e with
          | StatusInformation smError => Some (report_failure i smError;; raise e)
          | _ => None
          end).

(** The transport dispatcher's [getTimerResolution()] as a fraction, when there is one *)
Context (timerResolution : option (Z * Z)).

(** [int(self.__expirationTimer + 300 / resolution)] *)
Definition engine_expireAt (r : Z * Z) (timer : Z) : Z := timer + (300 * r.2) / r.1.

(** A peer engine is learned from its reports. *)
Definition sniff (k : oid * addr) (engineId : octets) (scopedPDU : scoped_pdu) : W unit :=
  known ← gets (λ w, engineIdCache (mp w) !! k);
  match known with
  | Some _ => mret tt
  | None =>
      if internalClassPDUs (pduType (scopedData scopedPDU)) then
        modify (λ w, put_mp (set_engines
          (<[k := mk_peer engineId (contextEngineId scopedPDU) (contextName scopedPDU)]>
             (engineIdCache (mp w))) (engineIdCacheExpQueue (mp w)) (mp w)) w);;
        res ← liftR (from_option_exc AttributeError timerResolution);
        modify (λ w, let t := engine_expireAt res (expirationTimer (mp w)) in
          put_mp (set_engines (engineIdCache (mp w))
            (<[t := default [] (engineIdCacheExpQueue (mp w) !! t) ++ [k]]>
               (engineIdCacheExpQueue (mp w))) (mp w)) w)
      else mret tt
  end.

(** [_snmpErrors] *)
Definition snmpErrors (n : oid) : option errind :=
  match n with
  | [1; 3; 6; 1; 6; 3; 15; 1; 1; k; 0] =>
      match k with
      | 1 => Some unsupportedSecurityLevel | 2 => Some notInTimeWindow | 3 => Some unknownUserName
      | 4 => Some unknownEngineID | 5 => Some wrongDigest | 6 => Some decryptionError
      | _ => None
      end
  | _ => None
  end.

(** 7.2.11a: what a report tells the application *)
Definition report_status (varBinds : list var_bind) (sendPduHandle : Z) : status :=
  match varBinds with
  | (n, v) :: _ =>
      mk_status (Some (default (reportPduReceived n) (snmpErrors n))) (Some n) (Some v)
        None None None None None None None (Some sendPduHandle) None None None None
  | [] => mk_status None None None None None None None None None None (Some sendPduHandle)
            None None None None
  end.

(** 7.2.10 *)
Definition find_pending (i : incoming) (release : W unit) (t : pdu_tag) : W (option pending) :=
  if responseClassPDUs t || internalClassPDUs t then
    try_except
      (p ← on_cache (MpCache.popByMsgId p_sendPduHandle (i_msgID i)); mret (Some p))
      (λ e, if is_ProtocolError e then Some (release;; raise (StatusInfo dataMismatch)) else None)
  else mret None.

(** 7.2.12b *)
Definition matches (i : incoming) (securityName : octets) (sp : scoped_pdu) (p : pending) : bool :=
  (i_securityModel i =? p_securityModel p) && bool_decide (securityName = p_securityName p) &&
  (i_securityLevel i =? p_securityLevel p) &&
  bool_decide (contextEngineId sp = p_contextEngineId p) &&
  bool_decide (contextName sp = p_contextName p).

Definition elements_of (i : incoming) (securityName : octets) (sp : scoped_pdu) (maxSize : Z)
    (sendPduHandle stateReference : option Z) : elements Types.pdu :=
  mk_elements (i_msgVersion i) (i_securityModel i) securityName (i_securityLevel i)
    (contextEngineId sp) (contextName sp) 1 (scopedData sp) (pduType (scopedData sp))
    sendPduHandle maxSize stateReference.

(** 7.2.7 to 7.2.14 *)
Definition deliver (i : incoming) (smHandler : sm) (engineId securityName : octets)
    (sp : scoped_pdu) (maxSize ref : Z) : W (elements Types.pdu) :=
  let release := on_sec (sm_releaseStateInformation smHandler ref) in
  let t := pduType (scopedData sp) in
  p ← find_pending i release t;
  let sendPduHandle := p_sendPduHandle <$> p in
  match p with
  | Some p =>
      if internalClassPDUs t then
        release;; raise (StatusInformation (report_status (varBinds (scopedData sp)) (p_sendPduHandle p)))
      else if negb (matches i securityName sp p) then
        release;; raise (StatusInfo dataMismatch)
      else
        release;; mret (elements_of i securityName sp maxSize sendPduHandle None)
  | None =>
      if confirmedClassPDUs t then
        if negb (bool_decide (engineId = snmpEngineID)) then
          release;; raise (StatusInfo engineIDMismatch)
        else
          stateReference ← push_request (request_of i (contextEngineId sp) (contextName sp)
            (Some securityName) ref maxSize);
          mret (elements_of i securityName sp maxSize sendPduHandle (Some stateReference))
      else if unconfirmedClassPDUs t then
        stateReference ← on_cache MpCache.newStateReference;
        release;; mret (elements_of i securityName sp maxSize sendPduHandle (Some stateReference))
      else release;; raise (StatusInfo unsupportedPDUtype)
  end.

(** [prepareDataElements] *)
Definition prepareDataElements (transport : oid * addr) (wholeMsg : octets) :
    W (elements Types.pdu) :=
  '(msg, i, smHandler) ← parse transport wholeMsg;
  '(engineId, securityName, sp, maxSize, ref) ← authorize i smHandler wholeMsg msg;
  sniff transport engineId sp;;
  deliver i smHandler engineId securityName sp maxSize ref.
End incoming.

(** ** The timer *)

(** [del self.__engineIdCache[engineKey]] *)
Definition del_engine (k : oid * addr) : M exn Mp3 unit := fun m =>
  match engineIdCache m !! k with
  | Some _ => (Ok tt, set_engines (delete k (engineIdCache m)) (engineIdCacheExpQueue m) m)
  | None => (Err KeyError, m)
  end.

(** [__expireEnginesInfo] *)
Definition expireEnginesInfo : M exn Mp3 unit := fun m =>
  (match engineIdCacheExpQueue m !! expirationTimer m with
   | Some ks =>
       mapM_ del_engine ks;;
       modify (λ m, set_engines (engineIdCache m)
                 (delete (expirationTimer m) (engineIdCacheExpQueue m)) m)
   | None => mret tt
   end;;
   modify (λ m, set_timer (expirationTimer m + 1) m)) m.

(** [receiveTimerTick] *)
Definition receiveTimerTick : W unit :=
  on_mp (expireEnginesInfo;; zoom cache set_cache MpCache.expireCaches).

(** [releaseStateInformation] of the base class *)
Definition releaseStateInformation (sendPduHandle : Z) : W unit :=
  on_cache (MpCache.releaseStateInformation p_sendPduHandle sendPduHandle).
End defs.
Arguments pending : clear implicits.
Arguments request : clear implicits.
Arguments Mp3 addr {_ _}.
End MpV3.
