(* ===== verification/MpV3Spec.v ===== *)
(** * What SNMPv3 message processing promises

    For every security model.  [delivered] is the abstract specification of
    [prepareDataElements]: which messages it passes on, with which state. *)
From S2P Require Export MpV3 UsmSpec Wp.
Import V3 Mp MpV3.
#[local] Open Scope Z_scope.

Module MpV3Spec.
Section spec.
Context {addr : Type} `{Countable addr} {S X : Type}.
Abbreviation state := (Mp.world (Mp3 addr) S X).
Abbreviation W := (M exn state).
Abbreviation sm := (security_model S SNMPv3Message octets scoped_pdu).
Context (securityModels : Z → option sm) (c : codec)
        (snmpEngineID : octets) (snmpEngineMaxMessageSize : Z).
Implicit Types w : state.

(** The requests a state has pending and those it is serving *)
Definition pendings w : gmap Z (pending addr * Z) := MpCache.msgIdIndex (cache (mp w)).
Definition served w : gmap Z (request addr * Z) := MpCache.stateReferenceIndex (cache (mp w)).
Definition with_cache (x : MpCache.Cache (request addr) (pending addr)) w : state :=
  put_mp (set_cache x (mp w)) w.
Definition ok w : Prop := MpCache.wf p_sendPduHandle (cache (mp w)).

#[local] Ltac wproj := unfold pendings, served, with_cache, put_mp, put_sec, set_cache, set_engines, set_timer;
  cbn [mp sec counters env cache engineIdCache engineIdCacheExpQueue expirationTimer
    MpCache.stateReferenceGen MpCache.msgIDGen MpCache.msgIdIndex MpCache.stateReferenceIndex
    MpCache.sendPduHandleIdx MpCache.expirationQueue MpCache.expirationTimer].

Lemma wp_on_cache {A} (m : M exn (MpCache.Cache (request addr) (pending addr)) A) Q w :
  wp m (λ r x, Q r (with_cache x w)) (cache (mp w)) → wp (on_cache (S := S) (X := X) m) Q w.
Proof. intros Hm. do 2 (apply wp_zoom). exact Hm. Qed.

Lemma wp_on_sec {A} (m : M exn S A) Q w :
  wp m (λ r s, Q r (put_sec s w)) (sec w) → wp (on_sec (Mp := Mp3 addr) (X := X) m) Q w.
Proof. apply wp_zoom. Qed.

Lemma wp_newMsgID Q (x : MpCache.Cache (request addr) (pending addr)) :
  (∀ r g, NextId.call (MpCache.msgIDGen x) = (r, g) →
     Q r (MpCache.mk_Cache (MpCache.stateReferenceGen x) g (MpCache.msgIdIndex x)
            (MpCache.stateReferenceIndex x) (MpCache.sendPduHandleIdx x)
            (MpCache.expirationQueue x) (MpCache.expirationTimer x))) →
  wp MpCache.newMsgID Q x.
Proof.
  intros HQ. apply wp_zoom. unfold wp. destruct (NextId.call _) eqn:E. by apply HQ.
Qed.

Lemma wp_newStateReference Q (x : MpCache.Cache (request addr) (pending addr)) :
  (∀ r g, NextId.call (MpCache.stateReferenceGen x) = (r, g) →
     Q r (MpCache.mk_Cache g (MpCache.msgIDGen x) (MpCache.msgIdIndex x)
            (MpCache.stateReferenceIndex x) (MpCache.sendPduHandleIdx x)
            (MpCache.expirationQueue x) (MpCache.expirationTimer x))) →
  wp MpCache.newStateReference Q x.
Proof.
  intros HQ. apply wp_zoom. unfold wp. destruct (NextId.call _) eqn:E. by apply HQ.
Qed.

Lemma call_not_status g e g' : NextId.call g = (Err e, g') → is_StatusInformation e = false.
Proof. unfold NextId.call. intros Hc. repeat case_match; by simplify_eq. Qed.

(** ** Sending *)

(** A request leaves a trace exactly when it goes out: whatever fails --- the
    level, the security model, its lookup of the user, the size, a message ID in
    use --- nothing is left pending; and a confirmed request that goes out is
    pending under a fresh message ID, with the parameters of the call, and is no
    longer than the engine's limit. *)
Theorem outgoing_is_pending transport model name level ctx ctxName p h w r w' :
  prepareOutgoingMessage securityModels snmpEngineID snmpEngineMaxMessageSize
    transport model name level ctx ctxName p h w = (r, w') →
  served w' = served w ∧ engineIdCache (mp w') = engineIdCache (mp w) ∧ env w' = env w ∧
  match r with
  | Err _ => pendings w' = pendings w ∧
      MpCache.sendPduHandleIdx (cache (mp w')) = MpCache.sendPduHandleIdx (cache (mp w))
  | Ok (transport', wholeMsg) =>
      transport' = transport ∧ Z.of_nat (length wholeMsg) <= snmpEngineMaxMessageSize ∧
      if confirmedClassPDUs (pduType p) then
        ∃ msgID, pendings w !! msgID = None ∧
          (MpCache.newMsgID (cache (mp w))).1 = Ok msgID ∧
          pendings w' = <[msgID := (mk_pending h msgID snmpEngineID model name level
              (outgoing_context snmpEngineID (engineIdCache (mp w) !! transport) ctx) ctxName
              transport, MpCache.expirationTimer (cache (mp w)) + 600)]> (pendings w)
      else pendings w' = pendings w
  end.
Proof.
  intros Hrun. wp_of Hrun. unfold prepareOutgoingMessage.
  apply wp_bind, wp_on_cache, wp_newMsgID. intros ri g Hid. destruct ri as [msgID|e]; [|wproj; done].
  unfold getPeerEngineInfo. do 2 wp_step. wp_steps.
  destruct (assemble_msg_header _ _ _ _ _ _) as [hd|e]; [|wproj; done].
  destruct (securityModels model) as [smh|]; [|wp_steps; wproj; done].
  apply wp_bind, wp_on_sec. unfold wp at 1. wproj.
  destruct (sm_generateRequestMsg _ _ _ _ _ _ _ _ _) as [[[par whole]|e] s1]; cbn [fst snd]; [|wproj; done].
  destruct (Z.ltb_spec snmpEngineMaxMessageSize (Z.of_nat (length whole))); [wp_steps; wproj; done|].
  apply wp_bind. destruct (confirmedClassPDUs (pduType p)) eqn:Hc; [|wp_steps; wproj; done].
  apply wp_on_cache. unfold wp at 1, MpCache.pushByMsgId. wproj.
  destruct (MpCache.msgIdIndex (cache (mp w)) !! msgID) as [x|] eqn:Hfree; cbn [fst snd]; wproj; [done|].
  apply wp_ret. wproj. unfold MpCache.set_queue, MpCache.set_handle, MpCache.set_msg. wproj.
  split_and!; try done. exists msgID. split_and!; [done| |done].
  unfold MpCache.newMsgID, zoom. by rewrite Hid.
Qed.
(** ** Receiving *)

(** What is passed on to the dispatcher, and what it leaves: a response to a
    pending request, which is pending no more; a request, which is being served
    now; or a notification. *)
Inductive delivered (i : incoming (addr := addr)) (smh : sm) (engineId name : octets)
    (sp : scoped_pdu) (mx ref : Z) w : elements pdu → state → Prop :=
  | delivered_response p t w' :
      responseClassPDUs (pduType (scopedData sp)) = true →
      internalClassPDUs (pduType (scopedData sp)) = false →
      pendings w !! i_msgID i = Some (p, t) → matches i name sp p = true →
      sm_releaseStateInformation smh ref (sec w) = (Ok tt, sec w') →
      pendings w' = delete (i_msgID i) (pendings w) → served w' = served w →
      delivered i smh engineId name sp mx ref w
        (elements_of i name sp mx (Some (p_sendPduHandle p)) None) w'
  | delivered_request sref w' :
      confirmedClassPDUs (pduType (scopedData sp)) = true → engineId = snmpEngineID →
      served w !! sref = None → sec w' = sec w → pendings w' = pendings w →
      served w' = <[sref := (request_of i (contextEngineId sp) (contextName sp) (Some name) ref mx,
                             MpCache.expirationTimer (cache (mp w)) + 600)]> (served w) →
      delivered i smh engineId name sp mx ref w (elements_of i name sp mx None (Some sref)) w'
  | delivered_notification sref w' :
      responseClassPDUs (pduType (scopedData sp)) = false →
      confirmedClassPDUs (pduType (scopedData sp)) = false →
      sm_releaseStateInformation smh ref (sec w) = (Ok tt, sec w') →
      pendings w' = pendings w → served w' = served w →
      delivered i smh engineId name sp mx ref w (elements_of i name sp mx None (Some sref)) w'.

Definition released (smh : sm) (ref : Z) w w' : Prop :=
  sec w' = (sm_releaseStateInformation smh ref (sec w)).2.

Lemma wp_release (smh : sm) ref {A} (k : W A) Q w :
  (∀ s', sm_releaseStateInformation smh ref (sec w) = (Ok tt, s') → wp k Q (put_sec s' w)) →
  (∀ e s', sm_releaseStateInformation smh ref (sec w) = (Err e, s') → Q (Err e) (put_sec s' w)) →
  wp (on_sec (sm_releaseStateInformation smh ref);; k) Q w.
Proof.
  intros Hok Herr. apply wp_bind, wp_on_sec. unfold wp at 1.
  destruct (sm_releaseStateInformation smh ref (sec w)) as [[[]|e] s']; cbn [fst snd]; auto.
Qed.

Lemma wp_release_raise (smh : sm) ref {A} e w w0 :
  sec w = sec w0 →
  wp (on_sec (sm_releaseStateInformation smh ref);; raise e)
    (λ (r : result exn A) w', match r with
      | Err (StatusInformation _) => released smh ref w0 w' | Err _ => True | Ok _ => False end) w.
Proof.
  intros Hs. apply wp_release; intros; [apply wp_raise; destruct e; try done|destruct e0; try done];
    unfold released; rewrite <- Hs; wproj; by rewrite H0.
Qed.
(** A state reference is taken, and the request stored under it. *)
Lemma wp_push_request r Q w :
  (∀ sref w', served w !! sref = None → sec w' = sec w → pendings w' = pendings w →
     served w' = <[sref := (r, MpCache.expirationTimer (cache (mp w)) + 600)]> (served w) →
     Q (Ok sref) w') →
  (∀ e w', is_StatusInformation e = false → Q (Err e) w') →
  wp (push_request r) Q w.
Proof.
  intros Hok Herr. unfold push_request. apply wp_bind, wp_on_cache, wp_newStateReference.
  intros ri g Hid. destruct ri as [sref|e]; [|apply Herr; by eapply call_not_status].
  apply wp_bind, wp_on_cache. unfold wp at 1, MpCache.pushByStateRef. wproj.
  destruct (MpCache.stateReferenceIndex (cache (mp w)) !! sref) eqn:Hf; cbn [fst snd].
  - by apply Herr.
  - apply wp_ret, Hok; done.
Qed.

Lemma find_pending_miss i (release : W unit) t w :
  responseClassPDUs t = true → pendings w !! i_msgID i = None →
  find_pending i release t w = (release;; raise (StatusInfo dataMismatch)) w.
Proof.
  intros Ht Hp. unfold find_pending. rewrite Ht. cbn [orb]. unfold try_except.
  unfold mbind at 1, M_bind at 1. unfold on_cache, on_mp, zoom, MpCache.popByMsgId.
  unfold pendings in Hp. rewrite Hp. cbn [is_ProtocolError].
  by replace (put_mp _ w) with w by (by destruct w as [[] ? ? ?]).
Qed.

Lemma wp_find_pending i (smh : sm) ref t Q w : ok w →
  ((responseClassPDUs t = false → Q (Ok None) w) ∧
   (responseClassPDUs t = true → pendings w !! i_msgID i = None →
      wp (on_sec (sm_releaseStateInformation smh ref);; raise (StatusInfo dataMismatch)) Q w) ∧
   (∀ p e w', responseClassPDUs t = true → pendings w !! i_msgID i = Some (p, e) →
      sec w' = sec w → pendings w' = delete (i_msgID i) (pendings w) → served w' = served w →
      Q (Ok (Some p)) w')) →
  wp (find_pending i (on_sec (sm_releaseStateInformation smh ref)) t) Q w.
Proof.
  intros Hwf (Hno & Hmiss & Hhit). unfold find_pending.
  replace (responseClassPDUs t || internalClassPDUs t) with (responseClassPDUs t) by (by destruct t).
  destruct (responseClassPDUs t); [|by apply wp_ret, Hno].
  apply wp_try, wp_bind, wp_on_cache. unfold wp at 1.
  destruct (pendings w !! i_msgID i) as [[p e]|] eqn:Hp.
  - destruct (MpCache.popByMsgId_ok p_sendPduHandle _ _ _ _ Hwf Hp) as (x & -> & _ & Hd & _ & Hs & _).
    cbn [fst snd]. apply wp_ret. by eapply Hhit.
  - unfold MpCache.popByMsgId. unfold pendings in Hp. rewrite Hp. cbn [fst snd is_ProtocolError].
    replace (with_cache (cache (mp w)) w) with w by (by destruct w as [[] ? ? ?]). by apply Hmiss.
Qed.

Lemma wp_deliver i (smh : sm) engineId name sp mx ref w : ok w →
  wp (deliver snmpEngineID i smh engineId name sp mx ref)
    (λ r w', match r with
             | Ok el => delivered i smh engineId name sp mx ref w el w'
             | Err (StatusInformation _) => released smh ref w w'
             | Err _ => True
             end) w.
Proof.
  intros Hwf. unfold deliver. apply wp_bind. apply wp_find_pending; [done|]. split_and!.
  - intros Hr. destruct (confirmedClassPDUs _) eqn:Hc.
    + destruct (bool_decide_reflect (engineId = snmpEngineID)) as [He|]; cbn [negb].
      * apply wp_bind, wp_push_request; [|by intros [] ? ?].
        intros sref w' Hf Hs Hp Hsv. apply wp_ret. by apply delivered_request.
      * eapply wp_mono; [by apply wp_release_raise|]. by intros [?|[]] ?.
    + rewrite confirmed_xor_unconfirmed in Hc. destruct (unconfirmedClassPDUs _) eqn:Hu; [|done].
      apply wp_bind, wp_on_cache, wp_newStateReference. intros ri g Hid.
      destruct ri as [sref|e]; [|eapply call_not_status in Hid; by destruct e].
      apply wp_release; intros.
      * apply wp_ret. apply delivered_notification; try done. by rewrite confirmed_xor_unconfirmed, Hu.
      * destruct e; try done. revert H0. unfold released. wproj. by intros ->.
  - intros _ _. eapply wp_mono; [by apply wp_release_raise|]. by intros [?|[]] ?.
  - intros p e w' Hr Hp Hs Hd Hsv. cbn [fmap option_fmap option_map].
    destruct (internalClassPDUs _) eqn:Hi.
    { eapply wp_mono; [by apply wp_release_raise|]. by intros [?|[]] ?. }
    destruct (matches i name sp p) eqn:Hm; cbn [negb].
    + apply wp_release; intros; [|].
      * apply wp_ret. eapply delivered_response; try done. by rewrite <- Hs.
      * destruct e0; try done. unfold released. wproj. by rewrite <- Hs, H0.
    + eapply wp_mono; [by apply wp_release_raise|]. by intros [?|[]] ?.
Qed.
(** What the header of an accepted message says *)
Definition parsed (transport : oid * addr) (wholeMsg : octets) (msg : SNMPv3Message)
    (i : incoming (addr := addr)) (smh : sm) : Prop :=
  let h := msgGlobalData msg in
  decodeMessage c wholeMsg = Ok (Some msg) ∧ securityModels (msgSecurityModel h) = Some smh ∧
  ∃ f level, msgFlags h = [f] ∧ securityLevel_of f = Some level ∧
    i = mk_incoming (msgVersion msg) (msgID h) (msgMaxSize h) (Z.testbit f 2)
          (msgSecurityModel h) level transport.

Lemma wp_parse transport wholeMsg w :
  wp (parse securityModels c transport wholeMsg)
    (λ r w', mp w' = mp w ∧ sec w' = sec w ∧ env w' = env w ∧
       match r with Ok (msg, i, smh) => w' = w ∧ parsed transport wholeMsg msg i smh
       | Err _ => True end) w.
Proof.
  unfold parse. wp_steps. destruct (decodeMessage c wholeMsg) as [[msg|]|e] eqn:Hd; [|by wp_steps|done].
  destruct (msgFlags _) as [|f []] eqn:Hf; [by wp_steps| |by wp_steps].
  destruct (securityModels _) as [smh|] eqn:Hsm; [|by unfold count; wp_steps].
  destruct (securityLevel_of f) as [level|] eqn:Hl; [|by unfold count; wp_steps].
  wp_steps. split_and!; try done. split_and!; try done. by exists f, level.
Qed.

(** The learning of a peer's engine *)
Definition learned (k : oid * addr) (engineId : octets) (sp : scoped_pdu) w : gmap (oid * addr) peer :=
  match engineIdCache (mp w) !! k with
  | Some _ => engineIdCache (mp w)
  | None => if internalClassPDUs (pduType (scopedData sp))
            then <[k := mk_peer engineId (contextEngineId sp) (contextName sp)]> (engineIdCache (mp w))
            else engineIdCache (mp w)
  end.

Section incoming.
Context (returnResponsePdu : option pdu → Z → status → W unit) (timerResolution : option (Z * Z)).

Lemma wp_authorize i (smh : sm) wholeMsg msg w :
  wp (authorize returnResponsePdu i smh wholeMsg msg)
    (λ r w', match r with
             | Ok x => ∃ s1, sm_processIncomingMsg smh (i_maxMessageSize i) (msgSecurityParameters msg)
                 (i_securityModel i) (i_securityLevel i) wholeMsg msg (sec w) = (Ok x, s1) ∧
                 w' = put_sec s1 w
             | Err _ => True
             end) w.
Proof.
  unfold authorize. apply wp_try, wp_on_sec. unfold wp at 1.
  destruct (sm_processIncomingMsg _ _ _ _ _ _ _ _) as [[x|e] s1]; cbn [fst snd]; [by exists s1|].
  destruct e; try done. apply wp_bind. unfold wp.
  by destruct (report_failure _ _ _ _) as [[[]|e] w1].
Qed.

(** Only the engine cache and its queue change. *)
Definition same_caches w w' : Prop :=
  cache (mp w') = cache (mp w) ∧ sec w' = sec w ∧ counters w' = counters w ∧ env w' = env w.

Lemma wp_sniff k engineId sp w :
  wp (sniff timerResolution k engineId sp)
    (λ r w', same_caches w w' ∧ engineIdCache (mp w') = learned k engineId sp w ∧
       r = if engineIdCache (mp w) !! k then Ok tt
           else if internalClassPDUs (pduType (scopedData sp)) then
             if timerResolution then Ok tt else Err AttributeError
           else Ok tt) w.
Proof.
  unfold sniff, learned, same_caches. wp_steps.
  destruct (engineIdCache (mp w) !! k); [by wp_steps|].
  destruct (internalClassPDUs _); [|by wp_steps]. wp_steps.
  by destruct timerResolution as [tr|]; cbn [from_option_exc]; [wp_steps|].
Qed.

(** Everything [prepareDataElements] passes on has been accepted by the security
    model its header names and is [delivered]; and a failure after that has
    released what the security model kept. *)
Definition received (transport : oid * addr) (wholeMsg : octets) w (P : incoming (addr := addr) → sm → octets → octets →
    scoped_pdu → Z → Z → state → Prop) : Prop :=
  ∃ msg i smh engineId name sp mx ref s1 w1,
    parsed transport wholeMsg msg i smh ∧
    sm_processIncomingMsg smh (i_maxMessageSize i) (msgSecurityParameters msg) (i_securityModel i)
      (i_securityLevel i) wholeMsg msg (sec w) = (Ok (engineId, name, sp, mx, ref), s1) ∧
    same_caches (put_sec s1 w) w1 ∧ engineIdCache (mp w1) = learned transport engineId sp w ∧
    P i smh engineId name sp mx ref w1.

Lemma wp_prepareDataElements transport wholeMsg w : ok w →
  wp (prepareDataElements securityModels c snmpEngineID returnResponsePdu timerResolution
        transport wholeMsg)
    (λ r w', match r with
             | Ok el => received transport wholeMsg w
                 (λ i smh engineId name sp mx ref w1, delivered i smh engineId name sp mx ref w1 el w')
             | Err _ => True
             end) w.
Proof.
  intros Hwf. unfold prepareDataElements. apply wp_bind.
  eapply wp_mono; [apply wp_parse|]. intros r w' (_ & _ & _ & Hr).
  destruct r as [[[msg i] smh]|e]; [|done]. destruct Hr as [-> Hp].
  apply wp_bind. eapply wp_mono; [apply wp_authorize|]. intros r w' Hr.
  destruct r as [[[[[engineId name] sp] mx] ref]|e]; [|done]. destruct Hr as (s1 & Hsm & ->).
  apply wp_bind. eapply wp_mono; [apply wp_sniff|]. intros r w1 (Hsame & Hl & _).
  destruct r as [[]|e]; [|done].
  eapply wp_mono; [apply wp_deliver|]. { unfold ok. by destruct Hsame as [-> _]. }
  intros r w' Hr. destruct r as [el|e]; [|done].
  by exists msg, i, smh, engineId, name, sp, mx, ref, s1, w1.
Qed.

(** C5. A response reaches an application only as the answer to the request that
    is pending under its message ID: it came under that request's security model,
    security name and level and for its context, it gets that request's handle,
    and the request is pending no more, so that the same octets are never taken
    for a response again. *)
Theorem response_matches_request transport wholeMsg w el w' : ok w →
  prepareDataElements securityModels c snmpEngineID returnResponsePdu timerResolution
    transport wholeMsg w = (Ok el, w') →
  responseClassPDUs (e_pduType el) = true →
  ∃ msg p t, decodeMessage c wholeMsg = Ok (Some msg) ∧
    pendings w !! msgID (msgGlobalData msg) = Some (p, t) ∧
    e_sendPduHandle el = Some (p_sendPduHandle p) ∧
    e_securityModel el = p_securityModel p ∧ e_securityName el = p_securityName p ∧
    e_securityLevel el = p_securityLevel p ∧ e_contextEngineId el = p_contextEngineId p ∧
    e_contextName el = p_contextName p ∧
    pendings w' = delete (msgID (msgGlobalData msg)) (pendings w) ∧
    ∀ transport2 w2 el2 w2', ok w2 → pendings w2 = pendings w' →
      prepareDataElements securityModels c snmpEngineID returnResponsePdu timerResolution
        transport2 wholeMsg w2 = (Ok el2, w2') → responseClassPDUs (e_pduType el2) = false.
Proof.
  intros Hwf Hrun Hresp. pose proof (wp_elim _ _ _ _ _ Hrun (wp_prepareDataElements _ _ _ Hwf)) as Hr.
  cbn beta iota in Hr.
  destruct Hr as (msg & i & smh & engineId & name & sp & mx & ref & s1 & w1 & Hp & Hsm & Hsame & _ & Hd).
  destruct Hp as (Hdec & Hmod & f & level & Hf & Hl & ->).
  destruct Hd as [p t w'' _ _ Hpend Hm _ Hdel _|? ? Hc _ _ _ _ _|? ? Hn _ _ _ _].
  2:{ cbn in Hresp. by rewrite response_unconfirmed in Hc. } 2:{ cbn in Hresp. congruence. }
  assert (Hpp : pendings w1 = pendings w) by (unfold pendings; by rewrite (proj1 Hsame)).
  cbn [i_msgID] in *. rewrite Hpp in *. exists msg, p, t.
  unfold matches in Hm. bool_to_prop. cbn [i_securityModel i_securityLevel] in *.
  split_and!; try done.
  intros transport2 w2 el2 w2' Hwf2 Hp2 Hrun2.
  pose proof (wp_elim _ _ _ _ _ Hrun2 (wp_prepareDataElements _ _ _ Hwf2)) as Hr2. cbn beta iota in Hr2.
  destruct Hr2 as (msg2 & i2 & smh2 & ? & ? & sp2 & ? & ? & ? & w12 & Hp3 & _ & Hsame2 & _ & Hd2).
  destruct Hp3 as (Hdec2 & _ & f2 & level2 & _ & _ & ->). rewrite Hdec in Hdec2. simplify_eq.
  destruct Hd2 as [p2 t2 w2'' _ _ Hpend2 _ _ _ _|? ? Hc _ _ _ _ _|? ? Hn _ _ _ _]; [| |done].
  - exfalso. cbn [i_msgID] in Hpend2.
    assert (Hpp2 : pendings w12 = pendings w2) by (unfold pendings; by rewrite (proj1 Hsame2)).
    rewrite Hpp2, Hp2, Hdel, lookup_delete_eq in Hpend2. done.
  - cbn [elements_of e_pduType]. destruct (responseClassPDUs (pduType (scopedData sp2))) eqn:E; [|done].
    apply response_unconfirmed in E. congruence.
Qed.

(** *** What becomes of an accepted message *)
Section accepted.
Context (transport : oid * addr) (wholeMsg : octets) (msg : SNMPv3Message)
  (i : incoming (addr := addr)) (smh : sm) (engineId name : octets) (sp : scoped_pdu)
  (mx ref : Z) (s1 : S) (w : state).
Context (Hwf : ok w) (Hparsed : parsed transport wholeMsg msg i smh)
  (Hsm : sm_processIncomingMsg smh (i_maxMessageSize i) (msgSecurityParameters msg)
           (i_securityModel i) (i_securityLevel i) wholeMsg msg (sec w) =
         (Ok (engineId, name, sp, mx, ref), s1)).

Lemma parse_ok : parse securityModels c transport wholeMsg w = (Ok (msg, i, smh), w).
Proof.
  destruct Hparsed as (Hd & Hm & f & level & Hf & Hl & Hi). unfold parse. munfold.
  by rewrite Hd, Hf, Hm, Hl, Hi.
Qed.

(** After the security model has accepted it, a message is sniffed and delivered. *)
Lemma prepare_accepted :
  prepareDataElements securityModels c snmpEngineID returnResponsePdu timerResolution
    transport wholeMsg w =
  (sniff timerResolution transport engineId sp;;
   deliver snmpEngineID i smh engineId name sp mx ref) (put_sec s1 w).
Proof.
  unfold prepareDataElements. unfold mbind at 1, M_bind at 1. rewrite parse_ok.
  unfold mbind at 1, M_bind at 1. unfold authorize, try_except, on_sec, zoom.
  by rewrite Hsm.
Qed.

Lemma wp_accepted :
  wp (prepareDataElements securityModels c snmpEngineID returnResponsePdu timerResolution
        transport wholeMsg)
    (λ r w', match r with
             | Ok el => ∃ w1, same_caches (put_sec s1 w) w1 ∧
                 delivered i smh engineId name sp mx ref w1 el w'
             | Err (StatusInformation _) => sec w' = (sm_releaseStateInformation smh ref s1).2
             | Err _ => True
             end) w.
Proof.
  eapply wp_eq; [apply prepare_accepted|].
  apply wp_bind. eapply wp_mono; [apply wp_sniff|]. intros r w1 (Hsame & _ & Hr).
  destruct r as [[]|e]; [|by repeat case_match; simplify_eq].
  pose proof Hsame as (Hc & Hs & _).
  eapply wp_mono; [apply wp_deliver|]. { unfold ok. by rewrite Hc. }
  intros r w' Hd. destruct r as [el|e]; [by exists w1|]. destruct e; try done.
  unfold released in Hd. by rewrite Hd, Hs.
Qed.
End accepted.

(** What a security model keeps for a message it accepted is not lost: for a
    request it is kept under the reference stored with the request, so that the
    response finds it; for everything else, and when the message is refused after
    all, it has been released. *)
Theorem security_state_accounted transport wholeMsg msg i smh engineId name sp mx ref s1 w r w' :
  ok w → parsed transport wholeMsg msg i smh →
  sm_processIncomingMsg smh (i_maxMessageSize i) (msgSecurityParameters msg)
    (i_securityModel i) (i_securityLevel i) wholeMsg msg (sec w) =
    (Ok (engineId, name, sp, mx, ref), s1) →
  prepareDataElements securityModels c snmpEngineID returnResponsePdu timerResolution
    transport wholeMsg w = (r, w') →
  match r with
  | Ok el =>
      if confirmedClassPDUs (e_pduType el) then
        sec w' = s1 ∧ ∃ sref q t, e_stateReference el = Some sref ∧
          served w' !! sref = Some (q, t) ∧ r_securityStateReference q = ref
      else sec w' = (sm_releaseStateInformation smh ref s1).2
  | Err (StatusInformation _) => sec w' = (sm_releaseStateInformation smh ref s1).2
  | Err _ => True
  end.
Proof.
  intros Hwf Hp Hsm Hrun.
  pose proof (wp_elim _ _ _ _ _ Hrun (wp_accepted _ _ _ _ _ _ _ _ _ _ _ _ Hwf Hp Hsm)) as Hr.
  cbn beta in Hr. destruct r as [el|e]; [|done].
  destruct Hr as (w1 & (Hc & Hs & _) & Hd). cbn [put_sec sec] in Hs.
  destruct Hd as [p t w'' Hresp _ _ _ Hrel _ _|sref w'' Hconf _ _ Hs' _ Hsv|sref w'' _ Hconf Hrel _ _];
    cbn [elements_of e_pduType e_stateReference].
  - rewrite (response_unconfirmed _ Hresp). by rewrite <- Hs, Hrel.
  - rewrite Hconf. split; [congruence|]. eexists _, _, _. split; [done|].
    split; [by rewrite Hsv, lookup_insert_eq|done].
  - rewrite Hconf. by rewrite <- Hs, Hrel.
Qed.

(** A peer's engine is learned before it is known who sent the report: an
    unsolicited report, of no request that is pending, is refused --- and yet the
    engine ID it names is stored for the address it came from, if none was known,
    and the next confirmed request to that address is made for that engine. *)
Theorem unsolicited_report_plants_engine transport wholeMsg msg i smh engineId name sp mx ref
    s1 s2 w res :
  ok w → parsed transport wholeMsg msg i smh →
  sm_processIncomingMsg smh (i_maxMessageSize i) (msgSecurityParameters msg)
    (i_securityModel i) (i_securityLevel i) wholeMsg msg (sec w) =
    (Ok (engineId, name, sp, mx, ref), s1) →
  sm_releaseStateInformation smh ref s1 = (Ok tt, s2) →
  internalClassPDUs (pduType (scopedData sp)) = true → pendings w !! i_msgID i = None →
  engineIdCache (mp w) !! transport = None → timerResolution = Some res →
  ∃ w', prepareDataElements securityModels c snmpEngineID returnResponsePdu timerResolution
      transport wholeMsg w = (Err (StatusInfo dataMismatch), w') ∧
    engineIdCache (mp w') !! transport =
      Some (mk_peer engineId (contextEngineId sp) (contextName sp)) ∧
    ∀ t, confirmedClassPDUs t = true →
      outgoing_engine snmpEngineID t (engineIdCache (mp w') !! transport) = Some engineId.
Proof.
  intros Hwf Hp Hsm Hrel Hint Hno Hk Hres.
  assert (Hresp : responseClassPDUs (pduType (scopedData sp)) = true) by (by destruct (pduType _)).
  rewrite (prepare_accepted _ _ _ _ _ _ _ _ _ _ _ _ Hp Hsm). unfold mbind at 1, M_bind at 1.
  destruct (sniff timerResolution transport engineId sp (put_sec s1 w)) as [r w1] eqn:Hsn.
  pose proof (wp_elim _ _ _ _ _ Hsn (wp_sniff _ _ _ _)) as ((Hc & Hs & _) & Hl & Hr).
  unfold learned in Hl. cbn [put_sec mp sec] in Hc, Hs, Hl, Hr. rewrite Hk, Hint in Hl, Hr.
  rewrite Hres in Hr. rewrite Hr.
  unfold deliver. unfold mbind at 1, M_bind at 1. rewrite find_pending_miss; [|done|].
  2:{ unfold pendings. by rewrite Hc. }
  unfold on_sec, zoom. munfold. rewrite Hs, Hrel. eexists. split; [done|]. wproj.
  rewrite Hl, lookup_insert_eq. split; [done|].
  intros t Ht. unfold outgoing_engine. rewrite confirmed_xor_unconfirmed in Ht.
  apply negb_true_iff in Ht. by rewrite Ht.
Qed.
End incoming.
End spec.

(** ** Engines for the witnesses: the user-based model, numbers for addresses *)
Abbreviation demo_world := (Mp.world (Mp3 Z) Usm.state unit).
Definition demo_mp : Mp3 Z := mk_mp3 (MpCache.init MpCache.demo_gen MpCache.demo_gen) ∅ ∅ 0.
Definition demo_address : oid * Z := ([1; 3; 6; 1; 6; 1; 1], 161).

(** Anybody's report *)
Definition demo_report_scoped : scoped_pdu :=
  mk_scoped [9; 9; 9; 9; 9] [] (mk_pdu ReportPDU 0 0 0 [(Usm.usmStatsUnknownEngineIDs, VCounter32 1)]).
Definition demo_report : SNMPv3Message :=
  mk_v3 3 (mk_header 99 65507 [0] 3) (ToyCodec.ser_usm (mk_usm [9; 9; 9; 9; 9] 0 0 [] [] []))
    (plaintext demo_report_scoped).
Definition demo_manager : demo_world :=
  mk_world demo_mp (Usm.demo_engine Usm.demo_manager ∅) [] tt.
Definition demo_no_report (p : option pdu) (ref : Z) (st : status) : M exn demo_world unit := mret tt.

Lemma demo_mp_ok w : cache (mp w) = MpCache.init MpCache.demo_gen MpCache.demo_gen →
  ok (addr := Z) (S := Usm.state) (X := unit) w.
Proof. intros Hc. unfold ok. rewrite Hc. apply MpCache.init_wf. Defined.

Lemma unsolicited_report_plants_engine_witness :
  ∃ w', prepareDataElements (UsmModel.demo_models 600 4 1100) ToyCodec.toy Usm.demo_manager
      demo_no_report (Some (1, 2)) demo_address (ToyCodec.ser_message demo_report) demo_manager =
      (Err (StatusInfo dataMismatch), w') ∧
    engineIdCache (mp w') !! demo_address = Some (mk_peer [9; 9; 9; 9; 9] [9; 9; 9; 9; 9] []) ∧
    ∀ t, confirmedClassPDUs t = true →
      outgoing_engine Usm.demo_manager t (engineIdCache (mp w') !! demo_address) =
      Some [9; 9; 9; 9; 9].
Proof.
  eapply (unsolicited_report_plants_engine (UsmModel.demo_models 600 4 1100) ToyCodec.toy
    Usm.demo_manager demo_no_report (Some (1, 2)) demo_address _ demo_report
    (mk_incoming 3 99 65507 false 3 1 demo_address) _ [9; 9; 9; 9; 9] [] demo_report_scoped
    _ _ _ _ demo_manager (1, 2)).
  - by apply demo_mp_ok.
  - split; [reflexivity|]. split; [reflexivity|]. by exists 0, 1.
  - vm_compute. reflexivity.
  - vm_compute. reflexivity.
  - reflexivity.
  - reflexivity.
  - reflexivity.
  - reflexivity.
Defined.

Lemma outgoing_is_pending_witness :
  ∃ msgID, pendings demo_manager !! msgID = None ∧
    pendings (prepareOutgoingMessage (UsmModel.demo_models 600 1 50) Usm.demo_manager 65507
        demo_address 3 [117] 3 None [] Usm.demo_pdu 9 demo_manager).2 =
      <[msgID := (mk_pending 9 msgID Usm.demo_manager 3 [117] 3 Usm.demo_manager [] demo_address, 600)]>
        (pendings demo_manager).
Proof.
  destruct (outgoing_is_pending (UsmModel.demo_models 600 1 50) Usm.demo_manager 65507
    demo_address 3 [117] 3 None [] Usm.demo_pdu 9 demo_manager _ _ (surjective_pairing _))
    as (_ & _ & _ & Hr).
  destruct (prepareOutgoingMessage _ _ _ _ _ _ _ _ _ _ _ _).1 as [[tr wholeMsg]|e] eqn:E in Hr.
  - destruct Hr as (_ & _ & msgID & Hfree & _ & Hp). exists msgID. split; [exact Hfree|exact Hp].
  - exfalso. revert E. vm_compute. discriminate.
Defined.

(** A manager that waits for the answer to a request without security, and the answer *)
Definition demo_pending : pending Z := mk_pending 9 0 Usm.demo_manager 3 [] 1 Usm.demo_manager [] demo_address.
Definition demo_waiting : demo_world :=
  mk_world (mk_mp3 (MpCache.pushByMsgId p_sendPduHandle 0 demo_pending
      (MpCache.init MpCache.demo_gen MpCache.demo_gen)).2 ∅ ∅ 0)
    (Usm.demo_engine Usm.demo_manager ∅) [] tt.
Definition demo_reply_scoped : scoped_pdu :=
  mk_scoped Usm.demo_manager [] (mk_pdu ResponsePDU 42 0 0 [([1; 3; 6; 1], VInteger 7)]).
Definition demo_reply : SNMPv3Message :=
  mk_v3 3 (mk_header 0 65507 [0] 3) (ToyCodec.ser_usm (mk_usm [9; 9; 9; 9; 9] 0 0 [] [] []))
    (plaintext demo_reply_scoped).
Definition demo_received : result exn (elements pdu) * demo_world :=
  prepareDataElements (UsmModel.demo_models 600 4 1100) ToyCodec.toy Usm.demo_manager
    demo_no_report (Some (1, 2)) demo_address (ToyCodec.ser_message demo_reply) demo_waiting.

Lemma demo_waiting_ok : ok demo_waiting.
Proof.
  unfold ok. eapply MpCache.step_wf; [|apply (MpCache.init_wf _ MpCache.demo_gen MpCache.demo_gen)].
  apply MpCache.step_pushByMsgId. intros m i t Hm. exfalso.
  apply (lookup_empty_Some m (i, t)). exact Hm.
Defined.

Lemma response_matches_request_witness :
  ∃ p t, pendings demo_waiting !! 0 = Some (p, t) ∧
    pendings demo_received.2 = delete 0 (pendings demo_waiting).
Proof.
  destruct (response_matches_request (UsmModel.demo_models 600 4 1100) ToyCodec.toy Usm.demo_manager
    demo_no_report (Some (1, 2)) demo_address (ToyCodec.ser_message demo_reply) demo_waiting
    (mk_elements 3 3 [] 1 Usm.demo_manager [] 1 (scopedData demo_reply_scoped) ResponsePDU (Some 9)
       65448 None) demo_received.2 demo_waiting_ok) as (msg & p & t & Hdec & Hp & _ & _ & _ & _ & _ & _ & Hd & _).
  - vm_compute. reflexivity.
  - reflexivity.
  - assert (Hm : msg = demo_reply).
    { assert (Hx : Ok (Some demo_reply) = Ok (E := exn) (Some msg)) by (rewrite <- Hdec; vm_compute; reflexivity).
      by injection Hx. }
    subst msg. exists p, t. split; [exact Hp|exact Hd].
Defined.

Definition demo_reply_state : Usm.state :=
  (Usm.processIncomingMsg LocalKey.toy_hashlib Priv.toy_backend ToyCodec.toy 600 4 1100
      (Some (1, 2)) 65507 (msgSecurityParameters demo_reply) 1 (ToyCodec.ser_message demo_reply)
      demo_reply (sec demo_waiting)).2.

Lemma security_state_accounted_witness :
  sec demo_received.2 = (Usm.releaseStateInformation 1 demo_reply_state).2.
Proof.
  refine (security_state_accounted (UsmModel.demo_models 600 4 1100) ToyCodec.toy Usm.demo_manager
    demo_no_report (Some (1, 2)) demo_address (ToyCodec.ser_message demo_reply) demo_reply
    (mk_incoming 3 0 65507 false 3 1 demo_address)
    (UsmModel.usm_model LocalKey.toy_hashlib Priv.toy_backend ToyCodec.toy 600 4 1100
       (Some (1, 2)) (λ _, raise KeyError)) [9; 9; 9; 9; 9] [] demo_reply_scoped
    65448 1 demo_reply_state demo_waiting
    (Ok (mk_elements 3 3 [] 1 Usm.demo_manager [] 1 (scopedData demo_reply_scoped) ResponsePDU
       (Some 9) 65448 None)) demo_received.2 demo_waiting_ok _ _ _).
  - split; [reflexivity|]. split; [reflexivity|]. by exists 0, 1.
  - vm_compute. reflexivity.
  - vm_compute. reflexivity.
Defined.
End MpV3Spec.
