(* ===== verification/MpV3Engines.v ===== *)
(** * What SNMPv3 message processing learns about its peers

    A peer's engine ID is learned from a report and forgotten on a timer. *)
From S2P Require Export MpV3Spec.
Import V3 Mp MpV3 MpV3Spec.
#[local] Open Scope Z_scope.

Module MpV3Engines.
Section engines.
Context {addr : Type} `{Countable addr} {S X : Type}.
Abbreviation state := (Mp.world (Mp3 addr) S X).
Abbreviation W := (M exn state).
Abbreviation sm := (security_model S SNMPv3Message octets scoped_pdu).
Abbreviation key := (oid * addr)%type.
Implicit Types w : state.

(** ** The part of the state that knows the peers *)
Definition engines (m : Mp3 addr) : gmap key peer * gmap Z (list key) * Z :=
  (engineIdCache m, engineIdCacheExpQueue m, expirationTimer m).

(** Every peer that is known is in the queue, once and not in the past, and
    nothing else is. *)
Record engines_ok (m : Mp3 addr) : Prop := {
  eo_time : ∀ t ks, engineIdCacheExpQueue m !! t = Some ks → expirationTimer m <= t;
  eo_nodup : ∀ t ks, engineIdCacheExpQueue m !! t = Some ks → NoDup ks;
  eo_unique : ∀ t t' ks ks' k, engineIdCacheExpQueue m !! t = Some ks →
    engineIdCacheExpQueue m !! t' = Some ks' → k ∈ ks → k ∈ ks' → t = t';
  eo_known : ∀ k, is_Some (engineIdCache m !! k) ↔
    ∃ t ks, engineIdCacheExpQueue m !! t = Some ks ∧ k ∈ ks;
}.

Lemma engines_ok_of (m m' : Mp3 addr) : engines m' = engines m → engines_ok m → engines_ok m'.
Proof.
  unfold engines. intros [= Hc Hq Ht] [H1 H2 H3 H4]. split; rewrite ?Hc, ?Hq, ?Ht; done.
Qed.

#[local] Ltac eproj := unfold put_mp, put_sec, set_cache, set_engines, set_timer;
  cbn [fst snd mp sec counters env cache engineIdCache engineIdCacheExpQueue expirationTimer].

(** ** Ticks *)
Lemma del_engines_ok (ks : list key) (m : Mp3 addr) : NoDup ks →
  (∀ k, k ∈ ks → is_Some (engineIdCache m !! k)) →
  ∃ t, mapM_ del_engine ks m = (Ok tt, set_engines t (engineIdCacheExpQueue m) m) ∧
    ∀ k, t !! k = if decide (k ∈ ks) then None else engineIdCache m !! k.
Proof.
  revert m; induction ks as [|k ks IH]; intros m Hnd Hin.
  { exists (engineIdCache m). by destruct m. }
  apply NoDup_cons in Hnd as [Hk Hnd].
  destruct (Hin k (list_elem_of_here _ _)) as [y Hy].
  destruct (IH (set_engines (delete k (engineIdCache m)) (engineIdCacheExpQueue m) m) Hnd)
    as (x & Hx & Hl).
  { intros r Hr. cbn. rewrite lookup_delete_ne by set_solver. apply Hin. by right. }
  exists x. cbn [mapM_]. munfold. unfold del_engine at 1. rewrite Hy, Hx. split; [done|].
  intros r. rewrite Hl. cbn. rewrite lookup_delete. repeat case_decide; set_solver.
Qed.

Lemma expireEnginesInfo_ok m : engines_ok m →
  ∃ m', expireEnginesInfo m = (Ok tt, m') ∧ engines_ok m' ∧ cache m' = cache m ∧
    expirationTimer m' = expirationTimer m + 1 ∧
    engineIdCacheExpQueue m' = delete (expirationTimer m) (engineIdCacheExpQueue m) ∧
    ∀ k, engineIdCache m' !! k =
      if decide (k ∈ default [] (engineIdCacheExpQueue m !! expirationTimer m)) then None
      else engineIdCache m !! k.
Proof.
  intros [H1 H2 H3 H4]. unfold expireEnginesInfo. munfold.
  assert (Hgo : ∀ t, (∀ k, t !! k = if decide (k ∈ default [] (engineIdCacheExpQueue m !! expirationTimer m))
      then None else engineIdCache m !! k) →
    engines_ok (set_timer (expirationTimer m + 1)
      (set_engines t (delete (expirationTimer m) (engineIdCacheExpQueue m)) m))).
  { intros t Ht. split; cbn; setoid_rewrite lookup_delete_Some.
    - intros t' ks [Hne Hq]. specialize (H1 _ _ Hq). lia.
    - intros t' ks [_ Hq]. by eapply H2.
    - intros t1 t2 ks ks' k [_ Hq] [_ Hq']. by eapply H3.
    - intros k. rewrite Ht. case_decide as Hk.
      + split; [by intros [? ?]|]. intros (t' & ks & [Hne Hq] & Hin). exfalso.
        destruct (engineIdCacheExpQueue m !! expirationTimer m) as [ks0|] eqn:Hq0; [|set_solver].
        apply Hne. by eapply H3.
      + rewrite H4. split; [|intros (t' & ks & [_ Hq] & Hin); eauto].
        intros (t' & ks & Hq & Hin). exists t', ks. split; [|done]. split; [|done].
        intros <-. rewrite Hq in Hk. set_solver. }
  destruct (engineIdCacheExpQueue m !! expirationTimer m) as [ks|] eqn:Hq.
  - destruct (del_engines_ok ks m) as (t & Hd & Hl); [by eapply H2| |].
    { intros k Hk. apply H4. eauto. }
    rewrite Hd. eexists. split; [done|]. split; [by apply Hgo|]. done.
  - eexists. split; [done|].
    assert (Hno : ∀ k, engineIdCache m !! k =
      if decide (k ∈ default [] (@None (list key))) then None else engineIdCache m !! k).
    { intros k. by rewrite decide_False by set_solver. }
    split; [|split_and!; try done; cbn; by rewrite delete_id].
    eapply engines_ok_of; [|apply (Hgo (engineIdCache m)), Hno].
    unfold engines. cbn. by rewrite delete_id.
Qed.

(** ** Messages *)
Context (res : Z * Z) (res_pos : 0 < res.1 ∧ 0 <= res.2).

Definition lifetime : Z := engine_expireAt res 0.

Lemma engine_expireAt_lifetime t : engine_expireAt res t = t + lifetime.
Proof. unfold lifetime, engine_expireAt. lia. Qed.
Lemma lifetime_pos : 0 <= lifetime.
Proof. unfold lifetime, engine_expireAt. apply Z.add_nonneg_nonneg; [lia|]. apply Z.div_pos; lia. Qed.

(** Nothing is in the queue for later than a lifetime from now. *)
Definition queued (m : Mp3 addr) : Prop :=
  engines_ok m ∧ ∀ t ks, engineIdCacheExpQueue m !! t = Some ks → t <= expirationTimer m + lifetime.

Lemma queued_of m m' : engines m' = engines m → queued m → queued m'.
Proof.
  intros He [Hok Hq]. split; [by eapply engines_ok_of|].
  unfold engines in He. injection He as _ Hq' Ht. rewrite Hq', Ht. done.
Qed.

(** A call that leaves what is known of the peers *)
Definition keeps {A} (m : W A) : Prop := ∀ w, engines (mp (m w).2) = engines (mp w).

Lemma engines_keeps_bind {A B} (m : W A) (k : A → W B) : keeps m → (∀ a, keeps (k a)) → keeps (m ≫= k).
Proof.
  intros Hm Hk w. specialize (Hm w). munfold. destruct (m w) as [[a|e] w1]; [|done].
  by rewrite Hk.
Qed.
Lemma engines_keeps_try {A} (m : W A) h : keeps m → (∀ e k, h e = Some k → keeps k) → keeps (try_except m h).
Proof.
  intros Hm Hh w. specialize (Hm w). unfold try_except.
  destruct (m w) as [[a|e] w1]; [done|]. destruct (h e) eqn:E; [|done]. by rewrite (Hh _ _ E).
Qed.
Lemma engines_keeps_ret {A} (a : A) : keeps (mret a). Proof. done. Qed.
Lemma engines_keeps_raise {A} e : keeps (A := A) (raise e). Proof. done. Qed.
Lemma engines_keeps_liftR {A} (r : result exn A) : keeps (liftR r). Proof. done. Qed.
Lemma engines_keeps_gets {A} (f : state → A) : keeps (gets f). Proof. done. Qed.
Lemma engines_keeps_count n : keeps (count n). Proof. done. Qed.
Lemma engines_keeps_on_sec {A} (m : M exn S A) : keeps (on_sec m).
Proof. intros w. unfold on_sec, zoom. by destruct (m (sec w)). Qed.
Lemma engines_keeps_on_cache {A} (m : M exn (MpCache.Cache (request addr) (pending addr)) A) :
  keeps (on_cache m).
Proof. intros w. unfold on_cache, on_mp, zoom. by destruct (m (cache (mp w))). Qed.

#[local] Hint Resolve engines_keeps_ret engines_keeps_raise engines_keeps_liftR engines_keeps_gets engines_keeps_count engines_keeps_on_sec
  engines_keeps_on_cache : core.

#[local] Ltac engines_keeps_steps :=
  repeat first
    [ done | progress auto | apply engines_keeps_bind; [|intros ?]
    | match goal with |- keeps (match ?x with _ => _ end) => destruct x eqn:? end ].

Section messages.
Context (securityModels : Z → option sm) (c : codec)
        (snmpEngineID : octets) (snmpEngineMaxMessageSize : Z)
        (returnResponsePdu : option pdu → Z → status → W unit)
        (Hreturn : ∀ p sref st, keeps (returnResponsePdu p sref st)).

Lemma engines_keeps_outgoing transport model name level ctx ctxName p h :
  keeps (prepareOutgoingMessage securityModels snmpEngineID snmpEngineMaxMessageSize
           transport model name level ctx ctxName p h).
Proof. unfold prepareOutgoingMessage, getPeerEngineInfo. engines_keeps_steps. Qed.

Lemma engines_keeps_response p sref st :
  keeps (prepareResponseMessage securityModels snmpEngineID snmpEngineMaxMessageSize p sref st).
Proof. unfold prepareResponseMessage. engines_keeps_steps. Qed.

Lemma engines_keeps_push r : keeps (push_request r).
Proof. unfold push_request. engines_keeps_steps. Qed.
#[local] Hint Resolve engines_keeps_push : core.

Lemma engines_keeps_parse transport wholeMsg : keeps (parse securityModels c transport wholeMsg).
Proof. unfold parse. engines_keeps_steps. Qed.

Lemma engines_keeps_authorize i (smh : sm) wholeMsg msg :
  keeps (authorize returnResponsePdu i smh wholeMsg msg).
Proof.
  unfold authorize. apply engines_keeps_try; [auto|]. intros e k.
  destruct e; try done. intros [= <-]. unfold report_failure. engines_keeps_steps.
  apply engines_keeps_try; [auto|]. intros ex k'. destruct (is_StatusInformation ex); intros [= <-]. auto.
Qed.

Lemma engines_keeps_deliver i (smh : sm) engineId name sp mx ref :
  keeps (deliver snmpEngineID i smh engineId name sp mx ref).
Proof.
  unfold deliver, find_pending. engines_keeps_steps. apply engines_keeps_try; [engines_keeps_steps|].
  intros e k. destruct (is_ProtocolError e); intros [= <-]. engines_keeps_steps.
Qed.

Lemma queued_sniff k engineId sp w :
  queued (mp w) → queued (mp (sniff (Some res) k engineId sp w).2).
Proof.
  intros [Hok Hq]. unfold sniff. munfold.
  destruct (engineIdCache (mp w) !! k) as [p|] eqn:Hk; [done|].
  destruct (internalClassPDUs _); [|done]. cbn [from_option_exc]. eproj.
  rewrite engine_expireAt_lifetime.
  set (t := expirationTimer (mp w) + lifetime). pose proof lifetime_pos.
  destruct Hok as [H1 H2 H3 H4].
  assert (Hnew : ∀ t' ks, engineIdCacheExpQueue (mp w) !! t' = Some ks → k ∉ ks).
  { intros t' ks Hl Hin. assert (is_Some (engineIdCache (mp w) !! k)) as [? ?] by (apply H4; eauto).
    congruence. }
  assert (Hl : ∀ t' ks, (<[t:=default [] (engineIdCacheExpQueue (mp w) !! t) ++ [k]]>
      (engineIdCacheExpQueue (mp w))) !! t' = Some ks ↔
    t' = t ∧ ks = default [] (engineIdCacheExpQueue (mp w) !! t) ++ [k] ∨
    t' ≠ t ∧ engineIdCacheExpQueue (mp w) !! t' = Some ks).
  { intros t' ks. rewrite lookup_insert_Some. naive_solver. }
  assert (Hold : ∀ k', k' ∈ default [] (engineIdCacheExpQueue (mp w) !! t) →
    ∃ ks, engineIdCacheExpQueue (mp w) !! t = Some ks ∧ k' ∈ ks).
  { intros k'. destruct (engineIdCacheExpQueue (mp w) !! t); [eauto|set_solver]. }
  split; [split; eproj|
          eproj; intros t' ks].
  - intros t' ks [[-> _]|[_ Hx]]%Hl; [unfold t; lia|by eapply H1].
  - intros t' ks [[-> ->]|[_ Hx]]%Hl; [|by eapply H2].
    apply NoDup_app. split_and!.
    + destruct (engineIdCacheExpQueue (mp w) !! t) eqn:E; [by eapply H2|constructor].
    + intros k' Hin Hk'. apply Hold in Hin as (ks & Hx & Hin).
      apply list_elem_of_singleton in Hk' as ->. by eapply Hnew.
    + apply NoDup_singleton.
  - intros t1 t2 ks1 ks2 k' Ha Hb Hk1 Hk2.
    apply Hl in Ha as [[-> ->]|[Hne1 Ha]]; apply Hl in Hb as [[-> ->]|[Hne2 Hb]]; [done| | |by eapply H3].
    + apply elem_of_app in Hk1 as [Hk1|Hk1].
      * apply Hold in Hk1 as (ks & Hx & Hin). by eapply H3.
      * apply list_elem_of_singleton in Hk1 as ->. by destruct (Hnew _ _ Hb).
    + apply elem_of_app in Hk2 as [Hk2|Hk2].
      * apply Hold in Hk2 as (ks & Hx & Hin). by eapply H3.
      * apply list_elem_of_singleton in Hk2 as ->. by destruct (Hnew _ _ Ha).
  - intros k'. rewrite lookup_insert_is_Some, H4. setoid_rewrite Hl. split.
    + intros [<-|[_ (t' & ks & Hx & Hin)]].
      * exists t. eexists. split; [by left|set_solver].
      * destruct (decide (t' = t)) as [->|Hne]; [|by exists t', ks; auto].
        exists t. eexists. split; [by left|]. rewrite Hx. set_solver.
    + destruct (decide (k = k')) as [->|Hne]; [by left|].
      intros (t' & ks & [[-> ->]|[_ Hx]] & Hin); right; split; try done; [|by eauto].
      apply elem_of_app in Hin as [Hin|Hin]; [by apply Hold in Hin as (ks & ? & ?); eauto|].
      by apply list_elem_of_singleton in Hin as ->.
  - intros [[-> _]|[_ Hx]]%Hl; [unfold t; lia|by eapply Hq].
Qed.

Lemma queued_keeps {A} (m : W A) w : keeps m → queued (mp w) → queued (mp (m w).2).
Proof. intros Hm. apply queued_of, Hm. Qed.

Lemma queued_bind {A B} (m : W A) (k : A → W B) w :
  queued (mp (m w).2) → (∀ a w1, queued (mp w1) → queued (mp (k a w1).2)) →
  queued (mp ((m ≫= k) w).2).
Proof. intros Hm Hk. munfold. destruct (m w) as [[a|e] w1]; [by apply Hk|done]. Qed.

Lemma queued_incoming transport wholeMsg w : queued (mp w) →
  queued (mp (prepareDataElements securityModels c snmpEngineID returnResponsePdu (Some res)
                transport wholeMsg w).2).
Proof.
  intros Hw. unfold prepareDataElements. apply queued_bind.
  { by apply queued_keeps; [apply engines_keeps_parse|]. }
  intros [[msg i] smh] w1 Hw1. apply queued_bind; [by apply queued_keeps; [apply engines_keeps_authorize|]|].
  intros [[[[engineId name] sp] mx] ref] w2 Hw2. apply queued_bind; [by apply queued_sniff|].
  intros _ w3 Hw3. by apply queued_keeps; [apply engines_keeps_deliver|].
Qed.

(** ** Every use of the model, in any order *)
Inductive step : state → state → Prop :=
  | step_outgoing w transport model name level ctx ctxName p h :
      step w (prepareOutgoingMessage securityModels snmpEngineID snmpEngineMaxMessageSize
                transport model name level ctx ctxName p h w).2
  | step_response w p sref st :
      step w (prepareResponseMessage securityModels snmpEngineID snmpEngineMaxMessageSize
                p sref st w).2
  | step_incoming w transport wholeMsg :
      step w (prepareDataElements securityModels c snmpEngineID returnResponsePdu (Some res)
                transport wholeMsg w).2
  | step_release w h : step w (releaseStateInformation h w).2
  | step_tick w : step w (receiveTimerTick w).2
  | step_other w s d x : step w (mk_world (mp w) s d x).

Definition unknowing w : Prop := engineIdCache (mp w) = ∅ ∧ engineIdCacheExpQueue (mp w) = ∅.
Definition reachable w : Prop := ∃ w0, unknowing w0 ∧ rtc step w0 w.

Lemma tick_engines (m : Mp3 addr) : queued m → ∃ m', expireEnginesInfo m = (Ok tt, m') ∧ queued m' ∧
  cache m' = cache m ∧ expirationTimer m' = expirationTimer m + 1 ∧
  engineIdCacheExpQueue m' = delete (expirationTimer m) (engineIdCacheExpQueue m) ∧
  ∀ k, engineIdCache m' !! k =
    if decide (k ∈ default [] (engineIdCacheExpQueue m !! expirationTimer m)) then None
    else engineIdCache m !! k.
Proof.
  intros [Hok Hq]. destruct (expireEnginesInfo_ok m Hok) as (m' & He & Hok' & Hc & Ht & Hq' & Hl).
  exists m'. split_and!; try done. split; [done|]. rewrite Hq', Ht. intros t ks.
  rewrite lookup_delete_Some. intros [_ Hx]. specialize (Hq _ _ Hx). lia.
Qed.

Lemma step_engines w w' : step w w' → queued (mp w) → queued (mp w').
Proof.
  intros Hs Hw. destruct Hs.
  - apply queued_keeps; [apply engines_keeps_outgoing|done].
  - apply queued_keeps; [apply engines_keeps_response|done].
  - by apply queued_incoming.
  - apply queued_keeps; [|done]. apply engines_keeps_on_cache.
  - unfold receiveTimerTick, on_mp, zoom. munfold.
    destruct (tick_engines (mp w) Hw) as (m' & -> & Hm' & _).
    destruct (MpCache.expireCaches (cache m')) as [r x]. cbn [snd].
    eapply queued_of; [|exact Hm']. done.
  - done.
Qed.

Lemma reachable_engines w : reachable w → queued (mp w).
Proof.
  intros (w0 & [Hc Hq] & Hr). assert (Hw : queued (mp w0)).
  { split; [split|]; rewrite ?Hc, ?Hq; intros *; rewrite ?lookup_empty; try done.
    split; [by intros [? ?]|]. intros (t & ks & Hx & _). by rewrite lookup_empty in Hx. }
  clear Hc Hq. induction Hr as [|w w1 w2 Hs _ IH]; [done|]. apply IH. by eapply step_engines.
Qed.

Fixpoint ticks (n : nat) : W unit :=
  match n with O => mret tt | Datatypes.S n => receiveTimerTick;; ticks n end.

Lemma tick_ok w : queued (mp w) → ok w → ∃ w', receiveTimerTick w = (Ok tt, w') ∧
  queued (mp w') ∧ ok w' ∧ expirationTimer (mp w') = expirationTimer (mp w) + 1 ∧
  engineIdCacheExpQueue (mp w') = delete (expirationTimer (mp w)) (engineIdCacheExpQueue (mp w)) ∧
  ∀ k, engineIdCache (mp w') !! k =
    if decide (k ∈ default [] (engineIdCacheExpQueue (mp w) !! expirationTimer (mp w))) then None
    else engineIdCache (mp w) !! k.
Proof.
  intros Hq Hok. destruct (tick_engines (mp w) Hq) as (m' & He & Hm' & Hc & Ht & Hqu & Hl).
  destruct (MpCache.expireCaches_ok p_sendPduHandle _ Hok) as (x & Hx & Hwf & _).
  unfold receiveTimerTick, on_mp, zoom. munfold. rewrite He, Hc, Hx.
  eexists. split; [done|]. split_and!; try done. by eapply queued_of; [|exact Hm'].
Qed.

Lemma ticks_known n w k t ks : queued (mp w) → ok w →
  engineIdCacheExpQueue (mp w) !! t = Some ks → k ∈ ks →
  ∃ w', ticks n w = (Ok tt, w') ∧ engineIdCache (mp w') !! k =
    if expirationTimer (mp w) + Z.of_nat n <=? t then engineIdCache (mp w) !! k else None.
Proof.
  assert (Hnone : ∀ n w, queued (mp w) → ok w → engineIdCache (mp w) !! k = None →
    ∃ w', ticks n w = (Ok tt, w') ∧ engineIdCache (mp w') !! k = None).
  { clear w ks. intros n'. induction n' as [|n' IH]; intros w Hq Hok Hk; [by exists w|].
    destruct (tick_ok w Hq Hok) as (w1 & Hr & Hq1 & Hok1 & _ & _ & Hl).
    destruct (IH w1 Hq1 Hok1) as (w2 & Hr2 & H2). { rewrite Hl. by case_decide. }
    exists w2. cbn [ticks]. munfold. by rewrite Hr, Hr2. }
  revert w ks; induction n as [|n IH]; intros w ks Hq Hok Hqu Hin.
  { exists w. pose proof (eo_time _ (proj1 Hq) _ _ Hqu).
    destruct (Z.leb_spec (expirationTimer (mp w) + Z.of_nat 0) t); [done|lia]. }
  destruct (tick_ok w Hq Hok) as (w1 & Hr & Hq1 & Hok1 & Ht1 & Hqu1 & Hl).
  pose proof (eo_time _ (proj1 Hq) _ _ Hqu) as Hle.
  cbn [ticks]. munfold. rewrite Hr. destruct (decide (t = expirationTimer (mp w))) as [->|Hne].
  - destruct (Hnone n w1 Hq1 Hok1) as (w2 & Hr2 & H2).
    { rewrite Hl, Hqu. by rewrite decide_True by done. }
    exists w2. split; [done|]. rewrite H2.
    destruct (Z.leb_spec (expirationTimer (mp w) + Z.of_nat (Datatypes.S n)) (expirationTimer (mp w)));
      [lia|done].
  - destruct (IH w1 ks Hq1 Hok1) as (w2 & Hr2 & H2); [by rewrite Hqu1, lookup_delete_ne|done|].
    exists w2. split; [done|]. rewrite H2, Ht1, Hl, decide_False.
    + replace (expirationTimer (mp w) + Z.of_nat (Datatypes.S n))
        with (expirationTimer (mp w) + 1 + Z.of_nat n) by lia. done.
    + intros Hk. apply Hne. destruct (engineIdCacheExpQueue (mp w) !! expirationTimer (mp w)) eqn:E;
        [|set_solver]. by eapply (eo_unique _ (proj1 Hq)).
Qed.

(** What was learned of a peer is kept for its lifetime and no longer: in every
    state the model can get into, a known peer has a time, at most 300 seconds of
    ticks away, up to which ticks leave it known and after which it is unknown;
    and no tick raises. *)
Theorem peers_are_forgotten w k p : reachable w → ok w → engineIdCache (mp w) !! k = Some p →
  ∃ t, expirationTimer (mp w) <= t <= expirationTimer (mp w) + lifetime ∧
  ∀ n, ∃ w', ticks n w = (Ok tt, w') ∧ engineIdCache (mp w') !! k =
    if expirationTimer (mp w) + Z.of_nat n <=? t then Some p else None.
Proof.
  intros Hq%reachable_engines Hok Hk.
  destruct (proj1 (eo_known _ (proj1 Hq) k)) as (t & ks & Hqu & Hin); [by eexists|].
  exists t. split.
  - pose proof (eo_time _ (proj1 Hq) _ _ Hqu). pose proof (proj2 Hq _ _ Hqu). lia.
  - intros n. destruct (ticks_known n w k t ks Hq Hok Hqu Hin) as (w' & Hr & Hl).
    exists w'. split; [done|]. by rewrite Hl, Hk.
Qed.
End messages.
End engines.

(** ** A peer learned from a report: known for 150 ticks of two seconds *)
Definition demo_learned : demo_world :=
  (prepareDataElements (UsmModel.demo_models 600 4 1100) ToyCodec.toy Usm.demo_manager
     demo_no_report (Some (2, 1)) demo_address (ToyCodec.ser_message demo_report) demo_manager).2.

Lemma peers_are_forgotten_witness :
  ∃ t, 0 <= t <= 150 ∧ ∀ n, ∃ w',
    ticks (S := Usm.state) (X := unit) n demo_learned = (Ok tt, w') ∧
    engineIdCache (mp w') !! demo_address =
      if Z.of_nat n <=? t then Some (mk_peer [9; 9; 9; 9; 9] [9; 9; 9; 9; 9] []) else None.
Proof.
  exact (peers_are_forgotten (2, 1) (conj eq_refl (Z.le_succ_diag_r 0))
    (UsmModel.demo_models 600 4 1100) ToyCodec.toy Usm.demo_manager 65507 demo_no_report
    (λ p r st w, eq_refl) demo_learned demo_address (mk_peer [9; 9; 9; 9; 9] [9; 9; 9; 9; 9] [])
    (ex_intro _ demo_manager (conj (conj eq_refl eq_refl)
       (rtc_once _ _ (step_incoming (2, 1) _ _ _ 65507 _ demo_manager demo_address
          (ToyCodec.ser_message demo_report)))))
    (demo_mp_ok demo_learned eq_refl) eq_refl).
Defined.
End MpV3Engines.
