(* ===== verification/MpV3Exchange.v ===== *)
(** * A request and its response through two SNMPv3 engines

    The composition of the four calls of an exchange, for any security models
    that carry the two messages; with the user-based model as the instance. *)
From S2P Require Export MpV3Spec.
Import V3 Mp MpV3 MpV3Spec.
#[local] Open Scope Z_scope.

Module MpV3Exchange.
Section exchange.
Context {addr : Type} `{Countable addr} {S X : Type}.
Abbreviation state := (Mp.world (Mp3 addr) S X).
Abbreviation W := (M exn state).
Abbreviation sm := (security_model S SNMPv3Message octets scoped_pdu).
Implicit Types w : state.
Context (c : codec).

(** The octets [wholeMsg], made from the header [h], reach the security model
    [smh] of the other engine, which finds [sp] in them. *)
Record carried (smh : sm) (wholeMsg : octets) (h : HeaderData) (level : Z)
    (engineId name : octets) (sp : scoped_pdu) (mx ref : Z) (s s' : S) : Prop := {
  carried_message : ∃ msg, decodeMessage c wholeMsg = Ok (Some msg) ∧ msgGlobalData msg = h ∧
    msgVersion msg = 3 ∧
    sm_processIncomingMsg smh (msgMaxSize h) (msgSecurityParameters msg) (msgSecurityModel h)
      level wholeMsg msg s = (Ok (engineId, name, sp, mx, ref), s');
}.

#[local] Ltac wproj := unfold pendings, served, with_cache, put_mp, put_sec, set_cache, set_engines, set_timer;
  cbn [mp sec counters env cache engineIdCache engineIdCacheExpQueue expirationTimer
    MpCache.stateReferenceGen MpCache.msgIDGen MpCache.msgIdIndex MpCache.stateReferenceIndex
    MpCache.sendPduHandleIdx MpCache.expirationQueue MpCache.expirationTimer].

Definition flags_of (level : Z) (t : pdu_tag) : Z :=
  let f := if level =? 1 then 0 else if level =? 2 then 1 else 3 in
  if confirmedClassPDUs t then Z.lor f 4 else f.

Definition good_level (level : Z) : Prop := level = 1 ∨ level = 2 ∨ level = 3.

Lemma msgFlags_of_good level t : good_level level → msgFlags_of level t = Ok (flags_of level t).
Proof. by intros [->|[->| ->]]. Qed.
Lemma securityLevel_of_flags level t : good_level level → securityLevel_of (flags_of level t) = Some level.
Proof. intros [->|[->| ->]]; by destruct t. Qed.

(** The header of a message *)
Definition header_of (maxSize id level model : Z) (t : pdu_tag) : HeaderData :=
  mk_header id maxSize [flags_of level t] model.

Lemma assemble_good maxSize id level model t response : good_level level →
  3 <= model <= 2147483647 →
  assemble_msg_header maxSize id level model t response = Ok (header_of maxSize id level model t).
Proof.
  intros Hl Hm. unfold assemble_msg_header. rewrite msgFlags_of_good by done.
  unfold mbind, result_bind. by destruct (Z.leb_spec 3 model), (Z.leb_spec model 2147483647), response;
    try lia.
Qed.

(** The next identifiers of a state, and that they are not in use *)
Definition fresh_request w (id h : Z) : Prop :=
  (MpCache.newMsgID (cache (mp w))).1 = Ok id ∧ pendings w !! id = None ∧
  MpCache.fresh_handle p_sendPduHandle (cache (mp w)) h.
Definition fresh_reference w (sref : Z) : Prop :=
  (MpCache.newStateReference (cache (mp w))).1 = Ok sref ∧ served w !! sref = None.

Section engine.
Context (models : Z → option sm) (own : octets) (maxSize : Z).

Lemma outgoing_ok transport model name level ctx ctxName p h w (smh : sm) id
    (par wholeMsg : octets) s1 peer :
  let C := outgoing_context own (Some peer) ctx in
  let sp := mk_scoped C ctxName p in
  let hd := header_of maxSize id level model (pduType p) in
  confirmedClassPDUs (pduType p) = true → good_level level → 3 <= model <= 2147483647 →
  models model = Some smh → engineIdCache (mp w) !! transport = Some peer →
  ok w → fresh_request w id h →
  sm_generateRequestMsg smh (message_of hd sp) maxSize model (Some (securityEngineId peer)) name level sp
    (sec w) = (Ok (par, wholeMsg), s1) →
  Z.of_nat (length wholeMsg) <= maxSize →
  wp (prepareOutgoingMessage models own maxSize transport model name level ctx ctxName p h)
    (λ r w', r = Ok (transport, wholeMsg) ∧ env w' = env w ∧ ok w' ∧ sec w' = s1 ∧
       engineIdCache (mp w') = engineIdCache (mp w) ∧ served w' = served w ∧
       pendings w' = <[id := (mk_pending h id own model name level C ctxName transport,
                              MpCache.expirationTimer (cache (mp w)) + 600)]> (pendings w)) w.
Proof.
  intros C sp hd Hconf Hlevel Hmodel Hmodels Hpeer Hok (Hid & Hfree & Hfresh) Hgen Hsize.
  unfold prepareOutgoingMessage. apply wp_bind, wp_on_cache, wp_newMsgID. intros ri g Hri.
  unfold MpCache.newMsgID, zoom in Hid. rewrite Hri in Hid. cbn [fst] in Hid. rewrite Hid.
  unfold getPeerEngineInfo. do 2 wp_step. wproj. rewrite Hpeer. fold C sp.
  wp_step. wp_step. rewrite assemble_good by done. fold hd. rewrite Hmodels.
  apply wp_bind, wp_on_sec. unfold wp at 1. wproj. unfold outgoing_engine.
  rewrite confirmed_xor_unconfirmed, negb_true_iff in Hconf. rewrite Hconf. cbn [fmap option_fmap option_map].
  rewrite Hgen. cbn [fst snd]. destruct (Z.ltb_spec maxSize (Z.of_nat (length wholeMsg))); [lia|].
  rewrite (confirmed_xor_unconfirmed (pduType p)), Hconf. cbn [negb].
  apply wp_bind, wp_on_cache. unfold wp at 1. wproj.
  destruct (MpCache.pushByMsgId_ok p_sendPduHandle (MpCache.mk_Cache
    (MpCache.stateReferenceGen (cache (mp w))) g (MpCache.msgIdIndex (cache (mp w)))
    (MpCache.stateReferenceIndex (cache (mp w))) (MpCache.sendPduHandleIdx (cache (mp w)))
    (MpCache.expirationQueue (cache (mp w))) (MpCache.expirationTimer (cache (mp w)))) id
    (mk_pending h id own model name level C ctxName transport)) as (x & Hx & Hwf & Hp & _ & Hs & _);
    [by apply MpCache.gen_wf|done|done|].
  rewrite Hx. cbn [fst snd]. apply wp_ret. by split_and!.
Qed.

Context (returnResponsePdu : option pdu → Z → status → W unit) (res : option (Z * Z)).

Lemma carried_prepare transport (smh : sm) wholeMsg size id level model t engineId name sp mx ref w s1 :
  good_level level → models model = Some smh →
  carried smh wholeMsg (header_of size id level model t) level engineId name sp mx ref (sec w) s1 →
  internalClassPDUs (pduType (scopedData sp)) = false →
  prepareDataElements models c own returnResponsePdu res transport wholeMsg w =
  deliver own (mk_incoming 3 id size (Z.testbit (flags_of level t) 2) model level transport)
    smh engineId name sp mx ref (put_sec s1 w).
Proof.
  intros Hlevel Hmodels [(msg & Hdec & Hh & Hv & Hproc)] Hint.
  set (i := mk_incoming 3 id size (Z.testbit (flags_of level t) 2) model level transport).
  rewrite (prepare_accepted models c own returnResponsePdu res transport wholeMsg msg i smh engineId
    name sp mx ref s1); [| |].
  - unfold sniff. unfold mbind at 1, M_bind at 1. unfold mbind at 1, M_bind at 1. unfold gets.
    destruct (engineIdCache (mp (put_sec s1 w)) !! transport); [done|]. by rewrite Hint.
  - split; [done|]. rewrite Hh. split; [done|]. exists (flags_of level t), level.
    split; [done|]. split; [by apply securityLevel_of_flags|]. by rewrite Hv.
  - exact Hproc.
Qed.

Lemma request_received transport (smh : sm) wholeMsg size id level model name sp mx ref w s1 sref :
  let t := pduType (scopedData sp) in
  confirmedClassPDUs t = true → good_level level → models model = Some smh → ok w →
  fresh_reference w sref →
  carried smh wholeMsg (header_of size id level model t) level own name sp mx ref (sec w) s1 →
  wp (prepareDataElements models c own returnResponsePdu res transport wholeMsg)
    (λ r w', r = Ok (mk_elements 3 model name level (contextEngineId sp) (contextName sp) 1
                       (scopedData sp) t None mx (Some sref)) ∧
       env w' = env w ∧ ok w' ∧ sec w' = s1 ∧ pendings w' = pendings w ∧
       served w' = <[sref := (mk_request 3 id (contextEngineId sp) (contextName sp) model (Some name)
           level ref true size mx transport, MpCache.expirationTimer (cache (mp w)) + 600)]> (served w)) w.
Proof.
  intros t Hconf Hlevel Hmodels Hok [Hid Hfree] Hcar.
  assert (Hresp : responseClassPDUs t = false).
  { destruct (responseClassPDUs t) eqn:E; [|done]. apply response_unconfirmed in E. congruence. }
  eapply wp_eq; [eapply (carried_prepare _ _ _ _ _ _ _ _ _ _ _ _ _ _ _ Hlevel Hmodels Hcar)|].
  { fold t. by destruct t. }
  unfold deliver, find_pending. fold t. rewrite Hresp, Hconf.
  replace (internalClassPDUs t) with false by (by destruct t). cbn [orb].
  wp_step. wp_step. rewrite bool_decide_true by done. cbn [negb].
  apply wp_bind. unfold push_request. apply wp_bind, wp_on_cache, wp_newStateReference.
  intros ri g Hri. unfold MpCache.newStateReference, zoom in Hid. cbn [put_sec mp] in Hri.
  rewrite Hri in Hid. cbn [fst] in Hid. rewrite Hid.
  apply wp_bind, wp_on_cache. unfold wp at 1. wproj.
  destruct (MpCache.pushByStateRef_ok p_sendPduHandle (MpCache.mk_Cache
    g (MpCache.msgIDGen (cache (mp w))) (MpCache.msgIdIndex (cache (mp w)))
    (MpCache.stateReferenceIndex (cache (mp w))) (MpCache.sendPduHandleIdx (cache (mp w)))
    (MpCache.expirationQueue (cache (mp w))) (MpCache.expirationTimer (cache (mp w)))) sref
    (request_of (mk_incoming 3 id size (Z.testbit (flags_of level t) 2) model level transport)
       (contextEngineId sp) (contextName sp) (Some name) ref mx)) as (x & Hx & Hwf & Hs & Hp & _);
    [by apply MpCache.gen_wf|done|].
  rewrite Hx. cbn [fst snd]. wp_step. apply wp_ret. split_and!; try done.
  wproj. rewrite Hs. do 3 f_equal. unfold request_of. cbn. f_equal.
  unfold flags_of. rewrite Hconf. by destruct Hlevel as [->|[->| ->]].
Qed.

(** The response: its header and scoped PDU are those of the request it answers. *)
Lemma response_ok transport (smh : sm) size id level model name ctx ctxName q ref mx w t sref (par wholeMsg : octets) s1 :
  let sp := mk_scoped ctx ctxName q in
  let hd := header_of maxSize id level model (pduType q) in
  3 <= model <= 2147483647 → good_level level → models model = Some smh → ok w → ctx ≠ [] →
  served w !! sref = Some (mk_request 3 id ctx ctxName model (Some name) level ref true size mx transport, t) →
  sm_generateResponseMsg smh (message_of hd sp) maxSize model own (Some name) level sp ref (sec w) =
    (Ok (par, wholeMsg), s1) →
  Z.of_nat (length wholeMsg) <= maxSize → Z.of_nat (length wholeMsg) <= size →
  wp (prepareResponseMessage models own maxSize (Some q) (Some sref) None)
    (λ r w', r = Ok (transport, wholeMsg) ∧ env w' = env w ∧ ok w' ∧ sec w' = s1 ∧ pendings w' = pendings w ∧
       served w' = delete sref (served w)) w.
Proof.
  intros sp hd Hmodel Hlevel Hmodels Hok Hctx Hreq Hgen Hs1 Hs2. unfold prepareResponseMessage.
  apply wp_bind, wp_on_cache. unfold wp at 1.
  destruct (MpCache.popByStateRef_ok p_sendPduHandle _ _ _ _ Hok Hreq) as (x & Hx & Hwf & Hs & Hp & _).
  rewrite Hx. cbn [fst snd]. apply wp_bind, wp_liftR. cbn [answer_of mbind option_bind].
  unfold mbind at 1, result_bind at 1, mret at 1, result_ret at 1. cbn [from_option_exc].
  cbn [r_securityLevel r_contextEngineId r_contextName r_msgID r_securityModel r_securityName
    r_securityStateReference r_msgMaxSize r_transport a_contextEngineId a_contextName a_pdu
    a_securityLevel].
  assert (or_else ctx own = ctx) as -> by (by destruct ctx). fold sp.
  apply wp_bind, wp_liftR. rewrite assemble_good by done. fold hd. rewrite Hmodels.
  apply wp_bind, wp_on_sec. unfold wp at 1. wproj. rewrite Hgen. cbn [fst snd].
  destruct (Z.ltb_spec (Z.min maxSize size) (Z.of_nat (length wholeMsg))); [lia|].
  apply wp_ret. by split_and!.
Qed.

Lemma response_received transport (smh : sm) wholeMsg size id level model engineId name sp mx ref w
    s1 s2 p t :
  pduType (scopedData sp) = ResponsePDU → good_level level → models model = Some smh → ok w →
  carried smh wholeMsg (header_of size id level model ResponsePDU) level
    engineId name sp mx ref (sec w) s1 →
  pendings w !! id = Some (p, t) → p_securityModel p = model → p_securityName p = name →
  p_securityLevel p = level → p_contextEngineId p = contextEngineId sp →
  p_contextName p = contextName sp →
  sm_releaseStateInformation smh ref s1 = (Ok tt, s2) →
  wp (prepareDataElements models c own returnResponsePdu res transport wholeMsg)
    (λ r w', r = Ok (mk_elements 3 model name level (contextEngineId sp) (contextName sp) 1
                       (scopedData sp) ResponsePDU (Some (p_sendPduHandle p)) mx None) ∧
       env w' = env w ∧ ok w' ∧ sec w' = s2 ∧ pendings w' = delete id (pendings w) ∧ served w' = served w) w.
Proof.
  intros Ht Hlevel Hmodels Hok Hcar Hpend Hm Hn Hl Hc Hcn Hrel.
  eapply wp_eq; [eapply (carried_prepare _ _ _ _ _ _ _ _ _ _ _ _ _ _ _ Hlevel Hmodels Hcar)|].
  { by rewrite Ht. }
  unfold deliver, find_pending. rewrite Ht. cbn [responseClassPDUs internalClassPDUs orb].
  apply wp_bind, wp_try, wp_bind, wp_on_cache. unfold wp at 1. cbn [i_msgID put_sec mp].
  destruct (MpCache.popByMsgId_ok p_sendPduHandle _ _ _ _ Hok Hpend) as (x & Hx & Hwf & Hp & _ & Hs & _).
  rewrite Hx. cbn [fst snd]. apply wp_ret. unfold matches. rewrite Hm, Hn, Hl, Hc, Hcn.
  cbn [i_securityModel i_securityLevel]. rewrite !Z.eqb_refl, !bool_decide_true by done. cbn [andb negb].
  apply wp_bind, wp_on_sec. unfold wp at 1. wproj. rewrite Hrel. cbn [fst snd].
  apply wp_ret. split_and!; try done. unfold elements_of. by rewrite Ht.
Qed.
End engine.

(** A request and its response: two engines that know of each other, with any
    security models that carry the two messages, exchange them as they were sent
    --- the responder gets the PDU of the request with its context and the
    security name, whatever message ID and reference the two engines picked, the
    requester gets the PDU of the response under the handle it sent the request
    with, and afterwards neither engine holds anything for the exchange. *)
Theorem v3_exchange
    (* A sends at one moment and receives at another *)
    modelsA modelsA' ownA maxA returnA resA addrB wA (smA smA' : sm)
    modelsB modelsB' ownB maxB returnB resB addrA wB (smB smB' : sm)
    model level name nameB ctx ctxName p q h id sref peer
    (par1 par2 whole1 whole2 : octets) sA1 sA2 sA3 sB1 sB2 mx1 mx2 ref1 ref2 engineId :
  let C := outgoing_context ownA (Some peer) ctx in
  let sp1 := mk_scoped C ctxName p in
  let sp2 := mk_scoped C ctxName q in
  let h1 := header_of maxA id level model (pduType p) in
  let h2 := header_of maxB id level model (pduType q) in
  3 <= model <= 2147483647 → good_level level → C ≠ [] →
  confirmedClassPDUs (pduType p) = true → pduType q = ResponsePDU →
  modelsA model = Some smA → modelsA' model = Some smA' →
  modelsB model = Some smB → modelsB' model = Some smB' →
  ok wA → ok wB → engineIdCache (mp wA) !! addrB = Some peer →
  fresh_request wA id h → fresh_reference wB sref →
  (* the security models carry the request and the response *)
  sm_generateRequestMsg smA (message_of h1 sp1) maxA model (Some (securityEngineId peer)) name level
    sp1 (sec wA) = (Ok (par1, whole1), sA1) →
  carried smB whole1 h1 level ownB nameB sp1 mx1 ref1 (sec wB) sB1 →
  sm_generateResponseMsg smB' (message_of h2 sp2) maxB model ownB (Some nameB) level sp2 ref1 sB1 =
    (Ok (par2, whole2), sB2) →
  carried smA' whole2 h2 level engineId name sp2 mx2 ref2 sA1 sA2 →
  sm_releaseStateInformation smA' ref2 sA2 = (Ok tt, sA3) →
  Z.of_nat (length whole1) <= maxA → Z.of_nat (length whole2) <= Z.min maxA maxB →
  ∃ wA1 wB1 wB2 wA2,
    prepareOutgoingMessage modelsA ownA maxA addrB model name level ctx ctxName p h wA =
      (Ok (addrB, whole1), wA1) ∧
    prepareDataElements modelsB c ownB returnB resB addrA whole1 wB =
      (Ok (mk_elements 3 model nameB level C ctxName 1 p (pduType p) None mx1 (Some sref)), wB1) ∧
    prepareResponseMessage modelsB' ownB maxB (Some q) (Some sref) None wB1 =
      (Ok (addrA, whole2), wB2) ∧
    prepareDataElements modelsA' c ownA returnA resA addrB whole2 wA1 =
      (Ok (mk_elements 3 model name level C ctxName 1 q ResponsePDU (Some h) mx2 None), wA2) ∧
    pendings wA2 = pendings wA ∧ served wB2 = served wB ∧
    served wA2 = served wA ∧ pendings wB2 = pendings wB.
Proof.
  intros C sp1 sp2 h1 h2 Hmodel Hlevel HC Hp Hq HmA HmA' HmB HmB' HokA HokB Hpeer HfA HfB
    Hgen1 Hcar1 Hgen2 Hcar2 Hrel Hlen1 Hlen2.
  destruct (wp_inv _ _ _ _ (outgoing_ok modelsA ownA maxA addrB model name level ctx ctxName p h wA smA
    id par1 whole1 sA1 peer Hp Hlevel Hmodel HmA Hpeer HokA HfA Hgen1 Hlen1))
    as (wA1 & Hr1 & _ & HokA1 & HsA1 & _ & HsvA1 & HpA1). fold C in HpA1.
  destruct (wp_inv _ _ _ _ (request_received modelsB ownB returnB resB addrA smB whole1 maxA id level
    model nameB sp1 mx1 ref1 wB sB1 sref Hp Hlevel HmB HokB HfB Hcar1))
    as (wB1 & Hr2 & _ & HokB1 & HsB1 & HpB1 & HsvB1). cbn [sp1 contextEngineId contextName scopedData] in *.
  destruct (wp_inv _ _ _ _ (response_ok modelsB' ownB maxB addrA smB' maxA id level model nameB C ctxName
    q ref1 mx1 wB1 (MpCache.expirationTimer (cache (mp wB)) + 600) sref par2 whole2 sB2
    Hmodel Hlevel HmB' HokB1 HC ltac:(by rewrite HsvB1, lookup_insert_eq) ltac:(by rewrite HsB1)
    ltac:(lia) ltac:(lia))) as (wB2 & Hr3 & _ & _ & _ & HpB2 & HsvB2).
  unfold h2 in Hcar2. rewrite Hq in Hcar2. rewrite <- HsA1 in Hcar2.
  destruct (wp_inv _ _ _ _ (response_received modelsA' ownA returnA resA addrB smA' whole2 maxB id level
    model engineId name sp2 mx2 ref2 wA1 sA2 sA3 _ _ Hq Hlevel HmA' HokA1 Hcar2
    ltac:(by rewrite HpA1, lookup_insert_eq) eq_refl eq_refl eq_refl eq_refl eq_refl Hrel))
    as (wA2 & Hr4 & _ & _ & _ & HpA2 & HsvA2).
  exists wA1, wB1, wB2, wA2. split_and!; try done.
  - rewrite HpA2, HpA1. apply delete_insert_id. apply HfA.
  - rewrite HsvB2, HsvB1. apply delete_insert_id. apply HfB.
  - congruence.
  - congruence.
Qed.
End exchange.

(** The user-based model carries a request: under the conditions of
    [UsmSpec.usm_delivers], what it generates at one engine is [carried] to the
    other. *)
Lemma usm_carries (H : hashlib) (B : cipherbackend) (c : codec) `{!HashlibLaws H} `{!BackendLaws B}
    `{!CodecLaws c} boots time createRow nowB bootsB timeB resB createRowB h sp0 eB name level scoped
    sA o m p sA' sB n mac key pre post :
  level = 2 ∨ level = 3 → eB ≠ [] →
  Usm.prepare H B c boots time createRow (message_of h sp0) (Some eB) name level scoped None sA =
    (Ok (o, m, p), sA') →
  UsmSpec.ok sB → Usm.snmpEngineID (Usm.lcd sB) = eB → Usm.u_name (Usm.o_user o) ≠ [] →
  UsmSpec.lcd_user (Usm.lcd sB) eB (Usm.u_name (Usm.o_user o)) = Ok (Usm.o_user o) →
  Usm.bad_level level (Usm.o_user o) p = false →
  bootsB ≠ 2147483647 → msgAuthoritativeEngineBoots p = bootsB →
  Z.abs (timeB - msgAuthoritativeEngineTime p) <= 150 →
  dget (Auth.macs H) (Usm.u_authProtocol (Usm.o_user o)) = Some (n, mac) →
  Usm.u_authKey (Usm.o_user o) = Some key → digest_field c m p n pre post →
  bytes_find (zeros n) (pre ++ zeros n ++ post) = Some (length pre) →
  bytes_find (mac key (pre ++ zeros n ++ post)) (pre ++ mac key (pre ++ zeros n ++ post) ++ post) =
    Some (length pre) →
  ∃ mx ref sB', carried c
    (UsmModel.usm_model H B c nowB bootsB timeB resB createRowB)
    (pre ++ mac key (pre ++ zeros n ++ post) ++ post) h level
    eB (Usm.u_securityName (Usm.o_user o)) scoped mx ref sB sB'.
Proof.
  intros. edestruct (UsmSpec.usm_delivers H B c createRow boots time nowB bootsB timeB resB
    (message_of h sp0) eB name level scoped sA o m p sA' sB (msgMaxSize h) n mac key pre post)
    as (_ & msg' & Hdec & Hh & Hv & mx & ref & sB' & Hproc); try done.
  exists mx, ref, sB'. split. by exists msg'.
Qed.

(** ** Two engines with the user-based model, at level authPriv *)
Definition demo_A : demo_world :=
  mk_world (mk_mp3 (MpCache.init MpCache.demo_gen MpCache.demo_gen)
    {[ demo_address := mk_peer Usm.demo_authority Usm.demo_authority [] ]} ∅ 0) Usm.demo_sender [] tt.
Definition demo_B : demo_world := mk_world demo_mp (Usm.demo_engine Usm.demo_authority ∅) [] tt.
Definition demo_address_A : oid * Z := ([1; 3; 6; 1; 6; 1; 1], 50000).
Definition demo_models_A : Z → option (security_model Usm.state SNMPv3Message octets scoped_pdu) :=
  UsmModel.demo_models 600 1 50.
Definition demo_models_B : Z → option (security_model Usm.state SNMPv3Message octets scoped_pdu) :=
  UsmModel.demo_models 600 4 1100.
Definition demo_answer : pdu := mk_pdu ResponsePDU 42 0 0 [([1; 3; 6; 1], VInteger 7)].
Definition demo_sp (p : pdu) : scoped_pdu := mk_scoped Usm.demo_authority [] p.

Definition demo_request : result exn (octets * octets) * Usm.state :=
  Usm.generateRequestMsg LocalKey.toy_hashlib Priv.toy_backend ToyCodec.toy 1 50 (λ _, raise KeyError)
    (message_of (header_of 65507 0 3 3 GetRequestPDU) (demo_sp Usm.demo_pdu))
    (Some Usm.demo_authority) [117] 3 (demo_sp Usm.demo_pdu) Usm.demo_sender.
Definition demo_octets (r : result exn (octets * octets)) : octets :=
  match r with Ok (_, o) => o | Err _ => [] end.
Definition demo_params (r : result exn (octets * octets)) : octets :=
  match r with Ok (o, _) => o | Err _ => [] end.
Definition demo_decoded (o : octets) : SNMPv3Message :=
  match decodeMessage ToyCodec.toy o with Ok (Some m) => m | _ => demo_report end.
Definition demo_accept (now boots time : Z) (o : octets) (s : Usm.state) :
    result exn Usm.accepted * Usm.state :=
  Usm.processIncomingMsg LocalKey.toy_hashlib Priv.toy_backend ToyCodec.toy now boots time (Some (1, 2))
    65507 (msgSecurityParameters (demo_decoded o)) 3 o (demo_decoded o) s.
Definition demo_accepted_B : result exn Usm.accepted * Usm.state :=
  demo_accept 600 4 1100 (demo_octets demo_request.1) (Usm.demo_engine Usm.demo_authority ∅).
Definition demo_response : result exn (octets * octets) * Usm.state :=
  Usm.generateResponseMsg LocalKey.toy_hashlib Priv.toy_backend ToyCodec.toy 4 1100 (λ _, raise KeyError)
    (message_of (header_of 65507 0 3 3 ResponsePDU) (demo_sp demo_answer)) None [117] 3
    (demo_sp demo_answer) 1 demo_accepted_B.2.
Definition demo_accepted_A : result exn Usm.accepted * Usm.state :=
  demo_accept 600 1 50 (demo_octets demo_response.1) demo_request.2.

Definition demo_released : Usm.state := (Usm.releaseStateInformation 1 demo_accepted_A.2).2.

Lemma v3_exchange_witness :
  ∃ wA1 wB1 wB2 wA2,
    prepareOutgoingMessage demo_models_A Usm.demo_manager 65507 demo_address 3 [117] 3 None []
      Usm.demo_pdu 9 demo_A = (Ok (demo_address, demo_octets demo_request.1), wA1) ∧
    prepareDataElements demo_models_B ToyCodec.toy Usm.demo_authority demo_no_report (Some (1, 2))
      demo_address_A (demo_octets demo_request.1) demo_B =
      (Ok (mk_elements 3 3 [117] 3 Usm.demo_authority [] 1 Usm.demo_pdu GetRequestPDU None 65427
             (Some 0)), wB1) ∧
    prepareResponseMessage demo_models_B Usm.demo_authority 65507 (Some demo_answer) (Some 0) None wB1 =
      (Ok (demo_address_A, demo_octets demo_response.1), wB2) ∧
    prepareDataElements demo_models_A ToyCodec.toy Usm.demo_manager demo_no_report (Some (1, 2))
      demo_address (demo_octets demo_response.1) wA1 =
      (Ok (mk_elements 3 3 [117] 3 Usm.demo_authority [] 1 demo_answer ResponsePDU (Some 9) 65427
             None), wA2) ∧
    pendings wA2 = ∅ ∧ served wB2 = ∅ ∧ served wA2 = ∅ ∧ pendings wB2 = ∅.
Proof.
  pose (mk := λ now boots time, UsmModel.usm_model LocalKey.toy_hashlib Priv.toy_backend ToyCodec.toy
    now boots time (Some (1, 2)) (λ _, raise KeyError)).
  assert (Hg1 : demo_request = (Ok (demo_params demo_request.1, demo_octets demo_request.1), demo_request.2))
    by (vm_compute; reflexivity).
  assert (Hg2 : demo_response = (Ok (demo_params demo_response.1, demo_octets demo_response.1), demo_response.2))
    by (vm_compute; reflexivity).
  assert (Hc1 : demo_accepted_B = (Ok (Usm.demo_authority, [117], demo_sp Usm.demo_pdu, 65427, 1), demo_accepted_B.2))
    by (vm_compute; reflexivity).
  assert (Hc2 : demo_accepted_A = (Ok (Usm.demo_authority, [117], demo_sp demo_answer, 65427, 1), demo_accepted_A.2))
    by (vm_compute; reflexivity).
  assert (Hrel : Usm.releaseStateInformation 1 demo_accepted_A.2 = (Ok tt, demo_released))
    by (vm_compute; reflexivity).
  refine (v3_exchange ToyCodec.toy demo_models_A demo_models_A Usm.demo_manager 65507 demo_no_report
    (Some (1, 2)) demo_address demo_A (mk 600 1 50) (mk 600 1 50)
    demo_models_B demo_models_B Usm.demo_authority 65507 demo_no_report (Some (1, 2)) demo_address_A
    demo_B (mk 600 4 1100) (mk 600 4 1100) 3 3 [117] [117] None [] Usm.demo_pdu demo_answer 9 0 0
    (mk_peer Usm.demo_authority Usm.demo_authority []) (demo_params demo_request.1)
    (demo_params demo_response.1) (demo_octets demo_request.1)
    (demo_octets demo_response.1) demo_request.2 demo_accepted_A.2 demo_released demo_accepted_B.2
    demo_response.2 65427 65427 1 1 Usm.demo_authority _ _ _ _ _ _ _ _ _ _ _ _ _ _ Hg1 _ Hg2 _ Hrel _ _).
  - lia.
  - by right; right.
  - discriminate.
  - reflexivity.
  - reflexivity.
  - reflexivity.
  - reflexivity.
  - reflexivity.
  - reflexivity.
  - by apply demo_mp_ok.
  - by apply demo_mp_ok.
  - reflexivity.
  - split; [reflexivity|]. split; [reflexivity|]. intros m i t Hm.
    exfalso. apply (lookup_empty_Some m (i, t)). exact Hm.
  - split; reflexivity.
  - split. exists (demo_decoded (demo_octets demo_request.1)).
    split; [vm_compute; reflexivity|]. split; [vm_compute; reflexivity|].
    split; [vm_compute; reflexivity|]. exact Hc1.
  - split. exists (demo_decoded (demo_octets demo_response.1)).
    split; [vm_compute; reflexivity|]. split; [vm_compute; reflexivity|].
    split; [vm_compute; reflexivity|]. exact Hc2.
  - vm_compute. by intros [=].
  - vm_compute. by intros [=].
Defined.
End MpV3Exchange.
