(* ===== verification/Transport.v ===== *)
(** * Transport addresses (src/pysnmp/smi/mibs/behavior/SNMPv2-TM.py,
      src/pysnmp/smi/mibs/behavior/TRANSPORT-ADDRESS-MIB.py,
      src/pysnmp/carrier/asyncio)

    An address of a target table is octets; a message comes from a socket
    address.  The text of an IP address ([inet_ntop]) is modelled by the octets
    it writes out. *)
From S2P Require Export Errors.
#[local] Open Scope Z_scope.

Module Transport.

(** What a transport calls its peers *)
Inductive address : Type :=
  | Inet (host : octets) (port : Z)
  | Inet6 (host : octets) (port flowinfo scope : Z)
  | Path (name : octets)
  | Opaque (value : octets).

#[global] Instance address_eq_dec : EqDecision address.
Proof. solve_decision. Defined.
#[global] Instance address_countable : Countable address.
Proof.
  refine (inj_countable'
    (λ a, match a with
          | Inet h p => inl (inl (h, p)) | Inet6 h p f s => inl (inr (h, p, f, s))
          | Path n => inr (inl n) | Opaque v => inr (inr v) end)
    (λ x, match x with
          | inl (inl (h, p)) => Inet h p | inl (inr (h, p, f, s)) => Inet6 h p f s
          | inr (inl n) => Path n | inr (inr v) => Opaque v end) _).
  by intros [].
Defined.

(** carrier/asyncio: the domains *)
Definition snmpUDPDomain : oid := [1; 3; 6; 1; 6; 1; 1].
Definition snmpUDP6Domain : oid := [1; 3; 6; 1; 2; 1; 100; 1; 2].
Definition snmpLocalDomain : oid := [1; 3; 6; 1; 2; 1; 100; 1; 13].
Definition snmpTCPDomain : oid := [1; 3; 6; 1; 2; 1; 100; 1; 5].
Definition snmpTCP6Domain : oid := [1; 3; 6; 1; 2; 1; 100; 1; 6].

(** [octets[i] << 8 | octets[i + 1]] *)
Definition port_at (i : nat) (o : octets) : Z :=
  Z.lor (Z.shiftl (default 0 (o !! i)) 8) (default 0 (o !! (i + 1)%nat)).

(** [_asSocketAddress], [_asSocketAddressIPv4], after the size constraint *)
Definition socket4 (o : octets) : result exn address :=
  if (length o =? 6)%nat then Ok (Inet (take 4 o) (port_at 4 o)) else Err (PyAsn1Error "size").
(** [_asSocketAddressIPv6], on a platform that has IPv6 *)
Definition socket6 (o : octets) : result exn address :=
  if (length o =? 18)%nat then Ok (Inet6 (take 16 o) (port_at 16 o) 0 0)
  else Err (PyAsn1Error "size").

(** [_packed]: the octets [inet_pton] makes of the host (an error when it is not one of
    the family), and the two low octets of the port *)
Definition port_octets (port : Z) : octets := [Z.land (Z.shiftr port 8) 255; Z.land port 255].
Definition packed (size : nat) (host : octets) (port : Z) : result exn octets :=
  if (length host =? size)%nat then Ok (host ++ port_octets port) else Err ValueError.
Definition sized (size : nat) (o : octets) : result exn octets :=
  if (length o =? size)%nat then Ok o else Err (PyAsn1Error "size").
(** [_prettyIn], [_prettyInIPv4] and [_prettyInIPv6], of a socket address or of octets,
    before the size constraint *)
Definition packed4 (v : address + octets) : result exn octets :=
  match v with
  | inl (Inet h p) => packed 4 h p ≫= sized 6
  | inl (Inet6 h p _ _) => packed 4 h p ≫= sized 6
  | inl _ => Err TypeError
  | inr o => sized 6 o
  end.
Definition packed6 (v : address + octets) : result exn octets :=
  match v with
  | inl (Inet h p) => packed 16 h p ≫= sized 18
  | inl (Inet6 h p _ _) => packed 16 h p ≫= sized 18
  | inl _ => Err TypeError
  | inr o => sized 18 o
  end.

(** [domain[:len(d)] == d] *)
Definition in_domain (d domain : oid) : bool := bool_decide (take (length d) domain = d).

(** The address of a target, as its transport names it *)
Definition target_address (domain : oid) (o : octets) : result exn address :=
  if in_domain snmpUDPDomain domain then socket4 o
  else if in_domain snmpUDP6Domain domain then socket6 o
  else if in_domain snmpTCPDomain domain then socket4 o
  else if in_domain snmpTCP6Domain domain then socket6 o
  else if in_domain snmpLocalDomain domain then Ok (Path o)
  else Ok (Opaque o).
End Transport.
