(* ===== verification/Community.v ===== *)
(** * The community-based security models (src/pysnmp/proto/secmod/rfc2576.py)

    A community and the transport a message came by select a security name and a
    context from three MIB tables; a security name and a context select the
    community of a request.  Both ways go through maps that are rebuilt when the
    version of the column they are keyed on has changed.  The models of SNMPv1 and
    SNMPv2c differ in [securityModelID] only. *)
From S2P Require Export Transport SecModel ReqCache Column Vacm.
Import Mp.
#[local] Open Scope Z_scope.

Module Community.

(** ** Messages (rfc1157.py, rfc1901.py) *)
Record Message : Type := mk_message {
  version : Z;
  community : octets;
  data : v1_pdu;
}.
Definition with_community (x : octets) (m : Message) : Message := mk_message (version m) x (data m).

(** ** The state *)

(** A security name, a context engine ID and a context name *)
Abbreviation identity := (octets * octets * octets)%type.
Abbreviation origin := (oid * Transport.address)%type.

(** The tables (SNMP-COMMUNITY-MIB, SNMP-TARGET-MIB) *)
Record LCD : Type := mk_lcd {
  snmpEngineID : octets;
  snmpTargetAddrTDomain : Column.column oid;
  snmpTargetAddrTAddress : Column.column octets;
  snmpTargetAddrTagList : Column.column octets;
  snmpTargetParamsSecurityName : Column.column octets;
  snmpTargetParamsSecurityModel : Column.column Z;
  snmpCommunityName : Column.column octets;
  snmpCommunitySecurityName : Column.column octets;
  snmpCommunityContextEngineID : Column.column octets;
  snmpCommunityContextName : Column.column octets;
  snmpCommunityTransportTag : Column.column octets;
}.

(** [SnmpV1SecurityModel]: sets are lists without repetition. *)
Record Com : Type := mk_com {
  transportBranchId : Z;
  paramsBranchId : Z;
  communityBranchId : Z;
  securityBranchId : Z;
  nameToModelMap : dict octets (list Z);
  securityMap : dict identity octets;
  transportToTagMap : dict origin (list octets);
  communityToTagMap : dict octets (list octets);
  tagAndCommunityToSecurityMap : dict (octets * octets) (list identity);
  cache : ReqCache.Sec.Cache octets;
}.

(** [__init__] *)
Definition init (g : NextId.Integer) : Com :=
  mk_com (-1) (-1) (-1) (-1) [] [] [] [] [] (ReqCache.Sec.mk_Cache g ∅).

Record state : Type := mk_state {
  com : Com;
  lcd : LCD;
  counters : dict oid value;
}.
Abbreviation C := (M exn state).

Definition set_params (b : Z) (m : dict octets (list Z)) (c : Com) : Com :=
  mk_com (transportBranchId c) b (communityBranchId c) (securityBranchId c) m (securityMap c)
    (transportToTagMap c) (communityToTagMap c) (tagAndCommunityToSecurityMap c) (cache c).
Definition set_transports (b : Z) (m : dict origin (list octets)) (c : Com) : Com :=
  mk_com b (paramsBranchId c) (communityBranchId c) (securityBranchId c) (nameToModelMap c)
    (securityMap c) m (communityToTagMap c) (tagAndCommunityToSecurityMap c) (cache c).
Definition set_communities (b : Z) (m : dict octets (list octets))
    (t : dict (octets * octets) (list identity)) (c : Com) : Com :=
  mk_com (transportBranchId c) (paramsBranchId c) b (securityBranchId c) (nameToModelMap c)
    (securityMap c) (transportToTagMap c) m t (cache c).
Definition set_security (b : Z) (m : dict identity octets) (c : Com) : Com :=
  mk_com (transportBranchId c) (paramsBranchId c) (communityBranchId c) b (nameToModelMap c) m
    (transportToTagMap c) (communityToTagMap c) (tagAndCommunityToSecurityMap c) (cache c).
Definition set_cache (x : ReqCache.Sec.Cache octets) (c : Com) : Com :=
  mk_com (transportBranchId c) (paramsBranchId c) (communityBranchId c) (securityBranchId c)
    (nameToModelMap c) (securityMap c) (transportToTagMap c) (communityToTagMap c)
    (tagAndCommunityToSecurityMap c) x.

Definition put_com (c : Com) (s : state) : state := mk_state c (lcd s) (counters s).
Definition on_com {A} (m : M exn Com A) : C A := zoom com put_com m.
Definition on_cache {A} (m : M exn (ReqCache.Sec.Cache octets) A) : C A :=
  on_com (zoom cache set_cache m).

(** [set.add] *)
Definition add {A} `{EqDecision A} (x : A) (l : list A) : list A :=
  if decide (x ∈ l) then l else l ++ [x].
(** [d.setdefault(k, set()).update(xs)], as the code spells it *)
Definition add_all {K A} `{EqDecision K} `{EqDecision A} (k : K) (xs : list A)
    (d : dict K (list A)) : dict K (list A) :=
  dset d k (foldl (λ l x, add x l) (default [] (dget d k)) xs).

(** ** The maps: one round of each loop *)

(** A step of a loop that updates a value or raises *)
Definition update_com {D} (get : Com → D) (put : D → Com → Com) (f : D → result exn D) : M exn Com unit :=
  fun c => match f (get c) with Ok d => (Ok tt, put d c) | Err e => (Err e, c) end.

(** [col.name + instId] where [instId] is the rest of the node's name *)
Definition instance_of {V} (col : Column.column V) (n : oid) : oid :=
  drop (length (Column.name col)) n.

(** The names of SNMP-TARGET-MIB and their models, as [_com2sec] collects them *)
Definition add_params (l : LCD) (n : oid) (securityName : octets) (m : dict octets (list Z)) :
    result exn (dict octets (list Z)) :=
  model ← Vacm.cell (snmpTargetParamsSecurityModel l) (instance_of (snmpTargetParamsSecurityName l) n);
  mret (add_all securityName [model] m).
(** As [_sec2com] collects them: its membership test is on the model, which is
    never a key, so a name keeps the model of its last row. *)
Definition add_params_out (l : LCD) (n : oid) (securityName : octets) (m : dict octets (list Z)) :
    result exn (dict octets (list Z)) :=
  model ← Vacm.cell (snmpTargetParamsSecurityModel l) (instance_of (snmpTargetParamsSecurityName l) n);
  mret (dset m securityName [model]).

Definition rebuild_params (add_row : oid → octets → dict octets (list Z) → result exn (dict octets (list Z)))
    (l : LCD) : M exn Com unit :=
  modify (λ c, set_params (paramsBranchId c) [] c);;
  Column.for_each (snmpTargetParamsSecurityName l) (λ n securityName,
    update_com nameToModelMap (λ d c, set_params (paramsBranchId c) d c) (add_row n securityName));;
  modify (λ c, set_params (Column.branchVersionId (snmpTargetParamsSecurityName l)) (nameToModelMap c) c).

(** Security name and context to community: the last row wins. *)
Definition add_security (l : LCD) (n : oid) (communityName : octets) (m : dict identity octets) :
    result exn (dict identity octets) :=
  let i := instance_of (snmpCommunityName l) n in
  s ← Vacm.cell (snmpCommunitySecurityName l) i;
  e ← Vacm.cell (snmpCommunityContextEngineID l) i;
  x ← Vacm.cell (snmpCommunityContextName l) i;
  mret (dset m (s, e, x) communityName).

Definition rebuild_security (l : LCD) : M exn Com unit :=
  modify (λ c, set_security (securityBranchId c) [] c);;
  Column.for_each (snmpCommunityName l) (λ n communityName,
    update_com securityMap (λ d c, set_security (securityBranchId c) d c) (add_security l n communityName));;
  modify (λ c, set_security (Column.branchVersionId (snmpCommunityName l)) (securityMap c) c).

(** [bytes.split()]: at runs of ASCII whitespace *)
Definition is_space (b : Z) : bool := ((9 <=? b) && (b <=? 13)) || (b =? 32).
Fixpoint split_loop (word : octets) (l : octets) : list octets :=
  match l with
  | [] => match word with [] => [] | _ => [word] end
  | b :: l =>
      if is_space b then match word with [] => split_loop [] l | _ => word :: split_loop [] l end
      else split_loop (word ++ [b]) l
  end.
Definition split (l : octets) : list octets := split_loop [] l.

(** The tags of a target address; an empty list counts as the empty tag. *)
Definition tags_of (tagList : octets) : list octets :=
  match tagList with [] => [[]] | _ => split tagList end.

Definition add_transport (l : LCD) (n : oid) (tagList : octets) (m : dict origin (list octets)) :
    result exn (dict origin (list octets)) :=
  let i := instance_of (snmpTargetAddrTagList l) n in
  d ← Vacm.cell (snmpTargetAddrTDomain l) i;
  o ← Vacm.cell (snmpTargetAddrTAddress l) i;
  a ← Transport.target_address d o;
  mret (add_all (d, a) (tags_of tagList) m).

Definition rebuild_transports (l : LCD) : M exn Com unit :=
  modify (λ c, set_transports (transportBranchId c) [] c);;
  Column.for_each (snmpTargetAddrTagList l) (λ n tagList,
    update_com transportToTagMap (λ d c, set_transports (transportBranchId c) d c)
      (add_transport l n tagList));;
  modify (λ c, set_transports (Column.branchVersionId (snmpTargetAddrTAddress l)) (transportToTagMap c) c).

(** Community to tags, and tag and community to identities *)
Abbreviation communities := (dict octets (list octets) * dict (octets * octets) (list identity))%type.
Definition add_community (l : LCD) (n : oid) (communityName : octets) (m : communities) :
    result exn communities :=
  let i := instance_of (snmpCommunityName l) n in
  s ← Vacm.cell (snmpCommunitySecurityName l) i;
  e ← Vacm.cell (snmpCommunityContextEngineID l) i;
  x ← Vacm.cell (snmpCommunityContextName l) i;
  t ← Vacm.cell (snmpCommunityTransportTag l) i;
  mret (add_all communityName [t] m.1, add_all (t, communityName) [(s, e, x)] m.2).

Definition communities_of (c : Com) : communities :=
  (communityToTagMap c, tagAndCommunityToSecurityMap c).
Definition rebuild_communities (l : LCD) : M exn Com unit :=
  modify (λ c, set_communities (communityBranchId c) [] [] c);;
  Column.for_each (snmpCommunityName l) (λ n communityName,
    update_com communities_of (λ d c, set_communities (communityBranchId c) d.1 d.2 c)
      (add_community l n communityName));;
  modify (λ c, set_communities (Column.branchVersionId (snmpCommunityName l)) (communityToTagMap c)
                 (tagAndCommunityToSecurityMap c) c).

(** [if self.__...BranchId != column.branchVersionId] *)
Definition when_stale {V} (get : Com → Z) (col : Column.column V) (m : M exn Com unit) : M exn Com unit :=
  fun c => (if negb (get c =? Column.branchVersionId col) then m else mret tt) c.

(** ** [_sec2com] *)
Definition sec2com (id : identity) : C octets :=
  l ← gets lcd;
  on_com (when_stale paramsBranchId (snmpTargetParamsSecurityName l)
    (rebuild_params (add_params_out l) l;; modify (λ c, set_security (-1) (securityMap c) c)));;
  on_com (when_stale securityBranchId (snmpCommunityName l) (rebuild_security l));;
  m ← gets (λ s, securityMap (com s));
  match dget m id with
  | Some communityName => mret communityName
  | None => raise (StatusInfo unknownCommunityName)
  end.

Section model.
(** [securityModelID]; the codec of the message; the order in which Python goes
    through a set of security names and contexts, and through a set of tags *)
Context (securityModelID : Z)
        (encodeMessage : Message → result exn octets)
        (identities_order : list identity → list identity)
        (tags_order : list octets → list octets).

(** ** [_com2sec] *)

(** The order of the candidates: names of the target table with this security
    model first, then by name *)
Definition candidate_key (m : dict octets (list Z)) (x : identity) : bool * octets :=
  (negb (bool_decide (securityModelID ∈ default [] (dget m x.1.1))), x.1.1).
Definition key_leb (a b : bool * octets) : bool :=
  match a.1, b.1 with
  | false, true => true
  | true, false => false
  | _, _ => tuple_leb a.2 b.2
  end.

(** The tags a message of a community may go by *)
Definition candidate_tags (c : Com) (communityName : octets) (transport : origin) :
    result exn (list octets) :=
  match dget (communityToTagMap c) communityName with
  | None => Ok []
  | Some tags =>
      match dget (transportToTagMap c) transport with
      | Some known => Ok (tags_order (filter (λ t, t ∈ tags) known))
      | None => if decide ([] ∈ tags) then Ok [[]] else Err (StatusInfo unknownCommunityName)
      end
  end.

(** [for x in [map[(t, communityName)] for t in tags]: candidates.extend(list(x))] *)
Fixpoint candidates (c : Com) (communityName : octets) (tags : list octets) :
    result exn (list identity) :=
  match tags with
  | [] => Ok []
  | t :: tags =>
      match dget (tagAndCommunityToSecurityMap c) (t, communityName) with
      | None => Err KeyError
      | Some ids => rest ← candidates c communityName tags; mret (identities_order ids ++ rest)
      end
  end.

Definition choose (c : Com) (communityName : octets) (transport : origin) : result exn identity :=
  tags ← candidate_tags c communityName transport;
  ids ← candidates c communityName tags;
  match sorted_by key_leb (candidate_key (nameToModelMap c)) ids with
  | chosen :: _ => Ok chosen
  | [] => Err (StatusInfo unknownCommunityName)
  end.

Definition com2sec (communityName : octets) (transport : origin) : C identity :=
  l ← gets lcd;
  on_com (when_stale transportBranchId (snmpTargetAddrTAddress l) (rebuild_transports l));;
  on_com (when_stale paramsBranchId (snmpTargetParamsSecurityName l)
    (rebuild_params (add_params l) l;; modify (λ c, set_communities (-1) (communityToTagMap c)
                                       (tagAndCommunityToSecurityMap c) c)));;
  on_com (when_stale communityBranchId (snmpCommunityName l) (rebuild_communities l));;
  c ← gets com;
  liftR (choose c communityName transport).

(** ** The security model's interface *)
Abbreviation scoped := (octets * octets * v1_pdu)%type.

(** [except PyAsn1Error] around the encoder *)
Definition serialize (m : Message) : result exn octets :=
  match encodeMessage m with
  | Err e => if is_PyAsn1Error e then Err (StatusInfo serializationError) else Err e
  | r => r
  end.

(** [generateRequestMsg] *)
Definition generateRequestMsg (globalData : Message) (securityName : octets) (scopedPDU : scoped) :
    C (octets * octets) :=
  let '(e, x, pdu) := scopedPDU in
  communityName ← sec2com (securityName, e, x);
  w ← liftR (serialize (mk_message (version globalData) communityName pdu));
  mret (communityName, w).

(** [generateResponseMsg] *)
Definition generateResponseMsg (globalData : Message) (scopedPDU : scoped)
    (securityStateReference : Z) : C (octets * octets) :=
  communityName ← on_cache (ReqCache.Sec.pop securityStateReference);
  w ← liftR (serialize (mk_message (version globalData) communityName scopedPDU.2));
  mret (communityName, w).

Definition snmpInBadCommunityNames : oid := [1; 3; 6; 1; 2; 1; 11; 4; 0].
Definition count (n : oid) : C unit :=
  modify (λ s, mk_state (com s) (lcd s) (dset (counters s) n
    (default (Mp.counter (counters s) n) (wrapping_add (Mp.counter (counters s) n) 1)))).

(** [processIncomingMsg] *)
Definition processIncomingMsg (maxMessageSize : Z) (securityParameters : octets * origin)
    (msg : Message) : C (octets * octets * scoped * Z * Z) :=
  let '(communityName, transport) := securityParameters in
  id ← try_except (com2sec communityName transport)
         (λ e, if is_StatusInformation e then
                 Some (count snmpInBadCommunityNames;; raise (StatusInfo unknownCommunityName))
               else None);
  own ← gets (λ s, snmpEngineID (lcd s));
  ref ← on_cache (ReqCache.Sec.push communityName);
  mret (own, id.1.1, (id.1.2, id.2, data msg), maxMessageSize - 128, ref).

(** [releaseStateInformation] (secmod/base.py) *)
Definition releaseStateInformation (ref : Z) : C unit :=
  on_cache (ReqCache.Sec.pop ref);; mret tt.

(** The model as a value of the interface *)
Definition community_model : security_model state Message (octets * origin) scoped :=
  mk_security_model
    (λ msg _ _ _ name _ sp, generateRequestMsg msg name sp)
    (λ msg _ _ _ _ _ sp ref, generateResponseMsg msg sp ref)
    (λ mx par _ _ _ msg, processIncomingMsg mx par msg)
    releaseStateInformation.
End model.

(** ** An engine for the witnesses: community [112] is good for name [97] with the
    tag [116] and for name [98] without a tag; target 10.0.0.1:162 has the tags
    [116] and [117]; name [98] is in the target parameters with model 2. *)
Definition demo_row {V} (n : Z) (d v1 v2 : V) : Column.column V :=
  Vacm.demo_col [1; 3; 6; 1; 6; 3; 18; 1; 1; 1; n] d [([1], v1); ([2], v2)].
Definition demo_target {V} (n : Z) (d v : V) : Column.column V :=
  Vacm.demo_col [1; 3; 6; 1; 6; 3; 12; 1; 2; 1; n] d [([9], v)].
Definition demo_params {V} (n : Z) (d v : V) : Column.column V :=
  Vacm.demo_col [1; 3; 6; 1; 6; 3; 12; 1; 3; 1; n] d [([5], v)].
Definition demo_engineID : octets := [128; 0; 0; 0; 7].
Definition demo_lcd : LCD :=
  mk_lcd demo_engineID
    (demo_target 2 [] Transport.snmpUDPDomain) (demo_target 3 [] [10; 0; 0; 1; 0; 162])
    (demo_target 6 [] [116; 32; 117]) (demo_params 4 [] [98]) (demo_params 3 0 2)
    (demo_row 2 [] [112] [112]) (demo_row 3 [] [97] [98]) (demo_row 4 [] demo_engineID demo_engineID)
    (demo_row 5 [] [] []) (demo_row 6 [] [116] []).
Definition demo_gen : NextId.Integer := NextId.mk_Integer 16777215 256 128 (NextId.range 0 256).
Definition demo_state : state := mk_state (init demo_gen) demo_lcd [].
Definition demo_listed : origin := (Transport.snmpUDPDomain, Transport.Inet [10; 0; 0; 1] 162).
Definition demo_stranger : origin := (Transport.snmpUDPDomain, Transport.Inet [10; 0; 0; 2] 162).
End Community.
