(* ===== verification/CommunitySpec.v ===== *)
(** * What the community-based security models promise

    The maps are those of the tables; a community selects the best row that its
    transport may use; what is refused has no such row. *)
From S2P Require Export Community Wp.
Import Mp Community.
#[local] Open Scope Z_scope.

Module CommunitySpec.

(** ** Sets as lists *)
Lemma elem_of_add {A} `{EqDecision A} (x y : A) l : y ∈ add x l ↔ y = x ∨ y ∈ l.
Proof. unfold add. case_decide; [|rewrite elem_of_app, list_elem_of_singleton]; naive_solver. Qed.

Lemma elem_of_foldl_add {A} `{EqDecision A} (xs : list A) l y :
  y ∈ foldl (λ l x, add x l) l xs ↔ y ∈ l ∨ y ∈ xs.
Proof.
  revert l; induction xs as [|x xs IH]; intros l; cbn; [set_solver|].
  rewrite IH, elem_of_add. set_solver.
Qed.

Section add_all.
Context {K A : Type} `{EqDecision K} `{EqDecision A}.
Implicit Types d : dict K (list A).

Lemma dget_add_all k xs d k' :
  dget (add_all k xs d) k' =
  if decide (k' = k) then Some (foldl (λ l x, add x l) (default [] (dget d k)) xs) else dget d k'.
Proof. apply dget_dset. Qed.

Definition add_entries (ts : list (K * list A)) d : dict K (list A) :=
  foldl (λ d t, add_all t.1 t.2 d) d ts.

Lemma add_entries_known ts d k :
  is_Some (dget (add_entries ts d) k) ↔ is_Some (dget d k) ∨ k ∈ ts.*1.
Proof.
  revert d; induction ts as [|[k' xs] ts IH]; intros d; cbn; [set_solver|].
  unfold add_entries in *. rewrite IH, dget_add_all. cbn. case_decide; subst.
  - split; [right; by left|]. intros _. left. by eexists.
  - set_solver.
Qed.

Lemma add_entries_elem ts d k x :
  x ∈ default [] (dget (add_entries ts d) k) ↔
  x ∈ default [] (dget d k) ∨ ∃ xs, (k, xs) ∈ ts ∧ x ∈ xs.
Proof.
  revert d; induction ts as [|[k' xs] ts IH]; intros d; cbn; [set_solver|].
  unfold add_entries in *. rewrite IH, dget_add_all. cbn. case_decide; subst; cbn.
  - rewrite elem_of_foldl_add. set_solver.
  - set_solver.
Qed.
End add_all.

#[global] Instance key_leb_total : TotalLeb key_leb.
Proof.
  split; unfold key_leb.
  - intros [[] x]; cbn; apply leb_refl.
  - intros [[] x] [[] y] [[] z]; cbn; try done; apply leb_trans.
  - intros [[] x] [[] y]; cbn; try done; apply leb_total.
Qed.

(** ** The tables, read *)
Record row : Type := mk_row {
  r_community : octets;
  r_id : identity;
  r_tag : octets;
}.

Definition read_row (l : LCD) (n : oid) (communityName : octets) : result exn row :=
  let i := instance_of (snmpCommunityName l) n in
  s ← Vacm.cell (snmpCommunitySecurityName l) i;
  e ← Vacm.cell (snmpCommunityContextEngineID l) i;
  x ← Vacm.cell (snmpCommunityContextName l) i;
  t ← Vacm.cell (snmpCommunityTransportTag l) i;
  mret (mk_row communityName (s, e, x) t).
Definition read_transport (l : LCD) (n : oid) (tagList : octets) : result exn (origin * list octets) :=
  let i := instance_of (snmpTargetAddrTagList l) n in
  d ← Vacm.cell (snmpTargetAddrTDomain l) i;
  o ← Vacm.cell (snmpTargetAddrTAddress l) i;
  a ← Transport.target_address d o;
  mret ((d, a), tags_of tagList).
Definition read_params (l : LCD) (n : oid) (name : octets) : result exn (octets * Z) :=
  m ← Vacm.cell (snmpTargetParamsSecurityModel l) (instance_of (snmpTargetParamsSecurityName l) n);
  mret (name, m).

Fixpoint read_all {V R} (f : oid → V → result exn R) (ns : list (oid * V)) : result exn (list R) :=
  match ns with
  | [] => Ok []
  | (n, v) :: ns => r ← f n v; rs ← read_all f ns; mret (r :: rs)
  end.

(** The tables have what a row needs. *)
Record tables_ok (l : LCD) (rows : list row) (ts : list (origin * list octets))
    (ps : list (octets * Z)) : Prop := {
  to_communities : Column.wf (snmpCommunityName l);
  to_tagLists : Column.wf (snmpTargetAddrTagList l);
  to_params : Column.wf (snmpTargetParamsSecurityName l);
  to_rows : read_all (read_row l) (Column.nodes (snmpCommunityName l)) = Ok rows;
  to_transports : read_all (read_transport l) (Column.nodes (snmpTargetAddrTagList l)) = Ok ts;
  to_models : read_all (read_params l) (Column.nodes (snmpTargetParamsSecurityName l)) = Ok ps;
}.

(** The maps of the tables *)
Definition params_map (ps : list (octets * Z)) : dict octets (list Z) :=
  foldl (λ m p, add_all p.1 [p.2] m) [] ps.
Definition last_params_map (ps : list (octets * Z)) : dict octets (list Z) :=
  foldl (λ m p, dset m p.1 [p.2]) [] ps.
Definition transports_map (ts : list (origin * list octets)) : dict origin (list octets) :=
  add_entries ts [].
Definition tags_map (rows : list row) : dict octets (list octets) :=
  add_entries ((λ r, (r_community r, [r_tag r])) <$> rows) [].
Definition ids_map (rows : list row) : dict (octets * octets) (list identity) :=
  add_entries ((λ r, (r_tag r, r_community r, [r_id r])) <$> rows) [].
Definition security_map (rows : list row) : dict identity octets :=
  foldl (λ m r, dset m (r_id r) (r_community r)) [] rows.

(** ** A loop that reads the rows and folds them *)
Lemma read_all_foldM {V R D} (read : oid → V → result exn R) (f : oid * V → D → result exn D)
    (g : D → R → D) ns rs d :
  (∀ n v r d, read n v = Ok r → f (n, v) d = Ok (g d r)) →
  read_all read ns = Ok rs → foldM f ns d = Ok (foldl g d rs).
Proof.
  intros Hf. revert d rs; induction ns as [|[n v] ns IH]; intros d rs; cbn [read_all foldM].
  { intros [= <-]. done. }
  munfold. destruct (read n v) as [r|] eqn:Hr; [|done].
  destruct (read_all read ns) as [rs'|] eqn:Hrs; [|done]. intros [= <-].
  rewrite (Hf _ _ _ d Hr). by rewrite (IH _ rs' eq_refl).
Qed.

Lemma loop_ok {V R D} (col : Column.column V) (get : Com → D) (put : D → Com → Com)
    (read : oid → V → result exn R) (f : oid → V → D → result exn D) (g : D → R → D) rs c :
  Column.wf col → lens_laws get put →
  (∀ n v r d, read n v = Ok r → f n v d = Ok (g d r)) →
  read_all read (Column.nodes col) = Ok rs →
  Column.for_each col (λ n v, update_com get put (f n v)) c = (Ok tt, put (foldl g (get c) rs) c).
Proof.
  intros Hwf Hl Hf Hr. rewrite Column.for_each_spec by done.
  pose proof (mapM_foldM get put (λ kv, update_com get put (f kv.1 kv.2)) (λ kv, f kv.1 kv.2)
    (Column.nodes col) Hl) as Hm.
  assert (Hb : ∀ a : oid * V, steps_as get put (update_com get put (f a.1 a.2)) (f a.1 a.2)).
  { intros a c'. unfold update_com. destruct (f a.1 a.2 (get c')); [done|].
    exists (get c'). by rewrite (put_get _ _ Hl). }
  specialize (Hm Hb c).
  rewrite (read_all_foldM read (λ kv, f kv.1 kv.2) g _ rs (get c)) in Hm by auto. exact Hm.
Qed.

Section lookups.
Context (l : LCD) (rows : list row) (ts : list (origin * list octets)) (ps : list (octets * Z)).

(** The models of the names, as one of the two directions collected them *)
Definition models_map (m : dict octets (list Z)) : Prop :=
  m = params_map ps ∨ m = last_params_map ps.

(** A map that is not stale is that of the tables. *)
Record coherent (c : Com) : Prop := {
  co_params : paramsBranchId c = Column.branchVersionId (snmpTargetParamsSecurityName l) →
    models_map (nameToModelMap c);
  co_transports : transportBranchId c = Column.branchVersionId (snmpTargetAddrTAddress l) →
    transportToTagMap c = transports_map ts;
  co_communities : communityBranchId c = Column.branchVersionId (snmpCommunityName l) →
    communityToTagMap c = tags_map rows ∧ tagAndCommunityToSecurityMap c = ids_map rows;
  co_security : securityBranchId c = Column.branchVersionId (snmpCommunityName l) →
    securityMap c = security_map rows;
}.

Context (Htab : tables_ok l rows ts ps).
(** The versions count changes. *)
Context (Hversions : 0 <= Column.branchVersionId (snmpCommunityName l)).

Lemma rebuild_params_with f (g : dict octets (list Z) → octets * Z → dict octets (list Z)) c :
  (∀ n v r d, read_params l n v = Ok r → f n v d = Ok (g d r)) →
  rebuild_params f l c =
  (Ok tt, set_params (Column.branchVersionId (snmpTargetParamsSecurityName l)) (foldl g [] ps) c).
Proof.
  intros Hf. unfold rebuild_params. munfold.
  rewrite (loop_ok _ _ _ (read_params l) f g ps);
    [done|apply Htab|by split; intros; destruct s|exact Hf|apply Htab].
Qed.
Lemma rebuild_params_ok c : rebuild_params (add_params l) l c =
  (Ok tt, set_params (Column.branchVersionId (snmpTargetParamsSecurityName l)) (params_map ps) c).
Proof.
  apply rebuild_params_with. intros n v r d. unfold read_params, add_params. munfold.
  destruct (Vacm.cell _ _); [|done]. by intros [= <-].
Qed.
Lemma rebuild_params_out_ok c : rebuild_params (add_params_out l) l c =
  (Ok tt, set_params (Column.branchVersionId (snmpTargetParamsSecurityName l)) (last_params_map ps) c).
Proof.
  apply (rebuild_params_with _ (λ m p, dset m p.1 [p.2])).
  intros n v r d. unfold read_params, add_params_out. munfold.
  destruct (Vacm.cell _ _); [|done]. by intros [= <-].
Qed.

Lemma rebuild_transports_ok c : rebuild_transports l c =
  (Ok tt, set_transports (Column.branchVersionId (snmpTargetAddrTAddress l)) (transports_map ts) c).
Proof.
  unfold rebuild_transports. munfold.
  rewrite (loop_ok _ _ _ (read_transport l) (add_transport l) (λ d t, add_all t.1 t.2 d) ts).
  - done.
  - apply Htab.
  - by split; intros; destruct s.
  - intros n v r d. unfold read_transport, add_transport. munfold.
    repeat (case_match; [|done]). by intros [= <-].
  - apply Htab.
Qed.

Lemma rebuild_security_ok c : rebuild_security l c =
  (Ok tt, set_security (Column.branchVersionId (snmpCommunityName l)) (security_map rows) c).
Proof.
  unfold rebuild_security. munfold.
  rewrite (loop_ok _ _ _ (read_row l) (add_security l) (λ m r, dset m (r_id r) (r_community r)) rows).
  - done.
  - apply Htab.
  - by split; intros; destruct s.
  - intros n v r d. unfold read_row, add_security. munfold.
    repeat (case_match; [|done]). by intros [= <-].
  - apply Htab.
Qed.

Lemma rebuild_communities_ok c : rebuild_communities l c =
  (Ok tt, set_communities (Column.branchVersionId (snmpCommunityName l)) (tags_map rows)
            (ids_map rows) c).
Proof.
  unfold rebuild_communities. munfold.
  rewrite (loop_ok _ _ _ (read_row l) (add_community l)
    (λ m r, (add_all (r_community r) [r_tag r] m.1, add_all (r_tag r, r_community r) [r_id r] m.2)) rows).
  - cbn. f_equal. unfold set_communities, tags_map, ids_map, add_entries, communities_of. cbn.
    assert (Hf : ∀ m1 m2, foldl (λ (m : communities) r, (add_all (r_community r) [r_tag r] m.1,
        add_all (r_tag r, r_community r) [r_id r] m.2)) (m1, m2) rows =
      (foldl (λ d t, add_all t.1 t.2 d) m1 ((λ r, (r_community r, [r_tag r])) <$> rows),
       foldl (λ d t, add_all t.1 t.2 d) m2 ((λ r, (r_tag r, r_community r, [r_id r])) <$> rows))).
    { clear. induction rows as [|r rows' IH]; intros m1 m2; cbn; [done|]. apply IH. }
    by rewrite Hf.
  - apply Htab.
  - split; [by intros [] []|by intros [] [] []|by intros []].
  - intros n v r d. unfold read_row, add_community. munfold.
    repeat (case_match; [|done]). by intros [= <-].
  - apply Htab.
Qed.

(** ** Looking up brings the maps up to date *)
Lemma when_stale_ok {V} (get : Com → Z) (col : Column.column V) (m : M exn Com unit) c c' :
  m c = (Ok tt, c') →
  when_stale get col m c =
    (Ok tt, if get c =? Column.branchVersionId col then c else c').
Proof. intros Hm. unfold when_stale. by destruct (get c =? _). Qed.

(** The maps of the inbound direction are those of the tables. *)
Record current (c : Com) : Prop := {
  cu_params : models_map (nameToModelMap c);
  cu_transports : transportToTagMap c = transports_map ts;
  cu_communities : communityToTagMap c = tags_map rows;
  cu_ids : tagAndCommunityToSecurityMap c = ids_map rows;
}.

Section choice.
Context (securityModelID : Z) (identities_order : list identity → list identity)
  (tags_order : list octets → list octets).

Lemma com2sec_ok k o s : lcd s = l → coherent (com s) →
  ∃ c', com2sec securityModelID identities_order tags_order k o s =
      (choose securityModelID identities_order tags_order c' k o, put_com c' s) ∧
    coherent c' ∧ current c' ∧ cache c' = cache (com s) ∧
    (paramsBranchId (com s) ≠ Column.branchVersionId (snmpTargetParamsSecurityName l) →
     nameToModelMap c' = params_map ps).
Proof.
  intros Hl [Hp Ht Hc Hs]. unfold com2sec, on_com, zoom. munfold. rewrite Hl.
  rewrite (when_stale_ok _ _ _ _ _ (rebuild_transports_ok _)). cbn [put_com com lcd].
  set (c1 := if transportBranchId (com s) =? _ then com s else _).
  assert (Hc1 : transportToTagMap c1 = transports_map ts ∧
    nameToModelMap c1 = nameToModelMap (com s) ∧ paramsBranchId c1 = paramsBranchId (com s) ∧
    communityBranchId c1 = communityBranchId (com s) ∧ securityBranchId c1 = securityBranchId (com s) ∧
    communityToTagMap c1 = communityToTagMap (com s) ∧
    tagAndCommunityToSecurityMap c1 = tagAndCommunityToSecurityMap (com s) ∧
    securityMap c1 = securityMap (com s) ∧ cache c1 = cache (com s)).
  { unfold c1. destruct (Z.eqb_spec (transportBranchId (com s))
      (Column.branchVersionId (snmpTargetAddrTAddress l))); [|done]. split_and!; auto. }
  clearbody c1. destruct Hc1 as (T1 & T2 & T3 & T4 & T5 & T6 & T7 & T8 & T9).
  unfold when_stale at 1. munfold. rewrite T3.
  destruct (Z.eqb_spec (paramsBranchId (com s)) (Column.branchVersionId (snmpTargetParamsSecurityName l)))
    as [Ep|Ep]; cbn [negb]; [|rewrite rebuild_params_ok]; cbn [put_com com lcd].
  - unfold when_stale. rewrite T4. munfold.
    destruct (Z.eqb_spec (communityBranchId (com s)) (Column.branchVersionId (snmpCommunityName l)))
      as [Ec|Ec]; cbn [negb]; [|rewrite rebuild_communities_ok].
    + destruct (Hc Ec) as [Ha Hb]. exists c1. split; [done|]. split; [|split].
      * split; rewrite ?T1, ?T2, ?T3, ?T4, ?T5, ?T6, ?T7, ?T8; auto.
      * split; rewrite ?T2, ?T6, ?T7; auto.
      * split; done.
    + eexists. split; [done|]. split; [|split].
      * split; cbn; rewrite ?T1, ?T2, ?T3, ?T5, ?T8; auto.
      * split; cbn; rewrite ?T1, ?T2; auto.
      * split; done.
  - unfold when_stale. cbn [set_communities set_params communityBranchId]. munfold.
    destruct (Z.eqb_spec (-1) (Column.branchVersionId (snmpCommunityName l))); [lia|].
    cbn [negb]. rewrite rebuild_communities_ok. eexists. split; [done|]. split; [|split].
    + split; cbn; rewrite ?T1, ?T5, ?T8; unfold models_map; auto.
    + split; cbn; rewrite ?T1; unfold models_map; auto.
    + split; done.
Qed.

(** ** What may be chosen *)

(** The rows a message of community [k] from [o] may select: a known target
    address admits the rows of its tags, any other the rows without a tag. *)
Definition eligible (k : octets) (o : origin) (r : row) : Prop :=
  r ∈ rows ∧ r_community r = k ∧
  if decide (o ∈ ts.*1) then ∃ tags, (o, tags) ∈ ts ∧ r_tag r ∈ tags else r_tag r = [].

(** The order of preference: names that the target table lists with this security
    model come first, then by name. *)
Definition preference (m : dict octets (list Z)) (x : identity) : bool * octets :=
  candidate_key securityModelID m x.

Lemma tags_map_elem k t : t ∈ default [] (dget (tags_map rows) k) ↔
  ∃ r, r ∈ rows ∧ r_community r = k ∧ r_tag r = t.
Proof.
  unfold tags_map. rewrite add_entries_elem. cbn. split.
  - intros [Hx|(xs & Hx & Ht)]; [set_solver|].
    apply list_elem_of_fmap in Hx as (r & Heq & Hr). injection Heq as -> ->.
    exists r. apply list_elem_of_singleton in Ht. done.
  - intros (r & Hr & <- & <-). right. exists [r_tag r]. split; [|set_solver].
    apply list_elem_of_fmap. by exists r.
Qed.

Lemma tags_map_none k : dget (tags_map rows) k = None → ∀ r, r ∈ rows → r_community r ≠ k.
Proof.
  intros Hk r Hr <-. assert (is_Some (dget (tags_map rows) (r_community r))) as [? Hs]; [|congruence].
  apply add_entries_known. right. rewrite <- list_fmap_compose. apply list_elem_of_fmap. by exists r.
Qed.

Lemma ids_map_elem t k x : x ∈ default [] (dget (ids_map rows) (t, k)) ↔
  ∃ r, r ∈ rows ∧ r_community r = k ∧ r_tag r = t ∧ r_id r = x.
Proof.
  unfold ids_map. rewrite add_entries_elem. cbn. split.
  - intros [Hx|(xs & Hx & Ht)]; [set_solver|].
    apply list_elem_of_fmap in Hx as (r & Heq & Hr). injection Heq as -> -> ->.
    exists r. apply list_elem_of_singleton in Ht. done.
  - intros (r & Hr & <- & <- & <-). right. exists [r_id r]. split; [|set_solver].
    apply list_elem_of_fmap. by exists r.
Qed.

Lemma ids_map_known t k : (∃ r, r ∈ rows ∧ r_community r = k ∧ r_tag r = t) →
  is_Some (dget (ids_map rows) (t, k)).
Proof.
  intros (r & Hr & <- & <-). apply add_entries_known. right. rewrite <- list_fmap_compose.
  apply list_elem_of_fmap. by exists r.
Qed.

Lemma transports_map_elem o t : t ∈ default [] (dget (transports_map ts) o) ↔
  ∃ tags, (o, tags) ∈ ts ∧ t ∈ tags.
Proof. unfold transports_map. rewrite add_entries_elem. cbn. set_solver. Qed.

Lemma transports_map_known o : is_Some (dget (transports_map ts) o) ↔ o ∈ ts.*1.
Proof. unfold transports_map. rewrite add_entries_known. cbn. split; [intros [[? ?]|]; done|auto]. Qed.

Context (Hids : ∀ x, identities_order x ≡ₚ x) (Htags : ∀ x, tags_order x ≡ₚ x).

(** The tags found are those of the eligible rows. *)
Lemma candidate_tags_ok c k o : current c →
  match candidate_tags tags_order c k o with
  | Ok tags => ∀ t, t ∈ tags ↔ ∃ r, eligible k o r ∧ r_tag r = t
  | Err e => e = StatusInfo unknownCommunityName ∧ ∀ r, ¬ eligible k o r
  end.
Proof.
  intros [Hp Ht Hc Hi]. unfold candidate_tags. rewrite Ht, Hc.
  destruct (dget (tags_map rows) k) as [tags|] eqn:Ek.
  2:{ intros t. split; [set_solver|]. intros (r & (Hr & Hk & _) & _). by destruct (tags_map_none k Ek r Hr). }
  assert (Hin : ∀ t, t ∈ tags ↔ ∃ r, r ∈ rows ∧ r_community r = k ∧ r_tag r = t).
  { intros t. rewrite <- tags_map_elem, Ek. done. }
  destruct (dget (transports_map ts) o) as [known|] eqn:Eo.
  - assert (Ho : o ∈ ts.*1) by (apply transports_map_known; by eexists).
    intros t. rewrite Htags, list_elem_of_filter, Hin.
    assert (Hkn : t ∈ known ↔ ∃ tags, (o, tags) ∈ ts ∧ t ∈ tags).
    { rewrite <- transports_map_elem, Eo. done. }
    rewrite Hkn. unfold eligible. destruct (decide (o ∈ ts.*1)); [|done]. naive_solver.
  - assert (Ho : o ∉ ts.*1).
    { intros Ho. apply transports_map_known in Ho as [? ?]. congruence. }
    unfold eligible. destruct (decide (o ∈ ts.*1)); [done|]. case_decide as He.
    + intros t. rewrite list_elem_of_singleton. split; [|naive_solver].
      intros ->. apply Hin in He as (r & ? & ? & ?). by exists r.
    + split; [done|]. intros r (Hr & Hk & Htag). apply He, Hin. by exists r.
Qed.

Lemma candidates_ok c k tags : current c →
  (∀ t, t ∈ tags → ∃ r, r ∈ rows ∧ r_community r = k ∧ r_tag r = t) →
  ∃ ids, candidates identities_order c k tags = Ok ids ∧
    ∀ x, x ∈ ids ↔ ∃ r, r ∈ rows ∧ r_community r = k ∧ r_tag r ∈ tags ∧ r_id r = x.
Proof.
  intros Hc. induction tags as [|t tags IH]; intros Hin; cbn [candidates].
  { exists []. split; [done|]. set_solver. }
  rewrite (cu_ids _ Hc). destruct (ids_map_known t k) as [ids Hi]; [apply Hin; by left|].
  rewrite Hi. destruct IH as (rest & -> & Hrest); [intros t' ?; apply Hin; by right|].
  munfold. eexists. split; [done|]. intros x. rewrite elem_of_app, Hids, Hrest.
  pose proof (ids_map_elem t k x) as Hx. rewrite Hi in Hx. cbn in Hx. rewrite Hx. set_solver.
Qed.

Lemma choose_ok c k o : current c →
  match choose securityModelID identities_order tags_order c k o with
  | Ok x => ∃ r, eligible k o r ∧ r_id r = x ∧
      ∀ r', eligible k o r' →
        key_leb (preference (nameToModelMap c) x) (preference (nameToModelMap c) (r_id r')) = true
  | Err e => e = StatusInfo unknownCommunityName ∧ ∀ r, ¬ eligible k o r
  end.
Proof.
  intros Hc. unfold choose. pose proof (candidate_tags_ok c k o Hc) as Ht. munfold.
  destruct (candidate_tags tags_order c k o) as [tags|e]; [|done].
  destruct (candidates_ok c k tags Hc) as (ids & -> & Hx).
  { intros t (r & (Hr & Hk & _) & Htag)%Ht. by exists r. }
  assert (Hel : ∀ x, x ∈ ids ↔ ∃ r, eligible k o r ∧ r_id r = x).
  { intros x. rewrite Hx. split.
    - intros (r & Hr & Hk & Htag & <-). apply Ht in Htag as (r' & Helig & Htag).
      exists r. split; [|done]. destruct Helig as (_ & _ & Helig).
      unfold eligible. by rewrite <- Htag.
    - intros (r & Helig & <-). exists r. pose proof Helig as (Hr & Hk & _). split_and!; try done.
      apply Ht. by exists r. }
  pose proof (sorted_by_perm key_leb (candidate_key securityModelID (nameToModelMap c)) ids) as Hperm.
  pose proof (sorted_by_sorted key_leb (candidate_key securityModelID (nameToModelMap c)) ids) as Hs.
  destruct (sorted_by _ _ _) as [|x rest].
  - apply Permutation_nil in Hperm as ->. split; [done|]. intros r Hr.
    assert (r_id r ∈ @nil identity) by (apply Hel; by exists r). set_solver.
  - assert (Hin : x ∈ ids) by (rewrite <- Hperm; by left).
    apply Hel in Hin as (r & Helig & <-). exists r. split_and!; [done|done|].
    intros r' Hr'. assert (r_id r' ∈ ids) as Hin' by (apply Hel; by exists r').
    rewrite <- Hperm in Hin'. inversion Hs as [|? ? _ Hall]; subst.
    apply elem_of_cons in Hin' as [->|Hin']; [apply leb_refl|].
    rewrite Forall_forall in Hall. by apply Hall.
Qed.

(** C9. A community is good for the rows of the community table that name it, and
    of these for the rows whose tag is a tag of the address the message came from
    --- or, when no target has that address, for the rows without a tag; of the
    rows it is good for the best is chosen, and when there is none the message is
    refused.  Whatever versions the four maps are at, the answer is that of the
    tables; the preference goes by all the models of a name unless a request that
    was sent before has collected the last model of each name only. *)
Theorem community_selects_best_row k o s : lcd s = l → coherent (com s) →
  ∃ r c', com2sec securityModelID identities_order tags_order k o s = (r, put_com c' s) ∧
    coherent c' ∧ models_map (nameToModelMap c') ∧
    (paramsBranchId (com s) ≠ Column.branchVersionId (snmpTargetParamsSecurityName l) →
     nameToModelMap c' = params_map ps) ∧
    match r with
    | Ok x => ∃ row, eligible k o row ∧ r_id row = x ∧
        ∀ row', eligible k o row' →
          key_leb (preference (nameToModelMap c') x) (preference (nameToModelMap c') (r_id row')) = true
    | Err e => e = StatusInfo unknownCommunityName ∧ ∀ row, ¬ eligible k o row
    end.
Proof.
  intros Hl Hco. destruct (com2sec_ok k o s Hl Hco)
    as (c' & Hrun & Hco' & Hcu & _ & Hm).
  eexists _, c'. split; [exact Hrun|]. split_and!; [done|by destruct Hcu|done|]. by apply choose_ok.
Qed.
End choice.
End lookups.

(** ** Witness: from the target address the row with its tag is chosen *)
Definition demo_rows : list row :=
  [mk_row [112] ([97], demo_engineID, []) [116]; mk_row [112] ([98], demo_engineID, []) []].
Definition demo_transports : list (origin * list octets) := [(demo_listed, [[116]; [117]])].

Lemma demo_tables_ok : tables_ok demo_lcd demo_rows demo_transports [([98], 2)].
Proof.
  split; [| | |vm_compute; reflexivity|vm_compute; reflexivity|vm_compute; reflexivity];
    apply Vacm.demo_col_ok; repeat constructor; discriminate.
Defined.

Lemma coherent_init g rows ts ps l :
  0 <= Column.branchVersionId (snmpTargetParamsSecurityName l) →
  0 <= Column.branchVersionId (snmpTargetAddrTAddress l) →
  0 <= Column.branchVersionId (snmpCommunityName l) → coherent l rows ts ps (init g).
Proof. intros H1 H2 H3. split; cbn; intros He; exfalso; lia. Defined.

Lemma community_selects_best_row_witness :
  ∃ row, eligible demo_rows demo_transports [112] demo_listed row ∧
    ∀ row', eligible demo_rows demo_transports [112] demo_listed row' →
      key_leb (preference 1 [([98], [2])] (r_id row)) (preference 1 [([98], [2])] (r_id row')) = true.
Proof.
  destruct (community_selects_best_row demo_lcd demo_rows demo_transports [([98], 2)] demo_tables_ok
    ltac:(vm_compute; discriminate) 1 id id (λ x, reflexivity x) (λ x, reflexivity x) [112] demo_listed
    demo_state eq_refl) as (r & c' & Hrun & _ & _ & Hm & Hr).
  - apply coherent_init; vm_compute; discriminate.
  - destruct r as [x|e].
    + destruct Hr as (row & Hel & <- & Hbest). exists row. rewrite Hm in Hbest by (vm_compute; discriminate).
      split; [exact Hel|exact Hbest].
    + exfalso. assert (Hx : (com2sec 1 id id [112] demo_listed demo_state).1 = Ok ([97], demo_engineID, []))
        by (vm_compute; reflexivity). rewrite Hrun in Hx. discriminate.
Defined.
End CommunitySpec.
