(* ===== verification/MpV1.v ===== *)
(** * SNMPv1 and SNMPv2c message processing (src/pysnmp/proto/mpmod/rfc2576.py)

    [SnmpV1MessageProcessingModel]; that of SNMPv2c differs in its number and the
    class of its messages.  There is no message ID in these versions: the model
    replaces the request ID of the caller's PDU while it is on the wire, and the
    PDU is the caller's object, so an outgoing call works on the state and on
    that PDU. *)
From S2P Require Export SecModel Community.
Import Mp Community.
#[local] Open Scope Z_scope.

Module MpV1.
Section defs.
Context {S X : Type}.

(** What is kept for a request that was sent: the keywords of [pushByMsgId]. *)
Record pending : Type := mk_pending {
  p_sendPduHandle : Z;
  p_reqID : Z;
  p_snmpEngineId : octets;
  p_securityModel : Z;
  p_securityName : octets;
  p_securityLevel : Z;
  p_contextEngineId : octets;
  p_contextName : octets;
  p_transport : origin;
}.

(** What is kept for a request that is served: the keywords of [pushByStateRef]. *)
Record request : Type := mk_request {
  r_msgVersion : Z;
  r_msgID : Z;
  r_reqID : Z;
  r_contextEngineId : octets;
  r_contextName : octets;
  r_securityModel : Z;
  r_securityName : octets;
  r_securityLevel : Z;
  r_securityStateReference : Z;
  r_msgMaxSize : Z;
  r_maxSizeResponseScopedPDU : Z;
  r_transport : origin;
}.

Abbreviation Mp1 := (MpCache.Cache request pending).
Abbreviation state := (Mp.world Mp1 S X).
Abbreviation W := (M exn state).
(** A call that works on the caller's PDU as well *)
Abbreviation P := (M exn (state * v1_pdu)).

Definition on_state {A} (m : W A) : P A := zoom fst (λ w x, (w, x.2)) m.
(** [pdu.getComponentByPosition(0)], [setComponentByPosition(0, id)]; a v1 trap has
    none and is not asked for it. *)
Definition request_id (p : v1_pdu) : Z := match p with V1Pdu p => requestID p | V1Trap _ => 0 end.
Definition set_request_id (id : Z) (p : v1_pdu) : v1_pdu :=
  match p with
  | V1Pdu p => V1Pdu (mk_pdu (pduType p) id (errorStatus p) (errorIndex p) (varBinds p))
  | V1Trap t => V1Trap t
  end.
Definition renumber (id : Z) : P unit := modify (λ x, (x.1, set_request_id id x.2)).

Abbreviation scoped := (octets * octets * v1_pdu)%type.
Abbreviation sm := (security_model S Message (octets * origin) scoped).
(** [messageProcessingModelID]; [snmpEngine.securityModels]; the decoder;
    [snmpEngineID] and [snmpEngineMaxMessageSize] *)
Context (messageProcessingModelID : Z) (securityModels : Z → option sm)
        (decodeMessage : octets → result exn (option Message))
        (snmpEngineId : octets) (snmpEngineMaxMessageSize : Z).

(** [if not x: x = y] *)
Definition default_octets (x : option octets) (y : octets) : octets :=
  match x with Some ((_ :: _) as o) => o | _ => y end.

(** [prepareOutgoingMessage] *)
Definition prepareOutgoingMessage (transport : origin) (securityModel : Z)
    (securityName : octets) (securityLevel : Z) (contextEngineId : option octets)
    (contextName : octets) (sendPduHandle : Z) : P (origin * octets) :=
  pdu ← gets snd;
  let confirmed := confirmedClassPDUs (v1_tagSet pdu) in
  msgID ← (if confirmed then on_state (on_mp MpCache.newMsgID) else mret 0);
  let reqID := request_id pdu in
  let contextEngineId := default_octets contextEngineId snmpEngineId in
  match securityModels securityModel with
  | None => raise (StatusInfo unsupportedSecurityModel)
  | Some smHandler =>
      (if confirmed then renumber msgID else mret tt);;
      pdu ← gets snd;
      r ← on_state (on_sec (sm_generateRequestMsg smHandler
            (mk_message messageProcessingModelID [] pdu) snmpEngineMaxMessageSize securityModel
            (Some snmpEngineId) securityName securityLevel (contextEngineId, contextName, pdu)));
      (if confirmed then
         renumber reqID;;
         on_state (on_mp (MpCache.pushByMsgId p_sendPduHandle msgID
           (mk_pending sendPduHandle reqID snmpEngineId securityModel securityName securityLevel
              contextEngineId contextName transport)))
       else mret tt);;
      mret (transport, r.2)
  end.

(** [prepareResponseMessage]; an SNMPv1 or v2c message cannot carry a report. *)
Definition prepareResponseMessage (messageProcessingModel : Z) (stateReference : option Z)
    (statusInformation : option status) : P (origin * octets) :=
  match stateReference with
  | None => raise (StatusInfo nonReportable)
  | Some ref =>
      r ← on_state (on_mp (MpCache.popByStateRef ref));
      match statusInformation with
      | Some _ => raise (StatusInfo nonReportable)
      | None =>
          let contextEngineId := default_octets (Some (r_contextEngineId r)) snmpEngineId in
          match securityModels (r_securityModel r) with
          | None => raise (StatusInfo unsupportedSecurityModel)
          | Some smHandler =>
              renumber (r_reqID r);;
              pdu ← gets snd;
              m ← on_state (on_sec (sm_generateResponseMsg smHandler
                    (mk_message messageProcessingModel [] pdu) (r_msgMaxSize r)
                    (r_securityModel r) snmpEngineId (Some (r_securityName r))
                    (r_securityLevel r) (contextEngineId, r_contextName r, pdu)
                    (r_securityStateReference r)));
              renumber (r_msgID r);;
              mret (r_transport r, m.2)
          end
      end
  end.

(** ** [prepareDataElements] *)

(** What the message says: there is no level but noAuthNoPriv. *)
Record incoming : Type := mk_incoming {
  i_msgVersion : Z;
  i_securityModel : Z;
  i_transport : origin;
}.
Definition securityLevel : Z := 1.

(** Up to 7.2.6 *)
Definition authorize (transport : origin) (wholeMsg : octets) :
    W (incoming * sm * (octets * octets * scoped * Z * Z)) :=
  msg ← liftR (decodeMessage wholeMsg);
  match msg with
  | None => raise (StatusInfo parseError)
  | Some msg =>
      let securityModel := version msg + 1 in
      match securityModels securityModel with
      | None => raise (StatusInfo unsupportedSecurityModel)
      | Some smHandler =>
          r ← on_sec (sm_processIncomingMsg smHandler snmpEngineMaxMessageSize
                (community msg, transport) securityModel securityLevel wholeMsg msg);
          mret (mk_incoming (version msg) securityModel transport, smHandler, r)
      end
  end.

(** 7.2.12b *)
Definition matches (i : incoming) (securityName contextEngineId contextName : octets) (p : pending) :
    bool :=
  (i_securityModel i =? p_securityModel p) && bool_decide (securityName = p_securityName p) &&
  (securityLevel =? p_securityLevel p) && bool_decide (contextEngineId = p_contextEngineId p) &&
  bool_decide (contextName = p_contextName p).

Definition elements_of (i : incoming) (securityName contextEngineId contextName : octets)
    (pdu : v1_pdu) (maxSize : Z) (sendPduHandle stateReference : option Z) : elements v1_pdu :=
  mk_elements (i_msgVersion i) (i_securityModel i) securityName securityLevel contextEngineId
    contextName (i_msgVersion i) pdu (v1_tagSet pdu) sendPduHandle maxSize stateReference.

(** 7.2.10 and 7.2.12: a response gets back the request ID of its request. *)
Definition receive_response (i : incoming) (release : W unit) (securityName contextEngineId
    contextName : octets) (pdu : v1_pdu) (maxSize : Z) : W (elements v1_pdu) :=
  p ← try_except (on_mp (MpCache.popByMsgId p_sendPduHandle (request_id pdu)))
        (λ e, if is_ProtocolError e then Some (release;; raise (StatusInfo dataMismatch)) else None);
  if negb (matches i securityName contextEngineId contextName p) then
    release;; raise (StatusInfo dataMismatch)
  else
    release;;
    mret (elements_of i securityName contextEngineId contextName (set_request_id (p_reqID p) pdu)
            maxSize (Some (p_sendPduHandle p)) None).

(** 7.2.13: a request gets a unique request ID. *)
Definition receive_request (i : incoming) (release : W unit) (engineId securityName contextEngineId
    contextName : octets) (pdu : v1_pdu) (maxSize ref : Z) : W (elements v1_pdu) :=
  msgID ← on_mp MpCache.newMsgID;
  if negb (bool_decide (engineId = snmpEngineId)) then
    release;; raise (StatusInfo engineIDMismatch)
  else
    stateReference ← on_mp MpCache.newStateReference;
    on_mp (MpCache.pushByStateRef stateReference
      (mk_request (i_msgVersion i) msgID (request_id pdu) contextEngineId contextName
         (i_securityModel i) securityName securityLevel ref snmpEngineMaxMessageSize maxSize
         (i_transport i)));;
    mret (elements_of i securityName contextEngineId contextName (set_request_id msgID pdu) maxSize
            None (Some stateReference)).

(** [prepareDataElements] *)
Definition prepareDataElements (transport : origin) (wholeMsg : octets) : W (elements v1_pdu) :=
  '(i, smHandler, r) ← authorize transport wholeMsg;
  let '(engineId, securityName, (contextEngineId, contextName, pdu), maxSize, ref) := r in
  let release := on_sec (sm_releaseStateInformation smHandler ref) in
  let t := v1_tagSet pdu in
  if responseClassPDUs t then
    receive_response i release securityName contextEngineId contextName pdu maxSize
  else if confirmedClassPDUs t then
    receive_request i release engineId securityName contextEngineId contextName pdu maxSize ref
  else if unconfirmedClassPDUs t then
    stateReference ← on_mp MpCache.newStateReference;
    release;;
    mret (elements_of i securityName contextEngineId contextName pdu maxSize None
            (Some stateReference))
  else release;; raise (StatusInfo unsupportedPDUtype).

(** [receiveTimerTick] and [releaseStateInformation] of the base class *)
Definition receiveTimerTick : W unit := on_mp MpCache.expireCaches.
Definition releaseStateInformation (sendPduHandle : Z) : W unit :=
  on_mp (MpCache.releaseStateInformation p_sendPduHandle sendPduHandle).
End defs.
End MpV1.
