(* ===== verification/MpV1Spec.v ===== *)
(** * What SNMPv1 and SNMPv2c message processing promises

    A request and its response through two engines, for any security models that
    carry the two messages; with the community-based model as the instance. *)
From S2P Require Export MpV1 V3Msg.
Import Mp Community MpV1 MpCacheWp.
#[local] Open Scope Z_scope.

Module MpV1Spec.
Section spec.
Context {S X : Type}.
Abbreviation Mp1 := (MpCache.Cache request pending).
Abbreviation state := (Mp.world Mp1 S X).
Abbreviation W := (M exn state).
Abbreviation P := (M exn (state * v1_pdu)).
Abbreviation sm := (security_model S Message (octets * origin) (octets * octets * v1_pdu)).
Implicit Types w : state.
Context (decodeMessage : octets → result exn (option Message)).

Definition pendings w : gmap Z (pending * Z) := MpCache.msgIdIndex (mp w).
Definition served w : gmap Z (request * Z) := MpCache.stateReferenceIndex (mp w).
Definition ok w : Prop := MpCache.wf p_sendPduHandle (mp w).

#[local] Ltac wproj := unfold pendings, served, put_mp, put_sec;
  cbn [fst snd mp sec counters env MpCache.stateReferenceGen MpCache.msgIDGen MpCache.msgIdIndex
    MpCache.stateReferenceIndex MpCache.sendPduHandleIdx MpCache.expirationQueue
    MpCache.expirationTimer].

Lemma wp_on_state {A} (m : W A) Q (x : state * v1_pdu) :
  wp m (λ r w, Q r (w, x.2)) x.1 → wp (on_state m) Q x.
Proof. apply (wp_zoom fst (λ w (x : state * v1_pdu), (w, x.2))). Qed.
Lemma wp_on_mp {A} (m : M exn Mp1 A) Q w :
  wp m (λ r x, Q r (put_mp x w)) (mp w) → wp (on_mp m) Q w.
Proof. apply wp_zoom. Qed.
Lemma v1_wp_on_sec {A} (m : M exn S A) Q w :
  wp m (λ r s, Q r (put_sec s w)) (sec w) → wp (on_sec m) Q w.
Proof. apply wp_zoom. Qed.

Lemma set_request_id_back i (p : v1_pdu) : set_request_id (request_id p) (set_request_id i p) = p.
Proof. by destruct p as [[]|]. Qed.
Lemma set_request_id_twice i j (p : v1_pdu) : set_request_id i (set_request_id j p) = set_request_id i p.
Proof. by destruct p. Qed.
Lemma v1_tagSet_set i (p : v1_pdu) : v1_tagSet (set_request_id i p) = v1_tagSet p.
Proof. by destruct p. Qed.
Lemma request_id_set i (p : v1_pdu) : v1_tagSet p ≠ TrapPDU → request_id (set_request_id i p) = i.
Proof. by destruct p. Qed.

(** The next identifiers of a state, and that they are not in use *)
Definition fresh_request w (id h : Z) : Prop :=
  (MpCache.newMsgID (mp w)).1 = Ok id ∧ pendings w !! id = None ∧
  MpCache.fresh_handle p_sendPduHandle (mp w) h.
Definition fresh_reference w (sref id : Z) : Prop :=
  (MpCache.newMsgID (mp w)).1 = Ok id ∧ (MpCache.newStateReference (mp w)).1 = Ok sref ∧
  served w !! sref = None.

(** The octets [wholeMsg] from [transport] reach the security model [smh], which
    finds the context and the PDU in them. *)
Record carried (smh : sm) (maxSize : Z) (transport : origin) (wholeMsg : octets) (v : Z)
    (engineId name ctx ctxName : octets) (p : v1_pdu) (mx ref : Z) (s s' : S) : Prop := {
  carried_message : ∃ msg, decodeMessage wholeMsg = Ok (Some msg) ∧ version msg = v ∧
    sm_processIncomingMsg smh maxSize (community msg, transport) (v + 1) 1 wholeMsg msg s =
      (Ok (engineId, name, (ctx, ctxName, p), mx, ref), s');
}.

Section engine.
Context (v : Z) (models : Z → option sm) (own : octets) (maxSize : Z).

Lemma v1_outgoing_ok transport model name level ctx ctxName h w p (smh : sm) id (par wholeMsg : octets) s1 :
  let C := default_octets ctx own in
  let q := set_request_id id p in
  confirmedClassPDUs (v1_tagSet p) = true → models model = Some smh → ok w → fresh_request w id h →
  sm_generateRequestMsg smh (mk_message v [] q) maxSize model (Some own) name level (C, ctxName, q) (sec w) =
    (Ok (par, wholeMsg), s1) →
  wp (prepareOutgoingMessage v models own maxSize transport model name level ctx ctxName h)
    (λ r x, r = Ok (transport, wholeMsg) ∧ x.2 = p ∧ ok x.1 ∧ sec x.1 = s1 ∧ served x.1 = served w ∧
       pendings x.1 = <[id := (mk_pending h (request_id p) own model name level C ctxName transport,
                               MpCache.expirationTimer (mp w) + 600)]> (pendings w)) (w, p).
Proof.
  intros C q Hconf Hmodels Hok (Hid & Hfree & Hfresh) Hgen. unfold prepareOutgoingMessage.
  wp_step. wp_step. cbn [snd]. rewrite Hconf.
  apply wp_bind, wp_on_state, wp_on_mp. eapply wp_newMsgID_ok; [exact Hid|].
  intros c' Hsame _. fold C. rewrite Hmodels.
  apply wp_bind, wp_modify. wp_step. wp_step. wproj. fold q.
  apply wp_bind, wp_on_state, v1_wp_on_sec. unfold wp at 1. wproj. rewrite Hgen. cbn [fst snd].
  apply wp_bind. apply wp_bind, wp_modify. wproj. unfold q. rewrite set_request_id_back.
  apply wp_on_state, wp_on_mp. wproj.
  apply wp_pushByMsgId_ok.
  - by apply (se_wf _ _ _ Hsame).
  - by rewrite (se_msg _ _ _ Hsame).
  - intros m i t. rewrite (se_msg _ _ _ Hsame). apply Hfresh.
  - intros c2 Hwf2 Hm2 Hs2. apply wp_ret. wproj. split_and!; try done.
    + by rewrite Hs2, (se_state _ _ _ Hsame).
    + by rewrite Hm2, (se_msg _ _ _ Hsame), (se_timer _ _ _ Hsame).
Qed.

Lemma authorize_carried transport wholeMsg (smh : sm) engineId name ctx ctxName p mx ref w s1 :
  models (v + 1) = Some smh →
  carried smh maxSize transport wholeMsg v engineId name ctx ctxName p mx ref (sec w) s1 →
  authorize models decodeMessage maxSize transport wholeMsg w =
    (Ok (mk_incoming v (v + 1) transport, smh, (engineId, name, (ctx, ctxName, p), mx, ref)),
     put_sec s1 w).
Proof.
  intros Hm [(msg & Hdec & Hv & Hproc)]. unfold authorize, on_sec, zoom. munfold.
  rewrite Hdec. subst v. rewrite Hm. unfold securityLevel. by rewrite Hproc.
Qed.

Lemma v1_request_received transport wholeMsg (smh : sm) name ctx ctxName p mx ref w s1 sref id :
  confirmedClassPDUs (v1_tagSet p) = true → models (v + 1) = Some smh → ok w →
  fresh_reference w sref id →
  carried smh maxSize transport wholeMsg v own name ctx ctxName p mx ref (sec w) s1 →
  wp (prepareDataElements models decodeMessage own maxSize transport wholeMsg)
    (λ r w', r = Ok (mk_elements v (v + 1) name 1 ctx ctxName v (set_request_id id p) (v1_tagSet p)
                       None mx (Some sref)) ∧
       ok w' ∧ sec w' = s1 ∧ pendings w' = pendings w ∧
       served w' = <[sref := (mk_request v id (request_id p) ctx ctxName (v + 1) name 1 ref maxSize mx
           transport, MpCache.expirationTimer (mp w) + 600)]> (served w)) w.
Proof.
  intros Hconf Hm Hok (Hid & Hsref & Hfree) Hcar. unfold prepareDataElements.
  apply wp_bind. eapply wp_intro; [by eapply authorize_carried|]. cbn beta iota zeta.
  destruct (responseClassPDUs (v1_tagSet p)) eqn:Hr.
  { apply response_unconfirmed in Hr. congruence. }
  rewrite Hconf. unfold receive_request. apply wp_bind, wp_on_mp.
  eapply wp_newMsgID_ok; [exact Hid|]. intros c1 Hs1 Hn1. rewrite bool_decide_true by done. cbn [negb].
  apply wp_bind, wp_on_mp. eapply wp_newStateReference_ok; [wproj; by rewrite Hn1|].
  intros c2 Hs2. wproj. apply wp_bind, wp_on_mp. wproj.
  assert (Hs : same_entries p_sendPduHandle (mp w) c2).
  { destruct Hs1, Hs2; split; try (etrans; eassumption). intros. auto. }
  apply wp_pushByStateRef_ok with (sendPduHandle := p_sendPduHandle).
  - by apply (se_wf _ _ _ Hs).
  - by rewrite (se_state _ _ _ Hs).
  - intros c3 Hwf3 Hm3 Hst3. apply wp_ret. wproj. split_and!; try done.
    + unfold elements_of. by rewrite v1_tagSet_set.
    + by rewrite Hm3, (se_msg _ _ _ Hs).
    + by rewrite Hst3, (se_state _ _ _ Hs), (se_timer _ _ _ Hs).
Qed.

Lemma v1_response_ok transport (smh : sm) name ctx ctxName ref mx w q t sref idB idA (par wholeMsg : octets) s1 :
  let qw := set_request_id idA q in
  models (v + 1) = Some smh → ok w →
  served w !! sref = Some (mk_request v idB idA ctx ctxName (v + 1) name 1 ref maxSize mx transport, t) →
  sm_generateResponseMsg smh (mk_message v [] qw) maxSize (v + 1) own (Some name) 1
    (default_octets (Some ctx) own, ctxName, qw) ref (sec w) = (Ok (par, wholeMsg), s1) →
  wp (prepareResponseMessage models own v (Some sref) None)
    (λ r x, r = Ok (transport, wholeMsg) ∧ x.2 = set_request_id idB q ∧ ok x.1 ∧ sec x.1 = s1 ∧
       pendings x.1 = pendings w ∧ served x.1 = delete sref (served w)) (w, q).
Proof.
  intros qw Hm Hok Hreq Hgen. unfold prepareResponseMessage.
  apply wp_bind, wp_on_state, wp_on_mp. eapply wp_popByStateRef_ok; [exact Hok|exact Hreq|].
  intros c1 Hwf1 Hm1 Hs1. cbn [r_securityModel r_contextEngineId]. rewrite Hm.
  apply wp_bind, wp_modify. wp_step. wp_step. wproj. cbn [r_reqID]. fold qw.
  apply wp_bind, wp_on_state, v1_wp_on_sec. unfold wp at 1. wproj.
  cbn [r_msgMaxSize r_securityName r_securityLevel r_contextName r_securityStateReference].
  rewrite Hgen. cbn [fst snd]. apply wp_bind, wp_modify. apply wp_ret. wproj.
  cbn [r_transport r_msgID]. unfold qw. rewrite set_request_id_twice. by split_and!.
Qed.

Lemma v1_response_received transport wholeMsg (smh : sm) engineId name ctx ctxName q mx ref w s1 s2 p t :
  v1_tagSet q = ResponsePDU → models (v + 1) = Some smh → ok w →
  carried smh maxSize transport wholeMsg v engineId name ctx ctxName q mx ref (sec w) s1 →
  pendings w !! request_id q = Some (p, t) → p_securityModel p = v + 1 → p_securityName p = name →
  p_securityLevel p = 1 → p_contextEngineId p = ctx → p_contextName p = ctxName →
  sm_releaseStateInformation smh ref s1 = (Ok tt, s2) →
  wp (prepareDataElements models decodeMessage own maxSize transport wholeMsg)
    (λ r w', r = Ok (mk_elements v (v + 1) name 1 ctx ctxName v (set_request_id (p_reqID p) q)
                       ResponsePDU (Some (p_sendPduHandle p)) mx None) ∧
       ok w' ∧ sec w' = s2 ∧ pendings w' = delete (request_id q) (pendings w) ∧ served w' = served w) w.
Proof.
  intros Ht Hm Hok Hcar Hpend Hsm Hn Hl Hc Hcn Hrel. unfold prepareDataElements.
  apply wp_bind. eapply wp_intro; [by eapply authorize_carried|]. cbn beta iota zeta.
  rewrite Ht. cbn [responseClassPDUs]. unfold receive_response.
  apply wp_bind, wp_try, wp_on_mp. eapply wp_popByMsgId_ok; [exact Hok|exact Hpend|].
  intros c1 Hwf1 Hm1 Hs1. unfold matches. rewrite Hsm, Hn, Hl, Hc, Hcn.
  cbn [i_securityModel securityLevel]. unfold securityLevel.
  rewrite !Z.eqb_refl, !bool_decide_true by done. cbn [andb negb].
  apply wp_bind, v1_wp_on_sec. unfold wp at 1. wproj. rewrite Hrel. cbn [fst snd].
  apply wp_ret. wproj. split_and!; try done.
  unfold elements_of, securityLevel. cbn [i_msgVersion i_securityModel].
  by rewrite v1_tagSet_set, Ht.
Qed.
End engine.

(** C10. SNMPv1 and v2c put their own identifier on the wire and give back the
    application's: a request goes out with a fresh request ID and leaves the
    caller's PDU as it was, the responder gets it under a request ID of its own,
    the response goes back with the one on the wire, and the requester receives
    the response with the request ID of its own PDU and under its handle; nothing
    is left of the exchange in either engine. *)
Theorem v1_exchange v
    (* A sends at one moment and receives at another *)
    modelsA modelsA' ownA maxA addrB wA (smA smA' : sm)
    modelsB modelsB' ownB maxB addrA wB (smB smB' : sm)
    name nameB ctx ctxName ctxB ctxNameB p q h idA idB sref
    (par1 par2 whole1 whole2 : octets) sA1 sA2 sA3 sB1 sB2 mx1 mx2 ref1 ref2 engineId :
  let C := default_octets ctx ownA in
  let pw := set_request_id idA p in
  let qw := set_request_id idA q in
  confirmedClassPDUs (v1_tagSet p) = true → v1_tagSet q = ResponsePDU →
  modelsA (v + 1) = Some smA → modelsA' (v + 1) = Some smA' →
  modelsB (v + 1) = Some smB → modelsB' (v + 1) = Some smB' →
  ok wA → ok wB → fresh_request wA idA h → fresh_reference wB sref idB →
  (* the security models carry the request and the response *)
  sm_generateRequestMsg smA (mk_message v [] pw) maxA (v + 1) (Some ownA) name 1 (C, ctxName, pw)
    (sec wA) = (Ok (par1, whole1), sA1) →
  carried smB maxB addrA whole1 v ownB nameB ctxB ctxNameB pw mx1 ref1 (sec wB) sB1 →
  sm_generateResponseMsg smB' (mk_message v [] qw) maxB (v + 1) ownB (Some nameB) 1
    (default_octets (Some ctxB) ownB, ctxNameB, qw) ref1 sB1 = (Ok (par2, whole2), sB2) →
  carried smA' maxA addrB whole2 v engineId name C ctxName qw mx2 ref2 sA1 sA2 →
  sm_releaseStateInformation smA' ref2 sA2 = (Ok tt, sA3) →
  ∃ wA1 wB1 wB2 wA2,
    prepareOutgoingMessage v modelsA ownA maxA addrB (v + 1) name 1 ctx ctxName h (wA, p) =
      (Ok (addrB, whole1), (wA1, p)) ∧
    prepareDataElements modelsB decodeMessage ownB maxB addrA whole1 wB =
      (Ok (mk_elements v (v + 1) nameB 1 ctxB ctxNameB v (set_request_id idB p) (v1_tagSet p) None
             mx1 (Some sref)), wB1) ∧
    prepareResponseMessage modelsB' ownB v (Some sref) None (wB1, q) =
      (Ok (addrA, whole2), (wB2, set_request_id idB q)) ∧
    prepareDataElements modelsA' decodeMessage ownA maxA addrB whole2 wA1 =
      (Ok (mk_elements v (v + 1) name 1 C ctxName v (set_request_id (request_id p) q) ResponsePDU
             (Some h) mx2 None), wA2) ∧
    pendings wA2 = pendings wA ∧ served wB2 = served wB ∧
    served wA2 = served wA ∧ pendings wB2 = pendings wB.
Proof.
  intros C pw qw Hp Hq HmA HmA' HmB HmB' HokA HokB HfA HfB Hgen1 Hcar1 Hgen2 Hcar2 Hrel.
  destruct (wp_inv _ _ _ _ (v1_outgoing_ok v modelsA ownA maxA addrB (v + 1) name 1 ctx ctxName h wA p smA
    idA par1 whole1 sA1 Hp HmA HokA HfA Hgen1)) as ([wA1 p'] & Hr1 & Hp' & HokA1 & HsA1 & HsvA1 & HpA1).
  cbn [fst snd] in *. subst p'.
  assert (Hpw : confirmedClassPDUs (v1_tagSet pw) = true) by (unfold pw; by rewrite v1_tagSet_set).
  destruct (wp_inv _ _ _ _ (v1_request_received v modelsB ownB maxB addrA whole1 smB nameB ctxB ctxNameB pw
    mx1 ref1 wB sB1 sref idB Hpw HmB HokB HfB Hcar1)) as (wB1 & Hr2 & HokB1 & HsB1 & HpB1 & HsvB1).
  unfold pw in Hr2, HsvB1. rewrite set_request_id_twice, v1_tagSet_set in Hr2.
  rewrite request_id_set in HsvB1 by (by destruct (v1_tagSet p)).
  destruct (wp_inv _ _ _ _ (v1_response_ok v modelsB' ownB maxB addrA smB' nameB ctxB ctxNameB ref1 mx1 wB1 q
    (MpCache.expirationTimer (mp wB) + 600) sref idB idA par2 whole2 sB2 HmB' HokB1
    ltac:(by rewrite HsvB1, lookup_insert_eq) ltac:(by rewrite HsB1)))
    as ([wB2 q'] & Hr3 & Hq' & _ & _ & HpB2 & HsvB2).
  cbn [fst snd] in *. subst q'. rewrite <- HsA1 in Hcar2.
  assert (Hqi : request_id qw = idA).
  { unfold qw. apply request_id_set. by rewrite Hq. }
  assert (Hqt : v1_tagSet qw = ResponsePDU) by (unfold qw; by rewrite v1_tagSet_set).
  destruct (wp_inv _ _ _ _ (v1_response_received v modelsA' ownA maxA addrB whole2 smA' engineId name C
    ctxName qw mx2 ref2 wA1 sA2 sA3 _ _ Hqt HmA' HokA1 Hcar2
    ltac:(by rewrite HpA1, Hqi, lookup_insert_eq) eq_refl eq_refl eq_refl eq_refl eq_refl Hrel))
    as (wA2 & Hr4 & _ & _ & HpA2 & HsvA2).
  cbn [p_reqID p_sendPduHandle] in Hr4. unfold qw in Hr4. rewrite set_request_id_twice in Hr4.
  exists wA1, wB1, wB2, wA2. split_and!; try done.
  - rewrite HpA2, HpA1, Hqi. apply delete_insert_id. apply HfA.
  - rewrite HsvB2, HsvB1. apply delete_insert_id. apply HfB.
  - congruence.
  - congruence.
Qed.
End spec.

(** ** Two SNMPv2c engines with the community-based model *)
Definition demo_encode (m : Message) : result exn octets :=
  match data m with
  | V1Pdu p => Ok (version m :: ToyCodec.ser (community m) ++
      [ToyCodec.ser_tag (pduType p); requestID p; errorStatus p; errorIndex p;
       Z.of_nat (length (varBinds p))] ++ ToyCodec.ser_binds (varBinds p))
  | V1Trap _ => Err (PyAsn1Error "")
  end.
Definition demo_decode (o : octets) : result exn (option Message) :=
  match o with
  | v :: l =>
      let '(x, l) := ToyCodec.de l in
      match l with
      | t :: i :: es :: ei :: n :: l =>
          Ok (Some (mk_message v x (V1Pdu (mk_pdu (ToyCodec.de_tag t) i es ei
            (ToyCodec.de_binds (Datatypes.S (Z.to_nat n)) l).1))))
      | _ => Err (PyAsn1Error "")
      end
  | [] => Err (PyAsn1Error "")
  end.

Definition demo_model : security_model Community.state Message (octets * origin) (octets * octets * v1_pdu) :=
  community_model 2 demo_encode id id.
Definition demo_models (model : Z) :
    option (security_model Community.state Message (octets * origin) (octets * octets * v1_pdu)) :=
  if model =? 2 then Some demo_model else None.
Definition demo_world : Mp.world (MpCache.Cache request pending) Community.state unit :=
  mk_world (MpCache.init MpCache.demo_gen MpCache.demo_gen) Community.demo_state [] tt.
Definition demo_get : v1_pdu := V1Pdu (mk_pdu GetRequestPDU 42 0 0 [([1; 3; 6; 1], VNull)]).
Definition demo_answer : v1_pdu := V1Pdu (mk_pdu ResponsePDU 5 0 0 [([1; 3; 6; 1], VInteger 7)]).
Definition demo_sent : result exn (octets * octets) * Community.state :=
  generateRequestMsg demo_encode (mk_message 1 [] (set_request_id 0 demo_get)) [98]
    (demo_engineID, [], set_request_id 0 demo_get) Community.demo_state.
Definition demo_accept (o : octets) (s : Community.state) :
    result exn (octets * octets * (octets * octets * v1_pdu) * Z * Z) * Community.state :=
  match demo_decode o with
  | Ok (Some msg) => processIncomingMsg 2 id id 65507 (community msg, demo_stranger) msg s
  | _ => (Err KeyError, s)
  end.
Definition demo_octets (r : result exn (octets * octets)) : octets :=
  match r with Ok (_, o) => o | Err _ => [] end.
Definition demo_accepted_B : result exn (octets * octets * (octets * octets * v1_pdu) * Z * Z) * Community.state :=
  demo_accept (demo_octets demo_sent.1) Community.demo_state.
Definition demo_returned : result exn (octets * octets) * Community.state :=
  generateResponseMsg demo_encode (mk_message 1 [] (set_request_id 0 demo_answer))
    (demo_engineID, [], set_request_id 0 demo_answer) 0 demo_accepted_B.2.
Definition demo_accepted_A : result exn (octets * octets * (octets * octets * v1_pdu) * Z * Z) * Community.state :=
  demo_accept (demo_octets demo_returned.1) demo_sent.2.

Lemma demo_world_ok : ok demo_world.
Proof. apply MpCache.init_wf. Defined.

Lemma v1_exchange_witness :
  ∃ wA1 wB1 wB2 wA2,
    prepareOutgoingMessage 1 demo_models demo_engineID 65507 demo_stranger 2 [98] 1 None [] 9
      (demo_world, demo_get) = (Ok (demo_stranger, demo_octets demo_sent.1), (wA1, demo_get)) ∧
    prepareDataElements demo_models demo_decode demo_engineID 65507 demo_stranger
      (demo_octets demo_sent.1) demo_world =
      (Ok (mk_elements 1 2 [98] 1 demo_engineID [] 1 (set_request_id 0 demo_get) GetRequestPDU None
             65379 (Some 0)), wB1) ∧
    prepareResponseMessage demo_models demo_engineID 1 (Some 0) None (wB1, demo_answer) =
      (Ok (demo_stranger, demo_octets demo_returned.1), (wB2, set_request_id 0 demo_answer)) ∧
    prepareDataElements demo_models demo_decode demo_engineID 65507 demo_stranger
      (demo_octets demo_returned.1) wA1 =
      (Ok (mk_elements 1 2 [98] 1 demo_engineID [] 1 (set_request_id 42 demo_answer) ResponsePDU
             (Some 9) 65379 None), wA2) ∧
    pendings wA2 = ∅ ∧ served wB2 = ∅ ∧ served wA2 = ∅ ∧ pendings wB2 = ∅.
Proof.
  refine (v1_exchange demo_decode 1 demo_models demo_models demo_engineID 65507 demo_stranger demo_world
    demo_model demo_model demo_models demo_models demo_engineID 65507 demo_stranger demo_world
    demo_model demo_model [98] [98] None [] demo_engineID [] demo_get demo_answer 9 0 0 0 [112] [112]
    (demo_octets demo_sent.1) (demo_octets demo_returned.1) demo_sent.2 demo_accepted_A.2
    (Community.releaseStateInformation 0 demo_accepted_A.2).2 demo_accepted_B.2 demo_returned.2
    65379 65379 0 0 demo_engineID eq_refl eq_refl eq_refl eq_refl eq_refl eq_refl
    demo_world_ok demo_world_ok _ _ _ _ _ _ _).
  - split; [reflexivity|]. split; [reflexivity|]. intros m i t Hm.
    exfalso. apply (lookup_empty_Some m (i, t)). exact Hm.
  - split; [reflexivity|]. split; reflexivity.
  - vm_compute. reflexivity.
  - split. eexists (mk_message 1 [112] (set_request_id 0 demo_get)).
    split; [|split]; vm_compute; reflexivity.
  - vm_compute. reflexivity.
  - split. eexists (mk_message 1 [112] (set_request_id 0 demo_answer)).
    split; [|split]; vm_compute; reflexivity.
  - vm_compute. reflexivity.
Defined.
End MpV1Spec.
