(* ===== verification/Dispatcher.v ===== *)
(** * The message and PDU dispatcher (src/pysnmp/proto/rfc3412.py,
      src/pysnmp/proto/api/verdec.py)

    [MsgAndPduDispatcher] over any message processing models, applications and
    callbacks: the models are values of the interface [mp_model], the
    applications and the callbacks are calls on the whole state, so they may send
    requests in turn.  A transport takes a message or raises; it reports a lost
    peer and the ticks of its timer as calls of their own. *)
From S2P Require Export SecModel ReqCache Transport.
Import Mp.
#[local] Open Scope Z_scope.

Module Dispatcher.

Abbreviation origin := (oid * Transport.address)%type.

(** ** The interface of a message processing model (mpmod/base.py)

    [T] is the state below the dispatcher.  The caller's PDU is an object the
    model may work on, so the calls that get one work on it as well. *)
Record outgoing : Type := mk_outgoing {
  o_transport : origin;
  o_messageProcessingModel : Z;
  o_securityModel : Z;
  o_securityName : octets;
  o_securityLevel : Z;
  o_contextEngineId : option octets;
  o_contextName : octets;
  o_pduVersion : Z;
  o_expectResponse : bool;
}.
(** The arguments of [prepareResponseMessage] but the PDU *)
Record response : Type := mk_response {
  s_messageProcessingModel : Z;
  s_securityModel : Z;
  s_securityName : octets;
  s_securityLevel : Z;
  s_contextEngineId : octets;
  s_contextName : octets;
  s_pduVersion : Z;
  s_maxSizeResponseScopedPDU : Z;
  s_stateReference : option Z;
  s_statusInformation : option status;
}.
Record mp_model (T : Type) : Type := mk_mp_model {
  mp_prepareOutgoingMessage : outgoing → Z → M exn (T * v1_pdu) (origin * octets);
  mp_prepareResponseMessage : response → M exn (T * option v1_pdu) (origin * octets);
  mp_prepareDataElements : origin → octets → M exn T (elements v1_pdu);
  mp_releaseStateInformation : Z → M exn T unit;
}.
Arguments mk_mp_model {T}.
Arguments mp_prepareOutgoingMessage {T}.
Arguments mp_prepareResponseMessage {T}.
Arguments mp_prepareDataElements {T}.
Arguments mp_releaseStateInformation {T}.

(** ** verdec.py: [decodeVersion] stands for the two calls of the decoder, and
    [None] for the end-of-octets marker. *)
Definition decodeMessageVersion (decodeVersion : octets → result exn (option Z)) (wholeMsg : octets) :
    result exn Z :=
  match decodeVersion wholeMsg with
  | Ok (Some ver) => Ok ver
  | Ok None => Err (ProtocolError "EOO at SNMP version component")
  | Err e =>
      if is_PyAsn1Error e then Err (ProtocolError "Invalid BER at SNMP version component")
      else match e with
           | TypeError | ValueError => Err (ProtocolError "Malformed BER at SNMP version component")
           | _ => Err e
           end
  end.

(** What a callback is told: the response, or why there is none *)
Inductive outcome : Type :=
  | Answered (e : elements v1_pdu)
  | Failed (st : status).

(** The callbacks that were remembered and called, in order *)
Inductive event : Type :=
  | Issued (sendPduHandle : Z)
  | Called (sendPduHandle : Z) (o : outcome).

Section defs.
(** The state below; a callback and its context; an application; the rest of the
    work of an application that answers later *)
Context {T Cb Ctx App Aw : Type}.

(** ** The request cache holds keyword arguments *)
Inductive arg : Type :=
  | ANum (n : Z)
  | ACb (f : option Cb)
  | ACtx (c : Ctx)
  | ADomain (d : oid)
  | AAddress (a : Transport.address)
  | AOctets (o : octets)
  | AContext (o : option octets)
  | APdu (p : v1_pdu).
Abbreviation kwargs := (gmap string arg).
Abbreviation repo := (dict Z kwargs).

(** [cachedParams[k]] *)
Definition get_num (kw : kwargs) (k : string) : result exn Z :=
  match kw !! k with Some (ANum n) => Ok n | Some _ => Err TypeError | None => Err KeyError end.
Definition get_cb (kw : kwargs) : result exn (option Cb) :=
  match kw !! "cbFun"%string with
  | Some (ACb f) => Ok f | Some _ => Err TypeError | None => Err KeyError end.
Definition get_ctx (kw : kwargs) : result exn Ctx :=
  match kw !! "cbCtx"%string with
  | Some (ACtx c) => Ok c | Some _ => Err TypeError | None => Err KeyError end.

(** ** The state: [trace] is what the applications that sent requests have seen *)
Record state : Type := mk_state {
  cache : repo;
  appsRegistration : gmap (octets * pdu_tag) App;
  handles : NextId.Integer;
  transportInfo : gmap Z origin;
  trace : list event;
  rest : T;
}.
Abbreviation W := (M exn state).
Abbreviation P := (M exn (state * v1_pdu)).

Definition put_cache (r : repo) (s : state) : state :=
  mk_state r (appsRegistration s) (handles s) (transportInfo s) (trace s) (rest s).
Definition put_apps (a : gmap (octets * pdu_tag) App) (s : state) : state :=
  mk_state (cache s) a (handles s) (transportInfo s) (trace s) (rest s).
Definition put_handles (g : NextId.Integer) (s : state) : state :=
  mk_state (cache s) (appsRegistration s) g (transportInfo s) (trace s) (rest s).
Definition put_info (i : gmap Z origin) (s : state) : state :=
  mk_state (cache s) (appsRegistration s) (handles s) i (trace s) (rest s).
Definition put_trace (t : list event) (s : state) : state :=
  mk_state (cache s) (appsRegistration s) (handles s) (transportInfo s) t (rest s).
Definition put_rest (t : T) (s : state) : state :=
  mk_state (cache s) (appsRegistration s) (handles s) (transportInfo s) (trace s) t.

Definition on_cache {A} (m : M exn repo A) : W A := zoom cache put_cache m.
Definition on_rest {A} (m : M exn T A) : W A := zoom rest put_rest m.
Definition on_state {A} (m : W A) : P A := zoom fst (λ s x, (s, x.2)) m.
(** A call of a model that works on the caller's PDU *)
Definition on_rest_pdu {A} (m : M exn (T * v1_pdu) A) : P A :=
  zoom (λ x, (rest x.1, x.2)) (λ y x, (put_rest y.1 x.1, y.2)) m.
Definition emit (e : event) : W unit := modify (λ s, put_trace (trace s ++ [e]) s).

(** ** What the dispatcher calls *)

(** [snmpEngine.messageProcessingSubsystems]; [getTimerTicks] of the transport
    dispatcher, where there is one; its [sendMessage]; a callback, given the
    handle, its context and the outcome; an application, which returns what is
    left to wait for; waiting for it; [runDeferred] *)
Context (subsystems : Z → option (mp_model T))
        (timerTicks : T → option Z)
        (sendMessage : octets → origin → M exn T unit)
        (processResponsePdu : Cb → Ctx → Z → outcome → W unit)
        (processPdu : App → elements v1_pdu → W (option Aw))
        (await : Aw → W unit)
        (runDeferred : Aw → origin → option Z → M exn T unit).
(** The counters of the MIB, and its [snmpEngineMaxMessageSize] *)
Context (counters : T → dict oid value) (put_counters : dict oid value → T → T)
        (snmpEngineMaxMessageSize : Z).

Definition count (n : oid) : W unit :=
  on_rest (modify (λ t, put_counters (dset (counters t) n
    (default (Mp.counter (counters t) n) (wrapping_add (Mp.counter (counters t) n) 1))) t)).
Definition snmpInPkts : oid := [1; 3; 6; 1; 2; 1; 11; 1; 0].
Definition snmpInBadVersions : oid := [1; 3; 6; 1; 2; 1; 11; 3; 0].
Definition snmpInASNParseErrs : oid := [1; 3; 6; 1; 2; 1; 11; 6; 0].
Definition snmpSilentDrops : oid := [1; 3; 6; 1; 2; 1; 11; 31; 0].
Definition snmpUnknownPDUHandlers : oid := [1; 3; 6; 1; 6; 3; 11; 2; 1; 3; 0].

(** ** Applications *)

(** [registerContextEngineId] *)
Fixpoint registerContextEngineId (contextEngineId : octets) (pduTypes : list pdu_tag) (app : App) :
    W unit :=
  match pduTypes with
  | [] => mret tt
  | pduType :: pduTypes =>
      apps ← gets appsRegistration;
      match apps !! (contextEngineId, pduType) with
      | Some _ => raise (ProtocolError "Duplicate registration")
      | None =>
          modify (put_apps (<[(contextEngineId, pduType) := app]> apps));;
          registerContextEngineId contextEngineId pduTypes app
      end
  end.

(** [unregisterContextEngineId]; the default is the MIB object, not its value,
    and MIB objects are not hashable. *)
Definition unregisterContextEngineId (contextEngineId : option octets) (pduTypes : list pdu_tag) :
    W unit :=
  match contextEngineId with
  | None => match pduTypes with [] => mret tt | _ => raise TypeError end
  | Some e => modify (λ s, put_apps (foldl (λ m t, delete (e, t) m) (appsRegistration s) pduTypes) s)
  end.

(** [getRegisteredApp] *)
Definition getRegisteredApp (apps : gmap (octets * pdu_tag) App) (contextEngineId : octets)
    (pduType : pdu_tag) : option App :=
  match apps !! (contextEngineId, pduType) with
  | Some app => Some app
  | None => apps !! ([], pduType)
  end.

(** [getTransportInfo] *)
Definition getTransportInfo (stateReference : Z) : W origin :=
  i ← gets transportInfo;
  match i !! stateReference with
  | Some transport => mret transport
  | None => raise (ProtocolError "No data for stateReference")
  end.

(** [getTimerTicks] of the transport dispatcher *)
Definition getTimerTicks : W Z :=
  t ← gets rest;
  match timerTicks t with Some now => mret now | None => raise AttributeError end.

(** [releaseStateInformation] *)
Definition releaseStateInformation (sendPduHandle messageProcessingModel : Z) : W unit :=
  match subsystems messageProcessingModel with
  | Some mpHandler => on_rest (mp_releaseStateInformation mpHandler sendPduHandle)
  | None => mret tt
  end;;
  on_cache (Dsp.pop sendPduHandle);; mret tt.

(** ** [sendPdu] *)

(** The arguments of [sendPdu] that are not the model's *)
Record request : Type := mk_request {
  q_outgoing : outgoing;
  q_timeout : Z;
  q_cbFun : option Cb;
  q_cbCtx : Ctx;
}.

(** 4.1.1.3 *)
Definition remember (h : Z) (q : request) : W unit :=
  now ← getTimerTicks;
  on_cache (Dsp.add h (list_to_map [
    ("messageProcessingModel"%string, ANum (o_messageProcessingModel (q_outgoing q)));
    ("sendPduHandle"%string, ANum h);
    ("timeout"%string, ANum (q_timeout q + now));
    ("cbFun"%string, ACb (q_cbFun q));
    ("cbCtx"%string, ACtx (q_cbCtx q))]));;
  emit (Issued h).

(** The parameters of the request, once it was sent *)
Definition request_args (q : request) (pdu : v1_pdu) : kwargs :=
  let o := q_outgoing q in
  list_to_map [
    ("transportDomain"%string, ADomain (o_transport o).1);
    ("transportAddress"%string, AAddress (o_transport o).2);
    ("securityModel"%string, ANum (o_securityModel o));
    ("securityName"%string, AOctets (o_securityName o));
    ("securityLevel"%string, ANum (o_securityLevel o));
    ("contextEngineId"%string, AContext (o_contextEngineId o));
    ("contextName"%string, AOctets (o_contextName o));
    ("pduVersion"%string, ANum (o_pduVersion o));
    ("PDU"%string, APdu pdu)].

Definition sendPdu (q : request) : P Z :=
  let o := q_outgoing q in
  match subsystems (o_messageProcessingModel o) with
  | None => raise (StatusInfo unsupportedMsgProcessingModel)
  | Some mpHandler =>
      h ← on_state (zoom handles put_handles NextId.call);
      let expecting {A} (m : W A) : W unit := if o_expectResponse o then m;; mret tt else mret tt in
      on_state (expecting (remember h q));;
      r ← try_except (on_rest_pdu (mp_prepareOutgoingMessage mpHandler o h))
            (λ e, if is_PySnmpError e then
               Some (on_state (expecting (on_cache (Dsp.pop h);;
                       releaseStateInformation h (o_messageProcessingModel o)));; raise e)
             else None);
      t ← gets (λ x, rest x.1);
      match timerTicks t with
      | None =>
          on_state (expecting (on_cache (Dsp.pop h)));;
          raise (PySnmpError "Transport dispatcher not set")
      | Some _ =>
          try_except (on_state (on_rest (sendMessage r.2 r.1)))
            (λ e, if is_PySnmpError e then
               Some (on_state (expecting (on_cache (Dsp.pop h)));; raise e)
             else None);;
          pdu ← gets snd;
          on_state (expecting (on_cache (Dsp.update h (request_args q pdu))));;
          mret h
      end
  end.

(** ** [returnResponsePdu]: the PDU may be missing *)
Definition returnResponsePdu (s : response) : M exn (state * option v1_pdu) unit :=
  match subsystems (s_messageProcessingModel s) with
  | None => raise (StatusInfo unsupportedMsgProcessingModel)
  | Some mpHandler =>
      r ← zoom (λ x, (rest x.1, x.2)) (λ y x, (put_rest y.1 x.1, y.2))
            (mp_prepareResponseMessage mpHandler s);
      let on {A} (m : W A) : M exn (state * option v1_pdu) A := zoom fst (λ w x, (w, x.2)) m in
      if negb (snmpEngineMaxMessageSize =? 0) &&
         (snmpEngineMaxMessageSize <? Z.of_nat (length r.2))
      then on (count snmpSilentDrops);; raise (StatusInfo tooBig)
      else
        t ← gets (λ x, rest x.1);
        match timerTicks t with
        | None => raise AttributeError
        | Some _ => on (on_rest (sendMessage r.2 r.1))
        end
  end.

(** ** Expiry *)

(** The callback of a request *)
Definition call_back (kw : kwargs) (o : outcome) : W unit :=
  f ← liftR (get_cb kw);
  h ← liftR (get_num kw "sendPduHandle");
  c ← liftR (get_ctx kw);
  emit (Called h o);;
  match f with None => raise TypeError | Some f => processResponsePdu f c h o end.

(** [__expireRequest]; [None] is what an unknown handle gives. *)
Definition expireRequest (cachedParams : option kwargs) (statusInformation : option status) : W bool :=
  timeNow ← getTimerTicks;
  match cachedParams with
  | None => raise TypeError
  | Some kw =>
      timeoutAt ← liftR (get_num kw "timeout");
      if (match statusInformation with None => timeNow <? timeoutAt | Some _ => false end)
      then mret false
      else
        let st := default (status_of requestTimedOut) statusInformation in
        liftR (get_cb kw);;
        h ← liftR (get_num kw "sendPduHandle");
        m ← liftR (get_num kw "messageProcessingModel");
        releaseStateInformation h m;;
        call_back kw (Failed st);;
        mret true
  end.

(** [self.__cache.expire(cbFun, snmpEngine)] *)
Definition expire (cb : Z → kwargs → W bool) : W unit :=
  zoom (λ s, (cache s, s)) (λ x _, put_cache x.1 x.2)
    (Dsp.expire (Some (λ i kw,
       zoom (λ x : repo * state, put_cache x.1 x.2) (λ s _, (cache s, s)) (cb i kw)))).

(** [receiveTimerTick] *)
Definition receiveTimerTick : W unit := expire (λ _ kw, expireRequest (Some kw) None).

(** [_sameTransportAddress] *)
Definition sameTransportAddress (cachedAddress : option Transport.address) (a : Transport.address) :
    bool :=
  match cachedAddress with None => false | Some c => bool_decide (c = a) end.
Definition cached_domain (kw : kwargs) : option oid :=
  match kw !! "transportDomain"%string with Some (ADomain d) => Some d | _ => None end.
Definition cached_address (kw : kwargs) : option Transport.address :=
  match kw !! "transportAddress"%string with Some (AAddress a) => Some a | _ => None end.

(** [receiveTransportError] *)
Definition receiveTransportError (transport : origin) (descr : string) : W unit :=
  expire (λ _ kw,
    if negb (bool_decide (cached_domain kw = Some transport.1)) then mret false
    else if negb (sameTransportAddress (cached_address kw) transport.2) then mret false
    else expireRequest (Some kw) (Some (status_of (transportFailure descr)))).

(** ** [receiveMessage] *)

(** 4.2.2.1.2: a PDU of no registered application is reported. *)
Definition report_unknown (mpHandler : mp_model T) (e : elements v1_pdu) : W unit :=
  count snmpUnknownPDUHandlers;;
  v ← gets (λ s, Mp.counter (counters (rest s)) snmpUnknownPDUHandlers);
  let st := mk_status (Some unknownPDUHandler) (Some snmpUnknownPDUHandlers) (Some v)
              None None None None None None None None None None None None in
  try_except
    (r ← on_rest (zoom (λ t, (t, Some (e_pdu e))) (λ x _, x.1)
           (mp_prepareResponseMessage mpHandler
             (mk_response (e_messageProcessingModel e) (e_securityModel e) (e_securityName e)
                (e_securityLevel e) (e_contextEngineId e) (e_contextName e) (e_pduVersion e)
                (e_maxSizeResponseScopedPDU e) (e_stateReference e) (Some st))));
     t ← gets rest;
     match timerTicks t with
     | None => raise AttributeError
     | Some _ => on_rest (sendMessage r.2 r.1)
     end)
    (λ x, if is_PySnmpError x then Some (mret tt) else None).

(** [transportInfo[stateReference] = ...], [del transportInfo[stateReference]] *)
Definition set_info (stateReference : option Z) (transport : origin) : W unit :=
  match stateReference with
  | None => mret tt
  | Some r => modify (λ s, put_info (<[r := transport]> (transportInfo s)) s)
  end.
Definition del_info (stateReference : option Z) : W unit :=
  match stateReference with
  | None => mret tt
  | Some r =>
      i ← gets transportInfo;
      match i !! r with None => raise KeyError | Some _ => modify (put_info (delete r i)) end
  end.
Definition pop_info (stateReference : option Z) : W unit :=
  match stateReference with
  | None => mret tt
  | Some r => modify (λ s, put_info (delete r (transportInfo s)) s)
  end.

(** [try: ... finally: ...] where the result decides what is done last *)
Definition try_finally {A} (m : W A) (last : option A → W unit) : W A := fun s =>
  match m s with
  | (Ok a, s) => (last (Some a) ≫= λ _, mret a) s
  | (Err e, s) => (last None ≫= λ _, raise e) s
  end.

(** [__abandonRequest], closing the coroutines apart *)
Definition abandonRequest (stateReference : option Z) : W unit := pop_info stateReference.
(** [__deferRequest] *)
Definition deferRequest (d : Aw) (transport : origin) (stateReference : option Z) : W unit :=
  t ← gets rest;
  match timerTicks t with
  | None => abandonRequest stateReference;; raise (PySnmpError "no transport dispatcher")
  | Some _ =>
      try_except (on_rest (runDeferred d transport stateReference))
        (λ e, Some (abandonRequest stateReference;; raise e))
  end.
(** [__completeRequest]: what [runDeferred] runs, later *)
Definition completeRequest (d : Aw) (transport : origin) (stateReference : option Z) : W unit :=
  set_info stateReference transport;;
  try_finally (await d) (λ _, pop_info stateReference).

(** 4.2.2.1.3 *)
Definition serve (app : App) (transport : origin) (e : elements v1_pdu) : W unit :=
  set_info (e_stateReference e) transport;;
  deferred ← try_finally (processPdu app e)
    (λ r, match r with Some (Some _) => mret tt | _ => del_info (e_stateReference e) end);
  match deferred with
  | None => mret tt
  | Some d => deferRequest d transport (e_stateReference e)
  end.

(** 4.2.2.2 *)
Definition answer (h : Z) (e : elements v1_pdu) : W unit :=
  kw ← on_cache (Dsp.pop h);
  match kw with
  | None => count snmpUnknownPDUHandlers
  | Some kw => call_back kw (Answered e)
  end.

(** 4.2.2 *)
Definition dispatch (mpHandler : mp_model T) (transport : origin) (e : elements v1_pdu) : W unit :=
  match e_sendPduHandle e with
  | None =>
      apps ← gets appsRegistration;
      match getRegisteredApp apps (e_contextEngineId e) (e_pduType e) with
      | None => report_unknown mpHandler e
      | Some app => serve app transport e
      end
  | Some h => answer h e
  end.

(** 4.2.1.4: what a message that is not understood leads to *)
Definition refused (x : exn) : option (W unit) :=
  match x with
  | StatusInformation st =>
      Some (match st_sendPduHandle st with
            | Some h =>
                kw ← on_cache (Dsp.pop h);
                expireRequest kw (Some st);; mret tt
            | None => mret tt
            end)
  | _ => if is_PyAsn1Error x then Some (count snmpInASNParseErrs) else None
  end.

Definition process_message (mpHandler : mp_model T) (transport : origin) (wholeMsg : octets) : W unit :=
  fun s =>
  match on_rest (mp_prepareDataElements mpHandler transport wholeMsg) s with
  | (Ok e, s) => dispatch mpHandler transport e s
  | (Err x, s) => match refused x with Some m => m s | None => (Err x, s) end
  end.

(** [receiveMessage] returns the rest of the message, which is always empty. *)
Definition receiveMessage (decodeVersion : octets → result exn (option Z)) (transport : origin)
    (wholeMsg : octets) : W unit :=
  count snmpInPkts;;
  match decodeMessageVersion decodeVersion wholeMsg with
  | Err x => if is_ProtocolError x then count snmpInASNParseErrs else raise x
  | Ok version =>
      match subsystems version with
      | None => count snmpInBadVersions
      | Some mpHandler => process_message mpHandler transport wholeMsg
      end
  end.
End defs.
Arguments state : clear implicits.
Arguments request : clear implicits.
End Dispatcher.
