(* ===== verification/DispatcherSpec.v ===== *)
(** * What the dispatcher promises to the applications that send requests

    Every callback belongs to a request that was sent, and no request gets two;
    a request that was refused is not pending; a response goes to the callback of its
    request; a timer tick calls back every request that is due. *)
From S2P Require Export Dispatcher Wp.
Import Mp Dispatcher.
#[local] Open Scope Z_scope.

Module DispatcherSpec.

(** ** Counting callbacks *)
Fixpoint issued (h : Z) (t : list event) : Z :=
  match t with
  | [] => 0
  | Issued i :: t => (if decide (i = h) then 1 else 0) + issued h t
  | Called _ _ :: t => issued h t
  end.
Fixpoint called (h : Z) (t : list event) : Z :=
  match t with
  | [] => 0
  | Called i _ :: t => (if decide (i = h) then 1 else 0) + called h t
  | Issued _ :: t => called h t
  end.

Lemma issued_app h t t' : issued h (t ++ t') = issued h t + issued h t'.
Proof. induction t as [|[] t IH]; cbn; [done| |done]. case_decide; lia. Qed.
Lemma called_app h t t' : called h (t ++ t') = called h t + called h t'.
Proof. induction t as [|[] t IH]; cbn; [done|done|]. case_decide; lia. Qed.

Section spec.
Context {T Cb Ctx App Aw : Type}.
Abbreviation state := (Dispatcher.state T Cb Ctx App).
Abbreviation kwargs := (gmap string (@arg Cb Ctx)).
Abbreviation W := (M exn state).
Implicit Types (s : state) (h : Z) (kw : kwargs).

(** Requests under [h] that were not called back yet; of these, the ones that are
    not pending either *)
Definition spare h s : Z := issued h (trace s) - called h (trace s).
Definition free h s : Z := spare h s - (if din (cache s) h then 1 else 0).

(** What an entry of the cache holds *)
Record entry_ok h kw : Prop := {
  eo_handle : get_num kw "sendPduHandle" = Ok h;
  eo_model : is_Ok (get_num kw "messageProcessingModel");
  eo_timeout : is_Ok (get_num kw "timeout");
  eo_cb : is_Ok (get_cb kw);
  eo_ctx : is_Ok (get_ctx kw);
}.
Record cache_ok s : Prop := {
  co_dict : dict_ok (cache s);
  co_entries : ∀ h kw, dget (cache s) h = Some kw → entry_ok h kw;
}.

(** Nothing that a call does takes a request without having issued it. *)
Definition grows s s' : Prop := ∀ h, spare h s <= spare h s' ∧ free h s <= free h s'.
#[global] Instance grows_preorder : PreOrder grows.
Proof.
  split; [intros s h; lia|]. intros s1 s2 s3 H1 H2 h. specialize (H1 h). specialize (H2 h). lia.
Qed.

(** A call that makes no callbacks of its own accord: it may send, cancel,
    register and answer.  [get] finds the dispatcher in what the call works on. *)
Definition polite_on {X A} (get : X → state) (m : M exn X A) : Prop :=
  ∀ x, cache_ok (get x) → cache_ok (get (m x).2) ∧ grows (get x) (get (m x).2).
Abbreviation polite := (polite_on (λ s : state, s)).

(** Every callback is accounted for. *)
Record accounted s : Prop := {
  ac_cache : cache_ok s;
  ac_free : ∀ h, 0 <= free h s;
}.

Lemma spare_free h s : free h s <= spare h s.
Proof. unfold free. destruct (din _ _); lia. Qed.

Lemma polite_accounted {A} (m : W A) s : polite m → accounted s → accounted (m s).2.
Proof.
  intros Hm [Hc Hf]. destruct (Hm s Hc) as [Hc' Hg]. split; [done|].
  intros h. specialize (Hf h). specialize (Hg h). lia.
Qed.

(** *** Composing polite calls *)
Section compose.
Context {X : Type} (get : X → state).
Lemma polite_ret {A} (a : A) : polite_on get (mret a).
Proof. intros s Hc. by split. Qed.
Lemma polite_raise {A} e : polite_on get (raise (A:=A) e).
Proof. intros s Hc. by split. Qed.
Lemma polite_gets {A} (f : X → A) : polite_on get (gets f).
Proof. intros s Hc. by split. Qed.
Lemma polite_liftR {A} (r : result exn A) : polite_on get (liftR r).
Proof. intros s Hc. by split. Qed.
Lemma polite_bind {A B} (m : M exn X A) (k : A → M exn X B) :
  polite_on get m → (∀ a, polite_on get (k a)) → polite_on get (m ≫= k).
Proof.
  intros Hm Hk s Hc. unfold mbind, M_bind. destruct (Hm s Hc) as [Hc1 Hg1].
  destruct (m s) as [[a|e] s1]; cbn in *; [|done].
  destruct (Hk a s1 Hc1) as [Hc2 Hg2]. split; [done|]. by etrans.
Qed.
Lemma polite_try {A} (m : M exn X A) handler :
  polite_on get m → (∀ e k, handler e = Some k → polite_on get k) → polite_on get (try_except m handler).
Proof.
  intros Hm Hh s Hc. unfold try_except. destruct (Hm s Hc) as [Hc1 Hg1].
  destruct (m s) as [[a|e] s1]; cbn in *; [done|]. destruct (handler e) as [k|] eqn:He; [|done].
  destruct (Hh e k He s1 Hc1) as [Hc2 Hg2]. split; [done|]. by etrans.
Qed.
(** A call on a part of the state that holds the dispatcher *)
Lemma polite_zoom {Y A} (part : Y → X) (put : X → Y → Y) (m : M exn X A) :
  (∀ x y, part (put x y) = x) → polite_on get m → polite_on (λ y, get (part y)) (zoom part put m).
Proof.
  intros Hp Hm y Hc. unfold zoom. destruct (Hm (part y) Hc) as [Hc' Hg].
  destruct (m (part y)) as [r x]. cbn in *. by rewrite Hp.
Qed.
End compose.
Lemma polite_same {A} (m : W A) :
  (∀ s, cache (m s).2 = cache s ∧ trace (m s).2 = trace s) → polite m.
Proof.
  intros Hm s Hc. destruct (Hm s) as [He Ht]. split.
  - destruct Hc as [Hd Hk]. split; rewrite He; auto.
  - intros h. unfold free, spare. rewrite He, Ht. lia.
Qed.
Lemma polite_on_rest {A} (m : M exn T A) : polite (on_rest m).
Proof. apply polite_same. intros s. unfold on_rest, zoom. by destruct (m (rest s)). Qed.

Lemma cache_ok_del s h : cache_ok s → cache_ok (put_cache (ddel (cache s) h) s).
Proof.
  intros [Hd Hk]. split; cbn; [by apply ddel_ok|]. intros i kw.
  rewrite dget_ddel by done. case_decide; [done|apply Hk].
Qed.

Lemma din_ddel s h i : dict_ok (cache s) →
  din (ddel (cache s) h) i = if decide (i = h) then false else din (cache s) i.
Proof. intros Hd. unfold din. rewrite dget_ddel by done. by case_decide. Qed.

(** Taking a request out leaves it to be called back. *)
Lemma polite_pop h : polite (on_cache (Dsp.pop h)).
Proof.
  intros s Hc. unfold on_cache, zoom, Dsp.pop. destruct (dget (cache s) h) as [kw|] eqn:Hh; cbn.
  - split; [by apply cache_ok_del|]. intros i. unfold free, spare. cbn.
    rewrite din_ddel by apply Hc. case_decide; [|lia]. destruct (din (cache s) i); lia.
  - split; [by destruct Hc; split|]. intros i. unfold free, spare. cbn. lia.
Qed.

Lemma popped h s : cache_ok s →
  let s1 := (on_cache (Dsp.pop h) s).2 in
  (on_cache (Dsp.pop h) s).1 = Ok (dget (cache s) h) ∧ din (cache s1) h = false ∧
  trace s1 = trace s ∧ rest s1 = rest s.
Proof.
  intros Hc. unfold on_cache, zoom, Dsp.pop. destruct (dget (cache s) h) as [kw|] eqn:Hh; cbn.
  - split_and!; try done. rewrite din_ddel by apply Hc. by rewrite decide_True.
  - split_and!; try done. unfold din. by rewrite Hh.
Qed.

Section ops.
Context (subsystems : Z → option (mp_model T)) (timerTicks : T → option Z)
        (sendMessage : octets → origin → M exn T unit)
        (processResponsePdu : Cb → Ctx → Z → outcome → W unit)
        (processPdu : App → elements v1_pdu → W (option Aw))
        (await : Aw → W unit) (runDeferred : Aw → origin → option Z → M exn T unit)
        (counters : T → dict oid value) (put_counters : dict oid value → T → T)
        (snmpEngineMaxMessageSize : Z).

Abbreviation count := (Dispatcher.count counters put_counters).
Abbreviation release := (Dispatcher.releaseStateInformation subsystems).
Abbreviation remember := (Dispatcher.remember timerTicks).
Abbreviation sendPdu := (Dispatcher.sendPdu subsystems timerTicks sendMessage).

Lemma polite_count n : polite (count n).
Proof. apply polite_on_rest. Qed.
Lemma polite_getTimerTicks : polite (getTimerTicks timerTicks).
Proof.
  apply polite_bind; [apply polite_gets|]. intros t. destruct (timerTicks t);
    [apply polite_ret|apply polite_raise].
Qed.
Lemma polite_release h m : polite (release h m).
Proof.
  apply polite_bind.
  - destruct (subsystems m); [apply polite_on_rest|apply polite_ret].
  - intros _. apply polite_bind; [apply polite_pop|]. intros. apply polite_ret.
Qed.
Lemma polite_registerContextEngineId e ts app : polite (registerContextEngineId e ts app).
Proof.
  induction ts as [|t ts IH]; cbn; [apply polite_ret|].
  apply polite_bind; [apply polite_gets|]. intros apps. destruct (apps !! (e, t)); [apply polite_raise|].
  apply polite_bind; [by apply polite_same|auto].
Qed.
Lemma polite_unregisterContextEngineId e ts : polite (unregisterContextEngineId e ts).
Proof.
  destruct e; [by apply polite_same|]. destruct ts; [apply polite_ret|apply polite_raise].
Qed.

(** A request is remembered when it is issued. *)
Lemma entry_ok_remember q h now : entry_ok h (list_to_map [
    ("messageProcessingModel"%string, ANum (o_messageProcessingModel (q_outgoing q)));
    ("sendPduHandle"%string, ANum h); ("timeout"%string, ANum now);
    ("cbFun"%string, ACb (q_cbFun q)); ("cbCtx"%string, ACtx (q_cbCtx q))] : kwargs).
Proof. split; [done| | | |]; eexists; reflexivity. Qed.

Lemma cache_ok_set s h kw : cache_ok s → entry_ok h kw → cache_ok (put_cache (dset (cache s) h kw) s).
Proof.
  intros [Hd Hk] He. split; cbn; [by apply dset_ok|]. intros i kw'. rewrite dget_dset.
  case_decide; [by intros [= <-]; subst|apply Hk].
Qed.

Lemma polite_remember h q : polite (remember h q).
Proof.
  apply polite_bind; [apply polite_getTimerTicks|]. intros now s Hc.
  pose proof (cache_ok_set s h _ Hc (entry_ok_remember q h (q_timeout q + now))) as Hc'.
  unfold on_cache, zoom, emit, Dsp.add. munfold. cbn in *.
  split; [by destruct Hc'; split|]. intros i. unfold free, spare. cbn.
  rewrite issued_app, called_app. cbn. unfold din. rewrite dget_dset.
  destruct (decide (h = i)) as [->|]; [rewrite decide_True by done|rewrite decide_False by done];
    destruct (dget (cache s) i); lia.
Qed.

#[local] Hint Resolve polite_ret polite_raise polite_gets polite_liftR polite_on_rest polite_pop
  polite_count polite_release polite_remember polite_getTimerTicks : polite.

Lemma polite_update h kw kw' s : cache_ok s → dget (cache s) h = Some kw → entry_ok h (kw' ∪ kw) →
  let s' := (on_cache (Dsp.update h kw') s).2 in cache_ok s' ∧ grows s s'.
Proof.
  intros Hc Hh He. unfold on_cache, zoom, Dsp.update. rewrite Hh. cbn.
  split; [by apply cache_ok_set|]. intros i. unfold free, spare, din. cbn. rewrite dget_dset.
  case_decide as Hi; [|lia]. subst i. rewrite Hh. lia.
Qed.
(** The parameters of a request do not hide what it was remembered with. *)
Lemma entry_ok_args h kw (q : request Cb Ctx) p :
  entry_ok h kw → entry_ok h (request_args q p ∪ kw).
Proof.
  assert (Hl : ∀ k : string, request_args (Cb:=Cb) (Ctx:=Ctx) q p !! k = None →
    (request_args q p ∪ kw) !! k = kw !! k).
  { intros k Hk. by rewrite lookup_union_r. }
  intros [H1 H2 H3 H4 H5]. unfold get_num, get_cb, get_ctx in *.
  split; unfold get_num, get_cb, get_ctx; rewrite Hl by reflexivity; done.
Qed.
Lemma polite_update_args h q p : polite (on_cache (Dsp.update h (request_args q p))).
Proof.
  intros s Hc. destruct (dget (cache s) h) as [kw|] eqn:Hh.
  - apply (polite_update h kw); [done|done|]. apply entry_ok_args. by apply Hc.
  - unfold on_cache, zoom, Dsp.update. rewrite Hh. cbn. split; [by destruct Hc; split|].
    intros i. unfold free, spare. cbn. lia.
Qed.

Lemma polite_on_state {A} (m : W A) :
  polite m → polite_on (fst : state * v1_pdu → state) (on_state m).
Proof. intros Hm. by apply (polite_zoom (λ s, s) fst (λ s x, (s, x.2)) m). Qed.

(** Sending makes no callback. *)
Lemma polite_sendPdu q : polite_on fst (sendPdu q).
Proof.
  unfold Dispatcher.sendPdu. destruct (subsystems _) as [mp|]; [|auto with polite].
  assert (Hexp : ∀ A (m : W A), polite m →
    polite (if o_expectResponse (q_outgoing q) then m;; mret tt else mret tt)).
  { intros A m Hm. destruct (o_expectResponse _); [|auto with polite].
    apply polite_bind; [done|]. auto with polite. }
  apply polite_bind.
  { apply polite_on_state, polite_same. intros s. unfold zoom. by destruct (NextId.call (handles s)). }
  intros h. apply polite_bind; [apply polite_on_state, Hexp; auto with polite|]. intros _.
  apply polite_bind.
  { apply polite_try.
    - intros x Hc. unfold on_rest_pdu, zoom. destruct (mp_prepareOutgoingMessage _ _ _ _) as [r [t p]].
      split; [by destruct Hc; split|]. intros i. unfold free, spare. cbn. lia.
    - intros e k. destruct (is_PySnmpError e); [|done]. intros [= <-].
      apply polite_bind; [|auto with polite]. apply polite_on_state, Hexp, polite_bind; auto with polite. }
  intros r. apply polite_bind; [auto with polite|]. intros t. destruct (timerTicks t) as [now|].
  - apply polite_bind; [|intros _; apply polite_bind; [auto with polite|]; intros p;
      apply polite_bind; [|auto with polite]; apply polite_on_state, Hexp, polite_update_args].
    apply polite_try; [apply polite_on_state; auto with polite|].
    intros e k. destruct (is_PySnmpError e); [|done]. intros [= <-].
    apply polite_bind; [|auto with polite]. apply polite_on_state, Hexp. auto with polite.
  - apply polite_bind; [|auto with polite]. apply polite_on_state, Hexp. auto with polite.
Qed.

Lemma polite_returnResponsePdu r : polite_on fst (returnResponsePdu (App:=App) (Cb:=Cb) (Ctx:=Ctx)
  subsystems timerTicks sendMessage counters put_counters snmpEngineMaxMessageSize r).
Proof.
  unfold returnResponsePdu. destruct (subsystems _) as [mp|]; [|auto with polite].
  apply polite_bind.
  { intros x Hc. unfold zoom. destruct (mp_prepareResponseMessage _ _ _) as [y [t p]].
    split; [by destruct Hc; split|]. intros i. unfold free, spare. cbn. lia. }
  intros y. destruct (_ && _).
  - apply polite_bind; [|auto with polite].
    apply (polite_zoom (λ s, s) fst (λ w x, (w, x.2))); [done|]. auto with polite.
  - apply polite_bind; [auto with polite|]. intros t. destruct (timerTicks t); [|auto with polite].
    apply (polite_zoom (λ s, s) fst (λ w x, (w, x.2))); [done|]. auto with polite.
Qed.

(** ** Calling back *)
Section accounting.
Context (Hcb : ∀ f c h o, polite (processResponsePdu f c h o))
        (Happ : ∀ app e, polite (processPdu app e))
        (Hawait : ∀ d, polite (await d)).

Abbreviation call_back := (Dispatcher.call_back processResponsePdu).
Abbreviation expireRequest := (Dispatcher.expireRequest subsystems timerTicks processResponsePdu).

(** The callback of a request that has one to spare *)
Lemma call_back_ok h kw o s : accounted s → entry_ok h kw → 1 <= free h s →
  let s' := (call_back kw o s).2 in
  accounted s' ∧ ∀ j, j ≠ h → spare j s <= spare j s'.
Proof.
  intros [Hc Hf] He Hh. unfold Dispatcher.call_back, emit.
  destruct (eo_cb _ _ He) as [f Ef], (eo_ctx _ _ He) as [c Ec]. munfold.
  rewrite Ef, (eo_handle _ _ He), Ec.
  set (s1 := put_trace (trace s ++ [Called h o]) s).
  assert (Hs : ∀ j, spare j s1 = spare j s - if decide (h = j) then 1 else 0).
  { intros j. unfold spare, s1. cbn. rewrite issued_app, called_app. cbn. lia. }
  assert (Hc1 : cache_ok s1) by (by destruct Hc; split).
  assert (Hp : ∀ m : W unit, polite m → accounted (m s1).2 ∧ ∀ j, j ≠ h → spare j s <= spare j (m s1).2).
  { intros m Hm. destruct (Hm s1 Hc1) as [Hc2 Hg]. split; [split; [done|]|].
    - intros j. specialize (Hf j). specialize (Hg j). unfold free in *. rewrite Hs in Hg. cbn in Hg.
      case_decide; [subst j|]; lia.
    - intros j Hj. specialize (Hg j). rewrite Hs, decide_False in Hg by done. lia. }
  destruct f as [f|]; [apply Hp, Hcb|apply (Hp (raise TypeError)), polite_raise].
Qed.

Lemma released_by (m : W unit) h s s1 : polite m → cache_ok s →
  (m;; on_cache (Dsp.pop h);; mret tt) s = (Ok tt, s1) → din (cache s1) h = false.
Proof.
  intros Hm Hc. unfold mbind, M_bind. destruct (Hm s Hc) as [Hc1 _].
  destruct (m s) as [[[]|e] s2]; [|done]. cbn in *.
  destruct (popped h s2 Hc1) as (Hp1 & Hp2 & _).
  destruct (on_cache (Dsp.pop h) s2) as [r s3]. cbn in *. subst r. by intros [= <-].
Qed.
Lemma released h m s s1 : cache_ok s → release h m s = (Ok tt, s1) → din (cache s1) h = false.
Proof.
  apply released_by. destruct (subsystems m); auto with polite.
Qed.

Lemma expireRequest_ok h kw st s : accounted s → entry_ok h kw → 1 <= spare h s →
  let s' := (expireRequest (Some kw) st s).2 in
  accounted s' ∧ ∀ j, j ≠ h → spare j s <= spare j s'.
Proof.
  intros Hac He Hh. unfold Dispatcher.expireRequest, Dispatcher.getTimerTicks.
  destruct (eo_cb _ _ He) as [f Ef], (eo_timeout _ _ He) as [t Et], (eo_model _ _ He) as [m Em].
  munfold. destruct (timerTicks (rest s)) as [now|]; [|done].
  rewrite Et, Ef, (eo_handle _ _ He), Em. destruct (match st with Some _ => _ | None => _ end); [done|].
  destruct (polite_release h m s (ac_cache _ Hac)) as [Hc1 Hg1].
  destruct (release h m s) as [[[]|e] s1] eqn:Hr; cbn [fst snd] in *.
  - apply released in Hr; [|apply Hac].
    assert (Hac1 : accounted s1).
    { split; [done|]. intros j. pose proof (ac_free _ Hac j). specialize (Hg1 j). lia. }
    destruct (call_back_ok h kw (Failed (default (status_of requestTimedOut) st)) s1 Hac1 He) as [Hac2 Hs2].
    { unfold free. rewrite Hr. specialize (Hg1 h). lia. }
    destruct (call_back _ _ s1) as [[[]|e] s2]; cbn in *; (split; [done|]); intros j Hj;
      specialize (Hs2 j Hj); specialize (Hg1 j); lia.
  - split; [|intros j _; apply Hg1]. split; [done|].
    intros j. pose proof (ac_free _ Hac j). specialize (Hg1 j). lia.
Qed.

(** ** Going through the requests *)
Fixpoint expire_items (cb : Z → kwargs → W bool) (items : list (Z * kwargs)) : W unit :=
  match items with
  | [] => mret tt
  | (i, kw) :: items =>
      b ← cb i kw;
      (if (b : bool) then
         modify (λ s, put_cache (if din (cache s) i then ddel (cache s) i else cache s) s)
       else mret tt);;
      expire_items cb items
  end.

Lemma put_cache_same s : put_cache (cache s) s = s.
Proof. by destruct s. Qed.

(** The callback of [Cache.expire], which has the cache apart *)
Definition lifted (cb : Z → kwargs → W bool) (i : Z) kw : M exn (dict Z kwargs * state) bool :=
  zoom (λ x, put_cache x.1 x.2) (λ s _, (cache s, s)) (cb i kw).
Lemma lifted_eq cb i kw r s : lifted cb i kw (r, s) =
  ((cb i kw (put_cache r s)).1, (cache (cb i kw (put_cache r s)).2, (cb i kw (put_cache r s)).2)).
Proof. unfold lifted, zoom. cbn. by destruct (cb i kw _). Qed.

Lemma expire_loop_items cb items r s :
  let x := Dsp.expire_loop (lifted cb) items (r, s) in
  (x.1, put_cache x.2.1 x.2.2) = expire_items cb items (put_cache r s).
Proof.
  revert r s. induction items as [|[i kw] items IH]; intros r s; [done|].
  cbn [Dsp.expire_loop expire_items]. unfold mbind, M_bind. rewrite lifted_eq.
  destruct (cb i kw (put_cache r s)) as [[b|e] s1]; cbn [fst snd]; [|by destruct s1].
  destruct b; cbn.
  - rewrite <- IH. by destruct s1.
  - rewrite (IH (cache s1) s1). by rewrite put_cache_same.
Qed.

Lemma expire_eq cb s : expire cb s = expire_items cb (cache s) s.
Proof.
  rewrite <- (put_cache_same s) at 3. rewrite <- expire_loop_items. unfold expire, zoom at 1, Dsp.expire.
  cbn [fst snd]. fold (lifted cb). by destruct (Dsp.expire_loop _ _ _) as [r x].
Qed.

Lemma expire_items_ok cb items s :
  (∀ i kw s, accounted s → entry_ok i kw → 1 <= spare i s →
     accounted (cb i kw s).2 ∧ ∀ j, j ≠ i → spare j s <= spare j (cb i kw s).2) →
  NoDup items.*1 → (∀ i kw, (i, kw) ∈ items → entry_ok i kw ∧ 1 <= spare i s) → accounted s →
  accounted (expire_items cb items s).2.
Proof.
  intros Hcb'. revert s. induction items as [|[i kw] items IH]; intros s; [done|].
  cbn [fmap list_fmap expire_items]. intros [Hn Hnd]%NoDup_cons Hit Hac.
  destruct (Hit i kw) as [He Hi]; [by left|]. destruct (Hcb' i kw s Hac He Hi) as [Hac1 Hs1].
  unfold mbind, M_bind at 1. destruct (cb i kw s) as [[b|e] s1]; cbn [fst snd] in *; [|done].
  assert (Hdel : ∀ m : W unit, polite m → (∀ s, (m s).1 = Ok tt) →
    accounted ((m ≫= λ _, expire_items cb items) s1).2).
  { intros m Hm Hok. unfold mbind, M_bind. destruct (Hm s1 (ac_cache _ Hac1)) as [Hc2 Hg2].
    specialize (Hok s1). destruct (m s1) as [r s2]; cbn in *. subst r.
    apply IH; [done| |by split; [|intros h; pose proof (ac_free _ Hac1 h); specialize (Hg2 h); lia]].
    intros j kw' Hj. destruct (Hit j kw') as [He' Hj']; [by right|]. split; [done|].
    assert (j ≠ i) as Hji. { intros ->. apply Hn, list_elem_of_fmap. by exists (i, kw'). }
    specialize (Hs1 j Hji). specialize (Hg2 j). lia. }
  destruct b; [|by apply Hdel; [apply polite_ret|]].
  apply Hdel; [|done]. intros s2 Hc2. cbn. destruct (din (cache s2) i) eqn:Hd.
  - split; [by apply cache_ok_del|]. intros j. unfold free, spare. cbn. rewrite din_ddel by apply Hc2.
    case_decide; [subst; rewrite Hd|]; lia.
  - rewrite put_cache_same. by split.
Qed.

Lemma pending_spare s h kw : accounted s → dget (cache s) h = Some kw → 1 <= spare h s.
Proof.
  intros Hac Hh. pose proof (ac_free _ Hac h) as Hf. unfold free, din in Hf. rewrite Hh in Hf. lia.
Qed.

Lemma expire_ok cb s :
  (∀ i kw s, accounted s → entry_ok i kw → 1 <= spare i s →
     accounted (cb i kw s).2 ∧ ∀ j, j ≠ i → spare j s <= spare j (cb i kw s).2) →
  accounted s → accounted (expire cb s).2.
Proof.
  intros Hcb' Hac. rewrite expire_eq. apply expire_items_ok; [done|apply Hac| |done].
  intros i kw Hi. apply elem_of_dget in Hi; [|apply Hac].
  split; [by apply Hac|by eapply pending_spare].
Qed.

(** ** The calls of the engine keep account *)
Abbreviation receiveMessage := (Dispatcher.receiveMessage subsystems timerTicks sendMessage
  processResponsePdu processPdu runDeferred counters put_counters).
Abbreviation receiveTimerTick := (Dispatcher.receiveTimerTick subsystems timerTicks processResponsePdu).
Abbreviation receiveTransportError :=
  (Dispatcher.receiveTransportError subsystems timerTicks processResponsePdu).

Lemma receiveTimerTick_ok s : accounted s → accounted (receiveTimerTick s).2.
Proof. apply expire_ok. intros i kw s' Hac He Hi. by apply expireRequest_ok. Qed.

Lemma receiveTransportError_ok transport descr s :
  accounted s → accounted (receiveTransportError transport descr s).2.
Proof.
  apply expire_ok. intros i kw s' Hac He Hi.
  destruct (negb _); [done|]. destruct (negb _); [done|]. by apply expireRequest_ok.
Qed.

(** Taking a pending request out of the cache leaves a callback to spare. *)
Lemma pop_ok h s kw : accounted s → dget (cache s) h = Some kw →
  let s1 := (on_cache (Dsp.pop h) s).2 in accounted s1 ∧ entry_ok h kw ∧ 1 <= free h s1.
Proof.
  intros Hac Hh. destruct (popped h s (ac_cache _ Hac)) as (_ & Hp & Ht & _).
  split; [by apply polite_accounted; [apply polite_pop|]|]. split; [by apply Hac|].
  pose proof (pending_spare s h kw Hac Hh). unfold free, spare in *. rewrite Hp, Ht. lia.
Qed.

Lemma answer_ok h e s : accounted s →
  accounted (answer processResponsePdu counters put_counters h e s).2.
Proof.
  intros Hac. unfold answer, mbind, M_bind. destruct (popped h s (ac_cache _ Hac)) as (Hp & _).
  pose proof (pop_ok h s) as Hpop. cbn in Hpop.
  assert (Hac1 : accounted (on_cache (Dsp.pop h) s).2) by (apply polite_accounted; [apply polite_pop|done]).
  destruct (on_cache (Dsp.pop h) s) as [r s1]. cbn in *. subst r.
  destruct (dget (cache s) h) as [kw|].
  - destruct (Hpop kw Hac eq_refl) as (_ & He & Hf). by apply (call_back_ok h).
  - apply polite_accounted; [apply polite_count|done].
Qed.

Lemma refused_ok x m s : accounted s →
  refused subsystems timerTicks processResponsePdu counters put_counters x = Some m → accounted (m s).2.
Proof.
  intros Hac. unfold refused. destruct x as [|st| | | | | | | | | | | | | |].
  2:{ intros [= <-]. destruct (st_sendPduHandle st) as [h|]; [|done].
      unfold mbind, M_bind. destruct (popped h s (ac_cache _ Hac)) as (Hp & _).
      pose proof (pop_ok h s) as Hpop. cbn in Hpop.
      assert (Hac1 : accounted (on_cache (Dsp.pop h) s).2)
        by (apply polite_accounted; [apply polite_pop|done]).
      destruct (on_cache (Dsp.pop h) s) as [r s1]. cbn in *. subst r.
      destruct (dget (cache s) h) as [kw|].
      - destruct (Hpop kw Hac eq_refl) as (_ & He & Hf). pose proof (spare_free h s1).
        destruct (expireRequest_ok h kw (Some st) s1 Hac1 He) as [Hac2 _]; [lia|].
        by destruct (expireRequest (Some kw) (Some st) s1) as [[b|e] s2].
      - unfold Dispatcher.expireRequest, Dispatcher.getTimerTicks. munfold.
        by destruct (timerTicks (rest s1)). }
  all: destruct (is_PyAsn1Error _); [|done]; intros [= <-];
    apply polite_accounted; [apply polite_count|done].
Qed.

Lemma polite_try_finally {A} (m : W A) last : polite m → (∀ r, polite (last r)) →
  polite (try_finally m last).
Proof.
  intros Hm Hl s Hc. unfold try_finally. destruct (Hm s Hc) as [Hc1 Hg1].
  destruct (m s) as [[a|e] s1]; cbn in *.
  - destruct (polite_bind _ (last (Some a)) (λ _, mret a) (Hl _) (λ _, polite_ret _ a) s1 Hc1) as [Hc2 Hg2].
    split; [done|]. by etrans.
  - destruct (polite_bind _ (last None) (λ _, raise (A:=A) e) (Hl _) (λ _, polite_raise _ e) s1 Hc1)
      as [Hc2 Hg2].
    split; [done|]. by etrans.
Qed.
Lemma polite_set_info r transport : polite (set_info r transport).
Proof. destruct r; [by apply polite_same|apply polite_ret]. Qed.
Lemma polite_pop_info r : polite (pop_info r).
Proof. destruct r; [by apply polite_same|apply polite_ret]. Qed.
Lemma polite_del_info r : polite (del_info r).
Proof.
  destruct r as [r|]; [|apply polite_ret]. apply polite_bind; [apply polite_gets|].
  intros i. destruct (i !! r); [by apply polite_same|apply polite_raise].
Qed.
#[local] Hint Resolve polite_set_info polite_pop_info polite_del_info : polite.

Lemma polite_completeRequest d transport r : polite (completeRequest await d transport r).
Proof. apply polite_bind; [auto with polite|]. intros _. apply polite_try_finally; auto with polite. Qed.

Lemma polite_serve app transport e : polite (serve timerTicks processPdu runDeferred app transport e).
Proof.
  apply polite_bind; [auto with polite|]. intros _. apply polite_bind.
  - apply polite_try_finally; [apply Happ|]. intros [[d|]|]; auto with polite.
  - intros [d|]; [|auto with polite]. apply polite_bind; [auto with polite|]. intros t.
    destruct (timerTicks t).
    + apply polite_try; [auto with polite|]. intros x k [= <-].
      apply polite_bind; [apply polite_pop_info|auto with polite].
    + apply polite_bind; [apply polite_pop_info|auto with polite].
Qed.

Lemma polite_report_unknown mp e : polite (report_unknown (Cb:=Cb) (Ctx:=Ctx) (App:=App)
  timerTicks sendMessage counters put_counters mp e).
Proof.
  apply polite_bind; [auto with polite|]. intros _. apply polite_bind; [auto with polite|]. intros v.
  apply polite_try.
  - apply polite_bind; [auto with polite|]. intros r. apply polite_bind; [auto with polite|]. intros t.
    destruct (timerTicks t); auto with polite.
  - intros x k. destruct (is_PySnmpError x); [|done]. intros [= <-]. auto with polite.
Qed.

Lemma receiveMessage_ok decodeVersion transport wholeMsg s :
  accounted s → accounted (receiveMessage decodeVersion transport wholeMsg s).2.
Proof.
  intros Hac. unfold Dispatcher.receiveMessage, mbind, M_bind.
  pose proof (polite_accounted _ s (polite_count snmpInPkts) Hac) as Hac1.
  destruct (count snmpInPkts s) as [[[]|x] s1]; cbn in Hac1; [|done].
  destruct (decodeMessageVersion decodeVersion wholeMsg) as [v|x].
  2:{ destruct (is_ProtocolError x); [|done]. by apply polite_accounted; [apply polite_count|]. }
  destruct (subsystems v) as [mp|]; [|by apply polite_accounted; [apply polite_count|]].
  unfold process_message.
  pose proof (polite_accounted _ s1 (polite_on_rest (mp_prepareDataElements mp transport wholeMsg)) Hac1)
    as Hac2.
  destruct (on_rest _ s1) as [[e|x] s2]; cbn in Hac2.
  - unfold dispatch. destruct (e_sendPduHandle e); [by apply answer_ok|]. munfold.
    destruct (getRegisteredApp _ _ _).
    + by apply polite_accounted; [apply polite_serve|].
    + by apply polite_accounted; [apply polite_report_unknown|].
  - destruct (refused _ _ _ _ _ x) as [m|] eqn:Hx; [|done]. by eapply refused_ok.
Qed.

(** ** Everything that happens to a dispatcher *)
Inductive call : Type :=
  | CSend (q : request Cb Ctx) (p : v1_pdu)
  | CReturn (r : response) (p : option v1_pdu)
  | CReceive (decodeVersion : octets → result exn (option Z)) (transport : origin) (wholeMsg : octets)
  | CTick
  | CTransportError (transport : origin) (descr : string)
  | CComplete (d : Aw) (transport : origin) (stateReference : option Z)
  | CRegister (contextEngineId : octets) (pduTypes : list pdu_tag) (app : App)
  | CUnregister (contextEngineId : option octets) (pduTypes : list pdu_tag)
  | CRelease (sendPduHandle messageProcessingModel : Z)
  | CBelow (f : T → T).

(** The state a call leaves, whether it returns or raises; [CBelow] is whatever
    the engine does below the dispatcher. *)
Definition perform (c : call) s : state :=
  match c with
  | CSend q p => (sendPdu q (s, p)).2.1
  | CReturn r p => (returnResponsePdu subsystems timerTicks sendMessage counters put_counters
                      snmpEngineMaxMessageSize r (s, p)).2.1
  | CReceive dec transport wholeMsg => (receiveMessage dec transport wholeMsg s).2
  | CTick => (receiveTimerTick s).2
  | CTransportError transport descr => (receiveTransportError transport descr s).2
  | CComplete d transport ref => (completeRequest await d transport ref s).2
  | CRegister e ts app => (registerContextEngineId e ts app s).2
  | CUnregister e ts => (unregisterContextEngineId e ts s).2
  | CRelease h m => (release h m s).2
  | CBelow f => put_rest (f (rest s)) s
  end.

Inductive reachable : state → Prop :=
  | reach_init g t : reachable (mk_state [] ∅ g ∅ [] t)
  | reach_call c s : reachable s → reachable (perform c s).

Lemma perform_ok c s : accounted s → accounted (perform c s).
Proof.
  intros Hac. destruct c; cbn [perform].
  - destruct (polite_sendPdu q (s, p) (ac_cache _ Hac)) as [Hc Hg]. split; [done|].
    intros h. pose proof (ac_free _ Hac h). specialize (Hg h). cbn in Hg. lia.
  - destruct (polite_returnResponsePdu r (s, p) (ac_cache _ Hac)) as [Hc Hg]. split; [done|].
    intros h. pose proof (ac_free _ Hac h). specialize (Hg h). cbn in Hg. lia.
  - by apply receiveMessage_ok.
  - by apply receiveTimerTick_ok.
  - by apply receiveTransportError_ok.
  - by apply polite_accounted; [apply polite_completeRequest|].
  - by apply polite_accounted; [apply polite_registerContextEngineId|].
  - by apply polite_accounted; [apply polite_unregisterContextEngineId|].
  - by apply polite_accounted; [apply polite_release|].
  - destruct Hac as [[] Hf]. by split; [split|].
Qed.

Lemma reachable_accounted s : reachable s → accounted s.
Proof.
  induction 1 as [g t|c s _ IH]; [|by apply perform_ok].
  split; [by split; [apply NoDup_nil_2|]|]. intros h. done.
Qed.

(** C2. Whatever happens to the dispatcher --- requests are sent or fail, messages
    of any content arrive, the timer ticks, a peer is lost, applications come and
    go, requests are cancelled, and callbacks and applications send requests in
    turn --- the callbacks made for a handle never outnumber the requests issued
    under it, and there is still one to spare for a request that is pending; what
    is remembered of it is complete. *)
Theorem callbacks_are_accounted s h : reachable s →
  called h (trace s) <= issued h (trace s) ∧
  ∀ kw, dget (cache s) h = Some kw →
    called h (trace s) + 1 <= issued h (trace s) ∧ entry_ok h kw.
Proof.
  intros Hs%reachable_accounted. pose proof (ac_free _ Hs h). pose proof (spare_free h s).
  unfold spare in *. split; [lia|]. intros kw Hh. pose proof (pending_spare s h kw Hs Hh).
  unfold spare in *. split; [lia|]. by apply Hs.
Qed.
End accounting.

(** ** Sending *)

(** What is remembered of a request that was sent at the tick [now] *)
Definition entry (q : request Cb Ctx) (h now : Z) : kwargs := list_to_map [
    ("messageProcessingModel"%string, ANum (o_messageProcessingModel (q_outgoing q)));
    ("sendPduHandle"%string, ANum h); ("timeout"%string, ANum (q_timeout q + now));
    ("cbFun"%string, ACb (q_cbFun q)); ("cbCtx"%string, ACtx (q_cbCtx q))].

Lemma dset_fresh (d : dict Z kwargs) h kw : dget d h = None → dset d h kw = d ++ [(h, kw)].
Proof.
  induction d as [|[i kw'] d IH]; cbn; [done|]. case_decide; [done|]. intros. by rewrite IH.
Qed.
Lemma pop_fresh s h : dget (cache s) h = None → on_cache (Dsp.pop h) s = (Ok None, s).
Proof. intros Hh. unfold on_cache, zoom, Dsp.pop. rewrite Hh. by rewrite put_cache_same. Qed.
Lemma pop_added s s0 h kw : cache s = dset (cache s0) h kw → dget (cache s0) h = None →
  on_cache (Dsp.pop h) s = (Ok (Some kw), put_cache (cache s0) s).
Proof.
  intros Hc Hh. unfold on_cache, zoom, Dsp.pop. rewrite Hc, dget_dset_eq. by rewrite ddel_dset_fresh.
Qed.
Lemma release_fresh s h m : dget (cache s) h = None → cache (release h m s).2 = cache s.
Proof.
  intros Hh. unfold Dispatcher.releaseStateInformation.
  assert (Hm : cache ((match subsystems m with
    | Some mpHandler => on_rest (mp_releaseStateInformation mpHandler h) | None => mret tt end) s).2 = cache s).
  { destruct (subsystems m); [|done]. unfold on_rest, zoom. by destruct (mp_releaseStateInformation _ _ _). }
  unfold mbind, M_bind. destruct (match subsystems m with Some _ => _ | None => _ end) as [[[]|x] s1] eqn:E;
    rewrite E in Hm || idtac; cbn in Hm; [|done].
  rewrite (pop_fresh s1) by (by rewrite Hm). done.
Qed.

(** The request goes out: the model gives the octets [wholeMsg], the transport
    takes them, and the caller's PDU becomes [p']. *)
Definition goes_out (q : request Cb Ctx) h s (p : v1_pdu) (t2 : T) (p' : v1_pdu) : Prop :=
  ∃ mp transport wholeMsg t1,
    subsystems (o_messageProcessingModel (q_outgoing q)) = Some mp ∧
    mp_prepareOutgoingMessage mp (q_outgoing q) h (rest s, p) = (Ok (transport, wholeMsg), (t1, p')) ∧
    is_Some (timerTicks t1) ∧ sendMessage wholeMsg transport t1 = (Ok tt, t2).

(** The first half: the state in which the model is asked for the message *)
Definition remembered (q : request Cb Ctx) h s s1 : Prop :=
  if o_expectResponse (q_outgoing q) then
    ∃ now, timerTicks (rest s) = Some now ∧
      cache s1 = dset (cache s) h (entry q h now) ∧ trace s1 = trace s ++ [Issued h]
  else cache s1 = cache s ∧ trace s1 = trace s.

Abbreviation if_expecting q m := (if o_expectResponse (q_outgoing q) then m;; mret tt else mret tt).

Lemma forget_ok q h s s1 : remembered q h s s1 → dget (cache s) h = None →
  wp (if_expecting q (on_cache (Dsp.pop h))) (λ r s2, r = Ok tt ∧ cache s2 = cache s) s1.
Proof.
  unfold remembered. intros Hr Hh. destruct (o_expectResponse _); [|by destruct Hr].
  destruct Hr as (now & _ & Hc & _). unfold wp. munfold. by rewrite (pop_added s1 s h _ Hc Hh).
Qed.
Lemma forget_and_release_ok q h m s s1 : remembered q h s s1 → dget (cache s) h = None →
  wp (if_expecting q (on_cache (Dsp.pop h);; release h m)) (λ _ s2, cache s2 = cache s) s1.
Proof.
  unfold remembered. intros Hr Hh. destruct (o_expectResponse _); [|by destruct Hr].
  destruct Hr as (now & _ & Hc & _). unfold wp. munfold. rewrite (pop_added s1 s h _ Hc Hh).
  pose proof (release_fresh (put_cache (cache s) s1) h m Hh) as Hrel. cbn in Hrel.
  by destruct (release _ _ _) as [[[]|x] s2].
Qed.

Lemma remember_ok q h s :
  wp (if_expecting q (remember h q)) (λ r s1,
    match r with
    | Ok _ => remembered q h s s1 ∧ rest s1 = rest s
    | Err e => cache s1 = cache s ∧ is_PySnmpError e = false
    end) s.
Proof.
  unfold remembered, wp. destruct (o_expectResponse _); [|done].
  unfold Dispatcher.remember, Dispatcher.getTimerTicks, emit, on_cache, zoom, Dsp.add. munfold.
  destruct (timerTicks (rest s)) as [now|]; [|done]. cbn. split; [|done]. by exists now.
Qed.

Lemma wp_on_dispatcher {A} (m : W A) Q (x : state * v1_pdu) :
  wp m (λ r s, Q r (s, x.2)) x.1 → wp (on_state m) Q x.
Proof. apply (wp_zoom fst (λ s (x : state * v1_pdu), (s, x.2))). Qed.
Lemma wp_on_rest {A} (m : M exn T A) Q s :
  wp m (λ r t, Q r (put_rest t s)) (rest s) → wp (on_rest m) Q s.
Proof. apply wp_zoom. Qed.

(** C6. A request either goes out and is pending under the next handle with its
    parameters, its callback and its deadline, or fails; where it fails with a
    [PySnmpError] --- it is refused by the message processing model, by the transport,
    or for want of a transport --- nothing is left of it among the pending requests.
    The code catches no other exception there, and nothing is claimed of one: such a
    failure can leave the request pending. *)
Theorem send_is_all_or_nothing q s p r x h :
  (NextId.call (handles s)).1 = Ok h → dget (cache s) h = None → sendPdu q (s, p) = (r, x) →
  match r with
  | Ok h' => h' = h ∧ goes_out q h s p (rest x.1) x.2 ∧
      if o_expectResponse (q_outgoing q) then
        ∃ now, timerTicks (rest s) = Some now ∧
          cache x.1 = cache s ++ [(h, request_args q x.2 ∪ entry q h now)] ∧
          trace x.1 = trace s ++ [Issued h]
      else cache x.1 = cache s ∧ trace x.1 = trace s
  | Err e => is_PySnmpError e = true → cache x.1 = cache s
  end.
Proof.
  intros Hid Hh Hrun. wp_of Hrun. unfold Dispatcher.sendPdu.
  destruct (subsystems (o_messageProcessingModel (q_outgoing q))) as [mp|] eqn:Hmp; [|by wp_steps].
  wp_step. apply wp_on_dispatcher, wp_zoom. unfold wp at 1. cbn [fst]. rewrite Hid.
  wp_step. apply wp_on_dispatcher. eapply wp_mono; [apply remember_ok|]. cbn beta.
  intros [[]|e] s1; [|intros [Hc He] He'; congruence]. intros [Hrem Hrest]. change (rest s1 = rest s) in Hrest.
  assert (Hkeep : ∀ t, remembered q h s (put_rest t s1)) by (intros; exact Hrem). clear Hrem.
  assert (Hforget : ∀ e t p, wp (on_state (if_expecting q (on_cache (Dsp.pop h))))
    (λ r x, r = Ok tt ∧ (is_PySnmpError e = true → cache x.1 = cache s)) (put_rest t s1, p : v1_pdu)).
  { intros e t p0. apply wp_on_dispatcher. eapply wp_mono; [apply (forget_ok q h s); [apply Hkeep|done]|]. by intros ? ? [-> ?]. }
  wp_step. apply wp_try, wp_zoom. unfold wp at 1. cbn [fst snd]. rewrite Hrest.
  destruct (mp_prepareOutgoingMessage mp (q_outgoing q) h (rest s, p)) as [[[tr w]|e] [t1 p1]] eqn:Hprep;
    cbn [fst snd].
  2:{ destruct (is_PySnmpError e) eqn:He; [|done].
      wp_step. apply wp_on_dispatcher. eapply wp_mono; [apply (forget_and_release_ok q h _ s); [apply Hkeep|done]|].
      by intros [[]|e'] s2 Hc; [wp_step|]. }
  do 2 wp_step. cbn [rest put_rest fst]. destruct (timerTicks t1) as [now1|] eqn:Hnow1.
  2:{ wp_step. eapply wp_mono; [apply (Hforget (PySnmpError ""))|]. intros r2 y [-> Hc]. wp_step. by apply Hc. }
  wp_step. apply wp_try, wp_on_dispatcher, wp_on_rest. unfold wp at 1. cbn [fst snd rest put_rest].
  destruct (sendMessage w tr t1) as [[[]|e] t2] eqn:Hsend; cbn [fst snd].
  2:{ destruct (is_PySnmpError e) eqn:He; [|done].
      wp_step. eapply wp_mono; [apply (Hforget e)|]. intros r2 y [-> Hc]. wp_step. by apply Hc. }
  assert (Hout : goes_out q h s p t2 p1) by (by exists mp, tr, w, t1).
  do 3 wp_step. apply wp_on_dispatcher. cbn [fst snd]. specialize (Hkeep t2). unfold remembered, wp in *.
  destruct (o_expectResponse (q_outgoing q)); munfold; [|by split_and!; try apply Hkeep].
  destruct Hkeep as (now & Hnow & Hc & Ht). unfold on_cache, zoom, Dsp.update. cbn in *.
  rewrite Hc, dget_dset_eq. cbn. split_and!; try done. exists now.
  split_and!; try done. by rewrite dset_dset, dset_fresh.
Qed.

(** The state in which a request that expects a response leaves the dispatcher *)
Lemma send_forward q s p mp tr w t1 p' t2 h g now now1 :
  subsystems (o_messageProcessingModel (q_outgoing q)) = Some mp → NextId.call (handles s) = (Ok h, g) →
  o_expectResponse (q_outgoing q) = true → timerTicks (rest s) = Some now → dget (cache s) h = None →
  mp_prepareOutgoingMessage mp (q_outgoing q) h (rest s, p) = (Ok (tr, w), (t1, p')) →
  timerTicks t1 = Some now1 → sendMessage w tr t1 = (Ok tt, t2) →
  sendPdu q (s, p) =
    (Ok h, (mk_state (cache s ++ [(h, request_args q p' ∪ entry q h now)]) (appsRegistration s) g
              (transportInfo s) (trace s ++ [Issued h]) t2, p')).
Proof.
  intros Hmp Hid Hexp Hnow Hh Hprep Hnow1 Hsend. unfold Dispatcher.sendPdu. rewrite Hmp, Hexp.
  unfold Dispatcher.remember, Dispatcher.getTimerTicks, emit, on_state, on_rest, on_rest_pdu, on_cache,
    Dsp.add, Dsp.update. munfold. rewrite Hid. cbn [fst snd rest put_handles put_cache put_trace cache]. rewrite Hnow.
  cbn [fst snd rest put_handles put_cache put_trace cache trace]. rewrite Hprep. cbn [fst snd rest put_rest].
  rewrite Hnow1. cbn [rest put_rest fst snd]. rewrite Hsend.
  cbn [fst snd rest put_rest put_handles put_cache put_trace cache trace appsRegistration handles transportInfo].
  rewrite dget_dset_eq. by rewrite dset_dset, dset_fresh.
Qed.

(** What is remembered of a request that was sent *)
Lemma entry_sent q h now p :
  entry_ok h (request_args q p ∪ entry q h now) ∧
  get_cb (request_args q p ∪ entry q h now) = Ok (q_cbFun q) ∧
  get_ctx (request_args q p ∪ entry q h now) = Ok (q_cbCtx q).
Proof.
  split; [apply entry_ok_args, entry_ok_remember|].
  unfold get_cb, get_ctx. rewrite !lookup_union_r by reflexivity. done.
Qed.
Lemma sent_entry (d : dict Z kwargs) h kw : dget d h = None →
  dget (d ++ [(h, kw)]) h = Some kw ∧ ddel (d ++ [(h, kw)]) h = d.
Proof.
  intros Hd. rewrite <- (dset_fresh d h kw) by done. split; [apply dget_dset_eq|by apply ddel_dset_fresh].
Qed.

(** ** Receiving a response *)
Section deliver.
Context (decodeVersion : octets → result exn (option Z)).

(** The message, once it is counted, decodes to [e] and leaves [t]. *)
Definition decodes (transport : origin) (wholeMsg : octets) s (e : elements v1_pdu) (t : T) : Prop :=
  ∃ v mp, decodeMessageVersion decodeVersion wholeMsg = Ok v ∧ subsystems v = Some mp ∧
    mp_prepareDataElements mp transport wholeMsg (rest (count snmpInPkts s).2) = (Ok e, t).

Lemma received transport wholeMsg s e t : decodes transport wholeMsg s e t →
  ∃ mp, Dispatcher.receiveMessage subsystems timerTicks sendMessage processResponsePdu processPdu
    runDeferred counters put_counters decodeVersion transport wholeMsg s =
  dispatch timerTicks sendMessage processResponsePdu processPdu runDeferred counters put_counters
    mp transport e (put_rest t s).
Proof.
  intros (v & mp & Hv & Hmp & He). exists mp.
  unfold Dispatcher.receiveMessage, mbind at 1, M_bind at 1.
  change (count snmpInPkts s) with (@Ok exn _ tt, put_rest (rest (count snmpInPkts s).2) s).
  cbn iota beta. rewrite Hv, Hmp. unfold process_message, on_rest, zoom. cbn [rest put_rest].
  by rewrite He.
Qed.

Lemma response_delivered transport wholeMsg s e t h : (∀ kw, dget (cache s) h = Some kw → entry_ok h kw) →
  decodes transport wholeMsg s e t → e_sendPduHandle e = Some h →
  Dispatcher.receiveMessage subsystems timerTicks sendMessage processResponsePdu processPdu runDeferred
    counters put_counters decodeVersion transport wholeMsg s =
  match dget (cache s) h with
  | Some kw =>
      let s1 := put_trace (trace s ++ [Called h (Answered e)])
                  (put_cache (ddel (cache s) h) (put_rest t s)) in
      match get_cb kw, get_ctx kw with
      | Ok (Some f), Ok c => processResponsePdu f c h (Answered e) s1
      | _, _ => (Err TypeError, s1)
      end
  | None => count snmpUnknownPDUHandlers (put_rest t s)
  end.
Proof.
  intros Hc Hd Hh. destruct (received _ _ _ _ _ Hd) as [mp ->].
  unfold dispatch, answer. rewrite Hh. unfold mbind at 1, M_bind at 1, on_cache, zoom, Dsp.pop.
  cbn [cache put_rest]. destruct (dget (cache s) h) as [kw|] eqn:Hkw.
  - destruct (Hc kw eq_refl) as [Eh _ _ [f Ef] [c Ec]].
    unfold Dispatcher.call_back, emit. munfold. rewrite Ef, Eh, Ec. cbn. by destruct f.
  - by destruct s.
Qed.

(** C7. A response to a pending request is handed to the callback of that request,
    with its context and its handle, and the request is no longer pending when the
    callback runs; a response to no pending request --- a second one, or one that
    comes after the timeout --- is counted and reaches no callback. *)
Theorem response_goes_to_its_request transport wholeMsg s e t h : cache_ok s →
  decodes transport wholeMsg s e t → e_sendPduHandle e = Some h →
  Dispatcher.receiveMessage subsystems timerTicks sendMessage processResponsePdu processPdu runDeferred
    counters put_counters decodeVersion transport wholeMsg s =
  match dget (cache s) h with
  | Some kw =>
      let s1 := put_trace (trace s ++ [Called h (Answered e)])
                  (put_cache (ddel (cache s) h) (put_rest t s)) in
      match get_cb kw, get_ctx kw with
      | Ok (Some f), Ok c => processResponsePdu f c h (Answered e) s1
      | _, _ => (Err TypeError, s1)
      end
  | None => count snmpUnknownPDUHandlers (put_rest t s)
  end.
Proof. intros Hc. apply response_delivered. apply Hc. Qed.
End deliver.

(** ** Timeouts *)
Definition calls_of (t : list event) : list (Z * outcome) :=
  omap (λ e, match e with Called h o => Some (h, o) | Issued _ => None end) t.
(** The requests that are due at the tick [now], in the order they were sent *)
Definition is_due (now : Z) (x : Z * kwargs) : bool :=
  match get_num x.2 "timeout" with Ok t => t <=? now | Err _ => false end.
Definition due (now : Z) (r : dict Z kwargs) : list Z := (filter (λ x, is_due now x = true) r).*1.

(** What the parts below the dispatcher keep true *)
Section timeouts.
Context (Inv : T → Prop).

(** A call that returns, makes no callbacks, lets no time pass, and makes only
    requests pending that it issues *)
Definition quiet {A} (m : W A) : Prop := ∀ s, cache_ok s → Inv (rest s) → ∃ a s', m s = (Ok a, s') ∧
  timerTicks (rest s') = timerTicks (rest s) ∧ calls_of (trace s') = calls_of (trace s) ∧
  cache_ok s' ∧ Inv (rest s') ∧ ∀ h, issued h (trace s) <= issued h (trace s') ∧
    (din (cache s') h = true → din (cache s) h = true ∨ issued h (trace s) < issued h (trace s')).

Context (Hcb : ∀ f c h o, quiet (processResponsePdu f c h o))
        (Hrelease : ∀ m mp h, subsystems m = Some mp → ∀ t, Inv t → ∃ t',
           mp_releaseStateInformation mp h t = (Ok tt, t') ∧ timerTicks t' = timerTicks t ∧ Inv t').

Lemma release_quiet h m s : cache_ok s → Inv (rest s) → ∃ s', release h m s = (Ok tt, s') ∧
  timerTicks (rest s') = timerTicks (rest s) ∧ trace s' = trace s ∧ cache_ok s' ∧ Inv (rest s') ∧
  ∀ j, din (cache s') j = if decide (j = h) then false else din (cache s) j.
Proof.
  intros Hc Hi. unfold Dispatcher.releaseStateInformation.
  assert (Hm : ∃ t', (match subsystems m with
    | Some mpHandler => on_rest (mp_releaseStateInformation mpHandler h) | None => mret tt end) s =
      (@Ok exn _ tt, put_rest t' s) ∧ timerTicks t' = timerTicks (rest s) ∧ Inv t').
  { destruct (subsystems m) as [mp|] eqn:Hm; [|exists (rest s); by destruct s].
    destruct (Hrelease m mp h Hm (rest s) Hi) as (t' & Hr & Ht & Hi'). exists t'.
    unfold on_rest, zoom. by rewrite Hr. }
  destruct Hm as (t' & Hm & Ht & Hi'). unfold mbind at 1, M_bind at 1. rewrite Hm.
  assert (Hc1 : cache_ok (put_rest t' s)) by (by destruct Hc; split).
  destruct (polite_pop h _ Hc1) as [Hc2 _].
  unfold mbind, M_bind, on_cache, zoom, Dsp.pop in *. cbn [cache put_rest] in *.
  destruct (dget (cache s) h) as [kw|] eqn:Hh; eexists; (split; [done|]); cbn in *; split_and!; try done.
  - intros j. apply din_ddel, Hc.
  - intros j. case_decide; [subst; unfold din; by rewrite Hh|done].
Qed.

Lemma expireRequest_due i kw now s : cache_ok s → Inv (rest s) → timerTicks (rest s) = Some now → entry_ok i kw →
  (∃ f, get_cb kw = Ok (Some f)) →
  ∃ b s', Dispatcher.expireRequest subsystems timerTicks processResponsePdu (Some kw) None s =
      (Ok b, s') ∧ timerTicks (rest s') = Some now ∧ cache_ok s' ∧ Inv (rest s') ∧
    (if is_due now (i, kw) then b = true ∧ calls_of (trace s') = calls_of (trace s) ++ [(i, Failed (status_of requestTimedOut))]
     else b = false ∧ s' = s) ∧
    ∀ j, issued j (trace s) <= issued j (trace s') ∧
      (din (cache s') j = true → issued j (trace s) < issued j (trace s') ∨
         din (cache s) j = true ∧ ¬ (j = i ∧ is_due now (i, kw) = true)).
Proof.
  intros Hc Hi Hnow [Eh [m Em] [t Et] _ [c Ec]] [f Ef].
  unfold Dispatcher.expireRequest, Dispatcher.getTimerTicks, is_due. cbn [snd]. munfold.
  rewrite Hnow, Et, Ef, Eh, Em. destruct (Z.ltb_spec now t).
  { exists false, s. destruct (Z.leb_spec t now); [lia|]. split_and!; try done. intros j. split; [lia|].
    intros Hj. right. split; [done|]. by intros [_ ?]. }
  destruct (Z.leb_spec t now); [|lia]. destruct (release_quiet i m s Hc Hi) as (s1 & Hr & Hn1 & Ht1 & Hc1 & Hi1 & Hd1).
  rewrite Hr. unfold Dispatcher.call_back, emit. munfold. rewrite Ef, Eh, Ec.
  cbn [from_option default].
  set (s2 := put_trace (trace s1 ++ [Called i (Failed (status_of requestTimedOut))]) s1).
  destruct (Hcb f c i (Failed (status_of requestTimedOut)) s2) as ([] & s3 & Hf & Hn3 & Ht3 & Hc3 & Hi3 & Hd3); [by destruct Hc1; split|done|].
  rewrite Hf. exists true, s3. split_and!; try done.
  - rewrite Hn3. cbn. congruence.
  - rewrite Ht3. cbn. unfold calls_of. by rewrite omap_app, Ht1.
  - intros j. destruct (Hd3 j) as [Hle Hd]. cbn in *. rewrite issued_app, Ht1 in *. cbn in *.
    split; [lia|]. rewrite Hd1 in Hd. case_decide; [|naive_solver lia].
    intros Hj. left. destruct (Hd Hj); [done|lia].
Qed.

Lemma expire_items_due now items s : cache_ok s → Inv (rest s) → timerTicks (rest s) = Some now →
  (∀ i kw, (i, kw) ∈ items → entry_ok i kw ∧ ∃ f, get_cb kw = Ok (Some f)) →
  ∃ s', expire_items (λ _ kw, Dispatcher.expireRequest subsystems timerTicks processResponsePdu
           (Some kw) None) items s = (Ok tt, s') ∧ Inv (rest s') ∧
    calls_of (trace s') = calls_of (trace s) ++ ((., Failed (status_of requestTimedOut)) <$> due now items) ∧
    ∀ j, issued j (trace s) <= issued j (trace s') ∧
      (din (cache s') j = true → issued j (trace s) < issued j (trace s') ∨
         din (cache s) j = true ∧ j ∉ due now items).
Proof.
  revert s. induction items as [|[i kw] items IH]; intros s Hc Hi Hnow Hit.
  { exists s. split; [done|]. split; [done|]. split; [by rewrite app_nil_r|]. intros j. split; [done|]. set_solver. }
  cbn [expire_items]. destruct (Hit i kw) as [He Hf]; [by left|].
  destruct (expireRequest_due i kw now s Hc Hi Hnow He Hf) as (b & s1 & Hr & Hn1 & Hc1 & Hi1 & Hb & Hd1).
  unfold mbind at 1, M_bind at 1. rewrite Hr.
  assert (Hnext : ∃ s2, (if b then modify (λ s, put_cache (if din (cache s) i then ddel (cache s) i
      else cache s) s) else mret tt) s1 = (@Ok exn _ tt, s2) ∧ cache_ok s2 ∧ rest s2 = rest s1 ∧
      trace s2 = trace s1 ∧ ∀ j, din (cache s2) j = true → din (cache s1) j = true).
  { destruct b; [|by exists s1]. eexists. split; [done|]. cbn. destruct (din (cache s1) i).
    - split_and!; [by apply cache_ok_del|done|done|]. intros j. rewrite din_ddel by apply Hc1.
      by case_decide.
    - split_and!; try done. by rewrite put_cache_same. }
  destruct Hnext as (s2 & Hs2 & Hc2 & Hr2 & Ht2 & Hd2). unfold mbind, M_bind. rewrite Hs2.
  destruct (IH s2) as (s3 & Hs3 & Hi3 & Ht3 & Hd3); [done|by rewrite Hr2|by rewrite Hr2|intros j kw' ?; apply Hit; by right|].
  exists s3. split; [done|]. rewrite Ht2 in Ht3, Hd3. unfold due in *. rewrite filter_cons.
  split; [done|]. split.
  - rewrite Ht3. destruct (is_due now (i, kw)) eqn:Hdue; [rewrite decide_True by done|rewrite decide_False by done]; destruct Hb as [-> Hb]; cbn;
      [by rewrite Hb, <- app_assoc|by subst].
  - intros j. destruct (Hd1 j) as [Hle1 Hj1], (Hd3 j) as [Hle3 Hj3]. split; [lia|]. intros Hj.
    destruct (Hj3 Hj) as [?|[Hp Hn]]; [left; lia|]. apply Hd2 in Hp.
    destruct (Hj1 Hp) as [?|[Hp' Hn']]; [left; lia|]. right. split; [done|].
    case_decide; cbn; [|done]. rewrite not_elem_of_cons. naive_solver.
Qed.

Lemma tick_reports s now : cache_ok s → Inv (rest s) → timerTicks (rest s) = Some now →
  (∀ h kw, dget (cache s) h = Some kw → ∃ f, get_cb kw = Ok (Some f)) →
  ∃ s', Dispatcher.receiveTimerTick subsystems timerTicks processResponsePdu s = (Ok tt, s') ∧
    Inv (rest s') ∧
    calls_of (trace s') =
      calls_of (trace s) ++ ((., Failed (status_of requestTimedOut)) <$> due now (cache s)) ∧
    ∀ h, h ∈ due now (cache s) → din (cache s') h = true → issued h (trace s) < issued h (trace s').
Proof.
  intros Hc Hi Hnow Hf. unfold Dispatcher.receiveTimerTick. rewrite expire_eq.
  destruct (expire_items_due now (cache s) s Hc Hi Hnow) as (s' & Hr & Hi' & Ht & Hd).
  { intros i kw Hin. apply elem_of_dget in Hin; [|apply Hc]. split; [by apply Hc|by eapply Hf]. }
  exists s'. split_and!; [exact Hr|done|done|]. intros h Hh Hp. destruct (Hd h) as [_ [?|[_ ?]]]; done.
Qed.
End timeouts.
End ops.
End spec.

(** ** An engine for the witnesses: a message is the handle of its request, the
    state below is the clock and the counters. *)
Record below : Type := mk_below { clock : option Z; mib : dict oid value; sent : list octets }.
Definition demo_elements (h : Z) : elements v1_pdu :=
  mk_elements 1 2 [97] 1 [128] [] 1 (V1Pdu (mk_pdu ResponsePDU 7 0 0 [])) ResponsePDU (Some h) 1400 None.
Definition demo_mp : mp_model below :=
  mk_mp_model
    (λ o h x, (Ok (o_transport o, [h]), x))
    (λ _ x, (Err (ProtocolError "no state"), x))
    (λ _ w t, (match w with [h] => Ok (demo_elements h) | _ => Err (PyAsn1Error "") end, t))
    (λ _ t, (Ok tt, t)).
Definition demo_subsystems (v : Z) : option (mp_model below) := if v =? 1 then Some demo_mp else None.
Definition demo_sendMessage (w : octets) (_ : origin) : M exn below unit :=
  modify (λ t, mk_below (clock t) (mib t) (sent t ++ [w])).
Definition demo_peer : origin := (Transport.snmpUDPDomain, Transport.Inet [10; 0; 0; 1] 161).
Definition demo_request (timeout : Z) : request unit unit :=
  mk_request (mk_outgoing demo_peer 1 2 [97] 1 None [] 1 true) timeout (Some tt) tt.
Definition demo_pdu : v1_pdu := V1Pdu (mk_pdu GetRequestPDU 7 0 0 []).
Abbreviation demo_state := (Dispatcher.state below unit unit unit).
(** A callback that sends the request again when it has failed *)
Definition demo_retry (_ _ : unit) (_ : Z) (o : outcome) : M exn demo_state unit :=
  match o with
  | Answered _ => mret tt
  | Failed _ =>
      zoom (λ s, (s, demo_pdu)) (λ x _, x.1)
        (sendPdu demo_subsystems clock demo_sendMessage (demo_request 10);; mret tt)
  end.
Definition demo_app (_ : unit) (_ : elements v1_pdu) : M exn demo_state (option unit) := mret None.
Definition demo_await (_ : unit) : M exn demo_state unit := mret tt.
Definition demo_defer (_ : unit) (_ : origin) (_ : option Z) : M exn below unit := mret tt.
Definition demo_put_mib (d : dict oid value) (t : below) : below := mk_below (clock t) d (sent t).
Definition demo_gen : NextId.Integer := NextId.mk_Integer 16777215 256 128 (NextId.range 0 256).
Definition demo_init : demo_state := mk_state [] ∅ demo_gen ∅ [] (mk_below (Some 0) [] []).
Definition demo_perform : @call below unit unit unit unit → demo_state → demo_state :=
  perform demo_subsystems clock demo_sendMessage demo_retry demo_app demo_await demo_defer mib
    demo_put_mib 65507.
(** Sent, timed out, sent again by the callback, answered *)
Definition demo_run : demo_state :=
  demo_perform (CReceive (λ _, Ok (Some 1)) demo_peer [1])
    (demo_perform CTick (demo_perform (CBelow (λ t, mk_below (Some 5) (mib t) (sent t)))
       (demo_perform (CSend (demo_request 4) demo_pdu) demo_init))).

Lemma demo_retry_polite f c h o : polite_on (λ s, s) (demo_retry f c h o).
Proof.
  destruct o as [e|st]; [apply polite_ret|]. intros s Hc. unfold demo_retry, zoom.
  destruct (polite_bind fst _ (λ _, mret tt) (polite_sendPdu demo_subsystems clock demo_sendMessage
    (demo_request 10)) (λ _, polite_ret fst tt) (s, demo_pdu) Hc) as [Hc' Hg].
  destruct ((sendPdu _ _ _ _ ≫= _) (s, demo_pdu)) as [r x]. done.
Qed.

Lemma callbacks_are_accounted_witness :
  trace demo_run = [Issued 0; Called 0 (Failed (status_of requestTimedOut)); Issued 1;
                    Called 1 (Answered (demo_elements 1))] ∧
  called 1 (trace demo_run) <= issued 1 (trace demo_run).
Proof.
  split; [vm_compute; reflexivity|].
  refine (proj1 (callbacks_are_accounted demo_subsystems clock demo_sendMessage demo_retry demo_app
    demo_await demo_defer mib demo_put_mib 65507 demo_retry_polite (λ _ _, polite_ret _ _)
    (λ _, polite_ret _ _) demo_run 1 _)).
  do 4 apply reach_call. apply reach_init.
Defined.

Definition demo_sent : result exn Z * (demo_state * v1_pdu) :=
  sendPdu demo_subsystems clock demo_sendMessage (demo_request 4) (demo_init, demo_pdu).
Lemma send_is_all_or_nothing_witness :
  goes_out demo_subsystems clock demo_sendMessage (demo_request 4) 0 demo_init demo_pdu
    (mk_below (Some 0) [] [[0]]) demo_pdu ∧ dkeys (cache demo_sent.2.1) = [0].
Proof.
  assert (Hr : demo_sent.1 = Ok 0) by (vm_compute; reflexivity).
  assert (H1 : (NextId.call (handles demo_init)).1 = Ok 0) by (vm_compute; reflexivity).
  pose proof (send_is_all_or_nothing demo_subsystems clock demo_sendMessage (demo_request 4) demo_init
    demo_pdu demo_sent.1 demo_sent.2 0 H1 eq_refl (surjective_pairing _)) as H.
  rewrite Hr in H. destruct H as (_ & H & _). split; [exact H|vm_compute; reflexivity].
Defined.

Definition demo_pending : demo_state := demo_sent.2.1.
Lemma demo_pending_ok : cache_ok demo_pending.
Proof.
  apply (polite_sendPdu demo_subsystems clock demo_sendMessage (demo_request 4) (demo_init, demo_pdu)).
  split; [apply NoDup_nil_2|done].
Qed.

Lemma response_goes_to_its_request_witness :
  (receiveMessage demo_subsystems clock demo_sendMessage demo_retry demo_app demo_defer mib demo_put_mib
     (λ _, Ok (Some 1)) demo_peer [0] demo_pending).1 = Ok tt ∧
  decodes demo_subsystems mib demo_put_mib (λ _, Ok (Some 1)) demo_peer [0] demo_pending
    (demo_elements 0) (mk_below (Some 0) [(snmpInPkts, VCounter32 1)] [[0]]).
Proof.
  assert (Hd : decodes demo_subsystems mib demo_put_mib (λ _, Ok (Some 1)) demo_peer [0] demo_pending
    (demo_elements 0) (mk_below (Some 0) [(snmpInPkts, VCounter32 1)] [[0]])).
  { exists 1, demo_mp. split_and!; reflexivity. }
  split; [|exact Hd].
  rewrite (response_goes_to_its_request demo_subsystems clock demo_sendMessage demo_retry demo_app
    demo_defer mib demo_put_mib (λ _, Ok (Some 1)) demo_peer [0] demo_pending (demo_elements 0) _ 0
    demo_pending_ok Hd eq_refl).
  reflexivity.
Defined.
End DispatcherSpec.
