(* ===== verification/Engine.v ===== *)
(** * The SNMP engine (src/pysnmp/entity/engine.py)

    [SnmpEngine] puts the subsystems together: the message processing models, each
    with its cache, over one table of security models, under one dispatcher.  The
    two community models share their tables; the user-based model reads the
    clocks. *)
From S2P Require Export Dispatcher MpV1 MpV3 UsmSpec.
Import Mp Dispatcher.
#[local] Open Scope Z_scope.

Module Engine.

(** ** The state below the dispatcher *)

(** What [time.time()] and the MIB give the user-based model *)
Record clocks : Type := mk_clocks { now : Z; snmpEngineBoots : Z; snmpEngineTime : Z }.

(** [securityModels]: the states of the three models and their tables.  Each
    counter is counted by one of the components, which keeps it. *)
Record security : Type := mk_security {
  secV1 : Community.Com;
  secV2c : Community.Com;
  communityLcd : Community.LCD;
  communityCounters : dict oid value;
  secUsm : Usm.state;
  secClocks : clocks;
}.

Abbreviation Mp1 := (MpCache.Cache MpV1.request MpV1.pending).
Abbreviation Mp3 := (MpV3.Mp3 Transport.address).

(** [messageProcessingSubsystems], and the MIB counters of the message processing
    models and of the dispatcher *)
Record below : Type := mk_below {
  mpV1 : Mp1;
  mpV2c : Mp1;
  mpV3 : Mp3;
  sec : security;
  mpCounters : dict oid value;
  dspCounters : dict oid value;
  ticks : option Z;
}.

Definition put_usm (u : Usm.state) (s : security) : security :=
  mk_security (secV1 s) (secV2c s) (communityLcd s) (communityCounters s) u (secClocks s).
Definition get_v1 (s : security) : Community.state :=
  Community.mk_state (secV1 s) (communityLcd s) (communityCounters s).
Definition put_v1 (c : Community.state) (s : security) : security :=
  mk_security (Community.com c) (secV2c s) (Community.lcd c) (Community.counters c) (secUsm s)
    (secClocks s).
Definition get_v2c (s : security) : Community.state :=
  Community.mk_state (secV2c s) (communityLcd s) (communityCounters s).
Definition put_v2c (c : Community.state) (s : security) : security :=
  mk_security (secV1 s) (Community.com c) (Community.lcd c) (Community.counters c) (secUsm s)
    (secClocks s).

(** The worlds of the message processing models *)
Definition world_v1 (b : below) : Mp.world Mp1 security unit :=
  Mp.mk_world (mpV1 b) (sec b) (mpCounters b) tt.
Definition put_world_v1 (w : Mp.world Mp1 security unit) (b : below) : below :=
  mk_below (Mp.mp w) (mpV2c b) (mpV3 b) (Mp.sec w) (Mp.counters w) (dspCounters b) (ticks b).
Definition world_v2c (b : below) : Mp.world Mp1 security unit :=
  Mp.mk_world (mpV2c b) (sec b) (mpCounters b) tt.
Definition put_world_v2c (w : Mp.world Mp1 security unit) (b : below) : below :=
  mk_below (mpV1 b) (Mp.mp w) (mpV3 b) (Mp.sec w) (Mp.counters w) (dspCounters b) (ticks b).
(** The SNMPv3 model calls the dispatcher, so the rest of the engine is around it. *)
Definition world_v3 (b : below) : Mp.world Mp3 security below :=
  Mp.mk_world (mpV3 b) (sec b) (mpCounters b) b.
Definition unworld_v3 (w : Mp.world Mp3 security below) : below :=
  let b := Mp.env w in
  mk_below (mpV1 b) (mpV2c b) (Mp.mp w) (Mp.sec w) (Mp.counters w) (dspCounters b) (ticks b).
Definition put_dspCounters (d : dict oid value) (b : below) : below :=
  mk_below (mpV1 b) (mpV2c b) (mpV3 b) (sec b) (mpCounters b) d (ticks b).
Definition put_sec (s : security) (b : below) : below :=
  mk_below (mpV1 b) (mpV2c b) (mpV3 b) s (mpCounters b) (dspCounters b) (ticks b).

(** A security model on its part of the state *)
Definition zoom_model {S T Msg Par Sc} (get : T → S) (put : S → T → T)
    (m : security_model S Msg Par Sc) : security_model T Msg Par Sc :=
  mk_security_model
    (λ g x y e n l p, zoom get put (sm_generateRequestMsg m g x y e n l p))
    (λ g x y e n l p r, zoom get put (sm_generateResponseMsg m g x y e n l p r))
    (λ x p y l w g, zoom get put (sm_processIncomingMsg m x p y l w g))
    (λ r, zoom get put (sm_releaseStateInformation m r)).

(** ** What an engine is built with *)

(** The libraries: hashes and ciphers, the codecs of the two kinds of messages and
    of their version field, the order in which Python goes through a set *)
Record library : Type := mk_library {
  l_hashlib : hashlib;
  l_ciphers : cipherbackend;
  l_codec : V3.codec;
  l_encodeMessage : Community.Message → result exn octets;
  l_decodeMessage : octets → result exn (option Community.Message);
  l_decodeVersion : octets → result exn (option Z);
  l_identities_order : list Community.identity → list Community.identity;
  l_tags_order : list octets → list octets;
}.
(** The engine's own: [snmpEngineID], [snmpEngineMaxMessageSize],
    [enableLegacyVersions]; the timer resolution of its transport dispatcher and its
    [sendMessage]; how the MIB creates the row of a cloned user *)
Record config : Type := mk_config {
  e_snmpEngineID : octets;
  e_snmpEngineMaxMessageSize : Z;
  e_enableLegacyVersions : bool;
  e_timerResolution : option (Z * Z);
  e_sendMessage : octets → origin → M exn below unit;
  e_createRow : oid → M exn Usm.LCD unit;
}.

Section engine.
Context (L : library) (E : config).

(** ** [securityModels] *)

(** The user-based model with the clocks of the moment *)
Definition usm_at (s : security) : security_model Usm.state V3.SNMPv3Message octets scoped_pdu :=
  let k := secClocks s in
  UsmModel.usm_model (l_hashlib L) (l_ciphers L) (l_codec L) (now k) (snmpEngineBoots k) (snmpEngineTime k) (e_timerResolution E) (e_createRow E).
Definition usm : security_model security V3.SNMPv3Message octets scoped_pdu :=
  mk_security_model
    (λ g x y e n l p s, zoom secUsm put_usm (sm_generateRequestMsg (usm_at s) g x y e n l p) s)
    (λ g x y e n l p r s, zoom secUsm put_usm (sm_generateResponseMsg (usm_at s) g x y e n l p r) s)
    (λ x p y l w g s, zoom secUsm put_usm (sm_processIncomingMsg (usm_at s) x p y l w g) s)
    (λ r s, zoom secUsm put_usm (sm_releaseStateInformation (usm_at s) r) s).

(** The models for the messages with a community, and those for SNMPv3 messages.
    The code has one table; a model of the other kind cannot read the message. *)
Definition communityModels (k : Z) :
    option (security_model security Community.Message (octets * origin) (octets * octets * v1_pdu)) :=
  if negb (e_enableLegacyVersions E) then None
  else if k =? 1 then Some (zoom_model get_v1 put_v1
    (Community.community_model 1 (l_encodeMessage L) (l_identities_order L) (l_tags_order L)))
  else if k =? 2 then Some (zoom_model get_v2c put_v2c
    (Community.community_model 2 (l_encodeMessage L) (l_identities_order L) (l_tags_order L)))
  else None.
Definition v3Models (k : Z) : option (security_model security V3.SNMPv3Message octets scoped_pdu) :=
  if k =? UsmModel.securityModelID then Some usm else None.

(** ** [messageProcessingSubsystems] *)

(** A call of the SNMPv3 model, which does not work on the caller's PDU *)
Definition on_v3 {A} (m : M exn (Mp.world Mp3 security below) A) : M exn below A :=
  zoom world_v3 (λ w _, unworld_v3 w) m.
Definition beside_pdu {X A} (m : M exn below A) : M exn (below * X) A := zoom fst (λ b x, (b, x.2)) m.

(** SNMPv1 and SNMPv2c.  A response without a PDU is none of these versions'. *)
Definition mp_v1 (v : Z) (get : below → Mp.world Mp1 security unit)
    (put : Mp.world Mp1 security unit → below → below) : mp_model below :=
  mk_mp_model
    (λ o h, zoom (λ x, (get x.1, x.2)) (λ y x, (put y.1 x.1, y.2))
       (MpV1.prepareOutgoingMessage v communityModels (e_snmpEngineID E) (e_snmpEngineMaxMessageSize E)
          (o_transport o) (o_securityModel o) (o_securityName o) (o_securityLevel o)
          (o_contextEngineId o) (o_contextName o) h))
    (λ r x,
       match x.2 with
       | Some p =>
           let '(res, (w, p)) :=
             MpV1.prepareResponseMessage communityModels (e_snmpEngineID E) (s_messageProcessingModel r)
               (s_stateReference r) (s_statusInformation r) (get x.1, p) in
           (res, (put w x.1, Some p))
       | None => (Err AttributeError, x)
       end)
    (λ t w, zoom get put
       (MpV1.prepareDataElements communityModels (l_decodeMessage L) (e_snmpEngineID E) (e_snmpEngineMaxMessageSize E) t w))
    (λ h, zoom get put (MpV1.releaseStateInformation h)).

(** SNMPv3.  A v1 trap is no alternative of the PDUs of an SNMPv3 message. *)
Definition v2_pdu (p : v1_pdu) : result exn pdu :=
  match p with V1Pdu p => Ok p | V1Trap _ => Err (PyAsn1Error "component type") end.
Definition v3_outgoing (o : outgoing) (h : Z) : M exn (below * v1_pdu) (origin * octets) :=
  x ← gets snd;
  p ← liftR (v2_pdu x);
  beside_pdu (on_v3 (MpV3.prepareOutgoingMessage v3Models (e_snmpEngineID E) (e_snmpEngineMaxMessageSize E)
    (o_transport o) (o_securityModel o) (o_securityName o) (o_securityLevel o)
    (o_contextEngineId o) (o_contextName o) p h)).
Definition v3_response (r : response) : M exn (below * option v1_pdu) (origin * octets) :=
  x ← gets snd;
  p ← liftR (match x with None => Ok None | Some p => Some <$> v2_pdu p end);
  beside_pdu (on_v3 (MpV3.prepareResponseMessage v3Models (e_snmpEngineID E) (e_snmpEngineMaxMessageSize E) p
    (s_stateReference r) (s_statusInformation r))).

(** [returnResponsePdu] of the dispatcher, as the SNMPv3 model calls it to report
    a failure: it takes the path of a response and nothing of the dispatcher's own. *)
Definition v3_responder : mp_model below :=
  mk_mp_model v3_outgoing v3_response (λ _ _, raise (PySnmpError "")) (λ _, mret tt).
Definition report_back (p : option pdu) (stateReference : Z) (st : status) :
    M exn (Mp.world Mp3 security below) unit :=
  zoom
    (λ w, (Dispatcher.mk_state (Cb:=unit) (Ctx:=unit) (App:=unit) [] ∅
             (NextId.mk_Integer 0 0 0 []) ∅ [] (unworld_v3 w), V1Pdu <$> p))
    (λ y _, world_v3 (rest y.1))
    (returnResponsePdu (λ v, if v =? 3 then Some v3_responder else None) ticks (e_sendMessage E) dspCounters
       put_dspCounters (e_snmpEngineMaxMessageSize E)
       (mk_response 3 3 [] 1 [] [] 1 0 (Some stateReference) (Some st))).

Definition v3_elements (e : elements pdu) : elements v1_pdu :=
  mk_elements (e_messageProcessingModel e) (e_securityModel e) (e_securityName e) (e_securityLevel e)
    (e_contextEngineId e) (e_contextName e) (e_pduVersion e) (V1Pdu (e_pdu e)) (e_pduType e)
    (e_sendPduHandle e) (e_maxSizeResponseScopedPDU e) (e_stateReference e).
Definition mp_v3 : mp_model below :=
  mk_mp_model v3_outgoing v3_response
    (λ t w, e ← on_v3 (MpV3.prepareDataElements v3Models (l_codec L) (e_snmpEngineID E) report_back (e_timerResolution E) t w);
            mret (v3_elements e))
    (λ h, on_v3 (MpV3.releaseStateInformation h)).

(** [messageProcessingSubsystems]: a version that is not spoken has no model. *)
Definition subsystems (v : Z) : option (mp_model below) :=
  if v =? 3 then Some mp_v3
  else if negb (e_enableLegacyVersions E) then None
  else if v =? 0 then Some (mp_v1 0 world_v1 put_world_v1)
  else if v =? 1 then Some (mp_v1 1 world_v2c put_world_v2c)
  else None.

(** ** The dispatcher of the engine, and the timer *)
Section dispatcher.
Context {Cb Ctx App Aw : Type}.
Abbreviation state := (Dispatcher.state below Cb Ctx App).
Context (processResponsePdu : Cb → Ctx → Z → outcome → M exn state unit)
        (processPdu : App → elements v1_pdu → M exn state (option Aw))
        (runDeferred : Aw → origin → option Z → M exn below unit).

Definition sendPdu (q : request Cb Ctx) : M exn (state * v1_pdu) Z :=
  Dispatcher.sendPdu subsystems ticks (e_sendMessage E) q.
Definition returnResponsePdu (r : response) : M exn (state * option v1_pdu) unit :=
  Dispatcher.returnResponsePdu subsystems ticks (e_sendMessage E) dspCounters put_dspCounters
    (e_snmpEngineMaxMessageSize E) r.
(** [__receiveMessageCbFun] *)
Definition receiveMessage (transport : origin) (wholeMsg : octets) : M exn state unit :=
  Dispatcher.receiveMessage subsystems ticks (e_sendMessage E) processResponsePdu processPdu runDeferred
    dspCounters put_dspCounters (l_decodeVersion L) transport wholeMsg.
(** [__receiveTransportErrorCbFun] *)
Definition receiveTransportError (transport : origin) (descr : string) : M exn state unit :=
  Dispatcher.receiveTransportError subsystems ticks processResponsePdu transport descr.

(** [__receiveTimerTickCbFun]: the tick of the community models is that of the
    base class, which does nothing. *)
Definition receiveTimerTick : M exn state unit :=
  Dispatcher.receiveTimerTick subsystems ticks processResponsePdu;;
  on_rest (on_v3 MpV3.receiveTimerTick);;
  (if (e_enableLegacyVersions E) then
     on_rest (zoom world_v1 put_world_v1 MpV1.receiveTimerTick);;
     on_rest (zoom world_v2c put_world_v2c MpV1.receiveTimerTick)
   else mret tt);;
  on_rest (zoom sec put_sec (zoom secUsm put_usm Usm.receiveTimerTick)).
End dispatcher.
End engine.
End Engine.
