(* ===== verification/EngineSpec.v ===== *)
(** * What the engine promises

    A version that is turned off is not spoken; a timer tick fails the requests that
    are due, and nothing else fails with it; a request and its response go
    through two engines, from the application that sends to the application that
    answers and back to the callback. *)
From S2P Require Export Engine DispatcherSpec MpV3Exchange MpV3Engines MpV1Spec.
Import Mp Dispatcher Engine.
#[local] Open Scope Z_scope.

Module EngineSpec.
Section engine.
Context (L : library) (E : config).

Section legacy.
Context {Cb Ctx App Aw : Type}.
Abbreviation state := (Dispatcher.state below Cb Ctx App).
Context (processResponsePdu : Cb → Ctx → Z → outcome → M exn state unit)
        (processPdu : App → elements v1_pdu → M exn state (option Aw))
        (runDeferred : Aw → origin → option Z → M exn below unit).

Abbreviation receive := (Engine.receiveMessage L E processResponsePdu processPdu runDeferred).
Abbreviation send := (Engine.sendPdu (Cb:=Cb) (Ctx:=Ctx) (App:=App) L E).

Definition counted (n : oid) (s : state) : state :=
  (Dispatcher.count dspCounters put_dspCounters n s).2.

(** An engine made without the legacy versions drops every message of a version
    other than 3: the message is counted as received and as of a bad version, and
    nothing else of the engine changes --- no application sees it, no callback is
    called, nothing is sent; and a request in such a version fails with
    unsupportedMsgProcessingModel and changes nothing. *)
Theorem legacy_versions_are_off transport wholeMsg v q s p :
  e_enableLegacyVersions E = false → v ≠ 3 → l_decodeVersion L wholeMsg = Ok (Some v) → o_messageProcessingModel (q_outgoing q) = v →
  receive transport wholeMsg s =
    (Ok tt, counted snmpInBadVersions (counted snmpInPkts s)) ∧
  send q (s, p) = (Err (StatusInfo unsupportedMsgProcessingModel), (s, p)).
Proof.
  intros Hoff Hv Hdec Hq. unfold Engine.receiveMessage, Engine.sendPdu, Dispatcher.receiveMessage,
    Dispatcher.sendPdu, decodeMessageVersion. rewrite Hq, Hdec. unfold subsystems. rewrite Hoff.
  destruct (Z.eqb_spec v 3); [done|]. by split.
Qed.
End legacy.

(** ** The timer *)

(** The caches of the three message processing models agree with their queues, and
    so do the engines the SNMPv3 model knows: the invariants of [MpCache] and
    [MpV3Engines], which every use of the models keeps. *)
Record caches_ok (b : below) : Prop := {
  co_v1 : MpV1Spec.ok (world_v1 b);
  co_v2c : MpV1Spec.ok (world_v2c b);
  co_v3 : MpV3Spec.ok (world_v3 b);
  co_engines : MpV3Engines.engines_ok (mpV3 b);
}.

Lemma release_ok v mp h b : subsystems L E v = Some mp → caches_ok b → ∃ b',
  mp_releaseStateInformation mp h b = (Ok tt, b') ∧ ticks b' = ticks b ∧ caches_ok b'.
Proof.
  intros Hmp [H1 H2 H3 Hq]. unfold subsystems in Hmp. repeat case_match; simplify_eq/=.
  - destruct (MpCache.release_wf MpV3.p_sendPduHandle _ h H3) as (x & Hx & Hwf).
    unfold on_v3, MpV3.releaseStateInformation, MpV3.on_cache, Mp.on_mp, zoom in *. cbn in *.
    rewrite Hx. eexists. split; [done|]. split; [done|]. split; try done.
    by eapply MpV3Engines.engines_ok_of; [|exact Hq].
  - destruct (MpCache.release_wf MpV1.p_sendPduHandle _ h H1) as (x & Hx & Hwf).
    unfold MpV1.releaseStateInformation, Mp.on_mp, zoom in *. cbn in *.
    rewrite Hx. eexists. by split_and!.
  - destruct (MpCache.release_wf MpV1.p_sendPduHandle _ h H2) as (x & Hx & Hwf).
    unfold MpV1.releaseStateInformation, Mp.on_mp, zoom in *. cbn in *.
    rewrite Hx. eexists. by split_and!.
Qed.

Section tick.
Context {Cb Ctx App : Type}.
Abbreviation state := (Dispatcher.state below Cb Ctx App).
Context (processResponsePdu : Cb → Ctx → Z → outcome → M exn state unit).

(** The ticks of the models come after that of the dispatcher, and do not fail. *)
Lemma models_tick (s : state) : caches_ok (rest s) → ∃ b,
  (on_rest (on_v3 MpV3.receiveTimerTick);;
   (if (e_enableLegacyVersions E) then
      on_rest (zoom world_v1 put_world_v1 MpV1.receiveTimerTick);;
      on_rest (zoom world_v2c put_world_v2c MpV1.receiveTimerTick)
    else mret tt);;
   on_rest (zoom Engine.sec put_sec (zoom secUsm put_usm Usm.receiveTimerTick))) s =
    (@Ok exn _ tt, put_rest b s) ∧ caches_ok b.
Proof.
  intros [H1 H2 H3 Hq]. unfold MpV1Spec.ok, MpV3Spec.ok in *. cbn in H1, H2, H3.
  destruct (MpV3Engines.expireEnginesInfo_ok _ Hq) as (m & Hm & Hqm & Hcm & _).
  destruct (MpCache.expireCaches_ok _ _ H3) as (c3 & Hc3 & Hw3 & _).
  destruct (MpCache.expireCaches_ok _ _ H1) as (c1 & Hc1 & Hw1 & _).
  destruct (MpCache.expireCaches_ok _ _ H2) as (c2 & Hc2 & Hw2 & _).
  assert (Hv3 : MpV3.receiveTimerTick (world_v3 (rest s)) =
    (@Ok exn _ tt, mk_world (MpV3.set_cache c3 m) (Engine.sec (rest s)) (mpCounters (rest s)) (rest s))).
  { unfold MpV3.receiveTimerTick, Mp.on_mp, zoom. munfold. cbn. rewrite Hm, Hcm, Hc3. done. }
  assert (Hon : ∀ (m : M exn below unit) b (s : state), m (rest s) = (Ok tt, b) →
    on_rest m s = (@Ok exn _ tt, put_rest b s)).
  { intros ? b s' Hr. unfold on_rest, zoom. by rewrite Hr. }
  munfold. erewrite Hon by (unfold on_v3, zoom; by rewrite Hv3). destruct (e_enableLegacyVersions E).
  - erewrite Hon by (unfold zoom, MpV1.receiveTimerTick, Mp.on_mp, zoom; cbn; by rewrite Hc1).
    erewrite Hon by (unfold zoom, MpV1.receiveTimerTick, Mp.on_mp, zoom; cbn; by rewrite Hc2).
    eexists. split; [done|]. split; try done. by eapply MpV3Engines.engines_ok_of; [|exact Hqm].
  - eexists. split; [done|]. split; try done. by eapply MpV3Engines.engines_ok_of; [|exact Hqm].
Qed.

(** C8. A timer tick of the engine succeeds: it calls back the requests that are due,
    each once, with requestTimedOut, in the order they were sent, and no others; a
    request that was due is no longer pending, unless a callback has issued it again.
    This holds in every state where the caches of the message processing models
    agree with their queues and every pending request has a callback, given that the
    callbacks return, call back nothing themselves and keep those caches so. *)
Theorem timer_tick_reports_timeouts (s : state) now :
  (∀ f c h o, DispatcherSpec.quiet ticks caches_ok (processResponsePdu f c h o)) →
  DispatcherSpec.cache_ok s → caches_ok (rest s) → ticks (rest s) = Some now →
  (∀ h kw, dget (cache s) h = Some kw → ∃ f, get_cb kw = Ok (Some f)) →
  ∃ s', Engine.receiveTimerTick L E processResponsePdu s = (Ok tt, s') ∧ caches_ok (rest s') ∧
    DispatcherSpec.calls_of (trace s') = DispatcherSpec.calls_of (trace s) ++
      ((., Failed (status_of requestTimedOut)) <$> DispatcherSpec.due now (cache s)) ∧
    ∀ h, h ∈ DispatcherSpec.due now (cache s) → din (cache s') h = true →
      DispatcherSpec.issued h (trace s) < DispatcherSpec.issued h (trace s').
Proof.
  intros Hcb Hc Hi Hnow Hf.
  destruct (DispatcherSpec.tick_reports (subsystems L E) ticks processResponsePdu caches_ok Hcb
    (λ m mp h Hm b, release_ok m mp h b Hm) s now Hc Hi Hnow Hf) as (s1 & Hr & Hi1 & Ht & Hd).
  destruct (models_tick s1 Hi1) as (b & Hb & Hib).
  exists (put_rest b s1). split_and!; [|exact Hib|exact Ht|exact Hd].
  unfold Engine.receiveTimerTick. unfold mbind at 1, M_bind at 1. rewrite Hr. exact Hb.
Qed.
End tick.
End engine.

(** ** A request and its response through two engines *)
Section exchange.
Context (L : library) (A B : config).

(** The SNMPv3 model of an engine, call by call *)
Lemma v3_outgoing_run (E : config) o h b (p : pdu) tr w w' :
  MpV3.prepareOutgoingMessage (v3Models L E) (e_snmpEngineID E) (e_snmpEngineMaxMessageSize E)
    (o_transport o) (o_securityModel o) (o_securityName o) (o_securityLevel o) (o_contextEngineId o)
    (o_contextName o) p h (world_v3 b) = (Ok (tr, w), w') →
  mp_prepareOutgoingMessage (mp_v3 L E) o h (b, V1Pdu p) = (Ok (tr, w), (unworld_v3 w', V1Pdu p)).
Proof.
  intros Hr. cbn [mp_prepareOutgoingMessage mp_v3]. unfold v3_outgoing, beside_pdu, on_v3. munfold.
  cbn [v2_pdu fst snd]. by rewrite Hr.
Qed.
Lemma v3_response_run (E : config) r b (p : pdu) tr w w' :
  MpV3.prepareResponseMessage (v3Models L E) (e_snmpEngineID E) (e_snmpEngineMaxMessageSize E) (Some p)
    (s_stateReference r) (s_statusInformation r) (world_v3 b) = (Ok (tr, w), w') →
  mp_prepareResponseMessage (mp_v3 L E) r (b, Some (V1Pdu p)) =
    (Ok (tr, w), (unworld_v3 w', Some (V1Pdu p))).
Proof.
  intros Hr. cbn [mp_prepareResponseMessage mp_v3]. unfold v3_response, beside_pdu, on_v3. munfold.
  cbn [v2_pdu fst snd]. by rewrite Hr.
Qed.
Lemma v3_elements_run (E : config) t w b e w' :
  MpV3.prepareDataElements (v3Models L E) (l_codec L) (e_snmpEngineID E) (report_back L E)
    (e_timerResolution E) t w (world_v3 b) = (Ok e, w') →
  mp_prepareDataElements (mp_v3 L E) t w b = (Ok (v3_elements e), unworld_v3 w').
Proof.
  intros Hr. cbn [mp_prepareDataElements mp_v3]. unfold on_v3. munfold. by rewrite Hr.
Qed.

(** An application that answers every request at once *)
Definition response_to (e : elements v1_pdu) : response :=
  mk_response (e_messageProcessingModel e) (e_securityModel e) (e_securityName e) (e_securityLevel e)
    (e_contextEngineId e) (e_contextName e) (e_pduVersion e) (e_maxSizeResponseScopedPDU e)
    (e_stateReference e) None.
Definition responder {Cb Ctx App Aw} (answer : App → elements v1_pdu → v1_pdu) (app : App)
    (e : elements v1_pdu) : M exn (Dispatcher.state below Cb Ctx App) (option Aw) :=
  zoom (λ s, (s, Some (answer app e))) (λ x _, x.1) (Engine.returnResponsePdu L B (response_to e));;
  mret None.

Context {Cb Ctx AppA Aw CbB CtxB App : Type}.
Abbreviation stateA := (Dispatcher.state below Cb Ctx AppA).
Abbreviation stateB := (Dispatcher.state below CbB CtxB App).
Context (callbackA : Cb → Ctx → Z → outcome → M exn stateA unit)
        (appA : AppA → elements v1_pdu → M exn stateA (option Aw))
        (callbackB : CbB → CtxB → Z → outcome → M exn stateB unit)
        (answer : App → elements v1_pdu → v1_pdu)
        (deferA deferB : Aw → origin → option Z → M exn below unit).

Abbreviation sendA := (Engine.sendPdu L A).
Abbreviation receiveA := (Engine.receiveMessage L A callbackA appA deferA).
Abbreviation receiveB := (Engine.receiveMessage (Aw:=Aw) L B callbackB (responder answer) deferB).

Abbreviation wA s := (world_v3 (rest s)).
Abbreviation secOf s := (Engine.sec (rest s)).
Import MpV3 MpV3Spec MpV3Exchange Dispatcher Engine.

(** The request [q] of [p], and what the responder makes of it *)
Definition goes_by (q : request Cb Ctx) addrB name level ctx ctxName (f : Cb) : Prop :=
  q_outgoing q = mk_outgoing addrB 3 3 name level ctx ctxName 1 true ∧ q_cbFun q = Some f.

Lemma responder_run app e s1 w2 tr b2 q n n2 :
  e_messageProcessingModel e = 3 → answer app e = V1Pdu q →
  MpV3.prepareResponseMessage (v3Models L B) (e_snmpEngineID B) (e_snmpEngineMaxMessageSize B) (Some q)
    (e_stateReference e) None (world_v3 (rest s1)) = (Ok (tr, w2), b2) →
  Z.of_nat (length w2) <= e_snmpEngineMaxMessageSize B →
  ticks (unworld_v3 b2) = Some n → e_sendMessage B w2 tr (unworld_v3 b2) = (Ok tt, n2) →
  responder answer app e s1 = (@Ok exn (option Aw) None, put_rest n2 (s1 : stateB)).
Proof.
  intros He Hans Hresp Hlen Hticks Hsend. unfold responder, Engine.returnResponsePdu,
    Dispatcher.returnResponsePdu, response_to. cbn [s_messageProcessingModel]. rewrite He.
  change (subsystems L B 3) with (Some (mp_v3 L B)). unfold zoom, on_rest. munfold. cbn [fst snd].
  rewrite Hans.
  rewrite (v3_response_run B _ _ _ tr w2 b2) by exact Hresp.
  cbn [fst snd rest put_rest]. destruct (Z.ltb_spec (e_snmpEngineMaxMessageSize B) (Z.of_nat (length w2)));
    [lia|]. rewrite andb_false_r. cbn [fst snd rest put_rest]. rewrite Hticks. cbn [fst snd rest put_rest].
  by rewrite Hsend.
Qed.

Lemma serve_run app tr (e : elements v1_pdu) (s : stateB) r n2 :
  e_stateReference e = Some r →
  responder answer app e (put_info (<[r := tr]> (transportInfo s)) s) =
    (@Ok exn (option Aw) None, put_rest n2 (put_info (<[r := tr]> (transportInfo s)) s)) →
  serve ticks (responder answer) deferB app tr e s =
    (Ok tt, put_rest n2 (put_info (delete r (<[r := tr]> (transportInfo s))) s)).
Proof.
  intros Hr Hresp. unfold serve. rewrite Hr. cbn [set_info del_info]. unfold try_finally. munfold.
  rewrite Hresp. cbn [transportInfo put_rest put_info]. by rewrite lookup_insert_eq.
Qed.

(** The request leaves: it is remembered under its handle, and pending. *)
Lemma request_leaves addrB (sA : stateA) (q : request Cb Ctx) f name level ctx ctxName p h g id peer nA
    (par1 whole1 : octets) xA1 :
  let maxA := e_snmpEngineMaxMessageSize A in
  let C := outgoing_context (e_snmpEngineID A) (Some peer) ctx in
  let sp1 := mk_scoped C ctxName p in
  goes_by q addrB name level ctx ctxName f → good_level level → confirmedClassPDUs (pduType p) = true →
  NextId.call (handles sA) = (Ok h, g) → dget (cache sA) h = None →
  ok (wA sA) → engineIdCache (mpV3 (rest sA)) !! addrB = Some peer → fresh_request (wA sA) id h →
  ticks (rest sA) = Some nA →
  sm_generateRequestMsg (usm L A) (message_of (header_of maxA id level 3 (pduType p)) sp1) maxA 3
    (Some (securityEngineId peer)) name level sp1 (secOf sA) = (Ok (par1, whole1), xA1) →
  Z.of_nat (length whole1) <= maxA → (∀ b, e_sendMessage A whole1 addrB b = (Ok tt, b)) →
  ∃ sA1 t, sendA q (sA, V1Pdu p) = (Ok h, (sA1, V1Pdu p)) ∧
    cache sA1 = cache sA ++ [(h, request_args q (V1Pdu p) ∪ DispatcherSpec.entry q h nA)] ∧
    trace sA1 = trace sA ++ [Issued h] ∧ ok (wA sA1) ∧ secOf sA1 = xA1 ∧ served (wA sA1) = served (wA sA) ∧
    pendings (wA sA1) = <[id := (mk_pending h id (e_snmpEngineID A) 3 name level C ctxName addrB, t)]> (pendings (wA sA)).
Proof.
  intros maxA C sp1 [Hq Hf] Hlevel Hp Hid Hh HokA Hpeer HfA HnA Hgen1 Hlen1 Hsend1.
  destruct (wp_inv _ _ _ _ (outgoing_ok (v3Models L A) (e_snmpEngineID A) maxA addrB 3 name level ctx ctxName
    p h (wA sA) (usm L A) id par1 whole1 xA1 peer Hp Hlevel ltac:(lia) eq_refl Hpeer HokA HfA Hgen1 Hlen1))
    as (wA1 & Hr1 & HenvA1 & HokA1 & HsA1 & _ & HsvA1 & HpA1). fold C in HpA1.
  pose (bA1 := unworld_v3 wA1).
  assert (Ht1 : ticks bA1 = Some nA) by (unfold bA1, unworld_v3; cbn; rewrite HenvA1; exact HnA).
  assert (Hout : mp_prepareOutgoingMessage (mp_v3 L A) (q_outgoing q) h (rest sA, V1Pdu p) =
    (Ok (addrB, whole1), (bA1, V1Pdu p))) by (rewrite Hq; apply v3_outgoing_run; exact Hr1).
  epose proof (DispatcherSpec.send_forward (subsystems L A) ticks (e_sendMessage A) q sA (V1Pdu p) (mp_v3 L A) addrB whole1
    bA1 (V1Pdu p) bA1 h g nA nA ltac:(by rewrite Hq) Hid ltac:(by rewrite Hq) HnA Hh Hout Ht1
    (Hsend1 bA1)) as Hrun1.
  eexists _, _. split_and!; [exact Hrun1|done|done|done|done|exact HsvA1|exact HpA1].
Qed.

(** The request is served: the application answers it, and the response leaves. *)
Lemma request_is_served addrA (sB : stateB) app nameB level C ctxName p r id sref nB
    (whole1 par2 whole2 : octets) xB1 xB2 mx1 ref1 :
  let maxA := e_snmpEngineMaxMessageSize A in
  let maxB := e_snmpEngineMaxMessageSize B in
  let sp1 := mk_scoped C ctxName p in
  let sp2 := mk_scoped C ctxName r in
  let eB := v3_elements (mk_elements 3 3 nameB level C ctxName 1 p (pduType p) None mx1 (Some sref)) in
  good_level level → C ≠ [] → confirmedClassPDUs (pduType p) = true →
  ok (wA sB) → fresh_reference (wA sB) sref → ticks (rest sB) = Some nB →
  getRegisteredApp (appsRegistration sB) C (pduType p) = Some app → answer app eB = V1Pdu r →
  carried (l_codec L) (usm L B) whole1 (header_of maxA id level 3 (pduType p)) level (e_snmpEngineID B) nameB sp1 mx1 ref1
    (secOf sB) xB1 →
  sm_generateResponseMsg (usm L B) (message_of (header_of maxB id level 3 (pduType r)) sp2) maxB 3 (e_snmpEngineID B)
    (Some nameB) level sp2 ref1 xB1 = (Ok (par2, whole2), xB2) →
  Z.of_nat (length whole2) <= Z.min maxA maxB → (∀ b, e_sendMessage B whole2 addrA b = (Ok tt, b)) →
  l_decodeVersion L whole1 = Ok (Some 3) →
  ∃ sB1, receiveB addrA whole1 sB = (Ok tt, sB1) ∧
    pendings (wA sB1) = pendings (wA sB) ∧ served (wA sB1) = served (wA sB).
Proof.
  intros maxA maxB sp1 sp2 eB Hlevel HC Hp HokB HfB HnB Happ Hans Hcar1 Hgen2 Hlen2 Hsend2 Hv1.
  set (bB0 := rest (count dspCounters put_dspCounters snmpInPkts sB).2).
  destruct (wp_inv _ _ _ _ (request_received (l_codec L) (v3Models L B) (e_snmpEngineID B) (report_back L B)
    (e_timerResolution B) addrA (usm L B) whole1 maxA id level 3 nameB sp1 mx1 ref1 (world_v3 bB0) xB1 sref
    Hp Hlevel eq_refl HokB HfB Hcar1)) as (wB1 & Hr2 & HenvB1 & HokB1 & HsB1 & HpB1 & HsvB1).
  cbn [sp1 contextEngineId contextName scopedData] in *.
  assert (Hdec1 : DispatcherSpec.decodes (subsystems L B) dspCounters put_dspCounters (l_decodeVersion L) addrA whole1 sB eB
    (unworld_v3 wB1)).
  { exists 3, (mp_v3 L B). unfold decodeMessageVersion. rewrite Hv1. split_and!; [done|done|].
    by apply v3_elements_run. }
  destruct (wp_inv _ _ _ _ (response_ok (v3Models L B) (e_snmpEngineID B) maxB addrA (usm L B) maxA id level 3
    nameB C ctxName r ref1 mx1 (world_v3 (unworld_v3 wB1))
    (MpCache.expirationTimer (MpV3.cache (mpV3 bB0)) + 600) sref par2 whole2 xB2 ltac:(lia) Hlevel
    eq_refl HokB1 HC ltac:(unfold served in *; cbn; by rewrite HsvB1, lookup_insert_eq)
    ltac:(cbn; rewrite HsB1; exact Hgen2) ltac:(lia) ltac:(lia)))
    as (wB2 & Hr3 & HenvB2 & _ & _ & HpB2 & HsvB2).
  set (bB1 := unworld_v3 wB1) in *. set (bB2 := unworld_v3 wB2).
  assert (Ht2 : ticks bB2 = Some nB).
  { unfold bB2, unworld_v3. cbn. rewrite HenvB2. unfold bB1, unworld_v3. cbn. by rewrite HenvB1. }
  destruct (DispatcherSpec.received _ ticks (e_sendMessage B) callbackB (responder answer) deferB _ _ _
    _ _ _ _ _ Hdec1) as [mp2 Hrun2].
  assert (Hserve : serve ticks (responder answer) deferB app addrA eB (put_rest bB1 sB) =
    (Ok tt, put_rest bB2 (put_info (delete sref (<[sref := addrA]> (transportInfo sB))) (put_rest bB1 sB)))).
  { apply (serve_run app addrA eB (put_rest bB1 sB) sref bB2); [done|]. eapply responder_run; [done|exact Hans|exact Hr3|lia|exact Ht2|apply Hsend2]. }
  unfold dispatch in Hrun2. cbn [eB v3_elements e_sendPduHandle] in Hrun2. unfold gets in Hrun2.
  unfold mbind at 1, M_bind at 1 in Hrun2. cbn [appsRegistration put_rest] in Hrun2.
  change (e_contextEngineId eB) with C in Hrun2. change (e_pduType eB) with (pduType p) in Hrun2.
  rewrite Happ in Hrun2. fold eB in Hrun2. rewrite Hserve in Hrun2.
  match type of Hrun2 with _ = (_, ?s) => set (sB1 := s) in * end.
  exists sB1. split_and!; [done|..].
  - unfold pendings in *. cbn in *. congruence.
  - unfold served in *. cbn in *. rewrite HsvB2, HsvB1. apply delete_insert_id. apply HfB.
Qed.

(** The response arrives: the callback of the request is called with it. *)
Lemma response_arrives addrB (sA1 : stateA) (q : request Cb Ctx) f name level C ctxName p r h id nA d tm t0
    (whole2 : octets) xA2 xA3 mx2 ref2 engineId maxB :
  let sp2 := mk_scoped C ctxName r in
  let eA := v3_elements (mk_elements 3 3 name level C ctxName 1 r ResponsePDU (Some h) mx2 None) in
  q_cbFun q = Some f → good_level level → pduType r = ResponsePDU → dget d h = None →
  cache sA1 = d ++ [(h, request_args q (V1Pdu p) ∪ DispatcherSpec.entry q h nA)] → ok (wA sA1) →
  pendings (wA sA1) !! id = Some (mk_pending h id (e_snmpEngineID A) 3 name level C ctxName tm, t0) →
  carried (l_codec L) (usm L A) whole2 (header_of maxB id level 3 (pduType r)) level engineId name sp2 mx2 ref2 (secOf sA1) xA2 →
  sm_releaseStateInformation (usm L A) ref2 xA2 = (Ok tt, xA3) → l_decodeVersion L whole2 = Ok (Some 3) →
  ∃ sA2, receiveA addrB whole2 sA1 = callbackA f (q_cbCtx q) h (Answered eA) sA2 ∧ cache sA2 = d ∧
    trace sA2 = trace sA1 ++ [Called h (Answered eA)] ∧
    pendings (wA sA2) = delete id (pendings (wA sA1)) ∧ served (wA sA2) = served (wA sA1).
Proof.
  intros sp2 eA Hf Hlevel Hr Hh Hcache HokA1 Hpend Hcar2 Hrel Hv2. rewrite Hr in Hcar2.
  set (bA2 := rest (count dspCounters put_dspCounters snmpInPkts sA1).2).
  destruct (wp_inv _ _ _ _ (response_received (l_codec L) (v3Models L A) (e_snmpEngineID A) (report_back L A)
    (e_timerResolution A) addrB (usm L A) whole2 maxB id level 3 engineId name sp2 mx2 ref2 (world_v3 bA2)
    xA2 xA3 _ _ Hr Hlevel eq_refl HokA1 Hcar2 Hpend eq_refl eq_refl eq_refl eq_refl eq_refl Hrel))
    as (wA2 & Hr4 & HenvA2 & _ & _ & HpA2 & HsvA2).
  assert (Hdec2 : DispatcherSpec.decodes (subsystems L A) dspCounters put_dspCounters (l_decodeVersion L)
    addrB whole2 sA1 eA (unworld_v3 wA2)).
  { exists 3, (mp_v3 L A). unfold decodeMessageVersion. rewrite Hv2. split_and!; [done|done|].
    by apply v3_elements_run. }
  destruct (DispatcherSpec.entry_sent q h nA (V1Pdu p)) as (Hent & Hcb & Hctx).
  destruct (DispatcherSpec.sent_entry d h (request_args q (V1Pdu p) ∪ DispatcherSpec.entry q h nA) Hh)
    as [Hget Hdel].
  pose proof (DispatcherSpec.response_delivered (subsystems L A) ticks (e_sendMessage A) callbackA appA deferA
    dspCounters put_dspCounters (l_decodeVersion L) addrB whole2 sA1 eA (unworld_v3 wA2) h) as Hrun3.
  rewrite Hcache, Hget, Hdel, Hcb, Hctx, Hf in Hrun3.
  specialize (Hrun3 ltac:(by intros kw [= <-]) Hdec2 eq_refl).
  eexists. split; [exact Hrun3|]. by split_and!.
Qed.

(** C1. A request sent by an application of one engine reaches the application
    registered at the other with the security name and context it was sent in, its
    answer comes back, and the callback of the request is called with that answer:
    given that the two user-based models carry the two messages, whatever
    identifiers the engines picked.  Nothing is left of the exchange in the
    dispatcher, in the caches of the SNMPv3 models, or among the requests that are
    served. *)
Theorem request_is_answered addrA addrB (sA : stateA) (sB : stateB) (q : request Cb Ctx) f app
    name nameB level ctx ctxName p r h g id sref peer nA nB
    (par1 par2 whole1 whole2 : octets) xA1 xA2 xA3 xB1 xB2 mx1 mx2 ref1 ref2 engineId :
  let maxA := e_snmpEngineMaxMessageSize A in
  let maxB := e_snmpEngineMaxMessageSize B in
  let C := outgoing_context (e_snmpEngineID A) (Some peer) ctx in
  let sp1 := mk_scoped C ctxName p in
  let sp2 := mk_scoped C ctxName r in
  let h1 := header_of maxA id level 3 (pduType p) in
  let h2 := header_of maxB id level 3 (pduType r) in
  let eB := v3_elements (mk_elements 3 3 nameB level C ctxName 1 p (pduType p) None mx1 (Some sref)) in
  let eA := v3_elements (mk_elements 3 3 name level C ctxName 1 r ResponsePDU (Some h) mx2 None) in
  goes_by q addrB name level ctx ctxName f →
  good_level level → C ≠ [] → confirmedClassPDUs (pduType p) = true → pduType r = ResponsePDU →
  (* the identifiers and the peer *)
  NextId.call (handles sA) = (Ok h, g) → dget (cache sA) h = None →
  ok (wA sA) → ok (wA sB) → engineIdCache (mpV3 (rest sA)) !! addrB = Some peer →
  fresh_request (wA sA) id h → fresh_reference (wA sB) sref →
  ticks (rest sA) = Some nA → ticks (rest sB) = Some nB →
  (* the application of B *)
  getRegisteredApp (appsRegistration sB) C (pduType p) = Some app → answer app eB = V1Pdu r →
  (* the security models carry the request and the response *)
  sm_generateRequestMsg (usm L A) (message_of h1 sp1) maxA 3 (Some (securityEngineId peer)) name level sp1
    (secOf sA) = (Ok (par1, whole1), xA1) →
  carried (l_codec L) (usm L B) whole1 h1 level (e_snmpEngineID B) nameB sp1 mx1 ref1 (secOf sB) xB1 →
  sm_generateResponseMsg (usm L B) (message_of h2 sp2) maxB 3 (e_snmpEngineID B) (Some nameB) level sp2
    ref1 xB1 = (Ok (par2, whole2), xB2) →
  carried (l_codec L) (usm L A) whole2 h2 level engineId name sp2 mx2 ref2 xA1 xA2 →
  sm_releaseStateInformation (usm L A) ref2 xA2 = (Ok tt, xA3) →
  Z.of_nat (length whole1) <= maxA → Z.of_nat (length whole2) <= Z.min maxA maxB →
  (* the transports take the two messages, which are of version 3 *)
  (∀ b, e_sendMessage A whole1 addrB b = (Ok tt, b)) → (∀ b, e_sendMessage B whole2 addrA b = (Ok tt, b)) →
  l_decodeVersion L whole1 = Ok (Some 3) → l_decodeVersion L whole2 = Ok (Some 3) →
  ∃ sA1 sB1 sA2,
    sendA q (sA, V1Pdu p) = (Ok h, (sA1, V1Pdu p)) ∧
    receiveB addrA whole1 sB = (Ok tt, sB1) ∧
    receiveA addrB whole2 sA1 = callbackA f (q_cbCtx q) h (Answered eA) sA2 ∧
    cache sA2 = cache sA ∧ trace sA2 = trace sA ++ [Issued h; Called h (Answered eA)] ∧
    pendings (wA sA2) = pendings (wA sA) ∧ served (wA sA2) = served (wA sA) ∧
    pendings (wA sB1) = pendings (wA sB) ∧ served (wA sB1) = served (wA sB).
Proof.
  intros maxA maxB C sp1 sp2 h1 h2 eB eA Hgo Hlevel HC Hp Hr Hid Hh HokA HokB Hpeer HfA HfB HnA HnB
    Happ Hans Hgen1 Hcar1 Hgen2 Hcar2 Hrel Hlen1 Hlen2 Hsend1 Hsend2 Hv1 Hv2.
  destruct (request_leaves addrB sA q f name level ctx ctxName p h g id peer nA par1 whole1 xA1 Hgo Hlevel Hp
    Hid Hh HokA Hpeer HfA HnA Hgen1 Hlen1 Hsend1) as (sA1 & t & Hrun1 & Hc1 & Ht1 & HokA1 & HsA1 & HsvA1 & HpA1).
  destruct (request_is_served addrA sB app nameB level C ctxName p r id sref nB whole1 par2 whole2 xB1 xB2 mx1 ref1
    Hlevel HC Hp HokB HfB HnB Happ Hans Hcar1 Hgen2 Hlen2 Hsend2 Hv1) as (sB1 & Hrun2 & HpB & HsvB).
  destruct (response_arrives addrB sA1 q f name level C ctxName p r h id nA (cache sA) addrB t whole2 xA2 xA3 mx2
    ref2 engineId maxB) as (sA2 & Hrun3 & Hc2 & Ht2 & HpA2 & HsvA2); try done.
  { by destruct Hgo. } { by rewrite HpA1, lookup_insert_eq. } { by rewrite HsA1. }
  exists sA1, sB1, sA2. split_and!; try done.
  - by rewrite Ht2, Ht1, <- app_assoc.
  - rewrite HpA2, HpA1. apply delete_insert_id, HfA.
  - congruence.
Qed.
End exchange.

(** ** A manager and an agent with a user at authPriv, for the witnesses *)
Definition demo_library : library :=
  mk_library LocalKey.toy_hashlib Priv.toy_backend ToyCodec.toy MpV1Spec.demo_encode MpV1Spec.demo_decode
    (λ o, Ok (match o with [v3] => Some v3 | _ => Some 3 end)) id id.
Definition demo_config (own : octets) (legacy : bool) : config :=
  mk_config own 65507 legacy (Some (1, 2)) (λ _ _, mret tt) (λ _, raise KeyError).
Definition manager : config := demo_config Usm.demo_manager true.
Definition agent : config := demo_config Usm.demo_authority true.
Definition demo_addr_A : origin := (Transport.snmpUDPDomain, Transport.Inet [10; 0; 0; 1] 50000).
Definition demo_addr_B : origin := (Transport.snmpUDPDomain, Transport.Inet [10; 0; 0; 2] 161).
Definition demo_peer : MpV3.peer := MpV3.mk_peer Usm.demo_authority Usm.demo_authority [].
Definition demo_cache {I P} : MpCache.Cache I P := MpCache.init MpCache.demo_gen MpCache.demo_gen.
Definition demo_below (peers : gmap origin MpV3.peer) (u : Usm.state) (k : clocks) : below :=
  mk_below demo_cache demo_cache (MpV3.mk_mp3 demo_cache peers ∅ 0)
    (mk_security (Community.init Community.demo_gen) (Community.init Community.demo_gen)
       Community.demo_lcd [] u k) [] [] (Some 0).
Abbreviation demo_state := (Dispatcher.state below unit unit unit).
Definition demo_sA : demo_state :=
  mk_state [] ∅ DispatcherSpec.demo_gen ∅ []
    (demo_below {[ demo_addr_B := demo_peer ]} Usm.demo_sender (mk_clocks 600 1 50)).
Definition demo_sB : demo_state :=
  mk_state [] {[ (Usm.demo_authority, GetRequestPDU) := tt ]} DispatcherSpec.demo_gen ∅ []
    (demo_below ∅ (Usm.demo_engine Usm.demo_authority ∅) (mk_clocks 600 4 1100)).
Definition demo_q : Dispatcher.request unit unit :=
  mk_request (mk_outgoing demo_addr_B 3 3 [117] 3 None [] 1 true) 10 (Some tt) tt.

Section demo.
Import MpV3 MpV3Spec MpV3Exchange Dispatcher Engine.
Definition demo_sp p : scoped_pdu := mk_scoped Usm.demo_authority [] p.
Definition demo_generated : result exn (octets * octets) * security :=
  sm_generateRequestMsg (usm demo_library manager)
    (message_of (header_of 65507 0 3 3 GetRequestPDU) (demo_sp Usm.demo_pdu)) 65507 3
    (Some Usm.demo_authority) [117] 3 (demo_sp Usm.demo_pdu) (Engine.sec (rest demo_sA)).
Definition demo_accept (E : config) (o : octets) (s : security) :
    result exn (octets * octets * scoped_pdu * Z * Z) * security :=
  let m := demo_decoded o in
  sm_processIncomingMsg (usm demo_library E) 65507 (V3.msgSecurityParameters m) 3 3 o m s.
Definition demo_whole1 : octets := demo_octets demo_generated.1.
Definition demo_accepted : result exn (octets * octets * scoped_pdu * Z * Z) * security :=
  demo_accept agent demo_whole1 (Engine.sec (rest demo_sB)).
Definition demo_answered : result exn (octets * octets) * security :=
  sm_generateResponseMsg (usm demo_library agent)
    (message_of (header_of 65507 0 3 3 ResponsePDU) (demo_sp demo_answer)) 65507 3 Usm.demo_authority
    (Some [117]) 3 (demo_sp demo_answer) 1 demo_accepted.2.
Definition demo_whole2 : octets := demo_octets demo_answered.1.
Definition demo_returned : result exn (octets * octets * scoped_pdu * Z * Z) * security :=
  demo_accept manager demo_whole2 demo_generated.2.
Definition demo_free : security :=
  (sm_releaseStateInformation (usm demo_library manager) 1 demo_returned.2).2.
Definition demo_callback (_ _ : unit) (_ : Z) (_ : outcome) : M exn demo_state unit := mret tt.
Definition demo_app (_ : unit) (_ : elements v1_pdu) : M exn demo_state (option unit) := mret None.
Definition demo_defer (_ : unit) (_ : origin) (_ : option Z) : M exn below unit := mret tt.

Lemma demo_carried (E : config) o hd sp mx ref s s' n :
  demo_accept E o s = (Ok (n, [117], sp, mx, ref), s') →
  V3.decodeMessage ToyCodec.toy o = Ok (Some (demo_decoded o)) →
  V3.msgGlobalData (demo_decoded o) = hd → V3.msgVersion (demo_decoded o) = 3 →
  V3.msgMaxSize hd = 65507 → V3.msgSecurityModel hd = 3 →
  carried (l_codec demo_library) (usm demo_library E) o hd 3 n [117] sp mx ref s s'.
Proof.
  intros Ha Hd Hh Hv Hm Hs. split. exists (demo_decoded o). split_and!; try done.
  rewrite Hm, Hs. exact Ha.
Defined.

Lemma request_is_answered_witness :
  ∃ sA1 sB1 sA2,
    Engine.sendPdu demo_library manager demo_q (demo_sA, V1Pdu Usm.demo_pdu) =
      (Ok 0, (sA1, V1Pdu Usm.demo_pdu)) ∧
    Engine.receiveMessage demo_library agent demo_callback
      (responder demo_library agent (λ _ _, V1Pdu demo_answer)) demo_defer demo_addr_A demo_whole1 demo_sB =
      (Ok tt, sB1) ∧
    Engine.receiveMessage demo_library manager demo_callback demo_app demo_defer demo_addr_B demo_whole2 sA1 =
      (Ok tt, sA2) ∧
    DispatcherSpec.calls_of (trace sA2) = [(0, Answered (v3_elements (mk_elements 3 3 [117] 3 Usm.demo_authority [] 1
      demo_answer ResponsePDU (Some 0) 65427 None)))].
Proof.
  assert (Hg1 : demo_generated = (Ok (demo_params demo_generated.1, demo_whole1), demo_generated.2))
    by (vm_compute; reflexivity).
  assert (Hg2 : demo_answered = (Ok (demo_params demo_answered.1, demo_whole2), demo_answered.2))
    by (vm_compute; reflexivity).
  assert (Hc1 : demo_accepted = (Ok (Usm.demo_authority, [117], demo_sp Usm.demo_pdu, 65427, 1), demo_accepted.2))
    by (vm_compute; reflexivity).
  assert (Hc2 : demo_returned = (Ok (Usm.demo_authority, [117], demo_sp demo_answer, 65427, 1), demo_returned.2))
    by (vm_compute; reflexivity).
  assert (Hrel : sm_releaseStateInformation (usm demo_library manager) 1 demo_returned.2 = (Ok tt, demo_free))
    by (vm_compute; reflexivity).
  assert (Hl1 : (Z.of_nat (length demo_whole1) <=? 65507) = true) by (vm_compute; reflexivity).
  assert (Hl2 : (Z.of_nat (length demo_whole2) <=? 65507) = true) by (vm_compute; reflexivity).
  apply Z.leb_le in Hl1, Hl2.
  assert (Hd1 : V3.decodeMessage ToyCodec.toy demo_whole1 = Ok (Some (demo_decoded demo_whole1)))
    by (vm_compute; reflexivity).
  assert (Hd2 : V3.decodeMessage ToyCodec.toy demo_whole2 = Ok (Some (demo_decoded demo_whole2)))
    by (vm_compute; reflexivity).
  assert (Hh1 : V3.msgGlobalData (demo_decoded demo_whole1) = header_of 65507 0 3 3 GetRequestPDU)
    by (vm_compute; reflexivity).
  assert (Hh2 : V3.msgGlobalData (demo_decoded demo_whole2) = header_of 65507 0 3 3 ResponsePDU)
    by (vm_compute; reflexivity).
  assert (Hm1 : V3.msgVersion (demo_decoded demo_whole1) = 3) by (vm_compute; reflexivity).
  assert (Hm2 : V3.msgVersion (demo_decoded demo_whole2) = 3) by (vm_compute; reflexivity).
  assert (Hv1 : l_decodeVersion demo_library demo_whole1 = Ok (Some 3)) by (vm_compute; reflexivity).
  assert (Hv2 : l_decodeVersion demo_library demo_whole2 = Ok (Some 3)) by (vm_compute; reflexivity).
  destruct (NextId.call (handles demo_sA)) as [r0 g] eqn:Hid.
  assert (Hr0 : (NextId.call (handles demo_sA)).1 = Ok 0) by (vm_compute; reflexivity).
  rewrite Hid in Hr0. cbn [fst] in Hr0. subst r0.
  destruct (request_is_answered demo_library manager agent demo_callback demo_app demo_callback
    (λ _ _, V1Pdu demo_answer) demo_defer demo_defer demo_addr_A demo_addr_B demo_sA demo_sB demo_q tt tt
    [117] [117] 3 None [] Usm.demo_pdu demo_answer 0 g 0 0 demo_peer 0 0
    (demo_params demo_generated.1) (demo_params demo_answered.1) demo_whole1 demo_whole2
    demo_generated.2 demo_returned.2 demo_free demo_accepted.2 demo_answered.2 65427 65427 1 1
    Usm.demo_authority) as (sA1 & sB1 & sA2 & Hr1 & Hr2 & Hr3 & _ & Ht & _).
  - split; reflexivity.
  - by right; right.
  - discriminate.
  - reflexivity.
  - reflexivity.
  - exact Hid.
  - reflexivity.
  - apply MpCache.init_wf.
  - apply MpCache.init_wf.
  - reflexivity.
  - split; [reflexivity|]. split; [reflexivity|]. intros m i t Hm.
    exfalso. apply (lookup_empty_Some m (i, t)). exact Hm.
  - split; reflexivity.
  - reflexivity.
  - reflexivity.
  - reflexivity.
  - reflexivity.
  - exact Hg1.
  - by apply demo_carried.
  - exact Hg2.
  - by apply demo_carried.
  - exact Hrel.
  - exact Hl1.
  - exact Hl2.
  - reflexivity.
  - reflexivity.
  - exact Hv1.
  - exact Hv2.
  - exists sA1, sB1, sA2. split_and!; [exact Hr1|exact Hr2|exact Hr3|]. by rewrite Ht.
Defined.

(** The manager keeps what it knows of the agent for a while; two requests are sent, and the clock goes on to where the first one is due *)
Definition demo_q2 : Dispatcher.request unit unit :=
  mk_request (mk_outgoing demo_addr_B 3 3 [117] 3 None [] 1 true) 20 (Some tt) tt.
Definition demo_send (q : Dispatcher.request unit unit) (s : demo_state) : demo_state :=
  (Engine.sendPdu demo_library manager q (s, V1Pdu Usm.demo_pdu)).2.1.
Definition demo_later (b : below) : below :=
  mk_below (mpV1 b) (mpV2c b) (mpV3 b) (Engine.sec b) (mpCounters b) (dspCounters b) (Some 10).
Definition demo_known (b : below) : below :=
  mk_below (mpV1 b) (mpV2c b) (MpV3.mk_mp3 demo_cache {[ demo_addr_B := demo_peer ]} {[ 600 := [demo_addr_B] ]} 0)
    (Engine.sec b) (mpCounters b) (dspCounters b) (ticks b).
Definition demo_sent : demo_state :=
  demo_send demo_q2 (demo_send demo_q (put_rest (demo_known (rest demo_sA)) demo_sA)).
Definition demo_due : demo_state := put_rest (demo_later (rest demo_sent)) demo_sent.
Definition demo_push (h : Z) (c : MpCache.Cache (MpV3.request Transport.address) (MpV3.pending Transport.address)) :=
  (MpCache.pushByMsgId MpV3.p_sendPduHandle h
     (MpV3.mk_pending h h Usm.demo_manager 3 [117] 3 Usm.demo_authority [] demo_addr_B)
     (MpCache.newMsgID c).2).2.

Lemma demo_push_ok h c : (∀ m, is_Some (MpCache.msgIdIndex c !! m) → m < h) →
  (∀ m i t, MpCache.msgIdIndex c !! m = Some (i, t) → MpV3.p_sendPduHandle i = m) →
  MpCache.wf MpV3.p_sendPduHandle c → MpCache.wf MpV3.p_sendPduHandle (demo_push h c).
Proof.
  intros Hlt Hh Hwf. unfold demo_push. eapply MpCache.step_wf; [apply MpCache.step_pushByMsgId|].
  - cbn. intros m i t Hm. unfold MpCache.newMsgID in Hm. munfold. destruct (NextId.call _).
    cbn in Hm. rewrite (Hh _ _ _ Hm). specialize (Hlt m (mk_is_Some _ _ Hm)). lia.
  - eapply MpCache.step_wf; [apply MpCache.step_newMsgID|done].
Qed.

#[local] Instance peer_eq_dec : EqDecision MpV3.peer.
Proof. solve_decision. Defined.
Lemma engines_one (m : Mp3) k p t : MpV3.engineIdCacheExpQueue m = {[ t := [k] ]} →
  MpV3.engineIdCache m = {[ k := p ]} → MpV3.expirationTimer m <= t → MpV3Engines.engines_ok m.
Proof.
  intros Hq Hp Ht. split; rewrite ?Hq, ?Hp.
  - by intros t' ks [<- _]%lookup_singleton_Some.
  - intros t' ks [_ <-]%lookup_singleton_Some. apply NoDup_singleton.
  - intros t1 t2 ks ks' j [<- _]%lookup_singleton_Some [<- _]%lookup_singleton_Some. done.
  - intros j. setoid_rewrite lookup_singleton_Some. rewrite lookup_singleton_is_Some. split.
    + intros <-. exists t, [k]. split; [done|by left].
    + intros (t' & ks & [_ <-] & Hk). by apply list_elem_of_singleton in Hk.
Qed.

Lemma demo_due_ok : caches_ok (rest demo_due).
Proof.
  assert (Hc : MpV3.cache (mpV3 (rest demo_due)) = demo_push 1 (demo_push 0 demo_cache))
    by (vm_compute; reflexivity).
  assert (H1 : MpCache.msgIdIndex (demo_push 0 demo_cache) =
    {[ 0 := (MpV3.mk_pending 0 0 Usm.demo_manager 3 [117] 3 Usm.demo_authority [] demo_addr_B, 600) ]})
    by (vm_compute; reflexivity).
  assert (Hv1 : mpV1 (rest demo_due) = demo_cache) by (vm_compute; reflexivity).
  assert (Hv2 : mpV2c (rest demo_due) = demo_cache) by (vm_compute; reflexivity).
  split.
  - unfold MpV1Spec.ok. cbn [mp world_v1]. rewrite Hv1. apply MpCache.init_wf.
  - unfold MpV1Spec.ok. cbn [mp world_v2c]. rewrite Hv2. apply MpCache.init_wf.
  - unfold MpV3Spec.ok. cbn [mp world_v3]. rewrite Hc. apply demo_push_ok.
    + rewrite H1. intros m [x [<- _]%lookup_singleton_Some]. lia.
    + rewrite H1. by intros m i t [<- [= <- _]]%lookup_singleton_Some.
    + apply demo_push_ok; [..|apply MpCache.init_wf].
      * intros m. cbn. rewrite lookup_empty. by intros [].
      * intros m i t. cbn. by rewrite lookup_empty.
  - assert (Hq : bool_decide (MpV3.engineIdCacheExpQueue (mpV3 (rest demo_due)) = {[ 600 := [demo_addr_B] ]} ∧
      MpV3.engineIdCache (mpV3 (rest demo_due)) = {[ demo_addr_B := demo_peer ]} ∧
      MpV3.expirationTimer (mpV3 (rest demo_due)) <= 600) = true) by (vm_compute; reflexivity).
    apply bool_decide_eq_true_1 in Hq as (Hq & Hp & Ht). exact (engines_one _ _ _ _ Hq Hp Ht).
Qed.

Lemma demo_send_ok q s : DispatcherSpec.cache_ok s → DispatcherSpec.cache_ok (demo_send q s).
Proof.
  apply (DispatcherSpec.polite_sendPdu (subsystems demo_library manager) ticks (e_sendMessage manager) q
    (s, V1Pdu Usm.demo_pdu)).
Qed.
Lemma demo_later_ok b (s : demo_state) : DispatcherSpec.cache_ok s → DispatcherSpec.cache_ok (put_rest b s).
Proof. intros [H1 H2]. by split. Qed.

Definition has_callbacks (d : dict Z (gmap string (@arg unit unit))) : bool :=
  forallb (λ x, match get_cb x.2 with Ok (Some _) => true | _ => false end) d.
Lemma has_callbacks_each d h kw : has_callbacks d = true → dget d h = Some kw →
  ∃ f, get_cb kw = Ok (Some f).
Proof.
  unfold has_callbacks. rewrite forallb_forall. intros Hd Hh%dget_elem_of%list_elem_of_In.
  specialize (Hd _ Hh). cbn in Hd. destruct (get_cb kw) as [[f|]|]; [by exists f|done|done].
Qed.

Lemma demo_callback_quiet f c h o : DispatcherSpec.quiet ticks caches_ok (demo_callback f c h o).
Proof. intros s Hc Hi. exists tt, s. split_and!; try done. intros j. split; [lia|auto]. Qed.

Lemma timer_tick_reports_timeouts_witness :
  ∃ s', Engine.receiveTimerTick demo_library manager demo_callback demo_due = (Ok tt, s') ∧
    DispatcherSpec.calls_of (trace s') = [(0, Failed (status_of requestTimedOut))] ∧
    dkeys (cache demo_due) = [0; 1].
Proof.
  assert (Hd : DispatcherSpec.calls_of (trace demo_due) ++
    ((., Failed (status_of requestTimedOut)) <$> DispatcherSpec.due 10 (cache demo_due)) =
    [(0, Failed (status_of requestTimedOut))]) by (vm_compute; reflexivity).
  assert (Hk : dkeys (cache demo_due) = [0; 1]) by (vm_compute; reflexivity).
  assert (Hcb : has_callbacks (cache demo_due) = true) by (vm_compute; reflexivity).
  destruct (timer_tick_reports_timeouts demo_library manager demo_callback demo_due 10)
    as (s' & Hr & _ & Ht & _).
  - exact demo_callback_quiet.
  - apply demo_later_ok, demo_send_ok, demo_send_ok, demo_later_ok. split; [apply NoDup_nil_2|done].
  - exact demo_due_ok.
  - reflexivity.
  - intros h kw. apply has_callbacks_each. exact Hcb.
  - exists s'. split; [exact Hr|]. split; [rewrite Ht; exact Hd|exact Hk].
Defined.

Definition demo_v3only : config := demo_config Usm.demo_authority false.
Lemma legacy_versions_are_off_witness :
  Engine.receiveMessage demo_library demo_v3only demo_callback demo_app demo_defer demo_addr_A [1] demo_sB =
    (Ok tt, counted snmpInBadVersions (counted snmpInPkts demo_sB)).
Proof.
  apply (legacy_versions_are_off demo_library demo_v3only demo_callback demo_app demo_defer demo_addr_A [1] 1
    (mk_request (mk_outgoing demo_addr_B 1 2 [117] 1 None [] 1 true) 10 (Some tt) tt) demo_sB
    (V1Pdu demo_answer)); [reflexivity|discriminate|reflexivity|reflexivity].
Defined.
End demo.
End EngineSpec.
