(* ===== verification/Carrier.v ===== *)
(** * The transport dispatcher (src/pysnmp/carrier/base.py)

    [Timer]: the tick count and the periodic callbacks of
    [AbstractTransportDispatcher].  [Jobs]: its record of outstanding work.
    [Carrier]: its transports and receivers, and [AbstractTransport]'s record of
    the callbacks it was given.  The code counts time in seconds, as floats; the
    model counts it in microseconds, and a resolution is a whole number of
    twenties of them, so that the slack around a tick is exact. *)
From S2P Require Export Transport Wp.
#[local] Open Scope Z_scope.

(** [CarrierError] is a [PySnmpError]. *)
Abbreviation CarrierError := PySnmpError.

Module Timer.
Section timer.
(** A bare callback, and what it works on: a callback may do anything but
    register and unregister timers. *)
Context {F : Type} `{EqDecision F} {R : Type} (run : F → Z → M exn R unit).

(** ** [TimerCallable] *)
Record TimerCallable : Type := mk_timer { cbFun : F; nextCall : Z; interval : Z }.

Record state : Type := mk_state {
  timers : list TimerCallable;
  ticks : Z;
  timerResolution : Z;
  timerDelta : Z;
  nextTime : Z;
  rest : R;
}.
Abbreviation W := (M exn state).

Definition put_timers (l : list TimerCallable) (s : state) : state :=
  mk_state l (ticks s) (timerResolution s) (timerDelta s) (nextTime s) (rest s).
Definition put_rest (r : R) (s : state) : state :=
  mk_state (timers s) (ticks s) (timerResolution s) (timerDelta s) (nextTime s) r.

(** [timerResolution * 0.05] *)
Definition delta (timerResolution : Z) : Z := timerResolution / 20.
Definition half_a_second : Z := 500000.
(** [__init__] *)
Definition init (r : R) : state := mk_state [] 0 half_a_second (delta half_a_second) 0 r.

(** [TimerCallable.__init__]: the first call is due at once *)
Definition new_timer (f : F) (callInterval : Z) : TimerCallable := mk_timer f 0 callInterval.

(** [TimerCallable.__call__] *)
Definition call (t : TimerCallable) (timeNow : Z) : M exn R TimerCallable :=
  if nextCall t <=? timeNow then
    run (cbFun t) timeNow;;
    mret (mk_timer (cbFun t) (timeNow + interval t) (interval t))
  else mret t.

(** [registerTimerCbFun]; no interval, or 0, is the dispatcher's own *)
Definition registerTimerCbFun (f : F) (tickInterval : option Z) : W unit :=
  modify (λ s,
    let i := match tickInterval with
             | Some i => if i =? 0 then timerResolution s else i
             | None => timerResolution s
             end in
    put_timers (timers s ++ [new_timer f i]) s).

(** [list.remove], which compares a timer with the bare function *)
Fixpoint remove (f : F) (l : list TimerCallable) : option (list TimerCallable) :=
  match l with
  | [] => None
  | t :: l' => if decide (cbFun t = f) then Some l' else cons t <$> remove f l'
  end.
(** [unregisterTimerCbFun] *)
Definition unregisterTimerCbFun (f : option F) : W unit :=
  match f with
  | None => modify (put_timers [])
  | Some f =>
      l ← gets timers;
      match remove f l with
      | Some l => modify (put_timers l)
      | None => raise ValueError
      end
  end.

Definition getTimerResolution (s : state) : Z := timerResolution s.
Definition getTimerTicks (s : state) : Z := ticks s.

(** [setTimerResolution]: 10 milliseconds to 10 seconds *)
Definition setTimerResolution (r : Z) : W unit :=
  if (r <? 10000) || (10000000 <? r) then raise (CarrierError "Impossible timer resolution")
  else
    modify (λ s,
      mk_state
        ((λ t, if interval t =? timerResolution s then mk_timer (cbFun t) (nextCall t) r else t)
           <$> timers s)
        (ticks s) r (delta r) (nextTime s) (rest s)).

(** [for timerCallable in self.__timerCallables: timerCallable(timeNow)]: an
    exception ends the loop. *)
Fixpoint run_timers (l : list TimerCallable) (timeNow : Z) (r : R) :
    result exn unit * (list TimerCallable * R) :=
  match l with
  | [] => (Ok tt, ([], r))
  | t :: l' =>
      match call t timeNow r with
      | (Ok t, r) => let '(e, (l', r)) := run_timers l' timeNow r in (e, (t :: l', r))
      | (Err e, r) => (Err e, (t :: l', r))
      end
  end.

(** [handleTimerTick] *)
Definition handleTimerTick (timeNow : Z) : W unit := fun s =>
  let next := timeNow + timerResolution s - timerDelta s in
  let s := if nextTime s =? 0
           then mk_state (timers s) (ticks s) (timerResolution s) (timerDelta s) next (rest s)
           else s in
  if timeNow <=? nextTime s then (Ok tt, s)
  else
    let s := mk_state (timers s) (ticks s + 1) (timerResolution s) (timerDelta s) next (rest s) in
    let '(e, (l, r)) := run_timers (timers s) timeNow (rest s) in
    (e, put_rest r (put_timers l s)).

(** The loop of [handle_timeout] of the asyncio dispatcher: a tick at each of the
    times its sleep ends at *)
Fixpoint handle_timeout (wakeups : list Z) : W unit :=
  match wakeups with
  | [] => mret tt
  | t :: wakeups => handleTimerTick t;; handle_timeout wakeups
  end.
End timer.
Arguments TimerCallable : clear implicits.
Arguments state : clear implicits.
End Timer.

Module Jobs.
(** ** The jobs: what is outstanding under each id.  Runs of these operations
    are all that the loop of [runDispatcher] looks at. *)
Section jobs.
Context {K : Type} `{Countable K}.
Abbreviation jobs := (gmap K Z).

Definition jobStarted (jobId : K) (count : Z) : M exn jobs unit :=
  modify (λ j, <[jobId := default 0 (j !! jobId) + count]> j).
Definition jobFinished (jobId : K) (count : Z) : M exn jobs unit :=
  j ← gets (λ j, j !! jobId);
  match j with
  | None => raise KeyError
  | Some n =>
      if n - count =? 0 then modify (delete jobId) else modify (<[jobId := n - count]>)
  end.
Definition jobsArePending (j : jobs) : bool := bool_decide (j ≠ ∅).
End jobs.
End Jobs.

Module Carrier.
(** ** Transports and receivers *)
Section carrier.
(** Transports; the ids of receivers; receive, error and routing callbacks; and
    what the callbacks work on beside the dispatcher *)
Context {Tr I Re Er Ro X : Type} `{Countable Tr, Countable I}.

Record dispatcher : Type := mk_dispatcher {
  transports : dict oid Tr;
  transportDomainMap : gmap Tr oid;
  recvCallables : gmap (option I) Re;
  errorCallables : dict (option I) Er;
  routingCbFun : option Ro;
  (** of the transports: which have a receive callback, which an error callback *)
  receiving : gset Tr;
  reporting : gset Tr;
  world : X;
}.
Abbreviation W := (M exn dispatcher).

Definition put_transports (t : dict oid Tr) (m : gmap Tr oid) (s : dispatcher) : dispatcher :=
  mk_dispatcher t m (recvCallables s) (errorCallables s) (routingCbFun s) (receiving s) (reporting s)
    (world s).
Definition put_recv (r : gmap (option I) Re) (s : dispatcher) : dispatcher :=
  mk_dispatcher (transports s) (transportDomainMap s) r (errorCallables s) (routingCbFun s)
    (receiving s) (reporting s) (world s).
Definition put_error (e : dict (option I) Er) (s : dispatcher) : dispatcher :=
  mk_dispatcher (transports s) (transportDomainMap s) (recvCallables s) e (routingCbFun s)
    (receiving s) (reporting s) (world s).
Definition put_routing (r : option Ro) (s : dispatcher) : dispatcher :=
  mk_dispatcher (transports s) (transportDomainMap s) (recvCallables s) (errorCallables s) r
    (receiving s) (reporting s) (world s).
Definition put_callbacks (c e : gset Tr) (s : dispatcher) : dispatcher :=
  mk_dispatcher (transports s) (transportDomainMap s) (recvCallables s) (errorCallables s)
    (routingCbFun s) c e (world s).
Definition put_world (x : X) (s : dispatcher) : dispatcher :=
  mk_dispatcher (transports s) (transportDomainMap s) (recvCallables s) (errorCallables s)
    (routingCbFun s) (receiving s) (reporting s) x.
Definition on_world {A} (m : M exn X A) : W A := zoom world put_world m.

Definition init (x : X) : dispatcher := mk_dispatcher [] ∅ ∅ [] None ∅ ∅ x.

(** What a receiver does with a message, an error receiver with a failure; the
    recipient a routing function names; a transport's [sendMessage] and
    [closeTransport] beyond the base class *)
Context (receive : Re → oid → Transport.address → octets → W unit)
        (report : Er → oid → Transport.address → string → W unit)
        (route : Ro → oid → Transport.address → octets → W (option I))
        (sendOn : Tr → octets → Transport.address → M exn X unit)
        (closeOn : Tr → M exn X unit).

(** [_cbFun] *)
Definition cbFun (incomingTransport : Tr) (transportAddress : Transport.address)
    (incomingMessage : octets) : W unit :=
  m ← gets transportDomainMap;
  match m !! incomingTransport with
  | None => raise (CarrierError "Unregistered transport")
  | Some transportDomain =>
      f ← gets routingCbFun;
      recvId ← match f with
               | Some f => route f transportDomain transportAddress incomingMessage
               | None => mret None
               end;
      r ← gets recvCallables;
      match r !! recvId with
      | Some cb => receive cb transportDomain transportAddress incomingMessage
      | None => raise (CarrierError "No callback found - loosing incoming event")
      end
  end.

(** [_errorCbFun] *)
Definition errorCbFun (incomingTransport : Tr) (transportAddress : Transport.address)
    (transportError : string) : W unit :=
  m ← gets transportDomainMap;
  match m !! incomingTransport with
  | None => mret tt
  | Some transportDomain =>
      e ← gets errorCallables;
      mapM_ (λ cb, report cb.2 transportDomain transportAddress transportError) e
  end.

Definition registerRoutingCbFun (f : Ro) : W unit :=
  r ← gets routingCbFun;
  match r with
  | Some _ => raise (CarrierError "Data routing callback already registered")
  | None => modify (put_routing (Some f))
  end.
Definition unregisterRoutingCbFun : W unit := modify (put_routing None).

Definition registerRecvCbFun (recvCb : Re) (recvId : option I) : W unit :=
  r ← gets recvCallables;
  match r !! recvId with
  | Some _ => raise (CarrierError "Receive callback already registered")
  | None => modify (put_recv (<[recvId := recvCb]> r))
  end.
Definition unregisterRecvCbFun (recvId : option I) : W unit :=
  modify (λ s, put_recv (delete recvId (recvCallables s)) s).

Definition registerErrorCbFun (errorCb : Er) (recvId : option I) : W unit :=
  e ← gets errorCallables;
  if din e recvId then raise (CarrierError "Transport error callback already registered")
  else modify (put_error (dset e recvId errorCb)).
Definition unregisterErrorCbFun (recvId : option I) : W unit :=
  modify (λ s, put_error (ddel (errorCallables s) recvId) s).

(** [AbstractTransport.registerCbFun], [registerErrorCbFun] and their inverses *)
Definition transport_registerCbFun (t : Tr) : W unit :=
  c ← gets receiving;
  if decide (t ∈ c) then raise (CarrierError "Callback function already registered")
  else modify (λ s, put_callbacks ({[t]} ∪ receiving s) (reporting s) s).
Definition transport_unregisterCbFun (t : Tr) : W unit :=
  modify (λ s, put_callbacks (receiving s ∖ {[t]}) (reporting s) s).
Definition transport_registerErrorCbFun (t : Tr) : W unit :=
  modify (λ s, put_callbacks (receiving s) ({[t]} ∪ reporting s) s).
Definition transport_unregisterErrorCbFun (t : Tr) : W unit :=
  modify (λ s, put_callbacks (receiving s) (reporting s ∖ {[t]}) s).
(** [closeTransport]: what a subclass does comes first *)
Definition closeTransport (t : Tr) : W unit :=
  on_world (closeOn t);;
  transport_unregisterCbFun t;;
  transport_unregisterErrorCbFun t.

Definition registerTransport (tDomain : oid) (t : Tr) : W unit :=
  l ← gets transports;
  if din l tDomain then raise (CarrierError "Transport already registered")
  else
    transport_registerCbFun t;;
    transport_registerErrorCbFun t;;
    modify (λ s, put_transports (dset (transports s) tDomain t)
                   (<[t := tDomain]> (transportDomainMap s)) s).

Definition unregisterTransport (tDomain : oid) : W unit :=
  l ← gets transports;
  match dget l tDomain with
  | None => raise (CarrierError "Transport not registered")
  | Some t =>
      transport_unregisterCbFun t;;
      transport_unregisterErrorCbFun t;;
      m ← gets transportDomainMap;
      match m !! t with
      | None => raise KeyError
      | Some _ => modify (put_transports (ddel l tDomain) (delete t m))
      end
  end.

Definition getTransport (tDomain : oid) : W Tr :=
  l ← gets transports;
  match dget l tDomain with
  | Some t => mret t
  | None => raise (CarrierError "Transport not registered")
  end.

Definition sendMessage (outgoingMessage : octets) (tDomain : oid) (a : Transport.address) : W unit :=
  l ← gets transports;
  match dget l tDomain with
  | Some t => on_world (sendOn t outgoingMessage a)
  | None => raise (CarrierError "No suitable transport domain")
  end.

(** [for tDomain in list(self.__transports)] *)
Definition close_transports : W unit :=
  l ← gets (λ s, dkeys (transports s));
  mapM_ (λ tDomain,
    l ← gets transports;
    match dget l tDomain with
    | None => raise KeyError
    | Some t => closeTransport t;; unregisterTransport tDomain
    end) l.

(** [closeDispatcher], the timers apart ([Timer.unregisterTimerCbFun None]) *)
Definition closeDispatcher : W unit :=
  close_transports;;
  modify (λ s, put_transports [] (transportDomainMap s) s);;
  unregisterRecvCbFun None;;
  unregisterErrorCbFun None.
End carrier.
Arguments dispatcher : clear implicits.
Arguments dispatcher _ _ _ _ _ _ {_ _ _ _}.
End Carrier.
