(* ===== verification/CarrierSpec.v ===== *)
(** * What the transport dispatcher promises

    Ticks follow the clock; a job is outstanding until it is retired; the two maps
    of the transports agree. *)
From S2P Require Export Carrier.
#[local] Open Scope Z_scope.

Module TimerSpec.
Import Timer.
Section timer.
Context {F R : Type} (run : F → Z → M exn R unit).
Abbreviation state := (Timer.state F R).
Implicit Types (s : state) (t : Z).

(** The least time between two ticks *)
Definition gap s : Z := timerResolution s - timerDelta s.

(** The times a timer wakes up at *)
Fixpoint ascending (t : Z) (l : list Z) : Prop :=
  match l with [] => True | t' :: l => t <= t' ∧ ascending t' l end.
(** ... with more than [g] between them *)
Fixpoint spaced (g t : Z) (l : list Z) : Prop :=
  match l with [] => True | t' :: l => t + g < t' ∧ spaced g t' l end.

(** The settings a tick leaves alone, and what it makes of the others *)
Lemma tick_spec t s : let s' := (handleTimerTick run t s).2 in
  timerResolution s' = timerResolution s ∧ timerDelta s' = timerDelta s ∧
  let next := if nextTime s =? 0 then t + gap s else nextTime s in
  (ticks s' = ticks s ∧ nextTime s' = next ∧ t <= next ∧ (handleTimerTick run t s).1 = Ok tt ∨
   ticks s' = ticks s + 1 ∧ nextTime s' = t + gap s ∧ next < t).
Proof.
  unfold handleTimerTick, gap.
  replace (t + (timerResolution s - timerDelta s)) with (t + timerResolution s - timerDelta s) by lia.
  destruct (nextTime s =? 0); cbn.
  - destruct (Z.leb_spec t (t + timerResolution s - timerDelta s)); cbn; [auto 10|].
    destruct (run_timers run (timers s) t (rest s)) as [e [l r]]. cbn. auto 10.
  - destruct (Z.leb_spec t (nextTime s)); cbn; [auto 10|].
    destruct (run_timers run (timers s) t (rest s)) as [e [l r]]. cbn. auto 10.
Qed.

(** The ticks follow the clock: those of a run of the timer take at least the
    resolution less the slack each, and when it wakes up that far apart it ticks
    every time but the first. *)
Theorem ticks_follow_the_clock s s' t l :
  nextTime s = 0 → 0 < t → 0 < gap s → ascending t l → handle_timeout run (t :: l) s = (Ok tt, s') →
  (ticks s' - ticks s) * gap s <= default t (last l) - t ∧
  (spaced (gap s) t l → ticks s' = ticks s + Z.of_nat (length l)).
Proof.
  intros Hn Ht Hg Hl. cbn [handle_timeout]. unfold mbind, M_bind.
  pose proof (tick_spec t s) as Ht0. destruct (handleTimerTick run t s) as [[[]|e] s1]; [|done].
  cbn in Ht0. rewrite Hn in Ht0. cbn in Ht0. destruct Ht0 as (Hr & Hd & [(Hk & Hnx & _ & _)|(_ & _ & ?)]); [|lia].
  assert (Hg1 : gap s1 = gap s) by (unfold gap; lia). clear Hr Hd.
  rewrite <- Hk. clear Hk. rewrite <- Hg1 in *.
  (* from a state that waits for [nextTime], which was set at [u] *)
  assert (Hgen : ∀ l u v s1, 0 < u → 0 < gap s1 → nextTime s1 = u + gap s1 → u <= v → ascending v l →
    handle_timeout run l s1 = (Ok tt, s') →
    (ticks s' - ticks s1) * gap s1 <= default v (last l) - u ∧
    (u = v → spaced (gap s1) u l → ticks s' = ticks s1 + Z.of_nat (length l))).
  { clear. induction l as [|t l IH]; intros u v s1 Hu Hg Hn Huv Hl.
    { cbn. intros [= <-]. split; lia. }
    cbn [handle_timeout]. unfold mbind, M_bind. destruct Hl as [Hvt Hl].
    pose proof (tick_spec t s1) as Ht0. destruct (handleTimerTick run t s1) as [[[]|e] s2]; [|done].
    cbn in Ht0. destruct (Z.eqb_spec (nextTime s1) 0) as [|_]; [lia|].
    destruct Ht0 as (Hr & Hd & Ht0). assert (Hg2 : gap s2 = gap s1) by (unfold gap; lia).
    assert (Hlast : ∀ d, default d (last (t :: l)) = default t (last l)).
    { intros d. rewrite last_cons. by destruct (last l). }
    rewrite Hlast. intros Hrun. destruct Ht0 as [(Hk & Hnx & Hle & _)|(Hk & Hnx & Hlt)].
    - destruct (IH u t s2) as [H1 _]; [done|lia|lia|lia|done|done|]. rewrite Hg2, Hk in H1.
      split; [done|]. cbn [spaced]. lia.
    - destruct (IH t t s2) as [H1 H2]; [lia|lia|lia|lia|done|done|]. rewrite Hg2, Hk in *.
      split; [lia|]. cbn [spaced length]. intros _ [_ Hsp]. rewrite H2 by done. lia. }
  intros Hrun. destruct (Hgen l t t s1 Ht Hg Hnx ltac:(lia) Hl Hrun) as [H1 H2]. auto.
Qed.

(** Two calls of a timer are at least its interval apart. *)
Lemma call_spacing f t t' r r' (x x' : TimerCallable F) : cbFun x = f →
  call run x t r = (Ok x', r') → nextCall x <= t → t' < t + interval x →
  call run x' t' r' = (Ok x', r').
Proof.
  intros _. unfold call. destruct (Z.leb_spec (nextCall x) t); [|lia]. munfold.
  destruct (run (cbFun x) t r) as [[u|e] r1]; [|done]. intros [= <- <-] _ Ht. cbn.
  destruct (Z.leb_spec (t + interval x) t'); [lia|done].
Qed.
End timer.

(** A timer that counts its calls *)
Definition demo_run (f : unit) (t : Z) : M exn Z unit := modify (λ n, n + 1).
Definition demo_timer : Timer.state unit Z := (registerTimerCbFun tt None (init (0 : Z))).2.

Lemma ticks_follow_the_clock_witness : ∃ s', handle_timeout demo_run [1000000; 1500000; 2000000] demo_timer = (Ok tt, s') ∧
  (ticks s' - 0) * 475000 <= 1000000 ∧ ticks s' = 2.
Proof.
  eexists. assert (Hrun : handle_timeout demo_run [1000000; 1500000; 2000000] demo_timer =
    (Ok tt, Timer.mk_state [mk_timer tt 2500000 500000] 2 500000 25000 2475000 2)) by (vm_compute; reflexivity).
  split; [exact Hrun|].
  destruct (ticks_follow_the_clock demo_run demo_timer _ 1000000 [1500000; 2000000] eq_refl ltac:(lia)
    ltac:(reflexivity) ltac:(cbn; lia) Hrun) as [H1 H2].
  split; [exact H1|]. apply H2. vm_compute. auto.
Defined.

(** A tick that comes early by less than the slack is counted, but the timers
    on the interval of the dispatcher sit it out. *)
Theorem early_tick_skips_timers :
  let '(_, s) := handle_timeout demo_run [1000000; 1500000; 1999999] demo_timer in
  ticks s = 2 ∧ Timer.rest s = 1.
Proof. vm_compute. done. Qed.
End TimerSpec.

Module JobsSpec.
Import Jobs.
Section jobs.
Context {K : Type} `{Countable K}.
Implicit Types (j : gmap K Z) (i : K).

(** No entry without outstanding work *)
Definition jobs_ok j : Prop := map_Forall (λ _ n, 0 < n) j.
Definition outstanding j i : Z := default 0 (j !! i).

Lemma jobStarted_ok j i n : jobs_ok j → 0 < n →
  ∃ j', jobStarted i n j = (Ok tt, j') ∧ jobs_ok j' ∧
    ∀ i', outstanding j' i' = outstanding j i' + if decide (i' = i) then n else 0.
Proof.
  intros Hj Hn. eexists. split; [done|]. split.
  - apply map_Forall_insert_2; [|done]. destruct (j !! i) as [m|] eqn:E; cbn; [|lia].
    specialize (Hj i m E). cbn in Hj. lia.
  - intros i'. unfold outstanding. destruct (decide (i' = i)) as [->|Hne].
    + by rewrite lookup_insert_eq.
    + rewrite lookup_insert_ne by done. lia.
Qed.
Lemma jobFinished_ok j i n : jobs_ok j → 0 < n → n <= outstanding j i →
  ∃ j', jobFinished i n j = (Ok tt, j') ∧ jobs_ok j' ∧
    ∀ i', outstanding j' i' = outstanding j i' - if decide (i' = i) then n else 0.
Proof.
  intros Hj Hn Hle. unfold jobFinished. munfold. unfold outstanding in Hle.
  destruct (j !! i) as [m|] eqn:E; cbn in Hle; [|lia]. destruct (Z.eqb_spec (m - n) 0) as [Hz|Hz].
  - eexists. split; [done|]. split; [by apply map_Forall_delete|]. intros i'. unfold outstanding.
    destruct (decide (i' = i)) as [->|Hne]; [rewrite lookup_delete_eq, E; cbn; lia|].
    rewrite lookup_delete_ne by done. lia.
  - eexists. split; [done|]. split; [apply map_Forall_insert_2; [lia|done]|]. intros i'. unfold outstanding.
    destruct (decide (i' = i)) as [->|Hne]; [rewrite lookup_insert_eq, E; cbn; lia|].
    rewrite lookup_insert_ne by done. lia.
Qed.
(** The loop runs on exactly while something is outstanding. *)
Lemma jobsArePending_iff j : jobs_ok j → jobsArePending j = true ↔ ∃ i, 0 < outstanding j i.
Proof.
  intros Hj. unfold jobsArePending. rewrite bool_decide_eq_true. split.
  - intros Hne. apply map_choose in Hne as (i & n & Hi). exists i. unfold outstanding. rewrite Hi.
    exact (Hj i n Hi).
  - intros [i Hi] ->. unfold outstanding in Hi. rewrite lookup_empty in Hi. cbn in Hi. lia.
Qed.
End jobs.
End JobsSpec.

Module CarrierSpec.
Import Carrier.
Section carrier.
Context {Tr I Re Er Ro X : Type} `{Countable Tr, Countable I}.
Abbreviation disp := (dispatcher Tr I Re Er Ro X).
Abbreviation W := (M exn disp).
Implicit Types (s : disp) (t : Tr) (d : oid).

(** The two maps agree, and the transports hold the dispatcher's callbacks. *)
Record maps_agree s : Prop := {
  ma_dict : dict_ok (transports s);
  ma_agree : ∀ d t, dget (transports s) d = Some t ↔ transportDomainMap s !! t = Some d;
  ma_receiving : ∀ d t, dget (transports s) d = Some t → t ∈ receiving s;
}.

(** [m] keeps what [maps_agree] is about. *)
Definition keeps_maps {A} (m : W A) : Prop := ∀ s, maps_agree s → maps_agree (m s).2.

Lemma carrier_bind {A B} (m : W A) (k : A → W B) :
  keeps_maps m → (∀ x, keeps_maps (k x)) → keeps_maps (m ≫= k).
Proof.
  intros Hm Hk s Hs. unfold mbind, M_bind. specialize (Hm s Hs).
  destruct (m s) as [[x|e] s1]; [by apply Hk|done].
Qed.

Lemma registerTransport_agree d t : keeps_maps (registerTransport d t).
Proof.
  intros s [Hd Ha Hr]. unfold registerTransport, transport_registerCbFun, transport_registerErrorCbFun. munfold.
  destruct (din (transports s) d) eqn:Hin; [by split|]. apply din_false in Hin.
  destruct (decide (t ∈ receiving s)) as [|Hnr]; cbn; [by split|].
  assert (Hnt : ∀ d', dget (transports s) d' ≠ Some t).
  { intros d' Hd'. by apply Hnr, (Hr d'). }
  assert (Hnm : transportDomainMap s !! t = None).
  { destruct (transportDomainMap s !! t) as [d'|] eqn:E; [|done]. by apply Ha, Hnt in E. }
  split; cbn.
  - by apply dset_ok.
  - intros d' t'. rewrite dget_dset. destruct (decide (d' = d)) as [->|Hne].
    + split.
      * intros [= <-]. apply lookup_insert_eq.
      * destruct (decide (t = t')) as [<-|Hnt']; [done|]. rewrite lookup_insert_ne by done.
        intros Hm. apply Ha in Hm. congruence.
    + rewrite Ha. destruct (decide (t = t')) as [<-|Hnt'].
      * rewrite Hnm, lookup_insert_eq. split; [done|]. congruence.
      * by rewrite lookup_insert_ne.
  - intros d' t'. rewrite dget_dset. case_decide; [intros [= <-]; set_solver|].
    intros Hg%Hr. set_solver.
Qed.

Lemma unregisterTransport_agree d : keeps_maps (unregisterTransport d).
Proof.
  intros s [Hd Ha Hr]. unfold unregisterTransport, transport_unregisterCbFun, transport_unregisterErrorCbFun. munfold.
  destruct (dget (transports s) d) as [t|] eqn:Ht; [|by split]. cbn.
  rewrite (proj1 (Ha d t) Ht). split; cbn.
  - by apply ddel_ok.
  - intros d' t'. rewrite dget_ddel by done. destruct (decide (d' = d)) as [->|Hne].
    + split; [done|]. destruct (decide (t = t')) as [<-|Hnt']; [by rewrite lookup_delete_eq|].
      rewrite lookup_delete_ne by done. rewrite <- Ha. congruence.
    + rewrite Ha. destruct (decide (t = t')) as [<-|Hnt']; [|by rewrite lookup_delete_ne].
      rewrite lookup_delete_eq. split; [|done]. apply Ha in Ht. congruence.
  - intros d' t'. rewrite dget_ddel by done. case_decide; [done|]. intros Hg.
    apply elem_of_difference. split; [by eapply Hr|]. intros ->%elem_of_singleton.
    apply Ha in Ht, Hg. congruence.
Qed.

(** From a dispatcher without transports, whatever is registered and
    unregistered, the map from domains to transports and the one back agree: a
    message is reported for the domain its transport is registered for. *)
Theorem transports_agree (ops : list (oid * option Tr)) x :
  let s := (mapM_ (λ op, match op.2 with
                         | Some t => try_except (registerTransport op.1 t) (λ _, Some (mret tt))
                         | None => try_except (unregisterTransport op.1) (λ _, Some (mret tt))
                         end) ops (init x : disp)).2 in
  ∀ d t, dget (transports s) d = Some t ↔ transportDomainMap s !! t = Some d.
Proof.
  assert (Hall : ∀ ops, keeps_maps (mapM_ (λ op : oid * option Tr, match op.2 with
     | Some t => try_except (registerTransport op.1 t) (λ _, Some (mret tt))
     | None => try_except (unregisterTransport op.1) (λ _, Some (mret tt)) end) ops)).
  { clear. induction ops as [|[d [t|]] ops IH]; [by intros s|..]; cbn [mapM_ fst snd];
      (apply carrier_bind; [|done]); intros s Hs; unfold try_except.
    - pose proof (registerTransport_agree d t s Hs) as Hr. by destruct (registerTransport d t s) as [[]].
    - pose proof (unregisterTransport_agree d s Hs) as Hr. by destruct (unregisterTransport d s) as [[]]. }
  intros s. apply Hall. split; cbn; [constructor| |done].
  intros d t. by rewrite lookup_empty.
Qed.
End carrier.
End CarrierSpec.
