(* ===== verification/Stream.v ===== *)
(** * Stream transports (src/pysnmp/carrier/asyncio/stream/base.py)

    [decodeMessageLength] finds where a message ends on a stream;
    [SnmpStreamProtocol] is one connection, [StreamAsyncioTransport] the table of
    connections and the messages that wait for one.  What asyncio calls is an
    operation each: a connection that is made, that is lost, data that arrives, a
    connection attempt that ends.  What is put off with [call_soon] is appended to
    [scheduled], which the loop runs from the front. *)
From S2P Require Export Carrier.
#[local] Open Scope Z_scope.

Module Stream.

(** ** Framing *)

Definition BER_SEQUENCE : Z := 48.

(** [StreamFramingError] is a [CarrierError]. *)
Definition octet_at (i : nat) (o : octets) : Z := default 0 (o !! i).
Definition decodeMessageLength (o : octets) (maxMessageSize : option Z) : result exn (option Z) :=
  if Z.of_nat (length o) <? 2 then Ok None
  else if negb (octet_at 0 o =? BER_SEQUENCE) then Err (CarrierError "Not an SNMP message")
  else
    let lengthOctet := octet_at 1 o in
    if lengthOctet <? 128 then Ok (Some (2 + lengthOctet))
    else if lengthOctet =? 128 then Err (CarrierError "Indefinite-length SNMP message")
    else if lengthOctet =? 255 then Err (CarrierError "Reserved BER length form 0xff")
    else
      let countOfLengthOctets := Z.land lengthOctet 127 in
      if Z.of_nat (length o) <? 2 + countOfLengthOctets then Ok None
      else
        let totalLength := 2 + countOfLengthOctets +
          from_be (take (Z.to_nat countOfLengthOctets) (drop 2 o)) in
        match maxMessageSize with
        | Some m => if m <? totalLength then Err (CarrierError "exceeds what this transport accepts")
                    else Ok (Some totalLength)
        | None => Ok (Some totalLength)
        end.

(** ** The transport *)

(** A connection; [written] is what it was given to write, while it could *)
Record protocol : Type := mk_protocol {
  transportAddress : Transport.address;
  buffer : octets;
  isOpen : bool;
  written : list octets;
}.

(** What the loop was asked to call *)
Inductive callback : Type :=
  | Receive (transportAddress : Transport.address) (incomingMessage : octets)
  | Report (transportAddress : Transport.address) (descr : string).

Record state : Type := mk_state {
  writeQ : list (octets * Transport.address);
  connections : gmap Transport.address nat;
  connectTasks : gset Transport.address;
  clientMode : bool;
  (** the callbacks the dispatcher registered *)
  cbFun : bool;
  errorCbFun : bool;
  (** every connection there was, by number *)
  protocols : list protocol;
  scheduled : list callback;
}.
Abbreviation W := (M exn state).

Definition maxMessageSize : option Z := Some (2 * 1024 * 1024).

(** A transport that was just made and registered with a dispatcher *)
Definition init : state := mk_state [] ∅ ∅ false true true [] [].

Definition put_writeQ q s := mk_state q (connections s) (connectTasks s) (clientMode s) (cbFun s)
  (errorCbFun s) (protocols s) (scheduled s).
Definition put_connections c s := mk_state (writeQ s) c (connectTasks s) (clientMode s) (cbFun s)
  (errorCbFun s) (protocols s) (scheduled s).
Definition put_tasks t s := mk_state (writeQ s) (connections s) t (clientMode s) (cbFun s)
  (errorCbFun s) (protocols s) (scheduled s).
Definition put_client b s := mk_state (writeQ s) (connections s) (connectTasks s) b (cbFun s)
  (errorCbFun s) (protocols s) (scheduled s).
Definition put_callbacks b e s := mk_state (writeQ s) (connections s) (connectTasks s) (clientMode s)
  b e (protocols s) (scheduled s).
Definition put_protocols p s := mk_state (writeQ s) (connections s) (connectTasks s) (clientMode s)
  (cbFun s) (errorCbFun s) p (scheduled s).
Definition put_scheduled l s := mk_state (writeQ s) (connections s) (connectTasks s) (clientMode s)
  (cbFun s) (errorCbFun s) (protocols s) l.

Definition set_buffer b p := mk_protocol (transportAddress p) b (isOpen p) (written p).
Definition set_open b p := mk_protocol (transportAddress p) (buffer p) b (written p).
(** [transport.write]: asyncio drops what is written to a closing connection. *)
Definition write (m : octets) p :=
  if isOpen p then mk_protocol (transportAddress p) (buffer p) (isOpen p) (written p ++ [m]) else p.

(** A connection by its number; asyncio calls the ones it was given. *)
Definition on_protocol (c : nat) (f : protocol → protocol) : W unit :=
  modify (λ s, put_protocols (alter f c (protocols s)) s).
Definition get_protocol (c : nat) : W protocol :=
  p ← gets (λ s, protocols s !! c);
  match p with Some p => mret p | None => raise AttributeError end.

(** [loop.call_soon] *)
Definition call_soon (f : callback) : W unit :=
  modify (λ s, put_scheduled (scheduled s ++ [f]) s).

(** [_reportError] *)
Definition reportError (a : Transport.address) (descr : string) : W unit :=
  e ← gets errorCbFun;
  if e : bool then call_soon (Report a descr) else mret tt.

(** [_discardQueuedMessages] *)
Definition discardQueuedMessages (key : Transport.address) : W nat :=
  q ← gets writeQ;
  let stillWaiting := filter (λ x : octets * Transport.address, x.2 ≠ key) q in
  modify (put_writeQ stillWaiting);;
  mret (length q - length stillWaiting)%nat.

(** [_failQueuedMessages] *)
Definition failQueuedMessages (a : Transport.address) (descr : string) : W unit :=
  dropped ← discardQueuedMessages a;
  if (dropped =? 0)%nat then mret tt else reportError a descr.

(** [_connectionMade]: the messages waiting for the peer go out, in order *)
Definition connectionMade (c : nat) : W unit :=
  p ← get_protocol c;
  let key := transportAddress p in
  modify (λ s, put_connections (<[key := c]> (connections s)) s);;
  q ← gets writeQ;
  mapM_ (λ m : octets * Transport.address, on_protocol c (write m.1))
    (filter (λ x : octets * Transport.address, x.2 = key) q);;
  modify (put_writeQ (filter (λ x : octets * Transport.address, x.2 ≠ key) q)).

(** [connection_made] of a new connection, dialled to or accepted from an address *)
Definition connection_made (a : Transport.address) : W nat :=
  c ← gets (λ s, length (protocols s));
  modify (λ s, put_protocols (protocols s ++ [mk_protocol a [] true []]) s);;
  connectionMade c;;
  mret c.

(** [_connectionLost], [connection_lost]; the socket is closed by then *)
Definition connection_lost (c : nat) (exc : option string) : W unit :=
  on_protocol c (set_open false);;
  p ← get_protocol c;
  let key := transportAddress p in
  modify (λ s, if decide (connections s !! key = Some c)
               then put_connections (delete key (connections s)) s else s);;
  discardQueuedMessages key;;
  reportError key (match exc with Some e => e | None => "closed by the peer"%string end).

(** [_connectionFailed] *)
Definition connectionFailed (c : nat) (descr : string) : W unit :=
  on_protocol c (set_open false);;
  p ← get_protocol c;
  reportError (transportAddress p) descr.

(** [_messageReceived] *)
Definition messageReceived (c : nat) (incomingMessage : octets) : W unit :=
  b ← gets cbFun;
  if b : bool then p ← get_protocol c; call_soon (Receive (transportAddress p) incomingMessage)
  else raise (CarrierError "Unable to call cbFun").

(** The loop of [data_received]; a round takes at least two octets out of the
    buffer, so [fuel] is enough when it exceeds their number. *)
Fixpoint frames (fuel : nat) (c : nat) : W unit :=
  match fuel with
  | O => mret tt
  | S fuel =>
      p ← get_protocol c;
      match decodeMessageLength (buffer p) maxMessageSize with
      | Err (PySnmpError e) => connectionFailed c e
      | Err e => raise e
      | Ok None => mret tt
      | Ok (Some n) =>
          if Z.of_nat (length (buffer p)) <? n then mret tt
          else
            let incomingMessage := take (Z.to_nat n) (buffer p) in
            on_protocol c (set_buffer (drop (Z.to_nat n) (buffer p)));;
            messageReceived c incomingMessage;;
            frames fuel c
      end
  end.

(** [data_received] *)
Definition data_received (c : nat) (data : octets) : W unit :=
  on_protocol c (λ p, set_buffer (buffer p ++ data) p);;
  p ← get_protocol c;
  frames (Datatypes.S (length (buffer p))) c.

(** [_connect] *)
Definition connect (key : Transport.address) : W unit :=
  modify (λ s, put_tasks ({[key]} ∪ connectTasks s) s).

(** How the attempt of [_connectAndFlush] ends; a connection that is made is
    there, by [connection_made], before the attempt ends. *)
Inductive attempt : Type :=
  | Connected
  | Refused (descr : string)
  | Cancelled.
Definition connectAndFlush (key : Transport.address) (a : attempt) : W unit :=
  match a with
  | Refused descr => failQueuedMessages key descr
  | Connected | Cancelled => mret tt
  end;;
  modify (λ s, put_tasks (connectTasks s ∖ {[key]}) s).

(** [sendMessage] *)
Definition sendMessage (outgoingMessage : octets) (key : Transport.address) : W unit :=
  s ← gets id;
  let connection := c ← connections s !! key; p ← protocols s !! c; if isOpen p then Some c else None in
  match connection with
  | Some c => on_protocol c (write outgoingMessage)
  | None =>
      if negb (clientMode s) then raise (CarrierError "No open connection")
      else
        modify (λ s, put_writeQ (writeQ s ++ [(outgoingMessage, key)]) s);;
        connect key
  end.

(** [openClientMode] *)
Definition openClientMode : W unit := modify (put_client true).

(** [closeTransport]: the attempts are cancelled, the connections closed *)
Definition closeTransport : W unit :=
  modify (put_tasks ∅);;
  l ← gets (λ s, map_to_list (connections s));
  mapM_ (λ x : Transport.address * nat, on_protocol x.2 (set_open false)) l;;
  modify (put_connections ∅);;
  modify (put_writeQ []);;
  modify (put_callbacks false false).

(** ** What may happen to a transport *)
Inductive event : Type :=
  | Send (m : octets) (a : Transport.address)
  | Made (a : Transport.address)
  | Lost (c : nat) (exc : option string)
  | Data (c : nat) (data : octets)
  | Attempted (a : Transport.address) (r : attempt)
  | OpenClient.

Definition step (e : event) : W unit :=
  match e with
  | Send m a => sendMessage m a
  | Made a => connection_made a;; mret tt
  | Lost c exc => connection_lost c exc
  | Data c data => data_received c data
  | Attempted a r => connectAndFlush a r
  | OpenClient => openClientMode
  end.
End Stream.
