(* ===== verification/StreamSpec.v ===== *)
(** * What a stream transport promises

    Messages come off a connection whole, in order and whatever the reads were;
    what is buffered is bounded; a message that was taken to send is written once,
    in its turn, to a connection of its peer, or waits for one, or its loss is
    reported. *)
From S2P Require Export Stream.
Import Stream.
#[local] Open Scope Z_scope.

Module StreamSpec.
Implicit Types (s : state) (b data : octets) (c : nat).

(** ** Framing as a function of the octets *)

(** The messages at the head of a buffer, what is left, and why it cannot be read *)
Fixpoint deframe (fuel : nat) b : list octets * (octets * option exn) :=
  match fuel with
  | O => ([], (b, None))
  | S fuel =>
      match decodeMessageLength b maxMessageSize with
      | Err e => ([], (b, Some e))
      | Ok None => ([], (b, None))
      | Ok (Some n) =>
          if Z.of_nat (length b) <? n then ([], (b, None))
          else
            let r := deframe fuel (drop (Z.to_nat n) b) in
            (take (Z.to_nat n) b :: r.1, r.2)
      end
  end.

(** *** What the header of a message tells *)
Lemma octet_at_app i b data : (i < length b)%nat → octet_at i (b ++ data) = octet_at i b.
Proof. intros Hi. unfold octet_at. by rewrite lookup_app_l. Qed.

Lemma decode_err_kind b m e : decodeMessageLength b m = Err e → ∃ msg, e = PySnmpError msg.
Proof.
  unfold decodeMessageLength. repeat case_match; try done; intros [= <-]; eauto.
Qed.

Lemma decode_grows b data m r : decodeMessageLength b m = r → r ≠ Ok None →
  decodeMessageLength (b ++ data) m = r.
Proof.
  intros <-. unfold decodeMessageLength.
  destruct (Z.ltb_spec (Z.of_nat (length b)) 2) as [|H2]; [done|]. intros Hn.
  rewrite (proj2 (Z.ltb_ge _ _)) by (rewrite length_app; lia).
  rewrite !octet_at_app by lia.
  destruct (negb _); [done|]. destruct (octet_at 1 b <? 128); [done|].
  destruct (octet_at 1 b =? 128); [done|]. destruct (octet_at 1 b =? 255); [done|].
  destruct (Z.ltb_spec (Z.of_nat (length b)) (2 + Z.land (octet_at 1 b) 127)) as [|Hl]; [done|].
  rewrite (proj2 (Z.ltb_ge _ _)) by (rewrite length_app; lia).
  rewrite drop_app_le by lia. rewrite take_app_le by (rewrite length_drop; lia). done.
Qed.

(** A message is at least its header, which is there. *)
Lemma decode_pos b m n : is_octets b → decodeMessageLength b m = Ok (Some n) → 2 <= n.
Proof.
  intros Hb. unfold decodeMessageLength.
  assert (Hge : ∀ i, 0 <= octet_at i b).
  { intros i. unfold octet_at. destruct (b !! i) as [x|] eqn:E; cbn; [|lia].
    apply (Forall_lookup_1 _ _ _ _ Hb) in E. unfold is_octet in E. lia. }
  assert (Hfb : ∀ l, is_octets l → ∀ k, 0 <= k → 0 <= foldl (λ n x : Z, n * 256 + x) k l).
  { intros l Hl. induction Hl as [|x l Hx Hl IH]; intros k Hk; cbn; [done|].
    apply IH. unfold is_octet in Hx. lia. }
  repeat case_match; intros [= <-]; pose proof (Hge 1%nat);
    pose proof (proj2 (Z.land_nonneg (octet_at 1 b) 127) (or_introl (Hge 1%nat)));
    bool_to_prop; try lia;
    (enough (0 <= from_be (take (Z.to_nat (Z.land (octet_at 1 b) 127)) (drop 2 b))) by lia;
     apply Hfb; [by apply Forall_take, Forall_drop|lia]).
Qed.

#[local] Hint Resolve Forall_take Forall_drop : snmp.

Lemma deframe_fuel b fuel fuel' : is_octets b → (length b < fuel)%nat → (length b < fuel')%nat →
  deframe fuel b = deframe fuel' b.
Proof.
  revert b fuel'. induction fuel as [|fuel IH]; intros b fuel' Hb Hf Hf'; [lia|].
  destruct fuel' as [|fuel']; [lia|]. cbn.
  destruct (decodeMessageLength b maxMessageSize) as [[n|]|e] eqn:Hd; try done.
  pose proof (decode_pos _ _ _ Hb Hd) as Hn.
  destruct (Z.ltb_spec (Z.of_nat (length b)) n); [done|].
  rewrite (IH (drop (Z.to_nat n) b) fuel'); rewrite ?length_drop; try lia; [done|].
  by apply Forall_drop.
Qed.

(** The same with enough fuel *)
Definition split_messages b : list octets * (octets * option exn) := deframe (Datatypes.S (length b)) b.

Lemma split_step b : is_octets b → split_messages b =
  match decodeMessageLength b maxMessageSize with
  | Err e => ([], (b, Some e))
  | Ok None => ([], (b, None))
  | Ok (Some n) =>
      if Z.of_nat (length b) <? n then ([], (b, None))
      else let r := split_messages (drop (Z.to_nat n) b) in (take (Z.to_nat n) b :: r.1, r.2)
  end.
Proof.
  intros Hb. unfold split_messages at 1. cbn [deframe].
  destruct (decodeMessageLength b maxMessageSize) as [[n|]|e] eqn:Hd; try done.
  pose proof (decode_pos _ _ _ Hb Hd) as Hn.
  destruct (Z.ltb_spec (Z.of_nat (length b)) n); [done|].
  unfold split_messages. rewrite (deframe_fuel (drop (Z.to_nat n) b) (length b)
    (Datatypes.S (length (drop (Z.to_nat n) b)))); try done;
    rewrite ?length_drop; try lia. by apply Forall_drop.
Qed.

(** Reading in two parts is reading at once. *)
Lemma split_app b data : is_octets b → is_octets data →
  split_messages (b ++ data) =
    let r := split_messages b in
    match r.2.2 with
    | Some e => (r.1, (r.2.1 ++ data, Some e))
    | None => let r' := split_messages (r.2.1 ++ data) in (r.1 ++ r'.1, r'.2)
    end.
Proof.
  remember (length b) as n eqn:Hl. revert b Hl.
  induction (lt_wf n) as [n _ IH]. intros b -> Hb Hd.
  assert (Hbd : is_octets (b ++ data)) by (by apply Forall_app).
  rewrite (split_step b Hb).
  destruct (decodeMessageLength b maxMessageSize) as [[k|]|e] eqn:Hk.
  - pose proof (decode_pos _ _ _ Hb Hk) as Hpos.
    destruct (Z.ltb_spec (Z.of_nat (length b)) k) as [|Hle].
    { cbn [fst snd app]. by rewrite <- surjective_pairing. }
    rewrite (split_step (b ++ data) Hbd), (decode_grows b data _ _ Hk) by done.
    rewrite (proj2 (Z.ltb_ge _ _)) by (rewrite length_app; lia).
    rewrite take_app_le, drop_app_le by lia.
    rewrite (IH (length (drop (Z.to_nat k) b))); [|rewrite length_drop; lia|done|by apply Forall_drop|done].
    cbn zeta. destruct (split_messages (drop (Z.to_nat k) b)) as [l [r [e|]]]; done.
  - cbn [fst snd app]. by rewrite <- surjective_pairing.
  - cbn [fst snd]. rewrite (split_step (b ++ data) Hbd), (decode_grows b data _ _ Hk) by done. done.
Qed.

(** What is left of a failure is a failure again. *)
Lemma split_failed b e : is_octets b → (split_messages b).2.2 = Some e →
  ∀ data, is_octets data → split_messages ((split_messages b).2.1 ++ data) =
    ([], ((split_messages b).2.1 ++ data, Some e)).
Proof.
  remember (length b) as n eqn:Hl. revert b Hl.
  induction (lt_wf n) as [n _ IH]. intros b -> Hb He data Hd. revert He.
  rewrite (split_step b Hb).
  destruct (decodeMessageLength b maxMessageSize) as [[k|]|e'] eqn:Hk; [|done|].
  - pose proof (decode_pos _ _ _ Hb Hk) as Hpos.
    destruct (Z.ltb_spec (Z.of_nat (length b)) k) as [|Hle]; [done|]. cbn [fst snd]. intros He.
    eapply (IH (length (drop (Z.to_nat k) b))); [rewrite length_drop; lia|done|by apply Forall_drop|done|done].
  - cbn [fst snd]. intros [= ->]. rewrite split_step by (by apply Forall_app).
    by rewrite (decode_grows b data _ _ Hk).
Qed.

Lemma split_rest_octets b : is_octets b → is_octets (split_messages b).2.1.
Proof.
  remember (length b) as n eqn:Hl. revert b Hl.
  induction (lt_wf n) as [n _ IH]. intros b -> Hb. rewrite (split_step b Hb).
  destruct (decodeMessageLength b maxMessageSize) as [[k|]|e'] eqn:Hk; [|done|done].
  pose proof (decode_pos _ _ _ Hb Hk) as Hpos.
  destruct (Z.ltb_spec (Z.of_nat (length b)) k) as [|Hle]; [done|]. cbn [fst snd].
  eapply (IH (length (drop (Z.to_nat k) b))); [rewrite length_drop; lia|done|by apply Forall_drop].
Qed.

(** What waits for the rest of its message is shorter than a message may be. *)
Lemma split_rest_bound b : is_octets b → (split_messages b).2.2 = None →
  Z.of_nat (length (split_messages b).2.1) < 2097152.
Proof.
  remember (length b) as n eqn:Hl. revert b Hl.
  induction (lt_wf n) as [n _ IH]. intros b -> Hb. rewrite (split_step b Hb).
  destruct (decodeMessageLength b maxMessageSize) as [[k|]|e'] eqn:Hk; [| |done].
  - pose proof (decode_pos _ _ _ Hb Hk) as Hpos.
    destruct (Z.ltb_spec (Z.of_nat (length b)) k) as [Hlt|Hle]; cbn [fst snd].
    + intros _. enough (k <= 2097152) by lia. revert Hk. unfold decodeMessageLength, maxMessageSize.
      repeat case_match; intros [= ]; bool_to_prop; lia.
    + eapply (IH (length (drop (Z.to_nat k) b))); [rewrite length_drop; lia|done|by apply Forall_drop].
  - cbn. intros _. revert Hk. unfold decodeMessageLength.
    assert (H1 : ∀ x, Z.land x 127 <= 127).
    { intros x. pose proof (Z.land_ones x 7 ltac:(lia)) as E. change (Z.ones 7) with 127 in E.
      change (2 ^ 7) with 128 in E. pose proof (Z.mod_pos_bound x 128). lia. }
    repeat case_match; try done; bool_to_prop; specialize (H1 (octet_at 1 b)); lia.
Qed.

(** ** [data_received] does that *)
Definition with_protocol s c (p : protocol) : state := put_protocols (<[c := p]> (protocols s)) s.

Lemma get_protocol_eq s c p : protocols s !! c = Some p → get_protocol c s = (Ok p, s).
Proof. intros Hp. unfold get_protocol. munfold. by rewrite Hp. Qed.
Lemma on_protocol_eq s c p f : protocols s !! c = Some p →
  on_protocol c f s = (Ok tt, with_protocol s c (f p)).
Proof.
  intros Hp. unfold on_protocol, with_protocol. munfold. do 3 f_equal.
  apply list_eq. intros i. destruct (decide (i = c)) as [->|Hne].
  - rewrite list_lookup_alter_eq, Hp. cbn. symmetry. apply list_lookup_insert_eq.
    by apply lookup_lt_Some in Hp.
  - by rewrite list_lookup_alter_ne, list_lookup_insert_ne.
Qed.

(** The state after what [r] says of the octets of a connection [p] *)
Definition reports s (a : Transport.address) (e : option exn) : list callback :=
  match e with
  | Some (PySnmpError e) => if errorCbFun s then [Report a e] else []
  | _ => []
  end.
Definition served s c (p : protocol) (r : list octets * (octets * option exn)) : state :=
  put_scheduled (scheduled s ++ (Receive (transportAddress p) <$> r.1) ++
                 reports s (transportAddress p) r.2.2)
    (with_protocol s c (mk_protocol (transportAddress p) r.2.1
       (match r.2.2 with Some _ => false | None => isOpen p end) (written p))).

Lemma with_protocol_lookup s c p p' : protocols s !! c = Some p →
  protocols (with_protocol s c p') !! c = Some p'.
Proof. intros Hp. cbn. apply list_lookup_insert_eq. by apply lookup_lt_Some in Hp. Qed.
Lemma with_protocol_twice s c p p' : with_protocol (with_protocol s c p) c p' = with_protocol s c p'.
Proof. unfold with_protocol, put_protocols. cbn. by rewrite list_insert_insert_eq. Qed.
Lemma with_protocol_same s c p : protocols s !! c = Some p → with_protocol s c p = s.
Proof. intros Hp. unfold with_protocol, put_protocols. destruct s. cbn in *. by rewrite list_insert_id. Qed.

Lemma messageReceived_eq s c p m : protocols s !! c = Some p → cbFun s = true →
  messageReceived c m s = (Ok tt, put_scheduled (scheduled s ++ [Receive (transportAddress p) m]) s).
Proof.
  intros Hp Hcb. unfold messageReceived. munfold. rewrite Hcb.
  by rewrite (get_protocol_eq _ _ _ Hp).
Qed.

Lemma connectionFailed_eq s c p e : protocols s !! c = Some p →
  connectionFailed c e s = (Ok tt, served s c p ([], (buffer p, Some (PySnmpError e)))).
Proof.
  intros Hp. unfold connectionFailed, reportError, call_soon. munfold.
  rewrite (on_protocol_eq _ _ _ _ Hp). cbn [fst snd].
  rewrite (get_protocol_eq (with_protocol s c (set_open false p)) c (set_open false p))
    by (by eapply with_protocol_lookup).
  unfold served, reports. cbn. destruct (errorCbFun s); [done|].
  by rewrite app_nil_r; destruct s.
Qed.

Lemma frames_spec fuel : ∀ s c p, protocols s !! c = Some p → cbFun s = true → is_octets (buffer p) →
  frames fuel c s = (Ok tt, served s c p (deframe fuel (buffer p))).
Proof.
  assert (Hnone : ∀ s c p, protocols s !! c = Some p → served s c p ([], (buffer p, None)) = s).
  { intros s c p Hp. unfold served. cbn [fst snd fmap list_fmap reports app].
    rewrite app_nil_r. destruct p. cbn. rewrite with_protocol_same by done. by destruct s. }
  induction fuel as [|fuel IH]; intros s c p Hp Hcb Hb; cbn [frames deframe].
  { by rewrite Hnone. }
  unfold mbind, M_bind at 1. rewrite (get_protocol_eq _ _ _ Hp).
  destruct (decodeMessageLength (buffer p) maxMessageSize) as [[n|]|e] eqn:Hd.
  - destruct (Z.ltb_spec (Z.of_nat (length (buffer p))) n) as [|Hle]; [by rewrite Hnone|].
    unfold mbind, M_bind. rewrite (on_protocol_eq _ _ _ _ Hp). cbn iota beta.
    set (p1 := set_buffer (drop (Z.to_nat n) (buffer p)) p).
    rewrite (messageReceived_eq _ c p1) by (done || by eapply with_protocol_lookup).
    cbn iota beta. rewrite (IH _ c p1); [|by eapply with_protocol_lookup|done|by apply Forall_drop].
    f_equal. unfold served. cbn zeta. cbn [fst snd].
    rewrite fmap_cons. change (buffer p1) with (drop (Z.to_nat n) (buffer p)).
    unfold put_scheduled, with_protocol, put_protocols. cbn.
    by rewrite list_insert_insert_eq, <- app_assoc.
  - by rewrite Hnone.
  - destruct (decode_err_kind _ _ _ Hd) as [msg ->]. by apply connectionFailed_eq.
Qed.

Lemma data_received_spec s c p data :
  protocols s !! c = Some p → cbFun s = true → is_octets (buffer p) → is_octets data →
  data_received c data s = (Ok tt, served s c p (split_messages (buffer p ++ data))).
Proof.
  intros Hp Hcb Hb Hd. unfold data_received, mbind, M_bind.
  rewrite (on_protocol_eq _ _ _ _ Hp). cbn iota beta.
  set (p1 := set_buffer (buffer p ++ data) p).
  rewrite (get_protocol_eq (with_protocol s c p1) c p1) by (by eapply with_protocol_lookup).
  rewrite (frames_spec _ _ c p1); [|by eapply with_protocol_lookup|done|by apply Forall_app].
  f_equal. unfold served. f_equal. by rewrite with_protocol_twice.
Qed.

(** The reads of a connection, one after the other *)
Fixpoint reads c (chunks : list octets) : M exn state unit :=
  match chunks with
  | [] => mret tt
  | data :: chunks => data_received c data;; reads c chunks
  end.

(** The messages among what the loop is to call *)
Definition received (l : list callback) : list (Transport.address * octets) :=
  omap (λ f, match f with Receive a m => Some (a, m) | Report _ _ => None end) l.

Lemma received_app l l' : received (l ++ l') = received l ++ received l'.
Proof. apply omap_app. Qed.
Lemma received_receive a l : received (Receive a <$> l) = (a,.) <$> l.
Proof. induction l as [|m l IH]; cbn; [done|]. by rewrite <- IH. Qed.
Lemma received_served s c p r : received (scheduled (served s c p r)) =
  received (scheduled s) ++ ((transportAddress p,.) <$> r.1).
Proof.
  unfold served. cbn. rewrite !received_app, received_receive. f_equal.
  rewrite <- (app_nil_r (_ <$> _)) at 2. f_equal. unfold reports. repeat case_match; done.
Qed.

(** What reads in any number leave: the octets are those of one read. *)
Lemma reads_spec chunks : ∀ s c p, protocols s !! c = Some p → cbFun s = true →
  is_octets (buffer p) → Forall is_octets chunks → split_messages (buffer p) = ([], (buffer p, None)) →
  let r := split_messages (buffer p ++ concat chunks) in
  ∃ s' p', reads c chunks s = (Ok tt, s') ∧ protocols s' !! c = Some p' ∧
    transportAddress p' = transportAddress p ∧ buffer p' = r.2.1 ∧
    isOpen p' = (match r.2.2 with Some _ => false | None => isOpen p end) ∧
    received (scheduled s') = received (scheduled s) ++ ((transportAddress p,.) <$> r.1).
Proof.
  assert (Hfailed : ∀ chunks s c p e, protocols s !! c = Some p → cbFun s = true →
    is_octets (buffer p) → isOpen p = false → Forall is_octets chunks →
    (∀ data, is_octets data → split_messages (buffer p ++ data) = ([], (buffer p ++ data, Some e))) →
    ∃ s' p', reads c chunks s = (Ok tt, s') ∧ protocols s' !! c = Some p' ∧
      transportAddress p' = transportAddress p ∧ buffer p' = buffer p ++ concat chunks ∧
      isOpen p' = false ∧ received (scheduled s') = received (scheduled s)).
  { clear chunks. induction chunks as [|data chunks IH]; intros s c p e Hp Hcb Hb Ho Hall Hf.
    { exists s, p. cbn. by rewrite app_nil_r. }
    apply Forall_cons in Hall as [Hd Hall]. cbn [reads]. unfold mbind, M_bind.
    rewrite (data_received_spec _ _ _ _ Hp Hcb Hb Hd), (Hf data Hd). cbn iota beta.
    set (s1 := served s c p _). pose proof (with_protocol_lookup s c p
      (mk_protocol (transportAddress p) (buffer p ++ data) false (written p)) Hp) as Hp1.
    destruct (IH s1 c _ e Hp1) as (s' & p' & H1 & H2 & H3 & H4 & H5 & H6); cbn;
      [done|by apply Forall_app|done|done| |].
    { intros data' Hd'. rewrite <- !app_assoc. apply Hf. by apply Forall_app. }
    exists s', p'. split_and!; try done.
    - cbn in H4. by rewrite H4, <- app_assoc.
    - rewrite H6. unfold s1. rewrite received_served. cbn. by rewrite app_nil_r. }
  induction chunks as [|data chunks IH]; intros s c p Hp Hcb Hb Hall Hq r.
  { exists s, p. unfold r. cbn [concat]. rewrite app_nil_r, Hq. cbn. by rewrite app_nil_r. }
  apply Forall_cons in Hall as [Hd Hall]. cbn [reads]. unfold mbind, M_bind.
  rewrite (data_received_spec _ _ _ _ Hp Hcb Hb Hd). cbn iota beta.
  assert (Hbd : is_octets (buffer p ++ data)) by (by apply Forall_app).
  assert (Hcc : is_octets (concat chunks)) by (by apply Forall_concat).
  unfold r. cbn [concat]. rewrite app_assoc, (split_app (buffer p ++ data)) by done.
  pose proof (split_rest_octets _ Hbd) as Hro. pose proof (split_failed (buffer p ++ data)) as Hsf.
  assert (Hidem := split_app (buffer p ++ data) [] Hbd ltac:(constructor)). rewrite app_nil_r in Hidem.
  destruct (split_messages (buffer p ++ data)) as [l [b [e|]]] eqn:Hs; cbn [fst snd] in *.
  - set (s1 := served s c p _).
    assert (Hp1 : protocols s1 !! c = Some (mk_protocol (transportAddress p) b false (written p)))
      by (by apply (with_protocol_lookup s c p)).
    destruct (Hfailed chunks s1 c _ e Hp1) as (s' & p' & H1 & H2 & H3 & H4 & H5 & H6); [done..| |].
    { intros. by eapply Hsf. }
    exists s', p'. split_and!; try done. rewrite H6. apply received_served.
  - set (s1 := served s c p _).
    assert (Hp1 : protocols s1 !! c = Some (mk_protocol (transportAddress p) b (isOpen p) (written p)))
      by (by apply (with_protocol_lookup s c p)).
    assert (Hq1 : split_messages b = ([], (b, None))).
    { rewrite app_nil_r in Hidem. destruct (split_messages b) as [l' [b' e']].
      cbn in Hidem. injection Hidem as Hl -> ->. f_equal.
      apply (f_equal length) in Hl. rewrite length_app in Hl. destruct l'; [done|cbn in Hl; lia]. }
    destruct (IH s1 c _ Hp1) as (s' & p' & H1 & H2 & H3 & H4 & H5 & H6); [done..|].
    cbn [transportAddress buffer isOpen] in *. exists s', p'. split_and!; try done.
    rewrite H6. unfold s1. rewrite received_served. cbn [fst snd].
    by rewrite fmap_app, <- app_assoc.
Qed.

(** A connection between two reads: what it holds is no message yet, and may
    become one *)
Definition quiet (p : protocol) : Prop :=
  is_octets (buffer p) ∧ split_messages (buffer p) = ([], (buffer p, None)).

(** The messages that are delivered, the octets that are kept and whether the
    connection is dropped do not depend on how the octets came in: any sequence of
    reads does what one read of all the octets does. *)
Theorem framing_is_segmentation_independent s c p chunks :
  protocols s !! c = Some p → cbFun s = true → quiet p → Forall is_octets chunks →
  ∃ s1 p1 s2 p2,
    reads c chunks s = (Ok tt, s1) ∧ data_received c (concat chunks) s = (Ok tt, s2) ∧
    protocols s1 !! c = Some p1 ∧ protocols s2 !! c = Some p2 ∧
    received (scheduled s1) = received (scheduled s2) ∧
    buffer p1 = buffer p2 ∧ isOpen p1 = isOpen p2.
Proof.
  intros Hp Hcb [Hb Hq] Hall.
  destruct (reads_spec chunks s c p Hp Hcb Hb Hall Hq) as (s1 & p1 & H1 & H2 & _ & H4 & H5 & H6).
  assert (Hc : is_octets (concat chunks)) by (by apply Forall_concat).
  pose proof (data_received_spec s c p (concat chunks) Hp Hcb Hb Hc) as Hd.
  eexists s1, p1, _, _. split_and!; [done|done|done|by apply (with_protocol_lookup s c p)| | |]; cbn.
  - rewrite H6. symmetry. apply (received_served s c p).
  - done.
  - done.
Qed.

(** ** Messages as they are sent *)

(** The header of a message of [n] octets: the short form, or the long form with
    the length in [k] octets, which need not be the fewest *)
Definition header (k : nat) (n : Z) : octets :=
  match k with
  | O => [BER_SEQUENCE; n]
  | _ => BER_SEQUENCE :: 128 + Z.of_nat k :: be_octets k n
  end.
Definition sequence (x : nat * octets) : octets := header x.1 (Z.of_nat (length x.2)) ++ x.2.
Definition fits (x : nat * octets) : Prop :=
  let n := Z.of_nat (length x.2) in
  is_octets x.2 ∧
  match x.1 with
  | O => n < 128
  | k => (k <= 126)%nat ∧ n < 256 ^ Z.of_nat k ∧ 2 + Z.of_nat k + n <= 2097152
  end.

Lemma header_octets x : fits x → is_octets (sequence x).
Proof.
  destruct x as [k body]. unfold fits, sequence. cbn [fst snd]. intros [Hb Hk]. apply Forall_app.
  split; [|done]. assert (H48 : is_octet BER_SEQUENCE) by (unfold is_octet, BER_SEQUENCE; lia).
  destruct k as [|k]; cbn [header].
  - repeat constructor; try done; lia.
  - destruct Hk as (Hk & _ & _). constructor; [done|]. constructor; [split; lia|].
    apply be_octets_is_octets.
Qed.

Lemma length_sequence x : Z.of_nat (length (sequence x)) =
  2 + Z.of_nat x.1 + Z.of_nat (length x.2).
Proof.
  destruct x as [k body]. unfold sequence. cbn [fst snd]. rewrite length_app.
  destruct k; cbn [header length]; rewrite ?length_be_octets; lia.
Qed.

Lemma decode_sequence x tail : fits x →
  decodeMessageLength (sequence x ++ tail) maxMessageSize = Ok (Some (Z.of_nat (length (sequence x)))).
Proof.
  intros Hf. apply decode_grows; [|done]. rewrite length_sequence. unfold decodeMessageLength.
  rewrite (proj2 (Z.ltb_ge _ _)) by (rewrite length_sequence; lia).
  destruct x as [k body]. destruct Hf as [Hb Hk]. cbn [fst snd] in *.
  assert (H0 : octet_at 0 (sequence (k, body)) = BER_SEQUENCE) by (by destruct k). rewrite H0.
  rewrite Z.eqb_refl. cbn [negb]. destruct k as [|k].
  - change (octet_at 1 (sequence (0%nat, body))) with (Z.of_nat (length body)).
    rewrite (proj2 (Z.ltb_lt _ _)) by done. repeat f_equal; lia.
  - set (j := Datatypes.S k) in *. destruct Hk as (Hk & Hn & Hm).
    assert (H1 : octet_at 1 (sequence (j, body)) = 128 + Z.of_nat j) by done. rewrite H1.
    assert (Hj : 0 < Z.of_nat j) by lia.
    rewrite (proj2 (Z.ltb_ge _ _)), (proj2 (Z.eqb_neq _ _)), (proj2 (Z.eqb_neq _ _)) by lia.
    assert (Hland : Z.land (128 + Z.of_nat j) 127 = Z.of_nat j).
    { pose proof (Z.land_ones (128 + Z.of_nat j) 7 ltac:(lia)) as E. change (Z.ones 7) with 127 in E.
      rewrite E. change (2 ^ 7) with 128. rewrite Z.add_comm, Z.add_mod, Z.mod_same, Z.add_0_r, Z.mod_mod by lia.
      apply Z.mod_small. lia. }
    rewrite Hland, (proj2 (Z.ltb_ge _ _)) by (rewrite length_sequence; cbn [fst snd]; lia).
    replace (take (Z.to_nat (Z.of_nat j)) (drop 2 (sequence (j, body)))) with
      (be_octets j (Z.of_nat (length body))).
    2:{ rewrite Nat2Z.id. unfold sequence, j. cbn [fst snd header app drop].
        symmetry. apply take_app_length'. by rewrite length_be_octets. }
    unfold from_be. rewrite from_be_octets, Z.mod_small by lia. unfold maxMessageSize.
    rewrite (proj2 (Z.ltb_ge _ _)) by lia. done.
Qed.

Lemma split_sequences l : Forall fits l →
  split_messages (concat (sequence <$> l)) = (sequence <$> l, ([], None)).
Proof.
  induction 1 as [|x l Hx Hl IH]; [done|]. cbn [fmap list_fmap concat].
  assert (Hc : is_octets (concat (sequence <$> l))).
  { apply Forall_concat, Forall_fmap. eapply Forall_impl; [exact Hl|]. apply header_octets. }
  rewrite split_step by (apply Forall_app; split; [by apply header_octets|done]).
  rewrite decode_sequence by done. rewrite (proj2 (Z.ltb_ge _ _)) by (rewrite length_app; lia).
  rewrite Nat2Z.id, take_app_length, drop_app_length. cbv zeta. by rewrite IH.
Qed.

(** C13. Messages sent back to back over a connection come out of it whole, in
    order and nothing besides, however the octets are spread over the reads and
    whichever form of the length their headers use; the connection stays. *)
Theorem stream_framing_roundtrip s c p messages chunks :
  protocols s !! c = Some p → cbFun s = true → buffer p = [] → isOpen p = true →
  Forall fits messages → concat chunks = concat (sequence <$> messages) →
  ∃ s' p', reads c chunks s = (Ok tt, s') ∧ protocols s' !! c = Some p' ∧
    received (scheduled s') = received (scheduled s) ++ ((λ x, (transportAddress p, sequence x)) <$> messages) ∧
    buffer p' = [] ∧ isOpen p' = true.
Proof.
  intros Hp Hcb Hb Ho Hf Hc.
  assert (Hall : Forall is_octets chunks).
  { assert (is_octets (concat chunks)) as Ho'.
    { rewrite Hc. apply Forall_concat, Forall_fmap. eapply Forall_impl; [exact Hf|]. apply header_octets. }
    clear - Ho'. induction chunks as [|x l IH]; [constructor|]. cbn in Ho'.
    apply Forall_app in Ho' as [? ?]. constructor; auto. }
  destruct (reads_spec chunks s c p Hp Hcb) as (s' & p' & H1 & H2 & H3 & H4 & H5 & H6);
    rewrite ?Hb; try done; [constructor|].
  rewrite Hb in H4, H5, H6. cbn [app] in H4, H5, H6. rewrite Hc, split_sequences in H4, H5, H6 by done.
  cbn [fst snd] in *. exists s', p'. split_and!; try done; [|by rewrite H5].
  rewrite H6. by rewrite <- list_fmap_compose.
Qed.

Definition demo_peer : Transport.address := Transport.Inet [127; 0; 0; 1] 161.
Definition demo_stream : state :=
  mk_state [] {[demo_peer := 0%nat]} ∅ true true true [mk_protocol demo_peer [] true []] [].

Lemma framing_is_segmentation_independent_witness : ∃ s1 p1 s2 p2,
  reads 0 [[48; 2; 5]; [0; 48]; [128]] demo_stream = (Ok tt, s1) ∧
  data_received 0 (concat [[48; 2; 5]; [0; 48]; [128]]) demo_stream = (Ok tt, s2) ∧
  protocols s1 !! 0%nat = Some p1 ∧ protocols s2 !! 0%nat = Some p2 ∧
  received (scheduled s1) = received (scheduled s2) ∧ buffer p1 = buffer p2 ∧ isOpen p1 = isOpen p2.
Proof.
  apply (framing_is_segmentation_independent demo_stream 0%nat (mk_protocol demo_peer [] true [])
    [[48; 2; 5]; [0; 48]; [128]]); [reflexivity|reflexivity|split; [constructor|reflexivity]|].
  repeat constructor; unfold is_octet; lia.
Defined.

Lemma stream_framing_roundtrip_witness : ∃ s' p',
  reads 0 [[48]; [2; 5; 0; 48; 129; 2]; [6]; [7]] demo_stream = (Ok tt, s') ∧
  protocols s' !! 0%nat = Some p' ∧
  received (scheduled s') = received (scheduled demo_stream) ++
    ((λ x, (demo_peer, sequence x)) <$> [(0%nat, [5; 0]); (1%nat, [6; 7])]) ∧
  buffer p' = [] ∧ isOpen p' = true.
Proof.
  apply (stream_framing_roundtrip demo_stream 0%nat (mk_protocol demo_peer [] true [])
    [(0%nat, [5; 0]); (1%nat, [6; 7])] [[48]; [2; 5; 0; 48; 129; 2]; [6]; [7]]); try reflexivity.
  constructor; [|constructor; [|constructor]].
  - split; [repeat constructor; unfold is_octet; cbn; lia|cbn; lia].
  - split; [repeat constructor; unfold is_octet; cbn; lia|cbn; lia].
Defined.

(** A connection that stays open after a read holds fewer octets than the
    largest message the transport accepts. *)
Theorem buffer_is_bounded s c p data : protocols s !! c = Some p → cbFun s = true → quiet p →
  is_octets data → ∃ s' p', data_received c data s = (Ok tt, s') ∧ protocols s' !! c = Some p' ∧
    (isOpen p' = true → Z.of_nat (length (buffer p')) < 2097152).
Proof.
  intros Hp Hcb [Hb _] Hd. set (r := split_messages (buffer p ++ data)).
  exists (served s c p r), (mk_protocol (transportAddress p) r.2.1
    (match r.2.2 with Some _ => false | None => isOpen p end) (written p)).
  split; [by apply data_received_spec|]. split; [by apply (with_protocol_lookup s c p)|].
  cbn [isOpen buffer]. pose proof (split_rest_bound (buffer p ++ data)) as Hr. fold r in Hr.
  destruct r.2.2 as [e|]; [done|]. intros _. apply Hr; [by apply Forall_app|done].
Qed.
Lemma buffer_is_bounded_witness : ∃ s' p', data_received 0 [48; 5; 1] demo_stream = (Ok tt, s') ∧
  protocols s' !! 0%nat = Some p' ∧ (isOpen p' = true → Z.of_nat (length (buffer p')) < 2097152).
Proof.
  apply (buffer_is_bounded demo_stream 0%nat (mk_protocol demo_peer [] true []) [48; 5; 1]);
    [reflexivity|reflexivity|split; [constructor|reflexivity]|repeat constructor; unfold is_octet; lia].
Defined.
End StreamSpec.
