(* ===== verification/StreamQueue.v ===== *)
(** * What becomes of the messages a stream transport took

    Over any sequence of what may happen to a transport: the messages to a peer
    are written in the order they were taken, each once, and one that will not be
    is reported. *)
From S2P Require Export StreamSpec.
Import Stream StreamSpec.
#[local] Open Scope Z_scope.

Module StreamQueue.
Implicit Types (s : state) (c : nat) (a : Transport.address).

(** ** What was written to a peer, over all its connections, and what waits *)
Definition written_by a (p : protocol) : list octets :=
  if decide (transportAddress p = a) then written p else [].
Definition written_to a s : list octets := concat (written_by a <$> protocols s).
Definition to_peer a (q : list (octets * Transport.address)) : list octets :=
  (filter (λ x, x.2 = a) q).*1.
Definition queued_to a s : list octets := to_peer a (writeQ s).

Lemma to_peer_app a q q' : to_peer a (q ++ q') = to_peer a q ++ to_peer a q'.
Proof. unfold to_peer. by rewrite filter_app, fmap_app. Qed.
Lemma to_peer_drop a b q : to_peer a (filter (λ x, x.2 ≠ b) q) = if decide (a = b) then [] else to_peer a q.
Proof.
  unfold to_peer. rewrite list_filter_filter. destruct (decide (a = b)) as [->|Hne].
  - rewrite filter_none; [done|]. intros x _ [? ?]. done.
  - f_equal. apply filter_ext_in. intros x _. split; [tauto|]. intros ->. done.
Qed.

(** The connection the messages to a peer go to is its last. *)
Record wf s : Prop := {
  wf_last : ∀ a c, connections s !! a = Some c → ∃ p l1 l2, protocols s = l1 ++ p :: l2 ∧
    length l1 = c ∧ transportAddress p = a ∧ Forall (λ p', transportAddress p' ≠ a) l2 ∧
    (isOpen p = true → queued_to a s = []);
  wf_callbacks : cbFun s = true ∧ errorCbFun s = true;
}.

(** The ledger of a peer: what was taken against what became of it *)
Definition settled a (taken : list octets) s : Prop :=
  let w := written_to a s ++ queued_to a s in
  w `sublist_of` taken ∧ (w = taken ∨ ∃ d, Report a d ∈ scheduled s).

(** ** What an operation may do to the ledger: nothing, when it keeps the writes
    and the queue of a peer *)
Record keeps a s s' : Prop := {
  k_written : written_to a s' = written_to a s;
  k_queued : queued_to a s' = queued_to a s;
  k_scheduled : ∀ f, f ∈ scheduled s → f ∈ scheduled s';
}.

Lemma keeps_settled a taken s s' : keeps a s s' → settled a taken s → settled a taken s'.
Proof.
  intros [H1 H2 H3] [H4 H5]. split; rewrite H1, H2; [done|].
  destruct H5 as [?|[d ?]]; [by left|right; eauto].
Qed.

(** A change of one connection that leaves its address and what it has written *)
Lemma alter_written a f c (l : list protocol) :
  (∀ p, written_by a (f p) = written_by a p) → written_by a <$> alter f c l = written_by a <$> l.
Proof.
  intros Hf. revert c. induction l as [|p l IH]; intros [|c]; try done; cbn; [by rewrite Hf|].
  f_equal. apply IH.
Qed.

Lemma wf_alter s f c l :
  (∀ p, transportAddress (f p) = transportAddress p ∧ (isOpen (f p) = true → isOpen p = true)) →
  wf s → wf (put_scheduled l (put_protocols (alter f c (protocols s)) s)).
Proof.
  intros Hf [Hl Hcb]. split; [|done]. cbn. intros a c' Ha.
  destruct (Hl a c' Ha) as (p & l1 & l2 & Hp & Hc & Hpa & Hall & Hq). rewrite Hp.
  destruct (decide (c < length l1)%nat) as [Hlt|Hge].
  { exists p, (alter f c l1), l2. rewrite alter_app_l by done. rewrite length_alter. done. }
  rewrite alter_app_r_alt by lia. destruct (c - length l1)%nat as [|i] eqn:Hi.
  - exists (f p), l1, l2. split_and!; try done; [by rewrite (proj1 (Hf p))|].
    intros Ho. by apply Hq, (Hf p).
  - exists p, l1, (alter f i l2). split_and!; try done.
    clear - Hall Hf. revert i. induction Hall as [|p' l2 Hp' Hall IH]; intros i; [constructor|].
    destruct i as [|i]; cbn; (constructor; [|done || apply IH]); [by rewrite (proj1 (Hf p'))|done].
Qed.

(** *** Calls that do not touch the ledger *)
Definition mild s s' : Prop := (∀ a, keeps a s s') ∧ (wf s → wf s').
#[global] Instance mild_preorder : PreOrder mild.
Proof.
  split; [intros s; split; [by split|done]|]. intros s1 s2 s3 [H1 W1] [H2 W2]. split; [|auto].
  intros a. destruct (H1 a), (H2 a). split; [congruence|congruence|auto].
Qed.
Definition calm {A} (m : M exn state A) : Prop := ∀ s, mild s (m s).2.

Lemma calm_bind {A B} (m : M exn state A) (k : A → M exn state B) :
  calm m → (∀ x, calm (k x)) → calm (m ≫= k).
Proof.
  intros Hm Hk s. unfold mbind, M_bind. specialize (Hm s). destruct (m s) as [[x|e] s1]; [|done].
  etrans; [exact Hm|]. apply Hk.
Qed.
Lemma calm_pure {A} (m : M exn state A) : (∀ s, (m s).2 = s) → calm m.
Proof. intros Hm s. by rewrite Hm. Qed.
Lemma calm_get c : calm (get_protocol c).
Proof. apply calm_pure. intros s. unfold get_protocol. munfold. by destruct (protocols s !! c). Qed.
Lemma calm_on_protocol c f :
  (∀ p, transportAddress (f p) = transportAddress p ∧ written (f p) = written p ∧
        (isOpen (f p) = true → isOpen p = true)) → calm (on_protocol c f).
Proof.
  intros Hf s. unfold on_protocol. munfold. split.
  - intros a. split; [|done|done]. unfold written_to. cbn. f_equal. apply alter_written.
    intros p. unfold written_by. destruct (Hf p) as (-> & -> & _). done.
  - intros Hwf. apply (wf_alter s f c (scheduled s)) in Hwf; [by destruct s|].
    intros p. by destruct (Hf p) as (? & ? & ?).
Qed.
Lemma calm_call_soon f : calm (call_soon f).
Proof.
  intros s. unfold call_soon. munfold. split.
  - intros a. split; [done|done|]. cbn. intros f' Hf'. apply elem_of_app. by left.
  - intros [Hl Hcb]. by split.
Qed.
Lemma calm_reportError a d : calm (reportError a d).
Proof.
  apply calm_bind; [by apply calm_pure|]. intros []; [apply calm_call_soon|by apply calm_pure].
Qed.
#[local] Hint Resolve calm_get calm_call_soon calm_reportError : calm.

Lemma calm_frames fuel c : calm (frames fuel c).
Proof.
  induction fuel as [|fuel IH]; cbn [frames]; [by apply calm_pure|].
  apply calm_bind; [auto with calm|]. intros p.
  destruct (decodeMessageLength (buffer p) maxMessageSize) as [[n|]|e]; [|by apply calm_pure|].
  - destruct (_ <? n); [by apply calm_pure|].
    apply calm_bind; [by apply calm_on_protocol|]. intros _. apply calm_bind; [|done].
    apply calm_bind; [by apply calm_pure|]. intros []; [|by apply calm_pure].
    apply calm_bind; auto with calm.
  - destruct e; try (by apply calm_pure).
    apply calm_bind; [by apply calm_on_protocol|]. intros _. apply calm_bind; auto with calm.
Qed.
Lemma calm_data_received c data : calm (data_received c data).
Proof.
  apply calm_bind; [by apply calm_on_protocol|]. intros _. apply calm_bind; [auto with calm|].
  intros p. apply calm_frames.
Qed.

(** *** Dropping what waits for a peer *)
Lemma discard_eq a s : discardQueuedMessages a s =
  (Ok (length (writeQ s) - length (filter (λ x, x.2 ≠ a) (writeQ s)))%nat,
   put_writeQ (filter (λ x, x.2 ≠ a) (writeQ s)) s).
Proof. done. Qed.
Lemma wf_discard a s : wf s → wf (put_writeQ (filter (λ x, x.2 ≠ a) (writeQ s)) s).
Proof.
  intros [Hl Hcb]. split; [|done]. cbn [connections protocols put_writeQ]. intros b c Hb.
  destruct (Hl b c Hb) as (p & l1 & l2 & H1 & H2 & H3 & H4 & H5). exists p, l1, l2.
  split_and!; try done. intros Ho. unfold queued_to. cbn [writeQ put_writeQ]. rewrite to_peer_drop.
  destruct (decide (b = a)); [done|by apply H5].
Qed.
(** Where nothing was dropped nothing changed. *)
Lemma filter_length_all {A} (P : A → Prop) `{∀ x, Decision (P x)} (l : list A) :
  length (filter P l) = length l → filter P l = l.
Proof.
  induction l as [|x l IH]; [done|]. rewrite filter_cons. case_decide; cbn; intros Hl.
  - f_equal. apply IH. lia.
  - pose proof (length_filter P l). lia.
Qed.
Lemma discarded_settled a b taken s s' :
  settled b taken s → written_to b s' = written_to b s →
  queued_to b s' = (if decide (b = a) then [] else queued_to b s) →
  (∀ f, f ∈ scheduled s → f ∈ scheduled s') →
  (queued_to a s ≠ [] → ∃ d, Report a d ∈ scheduled s') → settled b taken s'.
Proof.
  intros [Hs Hor] Hw Hq Hsch Hd. unfold settled. rewrite Hw, Hq.
  destruct (decide (b = a)) as [->|Hne].
  - rewrite app_nil_r. split; [etrans; [|exact Hs]; apply sublist_inserts_r; done|].
    destruct Hor as [Heq|[d Hr]]; [|right; eauto].
    destruct (queued_to a s) eqn:Eq; [left; by rewrite app_nil_r in Heq|right; by apply Hd].
  - split; [done|]. destruct Hor as [?|[d Hr]]; [by left|right; eauto].
Qed.

(** ** The operations *)

(** What a step takes to send to a peer *)
Definition taken_by a (e : event) (r : result exn unit) : list octets :=
  match e, r with
  | Send m b, Ok _ => if decide (b = a) then [m] else []
  | _, _ => []
  end.

(** The connection a message to a peer goes out on *)
Definition connection a s : option nat :=
  c ← connections s !! a; p ← protocols s !! c; if isOpen p then Some c else None.

Lemma written_to_app a s l l' : protocols s = l ++ l' →
  written_to a s = concat (written_by a <$> l) ++ concat (written_by a <$> l').
Proof. intros Hs. unfold written_to. by rewrite Hs, fmap_app, concat_app. Qed.
Lemma written_by_none a l : Forall (λ p, transportAddress p ≠ a) l → concat (written_by a <$> l) = [].
Proof.
  induction 1 as [|p l Hp _ IH]; [done|]. cbn. unfold written_by at 1. by rewrite decide_False.
Qed.

Lemma send_on_connection a b c m taken s : wf s → connection b s = Some c → settled a taken s →
  wf (put_protocols (alter (write m) c (protocols s)) s) ∧
  settled a (taken ++ (if decide (b = a) then [m] else [])) (put_protocols (alter (write m) c (protocols s)) s).
Proof.
  intros Hwf Hc Hset. unfold connection in Hc.
  destruct (connections s !! b) as [c'|] eqn:Hb; [|done]. cbn in Hc.
  destruct (wf_last s Hwf b c' Hb) as (p & l1 & l2 & Hp & Hl & Hpb & Hall & Hq).
  assert (Hpc : protocols s !! c' = Some p) by (rewrite Hp, <- Hl; by apply list_lookup_middle).
  rewrite Hpc in Hc. cbn in Hc. destruct (isOpen p) eqn:Ho; [|done]. injection Hc as <-. specialize (Hq eq_refl).
  split.
  { apply (wf_alter s (write m) c' (scheduled s)) in Hwf; [by destruct s|].
    intros p'. unfold write. destruct (isOpen p') eqn:E; cbn; rewrite ?E; done. }
  assert (Halt : alter (write m) c' (protocols s) = l1 ++ write m p :: l2).
  { rewrite Hp, <- Hl, alter_app_r_alt, Nat.sub_diag by lia. done. }
  destruct Hset as [Hs Hor]. unfold settled.
  change (queued_to a (put_protocols _ s)) with (queued_to a s).
  destruct (decide (b = a)) as [->|Hne].
  - rewrite Hq, app_nil_r in *.
    assert (Hw : written_to a (put_protocols (alter (write m) c' (protocols s)) s) = written_to a s ++ [m]).
    { rewrite (written_to_app a s _ _ Hp). unfold written_to. cbn [protocols put_protocols].
      rewrite Halt, fmap_app, concat_app. cbn. rewrite (written_by_none a l2), !app_nil_r by done.
      unfold write. rewrite Ho. unfold written_by. cbn. rewrite !decide_True by done. by rewrite app_assoc. }
    rewrite Hw. split; [by apply sublist_app|].
    destruct Hor as [->|?]; [by left|by right].
  - rewrite app_nil_r.
    assert (Hw : written_to a (put_protocols (alter (write m) c' (protocols s)) s) = written_to a s).
    { rewrite (written_to_app a s _ _ Hp). unfold written_to. cbn [protocols put_protocols].
      rewrite Halt, fmap_app, concat_app. cbn. unfold write. rewrite Ho. unfold written_by at 2 5. cbn.
      by rewrite !decide_False by congruence. }
    rewrite Hw. split; [done|]. destruct Hor as [->|?]; [by left|by right].
Qed.

Lemma send_queued a b m taken s : wf s → connection b s = None → settled a taken s →
  let s' := put_tasks ({[b]} ∪ connectTasks s) (put_writeQ (writeQ s ++ [(m, b)]) s) in
  wf s' ∧ settled a (taken ++ (if decide (b = a) then [m] else [])) s'.
Proof.
  intros Hwf Hc [Hs Hor] s'.
  assert (Hq : ∀ a, queued_to a s' = queued_to a s ++ if decide (b = a) then [m] else []).
  { intros a'. unfold queued_to, s'. cbn [writeQ put_tasks put_writeQ]. rewrite to_peer_app. f_equal.
    unfold to_peer. rewrite filter_cons, filter_nil. cbn [snd]. by destruct (decide (b = a')). }
  split.
  - destruct Hwf as [Hl Hcb]. split; [|done]. intros a' c Ha. change (connections s !! a' = Some c) in Ha.
    destruct (Hl a' c Ha) as (p & l1 & l2 & Hp & Hlen & Hpa & Hall & Hq').
    exists p, l1, l2. split_and!; try done. intros Ho. rewrite Hq, (Hq' Ho).
    destruct (decide (b = a')) as [->|]; [|done]. exfalso. unfold connection in Hc. rewrite Ha in Hc. cbn in Hc.
    rewrite Hp, <- Hlen, list_lookup_middle in Hc by done. cbn in Hc. by rewrite Ho in Hc.
  - unfold settled. rewrite Hq. change (written_to a s') with (written_to a s). rewrite app_assoc.
    split; [by apply sublist_app|]. destruct Hor as [->|[d Hd]]; [by left|right; by exists d].
Qed.

Lemma write_all l : ∀ p s, protocols s = l ++ [p] → isOpen p = true →
  ∀ q : list (octets * Transport.address),
  mapM_ (λ m, on_protocol (length l) (write m.1)) q s =
    (Ok tt, put_protocols (l ++ [mk_protocol (transportAddress p) (buffer p) true (written p ++ q.*1)]) s).
Proof.
  intros p s Hs Ho q. revert p s Hs Ho.
  induction q as [|m q IH]; intros p s Hs Ho; cbn [mapM_].
  { munfold. f_equal. destruct s, p. cbn in *. subst. by rewrite app_nil_r. }
  assert (Halt : alter (write m.1) (length l) (protocols s) = l ++ [write m.1 p]).
  { rewrite Hs, alter_app_r_alt, Nat.sub_diag by lia. done. }
  unfold mbind, M_bind. unfold on_protocol at 1. munfold. rewrite Halt.
  rewrite (IH (write m.1 p) (put_protocols (l ++ [write m.1 p]) s) eq_refl) by (unfold write; by rewrite Ho). f_equal.
  unfold put_protocols, write. cbn. rewrite Ho. cbn. by rewrite <- app_assoc.
Qed.
Lemma connection_made_eq b s : connection_made b s =
  (Ok (length (protocols s)),
   put_writeQ (filter (λ x, x.2 ≠ b) (writeQ s))
     (put_connections (<[b := length (protocols s)]> (connections s))
       (put_protocols (protocols s ++ [mk_protocol b [] true (queued_to b s)]) s))).
Proof.
  unfold connection_made, connectionMade. unfold mbind, M_bind, gets, modify. cbn beta iota zeta.
  set (s1 := put_protocols _ s). assert (Hp : protocols s1 !! length (protocols s) = Some (mk_protocol b [] true [])).
  { unfold s1. cbn. by apply list_lookup_middle. }
  rewrite (get_protocol_eq _ _ _ Hp). cbn beta iota zeta.
  set (s2 := put_connections _ s1).
  pose proof (write_all (protocols s) (mk_protocol b [] true []) s2 eq_refl eq_refl
    (filter (λ x, x.2 = b) (writeQ s2))) as Hw.
  cbn [transportAddress] in *. rewrite Hw. done.
Qed.

Lemma made_settled a b taken s : wf s → settled a taken s →
  wf (connection_made b s).2 ∧ settled a taken (connection_made b s).2.
Proof.
  rewrite connection_made_eq. cbn [snd]. intros Hwf [Hs Hor]. set (s' := put_writeQ _ _).
  assert (Hq : ∀ a, queued_to a s' = if decide (a = b) then [] else queued_to a s).
  { intros a'. unfold queued_to, s'. cbn [writeQ put_writeQ]. apply to_peer_drop. }
  assert (Hw : written_to a s' = written_to a s ++ if decide (a = b) then queued_to a s else []).
  { rewrite (written_to_app a s' (protocols s) [mk_protocol b [] true (queued_to b s)] eq_refl). f_equal.
    cbn. unfold written_by. cbn. case_decide; [subst; rewrite decide_True by done|rewrite decide_False by done];
      by rewrite ?app_nil_r. }
  split.
  - destruct Hwf as [Hl Hcb]. split; [|done]. intros a' c Ha.
    change (<[b:=length (protocols s)]> (connections s) !! a' = Some c) in Ha.
    destruct (decide (a' = b)) as [->|Hne].
    + rewrite lookup_insert_eq in Ha. injection Ha as <-.
      exists (mk_protocol b [] true (queued_to b s)), (protocols s), []. split_and!; try done.
      intros _. by rewrite Hq, decide_True.
    + rewrite lookup_insert_ne in Ha by done.
      destruct (Hl a' c Ha) as (p & l1 & l2 & Hp & Hlen & Hpa & Hall & Hq').
      exists p, l1, (l2 ++ [mk_protocol b [] true (queued_to b s)]). split_and!; try done.
      * change (protocols s') with (protocols s ++ [mk_protocol b [] true (queued_to b s)]).
        by rewrite Hp, <- app_assoc.
      * apply Forall_app. split; [done|]. repeat constructor. done.
      * intros Ho. rewrite Hq, decide_False by done. by apply Hq'.
  - unfold settled. rewrite Hw, Hq. destruct (decide (a = b)) as [->|]; rewrite ?app_nil_r; [|done]. by split.
Qed.

(** What waits for a peer is dropped, and reported if there was any. *)
Lemma dropped_settled a b taken s (l : list callback) :
  wf s → settled a taken s → (∀ f, f ∈ scheduled s → f ∈ l) →
  (queued_to b s ≠ [] → ∃ d, Report b d ∈ l) →
  let s' := put_scheduled l (put_writeQ (filter (λ x, x.2 ≠ b) (writeQ s)) s) in
  wf s' ∧ settled a taken s'.
Proof.
  intros Hwf Hset Hl Hd s'. split.
  - destruct (wf_discard b s Hwf) as [H1 H2]. by split.
  - apply (discarded_settled b a taken s s' Hset); [done| |done|done].
    unfold queued_to, s'. cbn [writeQ put_writeQ put_scheduled]. apply to_peer_drop.
Qed.

Lemma reportError_eq a d s : errorCbFun s = true →
  reportError a d s = (Ok tt, put_scheduled (scheduled s ++ [Report a d]) s).
Proof. intros He. unfold reportError, call_soon. munfold. by rewrite He. Qed.

Lemma wf_put_connections s cs : (∀ a c, cs !! a = Some c → connections s !! a = Some c) →
  wf s → wf (put_connections cs s).
Proof. intros Hc [Hl Hcb]. split; [|done]. cbn. intros a c Ha. apply Hl. auto. Qed.
Lemma wf_put_tasks s t : wf s → wf (put_tasks t s).
Proof. intros [Hl Hcb]. by split. Qed.

Lemma lost_settled a c exc taken s : wf s → settled a taken s →
  wf (connection_lost c exc s).2 ∧ settled a taken (connection_lost c exc s).2.
Proof.
  intros Hwf Hset. unfold connection_lost. unfold mbind at 1, M_bind at 1.
  assert (Hm : calm (on_protocol c (set_open false))) by (by apply calm_on_protocol).
  destruct (Hm s) as [Hk Hw]. apply (keeps_settled a taken _ _ (Hk a)) in Hset. apply Hw in Hwf.
  unfold on_protocol in *. munfold. set (s1 := put_protocols _ s) in *. clear Hk Hw Hm.
  unfold get_protocol. munfold. destruct (protocols s1 !! c) as [p|]; [|done]. cbn beta iota.
  set (b := transportAddress p).
  set (s2 := if decide (connections s1 !! b = Some c) then put_connections (delete b (connections s1)) s1 else s1).
  assert (Hset2 : settled a taken s2) by (unfold s2; by case_decide).
  assert (Hwf2 : wf s2).
  { unfold s2. case_decide; [|done]. apply wf_put_connections; [|done]. intros a' c' Ha.
    by apply lookup_delete_Some in Ha as [_ ?]. }
  rewrite discard_eq. cbn beta iota.
  rewrite reportError_eq by apply Hwf2. cbn [snd].
  apply dropped_settled; [done|done| |].
  - intros f Hf. apply elem_of_app. by left.
  - intros _. eexists. apply elem_of_app. right. by apply list_elem_of_singleton.
Qed.

Lemma attempted_settled a b r taken s : wf s → settled a taken s →
  wf (connectAndFlush b r s).2 ∧ settled a taken (connectAndFlush b r s).2.
Proof.
  intros Hwf Hset. unfold connectAndFlush.
  assert (Htasks : ∀ s t, wf s ∧ settled a taken s → wf (put_tasks t s) ∧ settled a taken (put_tasks t s)).
  { intros s' t [Hw Hs]. split; [by apply wf_put_tasks|exact Hs]. }
  destruct r as [|d|]; unfold mbind, M_bind; cbn beta iota; [by apply Htasks| |by apply Htasks].
  unfold failQueuedMessages. unfold mbind, M_bind. rewrite discard_eq. cbn beta iota.
  set (n := (length (writeQ s) - _)%nat). set (s1 := put_writeQ _ s).
  assert (Hn : n = 0%nat → queued_to b s = []).
  { intros Hz. assert (Hall : filter (λ x : octets * Transport.address, x.2 ≠ b) (writeQ s) = writeQ s).
    { apply filter_length_all. unfold n in Hz.
      pose proof (length_filter (λ x : octets * Transport.address, x.2 ≠ b) (writeQ s)). lia. }
    unfold queued_to. rewrite <- Hall, to_peer_drop, decide_True; done. }
  destruct (n =? 0)%nat eqn:Ez.
  - apply Nat.eqb_eq in Ez. apply Htasks.
    apply (dropped_settled a b taken s (scheduled s)) in Hset; [|done|done|by rewrite Hn].
    by destruct s.
  - rewrite reportError_eq by apply Hwf. apply Htasks. apply dropped_settled; [done|done| |].
    + intros f Hf. apply elem_of_app. by left.
    + intros _. eexists. apply elem_of_app. right. by apply list_elem_of_singleton.
Qed.

Lemma step_settled a e taken s : wf s → settled a taken s →
  let '(r, s') := step e s in wf s' ∧ settled a (taken ++ taken_by a e r) s'.
Proof.
  intros Hwf Hset. destruct (step e s) as [r s'] eqn:He.
  assert (Hother : ∀ X : Prop, (match e with Send _ _ => False | _ => True end) →
    (wf (step e s).2 ∧ settled a taken (step e s).2) → wf s' ∧ settled a (taken ++ taken_by a e r) s').
  { intros _ Hno H. rewrite He in H. cbn in H. by destruct e; cbn; rewrite ?app_nil_r. }
  destruct e as [m b|b|c exc|c data|b t|]; [|apply Hother; [exact True|done|]..]; cbn in He |- *.
  - unfold sendMessage in He. unfold mbind at 1, M_bind at 1 in He. cbn -[mbind] in He.
    change (c ← connections s !! b; p ← protocols s !! c; if isOpen p then Some c else None)
      with (connection b s) in He.
    destruct (connection b s) as [c|] eqn:Hc.
    + unfold on_protocol in He. munfold. injection He as <- <-. by apply send_on_connection.
    + destruct (clientMode s); munfold; injection He as <- <-.
      * by apply send_queued.
      * by rewrite app_nil_r.
  - destruct (made_settled a b taken s Hwf Hset) as [H1 H2]. unfold mbind, M_bind.
    by destruct (connection_made b s) as [[x|x] s1].
  - by apply lost_settled.
  - destruct (calm_data_received c data s) as [Hk Hw]. split; [auto|]. by eapply keeps_settled.
  - by apply attempted_settled.
  - split; [|exact Hset]. by destruct Hwf.
Qed.

(** ** Runs, and the messages to a peer that were taken *)
Fixpoint run a (es : list event) (x : state * list octets) : state * list octets :=
  match es with
  | [] => x
  | e :: es => let '(r, s) := step e x.1 in run a es (s, x.2 ++ taken_by a e r)
  end.

Lemma wf_init : wf init.
Proof. split; [|done]. intros a c. cbn. by rewrite lookup_empty. Qed.

(** Whatever happens to a transport, the messages to a peer that it took
    were written in the order they were taken, each once, or wait in that order;
    when one of them was lost, a failure of the transport to that peer was
    reported. *)
Theorem stream_messages_are_accounted a es :
  let '(s, taken) := run a es (init, []) in
  let w := written_to a s ++ queued_to a s in
  w `sublist_of` taken ∧ (w = taken ∨ ∃ d, Report a d ∈ scheduled s).
Proof.
  assert (Hrun : ∀ es s taken, wf s → settled a taken s →
    settled a (run a es (s, taken)).2 (run a es (s, taken)).1).
  { clear es. induction es as [|e es IH]; intros s taken Hwf Hset; [done|]. cbn [run fst snd].
    pose proof (step_settled a e taken s Hwf Hset) as Hstep.
    destruct (step e s) as [r s']. destruct Hstep. by apply IH. }
  specialize (Hrun es init [] wf_init). destruct (run a es (init, [])) as [s taken].
  apply Hrun. split; [constructor|by left].
Qed.

(** A message can be left waiting with no attempt to connect under way: the
    connection of an attempt that has not ended was made and lost again. *)
Theorem message_can_be_stranded :
  let a := demo_peer in
  let '(s, taken) := run a [OpenClient; Send [48; 0] a; Made a; Lost 0 None; Send [48; 0] a;
                            Attempted a Connected] (init, []) in
  queued_to a s = [[48; 0]] ∧ connection a s = None ∧ connectTasks s = ∅.
Proof. vm_compute. done. Qed.

(** The loss of a closed connection discards what waits for the next one. *)
Theorem loss_discards_the_next_connection's_messages :
  let a := demo_peer in
  let '(s, taken) := run a [OpenClient; Send [48; 0] a; Made a; Attempted a Connected; Data 0 [1; 1];
                            Send [48; 1; 2] a; Lost 0 None; Made a] (init, []) in
  taken = [[48; 0]; [48; 1; 2]] ∧ written_to a s = [[48; 0]] ∧ queued_to a s = [].
Proof. vm_compute. done. Qed.
End StreamQueue.
