(* ===== verification/Target.v ===== *)
(** * Targets and notifications of the configuration
      (src/pysnmp/entity/rfc3413/config.py)

    What is read of SNMP-TARGET-MIB and SNMP-NOTIFICATION-MIB is kept while the
    version of the table's row stays the same.  A name is turned into the end of an
    instance name by [TableIndex.encode]; the caches of the row it goes through
    are shown transparent in TableIndex.v and left out here. *)
From S2P Require Export Community TableIndex.
#[local] Open Scope Z_scope.

Module Target.

(** ** The tables *)
Record LCD : Type := mk_lcd {
  (** snmpTargetAddrEntry, and the source addresses of PYSNMP-SOURCE-MIB *)
  addrEntryVersion : Z;
  snmpTargetAddrName : Column.column octets;
  snmpTargetAddrTDomain : Column.column oid;
  snmpTargetAddrTAddress : Column.column octets;
  snmpTargetAddrTimeout : Column.column Z;
  snmpTargetAddrRetryCount : Column.column Z;
  snmpTargetAddrTagList : Column.column octets;
  snmpTargetAddrParams : Column.column octets;
  snmpSourceAddrTAddress : Column.column octets;
  (** snmpTargetParamsEntry *)
  paramsEntryVersion : Z;
  snmpTargetParamsMPModel : Column.column Z;
  snmpTargetParamsSecurityModel : Column.column Z;
  snmpTargetParamsSecurityName : Column.column octets;
  snmpTargetParamsSecurityLevel : Column.column Z;
  (** snmpNotifyEntry *)
  notifyEntryVersion : Z;
  snmpNotifyTag : Column.column octets;
  snmpNotifyType : Column.column Z;
  (** snmpNotifyFilterProfileEntry *)
  profileEntryVersion : Z;
  snmpNotifyFilterProfileName : Column.column octets;
  snmpNotifyFilterProfileRowStatus : Column.column Z;
  (** snmpNotifyFilterEntry *)
  filterEntryVersion : Z;
  snmpNotifyFilterSubtree : Column.column oid;
  snmpNotifyFilterMask : Column.column octets;
  snmpNotifyFilterType : Column.column Z;
  snmpNotifyFilterRowStatus : Column.column Z;
}.

(** The indices of the rows: an implied name of 1 to 32 octets; a profile name and
    an implied subtree *)
Definition name_ok (v : TableIndex.ival) : bool :=
  match v with TableIndex.IStr s => in_range 1 32 (Z.of_nat (length s)) | _ => true end.
Definition by_name : list TableIndex.index :=
  [TableIndex.mk_index true (TableIndex.SOctetString None) name_ok].
Definition by_filter : list TableIndex.index :=
  [TableIndex.mk_index false (TableIndex.SOctetString None) name_ok;
   TableIndex.mk_index true TableIndex.SObjectIdentifier (λ _, true)].
(** [entry.getInstIdFromIndices(name)] *)
Definition tblIdx (name : octets) : result exn oid := TableIndex.encode by_name [TableIndex.IStr name].

(** What is read of a target address: the addresses as its transport names them,
    the local one where the domain has one *)
Record target_addr : Type := mk_target_addr {
  ta_domain : oid;
  ta_address : Transport.address;
  ta_localAddress : option Transport.address;
  ta_timeout : Z;
  ta_retryCount : Z;
  ta_params : octets;
}.
Record target_params : Type := mk_target_params {
  tp_messageProcessingModel : Z;
  tp_securityModel : Z;
  tp_securityName : octets;
  tp_securityLevel : Z;
}.
(** A filter: its subtree, its mask and its type *)
Abbreviation filter_entry := (oid * octets * Z)%type.

(** ** Reading the tables *)

(** [except NoSuchInstanceError: raise SmiError] *)
Definition configured {A} (r : result exn A) : result exn A :=
  match r with
  | Err (MibError NoSuchInstanceError _) => Err (SmiError "not configured at LCD")
  | _ => r
  end.

(** A domain with socket addresses has a local address as well. *)
Definition has_local (domain : oid) : bool :=
  Transport.in_domain Transport.snmpUDPDomain domain || Transport.in_domain Transport.snmpUDP6Domain domain ||
  Transport.in_domain Transport.snmpTCPDomain domain || Transport.in_domain Transport.snmpTCP6Domain domain.

(** The cells of a target address *)
Definition addr_cells (l : LCD) (i : oid) : result exn (oid * octets * Z * Z * octets * octets) :=
  d ← Vacm.cell (snmpTargetAddrTDomain l) i;
  a ← Vacm.cell (snmpTargetAddrTAddress l) i;
  t ← Vacm.cell (snmpTargetAddrTimeout l) i;
  r ← Vacm.cell (snmpTargetAddrRetryCount l) i;
  p ← Vacm.cell (snmpTargetAddrParams l) i;
  s ← Vacm.cell (snmpSourceAddrTAddress l) i;
  mret (d, a, t, r, p, s).

(** [registered]: the domains the transport dispatcher has a transport for *)
Definition read_addr (l : LCD) (registered : list oid) (name : octets) : result exn target_addr :=
  i ← tblIdx name;
  '(d, a, t, r, p, s) ← configured (addr_cells l i);
  if bool_decide (d ∈ registered) then
    address ← Transport.target_address d a;
    local ← (if has_local d then Some <$> Transport.target_address d s else Ok None);
    mret (mk_target_addr d address local t r p)
  else Err (PySnmpError "Transport not registered").

Definition params_cells (l : LCD) (i : oid) : result exn target_params :=
  m ← Vacm.cell (snmpTargetParamsMPModel l) i;
  k ← Vacm.cell (snmpTargetParamsSecurityModel l) i;
  n ← Vacm.cell (snmpTargetParamsSecurityName l) i;
  v ← Vacm.cell (snmpTargetParamsSecurityLevel l) i;
  mret (mk_target_params m k n v).
Definition read_params (l : LCD) (name : octets) : result exn target_params :=
  i ← tblIdx name; configured (params_cells l i).

Definition notify_cells (l : LCD) (i : oid) : result exn (octets * Z) :=
  t ← Vacm.cell (snmpNotifyTag l) i; k ← Vacm.cell (snmpNotifyType l) i; mret (t, k).
Definition read_notify (l : LCD) (name : octets) : result exn (octets * Z) :=
  i ← tblIdx name; configured (notify_cells l i).

(** The profile of a row that is active; a row that is not there has none *)
Definition profile_cells (l : LCD) (i : oid) : result exn (option octets) :=
  p ← Vacm.cell (snmpNotifyFilterProfileName l) i;
  s ← Vacm.cell (snmpNotifyFilterProfileRowStatus l) i;
  mret (if s =? 1 then Some p else None).
Definition read_profile (l : LCD) (name : octets) : result exn (option octets) :=
  i ← tblIdx name;
  match profile_cells l i with
  | Err (MibError NoSuchInstanceError _) => Ok None
  | r => r
  end.

(** [m.setdefault(k, []).append(v)] *)
Definition append_to {K V} `{EqDecision K} (k : K) (v : V) (m : dict K (list V)) : dict K (list V) :=
  dset m k (default [] (dget m k) ++ [v]).

(** The names of the targets of each tag, in the order of the table *)
Definition add_tags (l : LCD) (n : oid) (tagList : octets) : M exn (dict octets (list octets)) unit :=
  name ← liftR (Vacm.cell (snmpTargetAddrName l) (Community.instance_of (snmpTargetAddrTagList l) n));
  modify (λ m, foldl (λ m tag, append_to tag name m) m (Community.split tagList)).
Definition read_names (l : LCD) : result exn (dict octets (list octets)) :=
  match Column.for_each (snmpTargetAddrTagList l) (add_tags l) [] with
  | (Ok _, m) => Ok m
  | (Err e, _) => Err e
  end.

(** The filters of each profile: those of the active rows that are complete *)
Definition filter_cells (l : LCD) (i : oid) : result exn filter_entry :=
  s ← Vacm.cell (snmpNotifyFilterSubtree l) i;
  m ← Vacm.cell (snmpNotifyFilterMask l) i;
  t ← Vacm.cell (snmpNotifyFilterType l) i;
  mret (s, m, t).
(** [profileName, _ = entry.getIndicesFromInstId(instId)] *)
Definition profile_of (i : oid) : result exn octets :=
  match TableIndex.decode by_filter i with
  | Ok (inr [TableIndex.IStr p; _]) => Ok p
  | Ok _ => Err ValueError
  | Err e => Err e
  end.
Definition add_filter (l : LCD) (n : oid) (status : Z) : M exn (dict octets (list filter_entry)) unit :=
  if negb (status =? 1) then mret tt
  else
    let i := Community.instance_of (snmpNotifyFilterRowStatus l) n in
    p ← liftR (profile_of i);
    match filter_cells l i with
    | Ok f => modify (append_to p f)
    | Err (MibError NoSuchInstanceError _) => mret tt
    | Err e => raise e
    end.
Definition read_filters (l : LCD) : result exn (dict octets (list filter_entry)) :=
  match Column.for_each (snmpNotifyFilterRowStatus l) (add_filter l) [] with
  | (Ok _, m) => Ok m
  | (Err e, _) => Err e
  end.

(** ** The caches of the user context *)

(** [{"id": ..., "...Map": ...}] *)
Record cache (D : Type) : Type := mk_cache { cache_id : Z; contents : D }.
Arguments mk_cache {D}.
Arguments cache_id {D}.
Arguments contents {D}.

(** One row at a time: a version that has changed empties the map, and is recorded
    when the next row is read. *)
Definition memoised {K V} `{EqDecision K} (version : Z) (k : K) (read : result exn V) :
    M exn (cache (dict K V)) V := fun c =>
  let c := if cache_id c =? version then c else mk_cache (cache_id c) [] in
  match dget (contents c) k with
  | Some v => (Ok v, c)
  | None =>
      match read with
      | Err e => (Err e, c)
      | Ok v => (Ok v, mk_cache version (dset (contents c) k v))
      end
  end.

(** A table at a time *)
Definition tabulated {D} (version : Z) (read : result exn D) : M exn (cache D) D := fun c =>
  if cache_id c =? version then (Ok (contents c), c)
  else match read with
       | Err e => (Err e, c)
       | Ok d => (Ok d, mk_cache version d)
       end.

Record caches : Type := mk_caches {
  c_getTargetAddr : cache (dict octets target_addr);
  c_getTargetParams : cache (dict octets target_params);
  c_getNotificationInfo : cache (dict octets (octets * Z));
  c_getTargetNames : cache (dict octets (list octets));
  c_getNotifyFilterProfile : cache (dict octets (option octets));
  c_getNotifyFilter : cache (dict octets (list filter_entry));
}.
Definition no_cache : caches :=
  mk_caches (mk_cache (-1) []) (mk_cache (-1) []) (mk_cache (-1) []) (mk_cache (-1) [])
    (mk_cache (-1) []) (mk_cache (-1) []).
Abbreviation C := (M exn caches).

(** ** The operations *)
Section ops.
Context (l : LCD) (registered : list oid).

Definition getTargetAddr (name : octets) : C target_addr :=
  zoom c_getTargetAddr (λ x c, mk_caches x (c_getTargetParams c) (c_getNotificationInfo c)
      (c_getTargetNames c) (c_getNotifyFilterProfile c) (c_getNotifyFilter c))
    (memoised (addrEntryVersion l) name (read_addr l registered name)).
Definition getTargetParams (name : octets) : C target_params :=
  zoom c_getTargetParams (λ x c, mk_caches (c_getTargetAddr c) x (c_getNotificationInfo c)
      (c_getTargetNames c) (c_getNotifyFilterProfile c) (c_getNotifyFilter c))
    (memoised (paramsEntryVersion l) name (read_params l name)).
Definition getTargetInfo (name : octets) : C (target_addr * target_params) :=
  a ← getTargetAddr name; p ← getTargetParams (ta_params a); mret (a, p).
Definition getNotificationInfo (target : octets) : C (octets * Z) :=
  zoom c_getNotificationInfo (λ x c, mk_caches (c_getTargetAddr c) (c_getTargetParams c) x
      (c_getTargetNames c) (c_getNotifyFilterProfile c) (c_getNotifyFilter c))
    (memoised (notifyEntryVersion l) target (read_notify l target)).
Definition getTargetNames (tag : octets) : C (list octets) :=
  m ← zoom c_getTargetNames (λ x c, mk_caches (c_getTargetAddr c) (c_getTargetParams c)
      (c_getNotificationInfo c) x (c_getNotifyFilterProfile c) (c_getNotifyFilter c))
    (tabulated (addrEntryVersion l) (read_names l));
  liftR (from_option_exc (SmiError "Transport tag not configured at LCD") (dget m tag)).
Definition getNotifyFilterProfile (name : octets) : C (option octets) :=
  zoom c_getNotifyFilterProfile (λ x c, mk_caches (c_getTargetAddr c) (c_getTargetParams c)
      (c_getNotificationInfo c) (c_getTargetNames c) x (c_getNotifyFilter c))
    (memoised (profileEntryVersion l) name (read_profile l name)).
Definition getNotifyFilter (profile : octets) : C (list filter_entry) :=
  m ← zoom c_getNotifyFilter (λ x c, mk_caches (c_getTargetAddr c) (c_getTargetParams c)
      (c_getNotificationInfo c) (c_getTargetNames c) (c_getNotifyFilterProfile c) x)
    (tabulated (filterEntryVersion l) (read_filters l));
  mret (default [] (dget m profile)).

(** ** The same without the caches *)
Definition target_info (name : octets) : result exn (target_addr * target_params) :=
  a ← read_addr l registered name; p ← read_params l (ta_params a); mret (a, p).
Definition target_names (tag : octets) : result exn (list octets) :=
  m ← read_names l; from_option_exc (SmiError "Transport tag not configured at LCD") (dget m tag).
Definition notify_filter (profile : octets) : result exn (list filter_entry) :=
  m ← read_filters l; mret (default [] (dget m profile)).
End ops.
End Target.
