(* ===== verification/TargetSpec.v ===== *)
(** * What the configuration reader promises

    Its caches cannot be seen; the targets of a tag are the rows that list it. *)
From S2P Require Export Target.
Import Target.
#[local] Open Scope Z_scope.

Module TargetSpec.

(** ** Caches that agree with the tables *)
Definition memo_ok {K V} `{EqDecision K} (version : Z) (read : K → result exn V) (c : cache (dict K V)) : Prop :=
  cache_id c <= version ∧
  (cache_id c = version → ∀ k v, dget (contents c) k = Some v → read k = Ok v).
Definition table_ok {D} (version : Z) (read : result exn D) (c : cache D) : Prop :=
  cache_id c <= version ∧ (cache_id c = version → read = Ok (contents c)).

Lemma memoised_ok {K V} `{EqDecision K} version (read : K → result exn V) k c :
  memo_ok version read c →
  ∃ c', memoised version k (read k) c = (read k, c') ∧ memo_ok version read c'.
Proof.
  intros [Hle Hc]. unfold memoised. destruct (Z.eqb_spec (cache_id c) version) as [E|E].
  - destruct (dget (contents c) k) as [v|] eqn:Hk.
    + exists c. split; [by rewrite (Hc E k v Hk)|done].
    + destruct (read k) as [v|e] eqn:Hr; [|by exists c]. eexists. split; [done|]. split; cbn; [lia|].
      intros _ k' v'. rewrite dget_dset. case_decide; [intros [= <-]; by subst|auto].
  - cbn. destruct (read k) as [v|e] eqn:Hr; eexists; (split; [done|]); split; cbn; try lia; try done.
    intros _ k' v'. case_decide; [intros [= <-]; by subst|done].
Qed.
Lemma tabulated_ok {D} version (read : result exn D) c : table_ok version read c →
  ∃ c', tabulated version read c = (read, c') ∧ table_ok version read c'.
Proof.
  intros [Hle Hc]. unfold tabulated. destruct (Z.eqb_spec (cache_id c) version) as [E|E].
  - exists c. by rewrite (Hc E).
  - destruct read as [d|e]; eexists; (split; [done|]); by split; cbn.
Qed.

(** A table that may have changed, when its version has *)
Lemma memo_step {K V} `{EqDecision K} v v' (read read' : K → result exn V) c :
  v <= v' → (v = v' → ∀ k, read k = read' k) → memo_ok v read c → memo_ok v' read' c.
Proof.
  intros Hv Hr [Hle Hc]. split; [lia|]. intros E k x Hx. rewrite <- Hr by lia. apply Hc; [lia|done].
Qed.
Lemma table_step {D} v v' (read read' : result exn D) c :
  v <= v' → (v = v' → read = read') → table_ok v read c → table_ok v' read' c.
Proof. intros Hv Hr [Hle Hc]. split; [lia|]. intros E. rewrite <- Hr by lia. apply Hc. lia. Qed.

(** ** What is asked *)
Inductive query : Type :=
  | TargetAddr (name : octets)
  | TargetParams (name : octets)
  | TargetInfo (name : octets)
  | NotificationInfo (target : octets)
  | TargetNames (tag : octets)
  | NotifyFilterProfile (name : octets)
  | NotifyFilter (profile : octets).
Inductive answer : Type :=
  | AAddr (a : target_addr)
  | AParams (p : target_params)
  | AInfo (i : target_addr * target_params)
  | ANotification (i : octets * Z)
  | ANames (l : list octets)
  | AProfile (p : option octets)
  | AFilter (l : list filter_entry).

(** The tables and the transports at a moment *)
Definition moment : Type := LCD * list oid.

Definition map_ok {A B} (f : A → B) (m : C A) : C B := a ← m; mret (f a).
Definition ask (e : moment) (q : query) : C answer :=
  match q with
  | TargetAddr n => map_ok AAddr (getTargetAddr e.1 e.2 n)
  | TargetParams n => map_ok AParams (getTargetParams e.1 n)
  | TargetInfo n => map_ok AInfo (getTargetInfo e.1 e.2 n)
  | NotificationInfo n => map_ok ANotification (getNotificationInfo e.1 n)
  | TargetNames t => map_ok ANames (getTargetNames e.1 t)
  | NotifyFilterProfile n => map_ok AProfile (getNotifyFilterProfile e.1 n)
  | NotifyFilter p => map_ok AFilter (getNotifyFilter e.1 p)
  end.
(** The same read from the tables *)
Definition look_up (e : moment) (q : query) : result exn answer :=
  match q with
  | TargetAddr n => AAddr <$> read_addr e.1 e.2 n
  | TargetParams n => AParams <$> read_params e.1 n
  | TargetInfo n => AInfo <$> target_info e.1 e.2 n
  | NotificationInfo n => ANotification <$> read_notify e.1 n
  | TargetNames t => ANames <$> target_names e.1 t
  | NotifyFilterProfile n => AProfile <$> read_profile e.1 n
  | NotifyFilter p => AFilter <$> notify_filter e.1 p
  end.

Record coherent (e : moment) (c : caches) : Prop := {
  co_addr : memo_ok (addrEntryVersion e.1) (read_addr e.1 e.2) (c_getTargetAddr c);
  co_params : memo_ok (paramsEntryVersion e.1) (read_params e.1) (c_getTargetParams c);
  co_notify : memo_ok (notifyEntryVersion e.1) (read_notify e.1) (c_getNotificationInfo c);
  co_names : table_ok (addrEntryVersion e.1) (read_names e.1) (c_getTargetNames c);
  co_profile : memo_ok (profileEntryVersion e.1) (read_profile e.1) (c_getNotifyFilterProfile c);
  co_filter : table_ok (filterEntryVersion e.1) (read_filters e.1) (c_getNotifyFilter c);
}.

(** A call that answers as the tables do and keeps the caches right *)
Definition honest {A} (e : moment) (m : C A) (r : result exn A) : Prop :=
  ∀ c, coherent e c → ∃ c', m c = (r, c') ∧ coherent e c'.

Lemma honest_bind {A B} e (m : C A) r (k : A → C B) (k' : A → result exn B) :
  honest e m r → (∀ a, honest e (k a) (k' a)) → honest e (m ≫= k) (r ≫= k').
Proof.
  intros Hm Hk c Hc. destruct (Hm c Hc) as (c' & Hm' & Hc'). unfold mbind, M_bind. rewrite Hm'.
  destruct r as [a|x]; [by apply Hk|by exists c'].
Qed.
Lemma honest_ret {A} e (r : result exn A) : honest e (liftR r) r.
Proof. intros c Hc. by exists c. Qed.
Lemma honest_map {A B} e (f : A → B) (m : C A) r : honest e m r → honest e (map_ok f m) (f <$> r).
Proof.
  intros Hm c Hc. destruct (Hm c Hc) as (c' & Hm' & Hc'). exists c'. unfold map_ok. munfold.
  rewrite Hm'. by destruct r.
Qed.

(** The part of the caches an operation works on *)
Ltac by_part H :=
  intros c Hc; destruct Hc as [H1 H2 H3 H4 H5 H6];
  unfold zoom; edestruct H as (x & -> & Hx); [eassumption|];
  eexists; split; [reflexivity|]; split; cbn; assumption.

Lemma honest_addr e n : honest e (getTargetAddr e.1 e.2 n) (read_addr e.1 e.2 n).
Proof. unfold getTargetAddr. by_part (memoised_ok (addrEntryVersion e.1) (read_addr e.1 e.2) n). Qed.
Lemma honest_params e n : honest e (getTargetParams e.1 n) (read_params e.1 n).
Proof. unfold getTargetParams. by_part (memoised_ok (paramsEntryVersion e.1) (read_params e.1) n). Qed.
Lemma honest_notify e n : honest e (getNotificationInfo e.1 n) (read_notify e.1 n).
Proof. unfold getNotificationInfo. by_part (memoised_ok (notifyEntryVersion e.1) (read_notify e.1) n). Qed.
Lemma honest_profile e n : honest e (getNotifyFilterProfile e.1 n) (read_profile e.1 n).
Proof. unfold getNotifyFilterProfile. by_part (memoised_ok (profileEntryVersion e.1) (read_profile e.1) n). Qed.
Lemma honest_names e t : honest e (getTargetNames e.1 t) (target_names e.1 t).
Proof.
  apply honest_bind; [|intros m; apply honest_ret]. by_part (tabulated_ok (addrEntryVersion e.1) (read_names e.1)).
Qed.
Lemma honest_filter e p : honest e (getNotifyFilter e.1 p) (notify_filter e.1 p).
Proof.
  apply honest_bind; [|intros m c Hc; by exists c].
  by_part (tabulated_ok (filterEntryVersion e.1) (read_filters e.1)).
Qed.
Lemma honest_info e n : honest e (getTargetInfo e.1 e.2 n) (target_info e.1 e.2 n).
Proof.
  apply honest_bind; [apply honest_addr|]. intros a. apply honest_bind; [apply honest_params|].
  intros p c Hc. by exists c.
Qed.
#[local] Hint Resolve honest_addr honest_params honest_info honest_notify honest_names honest_profile
  honest_filter : honest.

Lemma honest_ask e q : honest e (ask e q) (look_up e q).
Proof. destruct q; apply honest_map; auto with honest. Qed.

(** ** Histories *)
(** From one moment to the next no version goes back, and a table whose version is
    the same reads the same. *)
Record follows (e e' : moment) : Prop := {
  fo_addr : addrEntryVersion e.1 <= addrEntryVersion e'.1;
  fo_params : paramsEntryVersion e.1 <= paramsEntryVersion e'.1;
  fo_notify : notifyEntryVersion e.1 <= notifyEntryVersion e'.1;
  fo_profile : profileEntryVersion e.1 <= profileEntryVersion e'.1;
  fo_filter : filterEntryVersion e.1 <= filterEntryVersion e'.1;
  fo_read_addr : addrEntryVersion e.1 = addrEntryVersion e'.1 →
    (∀ n, read_addr e.1 e.2 n = read_addr e'.1 e'.2 n) ∧ read_names e.1 = read_names e'.1;
  fo_read_params : paramsEntryVersion e.1 = paramsEntryVersion e'.1 →
    ∀ n, read_params e.1 n = read_params e'.1 n;
  fo_read_notify : notifyEntryVersion e.1 = notifyEntryVersion e'.1 →
    ∀ n, read_notify e.1 n = read_notify e'.1 n;
  fo_read_profile : profileEntryVersion e.1 = profileEntryVersion e'.1 →
    ∀ n, read_profile e.1 n = read_profile e'.1 n;
  fo_read_filters : filterEntryVersion e.1 = filterEntryVersion e'.1 → read_filters e.1 = read_filters e'.1;
}.
Definition started (e : moment) : Prop :=
  0 <= addrEntryVersion e.1 ∧ 0 <= paramsEntryVersion e.1 ∧ 0 <= notifyEntryVersion e.1 ∧
  0 <= profileEntryVersion e.1 ∧ 0 <= filterEntryVersion e.1.
Fixpoint history (h : list (moment * query)) : Prop :=
  match h with
  | (e, _) :: ((e', _) :: _) as h' => follows e e' ∧ history h'
  | _ => True
  end.
Fixpoint serve (h : list (moment * query)) (c : caches) : list (result exn answer) :=
  match h with
  | [] => []
  | (e, q) :: h => let '(r, c) := ask e q c in r :: serve h c
  end.

Lemma targets_coherent_init e : started e → coherent e no_cache.
Proof. intros (?&?&?&?&?). split; split; cbn; try done; try lia. Qed.
Lemma targets_coherent_step e e' c : follows e e' → coherent e c → coherent e' c.
Proof.
  intros [] [H1 H2 H3 H4 H5 H6].
  split; (eapply memo_step || eapply table_step); try eassumption; naive_solver.
Qed.

(** The caches cannot be seen: over any sequence of questions and of changes
    to the tables and the transports, in which a table whose version stays the same
    reads the same, every answer is what the tables say at that moment, errors
    included. *)
Theorem target_caches_transparent h :
  history h → (match h with (e, _) :: _ => started e | [] => True end) →
  serve h no_cache = (λ '(e, q), look_up e q) <$> h.
Proof.
  assert (Hgen : ∀ h c, history h → (match h with (e, _) :: _ => coherent e c | [] => True end) →
    serve h c = (λ '(e, q), look_up e q) <$> h).
  { clear. induction h as [|[e q] h IH]; intros c Hh Hc; [done|]. cbn [serve fmap list_fmap].
    destruct (honest_ask e q c Hc) as (c' & -> & Hc'). f_equal. apply IH.
    - by destruct h as [|[e' q'] h]; [|destruct Hh].
    - destruct h as [|[e' q'] h]; [done|]. destruct Hh. by eapply targets_coherent_step. }
  intros Hh Hs. apply Hgen; [done|]. destruct h as [|[e q] h]; [done|]. by apply targets_coherent_init.
Qed.

(** ** The targets of a tag *)

(** The names of the rows that list the tag, once for each time they list it *)
Definition listed (tag : octets) (rows : list (octets * octets)) : list octets :=
  rows ≫= λ r, (λ _, r.1) <$> filter (λ t, t = tag) (Community.split r.2).

Lemma append_tags tag name ts (m : dict octets (list octets)) :
  let m' := foldl (λ m t, append_to t name m) m ts in
  let new := (λ _, name) <$> filter (λ t, t = tag) ts in
  dget m' tag = match dget m tag, new with None, [] => None | o, _ => Some (default [] o ++ new) end.
Proof.
  revert m. induction ts as [|t ts IH]; intros m; cbn [foldl].
  { rewrite filter_nil. cbn. destruct (dget m tag); cbn; by rewrite ?app_nil_r. }
  cbn zeta. rewrite IH, filter_cons. unfold append_to. rewrite dget_dset. destruct (decide (tag = t)) as [->|Hne].
  - rewrite decide_True by done. cbn. rewrite <- app_assoc. by destruct (dget m t).
  - by rewrite decide_False.
Qed.

Lemma names_loop l tag nodes rows m : Forall2 (λ (kv : oid * octets) (r : octets * octets),
    kv.2 = r.2 ∧ Vacm.cell (snmpTargetAddrName l)
      (Community.instance_of (snmpTargetAddrTagList l) kv.1) = Ok r.1) nodes rows →
  ∃ m', mapM_ (λ kv, add_tags l kv.1 kv.2) nodes m = (Ok tt, m') ∧
    dget m' tag = match dget m tag, listed tag rows with None, [] => None
                  | o, new => Some (default [] o ++ new) end.
Proof.
  intros H. revert m. induction H as [|[n tl] [name tl'] nodes rows [Htl Hcell] _ IH]; intros m.
  { exists m. split; [done|]. unfold listed. cbn. destruct (dget m tag); cbn; by rewrite ?app_nil_r. }
  cbn [fst snd] in *. subst tl'. cbn [mapM_ fst snd]. unfold mbind at 1, M_bind at 1. unfold add_tags at 1. munfold.
  rewrite Hcell. destruct (IH (foldl (λ m tag, append_to tag name m) m (Community.split tl))) as (m' & Hm & Hd).
  unfold mbind, M_bind in Hm. rewrite Hm. exists m'. split; [done|]. rewrite Hd.
  pose proof (append_tags tag name (Community.split tl) m) as Hn. cbn zeta in Hn. rewrite Hn.
  unfold listed. rewrite bind_cons. cbn [fst snd].
  set (new := _ <$> filter _ (Community.split tl)). set (rest := rows ≫= _).
  destruct (dget m tag) as [o|]; [cbn; by rewrite <- app_assoc|].
  destruct new as [|x new]; [done|]. cbn. done.
Qed.

(** A tag stands for the target addresses that list it, in the order of their
    table: every row is named as often as its list names the tag, no other row is,
    and a tag that no row lists is an error. *)
Theorem targets_of_a_tag l tag rows :
  Column.wf (snmpTargetAddrTagList l) →
  Forall2 (λ (kv : oid * octets) (r : octets * octets),
    kv.2 = r.2 ∧ Vacm.cell (snmpTargetAddrName l)
      (Community.instance_of (snmpTargetAddrTagList l) kv.1) = Ok r.1)
    (Column.nodes (snmpTargetAddrTagList l)) rows →
  target_names l tag = match listed tag rows with
                       | [] => Err (SmiError "Transport tag not configured at LCD")
                       | names => Ok names
                       end.
Proof.
  intros Hwf Hrows. unfold target_names, read_names. rewrite Column.for_each_spec by done.
  destruct (names_loop l tag _ _ [] Hrows) as (m & -> & Hm). cbn. rewrite Hm. cbn.
  by destruct (listed tag rows).
Qed.

(** ** An example: two targets, "a" and "b", that list "t", "a" twice *)
Definition target_column (n : Z) : oid := [1; 3; 6; 1; 6; 3; 12; 1; 2; 1; n].
Definition params_column (n : Z) : oid := [1; 3; 6; 1; 6; 3; 12; 1; 3; 1; n].
Definition notify_column (t n : Z) : oid := [1; 3; 6; 1; 6; 3; 13; 1; t; 1; n].
Definition demo_targets (version timeout : Z) : LCD :=
  mk_lcd version
    (Vacm.demo_col (target_column 1) [] [([97], [97]); ([98], [98])])
    (Vacm.demo_col (target_column 2) [] [([97], Transport.snmpUDPDomain); ([98], Transport.snmpUDPDomain)])
    (Vacm.demo_col (target_column 3) [] [([97], [127; 0; 0; 1; 0; 162]); ([98], [127; 0; 0; 2; 0; 162])])
    (Vacm.demo_col (target_column 4) 0 [([97], timeout); ([98], timeout)])
    (Vacm.demo_col (target_column 5) 0 [([97], 3); ([98], 3)])
    (Vacm.demo_col (target_column 6) [] [([97], [116; 32; 117; 32; 116]); ([98], [116])])
    (Vacm.demo_col (target_column 7) [] [([97], [112]); ([98], [112])])
    (Vacm.demo_col (target_column 8) [] [([97], [0; 0; 0; 0; 0; 0]); ([98], [0; 0; 0; 0; 0; 0])])
    1
    (Vacm.demo_col (params_column 2) 0 [([112], 1)])
    (Vacm.demo_col (params_column 3) 0 [([112], 2)])
    (Vacm.demo_col (params_column 4) [] [([112], [115])])
    (Vacm.demo_col (params_column 5) 0 [([112], 1)])
    1
    (Vacm.demo_col (notify_column 1 2) [] [([110], [116])])
    (Vacm.demo_col (notify_column 1 3) 0 [([110], 2)])
    1
    (Vacm.demo_col (notify_column 2 1) [] [([112], [102])])
    (Vacm.demo_col (notify_column 2 3) 0 [([112], 1)])
    1
    (Vacm.demo_col (notify_column 3 1) [] [([1; 102; 1; 3], [1; 3])])
    (Vacm.demo_col (notify_column 3 2) [] [([1; 102; 1; 3], [])])
    (Vacm.demo_col (notify_column 3 3) 0 [([1; 102; 1; 3], 1)])
    (Vacm.demo_col (notify_column 3 5) 0 [([1; 102; 1; 3], 1)]).

(** The timeout of the targets is changed between two questions. *)
Lemma target_caches_transparent_witness :
  let h := [((demo_targets 1 1500, [Transport.snmpUDPDomain]), TargetInfo [97]);
            ((demo_targets 1 1500, [Transport.snmpUDPDomain]), TargetNames [116]);
            ((demo_targets 2 300, [Transport.snmpUDPDomain]), TargetInfo [97])] in
  serve h no_cache = (λ '(e, q), look_up e q) <$> h.
Proof.
  intros h. apply (target_caches_transparent h); [|vm_compute; repeat split; discriminate].
  split; [|split; [|done]].
  - split; cbn; try lia; auto.
  - split; cbn; try lia; auto.
Defined.

Lemma targets_of_a_tag_witness :
  target_names (demo_targets 1 1500) [116] = Ok [[97]; [97]; [98]].
Proof.
  apply (targets_of_a_tag (demo_targets 1 1500) [116]
    [([97], [116; 32; 117; 32; 116]); ([98], [116])]).
  - apply Vacm.demo_col_ok; repeat constructor; discriminate.
  - vm_compute. repeat constructor.
Defined.
End TargetSpec.
