(* ===== verification/Cmdgen.v ===== *)
(** * The command generator (src/pysnmp/entity/rfc3413/cmdgen.py)

    A generator sends a request to a configured target, resends it when it fails
    and gives the response to the class that made it; a walk turns each response
    into the next request.  The dispatcher's [sendPdu] is an interface: it works on
    the part [A] of the engine that is not the generator's and on the PDU, and it
    keeps [processResponsePdu] and its context for the response.  The application's
    callback works on everything, so it may send requests in turn.  The engine has
    a transport dispatcher. *)
From S2P Require Export Target Proxy Dispatcher Carrier.
Export Proxy.
Import Dispatcher.
#[local] Open Scope Z_scope.

Module Cmdgen.

(** [nextid.Integer(0x7FFFFFFF)] *)
Definition getNextHandle (e : Z) : result exn NextId.Integer := NextId.init 2147483647 256 e.

(** ** [getNextVarBinds] *)

Definition finished (v : value) : bool :=
  match tagSet v with TNoSuchObject | TNoSuchInstance | TEndOfMibView => true | _ => false end.

(** The loop, from the last binding to the first: what it counts, and whether an
    OID does not advance *)
Fixpoint next_loop (varBinds : list var_bind) (origVarBinds : option (list var_bind)) (idx : nat)
    (nonNulls : nat) (stuck : bool) : result exn (nat * bool) :=
  match idx with
  | O => Ok (nonNulls, stuck)
  | S idx =>
      match varBinds !! idx with
      | None => Err IndexError
      | Some (o, v) =>
          if finished v then next_loop varBinds origVarBinds idx (nonNulls - 1) stuck
          else
            match origVarBinds with
            | None => next_loop varBinds origVarBinds idx nonNulls stuck
            | Some orig =>
                match orig !! idx with
                | None => Err IndexError
                | Some (o', _) => next_loop varBinds origVarBinds idx nonNulls (tuple_leb o o' || stuck)
                end
            end
      end
  end.
Definition getNextVarBinds (varBinds : list var_bind) (origVarBinds : option (list var_bind)) :
    result exn (option errind * list var_bind) :=
  '(nonNulls, stuck) ← next_loop varBinds origVarBinds (length varBinds) (length varBinds) false;
  mret (if stuck : bool then Some oidNotIncreasing else None,
        if (nonNulls =? 0)%nat then [] else (λ vb : var_bind, (vb.1, VNull)) <$> varBinds).

(** ** What is told to whom *)

(** An error indication, or the string the generator makes up *)
Inductive indication : Type := Indicated (e : errind) | BadResponse.
(** The bindings a callback gets: a list, or a table of rows *)
Inductive bindings : Type := Bindings (l : list var_bind) | Table (t : list (list var_bind)).

Section generator.
(** The application's callbacks; the rest of the engine; the ids of jobs *)
Context {App A J : Type} `{Countable J}.

(** The context of a walk: [targetName], [contextEngineId], [contextName],
    [reqPDU], [cbFun] and its context *)
Record walk : Type := mk_walk {
  w_targetName : octets;
  w_contextEngineId : option octets;
  w_contextName : octets;
  w_reqPDU : pdu;
  w_app : App;
}.
(** [cbFun] and [cbCtx] of [sendPdu]: the [processResponseVarBinds] of a class *)
Inductive follow : Type :=
  | Once (app : App)
  | NextWalk (w : walk)
  | BulkWalk (nonRepeaters maxRepetitions : Z) (w : walk).

(** [__pendingReqs] *)
Record pending : Type := mk_pending {
  p_transport : origin;
  p_messageProcessingModel : Z;
  p_securityModel : Z;
  p_securityName : octets;
  p_securityLevel : Z;
  p_contextEngineId : option octets;
  p_contextName : octets;
  p_pduVersion : Z;
  p_PDU : pdu;
  p_timeout : Z;
  p_retryCount : Z;
  p_retries : Z;
  p_discoveryRetries : Z;
}.

(** The generator, the generators of handles and request IDs it shares, the caches
    of the configuration, the jobs of the transport dispatcher, and the rest *)
Record state : Type := mk_state {
  pendingReqs : dict Z pending;
  handles : NextId.Integer;
  requestIDs : NextId.Integer;
  targets : Target.caches;
  jobs : gmap J Z;
  rest : A;
}.
Abbreviation G := (M exn state).

Definition put_pending (p : dict Z pending) (s : state) : state :=
  mk_state p (handles s) (requestIDs s) (targets s) (jobs s) (rest s).
Definition put_handles (h : NextId.Integer) (s : state) : state :=
  mk_state (pendingReqs s) h (requestIDs s) (targets s) (jobs s) (rest s).
Definition put_ids (i : NextId.Integer) (s : state) : state :=
  mk_state (pendingReqs s) (handles s) i (targets s) (jobs s) (rest s).
Definition put_targets (c : Target.caches) (s : state) : state :=
  mk_state (pendingReqs s) (handles s) (requestIDs s) c (jobs s) (rest s).
Definition put_jobs (j : gmap J Z) (s : state) : state :=
  mk_state (pendingReqs s) (handles s) (requestIDs s) (targets s) j (rest s).
Definition put_rest (a : A) (s : state) : state :=
  mk_state (pendingReqs s) (handles s) (requestIDs s) (targets s) (jobs s) a.

Definition on_ids {B} (m : M exn NextId.Integer B) : G B := zoom requestIDs put_ids m.
Definition on_targets {B} (m : M exn Target.caches B) : G B := zoom targets put_targets m.
Definition on_jobs {B} (m : M exn (gmap J Z) B) : G B := zoom jobs put_jobs m.

(** [msgAndPduDsp.sendPdu], given what is kept for the response; the tables and
    the transports it has; [getTimerResolution], in microseconds; the
    application's callback, whose value stops or continues a walk; [id(self)]; the
    option [discoveryRetries] *)
Context (dsp_sendPdu : outgoing → Z → Z * follow → M exn (A * v1_pdu) Z)
        (lcd : A → Target.LCD) (registered : A → list oid) (timerResolution : A → Z)
        (cbFun : App → Z → option indication → Z → Z → bindings → G bool)
        (other_address : value → result exn octets)
        (self : J) (discoveryRetries : Z).

(** The timeout of a target is in hundredths of a second.  The dispatcher compares
    a number of ticks with it, so a fraction of a tick counts as one. *)
Definition timeoutInTicks (timeout resolution : Z) : Z := (timeout * 10000 + resolution - 1) / resolution.

(** The PDU object, after the message processing model has had it *)
Definition same_object (p : pdu) (x : v1_pdu) : pdu := match x with V1Pdu p => p | V1Trap _ => p end.

(** [SnmpEngineID(contextEngineId)] where there is one, [SnmpAdminString(contextName)] *)
Definition context_engine (e : option octets) : result exn (option octets) :=
  match e with
  | Some ((_ :: _) as e) => checked (in_range 5 32 (Z.of_nat (length e))) (Some e)
  | _ => Ok e
  end.
Definition context_name (n : octets) : result exn octets :=
  checked (in_range 0 255 (Z.of_nat (length n))) n.

(** The call of [sendPdu], and the entry that is made of a request that went out.
    A v1 peer is sent a translation, any other the PDU itself. *)
Definition send_request (p : pending) (sendRequestHandle : Z) (f : follow) : G unit :=
  let v1 := p_messageProcessingModel p =? 0 in
  reqPDU ← liftR (if v1 then v2ToV1 other_address (p_PDU p) None else Ok (V1Pdu (p_PDU p)));
  let o := mk_outgoing (p_transport p) (p_messageProcessingModel p) (p_securityModel p)
             (p_securityName p) (p_securityLevel p) (p_contextEngineId p) (p_contextName p)
             (if v1 then 0 else 1) true in
  x ← zoom rest put_rest (λ a,
        let '(r, (a, x)) := dsp_sendPdu o (p_timeout p) (sendRequestHandle, f) (a, reqPDU) in
        ((λ h, (h, x)) <$> r, a));
  on_jobs (Jobs.jobStarted self 1);;
  modify (λ s, put_pending (dset (pendingReqs s) x.1
    (mk_pending (p_transport p) (p_messageProcessingModel p) (p_securityModel p) (p_securityName p)
       (p_securityLevel p) (p_contextEngineId p) (p_contextName p) (p_pduVersion p)
       (if v1 then p_PDU p else same_object (p_PDU p) x.2)
       (p_timeout p) (p_retryCount p) (p_retries p) (p_discoveryRetries p))) s).

(** [sendPdu] *)
Definition sendPdu (targetName : octets) (contextEngineId : option octets) (contextName : octets)
    (PDU : pdu) (f : follow) : G Z :=
  a ← gets rest;
  '(t, p) ← on_targets (Target.getTargetInfo (lcd a) (registered a) targetName);
  let timeout := timeoutInTicks (Target.ta_timeout t) (timerResolution a) in
  e ← liftR (context_engine contextEngineId);
  n ← liftR (context_name contextName);
  let mp := Target.tp_messageProcessingModel p in
  (* the translation comes before the handle *)
  liftR (if mp =? 0 then v2ToV1 other_address PDU None ≫= (λ _, Ok tt) else Ok tt);;
  sendRequestHandle ← zoom handles put_handles NextId.call;
  send_request
    (mk_pending (Target.ta_domain t, Target.ta_address t) mp (Target.tp_securityModel p)
       (Target.tp_securityName p) (Target.tp_securityLevel p) e n (if mp =? 0 then 0 else 1) PDU timeout
       (Target.ta_retryCount t) 0 0) sendRequestHandle f;;
  mret sendRequestHandle.

(** [statusInformation["errorIndication"]] *)
Definition error_indication (st : status) : result exn errind :=
  from_option_exc KeyError (st_errorIndication st).

(** ** [processResponseVarBinds] *)

(** A walk: [row] is the first part of [processResponseVarBinds], the bindings to
    ask for next; [setRequestID] and [setVarBinds] change the request that every
    round of the walk shares. *)
Definition advance (w : walk) (h : Z) (table : list (list var_bind)) (PDU : pdu)
    (row : list var_bind → result exn (option errind * list var_bind))
    (again : walk → follow) : G unit :=
  '(ind, vbs) ← liftR
     (if negb (errorStatus PDU =? 0) then Ok (None, [])
      else match last table with
           | None => Ok (Some emptyResponse, [])
           | Some r => row r
           end);
  i ← liftR (getErrorIndex PDU true);
  more ← cbFun (w_app w) h (Indicated <$> ind) (errorStatus PDU) i (Table table);
  if negb more then mret tt
  else match vbs with
  | [] => mret tt
  | _ =>
      n ← on_ids NextId.call;
      reqPDU ← liftR (setRequestID n (w_reqPDU w));
      let w := mk_walk (w_targetName w) (w_contextEngineId w) (w_contextName w) (setVarBinds vbs reqPDU)
                 (w_app w) in
      try_except
        (sendPdu (w_targetName w) (w_contextEngineId w) (w_contextName w) (w_reqPDU w) (again w);; mret tt)
        (λ e, match e with
              | StatusInformation st => Some
                  (x ← liftR (error_indication st);
                   cbFun (w_app w) h (Some (Indicated x)) 0 0 (Bindings []);; mret tt)
              | _ => None
              end)
  end.

(** After a row with non-repeaters, these are asked for as before. *)
Definition bulk_row (reqPDU : pdu) (r : list var_bind) : result exn (option errind * list var_bind) :=
  '(ind, vbs) ← getNextVarBinds r (Some (varBinds reqPDU));
  let n := getNonRepeaters reqPDU in
  mret (ind, if n =? 0 then vbs
             else take (Z.to_nat n) (varBinds reqPDU) ++ drop (Z.to_nat n) vbs).

Definition processResponseVarBinds (f : follow) (h : Z) (e : option indication) (PDU : option pdu) : G unit :=
  match f with
  | Once app =>
      match PDU with
      | None => cbFun app h e 0 0 (Bindings []);; mret tt
      | Some p =>
          i ← liftR (getErrorIndex p true);
          cbFun app h e (errorStatus p) i (Bindings (varBinds p));; mret tt
      end
  | NextWalk w =>
      match e, PDU with
      | Some _, _ => cbFun (w_app w) h e 0 0 (Bindings []);; mret tt
      | None, None => raise AttributeError
      | None, Some p =>
          advance w h (v2c_getVarBindTable (w_reqPDU w) p) p
            (λ r, getNextVarBinds r (Some (varBinds (w_reqPDU w)))) NextWalk
      end
  | BulkWalk nonRepeaters maxRepetitions w =>
      match e, PDU with
      | Some _, _ => cbFun (w_app w) h e 0 0 (Bindings []);; mret tt
      | None, None => raise AttributeError
      | None, Some p =>
          (* [nonRepeaters] is read again from the request once there is a row *)
          advance w h (bulk_getVarBindTable (w_reqPDU w) p) p (bulk_row (w_reqPDU w))
            (BulkWalk (getNonRepeaters (w_reqPDU w)) maxRepetitions)
      end
  end.

(** ** [processResponsePdu] *)

(** Which of the two counters a failure counts on; the other starts again. *)
Definition counted (e : errind) (p : pending) : pending :=
  let d := bool_decide (e = notInTimeWindow ∨ e = unknownEngineID) in
  mk_pending (p_transport p) (p_messageProcessingModel p) (p_securityModel p) (p_securityName p)
    (p_securityLevel p) (p_contextEngineId p) (p_contextName p) (p_pduVersion p) (p_PDU p) (p_timeout p)
    (p_retryCount p) (if d then 0 else p_retries p + 1) (if d then p_discoveryRetries p + 1 else 0).
Definition exhausted (p : pending) : bool :=
  (p_retryCount p <? p_retries p) || (discoveryRetries <? p_discoveryRetries p).

(** 3.1.3 *)
Definition failed (p : pending) (h : Z) (f : follow) (st : status) : G unit :=
  e ← liftR (error_indication st);
  let p := counted e p in
  if exhausted p then processResponseVarBinds f h (Some (Indicated e)) None
  else
    (* the translation is outside the [try] *)
    liftR (if p_messageProcessingModel p =? 0
           then v2ToV1 other_address (p_PDU p) None ≫= (λ _, Ok tt) else Ok tt);;
    try_except (send_request p h f)
      (λ x, match x with
            | StatusInformation st => Some
                (e ← liftR (error_indication st);
                 processResponseVarBinds f h (Some (Indicated e)) None)
            | _ => None
            end).

(** The test of 3.1.3 and of what follows *)
Definition matches (p : pending) (e : Mp.elements v1_pdu) : bool :=
  (p_messageProcessingModel p =? Mp.e_messageProcessingModel e) &&
  (p_securityModel p =? Mp.e_securityModel e) &&
  bool_decide (p_securityName p = Mp.e_securityName e) &&
  (match p_contextEngineId p with
   | Some ((_ :: _) as c) => bool_decide (c = Mp.e_contextEngineId e) | _ => true end) &&
  (match p_contextName p with [] => true | c => bool_decide (c = Mp.e_contextName e) end) &&
  (p_pduVersion p =? Mp.e_pduVersion e).

(** The request ID is the first field; that of a v1 trap is no number. *)
Definition answered (p : pending) (h : Z) (f : follow) (e : Mp.elements v1_pdu) : G unit :=
  if negb (matches p e) then processResponseVarBinds f h (Some BadResponse) None
  else
    PDU ← (if Mp.e_messageProcessingModel e =? 0
           then r ← on_ids (v1ToV2 (Mp.e_pdu e) (Some (p_PDU p)) []); mret (V1Pdu r)
           else mret (Mp.e_pdu e));
    match PDU with
    | V1Pdu r =>
        if requestID r =? requestID (p_PDU p) then processResponseVarBinds f h None (Some r)
        else processResponseVarBinds f h (Some BadResponse) None
    | V1Trap _ => processResponseVarBinds f h (Some BadResponse) None
    end.

Definition processResponsePdu (cbCtx : Z * follow) (sendPduHandle : Z) (o : outcome) : G unit :=
  let '(origSendRequestHandle, f) := cbCtx in
  (* 3.1.1 *)
  reqs ← gets pendingReqs;
  match dget reqs sendPduHandle with
  | None => raise (PySnmpError "Missing sendPduHandle")
  | Some p =>
      modify (put_pending (ddel reqs sendPduHandle));;
      on_jobs (Jobs.jobFinished self 1);;
      match o with
      | Failed st => failed p origSendRequestHandle f st
      | Answered e => answered p origSendRequestHandle f e
      end
  end.

(** ** [sendVarBinds] of the classes: a new request, filled in and sent *)
Definition request_of (t : pdu_tag) (vbs : list var_bind) : G pdu :=
  p ← on_ids (setDefaults (new t)); mret (setVarBinds vbs p).
Definition get_sendVarBinds (targetName : octets) (e : option octets) (n : octets)
    (vbs : list var_bind) (app : App) : G Z :=
  p ← request_of GetRequestPDU vbs; sendPdu targetName e n p (Once app).
Definition set_sendVarBinds (targetName : octets) (e : option octets) (n : octets)
    (vbs : list var_bind) (app : App) : G Z :=
  p ← request_of SetRequestPDU vbs; sendPdu targetName e n p (Once app).
Definition next_single_sendVarBinds (targetName : octets) (e : option octets) (n : octets)
    (vbs : list var_bind) (app : App) : G Z :=
  p ← request_of GetNextRequestPDU vbs; sendPdu targetName e n p (Once app).
Definition next_sendVarBinds (targetName : octets) (e : option octets) (n : octets)
    (vbs : list var_bind) (app : App) : G Z :=
  p ← request_of GetNextRequestPDU vbs;
  sendPdu targetName e n p (NextWalk (mk_walk targetName e n p app)).

Definition bulk_request (nonRepeaters maxRepetitions : Z) (vbs : list var_bind) : G pdu :=
  p ← on_ids (bulk_setDefaults (new GetBulkRequestPDU));
  p ← liftR (setNonRepeaters nonRepeaters p);
  p ← liftR (setMaxRepetitions maxRepetitions p);
  mret (setVarBinds vbs p).
Definition bulk_single_sendVarBinds (targetName : octets) (e : option octets) (n : octets)
    (nonRepeaters maxRepetitions : Z) (vbs : list var_bind) (app : App) : G Z :=
  p ← bulk_request nonRepeaters maxRepetitions vbs; sendPdu targetName e n p (Once app).
Definition bulk_sendVarBinds (targetName : octets) (e : option octets) (n : octets)
    (nonRepeaters maxRepetitions : Z) (vbs : list var_bind) (app : App) : G Z :=
  p ← bulk_request nonRepeaters maxRepetitions vbs;
  sendPdu targetName e n p (BulkWalk nonRepeaters maxRepetitions (mk_walk targetName e n p app)).
End generator.
Arguments state : clear implicits.
Arguments state _ _ {_ _}.
Arguments walk : clear implicits.
Arguments follow : clear implicits.
End Cmdgen.
