(* ===== verification/CmdgenSpec.v ===== *)
(** * What the command generator promises

    When a walk asks on; what becomes of a request that fails; what a response has
    to match; that the jobs of the generator are its pending requests. *)
From S2P Require Export Cmdgen CarrierSpec TargetSpec.
Import Dispatcher Cmdgen.
#[local] Open Scope Z_scope.

Module CmdgenSpec.

(** ** The next row *)
Definition unfinished (vb : var_bind) : Prop := finished vb.2 = false.
#[global] Instance unfinished_dec vb : Decision (unfinished vb).
Proof. unfold unfinished. apply _. Defined.

(** A binding of the row that does not advance on what was asked for *)
Definition stuck_at (row orig : list var_bind) (i : nat) : Prop :=
  ∃ o v o' v', row !! i = Some (o, v) ∧ orig !! i = Some (o', v') ∧ finished v = false ∧ tuple_leb o o' = true.

Lemma next_loop_ok row orig n k stuck : (n <= length row)%nat → (length row <= length orig)%nat →
  (length (filter unfinished (take n row)) + (n - length (filter unfinished (take n row))) <= k)%nat →
  ∃ b, next_loop row (Some orig) n k stuck =
    Ok ((k - (n - length (filter unfinished (take n row))))%nat, b) ∧
    (b = true ↔ stuck = true ∨ ∃ i, (i < n)%nat ∧ stuck_at row orig i).
Proof.
  intros Hn Ho. revert k stuck. induction n as [|n IH]; intros k stuck Hk; cbn [next_loop].
  { exists stuck. split; [do 2 f_equal; cbn; lia|]. split; [by left|]. by intros [?|(i & ? & _)]; [|lia]. }
  destruct (lookup_lt_is_Some_2 row n) as [[o v] Hrow]; [lia|]. rewrite Hrow.
  destruct (lookup_lt_is_Some_2 orig n) as [[o' v'] Horig]; [lia|]. rewrite Horig.
  rewrite (take_S_r _ _ _ Hrow), filter_app, filter_cons, filter_nil in Hk |- *.
  set (m := length (filter unfinished (take n row))) in *.
  assert (Hm : (m <= n)%nat).
  { unfold m. pose proof (length_filter unfinished (take n row)). rewrite length_take in *. lia. }
  destruct (finished v) eqn:Hv.
  - rewrite decide_False in Hk |- * by (unfold unfinished; cbn; congruence). rewrite app_nil_r in *. fold m in Hk |- *.
    destruct (IH ltac:(lia) (k - 1)%nat stuck) as (b & Hb & Hiff); [lia|]. exists b. split.
    + rewrite Hb. do 2 f_equal. lia.
    + rewrite Hiff. split; (intros [?|(i & Hi & Hst)]; [by left|right; exists i; split; [|done]]); [lia|].
      destruct (decide (i = n)) as [->|]; [|lia]. destruct Hst as (?&?&?&?&Hr&_&Hf&_). congruence.
  - rewrite decide_True in Hk |- * by done. rewrite length_app in *. cbn [length] in *. fold m in Hk |- *.
    destruct (IH ltac:(lia) k (tuple_leb o o' || stuck)) as (b & Hb & Hiff); [lia|]. exists b. split.
    + rewrite Hb. do 2 f_equal. lia.
    + rewrite Hiff. rewrite orb_true_iff. split.
      * intros [[Hl|?]|(i & Hi & Hst)]; [right; exists n|by left|right; exists i]; (split; [lia|]); [|done].
        by exists o, v, o', v'.
      * intros [?|(i & Hi & Hst)]; [auto|]. destruct (decide (i = n)) as [->|].
        -- left. left. destruct Hst as (?&?&?&?&Hr&Hor&_&?). congruence.
        -- right. exists i. split; [lia|done].
Qed.

(** A row is asked on from, by the names of all its bindings, exactly when one
    of them is no exception value; and the walk is told that the OIDs do not
    increase exactly when one of those is no greater than the one it answers. *)
Theorem next_row_is_the_unfinished row orig : (length row <= length orig)%nat →
  ∃ ind next, getNextVarBinds row (Some orig) = Ok (ind, next) ∧
    (next = (λ vb : var_bind, (vb.1, VNull)) <$> row ∧ Exists unfinished row ∨
     next = [] ∧ Forall (λ vb, finished vb.2 = true) row) ∧
    (ind = Some oidNotIncreasing ∧ (∃ i, stuck_at row orig i) ∨
     ind = None ∧ ∀ i, ¬ stuck_at row orig i).
Proof.
  intros Hlen. unfold getNextVarBinds.
  destruct (next_loop_ok row orig (length row) (length row) false) as (b & Hb & Hiff); [lia|lia| |].
  { pose proof (length_filter unfinished (take (length row) row)). rewrite length_take in *. lia. }
  rewrite take_ge in Hb by lia. munfold. rewrite Hb. eexists _, _. split; [done|].
  pose proof (length_filter unfinished row) as Hf.
  split.
  - destruct (Nat.eqb_spec (length row - (length row - length (filter unfinished row))) 0) as [Hz|Hz].
    + right. split; [done|]. apply Forall_forall. intros x Hx.
      destruct (finished x.2) eqn:E; [done|]. exfalso.
      assert (x ∈ filter unfinished row) as Hin by (apply list_elem_of_filter; done).
      destruct (filter unfinished row); [by apply elem_of_nil in Hin|cbn in *; lia].
    + left. split; [done|]. apply Exists_exists.
      destruct (filter unfinished row) as [|x l] eqn:E; [cbn in *; lia|]. exists x.
      assert (x ∈ filter unfinished row) as Hin by (rewrite E; left).
      apply list_elem_of_filter in Hin as [? ?]. done.
  - destruct b.
    + left. split; [done|]. destruct (proj1 Hiff eq_refl) as [|(i & _ & ?)]; [done|by exists i].
    + right. split; [done|]. intros i Hst. destruct Hiff as [_ Hiff]. discriminate Hiff. right.
      exists i. split; [|done]. destruct Hst as (?&?&?&?&Hr&_). by apply lookup_lt_Some in Hr.
Qed.
Lemma next_row_is_the_unfinished_witness : ∃ ind next,
  getNextVarBinds [([1; 3], VInteger 1); ([1; 2], VInteger 2)] (Some [([1; 2], VNull); ([1; 2], VNull)]) =
    Ok (ind, next) ∧ ind = Some oidNotIncreasing ∧ next = [([1; 3], VNull); ([1; 2], VNull)].
Proof.
  destruct (next_row_is_the_unfinished [([1; 3], VInteger 1); ([1; 2], VInteger 2)]
    [([1; 2], VNull); ([1; 2], VNull)] ltac:(cbn; lia)) as (ind & next & H & _ & _).
  exists ind, next. split; [exact H|]. vm_compute in H. injection H as <- <-. done.
Defined.

(** A response with more bindings than the request ends a walk with an
    exception and not with its callback. *)
Theorem longer_response_raises :
  getNextVarBinds [([1; 3], VInteger 1); ([1; 4], VInteger 2)] (Some [([1; 2], VNull)]) = Err IndexError.
Proof. reflexivity. Qed.

(** ** Requests and jobs *)
Section generator.
Context {App A J : Type} `{Countable J}.
Abbreviation state := (Cmdgen.state A J).
Abbreviation G := (M exn state).
Context (dsp_sendPdu : outgoing → Z → Z * follow App → M exn (A * v1_pdu) Z)
        (lcd : A → Target.LCD) (registered : A → list oid) (timerResolution : A → Z)
        (cbFun : App → Z → option indication → Z → Z → bindings → G bool)
        (other_address : value → result exn octets) (self : J) (discoveryRetries : Z).
Implicit Types (s : state) (f : follow App) (p : pending).

Abbreviation send_request := (Cmdgen.send_request dsp_sendPdu other_address self).
Abbreviation sendPdu := (Cmdgen.sendPdu dsp_sendPdu lcd registered timerResolution other_address self).
Abbreviation processResponseVarBinds := (Cmdgen.processResponseVarBinds dsp_sendPdu lcd registered
  timerResolution cbFun other_address self).
Abbreviation processResponsePdu := (Cmdgen.processResponsePdu dsp_sendPdu lcd registered
  timerResolution cbFun other_address self discoveryRetries).

#[local] Arguments Jobs.jobStarted : simpl never.
#[local] Arguments Jobs.jobFinished : simpl never.

(** *** The jobs of the generator *)
Section accounting.
(** The handles the dispatcher has given out: it gives each out once. *)
Context (used : A → gset Z).
Definition fresh_handles : Prop := ∀ o t c a x,
  match dsp_sendPdu o t c (a, x) with
  | (Ok h, (a', _)) => h ∉ used a ∧ {[h]} ∪ used a ⊆ used a'
  | (Err _, (a', _)) => used a ⊆ used a'
  end.

(** One job is outstanding for each pending request. *)
Record accounted s : Prop := {
  ac_dict : dict_ok (pendingReqs s);
  ac_jobs : JobsSpec.jobs_ok (jobs s);
  ac_self : JobsSpec.outstanding (jobs s) self = Z.of_nat (length (pendingReqs s));
  ac_used : ∀ h, h ∈ dkeys (pendingReqs s) → h ∈ used (rest s);
}.
Definition keeps {B} (m : G B) : Prop := ∀ s, accounted s → accounted (m s).2.

Context (Hfresh : fresh_handles)
        (Hcb : ∀ app h e st i b, keeps (cbFun app h e st i b)).

Lemma generator_bind {B D} (m : G B) (k : B → G D) : keeps m → (∀ b, keeps (k b)) → keeps (m ≫= k).
Proof.
  intros Hm Hk s Hs. unfold mbind, M_bind. specialize (Hm s Hs).
  destruct (m s) as [[b|e] s1]; [by apply Hk|done].
Qed.
Lemma keeps_try {B} (m : G B) handler : keeps m → (∀ e k, handler e = Some k → keeps k) →
  keeps (try_except m handler).
Proof.
  intros Hm Hh s Hs. unfold try_except. specialize (Hm s Hs).
  destruct (m s) as [[b|e] s1]; [done|]. destruct (handler e) as [k|] eqn:E; [by eapply Hh|done].
Qed.
Lemma keeps_ret {B} (b : B) : keeps (mret b).
Proof. by intros s. Qed.
Lemma keeps_raise {B} e : keeps (raise (A:=B) e).
Proof. by intros s. Qed.
Lemma keeps_gets {B} (g : state → B) : keeps (gets g).
Proof. by intros s. Qed.
Lemma keeps_liftR {B} (r : result exn B) : keeps (liftR r).
Proof. by intros s. Qed.
Lemma keeps_part {B} (m : G B) :
  (∀ s, pendingReqs (m s).2 = pendingReqs s ∧ jobs (m s).2 = jobs s ∧ rest (m s).2 = rest s) → keeps m.
Proof.
  intros Hm s [H1 H2 H3 H4]. destruct (Hm s) as (E1 & E2 & E3). split; rewrite ?E1, ?E2, ?E3; done.
Qed.
Lemma keeps_ids {B} (m : M exn NextId.Integer B) : keeps (on_ids m).
Proof. apply keeps_part. intros s. unfold on_ids, zoom. by destruct (m (requestIDs s)). Qed.
Lemma keeps_targets {B} (m : M exn Target.caches B) : keeps (on_targets m).
Proof. apply keeps_part. intros s. unfold on_targets, zoom. by destruct (m (targets s)). Qed.
#[local] Hint Resolve keeps_ret keeps_raise keeps_gets keeps_liftR keeps_ids keeps_targets : keeps.

(** A request that goes out brings its job. *)
Lemma keeps_send_request p k f : keeps (send_request p k f).
Proof.
  unfold Cmdgen.send_request. apply generator_bind; [auto with keeps|]. intros x s [H1 H2 H3 H4].
  unfold mbind, M_bind, zoom. cbn beta iota zeta.
  specialize (Hfresh (mk_outgoing (p_transport p) (p_messageProcessingModel p) (p_securityModel p)
    (p_securityName p) (p_securityLevel p) (p_contextEngineId p) (p_contextName p)
    (if p_messageProcessingModel p =? 0 then 0 else 1) true) (p_timeout p) (k, f) (rest s) x).
  destruct (dsp_sendPdu _ _ _ _) as [[h|e] [a y]]; cbn in Hfresh |- *.
  2:{ split; cbn; try done. intros h Hh. by apply Hfresh, H4. }
  destruct Hfresh as [Hnew Hused]. unfold on_jobs, zoom. cbn.
  destruct (JobsSpec.jobStarted_ok (jobs s) self 1 H2 ltac:(lia)) as (j & Hj & Hjok & Hjo).
  unfold put_rest, put_jobs. cbn. rewrite Hj. cbn.
  assert (Hno : din (pendingReqs s) h = false).
  { apply din_false, dget_None. intros Hin. by apply Hnew, H4. }
  split; cbn [pendingReqs jobs rest put_pending put_jobs put_rest modify snd fst].
  - by apply dset_ok.
  - done.
  - rewrite Hjo, decide_True, H3 by done. rewrite length_dset, Hno. lia.
  - intros h'. rewrite dkeys_dset. case_decide; [intros Hh; apply Hused, elem_of_union; right; by apply H4|].
    intros [Hh|Hh%list_elem_of_singleton]%elem_of_app; apply Hused, elem_of_union;
      [right; by apply H4|left; by apply elem_of_singleton].
Qed.

Lemma keeps_sendPdu target e n q f : keeps (sendPdu target e n q f).
Proof.
  unfold Cmdgen.sendPdu. repeat (apply generator_bind; [solve [auto with keeps]|]; intros ?).
  destruct b0 as [t p]. repeat (apply generator_bind; [solve [auto with keeps]|]; intros ?).
  apply generator_bind; [|intros k; apply generator_bind; [apply keeps_send_request|auto with keeps]].
  apply keeps_part. intros s. unfold zoom. by destruct (NextId.call (handles s)).
Qed.

Lemma keeps_advance w h table q row again : keeps (Cmdgen.advance dsp_sendPdu lcd registered
  timerResolution cbFun other_address self w h table q row again).
Proof.
  unfold Cmdgen.advance. apply generator_bind; [auto with keeps|]. intros [ind vbs].
  apply generator_bind; [auto with keeps|]. intros i. apply generator_bind; [apply Hcb|]. intros more.
  destruct more; cbn [negb]; [|auto with keeps]. destruct vbs; [auto with keeps|].
  apply generator_bind; [auto with keeps|]. intros n. apply generator_bind; [auto with keeps|]. intros r.
  apply keeps_try; [apply generator_bind; [apply keeps_sendPdu|auto with keeps]|].
  intros e k. destruct e; try done. intros [= <-]. apply generator_bind; [auto with keeps|]. intros x.
  apply generator_bind; [apply Hcb|auto with keeps].
Qed.

Lemma keeps_processResponseVarBinds f h e q : keeps (processResponseVarBinds f h e q).
Proof.
  destruct f as [app|w|n m w]; cbn.
  - destruct q; [apply generator_bind; [auto with keeps|]; intros|];
      (apply generator_bind; [apply Hcb|auto with keeps]).
  - destruct e; [apply generator_bind; [apply Hcb|auto with keeps]|].
    destruct q; [apply keeps_advance|auto with keeps].
  - destruct e; [apply generator_bind; [apply Hcb|auto with keeps]|].
    destruct q; [apply keeps_advance|auto with keeps].
Qed.

(** A request that was answered, or that failed, is no longer pending and its job
    is finished. *)
Lemma popped_request s h p : accounted s → dget (pendingReqs s) h = Some p →
  ∃ j, on_jobs (Jobs.jobFinished self 1) (put_pending (ddel (pendingReqs s) h) s) =
    (Ok tt, put_jobs j (put_pending (ddel (pendingReqs s) h) s)) ∧
    accounted (put_jobs j (put_pending (ddel (pendingReqs s) h) s)).
Proof.
  intros [H1 H2 H3 H4] Hh.
  assert (Hlen : length (ddel (pendingReqs s) h) = (length (pendingReqs s) - 1)%nat).
  { rewrite length_ddel. unfold din. by rewrite Hh. }
  assert (Hpos : (0 < length (pendingReqs s))%nat).
  { apply dget_elem_of in Hh. destruct (pendingReqs s); [by apply elem_of_nil in Hh|cbn; lia]. }
  destruct (JobsSpec.jobFinished_ok (jobs s) self 1 H2 ltac:(lia) ltac:(lia)) as (j & Hj & Hjok & Hjo).
  exists j. split.
  - unfold on_jobs, zoom. cbn. by rewrite Hj.
  - split; cbn; [by apply ddel_ok|done| |].
    + rewrite Hjo, decide_True by done. rewrite H3, Hlen. lia.
    + intros h' Hh'. apply H4. by eapply dkeys_ddel_subseteq.
Qed.

Lemma keeps_processResponsePdu c h o : keeps (processResponsePdu c h o).
Proof.
  destruct c as [k f]. unfold Cmdgen.processResponsePdu. intros s Hs. unfold mbind, M_bind, gets. cbn beta iota.
  destruct (dget (pendingReqs s) h) as [p|] eqn:Hp; [|done]. unfold modify. cbn beta iota zeta.
  destruct (popped_request s h p Hs Hp) as (j & -> & Hs1).
  set (s1 := put_jobs j _) in *. clearbody s1. destruct o as [e|st].
  - revert s1 Hs1. change (keeps (answered dsp_sendPdu lcd registered timerResolution cbFun
      other_address self p k f e)).
    unfold answered. destruct (negb _); [apply keeps_processResponseVarBinds|].
    apply generator_bind.
    { destruct (_ =? 0); [|auto with keeps]. apply generator_bind; auto with keeps. }
    intros [r|t]; [|apply keeps_processResponseVarBinds].
    destruct (_ =? _); apply keeps_processResponseVarBinds.
  - revert s1 Hs1. change (keeps (failed dsp_sendPdu lcd registered timerResolution cbFun
      other_address self discoveryRetries p k f st)).
    unfold failed. apply generator_bind; [auto with keeps|]. intros e.
    destruct (exhausted _ _); [apply keeps_processResponseVarBinds|].
    apply generator_bind; [auto with keeps|]. intros [].
    apply keeps_try; [apply keeps_send_request|]. intros x y. destruct x; try done. intros [= <-].
    apply generator_bind; [auto with keeps|]. intros e'. apply keeps_processResponseVarBinds.
Qed.

(** *** Runs *)
Inductive op : Type :=
  | Send (targetName : octets) (e : option octets) (n : octets) (q : pdu) (f : follow App)
  | Respond (c : Z * follow App) (h : Z) (o : outcome).
Definition step (o : op) : G unit :=
  match o with
  | Send t e n q f => sendPdu t e n q f;; mret tt
  | Respond c h o => processResponsePdu c h o
  end.

Lemma keeps_step o : keeps (step o).
Proof.
  destruct o; cbn; [|apply keeps_processResponsePdu].
  apply generator_bind; [apply keeps_sendPdu|auto with keeps].
Qed.

(** Over any run of requests, responses, failures and exceptions, and whatever
    the callbacks send in turn, the transport dispatcher counts one job of the
    generator for each of its pending requests: the loop that waits for them ends
    neither before nor after the last. *)
Theorem jobs_are_the_pending_requests (ops : list op) s :
  pendingReqs s = [] → jobs s = ∅ →
  let s' := foldl (λ s o, (step o s).2) s ops in
  JobsSpec.outstanding (jobs s') self = Z.of_nat (length (pendingReqs s')) ∧
  (pendingReqs s' ≠ [] → Jobs.jobsArePending (jobs s') = true).
Proof.
  intros Hp Hj s'. assert (Hacc : accounted s').
  { assert (Hs : accounted s).
    { split; rewrite ?Hp, ?Hj.
      - apply NoDup_nil_2.
      - apply map_Forall_empty.
      - done.
      - intros h Hh. by apply elem_of_nil in Hh. }
    subst s'. clear Hp Hj. revert s Hs. induction ops as [|o ops IH]; intros s Hs; [done|].
    cbn. apply IH. by apply keeps_step. }
  split; [apply Hacc|]. intros Hne. apply JobsSpec.jobsArePending_iff; [apply Hacc|]. exists self.
  rewrite (ac_self _ Hacc). destruct (pendingReqs s'); [done|]. cbn. lia.
Qed.
End accounting.

(** *** Responses *)

(** The class that sent a request gets a response only if it comes with the
    request's model, security, context and version and carries its request ID; any
    other response is reported as a bad one, and one that cannot be translated
    raises. *)
Theorem response_is_matched used k f s h p e : accounted used s → dget (pendingReqs s) h = Some p →
  ∃ s1, pendingReqs s1 = ddel (pendingReqs s) h ∧ rest s1 = rest s ∧
  (processResponsePdu (k, f) h (Answered e) s = processResponseVarBinds f k (Some BadResponse) None s1 ∨
   (∃ x, (v1ToV2 (Mp.e_pdu e) (Some (p_PDU p)) [] (requestIDs s)).1 = Err x ∧
     processResponsePdu (k, f) h (Answered e) s = (Err x, s1)) ∨
   ∃ r, matches p e = true ∧ requestID r = requestID (p_PDU p) ∧
     (Mp.e_messageProcessingModel e ≠ 0 → Mp.e_pdu e = V1Pdu r) ∧
     processResponsePdu (k, f) h (Answered e) s = processResponseVarBinds f k None (Some r) s1).
Proof.
  intros Hs Hp. destruct (popped_request used s h p Hs Hp) as (j & Hj & _).
  assert (Hr : processResponsePdu (k, f) h (Answered e) s =
    answered dsp_sendPdu lcd registered timerResolution cbFun other_address self p k f e
      (put_jobs j (put_pending (ddel (pendingReqs s) h) s))).
  { unfold Cmdgen.processResponsePdu, mbind, M_bind, gets. cbn beta iota. rewrite Hp. unfold modify. cbn beta iota zeta.
    by rewrite Hj. }
  rewrite Hr. clear Hr Hj. set (s1 := put_jobs j _).
  unfold answered. destruct (matches p e) eqn:Hm; cbn [negb]; [|exists s1; auto].
  destruct (Z.eqb_spec (Mp.e_messageProcessingModel e) 0) as [Hz|Hz].
  - unfold mbind, M_bind, on_ids, zoom. change (requestIDs s1) with (requestIDs s).
    destruct (v1ToV2 _ _ _ (requestIDs s)) as [[r|x] g]; cbn -[Cmdgen.processResponseVarBinds].
    + exists (put_ids g s1). split; [done|]. split; [done|].
      destruct (Z.eqb_spec (requestID r) (requestID (p_PDU p))); [|auto].
      right. right. exists r. done.
    + exists (put_ids g s1). split; [done|]. split; [done|]. right. left. by exists x.
  - exists s1. split; [done|]. split; [done|]. unfold mbind, M_bind, mret, M_ret.
    destruct (Mp.e_pdu e) as [r|t]; [|auto].
    destruct (Z.eqb_spec (requestID r) (requestID (p_PDU p))); [|auto].
    right. right. exists r. done.
Qed.
End generator.
End CmdgenSpec.
