(* ===== verification/CmdgenRuns.v ===== *)
(** * Runs of the command generator

    Against a dispatcher that takes every request: what a sequence of failures
    leads to, and what a walk over an agent that answers brings back. *)
From S2P Require Export CmdgenSpec.
Import Dispatcher Cmdgen CmdgenSpec.
#[local] Open Scope Z_scope.

Module CmdgenRuns.

(** ** The environment *)

(** What an application was told *)
Record call : Type := mk_call {
  c_handle : Z;
  c_indication : option indication;
  c_status : Z;
  c_index : Z;
  c_bindings : bindings;
}.
(** A request on its way *)
Record sent : Type := mk_sent {
  s_handle : Z;
  s_cbCtx : Z * follow unit;
  s_outgoing : outgoing;
  s_PDU : v1_pdu;
}.
(** The requests on their way, the next handle, what the application was told, and
    the configuration *)
Record env : Type := mk_env {
  queue : list sent;
  next : Z;
  told : list call;
  conf : TargetSpec.moment;
  again : bool;
}.
Definition put_queue (q : list sent) (a : env) : env := mk_env q (next a) (told a) (conf a) (again a).

Definition dsp_sendPdu (o : outgoing) (timeout : Z) (c : Z * follow unit) : M exn (env * v1_pdu) Z := fun x =>
  (Ok (next x.1),
   (mk_env (queue x.1 ++ [mk_sent (next x.1) c o x.2]) (next x.1 + 1) (told x.1) (conf x.1) (again x.1), x.2)).

Abbreviation state := (Cmdgen.state env unit).
Abbreviation G := (M exn state).

Definition tell (c : call) (a : env) : env :=
  mk_env (queue a) (next a) (told a ++ [c]) (conf a) (again a).
(** An application that notes what it is told, and continues or not *)
Definition cbFun (app : unit) (h : Z) (e : option indication) (st i : Z) (b : bindings) : G bool :=
  modify (λ s, put_rest (tell (mk_call h e st i b) (rest s)) s);;
  gets (λ s, again (rest s)).

Section runs.
Implicit Types (s : state).
Context (timerResolution : Z) (other_address : value → result exn octets) (discoveryRetries : Z).

Abbreviation sendPdu := (Cmdgen.sendPdu dsp_sendPdu (λ a : env, (conf a).1) (λ a, (conf a).2)
  (λ _, timerResolution) other_address tt).
Abbreviation processResponseVarBinds := (Cmdgen.processResponseVarBinds dsp_sendPdu
  (λ a : env, (conf a).1) (λ a, (conf a).2) (λ _, timerResolution) cbFun other_address tt).
Abbreviation processResponsePdu := (Cmdgen.processResponsePdu dsp_sendPdu (λ a : env, (conf a).1)
  (λ a, (conf a).2) (λ _, timerResolution) cbFun other_address tt discoveryRetries).
Abbreviation next_sendVarBinds := (Cmdgen.next_sendVarBinds dsp_sendPdu (λ a : env, (conf a).1)
  (λ a, (conf a).2) (λ _, timerResolution) other_address tt).

(** The request at the head of the queue ends in this way. *)
Definition settle (how : sent → outcome) : G unit :=
  q ← gets (λ s, queue (rest s));
  match q with
  | [] => mret tt
  | x :: q =>
      modify (λ s, put_rest (put_queue q (rest s)) s);;
      processResponsePdu (s_cbCtx x) (s_handle x) (how x)
  end.

(** ** Failures *)
Fixpoint fail_with (es : list errind) : G unit :=
  match es with
  | [] => mret tt
  | e :: es => settle (λ _, Failed (status_of e));; fail_with es
  end.

(** What is counted: ordinary failures in a row, failures to discover in a row *)
Definition discovery (e : errind) : bool := bool_decide (e = notInTimeWindow ∨ e = unknownEngineID).
Definition count (c : Z * Z) (e : errind) : Z * Z := if discovery e then (0, c.2 + 1) else (c.1 + 1, 0).
(** The failure that is one too many, if there is one *)
Fixpoint last_straw (retryCount : Z) (c : Z * Z) (es : list errind) : option errind :=
  match es with
  | [] => None
  | e :: es =>
      let c := count c e in
      if (retryCount <? c.1) || (discoveryRetries <? c.2) then Some e else last_straw retryCount c es
  end.

(** A generator with one request, that of [k], and nothing else *)
Record awaiting (k : Z) (f : follow unit) (p : pending) (s : state) : Prop := {
  aw_request : ∃ h o q, queue (rest s) = [mk_sent h (k, f) o q] ∧ pendingReqs s = [(h, p)];
  aw_jobs : jobs s = {[tt := 1]};
}.
(** A generator with nothing to do *)
Definition idle (s : state) : Prop := queue (rest s) = [] ∧ pendingReqs s = [] ∧ jobs s = ∅.

Definition counts (p : pending) : Z * Z := (p_retries p, p_discoveryRetries p).

Lemma finish_last s : jobs s = {[tt := 1]} →
  on_jobs (Jobs.jobFinished tt 1) s = (Ok tt, put_jobs ∅ s).
Proof. intros Hj. unfold on_jobs, zoom. rewrite Hj. reflexivity. Qed.
Lemma start_first s : jobs s = ∅ →
  on_jobs (Jobs.jobStarted tt 1) s = (Ok tt, put_jobs {[tt := 1]} s).
Proof. intros Hj. unfold on_jobs, zoom. rewrite Hj. reflexivity. Qed.

(** The request at the head of the queue is no longer pending. *)
Lemma settle_awaiting how k f p s : awaiting k f p s →
  ∃ x s0, queue (rest s) = [x] ∧ idle s0 ∧ rest s0 = put_queue [] (rest s) ∧
    handles s0 = handles s ∧ requestIDs s0 = requestIDs s ∧ targets s0 = targets s ∧
    settle how s = match how x with
                   | Failed st => failed dsp_sendPdu (λ a : env, (conf a).1) (λ a, (conf a).2)
                       (λ _, timerResolution) cbFun other_address tt discoveryRetries p k f st s0
                   | Answered e => answered dsp_sendPdu (λ a : env, (conf a).1) (λ a, (conf a).2)
                       (λ _, timerResolution) cbFun other_address tt p k f e s0
                   end.
Proof.
  intros [(h & o & q & Hq & Hp) Hj].
  exists (mk_sent h (k, f) o q), (put_jobs ∅ (put_pending [] (put_rest (put_queue [] (rest s)) s))).
  split_and!; try done. unfold settle, Cmdgen.processResponsePdu, mbind, M_bind, gets, modify.
  rewrite Hq. cbn beta iota zeta. cbn [s_cbCtx s_handle pendingReqs put_rest]. rewrite Hp.
  cbn [dget]. rewrite decide_True by done. cbn [ddel]. rewrite decide_True by done.
  rewrite finish_last by done. by destruct (how _).
Qed.

Lemma settle_fails e k f p s : awaiting k f p s → p_messageProcessingModel p ≠ 0 →
  ∃ s0, idle s0 ∧ told (rest s0) = told (rest s) ∧ conf (rest s0) = conf (rest s) ∧
    let p' := counted e p in
    if exhausted discoveryRetries p'
    then settle (λ _, Failed (status_of e)) s = processResponseVarBinds f k (Some (Indicated e)) None s0
    else ∃ s', settle (λ _, Failed (status_of e)) s = (Ok tt, s') ∧ awaiting k f p' s' ∧
      told (rest s') = told (rest s).
Proof.
  intros Hs Hmp. destruct (settle_awaiting (λ _, Failed (status_of e)) k f p s Hs)
    as (x & s0 & _ & Hi & Hr & _ & _ & _ & ->).
  exists s0. split; [done|]. split; [by rewrite Hr|]. split; [by rewrite Hr|]. cbn zeta.
  unfold failed, error_indication, liftR, mbind, M_bind. cbn beta iota zeta.
  change (from_option_exc KeyError (st_errorIndication (status_of e))) with (Ok (E:=exn) e). cbn iota.
  destruct (exhausted discoveryRetries (counted e p)); [done|].
  replace (p_messageProcessingModel (counted e p) =? 0) with false by (symmetry; by apply Z.eqb_neq).
  unfold try_except, Cmdgen.send_request, liftR, mbind, M_bind.
  replace (p_messageProcessingModel (counted e p) =? 0) with false by (symmetry; by apply Z.eqb_neq).
  cbn beta iota zeta. destruct Hi as (Hq & Hp & Hj). unfold zoom at 1. cbn -[on_jobs].
  rewrite start_first by done. cbn. eexists. split; [reflexivity|]. split; [|by rewrite Hr].
  split; [|done]. cbn. rewrite Hq, Hp. eexists _, _, _. split; [done|]. by destruct p.
Qed.

Lemma counted_counts e p : counts (counted e p) = count (counts p) e ∧
  p_retryCount (counted e p) = p_retryCount p ∧
  p_messageProcessingModel (counted e p) = p_messageProcessingModel p.
Proof. unfold count, discovery, counts, counted. cbn. by destruct (bool_decide _). Qed.

Lemma told_failure f k e s0 : idle s0 → ∃ s', processResponseVarBinds f k (Some (Indicated e)) None s0 = (Ok tt, s') ∧
  idle s' ∧ told (rest s') = told (rest s0) ++ [mk_call k (Some (Indicated e)) 0 0 (Bindings [])].
Proof. intros Hi. destruct f as [[]|w|n m w]; eexists; by repeat split; try apply Hi. Qed.

Lemma fail_idle es s : idle s → fail_with es s = (Ok tt, s).
Proof.
  intros Hi. induction es as [|e es IH]; [done|]. cbn [fail_with]. unfold mbind at 1, M_bind at 1.
  unfold settle. unfold mbind, M_bind, gets. cbn beta iota. by rewrite (proj1 Hi).
Qed.

Lemma fail_run es : ∀ k f p s, awaiting k f p s → p_messageProcessingModel p ≠ 0 →
  ∃ s', fail_with es s = (Ok tt, s') ∧
  match last_straw (p_retryCount p) (counts p) es with
  | None => told (rest s') = told (rest s) ∧ ∃ p', awaiting k f p' s'
  | Some e => told (rest s') = told (rest s) ++ [mk_call k (Some (Indicated e)) 0 0 (Bindings [])] ∧ idle s'
  end.
Proof.
  induction es as [|e es IH]; intros k f p s Hs Hmp.
  { exists s. split; [done|]. split; [done|]. by exists p. }
  destruct (settle_fails e k f p s Hs Hmp) as (s0 & Hi & Ht & _ & Hstep).
  destruct (counted_counts e p) as (Hc & Hr & Hm). cbn zeta in Hstep.
  cbn [fail_with last_straw]. unfold mbind at 1, M_bind at 1. rewrite <- Hc, <- Hr.
  unfold exhausted in Hstep. unfold counts at 1 2. cbn [fst snd]. destruct (_ || _).
  - destruct (told_failure f k e s0 Hi) as (s' & Hs' & Hi' & Ht'). rewrite Hstep, Hs'.
    exists s'. rewrite fail_idle by done. split; [done|]. by rewrite Ht', Ht.
  - destruct Hstep as (s1 & -> & Haw & Ht1).
    destruct (IH k f _ s1 Haw ltac:(by rewrite Hm)) as (s' & Hs' & Hres).
    exists s'. split; [done|]. rewrite <- Ht1. done.
Qed.

(** A request that keeps failing is resent until a failure is one too many of
    its kind in a row, is then reported once with that failure, and nothing is left
    of it; until then the application is told nothing. *)
Theorem failures_are_counted es k f p s : awaiting k f p s → p_messageProcessingModel p ≠ 0 →
  ∃ s', fail_with es s = (Ok tt, s') ∧
  match last_straw (p_retryCount p) (counts p) es with
  | None => told (rest s') = told (rest s) ∧ ∃ p', awaiting k f p' s'
  | Some e => told (rest s') = told (rest s) ++ [mk_call k (Some (Indicated e)) 0 0 (Bindings [])] ∧ idle s'
  end.
Proof. apply fail_run. Qed.

(** A request with [n] retries ends with its failure number [n + 1] when no
    failure is one to discover the peer. *)
Theorem ordinary_failures_end (n : nat) es :
  0 <= discoveryRetries → Forall (λ e, discovery e = false) es →
  last_straw (Z.of_nat n) (0, 0) es = es !! n.
Proof.
  intros Hd Hes.
  assert (Hgen : ∀ r n, 0 <= r → last_straw (r + Z.of_nat n) (r, 0) es = es !! n).
  { clear n. induction Hes as [|e es He Hes IH]; intros r n Hr; [done|]. cbn [last_straw]. unfold count.
    rewrite He. cbn [fst snd]. rewrite (proj2 (Z.ltb_ge discoveryRetries 0)) by lia.
    rewrite orb_false_r. destruct n as [|n].
    - by rewrite (proj2 (Z.ltb_lt _ _)) by lia.
    - rewrite (proj2 (Z.ltb_ge _ _)) by lia.
      replace (r + Z.of_nat (S n)) with ((r + 1) + Z.of_nat n) by lia. apply IH. lia. }
  apply (Hgen 0 n). lia.
Qed.

Fixpoint alternating (n : nat) : list errind :=
  match n with O => [] | S n => requestTimedOut :: notInTimeWindow :: alternating n end.

(** Failures of the two kinds in turn reset each other's count: with one retry
    of each kind a request is resent for ever, and its callback is never called. *)
Theorem alternating_failures_never_end (n : nat) retryCount :
  1 <= retryCount → 1 <= discoveryRetries → last_straw retryCount (0, 0) (alternating n) = None.
Proof.
  intros Hr Hd.
  assert (Hgen : ∀ d, 0 <= d <= 1 → last_straw retryCount (0, d) (alternating n) = None).
  { induction n as [|n IH]; intros d Hb; [done|].
    cbn [alternating last_straw]. unfold count.
    change (discovery requestTimedOut) with false. change (discovery notInTimeWindow) with true.
    cbn [fst snd].
    assert (Hf : ∀ x y, y <= x → (x <? y) = false) by (intros; apply Z.ltb_ge; lia).
    rewrite !Hf by lia. cbn [orb]. apply IH. lia. }
  apply Hgen. lia.
Qed.

(** ** A walk over an agent *)
Section agent.
(** What the agent has, in order *)
Context (mib : dict oid value).

Definition above (o : oid) : list var_bind := filter (λ kv : var_bind, tuple_ltb o kv.1 = true) mib.
(** What it answers to a GETNEXT for a name *)
Definition get_next (o : oid) : var_bind :=
  match above o with kv :: _ => kv | [] => (o, VEndOfMibView) end.
Definition answer_to (o : outgoing) (h : Z) (q : pdu) : Mp.elements v1_pdu :=
  Mp.mk_elements (o_messageProcessingModel o) (o_securityModel o) (o_securityName o) (o_securityLevel o)
    (default [] (o_contextEngineId o)) (o_contextName o) (o_pduVersion o)
    (V1Pdu (mk_pdu ResponsePDU (requestID q) 0 0 ((λ vb : var_bind, get_next vb.1) <$> varBinds q)))
    ResponsePDU (Some h) 0 None.
Definition reply (x : sent) : outcome :=
  match s_PDU x with
  | V1Pdu q => Answered (answer_to (s_outgoing x) (s_handle x) q)
  | V1Trap _ => Failed (status_of otherError)
  end.
Fixpoint rounds (n : nat) : G unit :=
  match n with O => mret tt | S n => settle reply;; rounds n end.

(** *** Sending *)
Record ready (c : TargetSpec.moment) s : Prop := {
  rd_handles : NextId.wf (handles s);
  rd_ids : NextId.wf (requestIDs s);
  rd_small : NextId.maximum (requestIDs s) + NextId.threshold (requestIDs s) <= 2147483648;
  rd_targets : TargetSpec.coherent c (targets s);
  rd_conf : conf (rest s) = c;
  rd_again : again (rest s) = true;
}.
(** A request of the generator on its way, as [p] says *)
Record sent_as (k : Z) (f : follow unit) (p : pending) s : Prop := {
  sa_request : ∃ h, queue (rest s) = [mk_sent h (k, f)
      (mk_outgoing (p_transport p) (p_messageProcessingModel p) (p_securityModel p) (p_securityName p)
         (p_securityLevel p) (p_contextEngineId p) (p_contextName p) 1 true) (V1Pdu (p_PDU p))] ∧
    pendingReqs s = [(h, p)];
  sa_jobs : jobs s = {[tt := 1]};
  sa_model : p_messageProcessingModel p ≠ 0;
  sa_version : p_pduVersion p = 1;
}.
Lemma sent_awaiting k f p s : sent_as k f p s → awaiting k f p s.
Proof. intros [(h & Hq & Hp) Hj _ _]. split; [|done]. by eexists _, _, _. Qed.

Context (c : TargetSpec.moment) (target : octets) (e e' : option octets) (n : octets)
        (t : Target.target_addr) (tp : Target.target_params).
Context (Htarget : Target.target_info c.1 c.2 target = Ok (t, tp))
        (Hmp : Target.tp_messageProcessingModel tp ≠ 0)
        (He : context_engine e = Ok e') (Hn : context_name n = Ok n).

Lemma next_id g : NextId.wf g → ∃ v g', NextId.call g = (Ok v, g') ∧ NextId.wf g' ∧
  0 <= v < NextId.maximum g + NextId.threshold g ∧
  NextId.maximum g' = NextId.maximum g ∧ NextId.threshold g' = NextId.threshold g.
Proof.
  intros Hwf. destruct (NextId.wf_supply _ Hwf) as (v & l & Hb & _).
  destruct (NextId.call_spec g v l Hwf Hb) as (g' & Hc & Hwf' & Hm & Ht & Hv & _).
  exists v, g'. done.
Qed.

Lemma sendPdu_ok q f s : ready c s → idle s →
  ∃ k p s', sendPdu target e n q f s = (Ok k, s') ∧ ready c s' ∧ sent_as k f p s' ∧ p_PDU p = q ∧
    told (rest s') = told (rest s).
Proof.
  intros [R1 R2 R3 R4 R5 R6] (Hq & Hp & Hj). unfold Cmdgen.sendPdu, mbind, M_bind, gets. cbn beta iota zeta.
  destruct (TargetSpec.honest_info c target (targets s) R4) as (ts & Hts & Hco).
  unfold on_targets, zoom. rewrite R5, Hts, Htarget. cbn beta iota zeta. unfold liftR. rewrite He, Hn. cbn beta iota zeta.
  rewrite (proj2 (Z.eqb_neq _ _) Hmp).
  destruct (next_id (handles s) R1) as (k & g & Hk & Hg & _). cbn [handles put_targets]. rewrite Hk. cbn beta iota.
  unfold Cmdgen.send_request, mbind, M_bind, liftR, zoom. cbn [p_messageProcessingModel].
  rewrite (proj2 (Z.eqb_neq _ _) Hmp). cbn -[on_jobs]. rewrite start_first by done. cbn.
  eexists k, (mk_pending (Target.ta_domain t, Target.ta_address t) (Target.tp_messageProcessingModel tp)
    (Target.tp_securityModel tp) (Target.tp_securityName tp) (Target.tp_securityLevel tp) e' n 1 q
    (timeoutInTicks (Target.ta_timeout t) timerResolution) (Target.ta_retryCount t) 0 0), _.
  split; [reflexivity|]. split; [|split; [|split]]; cbn; [by split| |reflexivity|done].
  split; cbn; [|done|done|done]. rewrite Hq, Hp. by eexists.
Qed.

(** *** A round *)
Lemma matches_answer p h : p_pduVersion p = 1 →
  matches p (answer_to (mk_outgoing (p_transport p) (p_messageProcessingModel p) (p_securityModel p)
    (p_securityName p) (p_securityLevel p) (p_contextEngineId p) (p_contextName p) 1 true) h (p_PDU p)) = true.
Proof.
  intros Hv. unfold matches. cbn -[bool_decide]. rewrite !Z.eqb_refl, Hv.
  destruct (p_contextEngineId p) as [[|x l]|], (p_contextName p) as [|y m]; cbn -[bool_decide];
    rewrite !bool_decide_true by done; reflexivity.
Qed.

Lemma get_next_row o v : Forall (λ kv : var_bind, finished kv.2 = false) mib →
  getNextVarBinds [get_next o] (Some [(o, v)]) =
    Ok (None, match above o with kv :: _ => [(kv.1, VNull)] | [] => [] end).
Proof.
  intros Hfin. unfold get_next. destruct (above o) as [|[o' v'] l] eqn:E; [done|].
  assert (Hin : (o', v') ∈ above o) by (rewrite E; left). unfold above in Hin.
  apply list_elem_of_filter in Hin as [Hlt Hin]. rewrite Forall_forall in Hfin. specialize (Hfin _ Hin).
  unfold getNextVarBinds. cbn in *. rewrite Hfin. rewrite tuple_ltb_leb, negb_true_iff in Hlt. rewrite Hlt. done.
Qed.


Definition told_row (k : Z) (l : list var_bind) s : state :=
  put_rest (tell (mk_call k None 0 0 (Table [l])) (rest s)) s.
Lemma cbFun_goes_on app h ind st i b s : again (rest s) = true →
  cbFun app h ind st i b s = (Ok true, put_rest (tell (mk_call h ind st i b) (rest s)) s).
Proof. intros Ha. unfold cbFun, mbind, M_bind, modify, gets. cbn. by rewrite Ha. Qed.

Lemma told_row_ready k l s : ready c s → ready c (told_row k l s).
Proof. by intros []. Qed.
Lemma told_row_idle k l s : idle s → idle (told_row k l s).
Proof. by intros (?&?&?). Qed.

(** The walk goes on with these bindings. *)
Lemma advance_ok w k l vbs r row s :
  ready c s → idle s → w_targetName w = target → w_contextEngineId w = e → w_contextName w = n →
  errorStatus r = 0 → errorIndex r = 0 → row l = Ok (None, vbs) →
  ∃ s', advance dsp_sendPdu (λ a : env, (conf a).1) (λ a, (conf a).2) (λ _, timerResolution) cbFun
      other_address tt w k [l] r row NextWalk s = (Ok tt, s') ∧ ready c s' ∧
    told (rest s') = told (rest s) ++ [mk_call k None 0 0 (Table [l])] ∧
    match vbs with
    | [] => idle s'
    | _ => ∃ k' w' p', sent_as k' (NextWalk w') p' s' ∧ w_targetName w' = target ∧
        w_contextEngineId w' = e ∧ w_contextName w' = n ∧ w_reqPDU w' = p_PDU p' ∧
        varBinds (p_PDU p') = vbs
    end.
Proof.
  intros Hr Hi Hwt Hwe Hwn Hst Hix Hrow. unfold advance, getErrorIndex. rewrite Hst, Hix. cbn [negb Z.eqb last].
  rewrite Hrow. replace (0 >? Z.of_nat (length (varBinds r))) with false by (symmetry; rewrite Z.gtb_ltb; apply Z.ltb_ge; lia).
  unfold liftR, mbind, M_bind. cbn beta iota zeta.
  rewrite cbFun_goes_on by apply Hr. cbn beta iota. change (Indicated <$> None) with (@None indication).
  fold (told_row k l s).
  pose proof (told_row_ready k l s Hr) as Hr1. pose proof (told_row_idle k l s Hi) as Hi1.
  assert (Ht1 : told (rest (told_row k l s)) = told (rest s) ++ [mk_call k None 0 0 (Table [l])]) by done.
  set (s1 := told_row k l s) in *. clearbody s1. cbn [negb].
  destruct vbs as [|vb vbs]; [by exists s1|]. unfold on_ids, zoom.
  destruct (next_id (requestIDs s1) (rd_ids _ _ Hr1)) as (i & g & Hi' & Hg & Hb & Hmax & Hth).
  rewrite Hi'. cbn beta iota. pose proof (rd_small _ _ Hr1) as Hsm. unfold setRequestID, checked, Integer32_ok.
  rewrite (proj2 (in_range_iff _ _ _)) by lia. cbn beta iota zeta.
  assert (Hr2 : ready c (put_ids g s1)) by (destruct Hr1; split; cbn; rewrite ?Hmax, ?Hth; done).
  set (w' := mk_walk _ _ _ _ _).
  destruct (sendPdu_ok (w_reqPDU w') (NextWalk w') (put_ids g s1) Hr2 Hi1) as (k' & p' & s' & Hsend & Hr' & Hs' & Hp' & Ht').
  unfold try_except, M_bind, mret, M_ret. cbn [w_targetName w_contextEngineId w_contextName w'].
  rewrite Hwt, Hwe, Hwn. unfold M_bind, mbind. rewrite Hsend. cbn beta iota.
  exists s'. split; [done|]. split; [done|]. split; [by rewrite Ht'|].
  exists k', w', p'. split; [done|]. rewrite Hp'. done.
Qed.

Lemma round_ok w k p s o v :
  Forall (λ kv : var_bind, finished kv.2 = false) mib → ready c s → sent_as k (NextWalk w) p s →
  w_targetName w = target → w_contextEngineId w = e → w_contextName w = n → w_reqPDU w = p_PDU p →
  varBinds (p_PDU p) = [(o, v)] →
  ∃ s', settle reply s = (Ok tt, s') ∧ ready c s' ∧
    told (rest s') = told (rest s) ++ [mk_call k None 0 0 (Table [[get_next o]])] ∧
    match above o with
    | [] => idle s'
    | kv :: _ => ∃ k' w' p', sent_as k' (NextWalk w') p' s' ∧ w_targetName w' = target ∧
        w_contextEngineId w' = e ∧ w_contextName w' = n ∧ w_reqPDU w' = p_PDU p' ∧
        varBinds (p_PDU p') = [(kv.1, VNull)]
    end.
Proof.
  intros Hfin Hready Hs Hwt Hwe Hwn Hwq Hv.
  destruct (settle_awaiting reply k _ p s (sent_awaiting _ _ _ _ Hs)) as (x & s0 & Hx & Hi & Hr & Hh & Hid & Hta & Hset).
  destruct Hs as [(h & Hq & _) _ Hm Hver]. rewrite Hq in Hx. injection Hx as <-.
  rewrite Hset. cbn [reply s_PDU s_outgoing s_handle]. unfold answered. rewrite matches_answer by done.
  cbn [negb]. cbn [Mp.e_messageProcessingModel answer_to o_messageProcessingModel].
  rewrite (proj2 (Z.eqb_neq _ _) Hm). unfold mbind at 1, M_bind at 1, mret at 1, M_ret at 1.
  cbn [Mp.e_pdu answer_to requestID]. rewrite Z.eqb_refl. rewrite Hv. cbn [fmap list_fmap fst].
  unfold Cmdgen.processResponseVarBinds, v2c_getVarBindTable. cbn [varBinds].
  assert (Hready0 : ready c s0).
  { destruct Hready. split; rewrite ?Hh, ?Hid, ?Hta, ?Hr; done. }
  destruct (advance_ok w k [get_next o] (match above o with kv :: _ => [(kv.1, VNull)] | [] => [] end)
    (mk_pdu ResponsePDU (requestID (p_PDU p)) 0 0 [get_next o])
    (λ r, getNextVarBinds r (Some (varBinds (w_reqPDU w)))) s0 Hready0 Hi Hwt Hwe Hwn eq_refl eq_refl)
    as (s' & Hs' & Hready' & Htold & Hnext).
  { rewrite Hwq, Hv. by apply get_next_row. }
  exists s'. split; [done|]. split; [done|]. split; [by rewrite Htold, Hr|].
  by destruct (above o).
Qed.

(** *** The walk *)
Definition increasing : Prop := StronglySorted (λ a b : var_bind, tuple_ltb a.1 b.1 = true) mib.

Lemma above_next o kv l : increasing → above o = kv :: l → above kv.1 = l.
Proof.
  unfold increasing, above. induction 1 as [|a m Hm IH Ha]; [done|].
  rewrite !filter_cons. destruct (decide (tuple_ltb o a.1 = true)) as [Hlt|Hlt].
  - intros [= <- <-]. rewrite decide_False by (by rewrite tuple_ltb_irrefl).
    assert (Hall : ∀ b, tuple_leb b a.1 = true → filter (λ kv : var_bind, tuple_ltb b kv.1 = true) m = m).
    { intros b Hb. clear IH Hm. induction Ha as [|y m Hy Hall IH]; [done|].
      rewrite filter_cons_True, IH; [done|]. by eapply tuple_leb_ltb_trans. }
    rewrite !Hall; [done| |].
    + by apply tuple_ltb_weaken.
    + rewrite tuple_ltb_ge; [done|apply tuple_ltb_irrefl].
  - intros E. rewrite decide_False; [by apply IH|]. intros Hk.
    assert (Hin : kv ∈ filter (λ kv : var_bind, tuple_ltb o kv.1 = true) m) by (rewrite E; left).
    apply list_elem_of_filter in Hin as [_ Hin]. rewrite Forall_forall in Ha. specialize (Ha _ Hin).
    rewrite tuple_ltb_leb, (tuple_ltb_weaken _ _ Ha) in Hk. done.
Qed.

(** What the application is told of: a row each, and that the view ends after the
    last name *)
Definition walked (o : oid) : list (bindings) :=
  (λ vb : var_bind, Table [[vb]]) <$> above o ++ [(default o (fst <$> last (above o)), VEndOfMibView)].
Definition news (k : call) : option indication * Z * Z * bindings :=
  (c_indication k, c_status k, c_index k, c_bindings k).

Lemma rounds_walk l : ∀ w k p s o v, increasing →
  Forall (λ kv : var_bind, finished kv.2 = false) mib → above o = l → ready c s →
  sent_as k (NextWalk w) p s →
  w_targetName w = target → w_contextEngineId w = e → w_contextName w = n → w_reqPDU w = p_PDU p →
  varBinds (p_PDU p) = [(o, v)] →
  ∃ s' news', rounds (S (length l)) s = (Ok tt, s') ∧ idle s' ∧ told (rest s') = told (rest s) ++ news' ∧
    news <$> news' = (λ b, (None, 0, 0, b)) <$> walked o.
Proof.
  unfold walked. induction l as [|kv l IH]; intros w k p s o v Hsort Hfin Ha Hr Hs Hw1 Hw2 Hw3 Hw4 Hv;
    destruct (round_ok w k p s o v Hfin Hr Hs Hw1 Hw2 Hw3 Hw4 Hv) as (s1 & Hs1 & Hr1 & Ht1 & Hnext);
    unfold get_next in Ht1; rewrite Ha in *; cbn [length rounds]; unfold mbind at 1, M_bind at 1; rewrite Hs1.
  { exists s1. eexists. split; [done|]. split; [done|]. split; [done|]. done. }
  destruct Hnext as (k' & w' & p' & Hs' & Hw1' & Hw2' & Hw3' & Hw4' & Hv').
  pose proof (above_next _ _ _ Hsort Ha) as Ha'.
  destruct (IH w' k' p' s1 kv.1 VNull Hsort Hfin Ha' Hr1 Hs' Hw1' Hw2' Hw3' Hw4' Hv')
    as (s' & nw & Hrun & Hi & Ht & Hnw). rewrite Ha' in Hnw.
  exists s'. eexists. split; [exact Hrun|]. split; [done|]. split; [by rewrite Ht, Ht1, <-app_assoc|].
  cbn [app fmap list_fmap]. cbn. f_equal. rewrite last_cons, Hnw. by destruct (last l).
Qed.

Definition start (o : oid) : G Z := next_sendVarBinds target e n [(o, VNull)] tt.

(** C14. A GETNEXT walk of an agent that keeps its objects in order goes over all
    of them: the callback is told every object after the first name, one row each
    and in order, then the end of the view, and nothing else; then no request and
    no job is left. *)
Theorem walk_visits_everything o s : increasing →
  Forall (λ kv : var_bind, finished kv.2 = false) mib → ready c s → idle s →
  ∃ s' calls, (start o;; rounds (S (length (above o)))) s = (Ok tt, s') ∧ idle s' ∧
    told (rest s') = told (rest s) ++ calls ∧
    news <$> calls = (λ b, (None, 0, 0, b)) <$> walked o.
Proof.
  intros Hsort Hfin Hr Hi. unfold start, Cmdgen.next_sendVarBinds, request_of, on_ids, zoom, setDefaults.
  destruct (next_id (requestIDs s) (rd_ids _ _ Hr)) as (i & g & Hi' & Hg & Hb & Hmax & Hth).
  unfold mbind, M_bind. rewrite Hi'. cbn [mret M_ret pduType new]. unfold M_ret. cbn beta iota zeta.
  set (q := setVarBinds _ _). set (f := NextWalk _).
  assert (Hr1 : ready c (put_ids g s)) by (destruct Hr; split; cbn; rewrite ?Hmax, ?Hth; done).
  destruct (sendPdu_ok q f (put_ids g s) Hr1 Hi) as (k & p & s1 & Hs1 & Hr2 & Hsent & Hp & Ht1).
  rewrite Hs1. destruct (rounds_walk (above o) _ k p s1 o VNull Hsort Hfin eq_refl Hr2 Hsent)
    as (s' & calls & Hrun & Hi2 & Ht2 & Hnews); try (by rewrite ?Hp).
  exists s', calls. split; [exact Hrun|]. split; [done|]. by rewrite Ht2, Ht1.
Qed.
End agent.
End runs.

(** ** Bulk walks *)

(** A bulk walk with non-repeaters never ends by itself: whatever a row says,
    there is something to ask for next. *)
Theorem bulk_walk_with_non_repeaters_goes_on (q : pdu) row ind next :
  0 < getNonRepeaters q → varBinds q ≠ [] → bulk_row q row = Ok (ind, next) → next ≠ [].
Proof.
  unfold bulk_row. intros Hn Hv. destruct (getNextVarBinds row _) as [[i vbs]|]; [|done].
  munfold. rewrite (proj2 (Z.eqb_neq _ _)) by lia. intros [= <- <-] [Ht _]%app_nil.
  destruct (varBinds q); [done|]. by replace (Z.to_nat _) with (S (Z.to_nat (getNonRepeaters q - 1))) in Ht by lia.
Qed.

(** ** Examples: the target "a", and an agent with three objects *)
Definition demo_conf : TargetSpec.moment := (TargetSpec.demo_targets 1 1500, [Transport.snmpUDPDomain]).
Definition demo_handles : NextId.Integer := NextId.mk_Integer 10 4 2 [4; 5; 6; 7].
Definition demo_env : env := mk_env [] 1 [] demo_conf true.
Definition demo_state : state :=
  Cmdgen.mk_state [] demo_handles demo_handles Target.no_cache ∅ demo_env.
Definition demo_mib : dict oid value :=
  [([1; 3; 1], VInteger 1); ([1; 3; 1; 0], VInteger 2); ([1; 4], VInteger 3)].
Definition no_address (_ : value) : result exn octets := Err AttributeError.
Lemma demo_wf : NextId.wf demo_handles.
Proof. apply (NextId.nextid_init_wf 10 4 4); [lia|lia|reflexivity]. Qed.
Lemma demo_ready : ready demo_conf demo_state.
Proof.
  split; try reflexivity; try apply demo_wf; try (vm_compute; discriminate).
  apply TargetSpec.targets_coherent_init. vm_compute. repeat split; discriminate.
Qed.
Lemma demo_idle : idle demo_state.
Proof. done. Qed.

Definition walk_run : state :=
  ((start 500000 no_address [97] None [] [1; 3];;
    rounds 500000 no_address 4 demo_mib 4) demo_state).2.
(** The application is told three rows and then that the view ends. *)
Lemma walk_visits_everything_witness : idle walk_run ∧
  news <$> told (rest walk_run) =
    [(None, 0, 0, Table [[([1; 3; 1], VInteger 1)]]);
     (None, 0, 0, Table [[([1; 3; 1; 0], VInteger 2)]]);
     (None, 0, 0, Table [[([1; 4], VInteger 3)]]);
     (None, 0, 0, Table [[([1; 4], VEndOfMibView)]])].
Proof.
  destruct (walk_visits_everything 500000 no_address 4 demo_mib demo_conf [97] None None []
    (Target.mk_target_addr Transport.snmpUDPDomain (Transport.Inet [127; 0; 0; 1] 162)
       (Some (Transport.Inet [0; 0; 0; 0] 0)) 1500 3 [112])
    (Target.mk_target_params 1 2 [115] 1) ltac:(reflexivity) ltac:(discriminate) ltac:(reflexivity)
    eq_refl [1; 3] demo_state) as (s' & calls & Hrun & Hi & Ht & Hn).
  - unfold increasing, demo_mib. repeat (constructor; [|by repeat constructor]). constructor.
  - by repeat constructor.
  - exact demo_ready.
  - exact demo_idle.
  - unfold walk_run. change 4%nat with (S (length (above demo_mib [1; 3]))). rewrite Hrun. split; [exact Hi|].
    cbn [snd]. rewrite Ht. exact Hn.
Defined.

(** Two failures of a request with one retry *)
Definition demo_pending : pending :=
  mk_pending (Transport.snmpUDPDomain, Transport.Inet [127; 0; 0; 1] 162) 1 2 [115] 1 None [] 1
    (mk_pdu GetRequestPDU 9 0 0 []) 10 1 0 0.
Definition demo_waiting : state :=
  Cmdgen.mk_state [(1, demo_pending)] demo_handles demo_handles Target.no_cache {[tt := 1]}
    (mk_env [mk_sent 1 (7, Once tt) (mk_outgoing (Transport.snmpUDPDomain, Transport.Inet [127; 0; 0; 1] 162)
        1 2 [115] 1 None [] 1 true) (V1Pdu (p_PDU demo_pending))] 2 [] demo_conf true).
Lemma failures_are_counted_witness : ∃ s',
  fail_with 500000 no_address 4 [requestTimedOut; requestTimedOut] demo_waiting = (Ok tt, s') ∧
  told (rest s') = [mk_call 7 (Some (Indicated requestTimedOut)) 0 0 (Bindings [])] ∧ idle s'.
Proof.
  destruct (failures_are_counted 500000 no_address 4 [requestTimedOut; requestTimedOut] 7 (Once tt) demo_pending
    demo_waiting) as (s' & Hrun & Hs').
  - split; [|reflexivity]. by eexists _, _, _.
  - discriminate.
  - exists s'. split; [exact Hrun|exact Hs'].
Defined.
Lemma ordinary_failures_end_witness :
  last_straw 4 (Z.of_nat 1) (0, 0) [requestTimedOut; emptyResponse] = Some emptyResponse.
Proof. apply (ordinary_failures_end 4 1 [requestTimedOut; emptyResponse]); [lia|by repeat constructor]. Defined.
Lemma alternating_failures_never_end_witness : last_straw 4 3 (0, 0) (alternating 20) = None.
Proof. apply (alternating_failures_never_end 4 20 3); lia. Defined.
Lemma bulk_walk_with_non_repeaters_goes_on_witness :
  bulk_row (mk_pdu GetBulkRequestPDU 7 1 10 [([1; 1], VNull); ([1; 2], VNull)])
    [([1; 1], VEndOfMibView); ([1; 2], VEndOfMibView)] = Ok (None, [([1; 1], VNull)]) ∧
  [([1; 1], VNull)] ≠ ([] : list var_bind).
Proof.
  split; [reflexivity|].
  apply (bulk_walk_with_non_repeaters_goes_on (mk_pdu GetBulkRequestPDU 7 1 10 [([1; 1], VNull); ([1; 2], VNull)])
    [([1; 1], VEndOfMibView); ([1; 2], VEndOfMibView)] None); [reflexivity|discriminate|reflexivity].
Defined.

(** A dispatcher that only counts *)
Definition counting (o : outgoing) (t : Z) (c : Z * follow unit) : M exn (nat * v1_pdu) Z :=
  λ x, (Ok (Z.of_nat x.1), (S x.1, x.2)).
Definition numbers (n : nat) : gset Z := list_to_set (Z.of_nat <$> seq 0 n).
Lemma counting_fresh : CmdgenSpec.fresh_handles counting numbers.
Proof.
  intros o t c n x. unfold counting, numbers. cbn [fst snd]. split.
  - rewrite elem_of_list_to_set. intros (m & Hm & Hin)%list_elem_of_fmap. apply elem_of_seq in Hin. lia.
  - rewrite seq_S, fmap_app, list_to_set_app. set_solver.
Qed.
Definition deaf (app : unit) (h : Z) (i : option indication) (st ix : Z) (b : bindings) :
  M exn (Cmdgen.state nat unit) bool := mret false.
Definition counting_step := CmdgenSpec.step counting (λ _, demo_conf.1) (λ _, demo_conf.2) (λ _, 500000) deaf
  no_address tt 4.
Definition counting_state : Cmdgen.state nat unit :=
  Cmdgen.mk_state [] demo_handles demo_handles Target.no_cache ∅ 0%nat.
Definition demo_ops : list CmdgenSpec.op :=
  [CmdgenSpec.Send [97] None [] (mk_pdu GetRequestPDU 9 0 0 []) (Once tt);
   CmdgenSpec.Send [97] None [] (mk_pdu GetRequestPDU 9 0 0 []) (Once tt);
   CmdgenSpec.Respond (4, Once tt) 1 (Failed (status_of otherError));
   CmdgenSpec.Send [99] None [] (mk_pdu GetRequestPDU 9 0 0 []) (Once tt)].
Lemma jobs_are_the_pending_requests_witness :
  let s' := foldl (λ s o, (counting_step o s).2) counting_state demo_ops in
  JobsSpec.outstanding (jobs s') tt = 2 ∧ Jobs.jobsArePending (jobs s') = true.
Proof.
  destruct (CmdgenSpec.jobs_are_the_pending_requests counting (λ _, demo_conf.1) (λ _, demo_conf.2) (λ _, 500000)
    deaf no_address tt 4 numbers counting_fresh (λ _ _ _ _ _ _ s Hs, Hs) demo_ops counting_state eq_refl eq_refl)
    as [H1 H2].
  split; [|apply H2; vm_compute; discriminate]. etransitivity; [exact H1|reflexivity].
Defined.

Definition demo_answer (i : Z) : Mp.elements v1_pdu :=
  Mp.mk_elements 1 2 [115] 1 [] [] 1 (V1Pdu (mk_pdu ResponsePDU i 0 0 [])) ResponsePDU None 0 None.
Lemma demo_accounted : CmdgenSpec.accounted tt (λ a : env, numbers (Z.to_nat (next a))) demo_waiting.
Proof.
  split; cbn.
  - unfold dict_ok. cbn. apply NoDup_singleton.
  - apply map_Forall_singleton. lia.
  - reflexivity.
  - intros h ->%list_elem_of_singleton. vm_compute. done.
Qed.
(** A response to the request *)
Lemma response_is_matched_witness : ∃ s1 r, pendingReqs s1 = [] ∧
  Cmdgen.processResponsePdu dsp_sendPdu (λ a : env, (conf a).1) (λ a, (conf a).2) (λ _, 500000) cbFun
    no_address tt 4 (7, Once tt) 1 (Answered (demo_answer 9)) demo_waiting =
  Cmdgen.processResponseVarBinds dsp_sendPdu (λ a : env, (conf a).1) (λ a, (conf a).2) (λ _, 500000) cbFun
    no_address tt (Once tt) 7 None (Some r) s1.
Proof.
  destruct (CmdgenSpec.response_is_matched dsp_sendPdu (λ a : env, (conf a).1) (λ a, (conf a).2) (λ _, 500000)
    cbFun no_address tt 4 (λ a, numbers (Z.to_nat (next a))) 7 (Once tt) demo_waiting 1 demo_pending
    (demo_answer 9) demo_accounted eq_refl) as (s1 & Hp & Hrest & Hr).
  destruct Hr as [Hr|[(x & Hx & _)|(r & _ & _ & _ & Hr)]].
  - exfalso. apply (f_equal (λ x, c_indication <$> last (told (rest x.2)))) in Hr.
    assert (Hbad : ∀ s, rest s = rest demo_waiting → c_indication <$> last (told (rest
      (Cmdgen.processResponseVarBinds dsp_sendPdu (λ a : env, (conf a).1) (λ a, (conf a).2) (λ _, 500000) cbFun
        no_address tt (Once tt) 7 (Some BadResponse) None s).2)) = Some (Some BadResponse)).
    { intros s Hs. cbn [Cmdgen.processResponseVarBinds]. unfold cbFun, mbind, M_bind, modify, gets. cbn [snd].
      by rewrite Hs. }
    rewrite (Hbad s1 Hrest) in Hr. discriminate Hr.
  - discriminate Hx.
  - by exists s1, r.
Defined.
End CmdgenRuns.
