(* ===== verification/Config.v ===== *)
(** * Writing the configuration the engine reads (src/pysnmp/entity/config.py)

    The functions write rows of MIB tables through the MIB controller.  What they
    need of the engine is the class [config_env]; a Python argument is a [pyval].
    The tables are named as the MIB modules under src/pysnmp/smi/mibs name them, and
    an instance identifier is encoded from their INDEX clauses (TableIndex.v). *)
From stdpp Require Import pretty.
From S2P Require Export Auth Priv Column TableIndex Transport.
#[local] Open Scope Z_scope.

Module Config.

(** An argument that is written to an object or encoded into an index; [PAddr] is
    the (host, port) tuple of a socket. *)
Inductive pyval : Type :=
  | PNone
  | PInt (z : Z)
  | PText (s : string)
  | PBytes (o : octets)
  | POid (o : oid)
  | PAddr (a : Transport.address).
#[global] Instance pyval_eq_dec : EqDecision pyval.
Proof. solve_decision. Defined.

Inductive warning : Type :=
  | WeakCrypto (reason : string)
  | NonStandardCrypto (name : string).

(** What the functions use of an engine *)
Class config_env (S : Type) := {
  (** [snmpEngine.msgAndPduDsp.mibInstrumController.writeVars] and [readNextVars] *)
  writeVars : list (oid * pyval) → M exn S unit;
  readNextVars : list (oid * pyval) → M exn S (list (oid * value));
  (** [warnings.warn], which raises when the filters say so *)
  warn : warning → M exn S unit;
  snmpEngineID : S → octets;
  (** [getattr(snmpEngine, "enableLegacyVersions", True)] *)
  enableLegacyVersions : S → bool;
  (** The column [vacmContextName] *)
  contexts : S → Column.column octets;
  put_contexts : Column.column octets → S → S;
}.

(** ** The tables *)
Record entry : Type := mk_entry { e_name : oid; e_index : list TableIndex.index }.

Definition sized (lo hi : Z) (v : TableIndex.ival) : bool :=
  match v with TableIndex.IStr s => in_range lo hi (Z.of_nat (length s)) | _ => true end.
Definition ranged (lo hi : Z) (v : TableIndex.ival) : bool :=
  match v with TableIndex.IInt z => in_range lo hi z | _ => true end.
Definition text_index (implied : bool) (lo hi : Z) : TableIndex.index :=
  TableIndex.mk_index implied (TableIndex.SOctetString None) (sized lo hi).
Definition int_index (lo hi : Z) : TableIndex.index :=
  TableIndex.mk_index false TableIndex.SInteger (ranged lo hi).
Definition oid_index (implied : bool) : TableIndex.index :=
  TableIndex.mk_index implied TableIndex.SObjectIdentifier (λ _, true).

Definition snmpCommunityEntry : entry := mk_entry [1;3;6;1;6;3;18;1;1;1] [text_index true 1 32].
Definition usmUserEntry : entry :=
  mk_entry [1;3;6;1;6;3;15;1;2;2;1] [text_index false 5 32; text_index false 1 32].
Definition pysnmpUsmSecretEntry : entry :=
  mk_entry [1;3;6;1;4;1;20408;3;1;1;1;2;1] [text_index true 1 32].
Definition pysnmpUsmKeyEntry : entry := mk_entry [1;3;6;1;4;1;20408;3;1;1;1;3;1] (e_index usmUserEntry).
Definition snmpTargetParamsEntry : entry := mk_entry [1;3;6;1;6;3;12;1;3;1] [text_index true 1 32].
Definition snmpTargetAddrEntry : entry := mk_entry [1;3;6;1;6;3;12;1;2;1] [text_index true 1 32].
Definition snmpSourceAddrEntry : entry :=
  mk_entry [1;3;6;1;4;1;20408;3;1;8;1;1;1] (e_index snmpTargetAddrEntry).
Definition vacmContextEntry : entry := mk_entry [1;3;6;1;6;3;16;1;1;1] [text_index false 0 32].
Definition vacmSecurityToGroupEntry : entry :=
  mk_entry [1;3;6;1;6;3;16;1;2;1] [int_index 1 2147483647; text_index false 1 32].
Definition vacmAccessEntry : entry :=
  mk_entry [1;3;6;1;6;3;16;1;4;1]
    [text_index false 1 32; text_index false 0 32; int_index 0 2147483647; int_index 1 3].
Definition vacmViewTreeFamilyEntry : entry :=
  mk_entry [1;3;6;1;6;3;16;1;5;2;1] [text_index false 1 32; oid_index false].
Definition snmpNotifyEntry : entry := mk_entry [1;3;6;1;6;3;13;1;1;1] [text_index true 1 32].
Definition snmpNotifyFilterProfileEntry : entry := mk_entry [1;3;6;1;6;3;13;1;2;1] [text_index true 1 32].
Definition snmpNotifyFilterEntry : entry :=
  mk_entry [1;3;6;1;6;3;13;1;3;1] [text_index false 1 32; oid_index true].

(** The octets of a text, which is ASCII *)
Definition octets_of (s : string) : octets :=
  (λ c, Z.of_nat (Ascii.nat_of_ascii c)) <$> String.list_ascii_of_string s.
Definition index_of (v : pyval) : result exn TableIndex.ival :=
  match v with
  | PInt z => Ok (TableIndex.IInt z)
  | PText s => Ok (TableIndex.IStr (octets_of s))
  | PBytes o => Ok (TableIndex.IStr o)
  | POid o => Ok (TableIndex.IOid o)
  | PNone | PAddr _ => Err (PyAsn1Error "")
  end.
Fixpoint indices_of (l : list pyval) : result exn (list TableIndex.ival) :=
  match l with
  | [] => Ok []
  | v :: l => i ← index_of v; r ← indices_of l; mret (i :: r)
  end.
(** [entry.getInstIdFromIndices(...)] *)
Definition getInstIdFromIndices (e : entry) (l : list pyval) : result exn oid :=
  ix ← indices_of l; TableIndex.encode (e_index e) ix.
(** [entry.name + (n,) + tblIdx] *)
Definition cell (e : entry) (n : Z) (tblIdx : oid) : oid := e_name e ++ n :: tblIdx.

(** ** Protocols *)
Definition usmKeyTypePassphrase : Z := 0.
Definition usmKeyTypeMaster : Z := 1.
Definition usmKeyTypeLocalized : Z := 2.

Definition WEAK_PROTOCOLS : dict oid string :=
  [(Des.serviceID, "usmDESPrivProtocol"); (Des3.serviceID, "usm3DESEDEPrivProtocol");
   (HmacMd5.serviceID, "usmHMACMD5AuthProtocol")]%string.
Definition NON_STANDARD_PROTOCOLS : dict oid string :=
  [(Aes.AesBlumenthal192_serviceID, "usmAesBlumenthalCfb192Protocol");
   (Aes.AesBlumenthal256_serviceID, "usmAesBlumenthalCfb256Protocol");
   (Aes.Aes192_serviceID, "usmAesCfb192Protocol"); (Aes.Aes256_serviceID, "usmAesCfb256Protocol")]%string.

Section services.
Context (H : hashlib) (B : cipherbackend).
Definition authServices : dict oid auth_service :=
  [(HmacMd5.serviceID, HmacMd5.service H); (HmacSha.serviceID, HmacSha.service H);
   (HmacSha2.sha224ServiceID, HmacSha2.service (HmacSha2.sha2_224 H));
   (HmacSha2.sha256ServiceID, HmacSha2.service (HmacSha2.sha2_256 H));
   (HmacSha2.sha384ServiceID, HmacSha2.service (HmacSha2.sha2_384 H));
   (HmacSha2.sha512ServiceID, HmacSha2.service (HmacSha2.sha2_512 H));
   (NoAuth.serviceID, NoAuth.service)].
Definition privServices : dict oid priv_service :=
  [(Des.serviceID, Des.service H B); (Des3.serviceID, Des3.service H B);
   (Aes.serviceID, Aes.service H B 16);
   (Aes.AesBlumenthal192_serviceID, Aes.AbstractAesBlumenthal H B 24);
   (Aes.AesBlumenthal256_serviceID, Aes.AbstractAesBlumenthal H B 32);
   (Aes.Aes192_serviceID, Aes.AbstractAesReeder H B 24);
   (Aes.Aes256_serviceID, Aes.AbstractAesReeder H B 32);
   (NoPriv.serviceID, NoPriv.service)].
End services.

Section config.
Context {S : Type} `{!config_env S} (H : hashlib) (B : cipherbackend).
(** [hash], which is not the same in every process *)
Context (hash : pyval → Z).
Abbreviation Op := (M exn S).
Abbreviation authServices := (authServices H).
Abbreviation privServices := (privServices H B).

(** A row of a table is destroyed, then made again with a SET of its cells. *)
Definition destroy (e : entry) (status : Z) (tblIdx : oid) : Op unit :=
  writeVars [(cell e status tblIdx, PText "destroy")].
Definition create (e : entry) (status : Z) (tblIdx : oid) (cells : list (Z * pyval)) : Op unit :=
  writeVars (((λ nv, (cell e nv.1 tblIdx, nv.2)) <$> cells) ++ [(cell e status tblIdx, PText "createAndGo")]).
Definition given (v default : pyval) : pyval := match v with PNone => default | v => v end.

Definition warnAboutProtocol (protocol : oid) : Op unit :=
  match dget WEAK_PROTOCOLS protocol with
  | Some reason => warn (WeakCrypto reason)
  | None =>
      match dget NON_STANDARD_PROTOCOLS protocol with
      | Some name => warn (NonStandardCrypto name)
      | None => mret tt
      end
  end.
Definition warnAboutLegacyVersion : Op unit := warn (WeakCrypto "SNMPv1 and SNMPv2c").
Definition checkLegacyVersions : Op unit :=
  legacy ← gets enableLegacyVersions;
  if legacy : bool then mret tt else raise (PySnmpError "SNMPv1/v2c disabled").
(** [cipherbackend.isAvailable] *)
Definition isAvailable : bool := match getAES B with Some _ => true | None => false end.
Definition checkPrivBackend (privProtocol : oid) : Op unit :=
  if negb (din privServices privProtocol) then raise (PySnmpError "Unknown privacy protocol")
  else if decide (privProtocol = NoPriv.serviceID) then mret tt
  else if isAvailable then mret tt else raise (PySnmpError "SNMPv3 privacy requires pycryptodomex").

(** [snmpEngineID.syntax.clone(v)], or the engine ID itself for None *)
Definition clone_engine_id (v : pyval) : Op octets :=
  own ← gets snmpEngineID;
  match v with
  | PNone => mret own
  | PBytes o => if in_range 5 32 (Z.of_nat (length o)) then mret o else raise (PyAsn1Error "size")
  | PText s =>
      if in_range 5 32 (Z.of_nat (length (octets_of s))) then mret (octets_of s)
      else raise (PyAsn1Error "size")
  | _ => raise (PyAsn1Error "")
  end.

(** ** Communities *)
Definition cookV1SystemInfo (communityIndex : pyval) : Op oid :=
  liftR (getInstIdFromIndices snmpCommunityEntry [communityIndex]).
Definition addV1System (communityIndex communityName contextEngineId contextName transportTag securityName : pyval) :
    Op unit :=
  checkLegacyVersions;;
  warnAboutLegacyVersion;;
  tblIdx ← cookV1SystemInfo communityIndex;
  contextEngineId ← clone_engine_id contextEngineId;
  destroy snmpCommunityEntry 8 tblIdx;;
  create snmpCommunityEntry 8 tblIdx
    [(1, communityIndex); (2, communityName); (3, given securityName communityIndex);
     (4, PBytes contextEngineId); (5, given contextName (PBytes [])); (6, transportTag);
     (7, PText "nonVolatile")].
Definition delV1System (communityIndex : pyval) : Op unit :=
  tblIdx ← cookV1SystemInfo communityIndex;
  destroy snmpCommunityEntry 8 tblIdx.

(** ** Users *)
Definition cookV3UserInfo (securityName securityEngineId : pyval) : Op (octets * oid * oid) :=
  securityEngineId ← clone_engine_id securityEngineId;
  tblIdx1 ← liftR (getInstIdFromIndices usmUserEntry [PBytes securityEngineId; securityName]);
  tblIdx2 ← liftR (getInstIdFromIndices pysnmpUsmSecretEntry [securityName]);
  mret (securityEngineId, tblIdx1, tblIdx2).

(** [pysnmpUsmKeyType.syntax.clone] *)
Definition clone_key_type (t : Z) : Op Z := if in_range 0 2 t then mret t else raise (PyAsn1Error "key type").
(** A key argument: a falsy one stays as it is, anything else becomes octets. *)
Definition key_octets (k : option octets) : octets := default [] k.
Definition of_key (k : option octets) : pyval := match k with Some k => PBytes k | None => PNone end.
(** [localizeKey] of a service: without a key there is nothing to bind, which only
    the services that keep no key accept. *)
Definition localize_auth (s : auth_service) (authProtocol : oid) (master : option octets) (engineId : octets) :
    result exn (option octets) :=
  match master with
  | Some k => a_localizeKey s k engineId
  | None => if decide (authProtocol = NoAuth.serviceID) then Ok None else Err (PyAsn1Error "no value")
  end.
Definition localize_priv (s : priv_service) (authProtocol privProtocol : oid) (master : option octets)
    (engineId : octets) : result exn (option octets) :=
  match master with
  | Some k => p_localizeKey s authProtocol k engineId
  | None => if decide (privProtocol = NoPriv.serviceID) then Ok None else Err (PyAsn1Error "no value")
  end.
(** The master key and the localized key, of what is given *)
Definition auth_keys (s : auth_service) (authProtocol : oid) (authKeyType : Z) (authKey : option octets) (engineId : octets) :
    result exn (option octets * option octets) :=
  master ← (if authKeyType <? usmKeyTypeMaster then a_hashPassphrase s (key_octets authKey) else Ok authKey);
  local ← (if authKeyType <? usmKeyTypeLocalized then localize_auth s authProtocol master engineId else Ok authKey);
  mret (master, local).
Definition priv_keys (s : priv_service) (authProtocol privProtocol : oid) (privKeyType : Z) (privKey : option octets)
    (engineId : octets) : result exn (option octets * option octets) :=
  master ← (if privKeyType <? usmKeyTypeMaster then p_hashPassphrase s authProtocol (key_octets privKey) else Ok privKey);
  local ← (if privKeyType <? usmKeyTypeLocalized then localize_priv s authProtocol privProtocol master engineId else Ok privKey);
  mret (master, local).

Definition addV3User (userName : pyval) (authProtocol : oid) (authKey : option octets) (privProtocol : oid)
    (privKey : option octets) (securityEngineId securityName : pyval) (authKeyType privKeyType : Z)
    (contextEngineId : pyval) : Op unit :=
  checkPrivBackend privProtocol;;
  warnAboutProtocol authProtocol;;
  warnAboutProtocol privProtocol;;
  let securityName := given securityName userName in
  '(securityEngineId, tblIdx1, tblIdx2) ← cookV3UserInfo securityName (given securityEngineId contextEngineId);
  destroy usmUserEntry 13 tblIdx1;;
  create usmUserEntry 13 tblIdx1
    [(2, userName); (3, securityName); (4, POid [0; 0]); (5, POid authProtocol); (8, POid privProtocol)];;
  authService ← liftR (from_option_exc (PySnmpError "Unknown auth protocol") (dget authServices authProtocol));
  authKeyType ← clone_key_type authKeyType;
  '(masterAuthKey, localAuthKey) ← liftR (auth_keys authService authProtocol authKeyType authKey securityEngineId);
  privKeyType ← clone_key_type privKeyType;
  privService ← liftR (from_option_exc KeyError (dget privServices privProtocol));
  '(masterPrivKey, localPrivKey) ←
    liftR (priv_keys privService authProtocol privProtocol privKeyType privKey securityEngineId);
  writeVars [(cell pysnmpUsmKeyEntry 1 tblIdx1, of_key localAuthKey)];;
  writeVars [(cell pysnmpUsmKeyEntry 2 tblIdx1, of_key localPrivKey)];;
  (if authKeyType <? usmKeyTypeLocalized
   then writeVars [(cell pysnmpUsmKeyEntry 3 tblIdx1, of_key masterAuthKey)] else mret tt);;
  (if privKeyType <? usmKeyTypeLocalized
   then writeVars [(cell pysnmpUsmKeyEntry 4 tblIdx1, of_key masterPrivKey)] else mret tt);;
  destroy pysnmpUsmSecretEntry 4 tblIdx2;;
  create pysnmpUsmSecretEntry 4 tblIdx2 [];;
  (if authKeyType <? usmKeyTypeMaster
   then writeVars [(cell pysnmpUsmSecretEntry 1 tblIdx2, userName); (cell pysnmpUsmSecretEntry 2 tblIdx2, of_key authKey)]
   else mret tt);;
  (if privKeyType <? usmKeyTypeMaster
   then writeVars [(cell pysnmpUsmSecretEntry 1 tblIdx2, userName); (cell pysnmpUsmSecretEntry 3 tblIdx2, of_key privKey)]
   else mret tt).

(** What a column reads as, given to [delV3User] *)
Definition pyval_of (v : value) : pyval := match v with VOctetString o => PBytes o | VOid o => POid o | _ => PNone end.
Definition is_end (v : value) : bool := match v with VEndOfMibView => true | _ => false end.
(** The columns the search for derived rows walks: engine ID, user name, clone-from *)
Definition initialVarBinds : list (oid * pyval) :=
  [(e_name usmUserEntry ++ [1], PNone); (e_name usmUserEntry ++ [2], PNone); (e_name usmUserEntry ++ [4], PNone)].
Definition as_args (l : list (oid * value)) : list (oid * pyval) := (λ nv, (nv.1, pyval_of nv.2)) <$> l.

(** The loop and the call it makes of [delV3User] share the fuel. *)
Fixpoint delV3User (fuel : nat) (userName securityEngineId contextEngineId : pyval) : Op unit :=
  match fuel with
  | O => raise (SmiError "out of rounds")
  | Datatypes.S fuel =>
      '(_, tblIdx1, tblIdx2) ← cookV3UserInfo userName (given securityEngineId contextEngineId);
      destroy usmUserEntry 13 tblIdx1;;
      destroy pysnmpUsmSecretEntry 4 tblIdx2;;
      (fix loop (rounds : nat) (varBinds : list (oid * pyval)) : Op unit :=
         match rounds with
         | O => raise (SmiError "out of rounds")
         | Datatypes.S rounds =>
             read ← readNextVars varBinds;
             match read with
             | (n0, v0) :: (n1, v1) :: (n2, v2) :: _ =>
                 let c0 := e_name usmUserEntry ++ [1] in
                 if is_end v0 then mret tt
                 else if decide (take (length c0) n0 ≠ c0) then mret tt
                 else if decide (v2 = VOid tblIdx1) then
                   delV3User fuel (pyval_of v1) (pyval_of v0) PNone;;
                   loop rounds initialVarBinds
                 else loop rounds (as_args read)
             | _ => raise IndexError
             end
         end) fuel initialVarBinds
  end.

(** ** Targets *)
Definition addTargetParams (name securityName : pyval) (securityLevel : pyval) (mpModel : Z) : Op unit :=
  let with_model securityModel :=
    tblIdx ← liftR (getInstIdFromIndices snmpTargetParamsEntry [name]);
    destroy snmpTargetParamsEntry 7 tblIdx;;
    create snmpTargetParamsEntry 7 tblIdx
      [(1, name); (2, PInt mpModel); (3, PInt securityModel); (4, securityName); (5, securityLevel)] in
  if mpModel =? 0 then with_model 1
  else if (mpModel =? 1) || (mpModel =? 2) then with_model 2
  else if mpModel =? 3 then with_model 3
  else raise (PySnmpError "Unknown MP model").
Definition delTargetParams (name : pyval) : Op unit :=
  tblIdx ← liftR (getInstIdFromIndices snmpTargetParamsEntry [name]);
  destroy snmpTargetParamsEntry 7 tblIdx.

(** [SnmpUDPAddress(v)], [TransportAddressIPv4(v)] and [TransportAddressIPv6(v)]: the
    octets of the address and of the port, of which the two low octets are kept *)
Definition address4 (v : pyval) : result exn pyval := PBytes <$> Transport.packed4 (match v with PAddr a => inl a | PBytes o => inr o | PText s => inr (octets_of s) | _ => inr [] end).
Definition address6 (v : pyval) : result exn pyval := PBytes <$> Transport.packed6 (match v with PAddr a => inl a | PBytes o => inr o | PText s => inr (octets_of s) | _ => inr [] end).
Definition any4 : pyval := PAddr (Transport.Inet [0; 0; 0; 0] 0).
Definition any6 : pyval := PAddr (Transport.Inet6 (replicate 16 0) 0 0 0).
Definition addresses (transportDomain : oid) (transportAddress sourceAddress : pyval) : result exn (pyval * pyval) :=
  let four := a ← address4 transportAddress; s ← address4 (given sourceAddress any4); mret (a, s) in
  let six := a ← address6 transportAddress; s ← address6 (given sourceAddress any6); mret (a, s) in
  if Transport.in_domain Transport.snmpUDPDomain transportDomain then four
  else if Transport.in_domain Transport.snmpUDP6Domain transportDomain then six
  else if Transport.in_domain Transport.snmpTCPDomain transportDomain then four
  else if Transport.in_domain Transport.snmpTCP6Domain transportDomain then six
  else mret (transportAddress, sourceAddress).
Definition addTargetAddr (addrName : pyval) (transportDomain : oid)
    (transportAddress params timeout retryCount tagList sourceAddress : pyval) : Op unit :=
  tblIdx ← liftR (getInstIdFromIndices snmpTargetAddrEntry [addrName]);
  '(transportAddress, sourceAddress) ← liftR (addresses transportDomain transportAddress sourceAddress);
  destroy snmpTargetAddrEntry 9 tblIdx;;
  writeVars
    (((λ nv, (cell snmpTargetAddrEntry nv.1 tblIdx, nv.2)) <$>
        [(1, addrName); (2, POid transportDomain); (3, transportAddress); (4, timeout); (5, retryCount);
         (6, tagList); (7, params)]) ++
     [(cell snmpSourceAddrEntry 1 tblIdx, sourceAddress);
      (cell snmpTargetAddrEntry 9 tblIdx, PText "createAndGo")]).
Definition delTargetAddr (addrName : pyval) : Op unit :=
  tblIdx ← liftR (getInstIdFromIndices snmpTargetAddrEntry [addrName]);
  destroy snmpTargetAddrEntry 9 tblIdx.

(** ** Contexts *)
Definition on_contexts {A} (m : M exn (Column.column octets) A) : Op A := zoom contexts put_contexts m.
Definition cookVacmContextInfo (contextName : pyval) : Op (oid * oid) :=
  tblIdx ← liftR (getInstIdFromIndices vacmContextEntry [contextName]);
  c ← gets contexts;
  mret (tblIdx, Column.name c ++ tblIdx).
(** [__delVacmContextInstance] *)
Definition delVacmContextInstance (instName : oid) : M exn (Column.column octets) bool :=
  c ← gets (λ c, c);
  match Column.getBranch c instName with
  | Err (MibError NoSuchInstanceError _) => mret false
  | Err e => raise e
  | Ok _ => Column.unregisterSubtrees [instName];; mret true
  end.
(** [vacmContextName.syntax.clone(contextName)] *)
Definition clone_context (contextName : pyval) : result exn octets :=
  match contextName with
  | PText s => Ok (octets_of s)
  | PBytes o => Ok o
  | _ => Err (PyAsn1Error "")
  end.
Definition addContext (contextName : pyval) : Op unit :=
  '(tblIdx, instName) ← cookVacmContextInfo contextName;
  on_contexts (delVacmContextInstance instName);;
  syntax ← liftR (clone_context contextName);
  on_contexts (Column.registerSubtrees [(instName, syntax)]).
Definition delContext (contextName : pyval) : Op unit :=
  '(_, instName) ← cookVacmContextInfo contextName;
  on_contexts (delVacmContextInstance instName);;
  mret tt.

(** ** Groups, access and views *)
Definition addVacmGroup (groupName securityModel securityName : pyval) : Op unit :=
  tblIdx ← liftR (getInstIdFromIndices vacmSecurityToGroupEntry [securityModel; securityName]);
  destroy vacmSecurityToGroupEntry 5 tblIdx;;
  create vacmSecurityToGroupEntry 5 tblIdx [(1, securityModel); (2, securityName); (3, groupName)].
Definition delVacmGroup (securityModel securityName : pyval) : Op unit :=
  tblIdx ← liftR (getInstIdFromIndices vacmSecurityToGroupEntry [securityModel; securityName]);
  destroy vacmSecurityToGroupEntry 5 tblIdx.
Definition addVacmAccess (groupName contextPrefix securityModel securityLevel contextMatch readView writeView notifyView : pyval) :
    Op unit :=
  tblIdx ← liftR (getInstIdFromIndices vacmAccessEntry [groupName; contextPrefix; securityModel; securityLevel]);
  destroy vacmAccessEntry 9 tblIdx;;
  create vacmAccessEntry 9 tblIdx
    [(1, contextPrefix); (2, securityModel); (3, securityLevel); (4, contextMatch); (5, readView);
     (6, writeView); (7, notifyView)].
Definition delVacmAccess (groupName contextPrefix securityModel securityLevel : pyval) : Op unit :=
  tblIdx ← liftR (getInstIdFromIndices vacmAccessEntry [groupName; contextPrefix; securityModel; securityLevel]);
  destroy vacmAccessEntry 9 tblIdx.

(** *** The mask of a view *)

(** pyasn1: the identifier a dotted text is ([ObjectIdentifier(text)]), and the octets
    whose bits a text of zeros and ones lists ([OctetString.fromBinaryString]) *)
Context (oid_of_text : octets → result exn oid) (fromBinaryString : string → result exn octets).

(** [OctetString(v)] of a text or of octets *)
Definition mask_octets (v : pyval) : octets :=
  match v with PText s => octets_of s | PBytes o => o | _ => [] end.
Definition pack_mask (subTree mask : oid) : result exn octets :=
  fromBinaryString (String.concat "" (pretty <$> (mask ++ replicate (length subTree - length mask) 1))).
(** An identifier, or a text with a dot, lists the bits. *)
Definition view_mask (subTree : oid) (subTreeMask : pyval) : result exn pyval :=
  match subTreeMask with
  | POid o => PBytes <$> pack_mask subTree o
  | v => if decide (46 ∈ mask_octets v)
         then o ← oid_of_text (mask_octets v); PBytes <$> pack_mask subTree o
         else Ok v
  end.
Definition addVacmView (viewName viewType : pyval) (subTree : oid) (subTreeMask : pyval) : Op unit :=
  tblIdx ← liftR (getInstIdFromIndices vacmViewTreeFamilyEntry [viewName; POid subTree]);
  mask ← liftR (view_mask subTree subTreeMask);
  destroy vacmViewTreeFamilyEntry 6 tblIdx;;
  create vacmViewTreeFamilyEntry 6 tblIdx [(1, viewName); (2, POid subTree); (3, mask); (4, viewType)].
Definition delVacmView (viewName : pyval) (subTree : oid) : Op unit :=
  tblIdx ← liftR (getInstIdFromIndices vacmViewTreeFamilyEntry [viewName; POid subTree]);
  destroy vacmViewTreeFamilyEntry 6 tblIdx.

(** ** A user in one call *)
(** [SnmpSecurityLevel(v)] *)
Definition security_level (v : pyval) : result exn pyval :=
  match v with
  | PInt z => if in_range 1 3 z then Ok v else Err (PyAsn1Error "")
  | PText "noAuthNoPriv" => Ok (PInt 1)
  | PText "authNoPriv" => Ok (PInt 2)
  | PText "authPriv" => Ok (PInt 3)
  | _ => Err (PyAsn1Error "")
  end.
(** [f"v-{hash(securityName)}-{securityModel}"] *)
Definition group_name (securityModel : Z) (securityName : pyval) : string :=
  ("v-" +:+ pretty (hash securityName) +:+ "-" +:+ pretty securityModel)%string.
Definition view_name (prefix : string) (groupName : string) : pyval := PText (prefix +:+ groupName)%string.

Definition addVacmUser (securityModel : Z) (securityName securityLevel : pyval)
    (readSubTree writeSubTree notifySubTree : oid) (contextName : pyval) : Op unit :=
  let groupName := group_name securityModel securityName in
  let view prefix subTree :=
    match subTree with
    | [] => mret tt
    | _ => addVacmView (view_name prefix groupName) (PText "included") subTree (PBytes [])
    end in
  securityLevel ← liftR (security_level securityLevel);
  addContext contextName;;
  addVacmGroup (PText groupName) (PInt securityModel) securityName;;
  addVacmAccess (PText groupName) contextName (PInt securityModel) securityLevel (PText "exact")
    (view_name "r" groupName) (view_name "w" groupName) (view_name "n" groupName);;
  view "r"%string readSubTree;;
  view "w"%string writeSubTree;;
  view "n"%string notifySubTree.
Definition delVacmUser (securityModel : Z) (securityName securityLevel : pyval)
    (readSubTree writeSubTree notifySubTree : oid) (contextName : pyval) : Op unit :=
  let groupName := group_name securityModel securityName in
  let view prefix subTree :=
    match subTree with [] => mret tt | _ => delVacmView (view_name prefix groupName) subTree end in
  securityLevel ← liftR (security_level securityLevel);
  delContext contextName;;
  delVacmGroup (PInt securityModel) securityName;;
  delVacmAccess (PText groupName) contextName (PInt securityModel) securityLevel;;
  view "r"%string readSubTree;;
  view "w"%string writeSubTree;;
  view "n"%string notifySubTree.

Definition addRoUser (securityModel : Z) (securityName securityLevel : pyval) (subTree : oid) (contextName : pyval) :=
  addVacmUser securityModel securityName securityLevel subTree [] [] contextName.
Definition delRoUser (securityModel : Z) (securityName securityLevel : pyval) (subTree : oid) (contextName : pyval) :=
  delVacmUser securityModel securityName securityLevel subTree [] [] contextName.
Definition addRwUser (securityModel : Z) (securityName securityLevel : pyval) (subTree : oid) (contextName : pyval) :=
  addVacmUser securityModel securityName securityLevel subTree subTree [] contextName.
Definition delRwUser (securityModel : Z) (securityName securityLevel : pyval) (subTree : oid) (contextName : pyval) :=
  delVacmUser securityModel securityName securityLevel subTree subTree [] contextName.
Definition addTrapUser (securityModel : Z) (securityName securityLevel : pyval) (subTree : oid) (contextName : pyval) :=
  addVacmUser securityModel securityName securityLevel [] [] subTree contextName.
Definition delTrapUser (securityModel : Z) (securityName securityLevel : pyval) (subTree : oid) (contextName : pyval) :=
  delVacmUser securityModel securityName securityLevel [] [] subTree contextName.

(** ** Notification targets *)
(** [f"{hash(notificationName)}-filter"] unless a name is given *)
Definition profile_name (notificationName filterProfileName : pyval) : pyval :=
  given filterProfileName (PText (pretty (hash notificationName) +:+ "-filter")%string).
Definition cookNotificationTargetInfo (notificationName paramsName : pyval) (filterSubtree : oid)
    (filterProfileName : pyval) : result exn (oid * oid * pyval * option oid) :=
  tblIdx1 ← getInstIdFromIndices snmpNotifyEntry [notificationName];
  tblIdx2 ← getInstIdFromIndices snmpNotifyFilterProfileEntry [paramsName];
  let profileName := profile_name notificationName filterProfileName in
  tblIdx3 ← match filterSubtree with
            | [] => mret None
            | _ => Some <$> getInstIdFromIndices snmpNotifyFilterEntry [profileName; POid filterSubtree]
            end;
  mret (tblIdx1, tblIdx2, profileName, tblIdx3).
Definition addNotificationTarget (notificationName paramsName transportTag notifyType : pyval) (filterSubtree : oid)
    (filterMask filterType filterProfileName : pyval) : Op unit :=
  '(tblIdx1, tblIdx2, profileName, tblIdx3) ←
    liftR (cookNotificationTargetInfo notificationName paramsName filterSubtree filterProfileName);
  destroy snmpNotifyEntry 5 tblIdx1;;
  create snmpNotifyEntry 5 tblIdx1 [(2, transportTag); (3, notifyType)];;
  destroy snmpNotifyFilterProfileEntry 3 tblIdx2;;
  create snmpNotifyFilterProfileEntry 3 tblIdx2 [(1, profileName)];;
  match tblIdx3 with
  | None => mret tt
  | Some tblIdx3 =>
      destroy snmpNotifyFilterEntry 5 tblIdx3;;
      create snmpNotifyFilterEntry 5 tblIdx3 [(1, POid filterSubtree); (2, filterMask); (3, filterType)]
  end.
Definition delNotificationTarget (notificationName paramsName : pyval) (filterSubtree : oid) (filterProfileName : pyval) :
    Op unit :=
  '(tblIdx1, tblIdx2, _, tblIdx3) ←
    liftR (cookNotificationTargetInfo notificationName paramsName filterSubtree filterProfileName);
  destroy snmpNotifyEntry 5 tblIdx1;;
  destroy snmpNotifyFilterProfileEntry 3 tblIdx2;;
  match tblIdx3 with Some tblIdx3 => destroy snmpNotifyFilterEntry 5 tblIdx3 | None => mret tt end.

(** ** The initial configuration of RFC 3415 *)
Definition initial_access : list (Z * pyval * pyval * pyval) :=
  [(1, PText "restricted", PNone, PText "restricted"); (2, PText "internet", PText "internet", PText "internet");
   (3, PText "internet", PText "internet", PText "internet")].
Definition initial_views : list (string * string * oid) :=
  [("internet", "included", [1;3;6;1]); ("internet", "excluded", [1;3;6;1;6;3;15]);
   ("internet", "excluded", [1;3;6;1;6;3;18]); ("restricted", "included", [1;3;6;1;2;1;1]);
   ("restricted", "included", [1;3;6;1;2;1;11]); ("restricted", "included", [1;3;6;1;6;3;10;2;1]);
   ("restricted", "included", [1;3;6;1;6;3;11;2;1]); ("restricted", "included", [1;3;6;1;6;3;15;1;1])]%string.
Definition setInitialVacmParameters : Op unit :=
  addContext (PText "");;
  addVacmGroup (PText "initial") (PInt 3) (PText "initial");;
  mapM_ (λ '(level, r, w, n),
    addVacmAccess (PText "initial") (PText "") (PInt 3) (PInt level) (PText "exact") r w n) initial_access;;
  mapM_ (λ '(name, type, subTree), addVacmView (PText name) (PText type) subTree (PText "")) initial_views.
End config.
End Config.
