(* ===== verification/ConfigSpec.v ===== *)
(** * What the configuration means

    The bits a view mask lists, the contexts of the access control model, the views of
    the initial configuration, and the users that are dropped with the one they were
    made from. *)
From stdpp Require Import pretty.
From S2P Require Export Config Vacm.
Import Config.
#[local] Open Scope Z_scope.

Module ConfigSpec.

(** ** The views of the initial configuration *)

(** The families of a view, as the access control model reads them from the rows *)
Definition type_code (type : string) : Z := if decide (type = "included"%string) then 1 else 2.
Definition families (view : string) : list Vacm.raw_family :=
  omap (λ '(name, type, subTree),
    if decide (name = view) then Some (subTree, octets_of "", type_code type) else None) initial_views.
Definition under (subTree name : oid) : bool := bool_decide (subTree `prefix_of` name).

(** The view "internet" of the initial configuration is the internet subtree without the
    users and their keys and without the communities; "restricted" is five subtrees. *)
Theorem initial_views_decide name :
  Vacm.decide_loop (Vacm.sort_families (Vacm.cooked <$> families "internet")) name false =
    Ok (under [1;3;6;1] name && negb (under [1;3;6;1;6;3;15] name || under [1;3;6;1;6;3;18] name)) ∧
  Vacm.decide_loop (Vacm.sort_families (Vacm.cooked <$> families "restricted")) name false =
    Ok (existsb (λ subTree, under subTree name)
          [[1;3;6;1;2;1;1]; [1;3;6;1;2;1;11]; [1;3;6;1;6;3;10;2;1]; [1;3;6;1;6;3;11;2;1]; [1;3;6;1;6;3;15;1;1]]).
Proof.
  assert (Hpre : ∀ p, under ([1;3;6;1] ++ p) name = true → under [1;3;6;1] name = true).
  { intros p Hp%bool_decide_eq_true. apply bool_decide_eq_true. etrans; [|exact Hp]. by apply prefix_app_r. }
  split.
  - pose proof (Hpre [6;3;15]) as H15. pose proof (Hpre [6;3;18]) as H18. cbn [app] in H15, H18.
    match goal with |- Vacm.decide_loop ?l _ _ = _ =>
      let l' := eval vm_compute in l in change l with l' end.
    cbn [Vacm.decide_loop Vacm.zero_at]. munfold. fold (under [1;3;6;1] name).
    unfold Vacm.isPrefixOf. fold (under [1;3;6;1] name) (under [1;3;6;1;6;3;15] name) (under [1;3;6;1;6;3;18] name).
    destruct (under [1;3;6;1] name), (under [1;3;6;1;6;3;15] name), (under [1;3;6;1;6;3;18] name); naive_solver.
  - match goal with |- Vacm.decide_loop ?l _ _ = _ =>
      let l' := eval vm_compute in l in change l with l' end.
    cbn [Vacm.decide_loop Vacm.zero_at existsb]. munfold. unfold Vacm.isPrefixOf.
    unfold under. repeat case_bool_decide; naive_solver.
Qed.

(** ** The mask of a view *)

(** pyasn1: bit [i] of the octets, the first the highest of the first octet, is the
    character at [i]. *)
Definition bit_char (b : bool) : string := if b then "1" else "0".
Definition bit_text (l : list bool) : string := String.concat "" (bit_char <$> l).
Class BinaryLaws (fromBinaryString : string → result exn octets) : Prop := {
  binary_bits : ∀ l, ∃ o, fromBinaryString (bit_text l) = Ok o ∧
    ∀ i b, l !! i = Some b → Vacm.mask_bit o i = b;
}.
Definition bits_of (l : oid) : list bool := (λ x, negb (x =? 0)) <$> l.
Definition are_bits (l : oid) : Prop := Forall (λ x, x = 0 ∨ x = 1) l.

Lemma bits_text l : are_bits l → pretty <$> l = bit_char <$> bits_of l.
Proof. induction 1 as [|x l [-> | ->] _ IH]; [done|..]; cbn; f_equal; apply IH. Qed.

(** A mask given as an identifier of zeros and ones covers what it says: a name agrees
    with the subtree wherever the identifier has a one, and beyond its end. *)
Theorem view_mask_covers fromBinaryString `{!BinaryLaws fromBinaryString} oid_of_text subTree mask :
  are_bits mask → ∃ m, view_mask oid_of_text fromBinaryString subTree (POid mask) = Ok (PBytes m) ∧
    ∀ name, Vacm.covers subTree m name ↔
      (length subTree <= length name)%nat ∧
      ∀ i, (i < length subTree)%nat → mask !! i ≠ Some 0 → subTree !! i = name !! i.
Proof.
  intros Hm. set (padded := mask ++ replicate (length subTree - length mask) 1).
  assert (Hp : are_bits padded).
  { apply Forall_app. split; [done|]. apply Forall_replicate. by right. }
  destruct (binary_bits (fromBinaryString := fromBinaryString) (bits_of padded)) as (m & Ho & Hbits).
  exists m. split.
  { unfold view_mask, pack_mask. fold padded. rewrite bits_text by done.
    fold (bit_text (bits_of padded)). by rewrite Ho. }
  intros name. unfold Vacm.covers. apply and_iff_compat_l.
  assert (Hbit : ∀ i, (i < length subTree)%nat → Vacm.mask_bit m i = true ↔ mask !! i ≠ Some 0).
  { intros i Hi. assert (Hlt : (i < length padded)%nat) by (unfold padded; rewrite length_app, length_replicate; lia).
    apply lookup_lt_is_Some in Hlt as [x Hx]. rewrite (Hbits i (negb (x =? 0))) by (unfold bits_of; by rewrite list_lookup_fmap, Hx).
    rewrite negb_true_iff, Z.eqb_neq. unfold padded in Hx. apply lookup_app_Some in Hx as [Hx|[Hge Hx]].
    - rewrite Hx. split; [intros ? [=]; done|intros Hne ->; done].
    - apply lookup_replicate in Hx as [-> _]. rewrite lookup_ge_None_2 by done. done. }
  split; intros H i Hi Hb; apply H; try done; by apply Hbit.
Qed.

(** A concrete function *)
Fixpoint octet_bits (n : nat) (l : list bool) : Z :=
  match n with
  | O => 0
  | Datatypes.S n =>
      match l with
      | [] => 0
      | b :: l => (if b then 2 ^ Z.of_nat n else 0) + octet_bits n l
      end
  end.
Fixpoint bits_octets (fuel : nat) (l : list bool) : octets :=
  match fuel, l with
  | O, _ | _, [] => []
  | Datatypes.S fuel, l => octet_bits 8 l :: bits_octets fuel (drop 8 l)
  end.
Fixpoint text_bits (s : string) : option (list bool) :=
  match s with
  | EmptyString => Some []
  | String c s =>
      if decide (c = Ascii.ascii_of_nat 48) then (λ l, false :: l) <$> text_bits s
      else if decide (c = Ascii.ascii_of_nat 49) then (λ l, true :: l) <$> text_bits s
      else None
  end.
Definition binary (s : string) : result exn octets :=
  match text_bits s with
  | Some l => Ok (bits_octets (length l) l)
  | None => Err (PyAsn1Error "Non-binary OCTET STRING initializer")
  end.

Lemma string_nil_r (s : string) : String.append s EmptyString = s.
Proof. induction s as [|c s IH]; [done|]. exact (f_equal (String c) IH). Qed.
Lemma bit_text_cons b l : bit_text (b :: l) = String.append (bit_char b) (bit_text l).
Proof.
  unfold bit_text. cbn [fmap list_fmap String.concat]. destruct l as [|b' l]; [|done].
  symmetry. apply string_nil_r.
Qed.
Lemma text_bits_text l : text_bits (bit_text l) = Some l.
Proof.
  induction l as [|b l IH]; [done|]. rewrite bit_text_cons.
  destruct b; cbn [bit_char];
    match goal with |- text_bits (String.append (String ?c EmptyString) ?s) = _ =>
      change (text_bits (String c s) = Some (bool_decide (c = Ascii.ascii_of_nat 49) :: l)) end;
    cbn [text_bits]; rewrite IH; by vm_compute.
Qed.
Lemma octet_bits_bound n l : 0 <= octet_bits n l < 2 ^ Z.of_nat n.
Proof.
  revert l. induction n as [|n IH]; intros l; cbn [octet_bits]; [lia|].
  rewrite Nat2Z.inj_succ, Z.pow_succ_r by lia. destruct l as [|b l]; [lia|].
  specialize (IH l). destruct b; lia.
Qed.
Lemma octet_bits_nth n l i b : (i < n)%nat → l !! i = Some b →
  Z.testbit (octet_bits n l) (Z.of_nat n - 1 - Z.of_nat i) = b.
Proof.
  revert l i. induction n as [|n IH]; intros l i Hi Hl; [lia|].
  destruct l as [|b' l]; [done|]. cbn [octet_bits]. pose proof (octet_bits_bound n l) as Hb.
  set (x := octet_bits n l) in *.
  destruct i as [|i].
  - injection Hl as ->. replace (Z.of_nat (Datatypes.S n) - 1 - Z.of_nat 0) with (Z.of_nat n) by lia.
    apply Z.b2z_inj. rewrite Z.testbit_spec' by lia. destruct b.
    + replace (2 ^ Z.of_nat n + x) with (x + 1 * 2 ^ Z.of_nat n) by lia.
      rewrite Z.div_add, Z.div_small by lia. done.
    + rewrite Z.div_small by lia. done.
  - cbn in Hl. replace (Z.of_nat (Datatypes.S n) - 1 - Z.of_nat (Datatypes.S i))
      with (Z.of_nat n - 1 - Z.of_nat i) by lia.
    rewrite <- (IH l i) by (done || lia). fold x. destruct b'; [|done].
    rewrite <- (Z.mod_pow2_bits_low (2 ^ Z.of_nat n + x) (Z.of_nat n)) by lia.
    rewrite <- (Z.mod_pow2_bits_low x (Z.of_nat n)) by lia.
    f_equal. replace (2 ^ Z.of_nat n + x) with (x + 1 * 2 ^ Z.of_nat n) by lia.
    by rewrite Z.mod_add by lia.
Qed.
Lemma mask_bits fuel l i b : (length l <= fuel)%nat → l !! i = Some b →
  Vacm.mask_bit (bits_octets fuel l) i = b.
Proof.
  revert l i. induction fuel as [|fuel IH]; intros l i Hf Hl;
    (destruct l as [|b' l]; [by rewrite lookup_nil in Hl|]); [cbn in Hf; lia|]. cbn [bits_octets].
  remember (b' :: l) as l' eqn:Hl'.
  assert (0 < length l')%nat by (subst; cbn; lia).
  unfold Vacm.mask_bit. destruct (decide (i < 8)%nat) as [Hi|Hi].
  - rewrite (Nat.div_small i 8), (Nat.mod_small i 8) by done. cbn [lookup list_lookup].
    by apply (octet_bits_nth 8).
  - assert (Hi' : i = (i - 8 + 1 * 8)%nat) by lia.
    assert ((i / 8)%nat = Datatypes.S ((i - 8) / 8)) as -> by (rewrite Hi' at 1; rewrite Nat.div_add; lia).
    assert ((i mod 8)%nat = ((i - 8) mod 8)%nat) as -> by (rewrite Hi' at 1; by rewrite Nat.Div0.mod_add).
    cbn [lookup list_lookup].
    fold (Vacm.mask_bit (bits_octets fuel (drop 8 l')) (i - 8)).
    apply IH; [rewrite length_drop; lia|].
    rewrite lookup_drop. by replace (8 + (i - 8))%nat with i by lia.
Qed.
#[global] Instance binary_laws : BinaryLaws binary.
Proof.
  constructor. intros l. exists (bits_octets (length l) l). split.
  - unfold binary. by rewrite text_bits_text.
  - intros i b Hb. by apply mask_bits.
Qed.

Lemma view_mask_covers_witness :
  are_bits [1; 1; 0; 1; 1; 1; 1; 1; 1; 0] ∧
  ∃ m, view_mask (λ _, Err KeyError) binary [1;3;6;1;2;1;2;2;1;1;7] (POid [1; 1; 0; 1; 1; 1; 1; 1; 1; 0]) = Ok (PBytes m) ∧
    ∀ name, Vacm.covers [1;3;6;1;2;1;2;2;1;1;7] m name ↔
      (11 <= length name)%nat ∧
      ∀ i, (i < 11)%nat → [1; 1; 0; 1; 1; 1; 1; 1; 1; 0] !! i ≠ Some 0 →
        [1;3;6;1;2;1;2;2;1;1;7] !! i = name !! i.
Proof.
  assert (Hm : are_bits [1; 1; 0; 1; 1; 1; 1; 1; 1; 0]) by (repeat constructor; lia).
  split; [exact Hm|].
  exact (view_mask_covers binary (λ _, Err KeyError) [1;3;6;1;2;1;2;2;1;1;7] [1; 1; 0; 1; 1; 1; 1; 1; 1; 0] Hm).
Defined.

(** ** Addresses of targets *)

Lemma port_octets_kept (port : Z) :
  Z.lor (Z.shiftl (Z.land (Z.shiftr port 8) 255) 8) (Z.land port 255) = port mod 65536.
Proof.
  change 65536 with (2 ^ 16). change 255 with (Z.ones 8).
  rewrite <- Z.land_ones by lia. apply Z.bits_inj'. intros i Hi.
  rewrite Z.lor_spec, Z.land_spec, Z.land_spec, !Z.testbit_ones by lia.
  destruct (Z.ltb_spec i 8).
  - rewrite Z.shiftl_spec_low by lia. destruct (Z.ltb_spec i 16); [|lia].
    destruct (Z.leb_spec 0 i); [|lia]. cbn. by rewrite !andb_true_r.
  - rewrite Z.shiftl_spec by lia. rewrite Z.land_spec, Z.shiftr_spec, !Z.testbit_ones by lia.
    replace (i - 8 + 8) with i by lia.
    destruct (Z.leb_spec 0 (i - 8)), (Z.ltb_spec (i - 8) 8), (Z.leb_spec 0 i), (Z.ltb_spec i 16);
      try lia; by destruct (Z.testbit port i).
Qed.
Lemma port_at_packed host port :
  Transport.port_at (length host) (host ++ Transport.port_octets port) = port mod 65536.
Proof.
  unfold Transport.port_at. rewrite !lookup_app_r by lia.
  rewrite Nat.sub_diag. replace (length host + 1 - length host)%nat with 1%nat by lia.
  cbn [lookup list_lookup Transport.port_octets default]. apply port_octets_kept.
Qed.
Lemma packed_socket size host port : length host = size →
  Transport.packed size host port ≫= Transport.sized (size + 2) = Ok (host ++ Transport.port_octets port) ∧
  length (host ++ Transport.port_octets port) = (size + 2)%nat ∧
  take size (host ++ Transport.port_octets port) = host.
Proof.
  intros Hl. assert (length (host ++ Transport.port_octets port) = (size + 2)%nat) as Hn by (rewrite length_app; cbn; lia).
  split_and!; [|done|by rewrite take_app_length'].
  unfold Transport.packed. rewrite Hl, Nat.eqb_refl. munfold. unfold Transport.sized. by rewrite Hn, Nat.eqb_refl.
Qed.
Arguments Transport.packed : simpl never.
Arguments Transport.sized : simpl never.

(** The address a target is given is the one its transport sends to, with the port
    modulo 2^16; without a source it gets the unspecified address. *)
Theorem target_address_kept domain host port flow scope :
  (length host = 4%nat → domain ∈ [Transport.snmpUDPDomain; Transport.snmpTCPDomain] →
     ∃ o, addresses domain (PAddr (Transport.Inet host port)) PNone = Ok (PBytes o, PBytes (replicate 6 0)) ∧
     Transport.target_address domain o = Ok (Transport.Inet host (port mod 65536))) ∧
  (length host = 16%nat → domain ∈ [Transport.snmpUDP6Domain; Transport.snmpTCP6Domain] →
     ∃ o, addresses domain (PAddr (Transport.Inet6 host port flow scope)) PNone = Ok (PBytes o, PBytes (replicate 18 0)) ∧
     Transport.target_address domain o = Ok (Transport.Inet6 host (port mod 65536) 0 0)).
Proof.
  split; intros Hl Hd; exists (host ++ Transport.port_octets port);
    destruct (packed_socket _ _ port Hl) as (Hp & Hn & Ht); pose proof (port_at_packed host port) as Hport;
    rewrite Hl in Hport;
    (split; [unfold addresses, address4, address6, any4, any6, given, Transport.packed4, Transport.packed6
            |unfold Transport.target_address, Transport.socket4, Transport.socket6]).
  - cbn [Nat.add] in Hp. rewrite Hp.
    rewrite !elem_of_cons in Hd. destruct Hd as [-> |[-> |Hd]]; [reflexivity|reflexivity|set_solver].
  - rewrite Hn, Ht, Hport.
    rewrite !elem_of_cons in Hd. destruct Hd as [-> |[-> |Hd]]; [reflexivity|reflexivity|set_solver].
  - cbn [Nat.add] in Hp. rewrite Hp.
    rewrite !elem_of_cons in Hd. destruct Hd as [-> |[-> |Hd]]; [reflexivity|reflexivity|set_solver].
  - rewrite Hn, Ht, Hport.
    rewrite !elem_of_cons in Hd. destruct Hd as [-> |[-> |Hd]]; [reflexivity|reflexivity|set_solver].
Qed.

(** ** Contexts *)

Abbreviation base c := (Indices.base (Column.vars c)).
Abbreviation column := (Column.column octets).

(** A column after a row of it was dropped, or registered: what it holds *)
Definition holds (c c' : column) (i : oid) (v : option octets) : Prop :=
  Column.wf c' ∧ Column.name c' = Column.name c ∧
  ∀ k, dget (base c') k = if decide (k = i) then v else dget (base c) k.

Lemma del_instance_spec c i : Column.wf c →
  ∃ b c', delVacmContextInstance i c = (Ok b, c') ∧ holds c c' i None.
Proof.
  intros Hwf. unfold delVacmContextInstance, Column.getBranch. munfold.
  pose proof (Indices.wf_base _ (Column.wf_vars _ Hwf)) as Hd.
  destruct (dget (base c) i) as [v|] eqn:Hi.
  - unfold Column.unregisterSubtrees. munfold. cbn [Column.unregister_loop Column.bump Column.vars].
    assert (din (base c) i = true) as -> by (eapply din_true, dget_Some_keys, Hi).
    eexists _, _. split; [reflexivity|]. split_and!; [|done|].
    + split; [by apply Indices.delitem_wf, Column.wf_vars|].
      intros k Hk. cbn [Column.set_vars Column.vars] in Hk. rewrite Indices.delitem_base in Hk.
      apply (Column.wf_names _ Hwf). by eapply dkeys_ddel_subseteq.
    + intros k. cbn [Column.set_vars Column.vars]. rewrite Indices.delitem_base.
      case_decide; [subst; by apply dget_ddel_eq|by apply dget_ddel_ne].
  - eexists _, _. split; [reflexivity|]. split_and!; [done..|].
    intros k. case_decide; by subst.
Qed.

Lemma register_instance_spec c i v rest : Column.wf c → dget (base c) i = None →
  rest ≠ [] → i = Column.name c ++ rest →
  ∃ c', Column.registerSubtrees [(i, v)] c = (Ok tt, c') ∧ holds c c' i (Some v).
Proof.
  intros Hwf Hi Hr ->.
  destruct (Column.registerSubtrees_wf [(Column.name c ++ rest, v)] c Hwf) as [Hwf' _].
  { intros n s [= -> ->]%list_elem_of_singleton. by exists rest. }
  unfold Column.registerSubtrees in *. munfold. cbn [Column.register_loop Column.bump Column.vars] in *.
  assert (din (base c) (Column.name c ++ rest) = false) as Hf by by apply din_false.
  rewrite Hf in *. eexists. split; [reflexivity|]. split_and!; [done..|].
  intros k. cbn [Column.set_vars Column.vars]. rewrite Indices.setitem_base.
  case_decide; [subst; by apply dget_dset_eq|by apply dget_dset_ne].
Qed.

Lemma context_index n : (length n <= 32)%nat →
  getInstIdFromIndices vacmContextEntry [PBytes n] = Ok (Z.of_nat (length n) :: n).
Proof.
  intros Hl. unfold getInstIdFromIndices, vacmContextEntry, text_index. cbn [indices_of index_of e_index].
  munfold. cbn [TableIndex.encode]. unfold TableIndex.clone.
  cbn [TableIndex.syntax_of TableIndex.idx_type TableIndex.idx_ok sized andb].
  assert (in_range 0 32 (Z.of_nat (length n)) = true) as ->.
  { unfold in_range. apply andb_true_iff. rewrite !Z.leb_le. lia. }
  munfold. cbn [TableIndex.getAsName TableIndex.idx_type TableIndex.impliedFlag]. by rewrite app_nil_r.
Qed.

(** Whatever the table of contexts holds, [addContext] leaves the context in it under
    its own name, [delContext] leaves it out, and neither touches another context or
    raises: a context is replaced when it is there, and one that is not is no error. *)
Theorem contexts_set {S} `{!config_env S} n s :
  (∀ c s, contexts (put_contexts c s) = c) → Column.wf (contexts s) → (length n <= 32)%nat →
  let i := Column.name (contexts s) ++ Z.of_nat (length n) :: n in
  (∃ s', addContext (PBytes n) s = (Ok tt, s') ∧ holds (contexts s) (contexts s') i (Some n)) ∧
  (∃ s', delContext (PBytes n) s = (Ok tt, s') ∧ holds (contexts s) (contexts s') i None).
Proof.
  intros Hlens Hwf Hn i. set (c := contexts s) in *.
  destruct (del_instance_spec c i Hwf) as (b & c1 & Hdel & Hwf1 & Hn1 & Hk1).
  assert (Hcook : cookVacmContextInfo (PBytes n) s = (Ok (Z.of_nat (length n) :: n, i), s)).
  { unfold cookVacmContextInfo. munfold. by rewrite context_index. }
  assert (Hzoom : on_contexts (delVacmContextInstance i) s = (Ok b, put_contexts c1 s)).
  { unfold on_contexts. munfold. fold c. by rewrite Hdel. }
  split.
  - destruct (register_instance_spec c1 i n (Z.of_nat (length n) :: n)) as (c2 & Hreg & Hwf2 & Hn2 & Hk2);
      [done| |done|by rewrite Hn1|].
    { rewrite Hk1. by rewrite decide_True. }
    exists (put_contexts c2 (put_contexts c1 s)). split.
    + unfold addContext. unfold mbind, M_bind. rewrite Hcook. cbn beta iota.
      rewrite Hzoom. cbn beta iota. cbn [clone_context liftR]. unfold on_contexts, zoom.
      rewrite Hlens, Hreg. done.
    + rewrite Hlens. split_and!; [done|congruence|]. intros k. rewrite Hk2, Hk1. by case_decide.
  - exists (put_contexts c1 s). split.
    + unfold delContext. unfold mbind, M_bind. rewrite Hcook. cbn beta iota. by rewrite Hzoom.
    + rewrite Hlens. by split_and!.
Qed.

(** ** Concrete engines *)

(** An engine that has nothing but the column of contexts *)
Definition contexts_only : config_env column := {|
  writeVars _ := mret tt; readNextVars _ := mret []; warn _ := mret tt;
  snmpEngineID _ := [128; 0; 79; 184; 5]; enableLegacyVersions _ := true;
  contexts c := c; put_contexts c _ := c;
|}.
(** [vacmContextName], with the default context and one named "ab" *)
Definition demo_contexts : column :=
  (Column.registerSubtrees [([1;3;6;1;6;3;16;1;1;1;1;0], []); ([1;3;6;1;6;3;16;1;1;1;1;2;97;98], [97; 98])]
     (Column.init [1;3;6;1;6;3;16;1;1;1;1] [])).2.
Lemma demo_contexts_wf : Column.wf demo_contexts.
Proof.
  apply Column.registerSubtrees_wf; [apply Column.column_init_wf|].
  intros n s Hin. rewrite !elem_of_cons in Hin.
  destruct Hin as [[= -> ->]|[[= -> ->]|Hin]]; [by exists [0]|by exists [2; 97; 98]|set_solver].
Qed.
Lemma contexts_set_witness :
  Column.wf demo_contexts ∧
  let i := [1;3;6;1;6;3;16;1;1;1;1] ++ [2; 97; 98] in
  (∃ s', @addContext _ contexts_only (PBytes [97; 98]) demo_contexts = (Ok tt, s') ∧
     holds demo_contexts s' i (Some [97; 98])) ∧
  (∃ s', @delContext _ contexts_only (PBytes [97; 98]) demo_contexts = (Ok tt, s') ∧
     holds demo_contexts s' i None).
Proof.
  split; [exact demo_contexts_wf|].
  exact (@contexts_set _ contexts_only [97; 98] demo_contexts (λ c s, eq_refl) demo_contexts_wf
           ltac:(apply Nat.leb_le; reflexivity)).
Defined.

(** An engine that only keeps what is written *)
Definition log : Type := list (list (oid * pyval)).
Definition logging (ok : list (oid * pyval) → bool) : config_env log := {|
  writeVars l := λ s, if ok l then (Ok tt, s ++ [l]) else (Err (SmiError "refused"), s);
  readNextVars _ := mret []; warn _ := mret tt;
  snmpEngineID _ := [128; 0; 79; 184; 5]; enableLegacyVersions _ := true;
  contexts _ := Column.init [] []; put_contexts _ s := s;
|}.
Definition user : oid := [5; 128; 0; 79; 184; 5; 3; 98; 111; 98].

(** A protocol that is no authentication service is refused when the row of the user is
    there already. *)
Example unknown_protocol_leaves_the_user :
  @addV3User _ (logging (λ _, true)) toy_hashlib Priv.toy_backend (PText "bob") [1; 2; 3] None NoPriv.serviceID None
    PNone PNone 0 0 PNone [] =
  (Err (PySnmpError "Unknown auth protocol"),
   [[(cell usmUserEntry 13 user, PText "destroy")];
    [(cell usmUserEntry 2 user, PText "bob"); (cell usmUserEntry 3 user, PText "bob");
     (cell usmUserEntry 4 user, POid [0; 0]); (cell usmUserEntry 5 user, POid [1; 2; 3]);
     (cell usmUserEntry 8 user, POid NoPriv.serviceID); (cell usmUserEntry 13 user, PText "createAndGo")]]).
Proof. vm_compute. reflexivity. Qed.

(** A user is added under its security name and deleted under its user name. *)
Example deleted_under_another_name :
  cell usmUserEntry 13 user ∉
    ((@delV3User _ (logging (λ _, true)) 1 (PText "rob") PNone PNone []).2 ≫= λ l, l.*1) ∧
  ((@addV3User _ (logging (λ _, true)) toy_hashlib Priv.toy_backend (PText "rob") NoAuth.serviceID None NoPriv.serviceID
     None PNone (PText "bob") 2 2 PNone []).2 !! 0%nat) = Some [(cell usmUserEntry 13 user, PText "destroy")].
Proof. split; [|vm_compute; reflexivity]. apply (bool_decide_unpack _). vm_compute. exact I. Qed.

(** Octets with a full stop among them are no mask: they are read as a dotted name. *)
Example full_stop_in_a_mask :
  view_mask (λ _, Err (PyAsn1Error "")) binary [1; 3; 6; 1] (PBytes [46]) = Err (PyAsn1Error "") ∧
  view_mask (λ _, Err (PyAsn1Error "")) binary [1; 3; 6; 1] (PBytes [47]) = Ok (PBytes [47]).
Proof. split; reflexivity. Qed.
End ConfigSpec.
