(* ===== verification/Ntforg.v ===== *)
(** * The notification originator (src/pysnmp/entity/rfc3413/ntforg.py)

    A notification goes to every target its tag names, unless the filter of the
    target or the access control model leaves the target out.  A trap is sent and
    forgotten; an inform is kept until each of its targets has answered or failed,
    and its callback is told once.  As for the command generator (Cmdgen.v), the
    dispatcher's [sendPdu] and the access control model work on the part [A] of the
    engine that is not the originator's. *)
From S2P Require Export Cmdgen.
Import Dispatcher.
#[local] Open Scope Z_scope.

Module Ntforg.

(** [nextid.Integer(0x7FFFFFFF)], a generator of the originator's own *)
Definition getNextHandle (e : Z) : result exn NextId.Integer := NextId.init 2147483647 256 e.

(** ** The order of the bindings *)

(** The first index from [idx] whose binding has the name *)
Fixpoint named_from (name : oid) (idx : nat) (l : list var_bind) : option nat :=
  match l with
  | [] => None
  | vb :: l => if decide (vb.1 = name) then Some idx else named_from name (S idx) l
  end.
(** [del l[idx]] *)
Definition del_at (idx : nat) (l : list var_bind) : list var_bind := take idx l ++ drop (S idx) l.

(** An uptime goes in front, *)
Definition uptime_first (upTime : value) (l : list var_bind) : list var_bind :=
  match l with
  | vb :: _ => if decide (vb.1 = sysUpTime) then l else (sysUpTime, upTime) :: l
  | [] => [(sysUpTime, upTime)]
  end.
(** the caller's own in place of the one just inserted; *)
Definition callers_uptime (l : list var_bind) : list var_bind :=
  match named_from sysUpTime 1 (drop 1 l) with
  | Some idx => match l !! idx with Some vb => del_at idx (<[0%nat := vb]> l) | None => l end
  | None => l
  end.
(** the name of the notification goes second. *)
Definition trap_second (l : list var_bind) : result exn (list var_bind) :=
  match named_from snmpTrapOID 1 (drop 1 l) with
  | Some idx =>
      if (idx =? 1)%nat then Ok l
      else match l !! idx with
           | Some vb => Ok (take 1 (del_at idx l) ++ vb :: drop 1 (del_at idx l))
           | None => Ok l
           end
  | None => Err (PySnmpError "snmpTrapOID.0 required")
  end.
Definition orderNotificationVarBinds (varBinds : list var_bind) (upTime : value) : result exn (list var_bind) :=
  trap_second (callers_uptime (uptime_first upTime varBinds)).

(** ** Filters *)

(** The subtree as it is, the subtree and the positions the mask leaves out, whether
    it is included *)
Definition prepared : Type := oid * Vacm.family.
Definition prepare (f : Target.filter_entry) : prepared :=
  (f.1.1, Vacm.family_of f.1.1 f.1.2 f.2).
(** [prepared.sort(key=lambda entry: (len(entry[0]), entry[0]))] *)
Definition prepared_key (p : prepared) : list Z := Z.of_nat (length p.1) :: p.1.
Definition prepareFilterEntries (filterEntries : list Target.filter_entry) : list prepared :=
  sorted_by tuple_leb prepared_key (prepare <$> filterEntries).

Fixpoint match_loop (l : list prepared) (name : oid) (r : option bool) : result exn (option bool) :=
  match l with
  | [] => Ok r
  | (originalSubtree, (subtree, ignoredSubOids, included)) :: l =>
      if (length name <? length originalSubtree)%nat then match_loop l name r
      else
        normalizedOid ← Vacm.zero_at ignoredSubOids name;
        match_loop l name (if Vacm.isPrefixOf subtree normalizedOid then Some included else r)
  end.
Definition matchPreparedFilter (l : list prepared) (name : oid) : result exn (option bool) := match_loop l name None.
Definition matchFilter (filterEntries : list Target.filter_entry) (name : oid) : result exn (option bool) :=
  matchPreparedFilter (prepareFilterEntries filterEntries) name.

(** The names of the bindings beyond the two every notification has *)
Definition is_required (name : oid) : bool := bool_decide (name ∈ [sysUpTime; snmpTrapOID]).
Definition objectNames (varBinds : list var_bind) : list oid :=
  filter (λ n, is_required n = false) varBinds.*1.
(** [varBinds[1][1]], an identifier *)
Definition trapOidVal (varBinds : list var_bind) : result exn oid :=
  match varBinds !! 1%nat with Some (_, v) => as_oid v | None => Err IndexError end.

Fixpoint objectExcluded (l : list prepared) (names : list oid) : result exn bool :=
  match names with
  | [] => Ok false
  | n :: names =>
      r ← matchPreparedFilter l n;
      if decide (r = Some false) then Ok true else objectExcluded l names
  end.
(** A target without entries gets everything. *)
Definition passes (filterEntries : list Target.filter_entry) (varBinds : list var_bind) : result exn bool :=
  match filterEntries with
  | [] => Ok true
  | _ =>
      let preparedFilter := prepareFilterEntries filterEntries in
      t ← trapOidVal varBinds;
      r ← matchPreparedFilter preparedFilter t;
      if decide (r = Some true) then negb <$> objectExcluded preparedFilter (objectNames varBinds)
      else Ok false
  end.

(** ** The originator *)
Section originator.
Context {App A J : Type} `{Countable J}.

(** [cbFun] and [cbCtx] of [sendPdu]: [processResponseVarBinds] of a notification, for a
    callback of the application that may be None *)
Record follow : Type := mk_follow { notificationHandle : Z; app : option App }.

(** [__pendingReqs] *)
Record pending : Type := mk_pending {
  p_transport : origin;
  p_messageProcessingModel : Z;
  p_securityModel : Z;
  p_securityName : octets;
  p_securityLevel : Z;
  p_contextEngineId : option octets;
  p_contextName : octets;
  p_PDU : pdu;
  p_timeout : Z;
  p_retryCount : Z;
  p_retries : Z;
  p_discoveryRetries : Z;
}.

Record state : Type := mk_state {
  pendingReqs : dict Z pending;
  (** [__pendingNotifications]: the sets of handles of what is sent for each *)
  pendingNotifications : dict Z (list Z);
  handles : NextId.Integer;
  requestIDs : NextId.Integer;
  targets : Target.caches;
  jobs : gmap J Z;
  rest : A;
}.
Abbreviation G := (M exn state).

Definition put_pending (p : dict Z pending) (s : state) : state :=
  mk_state p (pendingNotifications s) (handles s) (requestIDs s) (targets s) (jobs s) (rest s).
Definition put_notifications (n : dict Z (list Z)) (s : state) : state :=
  mk_state (pendingReqs s) n (handles s) (requestIDs s) (targets s) (jobs s) (rest s).
Definition put_handles (h : NextId.Integer) (s : state) : state :=
  mk_state (pendingReqs s) (pendingNotifications s) h (requestIDs s) (targets s) (jobs s) (rest s).
Definition put_ids (i : NextId.Integer) (s : state) : state :=
  mk_state (pendingReqs s) (pendingNotifications s) (handles s) i (targets s) (jobs s) (rest s).
Definition put_targets (c : Target.caches) (s : state) : state :=
  mk_state (pendingReqs s) (pendingNotifications s) (handles s) (requestIDs s) c (jobs s) (rest s).
Definition put_jobs (j : gmap J Z) (s : state) : state :=
  mk_state (pendingReqs s) (pendingNotifications s) (handles s) (requestIDs s) (targets s) j (rest s).
Definition put_rest (a : A) (s : state) : state :=
  mk_state (pendingReqs s) (pendingNotifications s) (handles s) (requestIDs s) (targets s) (jobs s) a.
Definition on_ids {B} (m : M exn NextId.Integer B) : G B := zoom requestIDs put_ids m.
Definition on_targets {B} (m : M exn Target.caches B) : G B := zoom targets put_targets m.
Definition on_jobs {B} (m : M exn (gmap J Z) B) : G B := zoom jobs put_jobs m.
Definition on_rest {B} (m : M exn A B) : G B := zoom rest put_rest m.

(** [msgAndPduDsp.sendPdu], with what is kept for the response of an inform; the tables
    and the transports; [getTimerResolution]; the syntax of [sysUpTime];
    [accessControlModel[3].isAccessAllowed] for the view "notify"; the application's
    callback; [id(self)]; the option [discoveryRetries] *)
Context (dsp_sendPdu : outgoing → option (Z * (Z * follow)) → M exn (A * v1_pdu) Z)
        (lcd : A → Target.LCD) (registered : A → list oid) (timerResolution : A → Z) (upTime : A → value)
        (isAccessAllowed : Z → octets → Z → octets → oid → M exn A unit)
        (cbFun : App → Z → option errind → Z → Z → list var_bind → G unit)
        (other_address : value → result exn octets)
        (self : J) (discoveryRetries : Z).

(** A v1 peer is sent a translation. *)
Definition translated (v1 : bool) (p : pdu) : result exn v1_pdu :=
  if v1 then v2ToV1 other_address p None else Ok (V1Pdu p).
Definition hand_over (o : outgoing) (k : option (Z * (Z * follow))) (x : v1_pdu) : G (Z * v1_pdu) :=
  on_rest (λ a, let '(r, (a, x)) := dsp_sendPdu o k (a, x) in ((λ h, (h, x)) <$> r, a)).
Definition outgoing_of (p : pending) (v1 confirmed : bool) : outgoing :=
  mk_outgoing (p_transport p) (p_messageProcessingModel p) (p_securityModel p) (p_securityName p)
    (p_securityLevel p) (p_contextEngineId p) (p_contextName p) (if v1 then 0 else 1) confirmed.
Definition ticks (p : pending) (a : A) : Z := Cmdgen.timeoutInTicks (p_timeout p) (timerResolution a).
(** The PDU kept is the object the message processing model has had, unless it was translated. *)
Definition kept_pdu (v1 : bool) (p : pending) (x : v1_pdu) : pending :=
  mk_pending (p_transport p) (p_messageProcessingModel p) (p_securityModel p) (p_securityName p)
    (p_securityLevel p) (p_contextEngineId p) (p_contextName p)
    (if v1 then p_PDU p else Cmdgen.same_object (p_PDU p) x)
    (p_timeout p) (p_retryCount p) (p_retries p) (p_discoveryRetries p).
Definition keep_pending (v1 : bool) (p : pending) (hx : Z * v1_pdu) : G unit :=
  modify (λ s, put_pending (dset (pendingReqs s) hx.1 (kept_pdu v1 p hx.2)) s).

(** [sendPdu]: the handle of the request, or None for what is not confirmed *)
Definition sendPdu (targetName : octets) (contextEngineId : option octets) (contextName : octets)
    (PDU : pdu) (f : follow) : G (option Z) :=
  a ← gets rest;
  '(t, q) ← on_targets (Target.getTargetInfo (lcd a) (registered a) targetName);
  let mp := Target.tp_messageProcessingModel q in
  let v1 := mp =? 0 in
  reqPDU ← liftR (translated v1 PDU);
  let p := mk_pending (Target.ta_domain t, Target.ta_address t) mp (Target.tp_securityModel q)
             (Target.tp_securityName q) (Target.tp_securityLevel q) contextEngineId contextName PDU
             (Target.ta_timeout t) (Target.ta_retryCount t) 0 0 in
  if confirmedClassPDUs (v1_tagSet reqPDU) then
    sendRequestHandle ← zoom handles put_handles NextId.call;
    hx ← hand_over (outgoing_of p v1 true) (Some (ticks p a, (sendRequestHandle, f))) reqPDU;
    keep_pending v1 p hx;;
    on_jobs (Jobs.jobStarted self 1);;
    mret (Some sendRequestHandle)
  else
    hand_over (outgoing_of p v1 false) None reqPDU;;
    mret None.

(** [processResponseVarBinds] *)
Definition report (f : follow) (h : Z) (e : option errind) (PDU : option pdu) : G unit :=
  match app f with
  | None => raise TypeError
  | Some app =>
      match PDU with
      | None => cbFun app h e 0 0 []
      | Some p => i ← liftR (getErrorIndex p true); cbFun app h e (errorStatus p) i (varBinds p)
      end
  end.
(** [set.remove] *)
Definition set_remove (x : Z) (l : list Z) : result exn (list Z) :=
  if decide (x ∈ l) then Ok (filter (λ y, y ≠ x) l) else Err KeyError.
Definition set_add (x : Z) (l : list Z) : list Z := if decide (x ∈ l) then l else l ++ [x].
Definition processResponseVarBinds (f : follow) (sendRequestHandle : Z) (e : option errind) (PDU : option pdu) :
    G unit :=
  n ← gets pendingNotifications;
  l ← liftR (from_option_exc KeyError (dget n (notificationHandle f)));
  l ← liftR (set_remove sendRequestHandle l);
  match l with
  | [] => modify (put_notifications (ddel n (notificationHandle f)));; report f sendRequestHandle e PDU
  | _ => modify (put_notifications (dset n (notificationHandle f) l))
  end.

(** *** [processResponsePdu] *)

(** Which of the two counters a failure counts on; the other starts again. *)
Definition counted (e : errind) (p : pending) : pending :=
  let d := bool_decide (e = notInTimeWindow ∨ e = unknownEngineID) in
  mk_pending (p_transport p) (p_messageProcessingModel p) (p_securityModel p) (p_securityName p)
    (p_securityLevel p) (p_contextEngineId p) (p_contextName p) (p_PDU p) (p_timeout p)
    (p_retryCount p) (if d then 0 else p_retries p + 1) (if d then p_discoveryRetries p + 1 else 0).
Definition exhausted (p : pending) : bool :=
  (p_retryCount p <? p_retries p) || (discoveryRetries <? p_discoveryRetries p).

(** A failure: the translation asks for the model of the response, which a time-out
    does not have, and not for that of the request. *)
Definition failed (messageProcessingModel : option Z) (p : pending) (h : Z) (f : follow) (st : status) : G unit :=
  e ← liftR (Cmdgen.error_indication st);
  let p := counted e p in
  if exhausted p then processResponseVarBinds f h (Some e) None
  else
    a ← gets rest;
    let v1 := bool_decide (messageProcessingModel = Some 0) in
    reqPDU ← liftR (translated v1 (p_PDU p));
    sent ← try_except (hx ← hand_over (outgoing_of p v1 true) (Some (ticks p a, (h, f))) reqPDU; mret (Some hx))
      (λ x, match x with
            | StatusInformation st => Some
                (e ← liftR (Cmdgen.error_indication st);
                 processResponseVarBinds f h (Some e) None;; mret None)
            | _ => None
            end);
    match sent with
    | Some hx => on_jobs (Jobs.jobStarted self 1);; keep_pending v1 p hx
    | None => mret tt
    end.
(** A trap is no response: the dispatcher hands none on. *)
Definition answered (p : pending) (h : Z) (f : follow) (e : Mp.elements v1_pdu) : G unit :=
  PDU ← (if Mp.e_messageProcessingModel e =? 0
         then r ← on_ids (v1ToV2 (Mp.e_pdu e) (Some (p_PDU p)) []); mret (V1Pdu r)
         else mret (Mp.e_pdu e));
  match PDU with
  | V1Pdu r => processResponseVarBinds f h None (Some r)
  | V1Trap _ => raise (PyAsn1Error "not a response")
  end.
Definition processResponsePdu (messageProcessingModel : option Z) (cbInfo : Z * follow) (sendPduHandle : Z)
    (o : outcome) : G unit :=
  let '(sendRequestHandle, f) := cbInfo in
  (* 3.3.6d *)
  reqs ← gets pendingReqs;
  match dget reqs sendPduHandle with
  | None => raise (ProtocolError "Missing sendPduHandle")
  | Some p =>
      modify (put_pending (ddel reqs sendPduHandle));;
      on_jobs (Jobs.jobFinished self 1);;
      match o with
      | Failed st => failed messageProcessingModel p sendRequestHandle f st
      | Answered e => answered p sendRequestHandle f e
      end
  end.

(** *** [sendVarBinds] *)

(** 3.3.1: what the filters of the target's parameters say *)
Definition filtered (params : octets) (varBinds : list var_bind) : G bool :=
  a ← gets rest;
  profile ← on_targets (Target.getNotifyFilterProfile (lcd a) params);
  match profile with
  | None => mret true
  | Some profile =>
      filterEntries ← on_targets (Target.getNotifyFilter (lcd a) profile);
      liftR (passes filterEntries varBinds)
  end.
(** Every name has to be in the notify view of the target's user. *)
Fixpoint allowed (q : Target.target_params) (contextName : octets) (names : list oid) : G bool :=
  match names with
  | [] => mret true
  | n :: names =>
      ok ← try_except
        (on_rest (isAccessAllowed (Target.tp_securityModel q) (Target.tp_securityName q)
                    (Target.tp_securityLevel q) contextName n);; mret true)
        (λ e, match e with StatusInformation _ => Some (mret false) | _ => None end);
      if ok : bool then allowed q contextName names else mret false
  end.
(** Whether the target is sent the notification *)
Definition wanted (contextName : octets) (varBinds : list var_bind) (targetName : octets) : G bool :=
  a ← gets rest;
  t ← on_targets (Target.getTargetAddr (lcd a) (registered a) targetName);
  q ← on_targets (Target.getTargetParams (lcd a) (Target.ta_params t));
  ok ← filtered (Target.ta_params t) varBinds;
  if negb ok then mret false
  else
    trap ← liftR (trapOidVal varBinds);
    allowed q contextName (objectNames varBinds ++ [trap]).

(** 3.3.4 *)
Definition notification_pdu (notifyType : Z) (varBinds : list var_bind) : G pdu :=
  t ← liftR (if notifyType =? 1 then Ok SNMPv2TrapPDU
             else if notifyType =? 2 then Ok InformRequestPDU
             else Err (ProtocolError "Unknown notify-type"));
  p ← on_ids (setDefaults (new t));
  mret (setVarBinds varBinds p).

(** What becomes of a target that cannot be sent to: the rest of the targets are left *)
Definition give_over (f : follow) (st : status) : G unit :=
  n ← gets pendingNotifications;
  match dget n (notificationHandle f) with
  | Some (_ :: _) => mret tt
  | _ =>
      modify (put_notifications (ddel n (notificationHandle f)));;
      match app f with
      | Some app => e ← liftR (Cmdgen.error_indication st); cbFun app (notificationHandle f) (Some e) 0 0 []
      | None => mret tt
      end
  end.
(** 3.3.5: the handle of what was sent, unless it could not be *)
Definition send_notification (notifyType : Z) (contextEngineId : option octets) (contextName : octets)
    (varBinds : list var_bind) (f : follow) (targetName : octets) : G (option (option Z)) :=
  p ← notification_pdu notifyType varBinds;
  try_except (h ← sendPdu targetName contextEngineId contextName p f; mret (Some h))
    (λ e, match e with StatusInformation st => Some (give_over f st;; mret None) | _ => None end).
Definition keep_notification (f : follow) (h : Z) : G unit :=
  modify (λ s, put_notifications
    (dset (pendingNotifications s) (notificationHandle f)
       (set_add h (default [] (dget (pendingNotifications s) (notificationHandle f))))) s).

(** The loop over the targets: how many were sent to, or None where it gave up *)
Fixpoint send_loop (notifyType : Z) (contextEngineId : option octets) (contextName : octets)
    (varBinds : list var_bind) (f : follow) (names : list octets) (sent : nat) : G (option nat) :=
  match names with
  | [] => mret (Some sent)
  | targetName :: names =>
      ok ← wanted contextName varBinds targetName;
      if negb ok then send_loop notifyType contextEngineId contextName varBinds f names sent
      else
        h ← send_notification notifyType contextEngineId contextName varBinds f targetName;
        match h with
        | None => mret None
        | Some h =>
            match h with
            | Some h => if notifyType =? 2 then keep_notification f h else mret tt
            | None => mret tt (* of an inform there is always a handle: it is confirmed *)
            end;;
            send_loop notifyType contextEngineId contextName varBinds f names (S sent)
        end
  end.

Definition sendVarBinds (notificationTarget : octets) (contextEngineId : option octets) (contextName : octets)
    (varBinds : list var_bind) (app : option App) : G Z :=
  contextName ← liftR (Cmdgen.context_name contextName);
  a ← gets rest;
  (* 3.3 *)
  '(notifyTag, notifyType) ← on_targets (Target.getNotificationInfo (lcd a) notificationTarget);
  n ← zoom handles put_handles NextId.call;
  let f := mk_follow n app in
  (* 3.3.2 & 3.3.3 *)
  varBinds ← liftR (orderNotificationVarBinds varBinds (upTime a));
  names ← on_targets (Target.getTargetNames (lcd a) notifyTag);
  sent ← send_loop notifyType contextEngineId contextName varBinds f names 0;
  match sent, app with
  | Some O, Some app => if notifyType =? 2 then cbFun app n None 0 0 [] else mret tt
  | _, _ => mret tt
  end;;
  mret n.
End originator.
Arguments state : clear implicits.
Arguments state _ _ {_ _}.
Arguments follow : clear implicits.
End Ntforg.
