(* ===== verification/NtforgSpec.v ===== *)
(** * What the notification originator promises

    The order of the bindings, what a filter lets through, when the callback of an
    inform is told, and that the jobs of the originator are its pending requests. *)
From S2P Require Export Ntforg CmdgenSpec.
Import Dispatcher Ntforg.
#[local] Open Scope Z_scope.

Module NtforgSpec.

(** ** The order of the bindings *)

Lemma named_from_spec name i (l : list var_bind) :
  match named_from name i l with
  | Some idx => ∃ pre v post, l = pre ++ (name, v) :: post ∧ name ∉ pre.*1 ∧ idx = (i + length pre)%nat
  | None => name ∉ l.*1
  end.
Proof.
  revert i. induction l as [|[n v] l IH]; intros i; cbn [named_from]; [apply not_elem_of_nil|].
  cbn [fst]. case_decide as Hn.
  - subst. exists [], v, l. split_and!; [done|apply not_elem_of_nil|cbn; lia].
  - specialize (IH (S i)). destruct (named_from name (S i) l) as [idx|].
    + destruct IH as (pre & v' & post & -> & Hpre & ->). exists ((n, v) :: pre), v', post.
      split_and!; [done|cbn; by apply not_elem_of_cons|cbn; lia].
    + cbn. by apply not_elem_of_cons.
Qed.
Lemma del_at_middle (x : var_bind) (pre post : list var_bind) vb :
  del_at (1 + length pre) (x :: pre ++ vb :: post) = x :: pre ++ post.
Proof.
  unfold del_at. cbn [Nat.add take drop Datatypes.app]. f_equal.
  by rewrite take_app_length, <- (Nat.add_1_r (length pre)), drop_app_add.
Qed.
Lemma lookup_middle (x : var_bind) (pre post : list var_bind) vb :
  (x :: pre ++ vb :: post) !! (1 + length pre)%nat = Some vb.
Proof. change (x :: pre ++ vb :: post) with ((x :: pre) ++ vb :: post). by apply list_lookup_middle. Qed.
Lemma dget_middle (name : oid) (pre post : list var_bind) v : name ∉ pre.*1 →
  dget (pre ++ (name, v) :: post) name = Some v.
Proof.
  induction pre as [|[n w] pre IH]; intros Hn; cbn.
  - by rewrite decide_True.
  - cbn in Hn. apply not_elem_of_cons in Hn as [? ?]. rewrite decide_False by done. by apply IH.
Qed.
Definition others (name : oid) (l : list var_bind) : list var_bind := filter (λ vb, vb.1 ≠ name) l.
Lemma others_absent name l : name ∉ l.*1 → others name l = l.
Proof.
  intros Hn. apply filter_all. intros vb Hvb Heq. apply Hn. rewrite <- Heq. by apply list_elem_of_fmap_2.
Qed.

(** A name that comes up at most once *)
Definition at_most_once (name : oid) (l : list var_bind) : Prop :=
  (length (filter (λ vb, vb.1 = name) l) <= 1)%nat.
Lemma once_middle name pre v post : at_most_once name (pre ++ (name, v) :: post) →
  name ∉ pre.*1 ∧ name ∉ post.*1.
Proof.
  unfold at_most_once. rewrite filter_app, filter_cons_True, length_app by done. cbn [length]. intros Hl.
  split; intros (vb & Hn & Hvb)%list_elem_of_fmap.
  - assert (vb ∈ filter (λ w : var_bind, w.1 = name) pre) by (by apply list_elem_of_filter).
    destruct (filter _ pre); [set_solver|cbn in Hl; lia].
  - assert (vb ∈ filter (λ w : var_bind, w.1 = name) post) by (by apply list_elem_of_filter).
    destruct (filter _ post); [set_solver|cbn in Hl; lia].
Qed.
Lemma others_middle name pre v post : at_most_once name (pre ++ (name, v) :: post) →
  others name (pre ++ (name, v) :: post) = pre ++ post.
Proof.
  intros [H1 H2]%once_middle. unfold others. rewrite filter_app, filter_cons_False by (cbn; congruence).
  fold (others name pre) (others name post). by rewrite !others_absent.
Qed.

Lemma uptime_ordered up l : at_most_once sysUpTime l →
  callers_uptime (uptime_first up l) = (sysUpTime, default up (dget l sysUpTime)) :: others sysUpTime l.
Proof.
  intros Hl.
  assert (Hins : callers_uptime ((sysUpTime, up) :: l) =
    (sysUpTime, default up (dget l sysUpTime)) :: others sysUpTime l).
  { unfold callers_uptime. change (drop 1 ((sysUpTime, up) :: l)) with l. pose proof (named_from_spec sysUpTime 1 l) as Hs.
    destruct (named_from sysUpTime 1 l) as [idx|].
    - destruct Hs as (pre & v & post & -> & Hpre & ->).
      rewrite lookup_middle, dget_middle, others_middle by done.
      cbn [insert list_insert]. by rewrite del_at_middle.
    - rewrite (proj2 (dget_None _ _) Hs), others_absent by done. done. }
  unfold uptime_first. destruct l as [|[n v] l]; [done|]. cbn [fst]. case_decide as Hn; [|done].
  subst. destruct (once_middle _ [] _ _ Hl) as [_ Hno].
  unfold callers_uptime. change (drop 1 ((sysUpTime, v) :: l)) with l. pose proof (named_from_spec sysUpTime 1 l) as Hs.
  destruct (named_from sysUpTime 1 l) as [idx|].
  - destruct Hs as (pre & w & post & -> & _). destruct Hno. rewrite fmap_app. set_solver.
  - pose proof (others_middle sysUpTime [] v l Hl) as Ho. change (others sysUpTime ((sysUpTime, v) :: l) = l) in Ho. rewrite Ho.
    cbn [dget]. by rewrite decide_True.
Qed.

Lemma trap_ordered u l : at_most_once snmpTrapOID l →
  trap_second (u :: l) = match dget l snmpTrapOID with
                         | Some t => Ok (u :: (snmpTrapOID, t) :: others snmpTrapOID l)
                         | None => Err (PySnmpError "snmpTrapOID.0 required")
                         end.
Proof.
  intros Hl. unfold trap_second. change (drop 1 (u :: l)) with l.
  pose proof (named_from_spec snmpTrapOID 1 l) as Hs. destruct (named_from snmpTrapOID 1 l) as [idx|].
  - destruct Hs as (pre & v & post & -> & Hpre & ->).
    rewrite lookup_middle, del_at_middle, dget_middle, others_middle by done.
    destruct (Nat.eqb_spec (1 + length pre) 1); [|done]. by destruct pre.
  - by rewrite (proj2 (dget_None _ _) Hs).
Qed.

Lemma dget_others n n' l : n ≠ n' → dget (others n l) n' = dget l n'.
Proof.
  intros Hne. induction l as [|[m v] l IH]; [done|]. unfold others. rewrite filter_cons. cbn [fst].
  case_decide; cbn [dget]; fold (others n l); rewrite IH; [done|]. by rewrite decide_False by congruence.
Qed.
Lemma once_others n n' l : at_most_once n' l → at_most_once n' (others n l).
Proof.
  unfold at_most_once, others. intros Hl. etrans; [|exact Hl]. clear Hl.
  induction l as [|vb l IH]; [done|]. rewrite !filter_cons.
  destruct (decide (vb.1 ≠ n)); [rewrite filter_cons|]; case_decide; cbn [length]; lia.
Qed.

(** The bindings of a notification: [sysUpTime.0] of the caller, or else of the engine,
    [snmpTrapOID.0], which the caller has to give, and the others as they come. *)
Theorem notification_is_ordered upTime varBinds :
  at_most_once sysUpTime varBinds → at_most_once snmpTrapOID varBinds →
  orderNotificationVarBinds varBinds upTime =
    match dget varBinds snmpTrapOID with
    | Some t => Ok ((sysUpTime, default upTime (dget varBinds sysUpTime)) :: (snmpTrapOID, t) ::
                    filter (λ vb, vb.1 ≠ snmpTrapOID) (filter (λ vb, vb.1 ≠ sysUpTime) varBinds))
    | None => Err (PySnmpError "snmpTrapOID.0 required")
    end.
Proof.
  intros Hu Ht. unfold orderNotificationVarBinds. rewrite uptime_ordered by done.
  rewrite trap_ordered by by apply once_others. by rewrite dget_others.
Qed.
Definition demo_binds : list var_bind :=
  [([1; 3; 6; 1; 2; 1; 2; 2; 1; 8; 4], VInteger 2); (snmpTrapOID, VOid [1; 3; 6; 1; 6; 3; 1; 1; 5; 3]);
   (sysUpTime, VTimeTicks 77); ([1; 3; 6; 1; 2; 1; 2; 2; 1; 1; 4], VInteger 4)].
Lemma notification_is_ordered_witness :
  at_most_once sysUpTime demo_binds ∧ at_most_once snmpTrapOID demo_binds ∧
  orderNotificationVarBinds demo_binds (VTimeTicks 5) =
    Ok [(sysUpTime, VTimeTicks 77); (snmpTrapOID, VOid [1; 3; 6; 1; 6; 3; 1; 1; 5; 3]);
        ([1; 3; 6; 1; 2; 1; 2; 2; 1; 8; 4], VInteger 2); ([1; 3; 6; 1; 2; 1; 2; 2; 1; 1; 4], VInteger 4)].
Proof.
  assert (Hu : at_most_once sysUpTime demo_binds) by (apply Nat.leb_le; reflexivity).
  assert (Ht : at_most_once snmpTrapOID demo_binds) by (apply Nat.leb_le; reflexivity).
  split; [exact Hu|]. split; [exact Ht|].
  rewrite (notification_is_ordered (VTimeTicks 5) demo_binds Hu Ht). reflexivity.
Defined.

(** ** Filters *)

Abbreviation entry := Target.filter_entry.
Definition f_subtree (f : entry) : oid := f.1.1.
Definition f_covers (f : entry) (name : oid) : Prop := Vacm.covers f.1.1 f.1.2 name.
Definition f_key (f : entry) : list Z := Z.of_nat (length (f_subtree f)) :: f_subtree f.
(** Longest subtree first, then the greatest *)
Definition decided (name : oid) (fs : list entry) (r : option bool) : Prop :=
  (r = None ∧ ∀ f, f ∈ fs → ¬ f_covers f name) ∨
  (∃ f, f ∈ fs ∧ f_covers f name ∧ r = Some (f.2 =? 1) ∧
    ∀ f', f' ∈ fs → f_covers f' name → tuple_leb (f_key f') (f_key f) = true).

Lemma match_loop_app l1 l2 name r :
  match_loop (l1 ++ l2) name r = match_loop l1 name r ≫= match_loop l2 name.
Proof.
  revert r. induction l1 as [|[o [[s ig] inc]] l1 IH]; intros r; [done|]. cbn [Datatypes.app match_loop].
  destruct (_ <? _)%nat; [apply IH|]. munfold. destruct (Vacm.zero_at ig name); [|done]. apply IH.
Qed.
Lemma match_one (f : entry) name r :
  ∃ r', match_loop [prepare f] name r = Ok r' ∧
    ((f_covers f name ∧ r' = Some (f.2 =? 1)) ∨ (¬ f_covers f name ∧ r' = r)).
Proof.
  destruct f as [[s m] t]. unfold prepare, f_covers. cbn [fst snd].
  cbn [fst snd]. unfold Vacm.family_of at 1. cbn [match_loop].
  destruct (Nat.ltb_spec (length name) (length s)) as [Hl|Hl].
  - exists r. split; [done|]. right. split; [|done]. unfold Vacm.covers. lia.
  - destruct (Vacm.family_covers s m t name) as (z & Hz & Hc).
    { intros i [Hi _]%Vacm.elem_of_ignored. lia. }
    munfold. rewrite Hz.
    change (foldl (λ p i, <[i:=0]> p) s (Vacm.ignoredSubOids m s)) with (Vacm.family_of s m t).1.1.
    destruct (Vacm.isPrefixOf (Vacm.family_of s m t).1.1 z); eexists; (split; [done|]).
    + left. split; [by apply Hc|done].
    + right. split; [by intros ?%Hc|done].
Qed.

Lemma match_sorted name (fs : list entry) :
  StronglySorted (λ f f', tuple_leb (f_key f) (f_key f') = true) fs →
  ∃ r, match_loop (prepare <$> fs) name None = Ok r ∧ decided name fs r.
Proof.
  induction fs as [|f fs IH] using rev_ind; intros Hs.
  { exists None. split; [done|]. left. split; [done|]. intros f Hf. by apply elem_of_nil in Hf. }
  apply StronglySorted_app in Hs as (Hlast & Hs & _).
  destruct (IH Hs) as (r & Hr & Hd). rewrite fmap_app, match_loop_app, Hr.
  destruct (match_one f name r) as (r' & Hr' & Hf). exists r'. split; [exact Hr'|].
  destruct Hf as [[Hc ->]|[Hnc ->]].
  - right. exists f. split_and!; [set_solver|done|done|]. intros f' [Hf'|Hf'%list_elem_of_singleton]%elem_of_app _.
    + apply Hlast; [done|set_solver].
    + subst. apply leb_refl.
  - destruct Hd as [[-> Hno]|(g & Hg & Hcg & -> & Hmax)].
    + left. split; [done|]. intros f' [Hf'|Hf'%list_elem_of_singleton]%elem_of_app; [auto|by subst].
    + right. exists g. split_and!; [set_solver|done|done|].
      intros f' [Hf'|Hf'%list_elem_of_singleton]%elem_of_app Hcf'; [auto|by subst].
Qed.

(** A filter never raises, and decides of a name as the longest of the entries that
    cover it says, ties going to the greatest subtree; a name that no entry covers is
    undecided. *)
Theorem filter_is_longest_match filterEntries name :
  ∃ r, matchFilter filterEntries name = Ok r ∧ decided name filterEntries r.
Proof.
  unfold matchFilter, matchPreparedFilter, prepareFilterEntries. rewrite sorted_by_fmap.
  set (sorted := sorted_by tuple_leb (λ f, prepared_key (prepare f)) filterEntries).
  assert (Hp : sorted ≡ₚ filterEntries) by apply sorted_by_perm.
  destruct (match_sorted name sorted) as (r & Hr & Hd).
  { exact (sorted_by_sorted tuple_leb f_key filterEntries). }
  exists r. split; [done|]. destruct Hd as [[-> Hno]|(f & Hf & Hc & -> & Hmax)].
  - left. split; [done|]. intros f Hf. apply Hno. by rewrite Hp.
  - right. exists f. rewrite Hp in Hf. split_and!; [done|done|done|].
    intros f' Hf'. apply Hmax. by rewrite Hp.
Qed.

(** The entries of a filter as they are mistaken for each other: a link's own row is
    let through, other rows are not. *)
Definition demo_filter : list entry :=
  [([1; 3; 6; 1; 2; 1; 2; 2; 1; 0; 4], [255; 160], 1); ([1; 3; 6; 1; 2; 1; 2], [], 2); ([1; 3; 6], [], 1)].
Example filter_demo :
  matchFilter demo_filter [1; 3; 6; 1; 2; 1; 2; 2; 1; 8; 4] = Ok (Some true) ∧
  matchFilter demo_filter [1; 3; 6; 1; 2; 1; 2; 2; 1; 8; 5] = Ok (Some false) ∧
  matchFilter demo_filter [1; 3] = Ok None.
Proof. vm_compute. done. Qed.

(** ** When an inform is complete *)
Section originator.
Context {App A J : Type} `{Countable J}.
Abbreviation state := (Ntforg.state A J).
Abbreviation G := (M exn state).
Context (cbFun : App → Z → option errind → Z → Z → list var_bind → G unit).
Implicit Types (s : state) (f : follow App).
Abbreviation processResponseVarBinds := (Ntforg.processResponseVarBinds cbFun).
Abbreviation report := (Ntforg.report cbFun).

(** What happens while a notification is pending: a target of it has answered or
    failed for good, or anything else *)
Inductive action : Type :=
  | Reply (h : Z) (e : option errind) (p : option pdu)
  | Other (m : G unit).
Definition act f (x : action) : G unit :=
  match x with Reply h e p => processResponseVarBinds f h e p | Other m => m end.
Definition run f (xs : list action) s : state := foldl (λ s x, (act f x s).2) s xs.
Definition replies (xs : list action) : list Z :=
  omap (λ x, match x with Reply h _ _ => Some h | Other _ => None end) xs.
(** What is pending for [f] is left alone. *)
Definition apart f (x : action) : Prop :=
  match x with
  | Reply _ _ _ => True
  | Other m => ∀ s, dget (pendingNotifications (m s).2) (notificationHandle f) =
                    dget (pendingNotifications s) (notificationHandle f)
  end.

Lemma remove_spec h l rest : NoDup l → h :: rest ≡ₚ l →
  ∃ l', set_remove h l = Ok l' ∧ l' ≡ₚ rest.
Proof.
  intros Hd Hp. unfold set_remove. rewrite decide_True by (rewrite <- Hp; left).
  eexists. split; [done|]. rewrite <- Hp, filter_cons_False by tauto.
  rewrite <- Hp in Hd. apply NoDup_cons in Hd as [Hh _].
  rewrite filter_all; [done|]. intros x Hx ->. done.
Qed.
Lemma reply_spec f h e p s l rest : dget (pendingNotifications s) (notificationHandle f) = Some l →
  NoDup l → h :: rest ≡ₚ l →
  ∃ l', l' ≡ₚ rest ∧ processResponseVarBinds f h e p s =
    match l' with
    | [] => report f h e p (put_notifications (ddel (pendingNotifications s) (notificationHandle f)) s)
    | _ => (Ok tt, put_notifications (dset (pendingNotifications s) (notificationHandle f) l') s)
    end.
Proof.
  intros Hl Hd Hp. destruct (remove_spec h l rest Hd Hp) as (l' & Hr & Hp').
  exists l'. split; [done|]. unfold Ntforg.processResponseVarBinds, mbind, M_bind, gets. cbn beta iota.
  rewrite Hl. cbn [from_option_exc]. unfold liftR. rewrite Hr. by destruct l'.
Qed.

Lemma run_spec f xs rest s l : dget (pendingNotifications s) (notificationHandle f) = Some l →
  NoDup l → replies xs ++ rest ≡ₚ l → rest ≠ [] → Forall (apart f) xs →
  ∃ l', dget (pendingNotifications (run f xs s)) (notificationHandle f) = Some l' ∧ l' ≡ₚ rest.
Proof.
  intros Hl Hd Hp Hne Hxs. revert s l Hl Hd Hp. induction Hxs as [|x xs Hx Hxs IH]; intros s l Hl Hd Hp.
  { exists l. by split. }
  cbn [run foldl]. destruct x as [h e p|m].
  - destruct (reply_spec f h e p s l (replies xs ++ rest) Hl Hd Hp) as (l' & Hp' & Hact).
    assert (Hl' : l' ≠ []).
    { intros ->. apply Permutation_nil in Hp'. by destruct (replies xs), rest. }
    assert (Hact' : act f (Reply h e p) s =
      (Ok tt, put_notifications (dset (pendingNotifications s) (notificationHandle f) l') s)).
    { cbn [act]. rewrite Hact. by destruct l'. }
    rewrite Hact'. apply (IH _ l').
    + cbn. by rewrite dget_dset_eq.
    + assert (Hd2 : NoDup (h :: l')) by (rewrite Hp'; by rewrite Hp). by apply NoDup_cons in Hd2 as [_ ?].
    + by rewrite Hp'.
  - eapply (IH _ l); [|done|exact Hp]. cbn [act]. by rewrite Hx.
Qed.

(** C28. However the answers of the targets of an inform come in, and whatever else happens
    meanwhile, its callback is told once: not by the answers before the last, which only
    count down, and by the last, whose result it gets, when the notification is no
    longer pending. *)
Theorem inform_completes_once f xs h e p s l :
  dget (pendingNotifications s) (notificationHandle f) = Some l → NoDup l →
  replies xs ++ [h] ≡ₚ l → Forall (apart f) xs →
  (∀ xs1 h1 e1 p1 xs2, xs = xs1 ++ Reply h1 e1 p1 :: xs2 → let s1 := run f xs1 s in
     ∃ l1, h1 ∉ l1 ∧ h ∈ l1 ∧ act f (Reply h1 e1 p1) s1 =
       (Ok tt, put_notifications (dset (pendingNotifications s1) (notificationHandle f) l1) s1)) ∧
  let s' := run f xs s in
  act f (Reply h e p) s' =
    report f h e p (put_notifications (ddel (pendingNotifications s') (notificationHandle f)) s').
Proof.
  intros Hl Hd Hp Hxs. split.
  - intros xs1 h1 e1 p1 xs2 -> s1. apply Forall_app in Hxs as [Hxs1 _].
    unfold replies in Hp. rewrite omap_app in Hp. cbn [omap list_omap] in Hp.
    fold (replies xs1) (replies xs2) in Hp. rewrite <- app_assoc in Hp.
    destruct (run_spec f xs1 ((h1 :: replies xs2) ++ [h]) s l Hl Hd Hp) as (l' & Hl' & Hp'); [done|done|].
    assert (Hd' : NoDup l').
    { rewrite Hp'. rewrite <- Hp in Hd. by apply NoDup_app in Hd as (_ & _ & ?). }
    destruct (reply_spec f h1 e1 p1 _ l' (replies xs2 ++ [h]) Hl' Hd' (symmetry Hp')) as (l1 & Hp1 & Hact).
    exists l1. split_and!.
    + rewrite Hp1. rewrite Hp' in Hd'. by apply NoDup_cons in Hd' as [? _].
    + rewrite Hp1. set_solver.
    + cbn [act]. fold s1 in Hact. rewrite Hact. destruct l1; [|done].
      apply Permutation_nil in Hp1. by destruct (replies xs2).
  - intros s'. destruct (run_spec f xs [h] s l Hl Hd Hp) as (l' & Hl' & Hp'); [done|done|].
    destruct (reply_spec f h e p s' l' [] Hl') as (l2 & Hp2 & Hact);
      [rewrite Hp'; apply NoDup_singleton|by rewrite Hp'|].
    cbn [act]. rewrite Hact. symmetry in Hp2; apply Permutation_nil in Hp2. by subst.
Qed.
End originator.

(** ** What is pending of a notification *)

Lemma calls_snoc k g ids g' v g'' : NextId.calls k g = (Ok ids, g') → NextId.call g' = (Ok v, g'') →
  NextId.calls (S k) g = (Ok (ids ++ [v]), g'').
Proof.
  revert g ids. induction k as [|k IH]; intros g ids Hk Hv.
  { injection Hk as <- <-. cbn [NextId.calls]. unfold mbind, M_bind. by rewrite Hv. }
  cbn [NextId.calls] in Hk. unfold mbind at 1, M_bind at 1 in Hk.
  destruct (NextId.call g) as [[w|] g1] eqn:Hw; [|done].
  unfold mbind, M_bind in Hk. destruct (NextId.calls k g1) as [[ws|] g2] eqn:Hws; [|done].
  injection Hk as <- <-. change (NextId.calls (S (S k)) g) with
    ((v ← NextId.call; vs ← NextId.calls (S k); mret (v :: vs)) g).
  unfold mbind, M_bind. rewrite Hw. by rewrite (IH _ _ Hws Hv).
Qed.

Section pending.
Context {App A J : Type} `{Countable J}.
Abbreviation state := (Ntforg.state A J).
Abbreviation G := (M exn state).
Context (dsp_sendPdu : outgoing → option (Z * (Z * follow App)) → M exn (A * v1_pdu) Z)
        (lcd : A → Target.LCD) (registered : A → list oid) (timerResolution : A → Z) (upTime : A → value)
        (isAccessAllowed : Z → octets → Z → octets → oid → M exn A unit)
        (cbFun : App → Z → option errind → Z → Z → list var_bind → G unit)
        (other_address : value → result exn octets) (self : J).
Implicit Types (s : state) (f : follow App).

(** What the dispatcher keeps to call back with *)
Context (out : A → list (Z * follow App)).
Class dispatcher_keeps : Prop := {
  sendPdu_keeps o k a x :
    match dsp_sendPdu o k (a, x) with
    | (Ok _, (a', _)) => out a' = out a ++ match k with Some (_, c) => [c] | None => [] end
    | (Err _, (a', _)) => out a' = out a
    end;
  isAccessAllowed_keeps m n l c o a : out (isAccessAllowed m n l c o a).2 = out a;
}.
Context `{!dispatcher_keeps}.

(** A call that sends nothing, keeps nothing and takes no handle *)
Definition leaves {B} (m : G B) : Prop := ∀ s,
  pendingNotifications (m s).2 = pendingNotifications s ∧ handles (m s).2 = handles s ∧
  out (rest (m s).2) = out (rest s).
Lemma leaves_bind {B D} (m : G B) (k : B → G D) : leaves m → (∀ b, leaves (k b)) → leaves (m ≫= k).
Proof.
  intros Hm Hk s. unfold mbind, M_bind. destruct (Hm s) as (E1 & E2 & E3).
  destruct (m s) as [[b|e] s1]; [|done]. cbn in *. destruct (Hk b s1) as (F1 & F2 & F3). split_and!; congruence.
Qed.
Lemma leaves_try {B} (m : G B) handler : leaves m → (∀ e k, handler e = Some k → leaves k) →
  leaves (try_except m handler).
Proof.
  intros Hm Hh s. unfold try_except. destruct (Hm s) as (E1 & E2 & E3).
  destruct (m s) as [[b|e] s1]; [done|]. cbn in *. destruct (handler e) as [k|] eqn:Hk; [|done].
  destruct (Hh e k Hk s1) as (F1 & F2 & F3). split_and!; congruence.
Qed.
Lemma leaves_ret {B} (b : B) : leaves (mret b).
Proof. by intros s. Qed.
Lemma leaves_gets {B} (g : state → B) : leaves (gets g).
Proof. by intros s. Qed.
Lemma leaves_liftR {B} (r : result exn B) : leaves (liftR r).
Proof. by intros s. Qed.
Lemma leaves_ids {B} (m : M exn NextId.Integer B) : leaves (on_ids m).
Proof. intros s. unfold on_ids, zoom. by destruct (m (requestIDs s)). Qed.
Lemma leaves_targets {B} (m : M exn Target.caches B) : leaves (on_targets m).
Proof. intros s. unfold on_targets, zoom. by destruct (m (targets s)). Qed.
Lemma leaves_access m n l c o : leaves (on_rest (isAccessAllowed m n l c o)).
Proof.
  intros s. unfold on_rest, zoom. pose proof (isAccessAllowed_keeps m n l c o (rest s)) as Hk.
  destruct (isAccessAllowed m n l c o (rest s)). cbn in *. done.
Qed.
#[local] Hint Resolve leaves_ret leaves_gets leaves_liftR leaves_ids leaves_targets leaves_access : leaves.

Lemma leaves_wanted n l t : leaves (wanted lcd registered isAccessAllowed n l t).
Proof.
  unfold wanted. do 3 (apply leaves_bind; [auto with leaves|]; intros ?).
  apply leaves_bind.
  { unfold filtered. do 2 (apply leaves_bind; [auto with leaves|]; intros ?).
    destruct b3; [apply leaves_bind|]; auto with leaves. }
  intros ok. destruct (negb ok); [auto with leaves|]. apply leaves_bind; [auto with leaves|]. intros trap.
  generalize (objectNames l ++ [trap]). intros names. induction names as [|x names IH]; cbn [allowed].
  - auto with leaves.
  - apply leaves_bind; [|intros [|]; auto with leaves].
    apply leaves_try; [apply leaves_bind; auto with leaves|].
    intros e k. destruct e; try done. intros [= <-]. auto with leaves.
Qed.
Lemma leaves_pdu t l : leaves (notification_pdu t l).
Proof. unfold notification_pdu. repeat (apply leaves_bind; [auto with leaves|]; intros ?). auto with leaves. Qed.

(** What [translated] makes of a notification *)
Lemma translated_inform v1 p x : pduType p = InformRequestPDU → translated other_address v1 p = Ok x →
  confirmedClassPDUs (v1_tagSet x) = true.
Proof.
  intros Hp. unfold translated. destruct v1.
  - unfold v2ToV1. rewrite Hp. done.
  - intros [= <-]. cbn [v1_tagSet]. by rewrite Hp.
Qed.
Lemma translated_trap v1 p x : pduType p = SNMPv2TrapPDU → translated other_address v1 p = Ok x →
  confirmedClassPDUs (v1_tagSet x) = false.
Proof.
  intros Hp. unfold translated. destruct v1.
  - unfold v2ToV1. rewrite Hp. cbn [dget]. change (notificationClassPDUs SNMPv2TrapPDU) with true.
    unfold v2ToV1PduMap. cbn [dget decide]. unfold v2ToV1_trap.
    destruct (varBinds p) as [|[n up] [|[m t] l]]; [done..|].
    destruct (negb _); [done|]. munfold. repeat (case_step; try done); by intros [= <-].
  - intros [= <-]. cbn [v1_tagSet]. by rewrite Hp.
Qed.

Abbreviation sendPdu := (Ntforg.sendPdu dsp_sendPdu lcd registered timerResolution other_address self).

(** The effect of handing over, on what is kept *)
Lemma hand_over_spec o k x s :
  wp (hand_over dsp_sendPdu o k x) (λ r s',
    pendingNotifications s' = pendingNotifications s ∧ handles s' = handles s ∧
    out (rest s') = out (rest s) ++
      match r, k with Ok _, Some (_, c) => [c] | _, _ => [] end) s.
Proof.
  unfold wp, hand_over, on_rest, zoom. pose proof (sendPdu_keeps o k (rest s) x) as Hk.
  destruct (dsp_sendPdu o k (rest s, x)) as [[h|e] [a y]]; cbn; rewrite Hk; [done|].
  by rewrite app_nil_r.
Qed.
Lemma leaves_wp {B} (m : G B) (Q : result exn B → state → Prop) s : leaves m →
  (∀ r s', pendingNotifications s' = pendingNotifications s → handles s' = handles s →
     out (rest s') = out (rest s) → Q r s') → wp m Q s.
Proof. intros Hm HQ. destruct (Hm s) as (E1 & E2 & E3). by apply HQ. Qed.

Definition one_sent (f : follow App) s (r : result exn (option Z)) s' : Prop :=
  pendingNotifications s' = pendingNotifications s ∧
  match r with
  | Ok (Some h) => NextId.call (handles s) = (Ok h, handles s') ∧ out (rest s') = out (rest s) ++ [(h, f)]
  | Ok None => handles s' = handles s ∧ out (rest s') = out (rest s)
  | Err _ => out (rest s') = out (rest s) ∧
      (handles s' = handles s ∨ ∃ v, NextId.call (handles s) = (Ok v, handles s'))
  end.
Lemma sendPdu_spec t e c p f s (inform : bool) : NextId.wf (handles s) →
  pduType p = (if inform then InformRequestPDU else SNMPv2TrapPDU) →
  wp (sendPdu t e c p f) (λ r s', one_sent f s r s' ∧
    match r with Ok h => inform = bool_decide (h ≠ None) | Err _ => True end) s.
Proof.
  intros Hwf Hp. unfold Ntforg.sendPdu.
  apply wp_bind, leaves_wp; [auto with leaves|]. intros [a|x] s1 N1 H1 O1; [|unfold one_sent; rewrite N1, O1; auto].
  apply wp_bind, leaves_wp; [auto with leaves|].
  intros [[t' q]|x] s2 N2 H2 O2; [|unfold one_sent; rewrite N2, O2, H2; auto].
  apply wp_bind, wp_liftR. set (v1 := _ =? 0).
  destruct (translated other_address v1 p) as [x|] eqn:Hx; [|unfold one_sent; rewrite N2, O2, H2; auto].
  destruct inform.
  - rewrite (translated_inform _ _ _ Hp Hx). apply wp_bind. unfold wp at 1, zoom.
    destruct (NextId.wf_supply _ Hwf) as (v & bk & Hbk & _).
    destruct (NextId.call_spec _ v bk Hwf Hbk) as (g & Hg & _).
    rewrite H2, H1, Hg. cbn [fst snd].
    apply wp_bind. eapply wp_mono; [apply hand_over_spec|]. cbn beta.
    intros r s3 (N3 & H3 & O3). unfold put_handles in N3, H3, O3. cbn [pendingNotifications handles rest] in N3, H3, O3.
    destruct r as [hx|x']; unfold one_sent.
    + unfold keep_pending, on_jobs. wp_steps. unfold wp, Jobs.jobStarted, modify, mret, M_ret.
      cbn [pendingNotifications handles rest put_pending put_jobs fst snd modify].
      rewrite N3, H3, O3, N2, O2, N1, O1. rewrite bool_decide_eq_true_2 by done. done.
    + rewrite N3, H3, O3, app_nil_r. split; [|done]. split; [congruence|]. split; [congruence|]. right. by exists v.
  - rewrite (translated_trap _ _ _ Hp Hx). apply wp_bind.
    eapply wp_mono; [apply hand_over_spec|]. cbn beta. intros r s3 (N3 & H3 & O3).
    destruct r as [hx|x']; [apply wp_ret|]; unfold one_sent; rewrite N3, H3, O3, app_nil_r;
      (split; [split_and!|]); try congruence; auto. left. congruence.
Qed.

Section notification.
Context (Hquiet : ∀ a h e i j l, leaves (cbFun a h e i j l)).
Context (f : follow App) (g0 : NextId.Integer) (out0 : list (Z * follow App)).
Context (Hwf0 : NextId.wf g0).

Lemma ids_spec ids g : Z.of_nat (length ids) <= NextId.maximum g0 + 1 →
  NextId.calls (length ids) g0 = (Ok ids, g) → NoDup ids ∧ NextId.wf g.
Proof using Hwf0.
  intros Hl Hc. destruct (NextId.calls_spec (length ids) g0 Hwf0) as (vs & g' & Hc' & Hg & _ & _ & Hch & Hall & _).
  rewrite Hc in Hc'. simplify_eq. split; [|done]. eapply NextId.chain_NoDup; [exact Hch| |lia].
  eapply Forall_impl; [exact Hall|]. cbn. lia.
Qed.

(** After at most [m] targets: what went out for the notification is what is pending *)
Record sent_so_far (hs : list Z) (m : nat) s : Prop := {
  ss_out : out (rest s) = out0 ++ ((λ h, (h, f)) <$> hs);
  ss_kept : dget (pendingNotifications s) (notificationHandle f) = match hs with [] => None | _ => Some hs end;
  ss_ids : ∃ ids, NextId.calls (length ids) g0 = (Ok ids, handles s) ∧ hs `sublist_of` ids ∧ (length ids <= m)%nat;
}.
Lemma ss_leaves hs m s s' : pendingNotifications s' = pendingNotifications s → handles s' = handles s →
  out (rest s') = out (rest s) → sent_so_far hs m s → sent_so_far hs m s'.
Proof. intros E1 E2 E3 [H1 H2 H3]. split; rewrite ?E1, ?E2, ?E3; done. Qed.
Lemma ss_mono hs m m' s : (m <= m')%nat → sent_so_far hs m s → sent_so_far hs m' s.
Proof. intros Hm [H1 H2 (ids & ? & ? & ?)]. split; [done..|]. exists ids. split_and!; [done..|lia]. Qed.
Lemma ss_wf hs m s : Z.of_nat m <= NextId.maximum g0 + 1 → sent_so_far hs m s → NoDup hs ∧ NextId.wf (handles s).
Proof using Hwf0.
  intros Hm [_ _ (ids & Hc & Hsub & Hl)]. destruct (ids_spec ids (handles s)) as [Hd Hg]; [lia|done|].
  split; [by eapply sublist_NoDup|done].
Qed.
Lemma give_up_spec hs m s st : sent_so_far hs m s →
  wp (give_over cbFun f st) (λ _ s', sent_so_far hs m s') s.
Proof using Hquiet.
  intros Hs. unfold give_over. apply wp_bind, wp_gets. rewrite (ss_kept _ _ _ Hs). destruct hs as [|h hs].
  - rewrite ddel_absent by apply (ss_kept _ _ _ Hs). apply wp_bind, wp_modify.
    assert (Hs' : sent_so_far [] m (put_notifications (pendingNotifications s) s))
      by (eapply ss_leaves; [..|exact Hs]; done).
    destruct (app f) as [a|]; [|by apply wp_ret]. apply wp_bind, wp_liftR.
    destruct (Cmdgen.error_indication st); [|done]. apply leaves_wp; [apply Hquiet|].
    intros r s' E1 E2 E3. by apply (ss_leaves _ _ _ _ E1 E2 E3).
  - by apply wp_ret.
Qed.

Abbreviation send_loop := (Ntforg.send_loop dsp_sendPdu lcd registered timerResolution isAccessAllowed cbFun
  other_address self).

(** The PDU of a notification *)
Lemma notification_pdu_type t l s :
  wp (notification_pdu t l) (λ r _, match r with
    | Ok p => (t = 1 ∧ pduType p = SNMPv2TrapPDU) ∨ (t = 2 ∧ pduType p = InformRequestPDU) | Err _ => True end) s.
Proof.
  unfold notification_pdu. apply wp_bind, wp_liftR.
  destruct (Z.eqb_spec t 1); [|destruct (Z.eqb_spec t 2); [|done]]; apply wp_bind;
    unfold wp, on_ids, zoom, setDefaults, mbind, M_bind; destruct (NextId.call (requestIDs s)) as [[i|] g]; cbn; auto.
Qed.

(** One target: what goes out for it is then pending *)
Lemma one_target t e c l name hs m s : Z.of_nat m <= NextId.maximum g0 → sent_so_far hs m s →
  wp (h ← send_notification dsp_sendPdu lcd registered timerResolution cbFun other_address self t e c l f name;
      match h with
      | None => mret false
      | Some h => match h with
                  | Some h => if t =? 2 then keep_notification f h else mret tt
                  | None => mret tt
                  end;; mret true
      end) (λ _ s', ∃ hs', sent_so_far hs' (S m) s') s.
Proof using Type*.
  intros Hm Hs. destruct (ss_wf hs m s) as [Hd Hwf]; [lia|done|].
  apply wp_bind. unfold send_notification. apply wp_bind.
  pose proof (notification_pdu_type t l s) as Hty. revert Hty. unfold wp at 1.
  destruct (leaves_pdu t l s) as (E1 & E2 & E3). unfold wp at 1.
  destruct (notification_pdu t l s) as [[p|x] s1]; cbn [fst snd] in *; intros Hty.
  2:{ exists hs. eapply ss_mono, ss_leaves; [|exact E1|exact E2|exact E3|exact Hs]. lia. }
  assert (Hs1 : sent_so_far hs m s1) by by apply (ss_leaves _ _ _ _ E1 E2 E3).
  assert (Hp : pduType p = if t =? 2 then InformRequestPDU else SNMPv2TrapPDU) by (destruct Hty as [[-> ?]|[-> ?]]; done).
  apply wp_try, wp_bind. eapply wp_mono; [apply (sendPdu_spec _ _ _ p f s1 (t =? 2)); [by rewrite E2|done]|].
  intros [o|x] s2 [[N2 Hone] Hinf].
  - apply wp_ret. destruct o as [h|].
    + rewrite Hinf, bool_decide_eq_true_2 by done. destruct Hone as [Hcall Ho].
      destruct Hs1 as [Ho1 Hk1 (ids & Hids & Hsub & Hlen)].
      assert (Hids' : NextId.calls (length (ids ++ [h])) g0 = (Ok (ids ++ [h]), handles s2)).
      { rewrite length_app, Nat.add_1_r. by eapply calls_snoc. }
      assert (Hh : h ∉ hs).
      { destruct (ids_spec (ids ++ [h]) (handles s2)) as [Hd' _]; [rewrite length_app; cbn; lia|exact Hids'|].
        apply NoDup_app in Hd' as (_ & Hno & _). intros Hin. eapply (Hno h); [|left].
        eapply elem_of_sublist; done. }
      unfold keep_notification. wp_steps. exists (hs ++ [h]). split; cbn [rest pendingNotifications put_notifications handles].
      * rewrite Ho, Ho1, fmap_app, <- app_assoc. done.
      * rewrite dget_dset_eq, N2, Hk1. destruct hs as [|h0 hs]; [done|]. cbn [default].
        unfold set_add. rewrite decide_False by done. done.
      * exists (ids ++ [h]). split_and!; [done|by apply sublist_app|rewrite length_app; cbn; lia].
    + destruct Hone as [H2 O2]. wp_steps. exists hs.
      eapply ss_mono, ss_leaves; [|exact N2|exact H2|exact O2|exact Hs1]. lia.
  - destruct Hone as [O2 H2].
    assert (Hs2 : sent_so_far hs (S m) s2).
    { destruct Hs1 as [Ho1 Hk1 (ids & Hids & Hsub & Hlen)]. split; [congruence|congruence|].
      destruct H2 as [H2|[v Hv]].
      - exists ids. rewrite H2. split_and!; [done..|lia].
      - exists (ids ++ [v]). split_and!; [|by apply sublist_inserts_r|rewrite length_app; cbn; lia].
        rewrite length_app, Nat.add_1_r. by eapply calls_snoc. }
    destruct x; try (exists hs; exact Hs2). apply wp_bind. eapply wp_mono; [by apply give_up_spec|].
    intros [[]|x] s3 Hs3; [wp_steps|]; by exists hs.
Qed.

Lemma send_loop_spec t e c l names sent hs m s :
  Z.of_nat (m + length names) <= NextId.maximum g0 + 1 → sent_so_far hs m s →
  wp (send_loop t e c l f names sent) (λ _ s', ∃ hs', sent_so_far hs' (m + length names) s') s.
Proof using Type*.
  revert sent hs m s. induction names as [|name names IH]; intros sent hs m s Hm Hs; cbn [Ntforg.send_loop length].
  { apply wp_ret. exists hs. by rewrite Nat.add_0_r. }
  cbn [length] in Hm. rewrite Nat.add_succ_r in Hm |- *.
  assert (Hnext : ∀ sent hs s, sent_so_far hs (S m) s →
    wp (send_loop t e c l f names sent) (λ _ s', ∃ hs', sent_so_far hs' (S (m + length names)) s') s).
  { intros sent' hs' s' Hs'. apply (IH sent' hs' (S m) s'); [lia|done]. }
  assert (Hstop : ∀ hs s, sent_so_far hs (S m) s → ∃ hs', sent_so_far hs' (S (m + length names)) s).
  { intros hs' s' Hs'. exists hs'. eapply ss_mono; [|exact Hs']. lia. }
  apply wp_bind, leaves_wp; [apply leaves_wanted|]. intros r s1 E1 E2 E3.
  pose proof (ss_leaves _ _ _ _ E1 E2 E3 Hs) as Hs1.
  assert (Hs1' : sent_so_far hs (S m) s1) by (eapply ss_mono; [|exact Hs1]; lia).
  destruct r as [[|]|x]; cbn [negb]; [|by eapply Hnext|by eapply Hstop].
  pose proof (one_target t e c l name hs m s1 ltac:(lia) Hs1) as Hone.
  unfold wp, mbind, M_bind in Hone |- *.
  destruct (send_notification _ _ _ _ _ _ _ t e c l f name s1) as [[[o|]|x] s2]; cbn [fst snd] in Hone |- *;
    try (destruct Hone as [hs' Hs']; by eapply Hstop).
  destruct (match o with Some h => if t =? 2 then keep_notification f h else mret tt | None => mret tt end s2)
    as [[[]|x] s3]; cbn [fst snd] in Hone |- *; destruct Hone as [hs' Hs']; [by eapply Hnext|by eapply Hstop].
Qed.

(** What went out for the notification is what is pending. *)
Definition accounted s : Prop := ∃ hs, NoDup hs ∧ out (rest s) = out0 ++ ((λ h, (h, f)) <$> hs) ∧
  dget (pendingNotifications s) (notificationHandle f) = match hs with [] => None | _ => Some hs end.
Lemma ss_accounted hs m s : Z.of_nat m <= NextId.maximum g0 + 1 → sent_so_far hs m s → accounted s.
Proof using Hwf0. intros Hm Hs. destruct (ss_wf hs m s Hm Hs) as [Hd _]. exists hs. by destruct Hs. Qed.
Lemma nothing_accounted s : dget (pendingNotifications s) (notificationHandle f) = None → out (rest s) = out0 → accounted s.
Proof. intros Hp Ho. exists []. split_and!; [constructor|by rewrite app_nil_r|done]. Qed.

(** The targets, and the callback when there was nobody to tell *)
Lemma targets_accounted t e c l names s : Z.of_nat (length names) <= NextId.maximum g0 → sent_so_far [] 0 s →
  wp (sent ← send_loop t e c l f names 0;
      match sent, app f with
      | Some O, Some a => if t =? 2 then cbFun a (notificationHandle f) None 0 0 [] else mret tt
      | _, _ => mret tt
      end;;
      mret (notificationHandle f)) (λ _ s', accounted s') s.
Proof using Type*.
  intros Hm Hs. apply wp_bind. eapply wp_mono; [apply (send_loop_spec t e c l names 0 [] 0 s); [lia|done]|].
  intros [sent|x] s4 [hs Hs4]; [|eapply ss_accounted; [|exact Hs4]; lia].
  assert (Hs5 : ∀ s5, pendingNotifications s5 = pendingNotifications s4 → handles s5 = handles s4 →
    out (rest s5) = out (rest s4) → accounted s5).
  { intros s5 G1 G2 G3. eapply ss_accounted; [|exact (ss_leaves _ _ _ _ G1 G2 G3 Hs4)]. lia. }
  apply wp_bind. destruct sent as [[|k]|], (app f) as [a|]; try (do 2 apply wp_ret; by apply Hs5).
  destruct (t =? 2); [|do 2 apply wp_ret; by apply Hs5].
  apply leaves_wp; [apply Hquiet|]. intros [[]|x] s5 G1 G2 G3; [apply wp_ret|]; by apply Hs5.
Qed.
End notification.

Lemma names_depend l tag cs cs' : Target.c_getTargetNames cs = Target.c_getTargetNames cs' →
  (Target.getTargetNames l tag cs).1 = (Target.getTargetNames l tag cs').1.
Proof.
  intros Hc. unfold Target.getTargetNames, zoom, mbind, M_bind. rewrite Hc.
  by destruct (Target.tabulated _ _ _) as [[m|x] c].
Qed.
Lemma info_leaves_names l t s :
  Target.c_getTargetNames (targets s) =
  Target.c_getTargetNames (targets (on_targets (Target.getNotificationInfo l t) s).2).
Proof.
  unfold on_targets, Target.getNotificationInfo, zoom. by destruct (Target.memoised _ _ _ _).
Qed.

Abbreviation sendVarBinds := (Ntforg.sendVarBinds dsp_sendPdu lcd registered timerResolution upTime
  isAccessAllowed cbFun other_address self).

(** C27. Whatever becomes of a notification (targets that filters or the access control
    model leave out, a target that cannot be sent to, an exception on the way), the
    handles that are pending for it are exactly those of the informs that went out for
    it, without repetition, and the dispatcher has nothing else from it to call back
    with; a trap leaves nothing pending.  The application's callback is taken to send
    nothing in turn. *)
Theorem notification_is_accounted target e c l a s n g :
  (∀ a h e i j l, leaves (cbFun a h e i j l)) →
  NextId.wf (handles s) → NextId.call (handles s) = (Ok n, g) →
  dget (pendingNotifications s) n = None →
  (∀ tag names, (Target.getTargetNames (lcd (rest s)) tag (targets s)).1 = Ok names →
     Z.of_nat (length names) <= NextId.maximum (handles s)) →
  let s' := (sendVarBinds target e c l a s).2 in
  ∃ hs, NoDup hs ∧
    out (rest s') = out (rest s) ++ ((λ h, (h, mk_follow n a)) <$> hs) ∧
    dget (pendingNotifications s') n = match hs with [] => None | _ => Some hs end.
Proof.
  intros Hquiet Hwf Hcall Hn Hfew s'.
  destruct (NextId.wf_supply _ Hwf) as (v & bk & Hbk & _).
  destruct (NextId.call_spec _ v bk Hwf Hbk) as (g' & Hg & Hwf' & Hmax & _). rewrite Hcall in Hg. simplify_eq.
  pose proof (NextId.wf_threshold _ Hwf') as Hth. pose proof (NextId.wf_maximum _ Hwf') as Hpos.
  clear Hbk bk. set (f := mk_follow v a).
  assert (Hnone : ∀ m s1, Z.of_nat m <= NextId.maximum g' + 1 → sent_so_far f g' (out (rest s)) [] m s1 →
    accounted f (out (rest s)) s1) by (intros m s1 Hm; by apply ss_accounted).
  assert (Hsame : ∀ s1, pendingNotifications s1 = pendingNotifications s → out (rest s1) = out (rest s) →
    accounted f (out (rest s)) s1) by (intros s1 E1 E2; apply nothing_accounted; [by rewrite E1|done]).
  subst s'. change (wp (sendVarBinds target e c l a) (λ _ s', accounted f (out (rest s)) s') s).
  unfold Ntforg.sendVarBinds. apply wp_bind, wp_liftR. destruct (Cmdgen.context_name c) as [c'|]; [|by apply Hsame].
  apply wp_bind, wp_gets. apply wp_bind.
  pose proof (leaves_targets (Target.getNotificationInfo (lcd (rest s)) target) s) as (E1 & E2 & E3).
  pose proof (info_leaves_names (lcd (rest s)) target s) as E4. unfold wp at 1.
  destruct (on_targets _ s) as [[[tag ty]|x] s1]; cbn [fst snd] in *; [|by apply Hsame].
  apply wp_bind. unfold wp at 1, zoom. rewrite E2, Hcall. cbn [fst snd].
  set (s2 := put_handles g' s1).
  assert (Hs2 : sent_so_far f g' (out (rest s)) [] 0 s2).
  { split; [by rewrite app_nil_r|by rewrite <- Hn, <- E1|]. exists []. split_and!; [done..|cbn; lia]. }
  apply wp_bind, wp_liftR. destruct (orderNotificationVarBinds l (upTime (rest s))) as [l'|];
    [|apply (Hnone 0%nat s2); [lia|done]].
  apply wp_bind. pose proof (leaves_targets (Target.getTargetNames (lcd (rest s)) tag) s2) as (F1 & F2 & F3).
  unfold wp at 1. assert (Hnames : ∀ names, (on_targets (Target.getTargetNames (lcd (rest s)) tag) s2).1 = Ok names →
    Z.of_nat (length names) <= NextId.maximum g').
  { intros names. unfold on_targets, zoom. rewrite Hmax. pose proof (Hfew tag names) as Hf.
    rewrite (names_depend _ _ _ (targets s2) E4) in Hf.
    destruct (Target.getTargetNames (lcd (rest s)) tag (targets s2)). apply Hf. }
  destruct (on_targets _ s2) as [[names|x] s3]; cbn [fst snd] in *;
    pose proof (ss_leaves f g' _ _ _ _ _ F1 F2 F3 Hs2) as Hs3; [|apply (Hnone 0%nat s3); [lia|done]].
  apply (targets_accounted Hquiet f g' (out (rest s)) Hwf' ty e c' l' names s3); [by apply Hnames|done].
Qed.
End pending.

(** ** A concrete originator: an inform to the targets "a", twice, and "b" *)

(** The tables, and what the dispatcher has accepted *)
Abbreviation demo_env := (TargetSpec.moment * list (Z * follow unit))%type.
Definition demo_sendPdu (o : outgoing) (k : option (Z * (Z * follow unit))) : M exn (demo_env * v1_pdu) Z :=
  λ '((m, l), x), (Ok (Z.of_nat (length l)), ((m, l ++ match k with Some (_, c) => [c] | None => [] end), x)).
Definition demo_allow (m : Z) (n : octets) (l : Z) (c : octets) (o : oid) : M exn demo_env unit := mret tt.
Definition demo_callback (a : unit) (h : Z) (e : option errind) (i j : Z) (l : list var_bind) :
  M exn (state demo_env unit) unit := mret tt.
Definition demo_handles : NextId.Integer := NextId.mk_Integer 10 4 2 [4; 5; 6; 7].
Definition demo_state : state demo_env unit :=
  mk_state [] [] demo_handles demo_handles Target.no_cache ∅
    ((TargetSpec.demo_targets 1 1500, [Transport.snmpUDPDomain]), []).
#[export] Instance demo_keeps : dispatcher_keeps demo_sendPdu demo_allow snd.
Proof. split; [by intros o k [m l] x|done]. Qed.
Abbreviation demo_send := (sendVarBinds demo_sendPdu (λ a, a.1.1) (λ a, a.1.2) (λ _, 10000) (λ _, VTimeTicks 5)
  demo_allow demo_callback (λ _, Err AttributeError) tt).

Lemma demo_handles_wf : NextId.wf demo_handles.
Proof. apply (NextId.nextid_init_wf 10 4 4); [lia|lia|reflexivity]. Qed.
Lemma demo_few tag names :
  (Target.getTargetNames (TargetSpec.demo_targets 1 1500) tag Target.no_cache).1 = Ok names →
  Z.of_nat (length names) <= 10.
Proof.
  assert (Hr : Target.read_names (TargetSpec.demo_targets 1 1500) =
    Ok [([116], [[97]; [97]; [98]]); ([117], [[97]])]) by (vm_compute; reflexivity).
  unfold Target.getTargetNames, zoom, mbind, M_bind, Target.tabulated. rewrite Hr. cbn.
  repeat case_decide; cbn; intros [= <-]; cbn; lia.
Qed.
Lemma notification_is_accounted_witness :
  let s' := (demo_send [110] None [] demo_binds (Some tt) demo_state).2 in
  pendingNotifications s' = [(4, [5; 6; 7])] ∧
  ∃ hs, NoDup hs ∧ (rest s').2 = (λ h, (h, mk_follow 4 (Some tt))) <$> hs ∧
    dget (pendingNotifications s') 4 = match hs with [] => None | _ => Some hs end.
Proof.
  intros s'. split; [vm_compute; reflexivity|].
  exact (notification_is_accounted demo_sendPdu (λ a, a.1.1) (λ a, a.1.2) (λ _, 10000) (λ _, VTimeTicks 5)
    demo_allow demo_callback (λ _, Err AttributeError) tt snd [110] None [] demo_binds (Some tt) demo_state 4
    (NextId.mk_Integer 10 4 2 [5; 6; 7; 8; 9])
    (λ a h e i j l s, conj eq_refl (conj eq_refl eq_refl)) demo_handles_wf eq_refl eq_refl demo_few).
Defined.

(** Its targets answer in another order, one of them with a failure. *)
Definition demo_inform : follow unit := mk_follow 4 (Some tt).
Definition demo_sent : state demo_env unit :=
  put_notifications [(4, [5; 6; 7])] demo_state.
Definition demo_answers : list (@action demo_env unit _ _) :=
  [Reply 6 None None; Other (modify (put_handles demo_handles)); Reply 5 (Some requestTimedOut) None].
Lemma inform_completes_once_witness :
  let s' := run demo_callback demo_inform demo_answers demo_sent in
  pendingNotifications s' = [(4, [7])] ∧
  act demo_callback demo_inform (Reply 7 None None) s' =
    report demo_callback demo_inform 7 None None (put_notifications (ddel (pendingNotifications s') 4) s').
Proof.
  intros s'. split; [reflexivity|].
  destruct (inform_completes_once demo_callback demo_inform demo_answers 7 None None demo_sent [5; 6; 7])
    as [_ Hlast].
  - reflexivity.
  - apply (bool_decide_unpack _). vm_compute. exact I.
  - change (replies demo_answers ++ [7]) with [6; 5; 7]. apply Permutation_swap.
  - repeat constructor.
  - exact Hlast.
Defined.

(** A target that cannot be sent to makes the originator leave the rest of them, and is
    not reported when an inform of the notification is pending already. *)
Definition refusing_sendPdu (o : outgoing) (k : option (Z * (Z * follow unit))) : M exn (demo_env * v1_pdu) Z :=
  λ '((m, l), x),
    if (length l =? 1)%nat then (Err (StatusInformation (status_of unsupportedMsgProcessingModel)), ((m, l), x))
    else demo_sendPdu o k ((m, l), x).
Example first_failure_ends_the_notification :
  let '(r, s') := sendVarBinds refusing_sendPdu (λ a : demo_env, a.1.1) (λ a, a.1.2) (λ _, 10000) (λ _, VTimeTicks 5)
    demo_allow (λ _ _ _ _ _ _, raise KeyError) (λ _, Err AttributeError) tt [110] None [] demo_binds (Some tt) demo_state in
  r = Ok 4 ∧ pendingNotifications s' = [(4, [5])].
Proof. vm_compute. done. Qed.

(** Without a callback, the last answer to an inform raises. *)
Example inform_without_a_callback :
  (processResponseVarBinds demo_callback (mk_follow 4 None) 7 None None (put_notifications [(4, [7])] demo_state)).1 =
  Err TypeError.
Proof. reflexivity. Qed.
End NtforgSpec.
