(* ===== verification/View.v ===== *)
(** * The view of the loaded MIBs (src/pysnmp/smi/view.py)

    [MibViewController] indexes the symbols a builder has loaded: object identifiers to
    labels, which are the names along the path, and back.  The builder is an interface:
    the symbols of its modules, the count of its changes, and a corpus that may name a
    module to load for an identifier it does not know.  [SNMPv2-SMI] is loaded. *)
From stdpp Require Import pretty.
From S2P Require Export Text Indices TableIndex.
Import Text.
#[local] Open Scope Z_scope.

Module View.

(** ** Names *)

(** A part of a node name, of a label or of a suffix: a number or a string *)
Inductive part : Type := Arc (z : Z) | Name (s : string).
#[global] Instance part_eq_dec : EqDecision part.
Proof. solve_decision. Defined.
Abbreviation node_name := (list part).
Definition arcs (o : oid) : node_name := Arc <$> o.
(** The identifier a tuple of numbers is *)
Fixpoint as_arcs (n : node_name) : option oid :=
  match n with
  | [] => Some []
  | Arc z :: n => (λ o, z :: o) <$> as_arcs n
  | Name _ :: _ => None
  end.
(** [str(x)] *)
Definition to_str (p : part) : part := match p with Arc z => Name (pretty z) | Name s => Name s end.

(** [int(x)] of what a label or an identifier is made of *)
Definition to_int (p : part) : option Z :=
  match p with Arc z => Some z | Name s => int_of 10 (codes s) end.

(** ** What a builder has loaded *)

(** The identity of a module has its revisions, and a notification the objects it
    carries, each by module and symbol. *)
Inductive node_kind : Type :=
  | KScalar | KColumn | KTable | KRow
  | KIdentity (revisions : list string)
  | KNotification (objects : list (string * string))
  | KOther.
#[global] Instance node_kind_eq_dec : EqDecision node_kind.
Proof. solve_decision. Defined.
(** A symbol of a module: a class, an instance of a scalar, or any other node of the tree,
    with its name *)
Inductive symbol : Type :=
  | SType
  | SInstance (name : oid)
  | SNode (kind : node_kind) (name : oid).
#[global] Instance symbol_eq_dec : EqDecision symbol.
Proof. solve_decision. Defined.
Definition moduleID : string := "PYSNMP_MODULE_ID".
Abbreviation symbols := (dict string symbol).

(** ** Dictionaries ordered by strings ([OrderedDict]) *)
Section ordered.
Context {V : Type}.
Definition keys (d : dict string V) : list string := sorted_by tuple_leb codes (dkeys d).
Definition nextKey (d : dict string V) (k : string) : result exn string :=
  from_option_exc KeyError (list_find (λ x, tuple_ltb (codes k) (codes x) = true) (keys d) ≫= λ ix, Some ix.2).
End ordered.
(** [l[index]], counting from either end *)
Definition at_index {A} (l : list A) (index : Z) : result exn A :=
  let i := if index <? 0 then index + Z.of_nat (length l) else index in
  if i <? 0 then Err IndexError else from_option_exc IndexError (l !! Z.to_nat i).

(** ** The indices *)
Record module_idx : Type := mk_idx {
  oidToLabelIdx : @Indices.OidOrderedDict node_name;
  labelToOidIdx : dict node_name oid;
  varToNameIdx : dict string oid;
  typeToModIdx : dict string string;
  oidToModIdx : dict oid string;
}.
Definition no_idx : module_idx := mk_idx Indices.init [] [] [] [].
Definition put_labels (l : Indices.OidOrderedDict) (m : dict node_name oid) (x : module_idx) : module_idx :=
  mk_idx l m (varToNameIdx x) (typeToModIdx x) (oidToModIdx x).
Definition add_type (n modName : string) (x : module_idx) : module_idx :=
  mk_idx (oidToLabelIdx x) (labelToOidIdx x) (varToNameIdx x) (dset (typeToModIdx x) n modName) (oidToModIdx x).
Definition add_node (n modName : string) (o : oid) (x : module_idx) : module_idx :=
  mk_idx (Indices.setitem o [Name n] (oidToLabelIdx x)) (labelToOidIdx x) (dset (varToNameIdx x) n o)
    (typeToModIdx x) (dset (oidToModIdx x) o modName).

(** The keys of an index, in order *)
Definition oids (x : Indices.OidOrderedDict (V:=node_name)) : list oid := Indices.keys_ (Indices.ordered x).

(** A symbol of the module, in its own index and in that of all modules *)
Definition index_symbol (modName : string) (gm : module_idx * module_idx) (nv : string * symbol) :
    result exn (module_idx * module_idx) :=
  let '(glob, own) := gm in
  let '(n, v) := nv in
  if decide (n = moduleID) then Ok gm
  else match v with
  | SType =>
      if din (typeToModIdx own) n then Err (SmiError "Duplicate SMI type")
      else Ok (add_type n modName glob, add_type n modName own)
  | SInstance _ => Ok gm
  | SNode _ o =>
      if din (varToNameIdx own) n then Err (SmiError "Duplicate MIB variable")
      else Ok (add_node n modName o glob, add_node n modName o own)
  end.
Fixpoint fold_result {A B} (f : A → B → result exn A) (a : A) (l : list B) : result exn A :=
  match l with [] => Ok a | b :: l => a ← f a b; fold_result f a l end.
Definition index_module (mibs : dict string symbols) (st : module_idx * dict string module_idx) (modName : string) :
    result exn (module_idx * dict string module_idx) :=
  let '(glob, idx) := st in
  '(glob, own) ← fold_result (index_symbol modName) (glob, no_idx) (default [] (dget mibs modName));
  mret (glob, dset idx modName own).

(** Modules in the order of their age *)
Definition sortFun (m : symbols) : result exn string :=
  match dget m moduleID with
  | Some (SNode (KIdentity (r :: _)) _) => Ok r
  | None | Some (SNode (KIdentity []) _) => Ok "1970-01-01 00:00"%string
  | Some _ => Err AttributeError
  end.
Definition age (m : symbols) : string := match sortFun m with Ok r => r | Err _ => ""%string end.
Definition modNames (mibs : dict string symbols) : list string :=
  sorted_by tuple_leb (λ x, codes (age (default [] (dget mibs x)))) (dkeys mibs).

(** *** Long labels *)

(** [key[-n:-1]] *)
Definition inner (n : nat) (key : oid) : node_name := arcs (take (n - 1) (drop (length key - n) key)).
(** The loop [while i]: the label of the longest prefix that is known, and the arcs on
    from it *)
Fixpoint known_prefix (d : dict oid node_name) (key : oid) (i : nat) : node_name :=
  match i with
  | O => []
  | S i' =>
      match dget d (take i key) with
      | Some l => if (i =? length key - 1)%nat then l else l ++ arcs (removelast (drop i key))
      | None => known_prefix d key i'
      end
  end.
Definition base_label (d : dict oid node_name) (prevOid : oid) (baseLabel : node_name) (key : oid) : node_name :=
  if (length prevOid <? length key)%nat then
    match prevOid with
    | [] => []
    | _ =>
        if (length key =? length prevOid + 1)%nat then default [] (dget d prevOid)
        else baseLabel ++ inner (length key - length prevOid) key
    end
  else if (length key <? length prevOid)%nat then known_prefix d key (length key - 1)
  else baseLabel.
Definition label_step (st : (oid * node_name) * (Indices.OidOrderedDict * dict node_name oid)) (key : oid) :=
  let '((prevOid, baseLabel), (l, m)) := st in
  let b := base_label (Indices.base l) prevOid baseLabel key in
  let label := b ++ default [] (dget (Indices.base l) key) in
  ((key, b), (Indices.setitem key label l, dset m label key)).
Definition long_labels (l : Indices.OidOrderedDict) (m : dict node_name oid) :
    Indices.OidOrderedDict * dict node_name oid :=
  (foldl label_step (([], []), (l, m)) (oids l)).2.

(** The labels of the index of a module are those of the index of all. *)
Definition copy_label (glob : dict oid node_name) (lm : Indices.OidOrderedDict * dict node_name oid) (o : oid) :
    Indices.OidOrderedDict * dict node_name oid :=
  let label := default [] (dget glob o) in (Indices.setitem o label lm.1, dset lm.2 label o).
Definition copy_labels (glob : dict oid node_name) (x : module_idx) : module_idx :=
  let '(l, m) := foldl (copy_label glob) (oidToLabelIdx x, labelToOidIdx x) (oids (oidToLabelIdx x)) in
  put_labels l m x.

(** What [indexMib] makes of the loaded modules; the index of all of them is under "". *)
Definition build (mibs : dict string symbols) : result exn (dict string module_idx) :=
  foldM (λ kv _, fmap (λ _, tt) (sortFun kv.2)) mibs tt;;
  '(glob, idx) ← fold_result (index_module mibs) (no_idx, [(""%string, no_idx)]) (modNames mibs);
  let '(l, m) := long_labels (oidToLabelIdx glob) (labelToOidIdx glob) in
  let glob := put_labels l m glob in
  mret ((λ kv, (kv.1, copy_labels (Indices.base l) kv.2)) <$> dset idx ""%string glob).

(** ** The controller *)
Section controller.
(** Corpora, told apart by identity *)
Context {C : Type} `{EqDecision C}.

(** The rows among the symbols have what a row keeps. *)
Record builder : Type := mk_builder {
  mibSymbols : dict string symbols;
  mibRows : dict (string * string) TableIndex.MibTableRow;
  lastBuildId : Z;
  mibCorpus : option C;
}.
Record view : Type := mk_view {
  mibBuilder : builder;
  v_lastBuildId : Z;
  mibSymbolsIdx : dict string module_idx;
  corpusMisses : list oid;
  corpusSeen : option C;
}.
Abbreviation V := (M exn view).
Definition put_builder (b : builder) (s : view) : view :=
  mk_view b (v_lastBuildId s) (mibSymbolsIdx s) (corpusMisses s) (corpusSeen s).
Definition put_misses (l : list oid) (s : view) : view :=
  mk_view (mibBuilder s) (v_lastBuildId s) (mibSymbolsIdx s) l (corpusSeen s).
(** [__init__] *)
Definition init (b : builder) : view := mk_view b (-1) [] [] None.

(** [corpus.find_module] and [mibBuilder.loadModules] *)
Context (find_module : C → oid → option string) (loadModules : string → M exn builder unit).

Definition see_corpus (s : view) : view :=
  let c := mibCorpus (mibBuilder s) in
  if decide (c = corpusSeen s) then s
  else mk_view (mibBuilder s) (v_lastBuildId s) (mibSymbolsIdx s) [] c.
(** [indexMib] *)
Definition indexMib : V unit := fun s =>
  let s := see_corpus s in
  let b := mibBuilder s in
  if v_lastBuildId s =? lastBuildId b then (Ok tt, s)
  else match build (mibSymbols b) with
       | Ok idx => (Ok tt, mk_view b (lastBuildId b) idx (corpusMisses s) (corpusSeen s))
       | Err e => (Err e, mk_view b (v_lastBuildId s) [] (corpusMisses s) (corpusSeen s))
       end.

(** [NoSuchObjectError(str=...)] *)
Definition no_such_object : exn := MibError NoSuchObjectError (mk_details None None None).
(** [__mibSymbolsIdx[modName]], after [indexMib] *)
Definition get_module (modName : string) : V module_idx :=
  idx ← gets mibSymbolsIdx;
  liftR (from_option_exc (SmiError "No module") (dget idx modName)).

(** *** Modules *)
Definition getOrderedModuleName (index : Z) : V string :=
  indexMib;;
  idx ← gets mibSymbolsIdx;
  match keys idx with
  | [] => raise (SmiError "No modules loaded")
  | l => liftR (at_index l index)
  end.
Definition getFirstModuleName : V string := getOrderedModuleName 0.
Definition getLastModuleName : V string := getOrderedModuleName (-1).
Definition getNextModuleName (modName : string) : V string :=
  indexMib;;
  idx ← gets mibSymbolsIdx;
  match nextKey idx modName with
  | Ok n => mret n
  | Err _ => raise (SmiError "No module next")
  end.

(** *** Nodes *)

(** [__getOidLabel]; the recursion takes the last part off. *)
Definition find_label (x : module_idx) (n : node_name) : option node_name :=
  match as_arcs n with Some o => dget (Indices.base (oidToLabelIdx x)) o | None => None end.
Fixpoint getOidLabel (fuel : nat) (x : module_idx) (nodeName : node_name) : node_name * node_name * node_name :=
  match dget (labelToOidIdx x) nodeName, find_label x nodeName, fuel with
  | _, _, O => (nodeName, nodeName, [])
  | Some o, _, S _ => (arcs o, nodeName, [])
  | None, Some label, S _ => (nodeName, label, [])
  | None, None, S fuel =>
      if (length nodeName <? 2)%nat then (nodeName, nodeName, [])
      else
        let '(o, label, suffix) := getOidLabel fuel x (removelast nodeName) in
        let suffix := suffix ++ drop (length nodeName - 1) nodeName in
        let resLabel := label ++ (to_str <$> suffix) in
        match dget (labelToOidIdx x) resLabel with
        | Some o => (arcs o, resLabel, [])
        | None =>
            match find_label x (o ++ suffix) with
            | Some label => (o ++ suffix, label, [])
            | None => (o, label, suffix)
            end
        end
  end.
(** An empty name is what it is; the recursion is as deep as the name is long. *)
Definition resolve (x : module_idx) (nodeName : node_name) : node_name * node_name * node_name :=
  getOidLabel (length nodeName) x nodeName.

(** Nodes below which the MIB says nothing *)
Definition is_object (v : symbol) : bool :=
  match v with SNode (KScalar | KColumn | KTable | KRow) _ => true | _ => false end.
Definition last_name (label : node_name) : string :=
  match last label with Some (Name n) => n | _ => ""%string end.
Definition node_at (b : builder) (modName n : string) : option symbol :=
  dget (default [] (dget (mibSymbols b) modName)) n.
Definition worthAskingCorpus (b : builder) (r : node_name * node_name * node_name) (x : module_idx) : bool :=
  let '(o, label, suffix) := r in
  match suffix with
  | [] => false
  | _ =>
      if decide (o = label) then true
      else match as_arcs o ≫= dget (oidToModIdx x) with
           | None => true
           | Some modName => negb (default false (is_object <$> node_at b modName (last_name label)))
           end
  end.

Definition corpusModuleFor (nodeName : node_name) (modName : string) : V bool :=
  if decide (modName ≠ ""%string) then mret false
  else
    s ← gets id;
    match mibCorpus (mibBuilder s), mapM to_int nodeName with
    | Some corpus, Some ((_ :: _) as o) =>
        if decide (o ∈ corpusMisses s) then mret false
        else
          modify (put_misses (o :: corpusMisses s));;
          match find_module corpus o with
          | None => mret false
          | Some found =>
              if din (mibSymbols (mibBuilder s)) found then mret false
              else
                try_except (zoom mibBuilder put_builder (loadModules found);; mret true)
                  (λ e, if is_SmiError e then Some (mret false) else None)
          end
    | _, _ => mret false
    end.

Definition getNodeNameByOid (nodeName : node_name) (modName : string) : V (node_name * node_name * node_name) :=
  indexMib;;
  mibMod ← get_module modName;
  let r := resolve mibMod nodeName in
  b ← gets mibBuilder;
  again ← (if worthAskingCorpus b r mibMod then corpusModuleFor nodeName modName else mret false);
  r ← (if again : bool
       then indexMib;; idx ← gets mibSymbolsIdx;
            mibMod ← liftR (from_option_exc KeyError (dget idx modName)); mret (resolve mibMod nodeName)
       else mret r);
  let '(o, label, suffix) := r in
  if decide (o = label) then raise no_such_object else mret r.

Definition getNodeNameByDesc (nodeName : part) (modName : string) : V (node_name * node_name * node_name) :=
  indexMib;;
  mibMod ← get_module modName;
  match nodeName with
  | Name n =>
      match dget (varToNameIdx mibMod) n with
      | Some o => getNodeNameByOid (arcs o) modName
      | None => raise no_such_object
      end
  | Arc _ => raise no_such_object
  end.

Definition is_NoSuchObject (e : exn) : bool := match e with MibError NoSuchObjectError _ => true | _ => false end.
Definition getNodeName (nodeName : node_name) (modName : string) : V (node_name * node_name * node_name) :=
  try_except (getNodeNameByOid nodeName modName)
    (λ e, if is_NoSuchObject e then Some
            (match nodeName with
             | [] => raise IndexError
             | n :: rest =>
                 '(o, label, suffix) ← getNodeNameByDesc n modName;
                 getNodeNameByOid (o ++ suffix ++ rest) modName
             end)
          else None).

(** The nodes of a type, by the class of the symbol their label ends in; a column is a
    scalar. *)
Definition nodeTypeMap : dict string (node_kind → bool) :=
  [("scalar", λ k, bool_decide (k = KScalar ∨ k = KColumn)); ("table", λ k, bool_decide (k = KTable));
   ("column", λ k, bool_decide (k = KColumn)); ("row", λ k, bool_decide (k = KRow))]%string.
Definition items (x : module_idx) : list (oid * node_name) :=
  (λ o, (o, default [] (dget (Indices.base (oidToLabelIdx x)) o))) <$> oids (oidToLabelIdx x).
Definition of_type (b : builder) (modName : string) (target : node_kind → bool) (x : module_idx) :
    list (oid * node_name) :=
  filter (λ ol, match node_at b modName (last_name ol.2) with
                | Some (SNode k _) => target k | _ => false end = true) (items x).
Definition getOrderedNodeName (index : Z) (modName : string) (nodeType : option string) :
    V (node_name * node_name * node_name) :=
  indexMib;;
  mibMod ← get_module modName;
  b ← gets mibBuilder;
  match items mibMod with
  | [] => raise no_such_object
  | _ =>
      match nodeType with
      | Some t =>
          match dget nodeTypeMap t with
          | None => raise (SmiError "Unknown node type")
          | Some target =>
              if din (mibSymbols b) modName then
                match of_type b modName target mibMod with
                | [] => raise no_such_object
                | filtered =>
                    (* a negative index is taken from the end twice *)
                    let index := if index <? 0 then index + Z.of_nat (length filtered) else index in
                    match at_index filtered index with
                    | Ok (o, label) => mret (arcs o, label, [])
                    | Err _ => raise no_such_object
                    end
                end
              else raise KeyError
          end
      | None => '(o, label) ← liftR (at_index (items mibMod) index); mret (arcs o, label, [])
      end
  end.
Definition getFirstNodeName (modName : string) (nodeType : option string) := getOrderedNodeName 0 modName nodeType.
Definition getLastNodeName (modName : string) (nodeType : option string) := getOrderedNodeName (-1) modName nodeType.

Definition getNextNodeName (nodeName : node_name) (modName : string) : V (node_name * node_name * node_name) :=
  '(o, label, suffix) ← getNodeName nodeName modName;
  idx ← gets mibSymbolsIdx;
  mibMod ← liftR (from_option_exc KeyError (dget idx modName));
  match as_arcs o with
  | None => raise TypeError
  | Some o =>
      match (Indices.nextKey o (oidToLabelIdx mibMod)).1 with
      | Ok next => try_except (getNodeName (arcs next ++ suffix) modName)
                     (λ e, match e with KeyError => Some (raise no_such_object) | _ => None end)
      | Err _ => raise no_such_object
      end
  end.
Definition getParentNodeName (nodeName : node_name) (modName : string) : V (node_name * node_name * node_name) :=
  '(o, label, suffix) ← getNodeName nodeName modName;
  if (length o <? 2)%nat then raise no_such_object
  else mret (removelast o, removelast label, drop (length o - 1) o ++ suffix).
(** The module, the symbol's name and the suffix *)
Definition getNodeLocation (nodeName : node_name) (modName : string) : V (string * string * node_name) :=
  '(o, label, suffix) ← getNodeName nodeName modName;
  idx ← gets mibSymbolsIdx;
  x ← liftR (from_option_exc KeyError (dget idx ""%string));
  m ← liftR (from_option_exc KeyError (as_arcs o ≫= dget (oidToModIdx x)));
  mret (m, last_name label, suffix).

(** *** Types *)
Definition getTypeName (typeName : string) (modName : string) : V (string * string) :=
  indexMib;;
  mibMod ← get_module modName;
  match dget (typeToModIdx mibMod) typeName with
  | Some m => mret (m, typeName)
  | None => raise no_such_object
  end.
Definition getOrderedTypeName (index : Z) (modName : string) : V (string * string) :=
  indexMib;;
  mibMod ← get_module modName;
  match keys (typeToModIdx mibMod) with
  | [] => raise no_such_object
  | l =>
      t ← liftR (at_index l index);
      m ← liftR (from_option_exc KeyError (dget (typeToModIdx mibMod) t));
      mret (m, t)
  end.
Definition getFirstTypeName (modName : string) : V (string * string) := getOrderedTypeName 0 modName.
Definition getLastTypeName (modName : string) : V (string * string) := getOrderedTypeName (-1) modName.
Definition getNextType (typeName : string) (modName : string) : V string :=
  '(m, t) ← getTypeName typeName modName;
  idx ← gets mibSymbolsIdx;
  x ← liftR (from_option_exc KeyError (dget idx m));
  match nextKey (typeToModIdx x) t with
  | Ok n => mret n
  | Err _ => raise no_such_object
  end.
End controller.
Arguments builder : clear implicits.
Arguments view : clear implicits.
End View.
