(* ===== verification/ViewSpec.v ===== *)
(** * What the view of the loaded MIBs promises

    The label of a node is the names along its path, where the modules leave no gap;
    a name or a label resolves to the longest part of it that is known, and back. *)
From stdpp Require Import pretty.
From S2P Require Export Column View.
Import View.
#[local] Open Scope Z_scope.

Module ViewSpec.
Abbreviation labels := (@Indices.OidOrderedDict node_name).

(** ** Trees without gaps *)

(** Every node but the topmost has its parent among the nodes. *)
Definition no_gaps {X} (d : dict oid X) : Prop :=
  ∀ o, o ∈ dkeys d → o ≠ [] ∧ (length o = 1%nat ∨ removelast o ∈ dkeys d).

(** The names along a path *)
Fixpoint path (d : dict oid node_name) (above rest : oid) : node_name :=
  match rest with
  | [] => []
  | z :: rest => default [] (dget d (above ++ [z])) ++ path d (above ++ [z]) rest
  end.
Definition long (d : dict oid node_name) (o : oid) : node_name := path d [] o.

Lemma path_snoc d above rest z :
  path d above (rest ++ [z]) = path d above rest ++ default [] (dget d (above ++ rest ++ [z])).
Proof.
  revert above. induction rest as [|y rest IH]; intros above; cbn [app path].
  - by rewrite app_nil_r.
  - rewrite IH, <- (app_assoc above [y]). by rewrite app_assoc.
Qed.
Lemma removelast_snoc {X} (l : list X) x : removelast (l ++ [x]) = l.
Proof. apply removelast_last. Qed.
Lemma snoc_inv {X} (l : list X) : l ≠ [] → ∃ l' x, l = l' ++ [x].
Proof. intros Hl. destruct l as [|x l _] using rev_ind; [done|]. by exists l, x. Qed.
Lemma long_snoc d o : o ≠ [] → long d o = long d (removelast o) ++ default [] (dget d o).
Proof.
  intros Ho. destruct (snoc_inv o Ho) as (p & z & ->). rewrite removelast_snoc.
  unfold long. by rewrite path_snoc.
Qed.

(** What lies between a parent and its child lies below the parent. *)
Lemma between_prefix p x z : tuple_leb p x = true → tuple_ltb x (p ++ [z]) = true → p `prefix_of` x.
Proof.
  intros H1 H2. destruct (decide (p `prefix_of` x)) as [|Hn]; [done|].
  assert (Hlt : tuple_ltb p x = true).
  { rewrite tuple_ltb_leb. apply negb_true_iff. destruct (tuple_leb x p) eqn:E; [|done].
    destruct Hn. by rewrite (tuple_leb_antisym p x H1 E). }
  pose proof (tuple_ltb_ext p x [z] Hlt Hn) as H3.
  rewrite tuple_ltb_leb in H2. apply negb_true_iff in H2. apply tuple_ltb_weaken in H3. congruence.
Qed.

(** ** The loop that makes the labels long *)
Section loop.
(** The labels before the loop, each a name *)
Context (d0 : dict oid node_name) (Hgaps : no_gaps d0).

Lemma before_child (p x o : oid) z : o = p ++ [z] → p `prefix_of` x →
  (length x = length p → x = p) ∧ (length x = length o → removelast x = p).
Proof.
  intros -> [r ->]. rewrite !length_app. cbn [length]. split; intros Hl.
  - destruct r; [by rewrite app_nil_r|cbn in Hl; lia].
  - destruct r as [|y [|]]; cbn in Hl; try lia. apply removelast_snoc.
Qed.

(** The label the loop puts a node under, when what it has seen is labelled *)
Lemma base_label_ok (d : dict oid node_name) prev b o :
  o ∈ dkeys d0 →
  (prev = [] ∧ length o = 1%nat ∨
   prev ≠ [] ∧ b = long d0 (removelast prev) ∧ dget d prev = Some (long d0 prev) ∧
   (length o ≠ 1%nat → dget d (removelast o) = Some (long d0 (removelast o)) ∧
      tuple_leb (removelast o) prev = true ∧ tuple_ltb prev o = true)) →
  base_label d prev b o = long d0 (removelast o).
Proof using Hgaps.
  intros Ho Hst. destruct (Hgaps o Ho) as [Hne _]. destruct (snoc_inv o Hne) as (p & z & Heq).
  assert (Hp : removelast o = p) by (subst; apply removelast_snoc).
  assert (Hlo : length o = (length p + 1)%nat) by (subst; by rewrite length_app).
  rewrite Hp in *. unfold base_label.
  destruct Hst as [[-> Hl]|(Hprev & -> & Hd & Hpar)].
  { destruct p; [|cbn in Hlo; lia]. rewrite Hl. done. }
  destruct (decide (length o = 1%nat)) as [Hl|Hl].
  - destruct p; [|cbn in Hlo; lia]. change (long d0 []) with (@nil part).
    destruct prev as [|y [|]]; [done| |]; rewrite Hl; cbn; [|done]. done.
  - destruct (Hpar Hl) as (Hdp & Hle & Hlt). rewrite Heq in Hlt. pose proof (between_prefix _ _ _ Hle Hlt) as Hpre.
    destruct (before_child p prev o z Heq Hpre) as [Hsame Hsib]. pose proof (prefix_length _ _ Hpre) as Hlp.
    destruct (Nat.ltb_spec (length prev) (length o)).
    + assert (prev = p) as -> by (apply Hsame; lia). rewrite Hlo, Nat.eqb_refl, Hd. by destruct p.
    + destruct (Nat.ltb_spec (length o) (length prev)).
      * replace (length o - 1)%nat with (length p) by lia. destruct p as [|y p']; [cbn in Hlo; lia|].
        cbn [length known_prefix]. change (S (length p')) with (length (y :: p')).
        rewrite Heq, take_app_length, Hdp, length_app.
        replace (length (y :: p') + length [z] - 1)%nat with (length (y :: p')) by (cbn; lia).
        by rewrite Nat.eqb_refl.
      * by rewrite Hsib by lia.
Qed.

Record labelled (done : list oid) (st : (oid * node_name) * (labels * dict node_name oid)) : Prop := {
  lb_wf : Indices.wf st.2.1;
  lb_keys : dkeys (Indices.base st.2.1) = dkeys d0;
  lb_labels o : dget (Indices.base st.2.1) o = if decide (o ∈ done) then Some (long d0 o) else dget d0 o;
  lb_prev : done = [] ∧ st.1.1 = [] ∨ (∃ done', done = done' ++ [st.1.1]) ∧ st.1.2 = long d0 (removelast st.1.1);
  lb_oids lb o : dget st.2.2 lb = Some o → o ∈ done ∧ lb = long d0 o;
  lb_known o : o ∈ done → is_Some (dget st.2.2 (long d0 o));
}.

Lemma sorted_before (ks : list oid) done k todo : ks = done ++ k :: todo →
  StronglySorted (λ a b, tuple_leb a b = true) ks → NoDup ks →
  (∀ x, x ∈ done → tuple_leb x k = true) ∧ (∀ x, x ∈ ks → tuple_ltb x k = true → x ∈ done).
Proof using.
  intros -> Hs Hd. apply StronglySorted_app in Hs as (Hdone & _ & Htodo). split.
  - intros x Hx. apply Hdone; [done|left].
  - intros x [Hx|[->|Hx]%elem_of_cons]%elem_of_app Hlt; [done|by rewrite tuple_ltb_irrefl in Hlt|].
    apply StronglySorted_inv in Htodo as [_ Hall]. rewrite Forall_forall in Hall. specialize (Hall x Hx).
    rewrite tuple_ltb_leb, Hall in Hlt. done.
Qed.
Lemma sorted_last (done : list oid) prev x : StronglySorted (λ a b, tuple_leb a b = true) (done ++ [prev]) →
  x ∈ done ++ [prev] → tuple_leb x prev = true.
Proof using.
  intros (Hdone & _ & _)%StronglySorted_app [Hx| ->%list_elem_of_singleton]%elem_of_app.
  - apply Hdone; [done|left].
  - apply leb_refl.
Qed.

Lemma label_step_ok ks done k todo st : ks = done ++ k :: todo →
  StronglySorted (λ a b, tuple_leb a b = true) ks → NoDup ks → (∀ o, o ∈ ks ↔ o ∈ dkeys d0) →
  labelled done st → labelled (done ++ [k]) (label_step st k).
Proof using Hgaps.
  intros Hks Hs Hnd Hdom Hst. destruct (sorted_before ks done k todo Hks Hs Hnd) as [Hbefore Hin].
  assert (Hk : k ∈ dkeys d0) by (apply Hdom; subst; set_solver).
  assert (Hkd : k ∉ done). { subst ks. apply NoDup_app in Hnd as (_ & Hno & _). intros Hkd. by apply (Hno k Hkd); left. }
  destruct st as [[prev b] [l m]]. destruct Hst as [Hwf Hkeys Hlab Hprev Hoids Hknown]. cbn [fst snd] in *.
  assert (Hb : base_label (Indices.base l) prev b k = long d0 (removelast k)).
  { apply base_label_ok; [done|]. destruct (Hgaps k Hk) as [Hne Hpar].
    assert (Hparent : length k ≠ 1%nat → removelast k ∈ done).
    { intros Hl. destruct Hpar as [|Hpar]; [done|]. apply Hin; [by apply Hdom|].
      destruct (snoc_inv k Hne) as (p & z & ->). rewrite removelast_snoc.
      by apply Column.tuple_ltb_app. }
    destruct Hprev as [[-> ->]|[[done' ->] ->]].
    - left. split; [done|]. destruct (decide (length k = 1%nat)) as [|Hl]; [done|].
      specialize (Hparent Hl). by apply elem_of_nil in Hparent.
    - right. assert (Hpk : prev ∈ dkeys d0) by (apply Hdom; subst; set_solver).
      destruct (Hgaps prev Hpk) as [Hpne _]. split; [done|]. split; [done|]. split.
      { rewrite Hlab, decide_True by set_solver. done. }
      intros Hl. specialize (Hparent Hl). split_and!.
      + by rewrite Hlab, decide_True.
      + subst ks. apply StronglySorted_app in Hs as (_ & Hs & _). by eapply sorted_last.
      + rewrite tuple_ltb_leb. apply negb_true_iff. destruct (tuple_leb k prev) eqn:E; [|done].
        destruct Hkd. rewrite (tuple_leb_antisym k prev E) by (apply Hbefore; set_solver). set_solver. }
  assert (Hname : dget (Indices.base l) k = dget d0 k) by (by rewrite Hlab, decide_False).
  assert (Hlong : long d0 (removelast k) ++ default [] (dget d0 k) = long d0 k).
  { symmetry. apply long_snoc. by apply Hgaps. }
  unfold label_step. rewrite Hb, Hname, Hlong. split; cbn [fst snd].
  - by apply Indices.setitem_wf.
  - rewrite Indices.setitem_base, dkeys_dset, Hkeys, decide_True by done. done.
  - intros o. rewrite Indices.setitem_base, dget_dset, Hlab.
    destruct (decide (o = k)) as [->|Hok]; [by rewrite decide_True by set_solver|].
    destruct (decide (o ∈ done)); [by rewrite decide_True by set_solver|]. rewrite decide_False by set_solver. done.
  - right. split; [by exists done|done].
  - intros lb o. rewrite dget_dset. case_decide as Hlb.
    + intros [= <-]. split; [set_solver|done].
    + intros [??]%Hoids. split; [set_solver|done].
  - intros o Ho. rewrite dget_dset. case_decide as Hlb; [done|]. apply Hknown.
    apply elem_of_app in Ho as [|Ho%list_elem_of_singleton]; [done|]. by subst.
Qed.

Lemma label_loop_ok ks done todo st : ks = done ++ todo →
  StronglySorted (λ a b, tuple_leb a b = true) ks → NoDup ks → (∀ o, o ∈ ks ↔ o ∈ dkeys d0) →
  labelled done st → labelled ks (foldl label_step st todo).
Proof using Hgaps.
  intros Hks Hs Hnd Hdom. revert done st Hks. induction todo as [|k todo IH]; intros done st -> Hst; cbn [foldl].
  - by rewrite app_nil_r.
  - apply (IH (done ++ [k])); [by rewrite <- app_assoc|]. by eapply label_step_ok.
Qed.
End loop.

(** An index that has the long label of every node of the tree [d], and knows the node
    of every label *)
Record good (d : dict oid node_name) (x : module_idx) : Prop := {
  g_wf : Indices.wf (oidToLabelIdx x);
  g_keys : dkeys (Indices.base (oidToLabelIdx x)) = dkeys d;
  g_label o : o ∈ dkeys d → dget (Indices.base (oidToLabelIdx x)) o = Some (long d o);
  g_oids lb o : dget (labelToOidIdx x) lb = Some o → o ∈ dkeys d ∧ lb = long d o;
  g_known o : o ∈ dkeys d → is_Some (dget (labelToOidIdx x) (long d o));
}.

Lemma oids_spec (l : labels) : Indices.wf l →
  StronglySorted (λ a b, tuple_leb a b = true) (oids l) ∧ NoDup (oids l) ∧
  ∀ o, o ∈ oids l ↔ o ∈ dkeys (Indices.base l).
Proof.
  intros Hwf. destruct (Indices.ordered_wf l Hwf) as (Hwf' & Hd & Hb). unfold oids.
  destruct (Indices.wf_sorted _ Hwf' Hd) as [Hs _]. split; [done|].
  pose proof (Indices.wf_keys _ Hwf') as Hp. rewrite Hb in Hp. split.
  - rewrite Hp. apply (Indices.wf_base _ Hwf).
  - intros o. by rewrite Hp.
Qed.

Lemma long_labels_good l x : Indices.wf l → no_gaps (Indices.base l) →
  let lm := long_labels l [] in good (Indices.base l) (put_labels lm.1 lm.2 x).
Proof.
  intros Hwf Hgaps lm. destruct (oids_spec l Hwf) as (Hs & Hd & Hdom).
  assert (Hst : labelled (Indices.base l) (oids l) (foldl label_step (([], []), (l, [])) (oids l))).
  { eapply (label_loop_ok _ Hgaps (oids l) [] (oids l)); [done..|].
    split; cbn [fst snd]; [done|done| |by left|done|].
    - intros o. rewrite decide_False by apply not_elem_of_nil. done.
    - intros o Ho. by apply elem_of_nil in Ho. }
  unfold lm, long_labels. destruct (foldl label_step _ (oids l)) as [[prev b] [l' m]].
  destruct Hst as [H1 H2 H3 _ H5 H6]. cbn [fst snd] in *. split; cbn [put_labels oidToLabelIdx labelToOidIdx].
  - done.
  - done.
  - intros o Ho. rewrite H3, decide_True; [done|]. by apply Hdom.
  - intros lb o [Ho ->]%H5. split; [by apply Hdom|done].
  - intros o Ho. apply H6. by apply Hdom.
Qed.

(** The labels of the whole are copied to themselves. *)
Lemma copy_labels_good d x : good d x → good d (copy_labels (Indices.base (oidToLabelIdx x)) x).
Proof.
  intros Hx. set (g := Indices.base (oidToLabelIdx x)).
  assert (Hg : ∀ o, o ∈ dkeys d → default [] (dget g o) = long d o).
  { intros o Ho. unfold g. by rewrite (g_label _ _ Hx) by done. }
  unfold copy_labels. destruct (oids_spec _ (g_wf _ _ Hx)) as (_ & _ & Hdom).
  assert (Hall : Forall (λ o, o ∈ dkeys d) (oids (oidToLabelIdx x))).
  { apply Forall_forall. intros o Ho. apply Hdom in Ho. by rewrite (g_keys _ _ Hx) in Ho. }
  assert (Hloop : ∀ ks lm, Forall (λ o, o ∈ dkeys d) ks → good d (put_labels lm.1 lm.2 x) →
    good d (put_labels (foldl (copy_label g) lm ks).1 (foldl (copy_label g) lm ks).2 x)).
  { intros ks. induction ks as [|k ks IH]; intros lm Hks Hlm; [done|]. apply Forall_cons in Hks as [Hk Hks].
    cbn [foldl]. apply IH; [done|]. unfold copy_label. rewrite Hg by done.
    destruct Hlm as [H1 H2 H3 H4 H5]. cbn [put_labels oidToLabelIdx labelToOidIdx] in *.
    split; cbn [put_labels oidToLabelIdx labelToOidIdx fst snd].
    - by apply Indices.setitem_wf.
    - rewrite Indices.setitem_base, dkeys_dset, H2, decide_True by done. done.
    - intros o Ho. rewrite Indices.setitem_base, dget_dset. case_decide; [by subst|by apply H3].
    - intros lb o. rewrite dget_dset. case_decide; [by intros [= <-]|by apply H4].
    - intros o Ho. rewrite dget_dset. case_decide; [done|by apply H5]. }
  specialize (Hloop (oids (oidToLabelIdx x)) (oidToLabelIdx x, labelToOidIdx x) Hall).
  destruct (foldl (copy_label g) _ _) as [l m]. apply Hloop. by destruct x.
Qed.

(** ** What the modules name *)
Definition node_of (nv : string * symbol) : option (oid * string) :=
  if decide (nv.1 = moduleID) then None
  else match nv.2 with SNode _ o => Some (o, nv.1) | _ => None end.
Definition nodes (mibs : dict string symbols) : list (oid * string) :=
  modNames mibs ≫= λ m, omap node_of (default [] (dget mibs m)).
(** An identifier two modules name has the name in the younger one. *)
Definition name_node (d : dict oid node_name) (on : oid * string) : dict oid node_name := dset d on.1 [Name on.2].
Definition tree (mibs : dict string symbols) : dict oid node_name := foldl name_node [] (nodes mibs).

Definition raw (x : module_idx) (d : dict oid node_name) : Prop :=
  Indices.wf (oidToLabelIdx x) ∧ Indices.base (oidToLabelIdx x) = d ∧ labelToOidIdx x = [].
Lemma index_symbols_raw mn syms glob own d r : raw glob d →
  fold_result (index_symbol mn) (glob, own) syms = Ok r → raw r.1 (foldl name_node d (omap node_of syms)).
Proof.
  revert glob own d. induction syms as [|[n v] syms IH]; intros glob own d Hraw; cbn [fold_result].
  { by intros [= <-]. }
  munfold. cbn [index_symbol omap list_omap]. unfold node_of at 1. cbn [fst snd].
  destruct (decide (n = moduleID)); [by apply IH|]. destruct v as [| |k o].
  - destruct (din _ n); [done|]. by apply IH.
  - by apply IH.
  - destruct (din _ n); [done|]. cbn [foldl]. apply IH. destruct Hraw as (Hwf & Hb & Hm).
    split_and!; cbn [add_node oidToLabelIdx labelToOidIdx]; [by apply Indices.setitem_wf|by rewrite Indices.setitem_base, Hb|done].
Qed.
Lemma index_modules_raw mibs ms glob idx d r : raw glob d →
  fold_result (index_module mibs) (glob, idx) ms = Ok r →
  raw r.1 (foldl name_node d (ms ≫= λ m, omap node_of (default [] (dget mibs m)))).
Proof.
  revert glob idx d. induction ms as [|m ms IH]; intros glob idx d Hraw; cbn [fold_result].
  { by intros [= <-]. }
  munfold. cbn [index_module]. munfold.
  destruct (fold_result (index_symbol m) (glob, no_idx) _) as [[glob' own]|e] eqn:E; [|done].
  apply index_symbols_raw with (d := d) in E; [|done]. cbn [fst] in E. intros Hr.
  rewrite bind_cons, foldl_app. by eapply IH.
Qed.

Lemma dget_mapped {X Y} (f : X → Y) (d : dict string X) k :
  dget ((λ kv, (kv.1, f kv.2)) <$> d) k = f <$> dget d k.
Proof. induction d as [|[k' v] d IH]; [done|]. cbn. by case_decide. Qed.

Lemma build_good mibs idx : build mibs = Ok idx → no_gaps (tree mibs) →
  ∃ x, dget idx ""%string = Some x ∧ good (tree mibs) x.
Proof.
  unfold build. munfold. destruct (foldM _ mibs tt) as [[]|]; [|done]. destruct (fold_result (index_module mibs) _ _) as [[glob idx0]|e] eqn:E; [|done].
  apply index_modules_raw with (d := []) in E; [|by split_and!; [apply Indices.oid_init_wf|..]].
  fold (nodes mibs) (tree mibs) in E. destruct E as (Hwf & Hb & Hm). cbn [fst] in *. rewrite Hm.
  intros Hidx Hgaps. rewrite <- Hb in Hgaps.
  pose proof (long_labels_good (oidToLabelIdx glob) glob Hwf Hgaps) as Hgood. cbn zeta in Hgood. rewrite Hb in Hgood.
  destruct (long_labels (oidToLabelIdx glob) []) as [l m]. cbn [fst snd] in Hgood. injection Hidx as <-.
  eexists. rewrite dget_mapped, dget_dset_eq. split; [done|].
  apply (copy_labels_good _ _ Hgood).
Qed.

(** The module of an identifier is the youngest that names it. *)
Definition owned (mibs : dict string symbols) (m : string) : list (oid * string) :=
  (λ on, (on.1, m)) <$> omap node_of (default [] (dget mibs m)).
Definition own_node (d : dict oid string) (om : oid * string) : dict oid string := dset d om.1 om.2.
Definition owners (mibs : dict string symbols) : dict oid string :=
  foldl own_node [] (modNames mibs ≫= owned mibs).
Lemma index_symbols_owners mn syms glob own r :
  fold_result (index_symbol mn) (glob, own) syms = Ok r →
  oidToModIdx r.1 = foldl own_node (oidToModIdx glob) ((λ on, (on.1, mn)) <$> omap node_of syms).
Proof.
  revert glob own. induction syms as [|[n v] syms IH]; intros glob own; cbn [fold_result].
  { by intros [= <-]. }
  munfold. cbn [index_symbol omap list_omap]. unfold node_of at 1. cbn [fst snd].
  destruct (decide (n = moduleID)); [by apply IH|]. destruct v as [|?|k o].
  - destruct (din _ n); [done|]. by intros ->%IH.
  - by apply IH.
  - destruct (din _ n); [done|]. by intros ->%IH.
Qed.
Lemma index_modules_owners mibs ms glob idx r :
  fold_result (index_module mibs) (glob, idx) ms = Ok r →
  oidToModIdx r.1 = foldl own_node (oidToModIdx glob) (ms ≫= owned mibs).
Proof.
  revert glob idx. induction ms as [|m ms IH]; intros glob idx; cbn [fold_result].
  { by intros [= <-]. }
  munfold. cbn [index_module]. munfold.
  destruct (fold_result (index_symbol m) (glob, no_idx) _) as [[glob' own]|e] eqn:E; [|done].
  apply index_symbols_owners in E. cbn [fst] in E. intros Hr%IH. rewrite bind_cons, foldl_app, Hr.
  unfold owned at 2. by rewrite E.
Qed.
Lemma build_owners mibs idx x : build mibs = Ok idx → dget idx ""%string = Some x → oidToModIdx x = owners mibs.
Proof.
  unfold build. munfold. destruct (foldM _ mibs tt) as [[]|]; [|done].
  destruct (fold_result (index_module mibs) _ _) as [[glob idx0]|e] eqn:E; [|done].
  apply index_modules_owners in E. cbn [fst] in E. fold (owners mibs) in E.
  destruct (long_labels _ _) as [l m]. intros [= <-]. rewrite dget_mapped, dget_dset_eq. intros [= <-].
  unfold copy_labels. destruct (foldl (copy_label _) _ _). exact E.
Qed.

(** ** Resolution *)

(** No symbol is named by a number, and no two children of a node have the same name. *)
Record named (mibs : dict string symbols) : Prop := {
  nm_words o n z : (o, n) ∈ nodes mibs → n ≠ pretty (z : Z);
  nm_siblings o o' : o ∈ dkeys (tree mibs) → o' ∈ dkeys (tree mibs) → removelast o = removelast o' →
    dget (tree mibs) o = dget (tree mibs) o' → o = o';
}.

Lemma tree_names l d o lb : dget (foldl name_node d l) o = Some lb →
  (∃ n, lb = [Name n] ∧ (o, n) ∈ l) ∨ dget d o = Some lb.
Proof.
  revert d. induction l as [|[o' n] l IH]; intros d; cbn [foldl]; [by right|].
  intros [(n' & -> & Hn')|Hd]%IH; [left; exists n'; split; [done|by right]|].
  unfold name_node in Hd. rewrite dget_dset in Hd. cbn [fst snd] in Hd. case_decide; [|by right].
  subst. injection Hd as <-. left. exists n. split; [done|left].
Qed.
Lemma tree_name mibs o : o ∈ dkeys (tree mibs) → ∃ n, dget (tree mibs) o = Some [Name n] ∧ (o, n) ∈ nodes mibs.
Proof.
  intros [lb Hlb]%dget_keys. destruct (tree_names _ _ _ _ Hlb) as [(n & -> & Hn)|?]; [by exists n|done].
Qed.

Section resolution.
Context (mibs : dict string symbols) (Hgaps : no_gaps (tree mibs)) (Hnamed : named mibs).
Context (x : module_idx) (Hx : good (tree mibs) x).
Abbreviation known o := (o ∈ dkeys (tree mibs)).

Lemma long_ends o : known o → ∃ n, long (tree mibs) o = long (tree mibs) (removelast o) ++ [Name n] ∧
  dget (tree mibs) o = Some [Name n] ∧ ∀ z : Z, n ≠ pretty z.
Proof using Hgaps Hnamed.
  intros Ho. destruct (tree_name mibs o Ho) as (n & Hn & Hin). exists n. split_and!; [|done|].
  - rewrite long_snoc by by apply Hgaps. by rewrite Hn.
  - intros z. by eapply nm_words.
Qed.
(** A label is as long as its identifier and tells it. *)
Lemma long_inj o o' : known o → known o' → long (tree mibs) o = long (tree mibs) o' → o = o'.
Proof using Hgaps Hnamed.
  revert o'. induction o as [|z p IH] using rev_ind; intros o' Ho Ho' Heq; [by destruct (Hgaps [] Ho)|].
  destruct (long_ends _ Ho) as (n & Hl & Hn & _), (long_ends _ Ho') as (n' & Hl' & Hn' & _).
  rewrite removelast_snoc in Hl. rewrite Hl, Hl' in Heq. apply app_inj_tail in Heq as [Hp [= ->]].
  apply (nm_siblings _ Hnamed); [done..| |congruence]. rewrite removelast_snoc.
  destruct (Hgaps _ Ho) as [_ Hpar], (Hgaps _ Ho') as [Hne' Hpar']. rewrite removelast_snoc in Hpar.
  assert (Hshort : ∀ q, known q → long (tree mibs) q ≠ []).
  { intros q Hq Hnil. destruct (long_ends q Hq) as (m & Hm & _). rewrite Hm in Hnil. by destruct (long _ (removelast q)). }
  destruct (snoc_inv o' Hne') as (p' & z' & ->). rewrite removelast_snoc in *. rewrite length_app in Hpar, Hpar'. cbn in Hpar, Hpar'.
  destruct p as [|y p], p' as [|y' p']; [done| | |].
  - exfalso. destruct Hpar' as [?|Hk]; [cbn in *; lia|]. by apply (Hshort _ Hk).
  - exfalso. destruct Hpar as [?|Hk]; [cbn in *; lia|]. by apply (Hshort _ Hk).
  - apply IH; [|..|done]; [destruct Hpar|destruct Hpar']; (done || (cbn in *; lia)).
Qed.
Lemma label_known o : known o → dget (labelToOidIdx x) (long (tree mibs) o) = Some o.
Proof using Hgaps Hnamed Hx.
  intros Ho. destruct (g_known _ _ Hx o Ho) as [o' Ho']. destruct (g_oids _ _ Hx _ _ Ho') as [Hk Heq].
  by rewrite Ho', (long_inj o o').
Qed.
Lemma arcs_snoc o z : arcs (o ++ [z]) = arcs o ++ [Arc z].
Proof using. unfold arcs. by rewrite fmap_app. Qed.
Lemma arcs_app o o' : arcs (o ++ o') = arcs o ++ arcs o'.
Proof using. apply fmap_app. Qed.
Lemma as_arcs_arcs o : as_arcs (arcs o) = Some o.
Proof using. induction o as [|z o IH]; [done|]. cbn. fold (arcs o). by rewrite IH. Qed.
Lemma as_arcs_name a b n : as_arcs (a ++ Name n :: b) = None.
Proof using. induction a as [|[z|s] a IH]; [done| |done]. cbn [app as_arcs]. by rewrite IH. Qed.
Lemma find_arcs o : find_label x (arcs o) = if decide (known o) then Some (long (tree mibs) o) else None.
Proof using Hx.
  unfold find_label. rewrite as_arcs_arcs. case_decide as Hk; [by apply (g_label _ _ Hx)|].
  apply dget_None. by rewrite (g_keys _ _ Hx).
Qed.
(** No label ends in a number, nor in the text of one. *)
Lemma no_number_label l z : dget (labelToOidIdx x) (l ++ [Arc z]) = None.
Proof using Hgaps Hnamed Hx.
  destruct (dget _ _) as [o|] eqn:E; [|done]. destruct (g_oids _ _ Hx _ _ E) as [Ho Heq].
  destruct (long_ends o Ho) as (n & Hn & _). rewrite Hn in Heq. by apply app_inj_tail in Heq as [_ ?].
Qed.
Lemma no_numeral_label l (z : Z) : dget (labelToOidIdx x) (l ++ [Name (pretty z)]) = None.
Proof using Hgaps Hnamed Hx.
  destruct (dget _ _) as [o|] eqn:E; [|done]. destruct (g_oids _ _ Hx _ _ E) as [Ho Heq].
  destruct (long_ends o Ho) as (n & Hn & _ & Hz). rewrite Hn in Heq.
  apply app_inj_tail in Heq as [_ [= Heq]]. by destruct (Hz z).
Qed.

(** From a part [b] of a name that resolves to [p], the rest is the suffix as long as
    nothing further along is known. *)
Lemma resolve_suffix b o (label : node_name) rest : b ≠ [] →
  (∀ fuel, (length b <= fuel)%nat → getOidLabel fuel x b = (arcs o, label, [])) →
  (∀ q z, (q ++ [z]) `prefix_of` rest → find_label x (b ++ arcs (q ++ [z])) = None ∧ ¬ known (o ++ q ++ [z])) →
  ∀ fuel, (length (b ++ arcs rest) <= fuel)%nat → getOidLabel fuel x (b ++ arcs rest) = (arcs o, label, arcs rest).
Proof using Hgaps Hnamed Hx.
  intros Hb Hbase. induction rest as [|z rest IH] using rev_ind; intros Hno fuel Hfuel.
  { rewrite app_nil_r in *. by apply Hbase. }
  rewrite arcs_snoc, app_assoc in *. rewrite length_app in Hfuel. cbn [length] in Hfuel.
  destruct fuel as [|fuel]; [lia|]. cbn [getOidLabel]. rewrite no_number_label.
  destruct (Hno rest z) as [Hf Hk]; [done|]. rewrite arcs_snoc, app_assoc in Hf.
  rewrite Hf, removelast_snoc, length_app. cbn [length].
  assert (Hlen : (0 < length (b ++ arcs rest))%nat) by (rewrite length_app; destruct b; [done|cbn; lia]).
  destruct (Nat.ltb_spec (length (b ++ arcs rest) + 1) 2); [lia|].
  rewrite IH; [| |lia].
  2:{ intros q y Hq. apply Hno. etrans; [exact Hq|]. by apply prefix_app_r. }
  replace (length (b ++ arcs rest) + 1 - 1)%nat with (length (b ++ arcs rest)) by lia. rewrite drop_app_length.
  rewrite fmap_app, app_assoc. cbn [fmap list_fmap to_str]. rewrite no_numeral_label.
  rewrite <- arcs_snoc, <- arcs_app, find_arcs, decide_False by done. done.
Qed.

Lemma resolve_known p rest : known p → (∀ q z, (q ++ [z]) `prefix_of` rest → ¬ known (p ++ q ++ [z])) →
  resolve x (arcs (p ++ rest)) = (arcs p, long (tree mibs) p, arcs rest).
Proof using Hgaps Hnamed Hx.
  intros Hp Hno. destruct (Hgaps p Hp) as [Hne _]. destruct (snoc_inv p Hne) as (p' & z & Heq).
  unfold resolve. rewrite arcs_app. apply resolve_suffix; [by destruct p| | |done].
  - intros fuel Hf. destruct fuel as [|fuel]; [subst; rewrite arcs_snoc, length_app in Hf; cbn in Hf; lia|].
    cbn [getOidLabel]. rewrite find_arcs, decide_True by done. rewrite Heq, arcs_snoc, no_number_label. done.
  - intros q y Hq. rewrite <- arcs_app, find_arcs. specialize (Hno q y Hq). by rewrite decide_False.
Qed.
Lemma resolve_label p rest : known p → (∀ q z, (q ++ [z]) `prefix_of` rest → ¬ known (p ++ q ++ [z])) →
  resolve x (long (tree mibs) p ++ arcs rest) = (arcs p, long (tree mibs) p, arcs rest).
Proof using Hgaps Hnamed Hx.
  intros Hp Hno. destruct (long_ends p Hp) as (n & Hl & _). unfold resolve.
  apply resolve_suffix; [rewrite Hl; by destruct (long _ (removelast p))| | |done].
  - intros fuel Hf. destruct fuel as [|fuel]; [rewrite Hl, length_app in Hf; cbn [length] in Hf; lia|].
    cbn [getOidLabel]. by rewrite label_known.
  - intros q y Hq. split; [|by apply Hno]. unfold find_label.
    rewrite Hl, <- app_assoc. change ([Name n] ++ arcs (q ++ [y])) with (Name n :: arcs (q ++ [y])).
    by rewrite as_arcs_name.
Qed.
Lemma resolve_unknown o : (∀ q z, (q ++ [z]) `prefix_of` o → ¬ known (q ++ [z])) →
  ∃ n suffix, resolve x (arcs o) = (n, n, suffix).
Proof using Hgaps Hnamed Hx.
  intros Hno. destruct o as [|z rest].
  { exists [], []. unfold resolve. cbn [arcs fmap list_fmap length getOidLabel]. by repeat case_match. } exists (arcs [z]), (arcs rest).
  assert (Hz : ¬ known [z]). { apply (Hno [] z). apply prefix_cons, prefix_nil. }
  unfold resolve. change (arcs (z :: rest)) with (arcs [z] ++ arcs rest). apply resolve_suffix; [done| | |done].
  - intros fuel Hf. destruct fuel as [|fuel]; [cbn in Hf; lia|]. cbn [getOidLabel].
    rewrite find_arcs, decide_False by done. pose proof (no_number_label [] z) as Hn. cbn [app] in Hn.
    change (arcs [z]) with [Arc z]. by rewrite Hn.
  - intros q y Hq. rewrite <- arcs_app, find_arcs.
    assert (¬ known ([z] ++ q ++ [y])). { apply (Hno (z :: q) y). by apply prefix_cons. }
    by rewrite decide_False.
Qed.
End resolution.

(** ** The controller *)
Section controller.
Context {C : Type} `{EqDecision C}.
Context (find_module : C → oid → option string) (loadModules : string → M exn (builder C) unit).
Implicit Types (s : view C).

(** The index is that of what the builder had loaded at its last change, and the
    builder counts its changes. *)
Definition current s : Prop :=
  v_lastBuildId s = lastBuildId (mibBuilder s) → build (mibSymbols (mibBuilder s)) = Ok (mibSymbolsIdx s).

Lemma indexMib_spec s idx : mibCorpus (mibBuilder s) = None → current s →
  build (mibSymbols (mibBuilder s)) = Ok idx →
  ∃ s', indexMib s = (Ok tt, s') ∧ mibBuilder s' = mibBuilder s ∧ mibSymbolsIdx s' = idx ∧ current s'.
Proof.
  intros Hc Hcur Hidx. unfold indexMib.
  assert (Hsee : mibBuilder (see_corpus s) = mibBuilder s ∧ v_lastBuildId (see_corpus s) = v_lastBuildId s ∧
    mibSymbolsIdx (see_corpus s) = mibSymbolsIdx s) by (unfold see_corpus; by case_decide).
  destruct Hsee as (E1 & E2 & E3). rewrite E1, E2.
  destruct (Z.eqb_spec (v_lastBuildId s) (lastBuildId (mibBuilder s))) as [Hid|Hid].
  - rewrite (Hcur Hid) in Hidx. simplify_eq. eexists. split; [done|]. split_and!; [done..|].
    unfold current. by rewrite E1, E2, E3.
  - rewrite Hidx. eexists. split; [done|]. split_and!; [done..|]. unfold current. by cbn.
Qed.

Abbreviation getNodeNameByOid := (View.getNodeNameByOid find_module loadModules).
Lemma getNodeNameByOid_spec s idx x nodeName : mibCorpus (mibBuilder s) = None → current s →
  build (mibSymbols (mibBuilder s)) = Ok idx → dget idx ""%string = Some x →
  ∃ s', getNodeNameByOid nodeName "" s =
    (let '(o, label, suffix) := resolve x nodeName in
     if decide (o = label) then Err no_such_object else Ok (o, label, suffix), s') ∧
    mibBuilder s' = mibBuilder s ∧ mibSymbolsIdx s' = idx ∧ current s'.
Proof.
  intros Hc Hcur Hidx Hx. destruct (indexMib_spec s idx Hc Hcur Hidx) as (s' & Hs' & Hb & Hi & Hcur').
  exists s'. split; [|done]. unfold View.getNodeNameByOid, get_module, mbind, M_bind. rewrite Hs'. cbn beta iota.
  unfold gets, liftR. rewrite Hi, Hx. cbn [from_option_exc].
  assert (Hask : ∀ w : bool, (if w then corpusModuleFor find_module loadModules nodeName "" else mret false) s' = (Ok false, s')).
  { intros [|]; [|done]. unfold corpusModuleFor. rewrite decide_False by tauto. unfold mbind, M_bind, gets.
    cbn beta iota. unfold id. rewrite Hb, Hc. done. }
  rewrite Hask. cbn beta iota. unfold mret, M_ret. destruct (resolve x nodeName) as [[o label] suffix]. by case_decide.
Qed.

(** C29. In the view of loaded modules that leave no gap in the tree, whose symbols are not
    numbers and name the children of a node apart: an identifier resolves to the longest
    part of it that is a node, the names along its path, and the rest; so do these names
    with the rest; and an identifier of which no part is a node raises noSuchObject. *)
Theorem nodes_resolve s idx : mibCorpus (mibBuilder s) = None → current s →
  build (mibSymbols (mibBuilder s)) = Ok idx →
  let t := tree (mibSymbols (mibBuilder s)) in
  no_gaps t → named (mibSymbols (mibBuilder s)) →
  (∀ p rest, p ∈ dkeys t → (∀ q z, (q ++ [z]) `prefix_of` rest → p ++ q ++ [z] ∉ dkeys t) →
     (getNodeNameByOid (arcs (p ++ rest)) "" s).1 = Ok (arcs p, long t p, arcs rest) ∧
     (getNodeNameByOid (long t p ++ arcs rest) "" s).1 = Ok (arcs p, long t p, arcs rest)) ∧
  (∀ o, (∀ q z, (q ++ [z]) `prefix_of` o → q ++ [z] ∉ dkeys t) →
     (getNodeNameByOid (arcs o) "" s).1 = Err no_such_object).
Proof.
  intros Hc Hcur Hidx t Hgaps Hnamed. destruct (build_good _ _ Hidx Hgaps) as (x & Hx & Hgood).
  assert (Hspec : ∀ n, (getNodeNameByOid n "" s).1 = let '(o, label, suffix) := resolve x n in
     if decide (o = label) then Err no_such_object else Ok (o, label, suffix)).
  { intros n. destruct (getNodeNameByOid_spec s idx x n Hc Hcur Hidx Hx) as (s' & -> & _). done. }
  split.
  - intros p rest Hp Hno. subst t. rewrite !Hspec, (resolve_known _ Hgaps Hnamed x Hgood p rest Hp Hno), (resolve_label _ Hgaps Hnamed x Hgood p rest Hp Hno).
    rewrite decide_False; [done|]. intros Heq. destruct (long_ends _ Hgaps Hnamed p Hp) as (n & Hl & _).
    rewrite Hl in Heq. destruct (snoc_inv p) as (p' & z & ->); [by apply Hgaps|].
    rewrite arcs_snoc in Heq. by apply app_inj_tail in Heq as [_ ?].
  - intros o Hno. rewrite Hspec. destruct (resolve_unknown _ Hgaps Hnamed x Hgood o Hno) as (n & suffix & ->).
    by rewrite decide_True.
Qed.
End controller.

(** ** Concrete modules *)

Lemma numeral_head (z : Z) : ∃ c s, pretty z = String c s ∧ (Ascii.nat_of_ascii c <= 57)%nat.
Proof.
  assert (Hc : ∀ x, (Ascii.nat_of_ascii (pretty_N_char x) <= 57)%nat).
  { intros x. unfold pretty_N_char. repeat case_match; vm_compute; lia. }
  assert (Hgo : ∀ x c s, (Ascii.nat_of_ascii c <= 57)%nat →
    ∃ c' s', pretty_N_go x (String c s) = String c' s' ∧ (Ascii.nat_of_ascii c' <= 57)%nat).
  { intros x. induction (N.lt_wf_0 x) as [x _ IH]; intros c s Hle.
    destruct (decide (x = 0)%N) as [->|]; [rewrite pretty_N_go_0; eauto|].
    rewrite pretty_N_go_step by lia. apply IH; [apply N.div_lt; lia|apply Hc]. }
  assert (Hpos : ∀ p : positive, ∃ c s, pretty p = String c s ∧ (Ascii.nat_of_ascii c <= 57)%nat).
  { intros p. unfold pretty, pretty_positive, pretty, pretty_N. rewrite decide_False by done.
    rewrite pretty_N_go_step by lia. by apply Hgo. }
  destruct z as [|p|p].
  - eexists _, _. split; [vm_compute; reflexivity|vm_compute; lia].
  - apply Hpos.
  - destruct (Hpos p) as (c & s & Hp & _). exists (Ascii.ascii_of_nat 45), (pretty p). split; [reflexivity|vm_compute; lia].
Qed.
(** A symbol starts with a letter. *)
Definition word (n : string) : bool :=
  match n with String c _ => (58 <=? Ascii.nat_of_ascii c)%nat | EmptyString => false end.
Lemma word_no_numeral n (z : Z) : word n = true → n ≠ pretty z.
Proof.
  intros Hw Heq. destruct (numeral_head z) as (c & s & Hp & Hc). rewrite Heq, Hp in Hw.
  cbn [word] in Hw. apply Nat.leb_le in Hw. lia.
Qed.

Definition demo_mibs : dict string symbols :=
  [("SMI", [(moduleID, SNode (KIdentity ["2001-01-01 00:00"]) [1; 3]); ("iso", SNode KOther [1]); ("org", SNode KOther [1; 3]);
            ("dod", SNode KOther [1; 3; 6])]);
   ("IF-MIB", [("ifIndex", SNode KColumn [1; 3; 6; 1; 1]); ("ifEntry", SNode KRow [1; 3; 6; 1]);
               ("ifDescr", SNode KColumn [1; 3; 6; 1; 2]); ("Descr", SType)])]%string.
Definition demo_view : view unit := init (mk_builder demo_mibs [] 3 None).
Definition demo_index : dict string module_idx :=
  match build demo_mibs with Ok i => i | Err _ => [] end.
Lemma demo_no_gaps : no_gaps (tree demo_mibs).
Proof.
  assert (Hall : forallb (λ o, negb (bool_decide (o = [])) &&
     (bool_decide (length o = 1%nat) || bool_decide (removelast o ∈ dkeys (tree demo_mibs))))
     (dkeys (tree demo_mibs)) = true) by (vm_compute; reflexivity).
  intros o Ho. rewrite forallb_forall in Hall. specialize (Hall o (proj1 (list_elem_of_In _ _) Ho)).
  apply andb_true_iff in Hall as [H1 H2]. apply negb_true_iff, bool_decide_eq_false in H1. split; [done|].
  apply orb_true_iff in H2 as [H2|H2]; apply bool_decide_eq_true in H2; auto.
Qed.
Lemma demo_named : named demo_mibs.
Proof.
  split.
  - assert (Hall : forallb (λ on, word on.2) (nodes demo_mibs) = true) by (vm_compute; reflexivity).
    intros o n z Hin. rewrite forallb_forall in Hall.
    apply word_no_numeral, (Hall (o, n)). by apply list_elem_of_In.
  - assert (Hall : forallb (λ o, forallb (λ o', negb (bool_decide (removelast o = removelast o')) ||
        negb (bool_decide (dget (tree demo_mibs) o = dget (tree demo_mibs) o')) || bool_decide (o = o'))
      (dkeys (tree demo_mibs))) (dkeys (tree demo_mibs)) = true) by (vm_compute; reflexivity).
    intros o o' Ho Ho' Hp Hn. rewrite forallb_forall in Hall.
    specialize (Hall o (proj1 (list_elem_of_In _ _) Ho)). cbn beta in Hall. rewrite forallb_forall in Hall.
    specialize (Hall o' (proj1 (list_elem_of_In _ _) Ho')). cbn beta in Hall.
    rewrite (bool_decide_eq_true_2 _ Hp), (bool_decide_eq_true_2 _ Hn) in Hall. by apply bool_decide_eq_true in Hall.
Qed.
Lemma demo_longest q z : (q ++ [z]) `prefix_of` [0; 7] → [1; 3; 6; 1; 2] ++ q ++ [z] ∉ dkeys (tree demo_mibs).
Proof.
  intros [r Hr]. destruct q as [|a [|b [|c q]]]; cbn in Hr; simplify_eq;
    (apply (bool_decide_unpack _); vm_compute; exact I).
Qed.
Lemma nodes_resolve_witness :
  let label := [Name "iso"; Name "org"; Name "dod"; Name "ifEntry"; Name "ifDescr"]%string in
  (getNodeNameByOid (λ _ _, None) (λ _, mret tt) (arcs [1; 3; 6; 1; 2; 0; 7]) "" demo_view).1 =
    Ok (arcs [1; 3; 6; 1; 2], label, arcs [0; 7]) ∧
  (getNodeNameByOid (λ _ _, None) (λ _, mret tt) (label ++ arcs [0; 7]) "" demo_view).1 =
    Ok (arcs [1; 3; 6; 1; 2], label, arcs [0; 7]).
Proof.
  intros label.
  assert (Hcur : current demo_view) by (intros [=]).
  assert (Hidx : build (mibSymbols (mibBuilder demo_view)) = Ok demo_index) by (vm_compute; reflexivity).
  destruct (nodes_resolve (λ _ _, None) (λ _, mret tt) demo_view demo_index eq_refl Hcur Hidx demo_no_gaps demo_named)
    as [Hknown _].
  apply (Hknown [1; 3; 6; 1; 2] [0; 7]); [|exact demo_longest].
  apply (bool_decide_unpack _). vm_compute. exact I.
Defined.

(** Where a module leaves out the node above, a name is put under the wrong label: the
    label of a node that is not above it, or one that lacks a part of the path. *)
Example labels_under_a_gap :
  let mibs := [("M", [("iso", SNode KOther [1]); ("org", SNode KOther [1; 3]);
                      ("ieee", SNode KOther [1; 3; 111; 2]); ("us", SNode KOther [2; 16])])]%string in
  match build mibs with
  | Ok idx => default [] ((λ x, items x) <$> dget idx ""%string)
  | Err _ => []
  end =
  [([1], [Name "iso"]); ([1; 3], [Name "iso"; Name "org"]);
   (* without "org" *)
   ([1; 3; 111; 2], [Name "iso"; Arc 111; Name "ieee"]);
   ([2; 16], [Name "us"])]%string.
Proof. vm_compute. reflexivity. Qed.
Example label_of_a_stranger :
  let mibs := [("M", [("iso", SNode KOther [1]); ("us", SNode KOther [2; 16])])]%string in
  match build mibs with
  | Ok idx => default [] ((λ x, items x) <$> dget idx ""%string)
  | Err _ => []
  end = [([1], [Name "iso"]); ([2; 16], [Name "iso"; Name "us"])]%string.
Proof. vm_compute. reflexivity. Qed.

(** A position beyond the nodes raises an exception of its own and not noSuchObject. *)
Example position_out_of_range :
  (getOrderedNodeName 7 "" None demo_view).1 = Err IndexError ∧
  (getOrderedNodeName 7 "IF-MIB" (Some "column"%string) demo_view).1 = Err no_such_object ∧
  (getOrderedNodeName 0 "" (Some "column"%string) demo_view).1 = Err KeyError.
Proof. vm_compute. done. Qed.
End ViewSpec.
