(* ===== verification/OidKey.v ===== *)
(** * Sort keys of object identifiers (src/pysnmp/smi/corpus.py)

    A corpus orders its nodes by the octets [oid_key] makes of their names.  The order of
    the keys is that of the names, a subtree is a range of keys, and a key can be read
    back. *)
From S2P Require Export Text.
Import Text.
#[local] Open Scope Z_scope.

Module OidKey.

(** An identifier as text or as a tuple *)
Inductive oid_arg : Type := Dotted (t : text) | Arcs (o : oid).

Definition MAX_ARC : Z := 4294967295.

Definition width (arc : Z) : Z := octets_needed arc.
(** What the loop appends for an arc *)
Definition arc_octets (arc : Z) : octets := width arc :: be_octets (Z.to_nat (width arc)) arc.
Fixpoint append_arcs (arcs : oid) (out : octets) : result exn octets :=
  match arcs with
  | [] => Ok out
  | arc :: arcs =>
      if (arc <? 0) || (MAX_ARC <? arc) then Err (SmiError "sub-identifier out of range")
      else append_arcs arcs (out ++ arc_octets arc)
  end.
Definition arcs_of (a : oid_arg) : result exn oid :=
  match a with
  | Dotted t => match of_dotted t with Ok o => Ok o | Err _ => Err (SmiError "not an OID") end
  | Arcs o => Ok o
  end.
Definition oid_key (a : oid_arg) : result exn octets :=
  arcs ← arcs_of a;
  match arcs with
  | [] => Err (SmiError "empty OID")
  | _ => append_arcs arcs []
  end.

(** The loop goes on in the rest of the key, which gets shorter. *)
Fixpoint read_arcs (fuel : nat) (key : octets) (arcs : list Z) : result exn (list Z) :=
  match fuel, key with
  | _, [] => Ok arcs
  | O, _ => Ok arcs
  | S fuel, w :: rest =>
      if (w <? 1) || (Z.of_nat (length rest) <? w) then Err (SmiError "truncated OID key")
      else read_arcs fuel (drop (Z.to_nat w) rest) (arcs ++ [from_be (take (Z.to_nat w) rest)])
  end.
Definition oid_from_key (key : octets) : result exn text :=
  arcs ← read_arcs (length key) key [];
  match arcs with
  | [] => Err (SmiError "empty OID key")
  | _ => Ok (dotted arcs)
  end.

(** [while out and out[-1] == 0xFF: out.pop()], on the reversed octets *)
Fixpoint drop_full (r : octets) : octets :=
  match r with b :: r' => if b =? 255 then drop_full r' else r | [] => [] end.
Definition subtree_bound (key : octets) : octets :=
  match drop_full (reverse key) with
  | [] => key ++ [255]
  | b :: r => reverse (b + 1 :: r)
  end.

(** ** Octets of an arc *)

Definition arc_ok (arc : Z) : Prop := 0 ≤ arc ≤ MAX_ARC.
Definition name_ok (o : oid) : Prop := o ≠ [] ∧ Forall arc_ok o.
#[global] Instance arc_ok_dec arc : Decision (arc_ok arc) := _.
#[global] Instance name_ok_dec o : Decision (name_ok o) := _.

(** The key of a name *)
Definition key_of (o : oid) : octets := concat (arc_octets <$> o).

Lemma append_arcs_ok arcs out : Forall arc_ok arcs → append_arcs arcs out = Ok (out ++ key_of arcs).
Proof.
  intros Hall. revert out. induction Hall as [|arc arcs [Hlo Hhi] Hall IH]; intros out; cbn [append_arcs].
  { by rewrite app_nil_r. }
  rewrite (proj2 (Z.ltb_ge arc 0)), (proj2 (Z.ltb_ge MAX_ARC arc)) by done. cbn [orb].
  rewrite IH. f_equal. unfold key_of. by rewrite fmap_cons, <- (assoc_L (++)).
Qed.
Lemma oid_key_ok o : name_ok o → oid_key (Arcs o) = Ok (key_of o).
Proof.
  intros [Hne Hall]. unfold oid_key. cbn. destruct o as [|arc o]; [done|]. by rewrite append_arcs_ok.
Qed.
Lemma append_arcs_bad arcs out : ¬ Forall arc_ok arcs → ∃ m, append_arcs arcs out = Err (SmiError m).
Proof.
  revert out. induction arcs as [|arc arcs IH]; intros out Hno; [by destruct Hno|]. cbn [append_arcs].
  destruct ((arc <? 0) || (MAX_ARC <? arc)) eqn:Hr; [by eexists|]. apply IH. intros Hall. apply Hno.
  bool_to_prop. by constructor.
Qed.
(** A tuple that is no name of an object has no key. *)
Lemma oid_key_bad o : ¬ name_ok o → ∃ m, oid_key (Arcs o) = Err (SmiError m).
Proof.
  intros Hno. unfold oid_key. cbn. destruct o as [|arc o]; [by eexists|].
  apply append_arcs_bad. intros Hall. by apply Hno.
Qed.
Lemma oid_key_inv o k : oid_key (Arcs o) = Ok k → name_ok o ∧ k = key_of o.
Proof.
  intros Hk. destruct (decide (name_ok o)) as [Ho|Hno].
  - rewrite oid_key_ok in Hk by done. by injection Hk.
  - destruct (oid_key_bad o Hno) as (m & Hm). congruence.
Qed.

Lemma width_mono a b : 0 ≤ a ≤ b → width a ≤ width b.
Proof. apply octets_needed_mono. Qed.
Lemma width_pos a : 1 ≤ width a.
Proof. apply octets_needed_pos. Qed.
Lemma width_bound a : arc_ok a → width a ≤ 4.
Proof. intros Ha. change 4 with (width MAX_ARC). apply width_mono. exact Ha. Qed.
Lemma width_enough a : 0 ≤ a → a < 256 ^ width a.
Proof. apply octets_needed_enough. Qed.

(** ** The order *)

Lemma tuple_compare_app p a b : tuple_compare (p ++ a) (p ++ b) = tuple_compare a b.
Proof. induction p as [|x p IH]; cbn; [done|]. by rewrite Z.compare_refl. Qed.

Lemma be_octets_cons n v : 0 ≤ v → v < 256 ^ Z.of_nat (S n) →
  be_octets (S n) v = v / 256 ^ Z.of_nat n :: be_octets n v.
Proof.
  intros Hv Hb. cbn [be_octets]. f_equal. rewrite land_255, Z.shiftr_div_pow2 by lia.
  replace (2 ^ (8 * Z.of_nat n)) with (256 ^ Z.of_nat n) by (rewrite Z.pow_mul_r by lia; done).
  assert (0 < 256 ^ Z.of_nat n) by (apply Z.pow_pos_nonneg; lia).
  apply Z.mod_small. split; [by apply Z.div_pos|]. apply Z.div_lt_upper_bound; [done|].
  rewrite Nat2Z.inj_succ, Z.pow_succ_r in Hb by lia. lia.
Qed.
Lemma be_octets_mod n v : be_octets n v = be_octets n (v mod 256 ^ Z.of_nat n).
Proof.
  assert (Hgo : ∀ m, (n ≤ m)%nat → be_octets n v = be_octets n (v mod 256 ^ Z.of_nat m)); [|by apply Hgo].
  induction n as [|n IH]; intros m Hm; [done|]. cbn [be_octets]. rewrite <- IH by lia. f_equal.
  rewrite !land_255, !Z.shiftr_div_pow2 by lia.
  replace (2 ^ (8 * Z.of_nat n)) with (256 ^ Z.of_nat n) by (rewrite Z.pow_mul_r by lia; done).
  assert (0 < 256 ^ Z.of_nat n) by (apply Z.pow_pos_nonneg; lia).
  assert (0 < 256 ^ Z.of_nat (m - n - 1)) by (apply Z.pow_pos_nonneg; lia).
  replace (256 ^ Z.of_nat m) with (256 ^ Z.of_nat n * (256 * 256 ^ Z.of_nat (m - n - 1))).
  2:{ rewrite <- Z.pow_succ_r, <- Z.pow_add_r by lia. f_equal. lia. }
  rewrite Z.rem_mul_r by lia. rewrite Z.mul_comm, Z.div_add by lia.
  rewrite (Z.div_small (v mod _)) by (apply Z.mod_pos_bound; lia). rewrite Z.add_0_l.
  rewrite Z.rem_mul_r by lia. rewrite Z.mul_comm, Z.mod_add by lia. by rewrite Z.mod_mod by lia.
Qed.
Lemma be_octets_lt n a b x y : 0 ≤ a < b → b < 256 ^ Z.of_nat n →
  tuple_compare (be_octets n a ++ x) (be_octets n b ++ y) = Lt.
Proof.
  revert a b. induction n as [|n IH]; intros a b Hab Hb; [cbn in Hb; lia|].
  rewrite !be_octets_cons by lia. cbn [app tuple_compare].
  assert (Hp : 0 < 256 ^ Z.of_nat n) by (apply Z.pow_pos_nonneg; lia).
  destruct (Z.compare_spec (a / 256 ^ Z.of_nat n) (b / 256 ^ Z.of_nat n)) as [Heq| |Hgt]; [|done|].
  - rewrite (be_octets_mod n a), (be_octets_mod n b). apply IH; [|apply Z.mod_pos_bound; lia].
    split; [apply Z.mod_pos_bound; lia|].
    pose proof (Z.div_mod a (256 ^ Z.of_nat n) ltac:(lia)).
    pose proof (Z.div_mod b (256 ^ Z.of_nat n) ltac:(lia)). rewrite Heq in *. lia.
  - pose proof (Z.div_le_mono a b (256 ^ Z.of_nat n) Hp ltac:(lia)). lia.
Qed.
(** A smaller arc comes first, whatever follows. *)
Lemma arc_octets_lt a b x y : 0 ≤ a < b → tuple_compare (arc_octets a ++ x) (arc_octets b ++ y) = Lt.
Proof.
  intros Hab. unfold arc_octets. cbn [app tuple_compare].
  pose proof (width_mono a b ltac:(lia)). destruct (Z.compare_spec (width a) (width b)) as [Heq| |]; [|done|lia].
  rewrite Heq. apply be_octets_lt; [done|]. pose proof (width_pos b). rewrite Z2Nat.id by lia.
  apply width_enough. lia.
Qed.

Lemma key_of_cons a o : key_of (a :: o) = arc_octets a ++ key_of o.
Proof. done. Qed.
Lemma key_of_app o o' : key_of (o ++ o') = key_of o ++ key_of o'.
Proof. unfold key_of. by rewrite fmap_app, concat_app. Qed.

(** The order of the keys is the order of the names. *)
Lemma key_of_compare a b : Forall arc_ok a → Forall arc_ok b →
  tuple_compare (key_of a) (key_of b) = tuple_compare a b.
Proof.
  intros Ha. revert b. induction Ha as [|x a Hx Ha IH]; intros [|y b] Hb; try done.
  apply Forall_cons_1 in Hb as [Hy Hb]. rewrite !key_of_cons. cbn [tuple_compare].
  destruct (Z.compare_spec x y) as [->|Hlt|Hgt].
  - rewrite tuple_compare_app. by apply IH.
  - apply arc_octets_lt. destruct Hx. lia.
  - rewrite tuple_compare_antisym, arc_octets_lt; [done|]. destruct Hy. lia.
Qed.
Lemma key_of_inj a b : Forall arc_ok a → Forall arc_ok b → key_of a = key_of b → a = b.
Proof. intros Ha Hb Heq. apply tuple_compare_eq. rewrite <- key_of_compare by done. by apply tuple_compare_eq. Qed.
Lemma key_of_prefix p o : Forall arc_ok p → Forall arc_ok o → key_of p `prefix_of` key_of o ↔ p `prefix_of` o.
Proof.
  intros Hp. split; [|intros [r ->]; rewrite key_of_app; by apply prefix_app_r].
  revert o H. induction Hp as [|x p Hx Hp IH]; intros o Ho [r Hr]; [apply prefix_nil|].
  destruct Ho as [|y o Hy Ho]; [done|]. rewrite !key_of_cons, <- (assoc_L (++)) in Hr.
  destruct (Z.compare_spec x y) as [->|Hlt|Hgt].
  - apply app_inv_head in Hr. apply prefix_cons, IH; [done|by exists r].
  - pose proof (arc_octets_lt x y (key_of p ++ r) (key_of o)) as Hc. rewrite <- Hr in Hc.
    rewrite (proj2 (tuple_compare_eq _ _) eq_refl) in Hc. destruct Hx. by discriminate Hc.
  - pose proof (arc_octets_lt y x (key_of o) (key_of p ++ r)) as Hc. rewrite <- Hr in Hc.
    rewrite (proj2 (tuple_compare_eq _ _) eq_refl) in Hc. destruct Hy. by discriminate Hc.
Qed.

(** ** A subtree is a range *)

Lemma drop_full_spec l : ∃ n, reverse l = reverse (replicate n 255) ++ drop_full (reverse l).
Proof.
  generalize (reverse l). intros r. induction r as [|b r [n IH]]; [by exists 0%nat|]. cbn [drop_full].
  destruct (b =? 255) eqn:Hb; bool_to_prop; [|by exists 0%nat].
  exists (S n). rewrite IH at 1. rewrite replicate_S_end, reverse_snoc. by subst.
Qed.
Lemma drop_full_head l b r : drop_full l = b :: r → b ≠ 255.
Proof.
  induction l as [|x l IH]; cbn [drop_full]; [done|]. destruct (x =? 255) eqn:Hx; bool_to_prop; [done|].
  by intros [= -> ->].
Qed.
(** A key that is not all 255, in parts, and its bound *)
Lemma subtree_bound_parts key b r : drop_full (reverse key) = b :: r →
  ∃ n, key = reverse r ++ [b] ++ replicate n 255 ∧ subtree_bound key = reverse r ++ [b + 1] ∧ b ≠ 255.
Proof.
  intros Hd. destruct (drop_full_spec key) as [n Hn]. rewrite Hd in Hn. exists n. split; [|split].
  - rewrite <- (reverse_involutive key), Hn, reverse_app, reverse_involutive, reverse_cons. by rewrite <- (assoc_L (++)).
  - unfold subtree_bound. rewrite Hd. by rewrite reverse_cons.
  - by eapply drop_full_head.
Qed.
Lemma full_prefix n x : is_octets x → tuple_leb (replicate n 255) x = true → replicate n 255 `prefix_of` x.
Proof.
  unfold tuple_leb. revert x. induction n as [|n IH]; intros x Hx Hle; [apply prefix_nil|].
  destruct Hx as [|c x Hc Hx]; [done|]. cbn [replicate tuple_compare] in Hle. destruct Hc.
  destruct (Z.compare_spec 255 c) as [<-| |]; [|lia|done]. by apply prefix_cons, IH.
Qed.
Lemma between p b n x : is_octets x →
  tuple_leb (p ++ [b] ++ replicate n 255) x = true → tuple_ltb x (p ++ [b + 1]) = true →
  p ++ [b] ++ replicate n 255 `prefix_of` x.
Proof.
  unfold tuple_leb, tuple_ltb. revert x. induction p as [|a p IH]; intros x Hx Hlo Hhi.
  - destruct Hx as [|c x Hc Hx]; [done|]. cbn in Hlo, Hhi |- *.
    destruct (Z.compare_spec b c) as [<-| |]; [by apply prefix_cons, full_prefix| |done].
    destruct (Z.compare_spec c (b + 1)) as [->| |]; [by destruct x|lia|done].
  - destruct Hx as [|c x Hc Hx]; [done|]. cbn in Hlo, Hhi |- *.
    destruct (Z.compare_spec a c) as [<-| |]; [| |done].
    + rewrite Z.compare_refl in Hhi. by apply prefix_cons, IH.
    + destruct (Z.compare_spec c a) as [->| |]; [lia|lia|done].
Qed.
Lemma subtree_range key x : is_octets x → ¬ Forall (eq 255) key →
  tuple_leb key x = true ∧ tuple_ltb x (subtree_bound key) = true ↔ key `prefix_of` x.
Proof.
  intros Hx Hkey. destruct (drop_full (reverse key)) as [|b r] eqn:Hd.
  { destruct Hkey. destruct (drop_full_spec key) as [n Hn]. rewrite Hd, app_nil_r in Hn.
    apply (inj reverse) in Hn as ->. apply Forall_replicate. done. }
  destruct (subtree_bound_parts key b r Hd) as (n & Hk & Hb & Hne). rewrite Hb. split.
  - intros [Hlo Hhi]. rewrite Hk in *. by apply between.
  - intros [s ->]. split.
    + unfold tuple_leb. rewrite <- (app_nil_r key) at 1. rewrite tuple_compare_app. by destruct s.
    + unfold tuple_ltb. rewrite Hk, <- !(assoc_L (++)), tuple_compare_app. cbn [app tuple_compare].
      by rewrite (proj2 (Z.compare_lt_iff b (b + 1))) by lia.
Qed.

Lemma arc_octets_are_octets a : arc_ok a → is_octets (arc_octets a).
Proof.
  intros Ha. constructor; [|apply be_octets_is_octets]. pose proof (width_pos a). pose proof (width_bound a Ha).
  unfold is_octet. lia.
Qed.
Lemma key_of_octets o : Forall arc_ok o → is_octets (key_of o).
Proof.
  intros Ho. induction Ho; [constructor|]. rewrite key_of_cons. apply Forall_app. split; [|done].
  by apply arc_octets_are_octets.
Qed.
Lemma key_not_full o : name_ok o → ¬ Forall (eq 255) (key_of o).
Proof.
  intros [Hne Hall] Hf. destruct Hall as [|a o Ha Hall]; [done|]. rewrite key_of_cons in Hf. cbn [arc_octets app] in Hf.
  apply Forall_cons_1 in Hf as [Hw _]. pose proof (width_bound a Ha). lia.
Qed.

(** ** Reading a key back *)

Lemma read_arcs_ok o fuel acc : Forall arc_ok o → (length (key_of o) ≤ fuel)%nat →
  read_arcs fuel (key_of o) acc = Ok (acc ++ o).
Proof.
  intros Ho. revert fuel acc. induction Ho as [|a o Ha Ho IH]; intros fuel acc Hf.
  { rewrite app_nil_r. by destruct fuel. }
  rewrite key_of_cons in *. unfold arc_octets in *. cbn [app] in *.
  pose proof (width_pos a). pose proof (width_bound a Ha).
  destruct fuel as [|fuel]; [cbn in Hf; lia|]. cbn [read_arcs].
  rewrite (proj2 (Z.ltb_ge (width a) 1)) by done.
  rewrite length_app, length_be_octets.
  rewrite (proj2 (Z.ltb_ge _ (width a))) by lia. cbn [orb].
  rewrite drop_app_length' by (by rewrite length_be_octets). rewrite take_app_length' by (by rewrite length_be_octets).
  rewrite IH by (cbn in Hf; rewrite length_app, length_be_octets in Hf; lia).
  rewrite <- (assoc_L (++)). do 2 f_equal. cbn [app]. f_equal.
  unfold from_be. rewrite from_be_octets. rewrite Z2Nat.id by lia. destruct Ha.
  rewrite Z.mod_small by (split; [done|]; by apply width_enough). lia.
Qed.
End OidKey.
