(* ===== verification/Corpus.v ===== *)
(** * MIB corpora (src/pysnmp/smi/corpus.py)

    A corpus is a database of the nodes of MIB modules.  A row of a table is a record,
    a table a list of rows, and a query what SQLite answers it with; where a query asks
    for no order the rows come in that of the list.  The columns that hold JSON are
    decoded by a parameter.  The corpora of a composite are distinct objects. *)
From S2P Require Export PyDict OidKey.
Import Text OidKey.
#[local] Open Scope Z_scope.

(** Two keys, compared one after the other *)
Definition pair_leb (a b : list Z * list Z) : bool :=
  match tuple_compare a.1 b.1 with Lt => true | Eq => tuple_leb a.2 b.2 | Gt => false end.

Module Corpus.

(** ** The tables *)
Record node_row : Type := mk_node {
  oid_key_ : octets;
  n_module : string;
  n_name : string;
  n_oid : text;
  n_class : string;
  n_nodetype : option string;
  n_status : option string;
  n_maxaccess : option string;
  n_units : option string;
  n_syntax : option Z;
  n_defval : option string;
  n_indices : option string;
  n_augments : option string;
}.
Record symbol_row : Type := mk_symbol {
  s_module : string;
  s_name : string;
  s_class : string;
  s_status : option string;
  s_displayhint : option string;
  s_type : option Z;
}.
Record module_row : Type := mk_module {
  m_name : string;
  m_tier : option string;
  m_oid : option text;
  m_lastupdated : option string;
  m_revision : option string;
  m_hash : option string;
  m_nodes : Z;
}.
Record origin : Type := mk_origin { namespace : string; file : string; digest : string }.

Record database : Type := mk_db {
  meta_table : dict string string;
  oid_index : dict octets string;
  node_table : list node_row;
  symbol_table : list symbol_row;
  import_table : list (string * (string * string));
  provenance_table : dict string origin;
  type_table : dict Z string;
  module_table : list module_row;
}.

(** *** QUERIES *)
Definition by_key_module (r : node_row) : list Z * list Z := (oid_key_ r, codes (n_module r)).
Definition node_at (k : octets) (d : database) : option node_row :=
  head (sorted_by tuple_leb (λ r, codes (n_module r)) (filter (λ r, oid_key_ r = k) (node_table d))).
Definition node_at_in (k : octets) (module : string) (d : database) : option node_row :=
  head (filter (λ r, oid_key_ r = k ∧ n_module r = module) (node_table d)).
Definition row_named (module name : string) (d : database) : option node_row :=
  head (filter (λ r, n_module r = module ∧ n_name r = name) (node_table d)).
Definition rows_of (module : string) (d : database) : list node_row :=
  sorted_by tuple_leb oid_key_ (filter (λ r, n_module r = module) (node_table d)).
Definition next_row (k : octets) (d : database) : option node_row :=
  head (sorted_by pair_leb by_key_module (filter (λ r, tuple_ltb k (oid_key_ r) = true) (node_table d))).
Definition rows_between (low high : octets) (d : database) : list node_row :=
  sorted_by pair_leb by_key_module
    (filter (λ r, tuple_leb low (oid_key_ r) = true ∧ tuple_ltb (oid_key_ r) high = true) (node_table d)).
Definition symbols (module : string) (d : database) : list symbol_row :=
  sorted_by tuple_leb (λ r, codes (s_name r)) (filter (λ r, s_module r = module) (symbol_table d)).
Definition symbol_named (module name : string) (d : database) : option symbol_row :=
  head (filter (λ r, s_module r = module ∧ s_name r = name) (symbol_table d)).
Definition imports (module : string) (d : database) : list (string * string) :=
  snd <$> filter (λ r, r.1 = module) (import_table d).
Definition module_named (name : string) (d : database) : option module_row :=
  head (filter (λ r, m_name r = name) (module_table d)).

(** ** Ranking *)

Definition TIERS : list string := ["standard"; "draft"; "vendor"]%string.
Definition OBJECT_CLASSES : list string := ["objecttype"; "notificationtype"]%string.

(** [not revision] *)
Definition stated (revision : option string) : option string :=
  match revision with Some EmptyString | None => None | Some r => Some r end.
(** The first of the candidates with the greatest revision *)
Fixpoint newest {A} (best : A * string) (candidates : list (A * option string)) : A :=
  match candidates with
  | [] => best.1
  | (a, r) :: candidates =>
      let r := default ""%string r in
      newest (if tuple_ltb (codes best.2) (codes r) then (a, r) else best) candidates
  end.
Definition best_by_revision {A} (candidates : list (A * option string)) : option A :=
  match candidates with
  | [] => None
  | (a, r) :: rest =>
      if forallb (λ c, if stated c.2 then true else false) candidates &&
         negb (forallb (λ c, bool_decide (c.2 = r)) rest)
      then Some (newest (a, default ""%string r) rest)
      else Some a
  end.

Definition is_decimal (c : Z) : bool := (48 <=? c) && (c <=? 57).
Definition revision_rank (revision : option string) : Z :=
  match stated revision with
  | None => 0
  | Some r =>
      let r := take 12 (codes r) in
      if forallb is_decimal r then - default 0 (int_of 10 r) else 0
  end.

(** A rank compares its numbers, then the name. *)
Abbreviation rank := (list Z).
Fixpoint least (best : string * rank) (candidates : list (string * rank)) : string :=
  match candidates with
  | [] => best.1
  | c :: candidates => least (if tuple_ltb c.2 best.2 then c else best) candidates
  end.
Definition best_by_corpus_rank (candidates : list (string * rank)) : option string :=
  match candidates with [] => None | c :: rest => Some (least c rest) end.

(** [TIERS.index(tier) if tier in TIERS else len(TIERS)] *)
Definition tier_rank (tier : option string) : Z :=
  match tier with
  | Some t => match list_find (λ x, x = t) TIERS with Some (i, _) => Z.of_nat i | None => Z.of_nat (length TIERS) end
  | None => Z.of_nat (length TIERS)
  end.

(** ** One corpus *)
Section corpus.
Context {json : Type} (loads : string → result exn json).

(** What [_node] makes of a row *)
Record node : Type := mk {
  row : node_row;
  defval : option json;
  indices : option json;
  augments : option json;
  syntax : option json;
  arcs : oid;
}.
Record symbol : Type := mk_sym { sym : symbol_row; type : option json }.

Record MibCorpus : Type := mk_corpus {
  path : string;
  db : database;
  closed : bool;
  provenance_ : bool;
  types : dict Z (option json);
  modules_ : option (list string);
}.
Abbreviation C := (M exn MibCorpus).
Definition put_types (t : dict Z (option json)) (c : MibCorpus) : MibCorpus :=
  mk_corpus (path c) (db c) (closed c) (provenance_ c) t (modules_ c).
Definition put_modules (m : list string) (c : MibCorpus) : MibCorpus :=
  mk_corpus (path c) (db c) (closed c) (provenance_ c) (types c) (Some m).
Definition close (c : MibCorpus) : MibCorpus :=
  mk_corpus (path c) (db c) true (provenance_ c) (types c) (modules_ c).

(** What is at a path: nothing, something SQLite cannot open, a file that is no
    database, or a database with the two numbers of its header *)
Inductive on_disk : Type :=
  | Missing
  | Unopenable
  | NotADatabase
  | Database (application version : Z) (d : database).
Definition APPLICATION_ID : Z := 1347636553.
Definition SCHEMA_VERSIONS : list Z := [1; 2].
Definition PROVENANCE_SCHEMA : Z := 2.
Definition init (disk : string → on_disk) (p : string) : result exn MibCorpus :=
  match disk p with
  | Missing => Err (SmiError "no MIB corpus")
  | Unopenable => Err (SmiError "cannot open MIB corpus")
  | NotADatabase => Err (SmiError "is not a MIB corpus")
  | Database application version d =>
      if negb (application =? APPLICATION_ID) then Err (SmiError "is not a MIB corpus: application_id")
      else if negb (bool_decide (version ∈ SCHEMA_VERSIONS)) then Err (SmiError "schema version")
      else Ok (mk_corpus p d false (PROVENANCE_SCHEMA <=? version) [] None)
  end.

(** A query; a closed database refuses it. *)
Definition ask {A} (q : database → A) : C A := fun c =>
  if closed c then (Err (DatabaseError "Cannot operate on a closed database."), c) else (Ok (q (db c)), c).

Definition meta (key : string) : C (option string) := ask (λ d, dget (meta_table d) key).
Definition loadTexts : C bool := t ← meta "texts"; mret (bool_decide (t = Some "1"%string)).
Definition modules : C (list string) :=
  m ← gets modules_;
  match m with
  | Some m => mret m
  | None => m ← ask (λ d, m_name <$> module_table d); modify (put_modules m);; mret m
  end.
Definition module (name : string) : C (option module_row) := ask (module_named name).

Definition type_spec (identifier : option Z) : C (option json) :=
  match identifier with
  | None => mret None
  | Some i =>
      t ← gets types;
      match dget t i with
      | Some spec => mret spec
      | None =>
          r ← ask (λ d, dget (type_table d) i);
          spec ← liftR (match r with Some r => Some <$> loads r | None => Ok None end);
          modify (λ c, put_types (dset (types c) i spec) c);;
          mret spec
      end
  end.
(** [json.loads(field) if field else None] *)
Definition decoded (field : option string) : result exn (option json) :=
  match stated field with Some f => Some <$> loads f | None => Ok None end.
Definition node_of (r : node_row) : C node :=
  defval ← liftR (decoded (n_defval r));
  indices ← liftR (decoded (n_indices r));
  augments ← liftR (decoded (n_augments r));
  syntax ← type_spec (n_syntax r);
  arcs ← liftR (of_dotted (n_oid r));
  mret (mk r defval indices augments syntax arcs).
Definition maybe_node (r : option node_row) : C (option node) :=
  match r with Some r => n ← node_of r; mret (Some n) | None => mret None end.
Fixpoint traverse {A B} (f : A → C B) (l : list A) : C (list B) :=
  match l with
  | [] => mret []
  | x :: l => y ← f x; ys ← traverse f l; mret (y :: ys)
  end.

Definition anchor (o : oid_arg) : C (option string) :=
  k ← liftR (oid_key o); ask (λ d, dget (oid_index d) k).

(** The loop of [find_module], from the whole name to its first arc *)
Fixpoint chop {S} (anchor : oid → M exn S (option string)) (fuel : nat) (arcs : oid) : M exn S (option string) :=
  match fuel, arcs with
  | S fuel, _ :: _ =>
      found ← anchor arcs;
      match found with Some m => mret (Some m) | None => chop anchor fuel (removelast arcs) end
  | _, _ => mret None
  end.
(** [[int(x) for x in oid.split(".")]] or [list(oid)] *)
Definition arcs_list (o : oid_arg) : result exn oid :=
  match o with Dotted t => of_dotted t | Arcs o => Ok o end.
Definition find_module (o : oid_arg) : C (option string) :=
  arcs ← liftR (arcs_list o);
  chop (λ a, anchor (Arcs a)) (length arcs) arcs.

Definition get_node (o : oid_arg) (module : option string) : C (option node) :=
  k ← liftR (oid_key o);
  r ← ask (match module with None => node_at k | Some m => node_at_in k m end);
  maybe_node r.
Definition node_named (module name : string) : C (option node) :=
  r ← ask (row_named module name); maybe_node r.
Definition next_node (o : oid_arg) : C (option node) :=
  k ← liftR (oid_key o); r ← ask (next_row k); maybe_node r.
Definition subtree (o : oid_arg) : C (list node) :=
  low ← liftR (oid_key o);
  l ← ask (rows_between low (subtree_bound low));
  traverse node_of l.
Definition nodes_of (module : string) : C (list node) :=
  l ← ask (rows_of module); traverse node_of l.
Definition symbol_of (r : symbol_row) : C symbol := t ← type_spec (s_type r); mret (mk_sym r t).
Definition symbols_of (module : string) : C (list symbol) :=
  l ← ask (symbols module); traverse symbol_of l.
Definition get_symbol (module name : string) : C (option symbol) :=
  r ← ask (symbol_named module name);
  match r with Some r => s ← symbol_of r; mret (Some s) | None => mret None end.
(** [dict(...)]: of two rows for a name the last stays. *)
Definition imports_of (module : string) : C (dict string string) :=
  l ← ask (imports module); mret (foldl (λ d kv, dset d kv.1 kv.2) ([] : dict string string) l).
Definition provenance (module : string) : C (option origin) :=
  p ← gets provenance_;
  if (p : bool) then ask (λ d, dget (provenance_table d) module) else mret None.

(** ** Several corpora *)

(** The order in which Python goes through a set *)
Context (set_order : list string → list string).

Record CompositeMibCorpus : Type := mk_composite {
  corpora : list MibCorpus;
  all_modules_ : option (list string);
  owners : dict string (option nat);
  ranks : dict string rank;
}.
Abbreviation K := (M exn CompositeMibCorpus).
Definition put_corpora (l : list MibCorpus) (s : CompositeMibCorpus) : CompositeMibCorpus :=
  mk_composite l (all_modules_ s) (owners s) (ranks s).
Definition put_all_modules (m : list string) (s : CompositeMibCorpus) : CompositeMibCorpus :=
  mk_composite (corpora s) (Some m) (owners s) (ranks s).
Definition put_owners (o : dict string (option nat)) (s : CompositeMibCorpus) : CompositeMibCorpus :=
  mk_composite (corpora s) (all_modules_ s) o (ranks s).
Definition put_ranks (r : dict string rank) (s : CompositeMibCorpus) : CompositeMibCorpus :=
  mk_composite (corpora s) (all_modules_ s) (owners s) r.
Definition composite (l : list MibCorpus) : result exn CompositeMibCorpus :=
  match l with
  | [] => Err (SmiError "a composite MIB corpus needs at least one corpus")
  | _ => Ok (mk_composite l None [] [])
  end.

(** A call on the corpus at a position *)
Definition on {A} (i : nat) (m : M exn MibCorpus A) : K A := fun s =>
  match corpora s !! i with
  | Some c => let '(r, c') := m c in (r, put_corpora (<[i := c']> (corpora s)) s)
  | None => (Err IndexError, s)
  end.
Fixpoint fold_corpora {A} (f : nat → A → K A) (l : list nat) (a : A) : K A :=
  match l with [] => mret a | i :: l => a ← f i a; fold_corpora f l a end.
(** [for corpus in self._corpora] *)
Definition for_corpora {A} (f : nat → A → K A) (a : A) : K A :=
  n ← gets (λ s, length (corpora s)); fold_corpora f (seq 0 n) a.

Definition close_all : K unit := modify (λ s, put_corpora (close <$> corpora s) s).
Definition all_loadTexts : K bool :=
  for_corpora (λ i a, if (a : bool) then on i loadTexts else mret false) true.
Definition all_meta (key : string) : K (option string) :=
  for_corpora (λ i a, match a with Some v => mret (Some v) | None => on i (meta key) end) None.
Definition all_modules : K (list string) :=
  m ← gets all_modules_;
  match m with
  | Some m => mret m
  | None =>
      m ← for_corpora (λ i a, m ← on i modules; mret (a ++ m)) [];
      modify (put_all_modules (remove_dups m));; mret (remove_dups m)
  end.

Definition candidates (name : string) : K (list (nat * option string)) :=
  for_corpora (λ i a,
    ms ← on i modules;
    if bool_decide (name ∈ ms) then
      r ← on i (module name); mret (a ++ [(i, r ≫= m_revision)])
    else mret a) [].
Definition compute_owner (name : string) : K (option nat) :=
  l ← candidates name; mret (best_by_revision l).
Definition owner (name : string) : K (option nat) :=
  o ← gets owners;
  match dget o name with
  | Some w => mret w
  | None =>
      w ← compute_owner name;
      modify (λ s, put_owners (dset (owners s) name w) s);;
      mret w
  end.
(** [owner.f(...) if owner else default] *)
Definition by_owner {A} (name : string) (f : M exn MibCorpus A) (other : A) : K A :=
  w ← owner name; match w with Some i => on i f | None => mret other end.
Definition all_module (name : string) : K (option module_row) := by_owner name (module name) None.

Definition status_of_objects (l : list node) : list (option string) :=
  (λ n, n_status (row n)) <$> filter (λ n, n_class (row n) ∈ OBJECT_CLASSES) l.
Definition obsolete (l : list (option string)) : Z :=
  match l with
  | [] => 0
  | _ => if forallb (λ x, bool_decide (x = Some "obsolete"%string)) l then 1 else 0
  end.
Definition compute_rank (name : string) : K rank :=
  record ← all_module name;
  nodes ← by_owner name (nodes_of name) [];
  mret (obsolete (status_of_objects nodes) :: tier_rank (record ≫= m_tier) ::
        revision_rank (record ≫= m_revision) :: codes name).
Definition rank_of (name : string) : K rank :=
  r ← gets ranks;
  match dget r name with
  | Some k => mret k
  | None =>
      k ← compute_rank name;
      modify (λ s, put_ranks (dset (ranks s) name k) s);;
      mret k
  end.

Fixpoint ranked (l : list string) : K (list (string * rank)) :=
  match l with
  | [] => mret []
  | x :: l => k ← rank_of x; t ← ranked l; mret ((x, k) :: t)
  end.
(** The set [seen] *)
Definition seen_by (o : oid_arg) : K (list string) :=
  for_corpora (λ i a, found ← on i (anchor o);
    mret (match found with Some m => if decide (m ∈ a) then a else a ++ [m] | None => a end)) [].
Definition all_anchor (o : oid_arg) : K (option string) :=
  seen ← seen_by o; l ← ranked (set_order seen); mret (best_by_corpus_rank l).
Definition all_find_module (o : oid_arg) : K (option string) :=
  arcs ← liftR (arcs_list o);
  chop (λ a, all_anchor (Arcs a)) (length arcs) arcs.

Definition owned (i : nat) (n : node) : K bool :=
  w ← owner (n_module (row n)); mret (bool_decide (w = Some i)).
Definition all_node (o : oid_arg) (module : option string) : K (option node) :=
  match module with
  | Some m => by_owner m (get_node o module) None
  | None =>
      for_corpora (λ i a,
        match a with
        | Some n => mret (Some n)
        | None =>
            found ← on i (get_node o None);
            match found with
            | Some n => mine ← owned i n; mret (if (mine : bool) then Some n else None)
            | None => mret None
            end
        end) None
  end.
Definition all_node_named (module name : string) : K (option node) :=
  by_owner module (node_named module name) None.

(** [while found is not None and not self._owned(corpus, found)] *)
Fixpoint skip_foreign (fuel : nat) (i : nat) (found : option node) : K (option node) :=
  match found with
  | None => mret None
  | Some n =>
      mine ← owned i n;
      if (mine : bool) then mret (Some n)
      else match fuel with
           | O => mret None
           | S fuel => found ← on i (next_node (Arcs (arcs n))); skip_foreign fuel i found
           end
  end.
Definition all_next_node (o : oid_arg) : K (option node) :=
  best ← for_corpora (λ i (best : option (node * octets)),
    found ← on i (next_node o);
    rows ← on i (gets (λ c, length (node_table (db c))));
    found ← skip_foreign rows i found;
    match found with
    | None => mret best
    | Some n =>
        key ← liftR (oid_key (Arcs (arcs n)));
        mret (match best with
              | None => Some (n, key)
              | Some (_, bound) => if tuple_ltb key bound then Some (n, key) else best
              end)
    end) None;
  mret (fst <$> best).

Fixpoint keep_owned (i : nat) (l : list node) : K (list node) :=
  match l with
  | [] => mret []
  | n :: l => mine ← owned i n; t ← keep_owned i l; mret (if (mine : bool) then n :: t else t)
  end.
Fixpoint keyed (l : list node) : result exn (list (octets * node)) :=
  match l with
  | [] => Ok []
  | n :: l => k ← oid_key (Arcs (arcs n)); t ← keyed l; mret ((k, n) :: t)
  end.
Definition all_subtree (o : oid_arg) : K (list node) :=
  found ← for_corpora (λ i a, l ← on i (subtree o); l ← keep_owned i l; mret (a ++ l)) [];
  l ← liftR (keyed found);
  mret (snd <$> sorted_by pair_leb (λ kn, (kn.1, codes (n_module (row kn.2)))) l).
Definition all_nodes_of (module : string) : K (list node) := by_owner module (nodes_of module) [].
Definition all_symbols_of (module : string) : K (list symbol) := by_owner module (symbols_of module) [].
Definition all_symbol (module name : string) : K (option symbol) :=
  by_owner module (get_symbol module name) None.
Definition all_imports_of (module : string) : K (dict string string) := by_owner module (imports_of module) [].
Definition all_provenance (module : string) : K (option origin) := by_owner module (provenance module) None.

(** ** Opening a search path; the state is [opened]. *)
Fixpoint open_all (disk : string → on_disk) (paths : list string) : M exn (list MibCorpus) unit :=
  match paths with
  | [] => mret tt
  | p :: paths =>
      c ← liftR (init disk p);
      modify (λ l, l ++ [c]);;
      open_all disk paths
  end.
Definition open_corpora (disk : string → on_disk) (paths : list string) :
    M exn (list MibCorpus) (MibCorpus + CompositeMibCorpus) :=
  try_except (open_all disk paths) (λ e, Some (modify (fmap close);; raise e));;
  opened ← gets id;
  match opened with
  | [] => raise (SmiError "no MIB corpus paths given")
  | [c] => mret (inl c)
  | _ => s ← liftR (composite opened); mret (inr s)
  end.
End corpus.
Arguments node : clear implicits.
Arguments symbol : clear implicits.
Arguments MibCorpus : clear implicits.
Arguments CompositeMibCorpus : clear implicits.
End Corpus.
