(* ===== verification/CorpusSpec.v ===== *)
(** * What corpora promise

    Keys order as names do; a module is read from one corpus, whatever was asked before;
    a name belongs to the module of its longest anchor; the next node and the nodes of a
    subtree are those of the modules' owners, in the order of their names. *)
From S2P Require Export Corpus.
Import Text OidKey Corpus.
#[local] Open Scope Z_scope.

(** ** Keys *)
Module OidKeySpec.
(** The keys of two names compare as the names do; one is a prefix of the other, and in
    the range of its subtree, just when the names are; a key reads back as the name in
    dotted text, which has the same key. *)
Theorem keys_order_as_names a b ka kb : oid_key (Arcs a) = Ok ka → oid_key (Arcs b) = Ok kb →
  tuple_compare ka kb = tuple_compare a b ∧
  (ka `prefix_of` kb ↔ a `prefix_of` b) ∧
  (tuple_leb ka kb = true ∧ tuple_ltb kb (subtree_bound ka) = true ↔ a `prefix_of` b) ∧
  oid_from_key ka = Ok (dotted a) ∧ oid_key (Dotted (dotted a)) = Ok ka.
Proof.
  intros (Ha & ->)%oid_key_inv (Hb & ->)%oid_key_inv. pose proof Ha as [Hne Hoka]. pose proof Hb as [_ Hokb].
  split; [by apply key_of_compare|]. split; [by apply key_of_prefix|]. split; [|split].
  - rewrite subtree_range by auto using key_of_octets, key_not_full. by apply key_of_prefix.
  - unfold oid_from_key. rewrite read_arcs_ok by done. cbn. by destruct a.
  - rewrite <- (oid_key_ok a Ha). unfold oid_key, arcs_of. by rewrite of_dotted_dotted.
Qed.
Lemma keys_order_as_names_witness :
  tuple_compare (key_of [1; 3; 70000]) (key_of [1; 3; 70000; 255]) = Lt ∧
  tuple_ltb (key_of [1; 3; 70000; 255]) (subtree_bound (key_of [1; 3; 70000])) = true ∧
  oid_from_key [1; 1; 1; 3; 3; 1; 17; 112] = Ok (codes "1.3.70000").
Proof.
  destruct (keys_order_as_names [1; 3; 70000] [1; 3; 70000; 255] _ _ eq_refl eq_refl) as (Hc & _ & Hr & Hf & _).
  split; [exact Hc|]. split; [|exact Hf]. apply Hr. by exists [255].
Defined.
End OidKeySpec.

(** ** Steady calls *)

(** In every state that satisfies [P] the call ends the same way and keeps [P]. *)
Definition says {E S A} (P : S → Prop) (m : M E S A) (v : result E A) : Prop :=
  ∀ s, P s → ∃ s', m s = (v, s') ∧ P s'.
Definition steady {E S A} (P : S → Prop) (m : M E S A) : Prop := ∃ v, says P m v.
(** It ends with a value in [Q]. *)
Definition gives {E S A} (P : S → Prop) (m : M E S A) (Q : A → Prop) : Prop :=
  ∀ s, P s → ∃ a s', m s = (Ok a, s') ∧ Q a ∧ P s'.

Section steady.
Context {E S : Type} (P : S → Prop).
Implicit Types A B : Type.

Lemma says_ret {A} (a : A) : says P (mret a : M E S A) (Ok a).
Proof. intros s Hs. by exists s. Qed.
Lemma says_liftR {A} (r : result E A) : says P (liftR r) r.
Proof. intros s Hs. by exists s. Qed.
Lemma says_gets {A} (f : S → A) a : (∀ s, P s → f s = a) → says P (gets f : M E S A) (Ok a).
Proof. intros Hf s Hs. exists s. unfold gets. by rewrite (Hf s Hs). Qed.
Lemma says_modify (f : S → S) : (∀ s, P s → P (f s)) → says P (modify f : M E S unit) (Ok tt).
Proof. intros Hf s Hs. exists (f s). auto. Qed.
Lemma says_bind {A B} (m : M E S A) (k : A → M E S B) v w :
  says P m v → (∀ a, v = Ok a → says P (k a) (w a)) → says P (m ≫= k) (v ≫= w).
Proof.
  intros Hm Hk s Hs. destruct (Hm s Hs) as (s' & Heq & Hs'). unfold mbind, M_bind, result_bind. rewrite Heq.
  destruct v as [a|e]; [by apply Hk|by exists s'].
Qed.
Lemma says_then {A B} (m : M E S A) (k : A → M E S B) a w :
  says P m (Ok a) → says P (k a) w → says P (m ≫= k) w.
Proof. intros Hm Hk. apply (says_bind m k (Ok a) (λ _, w) Hm). by intros ? [= <-]. Qed.
Lemma says_det {A} (m : M E S A) v v' s : P s → says P m v → says P m v' → v = v'.
Proof. intros Hs Hv Hv'. destruct (Hv s Hs) as (? & H1 & _), (Hv' s Hs) as (? & H2 & _). congruence. Qed.

Lemma steady_ret {A} (a : A) : steady P (mret a : M E S A).
Proof. eexists. apply says_ret. Qed.
Lemma steady_liftR {A} (r : result E A) : steady P (liftR r).
Proof. eexists. apply says_liftR. Qed.
Lemma steady_bind {A B} (m : M E S A) (k : A → M E S B) :
  steady P m → (∀ a, steady P (k a)) → steady P (m ≫= k).
Proof.
  intros [v Hm] Hk. destruct v as [a|e].
  - destruct (Hk a) as [w Hw]. exists w. apply (says_bind m k (Ok a) (λ _, w) Hm). by intros ? [= <-].
  - exists (Err e). apply (says_bind m k (Err e) (λ _, Err e) Hm). done.
Qed.

Lemma gives_says {A} (m : M E S A) a (Q : A → Prop) : says P m (Ok a) → Q a → gives P m Q.
Proof. intros Hm Hq s Hs. destruct (Hm s Hs) as (s' & ? & ?). by exists a, s'. Qed.
Lemma gives_bind {A B} (m : M E S A) (k : A → M E S B) (Q : A → Prop) (R : B → Prop) :
  gives P m Q → (∀ a, Q a → gives P (k a) R) → gives P (m ≫= k) R.
Proof.
  intros Hm Hk s Hs. destruct (Hm s Hs) as (a & s' & Heq & Hq & Hs'). unfold mbind, M_bind. rewrite Heq.
  by apply Hk.
Qed.
Lemma gives_ret {A} (a : A) (Q : A → Prop) : Q a → gives P (mret a : M E S A) Q.
Proof. intros Hq s Hs. by exists a, s. Qed.
Lemma gives_mono {A} (m : M E S A) (Q R : A → Prop) : gives P m Q → (∀ a, Q a → R a) → gives P m R.
Proof. intros Hm Hqr s Hs. destruct (Hm s Hs) as (a & s' & ? & ? & ?). eauto 6. Qed.
End steady.
#[export] Hint Resolve steady_ret steady_liftR : steady.
(** Through the structure of a call *)
Ltac steady :=
  repeat first
    [ apply steady_ret | apply steady_liftR | assumption
    | match goal with |- steady _ (_ ≫= _) => apply steady_bind; [|intros ?] end
    | progress eauto with steady
    | match goal with |- steady _ (match ?x with _ => _ end) => destruct x end ].

Module CorpusSpec.
Section corpus.
Context {json : Type} (loads : string → result exn json).
Abbreviation MibCorpus := (MibCorpus json).
Abbreviation node := (node json).

(** ** What the rows say *)

Definition spec_of (d : database) (i : option Z) : result exn (option json) :=
  match i with
  | None => Ok None
  | Some i => match dget (type_table d) i with Some r => Some <$> loads r | None => Ok None end
  end.
Definition view (d : database) (r : node_row) : result exn node :=
  defval ← decoded loads (n_defval r);
  indices ← decoded loads (n_indices r);
  augments ← decoded loads (n_augments r);
  syntax ← spec_of d (n_syntax r);
  arcs ← of_dotted (n_oid r);
  mret (mk r defval indices augments syntax arcs).
Definition maybe_view (d : database) (o : option node_row) : result exn (option node) :=
  match o with Some r => n ← view d r; mret (Some n) | None => mret None end.
Definition names (d : database) : list string := m_name <$> module_table d.

Lemma view_row d r n : view d r = Ok n → row n = r ∧ of_dotted (n_oid r) = Ok (arcs n).
Proof.
  unfold view. munfold. intros Hv. repeat (case_match; try discriminate). by injection Hv as <-.
Qed.

(** ** A corpus in use *)

(** An open corpus on these tables, whose caches hold what is in them *)
Record reads (d : database) (p : bool) (c : MibCorpus) : Prop := {
  rd_db : db c = d;
  rd_open : closed c = false;
  rd_prov : provenance_ c = p;
  rd_types : ∀ i t, dget (types c) i = Some t → spec_of d (Some i) = Ok t;
  rd_modules : ∀ m, modules_ c = Some m → m = names d;
}.

Context (d : database) (p : bool).
Abbreviation R := (reads d p).

Lemma says_ask {A} (q : database → A) : says R (ask q) (Ok (q d)).
Proof.
  intros c Hc. exists c. unfold ask. by rewrite (rd_open _ _ _ Hc), (rd_db _ _ _ Hc).
Qed.
Lemma says_modules : says R modules (Ok (names d)).
Proof.
  intros c Hc. unfold modules, gets, modify, mret, mbind, M_bind, M_ret, ask. cbn beta iota.
  destruct (modules_ c) as [m|] eqn:Hm.
  - exists c. by rewrite (rd_modules _ _ _ Hc m Hm).
  - rewrite (rd_open _ _ _ Hc), (rd_db _ _ _ Hc). eexists. split; [done|]. destruct Hc. split; cbn; try done.
    by intros m [= <-].
Qed.
Lemma reads_learns c i t : R c → spec_of d (Some i) = Ok t → R (put_types (dset (types c) i t) c).
Proof.
  intros [] Hi. split; cbn; auto. intros i' t' Hd. destruct (decide (i' = i)) as [->|].
  - rewrite dget_dset_eq in Hd. by injection Hd as <-.
  - rewrite dget_dset_ne in Hd by done. by apply rd_types0.
Qed.
Lemma says_type_spec i : says R (type_spec loads i) (spec_of d i).
Proof.
  intros c Hc. unfold type_spec. destruct i as [i|]; [|by exists c].
  unfold gets, modify, liftR, mret, mbind, M_bind, M_ret, ask. cbn beta iota.
  destruct (dget (types c) i) as [t|] eqn:Ht.
  - exists c. by rewrite (rd_types _ _ _ Hc i t Ht).
  - rewrite (rd_open _ _ _ Hc), (rd_db _ _ _ Hc). pose proof (reads_learns c i) as Hl. cbn [spec_of] in *.
    destruct (dget (type_table d) i) as [r|]; [|eexists; split; [done|by apply Hl]].
    destruct (Some <$> loads r) as [t|e]; [|by exists c]. eexists. split; [done|by apply Hl].
Qed.
Lemma says_node_of r : says R (node_of loads r) (view d r).
Proof.
  unfold node_of, view.
  repeat (apply says_bind; [by (apply says_liftR || apply says_type_spec)|intros ? _]). apply says_ret.
Qed.
Lemma says_maybe_node o : says R (maybe_node loads o) (maybe_view d o).
Proof.
  destruct o as [r|]; [|apply says_ret]. apply says_bind; [apply says_node_of|]. intros ? _. apply says_ret.
Qed.
Lemma says_traverse {A B} (f : A → M exn MibCorpus B) (g : A → result exn B) l :
  (∀ x, says R (f x) (g x)) → says R (traverse f l) (mapM g l).
Proof.
  intros Hf. induction l as [|x l IH]; [apply says_ret|]. cbn.
  apply says_bind; [apply Hf|intros y _]. apply says_bind; [done|intros ys _]. apply says_ret.
Qed.
Lemma says_asked {A B} (q : database → A) (k : A → M exn MibCorpus B) (w : A → result exn B) :
  (∀ a, says R (k a) (w a)) → says R (ask q ≫= k) (w (q d)).
Proof. intros Hk. apply (says_bind _ (ask q) k (Ok (q d)) w); [apply says_ask|]. auto. Qed.
Lemma says_anchor o : says R (anchor o) (k ← oid_key o; Ok (dget (oid_index d) k)).
Proof. apply says_bind; [apply says_liftR|]. intros k _. apply says_ask. Qed.
Lemma says_next_node o : says R (next_node loads o) (k ← oid_key o; maybe_view d (next_row k d)).
Proof.
  apply says_bind; [apply says_liftR|]. intros k _.
  apply (says_asked _ _ (maybe_view d)). intros a. apply says_maybe_node.
Qed.
Lemma says_subtree o : says R (subtree loads o)
  (low ← oid_key o; mapM (view d) (rows_between low (subtree_bound low) d)).
Proof.
  apply says_bind; [apply says_liftR|]. intros k _.
  apply (says_asked _ _ (λ l, mapM (view d) l)). intros l. apply says_traverse, says_node_of.
Qed.
Lemma says_nodes_of m : says R (nodes_of loads m) (mapM (view d) (rows_of m d)).
Proof. apply (says_asked _ _ (λ l, mapM (view d) l)). intros l. apply says_traverse, says_node_of. Qed.

(** Every call on a corpus answers the same whatever was asked before. *)
Lemma steady_ask {A} (q : database → A) : steady R (ask q).
Proof. eexists. apply says_ask. Qed.
Lemma steady_node_of r : steady R (node_of loads r).
Proof. eexists. apply says_node_of. Qed.
Lemma steady_maybe_node o : steady R (maybe_node loads o).
Proof. eexists. apply says_maybe_node. Qed.
Lemma steady_modules : steady R modules.
Proof. eexists. apply says_modules. Qed.
Lemma steady_get_node o m : steady R (get_node loads o m).
Proof. unfold get_node. steady; auto using steady_ask, steady_maybe_node. Qed.
Lemma steady_node_named m n : steady R (node_named loads m n).
Proof. unfold node_named. steady; auto using steady_ask, steady_maybe_node. Qed.
Lemma steady_next_node o : steady R (next_node loads o).
Proof. eexists. apply says_next_node. Qed.
Lemma steady_subtree o : steady R (subtree loads o).
Proof. eexists. apply says_subtree. Qed.
Lemma steady_nodes_of m : steady R (nodes_of loads m).
Proof. eexists. apply says_nodes_of. Qed.
Lemma steady_type_spec i : steady R (type_spec loads i).
Proof. eexists. apply says_type_spec. Qed.
Lemma steady_symbol_of r : steady R (symbol_of loads r).
Proof. unfold symbol_of. steady. apply steady_type_spec. Qed.
Lemma steady_traverse {A B} (f : A → M exn MibCorpus B) l : (∀ x, steady R (f x)) → steady R (traverse f l).
Proof. intros Hf. induction l; cbn [traverse]; steady. Qed.
Lemma steady_symbols_of m : steady R (symbols_of loads m).
Proof. unfold symbols_of. steady; auto using steady_ask, steady_traverse, steady_symbol_of. Qed.
Lemma steady_get_symbol m n : steady R (get_symbol loads m n).
Proof. unfold get_symbol. steady; auto using steady_ask, steady_symbol_of. Qed.
Lemma steady_imports_of m : steady R (imports_of m).
Proof. unfold imports_of. steady. apply steady_ask. Qed.
Lemma steady_provenance m : steady R (provenance m).
Proof.
  apply steady_bind; [exists (Ok p); apply says_gets; intros c Hc; apply Hc|]. intros []; [apply steady_ask|steady].
Qed.
Lemma steady_meta k : steady R (meta k).
Proof. apply steady_ask. Qed.
Lemma steady_loadTexts : steady R loadTexts.
Proof. unfold loadTexts. steady. apply steady_meta. Qed.
Lemma steady_anchor o : steady R (anchor o).
Proof. eexists. apply says_anchor. Qed.
Lemma steady_module m : steady R (module m).
Proof. apply steady_ask. Qed.
End corpus.
#[export] Hint Resolve steady_ask steady_modules steady_get_node steady_node_named steady_next_node steady_subtree
  steady_nodes_of steady_symbols_of steady_get_symbol steady_imports_of steady_provenance steady_meta
  steady_loadTexts steady_anchor steady_module : steady.

(** ** Several corpora *)
Section composite.
Context {json : Type} (loads : string → result exn json) (set_order : list string → list string).
Abbreviation Composite := (CompositeMibCorpus json).
(** The tables of the corpora, and whether each records origins *)
Context (dbs : list (database * bool)).

(** *** Which corpus a module is read from, and how it ranks *)
Definition offers (name : string) (id : nat * (database * bool)) : option (nat * option string) :=
  if decide (name ∈ names id.2.1) then Some (id.1, module_named name id.2.1 ≫= m_revision) else None.
Definition enum : list (nat * (database * bool)) := imap pair dbs.
Definition owner_of (name : string) : option nat := best_by_revision (omap (offers name) enum).
(** The tables of the owner *)
Definition home (name : string) : option database := owner_of name ≫= λ i, fst <$> dbs !! i.
Definition rank_spec (name : string) : result exn rank :=
  nodes ← (match home name with Some d => mapM (view loads d) (rows_of name d) | None => Ok [] end);
  let record := home name ≫= module_named name in
  Ok (obsolete (status_of_objects nodes) :: tier_rank (record ≫= m_tier) ::
      revision_rank (record ≫= m_revision) :: codes name).

(** *** A composite in use *)
Record searches (s : Composite) : Prop := {
  se_reads : Forall2 (λ dp c, reads loads dp.1 dp.2 c) dbs (corpora s);
  se_owners : ∀ m w, dget (owners s) m = Some w → owner_of m = w;
  se_ranks : ∀ m k, dget (ranks s) m = Some k → rank_spec m = Ok k;
  se_modules : ∀ m, all_modules_ s = Some m → m = remove_dups (concat ((λ dp, names dp.1) <$> dbs));
}.
Abbreviation Q := searches.

Lemma says_on {A} i d p (m : M exn (MibCorpus json) A) v :
  dbs !! i = Some (d, p) → says (reads loads d p) m v → says Q (on i m) v.
Proof.
  intros Hi Hm s Hs. destruct (Forall2_lookup_l _ _ _ _ _ (se_reads _ Hs) Hi) as (c & Hc & Hr).
  destruct (Hm c Hr) as (c' & Heq & Hr'). unfold on. rewrite Hc, Heq. eexists. split; [done|].
  destruct Hs. split; cbn; try done. rewrite <- (list_insert_id dbs i (d, p) Hi). by apply Forall2_insert.
Qed.
Lemma steady_on {A} i (m : M exn (MibCorpus json) A) :
  (∀ d p, steady (reads loads d p) m) → steady Q (on i m).
Proof.
  intros Hm. destruct (dbs !! i) as [[d p]|] eqn:Hi.
  - destruct (Hm d p) as [v Hv]. exists v. by eapply says_on.
  - exists (Err IndexError). intros s Hs. exists s. split; [|done]. unfold on.
    pose proof (Forall2_length _ _ _ (se_reads _ Hs)).
    by rewrite (proj2 (lookup_ge_None _ _)) by (apply lookup_ge_None in Hi; lia).
Qed.
Lemma says_length : says Q (gets (λ s : Composite, length (corpora s)) : M exn _ _) (Ok (length dbs)).
Proof. apply says_gets. intros s Hs. symmetry. eapply Forall2_length. apply Hs. Qed.
Lemma steady_fold {A} (f : nat → A → M exn Composite A) l a :
  (∀ i a, steady Q (f i a)) → steady Q (fold_corpora f l a).
Proof. intros Hf. revert a. induction l as [|i l IH]; intros a; cbn [fold_corpora]; steady. Qed.
Lemma steady_for {A} (f : nat → A → M exn Composite A) a :
  (∀ i a, steady Q (f i a)) → steady Q (for_corpora f a).
Proof.
  intros Hf. apply steady_bind; [eexists; apply says_length|]. intros n. by apply steady_fold.
Qed.

(** What holds of the corpora before [i] *)
Lemma gives_for {A} (f : nat → A → M exn Composite A) (Inv : nat → A → Prop) a : Inv O a →
  (∀ i dp a, dbs !! i = Some dp → Inv i a → gives Q (f i a) (Inv (S i))) →
  gives Q (for_corpora f a) (Inv (length dbs)).
Proof.
  intros Ha Hf. eapply gives_bind; [by eapply (gives_says _ _ _ (λ n, n = length dbs)), eq_refl; apply says_length|].
  intros n ->. assert (Hgo : ∀ k i a, (i + k = length dbs)%nat → Inv i a →
    gives Q (fold_corpora f (seq i k) a) (Inv (length dbs))); [|by apply (Hgo (length dbs) O)].
  clear a Ha. induction k as [|k IH]; intros i a Hk Ha; cbn [seq fold_corpora].
  - apply gives_ret. by replace (length dbs) with i by lia.
  - destruct (lookup_lt_is_Some_2 dbs i) as [dp Hdp]; [lia|].
    eapply gives_bind; [by eapply Hf|]. intros a' Ha'. apply IH; [lia|done].
Qed.
Lemma says_for {A} (f : nat → A → M exn Composite A) (g : nat → database * bool → A → A) a :
  (∀ i dp a, dbs !! i = Some dp → says Q (f i a) (Ok (g i dp a))) →
  says Q (for_corpora f a) (Ok (foldl (λ a id, g id.1 id.2 a) a enum)).
Proof.
  intros Hf. assert (Hg : gives Q (for_corpora f a) (λ r, r = foldl (λ a id, g id.1 id.2 a) a (take (length dbs) enum))).
  { apply (gives_for f (λ i r, r = foldl (λ a id, g id.1 id.2 a) a (take i enum))); [done|].
    intros i dp r Hi ->. eapply gives_says; [by apply Hf|].
    assert (Hen : enum !! i = Some (i, dp)) by (unfold enum; by rewrite list_lookup_imap, Hi).
    rewrite (take_S_r _ _ _ Hen), foldl_app. done. }
  rewrite take_ge in Hg by (unfold enum; by rewrite length_imap).
  intros s Hs. destruct (Hg s Hs) as (r & s' & Heq & -> & Hs'). by exists s'.
Qed.

(** *** Every call *)
Lemma enum_lookup i dp : dbs !! i = Some dp → enum !! i = Some (i, dp).
Proof. intros Hi. unfold enum. by rewrite list_lookup_imap, Hi. Qed.
Lemma elem_of_enum i dp : (i, dp) ∈ enum ↔ dbs !! i = Some dp.
Proof.
  split; [|intros Hi%enum_lookup; by eapply list_elem_of_lookup_2].
  intros (k & Hk)%list_elem_of_lookup_1. unfold enum in Hk. rewrite list_lookup_imap in Hk.
  destruct (dbs !! k) eqn:Hd; [|done]. by injection Hk as -> ->.
Qed.
Lemma foldl_omap {A B} (f : A → option B) l acc :
  foldl (λ acc x, match f x with Some y => acc ++ [y] | None => acc end) acc l = acc ++ omap f l.
Proof.
  revert acc. induction l as [|x l IH]; intros acc; cbn; [by rewrite app_nil_r|].
  rewrite IH. destruct (f x); [by rewrite <- (assoc_L (++))|done].
Qed.
Lemma says_candidates name : says Q (candidates name) (Ok (omap (offers name) enum)).
Proof.
  rewrite <- (app_nil_l (omap _ _)), <- foldl_omap. unfold candidates.
  set (g := λ (i : nat) (dp : database * bool) (a : list (nat * option string)),
    match offers name (i, dp) with Some y => a ++ [y] | None => a end).
  replace (foldl _ [] enum) with (foldl (λ a id, g id.1 id.2 a) [] enum).
  2:{ assert (Hg : ∀ l acc, foldl (λ a id, g id.1 id.2 a) acc l =
        foldl (λ acc x, match offers name x with Some y => acc ++ [y] | None => acc end) acc l); [|apply Hg].
      intros l. induction l as [|[i dp] l IH]; intros acc; cbn; [done|]. apply IH. }
  apply says_for. intros i [d p] a Hi.
  eapply says_then; [by eapply says_on, says_modules|]. unfold g, offers. cbn. case_decide as Hin;
    [rewrite bool_decide_eq_true_2 by done|rewrite bool_decide_eq_false_2 by done; apply says_ret].
  eapply says_then; [|apply says_ret]. eapply says_on; [done|]. apply (says_ask loads d p (module_named name)).
Qed.
(** A value that is kept once it is known *)
Lemma says_memo {A} (get : Composite → dict string A) (put : dict string A → Composite → Composite)
    (name : string) (m : M exn Composite A) (v : result exn A) :
  says Q m v → (∀ s a, Q s → dget (get s) name = Some a → v = Ok a) →
  (∀ s a, Q s → v = Ok a → Q (put (dset (get s) name a) s)) →
  says Q (r ← gets get; match dget r name with
                        | Some a => mret a
                        | None => a ← m; modify (λ s, put (dset (get s) name a) s);; mret a
                        end) v.
Proof.
  intros Hm Hget Hput s Hs. unfold gets, modify, mret, mbind, M_bind, M_ret. cbn beta iota.
  destruct (dget (get s) name) as [a|] eqn:Ha.
  - exists s. by rewrite (Hget s a).
  - destruct (Hm s Hs) as (s' & -> & Hs'). destruct v as [a|e]; [|by exists s'].
    eexists. split; [done|]. by apply Hput.
Qed.
Lemma dget_learnt {A} (d : dict string A) k a (P : string → A → Prop) :
  (∀ k a, dget d k = Some a → P k a) → P k a → ∀ k' a', dget (dset d k a) k' = Some a' → P k' a'.
Proof.
  intros Hd Ha k' a' Hk. destruct (decide (k' = k)) as [->|].
  - rewrite dget_dset_eq in Hk. by injection Hk as <-.
  - rewrite dget_dset_ne in Hk by done. auto.
Qed.
Lemma says_owner name : says Q (owner name) (Ok (owner_of name)).
Proof.
  apply says_memo.
  - eapply says_then; [apply says_candidates|apply says_ret].
  - intros s w Hs Hw. f_equal. by apply (se_owners _ Hs).
  - intros s w [] [= <-]. split; cbn; auto. by apply dget_learnt.
Qed.

(** The owner is one of the corpora, and has the module. *)
Lemma newest_in {A} (c : list (A * option string)) b : newest b c = b.1 ∨ newest b c ∈ c.*1.
Proof.
  revert b. induction c as [|[a r] c IH]; intros b; cbn [newest]; [by left|]. rewrite fmap_cons.
  case_match; destruct (IH (a, default ""%string r)) as [H1|H1], (IH b) as [H2|H2]; cbn in *; rewrite ?H1, ?H2;
    rewrite ?elem_of_cons; auto.
Qed.
Lemma best_by_revision_in {A} (c : list (A * option string)) a : best_by_revision c = Some a → a ∈ c.*1.
Proof.
  destruct c as [|[b r] c]; [done|]. unfold best_by_revision. intros Hb. rewrite fmap_cons. apply elem_of_cons.
  destruct (_ && _); injection Hb as <-; [|by left].
  destruct (newest_in c (b, default ""%string r)); auto.
Qed.
Lemma owner_of_home name i : owner_of name = Some i → ∃ d p, dbs !! i = Some (d, p) ∧ name ∈ names d ∧ home name = Some d.
Proof.
  intros Ho. pose proof Ho as Hin. unfold owner_of in Hin. apply best_by_revision_in in Hin.
  apply list_elem_of_fmap in Hin as ([i' r] & -> & Hin). cbn in *.
  apply list_elem_of_omap in Hin as ([k [d p]] & Hen & Hoff). apply elem_of_enum in Hen.
  unfold offers in Hoff. cbn in Hoff. case_decide; [|done]. injection Hoff as -> _.
  exists d, p. split; [done|]. split; [done|]. unfold home. rewrite Ho. cbn. by rewrite Hen.
Qed.
Lemma says_by_owner {A} name (f : M exn (MibCorpus json) A) other (v : database → result exn A) :
  (∀ d p, says (reads loads d p) f (v d)) →
  says Q (by_owner name f other) (match home name with Some d => v d | None => Ok other end).
Proof.
  intros Hf. apply (says_bind _ (owner name) _ (Ok (owner_of name)) (λ _, match home name with Some d => v d | None => Ok other end)).
  { apply says_owner. }
  intros w [= <-]. destruct (owner_of name) as [i|] eqn:Ho.
  - destruct (owner_of_home name i Ho) as (d & p & Hi & _ & ->). by eapply says_on.
  - unfold home. rewrite Ho. apply says_ret.
Qed.
Lemma says_all_module name : says Q (all_module name) (Ok (home name ≫= module_named name)).
Proof.
  unfold all_module. pose proof (says_by_owner name (module name) None (λ d, Ok (module_named name d))) as Hm.
  destruct (home name) as [d|]; apply Hm; intros; apply (says_ask loads _ _ (module_named name)).
Qed.
Lemma says_rank_of name : says Q (rank_of loads name) (rank_spec name).
Proof.
  apply says_memo.
  - unfold rank_spec. set (v := match home name with Some _ => _ | None => _ end).
    eapply says_then; [apply says_all_module|].
    apply says_bind; [|intros nodes _; apply says_ret].
    apply (says_by_owner name (nodes_of loads name) [] (λ d, mapM (view loads d) (rows_of name d))).
    intros. apply says_nodes_of.
  - intros s k Hs Hk. by apply (se_ranks _ Hs).
  - intros s k [] Hk. split; cbn; auto. by apply dget_learnt.
Qed.
Lemma says_all_modules : says Q all_modules (Ok (remove_dups (concat ((λ dp, names dp.1) <$> dbs)))).
Proof.
  intros s Hs. unfold all_modules, gets, modify, mret, mbind, M_bind, M_ret. cbn beta iota.
  destruct (all_modules_ s) as [m|] eqn:Hm; [exists s; by rewrite (se_modules _ Hs m Hm)|].
  assert (Hall : gives Q (for_corpora (λ i a, m ← on i modules; mret (a ++ m)) ([] : list string) : M exn Composite _)
    (λ l, l = concat ((λ dp, names dp.1) <$> take (length dbs) dbs))).
  { apply (gives_for _ (λ i l, l = concat ((λ dp, names dp.1) <$> take i dbs))); [done|].
    intros i [d p] a Hi ->. eapply gives_says; [eapply says_then; [by eapply says_on, says_modules|apply says_ret]|].
    rewrite (take_S_r _ _ _ Hi), fmap_app, concat_app. cbn. by rewrite app_nil_r. }
  rewrite take_ge in Hall by done. destruct (Hall s Hs) as (l & s' & Heq & -> & []).
  unfold mbind, mret, M_bind, M_ret in Heq. rewrite Heq. eexists. split; [done|]. split; cbn; auto. by intros m [= <-].
Qed.

Lemma steady_owner name : steady Q (owner name).
Proof. eexists. apply says_owner. Qed.
Lemma steady_rank_of name : steady Q (rank_of loads name).
Proof. eexists. apply says_rank_of. Qed.
Lemma steady_by_owner {A} name (f : M exn (MibCorpus json) A) other :
  (∀ d p, steady (reads loads d p) f) → steady Q (by_owner name f other).
Proof. intros Hf. unfold by_owner. steady; [apply steady_owner|by apply steady_on]. Qed.
Lemma steady_ranked l : steady Q (ranked loads l).
Proof. induction l; cbn [ranked]; steady. apply steady_rank_of. Qed.
Lemma steady_all_anchor o : steady Q (all_anchor loads set_order o).
Proof.
  unfold all_anchor, seen_by. apply steady_bind; [|intros; steady; apply steady_ranked].
  apply steady_for. intros. steady. apply steady_on. eauto with steady.
Qed.
Lemma steady_chop (anchor : oid → M exn Composite (option string)) fuel a :
  (∀ a, steady Q (anchor a)) → steady Q (chop anchor fuel a).
Proof. intros Ha. revert a. induction fuel as [|fuel IH]; intros [|z a]; cbn [chop]; steady. Qed.
Lemma steady_owned i (n : node json) : steady Q (owned i n).
Proof. unfold owned. steady. apply steady_owner. Qed.
Lemma gives_owned i (n : node json) :
  gives Q (owned i n) (λ b, b = bool_decide (owner_of (n_module (row n)) = Some i)).
Proof.
  eapply (gives_says Q (owned i n)); [|reflexivity]. eapply says_then; [apply says_owner|]. apply says_ret.
Qed.
Lemma steady_skip fuel i found : steady Q (skip_foreign loads fuel i found).
Proof.
  revert found. induction fuel as [|fuel IH]; intros [n|]; cbn [skip_foreign]; steady;
    (apply steady_owned || (apply steady_on; eauto with steady)).
Qed.
Lemma steady_keep_owned i l : steady Q (keep_owned (json:=json) i l).
Proof. induction l; cbn [keep_owned]; steady. apply steady_owned. Qed.

(** *** Questions *)
Inductive query : Type → Type :=
  | AskModules : query (list string)
  | AskMeta (key : string) : query (option string)
  | AskTexts : query bool
  | AskOwner (name : string) : query (option nat)
  | AskModule (name : string) : query (option module_row)
  | AskRank (name : string) : query rank
  | AskAnchor (o : oid_arg) : query (option string)
  | AskFind (o : oid_arg) : query (option string)
  | AskNode (o : oid_arg) (name : option string) : query (option (node json))
  | AskNamed (m name : string) : query (option (node json))
  | AskNext (o : oid_arg) : query (option (node json))
  | AskSubtree (o : oid_arg) : query (list (node json))
  | AskNodes (m : string) : query (list (node json))
  | AskSymbols (m : string) : query (list (symbol json))
  | AskSymbol (m name : string) : query (option (symbol json))
  | AskImports (m : string) : query (dict string string)
  | AskOrigin (m : string) : query (option origin).
Definition perform {A} (q : query A) : M exn Composite A :=
  match q in query A return M exn Composite A with
  | AskModules => all_modules
  | AskMeta key => all_meta key
  | AskTexts => all_loadTexts
  | AskOwner m => owner m
  | AskModule m => all_module m
  | AskRank m => rank_of loads m
  | AskAnchor o => all_anchor loads set_order o
  | AskFind o => all_find_module loads set_order o
  | AskNode o m => all_node loads o m
  | AskNamed m n => all_node_named loads m n
  | AskNext o => all_next_node loads o
  | AskSubtree o => all_subtree loads o
  | AskNodes m => all_nodes_of loads m
  | AskSymbols m => all_symbols_of loads m
  | AskSymbol m n => all_symbol loads m n
  | AskImports m => all_imports_of m
  | AskOrigin m => all_provenance m
  end.
Lemma steady_perform {A} (q : query A) : steady Q (perform q).
Proof.
  destruct q; cbn [perform]; unfold all_imports_of, all_provenance, all_symbol, all_symbols_of, all_nodes_of,
    all_node_named, all_module.
  - eexists. apply says_all_modules.
  - apply steady_for. intros i a. steady. apply steady_on. eauto with steady.
  - apply steady_for. intros i a. destruct a; steady. apply steady_on. eauto with steady.
  - apply steady_owner.
  - apply steady_by_owner. eauto with steady.
  - apply steady_rank_of.
  - apply steady_all_anchor.
  - apply steady_bind; [steady|]. intros a. apply steady_chop. intros. apply steady_all_anchor.
  - destruct name as [m|]; cbn; [apply steady_by_owner; eauto with steady|]. apply steady_for. intros i a. steady.
    + apply steady_on. eauto with steady.
    + apply steady_owned.
  - apply steady_by_owner. eauto with steady.
  - unfold all_next_node. steady. apply steady_for. intros i a.
    apply steady_bind; [apply steady_on; eauto with steady|]. intros f.
    apply steady_bind; [apply steady_on|intros rows].
    { intros d p. eexists. apply says_gets. intros c Hc. by rewrite (rd_db _ _ _ _ Hc). }
    apply steady_bind; [apply steady_skip|]. intros [n|]; steady.
  - unfold all_subtree. steady. apply steady_for. intros i a. steady; [|apply steady_keep_owned].
    apply steady_on. eauto with steady.
  - apply steady_by_owner. eauto with steady.
  - apply steady_by_owner. eauto with steady.
  - apply steady_by_owner. eauto with steady.
  - apply steady_by_owner. eauto with steady.
  - apply steady_by_owner. eauto with steady.
Qed.
Definition after (s : Composite) (q : {A & query A}) : Composite := (perform (projT2 q) s).2.
Lemma searches_after s q : Q s → Q (after s q).
Proof.
  intros Hs. unfold after. destruct (steady_perform (projT2 q)) as [v Hv]. destruct (Hv s Hs) as (s' & -> & Hs'). done.
Qed.
End composite.

(** ** Heads of sorted rows *)
#[global] Instance pair_leb_total : TotalLeb pair_leb.
Proof.
  assert (Hrefl : ∀ x, tuple_compare x x = Eq) by (intros; by apply tuple_compare_eq).
  split; unfold pair_leb.
  - intros [x y]. cbn. rewrite Hrefl. apply leb_refl.
  - intros [x1 x2] [y1 y2] [z1 z2]. cbn.
    destruct (tuple_compare x1 y1) eqn:Hxy, (tuple_compare y1 z1) eqn:Hyz; try done;
      rewrite ?tuple_compare_eq in *; subst; rewrite ?Hrefl, ?Hxy, ?Hyz; try done; [by apply leb_trans|].
    by rewrite (tuple_compare_lt_trans _ _ _ Hxy Hyz).
  - intros [x1 x2] [y1 y2]. cbn. rewrite (tuple_compare_antisym x1 y1).
    destruct (tuple_compare x1 y1); cbn; try done. apply leb_total.
Qed.
Section least.
Context {A K : Type} (leb : K → K → bool) `{!TotalLeb leb} (key : A → K).
Lemma head_sorted_Some l x : head (sorted_by leb key l) = Some x →
  x ∈ l ∧ ∀ y, y ∈ l → leb (key x) (key y) = true.
Proof using Type*.
  pose proof (sorted_by_sorted leb key l) as Hs. pose proof (sorted_by_perm leb key l) as Hp.
  intros Hh. destruct (sorted_by leb key l) as [|y t]; [done|]. injection Hh as ->.
  split; [rewrite <- Hp; apply elem_of_cons; by left|]. intros y Hy. rewrite <- Hp in Hy.
  apply elem_of_cons in Hy as [->|Hy]; [apply leb_refl|].
  inversion Hs as [|? ? _ Hall]; subst. rewrite Forall_forall in Hall. by apply Hall.
Qed.
Lemma head_sorted_None l : head (sorted_by leb key l) = None → l = [].
Proof using Type*.
  pose proof (sorted_by_perm leb key l) as Hp. destruct (sorted_by leb key l); [|done]. intros _.
  by apply Permutation_nil.
Qed.
End least.
Lemma pair_leb_first a b : pair_leb a b = true → tuple_leb a.1 b.1 = true.
Proof. unfold pair_leb, tuple_leb. by destruct (tuple_compare a.1 b.1). Qed.
Lemma pair_leb_antisym a b : pair_leb a b = true → pair_leb b a = true → a = b.
Proof.
  destruct a as [a1 a2], b as [b1 b2]. unfold pair_leb. cbn. rewrite (tuple_compare_antisym a1 b1).
  destruct (tuple_compare a1 b1) eqn:Hc; try done. apply tuple_compare_eq in Hc as ->. cbn.
  intros H1 H2. f_equal. by apply tuple_leb_antisym.
Qed.

Lemma prefix_snoc_inv {A} (p l : list A) z : p `prefix_of` l ++ [z] → p = l ++ [z] ∨ p `prefix_of` l.
Proof.
  intros [r Hr]. destruct r as [|x r _] using rev_ind; [left; by rewrite app_nil_r in Hr|right].
  rewrite (assoc_L (++)) in Hr. apply app_inj_tail in Hr as [-> _]. by apply prefix_app_r.
Qed.
Section queries.
Context {json : Type} (loads : string → result exn json).

(** *** Tables that can be read *)

(** No two rows of a module are for one identifier, and every row can be decoded and
    has the key of its name. *)
Record readable (d : database) : Prop := {
  ro_unique : NoDup (by_key_module <$> node_table d);
  ro_view : ∀ r, r ∈ node_table d → ∃ n, view loads d r = Ok n ∧ name_ok (arcs n) ∧ oid_key_ r = key_of (arcs n);
}.
Context (d : database) (Hd : readable d).

Lemma row_by_key r r' : r ∈ node_table d → r' ∈ node_table d → by_key_module r = by_key_module r' → r = r'.
Proof using Hd.
  intros (i & Hi)%list_elem_of_lookup_1 (j & Hj)%list_elem_of_lookup_1 Heq.
  assert (i = j); [|congruence]. eapply NoDup_lookup; [apply (ro_unique d Hd)| |].
  - by rewrite list_lookup_fmap, Hi.
  - rewrite list_lookup_fmap, Hj. cbn. by rewrite Heq.
Qed.
(** A row that is found at its own identifier *)
Definition first_at (r : node_row) : Prop := r ∈ node_table d ∧ node_at (oid_key_ r) d = Some r.

Lemma next_row_Some k r : next_row k d = Some r →
  first_at r ∧ tuple_ltb k (oid_key_ r) = true ∧
  ∀ r', r' ∈ node_table d → tuple_ltb k (oid_key_ r') = true → tuple_leb (oid_key_ r) (oid_key_ r') = true.
Proof using Hd.
  unfold next_row. intros Hh. apply head_sorted_Some in Hh as [Hin Hmin]; [|apply _].
  apply list_elem_of_filter in Hin as [Hk Hin]. split; [split; [done|]|split; [done|]].
  - unfold node_at. destruct (head _) as [r0|] eqn:Hh.
    2:{ apply head_sorted_None in Hh; [|apply _].
        assert (Hr : r ∈ filter (λ r0, oid_key_ r0 = oid_key_ r) (node_table d)) by (by apply list_elem_of_filter).
        rewrite Hh in Hr. by apply elem_of_nil in Hr. }
    apply head_sorted_Some in Hh as [Hin0 Hmin0]; [|apply _]. apply list_elem_of_filter in Hin0 as [Hk0 Hin0].
    f_equal. apply row_by_key; [done|done|]. apply pair_leb_antisym.
    + unfold pair_leb, by_key_module. cbn. rewrite Hk0, (proj2 (tuple_compare_eq _ _) eq_refl).
      apply Hmin0. by apply list_elem_of_filter.
    + apply Hmin. apply list_elem_of_filter. by rewrite Hk0.
  - intros r' Hin' Hk'. apply (pair_leb_first (by_key_module r) (by_key_module r')). apply Hmin.
    by apply list_elem_of_filter.
Qed.
Lemma next_row_None k r : next_row k d = None → r ∈ node_table d → tuple_ltb k (oid_key_ r) = false.
Proof.
  unfold next_row. intros Hh Hin. apply head_sorted_None in Hh; [|apply _].
  destruct (tuple_ltb k (oid_key_ r)) eqn:Hk; [|done].
  assert (Hr : r ∈ filter (λ r, tuple_ltb k (oid_key_ r) = true) (node_table d)) by (by apply list_elem_of_filter).
  rewrite Hh in Hr. by apply elem_of_nil in Hr.
Qed.
(** The rows after a key get fewer. *)
Definition rows_after (k : octets) : nat := length (filter (λ r, tuple_ltb k (oid_key_ r) = true) (node_table d)).
Lemma rows_after_less k r : r ∈ node_table d → tuple_ltb k (oid_key_ r) = true → (rows_after (oid_key_ r) < rows_after k)%nat.
Proof.
  intros Hin Hk. unfold rows_after.
  assert (Hsub : ∀ x, tuple_ltb (oid_key_ r) (oid_key_ x) = true → tuple_ltb k (oid_key_ x) = true).
  { intros x Hx. eapply tuple_ltb_leb_trans; [done|]. by apply tuple_ltb_weaken. }
  induction (node_table d) as [|x l IH]; [by apply elem_of_nil in Hin|]. rewrite !filter_cons.
  apply elem_of_cons in Hin as [<-|Hin].
  - rewrite decide_False by (by rewrite tuple_ltb_irrefl). rewrite decide_True by done. cbn.
    apply Nat.lt_succ_r. clear IH. induction l as [|y l IH]; [done|]. rewrite !filter_cons.
    destruct (decide (tuple_ltb (oid_key_ r) (oid_key_ y) = true)) as [Hy|]; [rewrite (decide_True (P := tuple_ltb k _ = true)) by auto; cbn; lia|].
    case_decide; cbn; lia.
  - specialize (IH Hin). destruct (decide (tuple_ltb (oid_key_ r) (oid_key_ x) = true)) as [Hx|].
    + rewrite (decide_True (P := tuple_ltb k _ = true)) by auto. cbn. lia.
    + case_decide; cbn; lia.
Qed.
Lemma rows_after_all k : (rows_after k ≤ length (node_table d))%nat.
Proof. apply list.length_filter. Qed.
Lemma view_key r n : r ∈ node_table d → view loads d r = Ok n → name_ok (arcs n) ∧ oid_key_ r = key_of (arcs n) ∧ row n = r.
Proof using Hd.
  intros Hin Hv. destruct (ro_view d Hd r Hin) as (n' & Hv' & ? & ?). rewrite Hv in Hv'. injection Hv' as <-.
  split; [done|]. split; [done|]. by apply view_row in Hv as [-> _].
Qed.
End queries.

(** ** What a composite answers *)
Section answers.
Context {json : Type} (loads : string → result exn json) (set_order : list string → list string).
Context (dbs : list (database * bool)).
Abbreviation Q := (searches loads dbs).
Definition all_readable : Prop := Forall (λ dp, readable loads dp.1) dbs.

(** The rows the corpus at [i] answers for *)
Definition shown (i : nat) (d : database) (r : node_row) : Prop :=
  first_at d r ∧ owner_of dbs (n_module r) = Some i.
(** [found] is the first of them after the key [k]. *)
Definition first_after (i : nat) (d : database) (k : octets) (found : option (node json)) : Prop :=
  match found with
  | Some n => ∃ r, shown i d r ∧ view loads d r = Ok n ∧ tuple_ltb k (oid_key_ r) = true ∧
      ∀ r', shown i d r' → tuple_ltb k (oid_key_ r') = true → tuple_leb (oid_key_ r) (oid_key_ r') = true
  | None => ∀ r, shown i d r → tuple_ltb k (oid_key_ r) = false
  end.

Section corpus.
Context (i : nat) (d : database) (p : bool) (Hi : dbs !! i = Some (d, p)) (Hd : readable loads d).
Lemma gives_next_node k o : oid_key o = Ok k → gives Q (on i (next_node loads o))
  (λ f, match f with
        | Some n => ∃ r, next_row k d = Some r ∧ view loads d r = Ok n
        | None => next_row k d = None
        end).
Proof using Hi Hd.
  intros Hk. pose proof (says_next_node loads d p o) as Hsays. rewrite Hk in Hsays. cbn in Hsays.
  destruct (next_row k d) as [r|] eqn:Hr; cbn in Hsays.
  - destruct (next_row_Some loads d Hd k r Hr) as ((Hin & _) & _).
    destruct (ro_view loads d Hd r Hin) as (n & Hv & _). rewrite Hv in Hsays.
    eapply gives_says; [by eapply says_on|]. by exists r.
  - eapply gives_says; [by eapply says_on|]. done.
Qed.
Lemma gives_skip fuel k f : (rows_after d k ≤ fuel)%nat →
  match f with
  | Some n => ∃ r, next_row k d = Some r ∧ view loads d r = Ok n
  | None => next_row k d = None
  end → gives Q (skip_foreign loads fuel i f) (first_after i d k).
Proof using Hi Hd.
  revert k f. induction fuel as [fuel IH] using (well_founded_induction lt_wf). intros k f Hf Hnext.
  destruct f as [n|].
  2:{ destruct fuel; apply gives_ret; intros r ((Hin & _) & _); by apply (next_row_None d k). }
  destruct Hnext as (r & Hr & Hv). destruct (next_row_Some loads d Hd k r Hr) as ((Hin & Hfirst) & Hk & Hmin).
  destruct (view_key loads d Hd r n Hin Hv) as (Hok & Hkey & Hrow).
  assert (Hless : (rows_after d (oid_key_ r) < fuel)%nat) by (pose proof (rows_after_less d k r Hin Hk); lia).
  destruct fuel as [|fuel]; [lia|]. cbn [skip_foreign].
  eapply gives_bind; [apply gives_owned|]. intros b ->. destruct (decide (owner_of dbs (n_module (row n)) = Some i)) as [Ho|Ho].
  - rewrite bool_decide_eq_true_2 by done. apply gives_ret. rewrite Hrow in Ho. exists r. repeat split; try done.
    intros r' ((Hin' & _) & _). by apply Hmin.
  - rewrite bool_decide_eq_false_2 by done. rewrite Hrow in Ho.
    eapply gives_bind; [apply (gives_next_node (oid_key_ r)); by rewrite oid_key_ok, Hkey|].
    intros f Hfn. eapply gives_mono; [apply (IH fuel ltac:(lia) (oid_key_ r) f ltac:(lia) Hfn)|].
    assert (Hshown : ∀ r', shown i d r' → tuple_ltb k (oid_key_ r') = true → tuple_ltb (oid_key_ r) (oid_key_ r') = true).
    { intros r' [[Hin' Hf'] Ho'] Hk'. destruct (tuple_ltb (oid_key_ r) (oid_key_ r')) eqn:Hlt; [done|].
      apply tuple_ltb_ge in Hlt. specialize (Hmin r' Hin' Hk'). assert (oid_key_ r = oid_key_ r') as Heq by by apply tuple_leb_antisym.
      assert (r = r') by congruence. by subst. }
    intros [n'|]; cbn.
    + intros (r' & Hs' & Hv' & Hlt & Hmin'). exists r'. repeat split; try apply Hs'; try done.
      * eapply tuple_ltb_leb_trans; [done|]. by apply tuple_ltb_weaken.
      * intros r'' Hs'' Hk''. auto.
    + intros Hnone r' Hs'. destruct (tuple_ltb k (oid_key_ r')) eqn:Hk'; [|done].
      rewrite <- (Hnone r' Hs'). symmetry. by apply Hshown.
Qed.
End corpus.

(** The first of the nodes of all corpora after a name, among those each answers for *)
Definition first_shown (upto : nat) (k : octets) (best : option (node json * octets)) : Prop :=
  match best with
  | Some (n, b) =>
      (∃ i dp r, (i < upto)%nat ∧ dbs !! i = Some dp ∧ shown i dp.1 r ∧ view loads dp.1 r = Ok n ∧ oid_key_ r = b ∧
        name_ok (arcs n) ∧ b = key_of (arcs n)) ∧ tuple_ltb k b = true ∧
      ∀ i dp r, (i < upto)%nat → dbs !! i = Some dp → shown i dp.1 r → tuple_ltb k (oid_key_ r) = true →
        tuple_leb b (oid_key_ r) = true
  | None => ∀ i dp r, (i < upto)%nat → dbs !! i = Some dp → shown i dp.1 r → tuple_ltb k (oid_key_ r) = false
  end.
Lemma gives_all_next_node o k : all_readable → oid_key o = Ok k →
  gives Q (all_next_node loads o) (λ n, ∃ best, n = fst <$> best ∧ first_shown (length dbs) k best).
Proof.
  intros Hall Hk. unfold all_next_node. eapply gives_bind.
  { apply (gives_for loads dbs _ (λ i, first_shown i k)); [intros i dp r Hlt; lia|].
    intros i [d p] best Hi Hbest. assert (Hd : readable loads d) by (eapply Forall_lookup_1 in Hall; [|done]; apply Hall).
    eapply gives_bind; [by eapply gives_next_node|]. intros f Hf.
    eapply gives_bind. { eapply (gives_says _ _ (length (node_table d))), eq_refl. eapply says_on; [done|].
      apply says_gets. intros c Hc. by rewrite (rd_db _ _ _ _ Hc). }
    intros rows <-. eapply gives_bind; [apply (gives_skip i d p Hi Hd _ k f (rows_after_all d k) Hf)|].
    clear f Hf. intros [n|] Hfound.
    2:{ apply gives_ret. destruct best as [[n b]|]; cbn in *.
        - destruct Hbest as ((j & dp & r & Hj & Hx) & Hkb & Hmin). split; [exists j, dp, r; split; [lia|done]|].
          split; [done|]. intros j' dp' r' Hlt Hj' Hs Hkr. destruct (decide (j' = i)) as [->|]; [|apply (Hmin j' dp'); [lia|done..]].
          rewrite Hi in Hj'. injection Hj' as <-. by rewrite (Hfound r' Hs) in Hkr.
        - intros j' dp' r' Hlt Hj' Hs. destruct (decide (j' = i)) as [->|]; [|apply (Hbest j' dp'); [lia|done..]].
          rewrite Hi in Hj'. injection Hj' as <-. by apply Hfound. }
    destruct Hfound as (r & Hs & Hv & Hkr & Hmin). destruct (view_key loads d Hd r n ltac:(apply Hs) Hv) as (Hok & Hkey & _).
    eapply gives_bind; [eapply (gives_says _ _ (oid_key_ r)), eq_refl; rewrite oid_key_ok, Hkey by done; apply says_liftR|].
    intros b <-. apply gives_ret.
    assert (Hnew : (∀ j dp r', (j < i)%nat → dbs !! j = Some dp → shown j dp.1 r' → tuple_ltb k (oid_key_ r') = true →
        tuple_leb (oid_key_ r) (oid_key_ r') = true) → first_shown (S i) k (Some (n, oid_key_ r))).
    { intros Hold. split; [exists i, (d, p), r; repeat split; auto; try apply Hs; apply Hok|]. split; [done|].
      intros j dp r' Hlt Hj Hs' Hkr'. destruct (decide (j = i)) as [->|]; [|apply (Hold j dp); [lia|done..]].
      rewrite Hi in Hj. injection Hj as <-. by apply Hmin. }
    destruct best as [[n0 b0]|]; cbn in Hbest.
    - destruct Hbest as (Hex & Hkb & Hbmin). destruct (tuple_ltb (oid_key_ r) b0) eqn:Hlt.
      + apply Hnew. intros j dp r' Hj Hdp Hs' Hkr'. eapply leb_trans; [by apply tuple_ltb_weaken|]. by eapply Hbmin.
      + apply tuple_ltb_ge in Hlt. destruct Hex as (j & dp & r0 & Hj & Hx).
        split; [exists j, dp, r0; split; [lia|done]|]. split; [done|].
        intros j' dp' r' Hlt' Hj' Hs' Hkr'. destruct (decide (j' = i)) as [->|]; [|apply (Hbmin j' dp'); [lia|done..]].
        rewrite Hi in Hj'. injection Hj' as <-. eapply leb_trans; [done|]. by apply Hmin.
    - apply Hnew. intros j dp r' Hj Hdp Hs' Hkr'. rewrite (Hbest j dp r') in Hkr' by done. done. }
  intros best Hbest. apply gives_ret. eauto.
Qed.

Lemma gives_now {A} (m : M exn (CompositeMibCorpus json) A) (P : A → Prop) s :
  Q s → gives Q m P → ∃ a, (m s).1 = Ok a ∧ P a.
Proof. intros Hs Hm. destruct (Hm s Hs) as (a & s' & Heq & Ha & _). exists a. by rewrite Heq. Qed.

(** C30. The node after a name, of all that are shown, is the one with the least name, the
    names compared arc by arc; there is none when no shown node has a greater name. *)
Theorem next_node_is_first_shown s a : all_readable → Q s → name_ok a →
  ∃ found, (all_next_node loads (Arcs a) s).1 = Ok found ∧
  match found with
  | Some n =>
      (∃ i dp r, dbs !! i = Some dp ∧ shown i dp.1 r ∧ view loads dp.1 r = Ok n) ∧
      tuple_ltb a (arcs n) = true ∧
      ∀ i dp r n', dbs !! i = Some dp → shown i dp.1 r → view loads dp.1 r = Ok n' →
        tuple_ltb a (arcs n') = true → tuple_leb (arcs n) (arcs n') = true
  | None =>
      ∀ i dp r n', dbs !! i = Some dp → shown i dp.1 r → view loads dp.1 r = Ok n' → tuple_ltb a (arcs n') = false
  end.
Proof.
  intros Hall Hs Ha. destruct (gives_now _ _ s Hs (gives_all_next_node (Arcs a) _ Hall (oid_key_ok a Ha))) as (f & Hf & best & -> & Hbest).
  exists (fst <$> best). split; [done|]. pose proof Ha as [_ Ha'].
  assert (Hrow : ∀ i dp r n, dbs !! i = Some dp → shown i dp.1 r → view loads dp.1 r = Ok n →
    (i < length dbs)%nat ∧ Forall arc_ok (arcs n) ∧ oid_key_ r = key_of (arcs n)).
  { intros i dp r n Hi [[Hin _] _] Hv. pose proof (Forall_lookup_1 _ _ _ _ Hall Hi) as Hd.
    destruct (view_key loads dp.1 Hd r n Hin Hv) as ((_ & Hok) & Hkey & _). split; [by eapply lookup_lt_Some|]. done. }
  assert (Hlt : ∀ x y, Forall arc_ok x → Forall arc_ok y → tuple_ltb (key_of x) (key_of y) = tuple_ltb x y).
  { intros x y Hx Hy. unfold tuple_ltb. by rewrite key_of_compare. }
  assert (Hle : ∀ x y, Forall arc_ok x → Forall arc_ok y → tuple_leb (key_of x) (key_of y) = tuple_leb x y).
  { intros x y Hx Hy. unfold tuple_leb. by rewrite key_of_compare. }
  destruct best as [[n b]|]; cbn in *.
  - destruct Hbest as ((i & dp & r & _ & Hi & Hsh & Hv & _ & [_ Hn] & ->) & Hk & Hmin). rewrite Hlt in Hk by done.
    split; [by exists i, dp, r|]. split; [done|]. intros i' dp' r' n' Hi' Hsh' Hv' Hlt'.
    destruct (Hrow i' dp' r' n' Hi' Hsh' Hv') as (Hb & Hn' & Hkey). rewrite <- Hle, <- Hkey by done.
    apply (Hmin i' dp'); [done|done|done|]. by rewrite Hkey, Hlt.
  - intros i dp r n Hi Hsh Hv. destruct (Hrow i dp r n Hi Hsh Hv) as (Hb & Hn & Hkey).
    rewrite <- Hlt, <- Hkey by done. by apply (Hbest i dp).
Qed.

(** *** Subtrees *)
Lemma mapM_view d l : readable loads d → (∀ r, r ∈ l → r ∈ node_table d) →
  ∃ ns, mapM (view loads d) l = Ok ns ∧ ∀ n, n ∈ ns ↔ ∃ r, r ∈ l ∧ view loads d r = Ok n.
Proof.
  intros Hd Hl. induction l as [|r l IH].
  { exists []. split; [done|]. intros n. split; [by intros ?%elem_of_nil|]. by intros (r & ?%elem_of_nil & _). }
  destruct IH as (ns & Hns & Hin); [intros; apply Hl, elem_of_cons; by right|].
  destruct (ro_view loads d Hd r) as (n0 & Hv & _); [apply Hl, elem_of_cons; by left|].
  exists (n0 :: ns). split; [cbn; by rewrite Hv, Hns|]. intros n. rewrite elem_of_cons, Hin. split.
  - intros [->|(r' & Hr' & Hv')]; [exists r|exists r']; rewrite elem_of_cons; auto.
  - intros (r' & [->|Hr']%elem_of_cons & Hv'); [left; congruence|right; eauto].
Qed.
Lemma gives_keep_owned i l : gives Q (keep_owned i l)
  (λ l', ∀ n, n ∈ l' ↔ n ∈ l ∧ owner_of dbs (n_module (row n)) = Some i).
Proof.
  induction l as [|n l IH]; cbn [keep_owned].
  { apply gives_ret. intros n. rewrite elem_of_nil. naive_solver. }
  eapply gives_bind; [apply gives_owned|]. intros b ->. eapply gives_bind; [apply IH|]. intros t Ht. cbv beta in Ht.
  apply gives_ret. intros n'. destruct (decide (owner_of dbs (n_module (row n)) = Some i)) as [Ho|Ho].
  - rewrite bool_decide_eq_true_2 by done. cbv iota. rewrite !elem_of_cons, Ht. naive_solver.
  - rewrite bool_decide_eq_false_2 by done. cbv iota. rewrite elem_of_cons, Ht. naive_solver.
Qed.
Lemma keyed_ok (l : list (node json)) : Forall (λ n, name_ok (arcs n)) l →
  keyed l = Ok ((λ n, (key_of (arcs n), n)) <$> l).
Proof. induction 1 as [|n l Hn Hl IH]; [done|]. cbn [keyed]. rewrite oid_key_ok by done. cbn. by rewrite IH. Qed.

(** The nodes at or below a name are those of the modules each corpus owns whose names it
    is a prefix of, in the order of their names. *)
Theorem subtree_is_what_is_below s a : all_readable → Q s → name_ok a →
  ∃ l, (all_subtree loads (Arcs a) s).1 = Ok l ∧
  (∀ n, n ∈ l ↔ ∃ i dp r, dbs !! i = Some dp ∧ r ∈ node_table dp.1 ∧ owner_of dbs (n_module r) = Some i ∧
     view loads dp.1 r = Ok n ∧ a `prefix_of` arcs n) ∧
  StronglySorted (λ n n', tuple_leb (arcs n) (arcs n') = true) l.
Proof.
  intros Hall Hs Ha. apply gives_now; [done|]. unfold all_subtree.
  pose (below := λ (j : nat) (n : node json), ∃ i dp r, (i < j)%nat ∧ dbs !! i = Some dp ∧ r ∈ node_table dp.1 ∧
    owner_of dbs (n_module r) = Some i ∧ view loads dp.1 r = Ok n ∧ a `prefix_of` arcs n).
  eapply gives_bind.
  { apply (gives_for loads dbs _ (λ j l, ∀ n, n ∈ l ↔ below j n)).
    { intros n. rewrite elem_of_nil. split; [done|]. intros (i & ? & ? & ? & _). lia. }
    intros i [d p] l Hi Hl. pose proof (Forall_lookup_1 _ _ _ _ Hall Hi) as Hd. cbn in Hd.
    destruct (mapM_view d (rows_between (key_of a) (subtree_bound (key_of a)) d) Hd) as (ns & Hns & Hin).
    { intros r. unfold rows_between. rewrite sorted_by_perm. by intros [_ ?]%list_elem_of_filter. }
    pose proof (says_subtree loads d p (Arcs a)) as Hsub. rewrite oid_key_ok in Hsub by done. cbn in Hsub. rewrite Hns in Hsub.
    eapply gives_bind; [eapply (gives_says _ _ ns), eq_refl; by eapply says_on|].
    intros ns' <-. eapply gives_bind; [apply gives_keep_owned|]. intros t Ht. cbv beta in Ht. apply gives_ret. intros n.
    rewrite elem_of_app, Hl, Ht, Hin. unfold below. split.
    - intros [(j & dp & r & ? & ?)|((r & Hr & Hv) & Ho)]; [exists j, dp, r; split; [lia|done]|].
      exists i, (d, p), r. unfold rows_between in Hr. rewrite sorted_by_perm in Hr. apply list_elem_of_filter in Hr as [Hr Hin'].
      destruct (view_key loads d Hd r n Hin' Hv) as ([Hne Hok] & Hkey & Hrow). rewrite Hrow in Ho.
      repeat split; try done; [lia|]. rewrite Hkey, subtree_range in Hr by auto using key_of_octets, key_not_full.
      by apply (proj1 (key_of_prefix a (arcs n) (proj2 Ha) Hok)).
    - intros (j & dp & r & Hj & Hdp & Hr & Ho & Hv & Hp). destruct (decide (j = i)) as [->|].
      2:{ left. exists j, dp, r. split; [lia|done]. }
      right. rewrite Hi in Hdp. injection Hdp as <-. cbn in *.
      destruct (view_key loads d Hd r n Hr Hv) as ([Hne Hok] & Hkey & Hrow). rewrite Hrow. split; [|done].
      exists r. split; [|done]. unfold rows_between. rewrite sorted_by_perm. apply list_elem_of_filter. split; [|done].
      rewrite Hkey, subtree_range by auto using key_of_octets, key_not_full.
      by apply (proj2 (key_of_prefix a (arcs n) (proj2 Ha) Hok)). }
  intros l Hl. cbv beta in Hl. assert (Hok : Forall (λ n : node json, name_ok (arcs n)) l).
  { rewrite Forall_forall. intros n (i & dp & r & _ & Hi & Hr & _ & Hv & _)%Hl.
    pose proof (Forall_lookup_1 _ _ _ _ Hall Hi) as Hd. by apply (view_key loads dp.1 Hd r n Hr Hv). }
  rewrite keyed_ok by done. cbn. apply gives_ret. split.
  - intros n. rewrite list_elem_of_fmap. split.
    + intros (kn & -> & Hkn). rewrite sorted_by_perm in Hkn. apply list_elem_of_fmap in Hkn as (n' & -> & Hn').
      apply Hl in Hn' as (i & dp & r & _ & Hx). eauto.
    + intros (i & dp & r & Hi & Hx). exists (key_of (arcs n), n). split; [done|]. rewrite sorted_by_perm.
      apply list_elem_of_fmap. exists n. split; [done|]. apply Hl. exists i, dp, r. split; [by eapply lookup_lt_Some|done].
  - pose proof (sorted_by_sorted pair_leb (λ kn : octets * node json, (kn.1, codes (n_module (row kn.2))))
      ((λ n, (key_of (arcs n), n)) <$> l)) as Hsort.
    pose proof (sorted_by_perm pair_leb (λ kn : octets * node json, (kn.1, codes (n_module (row kn.2))))
      ((λ n, (key_of (arcs n), n)) <$> l)) as Hperm.
    assert (Hkn : Forall (λ kn : octets * node json, kn.1 = key_of (arcs kn.2) ∧ Forall arc_ok (arcs kn.2))
      ((λ n, (key_of (arcs n), n)) <$> l)).
    { apply Forall_fmap. eapply Forall_impl; [done|]. intros n [_ ?]. done. }
    rewrite <- Hperm in Hkn. clear Hperm. induction Hsort as [|[k n] t Ht IH Hle]; [constructor|]. cbn.
    apply Forall_cons_1 in Hkn as [[Hk Hn] Hkn]. constructor; [by apply IH|].
    apply Forall_fmap. rewrite Forall_forall in *. intros [k' n'] Hin. specialize (Hle _ Hin). specialize (Hkn _ Hin).
    cbn in *. destruct Hkn as [-> Hn']. subst k. apply pair_leb_first in Hle. cbn in Hle.
    unfold tuple_leb in *. by rewrite <- key_of_compare.
Qed.

(** *** The module of a name *)

(** The module a corpus registers exactly this name for *)
Definition anchored (a : oid) (m : string) : Prop :=
  ∃ i dp, dbs !! i = Some dp ∧ dget (oid_index dp.1) (key_of a) = Some m.
(** Of the modules anchored at the name, one with the least rank *)
Definition best_at (a : oid) (m : string) : Prop :=
  anchored a m ∧ ∀ m' k k', anchored a m' → rank_spec loads dbs m = Ok k → rank_spec loads dbs m' = Ok k' →
    tuple_leb k k' = true.

Lemma rank_known m : all_readable → ∃ k, rank_spec loads dbs m = Ok k.
Proof.
  intros Hall. unfold rank_spec. destruct (home dbs m) as [d|] eqn:Hh; [|by eexists].
  unfold home in Hh. destruct (owner_of dbs m) as [i|]; [|done]. cbn in Hh.
  destruct (dbs !! i) as [dp|] eqn:Hi; [|done]. injection Hh as <-.
  pose proof (Forall_lookup_1 _ _ _ _ Hall Hi) as Hd.
  destruct (mapM_view dp.1 (rows_of m dp.1) Hd) as (ns & -> & _); [|by eexists].
  intros r. unfold rows_of. rewrite sorted_by_perm. by intros [_ ?]%list_elem_of_filter.
Qed.
Lemma gives_ranked l : all_readable → gives Q (ranked loads l)
  (λ ks, ks.*1 = l ∧ ∀ m k, (m, k) ∈ ks → rank_spec loads dbs m = Ok k).
Proof.
  intros Hall. induction l as [|m l IH]; cbn [ranked].
  { apply gives_ret. split; [done|]. by intros m k ?%elem_of_nil. }
  destruct (rank_known m Hall) as (k & Hk).
  eapply gives_bind; [eapply (gives_says _ _ k), eq_refl; rewrite <- Hk; apply says_rank_of|]. intros k' <-.
  eapply gives_bind; [apply IH|]. intros t [<- Ht]. apply gives_ret. split; [done|].
  intros m' k' [[= -> ->]|Hin]%elem_of_cons; auto.
Qed.
Lemma least_spec (best : string * rank) c : least best c ∈ (best :: c).*1 ∧
  ∃ k, (least best c, k) ∈ best :: c ∧ ∀ m' k', (m', k') ∈ best :: c → tuple_leb k k' = true.
Proof.
  assert (Hk : ∃ k, (least best c, k) ∈ best :: c ∧ ∀ m' k', (m', k') ∈ best :: c → tuple_leb k k' = true).
  { revert best. induction c as [|x c IH]; intros best; cbn [least].
    - exists best.2. split; [apply elem_of_cons; left; by destruct best|].
      intros m' k' [<-|?%elem_of_nil]%elem_of_cons; [|done]. apply leb_refl.
    - destruct (IH (if tuple_ltb x.2 best.2 then x else best)) as (k & Hin & Hmin).
      exists k. split; [case_match; rewrite !elem_of_cons in *; naive_solver|].
      intros m' k' Hm. destruct (tuple_ltb x.2 best.2) eqn:Hlt.
      + apply elem_of_cons in Hm as [<-|Hm]; [|by eapply Hmin].
        eapply leb_trans; [apply (Hmin x.1 x.2); destruct x; apply elem_of_cons; by left|]. by apply tuple_ltb_weaken.
      + apply tuple_ltb_ge in Hlt. rewrite !elem_of_cons in Hm. destruct Hm as [<-|[<-|Hm]];
          [eapply Hmin, elem_of_cons; by left| |eapply Hmin, elem_of_cons; by right].
        eapply leb_trans; [apply (Hmin best.1 best.2); destruct best; apply elem_of_cons; by left|]. done. }
  split; [|done]. destruct Hk as (k & Hin & _). apply list_elem_of_fmap. by exists (least best c, k).
Qed.
Lemma gives_seen a : name_ok a → gives Q (seen_by (json:=json) (Arcs a)) (λ l, ∀ m, m ∈ l ↔ anchored a m).
Proof.
  intros Ha. eapply gives_mono.
  { apply (gives_for loads dbs _ (λ j l, ∀ m, m ∈ l ↔ ∃ i dp, (i < j)%nat ∧ dbs !! i = Some dp ∧
      dget (oid_index dp.1) (key_of a) = Some m)).
    { intros m. rewrite elem_of_nil. split; [done|]. intros (? & ? & ? & _). lia. }
    intros i [d p] l Hi Hl.
    pose proof (says_anchor loads d p (Arcs a)) as Hs. rewrite oid_key_ok in Hs by done. cbn in Hs.
    eapply gives_bind; [eapply (gives_says _ _ (dget (oid_index d) (key_of a))), eq_refl; by eapply says_on|].
    intros found <-. apply gives_ret. intros m.
    assert (Hstep : (∃ i0 dp, (i0 < S i)%nat ∧ dbs !! i0 = Some dp ∧ dget (oid_index dp.1) (key_of a) = Some m) ↔
      m ∈ l ∨ dget (oid_index d) (key_of a) = Some m).
    { rewrite Hl. split.
      - intros (j & dp & Hj & Hdp & Hm). destruct (decide (j = i)) as [->|]; [right|left; exists j, dp; split; [lia|done]].
        rewrite Hi in Hdp. by injection Hdp as <-.
      - intros [(j & dp & Hj & Hx)|Hm]; [exists j, dp; split; [lia|done]|exists i, (d, p); split; [lia|done]]. }
    rewrite Hstep. destruct (dget (oid_index d) (key_of a)) as [m0|]; [|naive_solver].
    case_decide; [|rewrite elem_of_app, list_elem_of_singleton]; naive_solver. }
  intros l Hl m. cbv beta in Hl. rewrite Hl. unfold anchored. split; [naive_solver|].
  intros (i & dp & Hi & Hm). exists i, dp. split; [by eapply lookup_lt_Some|done].
Qed.

Context (set_order_perm : ∀ l, set_order l ≡ₚ l).
Lemma gives_anchor a : all_readable → name_ok a → gives Q (all_anchor loads set_order (Arcs a))
  (λ r, match r with Some m => best_at a m | None => ∀ m, ¬ anchored a m end).
Proof using set_order_perm.
  intros Hall Ha. unfold all_anchor. eapply gives_bind; [by apply gives_seen|]. intros seen Hseen.
  eapply gives_bind; [by apply gives_ranked|]. intros ks [Hfst Hks]. apply gives_ret. cbv beta in Hseen.
  assert (Hin : ∀ m, m ∈ ks.*1 ↔ anchored a m) by (intros m; by rewrite Hfst, set_order_perm).
  destruct ks as [|c rest]; cbn [best_by_corpus_rank].
  { intros m Hm%Hin. by apply elem_of_nil in Hm. }
  destruct (least_spec c rest) as (Hl & k0 & Hk0 & Hmin). split; [by apply Hin|].
  intros m' k k' Hm' Hk Hk'. apply Hks in Hk0 as Hk0'. rewrite Hk in Hk0'. injection Hk0' as <-.
  apply Hin, list_elem_of_fmap in Hm' as ([m'' k''] & -> & Hm'). pose proof (Hks _ _ Hm') as Hk''. cbn in *.
  rewrite Hk' in Hk''. injection Hk'' as <-. by eapply Hmin.
Qed.

(** A name belongs to a module of the longest of its prefixes that any corpus has a
    module for; of the modules registered there it is one of the least rank. *)
Theorem module_of_longest_anchor s a : all_readable → Q s → name_ok a →
  ∃ found, (all_find_module loads set_order (Arcs a) s).1 = Ok found ∧
  match found with
  | Some m => ∃ p rest, a = p ++ rest ∧ p ≠ [] ∧ best_at p m ∧
      ∀ q, q ≠ [] → q `prefix_of` rest → ∀ m', ¬ anchored (p ++ q) m'
  | None => ∀ p, p ≠ [] → p `prefix_of` a → ∀ m', ¬ anchored p m'
  end.
Proof using set_order_perm.
  intros Hall Hs [_ Ha]. apply gives_now; [done|]. unfold all_find_module. cbn.
  eapply gives_bind; [eapply (gives_says _ _ a), eq_refl; apply says_liftR|]. intros a' <-.
  assert (Hchop : ∀ n, length a = n → gives Q (chop (λ a, all_anchor loads set_order (Arcs a)) n a)
    (λ found, match found with
      | Some m => ∃ p rest, a = p ++ rest ∧ p ≠ [] ∧ best_at p m ∧
          ∀ q, q ≠ [] → q `prefix_of` rest → ∀ m', ¬ anchored (p ++ q) m'
      | None => ∀ p, p ≠ [] → p `prefix_of` a → ∀ m', ¬ anchored p m'
      end)); [|by apply Hchop].
  clear Hs s. intros n. revert a Ha. induction n as [|n IH]; intros a Ha Hlen.
  { apply nil_length_inv in Hlen as ->. apply gives_ret. intros p Hp Hpre. by apply prefix_nil_inv in Hpre. }
  destruct (decide (a = [])) as [->|Hne]; [done|].
  assert (Hchop : chop (λ a, all_anchor loads set_order (Arcs a)) (S n) a =
    (found ← all_anchor loads set_order (Arcs a);
     match found with
     | Some m => mret (Some m)
     | None => chop (λ a, all_anchor loads set_order (Arcs a)) n (removelast a)
     end)) by (by destruct a).
  rewrite Hchop. eapply gives_bind; [by apply gives_anchor|]. intros [m|] Hm.
  { apply gives_ret. exists a, []. rewrite app_nil_r. split; [done|]. split; [done|]. split; [done|].
    intros q Hq ->%prefix_nil_inv. done. }
  destruct (exists_last Hne) as (b & z & ->). rewrite removelast_last.
  apply Forall_app in Ha as [Hb Hz]. rewrite length_app in Hlen. cbn in Hlen.
  eapply gives_mono; [apply IH; [done|lia]|]. intros [m|]; cbn.
  - intros (p & rest & -> & Hp & Hbest & Hno). exists p, (rest ++ [z]). rewrite (assoc_L (++)).
    split; [done|]. split; [done|]. split; [done|]. intros q Hq Hpre m'.
    apply prefix_snoc_inv in Hpre as [->|Hpre]; [|by apply Hno]. rewrite (assoc_L (++)). apply Hm.
  - intros Hno p Hp Hpre m'. apply prefix_snoc_inv in Hpre as [->|Hpre]; [apply Hm|by apply Hno].
Qed.
End answers.

(** ** One module, one corpus *)
Section owners.
Context {json : Type} (loads : string → result exn json) (set_order : list string → list string).

Definition revision_key (r : option string) : list Z := codes (default ""%string r).
Lemma newest_spec {A} (a : A) (r : option string) c : ∃ pre r' post,
  (a, r) :: c = pre ++ (newest (a, default ""%string r) c, r') :: post ∧
  (∀ x, x ∈ pre → tuple_ltb (revision_key x.2) (revision_key r') = true) ∧
  (∀ x, x ∈ post → tuple_leb (revision_key x.2) (revision_key r') = true).
Proof.
  revert a r. induction c as [|[b rb] c IH]; intros a r; cbn [newest fst snd].
  { exists [], r, []. split; [done|]. by split; intros x ?%elem_of_nil. }
  destruct (tuple_ltb (codes (default ""%string r)) (codes (default ""%string rb))) eqn:Hlt.
  - destruct (IH b rb) as (pre & r' & post & Heq & Hpre & Hpost). exists ((a, r) :: pre), r', post.
    split; [by rewrite Heq|]. split; [|done]. intros x [->|Hx]%elem_of_cons; [|by apply Hpre]. cbn.
    destruct pre as [|y pre].
    + injection Heq as _ <- _. exact Hlt.
    + injection Heq as Hy _. eapply tuple_ltb_leb_trans; [exact Hlt|]. apply tuple_ltb_weaken. apply (Hpre (b, rb)). rewrite <- Hy. apply elem_of_cons. by left.
  - apply tuple_ltb_ge in Hlt. destruct (IH a r) as (pre & r' & post & Heq & Hpre & Hpost).
    destruct pre as [|y pre].
    + injection Heq as Ha <- <-. exists [], r, ((b, rb) :: c). rewrite <- Ha. split; [done|].
      split; [intros x ?%elem_of_nil; done|]. intros x [->|Hx]%elem_of_cons; [exact Hlt|by apply Hpost].
    + injection Heq as <- Heq'. exists ((a, r) :: (b, rb) :: pre), r', post.
      split; [cbn [app]; do 2 f_equal; exact Heq'|]. split; [|done].
      intros x [->|[->|Hx]%elem_of_cons]%elem_of_cons; [apply Hpre, elem_of_cons; by left| |apply Hpre, elem_of_cons; by right].
      cbn. eapply tuple_leb_ltb_trans; [exact Hlt|]. apply (Hpre (a, r)), elem_of_cons. by left.
Qed.
Lemma best_copy_spec {A} (c : list (A * option string)) w : best_by_revision c = Some w → ∃ pre r post,
  c = pre ++ (w, r) :: post ∧
  ((∃ x, x ∈ c ∧ stated x.2 = None) → pre = []) ∧
  ((∀ x, x ∈ c → stated x.2 ≠ None) →
     (∀ x, x ∈ pre → tuple_ltb (revision_key x.2) (revision_key r) = true) ∧
     (∀ x, x ∈ post → tuple_leb (revision_key x.2) (revision_key r) = true)).
Proof.
  destruct c as [|[a r] c]; [done|]. unfold best_by_revision.
  destruct (forallb _ ((a, r) :: c)) eqn:Hall; cbn [andb].
  - rewrite forallb_forall in Hall. destruct (forallb _ c) eqn:Heq; cbn [negb]; intros [= <-].
    + rewrite forallb_forall in Heq. exists [], r, c. split; [done|]. split; [done|]. intros _.
      split; [by intros x ?%elem_of_nil|]. intros x Hx%list_elem_of_In. specialize (Heq x Hx).
      apply bool_decide_eq_true in Heq as ->. apply leb_refl.
    + destruct (newest_spec a r c) as (pre & r' & post & Hc & Hpre & Hpost). exists pre, r', post. split; [done|].
      split; [|done]. intros (x & Hx%list_elem_of_In & Hno). specialize (Hall x Hx). cbv beta in Hall. by rewrite Hno in Hall.
  - intros [= <-]. exists [], r, c. split; [done|]. split; [done|]. intros Hst. exfalso.
    apply not_true_iff_false in Hall. apply Hall, forallb_forall. intros x Hx%list_elem_of_In.
    specialize (Hst x Hx). by destruct (stated x.2).
Qed.

Context (dbs : list (database * bool)).
(** The corpus at [i] has a copy of the module, of this revision. *)
Definition copy (name : string) (i : nat) (r : option string) : Prop :=
  ∃ dp, dbs !! i = Some dp ∧ name ∈ names dp.1 ∧ module_named name dp.1 ≫= m_revision = r.
Lemma copy_offered name i r : (i, r) ∈ omap (offers name) (enum dbs) ↔ copy name i r.
Proof.
  rewrite list_elem_of_omap. unfold offers, copy. split.
  - intros ([j dp] & Hj%elem_of_enum & Ho). cbn in Ho. case_decide; [|done]. injection Ho as -> <-. eauto.
  - intros (dp & Hi & Hin & Hr). exists (i, dp). split; [by apply elem_of_enum|]. cbn. rewrite decide_True by done. by rewrite Hr.
Qed.
Lemma offers_in_order name : StronglySorted (λ x y, (x.1 < y.1)%nat) (omap (offers name) (enum dbs)).
Proof.
  unfold enum. assert (Hgo : ∀ k (l : list (database * bool)),
    StronglySorted (λ x y, (x.1 < y.1)%nat) (omap (offers name) (imap (λ i, pair (k + i)%nat) l)) ∧
    Forall (λ x, (k ≤ x.1)%nat) (omap (offers name) (imap (λ i, pair (k + i)%nat) l))); [|by apply (Hgo O)].
  intros k l. revert k. induction l as [|dp l IH]; intros k; [split; constructor|].
  rewrite imap_cons. destruct (IH (S k)) as [Hs Hf].
  replace (imap ((λ i, pair (k + i)%nat) ∘ S) l) with (imap (λ i, pair (S k + i)%nat) l).
  2:{ apply imap_ext. intros i x _. cbn. by rewrite Nat.add_succ_r. }
  assert (Hk : Forall (λ x : nat * option string, (k ≤ x.1)%nat) (omap (offers name) (imap (λ i, pair (S k + i)%nat) l)))
    by (eapply Forall_impl; [done|]; cbn; intros; lia).
  cbn [omap list_omap].
  destruct (offers name ((k + 0)%nat, dp)) as [y|] eqn:Hy; [|done].
  assert (y.1 = k) as <-. { unfold offers in Hy. case_decide; [|done]. injection Hy as <-. cbn. lia. }
  by split; constructor.
Qed.

(** A module is read from the corpus with its newest copy; from the first of them where
    two are of the same revision, and from the first that has it at all where some copy
    states no revision. *)
Theorem module_is_read_from_newest s name : searches loads dbs s →
  ∃ w, (owner name s).1 = Ok w ∧
  match w with
  | None => ∀ i r, ¬ copy name i r
  | Some i => ∃ r, copy name i r ∧
      ((∃ j r', copy name j r' ∧ stated r' = None) → ∀ j r', copy name j r' → (i ≤ j)%nat) ∧
      ((∀ j r', copy name j r' → stated r' ≠ None) → ∀ j r', copy name j r' →
         tuple_leb (revision_key r') (revision_key r) = true ∧
         ((j < i)%nat → tuple_ltb (revision_key r') (revision_key r) = true))
  end.
Proof.
  intros Hs. destruct (says_owner loads dbs name s Hs) as (s' & -> & _). eexists. split; [done|].
  pose proof (offers_in_order name) as Hord. pose proof (copy_offered name) as Hc. unfold owner_of.
  destruct (best_by_revision (omap (offers name) (enum dbs))) as [i|] eqn:Hb.
  2:{ destruct (omap _ _) as [|[j rj] l]; [intros i r Hcp%Hc; by apply elem_of_nil in Hcp|].
      unfold best_by_revision in Hb. by destruct (_ && _). }
  destruct (best_copy_spec _ _ Hb) as (pre & r & post & Heq & Hno & Hall). rewrite Heq in *. exists r.
  apply StronglySorted_app in Hord as (Hpp & _ & Hpost). inversion Hpost as [|? ? _ Hlater]; subst.
  rewrite Forall_forall in Hlater.
  assert (Hcopies : ∀ j r', copy name j r' → (j, r') ∈ pre ∧ (j < i)%nat ∨ (j = i ∧ r' = r) ∨ (j, r') ∈ post ∧ (i < j)%nat).
  { intros j r' Hcp%Hc. rewrite elem_of_app, elem_of_cons in Hcp. destruct Hcp as [Hx|[[= -> ->]|Hx]]; [left| |right; right]; auto.
    - split; [done|]. apply (Hpp _ (i, r) Hx). apply elem_of_cons. by left.
    - split; [done|]. by apply (Hlater (j, r')). }
  split; [apply Hc, elem_of_app; right; apply elem_of_cons; by left|]. split.
  - intros (j & r' & Hj%Hc & Hst) k rk Hk. assert (pre = []) as -> by (apply Hno; by exists (j, r')).
    destruct (Hcopies k rk Hk) as [[Hx _]|[[-> _]|[_ ?]]]; [by apply elem_of_nil in Hx|lia|lia].
  - intros Hst j r' Hj. destruct Hall as [Hpre Hpo]; [intros [k rk] Hk; by eapply Hst, Hc|].
    destruct (Hcopies j r' Hj) as [[Hx ?]|[[-> ->]|[Hx ?]]].
    + split; [apply tuple_ltb_weaken|intros _]; by apply (Hpre (j, r')).
    + split; [apply leb_refl|lia].
    + split; [by apply (Hpo (j, r'))|lia].
Qed.

(** Whatever has been asked of a composite of freshly opened corpora, it answers every
    question as it would have at first: its caches cannot be observed. *)
Theorem answers_do_not_depend_on_history disk paths l s history {A} (q : query A) :
  Forall2 (λ p c, init disk p = Ok c) paths l → composite l = Ok s →
  (perform loads set_order q (foldl (after loads set_order) s history)).1 = (perform loads set_order q s).1.
Proof.
  intros Hl Hs. destruct l as [|c0 l0]; [done|]. injection Hs as <-. set (l := c0 :: l0) in *. clearbody l.
  pose (tables := (λ c : MibCorpus json, (db c, provenance_ c)) <$> l).
  assert (Hq : searches loads tables (mk_composite l None [] [])).
  { split; cbn; try done. unfold tables. apply Forall2_fmap_l, Forall_Forall2_diag. rewrite Forall_forall.
    intros c (i & Hi)%list_elem_of_lookup_1. destruct (Forall2_lookup_r _ _ _ _ _ Hl Hi) as (p & _ & Hp).
    unfold init in Hp. repeat (case_match; try discriminate). injection Hp as <-. by split. }
  assert (Hafter : ∀ s, searches loads tables s → searches loads tables (foldl (after loads set_order) s history)).
  { induction history as [|h t IH]; intros s Hs; [done|]. cbn. by apply IH, searches_after. }
  destruct (steady_perform loads set_order tables q) as [v Hv].
  destruct (Hv _ Hq) as (? & -> & _), (Hv _ (Hafter _ Hq)) as (? & -> & _). done.
Qed.

(** Opening a search path gives either a corpus for every path, open and in the order of
    the paths, or an error with every corpus that was opened closed again. *)
Theorem open_is_all_or_nothing (disk : string → on_disk) paths :
  let '(r, opened) := open_corpora (json:=json) disk paths [] in
  match r with
  | Ok (inl c) => ∃ p, paths = [p] ∧ init disk p = Ok c ∧ closed c = false
  | Ok (inr s) => Forall2 (λ p c, init disk p = Ok c ∧ closed c = false) paths (corpora s) ∧ (2 ≤ length paths)%nat
  | Err e => is_SmiError e = true ∧ Forall (λ c, closed c = true) opened ∧
      (paths = [] ∨ ∃ p, p ∈ paths ∧ init (json:=json) disk p = Err e)
  end.
Proof.
  unfold open_corpora.
  assert (Hinit : ∀ p (r : result exn (MibCorpus json)), init disk p = r →
    match r with Ok c => closed c = false | Err e => is_SmiError e = true end).
  { intros p r <-. unfold init. destruct (disk p) as [| | |app v d]; [done..|]. by destruct (app =? _), (bool_decide _). }
  assert (Hopen : ∀ ps acc, (∃ l, open_all (json:=json) disk ps acc = (Ok tt, acc ++ l) ∧ Forall2 (λ p c, init disk p = Ok c) ps l) ∨
    (∃ l e p, open_all (json:=json) disk ps acc = (Err e, acc ++ l) ∧ p ∈ ps ∧ init (json:=json) disk p = Err e)).
  { induction ps as [|p ps IH]; intros acc; cbn [open_all].
    - left. exists []. by rewrite app_nil_r.
    - unfold mbind, M_bind, liftR, modify. destruct (init disk p) as [c|e] eqn:Hp.
      + destruct (IH (acc ++ [c])) as [(l & Hl & Hall)|(l & e & q & Hl & Hq & He)]; rewrite Hl, <- (assoc_L (++)).
        * left. exists (c :: l). split; [done|]. by constructor.
        * right. exists (c :: l), e, q. rewrite elem_of_cons. auto.
      + right. exists [], e, p. rewrite app_nil_r, elem_of_cons. auto. }
  unfold mbind, M_bind, try_except. destruct (Hopen paths []) as [(l & -> & Hall)|(l & e & p & -> & Hp & He)]; cbn [app].
  - unfold gets, id. assert (Hall' : Forall2 (λ p c, init disk p = Ok c ∧ closed c = false) paths l).
    { eapply Forall2_impl; [done|]. cbn. intros p c Hc. split; [done|]. apply (Hinit p _ Hc). }
    destruct l as [|c [|c' l]]; cbn.
    + inversion Hall; subst. split; [done|]. split; [done|]. by left.
    + inversion Hall' as [|p ? ps ? Hp Hps]; subst. inversion Hps; subst. by exists p.
    + split; [done|]. apply Forall2_length in Hall. rewrite Hall. cbn. lia.
  - cbn. split; [by apply (Hinit p (Err e))|]. split; [|right; by exists p].
    apply Forall_fmap, Forall_true. done.
Qed.
End owners.

(** ** Two corpora *)
Section demo.
Local Open Scope string_scope.
Definition demo_row (m n : string) (o : oid) : node_row :=
  mk_node (key_of o) m n (dotted o) "objecttype" None (Some "current") None None (Some 1) None None None.
Definition demo_module (m : string) (tier revision : string) : module_row :=
  mk_module m (Some tier) None None (Some revision) None 1.
Definition interfaces : oid := [1; 3; 6; 1; 2; 1; 2].
Definition acme : oid := [1; 3; 6; 1; 4; 1; 9].
Definition core : database :=
  mk_db [("texts", "0")] [(key_of interfaces, "IF-MIB"); (key_of acme, "ACME-SMI")]
    [demo_row "IF-MIB" "ifNumber" (interfaces ++ [1]); demo_row "IF-MIB" "ifTable" (interfaces ++ [2])]
    [] [] [] [(1, "{}")] [demo_module "IF-MIB" "standard" "200006140000Z"].
Definition site : database :=
  mk_db [] [(key_of interfaces, "OLD-IF-MIB"); (key_of (acme ++ [1]), "ACME-MIB")]
    [demo_row "ACME-MIB" "acmeLoad" (acme ++ [1; 1]); demo_row "IF-MIB" "ifNumber" (interfaces ++ [1]);
     demo_row "IF-MIB" "ifOld" (interfaces ++ [7]); demo_row "OTHER-MIB" "other" (interfaces ++ [7])]
    [] [] [] [(1, "{}")]
    [demo_module "IF-MIB" "vendor" "199611030000Z"; demo_module "ACME-MIB" "vendor" "202001010000Z";
     demo_module "OTHER-MIB" "vendor" "202001010000Z"].
Definition demo_disk (p : string) : on_disk :=
  if decide (p = "core.db") then Database APPLICATION_ID 2 core
  else if decide (p = "site.db") then Database APPLICATION_ID 1 site
  else if decide (p = "new.db") then Database APPLICATION_ID 3 site else Missing.
Definition demo_loads (s : string) : result exn string := Ok s.
Definition demo_tables : list (database * bool) := [(core, true); (site, false)].
Definition demo_search : CompositeMibCorpus string :=
  mk_composite [mk_corpus "core.db" core false true [] None; mk_corpus "site.db" site false false [] None] None [] [].
End demo.

Lemma demo_searches : searches demo_loads demo_tables demo_search.
Proof. split; cbn; try done. repeat constructor; done. Qed.
Lemma demo_readable : all_readable demo_loads demo_tables.
Proof.
  repeat constructor; try (apply (bool_decide_unpack _); vm_compute; exact I).
  all: apply Forall_forall; cbn [node_table fst core site]; repeat (apply Forall_cons; split);
    [..|apply Forall_nil; exact I].
  all: eexists; split; [vm_compute; reflexivity|]; split; [apply (bool_decide_unpack _); vm_compute; exact I|vm_compute; reflexivity].
Qed.
Lemma demo_name : name_ok (interfaces ++ [2]).
Proof. apply (bool_decide_unpack _). vm_compute. exact I. Qed.

Lemma next_node_is_first_shown_witness :
  ∃ n, (all_next_node demo_loads (Arcs (interfaces ++ [2])) demo_search).1 = Ok (Some n) ∧
    tuple_ltb (interfaces ++ [2]) (arcs n) = true.
Proof.
  destruct (next_node_is_first_shown demo_loads demo_tables demo_search _ demo_readable demo_searches demo_name)
    as ([n|] & Hn & Hfirst); [|by vm_compute in Hn].
  exists n. split; [exact Hn|]. apply Hfirst.
Defined.
Lemma subtree_is_what_is_below_witness :
  ∃ l, (all_subtree demo_loads (Arcs (interfaces ++ [2])) demo_search).1 = Ok l ∧
  StronglySorted (λ n n', tuple_leb (arcs n) (arcs n') = true) l.
Proof.
  destruct (subtree_is_what_is_below demo_loads demo_tables demo_search _ demo_readable demo_searches demo_name)
    as (l & Hl & _ & Hs).
  exists l. split; [exact Hl|exact Hs].
Defined.
Lemma module_of_longest_anchor_witness :
  (all_find_module demo_loads (λ l, l) (Arcs (interfaces ++ [2])) demo_search).1 = Ok (Some "IF-MIB"%string) ∧
  ∃ p rest, interfaces ++ [2] = p ++ rest ∧ best_at demo_loads demo_tables p "IF-MIB"%string.
Proof.
  split; [vm_compute; reflexivity|].
  destruct (module_of_longest_anchor demo_loads (λ l, l) demo_tables (λ l, reflexivity l) demo_search _
    demo_readable demo_searches demo_name) as (found & Hf & Hx).
  vm_compute in Hf. injection Hf as <-. destruct Hx as (p & rest & Hp & _ & Hb & _). by exists p, rest.
Defined.
Lemma module_is_read_from_newest_witness :
  (owner "IF-MIB"%string demo_search).1 = Ok (Some 0%nat) ∧
  ∃ r, copy demo_tables "IF-MIB"%string 0 r.
Proof.
  split; [vm_compute; reflexivity|].
  destruct (module_is_read_from_newest demo_loads demo_tables demo_search "IF-MIB"%string demo_searches) as (w & Hw & Hx).
  vm_compute in Hw. injection Hw as <-. destruct Hx as (r & Hr & _). by exists r.
Defined.
Lemma answers_do_not_depend_on_history_witness :
  let history := [existT _ (AskSubtree (Arcs acme)); existT _ (AskFind (Arcs (interfaces ++ [2])))] in
  (perform demo_loads (λ l, l) (AskRank "IF-MIB"%string) (foldl (after demo_loads (λ l, l)) demo_search history)).1 =
  (perform demo_loads (λ l, l) (AskRank "IF-MIB"%string) demo_search).1.
Proof.
  intros history.
  apply (answers_do_not_depend_on_history demo_loads (λ l, l) demo_disk ["core.db"; "site.db"]%string (corpora demo_search));
    [|reflexivity].
  repeat constructor.
Defined.

(** A corpus looks no further than the first row at an identifier, by the name of its
    module: a node of a module it does own is not found where the row of one it does not
    own comes first, neither by its identifier nor in a walk, though its subtree has it. *)
Example foreign_row_hides_a_node :
  let here := interfaces ++ [7] in
  (owner "OTHER-MIB"%string demo_search).1 = Ok (Some 1%nat) ∧
  (all_node demo_loads (Arcs here) None demo_search).1 = Ok None ∧
  match (all_next_node demo_loads (Arcs (interfaces ++ [2])) demo_search).1 with
  | Ok n => option_map arcs n = Some (acme ++ [1; 1]) | Err _ => False end ∧
  match (all_subtree demo_loads (Arcs here) demo_search).1 with
  | Ok l => List.map arcs l = [here] | Err _ => False end.
Proof. vm_compute. done. Qed.
(** A schema that is not known closes what was opened before it. *)
Example unknown_schema_closes :
  let '(r, opened) := open_corpora (json:=string) demo_disk ["core.db"; "new.db"; "site.db"]%string [] in
  r = Err (SmiError "schema version") ∧ closed <$> opened = [true].
Proof. vm_compute. done. Qed.
End CorpusSpec.
