(* ===== verification/Ntfrcv.v ===== *)
(** * The notification receiver (src/pysnmp/entity/rfc3413/ntfrcv.py)

    Notifications are handed to a callback of the application, and an inform is
    acknowledged first.  The callback is a Python callable of one of two signatures, and
    refuses a call of the other one with [TypeError]; it acts on the part [A] of the
    engine's state that is not the receiver's, as do the registration with the dispatcher
    and [returnResponsePdu]. *)
From S2P Require Export Proxy.
Export Proxy.
#[local] Open Scope Z_scope.

Module Ntfrcv.

(** ** State *)

(** The arguments the dispatcher passes on *)
Record message : Type := mk_message {
  n_messageProcessingModel : Z;
  n_securityModel : Z;
  n_securityName : octets;
  n_securityLevel : Z;
  n_contextEngineId : octets;
  n_contextName : octets;
  n_pduVersion : Z;
  n_maxSizeResponseScopedPDU : Z;
}.

(** A call of [cbFun]: with the state reference or, before 4.4, without; [cbCtx] goes
    with the callback. *)
Inductive call : Type :=
  | Legacy (contextEngineId contextName : octets) (l : list var_bind)
  | Current (stateReference : Z) (contextEngineId contextName : octets) (l : list var_bind).

Definition pduTypes : list pdu_tag := [TrapPDU; SNMPv2TrapPDU; InformRequestPDU].

Section receiver.
Context {A : Type}.
Abbreviation callback := (call → M exn A unit).

Record NotificationReceiver : Type := mk_receiver {
  others : A;
  generator : NextId.Integer;
  snmpSilentDrops : Z;
  snmpTrapCommunity : octets;
  cbFunVer : bool;
  cbFun : option callback;
}.
Abbreviation R := (M exn NotificationReceiver).
Definition put_others (a : A) (s : NotificationReceiver) : NotificationReceiver :=
  mk_receiver a (generator s) (snmpSilentDrops s) (snmpTrapCommunity s) (cbFunVer s) (cbFun s).
Definition put_generator (g : NextId.Integer) (s : NotificationReceiver) : NotificationReceiver :=
  mk_receiver (others s) g (snmpSilentDrops s) (snmpTrapCommunity s) (cbFunVer s) (cbFun s).
Definition put_cbFunVer (v : bool) (s : NotificationReceiver) : NotificationReceiver :=
  mk_receiver (others s) (generator s) (snmpSilentDrops s) (snmpTrapCommunity s) v (cbFun s).
Definition on_others {B} : M exn A B → R B := zoom others put_others.
Definition on_generator {B} : M exn NextId.Integer B → R B := zoom generator put_generator.

(** [registerContextEngineId(b"", pduTypes, processPdu)], [unregisterContextEngineId]
    and [registerObserver] *)
Context (registerContextEngineId : octets → list pdu_tag → M exn A unit).
Context (unregisterContextEngineId : octets → list pdu_tag → M exn A unit).
Context (registerObserver : string → M exn A unit).
(** [msgAndPduDsp.returnResponsePdu] *)
Context (returnResponsePdu : message → v1_pdu → Z → M exn A unit).
Context (other_address : value → result exn octets).

(** ** Operations *)

Definition init (f : callback) : M exn (A * NextId.Integer * Z) NotificationReceiver := fun s =>
  let '(a, g, drops) := s in
  match (registerContextEngineId [] pduTypes;; registerObserver "rfc2576.processIncomingMsg") a with
  | (Ok _, a) => (Ok (mk_receiver a g drops [] false (Some f)), (a, g, drops))
  | (Err e, a) => (Err e, (a, g, drops))
  end.
(** The observer: [variables.get("communityName", "")] *)
Definition storeSnmpTrapCommunity (communityName : option octets) : R unit :=
  modify (λ s, mk_receiver (others s) (generator s) (snmpSilentDrops s) (default [] communityName)
    (cbFunVer s) (cbFun s)).
Definition close : R unit :=
  on_others (unregisterContextEngineId [] pduTypes);;
  modify (λ s, mk_receiver (others s) (generator s) (snmpSilentDrops s) (snmpTrapCommunity s) (cbFunVer s) None).

(** [snmpSilentDrops.syntax += 1], a Counter32 *)
Definition count_silent_drop : R unit := modify (λ s,
  mk_receiver (others s) (generator s) ((snmpSilentDrops s + 1) mod 4294967296) (snmpTrapCommunity s)
    (cbFunVer s) (cbFun s)).

(** 3.4: the acknowledgement *)
Definition acknowledge (i : message) (PDU : pdu) (origPdu : option v1_pdu) (stateReference : Z) : R unit :=
  rspPDU ← on_generator (getResponse PDU);
  rspPDU ← liftR (setErrorIndex 0 (with_errorStatus 0 rspPDU));
  let rspPDU := setVarBinds (varBinds PDU) rspPDU in
  rspPDU ← liftR (if n_messageProcessingModel i =? 0 then v2ToV1 other_address rspPDU origPdu
                  else Ok (V1Pdu rspPDU));
  try_except (on_others (returnResponsePdu i rspPDU stateReference))
    (λ e, if is_StatusInformation e then Some count_silent_drop else None).

(** [self.__cbFun(...)]; [None] is not callable. *)
Definition call_cbFun (c : call) : R unit :=
  f ← gets cbFun;
  match f with Some f => on_others (f c) | None => raise TypeError end.
Definition hand_over (i : message) (l : list var_bind) (stateReference : Z) : R unit :=
  v ← gets cbFunVer;
  let current := call_cbFun (Current stateReference (n_contextEngineId i) (n_contextName i) l) in
  if (v : bool) then current
  else try_except (call_cbFun (Legacy (n_contextEngineId i) (n_contextName i) l))
    (λ e, match e with TypeError => Some (modify (put_cbFunVer true);; current) | _ => None end).

(** A PDU that is not of SNMPv1 is one of the shapes of SNMPv2. *)
Definition processPdu (i : message) (PDU : v1_pdu) (stateReference : Z) : R unit :=
  community ← gets snmpTrapCommunity;
  p ← (if n_messageProcessingModel i =? 0 then on_generator (v1ToV2 PDU None community)
       else match PDU with V1Pdu p => mret p | V1Trap _ => raise (ProtocolError "Unexpected PDU class") end);
  let origPdu := if n_messageProcessingModel i =? 0 then Some PDU else None in
  (if confirmedClassPDUs (pduType p) then acknowledge i p origPdu stateReference
   else if unconfirmedClassPDUs (pduType p) then mret tt
   else raise (ProtocolError "Unexpected PDU class"));;
  hand_over i (varBinds p) stateReference.

(** ** What the application sees *)

(** The callback does [g] with a notification and refuses calls of the other signature
    before it does anything; a legacy callback that was refused once is not called as such
    any more, so it must not raise [TypeError] of its own. *)
Definition takes_current (f : callback) (g : Z → octets → octets → list var_bind → M exn A unit) : Prop :=
  (∀ r e n l, f (Current r e n l) = g r e n l) ∧ (∀ e n l a, f (Legacy e n l) a = (Err TypeError, a)).
Definition takes_legacy (f : callback) (g : octets → octets → list var_bind → M exn A unit) : Prop :=
  (∀ e n l, f (Legacy e n l) = g e n l) ∧ (∀ e n l a, (g e n l a).1 ≠ Err TypeError).
Definition serves (f : callback) (g : Z → octets → octets → list var_bind → M exn A unit) (ver : bool) : Prop :=
  takes_current f g ∨ (ver = false ∧ ∃ h, takes_legacy f h ∧ ∀ r, g r = h).

(** The application has the notification: the state and the outcome after its callback *)
Definition handed (g : Z → octets → octets → list var_bind → M exn A unit) (i : message) (l : list var_bind)
    (r : Z) (v : bool) (s : NotificationReceiver) : result exn unit * NotificationReceiver :=
  let '(x, a) := g r (n_contextEngineId i) (n_contextName i) l (others s) in (x, put_others a (put_cbFunVer v s)).

Lemma hand_over_serves f g i l r s : cbFun s = Some f → serves f g (cbFunVer s) →
  ∃ v, serves f g v ∧ hand_over i l r s = handed g i l r v s.
Proof.
  intros Hf Hg. unfold hand_over, handed, call_cbFun, try_except, on_others, zoom, modify, gets, mbind, M_bind.
  cbn. destruct Hg as [[Hc Hl]|(Hv & h & [Hl Ht] & Hgh)].
  - exists true. split; [by left|]. destruct (cbFunVer s) eqn:Hv; cbn; rewrite Hf.
    + rewrite Hc. destruct (g _ _ _ _ _) as [x a]. unfold put_others, put_cbFunVer. cbn. by rewrite Hv.
    + rewrite Hl. cbn. rewrite Hf, Hc. by destruct (g _ _ _ _ _) as [x a].
  - exists false. split; [right; split; [done|by exists h]|]. rewrite Hv. cbn. rewrite Hf, Hl, Hgh.
    specialize (Ht (n_contextEngineId i) (n_contextName i) l (others s)).
    assert (Hsame : ∀ a, put_others a s = put_others a (put_cbFunVer false s))
      by (intros a; unfold put_others, put_cbFunVer; cbn; by rewrite Hv).
    destruct (h _ _ _ _) as [[u|e] a]; cbn; rewrite <- Hsame; [done|]. by destruct e.
Qed.

Lemma acknowledge_sends i p r s n gen : n_messageProcessingModel i ≠ 0 →
  NextId.call (generator s) = (Ok n, gen) →
  acknowledge i p None r s =
    match returnResponsePdu i (V1Pdu (mk_pdu ResponsePDU (requestID p) 0 0 (varBinds p))) r (others s) with
    | (Ok u, a) => (Ok u, put_others a (put_generator gen s))
    | (Err e, a) =>
        if is_StatusInformation e then count_silent_drop (put_others a (put_generator gen s))
        else (Err e, put_others a (put_generator gen s))
    end.
Proof.
  intros Hm Hgen. unfold acknowledge, getResponse, setDefaults, on_generator, on_others, try_except, zoom.
  rewrite (proj2 (Z.eqb_neq _ 0) Hm). munfold. rewrite Hgen. cbn.
  unfold setVarBinds, with_varBinds, with_errorIndex, with_errorStatus, with_requestID. cbn.
  destruct (returnResponsePdu _ _ _ _) as [[u|e] a]; [done|]. by destruct (is_StatusInformation e).
Qed.

(** A notification is handed to the application once, with its bindings, by the signature
    its callback has.  A trap is answered with nothing; an inform first with a response
    that has its request ID and bindings and no error.  A response that is refused with a
    StatusInformation is counted as dropped, and the application has the inform all the
    same; any other failure of the response keeps the inform from it. *)
Theorem notification_is_handed_on i p r s f g n gen :
  n_messageProcessingModel i ≠ 0 → notificationClassPDUs (pduType p) = true →
  NextId.call (generator s) = (Ok n, gen) → cbFun s = Some f → serves f g (cbFunVer s) →
  ∃ v, serves f g v ∧
  processPdu i (V1Pdu p) r s =
    if decide (pduType p = InformRequestPDU) then
      let s' := put_generator gen s in
      match returnResponsePdu i (V1Pdu (mk_pdu ResponsePDU (requestID p) 0 0 (varBinds p))) r (others s) with
      | (Ok _, a) => handed g i (varBinds p) r v (put_others a s')
      | (Err e, a) =>
          if is_StatusInformation e
          then handed g i (varBinds p) r v (count_silent_drop (put_others a s')).2
          else (Err e, put_others a s')
      end
    else handed g i (varBinds p) r v s.
Proof.
  intros Hm Hp Hgen Hf Hg. unfold processPdu. unfold gets at 1. unfold mbind at 1, M_bind at 1. cbn beta iota.
  rewrite (proj2 (Z.eqb_neq _ 0) Hm). unfold mbind at 1, M_bind at 1. cbn beta iota. unfold mret at 1, M_ret at 1.
  unfold mbind at 1, M_bind at 1. case_decide as Ht.
  - rewrite Ht. cbn [confirmedClassPDUs]. rewrite (acknowledge_sends i p r s n gen Hm Hgen).
    destruct (returnResponsePdu _ _ _ _) as [[u|e] a]; [by apply (hand_over_serves f)|].
    destruct (is_StatusInformation e); [by apply (hand_over_serves f)|by eexists].
  - assert (confirmedClassPDUs (pduType p) = false ∧ unconfirmedClassPDUs (pduType p) = true) as [-> ->]
      by (revert Hp Ht; by destruct (pduType p)).
    by apply (hand_over_serves f).
Qed.

(** After [close] nothing is handed on: the callback is gone. *)
Lemma closed_calls_nothing i l r s : cbFun s = None → hand_over i l r s = (Err TypeError, put_cbFunVer true s).
Proof.
  intros Hf. unfold hand_over, call_cbFun, try_except, modify, gets, mbind, M_bind, raise. cbn.
  destruct (cbFunVer s) eqn:Hv; cbn; rewrite Hf.
  - destruct s; cbn in *; by subst.
  - cbn. by rewrite Hf.
Qed.
End receiver.
Arguments NotificationReceiver : clear implicits.

(** ** An inform, for callbacks of both signatures *)
Definition demo_message : message := mk_message 1 2 [] 1 [128; 1] [] 1 1000.
Definition demo_inform : pdu := mk_pdu InformRequestPDU 77 0 0 [([1; 3; 6; 1; 2; 1; 1; 3; 0], VTimeTicks 5)].
(** The log of the application and of the dispatcher *)
Definition demo_log : Type := list (string * Z).
Definition demo_response (i : message) (q : v1_pdu) (r : Z) : M exn demo_log unit :=
  modify (λ log, log ++ [("response"%string, r)]).
Definition demo_new (c : call) : M exn demo_log unit :=
  match c with Current r _ _ l => modify (λ log, log ++ [("current"%string, r)]) | _ => raise TypeError end.
Definition demo_old (c : call) : M exn demo_log unit :=
  match c with Legacy _ _ l => modify (λ log, log ++ [("legacy"%string, Z.of_nat (length l))]) | _ => raise TypeError end.
Definition demo_receiver (f : call → M exn demo_log unit) : NotificationReceiver demo_log :=
  mk_receiver [] (NextId.mk_Integer 16777215 10 5 [1; 2; 3]) 0 [] false (Some f).
Definition no_other (v : value) : result exn octets := Err TypeError.

Lemma notification_is_handed_on_witness :
  ∃ v, serves demo_new (λ r _ _ _, modify (λ log, log ++ [("current"%string, r)])) v ∧
  others (processPdu demo_response no_other demo_message (V1Pdu demo_inform) 9 (demo_receiver demo_new)).2 =
    [("response"%string, 9); ("current"%string, 9)].
Proof.
  destruct (NextId.call (NextId.mk_Integer 16777215 10 5 [1; 2; 3])) as [[n|e] gen] eqn:Hgen; [|vm_compute in Hgen; discriminate].
  destruct (notification_is_handed_on demo_response no_other demo_message demo_inform 9 (demo_receiver demo_new) demo_new
    (λ r _ _ _, modify (λ log, log ++ [("current"%string, r)])) n gen) as (v & Hv & Heq);
    [done|reflexivity|exact Hgen|reflexivity|left; split; reflexivity|].
  exists v. split; [exact Hv|]. rewrite Heq. reflexivity.
Defined.
Example legacy_callback :
  others (processPdu demo_response no_other demo_message (V1Pdu demo_inform) 9 (demo_receiver demo_old)).2 =
    [("response"%string, 9); ("legacy"%string, 1)].
Proof. vm_compute. reflexivity. Qed.
(** A legacy callback that raises [TypeError] of its own is called a second time, with
    arguments it does not take, and from then on only so. *)
Definition demo_failing (c : call) : M exn demo_log unit :=
  match c with
  | Legacy _ _ l => modify (λ log, log ++ [("legacy"%string, Z.of_nat (length l))]);; raise TypeError
  | _ => raise TypeError
  end.
Example type_error_of_a_legacy_callback :
  let s := (processPdu demo_response no_other demo_message (V1Pdu demo_inform) 9 (demo_receiver demo_failing)).2 in
  cbFunVer s = true ∧
  others (processPdu demo_response no_other demo_message (V1Pdu demo_inform) 10 s).2 =
    [("response"%string, 9); ("legacy"%string, 1); ("response"%string, 10)].
Proof. vm_compute. done. Qed.
End Ntfrcv.
