(* ===== verification/DisplayHint.v ===== *)
(** * Display hints (TextualConvention in src/pysnmp/smi/mibs/SNMPv2-TC.py)

    A textual convention renders its values by a display hint and reads them back from
    text.  Text is a list of code points.  The methods of the base type are parameters
    (pyasn1), as is the reading of IPv6 addresses (ipaddress); floating-point numbers are
    those of IEEE 754, from the Standard Library's executable specification.  A loop that
    its fuel does not finish answers [None]: some of them do not end. *)
From Stdlib Require Import SpecFloat.
From S2P Require Export Text.
Import Text.
#[local] Open Scope Z_scope.

Module DisplayHint.

(** ** Floating-point numbers: binary64 *)
Abbreviation float := spec_float.
Definition prec : Z := 53.
Definition emax : Z := 1024.
(** The float nearest to [n / d] *)
Definition nearest (n : Z) (d : positive) : float :=
  match n with
  | Z0 => S754_zero false
  | Zpos p => SFdiv prec emax (S754_finite false p 0) (S754_finite false d 0)
  | Zneg p => SFdiv prec emax (S754_finite true p 0) (S754_finite false d 0)
  end.
Definition is_finite (f : float) : bool :=
  match f with S754_zero _ | S754_finite _ _ _ => true | _ => false end.
(** [float(n)] of an integer; a large one is [OverflowError]. *)
Definition float_of_int (n : Z) : option float :=
  let f := nearest n 1 in if is_finite f then Some f else None.
(** [int(f)] *)
Definition int_of_float (f : float) : option Z :=
  match f with
  | S754_zero _ => Some 0
  | S754_finite s m e =>
      let n := if 0 <=? e then Zpos m * 2 ^ e else Zpos m / 2 ^ (- e) in
      Some (if s then - n else n)
  | _ => None
  end.

(** A decimal number as [float] reads it: sign, digits, a fraction, an exponent.  Words
    for infinity and for no number are no integers later and are left out, as are
    underscores. *)
Fixpoint span_digits (l : text) : text * text :=
  match l with
  | c :: l' => if (48 <=? c) && (c <=? 57) then let '(a, b) := span_digits l' in (c :: a, b) else ([], l)
  | [] => ([], [])
  end.
Definition sign (l : text) : bool * text :=
  match l with 45 :: l => (true, l) | 43 :: l => (false, l) | _ => (false, l) end.
Definition exponent (l : text) : option Z :=
  match l with
  | [] => Some 0
  | c :: l =>
      if (c =? 101) || (c =? 69) then
        let '(neg, l) := sign l in
        let '(ds, rest) := span_digits l in
        match ds, rest with
        | _ :: _, [] => (λ e, if (neg : bool) then - e else e) <$> int_of 10 ds
        | _, _ => None
        end
      else None
  end.
Definition float_of (l : text) : option float :=
  let '(neg, l) := sign (strip l) in
  let '(whole, l) := span_digits l in
  let '(fraction, l) := match l with 46 :: l => span_digits l | _ => ([], l) end in
  match whole ++ fraction with
  | [] => None
  | ds =>
      e ← exponent l;
      n ← int_of 10 ds;
      let n := if (neg : bool) then - n else n in
      let e := e - Z.of_nat (length fraction) in
      Some (if 0 <=? e then nearest (n * 10 ^ e) 1 else nearest n (Z.to_pos (10 ^ (- e))))
  end.

(** [format(f, ".<precision>f")]: the exact value rounded to that many decimals, to even
    when it is in the middle *)
Definition fixed (precision : nat) (f : float) : option text :=
  let render (s : bool) (n : Z) :=
    let ds := natural 10 n in
    let ds := replicate (S precision - length ds) 48 ++ ds in
    let whole := take (length ds - precision) ds in
    Some ((if s then [45] else []) ++ whole ++
          match precision with O => [] | _ => 46 :: drop (length ds - precision) ds end) in
  match f with
  | S754_zero s => render s 0
  | S754_finite s m e =>
      let n := Zpos m * 10 ^ Z.of_nat precision in
      render s
        (if 0 <=? e then n * 2 ^ e
         else let d := 2 ^ (- e) in
              match Z.compare (2 * (n mod d)) d with
              | Lt => n / d
              | Gt => n / d + 1
              | Eq => if Z.even (n / d) then n / d else n / d + 1
              end)
  | _ => None
  end.

(** ** Conventions *)

(** The base type, by its tag: an integer, with or without names for its values *)
Inductive base_type : Type :=
  | Integer (namedValues : bool)
  | Unsigned32
  | TimeTicks
  | OctetString
  | OtherType.
Definition numeric (b : base_type) : bool :=
  match b with Integer named => negb named | Unsigned32 | TimeTicks => true | _ => false end.
Record convention : Type := mk_convention { base : base_type; displayHint : text }.

(** [(tuple(self.displayHint.split("-")) + (0,))[:2]] *)
Definition number_hint (c : convention) : text * option text :=
  match split 45 (displayHint c) with
  | [] => ([], None)
  | [t] => (t, None)
  | t :: p :: _ => (t, Some p)
  end.
Definition precision_of (p : option text) : option Z :=
  match p with None => Some 0 | Some p => int_of 10 p end.

Definition unsupported : exn := SmiError "Unsupported numeric type spec".

(** ** Numbers as text *)

(** The loop of the type b, from the lowest bit *)
Fixpoint bits (fuel : nat) (value : Z) (out : text) : option text :=
  if value =? 0 then Some out
  else match fuel with
       | O => None
       | S fuel => bits fuel (Z.shiftr value 1) (48 + Z.land value 1 :: out)
       end.
Definition prettyOut_number (fuel : nat) (c : convention) (value : Z) : option (result exn text) :=
  let '(t, p) := number_hint c in
  if decide (t = codes "x") then Some (Ok (codes "0x" ++ numeral 16 value))
  else if decide (t = codes "d") then
    Some (from_option_exc (SmiError "float evaluation error")
      (precision ← precision_of p;
       f ← float_of_int value;
       d ← float_of_int (10 ^ precision);
       fixed (Z.to_nat precision) (SFdiv prec emax f d)))
  else if decide (t = codes "o") then Some (Ok (codes "0" ++ numeral 8 value))
  else if decide (t = codes "b") then Ok <$> bits fuel value (codes "B")
  else Some (Err unsupported).

(** What [base.prettyIn] is given: a number *)
Definition starts_with (w l : text) : bool := bool_decide (take (length w) l = w).
Definition read_number (c : convention) (value : text) : result exn Z :=
  let '(t, p) := number_hint c in
  if decide (t = codes "x") then
    if starts_with (codes "0x") value || starts_with (codes "-0x") value then
      from_option_exc (SmiError "integer evaluation error")
        (if starts_with (codes "-") value then Z.opp <$> int_of 16 (drop 3 value) else int_of 16 (drop 2 value))
    else Err unsupported
  else if decide (t = codes "d") then
    from_option_exc (SmiError "float evaluation error")
      (f ← float_of value;
       precision ← precision_of p;
       d ← float_of_int (10 ^ precision);
       int_of_float (SFmul prec emax f d))
  else if decide (t = codes "o") then
    if starts_with (codes "0") value || starts_with (codes "-0") value then
      from_option_exc (SmiError "octal evaluation error") (int_of 8 value)
    else Err unsupported
  else if decide (t = codes "b") then
    if starts_with (codes "B") value || starts_with (codes "-B") value then
      from_option_exc (SmiError "binary evaluation error")
        (if starts_with (codes "-") value then Z.opp <$> int_of 2 (drop 2 value) else int_of 2 (drop 1 value))
    else Err unsupported
  else Err unsupported.

(** ** Octets as text *)

(** [o.decode("ascii", "ignore")] *)
Definition ascii_ignore (o : octets) : text := filter (λ b, b < 128) o.
(** [o.decode("utf-8", "ignore")]: an octet that starts no character, and the longest
    start of one that does not go on, are left out. *)
Definition continues (lo hi b : Z) : bool := (lo <=? b) && (b <=? hi).
Fixpoint utf8_rest (n : nat) (lo hi acc : Z) (o : octets) : option Z * octets :=
  match n, o with
  | O, _ => (Some acc, o)
  | S n, b :: o' =>
      if continues lo hi b then utf8_rest n 128 191 (acc * 64 + Z.land b 63) o' else (None, o)
  | S _, [] => (None, [])
  end.
Definition utf8_lead (b : Z) : option (nat * Z * Z * Z) :=
  if continues 194 223 b then Some (1%nat, 128, 191, Z.land b 31)
  else if b =? 224 then Some (2%nat, 160, 191, 0)
  else if b =? 237 then Some (2%nat, 128, 159, 13)
  else if continues 225 239 b then Some (2%nat, 128, 191, Z.land b 15)
  else if b =? 240 then Some (3%nat, 144, 191, 0)
  else if continues 241 243 b then Some (3%nat, 128, 191, Z.land b 7)
  else if b =? 244 then Some (3%nat, 128, 143, 4)
  else None.
Fixpoint utf8_ignore (fuel : nat) (o : octets) : text :=
  match fuel, o with
  | S fuel, b :: o =>
      if b <? 128 then b :: utf8_ignore fuel o
      else match utf8_lead b with
           | None => utf8_ignore fuel o
           | Some (n, lo, hi, acc) =>
               let '(c, o) := utf8_rest n lo hi acc o in
               match c with Some c => c :: utf8_ignore fuel o | None => utf8_ignore fuel o end
           end
  | _, _ => []
  end.

(** *** One specification of a hint *)

Definition is_decimal (c : Z) : bool := (48 <=? c) && (c <=? 57).
Definition star : Z := 42.
(** A length, without which all that is left is taken, a format and a separator: 2 to 4 *)
Record spec : Type := mk_spec { octetLength : nat; displayFormat : Z; displaySep : option Z; after : text }.
Definition read_spec (hint : text) (left : nat) : result exn spec :=
  let '(ds, hint) := span_digits hint in
  let n := match ds with [] => left | _ => Z.to_nat (default 0 (int_of 10 ds)) end in
  match hint with
  | [] => Err (SmiError "Short octet length")
  | f :: hint =>
      match hint with
      | c :: hint' =>
          if negb (is_decimal c) && negb (c =? star) then Ok (mk_spec n f (Some c) hint')
          else Ok (mk_spec n f None hint)
      | [] => Ok (mk_spec n f None [])
      end
  end.

(** What one application of a format shows of the octets *)
Definition shown (f : Z) (o : octets) : result exn text :=
  if f =? 97 then Ok (ascii_ignore o)
  else if f =? 116 then Ok (utf8_ignore (length o) o)
  else if f =? 120 then Ok (zero_padded 2 16 (from_be o))
  else if f =? 111 then Ok (zero_padded 3 8 (from_be o))
  else if f =? 100 then Ok (numeral 10 (from_be o))
  else Err (SmiError "Unsupported display format char").
(** [while repeatCount]: with what is left *)
Fixpoint repeats (count : nat) (n : nat) (f : Z) (terminator : option Z) (running : octets) (out : text) :
    result exn (octets * text) :=
  match count with
  | O => Ok (running, out)
  | S count =>
      t ← shown f (take n running);
      let out := out ++ t in
      let out := match terminator, running with Some c, _ :: _ => out ++ [c] | _, _ => out end in
      repeats count n f terminator (drop n running) out
  end.
(** One specification: [count] times, with or without a repeat indicator *)
Definition show_spec (count : nat) (starred : bool) (hint : text) (running : octets) (out : text) :
    result exn (text * octets * text) :=
  sp ← read_spec hint (length running);
  let '(sep, terminator, hint) :=
    match after sp, displaySep sp with
    | c :: rest, Some _ => if starred then (None, Some c, rest) else (displaySep sp, None, after sp)
    | _, _ => (displaySep sp, None, after sp)
    end in
  '(running, out) ← repeats count (octetLength sp) (displayFormat sp) terminator running out;
  let out := match running, sep with _ :: _, Some c => out ++ [c] | _, _ => out end in
  Ok (hint, running, out).
(** The outer loop *)
Fixpoint show_loop (fuel : nat) (all hint : text) (running : octets) (out : text) : option (result exn text) :=
  match running, hint with
  | [], _ | _, [] => Some (Ok out)
  | b :: running', h :: hint' =>
      match fuel with
      | O => None
      | S fuel =>
          match
            (if h =? star then show_spec (Z.to_nat b) true hint' running' out
             else show_spec 1 false hint running out)
          with
          | Err e => Some (Err e)
          | Ok (hint, running, out) => show_loop fuel all (match hint with [] => all | _ => hint end) running out
          end
      end
  end.
Definition prettyOut_octets (fuel : nat) (c : convention) (o : octets) : option (result exn text) :=
  show_loop fuel (displayHint c) (displayHint c) o [].

(** *** Reading *)

(** [while num]: the octets of a number from its lowest; of a negative one they do not end. *)
Fixpoint le_octets (fuel : nat) (num : Z) : option octets :=
  if num =? 0 then Some []
  else match fuel with
       | O => None
       | S fuel => (λ l, Z.land num 255 :: l) <$> le_octets fuel (Z.shiftr num 8)
       end.
Definition number_octets (num : Z) (n : nat) : option octets :=
  l ← (if num =? 0 then Some [0] else le_octets (S (Z.to_nat (Z.log2 num))) num);
  Some (reverse (l ++ replicate (n - length l) 0)).

Definition number_base (f : Z) : option Z :=
  if f =? 120 then Some 16 else if f =? 100 then Some 10 else if f =? 111 then Some 8 else None.
(** [runningValue.find(displaySep)], or the digits of the format that come first *)
Definition guess (f : Z) (base : Z) (sep : option Z) (running : octets) : nat :=
  match sep with
  | Some c => match list_find (λ b, b = c) running with Some (i, _) => i | None => length running end
  | None =>
      match list_find (λ b, digit base b = None) running with Some (i, _) => i | None => length running end
  end.
(** One round of the loop: the octets read, what is left, and what is left of the hint *)
Definition read_round (hint : text) (running : octets) : option (result exn (octets * octets * text)) :=
  match hint with
  | h :: _ =>
      if h =? star then Some (Err (SmiError "Can't parse * in DISPLAY-HINT"))
      else match read_spec hint (length running) with
      | Err e => Some (Err e)
      | Ok sp =>
          if (displayFormat sp =? 97) || (displayFormat sp =? 116) then
            match octetLength sp, displaySep sp with
            | O, Some c =>
                if bool_decide (head running = Some c) then Some (Ok ([], drop 1 running, after sp))
                else Some (Err (SmiError "Display format eval failure"))
            | n, _ => Some (Ok (take n running, drop n running, after sp))
            end
          else match number_base (displayFormat sp) with
          | None => Some (Err (SmiError "Unsupported display format char"))
          | Some base =>
              let g := guess (displayFormat sp) base (displaySep sp) running in
              match int_of base (take g running) with
              | None => Some (Err (SmiError "Display format eval failure"))
              | Some num =>
                  (λ o, Ok (o, drop (match displaySep sp with Some _ => S g | None => g end) running, after sp)) <$>
                  number_octets num (octetLength sp)
              end
          end
      end
  | [] => Some (Ok ([], running, []))
  end.
Fixpoint read_loop (fuel : nat) (all hint : text) (running out : octets) : option (result exn octets) :=
  match running, hint with
  | [], _ | _, [] => Some (Ok out)
  | _, _ =>
      match fuel with
      | O => None
      | S fuel =>
          match read_round hint running with
          | None => None
          | Some (Err e) => Some (Err e)
          | Some (Ok (o, running, hint)) =>
              read_loop fuel all (match hint with [] => all | _ => hint end) running (out ++ o)
          end
      end
  end.

(** The hints for IPv6 addresses, whose text is read as such where it can be *)
Definition inet6 : text := codes "2x:2x:2x:2x:2x:2x:2x:2x".
Definition inet6z : text := codes "2x:2x:2x:2x:2x:2x:2x:2x%4d".
Definition endpoint6 : text := codes "0a[2x:2x:2x:2x:2x:2x:2x:2x]0a:2d".
Definition endpoint6z : text := codes "0a[2x:2x:2x:2x:2x:2x:2x:2x%4d]0a:2d".
(** [l.rsplit(sep, 1)], in two *)
Fixpoint rsplit (sep : text) (l : text) : option (text * text) :=
  match l with
  | [] => None
  | c :: l' =>
      match rsplit sep l' with
      | Some (a, b) => Some (c :: a, b)
      | None => if starts_with sep l then Some ([], drop (length sep) l) else None
      end
  end.
Definition up_to (limit n : Z) : option Z := if (0 <=? n) && (n <=? limit) then Some n else None.

Section conventions.
(** [base.prettyOut], [base.prettyIn] of what the convention hands on, and
    [ipaddress.IPv6Address(text).packed] *)
Context (base_out : Z + octets → result exn text).
Context (base_number : Z + text → result exn Z).
Context (base_octets : text + octets → result exn octets).
Context (IPv6Address : text → option octets).

Definition read_inet6 (hint value : text) : option octets :=
  if decide (hint = inet6) then IPv6Address value
  else if decide (hint = inet6z) then
    '(address, zone) ← rsplit (codes "%") value;
    zone ← int_of 10 zone; zone ← up_to 4294967295 zone;
    a ← IPv6Address address; Some (a ++ be_octets 4 zone)
  else if decide (hint = endpoint6) then
    '(address, port) ← rsplit (codes "]:") (drop 1 value);
    port ← int_of 10 port;
    if starts_with (codes "[") value then
      port ← up_to 65535 port; a ← IPv6Address address; Some (a ++ be_octets 2 port)
    else None
  else if decide (hint = endpoint6z) then
    '(address, port) ← rsplit (codes "]:") (drop 1 value);
    '(address, zone) ← rsplit (codes "%") address;
    port ← int_of 10 port; zone ← int_of 10 zone;
    if starts_with (codes "[") value then
      port ← up_to 65535 port; zone ← up_to 4294967295 zone;
      a ← IPv6Address address; Some (a ++ be_octets 4 zone ++ be_octets 2 port)
    else None
  else None.

Definition prettyOut (fuel : nat) (c : convention) (value : Z + octets) : option (result exn text) :=
  match displayHint c, value with
  | _ :: _, inl n => if numeric (base c) then prettyOut_number fuel c n else Some (base_out value)
  | _ :: _, inr o =>
      match base c with OctetString => prettyOut_octets fuel c o | _ => Some (base_out value) end
  | [], _ => Some (base_out value)
  end.
(** [prettyIn] of a numeric convention: of a number, or of text.  Only in the type b is
    the base type called outside of the [try]. *)
Definition rewrap (c : convention) (r : result exn Z) : result exn Z :=
  if decide ((number_hint c).1 = codes "b") then r
  else match r with Ok n => Ok n | Err _ => Err (SmiError "evaluation error") end.
Definition prettyIn_number (c : convention) (value : Z + text) : result exn Z :=
  match value, displayHint c with
  | inr t, _ :: _ =>
      if numeric (base c) then n ← read_number c t; rewrap c (base_number (inl n)) else base_number value
  | _, _ => base_number value
  end.
(** The text of a convention of octets, by its hint *)
Definition read_hinted (fuel : nat) (c : convention) (t : text) : option (result exn octets) :=
  match base_octets (inl t) with
  | Err e => Some (Err e)
  | Ok running =>
      match read_loop fuel (displayHint c) (displayHint c) running [] with
      | Some (Ok o) => Some (base_octets (inr o))
      | r => r
      end
  end.
(** [prettyIn] of one of octets: of text, or of octets *)
Definition prettyIn_octets (fuel : nat) (c : convention) (value : text + octets) : option (result exn octets) :=
  match value, displayHint c with
  | inr _, _ | _, [] => Some (base_octets value)
  | inl t, _ :: _ =>
      match read_inet6 (displayHint c) t with
      | Some o =>
          match base_octets (inr o) with Err ValueError => read_hinted fuel c t | r => Some r end
      | None => read_hinted fuel c t
      end
  end.
End conventions.
End DisplayHint.
