(* ===== verification/DisplayHintSpec.v ===== *)
(** * What display hints promise

    Numbers in hexadecimal and octal, and octets one by one with a separator (the hints of
    physical addresses), read back as what they were; rendering ends when every
    specification of the hint takes an octet.  The examples show where text does not read
    back, or a loop does not end. *)
From S2P Require Import DisplayHint.
Import Text DisplayHint.
#[local] Open Scope Z_scope.

Module DisplayHintSpec.

(** ** Numbers *)

Lemma int_of_digits base l : 2 ≤ base ≤ 16 → l ≠ [] → Forall (is_digit base) l →
  int_of base l = number base 0 false l.
Proof.
  intros Hb Hne Hall. unfold int_of.
  rewrite strip_id by (eapply Forall_impl; [done|]; intros c; by apply is_digit_no_space).
  destruct l as [|c l]; [done|]. pose proof (unprefixed_digits base _ Hb Hall) as Hu.
  apply Forall_cons_1, proj1, digit_bounds in Hall; [|done].
  destruct c as [|p|p]; [lia| |lia].
  repeat (destruct p as [p|p|]; try (by rewrite Hu); try lia).
Qed.
Lemma zero_is_digit base : 2 ≤ base ≤ 16 → is_digit base 48.
Proof. intros Hb. exists 0. split; [lia|done]. Qed.
Lemma number_zeros base k b l : 2 ≤ base ≤ 16 → number base 0 b (replicate k 48 ++ l) = number base 0 (b || (0 <? Z.of_nat k)) l.
Proof.
  intros Hb. revert b. induction k as [|k IH]; intros b; [by rewrite orb_false_r|].
  change (replicate (S k) 48 ++ l) with (48 :: (replicate k 48 ++ l)). cbn [number]. change (48 =? 95) with false. cbv iota.
  change 48 with (digit_char 0) at 1. rewrite (digit_digit_char base 0) by lia.
  change (0 * base + 0) with 0. rewrite IH. cbn [orb].
  rewrite (proj2 (Z.ltb_lt 0 (Z.of_nat (S k)))) by lia. by rewrite orb_true_r.
Qed.
(** Zeros before a number do not change what is read. *)
Lemma int_of_zeros base k n : 2 ≤ base ≤ 16 → 0 ≤ n →
  int_of base (replicate k 48 ++ natural base n) = Some n.
Proof.
  intros Hb Hn. destruct (natural_spec base n Hb Hn) as (Hne & Hall & Hval).
  rewrite int_of_digits; [|done| |].
  - rewrite number_zeros by done. specialize (Hval 0). setoid_rewrite <- (app_nil_r (natural base n)). by rewrite Hval.
  - by intros [_ ?]%app_nil.
  - apply Forall_app. split; [|done]. apply Forall_replicate. by apply zero_is_digit.
Qed.

Lemma bits_end fuel n out : 0 ≤ n < 2 ^ Z.of_nat fuel → ∃ ds, bits fuel n out = Some (ds ++ out) ∧
  (ds = [] ∨ ∃ d ds', ds = d :: ds' ∧ d ≠ 66 ∧ d ≠ 45).
Proof.
  revert n out; induction fuel as [|fuel IH]; intros n out Hn; cbn [bits].
  - replace n with 0 by (cbn in Hn; lia). by exists []; auto.
  - destruct (n =? 0) eqn:Hz; [by exists []; auto|]. bool_to_prop.
    assert (Hh : 0 ≤ Z.shiftr n 1 < 2 ^ Z.of_nat fuel).
    { rewrite Z.shiftr_div_pow2, Z.pow_1_r by lia. rewrite Nat2Z.inj_succ, Z.pow_succ_r in Hn by lia.
      pose proof (Z.div_mod n 2 ltac:(lia)). pose proof (Z.mod_pos_bound n 2 ltac:(lia)). lia. }
    destruct (IH _ (48 + Z.land n 1 :: out) Hh) as (ds & -> & Hds).
    exists (ds ++ [48 + Z.land n 1]). rewrite <- (assoc_L (++)). split; [done|]. right.
    assert (Hb : 0 ≤ Z.land n 1 < 2) by (change 1 with (Z.ones 1); rewrite Z.land_ones by lia; apply Z.mod_pos_bound; lia).
    destruct Hds as [->|(d & ds' & -> & Hd)]; cbn [app]; [|by eexists _, _].
    exists (48 + Z.land n 1), []. split; [done|lia].
Qed.
Lemma bits_of_negative fuel n out : n < 0 → bits fuel n out = None.
Proof.
  revert n out; induction fuel as [|fuel IH]; intros n out Hn; cbn [bits]; rewrite (proj2 (Z.eqb_neq n 0)) by lia; [done|].
  apply IH. by apply Z.shiftr_neg.
Qed.

Lemma answer_inj {E A} (a b : A) : Some (@Ok E A a) = Some (Ok b) → a = b.
Proof. congruence. Qed.
Lemma starts_with_app w l : starts_with w (w ++ l) = true.
Proof. unfold starts_with. by rewrite take_app_length, bool_decide_eq_true_2. Qed.

(** A number rendered in hexadecimal, or a natural one in octal, is read back. *)
Theorem numbers_read_back c fuel n t :
  (number_hint c).1 = codes "x" ∨ (number_hint c).1 = codes "o" ∧ 0 ≤ n →
  prettyOut_number fuel c n = Some (Ok t) → read_number c t = Ok n.
Proof.
  unfold prettyOut_number, read_number. destruct (number_hint c) as [h p]. cbn [fst].
  intros [->|[-> Hn]]; cbn [decide]; vm_compute (decide (_ = _)); cbv iota; intros <-%answer_inj.
  - rewrite starts_with_app. cbn [orb].
    replace (starts_with (codes "-") _) with false by done.
    cbn [codes app drop]. change (drop 2 (codes "0x" ++ numeral 16 n)) with (numeral 16 n).
    by rewrite int_of_numeral.
  - rewrite starts_with_app. cbn [orb]. unfold numeral. rewrite (proj2 (Z.ltb_ge n 0)) by done.
    change (codes "0" ++ natural 8 n) with (replicate 1 48 ++ natural 8 n). by rewrite int_of_zeros.
Qed.

(** A natural number rendered in binary has its letter last; only text with the letter
    first is read. *)
Theorem binary_is_not_read_back c n :
  (number_hint c).1 = codes "b" → 0 ≤ n →
  ∃ t e, prettyOut_number (S (Z.to_nat (Z.log2 n))) c n = Some (Ok t) ∧ read_number c t = Err e.
Proof.
  unfold prettyOut_number, read_number. destruct (number_hint c) as [h p]. cbn [fst]. intros -> Hn.
  vm_compute (decide (_ = _)). cbv iota.
  destruct (bits_end (S (Z.to_nat (Z.log2 n))) n (codes "B")) as (ds & -> & Hds).
  { split; [done|]. pose proof (Z.log2_nonneg n). rewrite Nat2Z.inj_succ, Z2Nat.id by done.
    destruct (decide (n = 0)) as [->|]; [done|]. apply Z.log2_spec. lia. }
  cbn [fmap option_fmap option_map]. destruct Hds as [->|(d & ds' & -> & H1 & H2)].
  - by eexists _, _.
  - eexists _, _. split; [done|]. unfold starts_with.
    rewrite !bool_decide_eq_false_2; [done|intros Heq%(f_equal head)..]; vm_compute in Heq; congruence.
Qed.

(** ** Octets, one by one *)

(** A format of numbers with a separator that is no digit in it *)
Definition each_octet (f c : Z) : text := [49; f; c].
Definition separates (f c : Z) : bool :=
  match number_base f with
  | Some base => bool_decide (digit base c = None) && negb (is_decimal c) && negb (c =? star)
  | None => false
  end.
Definition octet_text (f b : Z) : text :=
  if f =? 120 then zero_padded 2 16 b else if f =? 111 then zero_padded 3 8 b else numeral 10 b.

Definition octet_ok (f base b : Z) : bool :=
  bool_decide (int_of base (octet_text f b) = Some b ∧ Forall (λ x, digit base x ≠ None) (octet_text f b)) &&
  match octet_text f b with [] => false | _ => bool_decide (number_octets b 1 = Some [b]) end.
Lemma octets_ok f base b : number_base f = Some base → is_octet b → octet_ok f base b = true.
Proof.
  intros Hf Hb.
  assert (Hall : forallb (octet_ok f base) (Z.of_nat <$> seq 0 256) = true).
  { unfold number_base in Hf. repeat (case_match; bool_to_prop; subst; try done);
      injection Hf as <-; vm_compute; done. }
  rewrite forallb_forall in Hall. apply Hall. apply list_elem_of_In, list_elem_of_fmap.
  exists (Z.to_nat b). unfold is_octet in Hb. split; [lia|]. apply elem_of_seq. lia.
Qed.

Section each.
Context (f base c : Z).
Context (Hf : number_base f = Some base) (Hsep : separates f c = true).

Lemma separator : digit base c = None ∧ is_decimal c = false ∧ c ≠ star.
Proof.
  pose proof Hsep as Hs. unfold separates in Hs. rewrite Hf in Hs.
  apply andb_true_iff in Hs as [[Hd Hn%negb_true_iff]%andb_true_iff Hs%negb_true_iff].
  by apply bool_decide_eq_true in Hd; apply Z.eqb_neq in Hs.
Qed.
Lemma format_cases : f = 120 ∧ base = 16 ∨ f = 100 ∧ base = 10 ∨ f = 111 ∧ base = 8.
Proof. unfold number_base in Hf. repeat (case_match; bool_to_prop; try done); injection Hf as <-; auto. Qed.
Lemma octet_facts b : is_octet b →
  int_of base (octet_text f b) = Some b ∧ Forall (λ x, digit base x ≠ None) (octet_text f b) ∧
  octet_text f b ≠ [] ∧ number_octets b 1 = Some [b].
Proof.
  intros Hb. pose proof (octets_ok f base b Hf Hb) as Hok. unfold octet_ok in Hok.
  apply andb_true_iff in Hok as [[??]%bool_decide_eq_true Hok]. destruct (octet_text f b); [done|].
  by apply bool_decide_eq_true in Hok.
Qed.
Lemma read_each left : read_spec (each_octet f c) left = Ok (mk_spec 1 f (Some c) []).
Proof.
  destruct separator as (_ & Hd & Hs%Z.eqb_neq).
  destruct format_cases as [[-> _]|[[-> _]|[-> _]]]; unfold each_octet, read_spec; cbn; by rewrite Hd, Hs.
Qed.
Lemma shown_each b : shown f [b] = Ok (octet_text f b).
Proof. by destruct format_cases as [[-> _]|[[-> _]|[-> _]]]. Qed.

Lemma show_each o out n : is_octets o → (length o ≤ n)%nat →
  show_loop n (each_octet f c) (each_octet f c) o out = Some (Ok (out ++ join c (octet_text f <$> o))).
Proof.
  intros Ho. revert out n. induction Ho as [|b o Hb Ho IH]; intros out n Hn.
  - destruct n; cbn; by rewrite app_nil_r.
  - destruct n as [|n]; [cbn in Hn; lia|]. cbn [show_loop].
    change (each_octet f c) with [49; f; c]. cbv iota. change (49 =? star) with false. cbv iota.
    change [49; f; c] with (each_octet f c). unfold show_spec. rewrite read_each.
    cbn [mbind result_bind octetLength displayFormat displaySep after repeats].
    change (take 1 (b :: o)) with [b]. rewrite shown_each.
    change (drop 1 (b :: o)) with o. rewrite fmap_cons. cbn.
    destruct o as [|b' o]; cbn [fmap list_fmap join].
    + by destruct n.
    + cbn in Hn. rewrite IH by (cbn; lia). f_equal. f_equal. by rewrite <- !(assoc_L (++)).
Qed.

Lemma find_separator t rest : Forall (λ x, digit base x ≠ None) t →
  guess f base (Some c) (t ++ c :: rest) = length t ∧ guess f base (Some c) t = length t.
Proof.
  intros Ht. assert (Hno : Forall (λ b, b ≠ c) t).
  { eapply Forall_impl; [exact Ht|]. intros x Hx ->. by destruct separator. }
  unfold guess. rewrite list_find_app_r by (by apply list_find_None). cbn.
  rewrite decide_True by done. cbn. split; [done || lia|].
  by rewrite (proj2 (list_find_None _ _)).
Qed.
Lemma read_each_loop o out n : is_octets o → (length o ≤ n)%nat →
  read_loop n (each_octet f c) (each_octet f c) (join c (octet_text f <$> o)) out = Some (Ok (out ++ o)).
Proof.
  intros Ho. revert out n. induction Ho as [|b o Hb Ho IH]; intros out n Hn.
  - destruct n; cbn; by rewrite app_nil_r.
  - destruct n as [|n]; [cbn in Hn; lia|].
    destruct (octet_facts b Hb) as (Hint & Hdig & Hne & Hnum).
    assert (Hround : ∀ rest, rest = [] ∨ (∃ r, rest = c :: r) →
      read_round (each_octet f c) (octet_text f b ++ rest) = Some (Ok ([b], drop 1 rest, []))).
    { intros rest Hrest. unfold read_round. change (each_octet f c) with [49; f; c].
      cbv iota. change (49 =? star) with false. cbv iota. change [49; f; c] with (each_octet f c). rewrite read_each. cbn [octetLength displayFormat displaySep after].
      assert (Hg : guess f base (Some c) (octet_text f b ++ rest) = length (octet_text f b)).
      { destruct Hrest as [->|[r ->]]; [rewrite app_nil_r|]; by apply (find_separator _ []) || by apply find_separator. }
      replace ((f =? 97) || (f =? 116)) with false by (by destruct format_cases as [[-> _]|[[-> _]|[-> _]]]).
      rewrite Hf, Hg, take_app_length, Hint, Hnum.
      cbn [fmap option_fmap option_map]. rewrite drop_app_ge by lia.
      by replace (S (length (octet_text f b)) - length (octet_text f b))%nat with 1%nat by lia. }
    assert (Hjoin : ∃ rest, join c (octet_text f <$> b :: o) = octet_text f b ++ rest ∧
      (rest = [] ∨ ∃ r, rest = c :: r) ∧ drop 1 rest = join c (octet_text f <$> o)).
    { destruct o as [|b' o]; [exists []; rewrite app_nil_r; auto|].
      exists (c :: join c (octet_text f <$> b' :: o)). split; [done|]. split; [right; by eexists|done]. }
    destruct Hjoin as (rest & -> & Hrest & Hdrop). cbn [read_loop].
    destruct (octet_text f b ++ rest) eqn:Heq; [by apply app_nil in Heq as [? _]|]. rewrite <- Heq, Hround by done.
    rewrite Hdrop. cbn. rewrite IH by (cbn in Hn; lia). by rewrite <- (assoc_L (++)).
Qed.

Lemma digit_octet x : digit base x ≠ None → is_octet x.
Proof.
  unfold digit, is_octet. intros Hd. destruct format_cases as [[_ ->]|[[_ ->]|[_ ->]]];
    repeat (case_match; bool_to_prop; try done); lia.
Qed.
Lemma joined_octets o : is_octet c → is_octets o → is_octets (join c (octet_text f <$> o)).
Proof.
  intros Hc Ho. induction Ho as [|b o Hb Ho IH]; [constructor|].
  assert (Ht : is_octets (octet_text f b)).
  { destruct (octet_facts b Hb) as (_ & Hd & _). eapply Forall_impl; [exact Hd|]. apply digit_octet. }
  destruct o as [|b' o]; [exact Ht|]. apply Forall_app. split; [exact Ht|]. by constructor.
Qed.
End each.

(** Octets rendered one by one, in hexadecimal, decimal or octal with a separator as a
    physical address is, are read back, whatever they are. *)
Theorem octets_read_back base_octets IPv6Address t f sep o :
  displayHint t = each_octet f sep → separates f sep = true → is_octet sep → is_octets o →
  (∀ l, is_octets l → base_octets (inl l) = Ok l) → base_octets (inr o) = Ok o →
  ∃ l, prettyOut_octets (length o) t o = Some (Ok l) ∧
    prettyIn_octets base_octets IPv6Address (length o) t (inl l) = Some (Ok o).
Proof.
  intros Hh Hs Hsep Ho Hin Hout.
  destruct (number_base f) as [base|] eqn:Hf; [|by unfold separates in Hs; rewrite Hf in Hs].
  exists (join sep (octet_text f <$> o)). split.
  - unfold prettyOut_octets. rewrite Hh. by rewrite (show_each f base sep Hf Hs o []).
  - unfold prettyIn_octets, read_inet6, read_hinted. rewrite Hh, !decide_False by done.
    rewrite Hin by (by apply (joined_octets f base)).
    rewrite (read_each_loop f base sep Hf Hs o []) by done. cbn [app]. by rewrite Hout.
Qed.
Lemma octets_read_back_witness :
  prettyOut_octets 3 (mk_convention OctetString (codes "1x:")) [0; 171; 16] = Some (Ok (codes "00:ab:10")) ∧
  ∃ l, prettyOut_octets 3 (mk_convention OctetString (codes "1x:")) [0; 171; 16] = Some (Ok l) ∧
    prettyIn_octets (λ v, Ok (match v with inl o | inr o => o end)) (λ _, None) 3
      (mk_convention OctetString (codes "1x:")) (inl l) = Some (Ok [0; 171; 16]).
Proof.
  split; [by vm_compute|].
  apply (octets_read_back (λ v, Ok (match v with inl o | inr o => o end)) (λ _, None) (mk_convention OctetString (codes "1x:")) 120 58 [0; 171; 16]);
    try done.
  repeat constructor; unfold is_octet; lia.
Defined.

(** ** Where a loop ends *)

Lemma span_digits_suffix l : (span_digits l).2 `suffix_of` l.
Proof.
  induction l as [|x l IH]; cbn; [done|]. case_match; [|done]. destruct (span_digits l). by apply suffix_cons_r.
Qed.
Lemma read_spec_suffix hint left sp : read_spec hint left = Ok sp → after sp `suffix_of` hint.
Proof.
  unfold read_spec. pose proof (span_digits_suffix hint) as Hs. destruct (span_digits hint) as [ds l]. cbn in Hs.
  intros H. etrans; [|exact Hs]. destruct l as [|x [|y l]]; [done| |].
  - injection H as <-. apply suffix_nil.
  - case_match; injection H as <-; cbn; [by do 2 apply suffix_cons_r|by apply suffix_cons_r].
Qed.
Lemma repeats_shorter count n g term running out running' out' :
  repeats count n g term running out = Ok (running', out') → (length running' ≤ length running - count * n)%nat.
Proof.
  revert running out. induction count as [|count IH]; intros running out; cbn [repeats].
  - intros [= <- _]. lia.
  - destruct (shown g (take n running)); [|done]. cbn. intros H%IH. rewrite length_drop in H. lia.
Qed.

Lemma show_spec_shorter count starred hint running out hint' running' out' :
  show_spec count starred hint running out = Ok (hint', running', out') → ∃ sp left,
    read_spec hint left = Ok sp ∧ left = length running ∧ hint' `suffix_of` hint ∧
    (length running' ≤ length running - count * octetLength sp)%nat.
Proof.
  unfold show_spec. destruct (read_spec hint (length running)) as [sp|e] eqn:Hsp; [|done].
  pose proof (read_spec_suffix _ _ _ Hsp) as Hafter. cbn.
  match goal with |- context [let '(_, _) := ?p in _] => destruct p as [[sep term] l'] eqn:Hp end.
  destruct (repeats count _ _ _ running out) as [[r o]|e] eqn:Hrep; [|done]. cbn. intros [= <- <- <-].
  exists sp, (length running). split; [done|]. split; [done|]. split; [|by eapply repeats_shorter].
  trans (after sp); [|done]. destruct (after sp) as [|x after']; [by injection Hp as _ _ <-|].
  destruct (displaySep sp), starred; injection Hp as _ _ <-; try done. by apply suffix_cons_r.
Qed.

(** Rendering ends, after at most as many rounds as there are octets, when no specification
    that can be read off the hint has the length zero. *)
Definition takes_octets (hint : text) : Prop := ∀ l left sp,
  l `suffix_of` hint → left ≠ 0%nat → read_spec l left = Ok sp → octetLength sp ≠ 0%nat.
Theorem rendering_ends t o : takes_octets (displayHint t) → ∃ r, prettyOut_octets (length o) t o = Some r.
Proof.
  intros Hall. unfold prettyOut_octets.
  assert (Hgen : ∀ n running hint out, hint `suffix_of` displayHint t → (length running ≤ n)%nat →
    ∃ r, show_loop n (displayHint t) hint running out = Some r); [|by apply Hgen].
  induction n as [|n IH]; intros [|b running] [|h hint] out Hhint Hn; cbn [show_loop]; try by eexists.
  { cbn in Hn. lia. }
  match goal with |- ∃ r, match ?spec with _ => _ end = _ => destruct spec as [[[hint' running'] out']|e] eqn:Hs end; [|by eexists].
  assert (Hok : hint' `suffix_of` displayHint t ∧ (length running' ≤ n)%nat).
  { cbn in Hn. assert (Hrest : hint `suffix_of` displayHint t) by (by eapply suffix_cons_l).
    destruct (h =? star); apply show_spec_shorter in Hs as (sp & left & Hsp & -> & Hl & Hlen); cbn in Hlen.
    - split; [by trans hint|lia].
    - split; [by trans (h :: hint)|]. assert (octetLength sp ≠ 0%nat) by (by eapply Hall, Hsp). lia. }
  destruct Hok as [Hl Hle]. apply IH; [by destruct hint'|done].
Qed.

(** ** Where text does not read back, or a loop does not end *)

Definition hinted (b : base_type) (h : string) : convention := mk_convention b (codes h).

(** Hundredths, read through a float that is truncated: 1.15 is 114 of them. *)
Example hundredths :
  prettyOut_number 0 (hinted (Integer false) "d-2") 115 = Some (Ok (codes "1.15")) ∧
  read_number (hinted (Integer false) "d-2") (codes "1.15") = Ok 114.
Proof. split; by vm_compute. Qed.
(** Large numbers, shown through a float even where no decimals are asked for *)
Example large_number :
  prettyOut_number 0 (hinted Unsigned32 "d") (2 ^ 53 + 1) = Some (Ok (codes "9007199254740992")).
Proof. by vm_compute. Qed.
(** The octal text of a negative number has its sign in the middle. *)
Example negative_octal :
  prettyOut_number 0 (hinted (Integer false) "o") (-8) = Some (Ok (codes "0-10")) ∧
  read_number (hinted (Integer false) "o") (codes "0-10") = Err (SmiError "octal evaluation error").
Proof. split; by vm_compute. Qed.
(** A negative number in binary: the shift never ends. *)
Example negative_binary fuel : prettyOut_number fuel (hinted (Integer false) "b") (-1) = None.
Proof.
  unfold prettyOut_number. change (number_hint (hinted (Integer false) "b")) with (codes "b", @None text).
  vm_compute (decide (_ = _)). cbv iota. by rewrite bits_of_negative.
Qed.

Lemma le_octets_of_negative fuel num : num < 0 → le_octets fuel num = None.
Proof.
  revert num; induction fuel as [|fuel IH]; intros num Hn; cbn [le_octets]; rewrite (proj2 (Z.eqb_neq num 0)) by lia; [done|].
  by rewrite IH by (by apply Z.shiftr_neg).
Qed.
(** Reading a negative number where octets are wanted does not end either. *)
Example negative_octet fuel :
  read_loop fuel (codes "1x:") (codes "1x:") (codes "-1:0") [] = None.
Proof.
  destruct fuel as [|fuel]; [done|].
  assert (Hround : read_round (codes "1x:") (codes "-1:0") = None); [|by cbn [read_loop]; rewrite Hround].
  transitivity ((λ o, @Ok exn _ (o, codes "0", @nil Z)) <$> number_octets (-1) 1); [by vm_compute|].
  unfold number_octets. change (-1 =? 0) with false. cbv iota. by rewrite le_octets_of_negative.
Qed.
(** A hint that takes no octet *)
Example nothing_taken fuel out : show_loop fuel (codes "0a") (codes "0a") [65] out = None.
Proof.
  revert out. induction fuel as [|fuel IH]; intros out; [done|]. cbn [show_loop].
  assert (Hspec : show_spec 1 false (codes "0a") [65] out = Ok ([], [65], out ++ [])) by done.
  change (codes "0a") with [48; 97]. cbv iota. change (48 =? star) with false. cbv iota.
  change [48; 97] with (codes "0a"). by rewrite Hspec.
Qed.
(** RFC 2579 puts the separator between repetitions and the terminator after the last:
    here the separator is dropped and the terminator stands after each. *)
Example repeated :
  prettyOut_octets 3 (hinted OctetString "*1x:/1x:") [2; 10; 11; 12] = Some (Ok (codes "0a/0b/0c")) ∧
  prettyOut_octets 5 (hinted OctetString "1d.1d.1d.1d/2d") [10; 0; 0; 1; 1; 2] = Some (Ok (codes "10.0.0.1/258")).
Proof. split; by vm_compute. Qed.
(** A repeat count is shown, and never read. *)
Example repetition_is_not_read base_octets IPv6Address :
  base_octets (inl (codes "0a/")) = Ok (codes "0a/") →
  prettyIn_octets base_octets IPv6Address 9 (hinted OctetString "*1x:/") (inl (codes "0a/")) =
    Some (Err (SmiError "Can't parse * in DISPLAY-HINT")).
Proof. intros Hb. unfold prettyIn_octets, read_hinted. cbn -[codes]. by rewrite Hb. Qed.
(** UTF-8 with an octet that is no part of it *)
Example ignored_octet :
  prettyOut_octets 3 (hinted OctetString "255t") [195; 169; 255; 65; 226; 130] = Some (Ok [233; 65]).
Proof. by vm_compute. Qed.
End DisplayHintSpec.
