(* ===== verification/KeyChange.v ===== *)
(** * Diffie-Hellman key changes (src/pysnmp/proto/secmod/rfc2786/__init__.py)

    The arithmetic and the encodings of SNMP-USM-DH-OBJECTS-MIB: key pairs, the shared
    secret and the key in it, the value a key change is SET to, and the instances of the
    table.  The DER codec and PBKDF2 are parameters, as is the random source.  A private
    exponent is a natural number. *)
From Stdlib Require Import Zpow_facts.
From S2P Require Export Errors.
#[local] Open Scope Z_scope.

Module KeyChange.

(** ** Object identifiers *)
Definition usmDHParameters : oid := [1;3;6;1;3;101;1;1;1].
Definition usmDHUserAuthKeyChange : oid := [1;3;6;1;3;101;1;1;2;1;1].
Definition usmDHUserOwnAuthKeyChange : oid := [1;3;6;1;3;101;1;1;2;1;2].
Definition usmDHUserPrivKeyChange : oid := [1;3;6;1;3;101;1;1;2;1;3].
Definition usmDHUserOwnPrivKeyChange : oid := [1;3;6;1;3;101;1;1;2;1;4].

(** ** Parameters *)
Record DHParameters : Type := mk_parameters { prime : Z; base : Z; privateValueLength : option Z }.
#[global] Instance DHParameters_eq_dec : EqDecision DHParameters.
Proof. solve_decision. Defined.

Definition primeLength (p : DHParameters) : nat := Z.to_nat ((bit_length (prime p) + 7) / 8).
Definition OAKLEY_GROUP_1 : DHParameters := mk_parameters
  0xFFFFFFFFFFFFFFFFC90FDAA22168C234C4C6628B80DC1CD129024E088A67CC74020BBEA63B139B22514A08798E3404DDEF9519B3CD3A431B302B0A6DF25F14374FE1356D6D51C245E485B576625E7EC6F44C42E9A63A3620FFFFFFFFFFFFFFFF
  2 None.
Definition OAKLEY_GROUP_2 : DHParameters := mk_parameters
  0xFFFFFFFFFFFFFFFFC90FDAA22168C234C4C6628B80DC1CD129024E088A67CC74020BBEA63B139B22514A08798E3404DDEF9519B3CD3A431B302B0A6DF25F14374FE1356D6D51C245E485B576625E7EC6F44C42E9A637ED6B0BFF5CB6F406B7EDEE386BFB5A899FA5AE9F24117C4B1FE649286651ECE65381FFFFFFFFFFFFFFFF
  2 None.

Section der.
(** A DHParameter in DER, and the octets after it *)
Context (der_decode : octets → option (DHParameters * octets)) (der_encode : DHParameters → octets).

Definition decodeDHParameters (substrate : octets) : result exn DHParameters :=
  match der_decode substrate with
  | None => Err ValueError
  | Some (_, _ :: _) => Err ValueError
  | Some (p, []) =>
      if prime p <=? 3 then Err ValueError
      else if negb ((1 <? base p) && (base p <? prime p)) then Err ValueError
      else match privateValueLength p with
           | None => Ok p
           | Some length => if (1 <? length) && (length <=? bit_length (prime p)) then Ok p else Err ValueError
           end
  end.
Definition encodeDHParameters (p : DHParameters) : octets := der_encode p.
End der.

(** ** The agreement *)
Record DHKeyPair : Type := mk_pair { private : Z; public : octets }.

Definition octetLength (value : Z) : Z := octets_needed value.
Definition toOctets (value : Z) : octets := be_octets (Z.to_nat (octetLength value)) value.
(** [pow(b, e, m)] *)
Definition pow (b e m : Z) : Z := Zpow_mod b e m.

Section random.
(** [secrets.randbelow] *)
Context {R : Type} (randbelow : Z → R → Z * R).
Definition draw (n : Z) : M exn R Z := λ r, let '(z, r) := randbelow n r in (Ok z, r).

Definition generateKeyPair (p : DHParameters) : M exn R DHKeyPair :=
  if prime p <=? 3 then raise ValueError
  else
    private ← (match privateValueLength p with
               | None => z ← draw (prime p - 3); mret (2 + z)
               | Some length =>
                   if length <? 1 then raise ValueError
                   else let lower := Z.shiftl 1 (length - 1) in z ← draw lower; mret (lower + z)
               end);
    mret (mk_pair private (toOctets (pow (base p) private (prime p)))).

Definition FITTING_STEPS : nat := Z.to_nat (Z.shiftl 1 20).
Definition FITTING_DRAWS : nat := 8.

(** How the walk from one exponent ends *)
Inductive walked : Type :=
  | Fits (private public : Z)
  | NoSteps
  | OutOfInterval (steps : nat).
Fixpoint walk (steps : nat) (p : DHParameters) (width upper private public : Z) : walked :=
  if octetLength public <=? width then Fits private public
  else match steps with
       | O => NoSteps
       | S steps' =>
           if upper <=? private then OutOfInterval steps
           else walk steps' p width upper (private + 1) (public * base p mod prime p)
       end.
Fixpoint draws (n steps : nat) (p : DHParameters) (width upper : Z) : M exn R DHKeyPair :=
  match n with
  | O => raise ValueError
  | S n =>
      keyPair ← generateKeyPair p;
      match walk steps p width upper (private keyPair) (from_be (public keyPair)) with
      | Fits private public => mret (mk_pair private (toOctets public))
      | NoSteps => raise ValueError
      | OutOfInterval steps => draws n steps p width upper
      end
  end.
Definition upper_of (p : DHParameters) : option Z :=
  match privateValueLength p with
  | None => Some (prime p - 2)
  | Some length => if length <? 0 then None else Some (Z.shiftl 1 length - 1)
  end.
Definition generateKeyPairFitting (p : DHParameters) (width : Z) : M exn R DHKeyPair :=
  if width <? 1 then raise ValueError
  else
    upper ← liftR (from_option_exc ValueError (upper_of p));
    draws FITTING_DRAWS FITTING_STEPS p width upper.
End random.

Definition computeSharedSecret (p : DHParameters) (private : Z) (peerPublic : octets) : result exn octets :=
  let peer := from_be peerPublic in
  if negb ((1 <? peer) && (peer <? prime p - 1)) then Err ValueError
  else Ok (be_octets (primeLength p) (pow peer private (prime p))).

Definition deriveKey (sharedSecret : octets) (keyLength : Z) : result exn octets :=
  if keyLength <=? 0 then Err ValueError
  else if Z.of_nat (length sharedSecret) <? keyLength then Err ValueError
  else Ok (drop (length sharedSecret - Z.to_nat keyLength) sharedSecret).

Section kickstart.
(** [hashlib.pbkdf2_hmac("sha1", password, salt, iterations, dklen)] *)
Context (pbkdf2_hmac_sha1 : octets → octets → Z → Z → result exn octets).
Definition KICKSTART_AUTH_SALT : octets := [0x98; 0xdf; 0xb5; 0xac].
Definition KICKSTART_PRIV_SALT : octets := [0xd1; 0x31; 0x0b; 0xa6].
Definition KICKSTART_ITERATIONS : Z := 500.
Definition deriveKickstartKeys (sharedSecret : octets) (authKeyLength privKeyLength : Z) : result exn (octets * octets) :=
  authKey ← pbkdf2_hmac_sha1 sharedSecret KICKSTART_AUTH_SALT KICKSTART_ITERATIONS authKeyLength;
  privKey ← pbkdf2_hmac_sha1 sharedSecret KICKSTART_PRIV_SALT KICKSTART_ITERATIONS privKeyLength;
  Ok (authKey, privKey).
End kickstart.

(** ** The DHKeyChange value *)
Definition buildKeyChangeValue (peerPublic ownPublic : octets) : result exn octets :=
  match peerPublic with
  | [] => Err ValueError
  | _ =>
      if (length peerPublic <? length ownPublic)%nat then Err ValueError
      else Ok (peerPublic ++ replicate (length peerPublic - length ownPublic) 0 ++ ownPublic)
  end.
Definition splitKeyChangeValue (value : octets) : result exn (octets * octets) :=
  match value with
  | [] => Err ValueError
  | _ =>
      if Nat.odd (length value) then Err ValueError
      else let half := Nat.div2 (length value) in Ok (take half value, drop half value)
  end.

(** ** Instances *)

(** The length-prefixed engine ID and user name *)
Definition keyChangeInstance (column : oid) (securityEngineId userName : octets) : oid :=
  column ++ Z.of_nat (length securityEngineId) :: securityEngineId ++ Z.of_nat (length userName) :: userName.
(** [bytes(l)] of a tuple *)
Definition bytes_of (l : list Z) : result exn octets :=
  if forallb (λ b, (0 <=? b) && (b <? 256)) l then Ok l else Err ValueError.
Definition parseKeyChangeInstance (column instance : oid) : result exn (octets * octets) :=
  if negb (bool_decide (take (length column) instance = column)) then Err ValueError
  else match drop (length column) instance with
  | [] => Err ValueError
  | engineIdLength :: index =>
      let engineId := take (Z.to_nat engineIdLength) index in
      if negb (Z.of_nat (length engineId) =? engineIdLength) then Err ValueError
      else match drop (Z.to_nat engineIdLength) index with
      | [] => Err ValueError
      | userNameLength :: rest =>
          let userName := take (Z.to_nat userNameLength) rest in
          if negb (Z.of_nat (length userName) =? userNameLength) ||
             negb (Z.of_nat (length rest) =? userNameLength)
          then Err ValueError
          else
            engineId ← bytes_of engineId;
            userName ← bytes_of userName;
            Ok (engineId, userName)
      end
  end.
End KeyChange.
