(* ===== verification/KeyChangeSpec.v ===== *)
(** * What a key change promises

    Both sides of an agreement hold the same key, over whatever modulus; a fitted key pair
    is a key pair of the interval that fits; the values and instances a key change puts on
    the wire are read back. *)
From S2P Require Import Wp.
From Stdlib Require Import Zpow_facts.
From S2P Require Import KeyChange.
Import KeyChange.
#[local] Open Scope Z_scope.

Module KeyChangeSpec.

(** ** Numbers *)

Lemma pow_spec b e m : m ≠ 0 → 0 ≤ e → pow b e m = b ^ e mod m.
Proof. intros Hm He. by apply Zpow_mod_correct. Qed.
Lemma length_toOctets v : Z.of_nat (length (toOctets v)) = octetLength v.
Proof. unfold toOctets. rewrite length_be_octets. pose proof (octets_needed_pos v). unfold octetLength. lia. Qed.
Lemma toOctets_nonempty v : toOctets v ≠ [].
Proof.
  intros Hl%(f_equal (λ l, Z.of_nat (length l))). rewrite length_toOctets in Hl.
  pose proof (octets_needed_pos v). unfold octetLength in Hl. cbn [length Z.of_nat] in Hl. lia.
Qed.
Lemma from_be_toOctets v : 0 ≤ v → from_be (toOctets v) = v.
Proof.
  intros Hv. apply from_be_exact. pose proof (octets_needed_pos v). unfold octetLength.
  rewrite Z2Nat.id by lia. split; [done|]. by apply octets_needed_enough.
Qed.
(** Both orders of the two exponents *)
Lemma pow_comm g x y m : 0 < m → 0 ≤ x → 0 ≤ y → pow (g ^ x mod m) y m = pow (g ^ y mod m) x m.
Proof.
  intros Hm Hx Hy. rewrite !pow_spec by lia. rewrite <- !Zpower_mod by lia.
  rewrite <- !Z.pow_mul_r by lia. by rewrite Z.mul_comm.
Qed.

(** ** Key pairs *)

(** Parameters as [decodeDHParameters] accepts them, and the interval of the exponent *)
Definition usable (p : DHParameters) : Prop :=
  3 < prime p ∧ match privateValueLength p with Some l => 1 < l | None => True end.
Definition lowest (p : DHParameters) : Z :=
  match privateValueLength p with Some l => 2 ^ (l - 1) | None => 2 end.
Definition highest (p : DHParameters) : Z :=
  match privateValueLength p with Some l => 2 ^ l - 1 | None => prime p - 2 end.
Definition key_pair (p : DHParameters) (k : DHKeyPair) : Prop :=
  lowest p ≤ private k ≤ highest p ∧ public k = toOctets (base p ^ private k mod prime p).

Lemma lowest_nonneg p : 0 ≤ lowest p.
Proof. unfold lowest. destruct (privateValueLength p); [apply Z.pow_nonneg|]; lia. Qed.
Lemma decode_usable der_decode o p : decodeDHParameters der_decode o = Ok p → usable p ∧ 1 < base p < prime p.
Proof.
  unfold decodeDHParameters, usable. intros H. repeat case_step; simplify_eq; bool_to_prop;
    repeat match goal with H : _ ∧ _ |- _ => destruct H end; split; try split; try lia; try done;
    match goal with H : privateValueLength _ = _ |- _ => rewrite H end; bool_to_prop; lia || done.
Qed.
(** What is encoded is decoded, by a codec that does so. *)
Lemma parameters_roundtrip der_decode der_encode p :
  der_decode (der_encode p) = Some (p, []) → usable p → 1 < base p < prime p →
  (∀ l, privateValueLength p = Some l → l ≤ bit_length (prime p)) →
  decodeDHParameters der_decode (encodeDHParameters der_encode p) = Ok p.
Proof.
  intros Hder [Hp Hl] Hb Hlen. unfold decodeDHParameters, encodeDHParameters. rewrite Hder.
  rewrite (proj2 (Z.leb_gt _ _)) by lia. rewrite !(proj2 (Z.ltb_lt _ _)) by lia. cbn [andb negb].
  destruct (privateValueLength p) as [l|]; [|done]. specialize (Hlen l eq_refl).
  by rewrite (proj2 (Z.ltb_lt _ _)), (proj2 (Z.leb_le _ _)) by lia.
Qed.

Section random.
Context {R : Type} (randbelow : Z → R → Z * R).
Context (Hrandom : ∀ n r, 0 < n → 0 ≤ (randbelow n r).1 < n).

Lemma generate_ok p r : usable p → ∃ k r', generateKeyPair randbelow p r = (Ok k, r') ∧ key_pair p k.
Proof.
  intros [Hp Hl]. unfold generateKeyPair, key_pair, lowest, highest. rewrite (proj2 (Z.leb_gt _ _)) by lia.
  destruct (privateValueLength p) as [l|].
  - rewrite (proj2 (Z.ltb_ge l 1)) by lia. rewrite Z.shiftl_1_l.
    assert (Hpos : 0 < 2 ^ (l - 1)) by (apply Z.pow_pos_nonneg; lia).
    specialize (Hrandom (2 ^ (l - 1)) r Hpos). munfold. unfold draw.
    destruct (randbelow _ r) as [z r']. cbn in Hrandom |- *. eexists _, _. split; [done|]. cbn.
    replace (2 ^ l) with (2 * 2 ^ (l - 1)) by (rewrite <- Z.pow_succ_r by lia; f_equal; lia).
    split; [lia|]. by rewrite pow_spec by lia.
  - specialize (Hrandom (prime p - 3) r ltac:(lia)). munfold. unfold draw.
    destruct (randbelow _ r) as [z r']. cbn in Hrandom |- *. eexists _, _. split; [done|]. cbn.
    split; [lia|]. by rewrite pow_spec by lia.
Qed.

Lemma walk_ok steps p width upper x y x' y' :
  0 < prime p → 0 ≤ x ≤ upper → y = base p ^ x mod prime p →
  walk steps p width upper x y = Fits x' y' →
  x ≤ x' ≤ upper ∧ y' = base p ^ x' mod prime p ∧ octetLength y' ≤ width.
Proof.
  intros Hp. revert x y. induction steps as [|steps IH]; intros x y Hx -> Hw; cbn [walk] in Hw;
    destruct (octetLength _ <=? width) eqn:Hfit; try done.
  1, 2: injection Hw as <- <-; bool_to_prop; split; [lia|done].
  destruct (upper <=? x) eqn:Hup; [done|]. bool_to_prop.
  apply IH in Hw as (Hle & Hy & Hwid); [split; [lia|done]|lia|].
  rewrite Z.mul_mod_idemp_l by lia. by rewrite Z.mul_comm, <- Z.pow_succ_r, Z.add_1_r by lia.
Qed.
Lemma draws_ok n steps p width r k r' : usable p → 1 ≤ width →
  draws randbelow n steps p width (highest p) r = (Ok k, r') →
  key_pair p k ∧ Z.of_nat (length (public k)) ≤ width.
Proof.
  intros Hu Hwidth. revert steps r. induction n as [|n IH]; intros steps r Hd; [done|]. cbn [draws] in Hd.
  destruct (generate_ok p r Hu) as (k0 & r0 & Hg & Hk0 & Hpub). munfold. rewrite Hg in Hd.
  assert (Hpos : 0 < prime p) by (destruct Hu; lia).
  pose proof (lowest_nonneg p) as Hlow.
  rewrite Hpub, from_be_toOctets in Hd by (apply Z.mod_pos_bound; lia).
  destruct (walk _ _ _ _ _ _) as [x y| |steps'] eqn:Hw; [|done|by eapply IH].
  injection Hd as <- <-. apply walk_ok in Hw as (Hx & -> & Hfit); [|done|lia|done]. cbn.
  split; [split; [cbn; lia|done]|]. by rewrite length_toOctets.
Qed.
Lemma upper_highest p : usable p → upper_of p = Some (highest p).
Proof.
  intros [_ Hl]. unfold upper_of, highest. destruct (privateValueLength p) as [l|]; [|done].
  rewrite (proj2 (Z.ltb_ge l 0)) by lia. by rewrite Z.shiftl_1_l.
Qed.

(** A key pair fitted to a width is a key pair: its exponent is in the interval that key
    pairs are drawn from and its public value is the power of the base, of at most that
    many octets; all that can happen else is that the search gives up. *)
Theorem fitted_key_pair p width r k r' :
  usable p → generateKeyPairFitting randbelow p width r = (Ok k, r') →
  key_pair p k ∧ Z.of_nat (length (public k)) ≤ width.
Proof.
  intros Hu. unfold generateKeyPairFitting. destruct (width <? 1) eqn:Hw; [done|]. bool_to_prop.
  rewrite upper_highest by done. intros H. cbn [from_option_exc] in H. munfold. by eapply draws_ok.
Qed.
(** A width of the prime is always met, by the first exponent. *)
Theorem wide_enough p r : usable p →
  ∃ k r', generateKeyPairFitting randbelow p (octetLength (prime p)) r = (Ok k, r') ∧ key_pair p k.
Proof.
  intros Hu. pose proof (octets_needed_pos (prime p)) as Hpos. unfold octetLength in *.
  unfold generateKeyPairFitting. rewrite (proj2 (Z.ltb_ge _ 1)) by lia. rewrite upper_highest by done.
  change FITTING_DRAWS with (S 7). munfold. cbn [from_option_exc draws]. munfold.
  destruct (generate_ok p r Hu) as (k0 & r0 & Hg & Hk0 & Hpub). rewrite Hg.
  destruct Hu as [Hp _]. pose proof (Z.mod_pos_bound (base p ^ private k0) (prime p) ltac:(lia)) as Hm.
  rewrite Hpub, from_be_toOctets by lia.
  assert (Hfit : octetLength (base p ^ private k0 mod prime p) <=? octets_needed (prime p) = true).
  { apply Z.leb_le, octets_needed_mono. lia. }
  assert (Hwalk : ∀ steps x y, octetLength y <=? octets_needed (prime p) = true →
    walk steps p (octets_needed (prime p)) (highest p) x y = Fits x y) by (by intros [|steps] x y Hy; cbn; rewrite Hy).
  rewrite Hwalk by done. eexists _, _. split; [done|]. by split.
Qed.
End random.

(** ** The agreement *)

Lemma split_halves a b : a ≠ [] → length a = length b → splitKeyChangeValue (a ++ b) = Ok (a, b).
Proof.
  intros Ha Hlen. unfold splitKeyChangeValue. destruct (a ++ b) as [|z l] eqn:Heq; [by apply app_nil in Heq as [-> _]|].
  rewrite <- Heq, length_app, <- Hlen. replace (length a + length a)%nat with (2 * length a)%nat by lia.
  rewrite Nat.div2_double, take_app_length, drop_app_length. rewrite Nat.odd_mul. done.
Qed.
(** What is SET is split into what the agent published and the manager's value, in the
    width of the agent's. *)
Lemma value_roundtrip peer own : peer ≠ [] → (length own ≤ length peer)%nat → ∃ value half,
  buildKeyChangeValue peer own = Ok value ∧ splitKeyChangeValue value = Ok (peer, half) ∧
  length half = length peer ∧ from_be half = from_be own.
Proof.
  intros Hp Hlen. unfold buildKeyChangeValue. destruct peer as [|z peer]; [done|].
  rewrite (proj2 (Nat.ltb_ge _ _)) by done. eexists _, (replicate _ 0 ++ own). split; [done|].
  assert (Hwidth : length (replicate (length (z :: peer) - length own) 0 ++ own) = length (z :: peer)).
  { rewrite length_app, length_replicate. lia. }
  split; [by apply split_halves|]. split; [done|]. apply from_be_zeros.
Qed.

Definition in_group (p : DHParameters) (v : Z) : Prop := 1 < v < prime p - 1.
Lemma shared_secret p x peer : in_group p (from_be peer) → 0 ≤ x →
  computeSharedSecret p x peer = Ok (be_octets (primeLength p) (pow (from_be peer) x (prime p))).
Proof.
  intros [H1 H2] Hx. unfold computeSharedSecret. by rewrite !(proj2 (Z.ltb_lt _ _)) by lia.
Qed.

(** The manager, with the key pair it fitted to the value the agent published, and the
    agent, with the manager's half of the value it was SET to, compute the same secret and
    the same key in it, for every modulus, prime or not. *)
Theorem both_sides_agree p mgr agent keyLength :
  usable p → key_pair p mgr → key_pair p agent →
  (length (public mgr) ≤ length (public agent))%nat →
  in_group p (from_be (public mgr)) → in_group p (from_be (public agent)) →
  0 < keyLength ≤ Z.of_nat (primeLength p) →
  ∃ value half secret key,
    buildKeyChangeValue (public agent) (public mgr) = Ok value ∧
    splitKeyChangeValue value = Ok (public agent, half) ∧
    computeSharedSecret p (private mgr) (public agent) = Ok secret ∧
    computeSharedSecret p (private agent) half = Ok secret ∧
    deriveKey secret keyLength = Ok key ∧ Z.of_nat (length key) = keyLength.
Proof.
  intros [Hprime _] [Hmx Hm] [Hax Ha] Hlen Hgm Hga Hk.
  pose proof (lowest_nonneg p) as Hlow.
  assert (Hne : public agent ≠ []) by (rewrite Ha; apply toOctets_nonempty).
  destruct (value_roundtrip _ _ Hne Hlen) as (value & half & Hv & Hs & _ & Hhalf).
  exists value, half, (be_octets (primeLength p) (pow (from_be (public agent)) (private mgr) (prime p))).
  eexists. split; [done|]. split; [done|]. split; [apply shared_secret; [done|lia]|].
  split.
  { rewrite shared_secret by (rewrite ?Hhalf; done || lia). do 2 f_equal. rewrite Hhalf, Hm, Ha.
    rewrite !from_be_toOctets by (apply Z.mod_pos_bound; lia). apply pow_comm; lia. }
  unfold deriveKey. rewrite length_be_octets, (proj2 (Z.leb_gt _ _)), (proj2 (Z.ltb_ge _ _)) by lia.
  split; [done|]. rewrite length_drop, length_be_octets. lia.
Qed.
(** An agreement over 23 *)
Definition small : DHParameters := mk_parameters 23 5 None.
Definition small_pair (x : Z) : DHKeyPair := mk_pair x (toOctets (5 ^ x mod 23)).
Lemma both_sides_agree_witness :
  ∃ value half secret key,
    buildKeyChangeValue (public (small_pair 15)) (public (small_pair 6)) = Ok value ∧
    splitKeyChangeValue value = Ok (public (small_pair 15), half) ∧
    computeSharedSecret small (private (small_pair 6)) (public (small_pair 15)) = Ok secret ∧
    computeSharedSecret small (private (small_pair 15)) half = Ok secret ∧
    deriveKey secret 1 = Ok key ∧ Z.of_nat (length key) = 1.
Proof.
  apply both_sides_agree; unfold usable, key_pair, in_group, lowest, highest;
    repeat split; try (vm_compute; done || (intros [=])); try (vm_compute; lia).
Defined.

(** *** Instances *)
Lemma bytes_of_spec l o : bytes_of l = Ok o ↔ o = l ∧ is_octets l.
Proof.
  unfold bytes_of. destruct (forallb _ l) eqn:Hall.
  - split; [|by intros [-> _]]. intros [= <-]. split; [done|].
    rewrite forallb_forall in Hall. apply Forall_forall. intros b Hb%list_elem_of_In%Hall. unfold is_octet. bool_to_prop. lia.
  - split; [done|]. intros [-> Ho]. apply not_true_iff_false in Hall as []. apply forallb_forall.
    intros b Hb%list_elem_of_In. eapply Forall_forall in Ho; [|done]. unfold is_octet in Ho.
    by rewrite (proj2 (Z.leb_le _ _)), (proj2 (Z.ltb_lt _ _)) by lia.
Qed.
(** The instance of a user's row is taken apart into what it was made of, and nothing else
    is an instance. *)
Theorem instance_roundtrip column instance engineId userName :
  parseKeyChangeInstance column instance = Ok (engineId, userName) ↔
  instance = keyChangeInstance column engineId userName ∧ is_octets engineId ∧ is_octets userName.
Proof.
  unfold parseKeyChangeInstance, keyChangeInstance. split.
  - destruct (bool_decide _) eqn:Hcol; [|done]. bool_to_prop. cbn [negb].
    destruct (drop (length column) instance) as [|n index] eqn:Hindex; [done|].
    destruct (Z.of_nat _ =? n) eqn:Hn; [|done]. bool_to_prop. cbn [negb].
    destruct (drop (Z.to_nat n) index) as [|m rest] eqn:Hrest; [done|].
    destruct (Z.of_nat _ =? m) eqn:Hm; [|done]. destruct (Z.of_nat (length rest) =? m) eqn:Hlen; [|done].
    bool_to_prop. cbn [negb orb].
    destruct (bytes_of (take _ index)) as [e|] eqn:He; [|done]. apply bytes_of_spec in He as [-> He].
    destruct (bytes_of (take _ rest)) as [u|] eqn:Hu; [|done]. apply bytes_of_spec in Hu as [-> Hu].
    cbn. intros [= <- <-]. split; [|done].
    rewrite <- (take_drop (length column) instance), Hcol, Hindex. do 2 f_equal; [done|].
    rewrite <- (take_drop (Z.to_nat n) index) at 1. rewrite Hrest. do 2 f_equal; [done|].
    symmetry. apply take_ge. lia.
  - intros (-> & He & Hu). rewrite take_app_length, drop_app_length, bool_decide_eq_true_2 by done. cbn [negb].
    rewrite Nat2Z.id, take_app_length, Z.eqb_refl, drop_app_length. cbn [negb].
    rewrite Nat2Z.id, take_ge, !Z.eqb_refl by done. cbn [negb orb].
    rewrite (proj2 (bytes_of_spec _ _) (conj eq_refl He)). cbn.
    by rewrite (proj2 (bytes_of_spec _ _) (conj eq_refl Hu)).
Qed.

(** ** At the edges *)

(** A private value length of 2 leaves the exponents 2 and 3; where neither power fits, the
    search draws eight times and gives up. *)
Example two_exponents :
  (generateKeyPairFitting (λ n r, (r mod n, r + 1)) (mk_parameters 65537 300 (Some 2)) 1 0).1 = Err ValueError.
Proof. vm_compute. done. Qed.
(** The first power of 3 from the 9th on that takes one octet over a prime of three *)
Example found_by_walking :
  (generateKeyPairFitting (λ n r, (r mod n, r + 1)) (mk_parameters 65537 3 None) 1 7).1 = Ok (mk_pair 116 [103]).
Proof. vm_compute. done. Qed.
End KeyChangeSpec.
