(* ===== verification/DhExchange.v ===== *)
(** * The exchange of a key change (src/pysnmp/hlapi/asyncio/dh.py)

    A manager reads the parameters of an agent and the value it published for a row,
    derives the new key, and SETs the row.  The commands it sends are the class
    [commands]: what they do to the world, and what comes back. *)
From S2P Require Export Wp Auth Priv KeyChange.
Import KeyChange.
#[local] Open Scope Z_scope.

Module DhExchange.

(** What an awaited command returns *)
Record reply (A : Type) : Type := mk_reply { errorIndication : option string; errorStatus : Z; answer : A }.
Arguments mk_reply {_} _ _ _.
Arguments errorIndication {_} _.
Arguments errorStatus {_} _.
Arguments answer {_} _.

(** [get_cmd], [next_cmd] and [set_cmd] with the engine, the credentials, the target, the
    context and the options of the call, and [secrets.randbelow] *)
Class commands (S : Type) := {
  get_cmd : oid → M exn S (reply (list (oid * value)));
  next_cmd : oid → M exn S (reply (list (list (oid * value))));
  set_cmd : oid → value → M exn S (reply (list (oid * value)));
  randbelow : Z → S → Z * S;
}.

Record DHKeyChangeResult : Type := mk_result {
  key : octets;
  securityEngineId : octets;
  instance : oid;
  parameters : DHParameters;
}.
(** [DHKeyChangeError], with its candidate, or any other exception *)
Inductive failure : Type :=
  | DHKeyChangeError (candidate : option DHKeyChangeResult)
  | Raised (e : exn).

(** What the exchange reads of [UsmUserData] *)
Record auth_data : Type := mk_auth { userName : option octets; authProtocol : oid; privProtocol : oid }.

Definition AUTH_KEY_LENGTHS : dict oid Z :=
  [(HmacMd5.serviceID, 16); (HmacSha.serviceID, 20)] ++
  ((λ kv, (kv.1, Z.of_nat kv.2)) <$> HmacSha2.keyLengths).
Definition PRIV_KEY_LENGTHS : dict oid Z :=
  [(Des.serviceID, 16); (Des3.serviceID, 32); (Aes.serviceID, 16); (Aes.Aes192_serviceID, 24);
   (Aes.AesBlumenthal192_serviceID, 24); (Aes.Aes256_serviceID, 32); (Aes.AesBlumenthal256_serviceID, 32)].
Definition ROW_SCAN_LIMIT : nat := 256.

Section exchange.
Context {W : Type} `{!commands W} (der_decode : octets → option (DHParameters * octets)).
Abbreviation Op := (M failure W).

(** A call whose exceptions are not those of the exchange, and one whose [ValueError] is
    turned into its own *)
Definition raised {A} (m : M exn W A) : Op A :=
  λ s, match m s with (Ok a, s) => (Ok a, s) | (Err e, s) => (Err (Raised e), s) end.
Definition refused {A} (m : M exn W A) : Op A :=
  λ s, match m s with
       | (Ok a, s) => (Ok a, s)
       | (Err ValueError, s) => (Err (DHKeyChangeError None), s)
       | (Err e, s) => (Err (Raised e), s)
       end.
Definition failed {A} (r : reply A) : Op unit :=
  match errorIndication r with
  | Some _ => raise (DHKeyChangeError None)
  | None => if errorStatus r =? 0 then mret tt else raise (DHKeyChangeError None)
  end.
Definition value_octets (v : value) : Op octets :=
  match v with
  | VOctetString o | VIpAddress o => mret o
  | _ => raise (DHKeyChangeError None)
  end.

Definition column (keyType : string) (own : bool) : Op oid :=
  if decide (keyType = "auth"%string) then mret (if own then usmDHUserOwnAuthKeyChange else usmDHUserAuthKeyChange)
  else if decide (keyType = "priv"%string) then mret (if own then usmDHUserOwnPrivKeyChange else usmDHUserPrivKeyChange)
  else raise (Raised ValueError).
Definition key_length (keyType : string) (a : auth_data) (keyLength : option Z) : Op Z :=
  match keyLength with
  | Some n => mret n
  | None =>
      match (if decide (keyType = "auth"%string) then dget AUTH_KEY_LENGTHS (authProtocol a)
             else dget PRIV_KEY_LENGTHS (privProtocol a)) with
      | Some n => mret n
      | None => raise (DHKeyChangeError None)
      end
  end.
(** [varBinds[0][1]] *)
Definition first_value (l : list (oid * value)) : Op value :=
  match l with (_, v) :: _ => mret v | [] => raise (Raised IndexError) end.

Definition readParameters : Op DHParameters :=
  r ← raised (get_cmd (usmDHParameters ++ [0]));
  failed r;;
  v ← first_value (answer r);
  substrate ← value_octets v;
  refused (liftR (decodeDHParameters der_decode substrate)).
Definition readCell (inst : oid) : Op octets :=
  r ← raised (get_cmd inst);
  failed r;;
  v ← first_value (answer r);
  value_octets v.
(** The column is walked to the row whose index ends with the user name. *)
Definition ends_with (inst suffix : oid) : bool :=
  bool_decide (drop (length inst - length suffix) inst = suffix).
Fixpoint find_loop (n : nat) (column suffix varBind : oid) : Op (oid * octets) :=
  match n with
  | O => raise (DHKeyChangeError None)
  | S n =>
      r ← raised (next_cmd varBind);
      failed r;;
      match answer r with
      | ((name, v) :: _) :: _ =>
          if negb (bool_decide (take (length column) name = column)) then raise (DHKeyChangeError None)
          else if decide (v = VEndOfMibView) then raise (DHKeyChangeError None)
          else if ends_with name suffix then o ← value_octets v; mret (name, o)
          else find_loop n column suffix name
      | _ => raise (DHKeyChangeError None)
      end
  end.
Definition findRow (column : oid) (userName : octets) : Op (oid * octets) :=
  find_loop ROW_SCAN_LIMIT column (Z.of_nat (length userName) :: userName) column.

Definition drawKeyPairFitting (p : DHParameters) (width : Z) : Op DHKeyPair :=
  refused (generateKeyPairFitting randbelow p width).

(** What is derived before the SET *)
Definition derive (column inst : oid) (p : DHParameters) (private : Z) (agentPublic : octets) (wanted : Z) :
    result exn DHKeyChangeResult :=
  secret ← computeSharedSecret p private agentPublic;
  k ← deriveKey secret wanted;
  ids ← parseKeyChangeInstance column inst;
  Ok (mk_result k ids.1 inst p).

Definition dh_key_change (a : auth_data) (keyType : string) (own : bool) (user engineId : option octets)
    (keyLength : option Z) : Op DHKeyChangeResult :=
  column ← column keyType own;
  wanted ← key_length keyType a keyLength;
  user ← (match user, userName a with
          | Some u, _ | None, Some u => mret u
          | None, None => raise (DHKeyChangeError None)
          end);
  p ← readParameters;
  row ← (match engineId with
         | None => findRow column user
         | Some e =>
             let inst := keyChangeInstance column e user in
             o ← readCell inst; mret (inst, o)
         end);
  keyPair ← drawKeyPairFitting p (Z.of_nat (length row.2));
  candidate ← refused (liftR (derive column row.1 p (private keyPair) row.2 wanted));
  value ← raised (liftR (buildKeyChangeValue row.2 (public keyPair)));
  r ← raised (set_cmd row.1 (VOctetString value));
  match errorIndication r with
  | Some _ => raise (DHKeyChangeError (Some candidate))
  | None => if errorStatus r =? 0 then mret candidate else raise (DHKeyChangeError (Some candidate))
  end.
End exchange.
End DhExchange.
