(* ===== verification/DhExchangeSpec.v ===== *)
(** * What the exchange of a key change promises

    The SET is the one step that cannot be undone: a failure before it leaves the world as
    the commands that only read leave it, and when it was sent, the key in hand is the one
    that the agent derives from it. *)
From S2P Require Import DhExchange KeyChangeSpec.
Import KeyChange KeyChangeSpec DhExchange.
#[local] Open Scope Z_scope.

Module DhExchangeSpec.
Section spec.
Context {W : Type} `{!commands W} (der_decode : octets → option (DHParameters * octets)).

Lemma wp_raised {A} (m : M exn W A) (Q : result failure A → W → Prop) s :
  wp m (λ r s', Q (match r with Ok a => Ok a | Err e => Err (Raised e) end) s') s → wp (raised m) Q s.
Proof. unfold wp, raised. by destruct (m s) as [[a|e] s']. Qed.
Lemma wp_refused {A} (m : M exn W A) (Q : result failure A → W → Prop) s :
  wp m (λ r s', match r with
                | Ok a => Q (Ok a) s'
                | Err e => ∀ f, Q (Err f) s'
                end) s → wp (refused m) Q s.
Proof. unfold wp, refused. destruct (m s) as [[a|e] s']; [done|]. intros H. by destruct e; apply H. Qed.

(** *** Before the SET *)
Section before.
Context (I : W → Prop).
Context (get_keeps : ∀ o s, I s → I (get_cmd o s).2).
Context (next_keeps : ∀ o s, I s → I (next_cmd o s).2).
Context (random_keeps : ∀ n s, I s → I (randbelow n s).2).

(** A step that only reads, and whose outcome satisfies [P] *)
Definition reads {A} (m : M failure W A) (P : A → Prop) : Prop := ∀ s, I s →
  wp m (λ r s', I s' ∧ match r with Ok a => P a | Err (DHKeyChangeError (Some _)) => False | Err _ => True end) s.

Lemma reads_ret {A} (a : A) (P : A → Prop) : P a → reads (mret a) P.
Proof. by intros Ha s Hs. Qed.
Lemma reads_raise {A} (f : failure) (P : A → Prop) :
  match f with DHKeyChangeError (Some _) => False | _ => True end → reads (raise f) P.
Proof. intros Hf s Hs. split; [done|]. by destruct f as [[]|]. Qed.
Lemma reads_bind {A B} (m : M failure W A) (k : A → M failure W B) (P : A → Prop) (P' : B → Prop) :
  reads m P → (∀ a, P a → reads (k a) P') → reads (m ≫= k) P'.
Proof.
  intros Hm Hk s Hs. apply wp_bind. eapply wp_mono; [by apply Hm|]. cbn.
  intros [a|f] s' [Hs' Ha]; [by apply Hk|done].
Qed.
Lemma reads_weaken {A} (m : M failure W A) (P P' : A → Prop) : (∀ a, P a → P' a) → reads m P → reads m P'.
Proof.
  intros Himp Hm s Hs. eapply wp_mono; [by apply Hm|]. cbn. intros [a|f] s' [? ?]; auto.
Qed.
(** What a call returned in one of the states the run went through *)
Definition came {A} (m : M exn W A) (a : A) : Prop := ∃ s, I s ∧ (m s).1 = Ok a.
Lemma reads_raised {A} (m : M exn W A) : (∀ s, I s → I (m s).2) → reads (raised m) (came m).
Proof.
  intros Hm s Hs. apply wp_raised. unfold wp, came. pose proof (Hm s Hs) as H.
  destruct (m s) as [[a|e] s'] eqn:E; [|done]. split; [done|]. exists s. by rewrite E.
Qed.
Lemma refused_kind {A} (m : M exn W A) s f : (refused m s).1 = Err f → match f with DHKeyChangeError (Some _) => False | _ => True end.
Proof. unfold refused. destruct (m s) as [[a|[]] s']; cbn; by intros [= <-]. Qed.
Lemma reads_refused {A} (m : M exn W A) (P : A → Prop) :
  (∀ s, I s → I (m s).2 ∧ ∀ a, (m s).1 = Ok a → P a) → reads (refused m) P.
Proof.
  intros Hm s Hs. specialize (Hm s Hs) as [HI HP]. unfold wp. pose proof (refused_kind m s) as Hkind.
  unfold refused in *. destruct (m s) as [[a|[]] s']; cbn in *; auto.
Qed.

Definition succeeded {A} (r : reply A) : Prop := errorIndication r = None ∧ errorStatus r = 0.
Lemma reads_failed {A} (r : reply A) : reads (failed r) (λ _, succeeded r).
Proof.
  unfold failed, succeeded. destruct (errorIndication r); [by apply reads_raise|].
  destruct (Z.eqb_spec (errorStatus r) 0); [by apply reads_ret|by apply reads_raise].
Qed.
Definition octets_of (v : value) (o : octets) : Prop := v = VOctetString o ∨ v = VIpAddress o.
Lemma reads_octets v : reads (value_octets v) (octets_of v).
Proof. destruct v; cbn; (apply reads_ret; by (left + right)) || (by apply reads_raise). Qed.
Lemma reads_first l : reads (first_value l) (λ v, ∃ n, head l = Some (n, v)).
Proof. destruct l as [|[n v] l]; cbn; [by apply reads_raise|apply reads_ret; by exists n]. Qed.

(** The agent published [o] in the row: it said so in the response to a GET of it, or to
    one of the GETNEXT of the walk *)
Definition published_in (inst : oid) (o : octets) : Prop :=
  (∃ r n v, came (get_cmd inst) r ∧ succeeded r ∧ head (answer r) = Some (n, v) ∧ octets_of v o) ∨
  (∃ from r l v, came (next_cmd from) r ∧ succeeded r ∧ head (answer r) = Some l ∧ head l = Some (inst, v) ∧
     octets_of v o).

Lemma reads_parameters : reads (readParameters der_decode) usable.
Proof.
  unfold readParameters. eapply reads_bind; [apply reads_raised; auto|]. intros r _.
  eapply reads_bind; [apply reads_failed|]. intros _ _.
  eapply reads_bind; [apply reads_first|]. intros v _.
  eapply reads_bind; [apply reads_octets|]. intros o _.
  apply reads_refused. intros s Hs. split; [done|]. cbn. intros p Hp. by eapply decode_usable.
Qed.
Lemma reads_cell inst : reads (readCell inst) (published_in inst).
Proof.
  unfold readCell. eapply reads_bind; [apply reads_raised; auto|]. intros r Hr.
  eapply reads_bind; [apply reads_failed|]. intros [] Hok.
  eapply reads_bind; [apply reads_first|]. intros v [n Hv].
  eapply reads_weaken; [|apply reads_octets]. intros o Ho. left. by exists r, n, v.
Qed.
Lemma reads_row n column suffix varBind :
  reads (find_loop n column suffix varBind) (λ row, published_in row.1 row.2).
Proof.
  revert varBind. induction n as [|n IH]; intros varBind; cbn [find_loop]; [by apply reads_raise|].
  eapply reads_bind; [apply reads_raised; auto|]. intros r Hr.
  eapply reads_bind; [apply reads_failed|]. intros [] Hok.
  destruct (answer r) as [|[|[name v] l] ls] eqn:Ha; try by apply reads_raise.
  case_match; [by apply reads_raise|]. case_match; [by apply reads_raise|].
  case_match; [|apply IH]. eapply reads_bind; [apply reads_octets|]. intros o Ho. apply reads_ret.
  right. exists varBind, r. rewrite Ha. by exists ((name, v) :: l), v.
Qed.

Lemma pair_keeps p s : I s → I (generateKeyPair randbelow p s).2.
Proof.
  intros Hs. unfold generateKeyPair. destruct (prime p <=? 3); [done|]. munfold. unfold draw.
  destruct (privateValueLength p) as [l|].
  - destruct (l <? 1); [done|]. pose proof (random_keeps (Z.shiftl 1 (l - 1)) s Hs) as H. by destruct (randbelow _ s).
  - pose proof (random_keeps (prime p - 3) s Hs) as H. by destruct (randbelow _ s).
Qed.
Lemma fitting_keeps p width s : I s → I (generateKeyPairFitting randbelow p width s).2.
Proof.
  intros Hs. unfold generateKeyPairFitting. destruct (width <? 1); [done|].
  destruct (upper_of p) as [upper|]; [|done]. munfold. cbn [from_option_exc].
  revert s Hs. generalize FITTING_STEPS. induction FITTING_DRAWS as [|n IH]; intros steps s Hs; cbn [draws]; [done|].
  munfold. pose proof (pair_keeps p s Hs) as H. destruct (generateKeyPair _ _ s) as [[k|e] s']; cbn in H |- *; [|done].
  destruct (walk _ _ _ _ _ _); cbn; [done|done|by apply IH].
Qed.
End before.

(** *** The SET *)

Section run.
Context (I : W → Prop).
Context (get_keeps : ∀ o s, I s → I (get_cmd o s).2).
Context (next_keeps : ∀ o s, I s → I (next_cmd o s).2).
Context (random_keeps : ∀ n s, I s → I (randbelow n s).2).
Context (Hrandom : ∀ n s, 0 < n → 0 ≤ (randbelow n s).1 < n).

(** A key the agent derives too: the world ended with a SET of the row in the state [s0], to
    what the agent had published there and a half of the same width; and from its exponent
    and that half, where it is a member of the group, the agent gets the same key. *)
Definition agreed (keyLength : Z) (c : DHKeyChangeResult) (s0 s' : W) : Prop := ∃ value published half,
  published_in I (instance c) published ∧
  (set_cmd (instance c) (VOctetString value) s0).2 = s' ∧
  splitKeyChangeValue value = Ok (published, half) ∧ length half = length published ∧
  let p := parameters c in
  ∀ y, 0 ≤ y → from_be published = base p ^ y mod prime p → in_group p (from_be half) →
  ∃ secret, computeSharedSecret p y half = Ok secret ∧ deriveKey secret keyLength = Ok (key c).

Definition outcome (keyLength : Z → Prop) (r : result failure DHKeyChangeResult) (s' : W) : Prop :=
  match r with
  | Err (DHKeyChangeError None) => I s'
  | Err (Raised _) => True
  | Ok c | Err (DHKeyChangeError (Some c)) => ∃ n s, keyLength n ∧ I s ∧ agreed n c s s'
  end.
Lemma wp_reads {A} (m : M failure W A) (k : A → M failure W DHKeyChangeResult) (P : A → Prop) K s :
  reads I m P → I s → (∀ a s', P a → I s' → wp (k a) (outcome K) s') → wp (m ≫= k) (outcome K) s.
Proof.
  intros Hm Hs Hk. apply wp_bind. eapply wp_mono; [by apply Hm|]. cbn.
  intros [a|[[]|e]] s' [Hs' Ha]; try done. by apply Hk.
Qed.

Lemma reads_pair p width : usable p →
  reads I (drawKeyPairFitting p width) (λ k, key_pair p k ∧ Z.of_nat (length (public k)) ≤ width).
Proof.
  intros Hp. apply reads_refused. intros s Hs. split; [by apply fitting_keeps|]. intros k Hk.
  destruct (generateKeyPairFitting randbelow p width s) as [r s'] eqn:Hgen. cbn in Hk. subst r.
  by eapply fitted_key_pair.
Qed.
Lemma derived column inst p x published n c : derive column inst p x published n = Ok c →
  instance c = inst ∧ parameters c = p ∧ in_group p (from_be published) ∧
  ∃ secret, computeSharedSecret p x published = Ok secret ∧ deriveKey secret n = Ok (key c).
Proof.
  unfold derive. destruct (computeSharedSecret p x published) as [secret|] eqn:Hs; [|done]. cbn.
  destruct (deriveKey secret n) as [k|] eqn:Hk; [|done]. cbn.
  destruct (parseKeyChangeInstance column inst) as [ids|]; [|done]. cbn. intros [= <-]. cbn.
  split; [done|]. split; [done|]. split; [|by exists secret].
  unfold computeSharedSecret in Hs. unfold in_group. case_match; [done|]. bool_to_prop. lia.
Qed.
(** What the agent computes of the value that was built *)
Lemma value_agreed p k published value c n column inst :
  usable p → key_pair p k → published_in I inst published → derive column inst p (private k) published n = Ok c →
  buildKeyChangeValue published (public k) = Ok value →
  ∀ s, agreed n c s (set_cmd inst (VOctetString value) s).2.
Proof.
  intros [Hprime _] [Hx Hk] Hshown Hd Hb s. apply derived in Hd as (<- & Hp & Hin & secret & Hs & Hkey).
  pose proof (lowest_nonneg p) as Hlow.
  assert (Hne : published ≠ [] ∧ (length (public k) ≤ length published)%nat).
  { unfold buildKeyChangeValue in Hb. destruct published; [done|]. split; [done|].
    destruct (_ <? _)%nat eqn:Hlt; [done|]. by apply Nat.ltb_ge in Hlt. }
  destruct Hne as [Hne Hlen]. destruct (value_roundtrip _ _ Hne Hlen) as (v & half & Hv & Hsplit & Hlh & Hhalf).
  rewrite Hb in Hv. injection Hv as <-. exists value, published, half.
  split; [done|]. split; [done|]. split; [done|]. split; [done|]. rewrite Hp. cbn zeta. intros y Hy Hpub Hgroup.
  exists secret. split; [|done]. rewrite <- Hs. rewrite !shared_secret by (done || lia).
  do 2 f_equal. rewrite Hhalf, Hk, Hpub, from_be_toOctets by (apply Z.mod_pos_bound; lia).
  apply pow_comm; lia.
Qed.

Definition wanted_length (keyType : string) (a : auth_data) (keyLength : option Z) (n : Z) : Prop :=
  ∀ s : W, (key_length keyType a keyLength s).1 = Ok n.
Lemma reads_length keyType a keyLength : reads I (key_length keyType a keyLength) (wanted_length keyType a keyLength).
Proof.
  unfold wanted_length, key_length. destruct keyLength as [n|]; [by apply reads_ret|].
  case_match; [by apply reads_ret|by apply reads_raise].
Qed.

Lemma exchange_outcome a keyType own user engineId keyLength s : I s →
  wp (dh_key_change der_decode a keyType own user engineId keyLength) (outcome (wanted_length keyType a keyLength)) s.
Proof.
  intros Hs. unfold dh_key_change.
  eapply (wp_reads _ _ (λ _, True)); [|done|intros column s1 _ Hs1].
  { unfold column. case_match; [by apply reads_ret|]. case_match; [by apply reads_ret|by apply reads_raise]. }
  eapply wp_reads; [apply reads_length|done|intros n s2 Hn Hs2].
  eapply (wp_reads _ _ (λ _, True)); [|done|intros u s3 _ Hs3].
  { destruct user; [by apply reads_ret|]. destruct (userName a); [by apply reads_ret|by apply reads_raise]. }
  eapply wp_reads; [by apply reads_parameters|done|intros p s4 Hp Hs4].
  eapply (wp_reads _ _ (λ row, published_in I row.1 row.2)); [|done|intros row s5 Hrow Hs5].
  { destruct engineId as [e|]; [|by apply reads_row].
    eapply reads_bind; [by apply reads_cell|]. intros o Ho. by apply reads_ret. }
  eapply wp_reads; [by apply reads_pair|done|intros k s6 [Hk _] Hs6].
  eapply (wp_reads _ _ (λ c, derive column row.1 p (private k) row.2 n = Ok c)); [|done|intros c s7 Hc Hs7].
  { apply reads_refused. intros s' Hs'. split; [done|]. by cbn. }
  apply wp_bind, wp_raised, wp_liftR.
  destruct (buildKeyChangeValue row.2 (public k)) as [value|e] eqn:Hb; [|done].
  pose proof (value_agreed p k row.2 value c n column row.1 Hp Hk Hrow Hc Hb s7) as Hagreed.
  apply wp_bind, wp_raised. unfold wp. destruct (set_cmd row.1 (VOctetString value) s7) as [[r|e] s8]; [|done].
  cbn in Hagreed |- *. assert (Hout : ∃ n s, wanted_length keyType a keyLength n ∧ I s ∧ agreed n c s s8) by (by exists n, s7).
  destruct (errorIndication r); [done|]. by destruct (errorStatus r =? 0).
Qed.
End run.
End spec.

(** A key change that fails without a candidate has not changed the agent: whatever the
    commands that read and the random source leave true is true after it. *)
Theorem failed_before_the_set {W} `{!commands W} der_decode (I : W → Prop) a keyType own user engineId keyLength s s' :
  (∀ o s, I s → I (get_cmd o s).2) → (∀ o s, I s → I (next_cmd o s).2) → (∀ n s, I s → I (randbelow n s).2) →
  (∀ n s, 0 < n → 0 ≤ (randbelow n s : Z * W).1 < n) →
  I s → dh_key_change der_decode a keyType own user engineId keyLength s = (Err (DHKeyChangeError None), s') → I s'.
Proof.
  intros Hget Hnext Hrand Hlaw Hs Hrun.
  pose proof (exchange_outcome der_decode I Hget Hnext Hrand Hlaw a keyType own user engineId keyLength s Hs) as Hout.
  unfold wp in Hout. by rewrite Hrun in Hout.
Qed.

(** A command that reads, or a draw from the random source *)
Inductive reading {W} `{!commands W} : W → W → Prop :=
  | reading_get o s : reading s (get_cmd o s).2
  | reading_next o s : reading s (next_cmd o s).2
  | reading_random n s : reading s (randbelow n s).2.

(** C31. The key a key change returns, or holds out as a candidate when its SET failed, is the one
    the agent derives, at the length of the row's protocol.  The SET comes after reading
    alone, and carries the octets the agent gave for the row in a response on the way and
    a half of the same width: an agent whose octets stand for its power of the base, with
    leading zeros or without, and which takes the half for a member of the group, computes
    the same key from its own exponent. *)
Theorem key_is_shared {W} `{!commands W} der_decode a keyType own user engineId keyLength (s s' : W) r c :
  (∀ n s, 0 < n → 0 ≤ (randbelow n s : Z * W).1 < n) →
  dh_key_change der_decode a keyType own user engineId keyLength s = (r, s') →
  r = Ok c ∨ r = Err (DHKeyChangeError (Some c)) →
  ∃ n s0, wanted_length (W := W) keyType a keyLength n ∧ rtc reading s s0 ∧ agreed (rtc reading s) n c s0 s'.
Proof.
  intros Hlaw Hrun Hr.
  assert (Hstep : ∀ s1 s2, reading s1 s2 → rtc reading s s1 → rtc reading s s2) by (intros; by eapply rtc_r).
  pose proof (exchange_outcome der_decode (rtc reading s) (λ o s1, Hstep _ _ (reading_get o s1))
    (λ o s1, Hstep _ _ (reading_next o s1)) (λ n s1, Hstep _ _ (reading_random n s1)) Hlaw
    a keyType own user engineId keyLength s (rtc_refl _ _)) as Hout.
  unfold wp in Hout. rewrite Hrun in Hout. cbn in Hout. by destruct Hr as [->| ->].
Qed.

(** ** An agent *)

(** Its row, its exponent, its key, and how often it was changed; and the random source of
    the manager *)
Record agent : Type := mk_agent { row : oid; exponent : Z; its_key : octets; changes : nat; seed : Z }.
Definition group : DHParameters := mk_parameters 65537 3 None.
Definition published (a : agent) : octets := toOctets (base group ^ exponent a mod prime group).
Definition ok {A} (l : A) : reply A := mk_reply None 0 l.
Definition wrongValue : reply (list (oid * value)) := mk_reply None 10 [].
Definition agent_get (o : oid) (a : agent) : reply (list (oid * value)) :=
  if decide (o = usmDHParameters ++ [0]) then ok [(o, VOctetString [])]
  else if decide (o = row a) then ok [(o, VOctetString (published a))] else ok [(o, VNoSuchInstance)].
Definition agent_set (o : oid) (v : value) (a : agent) : reply (list (oid * value)) * agent :=
  match v with
  | VOctetString v =>
      match splitKeyChangeValue v with
      | Ok (mine, half) =>
          if decide (o = row a ∧ mine = published a) then
            match computeSharedSecret group (exponent a) half with
            | Ok secret => (ok [], mk_agent (row a) (exponent a + 1) secret (S (changes a)) (seed a))
            | Err _ => (wrongValue, a)
            end
          else (wrongValue, a)
      | Err _ => (wrongValue, a)
      end
  | _ => (wrongValue, a)
  end.
#[local] Instance agent_commands : commands agent := {
  get_cmd o := λ a, (Ok (agent_get o a), a);
  next_cmd o := λ a, (Ok (ok [[if tuple_ltb o (row a) then (row a, VOctetString (published a)) else (o, VEndOfMibView)]]), a);
  set_cmd o v := λ a, let '(r, a) := agent_set o v a in (Ok r, a);
  randbelow n := λ a, (seed a mod n, mk_agent (row a) (exponent a) (its_key a) (changes a) (seed a + 1));
}.
Definition demo_agent : agent :=
  mk_agent (keyChangeInstance usmDHUserAuthKeyChange [128; 0; 0; 9] [98; 111; 98]) 45 [] 0 77.
Definition bob : auth_data := mk_auth (Some [98; 111; 98]) HmacSha.serviceID [].
Abbreviation rekey keyLength :=
  (dh_key_change (λ _, Some (group, [])) bob "auth" false None None keyLength demo_agent).

(** The row is found by walking, the agent changes its key once, and both have it. *)
Example rekeyed :
  (λ c, (key c, securityEngineId c)) <$> (rekey (Some 3)).1 = Ok (its_key (rekey (Some 3)).2, [128; 0; 0; 9]) ∧
  changes (rekey (Some 3)).2 = 1%nat.
Proof. split; by vm_compute. Qed.
Lemma key_is_shared_witness :
  ∃ c n s0, (rekey (Some 3)).1 = Ok c ∧ agreed (rtc reading demo_agent) n c s0 (rekey (Some 3)).2.
Proof.
  assert (Hok : match (rekey (Some 3)).1 with Ok _ => true | Err _ => false end = true) by (by vm_compute).
  destruct (rekey (Some 3)) as [[c|f] s'] eqn:Hrun; [|discriminate Hok].
  destruct (key_is_shared (λ _, Some (group, [])) bob "auth" false None None (Some 3) demo_agent s' (Ok c) c)
    as (n & s0 & _ & _ & Hagreed);
    [intros n s Hn; apply Z.mod_pos_bound, Hn|exact Hrun|by left|].
  exists c, n, s0. split; [reflexivity|exact Hagreed].
Defined.
(** A key of SHA's length does not fit in a secret of three octets: nothing is SET. *)
Lemma failed_before_the_set_witness :
  (rekey None).1 = Err (DHKeyChangeError None) ∧ changes (rekey None).2 = 0%nat.
Proof.
  destruct (rekey None) as [r s'] eqn:Hrun.
  assert (Hr : r = Err (DHKeyChangeError None)).
  { transitivity (rekey None).1; [by rewrite Hrun|by vm_compute]. }
  subst r. split; [reflexivity|].
  revert Hrun.
  apply (failed_before_the_set (λ _, Some (group, [])) (λ a, changes a = 0%nat) bob "auth" false None None None demo_agent s');
    [intros o s Hs; exact Hs|intros o s Hs; exact Hs|intros n s Hs; exact Hs|intros n s Hn; apply Z.mod_pos_bound, Hn|reflexivity].
Defined.
(** A row that belongs to nobody here is not found. *)
Example no_row :
  (dh_key_change (λ _, Some (group, [])) (mk_auth (Some [98]) HmacSha.serviceID []) "auth" false None None (Some 3)
     demo_agent).1 = Err (DHKeyChangeError None).
Proof. by vm_compute. Qed.
End DhExchangeSpec.
