(* ===== verification/Lcd.v ===== *)
(** * From credentials to configuration (src/pysnmp/hlapi/lcd.py, auth.py)

    The high-level API writes the credentials and targets of each call into the engine's
    configuration, and keeps caches of what it wrote, with use counts.  Rows are written by
    the functions of Config.v; of the transports the class [transports] says what is used.
    Times are in microseconds. *)
From stdpp Require Import pretty.
From S2P Require Export NextId Config.
Import Config.
#[local] Open Scope Z_scope.

Module Lcd.

(** ** Credentials (hlapi/auth.py) *)
Record CommunityData : Type := mk_community {
  communityIndex : pyval;
  communityName : pyval;
  c_mpModel : Z;
  contextEngineId : pyval;
  contextName : pyval;
  tag : pyval;
  c_securityName : pyval;
}.
Record UsmUserData : Type := mk_user {
  userName : pyval;
  authKey : option octets;
  privKey : option octets;
  authProtocol : oid;
  privProtocol : oid;
  securityEngineId : pyval;
  u_securityName : pyval;
  authKeyType : Z;
  privKeyType : Z;
  u_securityLevel : string;
}.
Inductive auth_data : Type := Community (c : CommunityData) | User (u : UsmUserData) | OtherAuth.

(** [hash] of the name, the model, the context and the tag *)
Definition new_community (hash : pyval → Z → pyval → pyval → pyval → Z)
    (index name : pyval) (mpModel : option Z) (engineId context tag securityName : pyval) : CommunityData :=
  let mp := default 1 mpModel in
  let context := given context (PBytes []) in
  let tag := given tag (PBytes []) in
  let '(index, name) := match name with PNone => (PNone, index) | _ => (index, name) end in
  let index := match index with
               | PNone => PText ("s" +:+ pretty (hash name mp engineId context tag))%string
               | i => i
               end in
  mk_community index name mp engineId context tag (given securityName index).
Definition clone_community hash (c : CommunityData) (index name : pyval) (mpModel : option Z)
    (engineId context tg securityName : pyval) : CommunityData :=
  let '(index, name) := match name with PNone => (PNone, index) | _ => (index, name) end in
  new_community hash index (given name (communityName c)) (Some (default (c_mpModel c) mpModel))
    (given engineId (contextEngineId c)) (given context (contextName c)) (given tg (tag c))
    (given securityName (c_securityName c)).

Definition new_user (userName : pyval) (authKey privKey : option octets) (authProtocol privProtocol : option oid)
    (engineId securityName : pyval) (authKeyType privKeyType : Z) : result exn UsmUserData :=
  let auth := match authKey with
              | Some _ => default HmacMd5.serviceID authProtocol
              | None => NoAuth.serviceID
              end in
  let level := match authKey with Some _ => "authNoPriv"%string | None => "noAuthNoPriv"%string end in
  match privKey with
  | None =>
      Ok (mk_user userName authKey None auth NoPriv.serviceID engineId (given securityName userName)
            authKeyType privKeyType level)
  | Some _ =>
      if decide (auth = NoAuth.serviceID) then Err (PySnmpError "Privacy implies authenticity")
      else
        Ok (mk_user userName authKey privKey auth (default Des.serviceID privProtocol) engineId
              (given securityName userName) authKeyType privKeyType "authPriv")
  end.
Definition clone_user (u : UsmUserData) (name : pyval) (aKey pKey : option octets) (aProtocol pProtocol : option oid)
    (engineId sName : pyval) (aKeyType pKeyType : option Z) : result exn UsmUserData :=
  new_user (given name (userName u)) (match aKey with Some k => Some k | None => authKey u end)
    (match pKey with Some k => Some k | None => privKey u end)
    (Some (default (authProtocol u) aProtocol)) (Some (default (privProtocol u) pProtocol))
    (given engineId (securityEngineId u)) (given sName (u_securityName u))
    (default usmKeyTypePassphrase aKeyType) (default usmKeyTypePassphrase pKeyType).

Definition securityName (a : auth_data) : pyval :=
  match a with Community c => c_securityName c | User u => u_securityName u | OtherAuth => PNone end.
Definition securityLevel (a : auth_data) : string :=
  match a with Community _ => "noAuthNoPriv" | User u => u_securityLevel u | OtherAuth => "" end.
Definition mpModel (a : auth_data) : Z := match a with Community c => c_mpModel c | User _ => 3 | OtherAuth => 0 end.
Definition securityModel (a : auth_data) : Z :=
  match a with Community c => c_mpModel c + 1 | User _ => 3 | OtherAuth => 0 end.

(** ** Targets *)
Record target : Type := mk_target {
  transportDomain : oid;
  transportAddr : pyval;
  timeout : Z;
  retries : Z;
  tagList : string;
  iface : pyval;
}.
(** [s.split()] *)
Fixpoint words_loop (word : string) (s : string) : list string :=
  match s with
  | EmptyString => match word with EmptyString => [] | _ => [word] end
  | String c s =>
      if decide (Ascii.nat_of_ascii c = 32%nat ∨ (9 ≤ Ascii.nat_of_ascii c ≤ 13)%nat)
      then match word with EmptyString => words_loop "" s | _ => word :: words_loop "" s end
      else words_loop (word +:+ String c "")%string s
  end.
Definition words (s : string) : list string := words_loop "" s.

(** ** Caches *)
Inductive auth_key : Type := Index (i : pyval) | UserAt (name engineId : pyval).
#[global] Instance auth_key_eq_dec : EqDecision auth_key.
Proof. solve_decision. Defined.
Definition parm_key : Type := pyval * string * Z.
Record addr_key : Type := mk_addr_key {
  k_params : string; k_domain : oid; k_addr : pyval; k_timeout : Z; k_retries : Z; k_tags : string; k_iface : pyval }.
#[global] Instance addr_key_eq_dec : EqDecision addr_key.
Proof. solve_decision. Defined.

Definition key_of (a : auth_data) : option auth_key :=
  match a with
  | Community c => Some (Index (communityIndex c))
  | User u => Some (UserAt (userName u) (securityEngineId u))
  | OtherAuth => None
  end.
Definition params_key (a : auth_data) : parm_key := (securityName a, securityLevel a, mpModel a).
Definition addr_key_of (paramsName : string) (t : target) : addr_key :=
  mk_addr_key paramsName (transportDomain t) (transportAddr t) (timeout t) (retries t) (tagList t) (iface t).
(** [USM_CREDENTIAL_ATTRIBUTES] *)
Definition usmCredentialsDiffer (cached : auth_data) (b : UsmUserData) : bool :=
  match cached with
  | User a =>
      negb (bool_decide (authProtocol a = authProtocol b ∧ authKey a = authKey b ∧ authKeyType a = authKeyType b ∧
        privProtocol a = privProtocol b ∧ privKey a = privKey b ∧ privKeyType a = privKeyType b ∧
        u_securityName a = u_securityName b))
  | _ => true
  end.

(** Of the transports of an engine: [T] is a transport that is open. *)
Class transports (W T : Type) := {
  hasTransport : oid → W → bool;
  verifyDispatcherCompatibility : target → M exn W unit;
  openClientMode : target → M exn W T;
  addTransport : oid → T → M exn W unit;
  delTransport : oid → M exn W unit;
  closeTransport : T → M exn W unit;
  hasDispatcher : W → bool;
  getTimerResolution : W → Z;
  setTimerResolution : Z → M exn W unit;
}.

(** The caches of the two configurators, kept in the engine's user context, and the
    generator of names they share *)
Record lcd (W T : Type) : Type := mk_lcd {
  engine : W;
  auth : dict auth_key auth_data;
  parm : dict parm_key (string * Z);
  tran : dict oid (T * Z);
  addr : dict addr_key (string * Z);
  n_auth : dict (pyval * Z * string * pyval) (auth_data * oid * Z);
  n_name : dict (string * string * string) (string * string * Z);
  nextID : NextId.Integer;
}.
Arguments mk_lcd {_ _} _ _ _ _ _ _ _ _.
Arguments engine {_ _} _.
Arguments auth {_ _} _.
Arguments parm {_ _} _.
Arguments tran {_ _} _.
Arguments addr {_ _} _.
Arguments n_auth {_ _} _.
Arguments n_name {_ _} _.
Arguments nextID {_ _} _.

Section lcd.
Context {W T : Type} `{!config_env W} `{!transports W T} (H : hashlib) (B : cipherbackend).
Abbreviation Op := (M exn (lcd W T)).
Implicit Types s : lcd W T.

Definition put_engine (w : W) s := mk_lcd w (auth s) (parm s) (tran s) (addr s) (n_auth s) (n_name s) (nextID s).
Definition put_auth d s := mk_lcd (engine s) d (parm s) (tran s) (addr s) (n_auth s) (n_name s) (nextID s).
Definition put_parm d s := mk_lcd (engine s) (auth s) d (tran s) (addr s) (n_auth s) (n_name s) (nextID s).
Definition put_tran (d : dict oid (T * Z)) s := mk_lcd (engine s) (auth s) (parm s) d (addr s) (n_auth s) (n_name s) (nextID s).
Definition put_addr d s := mk_lcd (engine s) (auth s) (parm s) (tran s) d (n_auth s) (n_name s) (nextID s).
Definition put_n_auth d s := mk_lcd (engine s) (auth s) (parm s) (tran s) (addr s) d (n_name s) (nextID s).
Definition put_n_name d s := mk_lcd (engine s) (auth s) (parm s) (tran s) (addr s) (n_auth s) d (nextID s).
Definition put_nextID i s := mk_lcd (engine s) (auth s) (parm s) (tran s) (addr s) (n_auth s) (n_name s) i.

Definition on_engine {A} (m : M exn W A) : Op A := zoom engine put_engine m.
(** [f"{prefix}{self.nextID()}"] *)
Definition new_name (prefix : string) : Op string :=
  id ← zoom nextID put_nextID NextId.call; mret (prefix +:+ pretty (id : Z))%string.

(** ** Commands *)
Definition MIN_TIMER_RESOLUTION : Z := 10000.
Definition TICKS_PER_TIMEOUT : Z := 2.
Definition alignTimerResolution (timeout : Z) : Op unit :=
  w ← gets engine;
  if negb (hasDispatcher w) || (timeout =? 0) then mret tt
  else
    let required := timeout / TICKS_PER_TIMEOUT in
    if getTimerResolution w <=? required then mret tt
    else on_engine (setTimerResolution (Z.max required MIN_TIMER_RESOLUTION)).

(** The fuel of [delV3User], which calls itself for the users cloned from one *)
Context (clones : nat).
Definition write_auth (a : auth_data) : Op unit :=
  cached ← gets auth;
  match a with
  | Community c =>
      if din cached (Index (communityIndex c)) then mret tt
      else
        on_engine (addV1System (communityIndex c) (communityName c) (contextEngineId c) (contextName c) (tag c)
          (c_securityName c));;
        modify (λ s, put_auth (dset (auth s) (Index (communityIndex c)) a) s)
  | User u =>
      let k := UserAt (userName u) (securityEngineId u) in
      let add :=
        on_engine (addV3User H B (userName u) (authProtocol u) (authKey u) (privProtocol u) (privKey u)
          (securityEngineId u) (u_securityName u) (authKeyType u) (privKeyType u) PNone);;
        modify (λ s, put_auth (dset (auth s) k a) s) in
      match dget cached k with
      | Some cached =>
          if usmCredentialsDiffer cached u then
            on_engine (delV3User clones (userName u) (securityEngineId u) PNone);; add
          else mret tt
      | None => add
      end
  | OtherAuth => raise (PySnmpError "Unsupported authentication object")
  end.
Definition use_params (a : auth_data) : Op string :=
  cached ← gets parm;
  match dget cached (params_key a) with
  | Some (paramsName, useCount) =>
      modify (λ s, put_parm (dset (parm s) (params_key a) (paramsName, useCount + 1)) s);;
      mret paramsName
  | None =>
      paramsName ← new_name "p";
      on_engine (addTargetParams (PText paramsName) (securityName a) (PText (securityLevel a)) (mpModel a));;
      modify (λ s, put_parm (dset (parm s) (params_key a) (paramsName, 1)) s);;
      mret paramsName
  end.
Definition use_transport (t : target) : Op unit :=
  cached ← gets tran;
  w ← gets engine;
  match dget cached (transportDomain t) with
  | Some (transport, useCount) =>
      on_engine (verifyDispatcherCompatibility t);;
      modify (λ s, put_tran (dset (tran s) (transportDomain t) (transport, useCount + 1)) s)
  | None =>
      if hasTransport (transportDomain t) w then on_engine (verifyDispatcherCompatibility t)
      else
        transport ← on_engine (openClientMode t);
        on_engine (addTransport (transportDomain t) transport);;
        modify (λ s, put_tran (dset (tran s) (transportDomain t) (transport, 1)) s)
  end.
Definition use_addr (paramsName : string) (t : target) : Op string :=
  cached ← gets addr;
  let k := addr_key_of paramsName t in
  match dget cached k with
  | Some (addrName, useCount) =>
      modify (λ s, put_addr (dset (addr s) k (addrName, useCount + 1)) s);;
      mret addrName
  | None =>
      addrName ← new_name "a";
      on_engine (addTargetAddr (PText addrName) (transportDomain t) (transportAddr t) (PText paramsName)
        (PInt (timeout t / 10000)) (PInt (retries t)) (PText (tagList t)) PNone);;
      modify (λ s, put_addr (dset (addr s) k (addrName, 1)) s);;
      mret addrName
  end.
Definition configure (a : auth_data) (t : target) : Op (string * string) :=
  write_auth a;;
  paramsName ← use_params a;
  use_transport t;;
  alignTimerResolution (timeout t);;
  addrName ← use_addr paramsName t;
  mret (addrName, paramsName).

(** [useCount -= 1] of an address; the address and a use of its transport go with the last *)
Definition drop_addr (k : addr_key) : Op (list addr_key) :=
  cached ← gets addr;
  match dget cached k with
  | None => raise KeyError
  | Some (addrName, useCount) =>
      if useCount - 1 =? 0 then
        on_engine (delTargetAddr (PText addrName));;
        modify (λ s, put_addr (ddel (addr s) k) s);;
        open ← gets tran;
        (match dget open (k_domain k) with
         | None => mret tt
         | Some (transport, useCount) =>
             if 1 <? useCount then modify (λ s, put_tran (dset (tran s) (k_domain k) (transport, useCount - 1)) s)
             else
               on_engine (delTransport (T := T) (k_domain k));;
               on_engine (closeTransport transport);;
               modify (λ s, put_tran (ddel (tran s) (k_domain k)) s)
         end);;
        mret [k]
      else modify (λ s, put_addr (dset (addr s) k (addrName, useCount - 1)) s);; mret []
  end.
Fixpoint each {A C} (f : A → Op (list C)) (l : list A) : Op (list C) :=
  match l with
  | [] => mret []
  | x :: l => a ← f x; b ← each f l; mret (a ++ b)
  end.
Definition drop_params (a : auth_data) : Op (string * list string) :=
  cached ← gets parm;
  match dget cached (params_key a) with
  | None => raise (PySnmpError "Unknown target")
  | Some (paramsName, useCount) =>
      if useCount - 1 =? 0 then
        modify (λ s, put_parm (ddel (parm s) (params_key a)) s);;
        on_engine (delTargetParams (PText paramsName));;
        mret (paramsName, [paramsName])
      else
        modify (λ s, put_parm (dset (parm s) (params_key a) (paramsName, useCount - 1)) s);;
        mret (paramsName, [])
  end.
Definition drop_auth (k : auth_key) : Op (list (addr_key + string)) :=
  cached ← gets auth;
  match dget cached k with
  | None => raise KeyError
  | Some a =>
      modify (λ s, put_auth (ddel (auth s) k) s);;
      (match a with
       | Community c => on_engine (delV1System (communityIndex c))
       | User u => on_engine (delV3User clones (userName u) (securityEngineId u) PNone)
       | OtherAuth => raise (PySnmpError "Unsupported authentication object")
       end);;
      '(paramsName, names) ← drop_params a;
      addrs ← gets addr;
      keys ← each drop_addr (filter (λ k, k_params k = paramsName) (dkeys addrs));
      mret ((inl <$> keys) ++ (inr <$> names))
  end.
(** The keys of the addresses and the names of the parameters that went away *)
Definition unconfigure (a : option auth_data) : Op (list addr_key * list string) :=
  cached ← gets auth;
  keys ← (match a with
          | None => mret (dkeys cached)
          | Some a =>
              match key_of a with
              | None => raise (PySnmpError "Unsupported authentication object")
              | Some k => if din cached k then mret [k] else raise (PySnmpError "Unknown authData")
              end
          end);
  gone ← each drop_auth keys;
  mret (omap (λ x, match x with inl k => Some k | inr _ => None end) gone,
        omap (λ x, match x with inr n => Some n | inl _ => None end) gone).

(** ** Notifications *)
Context (hash : pyval → Z) (hash_tags : pyval → pyval → Z).
Context (oid_of_text : octets → result exn oid) (fromBinaryString : string → result exn octets).

(** The tags that are made up for a target, and for a community, that has none: both objects
    are the caller's. *)
Definition tagged (a : auth_data) (t : target) : result exn (auth_data * target) :=
  let t := match tagList t with
           | EmptyString =>
               mk_target (transportDomain t) (transportAddr t) (timeout t) (retries t)
                 (pretty (hash_tags (securityName a) (transportAddr t))) (iface t)
           | _ => t
           end in
  match a with
  | Community c =>
      match tag c with
      | PNone | PText EmptyString | PBytes [] =>
          match words (tagList t) with
          | w :: _ =>
              Ok (Community (mk_community (communityIndex c) (communityName c) (c_mpModel c) (contextEngineId c)
                (contextName c) (PText w) (c_securityName c)), t)
          | [] => Err IndexError
          end
      | _ => Ok (a, t)
      end
  | _ => Ok (a, t)
  end.
(** One tag: the name of the notification and of the parameters go on to the next. *)
Definition notify_tag (notifyType : string) (names : string * string) (tg : string) : Op (string * string) :=
  let '(_, paramsName) := names in
  cached ← gets n_name;
  let k := (paramsName, tg, notifyType) in
  match dget cached k with
  | Some (notifyName, paramsName, useCount) =>
      modify (λ s, put_n_name (dset (n_name s) k (notifyName, paramsName, useCount + 1)) s);;
      mret (notifyName, paramsName)
  | None =>
      notifyName ← new_name "n";
      on_engine (addNotificationTarget hash (PText notifyName) (PText paramsName) (PText tg) (PText notifyType) []
        PNone PNone PNone);;
      modify (λ s, put_n_name (dset (n_name s) k (notifyName, paramsName, 1)) s);;
      mret (notifyName, paramsName)
  end.
Fixpoint notify_tags (notifyType : string) (names : string * string) (tags : list string) : Op (string * string) :=
  match tags with
  | [] => mret names
  | tg :: tags => names ← notify_tag notifyType names tg; notify_tags notifyType names tags
  end.
Definition n_key (a : auth_data) (context : pyval) : pyval * Z * string * pyval :=
  (securityName a, securityModel a, securityLevel a, context).
Definition trap_subtree : oid := [1; 3; 6].
Definition n_configure (a : auth_data) (t : target) (notifyType : string) (context : pyval) :
    Op (string * (auth_data * target)) :=
  '(a, t) ← liftR (tagged a t);
  '(_, paramsName) ← configure a t;
  let tags := match words (tagList t) with [] => [""%string] | l => l end in
  '(notifyName, _) ← notify_tags notifyType (""%string, paramsName) tags;
  cached ← gets n_auth;
  (match dget cached (n_key a context) with
   | Some (a', subTree, useCount) =>
       modify (λ s, put_n_auth (dset (n_auth s) (n_key a context) (a', subTree, useCount + 1)) s)
   | None =>
       on_engine (addTrapUser hash oid_of_text fromBinaryString (securityModel a) (securityName a)
         (PText (securityLevel a)) trap_subtree context);;
       modify (λ s, put_n_auth (dset (n_auth s) (n_key a context) (a, trap_subtree, 1)) s)
   end);;
  mret (notifyName, (a, t)).

Definition drop_notify (k : string * string * string) : Op (list unit) :=
  cached ← gets n_name;
  match dget cached k with
  | None => raise KeyError
  | Some (notifyName, paramsName, useCount) =>
      if useCount - 1 =? 0 then
        on_engine (delNotificationTarget hash (PText notifyName) (PText paramsName) [] PNone);;
        modify (λ s, put_n_name (ddel (n_name s) k) s);;
        mret []
      else modify (λ s, put_n_name (dset (n_name s) k (notifyName, paramsName, useCount - 1)) s);; mret []
  end.
Definition drop_trap_user (k : pyval * Z * string * pyval) : Op (list unit) :=
  cached ← gets n_auth;
  match dget cached k with
  | None => raise KeyError
  | Some (a, subTree, useCount) =>
      if useCount - 1 =? 0 then
        on_engine (delTrapUser hash (securityModel a) (securityName a) (PText (securityLevel a)) subTree (PBytes []));;
        modify (λ s, put_n_auth (ddel (n_auth s) k) s);;
        mret []
      else modify (λ s, put_n_auth (dset (n_auth s) k (a, subTree, useCount - 1)) s);; mret []
  end.
Definition n_unconfigure (a : option auth_data) (context : pyval) : Op unit :=
  cached ← gets n_auth;
  keys ← (match a with
          | None => mret (dkeys cached)
          | Some a => if din cached (n_key a context) then mret [n_key a context] else raise (PySnmpError "Unknown authData")
          end);
  '(_, paramsNames) ← unconfigure a;
  names ← gets n_name;
  each drop_notify (filter (λ k, k.1.1 ∈ paramsNames) (dkeys names));;
  each drop_trap_user keys;;
  mret tt.
End lcd.
End Lcd.
