(* ===== verification/LcdSpec.v ===== *)
(** * What the caches of the high-level API promise

    Configuring what is configured writes nothing; a target that is kept has its
    parameters.  The examples show what the use counts lose. *)
From stdpp Require Import pretty.
From S2P Require Import Wp ConfigSpec Lcd.
Import Config ConfigSpec Lcd.
#[local] Open Scope Z_scope.

Module LcdSpec.

(** ** Credentials *)

(** The level of a user is that of the keys given, and a privacy key needs a protocol of
    authentication. *)
Lemma level_follows_keys name aKey pKey aProto pProto e sn at' pt :
  match new_user name aKey pKey aProto pProto e sn at' pt with
  | Ok u => u_securityLevel u = match pKey, aKey with
                                | Some _, _ => "authPriv" | None, Some _ => "authNoPriv" | None, None => "noAuthNoPriv"
                                end%string ∧
            (aKey = None → authProtocol u = NoAuth.serviceID ∧ pKey = None) ∧
            (pKey = None → privProtocol u = NoPriv.serviceID)
  | Err _ => pKey ≠ None ∧ (aKey = None ∨ aProto = Some NoAuth.serviceID)
  end.
Proof.
  unfold new_user. destruct pKey as [pk|], aKey as [ak|], aProto as [ap|]; cbn;
    repeat case_decide; subst; cbn; split_and?; auto; try done.
Qed.
(** A copy keeps the rest as it is, but for the kinds of the keys. *)
Example clone_forgets_the_key_type :
  ∃ u u', new_user (PText "bob") (Some [1; 2; 3]) None None None PNone PNone usmKeyTypeLocalized 0 = Ok u ∧
    clone_user u PNone None None None None PNone PNone None None = Ok u' ∧
    authKeyType u = usmKeyTypeLocalized ∧ authKeyType u' = usmKeyTypePassphrase ∧ authKey u' = authKey u.
Proof. eexists _, _. by split_and!. Qed.
(** So does that of a community, but for its index. *)
Example clone_forgets_the_index hash :
  communityIndex (clone_community hash (new_community hash (PText "i") (PText "public") None PNone PNone PNone PNone)
    PNone PNone None PNone PNone PNone PNone) =
  PText ("s" +:+ pretty (hash (PText "public") 1 PNone (PBytes []) (PBytes [])))%string.
Proof. done. Qed.

Section spec.
Context {W T : Type} `{!config_env W} `{!transports W T} (H : hashlib) (B : cipherbackend) (clones : nat).
Implicit Types s : lcd W T.
Abbreviation configure := (configure H B clones).

(** Calls of the engine touch no cache. *)
Lemma wp_on_engine {A} (m : M exn W A) (Q : result exn A → lcd W T → Prop) s :
  (∀ r w, Q r (put_engine w s)) → wp (on_engine m) Q s.
Proof. intros HQ. apply wp_zoom. unfold wp. apply HQ. Qed.

(** ** Configuring again *)
Definition same_credentials (a : auth_data) (cached : option auth_data) : Prop :=
  match a, cached with
  | Community _, Some _ => True
  | User u, Some cached => usmCredentialsDiffer cached u = false
  | _, _ => False
  end.
Definition cached_auth (a : auth_data) s : Prop :=
  ∃ k, key_of a = Some k ∧ same_credentials a (dget (auth s) k).

Lemma write_auth_cached a s : cached_auth a s → write_auth H B clones a s = (Ok tt, s).
Proof.
  intros (k & Hk & Hsame). destruct a as [c|u|]; [| |done]; injection Hk as <-; unfold write_auth, din; munfold; cbn in *.
  - by destruct (dget (auth s) _).
  - destruct (dget (auth s) _) as [cached|]; [|done]. by rewrite Hsame.
Qed.
Lemma credentials_refl u : usmCredentialsDiffer (User u) u = false.
Proof. unfold usmCredentialsDiffer. by rewrite bool_decide_eq_true_2. Qed.
(** After the credentials were written they are cached, and nothing else has changed. *)
Lemma write_auth_ok a s :
  wp (write_auth H B clones a) (λ r s', parm s' = parm s ∧ addr s' = addr s ∧ nextID s' = nextID s ∧ (r = Ok tt → cached_auth a s')) s.
Proof.
  set (Q := λ r s', parm s' = parm s ∧ addr s' = addr s ∧ nextID s' = nextID s ∧ (r = Ok tt → cached_auth a s')).
  assert (Hadd : ∀ k (m : M exn W unit) s0, parm s0 = parm s → addr s0 = addr s → nextID s0 = nextID s →
    key_of a = Some k → same_credentials a (Some a) →
    wp (on_engine m;; modify (λ s, put_auth (dset (auth s) k a) s)) Q s0).
  { intros k m s0 H1 H2 H3 Hk Hsame. apply wp_bind, wp_on_engine. intros [?|e] w; [|by split_and!].
    apply wp_modify. split_and!; [done..|]. intros _. exists k. split; [done|]. cbn. by rewrite dget_dset_eq. }
  assert (Hret : cached_auth a s → wp (mret tt) Q s) by (intros Hc; by split_and!).
  unfold write_auth. apply wp_bind, wp_gets. destruct a as [c|u|].
  - unfold din. destruct (dget (auth s) _) eqn:Hc; [|by apply Hadd].
    apply Hret. eexists. split; [done|]. by rewrite Hc.
  - destruct (dget (auth s) _) as [cached|] eqn:Hc; [|apply Hadd; try done; apply credentials_refl].
    destruct (usmCredentialsDiffer cached u) eqn:Hd.
    + apply wp_bind, wp_on_engine. intros [?|e] w; [|by split_and!]. apply Hadd; try done. apply credentials_refl.
    + apply Hret. eexists. split; [done|]. by rewrite Hc.
  - by split_and!.
Qed.

(** A use more of what is cached *)
Definition used_again (a : auth_data) (t : target) (x p : string) (n k : Z) s s' : Prop :=
  engine s' = engine s ∧ auth s' = auth s ∧ nextID s' = nextID s ∧
  parm s' = dset (parm s) (params_key a) (p, n + 1) ∧
  addr s' = dset (addr s) (addr_key_of p t) (x, k + 1).
Definition clock_fits (t : target) (w : W) : Prop :=
  hasDispatcher (T := T) w = true → timeout t ≠ 0 → getTimerResolution (T := T) w ≤ timeout t / TICKS_PER_TIMEOUT.
Definition transport_there (t : target) s : Prop :=
  verifyDispatcherCompatibility (T := T) t (engine s) = (Ok tt, engine s) ∧
  (dget (tran s) (transportDomain t) = None → hasTransport (T := T) (transportDomain t) (engine s) = true).

Lemma cached_configure a t x p n k s :
  cached_auth a s → dget (parm s) (params_key a) = Some (p, n) →
  dget (addr s) (addr_key_of p t) = Some (x, k) → transport_there t s → clock_fits t (engine s) →
  ∃ s', configure a t s = (Ok (x, p), s') ∧ used_again a t x p n k s s'.
Proof.
  intros Hauth Hp Hx [Hv Htr] Hclock. unfold Lcd.configure.
  apply (wp_inv _ _ (used_again a t x p n k s)).
  eapply wp_bind, wp_intro; [by apply write_auth_cached|].
  apply wp_bind. unfold use_params. apply wp_bind, wp_gets. rewrite Hp. apply wp_bind, wp_modify, wp_ret.
  assert (Hlast : ∀ s', engine s' = engine s → auth s' = auth s → nextID s' = nextID s →
    parm s' = dset (parm s) (params_key a) (p, n + 1) → addr s' = addr s →
    wp (alignTimerResolution (timeout t);; addrName ← use_addr p t; mret (addrName, p))
       (λ r s', r = Ok (x, p) ∧ used_again a t x p n k s s') s').
  { intros s' He Ha Hi Hparm Haddr. apply wp_bind.
    assert (Halign : alignTimerResolution (timeout t) s' = (Ok tt, s')).
    { unfold alignTimerResolution. munfold. rewrite He.
      destruct (hasDispatcher (engine s)) eqn:Hd; [|done]. cbn. destruct (timeout t =? 0) eqn:Hz; [done|]. bool_to_prop.
      by rewrite (proj2 (Z.leb_le _ _) (Hclock Hd Hz)). }
    eapply wp_intro; [done|]. apply wp_bind. unfold use_addr. apply wp_bind, wp_gets. rewrite Haddr, Hx.
    apply wp_bind, wp_modify, wp_ret, wp_ret. split; [done|]. unfold used_again. cbn. by rewrite Haddr. }
  apply wp_bind. unfold use_transport. apply wp_bind, wp_gets, wp_bind, wp_gets. cbn [tran put_parm].
  assert (Hverify : ∀ s', engine s' = engine s → on_engine (verifyDispatcherCompatibility (T := T) t) s' = (Ok tt, s')).
  { intros s' He. unfold on_engine, zoom. rewrite He, Hv. unfold put_engine. rewrite <- He. by destruct s'. }
  destruct (dget (tran s) (transportDomain t)) as [[tr m]|] eqn:Htran.
  - eapply wp_bind, wp_intro; [by apply Hverify|]. apply wp_modify. by apply Hlast.
  - cbn [engine put_parm]. rewrite Htr by done. eapply wp_intro; [by apply Hverify|]. by apply Hlast.
Qed.

(** What each step does to the caches *)
Lemma use_params_ok a s :
  wp (use_params a) (λ r s', auth s' = auth s ∧ addr s' = addr s ∧
    match r with
    | Ok p => ∃ n, parm s' = dset (parm s) (params_key a) (p, n) ∧
        (dget (parm s) (params_key a) = Some (p, n - 1) ∨
         dget (parm s) (params_key a) = None ∧ n = 1 ∧
         ∃ id, (NextId.call (nextID s)).1 = Ok id ∧ p = ("p" +:+ pretty id)%string)
    | Err _ => parm s' = parm s
    end) s.
Proof.
  unfold use_params. apply wp_bind, wp_gets. destruct (dget (parm s) _) as [[p n]|] eqn:Hp.
  - apply wp_bind, wp_modify, wp_ret. split_and!; [done..|]. exists (n + 1). split; [done|]. left. do 2 f_equal. lia.
  - apply wp_bind. unfold new_name. apply wp_bind, wp_zoom. unfold wp.
    destruct (NextId.call (nextID s)) as [[id|e] i]; cbn; [|by split_and!].
    apply wp_bind, wp_on_engine. intros [?|e] w; [|by split_and!]. apply wp_bind, wp_modify, wp_ret.
    split_and!; [done..|]. exists 1. split; [done|]. right. split_and!; [done..|]. by exists id.
Qed.
Lemma use_transport_ok t s :
  wp (use_transport t) (λ _ s', auth s' = auth s ∧ parm s' = parm s ∧ addr s' = addr s) s.
Proof.
  unfold use_transport. apply wp_bind, wp_gets, wp_bind, wp_gets. destruct (dget (tran s) _) as [[tr m]|].
  - apply wp_bind, wp_on_engine. intros [?|e] w; [|done]. by apply wp_modify.
  - destruct (hasTransport _ _); [by apply wp_on_engine|]. apply wp_bind, wp_on_engine. intros [tr|e] w; [|done].
    apply wp_bind, wp_on_engine. intros [?|e] w'; [|done]. by apply wp_modify.
Qed.
Lemma align_ok z s :
  wp (alignTimerResolution z) (λ _ s', auth s' = auth s ∧ parm s' = parm s ∧ addr s' = addr s) s.
Proof.
  unfold alignTimerResolution. apply wp_bind, wp_gets. case_match; [by apply wp_ret|].
  case_match; [by apply wp_ret|by apply wp_on_engine].
Qed.
Lemma use_addr_ok p t s :
  wp (use_addr p t) (λ r s', auth s' = auth s ∧ parm s' = parm s ∧
    match r with
    | Ok x => ∃ k, addr s' = dset (addr s) (addr_key_of p t) (x, k) ∧
        (dget (addr s) (addr_key_of p t) = Some (x, k - 1) ∨ dget (addr s) (addr_key_of p t) = None ∧ k = 1)
    | Err _ => addr s' = addr s
    end) s.
Proof.
  unfold use_addr. apply wp_bind, wp_gets. destruct (dget (addr s) _) as [[x k]|] eqn:Hx.
  - apply wp_bind, wp_modify, wp_ret. split_and!; [done..|]. exists (k + 1). split; [done|]. left. do 2 f_equal. lia.
  - apply wp_bind. unfold new_name. apply wp_bind, wp_zoom. unfold wp.
    destruct (NextId.call (nextID s)) as [[id|e] i]; cbn; [|by split_and!].
    apply wp_bind, wp_on_engine. intros [?|e] w; [|by split_and!]. apply wp_bind, wp_modify, wp_ret.
    split_and!; [done..|]. exists 1. split; [done|]. by right.
Qed.

Lemma configure_ok a t s :
  wp (configure a t) (λ r s', match r with
    | Ok (x, p) => cached_auth a s' ∧ (∃ n, dget (parm s') (params_key a) = Some (p, n)) ∧
                   ∃ k, dget (addr s') (addr_key_of p t) = Some (x, k)
    | Err _ => True end) s.
Proof.
  unfold Lcd.configure. apply wp_bind. eapply wp_mono; [apply write_auth_ok|]. intros [[]|e] s1; [|done].
  intros (_ & _ & _ & Hc). specialize (Hc eq_refl).
  apply wp_bind. eapply wp_mono; [apply use_params_ok|]. intros [p|e] s2; [|done]. intros (Ha2 & _ & n & Hp & _).
  apply wp_bind. eapply wp_mono; [apply use_transport_ok|]. intros [?|e] s3; [|done]. intros (Ha3 & Hp3 & _).
  apply wp_bind. eapply wp_mono; [apply align_ok|]. intros [?|e] s4; [|done]. intros (Ha4 & Hp4 & _).
  apply wp_bind. eapply wp_mono; [apply use_addr_ok|]. intros [x|e] s5; [|done]. intros (Ha5 & Hp5 & k & Hx & _).
  apply wp_ret. split_and!.
  - destruct Hc as (k' & Hk & Hsame). exists k'. split; [done|]. by rewrite Ha5, Ha4, Ha3, Ha2.
  - exists n. by rewrite Hp5, Hp4, Hp3, Hp, dget_dset_eq.
  - exists k. by rewrite Hx, dget_dset_eq.
Qed.

(** Configuring again what was configured writes nothing to the engine: it gives the same
    names, with one use more of the parameters and of the address, as long as the transport
    is there and the clock fine enough. *)
Theorem configuring_again a t s x p s1 :
  configure a t s = (Ok (x, p), s1) → transport_there t s1 → clock_fits t (engine s1) →
  ∃ s2 n k, configure a t s1 = (Ok (x, p), s2) ∧ engine s2 = engine s1 ∧ auth s2 = auth s1 ∧
    dget (parm s1) (params_key a) = Some (p, n) ∧ dget (parm s2) (params_key a) = Some (p, n + 1) ∧
    dget (addr s1) (addr_key_of p t) = Some (x, k) ∧ dget (addr s2) (addr_key_of p t) = Some (x, k + 1).
Proof.
  intros Hrun Htr Hclock. pose proof (configure_ok a t s) as Hok. unfold wp in Hok. rewrite Hrun in Hok.
  destruct Hok as (Hauth & (n & Hp) & k & Hx).
  destruct (cached_configure a t x p n k s1 Hauth Hp Hx Htr Hclock) as (s2 & Hrun2 & He & Ha & _ & Hparm & Haddr).
  exists s2, n, k. rewrite Hparm, Haddr, !dget_dset_eq. by split_and!.
Qed.

(** ** Use counts *)

(** The uses of a name of parameters: none when no entry has it *)
Definition uses (d : dict parm_key (string * Z)) (p : string) (n : Z) : Prop :=
  (∃ k, dget d k = Some (p, n)) ∨ n = 0 ∧ ∀ k n', dget d k ≠ Some (p, n').
Record params_ok (d : dict parm_key (string * Z)) : Prop := {
  params_dict : dict_ok d;
  params_used : ∀ k p n, dget d k = Some (p, n) → 1 ≤ n;
  params_named : ∀ k k' p n n', dget d k = Some (p, n) → dget d k' = Some (p, n') → k = k';
}.
(** Every address has been used, and no more than its parameters; those in [rest] one more
    time *)
Definition addrs_ok (rest : list addr_key) s : Prop :=
  dict_ok (addr s) ∧ ∀ k x c, dget (addr s) k = Some (x, c) →
    1 ≤ c ∧ ∃ n, uses (parm s) (k_params k) n ∧ c ≤ n + (if decide (k ∈ rest) then 1 else 0).
Definition counted s : Prop := params_ok (parm s) ∧ addrs_ok [] s.

Lemma params_set d k p n m : params_ok d → dget d k = Some (p, n) → 1 ≤ m → params_ok (dset d k (p, m)).
Proof.
  intros [Hd Hu Hn] Hk Hm. split; [by apply dset_ok| |].
  - intros k' p' n'. rewrite dget_dset. case_decide; [intros [= <- <-]; done|apply Hu].
  - intros k1 k2 p' n1 n2. rewrite !dget_dset. repeat case_decide; subst; try done.
    + intros [= <- <-] H2. by eapply Hn.
    + intros H1 [= <- <-]. by eapply Hn.
    + apply Hn.
Qed.
Lemma params_add d k p : params_ok d → dget d k = None → (∀ k' n, dget d k' ≠ Some (p, n)) → params_ok (dset d k (p, 1)).
Proof.
  intros [Hd Hu Hn] Hk Hfresh. split; [by apply dset_ok| |].
  - intros k' p' n'. rewrite dget_dset. case_decide; [intros [= <- <-]; done|apply Hu].
  - intros k1 k2 p' n1 n2. rewrite !dget_dset. repeat case_decide; subst; try done.
    + intros [= <- <-] H2. by apply Hfresh in H2.
    + intros H1 [= <- <-]. by apply Hfresh in H1.
    + apply Hn.
Qed.
Lemma params_del d k : params_ok d → params_ok (ddel d k).
Proof.
  intros [Hd Hu Hn]. split; [by apply ddel_ok| |].
  - intros k' p' n'. rewrite dget_ddel by done. case_decide; [done|apply Hu].
  - intros k1 k2 p' n1 n2. rewrite !dget_ddel by done. repeat case_decide; try done. apply Hn.
Qed.

Lemma uses_unique d p n m : params_ok d → uses d p n → uses d p m → n = m.
Proof.
  intros Hd [[k Hk]|[-> Hn]] [[k' Hk']|[-> Hm]]; try done.
  - assert (k = k') as -> by (by eapply params_named). congruence.
  - by apply Hm in Hk.
  - by apply Hn in Hk'.
Qed.
Lemma uses_set d k p n m q u : params_ok d → dget d k = Some (p, n) → uses d q u →
  uses (dset d k (p, m)) q (if decide (q = p) then m else u).
Proof.
  intros Hd Hk Hu. case_decide as Hq; [subst q; left; exists k; apply dget_dset_eq|].
  destruct Hu as [[k' Hk']|[-> Hn]].
  - left. exists k'. rewrite dget_dset_ne; [done|]. congruence.
  - right. split; [done|]. intros k' n'. rewrite dget_dset. case_decide; [congruence|apply Hn].
Qed.
Lemma uses_add d k p m q u : params_ok d → dget d k = None → uses d q u → q ≠ p → uses (dset d k (p, m)) q u.
Proof.
  intros Hd Hk Hu Hq. destruct Hu as [[k' Hk']|[-> Hn]].
  - left. exists k'. rewrite dget_dset_ne; [done|]. congruence.
  - right. split; [done|]. intros k' n'. rewrite dget_dset. case_decide; [congruence|apply Hn].
Qed.
Lemma uses_del d k p n q u : params_ok d → dget d k = Some (p, n) → uses d q u →
  uses (ddel d k) q (if decide (q = p) then 0 else u).
Proof.
  intros Hd Hk Hu. pose proof (params_dict d Hd) as Hok. case_decide as Hq.
  - subst q. right. split; [done|]. intros k' n'. rewrite dget_ddel by done. case_decide as Hkk; [done|].
    intros Hk'. apply Hkk. by eapply params_named.
  - destruct Hu as [[k' Hk']|[-> Hn]].
    + left. exists k'. rewrite dget_ddel_ne; [done|done|]. congruence.
    + right. split; [done|]. intros k' n'. rewrite dget_ddel by done. case_decide; [done|apply Hn].
Qed.

(** The next name of parameters is not in use. *)
Definition fresh_name s : Prop :=
  ∀ id k n, (NextId.call (nextID s)).1 = Ok id → dget (parm s) k ≠ Some (("p" +:+ pretty id)%string, n).

(** After the parameters are used, every address has room for one use more of them. *)
Lemma counted_params a s : counted s → fresh_name s →
  wp (use_params a) (λ r s', counted s' ∧ match r with
    | Ok p => ∀ x k c, dget (addr s') k = Some (x, c) → k_params k = p → ∃ n, uses (parm s') p n ∧ c + 1 ≤ n
    | Err _ => True end ∧
    match r with Ok p => ∃ n, uses (parm s') p n ∧ 1 ≤ n | Err _ => True end) s.
Proof.
  intros [Hp [Had Ha]] Hfresh. eapply wp_mono; [apply use_params_ok|]. intros [p|e] s'.
  2:{ intros (_ & Haddr & Hparm). unfold counted, addrs_ok. by rewrite Hparm, Haddr. }
  intros (_ & Haddr & n & Hparm & [Hold|(Hnone & -> & id & Hid & Hname)]).
  - pose proof (params_used _ Hp _ _ _ Hold) as Hpos.
    assert (Hstep : ∀ x k c, dget (addr s') k = Some (x, c) → 1 ≤ c ∧ ∃ m, uses (parm s') (k_params k) m ∧
      c + (if decide (k_params k = p) then 1 else 0) ≤ m).
    { rewrite Haddr, Hparm. intros x k c Hk. destruct (Ha k x c Hk) as (Hc & m & Hm & Hle). split; [done|].
      rewrite decide_False in Hle by apply not_elem_of_nil.
      eexists. split; [by eapply uses_set|]. case_decide as Heq; [|lia].
      rewrite Heq in Hm. assert (m = n - 1) by (eapply uses_unique; [done|done|left; by eexists]). lia. }
    split; [split; [rewrite Hparm; by eapply params_set; [| |lia]|split; [by rewrite Haddr|]]|split].
    + intros k x c Hk. destruct (Hstep x k c Hk) as (Hc & m & Hm & Hle). split; [done|]. exists m. split; [done|].
      repeat case_decide; lia.
    + intros x k c Hk Heq. destruct (Hstep x k c Hk) as (Hc & m & Hm & Hle). rewrite Heq in Hm.
      rewrite decide_True in Hle by done. by exists m.
    + exists n. split; [left; exists (params_key a); by rewrite Hparm, dget_dset_eq|lia].
  - assert (Hunused : ∀ k m, dget (parm s) k ≠ Some (p, m)) by (intros k m; rewrite Hname; by apply Hfresh).
    assert (Hstep : ∀ x k c, dget (addr s) k = Some (x, c) → k_params k ≠ p).
    { intros x k c Hk Heq. destruct (Ha k x c Hk) as (Hc & m & Hm & Hle). rewrite Heq in Hm.
      rewrite decide_False in Hle by apply not_elem_of_nil. destruct Hm as [[k' Hk']|[-> _]]; [by apply Hunused in Hk'|lia]. }
    split; [split; [rewrite Hparm; by apply params_add|split; [by rewrite Haddr|]]|split].
    + rewrite Haddr, Hparm. intros k x c Hk. destruct (Ha k x c Hk) as (Hc & m & Hm & Hle). split; [done|].
      exists m. split; [|done]. apply uses_add; try done. by eapply Hstep.
    + rewrite Haddr. intros x k c Hk Heq. by apply Hstep in Hk.
    + exists 1. split; [left; exists (params_key a); by rewrite Hparm, dget_dset_eq|lia].
Qed.
Lemma counted_same s s' : parm s' = parm s → addr s' = addr s → counted s → counted s'.
Proof. intros Hp Ha. unfold counted, addrs_ok. by rewrite Hp, Ha. Qed.

(** Configuring keeps the counts, whatever becomes of it. *)
Theorem configure_counted a t s : fresh_name s → counted s → counted (configure a t s).2.
Proof.
  intros Hfresh Hs. cut (wp (configure a t) (λ _ s', counted s') s); [done|]. unfold Lcd.configure.
  apply wp_bind. eapply wp_mono; [apply write_auth_ok|]. intros r s1 (Hp1 & Ha1 & Hi1 & _).
  assert (Hs1 : counted s1) by (by eapply counted_same).
  destruct r as [[]|e]; [|done]. apply wp_bind. eapply wp_mono; [apply counted_params; [done|]|].
  { unfold fresh_name. by rewrite Hi1, Hp1. }
  intros [p|e] s2 (Hs2 & Hroom & Hused); [|done].
  apply wp_bind. eapply wp_mono; [apply use_transport_ok|]. intros r s3 (_ & Hp3 & Ha3).
  assert (Hs3 : counted s3) by (by eapply counted_same).
  destruct r as [[]|e]; [|done]. apply wp_bind. eapply wp_mono; [apply align_ok|]. intros r s4 (_ & Hp4 & Ha4).
  assert (Hs4 : counted s4) by (by eapply counted_same).
  destruct r as [[]|e]; [|done]. apply wp_bind. eapply wp_mono; [apply use_addr_ok|]. intros r s5 (_ & Hp5 & Hx).
  destruct r as [x|e]; [|by eapply counted_same]. apply wp_ret. destruct Hx as (k & Hk & Hkk).
  destruct Hs4 as [Hparm [Had Haddr]]. split; [by rewrite Hp5|]. split; [rewrite Hk; by apply dset_ok|].
  intros k' x' c. rewrite Hk, dget_dset, Hp5, Hp4, Hp3. case_decide as Heq.
  - intros [= <- <-]. subst k'. cbn. destruct Hkk as [Hold|[_ ->]].
    + destruct (Haddr _ _ _ Hold) as (Hc & _). split; [lia|].
      rewrite Ha4, Ha3 in Hold. destruct (Hroom _ _ _ Hold eq_refl) as (n & Hn & Hle). exists n. split; [done|]. repeat case_decide; lia.
    + split; [lia|]. destruct Hused as (n & Hn & Hle). exists n. split; [done|]. repeat case_decide; lia.
  - intros Hold. apply Haddr in Hold. by rewrite Hp4, Hp3 in Hold.
Qed.

(** *** Taking configuration out *)
Abbreviation if_ok P := (λ r s', match r with Ok a => P a s' | Err _ => True end).

Lemma drop_params_ok a s : counted s →
  wp (drop_params a) (if_ok (λ pn s', params_ok (parm s') ∧
    addrs_ok (filter (λ k, k_params k = pn.1) (dkeys (addr s'))) s')) s.
Proof.
  intros [Hp [Had Ha]]. unfold drop_params. apply wp_bind, wp_gets.
  destruct (dget (parm s) (params_key a)) as [[p n]|] eqn:Hn; [|by apply wp_raise].
  pose proof (params_used _ Hp _ _ _ Hn) as Hpos.
  assert (Hgen : ∀ s', addr s' = addr s →
    (∀ q u, uses (parm s) q u → uses (parm s') q (if decide (q = p) then n - 1 else u)) →
    params_ok (parm s') → params_ok (parm s') ∧ addrs_ok (filter (λ k, k_params k = p) (dkeys (addr s'))) s').
  { intros s' Haddr Huses Hok. split; [done|]. split; [by rewrite Haddr|]. rewrite Haddr. intros k x c Hk.
    destruct (Ha k x c Hk) as (Hc & u & Hu & Hle). rewrite decide_False in Hle by apply not_elem_of_nil.
    split; [done|]. eexists. split; [by apply Huses|]. destruct (decide (k_params k = p)) as [Heq|Heq].
    - rewrite decide_True by (apply list_elem_of_filter; split; [done|by eapply dget_Some_keys]).
      rewrite Heq in Hu. assert (u = n) by (eapply (uses_unique (parm s)); [done|done|left; by eexists]). lia.
    - case_decide; lia. }
  destruct (n - 1 =? 0) eqn:Hz; bool_to_prop.
  - apply wp_bind, wp_modify, wp_bind, wp_on_engine. intros [?|e] w; [|done]. apply wp_ret. cbn [fst]. apply Hgen; [done| |].
    + intros q u Hu. rewrite Hz. by eapply uses_del.
    + by apply params_del.
  - apply wp_bind, wp_modify, wp_ret. cbn [fst]. apply Hgen; [done| |].
    + intros q u Hu. by eapply uses_set.
    + eapply params_set; [done|done|lia].
Qed.
Lemma drop_addr_ok k rest s : params_ok (parm s) → addrs_ok (k :: rest) s → k ∉ rest →
  wp (drop_addr k) (if_ok (λ _ s', params_ok (parm s') ∧ addrs_ok rest s')) s.
Proof.
  intros Hp [Had Ha] Hk. unfold drop_addr. apply wp_bind, wp_gets. destruct (dget (addr s) k) as [[x c]|] eqn:Hx; [|by apply wp_raise].
  destruct (Ha k x c Hx) as (Hc & n & Hn & Hle). rewrite decide_True in Hle by apply list_elem_of_here.
  assert (Hothers : ∀ k' x' c', k' ≠ k → dget (addr s) k' = Some (x', c') →
    1 ≤ c' ∧ ∃ n, uses (parm s) (k_params k') n ∧ c' ≤ n + (if decide (k' ∈ rest) then 1 else 0)).
  { intros k' x' c' Hne Hk'. destruct (Ha k' x' c' Hk') as (Hc' & n' & Hn' & Hle'). split; [done|]. exists n'. split; [done|].
    destruct (decide (k' ∈ rest)); [by rewrite decide_True in Hle' by (by apply list_elem_of_further)|].
    by rewrite decide_False in Hle' by (by rewrite not_elem_of_cons). }
  destruct (c - 1 =? 0) eqn:Hz; bool_to_prop.
  - assert (Hgone : ∀ s', parm s' = parm s → addr s' = ddel (addr s) k → params_ok (parm s') ∧ addrs_ok rest s').
    { intros s' Hps Has. rewrite Hps. split; [done|]. split; [rewrite Has; by apply ddel_ok|].
      intros k' x' c'. rewrite Has, dget_ddel, Hps by done. case_decide; [done|]. by apply Hothers. }
    apply wp_bind, wp_on_engine. intros [?|e] w; [|done]. apply wp_bind, wp_modify, wp_bind, wp_gets, wp_bind.
    destruct (dget (tran _) _) as [[tr m]|]; [|apply wp_ret, wp_ret; by apply Hgone].
    destruct (1 <? m); [apply wp_modify, wp_ret; by apply Hgone|].
    apply wp_bind, wp_on_engine. intros [?|e] w2; [|done]. apply wp_bind, wp_on_engine. intros [?|e] w3; [|done].
    apply wp_modify, wp_ret. by apply Hgone.
  - apply wp_bind, wp_modify, wp_ret. split; [done|]. split; [by apply dset_ok|]. intros k' x' c'. cbn. rewrite dget_dset.
    case_decide as Heq; [|by apply Hothers]. intros [= <- <-]. subst k'. split; [lia|]. exists n. split; [done|].
    rewrite decide_False by done. lia.
Qed.
Lemma drop_addrs_ok l s : params_ok (parm s) → addrs_ok l s → NoDup l →
  wp (each drop_addr l) (if_ok (λ _ s', counted s')) s.
Proof.
  revert s. induction l as [|k l IH]; intros s Hp Ha Hnd; cbn [each]; [by apply wp_ret|].
  apply NoDup_cons in Hnd as [Hk Hnd]. apply wp_bind. eapply wp_mono; [by apply drop_addr_ok|].
  intros [a|e] s1; [|done]. intros [Hp1 Ha1]. apply wp_bind. eapply wp_mono; [by apply IH|].
  intros [b|e] s2; [|done]. intros Hs2. by apply wp_ret.
Qed.
Lemma drop_auth_ok k s : counted s → wp (drop_auth clones k) (if_ok (λ _ s', counted s')) s.
Proof.
  intros Hs. unfold drop_auth. apply wp_bind, wp_gets. destruct (dget (auth s) k) as [a|]; [|by apply wp_raise].
  apply wp_bind, wp_modify, wp_bind.
  assert (Hrest : ∀ s', parm s' = parm s → addr s' = addr s →
    wp ('(paramsName, names) ← drop_params a; addrs ← gets addr;
        keys ← each drop_addr (filter (λ k, k_params k = paramsName) (dkeys addrs));
        mret ((inl <$> keys) ++ (inr <$> names))) (if_ok (λ _ s', counted s')) s').
  { intros s' Hp Ha. apply wp_bind. eapply wp_mono; [apply drop_params_ok; by eapply counted_same|].
    intros [[p names]|e] s1; [|done]. intros [Hp1 Ha1]. apply wp_bind, wp_gets, wp_bind.
    eapply wp_mono; [apply drop_addrs_ok; [done|exact Ha1|apply NoDup_filter, Ha1]|].
    intros [keys|e] s2; [|done]. intros Hs2. by apply wp_ret. }
  destruct a as [c|u|]; [apply wp_on_engine; intros [?|e] w; [by apply Hrest|done]..|by apply wp_raise].
Qed.
Lemma drop_auths_ok l s : counted s → wp (each (drop_auth clones) l) (if_ok (λ _ s', counted s')) s.
Proof.
  revert s. induction l as [|k l IH]; intros s Hs; cbn [each]; [by apply wp_ret|].
  apply wp_bind. eapply wp_mono; [by apply drop_auth_ok|]. intros [a|e] s1 Hs1; [|done].
  apply wp_bind. eapply wp_mono; [by apply IH|]. intros [b|e] s2 Hs2; [|done]. by apply wp_ret.
Qed.

(** Taking configuration out, where it succeeds, keeps the counts too: no address is left
    whose parameters are gone. *)
Theorem unconfigure_counted a s r s' : counted s → unconfigure clones a s = (Ok r, s') → counted s'.
Proof.
  intros Hs Hrun. cut (wp (unconfigure clones a) (if_ok (λ _ s', counted s')) s).
  { unfold wp. by rewrite Hrun. }
  unfold unconfigure. apply wp_bind, wp_gets, wp_bind.
  assert (Hgo : ∀ l, wp (gone ← each (drop_auth clones) l;
    mret (omap (λ x, match x with inl k => Some k | inr _ => None end) gone,
          omap (λ x, match x with inr n => Some n | inl _ => None end) gone)) (if_ok (λ _ s', counted s')) s).
  { intros l. apply wp_bind. eapply wp_mono; [by apply drop_auths_ok|]. intros [b|e] s2 Hs2; [|done]. by apply wp_ret. }
  destruct a as [a|]; [|apply wp_ret, Hgo]. destruct (key_of a) as [k|]; [|by apply wp_raise].
  destruct (din _ k); [apply wp_ret, Hgo|by apply wp_raise].
Qed.

(** *** Calls in a row *)
Inductive call : Type := Configure (a : auth_data) (t : target) | Unconfigure (a : option auth_data).
Inductive steps : lcd W T → list call → lcd W T → Prop :=
  | steps_nil s : steps s [] s
  | steps_configure s a t l s' : fresh_name s → steps (configure a t s).2 l s' → steps s (Configure a t :: l) s'
  | steps_unconfigure s a r l s1 s' :
      unconfigure clones a s = (Ok r, s1) → steps s1 l s' → steps s (Unconfigure a :: l) s'.
Definition empty (w : W) (i : NextId.Integer) : lcd W T := mk_lcd w [] [] [] [] [] [] i.

(** C32. From empty caches, whatever is configured and taken out: an address that is in use has
    its parameters in use, at least as often. *)
Theorem targets_have_their_parameters w i l s k x c :
  steps (empty w i) l s → dget (addr s) k = Some (x, c) →
  ∃ pk n, dget (parm s) pk = Some (k_params k, n) ∧ 1 ≤ c ≤ n.
Proof.
  intros Hsteps. cut (counted s).
  { intros [Hp [_ Ha]] Hk. destruct (Ha k x c Hk) as (Hc & n & Hn & Hle).
    rewrite decide_False in Hle by apply not_elem_of_nil. destruct Hn as [[pk Hpk]|[-> _]]; [|lia].
    exists pk, n. split; [done|lia]. }
  assert (Hempty : counted (empty w i)).
  { split; [split; [constructor|done|done]|split; [constructor|done]]. }
  revert Hempty. induction Hsteps as [|s0 a t l s' Hfresh _ IH|s0 a r l s1 s' Hrun _ IH]; intros Hs; [done| |].
  - by apply IH, configure_counted.
  - apply IH. by eapply unconfigure_counted.
Qed.
End spec.

(** ** A demonstration *)

(** An engine that keeps what is written and which transports are open *)
Definition world : Type := log * list oid.
Definition on_log {A} (m : M exn log A) : M exn world A := zoom fst (λ l w, (l, w.2)) m.
Definition world_config (ok : list (oid * pyval) → bool) : config_env world := {|
  writeVars l := on_log (@writeVars _ (logging ok) l);
  readNextVars l := mret [(e_name usmUserEntry, VEndOfMibView); ([], VNull); ([], VNull)];
  warn _ := mret tt;
  snmpEngineID _ := [128; 0; 79; 184; 5]; enableLegacyVersions _ := true;
  contexts _ := Column.init [1; 3; 6; 1; 6; 3; 16; 1; 1; 1; 1] []; put_contexts _ s := s;
|}.
Definition world_transports : transports world oid := {|
  hasTransport d w := bool_decide (d ∈ w.2);
  verifyDispatcherCompatibility _ := mret tt;
  openClientMode t := mret (transportDomain t);
  addTransport d _ := modify (λ w, (w.1, d :: w.2));
  delTransport d := modify (λ w, (w.1, filter (λ d', d' ≠ d) w.2));
  closeTransport _ := mret tt;
  hasDispatcher _ := true;
  getTimerResolution _ := 500000;
  setTimerResolution _ := mret tt;
|}.
Definition ids : NextId.Integer := NextId.mk_Integer 4294967295 256 128 (seqZ 1 20).
Definition start : lcd world oid := empty ([], []) ids.
Definition public : auth_data :=
  Community (mk_community (PText "i") (PText "public") 1 PNone (PBytes []) (PBytes []) (PText "i")).
Definition there (host : Z) : target :=
  mk_target Transport.snmpUDPDomain (PAddr (Transport.Inet [10; 0; 0; host] 161)) 1000000 5 "" PNone.
Abbreviation configured ok := (@configure world oid (world_config ok) world_transports toy_hashlib Priv.toy_backend 5).
Abbreviation taken_out ok := (@unconfigure world oid (world_config ok) world_transports 5).
Definition fine : list (oid * pyval) → bool := λ _, true.

Definition after_one : lcd world oid := (configured fine public (there 1) start).2.
Definition after_two : lcd world oid := (configured fine public (there 1) after_one).2.

Lemma configuring_again_witness :
  ∃ s2 n k, configured fine public (there 1) after_one = (Ok ("a2", "p1")%string, s2) ∧ engine s2 = engine after_one ∧
    auth s2 = auth after_one ∧
    dget (parm after_one) (params_key public) = Some ("p1"%string, n) ∧ dget (parm s2) (params_key public) = Some ("p1"%string, n + 1) ∧
    dget (addr after_one) (addr_key_of "p1" (there 1)) = Some ("a2"%string, k) ∧
    dget (addr s2) (addr_key_of "p1" (there 1)) = Some ("a2"%string, k + 1).
Proof.
  apply (@configuring_again world oid (world_config fine) world_transports toy_hashlib Priv.toy_backend 5 public (there 1) start).
  - vm_compute. reflexivity.
  - split; [reflexivity|vm_compute; discriminate].
  - intros _ _. vm_compute. discriminate.
Defined.

(** Two users of the same credentials: the first that leaves takes the community with it, the
    second cannot leave any more, and the parameters stay for good with the transport. *)
Definition after_leaving : lcd world oid := (taken_out fine (Some public) after_two).2.
Example second_user_cannot_leave :
  (taken_out fine (Some public) after_two).1 = Ok ([], []) ∧
  auth after_leaving = [] ∧ parm after_leaving = [(params_key public, ("p1"%string, 1))] ∧
  (taken_out fine (Some public) after_leaving).1 = Err (PySnmpError "Unknown authData") ∧
  (taken_out fine None after_leaving).1 = Ok ([], []).
Proof. split_and!; by vm_compute. Qed.
(** The uses of a transport are counted by call, and taken back by address: it stays open. *)
Example transport_stays_open :
  let s := (taken_out fine (Some public) (configured fine public (there 1) after_leaving).2).2 in
  let s := (taken_out fine (Some public) (configured fine public (there 1) s).2).2 in
  tran after_one = [(Transport.snmpUDPDomain, (Transport.snmpUDPDomain, 1))] ∧
  tran s = [(Transport.snmpUDPDomain, (Transport.snmpUDPDomain, 4))].
Proof. split; by vm_compute. Qed.
(** Two targets of one user: when it leaves, both go, and the parameters stay. *)
Example parameters_stay :
  let s := (taken_out fine (Some public) (configured fine public (there 2) after_one).2).2 in
  addr s = [] ∧ (λ kv, kv.2) <$> parm s = [("p1"%string, 1)].
Proof. split; by vm_compute. Qed.

Lemma targets_have_their_parameters_witness :
  dget (addr after_two) (addr_key_of "p1" (there 1)) = Some ("a2"%string, 2) ∧
  ∃ pk n, dget (parm after_two) pk = Some ("p1"%string, n) ∧ 1 ≤ 2 ≤ n.
Proof.
  assert (Haddr : dget (addr after_two) (addr_key_of "p1" (there 1)) = Some ("a2"%string, 2)) by (by vm_compute).
  split; [exact Haddr|].
  apply (@targets_have_their_parameters world oid (world_config fine) world_transports toy_hashlib Priv.toy_backend 5
    ([], []) ids [Configure public (there 1); Configure public (there 1)] after_two
    (addr_key_of "p1" (there 1)) "a2" 2); [|exact Haddr].
  apply steps_configure; [intros id k n _ Hk; discriminate Hk|].
  apply steps_configure; [|apply steps_nil].
  intros id k n Hid Hk. vm_compute in Hid. injection Hid as <-.
  apply dget_elem_of in Hk. vm_compute in Hk. by apply list_elem_of_singleton in Hk.
Defined.

(** New credentials for a user that cannot be written: the row is gone, and the old
    credentials are still taken for configured. *)
Definition bob (k : octets) : auth_data :=
  User (mk_user (PText "bob") (Some k) None HmacMd5.serviceID NoPriv.serviceID PNone (PText "bob") 2 2 "authNoPriv").
Definition no_user (l : list (oid * pyval)) : bool :=
  negb (bool_decide ((cell usmUserEntry 13 user, PText "createAndGo") ∈ l)).
Definition with_bob : lcd world oid := (configured fine (bob [1]) (there 1) start).2.
Definition without_bob : lcd world oid := (configured no_user (bob [2]) (there 1) with_bob).2.
Example old_credentials_outlive_their_row :
  (configured no_user (bob [2]) (there 1) with_bob).1 = Err (SmiError "refused") ∧
  last ((engine without_bob).1) = Some [(cell usmUserEntry 13 user, PText "destroy")] ∧
  (configured fine (bob [1]) (there 1) without_bob).1 = Ok ("a2", "p1")%string ∧
  engine (configured fine (bob [1]) (there 1) without_bob).2 = engine without_bob.
Proof. split_and!; by vm_compute. Qed.

(** The access a notification was given in a context of its own is taken back in the default
    context. *)
Definition n_world : transports world oid := world_transports.
Definition notified : lcd world oid :=
  (@n_configure world oid (world_config fine) n_world toy_hashlib Priv.toy_backend 5 (λ _, 7) (λ _ _, 8)
     (λ _, Err (PyAsn1Error "")) (λ _, Err (PyAsn1Error "")) public (there 1) "trap" (PText "x") start).2.
Definition silenced : result exn unit * lcd world oid :=
  @n_unconfigure world oid (world_config fine) n_world 5 (λ _, 7) (Some public) (PText "x") notified.
Definition access_rows (value : pyval) (l : log) : list oid :=
  omap (λ w, match w with (n, v) =>
    if bool_decide (take 11 n = e_name vacmAccessEntry ++ [9] ∧ v = value) then Some (drop 11 n) else None end) (concat l).
Example access_is_taken_back_elsewhere :
  silenced.1 = Ok tt ∧
  access_rows (PText "createAndGo") (engine silenced.2).1 ≠ [] ∧
  bool_decide (Forall (λ r, r ∉ access_rows (PText "destroy") (drop (length (engine notified).1) (engine silenced.2).1))
    (access_rows (PText "createAndGo") (engine silenced.2).1)) = true.
Proof. split_and!; by vm_compute. Qed.
End LcdSpec.
