(* ===== verification/ObjectId.v ===== *)
(** * Object identities, bindings and notifications (src/pysnmp/smi/rfc1902.py,
      src/pysnmp/hlapi/varbinds.py)

    [ObjectIdentity] names an object by identifier, label, module and symbol, or symbol
    and index values; [ObjectType] binds one to a value; [NotificationType] is a trap with
    its bindings.  [resolveWithMib] makes each of them whole against a view (View.v).  An
    object holds the identities it was made of; two objects that share one are not
    modelled. *)
From stdpp Require Import pretty.
From S2P Require Export Types View.
Import Text View.
#[local] Open Scope Z_scope.

Module ObjectId.

(** ** Object identities *)

(** The values an identity or an object is initialised with: what a tuple or a string has,
    an object that is an identity, a symbol of a module with its indices *)
Inductive arguments (I : Type) : Type :=
  | NoArgs
  | Parts (n : node_name)
  | Str (s : string)
  | Inner (i : I)
  | Symbol (modName symName : string) (indices : list part).
Arguments NoArgs {I}.
Arguments Parts {I} n.
Arguments Str {I} s.
Arguments Inner {I} i.
Arguments Symbol {I} modName symName indices.

Record kwargs : Type := mk_kwargs { last_ : bool; nodeType : option string }.
Definition no_kwargs : kwargs := mk_kwargs false None.

(** What [addMibSource], [addAsn1MibSource] and [loadMibs] leave to be done *)
Record pending : Type := mk_pending {
  mibSourcesToAdd : option (list string);
  asn1SourcesToAdd : option (list string);
  asn1SourcesOptions : dict string string;
  modNamesToLoad : option (list string);
}.
Definition nothing : pending := mk_pending None None [] None.

(** What an identity has once it is clean *)
Record resolved : Type := mk_resolved {
  r_modName : string;
  r_symName : string;
  r_oid : oid;
  r_label : node_name;
  r_indices : list TableIndex.ival;
  r_mibNode : symbol;
}.

Inductive identity : Type :=
  mk_identity (args : arguments identity) (kw : kwargs) (todo : pending) (state : option resolved).
Definition args (i : identity) : arguments identity := let '(mk_identity a _ _ _) := i in a.
Definition todo (i : identity) : pending := let '(mk_identity _ _ t _) := i in t.
(** The state: clean with what was found, or dirty *)
Definition clean (i : identity) : option resolved := let '(mk_identity _ _ _ st) := i in st.
(** [__init__] *)
Definition ObjectIdentity (a : arguments identity) (kw : kwargs) : identity := mk_identity a kw nothing None.
Definition put_todo (t : pending) (i : identity) : identity :=
  let '(mk_identity a kw _ st) := i in mk_identity a kw t st.

Definition uninitialised : exn := SmiError "object not fully initialized".
Definition getMibSymbol (i : identity) : result exn (string * string * list TableIndex.ival) :=
  match clean i with Some r => Ok (r_modName r, r_symName r, r_indices r) | None => Err uninitialised end.
Definition getOid (i : identity) : result exn oid :=
  match clean i with Some r => Ok (r_oid r) | None => Err uninitialised end.
Definition getLabel (i : identity) : result exn node_name :=
  match clean i with Some r => Ok (r_label r) | None => Err uninitialised end.
Definition getMibNode (i : identity) : result exn symbol :=
  match clean i with Some r => Ok (r_mibNode r) | None => Err uninitialised end.
Definition isFullyResolved (i : identity) : bool := bool_decide (is_Some (clean i)).

Definition more {A} (o : option (list A)) (l : list A) : option (list A) := Some (default [] o ++ l).
Definition addAsn1MibSource (asn1Sources : list string) (options : dict string string) (i : identity) : identity :=
  let t := todo i in
  put_todo (mk_pending (mibSourcesToAdd t) (more (asn1SourcesToAdd t) asn1Sources)
    (foldl (λ d kv, dset d kv.1 kv.2) (asn1SourcesOptions t) options) (modNamesToLoad t)) i.
Definition addMibSource (mibSources : list string) (i : identity) : identity :=
  let t := todo i in
  put_todo (mk_pending (more (mibSourcesToAdd t) mibSources) (asn1SourcesToAdd t) (asn1SourcesOptions t)
    (modNamesToLoad t)) i.
Definition loadMibs (modNames : list string) (i : identity) : identity :=
  let t := todo i in
  put_todo (mk_pending (mibSourcesToAdd t) (asn1SourcesToAdd t) (asn1SourcesOptions t)
    (more (modNamesToLoad t) modNames)) i.

(** [str(x)] of a part, and the parts of a text *)
Definition text_of (p : part) : string := match p with Arc z => pretty z | Name s => s end.
Definition string_of (l : text) : string := String.string_of_list_ascii ((λ c, Ascii.ascii_of_nat (Z.to_nat c)) <$> l).
Definition words (s : string) : node_name := Name <$> (string_of <$> split dot (codes s)).
Definition has_dot (s : string) : bool := bool_decide (dot ∈ codes s).

Section resolution.
Context {C : Type} `{EqDecision C}.
Context (find_module : C → oid → option string).

(** What a builder does outside of this development: the modules of a list are loaded, a
    source of modules is added, a compiler of modules is added with its sources and
    options *)
Record loader : Type := mk_loader {
  loadModules : list string → M exn (builder C) unit;
  addMibSources : list string → M exn (builder C) unit;
  addMibCompiler : option (list string * dict string string) → M exn (builder C) unit;
}.
Context (L : loader).

(** What pyasn1 does: [ObjectName(value)] of a tuple and of a string, the value that the
    syntax of an index makes of an argument (of no syntax when it is refused), and how a
    value is printed *)
Record asn1 : Type := mk_asn1 {
  objectName : node_name → result exn oid;
  objectName_str : string → result exn oid;
  value_of : TableIndex.idx_syntax → part → TableIndex.ival;
  print_index : TableIndex.ival → string;
}.
Context (N : asn1).

Abbreviation V := (M exn (view C)).
Abbreviation load1 := (λ m, loadModules L [m]).
Definition on_builder {A} (m : M exn (builder C) A) : V A := zoom mibBuilder put_builder m.

Abbreviation getNodeNameByOid := (View.getNodeNameByOid find_module load1).
Abbreviation getNodeName := (View.getNodeName find_module load1).
Abbreviation getNodeLocation := (View.getNodeLocation find_module load1).

(** [mibBuilder.importSymbols(modName, symName)] *)
Definition importSymbols (modName symName : string) : M exn (builder C) symbol :=
  if decide (modName = ""%string) then raise (SmiError "importSymbols: empty MIB module name")
  else
    b ← gets id;
    (if din (mibSymbols b) modName then mret tt else load1 modName);;
    b ← gets id;
    match dget (mibSymbols b) modName with
    | None => raise (SmiError "No module loaded")
    | Some syms => liftR (from_option_exc (SmiError "No symbol") (dget syms symName))
    end.

(** [mibNode.getName()]; a class has no name. *)
Definition getName (v : symbol) : result exn oid :=
  match v with SType => Err AttributeError | SInstance o | SNode _ o => Ok o end.
Definition is_column (v : symbol) : option oid := match v with SNode KColumn o => Some o | _ => None end.

(** *** The row of a column *)
Definition put_row (k : string * string) (r : TableIndex.MibTableRow) (b : builder C) : builder C :=
  mk_builder (mibSymbols b) (dset (mibRows b) k r) (lastBuildId b) (mibCorpus b).
Definition on_row {A} (k : string * string) (m : M exn TableIndex.MibTableRow A) : V A :=
  s ← gets id;
  match dget (mibRows (mibBuilder s)) k with
  | None => raise AttributeError
  | Some r => on_builder (zoom (λ _, r) (put_row k) m)
  end.
Definition row_of (column : oid) : V (string * string) :=
  '(rowModName, rowSymName, _) ← getNodeLocation (arcs (removelast column)) "";
  on_builder (importSymbols rowModName rowSymName);;
  mret (rowModName, rowSymName).

(** [rowNode.getInstIdFromIndices] of arguments that are not yet values *)
Definition getInstIdFromIndices (indices : list part) : M exn TableIndex.MibTableRow oid :=
  r ← gets id;
  TableIndex.getInstIdFromIndices
    (zip_with (λ i p, value_of N (TableIndex.idx_type i) p) (TableIndex.indexNames r) indices).

(** *** [resolveWithMib] *)
Definition do_pending (t : pending) : M exn (view C * pending) unit := fun sp =>
  let act (m : M exn (builder C) unit) : M exn (view C * pending) unit := zoom fst (λ s sp, (s, sp.2)) (on_builder m) in
  let set (f : pending → pending) : M exn (view C * pending) unit := modify (λ sp, (sp.1, f sp.2)) in
  ((match mibSourcesToAdd t with
    | None => mret tt
    | Some l => act (addMibSources L l);;
        set (λ t, mk_pending None (asn1SourcesToAdd t) (asn1SourcesOptions t) (modNamesToLoad t))
    end);;
   (match asn1SourcesToAdd t with
    | None => act (addMibCompiler L None)
    | Some l => act (addMibCompiler L (Some (l, asn1SourcesOptions t)));;
        set (λ t, mk_pending (mibSourcesToAdd t) None [] (modNamesToLoad t))
    end);;
   (match modNamesToLoad t with
    | None => mret tt
    | Some l => act (loadModules L l);;
        set (λ t, mk_pending (mibSourcesToAdd t) (asn1SourcesToAdd t) (asn1SourcesOptions t) None)
    end)) sp.

(** The first or the last node of a module *)
Definition node_of_module (modName : string) (kw : kwargs) : V (node_name * node_name * node_name) :=
  on_builder (load1 modName);;
  if last_ kw then getLastNodeName modName (nodeType kw) else getFirstNodeName modName (nodeType kw).

(** What is known of the place a name resolves to: an index that does not decode is kept
    whole. *)
Definition found (prefix label : node_name) (suffix : oid) (o : oid) : V resolved :=
  '(modName, symName, _) ← getNodeLocation prefix "";
  mibNode ← on_builder (importSymbols modName symName);
  indices ← match is_column mibNode, suffix with
            | _, [] => mret []
            | Some column, _ =>
                row ← row_of column;
                try_except (on_row row (TableIndex.getIndicesFromInstId suffix))
                  (λ e, if is_SmiError e then Some (mret [TableIndex.IOid suffix]) else None)
            | None, _ => mret [TableIndex.IOid suffix]
            end;
  mret (mk_resolved modName symName o label indices mibNode).

(** One argument, of which [ObjectName] made [o], or nothing *)
Definition resolve_one (o : result exn oid) (name : V (node_name * node_name * node_name)) : V resolved :=
  match o with
  | Ok o =>
      '(prefix, label, suffix) ← getNodeNameByOid (arcs o) "";
      suffix ← liftR (from_option_exc TypeError (as_arcs suffix));
      found prefix label suffix o
  | Err e =>
      if is_PyAsn1Error e then
        '(prefix, label, suffix) ← name;
        suffix ← liftR (from_option_exc (SmiError "Unknown object name component") (mapM to_int suffix));
        o ← liftR (objectName N (prefix ++ arcs suffix));
        found prefix label suffix o
      else raise e
  end.

(** A module, a symbol and its indices *)
Definition resolve_symbol (modName symName : string) (indices : list part) (kw : kwargs) : V resolved :=
  '(modName, symName) ←
    (if decide (modName ≠ ""%string ∧ symName ≠ ""%string) then mret (modName, symName)
     else
       '(prefix, _, _) ← (if decide (modName ≠ ""%string) then node_of_module modName kw
                          else getNodeName (Name symName :: indices) "");
       '(modName, symName, _) ← getNodeLocation prefix "";
       mret (modName, symName));
  mibNode ← on_builder (importSymbols modName symName);
  o ← liftR (getName mibNode);
  o ← liftR (objectName N (arcs o));
  '(_, label, _) ← getNodeNameByOid (arcs o) "";
  match is_column mibNode with
  | Some column =>
      row ← row_of column;
      match indices with
      | [] => mret (mk_resolved modName symName o label [] mibNode)
      | _ =>
          try_except
            (instIds ← on_row row (getInstIdFromIndices indices);
             o ← liftR (objectName N (arcs (o ++ instIds)));
             values ← on_row row (TableIndex.getIndicesFromInstId instIds);
             mret (mk_resolved modName symName o label values mibNode))
            (λ e, if is_PyAsn1Error e then Some (raise (SmiError "Instance index to OID conversion failure")) else None)
      end
  | None =>
      match indices with
      | [] => mret (mk_resolved modName symName o label [] mibNode)
      | _ =>
          instId ← liftR (objectName_str N (String.concat "." (text_of <$> indices)));
          o ← liftR (objectName N (arcs (o ++ instId)));
          mret (mk_resolved modName symName o label [TableIndex.IOid instId] mibNode)
      end
  end.

Definition lookup (a : arguments identity) (kw : kwargs) : V resolved :=
  match a with
  | NoArgs => raise IndexError   (* [self.__args[0]], before the arguments are counted *)
  | Parts n => resolve_one (objectName N n) (getNodeName n "")
  | Str s =>
      resolve_one (objectName_str N s)
        (if has_dot s then getNodeNameByOid (words s) "" else node_of_module s kw)
  | Inner j =>
      o ← liftR (getOid j);
      resolve_one (objectName N (arcs o)) (raise TypeError)
  | Symbol modName symName indices => resolve_symbol modName symName indices kw
  end.

(** An identity among the arguments is resolved first. *)
Fixpoint resolveWithMib (i : identity) (s : view C) : result exn unit * (view C * identity) :=
  let '(mk_identity a kw t st) := i in
  let '(r, (s, t)) := do_pending t (s, t) in
  match r, st with
  | Err e, _ => (Err e, (s, mk_identity a kw t st))
  | Ok _, Some _ => (Ok tt, (s, mk_identity a kw t st))
  | Ok _, None =>
      let '(r, s, a) := match a with
                        | Inner j => let '(r, (s, j)) := resolveWithMib j s in (r, s, Inner j)
                        | a => (Ok tt, s, a)
                        end in
      match r with
      | Err e => (Err e, (s, mk_identity a kw t None))
      | Ok _ =>
          match lookup a kw s with
          | (Err e, s) => (Err e, (s, mk_identity a kw t None))
          | (Ok found, s) => (Ok tt, (s, mk_identity a kw t (Some found)))
          end
      end
  end.

Definition quote : string := String (Ascii.ascii_of_nat 34) EmptyString.
(** What is printed of an index: a remainder that stands for indices is a tuple. *)
Definition print_indices : list TableIndex.ival → result exn (list string) :=
  fold_right (λ x l, match x with
                     | TableIndex.IRest _ => Err AttributeError
                     | TableIndex.IStr _ => (λ l, (quote +:+ print_index N x +:+ quote) :: l) <$> l
                     | _ => (λ l, print_index N x :: l) <$> l
                     end) (Ok []).
Definition prettyPrint (i : identity) : result exn string :=
  match clean i with
  | None => Err uninitialised
  | Some r =>
      l ← print_indices (r_indices r);
      mret (r_modName r +:+ "::" +:+ r_symName r +:+ (if decide (r_indices r = []) then "" else ".") +:+
            String.concat "." l)%string
  end.

(** ** Bindings *)

(** What is bound: nothing yet, a value, an object that is no value of pyasn1, or an
    identity *)
Context {X : Type}.
Inductive bound : Type :=
  | UnSpecified
  | Asn1 (v : value)
  | Plain (x : X)
  | Ident (i : identity).
(** [isinstance(value, SimpleAsn1Type)] *)
Definition is_simple (b : bound) : bool := match b with UnSpecified | Asn1 _ => true | _ => false end.
(** An answer that stands in for a value *)
Definition is_special (b : bound) : bool :=
  match b with
  | UnSpecified | Asn1 (VNoSuchObject | VNoSuchInstance | VEndOfMibView) => true
  | _ => false
  end.

(** What a scalar or a column, a symbol of a module, has: [getSyntax().clone(value)] and
    [getUnits() or ""] *)
Record syntaxes : Type := mk_syntaxes {
  clone : string * string → bound → result exn value;
  units : string * string → string;
}.
Context (Y : syntaxes).

Record object_type : Type := mk_object {
  o_identity : identity;
  o_value : bound;
  o_clean : bool;
  o_units : string;
}.
(** [__init__], of an identity *)
Definition ObjectType (i : identity) (v : bound) : object_type := mk_object i v false "".
Definition put_identity (i : identity) (o : object_type) : object_type :=
  mk_object i (o_value o) (o_clean o) (o_units o).
Definition sealed (v : bound) (u : string) (o : object_type) : object_type := mk_object (o_identity o) v true u.
(** [__getitem__] of 0 and 1 *)
Definition getitem_identity (o : object_type) : result exn identity :=
  if o_clean o then Ok (o_identity o) else Err uninitialised.
Definition getitem_value (o : object_type) : result exn bound :=
  if o_clean o then Ok (o_value o) else Err uninitialised.
Definition getUnits (o : object_type) : result exn string :=
  if o_clean o then Ok (o_units o) else Err uninitialised.
Definition object_addMibSource (mibSources : list string) (o : object_type) : object_type :=
  put_identity (addMibSource mibSources (o_identity o)) o.
Definition object_addAsn1MibSource (asn1Sources : list string) (options : dict string string) (o : object_type) :
    object_type :=
  put_identity (addAsn1MibSource asn1Sources options (o_identity o)) o.
Definition object_loadMibs (modNames : list string) (o : object_type) : object_type :=
  put_identity (loadMibs modNames (o_identity o)) o.

(** [isinstance(mibNode, (MibScalar, MibTableColumn))] *)
Definition is_scalar (v : symbol) : bool := match v with SNode (KScalar | KColumn) _ => true | _ => false end.
(** The value as the syntax has it, or as it is; the message of the failure has the name
    of the object. *)
Definition cast (r : resolved) (i : identity) (v : bound) (ignoreValueErrors : bool) : result exn bound :=
  match clone Y (r_modName r, r_symName r) v with
  | Ok v => Ok (Asn1 v)
  | Err e =>
      if is_PyAsn1Error e then
        _ ← prettyPrint i;
        if negb ignoreValueErrors || negb (is_simple v) then Err (SmiError "failed to cast value") else Ok v
      else Err e
  end.
(** An object identifier is shown by its name when it has one. *)
Definition name_value (v : bound) (s : view C) : result exn bound * view C :=
  match v with
  | Asn1 (VOid o) =>
      match resolveWithMib (ObjectIdentity (Parts (arcs o)) no_kwargs) s with
      | (Ok _, (s, j)) => (Ok (Ident j), s)
      | (Err e, (s, _)) => (if is_SmiError e then Ok v else Err e, s)
      end
  | _ => (Ok v, s)
  end.
Definition object_resolve (ignoreErrors : bool) (ignoreValueErrors : option bool) (o : object_type) (s : view C) :
    result exn unit * (view C * object_type) :=
  let ignoreValueErrors := default ignoreErrors ignoreValueErrors in
  if o_clean o then (Ok tt, (s, o))
  else
    let '(r, (s, i)) := resolveWithMib (o_identity o) s in
    let o := put_identity i o in
    match r, clean i with
    | Err e, _ => (Err e, (s, o))
    | Ok _, None => (Err uninitialised, (s, o))
    | Ok _, Some found =>
        if is_scalar (r_mibNode found) then
          let u := units Y (r_modName found, r_symName found) in
          if is_special (o_value o) then (Ok tt, (s, sealed (o_value o) u o))
          else match cast found i (o_value o) ignoreValueErrors with
               | Err e => (Err e, (s, mk_object i (o_value o) false u))
               | Ok v =>
                   match name_value v s with
                   | (Ok v, s) => (Ok tt, (s, sealed v u o))
                   | (Err e, s) => (Err e, (s, mk_object i v false u))
                   end
               end
        else if is_simple (o_value o) then (Ok tt, (s, sealed (o_value o) (o_units o) o))
        else (Err (SmiError "is not OBJECT-TYPE"), (s, o))
    end.

(** ** Notifications *)

(** What is added to a notification: a binding, or what one is made of *)
Inductive added : Type :=
  | Added (o : object_type)
  | Pair (a : arguments identity) (v : bound).

Record notification : Type := mk_notification {
  n_identity : identity;
  n_instanceIndex : list part;
  n_objects : dict (string * string) bound;
  n_varBinds : list object_type;
  n_additional : list added;
  n_clean : bool;
}.
Definition NotificationType (i : identity) (instanceIndex : list part) (objects : dict (string * string) bound) :
    notification :=
  mk_notification i instanceIndex objects [] [] false.
Definition put_n_identity (i : identity) (n : notification) : notification :=
  mk_notification i (n_instanceIndex n) (n_objects n) (n_varBinds n) (n_additional n) (n_clean n).
Definition put_varBinds (l : list object_type) (n : notification) : notification :=
  mk_notification (n_identity n) (n_instanceIndex n) (n_objects n) l (n_additional n) (n_clean n).
Definition put_additional (l : list added) (n : notification) : notification :=
  mk_notification (n_identity n) (n_instanceIndex n) (n_objects n) (n_varBinds n) l (n_clean n).
Definition seal_notification (n : notification) : notification :=
  mk_notification (n_identity n) (n_instanceIndex n) (n_objects n) (n_varBinds n) [] true.
Definition addVarBinds (l : list added) (n : notification) : result exn notification :=
  if n_clean n then Err (SmiError "object is already sealed") else Ok (put_additional (n_additional n ++ l) n).
Definition getitem_binding (n : notification) (i : Z) : result exn object_type :=
  if n_clean n then at_index (n_varBinds n) i else Err uninitialised.

Definition snmpTrapOID : oid := [1; 3; 6; 1; 6; 3; 1; 1; 4; 1; 0].

Section notification.
Context (ignoreErrors : bool) (ignoreValueErrors : bool).
Abbreviation W := (M exn (view C * notification)).

(** A binding that becomes whole; it is lost when it does not. *)
Definition resolve_object (o : object_type) : W object_type := fun sn =>
  let '(r, (s, o)) := object_resolve ignoreErrors (Some ignoreValueErrors) o sn.1 in
  (match r with Ok _ => Ok o | Err e => Err e end, (s, sn.2)).
Definition resolve_identity (i : identity) : W identity := fun sn =>
  let '(r, (s, i)) := resolveWithMib i sn.1 in
  (match r with Ok _ => Ok i | Err e => Err e end, (s, sn.2)).
Definition append (o : object_type) : W unit :=
  modify (λ sn, (sn.1, put_varBinds (n_varBinds sn.2 ++ [o]) sn.2)).
Definition own_identity : W unit := fun sn =>
  let '(r, (s, i)) := resolveWithMib (n_identity sn.2) sn.1 in (r, (s, put_n_identity i sn.2)).

(** The objects of the notification, and where their bindings are *)
Fixpoint expand (objects : list (string * string)) (location : dict oid nat) : W (dict oid nat) :=
  match objects with
  | [] => mret location
  | (modName, symName) :: objects =>
      n ← gets snd;
      i ← resolve_identity (ObjectIdentity (Symbol modName symName (n_instanceIndex n)) no_kwargs);
      o ← resolve_object (ObjectType i (default UnSpecified (dget (n_objects n) (modName, symName))));
      append o;;
      n ← gets snd;
      name ← liftR (getOid i);
      expand objects (dset location name (length (n_varBinds n) - 1)%nat)
  end.

(** The bindings that were added, from the [i]th on *)
Definition place (location : dict oid nat) (o : object_type) : W unit :=
  i ← liftR (getitem_identity o);
  name ← liftR (getOid i);
  match dget location name with
  | Some at_ => modify (λ sn, (sn.1, put_varBinds (<[at_ := o]> (n_varBinds sn.2)) sn.2))
  | None => append o
  end.
(** A binding is made whole where it is. *)
Definition resolve_added (i : nat) (o : object_type) : W object_type := fun sn =>
  let '(r, (s, o)) := object_resolve ignoreErrors (Some ignoreValueErrors) o sn.1 in
  (match r with Ok _ => Ok o | Err e => Err e end,
   (s, put_additional (<[i := Added o]> (n_additional sn.2)) sn.2)).
Fixpoint add_all (location : dict oid nat) (i : nat) (l : list added) : W unit :=
  match l with
  | [] => mret tt
  | a :: l =>
      o ← match a with
          | Added o => resolve_added i o
          | Pair a v => resolve_object (ObjectType (ObjectIdentity a no_kwargs) v)
          end;
      place location o;;
      add_all location (S i) l
  end.

Definition resolve_notification : W unit := fun sn =>
  (if n_clean sn.2 then mret tt
   else
     own_identity;;
     n ← gets snd;
     o ← resolve_object (ObjectType (ObjectIdentity (Parts (arcs snmpTrapOID)) no_kwargs) (Ident (n_identity n)));
     append o;;
     mibNode ← liftR (getMibNode (n_identity n));
     location ← match mibNode with
                | SNode (KNotification objects) _ => expand objects []
                | _ => mret []
                end;
     n ← gets snd;
     add_all location 0 (n_additional n);;
     modify (λ sn, (sn.1, seal_notification sn.2))) sn.
End notification.
Definition notification_resolve (ignoreErrors : bool) (ignoreValueErrors : option bool) (n : notification) (s : view C) :
    result exn unit * (view C * notification) :=
  resolve_notification ignoreErrors (default ignoreErrors ignoreValueErrors) (s, n).

(** ** Variable bindings of an application (hlapi/varbinds.py) *)

(** The MIB view of an engine, over its builder; there is none before it is first used. *)
Inductive engine_mib : Type := NoView (b : builder C) | HasView (s : view C).
Definition getMibViewController (e : engine_mib) : view C :=
  match e with NoView b => View.init b | HasView s => s end.

(** The forms of a binding: an object, an identity and perhaps a value, and anything that
    names an object with a value *)
Inductive binding : Type :=
  | BObject (o : object_type)
  | BIdentity (i : identity) (v : option bound)
  | BName (a : arguments identity) (v : bound).
Definition of_binding (b : binding) : object_type :=
  match b with
  | BObject o => o
  | BIdentity i v => ObjectType i (default UnSpecified v)
  | BName a v => ObjectType (ObjectIdentity a no_kwargs) v
  end.
(** The nested tuple of a module and a symbol, with indices, which a request may have as
    well *)
Record legacy : Type := mk_legacy {
  l_modName : string;
  l_symName : string;
  l_indices : list part;
  l_value : bound;
}.
Definition of_command_binding (b : binding + legacy) : object_type :=
  match b with
  | inl b => of_binding b
  | inr l => ObjectType (ObjectIdentity (Symbol (l_modName l) (l_symName l) (l_indices l)) no_kwargs) (l_value l)
  end.
Fixpoint resolve_all (ignoreErrors : bool) (ignoreValueErrors : option bool) (l : list object_type) :
    V (list object_type) :=
  match l with
  | [] => mret []
  | o :: l =>
      o ← (λ s, let '(r, (s, o)) := object_resolve ignoreErrors ignoreValueErrors o s in
                (match r with Ok _ => Ok o | Err e => Err e end, s));
      l ← resolve_all ignoreErrors ignoreValueErrors l;
      mret (o :: l)
  end.
Definition on_engine {A} (m : V A) (e : engine_mib) : result exn A * engine_mib :=
  let '(r, s) := m (getMibViewController e) in (r, HasView s).

(** [CommandGeneratorVarBinds] *)
Definition makeVarBinds (varBinds : list (binding + legacy)) : engine_mib → result exn (list object_type) * engine_mib :=
  on_engine (resolve_all false None (of_command_binding <$> varBinds)).
Definition unmakeVarBinds (lookupMib : bool) (ignoreValueErrors : option bool) (varBinds : list (oid * bound))
    (e : engine_mib) : result exn (list (oid * bound) + list object_type) * engine_mib :=
  if lookupMib then
    let '(r, e) := on_engine (resolve_all true ignoreValueErrors
                     ((λ x, ObjectType (ObjectIdentity (Parts (arcs x.1)) no_kwargs) x.2) <$> varBinds)) e in
    (inr <$> r, e)
  else (Ok (inl varBinds), e).

(** [NotificationOriginatorVarBinds]: a notification, or a list of bindings *)
Definition makeNotificationVarBinds (varBinds : notification + list binding) :
    engine_mib → result exn (list object_type) * engine_mib :=
  on_engine
    (match varBinds with
     | inl n => λ s,
         let '(r, (s, n)) := notification_resolve false None n s in
         match r with
         | Ok _ => resolve_all false None (n_varBinds n) s
         | Err e => (Err e, s)
         end
     | inr l => resolve_all false None (of_binding <$> l)
     end).
End resolution.
End ObjectId.
