(* ===== verification/ObjectIdSpec.v ===== *)
(** * What object identities promise

    A name in any of its forms resolves to one object, and the identifier it resolves to
    resolves to the same object, label and indices; the bindings of a response keep the
    names the peer sent; a notification has the bindings its definition lists, in order,
    and none that was added is lost. *)
From stdpp Require Import pretty.
From S2P Require Export ViewSpec ObjectId.
Import Text View ViewSpec ObjectId.
#[local] Open Scope Z_scope.

Module ObjectIdSpec.

(** ** Computations that come out the same whenever [P] holds, and keep it *)
Section yields.
Context {S : Type} (P : S → Prop).
Definition yields {A} (m : M exn S A) (r : result exn A) : Prop := ∀ s, P s → ∃ s', m s = (r, s') ∧ P s'.

Lemma yields_ret {A} (a : A) : yields (mret a) (Ok a).
Proof. intros s Hs. by exists s. Qed.
Lemma yields_lift {A} (r : result exn A) : yields (liftR r) r.
Proof. intros s Hs. by exists s. Qed.
Lemma yields_bind {A B} (m : M exn S A) (k : A → M exn S B) a r :
  yields m (Ok a) → yields (k a) r → yields (m ≫= k) r.
Proof.
  intros Hm Hk s Hs. destruct (Hm s Hs) as (s1 & E1 & H1). destruct (Hk s1 H1) as (s2 & E2 & H2).
  exists s2. split; [|done]. unfold mbind, M_bind. by rewrite E1.
Qed.
Lemma yields_bind_err {A B} (m : M exn S A) (k : A → M exn S B) e : yields m (Err e) → yields (m ≫= k) (Err e).
Proof.
  intros Hm s Hs. destruct (Hm s Hs) as (s1 & E1 & H1). exists s1. split; [|done].
  unfold mbind, M_bind. by rewrite E1.
Qed.
Lemma yields_try {A} (m : M exn S A) h a : yields m (Ok a) → yields (try_except m h) (Ok a).
Proof.
  intros Hm s Hs. destruct (Hm s Hs) as (s1 & E1 & H1). exists s1. split; [|done].
  unfold try_except. by rewrite E1.
Qed.
Lemma yields_caught {A} (m : M exn S A) h e k r :
  yields m (Err e) → h e = Some k → yields k r → yields (try_except m h) r.
Proof.
  intros Hm Hh Hk s Hs. destruct (Hm s Hs) as (s1 & E1 & H1). destruct (Hk s1 H1) as (s2 & E2 & H2).
  exists s2. split; [|done]. unfold try_except. by rewrite E1, Hh.
Qed.
Lemma yields_uncaught {A} (m : M exn S A) h e : yields m (Err e) → h e = None → yields (try_except m h) (Err e).
Proof.
  intros Hm Hh s Hs. destruct (Hm s Hs) as (s1 & E1 & H1). exists s1. split; [|done].
  unfold try_except. by rewrite E1, Hh.
Qed.
End yields.

Section settled.
Context {C : Type} `{EqDecision C}.
Context (find_module : C → oid → option string) (L : @loader C) (N : asn1).

(** ** Views of loaded modules *)

(** What the library asks of its surroundings: numbers that are not negative make an
    identifier, what has a name among them does not, and no compiler is at hand. *)
Record lawful : Prop := {
  lw_name o : Forall (λ z, 0 <= z) o → objectName N (arcs o) = Ok o;
  lw_label n : as_arcs n = None → ∃ msg, objectName N n = Err (PyAsn1Error msg);
  lw_compiler b : addMibCompiler L None b = (Ok tt, b);
}.
Context (HL : lawful).

(** A tree without gaps whose names tell the nodes apart, and its rows *)
Context (mibs : dict string symbols) (rows : dict (string * string) (list TableIndex.index)).
Context (idx : dict string module_idx) (Hidx : build mibs = Ok idx).
Context (Hgaps : no_gaps (tree mibs)) (Hnamed : named mibs).

Record ready (s : view C) : Prop := {
  rd_mibs : mibSymbols (mibBuilder s) = mibs;
  rd_corpus : mibCorpus (mibBuilder s) = None;
  rd_current : current s;
  rd_rows k names : dget rows k = Some names →
    ∃ r, dget (mibRows (mibBuilder s)) k = Some r ∧ TableIndex.cached_ok r ∧ TableIndex.indexNames r = names;
}.
Abbreviation known o := (o ∈ dkeys (tree mibs)).
(** No node is further along. *)
Definition longest (p rest : oid) : Prop := ∀ q z, (q ++ [z]) `prefix_of` rest → ¬ known (p ++ q ++ [z]).

Abbreviation load1 := (λ m, loadModules L [m]).
Abbreviation getNodeNameByOid := (View.getNodeNameByOid find_module load1).
Abbreviation getNodeName := (View.getNodeName find_module load1).
Abbreviation getNodeLocation := (View.getNodeLocation find_module load1).

(** What [getNodeNameByOid] makes of a ready view *)
Lemma by_oid_ready nodeName s x : ready s → dget idx ""%string = Some x →
  ∃ s', getNodeNameByOid nodeName "" s =
    (let '(o, label, suffix) := resolve x nodeName in
     if decide (o = label) then Err no_such_object else Ok (o, label, suffix), s') ∧
    ready s' ∧ mibSymbolsIdx s' = idx.
Proof using Hidx.
  intros [Hm Hc Hcur Hr] Hx. rewrite <- Hm in Hidx.
  destruct (getNodeNameByOid_spec find_module load1 s idx x nodeName Hc Hcur Hidx Hx) as (s' & Hs' & Hb & Hi & Hcur').
  exists s'. split; [done|]. split; [|done]. split; rewrite ?Hb; auto.
Qed.
Lemma global_index : ∃ x, dget idx ""%string = Some x ∧ good (tree mibs) x ∧ oidToModIdx x = owners mibs.
Proof using Hidx Hgaps.
  destruct (build_good mibs idx Hidx Hgaps) as (x & Hx & Hgood). exists x. split_and!; [done..|].
  by apply (build_owners mibs idx).
Qed.

Lemma arcs_not_label p : known p → arcs p ≠ long (tree mibs) p.
Proof using Hgaps Hnamed.
  intros Hp Heq. destruct (long_ends _ Hgaps Hnamed p Hp) as (n & Hl & _).
  rewrite Hl in Heq. destruct (snoc_inv p) as (p' & z & ->); [by apply Hgaps|].
  rewrite arcs_snoc in Heq. by apply app_inj_tail in Heq as [_ ?].
Qed.
Lemma by_oid p rest s : ready s → known p → longest p rest →
  ∃ s', getNodeNameByOid (arcs (p ++ rest)) "" s = (Ok (arcs p, long (tree mibs) p, arcs rest), s') ∧
    ready s' ∧ mibSymbolsIdx s' = idx.
Proof using Hidx Hgaps Hnamed.
  intros Hs Hp Hno. destruct global_index as (x & Hx & Hgood & _).
  destruct (by_oid_ready (arcs (p ++ rest)) s x Hs Hx) as (s' & Hs' & Hr & Hi). exists s'. split; [|done].
  rewrite Hs', (resolve_known mibs Hgaps Hnamed x Hgood p rest Hp Hno), decide_False by by apply arcs_not_label. done.
Qed.
Lemma by_label_yields p rest : known p → longest p rest →
  yields ready (getNodeNameByOid (long (tree mibs) p ++ arcs rest) "") (Ok (arcs p, long (tree mibs) p, arcs rest)).
Proof using Hidx Hgaps Hnamed.
  intros Hp Hno s Hs. destruct global_index as (x & Hx & Hgood & _).
  destruct (by_oid_ready (long (tree mibs) p ++ arcs rest) s x Hs Hx) as (s' & Hs' & Hr & Hi). exists s'. split; [|done].
  rewrite Hs', (resolve_label mibs Hgaps Hnamed x Hgood p rest Hp Hno), decide_False by by apply arcs_not_label. done.
Qed.
Lemma by_oid_yields p rest : known p → longest p rest →
  yields ready (getNodeNameByOid (arcs (p ++ rest)) "") (Ok (arcs p, long (tree mibs) p, arcs rest)).
Proof using Hidx Hgaps Hnamed.
  intros Hp Hno s Hs. destruct (by_oid p rest s Hs Hp Hno) as (s' & ? & ? & _). by exists s'.
Qed.

(** ** Nodes and where they are *)

(** The symbol [n] of the module [m] is the node [p] of the tree. *)
Record node (m n : string) (k : node_kind) (p : oid) : Prop := {
  nd_module : m ≠ ""%string;
  nd_label : dget (tree mibs) p = Some [Name n];
  nd_owner : dget (owners mibs) p = Some m;
  nd_symbol : node_at (mk_builder (C:=C) mibs [] 0 None) m n = Some (SNode k p);
}.
Lemma node_known m n k p : node m n k p → known p.
Proof using. intros Hn. by eapply dget_Some_keys, nd_label. Qed.
Lemma longest_nil p : longest p [].
Proof using. intros q z Hq. apply prefix_nil_inv in Hq. by destruct q. Qed.
Lemma node_last_name m n k p : node m n k p → last_name (long (tree mibs) p) = n.
Proof using Hgaps.
  intros Hn. rewrite long_snoc by (apply Hgaps; by eapply node_known). rewrite (nd_label _ _ _ _ Hn).
  unfold last_name. change (default [] (Some [Name n])) with [Name n]. by rewrite last_snoc.
Qed.

Lemma found_location m n k p rest : node m n k p → longest p rest →
  yields ready (getNodeLocation (arcs (p ++ rest)) "") (Ok (m, n, arcs rest)).
Proof using Hidx Hgaps Hnamed.
  intros Hn Hno s Hs. destruct global_index as (x & Hx & Hgood & Hown).
  destruct (by_oid p rest s Hs (node_known _ _ _ _ Hn) Hno) as (s' & Hs' & Hr & Hi).
  exists s'. split; [|done]. unfold View.getNodeLocation, View.getNodeName. munfold.
  rewrite Hs'. cbn beta iota. rewrite Hi, Hx. cbn beta iota. unfold from_option_exc at 1. cbn beta iota.
  rewrite as_arcs_arcs. cbn [mbind option_bind]. rewrite Hown, (nd_owner _ _ _ _ Hn). cbn.
  by rewrite (node_last_name _ _ _ _ Hn).
Qed.
Lemma location_yields m n k p : node m n k p → yields ready (getNodeLocation (arcs p) "") (Ok (m, n, [])).
Proof using Hidx Hgaps Hnamed.
  intros Hn. rewrite <- (app_nil_r p) at 1. by apply (found_location m n k p []), longest_nil.
Qed.
Lemma import_yields m n k p : node m n k p → yields ready (on_builder (importSymbols L m n)) (Ok (SNode k p)).
Proof using.
  intros Hn s Hs. exists s. split; [|done]. pose proof (nd_symbol _ _ _ _ Hn) as Hsym.
  unfold node_at in Hsym. cbn [mibSymbols] in Hsym.
  unfold on_builder, importSymbols. rewrite decide_False by apply Hn. munfold. unfold id, din.
  rewrite (rd_mibs _ Hs). destruct (dget mibs m) as [syms|] eqn:E; [|done]. cbn beta iota.
  rewrite (rd_mibs _ Hs), E. cbn in Hsym. rewrite Hsym. by destruct s as [[]].
Qed.

(** *** Rows *)
Lemma on_row_yields {A} key names (m : M exn TableIndex.MibTableRow A) r : dget rows key = Some names →
  (∀ row, TableIndex.cached_ok row → TableIndex.indexNames row = names →
     ∃ row', m row = (r, row') ∧ TableIndex.cached_ok row' ∧ TableIndex.indexNames row' = names) →
  yields ready (on_row key m) r.
Proof using.
  clear Hidx Hgaps Hnamed. intros Hk Hm s Hs. destruct (rd_rows _ Hs key names Hk) as (row & Hrow & Hok & Hnames).
  destruct (Hm row Hok Hnames) as (row' & Hr & Hok' & Hnames'). destruct Hs as [H1 H2 H3 H4].
  unfold on_row, on_builder. munfold. unfold id. rewrite Hrow. cbn beta iota zeta. rewrite Hr.
  eexists. split; [done|]. split; cbn; auto.
  intros k ns Hns. rewrite dget_dset. case_decide; [|by apply H4]. subst. simplify_eq. eauto.
Qed.
Lemma indices_yields key names instId : dget rows key = Some names →
  yields ready (on_row key (TableIndex.getIndicesFromInstId instId)) (TableIndex.indices_of names instId).
Proof using.
  intros Hk. apply (on_row_yields key names); [done|]. intros row Hok <-. by apply TableIndex.getIndices_spec.
Qed.
(** The values that the syntaxes of the indices make of arguments *)
Definition values (names : list TableIndex.index) (l : list part) : list TableIndex.ival :=
  zip_with (λ i p, value_of N (TableIndex.idx_type i) p) names l.
Lemma instance_yields key names l : dget rows key = Some names →
  yields ready (on_row key (getInstIdFromIndices N l)) (TableIndex.encode names (values names l)).
Proof using.
  intros Hk. apply (on_row_yields key names); [done|]. intros row Hok <-.
  unfold getInstIdFromIndices. munfold. by apply TableIndex.getInstId_spec.
Qed.

(** A column has the node above as its row. *)
Definition has_row (k : node_kind) (p : oid) (names : list TableIndex.index) : Prop :=
  k = KColumn → ∃ m n k', node m n k' (removelast p) ∧ dget rows (m, n) = Some names.
Lemma row_yields m n k p : node m n k (removelast p) → yields ready (row_of find_module L p) (Ok (m, n)).
Proof using Hidx Hgaps Hnamed.
  intros Hn. eapply yields_bind; [by eapply location_yields|]. cbn beta iota.
  eapply yields_bind; [by eapply import_yields|]. apply yields_ret.
Qed.

(** ** The object an identifier names *)

(** The indices at the end of an identifier: those of the row of a column, or all of it
    when they do not decode *)
Definition indices_below (k : node_kind) (names : list TableIndex.index) (rest : oid) : result exn (list TableIndex.ival) :=
  match rest with
  | [] => Ok []
  | _ =>
      if decide (k = KColumn) then
        match TableIndex.indices_of names rest with
        | Err e => if is_SmiError e then Ok [TableIndex.IOid rest] else Err e
        | r => r
        end
      else Ok [TableIndex.IOid rest]
  end.
Lemma is_column_node k p : is_column (SNode k p) = if decide (k = KColumn) then Some p else None.
Proof using. by destruct k. Qed.

Lemma found_yields m n k p names label rest o : node m n k p → has_row k p names →
  yields ready (found find_module L (arcs p) label rest o)
    ((λ vs, mk_resolved m n o label vs (SNode k p)) <$> indices_below k names rest).
Proof using Hidx Hgaps Hnamed.
  intros Hn Hrow. unfold found. eapply yields_bind; [by eapply location_yields|]. cbn beta iota.
  eapply yields_bind; [by eapply import_yields|]. rewrite is_column_node. unfold indices_below.
  assert (Hend : ∀ vs, yields ready (mret (mk_resolved m n o label vs (SNode k p))) (Ok (mk_resolved m n o label vs (SNode k p)))).
  { intros vs. apply yields_ret. }
  destruct rest as [|z rest].
  { eapply yields_bind; [|apply Hend]. destruct (decide _); apply yields_ret. }
  destruct (decide (k = KColumn)) as [Hk|Hk]; [|eapply yields_bind; [apply yields_ret|apply Hend]].
  destruct (Hrow Hk) as (rm & rn & rk & Hnode & Hrows).
  pose proof (indices_yields _ _ (z :: rest) Hrows) as Hidc.
  destruct (TableIndex.indices_of names (z :: rest)) as [vs|e] eqn:E.
  - eapply yields_bind; [|apply Hend]. eapply yields_bind; [by eapply row_yields|]. by apply yields_try.
  - destruct (is_SmiError e) eqn:He.
    + eapply yields_bind; [|apply Hend]. eapply yields_bind; [by eapply row_yields|].
      eapply yields_caught; [done|by rewrite He|apply yields_ret].
    + apply yields_bind_err. eapply yields_bind; [by eapply row_yields|].
      eapply yields_uncaught; [done|by rewrite He].
Qed.

Lemma one_yields m n k p names rest name : node m n k p → has_row k p names → longest p rest →
  yields ready (resolve_one find_module L N (Ok (p ++ rest)) name)
    ((λ vs, mk_resolved m n (p ++ rest) (long (tree mibs) p) vs (SNode k p)) <$> indices_below k names rest).
Proof using Hidx Hgaps Hnamed.
  intros Hn Hrow Hno. eapply yields_bind; [apply by_oid_yields; [by eapply node_known|done]|].
  cbn beta iota. rewrite as_arcs_arcs. eapply yields_bind; [apply yields_lift|]. by apply found_yields.
Qed.

Lemma pending_nothing s : do_pending L nothing (s, nothing) = (Ok tt, (s, nothing)).
Proof using HL.
  unfold do_pending. cbn. unfold on_builder. munfold. rewrite (lw_compiler HL). by destruct s.
Qed.
(** An identity with nothing left to load is what the lookup makes of its arguments. *)
Lemma resolve_fresh a kw s : match a with Inner _ => False | _ => True end →
  resolveWithMib find_module L N (ObjectIdentity a kw) s =
  match lookup find_module L N a kw s with
  | (Err e, s) => (Err e, (s, ObjectIdentity a kw))
  | (Ok r, s) => (Ok tt, (s, mk_identity a kw nothing (Some r)))
  end.
Proof using HL.
  intros Ha. unfold ObjectIdentity. destruct a; [..|done|]; cbn [resolveWithMib];
    rewrite pending_nothing; by destruct (lookup _ _ _ _ _ s) as [[] ?].
Qed.

(** C33. An identifier that starts with a node of the loaded modules, of the youngest
    module that defines it, and goes no further along the tree resolves to the symbol of
    that node, in its module, with the names along the path; what follows is taken for
    the indices of a column, and is kept whole as one index when the decoding fails with
    an [SmiError] (or the node is no column).  Another failure of the decoding, such as
    the [ValueError] of a sub-identifier that is no octet, is raised and leaves the
    identity as it was.  The tree has no gaps, its nodes are named apart, and neither a
    corpus nor a compiler is attached. *)
Theorem oid_resolves s m n k p names rest : ready s → node m n k p → has_row k p names → longest p rest →
  Forall (λ z, 0 <= z) (p ++ rest) →
  let i := ObjectIdentity (Parts (arcs (p ++ rest))) no_kwargs in
  ∃ s', ready s' ∧ resolveWithMib find_module L N i s =
    match indices_below k names rest with
    | Ok vs => (Ok tt, (s', mk_identity (args i) no_kwargs nothing
                 (Some (mk_resolved m n (p ++ rest) (long (tree mibs) p) vs (SNode k p)))))
    | Err e => (Err e, (s', i))
    end.
Proof using HL Hidx Hgaps Hnamed.
  intros Hs Hn Hrow Hno Hpos i. unfold i. rewrite resolve_fresh by done.
  unfold lookup. rewrite (lw_name HL) by done.
  destruct (one_yields m n k p names rest (getNodeName (arcs (p ++ rest)) "") Hn Hrow Hno s Hs) as (s' & -> & Hs').
  exists s'. split; [done|]. by destruct (indices_below k names rest).
Qed.

(** ** The forms of a name *)

(** The arguments that stand for an instance: none for the object itself, the values of
    the INDEX clause for a column, and sub-identifiers for any other node *)
Inductive instance_of (k : node_kind) (names : list TableIndex.index) : list part → oid → list TableIndex.ival → Prop :=
  | of_none : instance_of k names [] [] []
  | of_column l inst : k = KColumn → l ≠ [] → TableIndex.valid_indices names (values names l) →
      TableIndex.encode names (values names l) = Ok inst → instance_of k names l inst (values names l)
  | of_other l inst : k ≠ KColumn → l ≠ [] → inst ≠ [] →
      objectName_str N (String.concat "." (text_of <$> l)) = Ok inst →
      instance_of k names l inst [TableIndex.IOid inst].

Lemma encode_nil names vs : TableIndex.valid_indices names vs → TableIndex.encode names vs = Ok [] → vs = [].
Proof using.
  destruct names as [|i names], vs as [|v vs]; [done..|]. intros [Hv _] He. exfalso.
  destruct (TableIndex.setFromName_getAsName _ i v [] Hv (λ _, eq_refl)) as (nm & Hn & Hs).
  destruct Hv as [Hc _]. cbn in He. munfold. rewrite Hc, Hn in He. destruct (TableIndex.encode names vs); [|done].
  injection He as He. apply app_eq_nil in He as [-> _]. done.
Qed.
Lemma decode_instance names vs inst : TableIndex.valid_indices names vs → TableIndex.encode names vs = Ok inst →
  TableIndex.indices_of names inst = Ok vs.
Proof using.
  intros Hv He. destruct (TableIndex.decode_encode names vs Hv) as (i & Hi & Hd). rewrite He in Hi. injection Hi as <-.
  unfold TableIndex.indices_of. by rewrite Hd.
Qed.
Lemma instance_indices k names l inst vs : instance_of k names l inst vs → indices_below k names inst = Ok vs.
Proof using.
  intros [|l' i Hk Hl Hv He|l' i Hk Hl Hi Hs]; [done|..]; unfold indices_below.
  - destruct i as [|z i]; [by rewrite (encode_nil _ _ Hv He)|]. rewrite decide_True by done.
    by rewrite (decode_instance _ _ _ Hv He).
  - destruct i; [done|]. by rewrite decide_False.
Qed.

Lemma symbol_yields m n k p names l inst vs kw : node m n k p → has_row k p names → n ≠ ""%string →
  instance_of k names l inst vs → Forall (λ z, 0 <= z) (p ++ inst) →
  yields ready (resolve_symbol find_module L N m n l kw)
    (Ok (mk_resolved m n (p ++ inst) (long (tree mibs) p) vs (SNode k p))).
Proof using HL Hidx Hgaps Hnamed.
  intros Hn Hrow Hne Hi Hpos. destruct (proj1 (Forall_app _ _ _) Hpos) as [Hp _].
  unfold resolve_symbol. rewrite decide_True by (split; [apply Hn|done]).
  eapply yields_bind; [apply yields_ret|]. cbn beta iota. eapply yields_bind; [by eapply import_yields|].
  eapply yields_bind; [apply yields_lift|]. rewrite (lw_name HL) by done. eapply yields_bind; [apply yields_lift|].
  eapply yields_bind.
  { rewrite <- (app_nil_r p) at 1. apply by_oid_yields; [by eapply node_known|apply longest_nil]. }
  cbn beta iota. rewrite is_column_node. destruct Hi as [|l i Hk Hl Hv He|l i Hk Hl Hne' Hs].
  - rewrite app_nil_r. destruct (decide _) as [Hk|Hk]; [|apply yields_ret].
    destruct (Hrow Hk) as (rm & rn & rk & Hnode & Hrows). eapply yields_bind; [by eapply row_yields|apply yields_ret].
  - rewrite decide_True by done. destruct (Hrow Hk) as (rm & rn & rk & Hnode & Hrows).
    eapply yields_bind; [by eapply row_yields|]. destruct l as [|a l]; [done|].
    pose proof (instance_yields _ _ (a :: l) Hrows) as Hinst. rewrite He in Hinst.
    pose proof (indices_yields _ _ i Hrows) as Hback. rewrite (decode_instance _ _ _ Hv He) in Hback.
    apply yields_try. eapply yields_bind; [done|]. rewrite (lw_name HL) by done.
    eapply yields_bind; [apply yields_lift|]. eapply yields_bind; [done|]. apply yields_ret.
  - rewrite decide_False by done. destruct l as [|a l]; [done|]. rewrite Hs.
    eapply yields_bind; [apply yields_lift|]. rewrite (lw_name HL) by done.
    eapply yields_bind; [apply yields_lift|]. apply yields_ret.
Qed.

Lemma to_int_arcs o : mapM to_int (arcs o) = Some o.
Proof using. induction o as [|z o IH]; [done|]. cbn. fold (arcs o). by rewrite IH. Qed.
Lemma label_yields m n k p names rest : node m n k p → has_row k p names → longest p rest →
  Forall (λ z, 0 <= z) (p ++ rest) →
  yields ready (lookup find_module L N (Parts (long (tree mibs) p ++ arcs rest)) no_kwargs)
    ((λ vs, mk_resolved m n (p ++ rest) (long (tree mibs) p) vs (SNode k p)) <$> indices_below k names rest).
Proof using HL Hidx Hgaps Hnamed.
  intros Hn Hrow Hno Hpos. pose proof (node_known _ _ _ _ Hn) as Hk. unfold lookup.
  destruct (long_ends _ Hgaps Hnamed p Hk) as (x & Hl & _).
  destruct (lw_label HL (long (tree mibs) p ++ arcs rest)) as [msg ->].
  { rewrite Hl, <- app_assoc. apply as_arcs_name. }
  unfold resolve_one. cbn [is_PyAsn1Error].
  eapply yields_bind; [apply yields_try; by apply by_label_yields|]. cbn beta iota.
  rewrite to_int_arcs. eapply yields_bind; [apply yields_lift|]. rewrite <- arcs_app, (lw_name HL) by done.
  eapply yields_bind; [apply yields_lift|]. by apply found_yields.
Qed.

(** C34. For a symbol of the youngest module that defines its identifier, in a tree
    without gaps whose nodes are named apart, with no corpus or compiler attached: the
    module, the symbol and index values resolve to the identifier of the object with
    that of the instance after it; this identifier, and the label of the object with the
    instance after it, resolve back to the same module, symbol, label and index values,
    whatever was resolved before. *)
Theorem names_agree s m n k p names l inst vs : ready s → node m n k p → has_row k p names → n ≠ ""%string →
  instance_of k names l inst vs → longest p inst → Forall (λ z, 0 <= z) (p ++ inst) →
  let r := mk_resolved m n (p ++ inst) (long (tree mibs) p) vs (SNode k p) in
  let resolves a := ∃ s', ready s' ∧ resolveWithMib find_module L N (ObjectIdentity a no_kwargs) s =
                      (Ok tt, (s', mk_identity a no_kwargs nothing (Some r))) in
  resolves (Symbol m n l) ∧ resolves (Parts (arcs (r_oid r))) ∧
  resolves (Parts (long (tree mibs) p ++ arcs inst)).
Proof using HL Hidx Hgaps Hnamed.
  intros Hs Hn Hrow Hne Hi Hno Hpos r resolves. pose proof (instance_indices _ _ _ _ _ Hi) as Hvs.
  assert (Hlook : ∀ a, match a with Inner _ => False | _ => True end →
    yields ready (lookup find_module L N a no_kwargs) (Ok r) → resolves a).
  { intros a Ha Hy. destruct (Hy s Hs) as (s' & E & Hs'). exists s'. split; [done|]. by rewrite resolve_fresh, E. }
  split_and!; apply Hlook; try done.
  - by eapply symbol_yields.
  - cbn [lookup r_oid r]. rewrite (lw_name HL) by done.
    pose proof (one_yields m n k p names inst (getNodeName (arcs (p ++ inst)) "") Hn Hrow Hno) as Hy.
    by rewrite Hvs in Hy.
  - pose proof (label_yields m n k p names inst Hn Hrow Hno Hpos) as Hy. by rewrite Hvs in Hy.
Qed.
End settled.

(** ** A concrete table *)
Definition demo_asn1 : asn1 :=
  mk_asn1
    (λ n, match as_arcs n with
          | Some o => if forallb (Z.leb 0) o then Ok o else Err (PyAsn1Error "negative")
          | None => Err (PyAsn1Error "not numbers")
          end)
    (λ s, match mapM (int_of 10) (split dot (codes s)) with
          | Some o => Ok o | None => Err (PyAsn1Error "not numbers") end)
    (λ t p, match t, p with
            | TableIndex.SInteger, Arc z => TableIndex.IInt z
            | TableIndex.SOctetString _, Name s => TableIndex.IStr (codes s)
            | TableIndex.SIpAddress, Name s => TableIndex.IIpAddress (default [] (mapM (int_of 10) (split dot (codes s))))
            | _, _ => TableIndex.IRest []
            end)
    (λ v, match v with
          | TableIndex.IInt z => pretty z
          | TableIndex.IStr s => string_of s
          | TableIndex.IIpAddress s => TableIndex.dotted s
          | TableIndex.IOid o | TableIndex.IRest o => TableIndex.dotted o
          end).
Definition demo_loader : @loader unit :=
  mk_loader (λ _, mret tt) (λ _, mret tt) (λ _, mret tt).
Definition no_module (c : unit) (o : oid) : option string := None.
(** A table indexed by a string and a number *)
Definition demo_names : list TableIndex.index :=
  [TableIndex.mk_index false (TableIndex.SOctetString None) TableIndex.any_value;
   TableIndex.mk_index false TableIndex.SInteger TableIndex.any_value].
Definition if_entry : string * string := ("IF-MIB", "ifEntry")%string.
Definition table_view : view unit :=
  View.init (mk_builder demo_mibs [(if_entry, TableIndex.init demo_names)] 3 None).

Lemma table_lawful : lawful demo_loader demo_asn1.
Proof.
  split; [|intros n Hn; by exists "not numbers"%string; cbn; rewrite Hn|done].
  intros o Ho. cbn. rewrite as_arcs_arcs. rewrite (proj2 (forallb_forall _ _)); [done|].
  intros z Hz. rewrite Forall_forall in Ho. apply Z.leb_le, Ho. by apply list_elem_of_In.
Qed.
Lemma table_ready : ready demo_mibs [(if_entry, demo_names)] table_view.
Proof.
  split; [done|done|by intros [=]|]. intros k names Hk.
  apply dget_elem_of, list_elem_of_singleton in Hk as [= -> ->]. exists (TableIndex.init demo_names). split; [done|].
  split; [apply TableIndex.row_init_ok|done].
Qed.
Lemma table_built : build demo_mibs = Ok demo_index.
Proof. vm_compute. reflexivity. Qed.
Lemma table_column : node (C:=unit) demo_mibs "IF-MIB" "ifDescr" KColumn [1; 3; 6; 1; 2].
Proof. by split; vm_compute. Qed.
Lemma table_row : has_row (C:=unit) demo_mibs [(if_entry, demo_names)] KColumn [1; 3; 6; 1; 2] demo_names.
Proof. intros _. exists "IF-MIB"%string, "ifEntry"%string, KRow. split; [by split; vm_compute|by vm_compute]. Qed.
(** The column has no node below. *)
Lemma table_leaf rest : longest demo_mibs [1; 3; 6; 1; 2] rest.
Proof.
  intros q z _ Hk. assert (Hall : forallb (λ o, (length o <=? 5)%nat) (dkeys (tree demo_mibs)) = true) by (vm_compute; reflexivity).
  rewrite forallb_forall in Hall. specialize (Hall _ (proj1 (list_elem_of_In _ _) Hk)).
  apply Nat.leb_le in Hall. rewrite !length_app in Hall. cbn in Hall. lia.
Qed.

Lemma oid_resolves_witness : ∃ s', ready demo_mibs [(if_entry, demo_names)] s' ∧
  resolveWithMib no_module demo_loader demo_asn1 (ObjectIdentity (Parts (arcs [1; 3; 6; 1; 2; 1; 97; 7])) no_kwargs) table_view =
  (Ok tt, (s', mk_identity (Parts (arcs [1; 3; 6; 1; 2; 1; 97; 7])) no_kwargs nothing
     (Some (mk_resolved "IF-MIB" "ifDescr" [1; 3; 6; 1; 2; 1; 97; 7] (long (tree demo_mibs) [1; 3; 6; 1; 2])
        [TableIndex.IStr [97]; TableIndex.IInt 7] (SNode KColumn [1; 3; 6; 1; 2]))))).
Proof.
  pose proof (oid_resolves no_module demo_loader demo_asn1 table_lawful demo_mibs [(if_entry, demo_names)] demo_index
    table_built demo_no_gaps demo_named table_view "IF-MIB" "ifDescr" KColumn [1; 3; 6; 1; 2] demo_names [1; 97; 7]
    table_ready table_column table_row (table_leaf _)) as H.
  assert (Hvs : indices_below KColumn demo_names [1; 97; 7] = Ok [TableIndex.IStr [97]; TableIndex.IInt 7]) by (vm_compute; reflexivity).
  rewrite Hvs in H. apply H. repeat constructor; lia.
Defined.

Lemma names_agree_witness :
  let r := mk_resolved "IF-MIB" "ifDescr" [1; 3; 6; 1; 2; 2; 97; 98; 7] (long (tree demo_mibs) [1; 3; 6; 1; 2])
             [TableIndex.IStr [97; 98]; TableIndex.IInt 7] (SNode KColumn [1; 3; 6; 1; 2]) in
  ∃ s', resolveWithMib no_module demo_loader demo_asn1
      (ObjectIdentity (Symbol "IF-MIB" "ifDescr" [Name "ab"; Arc 7]) no_kwargs) table_view =
    (Ok tt, (s', mk_identity (Symbol "IF-MIB" "ifDescr" [Name "ab"; Arc 7]) no_kwargs nothing (Some r))).
Proof.
  intros r.
  assert (Hi : instance_of demo_asn1 KColumn demo_names [Name "ab"; Arc 7] [2; 97; 98; 7] [TableIndex.IStr [97; 98]; TableIndex.IInt 7]).
  { apply (of_column demo_asn1 KColumn demo_names [Name "ab"; Arc 7] [2; 97; 98; 7]); [done..| |by vm_compute].
    cbn. unfold TableIndex.valid, is_octets, is_octet. cbn.
    repeat match goal with
      | |- _ ∧ _ => split | |- ∀ _, _ => intros ? | |- Forall _ _ => constructor
      end; done || lia. }
  destruct (names_agree no_module demo_loader demo_asn1 table_lawful demo_mibs [(if_entry, demo_names)] demo_index
    table_built demo_no_gaps demo_named table_view "IF-MIB" "ifDescr" KColumn [1; 3; 6; 1; 2] demo_names
    [Name "ab"; Arc 7] [2; 97; 98; 7] [TableIndex.IStr [97; 98]; TableIndex.IInt 7]
    table_ready table_column table_row) as [(s' & _ & Hs') _]; [done|exact Hi|apply table_leaf|repeat constructor; lia|].
  exists s'. exact Hs'.
Defined.

(** ** What does not resolve, or is not printed *)
Abbreviation resolved_indices o :=
  (let '(r, (_, i)) := resolveWithMib no_module demo_loader demo_asn1 (ObjectIdentity (Parts (arcs ([1; 3; 6; 1; 2] ++ o))) no_kwargs) table_view in
   (r, r_indices <$> clean i, prettyPrint demo_asn1 i)).

(** Sub-identifiers too many leave the index whole, and printed; too few leave a remainder
    that is no value of pyasn1, and printing the identity raises; one that is no octet
    raises out of the resolution. *)
Example excess_is_kept_whole : resolved_indices [1; 97; 7; 9] =
  (Ok tt, Some [TableIndex.IOid [1; 97; 7; 9]], Ok "IF-MIB::ifDescr.1.97.7.9"%string).
Proof. vm_compute. reflexivity. Qed.
Example short_is_not_printed : resolved_indices [1; 97] = (Ok tt, Some [TableIndex.IRest []], Err AttributeError).
Proof. vm_compute. reflexivity. Qed.
Example wide_escapes : resolved_indices [1; 300; 7] = (Err ValueError, None, Err uninitialised).
Proof. vm_compute. reflexivity. Qed.

(** An identity of nothing raises IndexError, before the error made for it. *)
Example nothing_to_name :
  (resolveWithMib no_module demo_loader demo_asn1 (ObjectIdentity NoArgs no_kwargs) table_view).1 = Err IndexError.
Proof. vm_compute. reflexivity. Qed.
End ObjectIdSpec.
