(* ===== verification/BindingSpec.v ===== *)
(** * What bindings and notifications promise

    The bindings of a response keep the names and the values the peer sent, whatever the
    view makes of them.  A notification has the binding of its own name, one for each
    object its definition lists, and those that were added, of which none is lost. *)
From S2P Require Export ObjectIdSpec.
Import Text View ViewSpec ObjectId ObjectIdSpec.
#[local] Open Scope Z_scope.

Module BindingSpec.

Lemma bind_inv {E S A B} (m : M E S A) (k : A → M E S B) s r s' : (m ≫= k) s = (Ok r, s') →
  ∃ a s1, m s = (Ok a, s1) ∧ k a s1 = (Ok r, s').
Proof. unfold mbind, M_bind. destruct (m s) as [[a|e] s1]; [by eauto|done]. Qed.
Lemma lift_inv {E S A} (r : result E A) (s s' : S) a : liftR r s = (Ok a, s') → r = Ok a ∧ s' = s.
Proof. unfold liftR. by intros [= -> ->]. Qed.

Lemma try_inv {E S A} (m : M E S A) h s a s' : try_except m h s = (Ok a, s') →
  m s = (Ok a, s') ∨ ∃ e s1 k, m s = (Err e, s1) ∧ h e = Some k ∧ k s1 = (Ok a, s').
Proof.
  unfold try_except. destruct (m s) as [[b|e] s1]; [by left|]. right. exists e, s1.
  destruct (h e) as [k|]; [by exists k|done].
Qed.

(** Take the successful steps of a sequence apart. *)
Ltac steps :=
  repeat match goal with
    | H : (_ ≫= _) _ = (Ok _, _) |- _ =>
        let a := fresh "a" in let s := fresh "s" in let E := fresh "E" in
        apply bind_inv in H as (a & s & E & H); cbn beta iota in H
    | H : liftR _ _ = (Ok _, _) |- _ => apply lift_inv in H as [H ->]
    | H : mret _ _ = (Ok _, _) |- _ => unfold mret, M_ret in H; injection H as H ?
    | H : raise _ _ = (Ok _, _) |- _ => done
    | H : gets _ _ = (Ok _, _) |- _ => unfold gets in H; injection H as H ?
    | H : modify _ _ = (Ok _, _) |- _ => unfold modify in H; injection H as H
    | a : (_ * _)%type |- _ => destruct a; cbn beta iota in *
    end; subst.

Section bindings.
Context {C : Type} `{EqDecision C} {X : Type}.
Context (find_module : C → oid → option string) (L : @loader C) (N : asn1) (Y : syntaxes (X:=X)).
Abbreviation resolveWithMib := (ObjectId.resolveWithMib find_module L N).
Abbreviation object_resolve := (ObjectId.object_resolve find_module L N Y).

(** Numbers that pyasn1 takes for an identifier *)
Definition accepted (o : oid) : Prop := objectName N (arcs o) = Ok o.

(** ** Names *)
Definition name_of (o : object_type (X:=X)) : option oid := r_oid <$> clean (o_identity o).

Lemma found_oid prefix label suffix o s r s' : found find_module L prefix label suffix o s = (Ok r, s') → r_oid r = o.
Proof using. unfold found. intros Hf. steps. done. Qed.

(** What an identity is to name: what it was resolved to, or the numbers it was made of *)
Definition names (i : identity) (o : oid) : Prop :=
  match clean i with Some r => r_oid r = o | None => args i = Parts (arcs o) end.

Lemma lookup_parts o kw s r s' : lookup find_module L N (Parts (arcs o)) kw s = (Ok r, s') →
  accepted o → r_oid r = o.
Proof using.
  unfold lookup. intros Hl Ho. rewrite Ho in Hl. unfold resolve_one in Hl. steps. by eapply found_oid.
Qed.

(** A resolved identity is clean; what it was clean with does not change. *)
Lemma resolve_clean i s s' i' : resolveWithMib i s = (Ok tt, (s', i')) →
  (∃ r, clean i' = Some r) ∧ (∀ r, clean i = Some r → clean i' = Some r).
Proof using.
  destruct i as [a kw t st]. cbn. destruct (do_pending L t (s, t)) as [[[]|] [s1 t1]]; [|done].
  destruct st as [r|]; [intros [= <- <-]; cbn; by eauto|].
  destruct (match a with Inner j => _ | _ => _ end) as [[[[]|] s2] a2]; [|done].
  destruct (lookup _ _ _ _ _ s2) as [[r|] s3]; [|done]. intros [= <- <-]. split; [by eexists|done].
Qed.
Lemma resolve_names i o s s' i' : names i o → (clean i = None → accepted o) →
  resolveWithMib i s = (Ok tt, (s', i')) → ∃ r, clean i' = Some r ∧ r_oid r = o.
Proof using.
  intros Hi Ho Hr. unfold names in Hi. destruct (clean i) as [r|] eqn:Hc.
  { destruct (resolve_clean _ _ _ _ Hr) as [_ Hk]. exists r. split; [by apply Hk|done]. }
  destruct i as [a kw t st]. cbn in Hi, Hc, Hr. subst.
  destruct (do_pending L t (s, t)) as [[[]|] [s1 t1]]; [|done]. cbn beta iota in Hr.
  destruct (lookup _ _ _ _ _ s1) as [[r|] s3] eqn:E; [|done]. injection Hr as <- <-.
  exists r. split; [done|]. eapply lookup_parts; [exact E|by apply Ho].
Qed.
Lemma resolve_parts o kw s s' j : resolveWithMib (ObjectIdentity (Parts (arcs o)) kw) s = (Ok tt, (s', j)) →
  ∀ r, clean j = Some r → accepted o → r_oid r = o.
Proof using.
  intros Hr r Hc Ho. destruct (resolve_names _ o _ _ _ (eq_refl : names (ObjectIdentity _ kw) o) (λ _, Ho) Hr) as (r' & Hc' & <-).
  by rewrite Hc in Hc'; injection Hc' as ->.
Qed.

(** ** Values *)

(** A value is there as it is, or, an identifier, as an identity of it. *)
Definition shown (w : value) (v' : bound (X:=X)) : Prop :=
  v' = Asn1 w ∨ ∃ o j r, w = VOid o ∧ v' = Ident j ∧ clean j = Some r ∧ (accepted o → r_oid r = o).
(** What becomes of a value [v] bound to an object: nothing where there is no syntax, or no
    value; what its syntax makes of it; what it was when that fails and may fail *)
Definition carried (tolerant : bool) (r : resolved) (v v' : bound (X:=X)) : Prop :=
  if negb (is_scalar (r_mibNode r)) || is_special v then v' = v
  else match clone Y (r_modName r, r_symName r) v with
       | Ok w => shown w v'
       | Err _ => tolerant = true ∧ ∃ w, v = Asn1 w ∧ shown w v'
       end.
(** A binding made whole: its name, and its value *)
Record answered (tolerant : bool) (name : oid) (v : bound) (o : object_type) : Prop := {
  an_clean : o_clean o = true;
  an_name : ∃ r, clean (o_identity o) = Some r ∧ (accepted name → r_oid r = name) ∧ carried tolerant r v (o_value o);
}.

Lemma name_value_shown w v' s s' : name_value find_module L N (Asn1 w) s = (Ok v', s') → shown w v'.
Proof using.
  unfold name_value. destruct w; try (intros [= <- <-]; by left).
  destruct (resolveWithMib _ s) as [[[]|e] [s1 j]] eqn:E.
  - intros [= <- <-]. right. destruct (resolve_clean _ _ _ _ E) as [[r Hr] _].
    eexists _, j, r. split_and!; [done..|]. by eapply resolve_parts.
  - destruct (is_SmiError e); [|done]. intros [= <- <-]. by left.
Qed.
Lemma name_value_same v v' s s' : is_simple v = true → is_special v = false →
  name_value find_module L N v s = (Ok v', s') → ∃ w, v = Asn1 w ∧ shown w v'.
Proof using.
  intros Hv Hs. destruct v as [|w|x|i]; [done| |done..]. intros Hn. exists w. split; [done|].
  by eapply name_value_shown.
Qed.

Lemma object_answered ie ive o name s s' o' : o_clean o = false → names (o_identity o) name →
  object_resolve ie ive o s = (Ok tt, (s', o')) →
  answered (default ie ive) name (o_value o) o'.
Proof using.
  intros Hcl Hname Hr. unfold ObjectId.object_resolve in Hr. rewrite Hcl in Hr.
  destruct (resolveWithMib (o_identity o) s) as [[[]|] [s1 i]] eqn:E; [|by destruct (clean i)].
  destruct (resolve_clean _ _ _ _ E) as [[r Hc] Hkeep]. rewrite Hc in Hr.
  assert (Hoid : accepted name → r_oid r = name).
  { intros Ha. destruct (resolve_names _ name _ _ _ Hname (λ _, Ha) E) as (r' & Hc' & <-). congruence. }
  assert (Hseal : ∀ v u, carried (default ie ive) r (o_value o) v → o' = sealed v u (put_identity i o) →
    answered (default ie ive) name (o_value o) o').
  { intros v u Hv ->. split; [done|]. exists r. by rewrite <- Hc. }
  change (o_value (put_identity i o)) with (o_value o) in Hr. unfold carried in Hseal. destruct (is_scalar (r_mibNode r)); cbn [negb orb] in Hseal.
  2:{ destruct (is_simple (o_value o)); [|done]. injection Hr as _ <-. by eapply Hseal. }
  destruct (is_special (o_value o)) eqn:Hsp; [injection Hr as _ <-; by eapply Hseal|].
  unfold cast in Hr. destruct (clone Y _ (o_value o)) as [w|e] eqn:Ecl.
  - destruct (name_value _ _ _ (Asn1 w) s1) as [[v'|] s2] eqn:Ev; [|done].
    injection Hr as _ <-. eapply Hseal; [by eapply name_value_shown|done].
  - destruct (is_PyAsn1Error e); [|done]. munfold. destruct (prettyPrint N i) as [?|]; [|done].
    destruct (negb _ || negb _) eqn:Hflag; [done|].
    apply orb_false_iff in Hflag as [Hive%negb_false_iff Hsim%negb_false_iff].
    destruct (name_value _ _ _ (o_value o) s1) as [[v'|] s2] eqn:Ev; [|done]. injection Hr as _ <-.
    eapply Hseal; [split; [done|]; by eapply name_value_same|done].
Qed.

(** An object is sealed with its identity resolved. *)
Lemma object_identity ie ive o s s' o' : object_resolve ie ive o s = (Ok tt, (s', o')) →
  o_clean o' = true ∧ (o_clean o = false → is_Some (name_of o')) ∧
  ∀ r, clean (o_identity o) = Some r → clean (o_identity o') = Some r.
Proof using.
  intros Hr. unfold ObjectId.object_resolve in Hr. destruct (o_clean o) eqn:Hcl; [by injection Hr as <- <-|].
  destruct (resolveWithMib (o_identity o) s) as [[[]|] [s1 i]] eqn:E; [|by destruct (clean i)].
  destruct (resolve_clean _ _ _ _ E) as [[r Hc] Hkeep]. rewrite Hc in Hr.
  assert (Hseal : ∀ v u, o' = sealed v u (put_identity i o) → o_clean o' = true ∧
    (false = false → is_Some (name_of o')) ∧ ∀ r, clean (o_identity o) = Some r → clean (o_identity o') = Some r).
  { intros v u ->. split_and!; [done| |done]. intros _. unfold name_of. cbn. by rewrite Hc. }
  destruct (is_scalar _).
  - destruct (is_special _); [injection Hr as _ <-; by eapply Hseal|].
    destruct (cast _ _ _ _ _ _) as [v|]; [|done].
    destruct (name_value _ _ _ v s1) as [[v'|] s2]; [|done]. injection Hr as _ <-. by eapply Hseal.
  - destruct (is_simple _); [|done]. injection Hr as _ <-. by eapply Hseal.
Qed.

(** ** The bindings of a response *)
Lemma resolve_all_answered ie ive l s l' s' :
  resolve_all find_module L N Y ie ive ((λ x, ObjectType (ObjectIdentity (Parts (arcs x.1)) no_kwargs) x.2) <$> l) s = (Ok l', s') →
  Forall2 (λ x o, answered (default ie ive) x.1 x.2 o) l l'.
Proof using.
  revert s l'. induction l as [|[name v] l IH]; intros s l' Hl; cbn [fmap list_fmap resolve_all] in Hl.
  { steps. constructor. }
  apply bind_inv in Hl as (o & s1 & Ho & Hl). apply bind_inv in Hl as (l1 & s2 & Hl1 & Hl).
  cbn [fst snd] in Ho. destruct (object_resolve ie ive _ s) as [[[]|] [s3 o3]] eqn:E; [|done].
  injection Ho as <- <-. unfold mret, M_ret in Hl. injection Hl as <- <-. constructor; [|by eapply IH].
  by eapply (object_answered ie ive _ name s s3 o3) in E.
Qed.

(** C35. Whatever modules are loaded, and whatever the loading of others does: when the
    bindings of a response are resolved, there is one object for each, in order, clean,
    with the name the peer sent and its value, as it was or as the syntax of the object has
    it; a value the syntax refuses is only there where this was to be tolerated. *)
Theorem answers_keep_their_names ive varBinds e l e' :
  unmakeVarBinds find_module L N Y true ive varBinds e = (Ok (inr l), e') →
  Forall2 (λ x o, answered (default true ive) x.1 x.2 o) varBinds l.
Proof using.
  unfold unmakeVarBinds, on_engine.
  destruct (resolve_all _ _ _ _ true ive _ (getMibViewController e)) as [[l'|] s'] eqn:E; [|done].
  intros [= <- _]. by eapply resolve_all_answered.
Qed.

(** ** Notifications *)

(** The objects of a definition become bindings, in order. *)
Definition listed (tolerant : bool) (objects : dict (string * string) (bound (X:=X))) (ms : string * string) (o : object_type) : Prop :=
  o_clean o = true ∧ ∃ r, clean (o_identity o) = Some r ∧
    (ms.1 ≠ ""%string → ms.2 ≠ ""%string → r_modName r = ms.1 ∧ r_symName r = ms.2) ∧
    carried tolerant r (default UnSpecified (dget objects ms)) (o_value o).
(** Where they are: the place of a name is that of the last object with it. *)
Fixpoint locate (k : nat) (objs : list object_type) (location : dict oid nat) : dict oid nat :=
  match objs with
  | [] => location
  | o :: objs => locate (S k) objs (match name_of o with Some nm => dset location nm k | None => location end)
  end.

Section notification.
Context (ie ive : bool).
Abbreviation W := (M exn (view C * notification (X:=X))).

Lemma resolve_symbol_names m n l kw s s' i : resolveWithMib (ObjectIdentity (Symbol m n l) kw) s = (Ok tt, (s', i)) →
  m ≠ ""%string → n ≠ ""%string → ∀ r, clean i = Some r → r_modName r = m ∧ r_symName r = n.
Proof using.
  intros Hr Hm Hn r Hc. unfold ObjectIdentity in Hr. cbn [ObjectId.resolveWithMib] in Hr. destruct (do_pending L nothing (s, nothing)) as [[[]|] [s1 t1]]; [|done].
  cbn [lookup] in Hr. destruct (resolve_symbol find_module L N m n l kw s1) as [[r'|] s2] eqn:E; [|done]. injection Hr as <- <-.
  cbn in Hc. injection Hc as ->. unfold resolve_symbol in E. rewrite decide_True in E by done.
  apply bind_inv in E as (a & s3 & E1 & E). unfold mret, M_ret in E1. injection E1 as <- <-. cbn beta iota in E.
  apply bind_inv in E as (v & s4 & _ & E). apply bind_inv in E as (o & s5 & _ & E).
  apply bind_inv in E as (o' & s6 & _ & E). apply bind_inv in E as ([[a b] c] & s7 & _ & E). cbn beta iota in E.
  destruct (is_column v) as [p|].
  - apply bind_inv in E as (row & s8 & _ & E). destruct l as [|x l]; [by steps|].
    apply try_inv in E as [E|(e & s9 & h & _ & Hh & E)]; [by steps|].
    destruct (is_PyAsn1Error e); [|done]. by injection Hh as <-.
  - destruct l as [|x l]; by steps.
Qed.

Lemma expand_spec objects location s n location' s' n' :
  expand find_module L N Y ie ive objects location (s, n) = (Ok location', (s', n')) →
  ∃ objs, n' = put_varBinds (n_varBinds n ++ objs) n ∧ Forall2 (listed ive (n_objects n)) objects objs ∧
    Forall (λ o, is_Some (name_of o)) objs ∧ location' = locate (length (n_varBinds n)) objs location.
Proof using.
  revert location s n. induction objects as [|[m nm] objects IH]; intros location s n He; cbn [expand] in He.
  { steps. exists []. rewrite app_nil_r. by destruct n'. }
  apply bind_inv in He as (n1 & sn & En & He). unfold gets in En. injection En as <- <-.
  apply bind_inv in He as (i & sn & Ei & He). unfold resolve_identity in Ei. cbn [fst snd] in Ei.
  destruct (resolveWithMib _ s) as [[[]|] [s1 i1]] eqn:E1; [|done]. injection Ei as <- <-.
  apply bind_inv in He as (o & sn & Eo & He). unfold resolve_object in Eo. cbn [fst snd] in Eo.
  destruct (object_resolve _ _ _ s1) as [[[]|] [s2 o2]] eqn:E2; [|done]. injection Eo as <- <-.
  apply bind_inv in He as ([] & sn & Ea & He). unfold append, modify in Ea. cbn [fst snd] in Ea. injection Ea as <-.
  apply bind_inv in He as (n2 & sn & En & He). unfold gets in En. injection En as <- <-.
  apply bind_inv in He as (name & sn & En & He). unfold liftR in En. injection En as En <-.
  cbn [snd] in He. apply IH in He as (objs & Hn' & Hall & Hnames & Hloc). cbn [n_varBinds put_varBinds n_objects] in *.
  destruct (object_identity _ _ _ _ _ _ E2) as (Hcl & _ & Hkeep). cbn [o_identity ObjectType] in Hkeep.
  unfold getOid in En. destruct (clean i1) as [r1|] eqn:Hc1; [|done]. injection En as <-. specialize (Hkeep r1 eq_refl).
  exists (o2 :: objs). rewrite length_app, Nat.add_1_r in Hloc. cbn [Nat.sub] in Hloc. rewrite Nat.sub_0_r in Hloc.
  split_and!.
  - by rewrite Hn', <- app_assoc.
  - constructor; [|done]. split; [done|]. exists r1. split; [done|]. split.
    + intros Hm Hnm. by eapply resolve_symbol_names.
    + apply (object_answered _ _ _ (r_oid r1)) in E2; [|done|unfold names; cbn; by rewrite Hc1].
      destruct E2 as [_ (r & Hr & _ & Hcar)]. rewrite Hkeep in Hr. by injection Hr as <-.
  - constructor; [|done]. unfold name_of. by rewrite Hkeep.
  - rewrite Hloc. cbn [locate]. unfold name_of. by rewrite Hkeep.
Qed.

(** *** Added bindings *)
Definition object_of (a : added (X:=X)) : object_type :=
  match a with Added o => o | Pair a v => ObjectType (ObjectIdentity a no_kwargs) v end.
(** The object [e] is what resolving made of [a]. *)
Definition made_of (a : added (X:=X)) (e : object_type) : Prop :=
  ∃ s1 s2, object_resolve ie (Some ive) (object_of a) s1 = (Ok tt, (s2, e)).
Definition put (location : dict oid nat) (acc : list (object_type (X:=X))) (e : object_type) : list object_type :=
  match name_of e ≫= dget location with Some j => <[j := e]> acc | None => acc ++ [e] end.

Lemma place_inv location o (s s' : view C) (n n' : notification (X:=X)) : place location o (s, n) = (Ok tt, (s', n')) →
  o_clean o = true ∧ is_Some (name_of o) ∧ s' = s ∧ n' = put_varBinds (put location (n_varBinds n) o) n.
Proof using.
  unfold place, getitem_identity. intros Hp. apply bind_inv in Hp as (i & sn & E & Hp). apply lift_inv in E as [E ->].
  destruct (o_clean o); [|done]. injection E as <-. apply bind_inv in Hp as (nm & sn & E & Hp).
  apply lift_inv in E as [E ->]. unfold getOid in E. unfold put, name_of.
  destruct (clean (o_identity o)) as [r|]; [|done]. injection E as <-. cbn [fmap option_fmap option_map mbind option_bind].
  split; [done|]. split; [done|]. destruct (dget location (r_oid r)); by injection Hp as <- <-.
Qed.
Lemma add_all_spec location i l s n s' n' :
  add_all find_module L N Y ie ive location i l (s, n) = (Ok tt, (s', n')) →
  ∃ extras rest, n' = put_additional rest (put_varBinds (foldl (put location) (n_varBinds n) extras) n) ∧
    Forall2 made_of l extras ∧ Forall (λ o, o_clean o = true ∧ is_Some (name_of o)) extras.
Proof using.
  revert i s n. induction l as [|a l IH]; intros i s n Ha; cbn [add_all] in Ha.
  { unfold mret, M_ret in Ha. injection Ha as <- <-. exists [], (n_additional n). by destruct n. }
  apply bind_inv in Ha as (o & [s1 n1] & Eo & Ha).
  assert (Hmade : made_of a o ∧ ∃ rest, n1 = put_additional rest n).
  { destruct a as [o0|a v]; unfold resolve_added, resolve_object in Eo; cbn [fst snd] in Eo;
      destruct (object_resolve ie (Some ive) _ s) as [[[]|] [s2 o2]] eqn:E; try done; injection Eo as <- <- <-;
      (split; [by exists s, s2|]); [by eexists|exists (n_additional n); by destruct n]. }
  destruct Hmade as [Hmade [rest1 ->]].
  apply bind_inv in Ha as ([] & [s2 n2] & Ep & Ha). apply place_inv in Ep as (Hcl & Hnm & -> & ->).
  apply IH in Ha as (extras & rest & -> & Hall & Hextras). exists (o :: extras), rest. split; [done|].
  split; by constructor.
Qed.
End notification.

(** Every place is that of a binding with the name. *)
Definition in_place (location : dict oid nat) (acc : list (object_type (X:=X))) : Prop :=
  ∀ nm j, dget location nm = Some j → ∃ o, acc !! j = Some o ∧ name_of o = Some nm.
(** Whether a binding has no place *)
Definition elsewhere (location : dict oid nat) (e : object_type (X:=X)) : bool :=
  match name_of e ≫= dget location with Some _ => false | None => true end.

Lemma put_in_place location acc e : in_place location acc → in_place location (put location acc e).
Proof using.
  intros Hacc nm j Hj. destruct (Hacc nm j Hj) as (o & Ho & Hn). unfold put.
  destruct (name_of e ≫= dget location) as [j'|] eqn:E.
  - destruct (decide (j' = j)) as [->|Hne]; [|exists o; by rewrite list_lookup_insert_ne].
    destruct (name_of e) as [nm'|] eqn:En; [|done]. cbn in E. destruct (Hacc nm' j E) as (o' & Ho' & Hn').
    exists e. rewrite list_lookup_insert_eq by by eapply lookup_lt_Some. simplify_eq. split; [done|congruence].
  - exists o. split; [by apply lookup_app_l_Some|done].
Qed.
Lemma put_names location acc e : in_place location acc →
  name_of <$> put location acc e = (name_of <$> acc) ++ (if elsewhere location e then [name_of e] else []).
Proof using.
  intros Hacc. unfold put, elsewhere. destruct (name_of e ≫= dget location) as [j|] eqn:E.
  - rewrite list_fmap_insert, app_nil_r. destruct (name_of e) as [nm|] eqn:En; [|done]. cbn in E.
    destruct (Hacc nm j E) as (o & Ho & Hn). apply list_insert_id. by rewrite list_lookup_fmap, Ho; cbn; rewrite Hn.
  - by rewrite fmap_app.
Qed.
Lemma put_all location acc extras : in_place location acc →
  in_place location (foldl (put location) acc extras) ∧
  name_of <$> foldl (put location) acc extras = (name_of <$> acc) ++ (name_of <$> List.filter (elsewhere location) extras) ∧
  ∀ e, e ∈ extras → ∃ e', e' ∈ extras ∧ e' ∈ foldl (put location) acc extras ∧ name_of e' = name_of e.
Proof using.
  intros Hacc. induction extras as [|e extras IH] using rev_ind; cbn [foldl].
  { split_and!; [done|by rewrite app_nil_r|]. intros e He. by apply elem_of_nil in He. }
  destruct IH as (Hin & Hnames & Hkept). rewrite foldl_app. cbn [foldl]. set (R := foldl (put location) acc extras) in *.
  split_and!; [by apply put_in_place| |].
  - rewrite put_names, Hnames by done. rewrite List.filter_app, fmap_app, app_assoc. f_equal. cbn. by destruct (elsewhere _ e).
  - intros e0 He0. assert (He : e ∈ put location R e).
    { unfold put. destruct (name_of e ≫= dget location) as [j|] eqn:E; [|set_solver].
      destruct (name_of e) as [nm|]; [|done]. destruct (Hin nm j E) as (o & Ho & _).
      eapply list_elem_of_lookup_2, list_lookup_insert_eq. by eapply lookup_lt_Some. }
    apply elem_of_app in He0 as [He0| ->%list_elem_of_singleton]; [|exists e; set_solver].
    destruct (Hkept e0 He0) as (e' & Hex & HR & Hn).
    apply list_elem_of_lookup_1 in HR as [j' Hj'].
    assert (Hstill : e' ∈ put location R e ∨ name_of e = name_of e').
    { unfold put. destruct (name_of e ≫= dget location) as [j|] eqn:E.
      - destruct (decide (j' = j)) as [->|Hne].
        + right. destruct (name_of e) as [nm|]; [|done]. destruct (Hin nm j E) as (o & Ho & Hno). cbn in E. congruence.
        + left. eapply (list_elem_of_lookup_2 _ j'). by rewrite list_lookup_insert_ne.
      - left. apply elem_of_app. left. by eapply list_elem_of_lookup_2. }
    destruct Hstill as [Hstill|Heq]; [exists e'; set_solver|]. exists e. split; [set_solver|]. split; [done|congruence].
Qed.
Lemma put_keeps location acc extras o : o ∈ acc → name_of o ∉ name_of <$> extras → in_place location acc →
  o ∈ foldl (put location) acc extras.
Proof using.
  revert acc. induction extras as [|e extras IH]; intros acc Ho Hno Hacc; [done|]. cbn [foldl].
  apply not_elem_of_cons in Hno as [Hne Hno]. apply IH; [|done|by apply put_in_place].
  unfold put. destruct (name_of e ≫= dget location) as [j|] eqn:E; [|apply elem_of_app; by left].
  destruct (name_of e) as [nm|] eqn:En; [|done]. destruct (Hacc nm j E) as (o' & Ho' & Hn').
  apply list_elem_of_lookup_1 in Ho as [j' Hj']. eapply (list_elem_of_lookup_2 _ j').
  rewrite list_lookup_insert_ne; [done|]. intros ->. rewrite Ho' in Hj'. congruence.
Qed.

Lemma locate_in_place objs base location : in_place location base →
  in_place (locate (length base) objs location) (base ++ objs).
Proof using.
  revert base location. induction objs as [|o objs IH]; intros base location Hb; cbn [locate].
  { by rewrite app_nil_r. }
  replace (S (length base)) with (length (base ++ [o])) by (rewrite length_app; cbn; lia).
  rewrite (app_assoc base [o] objs : base ++ o :: objs = _). apply IH. intros nm j. destruct (name_of o) as [nm'|] eqn:En.
  - rewrite dget_dset. case_decide as Hd.
    + intros [= <-]. exists o. subst. rewrite lookup_app_r, Nat.sub_diag by done. by split.
    + intros (o' & Ho' & Hn)%Hb. exists o'. split; [by apply lookup_app_l_Some|done].
  - intros (o' & Ho' & Hn)%Hb. exists o'. split; [by apply lookup_app_l_Some|done].
Qed.
Lemma locate_elsewhere objs k location nm :
  dget (locate k objs location) nm = None ↔ dget location nm = None ∧ Some nm ∉ name_of <$> objs.
Proof using.
  revert k location. induction objs as [|o objs IH]; intros k location; cbn [locate fmap list_fmap].
  { split; [|by intros []]. intros ?. split; [done|apply not_elem_of_nil]. }
  rewrite IH, not_elem_of_cons. destruct (name_of o) as [nm'|]; [|naive_solver].
  rewrite dget_dset. case_decide; naive_solver.
Qed.
Lemma filter_elsewhere objs k extras : Forall (λ o, o_clean o = true ∧ is_Some (name_of o)) extras →
  List.filter (elsewhere (locate k objs [])) extras = filter (λ e, name_of e ∉ name_of <$> objs) extras.
Proof using.
  induction 1 as [|e extras [_ [nm Hnm]] _ IH]; [done|]. cbn [List.filter]. unfold elsewhere at 1. rewrite Hnm. cbn [mbind option_bind].
  pose proof (locate_elsewhere objs k [] nm) as Hl. rewrite <- Hnm in Hl. rewrite IH.
  destruct (dget (locate k objs []) nm) as [j|].
  - rewrite filter_cons_False; [done|]. intros Hno. by pose proof (proj2 Hl (conj eq_refl Hno)).
  - by rewrite filter_cons_True by by apply Hl.
Qed.

(** The objects a definition lists *)
Definition objects_of (v : symbol) : list (string * string) :=
  match v with SNode (KNotification objects) _ => objects | _ => [] end.

(** C36. A notification that is resolved for the first time has, in order, the binding of
    snmpTrapOID.0 to its own identity, a binding for each object its definition lists, with
    the value it was given for that object, and the added bindings that are of other names;
    an added binding of a listed object takes its place; no added binding is lost, except
    to a later one of the same name. *)
Theorem notification_is_whole ie ive n s s' n' : n_clean n = false → n_varBinds n = [] →
  notification_resolve find_module L N Y ie ive n s = (Ok tt, (s', n')) →
  ∃ r trap objs extras, let l := n_varBinds n' in
    clean (n_identity n') = Some r ∧ n_clean n' = true ∧ n_additional n' = [] ∧
    answered (default ie ive) snmpTrapOID (Ident (n_identity n')) trap ∧
    Forall2 (listed (default ie ive) (n_objects n)) (objects_of (r_mibNode r)) objs ∧
    Forall2 (made_of ie (default ie ive)) (n_additional n) extras ∧
    name_of <$> l = name_of <$> trap :: objs ++ filter (λ e, name_of e ∉ name_of <$> objs) extras ∧
    (∀ o, o ∈ trap :: objs → name_of o ∉ name_of <$> extras → o ∈ l) ∧
    (∀ e, e ∈ extras → ∃ e', e' ∈ extras ∧ e' ∈ l ∧ name_of e' = name_of e).
Proof using.
  intros Hcl Hvb. unfold notification_resolve. set (ive' := default ie ive). unfold resolve_notification.
  cbn [snd]. rewrite Hcl. intros Hr.
  apply bind_inv in Hr as ([] & [s1 n1] & E & Hr). unfold own_identity in E. cbn [fst snd] in E.
  destruct (resolveWithMib (n_identity n) s) as [ri [s1' i]] eqn:Ei. injection E as -> -> <-.
  destruct (resolve_clean _ _ _ _ Ei) as [[r Hc] _].
  apply bind_inv in Hr as (n2 & sn & E & Hr). unfold gets in E. injection E as <- <-.
  apply bind_inv in Hr as (trap & sn & E & Hr). unfold resolve_object in E. cbn [fst snd n_identity put_n_identity] in E.
  destruct (object_resolve _ _ _ s1) as [[[]|] [s2 o2]] eqn:Et; [|done]. injection E as <- <-.
  apply bind_inv in Hr as ([] & sn & E & Hr). unfold append, modify in E. cbn [fst snd n_varBinds put_n_identity] in E.
  injection E as <-. rewrite Hvb in Hr. cbn [app] in Hr.
  apply bind_inv in Hr as (v & sn & E & Hr). apply lift_inv in E as [E ->]. unfold getMibNode in E.
  cbn [n_identity put_n_identity snd] in E. rewrite Hc in E. injection E as <-.
  apply bind_inv in Hr as (location & [s3 n3] & El & Hr).
  assert (Hlist : ∃ objs, n3 = put_varBinds (o2 :: objs) (put_n_identity i n) ∧
    Forall2 (listed ive' (n_objects n)) (objects_of (r_mibNode r)) objs ∧ location = locate 1 objs []).
  { unfold objects_of. destruct (r_mibNode r) as [|o|k o];
      [by (exists []; unfold mret, M_ret in El; injection El as <- <- <-)..|].
    destruct k as [| | | | |objects|]; try by (exists []; unfold mret, M_ret in El; injection El as <- <- <-).
    apply expand_spec in El as (objs & -> & Hall & _ & ->). exists objs. done. }
  destruct Hlist as (objs & -> & Hobjs & ->).
  apply bind_inv in Hr as (n4 & sn & E & Hr). unfold gets in E. injection E as <- <-.
  apply bind_inv in Hr as ([] & [s5 n5] & Ea & Hr). cbn [snd n_additional put_varBinds put_n_identity] in Ea.
  apply add_all_spec in Ea as (extras & rest & -> & Hmade & Hextras). injection Hr as <- <-.
  cbn [n_varBinds put_varBinds]. assert (Hin : in_place (locate 1 objs []) (o2 :: objs)).
  { apply (locate_in_place objs [o2] []). intros nm j. done. }
  destruct (put_all _ _ extras Hin) as (_ & Hnames & Hkept).
  exists r, o2, objs, extras. cbn zeta. split_and!; [done..| |done|done| | |done].
  - by eapply (object_answered ie (Some ive') _ snmpTrapOID) in Et.
  - cbn [n_varBinds seal_notification put_additional put_varBinds]. rewrite Hnames, filter_elsewhere by done.
    cbn [fmap list_fmap]. by rewrite fmap_app.
  - intros o Ho Hno. by apply put_keeps.
Qed.
End bindings.

(** ** A concrete notification *)
Definition trap_mibs : dict string symbols :=
  [("SNMPv2-MIB", [("snmpTrapOID", SNode KScalar [1; 3; 6; 1; 6; 3; 1; 1; 4; 1])]);
   ("IF-MIB", [("ifEntry", SNode KRow [1; 3; 6; 1; 1]); ("ifIndex", SNode KColumn [1; 3; 6; 1; 1; 1]);
               ("ifDescr", SNode KColumn [1; 3; 6; 1; 1; 2]);
               ("linkDown", SNode (KNotification [("IF-MIB", "ifIndex"); ("IF-MIB", "ifDescr")])
                              [1; 3; 6; 1; 6; 3; 1; 1; 5; 3])])]%string.
Definition integer_index : list TableIndex.index := [TableIndex.mk_index false TableIndex.SInteger TableIndex.any_value].
Definition trap_view : view unit :=
  View.init (mk_builder trap_mibs [(if_entry, TableIndex.init integer_index)] 2 None).
(** Numbers are integers, and an identity is its identifier; [ifDescr] is a string. *)
Definition demo_syntaxes : @syntaxes Z :=
  mk_syntaxes
    (λ key v, match v with
              | Asn1 (VOctetString s) => Ok (VOctetString s)
              | Asn1 w => if decide (key.2 = "ifDescr"%string) then Err (PyAsn1Error "no string") else Ok w
              | Plain z => Ok (VInteger z)
              | Ident i => VOid <$> getOid i
              | UnSpecified => Err (PyAsn1Error "no value")
              end)
    (λ _, ""%string).
Abbreviation run_notification := (notification_resolve no_module demo_loader demo_asn1 demo_syntaxes false None).
Definition sysDescr : oid := [1; 3; 6; 1; 2; 1; 1; 1; 0].
Definition link_down : notification :=
  put_additional [Pair (Parts (arcs [1; 3; 6; 1; 1; 2; 5])) (Asn1 (VOctetString [101])); Pair (Symbol "IF-MIB" "ifIndex" [Arc 9]) (Plain 9)]
    (NotificationType (ObjectIdentity (Symbol "IF-MIB" "linkDown" []) no_kwargs) [Arc 5]
       [(("IF-MIB", "ifIndex"), Plain 5)])%string.

Abbreviation link_down_run := (run_notification link_down trap_view).
Example link_down_bindings :
  (link_down_run.1, (λ o, (name_of o, o_value o)) <$> take 4 (n_varBinds link_down_run.2.2)) =
  (Ok tt, [(Some snmpTrapOID, o_value (default (ObjectType (n_identity link_down) UnSpecified) (head (n_varBinds link_down_run.2.2))));
           (Some [1; 3; 6; 1; 1; 1; 5], Asn1 (VInteger 5));
           (Some [1; 3; 6; 1; 1; 2; 5], Asn1 (VOctetString [101]));
           (Some [1; 3; 6; 1; 1; 1; 9], Asn1 (VInteger 9))]).
Proof. vm_compute. reflexivity. Qed.

Definition is_ok {E A} (r : result E A) : bool := match r with Ok _ => true | Err _ => false end.
Lemma notification_is_whole_witness :
  is_ok link_down_run.1 = true ∧
  ∃ (trap : object_type (X:=Z)) objs extras, length objs = 2%nat ∧ length extras = 2%nat ∧
    name_of <$> n_varBinds link_down_run.2.2 =
    name_of <$> trap :: objs ++ filter (λ e, name_of e ∉ name_of <$> objs) extras.
Proof.
  assert (Hok : is_ok link_down_run.1 = true) by (vm_compute; reflexivity). split; [exact Hok|].
  assert (Hobjs : (λ r, objects_of (r_mibNode r)) <$> clean (n_identity link_down_run.2.2) =
    Some [("IF-MIB", "ifIndex"); ("IF-MIB", "ifDescr")]%string) by (vm_compute; reflexivity).
  destruct link_down_run as [[[]|e] [s' n']] eqn:E; [|discriminate Hok]. cbn [fst snd] in *.
  destruct (notification_is_whole no_module demo_loader demo_asn1 demo_syntaxes false None link_down trap_view s' n'
    eq_refl eq_refl E) as (r & trap & objs & extras & Hc & _ & _ & _ & Hl & Hm & Hnames & _).
  exists trap, objs, extras. rewrite Hc in Hobjs. injection Hobjs as Hobjs. rewrite Hobjs in Hl.
  apply Forall2_length in Hl, Hm. by split_and!.
Defined.

(** A response with a value that is not of the syntax of its object, and one of an object
    that no module has *)
Definition response : list (oid * bound (X:=Z)) :=
  [([1; 3; 6; 1; 1; 2; 5], Asn1 (VInteger 3)); ([1; 3; 6; 1; 6; 3; 1; 1; 4; 1; 0], Asn1 (VOid [1; 3; 6; 1; 1; 1; 9]))].
Abbreviation unmake ive := (unmakeVarBinds no_module demo_loader demo_asn1 demo_syntaxes true ive response (HasView trap_view)).
Example strict_refuses : (unmake (Some false)).1 = Err (SmiError "failed to cast value").
Proof. vm_compute. reflexivity. Qed.
Abbreviation unmade := (unmake None).
Lemma answers_keep_their_names_witness :
  match unmade.1 with
  | Ok (inr l) => Forall2 (λ x o, answered demo_asn1 demo_syntaxes true x.1 x.2 o) response l
  | _ => False
  end.
Proof.
  assert (Hok : match unmade.1 with Ok (inr _) => true | _ => false end = true) by (vm_compute; reflexivity).
  destruct unmade as [[[l|l]|e] e'] eqn:E; [discriminate Hok| |discriminate Hok]. cbn [fst].
  exact (answers_keep_their_names no_module demo_loader demo_asn1 demo_syntaxes None response (HasView trap_view) l e' E).
Defined.

(** A notification that could not be resolved keeps the bindings it had come to: they are
    there twice when it is resolved again. *)
Example retry_repeats_bindings :
  let n := NotificationType (ObjectIdentity (Symbol "IF-MIB" "linkDown" []) no_kwargs) [Arc 5]
             [(("IF-MIB", "ifIndex"), Plain 5); (("IF-MIB", "ifDescr"), Asn1 (VInteger 3))]%string in
  let '(r1, (s, n)) := notification_resolve no_module demo_loader demo_asn1 demo_syntaxes false None n trap_view in
  let '(r2, (_, n)) := notification_resolve no_module demo_loader demo_asn1 demo_syntaxes true None n s in
  (r1, r2, name_of <$> n_varBinds n) =
  (Err (SmiError "failed to cast value"), Ok tt,
   [Some snmpTrapOID; Some [1; 3; 6; 1; 1; 1; 5];
    Some snmpTrapOID; Some [1; 3; 6; 1; 1; 1; 5]; Some [1; 3; 6; 1; 1; 2; 5]]).
Proof. vm_compute. reflexivity. Qed.

(** Where the index did not decode, a value that is refused raises while its message is
    made, even where it was to be tolerated. *)
Example tolerance_fails_to_print :
  (object_resolve no_module demo_loader demo_asn1 demo_syntaxes true None
     (ObjectType (ObjectIdentity (Parts (arcs [1; 3; 6; 1; 2; 1; 97])) no_kwargs) (Asn1 (VInteger 3))) table_view).1 =
  Err AttributeError.
Proof. vm_compute. reflexivity. Qed.
End BindingSpec.
