(* ===== verification/Cells.v ===== *)
(** * Cells of tables (src/pysnmp/smi/view.py, MibTableRow of
      src/pysnmp/smi/mibs/SNMPv2-SMI.py)

    A manager names a cell by its row, a column and the values of the indices, and takes
    the identifier of a cell apart into them. *)
From S2P Require Export ObjectIdSpec.
Import Text View ViewSpec ObjectId ObjectIdSpec.
#[local] Open Scope Z_scope.

Module Cells.
Section cells.
Context {C : Type} `{EqDecision C}.
Context (find_module : C → oid → option string) (L : @loader C) (N : asn1).
(** The columns a row has registered below it ([_vars]), of which a manager's has none *)
Context (vars : string * string → list oid).

Abbreviation V := (M exn (view C)).
Abbreviation load1 := (λ m, loadModules L [m]).
Abbreviation getNodeLocation := (View.getNodeLocation find_module load1).

(** *** The row *)

(** Every column of the loaded modules that is right below the row *)
Definition columns_below (mibs : dict string symbols) (row : oid) : list oid :=
  mibs ≫= λ ms, omap (λ nv, match nv.2 with
                            | SNode KColumn o => if decide (removelast o = row) then Some o else None
                            | _ => None end) ms.2.
(** The columns by number and name, in the order of their names; a column that is there
    twice is there once. *)
Definition columns (vars : list oid) (mibs : dict string symbols) (row : oid) : list (Z * oid) :=
  omap (λ o, (λ z, (z, o)) <$> last o)
    (sorted_by tuple_leb id (dkeys (foldl (λ d o, dset d o tt) [] (vars ++ columns_below mibs row)))).
Definition getColumns (key : string * string) (row : oid) : V (list (Z * oid)) :=
  s ← gets id;
  mret (columns (vars key) (mibSymbols (mibBuilder s)) row).
Definition check_count (key : string * string) (indices : list part) : V unit :=
  names ← on_row key (gets TableIndex.indexNames);
  if decide (length indices = length names) then mret tt
  else raise (SmiError "Row expects other indices").
Definition getInstNameByIndex (key : string * string) (row : oid) (colId : Z) (indices : list part) : V oid :=
  instId ← on_row key (getInstIdFromIndices N indices);
  mret (row ++ colId :: instId).
Definition getCellOid (key : string * string) (row : oid) (colId : Z) (indices : list part) : V oid :=
  l ← getColumns key row;
  if decide (colId ∈ l.*1) then check_count key indices;; getInstNameByIndex key row colId indices
  else raise (SmiError "Unknown column ID").
Fixpoint each_column (key : string * string) (row : oid) (indices : list part) (l : list (Z * oid)) : V (list oid) :=
  match l with
  | [] => mret []
  | c :: l =>
      o ← getInstNameByIndex key row c.1 indices;
      os ← each_column key row indices l;
      mret (o :: os)
  end.
Definition getRowOids (key : string * string) (row : oid) (indices : list part) : V (list oid) :=
  check_count key indices;;
  l ← getColumns key row;
  each_column key row indices l.
Definition getCellIndices (key : string * string) (instId : oid) : V (list TableIndex.ival) :=
  on_row key (TableIndex.getIndicesFromInstId instId).

(** *** The view *)
Definition row_symbol (modName rowSymName : string) : V oid :=
  rowNode ← on_builder (importSymbols L modName rowSymName);
  match rowNode with
  | SNode KRow o => mret o
  | _ => raise (SmiError "Symbol is not a MibTableRow")
  end.
Definition getTableColumns (modName rowSymName : string) : V (list (Z * oid)) :=
  row ← row_symbol modName rowSymName;
  getColumns (modName, rowSymName) row.
(** A column by number, or by its symbol *)
Definition column_id (modName : string) (row : oid) (column : Z + string) : V Z :=
  match column with
  | inl z => mret z
  | inr n =>
      columnNode ← on_builder (importSymbols L modName n);
      match is_column columnNode with
      | Some o =>
          if decide (removelast o = row) then liftR (from_option_exc IndexError (last o))
          else raise (SmiError "Symbol is not a column of the row")
      | None => raise (SmiError "Symbol is not a column of the row")
      end
  end.
Definition resolveCellOid (modName rowSymName : string) (column : Z + string) (indices : list part) : V oid :=
  row ← row_symbol modName rowSymName;
  colId ← column_id modName row column;
  getCellOid (modName, rowSymName) row colId indices.
(** The module, the symbols of the row and of the column, and the indices *)
Definition getTableCellInfo (cellOid : oid) : V (string * string * string * list TableIndex.ival) :=
  '(modName, columnName, suffix) ← getNodeLocation (arcs cellOid) "";
  columnNode ← on_builder (importSymbols L modName columnName);
  match is_column columnNode with
  | None => raise (SmiError "OID is not a table cell")
  | Some o =>
      '(rowModName, rowName, rowSuffix) ← getNodeLocation (arcs (removelast o)) "";
      rowNode ← on_builder (importSymbols L rowModName rowName);
      match rowNode, rowSuffix with
      | SNode KRow _, [] =>
          suffix ← liftR (from_option_exc TypeError (as_arcs suffix));
          indices ← getCellIndices (rowModName, rowName) suffix;
          mret (modName, rowName, columnName, indices)
      | _, _ => raise (SmiError "Column has no table row")
      end
  end.

(** ** A cell is found again *)
Lemma columns_complete l mibs row z : row ++ [z] ∈ columns_below mibs row → z ∈ (columns l mibs row).*1.
Proof.
  intros Hin. apply list_elem_of_fmap. exists (z, row ++ [z]). split; [done|].
  apply list_elem_of_omap. exists (row ++ [z]). rewrite last_snoc. split; [|done].
  rewrite (sorted_by_perm tuple_leb id). set (ks := l ++ columns_below mibs row).
  assert (Hk : row ++ [z] ∈ ks) by (apply elem_of_app; by right). clearbody ks. clear Hin.
  assert (Hd : ∀ ks (d : dict oid unit), row ++ [z] ∈ ks ∨ row ++ [z] ∈ dkeys d →
    row ++ [z] ∈ dkeys (foldl (λ d o, dset d o tt) d ks)).
  { clear. intros ks. induction ks as [|k ks IH]; intros d [Hk|Hk]; cbn [foldl]; [by apply elem_of_nil in Hk|done|..];
      apply IH; rewrite dkeys_dset.
    - apply elem_of_cons in Hk as [<-|Hk]; [right|by left]. case_decide; [done|set_solver].
    - right. case_decide; [done|set_solver]. }
  apply Hd. by left.
Qed.
End cells.

Section settled.
Context {C : Type} `{EqDecision C}.
Context (find_module : C → oid → option string) (L : @loader C) (N : asn1).
Context (vars : string * string → list oid).
Context (mibs : dict string symbols) (rows : dict (string * string) (list TableIndex.index)).
Context (idx : dict string module_idx) (Hidx : build mibs = Ok idx).
Context (Hgaps : no_gaps (tree mibs)) (Hnamed : named mibs).
Abbreviation ready := (ObjectIdSpec.ready (C:=C) mibs rows).
Abbreviation node := (ObjectIdSpec.node (C:=C) mibs).

Lemma column_below m n p : node m n KColumn p → p ∈ columns_below mibs (removelast p).
Proof.
  intros Hn. pose proof (nd_symbol _ _ _ _ _ Hn) as Hs. unfold node_at in Hs. cbn [mibSymbols] in Hs.
  destruct (dget mibs m) as [syms|] eqn:Em; [|done]. cbn in Hs.
  apply list_elem_of_bind. exists (m, syms). split; [|by apply dget_elem_of].
  apply list_elem_of_omap. exists (n, SNode KColumn p). split; [by apply dget_elem_of|]. cbn. by rewrite decide_True.
Qed.
Lemma columns_yields key row : yields ready (getColumns vars key row) (Ok (columns (vars key) mibs row)).
Proof. intros s Hs. exists s. unfold getColumns. munfold. unfold id. by rewrite (rd_mibs _ _ _ Hs). Qed.
Lemma count_yields key names l : dget rows key = Some names → length l = length names →
  yields ready (check_count key l) (Ok tt).
Proof.
  intros Hk Hl. unfold check_count. eapply yields_bind.
  - apply (on_row_yields mibs rows key names _ (Ok names)); [done|]. intros row Hok Hnames. exists row.
    unfold gets. by rewrite Hnames.
  - rewrite decide_True by done. apply yields_ret.
Qed.
Lemma cell_yields m n rm rn p z names l inst : node m n KColumn (p ++ [z]) → dget rows (rm, rn) = Some names →
  length l = length names → TableIndex.encode names (values N names l) = Ok inst →
  yields ready (getCellOid N vars (rm, rn) p z l) (Ok ((p ++ [z]) ++ inst)).
Proof.
  intros Hn Hrow Hl He. unfold getCellOid. eapply yields_bind; [apply columns_yields|].
  apply column_below in Hn. rewrite removelast_snoc in Hn. rewrite decide_True by by apply columns_complete.
  eapply yields_bind; [by eapply count_yields|]. unfold getInstNameByIndex.
  pose proof (instance_yields (C:=C) N mibs rows (rm, rn) names l Hrow) as Hinst. rewrite He in Hinst.
  eapply yields_bind; [exact Hinst|]. rewrite <- app_assoc. apply yields_ret.
Qed.
Lemma row_symbol_yields rm rn p : node rm rn KRow p → yields ready (row_symbol L rm rn) (Ok p).
Proof. intros Hn. eapply yields_bind; [by eapply import_yields|]. apply yields_ret. Qed.

(** A cell that is named by its row, its column, by number or, in the module of the row, by
    symbol, and the values of the indices of the row, is taken apart into the module of the
    column, the row, the column and these values. *)
Theorem cell_roundtrip s m n rm rn p z names l inst : ready s → node m n KColumn (p ++ [z]) → node rm rn KRow p →
  dget rows (rm, rn) = Some names → length l = length names → TableIndex.valid_indices names (values N names l) →
  TableIndex.encode names (values N names l) = Ok inst → longest mibs (p ++ [z]) inst →
  (resolveCellOid L N vars rm rn (inl z) l s).1 = Ok ((p ++ [z]) ++ inst) ∧
  (m = rm → (resolveCellOid L N vars rm rn (inr n) l s).1 = Ok ((p ++ [z]) ++ inst)) ∧
  (getTableCellInfo find_module L ((p ++ [z]) ++ inst) s).1 = Ok (m, rn, n, values N names l).
Proof using Hidx Hgaps Hnamed.
  intros Hs Hn Hr Hrow Hl Hv He Hno.
  assert (Hrun : ∀ {A} (c : M exn (view C) A) r, yields ready c r → (c s).1 = r).
  { intros A c r Hy. by destruct (Hy s Hs) as (s' & -> & _). }
  split_and!; [|intros ->|]; apply Hrun.
  - eapply yields_bind; [by eapply row_symbol_yields|]. eapply yields_bind; [apply yields_ret|]. by eapply cell_yields.
  - eapply yields_bind; [by eapply row_symbol_yields|]. eapply yields_bind; [|by eapply cell_yields].
    eapply yields_bind; [by eapply import_yields|]. cbn [is_column]. rewrite removelast_snoc, decide_True, last_snoc by done.
    apply yields_lift.
  - eapply yields_bind; [by eapply found_location|]. cbn beta iota. eapply yields_bind; [by eapply import_yields|].
    cbn [is_column]. rewrite removelast_snoc. eapply yields_bind; [by eapply location_yields|]. cbn beta iota.
    eapply yields_bind; [by eapply import_yields|]. rewrite as_arcs_arcs. eapply yields_bind; [apply yields_lift|].
    pose proof (indices_yields (C:=C) mibs rows (rm, rn) names inst Hrow) as Hback. rewrite (decode_instance _ _ _ Hv He) in Hback.
    eapply yields_bind; [exact Hback|]. apply yields_ret.
Qed.
End settled.

Lemma cell_roundtrip_witness :
  (resolveCellOid demo_loader demo_asn1 (λ _, []) "IF-MIB" "ifEntry" (inr "ifDescr"%string) [Name "ab"; Arc 7] table_view).1 =
    Ok [1; 3; 6; 1; 2; 2; 97; 98; 7] ∧
  (getTableCellInfo no_module demo_loader [1; 3; 6; 1; 2; 2; 97; 98; 7] table_view).1 =
    Ok ("IF-MIB", "ifEntry", "ifDescr", [TableIndex.IStr [97; 98]; TableIndex.IInt 7])%string.
Proof.
  destruct (cell_roundtrip no_module demo_loader demo_asn1 (λ _, []) demo_mibs [(if_entry, demo_names)] demo_index
    table_built demo_no_gaps demo_named table_view "IF-MIB" "ifDescr" "IF-MIB" "ifEntry" [1; 3; 6; 1] 2 demo_names
    [Name "ab"; Arc 7] [2; 97; 98; 7] table_ready table_column) as (_ & H1 & H2);
    [by split; vm_compute|done|done| |by vm_compute|apply table_leaf|].
  - cbn. unfold TableIndex.valid, is_octets, is_octet. cbn.
    repeat match goal with
      | |- _ ∧ _ => split | |- ∀ _, _ => intros ? | |- Forall _ _ => constructor
      end; done || lia.
  - split; [by apply H1|exact H2].
Defined.

(** All cells of a row; columns and indices that are not there *)
Example cells_of_a_row :
  let row := [1; 3; 6; 1] in
  (getRowOids demo_asn1 (λ _, []) if_entry row [Name "ab"; Arc 7] table_view).1 =
    Ok [[1; 3; 6; 1; 1; 2; 97; 98; 7]; [1; 3; 6; 1; 2; 2; 97; 98; 7]] ∧
  (getTableColumns demo_loader (λ _, []) "IF-MIB" "ifEntry" table_view).1 =
    Ok [(1, [1; 3; 6; 1; 1]); (2, [1; 3; 6; 1; 2])] ∧
  (resolveCellOid demo_loader demo_asn1 (λ _, []) "IF-MIB" "ifEntry" (inl 9) [Arc 7] table_view).1 =
    Err (SmiError "Unknown column ID") ∧
  (resolveCellOid demo_loader demo_asn1 (λ _, []) "IF-MIB" "ifEntry" (inl 2) [Arc 7] table_view).1 =
    Err (SmiError "Row expects other indices").
Proof. vm_compute. done. Qed.
End Cells.
