(* ===== verification/Loader.v ===== *)
(** * The loader of MIB modules (src/pysnmp/smi/builder.py)

    A source is a directory, or an archive that a package was imported from.  It lists the
    modules it has and reads one: its bytecode when that is no older than its text, or the
    text, which is compiled.  The revision a module states is read from its code.  The
    calls of the file system and of the import machinery are arguments.

    A builder searches its sources for a module, runs the newest copy, which imports what
    it needs through the builder and exports its symbols to it, and falls back to a corpus
    and to a compiler.  A module is the calls it makes on the builder; what synthesis makes
    of a corpus is such a program as well. *)
From Stdlib Require Import Ascii.
From stdpp Require Import pretty.
From S2P Require Export View.
Import Text.
#[local] Open Scope Z_scope.

Module Loader.

Inductive MibSourceKind : Type := OVERRIDE | WHEEL | DIR | PKG | DB | COMPILED.
#[global] Instance MibSourceKind_eq_dec : EqDecision MibSourceKind.
Proof. solve_decision. Defined.
Abbreviation provenance := (MibSourceKind * string)%type.

(** An operation on a file fails with ENOENT, or with another error. *)
Inductive errno : Type := ENOENT | OtherErrno.

(** ** Sources *)
Section source.
(** What is on the disk, and the code of a module *)
Context {D Code : Type}.

Record source : Type := mk_source {
  mibSourceKind : MibSourceKind;
  sourceId : string;
  listdir : D → list string;
  getData : D → string → result errno octets;
  getTimestamp : D → string → result errno Z;
  fullPath : string → string → string;
}.
Definition source_provenance (s : source) : provenance := (mibSourceKind s, sourceId s).

(** *** Paths *)
Definition starts_with (p s : string) : bool := String.prefix p s.
(** [f[:-len(sfx)]] if [f.endswith(sfx)] *)
Definition without_suffix (sfx f : string) : option string :=
  let n := (String.length f - String.length sfx)%nat in
  if decide (String.length sfx ≤ String.length f ∧ String.substring n (String.length sfx) f = sfx)%nat
  then Some (String.substring 0 n f) else None.
(** [s.split(c)] *)
Fixpoint split_on (c : Ascii.ascii) (s : string) : list string :=
  match s with
  | EmptyString => [""%string]
  | String a s => match split_on c s with
                  | w :: ws => if decide (a = c) then ""%string :: w :: ws else String a w :: ws
                  | [] => []
                  end
  end.
Fixpoint replace_char (c c' : Ascii.ascii) (s : string) : string :=
  match s with EmptyString => ""%string | String a s => String (if decide (a = c) then c' else a) (replace_char c c' s) end.
Definition slash : Ascii.ascii := "/"%char.
Fixpoint rstrip_slash (s : string) : string :=
  match s with
  | EmptyString => ""%string
  | String a s => match rstrip_slash s with
                  | EmptyString => if decide (a = slash) then ""%string else String a ""
                  | t => String a t
                  end
  end.
(** [os.path.join(p, f)] and [os.path.split(p)] *)
Definition path_join (p f : string) : string :=
  if starts_with "/" f then f
  else if decide (p = ""%string) then f
  else match without_suffix "/" p with Some _ => (p +:+ f)%string | None => (p +:+ "/" +:+ f)%string end.
Definition path_split (p : string) : string * string :=
  let tail := List.last (split_on slash p) ""%string in
  let head := String.substring 0 (String.length p - String.length tail) p in
  (match rstrip_slash head with EmptyString => head | h => h end, tail).
(** [fullPath], for a source named [srcName] *)
Definition path_in (srcName f sfx : string) : string :=
  (srcName +:+ (if decide (f = ""%string) then "" else "/" +:+ f +:+ sfx))%string.

(** Names without their suffixes, each once, in the order of a set *)
Section names.
Context (PY_SUFFIXES : list string) (set_order : list string → list string).
Definition uniqNames (names : list string) : list string :=
  set_order (remove_dups (names ≫= λ f, if starts_with "__init__." f then []
                                        else omap (λ sfx, without_suffix sfx f) PY_SUFFIXES)).

(** *** A directory: the calls of the file system raise [OSError] where there is nothing. *)
Section directory.
Context (normpath : string → string).
Context (os_listdir : D → string → option (list string)) (open_read : D → string → option octets)
  (st_mtime : D → string → option Z).
Definition dir_listdir (srcName : string) (d : D) : list string :=
  match os_listdir d srcName with Some l => uniqNames l | None => [] end.
Definition dir_getTimestamp (srcName : string) (d : D) (f : string) : result errno Z :=
  from_option_exc ENOENT (st_mtime d (path_join srcName f)).
(** Only a name that is listed is opened. *)
Definition dir_getData (srcName : string) (d : D) (f : string) : result errno octets :=
  match os_listdir d srcName with
  | Some l => if decide (f ∈ l) then from_option_exc ENOENT (open_read d (path_join srcName f)) else Err ENOENT
  | None => Err ENOENT
  end.
(** [DirMibSource(srcName, kind, sourceId).init()] *)
Definition DirMibSource (srcName : string) (kind : option MibSourceKind) (sourceId : option string) : source :=
  let dir := normpath srcName in
  mk_source (default DIR kind) (default srcName sourceId) (dir_listdir dir) (dir_getData dir) (dir_getTimestamp dir)
    (path_in dir).

(** *** An archive: its members by path with their times, and their contents *)
Record archive : Type := mk_archive {
  archive_name : string;
  archiveFiles : dict string (Z * Z);
  get_data : string → option octets;
}.
Section zip.
Context (mktime : Z * Z * Z * Z * Z * Z → Z).
Definition parseDosTime (dosdate dostime : Z) : Z :=
  mktime (Z.land (Z.shiftr dosdate 9) 127 + 1980, Z.land (Z.shiftr dosdate 5) 15, Z.land dosdate 31,
          Z.land (Z.shiftr dostime 11) 31, Z.land (Z.shiftr dostime 5) 63, Z.land dostime 31 * 2).
Definition zip_listdir (a : archive) (srcName : string) : list string :=
  uniqNames (dkeys (archiveFiles a) ≫= λ p, let '(d, f) := path_split p in if decide (d = srcName) then [f] else []).
Definition zip_getTimestamp (a : archive) (srcName f : string) : result errno Z :=
  match dget (archiveFiles a) (path_join srcName f) with
  | Some (time, date) => Ok (parseDosTime date time)
  | None => Err ENOENT
  end.
Definition zip_getData (a : archive) (srcName f : string) : result errno octets :=
  from_option_exc ENOENT (get_data a (path_join srcName f)).
Definition zip_fullPath (a : archive) (srcName f sfx : string) : string :=
  if decide (archive_name a = ""%string) then path_in srcName f sfx
  else path_join (archive_name a) (path_in srcName f sfx).

(** What importing a package gives: a module of an archive, one with a file, one that
    spans directories, or nothing *)
Inductive imported : Type :=
  | Archived (a : archive)
  | WithFile (file : string)
  | Namespace (locations : list string)
  | NotImported.
(** [ZipMibSource(srcName, kind, sourceId).init()]: the kind and the name are kept when a
    directory serves the package. *)
Definition ZipMibSource (import : string → imported) (srcName : string) (kind : option MibSourceKind) (sourceId : option string) :
    result exn source :=
  let k := default PKG kind in
  let id := default srcName sourceId in
  match import srcName with
  | Archived a =>
      let dir := replace_char "."%char slash srcName in
      Ok (mk_source k id (λ _, zip_listdir a dir) (λ _, zip_getData a dir) (λ _, zip_getTimestamp a dir) (zip_fullPath a dir))
  | WithFile file => Ok (DirMibSource (path_split file).1 (Some k) (Some id))
  | Namespace [] => Err (MibLoadError "access error")
  | Namespace (l :: _) => Ok (DirMibSource l (Some k) (Some id))
  | NotImported => Ok (DirMibSource srcName (Some k) (Some id))
  end.
End zip.
End directory.
End names.

(** *** [read]: bytecode that is no older than the source, or the source *)
Section read.
Context (BYTECODE_SUFFIXES SOURCE_SUFFIXES : list string) (PY_MAGIC_NUMBER : octets).
Context (marshal_loads compile : octets → result exn Code).

(** [struct.unpack("<L", o)] *)
Definition unpack_le (o : octets) : result exn Z :=
  if (length o =? 4)%nat then Ok (from_be (reverse o)) else Err (OtherError "struct.error").
(** The time of the bytecode, -1 when it is validated by a hash, its code and suffix *)
Fixpoint find_bytecode (d : D) (s : source) (f : string) (l : list string) : result exn (option (Z * octets * string)) :=
  match l with
  | [] => Ok None
  | sfx :: l =>
      match getData s d (f +:+ sfx) with
      | Err ENOENT => find_bytecode d s f l
      | Err OtherErrno => Err (MibLoadError "access error")
      | Ok pycData =>
          if decide (take 4 pycData = PY_MAGIC_NUMBER) then
            bitfield ← unpack_le (take 4 (drop 4 pycData));
            pycTime ← (if Z.land bitfield 1 =? 0 then unpack_le (take 4 (drop 8 pycData)) else Ok (-1));
            mret (Some (pycTime, drop 16 pycData, sfx))
          else find_bytecode d s f l
      end
  end.
Fixpoint find_source (d : D) (s : source) (f : string) (l : list string) : result exn (option (Z * string)) :=
  match l with
  | [] => Ok None
  | sfx :: l =>
      match getTimestamp s d (f +:+ sfx) with
      | Err ENOENT => find_source d s f l
      | Err OtherErrno => Err (MibLoadError "access error")
      | Ok pyTime => Ok (Some (pyTime, sfx))
      end
  end.
(** There is nothing where OSError is raised. *)
Definition read (d : D) (s : source) (f : string) : result exn (option (Code * string)) :=
  pyc ← find_bytecode d s f BYTECODE_SUFFIXES;
  py ← find_source d s f SOURCE_SUFFIXES;
  let pycTime := match pyc with Some (t, _, _) => t | None => -1 end in
  let pyTime := match py with Some (t, _) => t | None => -1 end in
  match pyc, py with
  | Some (_, data, sfx), _ =>
      if negb (pycTime =? -1) && (pyTime <=? pycTime) then (λ c, Some (c, sfx)) <$> marshal_loads data
      else match py with
           | Some (_, pySfx) =>
               if pyTime =? -1 then Ok None
               else match getData s d (f +:+ pySfx) with
                    | Ok text => (λ c, Some (c, pySfx)) <$> compile text
                    | Err _ => Ok None
                    end
           | None => Ok None
           end
  | None, Some (_, pySfx) =>
      if pyTime =? -1 then Ok None
      else match getData s d (f +:+ pySfx) with
           | Ok text => (λ c, Some (c, pySfx)) <$> compile text
           | Err _ => Ok None
           end
  | None, None => Ok None
  end.
End read.
End source.
Arguments source : clear implicits.

(** ** What a module states of itself ([revisionOf]) *)
Inductive instruction : Type := LOAD_CONST (c : option string) | STORE (name : string) | OTHER.
Definition MODULE_REVISION : string := "PYSNMP_MODULE_REVISION".
Fixpoint revision_from (constant : option string) (l : list instruction) : option string :=
  match l with
  | [] => None
  | LOAD_CONST c :: l => revision_from c l
  | STORE n :: l => if decide (n = MODULE_REVISION) then constant else revision_from constant l
  | OTHER :: l => revision_from constant l
  end.

(** ** The search path of a new builder *)

(** [ev in os.environ], then [os.environ[ev].split(os.pathsep)] *)
Definition pathsep : Ascii.ascii := ":"%char.
Definition named_by (environ : string → option string) (ev : string) : list (string * option MibSourceKind) :=
  match environ ev with Some v => (λ m, (m, None)) <$> split_on pathsep v | None => [] end.
Definition search_path (environ : string → option string) (defaultCoreMibs defaultMiscMibs defaultGeneratedMibs : string) :
    list (string * option MibSourceKind) :=
  let configured := ["PYSNMP_MIB_PKGS"; "PYSNMP_MIB_DIRS"; "PYSNMP_MIB_DIR"]%string ≫= named_by environ in
  let sources := match configured with
                 | [] => if decide (defaultMiscMibs = ""%string) then [] else (λ m, (m, None)) <$> split_on pathsep defaultMiscMibs
                 | l => l
                 end in
  foldl (λ l m, (m, Some OVERRIDE) :: l) sources (split_on pathsep defaultCoreMibs) ++
  (if decide (defaultGeneratedMibs = ""%string) then []
   else (λ m, (m, Some WHEEL)) <$> split_on pathsep defaultGeneratedMibs).

(** ** The builder *)

(** ** What a module does *)

(** A symbol: whether it is a class, its label, and what it is *)
Section builder.
Context {D Code X : Type}.
Record sym : Type := mk_sym { is_class : bool; label : string; object : X }.

(** The calls that the code of a module makes on the builder, each followed by what the
    code makes of the answer *)
Inductive program (A : Type) : Type :=
  | Return (a : A)
  | Raise (e : exn)
  | Import (modName : string) (symNames : list string) (k : result exn (list sym) → program A)
  | Export (modName : string) (anonymousSyms : list sym) (namedSyms : list (string * sym)) (k : result exn unit → program A).
Arguments Return {A} a.
Arguments Raise {A} e.
Arguments Import {A} modName symNames k.
Arguments Export {A} modName anonymousSyms namedSyms k.

(** A corpus: whether it has texts, its path, that of the corpus a module is from, the
    corpora it is made of with their modules, and what builds a module of it *)
Record corpus : Type := mk_corpus {
  c_loadTexts : bool;
  c_path : string;
  c_owner : string → option string;
  c_corpora : list (string * list string);
  load_module : string → program bool;
}.
(** A compiler renders a module, with its texts or without, and says how that went. *)
Definition compiler : Type := string → bool → D → list string * D.

Record MibBuilder : Type := mk_builder {
  mibSymbols : dict string (dict string sym);
  lastBuildId : Z;
  autoName : Z;
  mibSources : list (source D);
  modSeen : dict string string;
  modPathsSeen : list string;
  modProvenance : dict string provenance;
  mibCompiler : option compiler;
  mibCorpus : option corpus;
  corpusBuilding : list string;
  shadowsReported : bool;
  loadTexts : bool;
  moduleConflictSeverity : string;
  warnings : list (string * list provenance);
  disk : D;
}.
Abbreviation B := (M exn MibBuilder).
Definition put_symbols (m : dict string (dict string sym)) (b : MibBuilder) : MibBuilder :=
  mk_builder m (lastBuildId b) (autoName b) (mibSources b) (modSeen b) (modPathsSeen b) (modProvenance b) (mibCompiler b)
    (mibCorpus b) (corpusBuilding b) (shadowsReported b) (loadTexts b) (moduleConflictSeverity b) (warnings b) (disk b).
Definition count_build (b : MibBuilder) : MibBuilder :=
  mk_builder (mibSymbols b) (lastBuildId b + 1) (autoName b) (mibSources b) (modSeen b) (modPathsSeen b) (modProvenance b)
    (mibCompiler b) (mibCorpus b) (corpusBuilding b) (shadowsReported b) (loadTexts b) (moduleConflictSeverity b)
    (warnings b) (disk b).
Definition put_autoName (z : Z) (b : MibBuilder) : MibBuilder :=
  mk_builder (mibSymbols b) (lastBuildId b) z (mibSources b) (modSeen b) (modPathsSeen b) (modProvenance b)
    (mibCompiler b) (mibCorpus b) (corpusBuilding b) (shadowsReported b) (loadTexts b) (moduleConflictSeverity b)
    (warnings b) (disk b).
Definition put_sources (l : list (source D)) (b : MibBuilder) : MibBuilder :=
  mk_builder (mibSymbols b) (lastBuildId b) (autoName b) l (modSeen b) (modPathsSeen b) (modProvenance b)
    (mibCompiler b) (mibCorpus b) (corpusBuilding b) false (loadTexts b) (moduleConflictSeverity b)
    (warnings b) (disk b).
(** What was loaded, from where *)
Definition put_seen (seen : dict string string) (paths : list string) (prov : dict string provenance) (b : MibBuilder) :
    MibBuilder :=
  mk_builder (mibSymbols b) (lastBuildId b) (autoName b) (mibSources b) seen paths prov
    (mibCompiler b) (mibCorpus b) (corpusBuilding b) (shadowsReported b) (loadTexts b) (moduleConflictSeverity b)
    (warnings b) (disk b).
Definition put_paths (paths : list string) (b : MibBuilder) : MibBuilder :=
  put_seen (modSeen b) paths (modProvenance b) b.
Definition put_compiler (c : option compiler) (b : MibBuilder) : MibBuilder :=
  mk_builder (mibSymbols b) (lastBuildId b) (autoName b) (mibSources b) (modSeen b) (modPathsSeen b) (modProvenance b)
    c (mibCorpus b) (corpusBuilding b) (shadowsReported b) (loadTexts b) (moduleConflictSeverity b)
    (warnings b) (disk b).
Definition put_corpus (c : option corpus) (b : MibBuilder) : MibBuilder :=
  mk_builder (mibSymbols b) (lastBuildId b) (autoName b) (mibSources b) (modSeen b) (modPathsSeen b) (modProvenance b)
    (mibCompiler b) c (corpusBuilding b) false (loadTexts b) (moduleConflictSeverity b)
    (warnings b) (disk b).
Definition put_building (l : list string) (b : MibBuilder) : MibBuilder :=
  mk_builder (mibSymbols b) (lastBuildId b) (autoName b) (mibSources b) (modSeen b) (modPathsSeen b) (modProvenance b)
    (mibCompiler b) (mibCorpus b) l (shadowsReported b) (loadTexts b) (moduleConflictSeverity b)
    (warnings b) (disk b).
Definition put_reported (w : list (string * list provenance)) (b : MibBuilder) : MibBuilder :=
  mk_builder (mibSymbols b) (lastBuildId b) (autoName b) (mibSources b) (modSeen b) (modPathsSeen b) (modProvenance b)
    (mibCompiler b) (mibCorpus b) (corpusBuilding b) true (loadTexts b) (moduleConflictSeverity b)
    (warnings b ++ w) (disk b).
Definition put_disk (d : D) (b : MibBuilder) : MibBuilder :=
  mk_builder (mibSymbols b) (lastBuildId b) (autoName b) (mibSources b) (modSeen b) (modPathsSeen b) (modProvenance b)
    (mibCompiler b) (mibCorpus b) (corpusBuilding b) (shadowsReported b) (loadTexts b) (moduleConflictSeverity b)
    (warnings b) d.
(** [__init__], with its sources and perhaps a corpus *)
Definition init (sources : list (source D)) (c : option corpus) (d : D) : MibBuilder :=
  mk_builder [] 0 0 sources [] [] [] None c [] false false "warn" [] d.

(** [__init__]: the sources of the search path are opened, then the corpora that the
    environment names. *)
Definition new_builder (open_source : string → option MibSourceKind → result exn (source D))
    (open_corpora : list string → result exn corpus) (environ : string → option string)
    (defaultCoreMibs defaultMiscMibs defaultGeneratedMibs : string) (d : D) : result exn MibBuilder :=
  sources ← mapM (λ mk : string * option MibSourceKind, open_source mk.1 mk.2)
              (search_path environ defaultCoreMibs defaultMiscMibs defaultGeneratedMibs);
  match filter (λ x, x ≠ ""%string) (split_on pathsep (default ""%string (environ "PYSNMP_MIB_DBS"%string))) with
  | [] => mret (init sources None d)
  | dbs => c ← open_corpora dbs; mret (init sources (Some c) d)
  end.

Definition addMibSources (l : list (source D)) (b : MibBuilder) : MibBuilder := put_sources (mibSources b ++ l) b.
Definition setMibSources (l : list (source D)) (b : MibBuilder) : MibBuilder := put_sources l b.
(** The output directory of the compiler becomes a source. *)
Definition setMibCompiler (c : compiler) (destDir : source D) (b : MibBuilder) : MibBuilder :=
  put_compiler (Some c) (addMibSources [destDir] b).
Definition setMibCorpus (c : option corpus) (b : MibBuilder) : MibBuilder := put_corpus c b.
Definition getModulePath (modName : string) (b : MibBuilder) : option string := dget (modSeen b) modName.
Definition getModuleProvenance (modName : string) (b : MibBuilder) : option provenance := dget (modProvenance b) modName.

(** ** Symbols *)
Definition moduleID : string := View.moduleID.

(** A symbol is filed under its label, which is its name when it has none. *)
Definition file (nv : string * sym) : string * sym :=
  let '(symName, s) := nv in
  if decide (symName = moduleID) then nv
  else if is_class s then nv
  else if decide (label s = ""%string) then (symName, mk_sym false symName (object s)) else (label s, s).
Fixpoint export_named (modName : string) (l : list (string * sym)) : B unit :=
  match l with
  | [] => mret tt
  | nv :: l =>
      b ← gets id;
      let syms := default [] (dget (mibSymbols b) modName) in
      if din syms nv.1 then raise (SmiError "Symbol already exported")
      else
        let '(n, s) := file nv in
        modify (put_symbols (dset (mibSymbols b) modName (dset syms n s)));;
        export_named modName l
  end.
Fixpoint export_anonymous (modName : string) (l : list sym) : B unit :=
  match l with
  | [] => mret tt
  | s :: l =>
      b ← gets id;
      let syms := default [] (dget (mibSymbols b) modName) in
      modify (put_symbols (dset (mibSymbols b) modName (dset syms ("__pysnmp_" +:+ pretty (autoName b)) s)));;
      modify (put_autoName (autoName b + 1));;
      export_anonymous modName l
  end.
Definition exportSymbols (modName : string) (anonymousSyms : list sym) (namedSyms : list (string * sym)) : B unit :=
  b ← gets id;
  (if din (mibSymbols b) modName then mret tt else modify (put_symbols (dset (mibSymbols b) modName [])));;
  export_anonymous modName anonymousSyms;;
  export_named modName namedSyms;;
  modify count_build.

Fixpoint unexport (modName : string) (l : list string) : B unit :=
  match l with
  | [] => mret tt
  | n :: l =>
      b ← gets id;
      let syms := default [] (dget (mibSymbols b) modName) in
      if din syms n then modify (put_symbols (dset (mibSymbols b) modName (ddel syms n)));; unexport modName l
      else raise (SmiError "No symbol")
  end.
Definition unexportSymbols (modName : string) (symNames : list string) : B unit :=
  b ← gets id;
  match dget (mibSymbols b) modName with
  | None => raise (SmiError "No module")
  | Some syms =>
      unexport modName (match symNames with [] => dkeys syms | l => l end);;
      b ← gets id;
      (match dget (mibSymbols b) modName with
       | Some [] => modify (put_symbols (ddel (mibSymbols b) modName))
       | _ => mret tt
       end);;
      modify count_build
  end.

(** ** The copies of a module *)
Section loading.
Context (instructions : Code → list instruction) (read_source : D → source D → string → result exn (option (Code * string))).
(** What the code of a module does, given whether texts are loaded, and the fragment of
    behavior there may be for it *)
Context (body : Code → bool → program unit) (behavior : string → option (program unit)).

Definition revisionOf (c : Code) : option string := revision_from None (instructions c).
Abbreviation candidate := (source D * Code * string)%type.
Fixpoint offered (d : D) (modName : string) (l : list (source D)) : result exn (list candidate) :=
  match l with
  | [] => Ok []
  | s :: l =>
      r ← read_source d s modName;
      rest ← offered d modName l;
      mret (match r with Some (c, sfx) => (s, c, sfx) :: rest | None => rest end)
  end.
Definition revision_of_candidate (c : candidate) : option string := revisionOf c.1.2.
(** [not x]: no revision, or the empty one *)
Definition dated (c : candidate) : bool :=
  match revision_of_candidate c with None | Some EmptyString => false | Some _ => true end.
Definition newer (a b : text) : bool := tuple_leb b a.
(** The newest first, in the order of the sources where that says nothing *)
Definition by_revision (l : list candidate) : list candidate :=
  if (length l <? 2)%nat then l
  else if negb (forallb dated l) || (length (remove_dups (revision_of_candidate <$> l)) =? 1)%nat then l
  else sorted_by newer (λ c, codes (default ""%string (revision_of_candidate c))) l.
Definition candidates (modName : string) : B (list candidate) :=
  b ← gets id;
  l ← liftR (offered (disk b) modName (mibSources b));
  mret (by_revision l).

(** ** Shadowed modules *)
Definition carry (d : dict string (list provenance)) (mp : string * provenance) : dict string (list provenance) :=
  dset d mp.1 (default [] (dget d mp.1) ++ [mp.2]).
Definition shadowedModules (b : MibBuilder) : dict string (list provenance) :=
  let in_sources := mibSources b ≫= λ s, (λ m, (m, source_provenance s)) <$> listdir s (disk b) in
  let in_corpora := match mibCorpus b with
                    | None => []
                    | Some c => c_corpora c ≫= λ pm, (λ m, (m, (DB, pm.1))) <$> pm.2
                    end in
  filter (λ kv, (1 < length kv.2)%nat) (foldl carry [] (in_sources ++ in_corpora)).
(** The framework's own copies shadow those of the wheel. *)
Definition framework_shadow (l : list provenance) : bool :=
  forallb (λ p, bool_decide (p.1 = OVERRIDE ∨ p.1 = WHEEL)) l && bool_decide (OVERRIDE ∈ l.*1) &&
  bool_decide (WHEEL ∈ l.*1).
Definition CONFLICT_SEVERITIES : list string := ["warn"; "error"; "silent"]%string.
Definition reportShadowedModules : B (dict string (list provenance)) :=
  b ← gets id;
  if decide (moduleConflictSeverity b ∉ CONFLICT_SEVERITIES) then raise (SmiError "moduleConflictSeverity")
  else
    let shadowed := filter (λ kv, framework_shadow kv.2 = false) (shadowedModules b) in
    if shadowsReported b || bool_decide (shadowed = []) then modify (put_reported []);; mret shadowed
    else
      modify (put_reported (if decide (moduleConflictSeverity b = "warn"%string)
                            then sorted_by tuple_leb (λ kv, codes kv.1) shadowed else []));;
      if decide (moduleConflictSeverity b = "error"%string) then raise (SmiError "MIB modules are carried by more than one source")
      else mret shadowed.

(** ** Loading *)

(** [importSymbols]: the symbols, of a module that is loaded first *)
Fixpoint import_each (load : string → B unit) (modName : string) (l : list string) : B (list sym) :=
  match l with
  | [] => mret []
  | n :: l =>
      b ← gets id;
      (if din (mibSymbols b) modName then mret tt else load modName);;
      b ← gets id;
      match dget (mibSymbols b) modName with
      | None => raise (MibNotFoundError "No module loaded")
      | Some syms =>
          s ← liftR (from_option_exc (SmiError "No symbol") (dget syms n));
          rest ← import_each load modName l;
          mret (s :: rest)
      end
  end.
Definition importSymbols (load : string → B unit) (modName : string) (symNames : list string) : B (list sym) :=
  if decide (modName = ""%string) then raise (SmiError "importSymbols: empty MIB module name")
  else import_each load modName symNames.

(** Running a program: what it asks for is answered by the builder. *)
Fixpoint run (load : string → B unit) {A} (p : program A) : B A :=
  match p with
  | Return a => mret a
  | Raise e => raise e
  | Import m l k => fun b => let '(r, b) := importSymbols load m l b in run load (k r) b
  | Export m a n k => fun b => let '(r, b) := exportSymbols m a n b in run load (k r) b
  end.

Definition corpusMayAnswer (c : corpus) : B bool :=
  b ← gets id;
  if negb (loadTexts b) || c_loadTexts c then mret true
  else match mibCompiler b with
       | Some _ => mret false
       | None => raise (SmiError "loadTexts is set but the corpus carries no texts")
       end.
Definition without (x : string) (l : list string) : list string := filter (λ y, y ≠ x) l.
(** [try: m; finally: discard] *)
Definition loadModuleFromCorpus (load : string → B unit) (modName : string) : B bool :=
  b ← gets id;
  match mibCorpus b with
  | None => mret false
  | Some c =>
      may ← corpusMayAnswer c;
      if negb may then mret false
      else if decide (modName ∈ corpusBuilding b) then raise (SmiError "its imports form a cycle")
      else
        modify (λ b, put_building (modName :: corpusBuilding b) b);;
        built ← (fun b => let '(r, b) := run load (load_module c modName) b in
                          (r, put_building (without modName (corpusBuilding b)) b));
        if negb (built : bool) then mret false
        else
          let path := ("corpus:" +:+ c_path c +:+ "/" +:+ modName)%string in
          modify (λ b, put_seen (dset (modSeen b) modName path) (path :: without path (modPathsSeen b))
                         (dset (modProvenance b) modName (DB, default (c_path c) (c_owner c modName))) b);;
          mret true
  end.

(** Only the first candidate is tried: it is loaded, or its path was seen. *)
Definition load_candidate (load : string → B unit) (modName : string) (c : source D * Code * string) : B unit :=
  let '(s, code, sfx) := c in
  let modPath := fullPath s modName sfx in
  b ← gets id;
  if decide (modPath ∈ modPathsSeen b) then mret tt
  else
    modify (put_paths (modPath :: modPathsSeen b));;
    try_except
      (run load (body code (loadTexts b));;
       match behavior modName with Some p => run load p | None => mret tt end)
      (λ e, Some (modify (λ b, put_paths (without modPath (modPathsSeen b)) b);; raise (MibLoadError "load error")));;
    modify (λ b, put_seen (dset (modSeen b) modName modPath) (modPathsSeen b)
                   (dset (modProvenance b) modName (source_provenance s)) b).
Definition loadModule (load : string → B unit) (modName : string) : B unit :=
  b ← gets id;
  if din (modSeen b) modName then mret tt
  else
    l ← candidates modName;
    (match l with [] => mret tt | c :: _ => load_candidate load modName c end);;
    b ← gets id;
    if din (modSeen b) modName then mret tt
    else
      built ← loadModuleFromCorpus load modName;
      if built : bool then mret tt else raise (MibNotFoundError "MIB file not found in search path").

Definition is_MibNotFound (e : exn) : bool := match e with MibNotFoundError _ => true | _ => false end.
(** A module that was not found is compiled, when there is a compiler. *)
Definition compile_module (load : string → B unit) (modName : string) (e : exn) : B unit :=
  b ← gets id;
  match mibCompiler b with
  | None => raise e
  | Some compile =>
      let '(status, d) := compile modName (loadTexts b) (disk b) in
      modify (put_disk d);;
      if existsb (λ x, bool_decide (x ∈ ["failed"; "missing"]%string)) status
      then raise (MibNotFoundError "compilation error(s)")
      else loadModule load modName
  end.
Fixpoint load_each (load : string → B unit) (names : list string) : B unit :=
  match names with
  | [] => mret tt
  | n :: names =>
      try_except (loadModule load n)
        (λ e, if is_MibNotFound e then Some (compile_module load n e) else None);;
      load_each load names
  end.
(** The modules of all sources, each once *)
Definition all_names (b : MibBuilder) : list string :=
  dkeys (foldl (λ d n, dset d n tt) [] (mibSources b ≫= λ s, listdir s (disk b))).
Definition load_names (load : string → B unit) (modNames : list string) : B unit :=
  names ← (match modNames with
           | [] => b ← gets id; reportShadowedModules;; mret (all_names b)
           | l => mret l
           end);
  match names with
  | [] => raise (MibNotFoundError "No MIB module to load")
  | _ => load_each load names
  end.
(** [loadModules]: what a module imports is loaded in turn, [fuel] modules deep. *)
Fixpoint loadModules (fuel : nat) (modNames : list string) : B unit :=
  load_names (λ m, match fuel with
                   | O => raise (OtherError "RecursionError")
                   | S fuel => loadModules fuel [m]
                   end) modNames.

(** ** Unloading *)
Fixpoint unload_each (l : list string) : B unit :=
  match l with
  | [] => mret tt
  | modName :: l =>
      b ← gets id;
      if din (mibSymbols b) modName then
        unexportSymbols modName [];;
        b ← gets id;
        match dget (modSeen b) modName with
        | None => raise KeyError
        | Some path =>
            if decide (path ∈ modPathsSeen b) then
              modify (put_seen (ddel (modSeen b) modName) (without path (modPathsSeen b)) (ddel (modProvenance b) modName));;
              unload_each l
            else raise KeyError
        end
      else raise (MibNotFoundError "No module")
  end.
Definition unloadModules (modNames : list string) : B unit :=
  b ← gets id;
  unload_each (match modNames with [] => dkeys (mibSymbols b) | l => l end).
End loading.
End builder.

Arguments Return {X A} a.
Arguments Raise {X A} e.
Arguments Import {X A} modName symNames k.
Arguments Export {X A} modName anonymousSyms namedSyms k.
End Loader.
