(* ===== verification/LoaderSpec.v ===== *)
(** * What holds of the loader of MIB modules

    The newest copy of a module is the one that is loaded; loading ends, as what is being
    loaded is never begun again; what the builder records of its modules stays consistent
    through every operation, so that what was loaded can be unloaded. *)
From S2P Require Export Loader.
Import Text Loader.
#[local] Open Scope Z_scope.

Module LoaderSpec.
Section spec.
Context {D Code X : Type}.
Context (instructions : Code → list instruction)
  (read_source : D → source D → string → result exn (option (Code * string))).
Abbreviation sym := (sym (X := X)).
Abbreviation corpus := (corpus (X := X)).
Abbreviation MibBuilder := (MibBuilder (D := D) (X := X)).
Abbreviation B := (M exn MibBuilder).
Abbreviation candidate := (source D * Code * string)%type.
Implicit Types (b : MibBuilder) (load : string → B unit).
Context (body : Code → bool → program (X := X) unit) (behavior : string → option (program (X := X) unit)).

(** ** Which copy is loaded *)
Abbreviation rev c := (codes (default ""%string (revision_of_candidate instructions c))).
(** The first of the newest where all copies are dated, the first otherwise *)
Definition best (l : list candidate) (c : candidate) : Prop :=
  ∃ pre post, l = pre ++ c :: post ∧
    if forallb (dated instructions) l
    then (∀ x, x ∈ pre → tuple_ltb (rev x) (rev c) = true) ∧ (∀ x, x ∈ post → tuple_leb (rev x) (rev c) = true)
    else pre = [].

Lemma newest_first (l : list candidate) c rest :
  sorted_by newer (λ c, rev c) l = c :: rest →
  ∃ pre post, l = pre ++ c :: post ∧ (∀ x, x ∈ pre → tuple_ltb (rev x) (rev c) = true) ∧
              (∀ x, x ∈ post → tuple_leb (rev x) (rev c) = true).
Proof.
  revert c rest. induction l as [|x l IH]; intros c rest; cbn; [done|].
  fold (sorted_by newer (λ c, rev c) l). destruct (sorted_by newer (λ c, rev c) l) as [|y l'] eqn:E.
  - intros [= <- _]. exists [], l. split; [done|]. split; [set_solver|].
    intros z Hz. rewrite <- (sorted_by_perm newer (λ c, rev c)), E in Hz. set_solver.
  - cbn. unfold newer at 1. destruct (tuple_leb (rev y) (rev x)) eqn:Hle; intros [= <- <-].
    + exists [], l. split; [done|]. split; [set_solver|]. intros z Hz.
      destruct (IH y l' eq_refl) as (pre & post & -> & Hpre & Hpost).
      apply elem_of_app in Hz as [Hz|Hz%elem_of_cons].
      * eapply leb_trans; [|exact Hle]. apply tuple_ltb_weaken; auto.
      * destruct Hz as [->|Hz]; [done|]. eapply leb_trans; [|exact Hle]. auto.
    + destruct (IH y l' eq_refl) as (pre & post & -> & Hpre & Hpost).
      exists (x :: pre), post. split; [done|]. split; [|done]. intros z [->|Hz]%elem_of_cons; [|auto].
      by rewrite tuple_ltb_leb, Hle.
Qed.

Lemma all_same (l : list candidate) : length (remove_dups (revision_of_candidate instructions <$> l)) = 1%nat →
  ∃ r, ∀ x, x ∈ l → revision_of_candidate instructions x = r.
Proof.
  intros H. destruct (remove_dups _) as [|r' [|]] eqn:E; try done. exists r'. intros x Hx.
  assert (revision_of_candidate instructions x ∈ remove_dups (revision_of_candidate instructions <$> l)) as Hin
    by (apply elem_of_remove_dups, list_elem_of_fmap; eauto).
  rewrite E in Hin. set_solver.
Qed.
Lemma best_first c (l : list candidate) :
  (∀ x, x ∈ l → revision_of_candidate instructions x = revision_of_candidate instructions c) → best (c :: l) c.
Proof.
  intros H. exists [], l. split; [done|]. destruct (forallb _ _); [|done]. split; [set_solver|].
  intros x Hx. rewrite (H x Hx). apply leb_refl.
Qed.
Lemma by_revision_best c rest (l : list candidate) : by_revision instructions l = c :: rest → best l c.
Proof.
  unfold by_revision. destruct (Nat.ltb_spec (length l) 2) as [Hl|_].
  { destruct l as [|x [|]]; intros [= <- <-]; [|cbn in Hl; lia]. apply best_first. set_solver. }
  destruct (forallb _ _) eqn:Hd; cbn [negb orb].
  - destruct (Nat.eqb_spec (length (remove_dups (revision_of_candidate instructions <$> l))) 1) as [H1|_].
    + destruct (all_same l H1) as (r & Hr). intros ->. apply best_first. intros x Hx. rewrite !Hr; set_solver.
    + intros (pre & post & -> & H)%newest_first. exists pre, post. by rewrite Hd.
  - intros ->. exists [], rest. by rewrite Hd.
Qed.
Lemma by_revision_perm (l : list candidate) : by_revision instructions l ≡ₚ l.
Proof. unfold by_revision. destruct (_ <? _)%nat; [done|]. destruct (_ || _); [done|]. apply sorted_by_perm. Qed.

Abbreviation loadModule := (loadModule instructions read_source body behavior).
Abbreviation load_candidate := (load_candidate body behavior).
Abbreviation loadModules := (loadModules instructions read_source body behavior).

Lemma load_candidate_records load m s code sfx b b' :
  load_candidate load m (s, code, sfx) b = (Ok tt, b') → fullPath s m sfx ∉ modPathsSeen b →
  getModulePath m b' = Some (fullPath s m sfx) ∧ getModuleProvenance m b' = Some (source_provenance s).
Proof.
  unfold Loader.load_candidate. munfold. intros H Hp. rewrite decide_False in H by done. revert H.
  intros H. repeat (case_step; try done); injection H as <-; unfold getModulePath, getModuleProvenance; cbn; by rewrite !dget_dset_eq.
Qed.

(** C37. A module is loaded from the copy with the newest revision, the one searched
    first among those; where a copy states no revision, from the one searched first.  The
    builder then answers with the path and the source of that copy. *)
Theorem newest_wins load m b (l : list candidate) :
  dget (modSeen b) m = None → offered read_source (disk b) m (mibSources b) = Ok l → l ≠ [] →
  ∃ s code sfx, best l (s, code, sfx) ∧
    ∀ b', loadModule load m b = (Ok tt, b') → fullPath s m sfx ∉ modPathsSeen b →
      getModulePath m b' = Some (fullPath s m sfx) ∧ getModuleProvenance m b' = Some (source_provenance s).
Proof.
  intros Hs Hl Hne. destruct (by_revision instructions l) as [|[[s code] sfx] rest] eqn:E.
  { pose proof (by_revision_perm l) as Hp. rewrite E in Hp. by apply Permutation_nil in Hp. }
  exists s, code, sfx. split; [by eapply by_revision_best|]. intros b' H Hp. revert H.
  unfold Loader.loadModule, candidates. munfold. unfold id. apply din_false in Hs. rewrite Hs, Hl. cbn. rewrite E.
  destruct (load_candidate load m (s, code, sfx) b) as [[[]|e] b1] eqn:Hc; [|done].
  apply load_candidate_records in Hc as [Hpath Hprov]; [|done].
  unfold din. unfold getModulePath in Hpath. rewrite Hpath. by intros [= <-].
Qed.

(** ** What a call leaves in place *)

(** The sources and the corpora in use, and the modules that their files hold *)
Context (srcs : list (source D)) (corp : option corpus) (files : list (string * string)) (modules : list string).
Definition corpus_path (c : corpus) (m : string) : string := ("corpus:" +:+ c_path c +:+ "/" +:+ m)%string.
(** What is on disk is among the files, a file holds one module, the corpus builds its
    modules only, and no file is named as it names them. *)
Record stocked : Prop := {
  files_offered d s m code sfx : s ∈ srcs → read_source d s m = Ok (Some (code, sfx)) → (fullPath s m sfx, m) ∈ files;
  files_once : NoDup files.*1;
  modules_built c m : corp = Some c → m ∉ modules → load_module c m = Return false;
  corpus_apart p : p ∈ files.*1 → starts_with "corpus:" p = false;
}.
Context (Hst : stocked).

Definition owns (p m : string) : Prop := (p, m) ∈ files ∨ ∃ c, corp = Some c ∧ p = corpus_path c m.
Lemma corpus_starts c m : starts_with "corpus:" (corpus_path c m) = true.
Proof. unfold starts_with, corpus_path. cbn. by destruct (c_path c). Qed.
Lemma app_str_inj (a x y : string) : (a +:+ x)%string = (a +:+ y)%string → x = y.
Proof. induction a; cbn; [done|]. intros [= H]. auto. Qed.
Lemma owns_inj p m m' : owns p m → owns p m' → m = m'.
Proof.
  assert (Hf : ∀ c x y, (p, x) ∈ files → p ≠ corpus_path c y).
  { intros c x y Hin ->. pose proof (corpus_apart Hst (corpus_path c y)) as H.
    rewrite corpus_starts in H. discriminate H. apply list_elem_of_fmap. by eexists (_, _). }
  intros [H|(c & Hc & ->)] [H'|(c' & Hc' & E)].
  - pose proof (elem_of_dget _ _ _ (files_once Hst) H). pose proof (elem_of_dget _ _ _ (files_once Hst) H'). congruence.
  - by edestruct Hf.
  - by edestruct Hf.
  - assert (c' = c) as -> by congruence. unfold corpus_path in E. by do 3 apply app_str_inj in E.
Qed.

Definition in_use b : Prop :=
  (∀ s, s ∈ mibSources b → s ∈ srcs) ∧ (∀ c, mibCorpus b = Some c → corp = Some c).
(** The records, while the modules of the files [P] are being loaded *)
Record recorded (P : list string) b : Prop := {
  rec_use : in_use b;
  rec_symbols : dict_ok (mibSymbols b);
  rec_module m syms : dget (mibSymbols b) m = Some syms → dict_ok syms;
  rec_seen : dict_ok (modSeen b);
  rec_keys : dkeys (modProvenance b) = dkeys (modSeen b);
  rec_paths m p : dget (modSeen b) m = Some p → p ∈ modPathsSeen b ∧ owns p m;
  rec_loading p : p ∈ P → p ∈ files.*1 ∧ p ∈ modPathsSeen b ∧ ∀ m, dget (modSeen b) m ≠ Some p;
}.
(** What a call that loads modules keeps *)
Record frame b b' : Prop := {
  frame_sources : mibSources b' = mibSources b;
  frame_corpus : mibCorpus b' = mibCorpus b;
  frame_building : corpusBuilding b' = corpusBuilding b;
  frame_paths : modPathsSeen b ⊆ modPathsSeen b';
  frame_recorded P : recorded P b → recorded P b';
}.
#[local] Instance frame_preorder : PreOrder frame.
Proof.
  split; [by intros b; split|]. intros b1 b2 b3 [H1 H2 H3 H4 H5] [G1 G2 G3 G4 G5].
  split; try congruence; [set_solver|auto].
Qed.
Definition keeps {A} (m : B A) : Prop := ∀ b, frame b (m b).2.

Lemma framed_ret {A} (a : A) : keeps (mret a).
Proof. intros b. done. Qed.
Lemma framed_raise {A} e : keeps (raise e : B A).
Proof. intros b. done. Qed.
Lemma framed_gets {A} (f : MibBuilder → A) : keeps (gets f).
Proof. intros b. done. Qed.
Lemma framed_liftR {A} (r : result exn A) : keeps (liftR r).
Proof. intros b. done. Qed.
Lemma frame_bind {A A'} (m : B A) (k : A → B A') b :
  frame b (m b).2 → (∀ a, keeps (k a)) → frame b ((m ≫= k) b).2.
Proof.
  intros Hm Hk. unfold mbind, M_bind. destruct (m b) as [[a|e] b1]; [|done]. etrans; [exact Hm|]. apply Hk.
Qed.
Lemma framed_bind {A A'} (m : B A) (k : A → B A') : keeps m → (∀ a, keeps (k a)) → keeps (m ≫= k).
Proof. intros Hm Hk b. by apply frame_bind. Qed.
Lemma keeps_modify f : (∀ b, frame b (f b)) → keeps (modify f).
Proof. intros H b. apply H. Qed.
Lemma framed_try {A} (m : B A) h : keeps m → (∀ e k, h e = Some k → keeps k) → keeps (try_except m h).
Proof.
  intros Hm Hh b. unfold try_except. specialize (Hm b). destruct (m b) as [[a|e] b1]; [done|].
  destruct (h e) as [k|] eqn:E; [|done]. etrans; [exact Hm|]. by eapply Hh.
Qed.
(** A call that goes on from the state it reads *)
Lemma keeps_read {A} (k : MibBuilder → B A) : (∀ b, frame b (k b b).2) → keeps (b ← gets id; k b).
Proof. intros H b. apply H. Qed.

Lemma frame_symbols b syms' :
  (∀ P, recorded P b → dict_ok syms' ∧ ∀ m syms, dget syms' m = Some syms → dict_ok syms) → frame b (put_symbols syms' b).
Proof. intros H. split; try done. intros P HP. destruct (H P HP). by destruct HP; split. Qed.
Lemma frame_set b m (f : dict string sym → dict string sym) :
  (∀ d, dict_ok d → dict_ok (f d)) →
  frame b (put_symbols (dset (mibSymbols b) m (f (default [] (dget (mibSymbols b) m)))) b).
Proof.
  intros Hf. apply frame_symbols. intros P HP. split; [apply dset_ok, HP|].
  intros m' syms. rewrite dget_dset. case_decide; [|apply (rec_module P b HP)].
  intros [= <-]. apply Hf. destruct (dget (mibSymbols b) m) eqn:E; [by eapply rec_module|constructor].
Qed.
(** What does not change the records *)
Lemma frame_count b : frame b (count_build b).
Proof. by split; [..|intros P []; split]. Qed.
Lemma frame_autoName z b : frame b (put_autoName z b).
Proof. by split; [..|intros P []; split]. Qed.
Lemma frame_reported w b : frame b (put_reported w b).
Proof. by split; [..|intros P []; split]. Qed.
Lemma frame_disk d b : frame b (put_disk d b).
Proof. by split; [..|intros P []; split]. Qed.

#[local] Hint Resolve framed_ret framed_raise framed_gets framed_liftR frame_count frame_autoName frame_reported
  frame_disk : keeps.
(** A change of the state that was read, and what follows *)
Lemma frame_modify {A} f (k : unit → B A) b : frame b (f b) → keeps (k tt) → frame b ((modify f ≫= k) b).2.
Proof. intros Hf Hk. unfold mbind, M_bind, modify. etrans; [exact Hf|]. apply Hk. Qed.
Lemma keeps_export_named m l : keeps (export_named m l : B unit).
Proof.
  induction l as [|nv l IH]; cbn; [apply framed_ret|]. apply keeps_read. intros b.
  destruct (din _ _); [done|]. destruct (file nv) as [n s].
  apply frame_modify; [|done]. apply (frame_set b m (λ d, dset d n s)). intros. by apply dset_ok.
Qed.
Lemma keeps_export_anonymous m l : keeps (export_anonymous m l : B unit).
Proof.
  induction l as [|s l IH]; cbn; [apply framed_ret|]. apply keeps_read. intros b.
  apply frame_modify; [|apply framed_bind; [apply keeps_modify; auto with keeps|done]].
  apply (frame_set b m (λ d, dset d _ s)). intros. by apply dset_ok.
Qed.
Lemma keeps_export m a n : keeps (exportSymbols m a n : B unit).
Proof.
  apply keeps_read. intros b.
  assert (Hk : keeps (export_anonymous m a;; export_named m n;; modify count_build : B unit)).
  { apply framed_bind; [apply keeps_export_anonymous|intros _].
    apply framed_bind; [apply keeps_export_named|intros _]. apply keeps_modify; auto with keeps. }
  destruct (din _ _) eqn:E; [exact (Hk b)|]. apply frame_modify; [|done]. apply din_false in E.
  pose proof (frame_set b m id) as H. rewrite E in H. by apply H.
Qed.

Lemma offered_here d m l c : offered read_source d m l = Ok c →
  ∀ s code sfx, (s, code, sfx) ∈ c → s ∈ l ∧ read_source d s m = Ok (Some (code, sfx)).
Proof.
  revert c. induction l as [|s' l IH]; intros c; cbn; [intros [= <-]; set_solver|].
  munfold. destruct (read_source d s' m) as [r|] eqn:Hr; [|done]. destruct (offered read_source d m l) as [rest|]; [|done].
  intros [= <-] s code sfx H. destruct r as [[code' sfx']|].
  - apply elem_of_cons in H as [[= -> -> ->]|H]; [split; [left|done]|]. destruct (IH rest eq_refl s code sfx H). split; [by right|done].
  - destruct (IH rest eq_refl s code sfx H). split; [by right|done].
Qed.
Lemma candidates_here m b c s code sfx :
  (candidates instructions read_source m b).1 = Ok c → (s, code, sfx) ∈ c → in_use b → (fullPath s m sfx, m) ∈ files.
Proof.
  unfold candidates. munfold. unfold id. destruct (offered _ _ _ _) as [l|] eqn:Hl; [|done]. intros [= <-] Hin [Hs _].
  rewrite by_revision_perm in Hin. destruct (offered_here _ _ _ _ Hl _ _ _ Hin). eapply files_offered; eauto.
Qed.
Lemma candidates_read m b :
  candidates instructions read_source m b = ((candidates instructions read_source m b).1, b).
Proof. unfold candidates. munfold. by destruct (offered _ _ _ _). Qed.
Lemma bind_at {A A'} (m : B A) (k : A → B A') b r :
  m b = (r, b) → (m ≫= k) b = match r with Ok a => k a b | Err e => (Err e, b) end.
Proof. unfold mbind, M_bind. by intros ->. Qed.

Section load.
Context (load : string → B unit) (Hload : ∀ m, keeps (load m)).

Lemma keeps_import_each m l : keeps (import_each load m l).
Proof.
  induction l as [|n l IH]; cbn; [apply framed_ret|]. apply keeps_read. intros b.
  apply (framed_bind (if din (mibSymbols b) m then mret tt else load m)); [by destruct (din _ _); auto with keeps|intros _].
  apply keeps_read. intros b'. destruct (dget _ m) as [syms|]; [|done].
  apply (framed_bind (liftR _)); [auto with keeps|intros s]. apply framed_bind; [done|auto with keeps].
Qed.
Lemma keeps_run {A} (p : program A) : keeps (run load p).
Proof.
  induction p as [a|e|m l k IH|m a n k IH]; cbn; [auto with keeps..| |]; intros b.
  - pose proof (keeps_import_each m l b) as H. unfold importSymbols in *.
    destruct (decide (m = ""%string)); [by apply IH|].
    destruct (import_each load m l b) as [r b1]. etrans; [exact H|]. apply IH.
  - pose proof (keeps_export m a n b) as H. destruct (exportSymbols m a n b) as [r b1]. etrans; [exact H|]. apply IH.
Qed.

Lemma without_elem x y l : y ∈ without x l ↔ y ∈ l ∧ y ≠ x.
Proof. unfold without. rewrite list_elem_of_filter. tauto. Qed.
Lemma without_head x l : x ∉ l → without x (x :: l) = l.
Proof.
  intros H. unfold without. rewrite filter_cons_False by tauto. induction l as [|y l IH]; [done|].
  rewrite filter_cons_True by set_solver. f_equal. apply IH. set_solver.
Qed.

(** The file [p] of module [m] is taken up, and given up or recorded. *)
Lemma recorded_take P p b :
  p ∈ files.*1 → p ∉ modPathsSeen b → recorded P b → recorded (p :: P) (put_paths (p :: modPathsSeen b) b).
Proof.
  intros Hp Hn []. split; cbn [mibSymbols modSeen modProvenance modPathsSeen put_seen put_paths]; try done.
  - intros m q H. destruct (rec_paths0 m q H). set_solver.
  - intros q [->|Hq]%elem_of_cons; [|naive_solver set_solver].
    split; [done|]. split; [set_solver|]. intros m H. by destruct (rec_paths0 m p H).
Qed.
Lemma recorded_drop P p b :
  p ∉ P → recorded (p :: P) b → recorded P (put_paths (without p (modPathsSeen b)) b).
Proof.
  intros Hp []. destruct (rec_loading0 p) as (_ & _ & Hno); [set_solver|]. split; cbn [mibSymbols modSeen modProvenance modPathsSeen put_seen put_paths]; try done.
  - intros m q H. rewrite without_elem. destruct (rec_paths0 m q H). split; [|done]. split; [done|].
    intros ->. by destruct (Hno m).
  - intros q Hq. destruct (rec_loading0 q) as (? & ? & ?); [set_solver|]. rewrite without_elem.
    split; [done|]. split; [|done]. split; [done|]. by intros ->.
Qed.
Lemma recorded_set P b m p seen prov :
  recorded P b → modPathsSeen b ⊆ seen → p ∈ seen → owns p m → p ∉ P →
  recorded P (put_seen (dset (modSeen b) m p) seen (dset (modProvenance b) m prov) b).
Proof.
  intros [] Hs Hp Ho HP. split; cbn [mibSymbols modSeen modProvenance modPathsSeen put_seen put_paths]; try done.
  - by apply dset_ok.
  - by rewrite !dkeys_dset, rec_keys0.
  - intros m' q. rewrite dget_dset. case_decide as Hm; [by intros [= <-]; subst|].
    intros H. destruct (rec_paths0 m' q H). set_solver.
  - intros q Hq. destruct (rec_loading0 q Hq) as (? & ? & ?). split; [done|]. split; [set_solver|].
    intros m'. rewrite dget_dset. case_decide; [|done]. congruence.
Qed.
Lemma recorded_done P p b : recorded (p :: P) b → recorded P b.
Proof. intros []. split; try done. set_solver. Qed.

Lemma keeps_load_candidate m s code sfx b :
  (in_use b → (fullPath s m sfx, m) ∈ files) → frame b (load_candidate load m (s, code, sfx) b).2.
Proof.
  intros Hf. unfold Loader.load_candidate. set (p := fullPath s m sfx) in *.
  munfold. unfold id. fold p. destruct (decide (p ∈ modPathsSeen b)) as [|Hn]; [done|].
  set (b1 := put_paths (p :: modPathsSeen b) b).
  set (exec := run load (body code (loadTexts b))).
  set (adapt := match behavior m with Some q => run load q | None => _ end).
  assert (Hk : keeps (exec;; adapt)).
  { apply framed_bind; [apply keeps_run|intros _]. unfold adapt. destruct (behavior m); [apply keeps_run|apply framed_ret]. }
  assert (Hp : ∀ P, recorded P b → (p, m) ∈ files ∧ p ∉ P ∧ recorded (p :: P) b1).
  { intros P HP. pose proof (Hf (rec_use P b HP)) as Hin. split; [done|].
    split; [intros H; by destruct (rec_loading P b HP p H) as (_ & ? & _)|].
    apply recorded_take; [|done..]. apply list_elem_of_fmap. by exists (p, m). }
  specialize (Hk b1). munfold. revert Hk. fold p b1.
  destruct (exec b1) as [[[]|e] b2]; [destruct (adapt b2) as [[[]|e] b3]|];
    intros [H1 H2 H3 H4 H5]; cbn in *; (split; cbn; [congruence..| |]).
  1,3,5: intros q Hq; try apply without_elem; set_solver.
  - intros P HP. destruct (Hp P HP) as (Hin & HnP & Hr).
    apply recorded_set; try done; [by eapply recorded_done, H5|set_solver|by left].
  - intros P HP. destruct (Hp P HP) as (_ & HnP & Hr). by apply recorded_drop, H5.
  - intros P HP. destruct (Hp P HP) as (_ & HnP & Hr). by apply recorded_drop, H5.
Qed.

Lemma recorded_building P l b : recorded P b → recorded P (put_building l b).
Proof. by intros []; split. Qed.
Lemma keeps_corpus m : keeps (loadModuleFromCorpus load m).
Proof.
  intros b. unfold loadModuleFromCorpus, corpusMayAnswer. munfold. unfold id.
  destruct (mibCorpus b) as [c|] eqn:Hc; [|done].
  destruct (negb (loadTexts b) || c_loadTexts c); cbn; [|by destruct (mibCompiler b)].
  destruct (decide (m ∈ corpusBuilding b)) as [|Hm]; [done|].
  pose proof (keeps_run (load_module c m) (put_building (m :: corpusBuilding b) b)) as Hk.
  destruct (run load (load_module c m) _) as [r b1]. destruct Hk as [H1 H2 H3 H4 H5]. cbn in *.
  assert (Hb : frame b (put_building (without m (corpusBuilding b1)) b1)).
  { split; cbn; [done..|by rewrite H3, without_head|done|]. intros P HP. by apply recorded_building, H5, recorded_building. }
  destruct r as [[|]|e]; [|done..]. cbn. etrans; [exact Hb|].
  set (b2 := put_building _ b1) in *. assert (Hc2 : mibCorpus b2 = Some c) by (cbn; congruence).
  assert (Hs : modPathsSeen b2 ⊆ corpus_path c m :: without (corpus_path c m) (modPathsSeen b2)).
  { intros q Hq. destruct (decide (q = corpus_path c m)) as [->|]; [left|right; by apply without_elem]. }
  split; [done..|done|]. intros P HP. refine (recorded_set P b2 _ _ _ _ HP Hs _ _ _); [left|..].
  - right. exists c. split; [|done]. by apply (rec_use P b2 HP).
  - intros H. destruct (rec_loading P b2 HP _ H) as (Hin & _). apply (corpus_apart Hst) in Hin.
    change (starts_with "corpus:" (corpus_path c m) = false) in Hin. by rewrite corpus_starts in Hin.
Qed.

Lemma keeps_loadModule m : keeps (loadModule load m).
Proof.
  apply keeps_read. intros b. destruct (din _ _); [done|].
  pose proof (λ c s code sfx, candidates_here m b c s code sfx) as Hin.
  rewrite (bind_at _ _ _ _ (candidates_read m b)). destruct (candidates _ _ m b).1 as [l|e]; [|done].
  apply frame_bind.
  { destruct l as [|[[s code] sfx] l]; [done|]. apply keeps_load_candidate. eapply Hin; [done|left]. }
  intros _. apply keeps_read. intros b'. destruct (din _ _); [done|].
  apply (framed_bind (loadModuleFromCorpus load m)); [apply keeps_corpus|]. intros []; auto with keeps.
Qed.
Lemma keeps_compile m e : keeps (compile_module instructions read_source body behavior load m e).
Proof.
  apply keeps_read. intros b. destruct (mibCompiler b) as [compile|]; [|done]. destruct (compile _ _ _) as [status d].
  apply frame_bind; [apply frame_disk|intros _]. destruct (existsb _ _); [apply framed_raise|apply keeps_loadModule].
Qed.
Lemma keeps_load_each names : keeps (load_each instructions read_source body behavior load names).
Proof.
  induction names as [|n names IH]; cbn; [apply framed_ret|]. apply framed_bind; [|done].
  apply framed_try; [apply keeps_loadModule|]. intros e k. destruct (is_MibNotFound e); [|done]. intros [= <-].
  apply keeps_compile.
Qed.
Lemma keeps_report : keeps (reportShadowedModules (D := D) (X := X)).
Proof.
  apply keeps_read. intros b. destruct (decide _); [done|].
  cbv zeta. match goal with |- frame _ ((if ?x then _ else _) _).2 => destruct x end; (apply frame_bind; [apply frame_reported|intros _]); [apply framed_ret|].
  destruct (decide _); [apply framed_raise|apply framed_ret].
Qed.
Lemma keeps_load_names names : keeps (load_names instructions read_source body behavior load names).
Proof.
  unfold load_names. apply framed_bind.
  - destruct names; [|apply framed_ret]. apply keeps_read. intros b. apply frame_bind; [apply keeps_report|].
    intros _. apply framed_ret.
  - intros [|]; [apply framed_raise|apply keeps_load_each].
Qed.
End load.
Lemma keeps_loadModules fuel names : keeps (loadModules fuel names).
Proof.
  revert names. induction fuel as [|fuel IH]; intros names; apply keeps_load_names; intros m; [apply framed_raise|apply IH].
Qed.

(** ** Loading ends *)

(** What may still be begun: files not taken up, and modules the corpus is not building *)
Definition left_out (l seen : list string) : nat := length (filter (λ x, x ∉ seen) l).
Definition remaining b : nat := left_out files.*1 (modPathsSeen b) + left_out modules (corpusBuilding b).

Lemma left_out_le l seen seen' : seen ⊆ seen' → (left_out l seen' ≤ left_out l seen)%nat.
Proof.
  intros H. unfold left_out. induction l as [|x l IH]; [done|]. rewrite !filter_cons.
  repeat case_decide; cbn [length]; try lia; set_solver.
Qed.
Lemma left_out_lt x l seen : x ∈ l → x ∉ seen → (left_out l (x :: seen) < left_out l seen)%nat.
Proof.
  intros Hx Hn. induction l as [|y l IH]; [set_solver|].
  assert (left_out l (x :: seen) ≤ left_out l seen)%nat by (apply left_out_le; set_solver).
  unfold left_out in *. rewrite !filter_cons.
  apply elem_of_cons in Hx as [<-|Hx]; [|specialize (IH Hx)];
    repeat case_decide; cbn [length]; try lia; set_solver.
Qed.
Lemma remaining_frame b b' : frame b b' → (remaining b' ≤ remaining b)%nat.
Proof.
  intros [_ _ H3 H4 _]. unfold remaining. rewrite H3. pose proof (left_out_le files.*1 _ _ H4). lia.
Qed.
Lemma in_use_frame b b' : frame b b' → in_use b → in_use b'.
Proof. intros [H1 H2 _ _ _]. unfold in_use. by rewrite H1, H2. Qed.

(** Two calls that are the same while no more than [n] remains *)
Definition agree (n : nat) {A} (m1 m2 : B A) : Prop := ∀ b, in_use b → (remaining b ≤ n)%nat → m1 b = m2 b.
Lemma agree_bind_at {A A'} n (m1 m2 : B A) (k1 k2 : A → B A') b :
  in_use b → (remaining b ≤ n)%nat → m1 b = m2 b → frame b (m1 b).2 → (∀ a, agree n (k1 a) (k2 a)) →
  (m1 ≫= k1) b = (m2 ≫= k2) b.
Proof.
  intros Hu Hn He Hf Hk. unfold mbind, M_bind. rewrite <- He. destruct (m1 b) as [[a|e] b1]; [|done].
  apply Hk; [by eapply in_use_frame|]. apply remaining_frame in Hf. cbn in Hf. lia.
Qed.
Lemma agree_bind {A A'} n (m1 m2 : B A) (k1 k2 : A → B A') :
  agree n m1 m2 → keeps m1 → (∀ a, agree n (k1 a) (k2 a)) → agree n (m1 ≫= k1) (m2 ≫= k2).
Proof. intros Hm Hk H b Hu Hn. by eapply agree_bind_at; [..|apply Hm|apply Hk|]. Qed.
Lemma agree_read {A} n (k1 k2 : MibBuilder → B A) :
  (∀ b, in_use b → (remaining b ≤ n)%nat → k1 b b = k2 b b) → agree n (b ← gets id; k1 b) (b ← gets id; k2 b).
Proof. intros H b. apply H. Qed.
Lemma agree_refl {A} n (m : B A) : agree n m m.
Proof. done. Qed.

Section agree.
Context (load1 load2 : string → B unit) (Hkeep : ∀ m, keeps (load1 m)).

Lemma agree_run {A} n (p : program A) : (∀ m, agree n (load1 m) (load2 m)) → agree n (run load1 p) (run load2 p).
Proof.
  intros Hload. induction p as [a|e|m l k IH|m a k' k IH]; cbn; [done..| |]; intros b Hu Hn.
  - assert (He : importSymbols load1 m l b = importSymbols load2 m l b).
    { unfold importSymbols. destruct (decide _); [done|]. revert b Hu Hn. clear IH.
      induction l as [|x l IHl]; [done|]. apply agree_read. intros b Hu Hn.
      eapply (agree_bind_at n); [done..| | |].
      - destruct (din _ _); [done|by apply Hload].
      - destruct (din _ _); [done|apply Hkeep].
      - intros _. apply agree_read. intros b' Hu' Hn'. destruct (dget _ m) as [syms|]; [|done].
        eapply (agree_bind_at n); [done..|]. intros s. apply agree_bind; [done|by apply keeps_import_each|done]. }
    pose proof (keeps_run load1 Hkeep (Import m l Return) b) as Hf. cbn in Hf. rewrite <- He.
    destruct (importSymbols load1 m l b) as [r b1]. apply IH; [by eapply in_use_frame|].
    apply remaining_frame in Hf. cbn in Hf. lia.
  - pose proof (keeps_export m a k' b) as Hf. destruct (exportSymbols m a k' b) as [r b1].
    apply IH; [by eapply in_use_frame|]. apply remaining_frame in Hf. cbn in Hf. lia.
Qed.

Lemma same_bind {A A'} (m1 m2 : B A) (k : A → B A') b : m1 b = m2 b → (m1 ≫= k) b = (m2 ≫= k) b.
Proof. intros H. unfold mbind, M_bind. by rewrite H. Qed.
Lemma same_try {A} (m1 m2 : B A) h b : m1 b = m2 b → try_except m1 h b = try_except m2 h b.
Proof. intros H. unfold try_except. by rewrite H. Qed.

(** Calls that agree below [n] are the same when they load, as loading takes something up. *)
Context (n : nat) (Hbelow : ∀ m b, in_use b → (remaining b < n)%nat → load1 m b = load2 m b).
Lemma below_agree b : (remaining b < n)%nat → ∀ m, agree (remaining b) (load1 m) (load2 m).
Proof. intros Hb m b' Hu Hb'. apply Hbelow; [done|lia]. Qed.

Lemma same_candidate m s code sfx b :
  (fullPath s m sfx, m) ∈ files → in_use b → (remaining b ≤ n)%nat →
  load_candidate load1 m (s, code, sfx) b = load_candidate load2 m (s, code, sfx) b.
Proof.
  intros Hin Hu Hn. unfold Loader.load_candidate. set (p := fullPath s m sfx) in *.
  unfold mbind at 1 6, M_bind at 1 6. cbn [gets id].
  destruct (decide (p ∈ modPathsSeen b)) as [|Hp]; [done|].
  apply (same_bind (try_except _ _) (try_except _ _) _ (put_paths (p :: modPathsSeen b) b)), same_try.
  set (b1 := put_paths _ b).
  assert (Hb1 : (remaining b1 < n)%nat).
  { unfold remaining, b1. cbn. assert (p ∈ files.*1) as Hf by (apply list_elem_of_fmap; by exists (p, m)).
    pose proof (left_out_lt _ _ _ Hf Hp). unfold remaining in Hn. lia. }
  pose proof (below_agree b1 Hb1) as Ha.
  assert (Hall : agree (remaining b1)
    (run load1 (body code (loadTexts b));; match behavior m with Some q => run load1 q | None => mret tt end)
    (run load2 (body code (loadTexts b));; match behavior m with Some q => run load2 q | None => mret tt end)).
  { apply agree_bind; [by apply agree_run|by apply keeps_run|intros _].
    destruct (behavior m); [by apply agree_run|done]. }
  apply Hall; [done|lia].
Qed.
Lemma same_corpus m b : in_use b → (remaining b ≤ n)%nat → loadModuleFromCorpus load1 m b = loadModuleFromCorpus load2 m b.
Proof.
  intros Hu Hn. unfold loadModuleFromCorpus, corpusMayAnswer. munfold. unfold id.
  destruct (mibCorpus b) as [c|] eqn:Hc; [|done].
  destruct (negb (loadTexts b) || c_loadTexts c); cbn; [|by destruct (mibCompiler b)].
  destruct (decide (m ∈ corpusBuilding b)) as [|Hm]; [done|].
  enough (run load1 (load_module c m) (put_building (m :: corpusBuilding b) b) =
          run load2 (load_module c m) (put_building (m :: corpusBuilding b) b)) as -> by done.
  destruct (decide (m ∈ modules)) as [Hmod|Hno]; [|by rewrite (modules_built Hst c m) by (done || by apply Hu)].
  set (b1 := put_building _ b).
  assert (Hb1 : (remaining b1 < n)%nat).
  { unfold remaining, b1. cbn. pose proof (left_out_lt _ _ _ Hmod Hm). unfold remaining in Hn. lia. }
  eapply agree_run; [by apply below_agree|done|done].
Qed.

Lemma same_loadModule m : agree n (loadModule load1 m) (loadModule load2 m).
Proof.
  apply agree_read. intros b Hu Hn. destruct (din _ _); [done|].
  pose proof (λ c s code sfx, candidates_here m b c s code sfx) as Hin.
  rewrite !(bind_at _ _ _ _ (candidates_read m b)). destruct (candidates _ _ m b).1 as [l|e]; [|done].
  eapply (agree_bind_at n); [done..| | |].
  - destruct l as [|[[s code] sfx] l]; [done|]. apply same_candidate; [|done..]. eapply Hin; [done|left|done].
  - destruct l as [|[[s code] sfx] l]; [done|]. apply keeps_load_candidate; [done|]. eapply Hin; [done|left].
  - intros _. apply agree_read. intros b' Hu' Hn'. destruct (din _ _); [done|].
    eapply (agree_bind_at n); [done..|by apply same_corpus|by apply keeps_corpus|done].
Qed.
Lemma same_compile m e : agree n (compile_module instructions read_source body behavior load1 m e)
  (compile_module instructions read_source body behavior load2 m e).
Proof.
  apply agree_read. intros b Hu Hn. destruct (mibCompiler b) as [compile|]; [|done].
  destruct (compile _ _ _) as [status d]. eapply (agree_bind_at n); [done..|apply frame_disk|intros _].
  destruct (existsb _ _); [done|apply same_loadModule].
Qed.
Lemma same_load_each names : agree n (load_each instructions read_source body behavior load1 names)
  (load_each instructions read_source body behavior load2 names).
Proof.
  induction names as [|m names IH]; cbn; [done|]. apply agree_bind; [|apply framed_try|done].
  - intros b Hu Hn. unfold try_except. rewrite <- same_loadModule by done.
    pose proof (keeps_loadModule load1 Hkeep m b) as Hf. destruct (loadModule load1 m b) as [[a|e] b1]; [done|].
    destruct (is_MibNotFound e); [|done]. apply same_compile; [by eapply in_use_frame|].
    apply remaining_frame in Hf. cbn in Hf. lia.
  - by apply keeps_loadModule.
  - intros e k. destruct (is_MibNotFound e); [|done]. intros [= <-]. by apply keeps_compile.
Qed.
Lemma same_load_names names : agree n (load_names instructions read_source body behavior load1 names)
  (load_names instructions read_source body behavior load2 names).
Proof.
  unfold load_names. apply agree_bind; [done| |intros [|]; [done|apply same_load_each]].
  destruct names; [|apply framed_ret]. apply keeps_read. intros b. apply frame_bind; [apply keeps_report|].
  intros _. apply framed_ret.
Qed.
End agree.

(** C38. Loading ends: what is being loaded is not begun again, so that no more nested
    loads are made than files and corpus modules remain, and more depth changes nothing. *)
Theorem loading_ends n fuel names b :
  in_use b → (remaining b ≤ n)%nat → (n ≤ fuel)%nat → loadModules fuel names b = loadModules n names b.
Proof.
  intros Hu Hr Hle. revert fuel names b Hle Hu Hr. induction n as [|n IH]; intros fuel names b Hle Hu Hr.
  - symmetry. destruct fuel; [done|]. refine (same_load_names _ _ _ 0 _ names b Hu Hr); [intros; apply framed_raise|lia].
  - destruct fuel as [|fuel]; [lia|]. refine (same_load_names _ _ _ (Datatypes.S n) _ names b Hu Hr).
    + intros. apply keeps_loadModules.
    + intros m b' Hu' Hb'. apply IH; [lia|done|lia].
Qed.

(** ** What the builder records *)

Lemma keeps_unexport m l : keeps (unexport m l : B unit).
Proof.
  induction l as [|n l IH]; cbn; [apply framed_ret|]. apply keeps_read. intros b.
  destruct (din _ n); [|done]. apply frame_modify; [|done].
  apply (frame_set b m (λ d, ddel d n)). intros. by apply ddel_ok.
Qed.
Lemma frame_remove m b : frame b (put_symbols (ddel (mibSymbols b) m) b).
Proof.
  apply frame_symbols. intros P HP. split; [apply ddel_ok, HP|]. intros m' syms.
  rewrite dget_ddel by apply HP. case_decide; [done|apply (rec_module P b HP)].
Qed.
Lemma keeps_unexportSymbols m l : keeps (unexportSymbols m l : B unit).
Proof.
  apply keeps_read. intros b. destruct (dget _ m); [|done]. apply frame_bind; [apply keeps_unexport|intros _].
  apply keeps_read. intros b'. apply frame_bind; [|intros _; apply keeps_modify; auto with keeps].
  destruct (dget _ m) as [[|]|]; [apply frame_remove|done..].
Qed.

Lemma dkeys_ddel_eq {V W : Type} (d : dict string V) (d' : dict string W) k :
  dkeys d = dkeys d' → dkeys (ddel d k) = dkeys (ddel d' k).
Proof.
  revert d'. induction d as [|[x v] d IH]; intros [|[x' v'] d']; try done. intros [= <- H]. cbn.
  case_decide; [done|]. unfold dkeys in *. cbn. f_equal. auto.
Qed.
Definition forget (m p : string) b : MibBuilder :=
  put_seen (ddel (modSeen b) m) (without p (modPathsSeen b)) (ddel (modProvenance b) m) b.
Lemma recorded_forget m p b : recorded [] b → dget (modSeen b) m = Some p → recorded [] (forget m p b).
Proof.
  intros [] Hm. split; cbn [mibSymbols modSeen modProvenance modPathsSeen put_seen forget]; try done.
  - by apply ddel_ok.
  - by apply dkeys_ddel_eq.
  - intros m' q. rewrite dget_ddel by done. case_decide as Hne; [done|]. intros H.
    destruct (rec_paths0 m' q H) as [Hq Ho]. split; [|done]. apply without_elem. split; [done|]. intros ->.
    destruct (rec_paths0 m p Hm) as [_ Ho']. by pose proof (owns_inj _ _ _ Ho Ho').
  - intros q Hq. set_solver.
Qed.
(** The records, and that nothing is being built *)
Definition settled b : Prop := recorded [] b ∧ corpusBuilding b = [].
Lemma settled_frame b b' : frame b b' → settled b → settled b'.
Proof. intros [H1 H2 H3 H4 H5] [HP Hb]. split; [auto|congruence]. Qed.
Lemma settled_unload l b : settled b → settled (unload_each l b).2.
Proof.
  revert b. induction l as [|m l IH]; intros b Hb; cbn; [done|].
  unfold mbind at 1, M_bind at 1. cbn [gets id]. destruct (din _ m); [|done].
  pose proof (settled_frame _ _ (keeps_unexportSymbols m [] b) Hb) as Hb1.
  unfold mbind at 1, M_bind at 1. destruct (unexportSymbols m [] b) as [[[]|e] b1]; [|done]. cbn in Hb1 |- *.
  unfold mbind at 1, M_bind at 1. cbn [gets id].
  destruct (dget (modSeen b1) m) as [p|] eqn:Hp; [|done]. destruct (decide _); [|done].
  apply (IH (forget m p b1)). destruct Hb1. split; [by apply recorded_forget|done].
Qed.

(** What is done with a builder *)
Inductive op : Type :=
  | Load (fuel : nat) (names : list string)
  | Unload (names : list string)
  | ExportSyms (m : string) (anonymousSyms : list sym) (namedSyms : list (string * sym))
  | UnexportSyms (m : string) (names : list string)
  | SetSources (l : list (source D))
  | AddSources (l : list (source D))
  | SetCorpus (c : option corpus)
  | SetCompiler (c : compiler (D := D)) (dest : source D).
Definition perform (o : op) : B unit :=
  match o with
  | Load fuel names => loadModules fuel names
  | Unload names => unloadModules names
  | ExportSyms m a n => exportSymbols m a n
  | UnexportSyms m l => unexportSymbols m l
  | SetSources l => modify (setMibSources l)
  | AddSources l => modify (addMibSources l)
  | SetCorpus c => modify (setMibCorpus c)
  | SetCompiler c dest => modify (setMibCompiler c dest)
  end.
Definition allowed (o : op) : Prop :=
  match o with
  | SetSources l | AddSources l => ∀ s, s ∈ l → s ∈ srcs
  | SetCompiler _ s => s ∈ srcs
  | SetCorpus c => ∀ c', c = Some c' → corp = Some c'
  | _ => True
  end.
(** The states of a builder, whether its operations succeed or raise *)
Inductive reached : MibBuilder → Prop :=
  | reached_init l c d : allowed (SetSources l) → allowed (SetCorpus c) → reached (init l c d)
  | reached_step o b : allowed o → reached b → reached (perform o b).2.

Lemma settled_use b b' : in_use b' → mibSymbols b' = mibSymbols b → modSeen b' = modSeen b →
  modProvenance b' = modProvenance b → modPathsSeen b' = modPathsSeen b → corpusBuilding b' = corpusBuilding b →
  settled b → settled b'.
Proof. intros Hu H1 H2 H3 H4 H5 [[] ?]. split; [|congruence]. split; by rewrite ?H1, ?H2, ?H3, ?H4. Qed.
Lemma reached_settled b : reached b → settled b.
Proof.
  induction 1 as [l c d Hl Hc|o b Ho _ IH].
  - split; [|done]. split; cbn; try done; try constructor; set_solver.
  - destruct o; cbn in *.
    1: by eapply settled_frame; [apply keeps_loadModules|].
    1: by apply settled_unload.
    1: by eapply settled_frame; [apply keeps_export|].
    1: by eapply settled_frame; [apply keeps_unexportSymbols|].
    all: apply (settled_use b); [|done..]; destruct IH as [[[Hs Hc]] _]; split; cbn; auto;
      intros s; rewrite ?elem_of_app; set_solver.
Qed.

(** C39. Whatever is loaded, unloaded, exported and configured, and whether that succeeds:
    the modules with a path are those with a source, the path of each is seen and is its
    own, and nothing is left as being built. *)
Theorem records_are_consistent b : reached b →
  dkeys (modProvenance b) = dkeys (modSeen b) ∧ corpusBuilding b = [] ∧
  ∀ m p, getModulePath m b = Some p → p ∈ modPathsSeen b ∧ owns p m ∧ ∀ m', getModulePath m' b = Some p → m' = m.
Proof.
  intros [HP Hb]%reached_settled. split; [apply HP|]. split; [done|]. intros m p Hm.
  destruct (rec_paths _ _ HP m p Hm) as [Hp Ho]. split; [done|]. split; [done|]. intros m' Hm'.
  destruct (rec_paths _ _ HP m' p Hm') as [_ Ho']. by eapply owns_inj.
Qed.

(** ** Unloading *)

Lemma dset_same {V} (d : dict string V) k v : dget d k = Some v → dset d k v = d.
Proof.
  induction d as [|[x w] d IH]; cbn; [done|]. case_decide; [by intros [= ->]; subst|]. intros Hd. by rewrite IH.
Qed.
Lemma unexport_all m syms b : dget (mibSymbols b) m = Some syms →
  unexport m (dkeys syms) b = (Ok tt, put_symbols (dset (mibSymbols b) m []) b).
Proof.
  revert b. induction syms as [|[k s] syms IH]; intros b Hm.
  - cbn. rewrite dset_same by done. by destruct b.
  - change (dkeys ((k, s) :: syms)) with (k :: dkeys syms). cbn [unexport].
    rewrite (bind_at (gets id) _ b (Ok b)) by done. cbv zeta. rewrite Hm. cbn [from_option id].
    assert (din ((k, s) :: syms) k = true) as -> by (apply din_true; left).
    cbn [ddel]. rewrite decide_True by done.
    unfold mbind at 1, M_bind at 1. cbn [modify]. rewrite IH by (cbn; by rewrite dget_dset_eq).
    cbn. by rewrite dset_dset.
Qed.
Lemma unexport_module m b : dict_ok (mibSymbols b) → din (mibSymbols b) m = true →
  unexportSymbols m [] b = (Ok tt, count_build (put_symbols (ddel (mibSymbols b) m) b)).
Proof.
  intros Hd Hm. unfold din in Hm. destruct (dget (mibSymbols b) m) as [syms|] eqn:E; [|done].
  unfold unexportSymbols. rewrite (bind_at (gets id) _ b (Ok b)) by done. rewrite E.
  unfold mbind at 1, M_bind at 1. rewrite (unexport_all m syms b E). munfold. unfold id. cbn.
  rewrite dget_dset_eq. cbn. by rewrite ddel_dset.
Qed.

(** C40. A loaded module is unloaded: its symbols, its path and its source are forgotten,
    so that it is searched for afresh when it is loaded again, and no other module
    changes. *)
Theorem loaded_is_unloaded b m p :
  reached b → getModulePath m b = Some p → din (mibSymbols b) m = true →
  ∃ b', unloadModules [m] b = (Ok tt, b') ∧
    getModulePath m b' = None ∧ getModuleProvenance m b' = None ∧ din (mibSymbols b') m = false ∧
    p ∉ modPathsSeen b' ∧ lastBuildId b' = lastBuildId b + 1 ∧
    ∀ m', m' ≠ m → getModulePath m' b' = getModulePath m' b ∧ dget (mibSymbols b') m' = dget (mibSymbols b) m' ∧
      ∀ p', getModulePath m' b = Some p' → p' ∈ modPathsSeen b'.
Proof.
  intros [HP _]%reached_settled Hp Hm. pose proof HP as [].
  set (b1 := count_build (put_symbols (ddel (mibSymbols b) m) b)).
  exists (forget m p b1). split; [|repeat split].
  - unfold unloadModules. rewrite (bind_at (gets id) _ b (Ok b)) by done. cbn [unload_each].
    rewrite (bind_at (gets id) _ b (Ok b)) by done. rewrite Hm.
    unfold mbind at 1, M_bind at 1. rewrite unexport_module by done. fold b1.
    rewrite (bind_at (gets id) _ b1 (Ok b1)) by done.
    change (dget (modSeen b1) m) with (getModulePath m b). rewrite Hp. rewrite decide_True by by eapply rec_paths0. done.
  - by apply dget_ddel_eq.
  - apply dget_ddel_eq. change (dict_ok (modProvenance b)). unfold dict_ok. by rewrite rec_keys0.
  - apply din_false. by apply dget_ddel_eq.
  - change (p ∉ without p (modPathsSeen b)). rewrite without_elem. by intros [].
  - by apply dget_ddel_ne.
  - by apply dget_ddel_ne.
  - intros p' Hp'. apply without_elem. destruct (rec_paths0 _ _ Hp') as [Hin Ho]. split; [done|]. intros ->.
    destruct (rec_paths0 _ _ Hp) as [_ Ho']. by pose proof (owns_inj _ _ _ Ho Ho').
Qed.
End spec.

(** ** What is read is on the disk *)
Section read.
Context {D Code : Type} (BYTECODE_SUFFIXES SOURCE_SUFFIXES : list string) (PY_MAGIC_NUMBER : octets)
  (marshal_loads compile : octets → result exn Code).

Lemma find_bytecode_found d (s : source D) f l t data sfx :
  find_bytecode PY_MAGIC_NUMBER d s f l = Ok (Some (t, data, sfx)) → sfx ∈ l ∧ ∃ o, getData s d (f +:+ sfx)%string = Ok o.
Proof.
  induction l as [|x l IH]; cbn; [done|]. destruct (getData s d (f +:+ x)%string) as [o|[]] eqn:E.
  - munfold. case_decide; [|set_solver]. repeat (case_step; try done); intros [= <- <- <-]; split; [left|by exists o|left|by exists o].
  - set_solver.
  - done.
Qed.
Lemma find_source_found d (s : source D) f l t sfx : find_source d s f l = Ok (Some (t, sfx)) → sfx ∈ l.
Proof.
  induction l as [|x l IH]; cbn; [done|]. destruct (getTimestamp s d (f +:+ x)%string) as [o|[]]; [|set_solver|done].
  intros [= <- <-]. left.
Qed.
Lemma read_found d (s : source D) f code sfx :
  read BYTECODE_SUFFIXES SOURCE_SUFFIXES PY_MAGIC_NUMBER marshal_loads compile d s f = Ok (Some (code, sfx)) →
  sfx ∈ BYTECODE_SUFFIXES ++ SOURCE_SUFFIXES ∧ ∃ o, getData s d (f +:+ sfx)%string = Ok o.
Proof.
  unfold read. munfold. rewrite elem_of_app.
  destruct (find_bytecode _ _ _ _ _) as [[[[t data] x]|]|] eqn:E; [apply find_bytecode_found in E as [??]| |done].
  all: destruct (find_source _ _ _ _) as [[[pyTime pySfx]|]|] eqn:F; [apply find_source_found in F| |done].
  all: repeat (case_step; try done); intros [= <- <-]; eauto.
Qed.
End read.
Lemma before_suffix m sfx x : (m +:+ sfx)%string = x → m = String.substring 0 (String.length x - String.length sfx) x.
Proof.
  intros <-. assert (String.length (m +:+ sfx) = String.length m + String.length sfx)%nat as ->
    by (clear; induction m as [|c m IH]; [done|]; exact (f_equal Datatypes.S IH)).
  rewrite Nat.add_sub.
  induction m as [|c m IH]; [by destruct sfx|]. exact (f_equal (String c) IH).
Qed.

(** ** An example: two directories, a corpus *)

(** Two copies of A-MIB, of which the second is newer; it imports from B-MIB.  The
    corpus has C-MIB, which imports from A-MIB. *)
Definition demo_files : dict string (octets * Z) :=
  [("mibs/A-MIB.py", ([1], 100)); ("mibs/B-MIB.py", ([2], 100)); ("old/A-MIB.py", ([3], 50))]%string.
Definition demo_dir (dir : string) : option (list string) :=
  match omap (λ p, if decide ((path_split p).1 = dir) then Some (path_split p).2 else None) (dkeys demo_files) with
  | [] => None
  | l => Some l
  end.
Abbreviation demo_suffixes := [".py"; ".pyc"]%string.
Definition demo_source (name : string) : source unit :=
  DirMibSource demo_suffixes id id (λ _, demo_dir) (λ _ p, fst <$> dget demo_files p) (λ _ p, snd <$> dget demo_files p)
    name None None.
Definition demo_compile (o : octets) : result exn Z := match o with [n] => Ok n | _ => Err (OtherError "SyntaxError") end.
Definition demo_read : unit → source unit → string → result exn (option (Z * string)) :=
  read [".pyc"%string] [".py"%string] [42; 42; 13; 10] demo_compile demo_compile.
Definition demo_instructions (n : Z) : list instruction :=
  match n with
  | 1 => [LOAD_CONST (Some "202001010000Z"%string); STORE MODULE_REVISION]
  | 3 => [LOAD_CONST (Some "202401010000Z"%string); STORE MODULE_REVISION]
  | _ => []
  end.
Abbreviation demo_sym n := (mk_sym (X := string) false n n).
Definition demo_export (m : string) (n : string) : program (X := string) unit :=
  Export m [] [(n, demo_sym n)] (λ r, match r with Ok _ => Return tt | Err e => Raise e end).
Definition demo_body (n : Z) (_ : bool) : program (X := string) unit :=
  match n with
  | 2 => demo_export "B-MIB" "b"
  | _ => Import "B-MIB" ["b"%string] (λ r, match r with Ok _ => demo_export "A-MIB" "a" | Err e => Raise e end)
  end.
Definition demo_corpus : corpus (X := string) :=
  mk_corpus false "core.db" (λ _, None) [("core.db", ["C-MIB"])]%string
    (λ m, if decide (m = "C-MIB"%string)
          then Import "A-MIB" ["a"%string] (λ r, match r with
                 | Ok _ => Export "C-MIB" [] [("c"%string, demo_sym "c")] (λ r, match r with Ok _ => Return true | Err e => Raise e end)
                 | Err e => Raise e
                 end)
          else Return false).
Definition demo_srcs : list (source unit) := [demo_source "mibs"; demo_source "old"].
Definition demo_owners : list (string * string) :=
  [("mibs/A-MIB.py", "A-MIB"); ("mibs/B-MIB.py", "B-MIB"); ("old/A-MIB.py", "A-MIB")]%string.
Definition demo_builder : MibBuilder (D := unit) := init demo_srcs (Some demo_corpus) tt.
Abbreviation demo_load fuel names := (loadModules demo_instructions demo_read demo_body (λ _, None) fuel names).
Abbreviation demo_loaded := (perform demo_instructions demo_read demo_body (λ _, None) (Load 4 ["C-MIB"%string]) demo_builder).2.

(** What was loaded is what was imported, from the newest copies. *)
Example demo_loading :
  (demo_load 4 ["C-MIB"%string] demo_builder).1 = Ok tt ∧
  modSeen demo_loaded = [("B-MIB", "mibs/B-MIB.py"); ("A-MIB", "old/A-MIB.py"); ("C-MIB", "corpus:core.db/C-MIB")]%string ∧
  modProvenance demo_loaded = [("B-MIB", (DIR, "mibs")); ("A-MIB", (DIR, "old")); ("C-MIB", (DB, "core.db"))]%string.
Proof. vm_compute. done. Qed.

Lemma demo_listed d m name sfx o :
  getData (demo_source name) d (m +:+ sfx)%string = Ok o → ∃ l, demo_dir name = Some l ∧ (m +:+ sfx)%string ∈ l.
Proof.
  cbn. unfold dir_getData. cbn. destruct (demo_dir name) as [l|]; [|done]. case_decide; [|done]. by exists l.
Qed.
Lemma demo_stocked : stocked demo_read demo_srcs (Some demo_corpus) demo_owners ["C-MIB"%string].
Proof.
  split.
  - intros d s m code sfx Hs (Hsfx & o & Ho)%read_found.
    assert (∃ name, s = demo_source name ∧ name ∈ ["mibs"; "old"]%string) as (name & -> & Hname).
    { unfold demo_srcs in Hs. set_unfold. naive_solver. }
    apply demo_listed in Ho as (l & Hl & Hin).
    assert (Hx : (name, (m +:+ sfx)%string) ∈ [("mibs", "A-MIB.py"); ("mibs", "B-MIB.py"); ("old", "A-MIB.py")]%string).
    { repeat (apply elem_of_cons in Hname as [->|Hname]); [..|by apply elem_of_nil in Hname];
        vm_compute in Hl; injection Hl as <-; rewrite !elem_of_cons; rewrite !elem_of_cons in Hin; destruct_or!; try (by apply elem_of_nil in Hin); rewrite Hin; auto. }
    assert (sfx = ".pyc" ∨ sfx = ".py")%string as [-> | ->] by set_solver;
      repeat (apply elem_of_cons in Hx as [[= -> E]|Hx]; [pose proof (before_suffix _ _ _ E) as ->;
        first [discriminate E|vm_compute; set_solver]|]); by apply elem_of_nil in Hx.
  - vm_compute. repeat constructor; set_solver.
  - intros c m [= <-] Hm. cbn. rewrite decide_False; [done|set_solver].
  - intros p Hp. assert (forallb (λ p, negb (starts_with "corpus:" p)) demo_owners.*1 = true) as H by done.
    rewrite forallb_forall in H. apply negb_true_iff, H. by apply list_elem_of_In.
Qed.

Lemma demo_in_use : in_use demo_srcs (Some demo_corpus) demo_builder.
Proof. by split; cbn; [|intros c [= <-]]. Qed.

Lemma pair_of {A A'} (p : A * A') a : p.1 = a → p = (a, p.2).
Proof. destruct p. by intros <-. Qed.
Lemma newest_wins_witness : ∃ s code sfx,
  fullPath s "A-MIB" sfx = "old/A-MIB.py"%string ∧
  getModulePath "A-MIB" (loadModule demo_instructions demo_read demo_body (λ _, None)
    (λ m, demo_load 3 [m]) "A-MIB" demo_builder).2 = Some (fullPath s "A-MIB" sfx) ∧
  best demo_instructions [(demo_source "mibs", 1, ".py"%string); (demo_source "old", 3, ".py"%string)] (s, code, sfx).
Proof.
  destruct (newest_wins demo_instructions demo_read demo_body (λ _, None) (λ m, demo_load 3 [m]) "A-MIB" demo_builder
    [(demo_source "mibs", 1, ".py"%string); (demo_source "old", 3, ".py"%string)] eq_refl)
    as (s & code & sfx & Hbest & Hload); [by vm_compute|done|].
  exists s, code, sfx.
  assert (fullPath s "A-MIB" sfx = "old/A-MIB.py"%string) as E.
  { destruct Hbest as (pre & post & E & H). cbn in H.
    destruct pre as [|x [|y pre]]; [|by injection E as _ <- <- <- _|by destruct pre].
    injection E as <- <- <- <-. destruct H as [_ H]. discriminate (H _ (list_elem_of_here _ _)). }
  split; [done|]. split; [|done]. apply Hload; [|by rewrite E; apply not_elem_of_nil].
  apply pair_of. by vm_compute.
Defined.

Lemma loading_ends_witness : demo_load 100 ["C-MIB"%string] demo_builder = demo_load 4 ["C-MIB"%string] demo_builder.
Proof.
  apply (loading_ends demo_instructions demo_read demo_body (λ _, None) demo_srcs (Some demo_corpus) demo_owners
    ["C-MIB"%string] demo_stocked); [apply demo_in_use|vm_compute; lia|lia].
Defined.

Abbreviation demo_reached := (reached demo_instructions demo_read demo_body (λ _, None) demo_srcs (Some demo_corpus)).
Lemma demo_is_reached : demo_reached demo_loaded.
Proof.
  apply (reached_step _ _ _ _ _ _ (Load 4 ["C-MIB"%string])); [done|].
  apply reached_init; [by intros s|by intros c [= <-]].
Qed.
Lemma records_are_consistent_witness : owns (Some demo_corpus) demo_owners "old/A-MIB.py" "A-MIB".
Proof.
  apply (records_are_consistent _ _ _ _ _ _ _ _ demo_stocked demo_loaded demo_is_reached). by vm_compute.
Defined.
Lemma loaded_is_unloaded_witness : ∃ b', unloadModules ["A-MIB"%string] demo_loaded = (Ok tt, b') ∧
  getModulePath "A-MIB" b' = None ∧ getModulePath "B-MIB" b' = Some "mibs/B-MIB.py"%string.
Proof.
  destruct (loaded_is_unloaded _ _ _ _ _ _ _ _ demo_stocked demo_loaded "A-MIB" "old/A-MIB.py" demo_is_reached)
    as (b' & H & Hp & _ & _ & _ & _ & Hall); [by vm_compute..|].
  exists b'. split; [done|]. split; [done|]. destruct (Hall "B-MIB"%string) as (-> & _); [done|by vm_compute].
Defined.

(** ** Where the loader falls short *)

Abbreviation demo_empty := (init [] None tt : MibBuilder (D := unit) (X := string)).
(** A module whose symbols were exported directly has no path: unloading it withdraws the
    symbols and then raises [KeyError]. *)
Example exported_is_not_unloaded :
  let b := (exportSymbols "X-MIB" [] [("x"%string, demo_sym "x")] demo_empty).2 in
  (unloadModules ["X-MIB"%string] b).1 = Err KeyError ∧ dkeys (mibSymbols (unloadModules ["X-MIB"%string] b).2) = [].
Proof. vm_compute. done. Qed.
(** An export that is refused half-way leaves what came before, and the count that a view
    is rebuilt by stays. *)
Example refused_export_is_not_counted :
  let b := (exportSymbols "X-MIB" [] [("x"%string, demo_sym "x")] demo_empty).2 in
  let '(r, b') := exportSymbols "X-MIB" [] [("y"%string, demo_sym "y"); ("x"%string, demo_sym "x")] b in
  r = Err (SmiError "Symbol already exported") ∧ lastBuildId b' = lastBuildId b ∧
  dkeys (default [] (dget (mibSymbols b') "X-MIB"%string)) = ["x"; "y"]%string.
Proof. vm_compute. done. Qed.
(** The name a symbol is exported under is checked, not the label it is filed under: two
    symbols of one label are one. *)
Example same_label_is_overwritten :
  let '(r, b) := exportSymbols "X-MIB" [] [("one"%string, demo_sym "x"); ("two"%string, mk_sym false "x" "other")] demo_empty in
  r = Ok tt ∧ (object <$> dget (default [] (dget (mibSymbols b) "X-MIB"%string)) "x"%string) = Some "other"%string.
Proof. vm_compute. done. Qed.
(** Bytecode that is validated by a hash is not loaded without its source. *)
Example hashed_bytecode_needs_source :
  let s := mk_source (D := unit) DIR "d" (λ _, ["M"%string])
             (λ _ f, if decide (f = "M.pyc"%string) then Ok ([42; 42; 13; 10] ++ [1; 0; 0; 0] ++ repeat 0 8 ++ [2]) else Err ENOENT)
             (λ _ _, Err ENOENT) (path_in "d") in
  demo_read tt s "M" = Ok None.
Proof. vm_compute. done. Qed.
(** A module that fails half-way leaves symbols: they are imported without an error, while
    loading it again fails for the symbols it left. *)
Definition demo_broken (_ : Z) (_ : bool) : program (X := string) unit :=
  Export "A-MIB" [] [("a"%string, demo_sym "a")] (λ r, match r with Ok _ => Raise TypeError | Err e => Raise e end).
Example failed_module_is_imported :
  let load := λ m, loadModules demo_instructions demo_read demo_broken (λ _, None) 3 [m] in
  let b := (load "A-MIB"%string demo_builder).2 in
  (load "A-MIB"%string demo_builder).1 = Err (MibLoadError "load error") ∧
  (importSymbols load "A-MIB" ["a"%string] b).1 = Ok [demo_sym "a"%string] ∧
  (load "A-MIB"%string b).1 = Err (MibLoadError "load error") ∧
  (unloadModules ["A-MIB"%string] b).1 = Err KeyError.
Proof. vm_compute. done. Qed.
(** The core modules come first, in the reverse of the order they are named in. *)
Example default_search_path :
  search_path (λ ev, if decide (ev = "PYSNMP_MIB_DIRS"%string) then Some "a:b"%string else None)
    "pysnmp.smi.mibs.instances:pysnmp.smi.mibs" "pysnmp_mibs" "pysmi.mibs.pysnmp" =
  [("pysnmp.smi.mibs", Some OVERRIDE); ("pysnmp.smi.mibs.instances", Some OVERRIDE); ("a", None); ("b", None);
   ("pysmi.mibs.pysnmp", Some WHEEL)]%string.
Proof. vm_compute. done. Qed.
End LoaderSpec.
